(* ===== verification/_CoqProject ===== *)
-Q . S2P
Prelude.v
Coding.v
Status.v
Strutil.v
Buffer.v
Comparator.v
Bloom.v
Crc32c.v
DBFormat.v
KeyOrder.v
Random.v
Arena.v
Skiplist.v
Memtable.v
WriteBatch.v
File.v
LogWriter.v
LogReader.v
Iterator.v
BlockBuilder.v
Block.v
IteratorWrapper.v
Merger.v
TwoLevel.v
DBIter.v
MemIter.v
FilterBlock.v
Snappy.v
Options.v
Format.v
TableBuilder.v
Table.v
VersionEdit.v
Vector.v
FileList.v
Version.v
VersionGet.v
VersionBuilder.v
Env.v
VersionSet.v
LogFile.v
FaultyEnv.v
Recovery.v
Snapshot.v
Manifest.v
Durable.v
References.v
Compaction.v
CompactionInputs.v
CompactionResult.v
CompactionPick.v
CompactionBase.v
LRU.v
LRUCorrect.v
LRUCache.v
BuildTable.v
TableCache.v
TableCacheCorrect.v
DB.v
DBWrite.v
WriteGroups.v
DBWriters.v
DBWritersCorrect.v
DBFiles.v
DBRecover.v
LogRecovery.v
DBRead.v
DBReadCorrect.v
DBCompact.v
IteratorFamily.v
CompactionDrop.v
CompactionViews.v
CompactionIter.v
CompactionWork.v
Obsolete.v
