(* ===== verification/Prelude.v ===== *)
(** * A verification development of lcdb

    lcdb ([src/engine/]) is a port of LevelDB to C: an ordered key-value store
    on log-structured merge trees.  This library models it as executable
    definitions translated from the sources and proves what makes each part,
    and the parts together, correct.

    ** The program

    A write enters as a batch ([write_batch.c]) and a queue of writers
    ([db_impl.c]); the writer at the head of the queue joins batches to a group,
    appends it to a log ([log_writer.c], checksums from [util/crc32c.c]) and
    inserts it into a memtable ([memtable.c]) over a skip list ([skiplist.c],
    memory from [util/arena.c]).  A full memtable is written out as a sorted table
    ([builder.c], [table/table_builder.c]): blocks of prefix-compressed entries
    ([table/block_builder.c]), compressed with Snappy ([util/snappy.c]), a filter
    block ([table/filter_block.c], policies from [util/bloom.c] and
    [dbformat.c]), an index block and a footer ([table/format.c]).  Tables are
    read back through a cache of open tables ([table_cache.c], [util/cache.c]),
    [table/table.c], [table/block.c] and the two-level iterator.  Which tables
    make up the database is recorded by version edits ([version_edit.c]),
    themselves records of a log, the MANIFEST, and kept in versions
    ([version_set.c]), which also choose what to compact.  A lookup asks the
    memtables and then the tables of the current version ([db_impl.c]); a client
    iterates over the merger ([table/merger.c]) of memtables and tables through
    the database iterator ([db_iter.c]).  When a database is opened, the MANIFEST
    and the logs are replayed ([log_reader.c], [db_impl.c]).

    ** The files, and what they model (all paths under [src/engine/src])

    - Prelude (this file): bytes, C integer types, the option and reader monads,
      lemmas on lists, and the automation the other files share.
    - Coding: [util/coding.h], [util/slice.c].  Buffer: [util/buffer.c], blocks
      with size and capacity, refined to byte strings.  Status: [util/status.c].
      Strutil: [util/strutil.c], [filename.c].  Random: [util/random.c].
      Vector: [util/vector.c], [util/array.c].  Arena: [util/arena.c].
    - Comparator: the interface of [util/comparator.h] with its contract as
      the class [ComparatorLaws], and the bytewise comparator.  Bloom:
      [util/hash.c] and the filter policy interface (class [FilterPolicy]) with
      the Bloom filter.  Crc32c: the portable part of [util/crc32c.c].  Snappy:
      [util/snappy.c].  Options: [util/options.c].
    - DBFormat: [dbformat.c], internal keys; the second instance of both
      interfaces, over any user comparator and policy.  KeyOrder: ranks of keys,
      with which [lia] decides comparisons.
    - Skiplist, Memtable, WriteBatch: [skiplist.c], [memtable.c],
      [write_batch.c].  The heap of the skip list is explicit, and insertion
      comes with the trace of states a concurrent reader can see.
    - File: the file operations of [util/env.h] as records with their contracts
      (classes), and the file objects of [util/env_mem_impl.h] as instances.
      Env: the environment, its contract as the class [EnvLaws], what a crash
      leaves of the files ([crash_of]), and a simple instance ([disk_ops]).
      LogWriter, LogReader: [log_writer.c], [log_reader.c]; LogFile: a log in a
      file of the environment.
    - Iterator: the table of operations of [table/iterator.h], its contract as
      the class [IteratorLaws]: the iterator presents a sorted list of pairs.
      Instances: Block ([table/block.c]), Merger ([table/merger.c]), TwoLevel
      ([table/two_level_iterator.c]), MemIter ([memtable.c]), DBIter
      ([db_iter.c]), Table ([table/table.c]), FileList (levels).  The clients
      among these are proved against the class, so they compose.
      IteratorWrapper: [table/iterator_wrapper.h].
    - BlockBuilder, FilterBlock, Format, TableBuilder, Table:
      [table/block_builder.c], [table/filter_block.c], [table/format.c],
      [table/table_builder.c], [table/table.c].  BuildTable: [builder.c].
    - LRU, LRUCorrect, LRUCache: [util/cache.c], with its heap of entries and
      their references.  TableCache, TableCacheCorrect: [table_cache.c].
    - VersionEdit: [version_edit.c].  The parts of [version_set.c]: FileList
      (lists of files, iterators over a level), Version and VersionGet (versions,
      lookups in them, overlapping files), VersionBuilder (applying edits),
      VersionSet (the set, the MANIFEST, recovery), References (reference counts
      of versions), Recovery, Snapshot, Manifest, Durable (crashes), Compaction,
      CompactionInputs, CompactionPick, CompactionBase, CompactionResult (the
      choice of compactions and what their results may be).
    - The parts of [db_impl.c]: DB (the state, snapshots, options), DBWrite and
      WriteGroups (the queue of writers, groups, room in the memtable), DBWriters
      and DBWritersCorrect (any number of writers as a transition system), DBFiles
      (new databases, obsolete files, tables of level 0), DBRecover (opening and
      closing), LogRecovery (the replay of a log), DBRead and DBReadCorrect
      (lookups, iterators, properties).

    ** How code becomes definitions

    A C function is a function of the state it reads that returns the state it
    leaves; parameters it writes through are results.  Unsigned integers are [Z]
    with the wrap-around written out ([u8], [u32], [u64]), byte strings are lists
    of bytes, objects that are shared are addresses in a heap.  A failed
    [assert], an access outside a block, a use of an uninitialised value and a
    loop that runs out of fuel are [None]; error codes are values, as in the code.
    So a theorem that some operation is [Some] says at once that it terminates,
    stays in bounds and fails no assertion.

    Code that gives up a mutex or waits on the way is cut into turns.  DBWriters
    runs the turns of writers in any order, with steps of the other threads of
    the program in between; elsewhere the definition of a whole function composes
    its turns and says what happens when no other thread comes in between.

    Fuel is computed from the data (the length of the input, the number of
    entries, ...) inside the definition, and the theorems prove that it is
    enough; there is no theorem of the form "if it returns".

    What is not under [src/] or is chosen at run time is a parameter: the
    success of [malloc], the text of operating-system errors, the files of an
    environment, a comparator or filter policy the user supplies.  What the code
    relies on is a class with an instance from the sources wherever there is one,
    and the witnesses instantiate it.

    ** The theorems

    - Writing: in every interleaving writers get into groups in the order in
      which they came, sequence numbers have no gaps and every status told is
      true; log and memtable agree (DBWritersCorrect).
    - Durability: a log cut anywhere is read back as a prefix of its records
      (LogReader), a log cut by a crash is recovered with every group that was
      synced (LogRecovery); the MANIFEST is switched and extended atomically and
      recovered (Durable); damage of up to four bytes is detected (Crc32c,
      LogReader, Format); arbitrary bytes never lead out of bounds (LogReader,
      Block, FilterBlock, Snappy, WriteBatch).
    - Reading: a lookup gives the newest version that the snapshot sees
      (DBReadCorrect, from Memtable and VersionGet), a batch is visible at every
      later snapshot (WriteBatch, Memtable, Skiplist), the database iterator shows
      the newest undeleted versions (DBIter) and agrees with lookups (MemIter).
    - Storage: a table built from sorted pairs reads back as exactly these
      pairs, by iteration, lookup, and lookup at a snapshot, for any lawful
      comparator, policy, files and options (Table, from Block, TwoLevel,
      FilterBlock, Format, TableBuilder), from a file and through the cache
      (TableCacheCorrect, LRUCache).
    - Metadata: version edits are round-tripped, and what the import accepts is
      well formed (VersionEdit); a saved version is the base with the edits
      applied (VersionBuilder); versions live exactly as long as they are held
      (References); file names are parsed back (Strutil).
    - Compaction: overlapping files are closed under user keys (Version), a due
      compaction is found (CompactionPick), replacing its inputs by what is in
      them keeps the order of versions (CompactionResult), and the test for a
      base level is right (CompactionBase).
    - Algorithms: quicksort (Vector), the checksum's strided tables (Crc32c), the
      random generator (Random), the buffers' refinement (Buffer), the arena's
      disjoint blocks (Arena), Snappy's round trip (Snappy).

    ** Not modelled

    - The loop of a background compaction ([ldb_do_compaction_work] and its
      callers), manual compactions, backups and the destruction of a database in
      [db_impl.c]; [repair.c].
    - The environments for Unix and Windows, the file system of the in-memory
      one, threads, mutexes, atomics and memory orders: operating-system
      services; the trace of skip-list states and the turns of writers stand for
      concurrency.
    - The hardware variants of CRC32C: instructions the kernel cannot see.
    - Destructors, and the red-black trees of [util/rbt.c], which stand for sets
      of numbers and of files.
    - The bindings, tools, benchmarks and tests, and the libraries [src/stl/] and
      [src/rpc/], which the engine does not use. *)

From stdpp Require Export base list numbers option.
From Stdlib Require Export ZArith Lia.
From Stdlib Require Import Strings.Byte Sorting.Sorted.

#[global] Open Scope Z_scope.
#[global] Open Scope list_scope.

(** ** Bytes and machine words *)

Abbreviation byte := Byte.byte.
Abbreviation bytes := (list Byte.byte).

#[global] Instance byte_eq_decision : EqDecision Byte.byte := Byte.byte_eq_dec.

(** The numeric value of a [uint8_t]. *)
Definition b2z (b : byte) : Z := Z.of_N (Byte.to_N b).

(** The C conversion [(uint8_t)z]: reduction modulo 256. *)
Definition z2b (z : Z) : byte :=
  match Byte.of_N (Z.to_N (z mod 256)) with Some b => b | None => Byte.x00 end.

(** Conversions to the unsigned integer types of C. *)
Definition u8 (z : Z) : Z := z mod 2 ^ 8.
Definition u16 (z : Z) : Z := z mod 2 ^ 16.
Definition u32 (z : Z) : Z := z mod 2 ^ 32.
Definition u64 (z : Z) : Z := z mod 2 ^ 64.

(** Conversion to a signed 32-bit [int] (two's complement). *)
Definition s32 (z : Z) : Z := (z + 2 ^ 31) mod 2 ^ 32 - 2 ^ 31.

(** Conversion to [int64_t]. *)
Definition s64 (z : Z) : Z := (z + 2 ^ 63) mod 2 ^ 64 - 2 ^ 63.

Lemma b2z_range b : 0 <= b2z b < 256.
Proof.
  unfold b2z. pose proof (Byte.to_N_bounded b). lia.
Qed.

Lemma b2z_z2b z : b2z (z2b z) = z mod 256.
Proof.
  unfold b2z, z2b. pose proof (Z.mod_pos_bound z 256 eq_refl) as Hz.
  destruct (Byte.of_N (Z.to_N (z mod 256))) as [b|] eqn:E.
  - apply Byte.to_of_N in E. rewrite E. lia.
  - apply Byte.of_N_None_iff in E. lia.
Qed.

Lemma z2b_b2z b : z2b (b2z b) = b.
Proof.
  unfold b2z, z2b. pose proof (Byte.to_N_bounded b).
  rewrite Z.mod_small by lia. by rewrite N2Z.id, Byte.of_to_N.
Qed.

Lemma b2z_inj b c : b2z b = b2z c -> b = c.
Proof. intros H. by rewrite <- (z2b_b2z b), H, z2b_b2z. Qed.

Lemma z2b_mod z : z2b (z mod 256) = z2b z.
Proof. unfold z2b. by rewrite Z.mod_mod. Qed.

Lemma b2z_z2b_small z : 0 <= z < 256 -> b2z (z2b z) = z.
Proof. intros. by rewrite b2z_z2b, Z.mod_small. Qed.

Lemma u8_range z : 0 <= u8 z < 2 ^ 8.
Proof. by apply Z.mod_pos_bound. Qed.
Lemma u16_range z : 0 <= u16 z < 2 ^ 16.
Proof. by apply Z.mod_pos_bound. Qed.
Lemma u32_range z : 0 <= u32 z < 2 ^ 32.
Proof. by apply Z.mod_pos_bound. Qed.
Lemma u64_range z : 0 <= u64 z < 2 ^ 64.
Proof. by apply Z.mod_pos_bound. Qed.

Lemma u8_small z : 0 <= z < 2 ^ 8 -> u8 z = z.
Proof. apply Z.mod_small. Qed.
Lemma u16_small z : 0 <= z < 2 ^ 16 -> u16 z = z.
Proof. apply Z.mod_small. Qed.
Lemma u32_small z : 0 <= z < 2 ^ 32 -> u32 z = z.
Proof. apply Z.mod_small. Qed.
Lemma u64_small z : 0 <= z < 2 ^ 64 -> u64 z = z.
Proof. apply Z.mod_small. Qed.

Lemma s64_small z : - 2 ^ 63 <= z < 2 ^ 63 -> s64 z = z.
Proof. intros H. unfold s64. rewrite Z.mod_small; lia. Qed.

Create HintDb words.
Create Rewrite HintDb words.
#[export] Hint Resolve b2z_range u8_range u16_range u32_range u64_range : words.
#[export] Hint Rewrite b2z_z2b z2b_b2z z2b_mod : words.

(** Brings the range of every byte of the context and goal into the context. *)
Ltac byte_ranges :=
  repeat match goal with
  | |- context [b2z ?b] =>
      lazymatch goal with
      | _ : 0 <= b2z b < 256 |- _ => fail
      | _ => pose proof (b2z_range b)
      end
  | _ : context [b2z ?b] |- _ =>
      lazymatch goal with
      | _ : 0 <= b2z b < 256 |- _ => fail
      | _ => pose proof (b2z_range b)
      end
  end.

(** ** Bitwise operations as arithmetic *)

Lemma testbit_small x k n : 0 <= x < 2 ^ k -> 0 <= k <= n -> Z.testbit x n = false.
Proof.
  intros Hx Hk. rewrite <- (Z.mod_small x (2 ^ k)) by done.
  by apply Z.mod_pow2_bits_high.
Qed.

(** A disjunction of disjoint fields is a sum. *)
Lemma lor_disjoint a b k :
  0 <= k -> 0 <= a < 2 ^ k -> Z.lor a (Z.shiftl b k) = a + b * 2 ^ k.
Proof.
  intros Hk Ha. rewrite <- Z.shiftl_mul_pow2 by done.
  symmetry. rewrite <- Z.lxor_lor; [apply Z.add_nocarry_lxor|].
  all: apply Z.bits_inj'; intros n Hn; rewrite Z.land_spec, Z.bits_0;
    destruct (Z.ltb_spec n k);
    [rewrite (Z.shiftl_spec_low b) by done; apply andb_false_r
    |rewrite (testbit_small a k) by lia; done].
Qed.

Lemma lor_disjoint_mul a b k :
  0 <= k -> 0 <= a < 2 ^ k -> Z.lor a (b * 2 ^ k) = a + b * 2 ^ k.
Proof. intros Hk Ha. rewrite <- (Z.shiftl_mul_pow2 b k) at 1 by done. by apply lor_disjoint. Qed.

(** The bitwise operations stay within a word. *)
Lemma mod_pow2_bits_eq x k :
  0 <= k -> (forall n, k <= n -> Z.testbit x n = false) -> x = x mod 2 ^ k.
Proof.
  intros Hk Hx. apply Z.bits_inj'. intros n Hn. rewrite Z.testbit_mod_pow2 by done.
  destruct (Z.ltb_spec n k); [done|]. by apply Hx.
Qed.

Lemma pow2_range x k :
  0 <= k -> (forall n, k <= n -> Z.testbit x n = false) -> 0 <= x < 2 ^ k.
Proof.
  intros Hk Hx. rewrite (mod_pow2_bits_eq x k) by done.
  apply Z.mod_pos_bound. lia.
Qed.

Lemma lor_range a b k :
  0 <= k -> 0 <= a < 2 ^ k -> 0 <= b < 2 ^ k -> 0 <= Z.lor a b < 2 ^ k.
Proof.
  intros Hk Ha Hb. apply pow2_range; [done|]. intros n Hn.
  by rewrite Z.lor_spec, (testbit_small a k), (testbit_small b k) by lia.
Qed.

Lemma lxor_range a b k :
  0 <= k -> 0 <= a < 2 ^ k -> 0 <= b < 2 ^ k -> 0 <= Z.lxor a b < 2 ^ k.
Proof.
  intros Hk Ha Hb. apply pow2_range; [done|]. intros n Hn.
  by rewrite Z.lxor_spec, (testbit_small a k), (testbit_small b k) by lia.
Qed.

Lemma land_ones_mod x k : 0 <= k -> Z.land x (Z.ones k) = x mod 2 ^ k.
Proof. apply Z.land_ones. Qed.

Lemma land_255 x : Z.land x 255 = x mod 256.
Proof. apply (Z.land_ones x 8). lia. Qed.
Lemma land_127 x : Z.land x 127 = x mod 128.
Proof. apply (Z.land_ones x 7). lia. Qed.

(** [x & 2^k] tests bit [k]. *)
Lemma land_pow2_eqb x k : 0 <= k -> (Z.land x (2 ^ k) =? 0) = negb (Z.testbit x k).
Proof.
  intros Hk. destruct (Z.testbit x k) eqn:E; cbn.
  - apply Z.eqb_neq. intros H.
    assert (Z.testbit (Z.land x (2 ^ k)) k = false) as H' by by rewrite H, Z.bits_0.
    rewrite Z.land_spec, E, Z.pow2_bits_true in H'; [done|lia].
  - apply Z.eqb_eq, Z.bits_inj'. intros n Hn. rewrite Z.land_spec, Z.bits_0.
    destruct (Z.eqb_spec n k) as [->|Hne]; [by rewrite E|].
    rewrite Z.pow2_bits_false by lia. apply andb_false_r.
Qed.

Lemma testbit_7_ltb x : 0 <= x < 256 -> Z.testbit x 7 = negb (x <? 128).
Proof.
  intros Hx. rewrite Z.testbit_eqb by lia. change (2 ^ 7) with 128.
  destruct (Z.ltb_spec x 128); cbn.
  - rewrite Z.div_small by lia. done.
  - apply Z.eqb_eq. assert (x / 128 = 1) as -> by (Z.div_mod_to_equations; lia).
    done.
Qed.

(** ** Lists indexed by [Z] *)

Definition zlen {A} (xs : list A) : Z := Z.of_nat (length xs).
Definition ztake {A} (n : Z) (xs : list A) : list A := take (Z.to_nat n) xs.
Definition zdrop {A} (n : Z) (xs : list A) : list A := drop (Z.to_nat n) xs.
Definition zeros (n : Z) : bytes := replicate (Z.to_nat n) Byte.x00.

(** [at_ xs i] is the value of [xs[i]] for an index the caller has checked;
    outside the list C has no value, here it is 0. *)
Definition at_ (xs : bytes) (i : Z) : Z := b2z (nth (Z.to_nat i) xs Byte.x00).

(** One step of a computation, without simplifying what follows. *)
Lemma bind_some {A B} (f : A -> option B) x : (Some x ≫= f) = f x.
Proof. done. Qed.

Lemma zlen_nonneg {A} (xs : list A) : 0 <= zlen xs.
Proof. unfold zlen. lia. Qed.
Lemma zlen_nil {A} : zlen (@nil A) = 0.
Proof. done. Qed.
Lemma zlen_cons {A} (x : A) xs : zlen (x :: xs) = 1 + zlen xs.
Proof. unfold zlen. cbn [length]. lia. Qed.
Lemma zlen_app {A} (xs ys : list A) : zlen (xs ++ ys) = zlen xs + zlen ys.
Proof. unfold zlen. rewrite length_app. lia. Qed.
Lemma zlen_take {A} n (xs : list A) : 0 <= n <= zlen xs -> zlen (ztake n xs) = n.
Proof. unfold zlen, ztake. intros. rewrite length_take. lia. Qed.
Lemma zlen_drop {A} n (xs : list A) : 0 <= n <= zlen xs -> zlen (zdrop n xs) = zlen xs - n.
Proof. unfold zlen, zdrop. intros. rewrite length_drop. lia. Qed.
Lemma zlen_zeros n : 0 <= n -> zlen (zeros n) = n.
Proof. unfold zlen, zeros. intros. rewrite length_replicate. lia. Qed.
Lemma ztake_zdrop {A} n (xs : list A) : ztake n xs ++ zdrop n xs = xs.
Proof. apply take_drop. Qed.
Lemma ztake_app {A} n (xs ys : list A) : n = zlen xs -> ztake n (xs ++ ys) = xs.
Proof.
  intros ->. unfold ztake, zlen. rewrite Nat2Z.id. by rewrite take_app_length.
Qed.
Lemma zdrop_app {A} n (xs ys : list A) : n = zlen xs -> zdrop n (xs ++ ys) = ys.
Proof.
  intros ->. unfold zdrop, zlen. rewrite Nat2Z.id. by rewrite drop_app_length.
Qed.
Lemma ztake_all {A} n (xs : list A) : zlen xs <= n -> ztake n xs = xs.
Proof. unfold ztake, zlen. intros. apply take_ge. lia. Qed.
Lemma zdrop_all {A} n (xs : list A) : zlen xs <= n -> zdrop n xs = [].
Proof. unfold zdrop, zlen. intros. apply drop_ge. lia. Qed.
Lemma ztake_0 {A} (xs : list A) : ztake 0 xs = [].
Proof. done. Qed.
Lemma zdrop_0 {A} (xs : list A) : zdrop 0 xs = xs.
Proof. done. Qed.
Lemma zlen_0_nil {A} (xs : list A) : zlen xs = 0 -> xs = [].
Proof. unfold zlen. destruct xs; [done|cbn; lia]. Qed.
Lemma zdrop_zdrop {A} n m (xs : list A) :
  0 <= n -> 0 <= m -> zdrop n (zdrop m xs) = zdrop (m + n) xs.
Proof. unfold zdrop. intros. rewrite drop_drop. f_equal. lia. Qed.

(** Evaluates [Z.to_nat] on literals. *)
Ltac to_nat_literals :=
  repeat match goal with
  | |- context [Z.to_nat (Zpos ?p)] =>
      let n := eval vm_compute in (Z.to_nat (Zpos p)) in
      change (Z.to_nat (Zpos p)) with n
  end;
  change (Z.to_nat 0) with 0%nat.

Create Rewrite HintDb zlen.
#[export] Hint Rewrite @zlen_nil @zlen_cons @zlen_app : zlen.
#[export] Hint Rewrite @zlen_take @zlen_drop zlen_zeros using lia : zlen.

(** Arithmetic over lengths and bytes. *)
Ltac zlia :=
  autorewrite with zlen in *; byte_ranges;
  repeat match goal with
  | |- context [zlen ?xs] =>
      lazymatch goal with
      | _ : 0 <= zlen xs |- _ => fail
      | _ => pose proof (zlen_nonneg xs)
      end
  | _ : context [zlen ?xs] |- _ =>
      lazymatch goal with
      | _ : 0 <= zlen xs |- _ => fail
      | _ => pose proof (zlen_nonneg xs)
      end
  end; lia.

Lemma fold_left_cons {A B} (f : A -> B -> A) x xs a :
  fold_left f (x :: xs) a = fold_left f xs (f a x).
Proof. done. Qed.

Lemma fold_left_ext {A B} (f g : A -> B -> A) xs a :
  (forall a b, f a b = g a b) -> fold_left f xs a = fold_left g xs a.
Proof. intros H. revert a. induction xs as [|x xs IH]; intros a; [done|]. cbn. by rewrite H. Qed.

(** A list is sorted when its elements are related pairwise. *)
Lemma lookup_StronglySorted {A} (R : A -> A -> Prop) xs :
  (forall i j x y, (i < j)%nat -> xs !! i = Some x -> xs !! j = Some y -> R x y) -> StronglySorted R xs.
Proof.
  induction xs as [|x xs IH]; intros H; [constructor|]. constructor.
  - apply IH. intros i j y z Hij Hy Hz. apply (H (S i) (S j)); [lia|done..].
  - apply List.Forall_forall. intros y [j Hj]%list_elem_of_In%list_elem_of_lookup. apply (H 0%nat (S j)); [lia|done..].
Qed.

(** A filter that lets fewer elements pass gives a shorter list. *)
Lemma filter_length_le {A} (p q : A -> bool) xs :
  (forall x, x ∈ xs -> q x = true -> p x = true) -> (length (List.filter q xs) <= length (List.filter p xs))%nat.
Proof.
  induction xs as [|x xs IH]; intros H; [done|]. cbn [List.filter].
  assert (length (List.filter q xs) <= length (List.filter p xs))%nat as Hxs by (apply IH; intros y Hy; apply H; by right).
  destruct (q x) eqn:Eq; [rewrite (H x) by (by left || done); cbn [length]; lia|]. destruct (p x); cbn [length]; lia.
Qed.

Lemma filter_length_lt {A} (p q : A -> bool) xs y :
  (forall x, x ∈ xs -> q x = true -> p x = true) -> y ∈ xs -> p y = true -> q y = false ->
  (length (List.filter q xs) < length (List.filter p xs))%nat.
Proof.
  intros H Hy Hp Hq. apply list_elem_of_split in Hy as (l1 & l2 & ->). rewrite !List.filter_app, !length_app. cbn [List.filter].
  rewrite Hp, Hq. cbn [length].
  assert (length (List.filter q l1) <= length (List.filter p l1))%nat as H1
    by (apply filter_length_le; intros x Hx; apply H; rewrite elem_of_app; by left).
  assert (length (List.filter q l2) <= length (List.filter p l2))%nat as H2
    by (apply filter_length_le; intros x Hx; apply H; rewrite elem_of_app; right; by right).
  lia.
Qed.

Lemma fold_left_ind {A B} (P : A -> Prop) (f : A -> B -> A) xs a :
  (forall a b, P a -> P (f a b)) -> P a -> P (fold_left f xs a).
Proof. intros H. revert a. induction xs as [|x xs IH]; intros a Ha; [done|]. cbn. auto. Qed.

(** A loop that may fail. *)
Fixpoint fold_opt {A B} (f : A -> B -> option A) (xs : list B) (a : A) : option A :=
  match xs with [] => Some a | x :: xs => a ← f a x; fold_opt f xs a end.

Lemma fold_opt_app {A B} (g : A -> B -> option A) xs ys a : fold_opt g (xs ++ ys) a = (b ← fold_opt g xs a; fold_opt g ys b).
Proof.
  revert a. induction xs as [|x xs IH]; intros a; [done|]. cbn [app fold_opt]. destruct (g a x) as [b|]; [apply IH|done].
Qed.

Lemma Forall_trivial {A} (xs : list A) : Forall (fun _ => True) xs.
Proof. induction xs; by constructor. Qed.

(** ** The cursor monad

    The decoding routines of the code take [const uint8_t **xp, size_t *xn]:
    they return 1 and advance the cursor, or return 0. [rdr A] is such a
    routine: from the bytes left at the cursor, the value stored through the
    out-parameter when it returns 1 ([Some]) or a failure ([None]), with the
    bytes left afterwards in both cases. *)

Definition rdr (A : Type) : Type := bytes -> option A * bytes.

Definition rret {A} (a : A) : rdr A := fun xs => (Some a, xs).
Definition rfail {A} : rdr A := fun xs => (None, xs).
Definition rbind {A B} (m : rdr A) (k : A -> rdr B) : rdr B :=
  fun xs => match m xs with (Some a, ys) => k a ys | (None, ys) => (None, ys) end.

Declare Scope lcdb_scope.
Delimit Scope lcdb_scope with lcdb.
Notation "'rd' x <- m ; k" := (rbind m (fun x => k))
  (at level 10, x name, m at level 100, k at level 200) : lcdb_scope.
Notation "'rd' ' p <- m ; k" := (rbind m (fun x => let p := x in k))
  (at level 10, p strict pattern, m at level 100, k at level 200)
  : lcdb_scope.
#[global] Open Scope lcdb_scope.

Lemma rbind_some {A B} (m : rdr A) (k : A -> rdr B) xs a ys :
  m xs = (Some a, ys) -> rbind m k xs = k a ys.
Proof. unfold rbind. by intros ->. Qed.

Lemma rbind_inv {A B} (m : rdr A) (k : A -> rdr B) xs b zs :
  rbind m k xs = (Some b, zs) ->
  exists a ys, m xs = (Some a, ys) /\ k a ys = (Some b, zs).
Proof. unfold rbind. destruct (m xs) as [[a|] ys]; [eauto|done]. Qed.

(** An encoder and a decoder that belong together: reading back what was
    written gives the value and leaves the cursor at the end of the encoding.
    [wf] is the range of values the format can hold. *)
Class Codec {A} (wf : A -> Prop) (enc : A -> bytes) (dec : rdr A) : Prop :=
  codec_roundtrip x rest : wf x -> dec (enc x ++ rest) = (Some x, rest).

Lemma codec_injective {A} (wf : A -> Prop) enc dec `{!Codec wf enc dec} x y :
  wf x -> wf y -> enc x = enc y -> x = y.
Proof.
  intros Hx Hy E.
  pose proof (codec_roundtrip x [] Hx) as H1.
  pose proof (codec_roundtrip y [] Hy) as H2.
  rewrite E in H1. congruence.
Qed.

(** One step of a decoder on the encoding of one field. *)
Lemma codec_step {A B} (wf : A -> Prop) enc dec `{!Codec wf enc dec} x rest (k : A -> rdr B) :
  wf x -> rbind dec k (enc x ++ rest) = k x rest.
Proof. intros Hx. by rewrite (rbind_some _ _ _ _ _ (codec_roundtrip x rest Hx)). Qed.

(** A pair of fields written one after the other. *)
#[export] Instance codec_pair {A B} (wfa : A -> Prop) (wfb : B -> Prop) enca encb deca decb
    `{!Codec wfa enca deca, !Codec wfb encb decb} :
  Codec (fun p => wfa p.1 /\ wfb p.2) (fun p => enca p.1 ++ encb p.2)
    (rd x <- deca; rd y <- decb; rret (x, y)).
Proof.
  intros [x y] rest [Hx Hy]. cbn in *. rewrite <- app_assoc.
  rewrite (codec_step wfa enca deca) by done. by rewrite (codec_step wfb encb decb).
Qed.
