(* ===== verification/Coding.v ===== *)
(** * Fixed-width and variable-length integers, length-prefixed slices

    Models [src/engine/src/util/coding.h], the serialisation half of
    [util/slice.c] and [ldb_slice_decode] of [util/slice.h].

    A routine [uint8_t *f(uint8_t *zp, ...)] that writes at [zp] and returns
    the advanced pointer is the list of bytes it writes; a routine
    [int f(z, const uint8_t **xp, size_t *xn)] is a cursor computation
    ([Prelude.rdr]).  A slice is the list of bytes it views. *)

From S2P Require Import Prelude.

(** ** Fixed-width little-endian integers *)

Definition fixed32_encode (x : Z) : bytes :=
  [z2b (Z.shiftr x 0); z2b (Z.shiftr x 8); z2b (Z.shiftr x 16); z2b (Z.shiftr x 24)].

Definition fixed32_decode (xp : bytes) : Z :=
  Z.lor (Z.lor (Z.lor
    (Z.shiftl (at_ xp 0) 0)
    (Z.shiftl (at_ xp 1) 8))
    (Z.shiftl (at_ xp 2) 16))
    (Z.shiftl (at_ xp 3) 24).

Definition fixed64_encode (x : Z) : bytes :=
  [z2b (Z.shiftr x 0); z2b (Z.shiftr x 8); z2b (Z.shiftr x 16); z2b (Z.shiftr x 24);
   z2b (Z.shiftr x 32); z2b (Z.shiftr x 40); z2b (Z.shiftr x 48); z2b (Z.shiftr x 56)].

Definition fixed64_decode (xp : bytes) : Z :=
  Z.lor (Z.lor (Z.lor (Z.lor (Z.lor (Z.lor (Z.lor
    (Z.shiftl (at_ xp 0) 0)
    (Z.shiftl (at_ xp 1) 8))
    (Z.shiftl (at_ xp 2) 16))
    (Z.shiftl (at_ xp 3) 24))
    (Z.shiftl (at_ xp 4) 32))
    (Z.shiftl (at_ xp 5) 40))
    (Z.shiftl (at_ xp 6) 48))
    (Z.shiftl (at_ xp 7) 56).

Definition fixed32_write (x : Z) : bytes :=
  [z2b (Z.shiftr x 0); z2b (Z.shiftr x 8); z2b (Z.shiftr x 16); z2b (Z.shiftr x 24)].

Definition fixed32_read : rdr Z := fun xs =>
  if zlen xs <? 4 then (None, xs)
  else (Some (fixed32_decode xs), zdrop 4 xs).

(** The [_slurp] variants advance the slice itself: same computation. *)
Definition fixed32_slurp : rdr Z := fixed32_read.

Definition fixed64_write (x : Z) : bytes :=
  [z2b (Z.shiftr x 0); z2b (Z.shiftr x 8); z2b (Z.shiftr x 16); z2b (Z.shiftr x 24);
   z2b (Z.shiftr x 32); z2b (Z.shiftr x 40); z2b (Z.shiftr x 48); z2b (Z.shiftr x 56)].

Definition fixed64_read : rdr Z := fun xs =>
  if zlen xs <? 8 then (None, xs)
  else (Some (fixed64_decode xs), zdrop 8 xs).

Definition fixed64_slurp : rdr Z := fixed64_read.

(** ** Variable-length integers *)

Definition varint32_size (x : Z) : Z :=
  if x <? Z.shiftl 1 7 then 1
  else if x <? Z.shiftl 1 14 then 2
  else if x <? Z.shiftl 1 21 then 3
  else if x <? Z.shiftl 1 28 then 4
  else 5.

Definition varint32_write (x : Z) : bytes :=
  let B := 128 in
  if x <? Z.shiftl 1 7 then
    [z2b x]
  else if x <? Z.shiftl 1 14 then
    [z2b (Z.lor x B); z2b (Z.shiftr x 7)]
  else if x <? Z.shiftl 1 21 then
    [z2b (Z.lor x B); z2b (Z.lor (Z.shiftr x 7) B); z2b (Z.shiftr x 14)]
  else if x <? Z.shiftl 1 28 then
    [z2b (Z.lor x B); z2b (Z.lor (Z.shiftr x 7) B); z2b (Z.lor (Z.shiftr x 14) B);
     z2b (Z.shiftr x 21)]
  else
    [z2b (Z.lor x B); z2b (Z.lor (Z.shiftr x 7) B); z2b (Z.lor (Z.shiftr x 14) B);
     z2b (Z.lor (Z.shiftr x 21) B); z2b (Z.shiftr x 28)].

(** The loop shared by the two readers:
    [for (shift = 0; shift <= max && *xn > 0; shift += 7)], whose arithmetic
    is done in the type [wrap] reduces to. *)
Fixpoint varint_read_loop (wrap : Z -> Z) (max : Z) (xs : bytes) (shift result : Z)
    : option Z * bytes :=
  if shift <=? max then
    match xs with
    | [] => (None, xs)
    | b :: xs' =>
      let byte := b2z b in
      if negb (Z.land byte 128 =? 0) then
        varint_read_loop wrap max xs' (shift + 7)
          (Z.lor result (wrap (Z.shiftl (Z.land byte 127) shift)))
      else
        (Some (Z.lor result (wrap (Z.shiftl byte shift))), xs')
    end
  else (None, xs).

Definition varint32_read : rdr Z := fun xs =>
  match xs with
  | b :: xs' =>
    if Z.land (b2z b) 128 =? 0 then (Some (b2z b), xs')
    else varint_read_loop u32 28 xs 0 0
  | [] => varint_read_loop u32 28 xs 0 0
  end.

Definition varint32_slurp : rdr Z := varint32_read.

(** The [while (x >= 128)] loops: at most nine turns for a 64-bit value, see
    [varint64_size_unfold] and [varint64_write_unfold]. *)
Fixpoint varint64_size_loop (fuel : nat) (x len : Z) : Z :=
  match fuel with
  | O => len
  | S fuel => if 128 <=? x then varint64_size_loop fuel (Z.shiftr x 7) (len + 1) else len
  end.

Definition varint64_size (x : Z) : Z := varint64_size_loop 9 x 1.

Fixpoint varint64_write_loop (fuel : nat) (x : Z) : bytes :=
  let B := 128 in
  match fuel with
  | O => [z2b x]
  | S fuel =>
    if B <=? x then z2b (Z.lor x B) :: varint64_write_loop fuel (Z.shiftr x 7)
    else [z2b x]
  end.

Definition varint64_write (x : Z) : bytes := varint64_write_loop 9 x.

Definition varint64_read : rdr Z := fun xs => varint_read_loop u64 63 xs 0 0.

Definition varint64_slurp : rdr Z := varint64_read.

(** ** Raw bytes *)

Definition raw_write (xp : bytes) (xn : Z) : bytes :=
  if 0 <? xn then ztake xn xp else [].

Definition raw_read (zn : Z) : rdr bytes := fun xs =>
  if zlen xs <? zn then (None, xs)
  else if 0 <? zn then (Some (ztake zn xs), zdrop zn xs)
  else (Some [], xs).

(** Does not copy: the slice read is a view of the input. *)
Definition zraw_read (zn : Z) : rdr bytes := fun xs =>
  if zlen xs <? zn then (None, xs)
  else (Some (ztake zn xs), zdrop zn xs).

Definition padding_write (zn : Z) : bytes :=
  if 0 <? zn then zeros zn else [].

(** ** Length-prefixed slices *)

(** The size is passed to [ldb_varint32_size(uint32_t)]: it is truncated. *)
Definition slice_size (x : bytes) : Z := varint32_size (u32 (zlen x)) + zlen x.

Definition slice_write (x : bytes) : bytes :=
  varint32_write (u32 (zlen x)) ++ raw_write x (zlen x).

Definition slice_read : rdr bytes :=
  rd zn <- varint32_read;
  rd zp <- zraw_read zn;
  rret zp.

Definition slice_slurp : rdr bytes := slice_read.

Definition slice_import (x : bytes) : option bytes := fst (slice_slurp x).

(** [memcmp] of the C library, reduced to the sign of its result. *)
Fixpoint memcmp (x y : bytes) (n : nat) {struct n} : Z :=
  match n, x, y with
  | S n, a :: x, b :: y =>
    if b2z a <? b2z b then -1 else if b2z b <? b2z a then 1 else memcmp x y n
  | _, _, _ => 0
  end.

Definition slice_equal (x y : bytes) : bool :=
  if negb (zlen x =? zlen y) then false
  else if zlen x =? 0 then true
  else memcmp x y (length y) =? 0.

(** [ldb_slice_decode(xp)]: [mem] is the memory from [xp] on.  The prefix is
    read through a five-byte window; the slice is the [zn] bytes that follow.
    A prefix the reader refuses (the assertion of the code), or a slice that
    runs past [mem] (undefined in C), is [None].  The memory after the slice
    is what [z.data + z.size] points at. *)
Definition slice_decode : rdr bytes := fun mem =>
  let window := ztake 5 mem in
  match varint32_read window with
  | (None, _) => (None, mem)
  | (Some zn, unread) => zraw_read zn (zdrop (zlen window - zlen unread) mem)
  end.

(** ** Fixed-width integers: proofs *)

(** The little-endian value of a list of bytes. *)
Fixpoint le_value (xs : bytes) : Z :=
  match xs with [] => 0 | b :: xs => b2z b + 256 * le_value xs end.

Lemma le_value_range xs : 0 <= le_value xs < 256 ^ zlen xs.
Proof.
  induction xs as [|b xs IH]; [done|]. cbn [le_value]. rewrite zlen_cons.
  rewrite Z.pow_add_r by zlia. change (256 ^ 1) with 256. byte_ranges. lia.
Qed.

(** Turns a disjunction of shifted bytes, low byte first, into their sum. *)
Ltac lor_fields :=
  rewrite (lor_disjoint _ _ 8), (lor_disjoint _ _ 16), (lor_disjoint _ _ 24) by lia;
  try rewrite (lor_disjoint _ _ 32), (lor_disjoint _ _ 40), (lor_disjoint _ _ 48),
    (lor_disjoint _ _ 56) by lia.

Lemma fixed32_decode_le a b c d r :
  fixed32_decode (a :: b :: c :: d :: r) = le_value [a; b; c; d].
Proof.
  unfold fixed32_decode, at_. to_nat_literals. cbn [nth].
  byte_ranges. rewrite Z.shiftl_0_r.
  lor_fields; cbn [le_value]; lia.
Qed.

Lemma fixed64_decode_le a b c d e f g h r :
  fixed64_decode (a :: b :: c :: d :: e :: f :: g :: h :: r)
  = le_value [a; b; c; d; e; f; g; h].
Proof.
  unfold fixed64_decode, at_. to_nat_literals. cbn [nth].
  byte_ranges. rewrite Z.shiftl_0_r.
  lor_fields; cbn [le_value]; lia.
Qed.

(** The [n] low bytes of [x]. *)
Fixpoint le_bytes (n : nat) (x : Z) : bytes :=
  match n with O => [] | S n => z2b x :: le_bytes n (x / 256) end.

Lemma le_value_bytes n x : 0 <= x < 256 ^ Z.of_nat n -> le_value (le_bytes n x) = x.
Proof.
  revert x. induction n as [|n IH]; intros x Hx.
  - cbn in *. lia.
  - cbn [le_bytes le_value].
    rewrite Nat2Z.inj_succ, Z.pow_succ_r in Hx by lia.
    rewrite b2z_z2b, IH.
    + pose proof (Z.div_mod x 256). lia.
    + split; [apply Z.div_pos; lia|]. apply Z.div_lt_upper_bound; lia.
Qed.

Lemma le_bytes_value xs : le_bytes (length xs) (le_value xs) = xs.
Proof.
  induction xs as [|b xs IH]; [done|]. cbn [length le_bytes le_value]. f_equal.
  - apply b2z_inj. rewrite b2z_z2b, Z.mul_comm, Z.mod_add by lia.
    apply Z.mod_small. byte_ranges. lia.
  - rewrite Z.mul_comm, Z.div_add, Z.div_small, Z.add_0_l by (byte_ranges; lia). done.
Qed.

Lemma le_value_inj xs ys : length xs = length ys -> le_value xs = le_value ys -> xs = ys.
Proof.
  intros Hl Hv. by rewrite <- (le_bytes_value xs), <- (le_bytes_value ys), Hl, Hv.
Qed.

Lemma le_bytes_length n x : length (le_bytes n x) = n.
Proof. revert x. induction n; intros; cbn; auto. Qed.

Lemma fixed32_write_le x : fixed32_write x = le_bytes 4 x.
Proof.
  unfold fixed32_write. cbn [le_bytes].
  rewrite !Z.shiftr_div_pow2, !Z.div_div by lia. by rewrite Z.div_1_r.
Qed.

Lemma fixed64_write_le x : fixed64_write x = le_bytes 8 x.
Proof.
  unfold fixed64_write. cbn [le_bytes].
  rewrite !Z.shiftr_div_pow2, !Z.div_div by lia. by rewrite Z.div_1_r.
Qed.

Lemma fixed32_decode_app xs r : zlen xs = 4 -> fixed32_decode (xs ++ r) = le_value xs.
Proof.
  unfold zlen. intros H.
  do 4 (destruct xs as [|? xs]; [cbn in H; lia|]). destruct xs; [|cbn in H; lia].
  apply fixed32_decode_le.
Qed.

Lemma fixed64_decode_app xs r : zlen xs = 8 -> fixed64_decode (xs ++ r) = le_value xs.
Proof.
  unfold zlen. intros H.
  do 8 (destruct xs as [|? xs]; [cbn in H; lia|]). destruct xs; [|cbn in H; lia].
  apply fixed64_decode_le.
Qed.

Lemma zlen_fixed32_write x : zlen (fixed32_write x) = 4.
Proof. done. Qed.
Lemma zlen_fixed64_write x : zlen (fixed64_write x) = 8.
Proof. done. Qed.
#[export] Hint Rewrite zlen_fixed32_write zlen_fixed64_write : zlen.

Lemma fixed32_decode_write x r : 0 <= x < 2 ^ 32 -> fixed32_decode (fixed32_write x ++ r) = x.
Proof.
  intros Hx. rewrite fixed32_decode_app by done. rewrite fixed32_write_le.
  by apply le_value_bytes.
Qed.

Lemma fixed64_decode_write x r : 0 <= x < 2 ^ 64 -> fixed64_decode (fixed64_write x ++ r) = x.
Proof.
  intros Hx. rewrite fixed64_decode_app by done. rewrite fixed64_write_le.
  by apply le_value_bytes.
Qed.

Lemma fixed32_decode_range xs : 0 <= fixed32_decode xs < 2 ^ 32.
Proof.
  unfold fixed32_decode, at_. byte_ranges. rewrite Z.shiftl_0_r.
  lor_fields; lia.
Qed.

Lemma fixed64_decode_range xs : 0 <= fixed64_decode xs < 2 ^ 64.
Proof.
  unfold fixed64_decode, at_. byte_ranges. rewrite Z.shiftl_0_r.
  lor_fields; lia.
Qed.

#[export] Instance fixed32_codec : Codec (fun x => 0 <= x < 2 ^ 32) fixed32_write fixed32_read.
Proof.
  intros x rest Hx. unfold fixed32_read.
  rewrite (proj2 (Z.ltb_ge _ _)) by zlia.
  rewrite fixed32_decode_write by done. by rewrite zdrop_app.
Qed.

#[export] Instance fixed64_codec : Codec (fun x => 0 <= x < 2 ^ 64) fixed64_write fixed64_read.
Proof.
  intros x rest Hx. unfold fixed64_read.
  rewrite (proj2 (Z.ltb_ge _ _)) by zlia.
  rewrite fixed64_decode_write by done. by rewrite zdrop_app.
Qed.

(** ** Variable-length integers: proofs *)

(** The common description of both writers: seven bits at a time, low first,
    the high bit of every byte but the last set. *)
Lemma lor_128_z2b x : 0 <= x -> z2b (Z.lor x 128) = z2b (128 + x mod 128).
Proof.
  intros Hx. pose proof (Z.mod_pos_bound x 128 eq_refl). apply b2z_inj. rewrite !b2z_z2b. rewrite (Z.mod_small (128 + _)) by lia.
  apply Z.bits_inj'. intros n Hn. change 256 with (2 ^ 8).
  rewrite Z.testbit_mod_pow2, Z.lor_spec by lia.
  replace (128 + x mod 128) with (x mod 2 ^ 7 + 1 * 2 ^ 7) by (change (2 ^ 7) with 128; lia).
  rewrite <- lor_disjoint by (try apply Z.mod_pos_bound; lia).
  rewrite Z.lor_spec, Z.shiftl_spec, Z.testbit_mod_pow2 by lia.
  change 128 with (2 ^ 7). change 1 with (2 ^ 0).
  destruct (Z.eq_dec n 7) as [->|]; [cbn; by rewrite orb_true_r|].
  rewrite !Z.pow2_bits_false by lia.
  destruct (Z.ltb_spec n 7), (Z.ltb_spec n 8); cbn; try lia; by rewrite ?orb_false_r.
Qed.

Lemma varint_loop_step wrap max b xs shift result :
  shift <= max ->
  varint_read_loop wrap max (b :: xs) shift result
  = if b2z b <? 128 then (Some (Z.lor result (wrap (Z.shiftl (b2z b) shift))), xs)
    else varint_read_loop wrap max xs (shift + 7)
           (Z.lor result (wrap (Z.shiftl (b2z b mod 128) shift))).
Proof.
  intros H. cbn [varint_read_loop]. rewrite (proj2 (Z.leb_le _ _)) by done.
  rewrite land_127. change 128 with (2 ^ 7) at 1.
  rewrite land_pow2_eqb, testbit_7_ltb by (byte_ranges; lia).
  by destruct (b2z b <? 128).
Qed.

Section VarintLoop.
Context (w max : Z) (wrap : Z -> Z).
Hypothesis wrap_small : forall z, 0 <= z < 2 ^ w -> wrap z = z.

Lemma varint_loop_write n x s r rest :
  0 <= s -> s + 7 * Z.of_nat n <= max ->
  0 <= x < 2 ^ (7 * (Z.of_nat n + 1)) ->
  0 <= r < 2 ^ s -> r + x * 2 ^ s < 2 ^ w ->
  varint_read_loop wrap max (varint64_write_loop n x ++ rest) s r
  = (Some (r + x * 2 ^ s), rest).
Proof.
  revert x s r. induction n as [|n IH]; intros x s r Hs Hmax Hx Hr Hw;
    cbn [varint64_write_loop].
  - cbn [app]. change (2 ^ (7 * (Z.of_nat 0 + 1))) with 128 in Hx.
    rewrite varint_loop_step by lia.
    rewrite b2z_z2b_small, (proj2 (Z.ltb_lt _ _)) by lia.
    rewrite Z.shiftl_mul_pow2, wrap_small by lia.
    by rewrite lor_disjoint_mul by lia.
  - destruct (Z.leb_spec 128 x) as [Hge|Hlt]; cbn [app].
    + rewrite varint_loop_step by lia.
      rewrite lor_128_z2b by lia.
      pose proof (Z.mod_pos_bound x 128 eq_refl) as Hm.
      rewrite b2z_z2b_small, (proj2 (Z.ltb_ge _ _)) by lia.
      replace ((128 + x mod 128) mod 128) with (x mod 128)
        by (rewrite <- Z.add_mod_idemp_l by lia; change (128 mod 128) with 0;
            by rewrite Z.add_0_l, Z.mod_mod).
      pose proof (Z.div_mod x 128 ltac:(lia)) as Hd.
      assert (0 < 2 ^ s) by lia.
      assert (x mod 128 * 2 ^ s <= x * 2 ^ s) by (apply Z.mul_le_mono_nonneg_r; lia).
      rewrite Z.shiftl_mul_pow2, wrap_small by lia.
      rewrite lor_disjoint_mul, Z.shiftr_div_pow2 by lia.
      change (2 ^ 7) with 128.
      assert (0 <= x / 128) by (apply Z.div_pos; lia).
      assert (r + x mod 128 * 2 ^ s + x / 128 * 2 ^ (s + 7) = r + x * 2 ^ s) as E.
      { rewrite Z.pow_add_r by lia. change (2 ^ 7) with 128. nia. }
      rewrite IH; [by rewrite E|lia|lia| |split|lia].
      * split; [done|]. apply Z.div_lt_upper_bound; [lia|].
        rewrite Nat2Z.inj_succ in Hx.
        replace (7 * (Z.succ (Z.of_nat n) + 1)) with (7 + 7 * (Z.of_nat n + 1)) in Hx by lia.
        rewrite Z.pow_add_r in Hx by lia. change (2 ^ 7) with 128 in Hx. lia.
      * nia.
      * rewrite Z.pow_add_r by lia. change (2 ^ 7) with 128. nia.
    + rewrite varint_loop_step by lia.
      rewrite b2z_z2b_small, (proj2 (Z.ltb_lt _ _)) by lia.
      rewrite Z.shiftl_mul_pow2, wrap_small by nia.
      by rewrite lor_disjoint_mul by lia.
Qed.

(** Whatever the input, a reader consumes at least one byte when it
    succeeds and never gives a value outside its type. *)
Lemma varint_loop_sound xs s r v ys :
  (forall z, 0 <= wrap z < 2 ^ w) -> 0 <= w -> 0 <= r < 2 ^ w ->
  varint_read_loop wrap max xs s r = (Some v, ys) ->
  0 <= v < 2 ^ w /\ exists b used, xs = (b :: used) ++ ys /\ 7 * zlen used + s <= max.
Proof.
  intros Hwrap Hw. revert s r. induction xs as [|b xs IH]; intros s r Hr; cbn [varint_read_loop].
  all: destruct (Z.leb_spec s max) as [Hs|]; try done.
  assert (forall z, 0 <= Z.lor r (wrap z) < 2 ^ w) as Hlor.
  { intros z. by apply lor_range. }
  destruct (negb _).
  - intros H. apply IH in H as (Hv & c & used & -> & Hlen); [|done].
    split; [done|]. exists b, (c :: used). split; [done|]. rewrite zlen_cons. lia.
  - intros [= <- <-]. split; [done|]. exists b, []. split; [done|]. zlia.
Qed.
End VarintLoop.

Lemma varint32_write_loop_eq x : 0 <= x < 2 ^ 32 -> varint32_write x = varint64_write_loop 4 x.
Proof.
  intros Hx. unfold varint32_write. cbn [varint64_write_loop].
  change (Z.shiftl 1 7) with 128. change (Z.shiftl 1 14) with (128 * 128).
  change (Z.shiftl 1 21) with (128 * 128 * 128).
  change (Z.shiftl 1 28) with (128 * 128 * 128 * 128).
  rewrite !Z.shiftr_shiftr by lia. rewrite !Z.shiftr_div_pow2 by lia.
  change (2 ^ (7 + 7 + 7 + 7)) with 268435456. change (2 ^ (7 + 7 + 7)) with 2097152.
  change (2 ^ (7 + 7)) with 16384. change (2 ^ 7) with 128. change (2 ^ 14) with 16384. change (2 ^ 21) with 2097152.
  change (2 ^ 28) with 268435456.
  destruct (Z.ltb_spec x 128), (Z.leb_spec 128 x); try lia; [done|].
  destruct (Z.ltb_spec x (128 * 128)), (Z.leb_spec 128 (x / 128));
    try (Z.div_mod_to_equations; lia); [done|].
  destruct (Z.ltb_spec x (128 * 128 * 128)), (Z.leb_spec 128 (x / 16384));
    try (Z.div_mod_to_equations; lia); [done|].
  destruct (Z.ltb_spec x (128 * 128 * 128 * 128)), (Z.leb_spec 128 (x / 2097152));
    try (Z.div_mod_to_equations; lia); done.
Qed.

Lemma varint32_read_loop_eq xs : varint32_read xs = varint_read_loop u32 28 xs 0 0.
Proof.
  destruct xs as [|b xs]; [done|]. cbn [varint32_read varint_read_loop].
  change (0 <=? 28) with true. cbv iota.
  destruct (Z.land (b2z b) 128 =? 0); [|done].
  cbn [negb]. by rewrite Z.shiftl_0_r, u32_small by (byte_ranges; lia).
Qed.

#[export] Instance varint32_codec :
  Codec (fun x => 0 <= x < 2 ^ 32) varint32_write varint32_read.
Proof.
  intros x rest Hx. rewrite varint32_read_loop_eq, varint32_write_loop_eq by done.
  rewrite (varint_loop_write 32 28 u32 u32_small) by (cbn; lia). do 2 f_equal. lia.
Qed.

#[export] Instance varint64_codec :
  Codec (fun x => 0 <= x < 2 ^ 64) varint64_write varint64_read.
Proof.
  intros x rest Hx. unfold varint64_read, varint64_write.
  rewrite (varint_loop_write 64 63 u64 u64_small) by (cbn; lia). do 2 f_equal. lia.
Qed.

(** What one successful read does, whatever the input. *)
Lemma varint32_read_sound xs v ys :
  varint32_read xs = (Some v, ys) ->
  0 <= v < 2 ^ 32 /\ exists used, xs = used ++ ys /\ 1 <= zlen used <= 5.
Proof.
  rewrite varint32_read_loop_eq. intros H.
  apply (varint_loop_sound 32 28 u32) in H as (Hv & b & used & -> & Hlen);
    [|apply u32_range|lia|lia].
  split; [done|]. exists (b :: used). split; [done|]. zlia.
Qed.

Lemma varint64_read_sound xs v ys :
  varint64_read xs = (Some v, ys) ->
  0 <= v < 2 ^ 64 /\ exists used, xs = used ++ ys /\ 1 <= zlen used <= 10.
Proof.
  intros H.
  apply (varint_loop_sound 64 63 u64) in H as (Hv & b & used & -> & Hlen);
    [|apply u64_range|lia|lia].
  split; [done|]. exists (b :: used). split; [done|]. zlia.
Qed.

(** ** Sizes *)

Lemma zlen_varint32_write x : zlen (varint32_write x) = varint32_size x.
Proof.
  unfold varint32_write, varint32_size.
  repeat (destruct (_ <? _); [done|]). done.
Qed.
#[export] Hint Rewrite zlen_varint32_write : zlen.

Lemma varint32_size_range x : 1 <= varint32_size x <= 5.
Proof. unfold varint32_size. repeat (destruct (_ <? _); [lia|]). lia. Qed.

Lemma zlen_varint64_write_loop n x l :
  zlen (varint64_write_loop n x) + l = varint64_size_loop n x (l + 1).
Proof.
  revert x l. induction n as [|n IH]; intros x l; cbn [varint64_write_loop varint64_size_loop].
  - zlia.
  - destruct (128 <=? x); [|zlia]. rewrite <- IH. zlia.
Qed.

Lemma zlen_varint64_write x : zlen (varint64_write x) = varint64_size x.
Proof. unfold varint64_write, varint64_size. rewrite <- (Z.add_0_r (zlen _)).
  apply (zlen_varint64_write_loop 9 x 0).
Qed.
#[export] Hint Rewrite zlen_varint64_write : zlen.

(** The fuel is enough: on every 64-bit value the writer satisfies the
    equation of the unbounded loop. *)
Lemma varint64_loop_fuel n m x :
  0 <= x < 2 ^ (7 * (Z.of_nat n + 1)) -> (n <= m)%nat ->
  varint64_write_loop m x = varint64_write_loop n x.
Proof.
  revert m x. induction n as [|n IH]; intros m x Hx Hm.
  - change (2 ^ (7 * (Z.of_nat 0 + 1))) with 128 in Hx.
    destruct m; [done|]. cbn [varint64_write_loop].
    by rewrite (proj2 (Z.leb_gt _ _)) by lia.
  - destruct m as [|m]; [lia|]. cbn [varint64_write_loop].
    destruct (Z.leb_spec 128 x); [|done]. f_equal. apply IH; [|lia].
    rewrite Z.shiftr_div_pow2 by lia. split; [apply Z.div_pos; lia|].
    apply Z.div_lt_upper_bound; [lia|].
    rewrite Nat2Z.inj_succ in Hx. change (2 ^ 7) with 128.
    replace (7 * (Z.succ (Z.of_nat n) + 1)) with (7 + 7 * (Z.of_nat n + 1)) in Hx by lia.
    rewrite Z.pow_add_r in Hx by lia. change (2 ^ 7) with 128 in Hx. lia.
Qed.

Lemma varint64_write_unfold x :
  0 <= x < 2 ^ 64 ->
  varint64_write x
  = if 128 <=? x then z2b (Z.lor x 128) :: varint64_write (Z.shiftr x 7) else [z2b x].
Proof.
  intros Hx. unfold varint64_write.
  rewrite <- (varint64_loop_fuel 9 10 x) by (cbn; lia).
  cbn [varint64_write_loop]. done.
Qed.

Lemma varint64_size_unfold x :
  0 <= x < 2 ^ 64 ->
  varint64_size x = if 128 <=? x then 1 + varint64_size (Z.shiftr x 7) else 1.
Proof.
  intros Hx. rewrite <- !zlen_varint64_write, varint64_write_unfold by done.
  destruct (128 <=? x); [zlia|done].
Qed.

Lemma varint64_size_loop_range n x l : l <= varint64_size_loop n x l <= l + Z.of_nat n.
Proof.
  revert x l. induction n as [|n IH]; intros x l; cbn [varint64_size_loop]; [lia|].
  destruct (128 <=? x); [|lia]. specialize (IH (Z.shiftr x 7) (l + 1)). lia.
Qed.

Lemma varint64_size_range x : 1 <= varint64_size x <= 10.
Proof. apply (varint64_size_loop_range 9 x 1). Qed.

(** ** Slices: proofs *)

Lemma zlen_raw_write xp : raw_write xp (zlen xp) = xp.
Proof.
  unfold raw_write. destruct (Z.ltb_spec 0 (zlen xp)).
  - apply ztake_all. lia.
  - symmetry. apply zlen_0_nil. zlia.
Qed.

Lemma raw_read_zraw n xs : 0 <= n -> raw_read n xs = zraw_read n xs.
Proof.
  intros Hn. unfold raw_read, zraw_read. destruct (zlen xs <? n); [done|].
  destruct (Z.ltb_spec 0 n); [done|]. by replace n with 0 by lia.
Qed.

Lemma zraw_read_app x rest : zraw_read (zlen x) (x ++ rest) = (Some x, rest).
Proof.
  unfold zraw_read. rewrite (proj2 (Z.ltb_ge _ _)) by zlia.
  by rewrite ztake_app, zdrop_app.
Qed.

(** A slice whose size fits the 32-bit prefix. *)
Definition slice_wf (x : bytes) : Prop := zlen x < 2 ^ 32.

Lemma slice_write_wf x : slice_wf x -> slice_write x = varint32_write (zlen x) ++ x.
Proof.
  unfold slice_wf. intros Hx. unfold slice_write.
  by rewrite zlen_raw_write, u32_small by zlia.
Qed.

Lemma zlen_slice_write x : zlen (slice_write x) = slice_size x.
Proof. unfold slice_write, slice_size. rewrite zlen_raw_write. zlia. Qed.
#[export] Hint Rewrite zlen_slice_write : zlen.

#[export] Instance slice_codec : Codec slice_wf slice_write slice_read.
Proof.
  intros x rest Hx. rewrite slice_write_wf, <- app_assoc by done. unfold slice_read.
  rewrite (codec_step (fun x => 0 <= x < 2 ^ 32) varint32_write varint32_read)
    by (unfold slice_wf in Hx; zlia).
  by rewrite (rbind_some _ _ _ _ _ (zraw_read_app x rest)).
Qed.

Lemma slice_decode_write x rest :
  slice_wf x -> slice_decode (slice_write x ++ rest) = (Some x, rest).
Proof.
  intros Hx. rewrite slice_write_wf, <- app_assoc by done. unfold slice_decode.
  set (p := varint32_write (zlen x)).
  assert (1 <= zlen p <= 5) by (unfold p; rewrite zlen_varint32_write; apply varint32_size_range).
  assert (ztake 5 (p ++ x ++ rest) = p ++ ztake (5 - zlen p) (x ++ rest)) as E.
  { unfold ztake. rewrite take_app. rewrite take_ge by (unfold zlen in *; lia).
    do 2 f_equal. unfold zlen in *. lia. }
  rewrite E. unfold p at 1.
  rewrite (codec_roundtrip (dec := varint32_read)) by (unfold slice_wf in Hx; zlia).
  rewrite zlen_app, Z.add_simpl_r, zdrop_app by done. apply zraw_read_app.
Qed.

Lemma slice_read_sound xs x ys :
  slice_read xs = (Some x, ys) ->
  slice_wf x /\ exists p, xs = p ++ x ++ ys /\ 1 <= zlen p <= 5.
Proof.
  intros H. apply rbind_inv in H as (n & zs & H1 & H2).
  apply rbind_inv in H2 as (x' & zs' & H2 & H3). injection H3 as -> ->.
  apply varint32_read_sound in H1 as (Hn & p & -> & Hp).
  unfold zraw_read in H2. destruct (Z.ltb_spec (zlen zs) n); [done|].
  injection H2 as <- <-. split; [unfold slice_wf; zlia|].
  exists p. by rewrite ztake_zdrop.
Qed.

Lemma memcmp_range x y n : memcmp x y n = -1 \/ memcmp x y n = 0 \/ memcmp x y n = 1.
Proof.
  revert x y. induction n as [|n IH]; intros [|a x] [|b y]; cbn; auto.
  destruct (_ <? _); [auto|]. destruct (_ <? _); auto.
Qed.

Lemma memcmp_refl x n : memcmp x x n = 0.
Proof.
  revert x. induction n as [|n IH]; intros [|a x]; cbn; try done.
  by rewrite !Z.ltb_irrefl.
Qed.

Lemma memcmp_0_take x y n :
  (n <= length x)%nat -> (n <= length y)%nat -> memcmp x y n = 0 <-> take n x = take n y.
Proof.
  revert x y. induction n as [|n IH]; intros x y Hx Hy; [by split|].
  destruct x as [|a x]; [cbn in Hx; lia|]. destruct y as [|b y]; [cbn in Hy; lia|].
  cbn in *. destruct (Z.ltb_spec (b2z a) (b2z b)).
  - split; [done|]. intros [= -> _]. lia.
  - destruct (Z.ltb_spec (b2z b) (b2z a)).
    + split; [done|]. intros [= -> _]. lia.
    + assert (a = b) as -> by (apply b2z_inj; lia).
      rewrite IH by lia. split; [by intros ->|by intros [= ->]].
Qed.

Lemma slice_equal_spec x y : slice_equal x y = bool_decide (x = y).
Proof.
  unfold slice_equal. destruct (Z.eqb_spec (zlen x) (zlen y)) as [E|E]; cbn [negb].
  2: { rewrite bool_decide_eq_false_2; [done|]. by intros ->. }
  destruct (Z.eqb_spec (zlen x) 0) as [E0|E0].
  { assert (y = []) as -> by (apply zlen_0_nil; lia).
    rewrite (zlen_0_nil x) by lia. by rewrite bool_decide_eq_true_2. }
  assert (length x = length y) as EL by (unfold zlen in E; lia).
  apply Bool.eq_iff_eq_true. rewrite Z.eqb_eq, bool_decide_eq_true, memcmp_0_take by lia.
  rewrite (take_ge y) by lia. by rewrite take_ge by lia.
Qed.

(** ** Words inside a byte string *)

(** [ldb_fixed32_decode(data + off)]; [None] when it would read outside. *)
Definition read32 (data : bytes) (off : Z) : option Z :=
  if (0 <=? off) && (off + 4 <=? zlen data) then Some (fixed32_decode (zdrop off data)) else None.

Lemma read32_inside data off :
  0 <= off -> off + 4 <= zlen data -> read32 data off = Some (fixed32_decode (zdrop off data)).
Proof. intros H1 H2. unfold read32. by rewrite (proj2 (Z.leb_le _ _)), (proj2 (Z.leb_le _ _)). Qed.

Lemma zlen_words ws : zlen (concat (map fixed32_write ws)) = 4 * zlen ws.
Proof. induction ws as [|w ws IH]; [done|]. cbn [map concat]. rewrite zlen_app, zlen_fixed32_write, zlen_cons. lia. Qed.
#[export] Hint Rewrite zlen_words : zlen.

(** Reading element [i] of an array of words. *)
Lemma read32_words pre ws post i w :
  ws !! i = Some w -> 0 <= w < 2 ^ 32 ->
  read32 (pre ++ concat (map fixed32_write ws) ++ post) (zlen pre + 4 * Z.of_nat i) = Some w.
Proof.
  intros Hw Hr. pose proof (lookup_lt_Some _ _ _ Hw). pose proof (zlen_nonneg pre).
  assert (Z.of_nat i < zlen ws) by (unfold zlen; lia).
  rewrite read32_inside by zlia. f_equal.
  rewrite <- (take_drop_middle ws i w Hw), map_app, concat_app, map_cons. cbn [concat]. rewrite <- !app_assoc, app_assoc.
  rewrite zdrop_app; [by apply fixed32_decode_write|].
  rewrite zlen_app, zlen_words. unfold zlen at 3. rewrite length_take. lia.
Qed.

(** ** Properties *)

(** [ldb_varint64_read] gives back every 64-bit value
    [ldb_varint64_write] wrote, stops exactly behind it, and the encoding is
    [ldb_varint64_size] bytes, between one and ten. *)
Theorem varint64_roundtrip x rest :
  0 <= x < 2 ^ 64 ->
  varint64_read (varint64_write x ++ rest) = (Some x, rest) /\
  zlen (varint64_write x) = varint64_size x /\ 1 <= varint64_size x <= 10.
Proof.
  intros Hx. split; [by apply (codec_roundtrip (dec := varint64_read))|].
  split; [apply zlen_varint64_write|apply varint64_size_range].
Qed.

Lemma varint64_roundtrip_witness :
  varint64_read (varint64_write (2 ^ 64 - 1) ++ [Byte.x07]) = (Some (2 ^ 64 - 1), [Byte.x07]).
Proof. apply (varint64_roundtrip (2 ^ 64 - 1) [Byte.x07]). lia. Defined.
