(* ===== verification/Status.v ===== *)
(** * Status codes

    Models [src/engine/src/util/status.h] and [status.c].  The text of an
    operating-system error ([ldb_error_string], in the environment layer) is a
    parameter. *)

From stdpp Require Import strings.
From S2P Require Import Prelude.
#[local] Open Scope Z_scope.

Definition LDB_OK : Z := 0.
Definition LDB_MINERR : Z := 30000.
Definition LDB_NOTFOUND : Z := 30001.
Definition LDB_CORRUPTION : Z := 30002.
Definition LDB_NOSUPPORT : Z := 30003.
Definition LDB_INVALID : Z := 30004.
Definition LDB_IOERR : Z := 30005.
Definition LDB_MAXERR : Z := 30005.

(** The system codes the library names, with their values in POSIX
    environments ([errno.h]). *)
Definition LDB_ENOENT : Z := 2.
Definition LDB_ENOMEM : Z := 12.
Definition LDB_EEXIST : Z := 17.
Definition LDB_EINVAL : Z := 22.
Definition LDB_ENOLCK : Z := 37.

Definition LDB_IS_STATUS (x : Z) : bool :=
  (x =? LDB_OK) || ((LDB_MINERR <=? x) && (x <=? LDB_MAXERR)).

Definition ldb_errmsg : list string :=
  ["OK"; "NotFound"; "Corruption"; "Not implemented"; "Invalid argument"; "IO error"]%string.

(** An index outside [ldb_errmsg], which C does not define, is [None]. *)
Definition ldb_strerror (ldb_error_string : Z -> string) (code : Z) : option string :=
  if code =? LDB_OK then ldb_errmsg !! 0%nat
  else if (LDB_MINERR <=? code) && (code <=? LDB_MAXERR) then
    ldb_errmsg !! Z.to_nat (code - LDB_MINERR)
  else Some (ldb_error_string code).

(** The table has an entry for every code of the range. *)
Lemma ldb_strerror_total os code : is_Some (ldb_strerror os code).
Proof.
  unfold ldb_strerror, LDB_MINERR, LDB_MAXERR. destruct (Z.eqb_spec code LDB_OK); [done|].
  destruct (Z.leb_spec 30000 code), (Z.leb_spec code 30005); cbn [andb]; try done.
  apply lookup_lt_is_Some_2. cbn [length ldb_errmsg]. lia.
Qed.
