(* ===== verification/Strutil.v ===== *)
(** * Decimal numbers, path strings and database file names

    Models [src/engine/src/util/strutil.c] (POSIX branch) and
    [src/engine/src/filename.c].  A C string is the list of its bytes before
    the terminating NUL. *)

From stdpp Require Import strings.
From S2P Require Import Prelude.
#[local] Open Scope Z_scope.

(** The bytes of a string literal. *)
Definition cstr (s : string) : bytes := String.list_byte_of_string s.

Lemma zlen_cstr s : zlen (cstr s) = Z.of_nat (String.length s).
Proof. unfold cstr, zlen, String.list_byte_of_string. rewrite length_map. f_equal. induction s as [|a s IH]; cbn; [done|]. by rewrite IH. Qed.

Lemma length_append s t : String.length (String.append s t) = (String.length s + String.length t)%nat.
Proof. induction s as [|a s IH]; [done|]. change (S (String.length (String.append s t)) = S (String.length s + String.length t)). by rewrite IH. Qed.

(** ** Decimal integers *)

(** [do { n++; x /= 10; } while (x != 0)]: at most 20 turns on 64 bits. *)
Fixpoint size_int_loop (fuel : nat) (x n : Z) : Z :=
  match fuel with
  | O => n
  | S fuel =>
    let n := n + 1 in
    let x := x / 10 in
    if negb (x =? 0) then size_int_loop fuel x n else n
  end.

Definition ldb_size_int (x : Z) : Z := size_int_loop 20 x 0.

(** [for (i = n - 1; i >= 0; i--) { zp[i] = '0' + x % 10; x /= 10; }], filling
    [zp] from the right; [tl] is [zp[i+1 .. n)]. *)
Fixpoint encode_int_loop (i : nat) (x : Z) (tl : bytes) : bytes :=
  match i with
  | O => tl
  | S i => encode_int_loop i (x / 10) (z2b (48 + x mod 10) :: tl)
  end.

(** The string left in [zp] (the NUL behind it is not part of it). *)
Definition ldb_encode_int (x pad : Z) : bytes :=
  let n := ldb_size_int x in
  let n := if n <? pad then pad else n in
  encode_int_loop (Z.to_nat n) x [].

Definition UINT64_MAX : Z := 2 ^ 64 - 1.

(** The loop of [ldb_decode_int]; [None] is the early [return 0]. *)
Fixpoint decode_int_loop (sp : bytes) (x : Z) : option (Z * bytes) :=
  let last := 48 + UINT64_MAX mod 10 in
  let limit := UINT64_MAX / 10 in
  match sp with
  | [] => Some (x, sp)
  | b :: sp' =>
    let ch := b2z b in
    if (ch <? 48) || (57 <? ch) then Some (x, sp)
    else if (limit <? x) || ((x =? limit) && (last <? ch)) then None
    else decode_int_loop sp' (u64 (u64 (x * 10) + (ch - 48)))
  end.

Definition ldb_decode_int : rdr Z := fun xp =>
  match decode_int_loop xp 0 with
  | None => (None, xp)
  | Some (x, sp) => if zlen sp =? zlen xp then (None, xp) else (Some x, sp)
  end.

(** ** Strings and paths *)

Fixpoint ldb_starts_with (xp yp : bytes) : bool :=
  match xp, yp with
  | a :: xp', b :: yp' => if decide (a = b) then ldb_starts_with xp' yp' else false
  | _, [] => true
  | [], _ :: _ => false
  end.

(** [strrchr(fname, '/')]: the part after the last slash. *)
Fixpoint ldb_basename_loop (fname base : bytes) : bytes :=
  match fname with
  | [] => base
  | c :: fname' => ldb_basename_loop fname' (if b2z c =? 47 then fname' else base)
  end.

Definition ldb_basename (fname : bytes) : bytes := ldb_basename_loop fname fname.

(** [while (len > 0 && fname[len - 1] == '/') len -= 1]. *)
Fixpoint strip_slashes (fname : bytes) (len : nat) : nat :=
  match len with
  | O => O
  | S len' => if at_ fname (Z.of_nat len') =? 47 then strip_slashes fname len' else len
  end.

(** The string written to [buf] of [size] bytes; [None] is [return 0]. *)
Definition ldb_dirname (size : Z) (fname : bytes) : option bytes :=
  let base := ldb_basename fname in
  if zlen base =? zlen fname then
    if size <? 2 then None else Some (cstr ".")
  else
    let len := zlen fname - zlen base in
    let len := Z.of_nat (strip_slashes fname (Z.to_nat len)) in
    let len := if len =? 0 then 1 else len in
    if size <? len + 1 then None else Some (ztake len fname).

(** [ldb_join(zp, zn, xp, yp)]: both the copying and the in-place ([zp == xp])
    case leave [xp/yp] in [zp]. *)
Definition ldb_join (zn : Z) (xp yp : bytes) : option bytes :=
  if zn <? zlen xp + zlen yp + 2 then None
  else Some (xp ++ cstr "/" ++ yp).

(** ** File names *)

Inductive filetype :=
  | LDB_FILE_LOG | LDB_FILE_LOCK | LDB_FILE_TABLE | LDB_FILE_DESC
  | LDB_FILE_CURRENT | LDB_FILE_TEMP | LDB_FILE_INFO.

Definition make_filename (size : Z) (dbname : bytes) (num : Z) (ext : string) : option bytes :=
  let id := ldb_encode_int num 6 in
  let tmp := id ++ cstr "." ++ cstr ext in
  ldb_join size dbname tmp.

(** The assertion [num > 0] of the code is a precondition here. *)
Definition ldb_log_filename size dbname num := make_filename size dbname num "log".
Definition ldb_table_filename size dbname num := make_filename size dbname num "ldb".
Definition ldb_sstable_filename size dbname num := make_filename size dbname num "sst".
Definition ldb_temp_filename size dbname num := make_filename size dbname num "dbtmp".

Definition ldb_desc_filename (size : Z) (dbname : bytes) (num : Z) : option bytes :=
  let id := ldb_encode_int num 6 in
  let tmp := cstr "MANIFEST-" ++ id in
  ldb_join size dbname tmp.

Definition ldb_current_filename size dbname := ldb_join size dbname (cstr "CURRENT").
Definition ldb_lock_filename size dbname := ldb_join size dbname (cstr "LOCK").
Definition ldb_info_filename size dbname := ldb_join size dbname (cstr "LOG").
Definition ldb_oldinfo_filename size dbname := ldb_join size dbname (cstr "LOG.old").

(** [strcmp(x, y) == 0]. *)
Definition str_eq (x : bytes) (y : string) : bool := bool_decide (x = cstr y).

Definition ldb_parse_filename (name : bytes) : option (filetype * Z) :=
  if str_eq name "CURRENT" then Some (LDB_FILE_CURRENT, 0)
  else if str_eq name "LOCK" then Some (LDB_FILE_LOCK, 0)
  else if str_eq name "LOG" || str_eq name "LOG.old" then Some (LDB_FILE_INFO, 0)
  else if ldb_starts_with name (cstr "MANIFEST-") then
    let name := zdrop 9 name in
    match ldb_decode_int name with
    | (None, _) => None
    | (Some x, name) =>
      if negb (zlen name =? 0) then None else Some (LDB_FILE_DESC, x)
    end
  else
    match ldb_decode_int name with
    | (Some x, name) =>
      if str_eq name ".log" then Some (LDB_FILE_LOG, x)
      else if str_eq name ".sst" || str_eq name ".ldb" then Some (LDB_FILE_TABLE, x)
      else if str_eq name ".dbtmp" then Some (LDB_FILE_TEMP, x)
      else None
    | (None, _) => None
    end.

(** ** Decimal integers: proofs *)

Definition is_digit (b : byte) : Prop := 48 <= b2z b <= 57.

(** The value of a string of digits read after a prefix of value [x]. *)
Fixpoint dec_value (x : Z) (ds : bytes) : Z :=
  match ds with [] => x | d :: ds => dec_value (x * 10 + (b2z d - 48)) ds end.

Lemma dec_value_app x ds es : dec_value x (ds ++ es) = dec_value (dec_value x ds) es.
Proof. revert x. induction ds; intros; cbn; auto. Qed.

Lemma dec_value_mono x ds : 0 <= x -> Forall is_digit ds -> x <= dec_value x ds.
Proof.
  intros Hx H. revert x Hx. induction H as [|d ds Hd H IH]; intros x Hx; cbn; [lia|].
  unfold is_digit in Hd. etrans; [|apply IH]; lia.
Qed.

Lemma encode_int_loop_spec i x tl :
  0 <= x -> exists ds, encode_int_loop i x tl = ds ++ tl /\ length ds = i /\
    Forall is_digit ds /\ dec_value 0 ds = x mod 10 ^ Z.of_nat i.
Proof.
  revert x tl. induction i as [|i IH]; intros x tl Hx; cbn [encode_int_loop].
  - exists []. repeat split; [constructor|]. cbn. by rewrite Z.mod_1_r.
  - assert (0 <= x / 10) by (apply Z.div_pos; lia).
    destruct (IH (x / 10) (z2b (48 + x mod 10) :: tl)) as (ds & -> & Hlen & Hds & Hv); [done|].
    pose proof (Z.mod_pos_bound x 10 eq_refl).
    exists (ds ++ [z2b (48 + x mod 10)]). split; [by rewrite <- app_assoc|].
    split; [rewrite length_app; cbn; lia|]. split.
    + apply Forall_app. split; [done|]. constructor; [|constructor].
      unfold is_digit. rewrite b2z_z2b_small; lia.
    + rewrite dec_value_app, Hv. cbn [dec_value]. rewrite b2z_z2b_small by lia.
      rewrite Nat2Z.inj_succ, Z.pow_succ_r by lia.
      rewrite Z.rem_mul_r by lia. lia.
Qed.

Lemma size_int_loop_spec fuel x n :
  0 <= x < 10 ^ Z.of_nat fuel -> (0 < fuel)%nat ->
  n < size_int_loop fuel x n <= n + Z.of_nat fuel /\ x < 10 ^ (size_int_loop fuel x n - n).
Proof.
  revert x n. induction fuel as [|fuel IH]; intros x n Hx Hf; [lia|].
  cbn [size_int_loop]. destruct (Z.eqb_spec (x / 10) 0) as [E|E]; cbn [negb].
  - split; [lia|]. replace (n + 1 - n) with 1 by lia.
    pose proof (Z.div_mod x 10). pose proof (Z.mod_pos_bound x 10). lia.
  - rewrite Nat2Z.inj_succ, Z.pow_succ_r in Hx by lia.
    assert (0 <= x / 10 < 10 ^ Z.of_nat fuel)
      by (split; [apply Z.div_pos|apply Z.div_lt_upper_bound]; lia).
    assert (0 < fuel)%nat by (destruct fuel; [cbn in *; lia|lia]).
    destruct (IH (x / 10) (n + 1)) as [H1 H2]; [done..|].
    split; [lia|].
    replace (size_int_loop fuel (x / 10) (n + 1) - n)
      with (Z.succ (size_int_loop fuel (x / 10) (n + 1) - (n + 1))) by lia.
    rewrite Z.pow_succ_r by lia.
    pose proof (Z.div_mod x 10). pose proof (Z.mod_pos_bound x 10). lia.
Qed.

Lemma ldb_size_int_spec x :
  0 <= x < 2 ^ 64 -> 1 <= ldb_size_int x <= 20 /\ x < 10 ^ ldb_size_int x.
Proof.
  intros Hx. unfold ldb_size_int.
  destruct (size_int_loop_spec 20 x 0) as [H1 H2]; [cbn; lia|lia|].
  rewrite Z.sub_0_r in H2. lia.
Qed.

Lemma ldb_encode_int_spec x pad :
  0 <= x < 2 ^ 64 ->
  Forall is_digit (ldb_encode_int x pad) /\ ldb_encode_int x pad <> [] /\
  dec_value 0 (ldb_encode_int x pad) = x /\
  zlen (ldb_encode_int x pad) = Z.max (ldb_size_int x) pad.
Proof.
  intros Hx. unfold ldb_encode_int.
  destruct (ldb_size_int_spec x Hx) as [Hn Hlt].
  set (n := if _ <? pad then pad else _).
  assert (n = Z.max (ldb_size_int x) pad) as Hmax
    by (unfold n; destruct (Z.ltb_spec (ldb_size_int x) pad); lia).
  destruct (encode_int_loop_spec (Z.to_nat n) x []) as (ds & -> & Hlen & Hds & Hv); [lia|].
  rewrite app_nil_r. split; [done|]. split; [by destruct ds; [cbn in Hlen; lia|]|].
  split; [|unfold zlen; lia].
  rewrite Hv, Z2Nat.id by lia. apply Z.mod_small. split; [lia|].
  eapply Z.lt_le_trans; [exact Hlt|]. apply Z.pow_le_mono_r; lia.
Qed.

(** [decode_int_loop] reads a run of digits whose value fits 64 bits. *)
Lemma decode_int_loop_digits ds rest x :
  Forall is_digit ds -> 0 <= x -> dec_value x ds < 2 ^ 64 ->
  decode_int_loop (ds ++ rest) x = decode_int_loop rest (dec_value x ds).
Proof.
  intros H. revert x. induction H as [|d ds Hd H IH]; intros x Hx Hv; [done|].
  cbn [app decode_int_loop dec_value] in *.
  unfold is_digit in Hd.
  assert (x * 10 + (b2z d - 48) <= dec_value (x * 10 + (b2z d - 48)) ds)
    by (apply dec_value_mono; [lia|done]).
  change (48 + UINT64_MAX mod 10) with 53.
  change (UINT64_MAX / 10) with 1844674407370955161.
  rewrite (proj2 (Z.ltb_ge (b2z d) 48)), (proj2 (Z.ltb_ge 57 (b2z d))) by lia. cbn [orb].
  destruct (Z.ltb_spec 1844674407370955161 x); [lia|].
  destruct (Z.eqb_spec x 1844674407370955161), (Z.ltb_spec 53 (b2z d)); cbn [orb andb];
    try lia; rewrite (u64_small (x * 10)), u64_small by lia; apply IH; lia.
Qed.

(** A number is not continued by [rest]. *)
Definition no_digit (rest : bytes) : Prop :=
  match rest with [] => True | b :: _ => ~ is_digit b end.

Lemma no_digit_dot rest : no_digit (cstr "." ++ rest).
Proof. cbn. unfold is_digit. change (b2z Byte.x2e) with 46. lia. Qed.

Lemma decode_int_stop rest x : no_digit rest -> decode_int_loop rest x = Some (x, rest).
Proof.
  destruct rest as [|b rest]; [done|]. cbn. unfold is_digit. intros H.
  destruct (Z.ltb_spec (b2z b) 48), (Z.ltb_spec 57 (b2z b)); cbn; try done. lia.
Qed.

Lemma ldb_decode_encode x pad rest :
  0 <= x < 2 ^ 64 -> no_digit rest ->
  ldb_decode_int (ldb_encode_int x pad ++ rest) = (Some x, rest).
Proof.
  intros Hx Hrest. destruct (ldb_encode_int_spec x pad Hx) as (Hd & Hne & Hv & _).
  unfold ldb_decode_int.
  rewrite decode_int_loop_digits, Hv, decode_int_stop by (try done; lia).
  destruct (Z.eqb_spec (zlen rest) (zlen (ldb_encode_int x pad ++ rest))) as [E|]; [|done].
  exfalso. apply Hne. apply zlen_0_nil. zlia.
Qed.

(** ** File names: proofs *)

Lemma ldb_starts_with_app p x : ldb_starts_with (p ++ x) p = true.
Proof. induction p as [|a p IH]; cbn; [by destruct x|]. by rewrite decide_True. Qed.

(** A digit string is none of the fixed names and no manifest name. *)
Lemma digit_head_neq ds rest :
  Forall is_digit ds -> ds <> [] ->
  exists d tl, ds ++ rest = d :: tl /\ is_digit d.
Proof. intros H Hne. destruct H as [|d ds Hd H]; [done|]. by exists d, (ds ++ rest). Qed.

Lemma parse_number_name num pad rest :
  0 <= num < 2 ^ 64 -> no_digit rest ->
  ldb_parse_filename (ldb_encode_int num pad ++ rest)
  = if str_eq rest ".log" then Some (LDB_FILE_LOG, num)
    else if str_eq rest ".sst" || str_eq rest ".ldb" then Some (LDB_FILE_TABLE, num)
    else if str_eq rest ".dbtmp" then Some (LDB_FILE_TEMP, num)
    else None.
Proof.
  intros Hn Hrest. destruct (ldb_encode_int_spec num pad Hn) as (Hd & Hne & _).
  destruct (digit_head_neq _ rest Hd Hne) as (d & tl & E & Hdig).
  unfold ldb_parse_filename.
  assert (forall s c, head (cstr s) = Some c -> ~ is_digit c ->
            str_eq (ldb_encode_int num pad ++ rest) s = false) as Hneq.
  { intros s c Hc Hnd. unfold str_eq. apply bool_decide_eq_false_2. rewrite E.
    intros E'. rewrite <- E' in Hc. injection Hc as ->. done. }
  rewrite (Hneq "CURRENT" Byte.x43), (Hneq "LOCK" Byte.x4c), (Hneq "LOG" Byte.x4c),
    (Hneq "LOG.old" Byte.x4c) by (done || (unfold is_digit; cbn; lia)).
  cbn [orb].
  assert (ldb_starts_with (ldb_encode_int num pad ++ rest) (cstr "MANIFEST-") = false) as ->.
  { rewrite E. cbn. rewrite decide_False; [done|]. intros ->. unfold is_digit in Hdig.
    cbn in Hdig. lia. }
  by rewrite ldb_decode_encode.
Qed.

Lemma str_eq_refl s : str_eq (cstr s) s = true.
Proof. by apply bool_decide_eq_true_2. Qed.

Lemma basename_loop_no_slash x base :
  Forall (fun c => b2z c <> 47) x -> ldb_basename_loop x base = base.
Proof.
  intros H. revert base. induction H as [|c x Hc H IH]; intros base; [done|].
  cbn. by rewrite (proj2 (Z.eqb_neq _ _)) by done.
Qed.

Lemma basename_loop_app x y base :
  ldb_basename_loop (x ++ cstr "/" ++ y) base = ldb_basename_loop y y.
Proof.
  revert base. induction x as [|c x IH]; intros base; [done|]. cbn [app ldb_basename_loop].
  apply IH.
Qed.

(** [ldb_join] puts [yp] where [ldb_basename] finds it. *)
Lemma basename_join zn xp yp p :
  Forall (fun c => b2z c <> 47) yp -> ldb_join zn xp yp = Some p -> ldb_basename p = yp.
Proof.
  intros Hy. unfold ldb_join. destruct (_ <? _); [done|]. intros [= <-].
  unfold ldb_basename. change (Byte.x2f :: yp) with (cstr "/" ++ yp).
  rewrite basename_loop_app. by apply basename_loop_no_slash.
Qed.

Lemma digits_no_slash ds : Forall is_digit ds -> Forall (fun c => b2z c <> 47) ds.
Proof. apply Forall_impl. unfold is_digit. lia. Qed.

Lemma parse_desc_name num pad :
  0 <= num < 2 ^ 64 ->
  ldb_parse_filename (cstr "MANIFEST-" ++ ldb_encode_int num pad) = Some (LDB_FILE_DESC, num).
Proof.
  intros Hn. unfold ldb_parse_filename.
  rewrite ldb_starts_with_app, zdrop_app by done.
  rewrite <- (app_nil_r (ldb_encode_int num pad)) at 5.
  rewrite ldb_decode_encode by done. done.
Qed.

(** Proves that a literal holds no slash. *)
Ltac no_slash := repeat (apply List.Forall_cons; [vm_compute; discriminate|]); apply List.Forall_nil.

(** A made name, read back. *)
Lemma parse_made size dbname num ext p : 0 <= num < 2 ^ 64 -> Forall (fun c => b2z c <> 47) (cstr ext) ->
  make_filename size dbname num ext = Some p ->
  ldb_parse_filename (ldb_basename p) = ldb_parse_filename (ldb_encode_int num 6 ++ cstr "." ++ cstr ext).
Proof.
  intros Hn Hext H. destruct (ldb_encode_int_spec num 6 Hn) as (Hd & _). apply digits_no_slash in Hd.
  f_equal. eapply basename_join; [|exact H].
  apply Forall_app. split; [done|]. apply Forall_app. split; [no_slash|done].
Qed.

Lemma parse_temp size dbname num p : 0 <= num < 2 ^ 64 -> ldb_temp_filename size dbname num = Some p ->
  ldb_parse_filename (ldb_basename p) = Some (LDB_FILE_TEMP, num).
Proof.
  intros Hn Hp. apply parse_made in Hp as ->; [|done|no_slash].
  rewrite parse_number_name by (lia || apply no_digit_dot). reflexivity.
Qed.

Lemma parse_desc size dbname num p : 0 <= num < 2 ^ 64 -> ldb_desc_filename size dbname num = Some p ->
  ldb_parse_filename (ldb_basename p) = Some (LDB_FILE_DESC, num).
Proof.
  intros Hn Hp. destruct (ldb_encode_int_spec num 6 Hn) as (Hd & _). apply digits_no_slash in Hd.
  unfold ldb_desc_filename in Hp. erewrite basename_join; [|..|exact Hp].
  - by apply parse_desc_name.
  - apply Forall_app. split; [no_slash|done].
Qed.

Lemma parse_current size dbname p : ldb_current_filename size dbname = Some p ->
  ldb_parse_filename (ldb_basename p) = Some (LDB_FILE_CURRENT, 0).
Proof. intros Hp. unfold ldb_current_filename in Hp. erewrite basename_join; [|..|exact Hp]; [done|no_slash]. Qed.

(** ** Properties *)

(** File names round-trip: the base name of every numbered file name the
    code makes ([.log], [.ldb], [.sst], [.dbtmp], [MANIFEST-]) is parsed by
    [ldb_parse_filename] back to its type and 64-bit number. *)
Theorem parse_made_filename size dbname num :
  0 < num < 2 ^ 64 ->
  let parsed p := ldb_parse_filename (ldb_basename p) in
  (forall p, ldb_log_filename size dbname num = Some p -> parsed p = Some (LDB_FILE_LOG, num)) /\
  (forall p, ldb_table_filename size dbname num = Some p -> parsed p = Some (LDB_FILE_TABLE, num)) /\
  (forall p, ldb_sstable_filename size dbname num = Some p -> parsed p = Some (LDB_FILE_TABLE, num)) /\
  (forall p, ldb_temp_filename size dbname num = Some p -> parsed p = Some (LDB_FILE_TEMP, num)) /\
  (forall p, ldb_desc_filename size dbname num = Some p -> parsed p = Some (LDB_FILE_DESC, num)).
Proof.
  intros Hn parsed.
  assert (forall ext p, Forall (fun c => b2z c <> 47) (cstr ext) -> make_filename size dbname num ext = Some p ->
    parsed p = ldb_parse_filename (ldb_encode_int num 6 ++ cstr "." ++ cstr ext)) as Hmk.
  { intros ext p. apply parse_made. lia. }
  repeat split; intros p Hp.
  1-4: apply Hmk in Hp as ->; [|no_slash];
    rewrite parse_number_name by (lia || apply no_digit_dot); reflexivity.
  apply (parse_desc size dbname); [lia|done].
Qed.

Lemma parse_made_filename_witness :
  ldb_log_filename 1024 (cstr "/tmp/db") 42 = Some (cstr "/tmp/db/000042.log") /\
  ldb_parse_filename (ldb_basename (cstr "/tmp/db/000042.log")) = Some (LDB_FILE_LOG, 42).
Proof.
  assert (ldb_log_filename 1024 (cstr "/tmp/db") 42 = Some (cstr "/tmp/db/000042.log")) as H
    by by vm_compute.
  split; [exact H|].
  destruct (parse_made_filename 1024 (cstr "/tmp/db") 42 ltac:(lia)) as (Hlog & _).
  exact (Hlog _ H).
Defined.
