(* ===== verification/Buffer.v ===== *)
(** * Growable byte buffers

    Models [src/engine/src/util/buffer.c].  A buffer is the block it points
    at, its size and its capacity; every write checks that it stays inside the
    block ([None] is a write outside it, undefined in C).  The refinement
    theorems show that, from a well-formed buffer, no operation does that and
    each one acts on the contents as the list operation of its name.  The rest
    of the development uses these list operations for buffers. *)

From stdpp Require Import strings.
From S2P Require Import Prelude Coding Strutil.
#[local] Open Scope Z_scope.

Record buffer := Buffer { data : bytes; size : Z; alloc : Z }.

(** The bytes a buffer holds, as a slice. *)
Definition contents (z : buffer) : bytes := ztake (size z) (data z).

(** An owned buffer: a block of [alloc] bytes ([NULL] when there is none). *)
Definition buffer_wf (z : buffer) : Prop :=
  0 <= size z <= alloc z /\ zlen (data z) = alloc z /\ alloc z < 2 ^ 62.

(** [memcpy(data + off, xs, xn)] inside the block. *)
Definition blit (data : bytes) (off : Z) (xs : bytes) : option bytes :=
  if (0 <=? off) && (off + zlen xs <=? zlen data)
  then Some (ztake off data ++ xs ++ zdrop (off + zlen xs) data)
  else None.

Section Buffer.
(** The bytes of fresh memory are unspecified. *)
Context (junk : Z -> byte).

Definition fresh (n : Z) : bytes := map (fun i => junk (Z.of_nat i)) (seq 0 (Z.to_nat n)).

(** [realloc]: the old bytes, then unspecified ones. *)
Definition realloc (data : bytes) (n : Z) : bytes :=
  ztake n data ++ fresh (n - zlen data).

Definition buffer_init : buffer := Buffer [] 0 0.

Definition buffer_clear (z : buffer) : buffer := Buffer [] 0 0.

Definition buffer_reset (z : buffer) : buffer := Buffer (data z) 0 (alloc z).

Definition buffer_reinit (z : buffer) (zn : Z) : buffer :=
  Buffer (if 0 <? zn then fresh zn else []) 0 zn.

Definition buffer_grow (z : buffer) (zn : Z) : buffer :=
  if alloc z <? zn then Buffer (realloc (data z) zn) (size z) zn else z.

(** The pointer returned is [data + size]: the writers below use it so. *)
Definition buffer_expand (z : buffer) (xn : Z) : buffer :=
  let zn := u64 (size z + xn) in
  if alloc z <? zn then
    let al := u64 (alloc z * 3) / 2 in
    let al := if al <? zn then zn else al in
    Buffer (realloc (data z) al) (size z) al
  else z.

Definition buffer_resize (z : buffer) (zn : Z) : buffer :=
  let z := buffer_grow z zn in
  Buffer (data z) zn (alloc z).

Definition buffer_set (z : buffer) (xs : bytes) : option buffer :=
  let z := buffer_grow z (zlen xs) in
  d ← (if 0 <? zlen xs then blit (data z) 0 xs else Some (data z));
  Some (Buffer d (zlen xs) (alloc z)).

Definition buffer_set_str (z : buffer) (xp : bytes) : option buffer := buffer_set z xp.

Definition buffer_copy (z x : buffer) : option buffer := buffer_set z (contents x).

Definition buffer_swap (x y : buffer) : buffer * buffer := (y, x).

(** A read-only view of memory the buffer does not own. *)
Definition buffer_roset (z : buffer) (xs : bytes) : buffer := Buffer xs (zlen xs) 0.

Definition buffer_rocopy (z x : buffer) : buffer := buffer_roset z (contents x).

Definition buffer_rwset (z : buffer) (block : bytes) : buffer := Buffer block 0 (zlen block).

Definition buffer_equal (x y : buffer) : bool :=
  if negb (size x =? size y) then false
  else if size x =? 0 then true
  else memcmp (data x) (data y) (Z.to_nat (size y)) =? 0.

Definition buffer_push (z : buffer) (x : Z) : option buffer :=
  let z :=
    if size z =? alloc z then
      buffer_grow z (u64 (u64 (alloc z * 3) / 2 + (if alloc z <=? 1 then 1 else 0)))
    else z in
  d ← blit (data z) (size z) [z2b (Z.land x 255)];
  Some (Buffer d (size z + 1) (alloc z)).

Definition buffer_append (z : buffer) (xs : bytes) : option buffer :=
  let z := buffer_expand z (zlen xs) in
  d ← (if 0 <? zlen xs then blit (data z) (size z) xs else Some (data z));
  Some (Buffer d (size z + zlen xs) (alloc z)).

Definition buffer_concat (z : buffer) (x : bytes) : option buffer := buffer_append z x.

Definition buffer_string (z : buffer) (xp : bytes) : option buffer := buffer_append z xp.

(** A writer that fills at most the [xn] bytes expanded with [xs] and adds
    the number written to the size. *)
Definition buffer_emit (z : buffer) (xn : Z) (xs : bytes) : option buffer :=
  let z := buffer_expand z xn in
  d ← blit (data z) (size z) xs;
  Some (Buffer d (size z + zlen xs) (alloc z)).

(** [ldb_encode_int] also writes a NUL behind the digits, which is not
    counted in the size. *)
Definition buffer_number (z : buffer) (x : Z) : option buffer :=
  let z := buffer_expand z 21 in
  let s := ldb_encode_int x 0 in
  d ← blit (data z) (size z) (s ++ [Byte.x00]);
  Some (Buffer d (size z + zlen s) (alloc z)).

Definition nibble : bytes := cstr "0123456789abcdef".

(** The loop of [ldb_buffer_escape]: what it writes for the bytes of [x]. *)
Fixpoint escape (x : bytes) : bytes :=
  match x with
  | [] => []
  | b :: x =>
    let ch := b2z b in
    (if (32 <=? ch) && (ch <=? 126) then [z2b ch]
     else [z2b 92; z2b 120; z2b (at_ nibble (Z.shiftr ch 4)); z2b (at_ nibble (Z.land ch 15))])
    ++ escape x
  end.

Definition buffer_escape (z : buffer) (x : bytes) : option buffer :=
  buffer_emit z (u64 (u64 (zlen x * 4) + 1)) (escape x).

Definition buffer_pad (z : buffer) (xn : Z) : option buffer :=
  let z := buffer_expand z xn in
  d ← (if 0 <? xn then blit (data z) (size z) (zeros xn) else Some (data z));
  Some (Buffer d (size z + xn) (alloc z)).

Definition buffer_fixed32 (z : buffer) (x : Z) : option buffer :=
  buffer_emit z 4 (fixed32_write x).
Definition buffer_fixed64 (z : buffer) (x : Z) : option buffer :=
  buffer_emit z 8 (fixed64_write x).
Definition buffer_varint32 (z : buffer) (x : Z) : option buffer :=
  buffer_emit z 5 (varint32_write x).
Definition buffer_varint64 (z : buffer) (x : Z) : option buffer :=
  buffer_emit z 10 (varint64_write x).

Definition buffer_size (x : buffer) : Z := varint32_size (u32 (size x)) + size x.

Definition buffer_write (x : buffer) : bytes :=
  varint32_write (u32 (size x)) ++ raw_write (data x) (size x).

Definition buffer_export (z x : buffer) : option buffer :=
  buffer_emit z (u64 (5 + size x)) (buffer_write x).

(** [ldb_slice_export] of [slice.c]: the same for a slice. *)
Definition slice_export (z : buffer) (x : bytes) : option buffer :=
  buffer_emit z (u64 (5 + zlen x)) (slice_write x).

(** [ldb_buffer_read(z, xp, xn)]: the new [z], 0 or 1, and the cursor. *)
Definition buffer_read (z : buffer) : rdr (option buffer) :=
  rd zn <- varint32_read;
  rd zp <- zraw_read zn;
  rret (buffer_set z zp).

Definition buffer_slurp (z : buffer) : rdr (option buffer) := buffer_read z.

Definition buffer_import (z : buffer) (x : bytes) : option (option buffer) :=
  fst (buffer_slurp z x).

(** ** Refinement to lists *)

(** [op] succeeds, keeps the buffer well formed and leaves [xs] in it. *)
Definition holds (r : option buffer) (xs : bytes) : Prop :=
  exists z, r = Some z /\ buffer_wf z /\ contents z = xs.

(** Room for [n] more bytes on a machine where sizes stay below [2^60]. *)
Definition room (z : buffer) (n : Z) : Prop := 0 <= n /\ size z + n < 2 ^ 60.

Lemma zlen_fresh n : 0 <= n -> zlen (fresh n) = n.
Proof. intros. unfold zlen, fresh. rewrite length_map, length_seq. lia. Qed.

Lemma zlen_realloc d n : zlen d <= n -> zlen (realloc d n) = n.
Proof. intros. unfold realloc. rewrite zlen_app, ztake_all, zlen_fresh by lia. lia. Qed.

Lemma ztake_realloc d n k : 0 <= k <= zlen d -> zlen d <= n ->
  ztake k (realloc d n) = ztake k d.
Proof.
  intros Hk Hn. unfold realloc. rewrite (ztake_all n) by lia. unfold ztake.
  rewrite take_app_le; [done|]. unfold zlen in *. lia.
Qed.

Lemma zlen_contents z : buffer_wf z -> zlen (contents z) = size z.
Proof. intros (H1 & H2 & _). unfold contents. apply zlen_take. lia. Qed.

Lemma buffer_grow_spec z n :
  buffer_wf z -> n < 2 ^ 62 ->
  buffer_wf (buffer_grow z n) /\ contents (buffer_grow z n) = contents z /\
  size (buffer_grow z n) = size z /\ Z.max n (alloc z) = alloc (buffer_grow z n).
Proof.
  intros (H1 & H2 & H3) Hn. unfold buffer_grow.
  destruct (Z.ltb_spec (alloc z) n) as [Hlt|Hge].
  - unfold buffer_wf, contents; cbn. rewrite zlen_realloc, ztake_realloc by lia.
    repeat split; lia.
  - split; [done|]. split; [done|]. lia.
Qed.

Lemma buffer_expand_spec z n :
  buffer_wf z -> room z n ->
  buffer_wf (buffer_expand z n) /\ contents (buffer_expand z n) = contents z /\
  size (buffer_expand z n) = size z /\ size z + n <= alloc (buffer_expand z n).
Proof.
  intros (H1 & H2 & H3) Hroom. unfold room in Hroom. unfold buffer_expand.
  rewrite (u64_small (size z + n)) by lia.
  destruct (Z.ltb_spec (alloc z) (size z + n)) as [Hlt|Hge].
  - rewrite (u64_small (alloc z * 3)) by lia.
    set (al := if _ <? _ then _ else _).
    assert (size z + n <= al < 2 ^ 62) as Hal.
    { unfold al. assert (alloc z * 3 / 2 <= alloc z * 3 / 1)
        by (apply Z.div_le_compat_l; lia). rewrite Z.div_1_r in *.
      assert (alloc z * 3 / 2 < 2 ^ 62) by (apply Z.div_lt_upper_bound; lia).
      destruct (Z.ltb_spec (alloc z * 3 / 2) (size z + n)); lia. }
    unfold buffer_wf, contents; cbn. rewrite zlen_realloc, ztake_realloc by lia.
    repeat split; lia.
  - split; [done|]. split; [done|]. lia.
Qed.

(** Writing [xs] behind the contents and counting [xs]. *)
Lemma blit_contents z xs d n :
  buffer_wf z -> size z + zlen xs <= alloc z -> 0 <= n <= zlen xs ->
  blit (data z) (size z) xs = Some d ->
  buffer_wf (Buffer d (size z + n) (alloc z)) /\
  contents (Buffer d (size z + n) (alloc z)) = contents z ++ ztake n xs.
Proof.
  intros (H1 & H2 & H3) Hfit Hn. unfold blit.
  destruct (_ && _); [|done]. intros [= <-]. unfold buffer_wf, contents. cbn.
  split.
  - rewrite !zlen_app, zlen_take, zlen_drop by zlia. zlia.
  - assert (zlen (ztake (size z) (data z)) = size z) by (apply zlen_take; lia).
    unfold ztake, zdrop, zlen in *.
    rewrite take_app_ge by lia. f_equal.
    rewrite take_app_le by lia. f_equal. lia.
Qed.

Lemma blit_some d off xs :
  0 <= off -> off + zlen xs <= zlen d -> exists d', blit d off xs = Some d'.
Proof.
  intros H1 H2. unfold blit. rewrite (proj2 (Z.leb_le _ _)), (proj2 (Z.leb_le _ _)) by lia.
  eauto.
Qed.

Lemma buffer_emit_spec z n xs :
  buffer_wf z -> room z n -> zlen xs <= n -> holds (buffer_emit z n xs) (contents z ++ xs).
Proof.
  intros Hz Hroom Hn. unfold buffer_emit.
  destruct (buffer_expand_spec z n Hz Hroom) as (Hw & Hc & Hs & Ha).
  set (z' := buffer_expand z n) in *.
  destruct (blit_some (data z') (size z') xs) as [d Hd].
  { destruct Hw; lia. }
  { destruct Hw as (? & -> & ?). lia. }
  rewrite Hd. cbn.
  destruct (blit_contents z' xs d (zlen xs) Hw) as [H1 H2]; [lia|zlia|done|].
  eexists. split; [done|]. split; [done|]. by rewrite H2, Hc, ztake_all by lia.
Qed.

Lemma buffer_append_spec z xs :
  buffer_wf z -> room z (zlen xs) -> holds (buffer_append z xs) (contents z ++ xs).
Proof.
  intros Hz Hroom. destruct (buffer_emit_spec z (zlen xs) xs Hz Hroom) as (z' & E & Hz'); [lia|].
  unfold buffer_append. destruct (Z.ltb_spec 0 (zlen xs)) as [Hlt|Hge].
  - exists z'. by split.
  - assert (xs = []) as -> by (apply zlen_0_nil; zlia).
    destruct (buffer_expand_spec z 0 Hz Hroom) as (Hw & Hc & Hs & Ha).
    eexists. split; [done|]. rewrite zlen_nil, Z.add_0_r, app_nil_r, <- Hc.
    destruct (buffer_expand z 0). by split.
Qed.

Lemma buffer_pad_spec z n :
  buffer_wf z -> room z n -> holds (buffer_pad z n) (contents z ++ zeros n).
Proof.
  intros Hz Hroom. assert (0 <= n) by (unfold room in Hroom; lia).
  assert (zlen (zeros n) = n) as Hl by by apply zlen_zeros.
  replace (buffer_pad z n) with (buffer_append z (zeros n)).
  - apply buffer_append_spec; [done|]. by rewrite Hl.
  - unfold buffer_append, buffer_pad. by rewrite Hl.
Qed.

Lemma buffer_set_spec z xs :
  buffer_wf z -> zlen xs < 2 ^ 60 -> holds (buffer_set z xs) xs.
Proof.
  intros Hz Hlen. unfold buffer_set.
  destruct (buffer_grow_spec z (zlen xs) Hz) as (Hw & Hc & Hs & Ha); [lia|].
  set (z' := buffer_grow z (zlen xs)) in *.
  pose proof (zlen_nonneg xs). destruct Hw as (H1 & H2 & H3).
  set (z0 := Buffer (data z') 0 (alloc z')).
  assert (buffer_wf z0) as Hw0 by (unfold buffer_wf; cbn; lia).
  destruct (blit_some (data z') 0 xs) as [d Hd]; [lia|lia|].
  destruct (blit_contents z0 xs d (zlen xs) Hw0) as [H4 H5]; [cbn; lia|lia|done|].
  cbn in H4, H5. rewrite ztake_all in H5 by lia.
  destruct (Z.ltb_spec 0 (zlen xs)) as [Hlt|Hge].
  - rewrite Hd. cbn. eexists. split; [done|]. by split.
  - assert (xs = []) as -> by (apply zlen_0_nil; zlia). cbn.
    eexists. split; [done|]. split; [unfold buffer_wf, zlen in *; cbn in *; lia|done].
Qed.

Lemma buffer_push_spec z x :
  buffer_wf z -> room z 1 -> holds (buffer_push z x) (contents z ++ [z2b x]).
Proof.
  intros Hz Hroom. unfold buffer_push.
  set (z' := if size z =? alloc z then _ else z).
  assert (buffer_wf z' /\ contents z' = contents z /\ size z' = size z /\
          size z + 1 <= alloc z') as (Hw & Hc & Hs & Ha).
  { unfold room in Hroom. destruct Hz as (H1 & H2 & H3). unfold z'.
    destruct (Z.eqb_spec (size z) (alloc z)) as [E|E]; [|repeat split; done || lia].
    rewrite (u64_small (alloc z * 3)) by lia.
    set (c := if _ <=? 1 then 1 else 0).
    assert (size z + 1 <= alloc z * 3 / 2 + c < 2 ^ 62) as Hg.
    { unfold c. pose proof (Z.div_mod (alloc z * 3) 2). pose proof (Z.mod_pos_bound (alloc z * 3) 2).
      destruct (Z.leb_spec (alloc z) 1); lia. }
    rewrite u64_small by lia.
    destruct (buffer_grow_spec z (alloc z * 3 / 2 + c)) as (? & ? & ? & ?); [done|lia|].
    split; [done|]. split; [congruence|]. lia. }
  rewrite land_255, z2b_mod.
  destruct (blit_some (data z') (size z') [z2b x]) as [d Hd].
  { destruct Hw; lia. }
  { destruct Hw as (? & -> & ?). zlia. }
  rewrite Hd. cbn.
  destruct (blit_contents z' [z2b x] d 1 Hw) as [H1 H2]; [zlia|zlia|done|].
  eexists. split; [done|]. split; [done|]. by rewrite H2, Hc.
Qed.

Lemma zlen_escape x : zlen x <= zlen (escape x) <= 4 * zlen x.
Proof.
  induction x as [|b x IH]; [done|]. cbn [escape].
  destruct (_ && _); zlia.
Qed.
End Buffer.

(** ** The abstract specification: buffers as byte strings *)

(** The calls by which the code fills a buffer. *)
Inductive buffer_op :=
  | OpReset
  | OpSet (xs : bytes)
  | OpPush (x : Z)
  | OpAppend (xs : bytes)
  | OpPad (n : Z)
  | OpNumber (x : Z)
  | OpEscape (xs : bytes)
  | OpFixed32 (x : Z)
  | OpFixed64 (x : Z)
  | OpVarint32 (x : Z)
  | OpVarint64 (x : Z)
  | OpSliceExport (xs : bytes).

(** What each call means for the contents. *)
Definition abstract_op (xs : bytes) (op : buffer_op) : bytes :=
  match op with
  | OpReset => []
  | OpSet ys => ys
  | OpPush x => xs ++ [z2b x]
  | OpAppend ys => xs ++ ys
  | OpPad n => xs ++ zeros n
  | OpNumber x => xs ++ ldb_encode_int x 0
  | OpEscape ys => xs ++ escape ys
  | OpFixed32 x => xs ++ fixed32_write x
  | OpFixed64 x => xs ++ fixed64_write x
  | OpVarint32 x => xs ++ varint32_write x
  | OpVarint64 x => xs ++ varint64_write x
  | OpSliceExport ys => xs ++ slice_write ys
  end.

(** The space the call asks for. *)
Definition op_room (op : buffer_op) : Z :=
  match op with
  | OpReset => 0
  | OpSet xs => zlen xs
  | OpPush _ => 1
  | OpAppend xs => zlen xs
  | OpPad n => n
  | OpNumber _ => 21
  | OpEscape xs => 4 * zlen xs + 1
  | OpFixed32 _ => 4
  | OpFixed64 _ => 8
  | OpVarint32 _ => 5
  | OpVarint64 _ => 10
  | OpSliceExport xs => 5 + zlen xs
  end.

(** Arguments in the range of their C types. *)
Definition op_wf (op : buffer_op) : Prop :=
  match op with
  | OpPad n => 0 <= n
  | OpNumber x => 0 <= x < 2 ^ 64
  | _ => True
  end.

Section Refinement.
Context (junk : Z -> byte).

Definition run_op (z : buffer) (op : buffer_op) : option buffer :=
  match op with
  | OpReset => Some (buffer_reset z)
  | OpSet xs => buffer_set junk z xs
  | OpPush x => buffer_push junk z x
  | OpAppend xs => buffer_append junk z xs
  | OpPad n => buffer_pad junk z n
  | OpNumber x => buffer_number junk z x
  | OpEscape xs => buffer_escape junk z xs
  | OpFixed32 x => buffer_fixed32 junk z x
  | OpFixed64 x => buffer_fixed64 junk z x
  | OpVarint32 x => buffer_varint32 junk z x
  | OpVarint64 x => buffer_varint64 junk z x
  | OpSliceExport xs => slice_export junk z xs
  end.

Fixpoint run_ops (z : buffer) (ops : list buffer_op) : option buffer :=
  match ops with
  | [] => Some z
  | op :: ops => z ← run_op z op; run_ops z ops
  end.

Fixpoint total_room (ops : list buffer_op) : Z :=
  match ops with [] => 0 | op :: ops => op_room op + total_room ops end.

Lemma buffer_number_spec z x :
  buffer_wf z -> room z 21 -> 0 <= x < 2 ^ 64 ->
  holds (buffer_number junk z x) (contents z ++ ldb_encode_int x 0).
Proof.
  intros Hz Hroom Hx. unfold buffer_number.
  destruct (buffer_expand_spec junk z 21 Hz Hroom) as (Hw & Hc & Hs & Ha).
  set (z' := buffer_expand junk z 21) in *.
  destruct (ldb_encode_int_spec x 0 Hx) as (_ & _ & _ & Hlen).
  destruct (ldb_size_int_spec x Hx) as [Hsz _].
  set (s := ldb_encode_int x 0) in *.
  assert (zlen (s ++ [Byte.x00]) <= 21) by zlia.
  destruct (blit_some (data z') (size z') (s ++ [Byte.x00])) as [d Hd].
  { destruct Hw; lia. }
  { destruct Hw as (? & -> & ?). lia. }
  rewrite Hd. cbn.
  destruct (blit_contents z' (s ++ [Byte.x00]) d (zlen s) Hw) as [H1 H2]; [lia|zlia|done|].
  eexists. split; [done|]. split; [done|]. by rewrite H2, Hc, ztake_app.
Qed.

(** One call refines its meaning on lists. *)
Lemma run_op_spec z op :
  buffer_wf z -> op_wf op -> size z + op_room op < 2 ^ 60 ->
  holds (run_op z op) (abstract_op (contents z) op).
Proof.
  intros Hz Hop Hroom. pose proof (zlen_contents z Hz) as Hc.
  assert (0 <= op_room op -> room z (op_room op)) as Hr by by split.
  destruct op; cbn [run_op abstract_op op_room op_wf] in *.
  - destruct z, Hz as (? & ? & ?). cbn in *. eexists. split; [done|].
    split; [unfold buffer_wf; cbn; lia|done].
  - apply buffer_set_spec; [done|]. zlia.
  - apply buffer_push_spec; [done|apply Hr; lia].
  - apply buffer_append_spec; [done|]. apply Hr. zlia.
  - apply buffer_pad_spec; [done|apply Hr; lia].
  - apply buffer_number_spec; [done|apply Hr; lia|done].
  - pose proof (zlen_escape xs). unfold buffer_escape.
    rewrite (u64_small (zlen xs * 4)), u64_small by zlia.
    apply buffer_emit_spec; [done| |lia]. split; lia.
  - apply buffer_emit_spec; [done|apply Hr; lia|zlia].
  - apply buffer_emit_spec; [done|apply Hr; lia|zlia].
  - pose proof (varint32_size_range x).
    apply buffer_emit_spec; [done|apply Hr; lia|zlia].
  - pose proof (varint64_size_range x).
    apply buffer_emit_spec; [done|apply Hr; lia|zlia].
  - unfold slice_export. rewrite u64_small by zlia.
    pose proof (varint32_size_range (u32 (zlen xs))).
    apply buffer_emit_spec; [done|apply Hr; zlia|].
    rewrite zlen_slice_write. unfold slice_size. lia.
Qed.

Lemma abstract_op_size xs op :
  op_wf op -> zlen (abstract_op xs op) <= zlen xs + op_room op.
Proof.
  intros Hop. destruct op; cbn [abstract_op op_room op_wf] in *; autorewrite with zlen;
    try zlia.
  - destruct (ldb_encode_int_spec x 0 Hop) as (_ & _ & _ & ->).
    pose proof (ldb_size_int_spec x Hop). lia.
  - pose proof (zlen_escape xs0). zlia.
  - pose proof (varint32_size_range x). lia.
  - pose proof (varint64_size_range x). lia.
  - unfold slice_size. pose proof (varint32_size_range (u32 (zlen xs0))). lia.
Qed.

Lemma op_room_nonneg op : op_wf op -> 0 <= op_room op.
Proof. destruct op; cbn; intros; zlia. Qed.

Lemma total_room_nonneg ops : Forall op_wf ops -> 0 <= total_room ops.
Proof.
  induction 1 as [|op ops H Hs IH]; cbn [total_room]; [lia|].
  pose proof (op_room_nonneg op H). lia.
Qed.

Lemma run_ops_spec ops z :
  buffer_wf z -> Forall op_wf ops -> size z + total_room ops < 2 ^ 60 ->
  holds (run_ops z ops) (fold_left abstract_op ops (contents z)).
Proof.
  intros Hz Hops. revert z Hz. induction Hops as [|op ops Hop Hops IH]; intros z Hz Hroom.
  - by exists z.
  - cbn [run_ops fold_left total_room] in *.
    pose proof (total_room_nonneg ops Hops).
    destruct (run_op_spec z op Hz Hop) as (z' & E & Hz' & Hc'); [lia|].
    rewrite E. cbn. rewrite <- Hc'. apply IH; [done|].
    pose proof (abstract_op_size (contents z) op Hop) as Hs.
    rewrite <- Hc', !zlen_contents in Hs by done. lia.
Qed.
End Refinement.

(** ** Properties *)

(** Buffers refine byte strings: from an empty buffer, every sequence of
    fill operations asking for less than [2^60] bytes in total runs without a
    write outside the block (the growth policy always makes room) and leaves
    exactly the bytes the list operations describe, whatever [realloc] puts in
    fresh memory. *)
Theorem buffer_refines_bytes junk ops :
  Forall op_wf ops -> total_room ops < 2 ^ 60 ->
  exists z, run_ops junk buffer_init ops = Some z /\ buffer_wf z /\
    contents z = fold_left abstract_op ops [].
Proof. intros Hops Hroom. by apply (run_ops_spec junk ops buffer_init). Qed.

Lemma buffer_refines_bytes_witness :
  let ops := [OpFixed32 7; OpSliceExport [Byte.x61; Byte.x62]; OpPush 258; OpNumber 1234; OpPad 2] in
  exists z, run_ops (fun _ => Byte.xff) buffer_init ops = Some z /\ buffer_wf z /\
    contents z = fold_left abstract_op ops [].
Proof.
  cbv zeta. apply buffer_refines_bytes; [|by vm_compute].
  repeat (apply List.Forall_cons; [cbn; first [exact I | lia]|]). apply List.Forall_nil.
Defined.
