(* ===== verification/Comparator.v ===== *)
(** * Comparators

    Models [src/engine/src/util/comparator.h] and [comparator.c]: the
    interface record, its documented contract as a type class, and the
    bytewise comparator. *)

From stdpp Require Import strings.
From S2P Require Import Prelude Coding.
#[local] Open Scope Z_scope.

(** ** The interface *)

(** [ldb_comparator_t].  The [state] pointer of user-defined comparators is
    inside the closures.  A [NULL] function pointer is [None]. *)
#[local] Set Warnings "-register-all".
Inductive comparator : Type := Comparator {
  cmp_name : string;
  cmp_compare : bytes -> bytes -> Z;
  cmp_shortest_separator : option (bytes -> bytes -> bytes);
  cmp_short_successor : option (bytes -> bytes);
  cmp_user_comparator : option comparator
}.

(** [ldb_compare(cmp, x, y)], [ldb_shortest_separator] and
    [ldb_short_successor]: the macros skip a [NULL] member. *)
Definition ldb_compare (cmp : comparator) (x y : bytes) : Z := cmp_compare cmp x y.

Definition ldb_shortest_separator (cmp : comparator) (start limit : bytes) : bytes :=
  match cmp_shortest_separator cmp with Some f => f start limit | None => start end.

Definition ldb_short_successor (cmp : comparator) (key : bytes) : bytes :=
  match cmp_short_successor cmp with Some f => f key | None => key end.

(** What the header promises of a comparator on the keys of [dom]: [compare]
    is a three-way comparison of a total preorder, the separator of
    [start < limit] lies in [[start, limit)] (and nothing else is changed), the
    successor of a key is not below it. *)
Class ComparatorLaws (dom : bytes -> Prop) (c : comparator) : Prop := {
  compare_flip x y : dom x -> dom y ->
    Z.sgn (ldb_compare c y x) = - Z.sgn (ldb_compare c x y);
  compare_trans x y z : dom x -> dom y -> dom z ->
    ldb_compare c x y <= 0 -> ldb_compare c y z <= 0 -> ldb_compare c x z <= 0;
  separator_between s l : dom s -> dom l -> ldb_compare c s l < 0 ->
    dom (ldb_shortest_separator c s l) /\
    ldb_compare c s (ldb_shortest_separator c s l) <= 0 /\
    ldb_compare c (ldb_shortest_separator c s l) l < 0;
  separator_unchanged s l : dom s -> dom l -> 0 <= ldb_compare c s l ->
    ldb_shortest_separator c s l = s;
  successor_above k : dom k ->
    dom (ldb_short_successor c k) /\ ldb_compare c k (ldb_short_successor c k) <= 0
}.

(** The order a lawful comparator induces. *)
Section Laws.
Context (dom : bytes -> Prop) (c : comparator) `{!ComparatorLaws dom c}.

Lemma compare_refl x : dom x -> ldb_compare c x x = 0.
Proof. intros Hx. pose proof (compare_flip x x Hx Hx). lia. Qed.

Lemma compare_lt_flip x y : dom x -> dom y -> ldb_compare c x y < 0 <-> 0 < ldb_compare c y x.
Proof. intros Hx Hy. pose proof (compare_flip x y Hx Hy). lia. Qed.

Lemma compare_le_flip x y : dom x -> dom y -> ldb_compare c x y <= 0 <-> 0 <= ldb_compare c y x.
Proof. intros Hx Hy. pose proof (compare_flip x y Hx Hy). lia. Qed.

Lemma compare_eq_flip x y : dom x -> dom y -> ldb_compare c x y = 0 <-> ldb_compare c y x = 0.
Proof. intros Hx Hy. pose proof (compare_flip x y Hx Hy). lia. Qed.

Lemma compare_le_lt_trans x y z : dom x -> dom y -> dom z ->
  ldb_compare c x y <= 0 -> ldb_compare c y z < 0 -> ldb_compare c x z < 0.
Proof.
  intros Hx Hy Hz H1 H2.
  destruct (Z_lt_le_dec (ldb_compare c x z) 0) as [|H3]; [done|].
  apply compare_le_flip in H3; [|done..].
  pose proof (compare_trans z x y Hz Hx Hy H3 H1) as H4.
  apply compare_le_flip in H4; [|done..]. lia.
Qed.

Lemma compare_lt_le_trans x y z : dom x -> dom y -> dom z ->
  ldb_compare c x y < 0 -> ldb_compare c y z <= 0 -> ldb_compare c x z < 0.
Proof.
  intros Hx Hy Hz H1 H2.
  destruct (Z_lt_le_dec (ldb_compare c x z) 0) as [|H3]; [done|].
  apply compare_le_flip in H3; [|done..].
  pose proof (compare_trans y z x Hy Hz Hx H2 H3) as H4.
  apply compare_le_flip in H4; [|done..]. lia.
Qed.

Lemma compare_lt_trans x y z : dom x -> dom y -> dom z ->
  ldb_compare c x y < 0 -> ldb_compare c y z < 0 -> ldb_compare c x z < 0.
Proof. intros Hx Hy Hz H1 H2. apply (compare_lt_le_trans x y z); auto; lia. Qed.

(** [compare] respects its own equivalence. *)
Lemma compare_eq_l x y z : dom x -> dom y -> dom z ->
  ldb_compare c x y = 0 -> Z.sgn (ldb_compare c x z) = Z.sgn (ldb_compare c y z).
Proof.
  intros Hx Hy Hz H. pose proof (proj1 (compare_eq_flip x y Hx Hy) H) as H'.
  destruct (Z_lt_le_dec (ldb_compare c x z) 0).
  - assert (ldb_compare c y z < 0) by (apply (compare_le_lt_trans y x z); auto; lia). lia.
  - destruct (Z_lt_le_dec (ldb_compare c y z) 0).
    + assert (ldb_compare c x z < 0) by (apply (compare_le_lt_trans x y z); auto; lia). lia.
    + destruct (Z_le_gt_dec (ldb_compare c x z) 0).
      * assert (ldb_compare c y z <= 0) by (apply (compare_trans y x z); auto; lia). lia.
      * destruct (Z_le_gt_dec (ldb_compare c y z) 0); [|lia].
        assert (ldb_compare c x z <= 0) by (apply (compare_trans x y z); auto; lia). lia.
Qed.
End Laws.

(** Separators and successors are no longer than the keys they replace: the
    purpose of both operations. *)
Class ShortSeparators (dom : bytes -> Prop) (c : comparator) : Prop := {
  separator_short s l : dom s -> dom l -> ldb_compare c s l < 0 -> zlen (ldb_shortest_separator c s l) <= zlen s;
  successor_short k : dom k -> zlen (ldb_short_successor c k) <= zlen k
}.

(** ** The bytewise comparator *)

Definition slice_compare (x y : bytes) : Z :=
  let n := Z.min (zlen x) (zlen y) in
  let r := if n =? 0 then 0 else memcmp x y (Z.to_nat n) in
  if r =? 0 then
    if zlen x <? zlen y then -1
    else if zlen y <? zlen x then 1
    else r
  else r.

(** The loop [while (i < min_length && x[i] == y[i]) i++]. *)
Fixpoint common_prefix (x y : bytes) : Z :=
  match x, y with
  | a :: x, b :: y => if decide (a = b) then 1 + common_prefix x y else 0
  | _, _ => 0
  end.

Definition shortest_separator (start limit : bytes) : bytes :=
  let min_length := Z.min (zlen start) (zlen limit) in
  let diff_index := common_prefix start limit in
  if min_length <=? diff_index then start
  else
    let diff_byte := at_ start diff_index in
    if (diff_byte <? 255) && (diff_byte + 1 <? at_ limit diff_index) then
      ztake diff_index start ++ [z2b (diff_byte + 1)]
    else start.

(** The loop [for (i = 0; i < key->size; i++)]; [pre] is [key[0..i)]. *)
Fixpoint short_successor_loop (pre key : bytes) : bytes :=
  match key with
  | [] => pre
  | b :: key' =>
    if negb (b2z b =? 255) then pre ++ [z2b (b2z b + 1)]
    else short_successor_loop (pre ++ [b]) key'
  end.

Definition short_successor (key : bytes) : bytes := short_successor_loop [] key.

Definition bytewise_comparator : comparator := {|
  cmp_name := "leveldb.BytewiseComparator";
  cmp_compare := slice_compare;
  cmp_shortest_separator := Some shortest_separator;
  cmp_short_successor := Some short_successor;
  cmp_user_comparator := None
|}.

(** ** Lexicographic order *)

(** The order [slice_compare] is meant to compute. *)
Fixpoint lex_compare (x y : bytes) : comparison :=
  match x, y with
  | [], [] => Eq
  | [], _ :: _ => Lt
  | _ :: _, [] => Gt
  | a :: x, b :: y =>
    match Z.compare (b2z a) (b2z b) with Eq => lex_compare x y | c => c end
  end.

Definition sign_of (c : comparison) : Z := match c with Lt => -1 | Eq => 0 | Gt => 1 end.

Lemma lex_compare_refl x : lex_compare x x = Eq.
Proof. induction x as [|a x IH]; [done|]. cbn. by rewrite Z.compare_refl. Qed.

Lemma lex_compare_eq x y : lex_compare x y = Eq <-> x = y.
Proof.
  split; [|intros ->; apply lex_compare_refl].
  revert y. induction x as [|a x IH]; intros [|b y]; cbn; try done.
  destruct (Z.compare_spec (b2z a) (b2z b)) as [E| |]; try done.
  intros H. rewrite (b2z_inj _ _ E). f_equal. auto.
Qed.

Lemma lex_compare_antisym x y : lex_compare y x = CompOpp (lex_compare x y).
Proof.
  revert y. induction x as [|a x IH]; intros [|b y]; cbn; try done.
  rewrite (Z.compare_antisym (b2z a)). destruct (b2z a ?= b2z b); cbn; auto.
Qed.

Lemma lex_compare_trans x y z :
  lex_compare x y = Lt -> lex_compare y z = Lt -> lex_compare x z = Lt.
Proof.
  revert y z. induction x as [|a x IH]; intros [|b y] [|d z]; cbn; try done.
  destruct (Z.compare_spec (b2z a) (b2z b)); try done;
    destruct (Z.compare_spec (b2z b) (b2z d)); try done; intros H1 H2;
    destruct (Z.compare_spec (b2z a) (b2z d)); try lia; eauto.
Qed.

Lemma slice_compare_lex x y : slice_compare x y = sign_of (lex_compare x y).
Proof.
  revert y. induction x as [|a x IH]; intros [|b y].
  - done.
  - unfold slice_compare. autorewrite with zlen. rewrite Z.min_l by zlia. cbn.
    by rewrite (proj2 (Z.ltb_lt _ _)) by zlia.
  - unfold slice_compare. autorewrite with zlen. rewrite Z.min_r by zlia. cbn.
    rewrite (proj2 (Z.ltb_ge _ _)), (proj2 (Z.ltb_lt _ _)) by zlia. done.
  - cbn [lex_compare]. specialize (IH y). unfold slice_compare in *.
    autorewrite with zlen.
    assert (1 <= Z.min (1 + zlen x) (1 + zlen y)) by zlia.
    rewrite (proj2 (Z.eqb_neq (Z.min (1 + _) _) 0)) by lia.
    replace (Z.to_nat (Z.min (1 + zlen x) (1 + zlen y)))
      with (S (Z.to_nat (Z.min (zlen x) (zlen y)))) by zlia.
    cbn [memcmp]. destruct (Z.compare_spec (b2z a) (b2z b)) as [E|E|E].
    + rewrite E, Z.ltb_irrefl.
      replace (1 + zlen x <? 1 + zlen y) with (zlen x <? zlen y)
        by (apply Bool.eq_iff_eq_true; rewrite !Z.ltb_lt; lia).
      replace (1 + zlen y <? 1 + zlen x) with (zlen y <? zlen x)
        by (apply Bool.eq_iff_eq_true; rewrite !Z.ltb_lt; lia).
      rewrite <- IH. destruct (Z.eqb_spec (Z.min (zlen x) (zlen y)) 0) as [E0|]; [|done].
      by rewrite E0.
    + by rewrite (proj2 (Z.ltb_lt _ _)).
    + rewrite (proj2 (Z.ltb_ge _ _)), (proj2 (Z.ltb_lt _ _)) by lia. done.
Qed.

Lemma slice_compare_eq x y : slice_compare x y = 0 <-> x = y.
Proof.
  rewrite slice_compare_lex, <- lex_compare_eq. by destruct (lex_compare x y).
Qed.

Lemma slice_compare_lt x y : slice_compare x y < 0 <-> lex_compare x y = Lt.
Proof. rewrite slice_compare_lex. by destruct (lex_compare x y). Qed.

(** ** Separators and successors *)

Lemma common_prefix_range x y : 0 <= common_prefix x y <= Z.min (zlen x) (zlen y).
Proof.
  revert y. induction x as [|a x IH]; intros [|b y]; cbn [common_prefix]; try zlia.
  destruct (decide (a = b)); [|zlia]. specialize (IH y). zlia.
Qed.

(** The two keys agree up to the index found and differ there. *)
Lemma common_prefix_spec x y :
  common_prefix x y < Z.min (zlen x) (zlen y) ->
  exists p a b x' y', x = p ++ a :: x' /\ y = p ++ b :: y' /\ a <> b /\ zlen p = common_prefix x y.
Proof.
  revert y. induction x as [|a x IH]; intros [|b y]; cbn [common_prefix]; try zlia.
  destruct (decide (a = b)) as [<-|Hne].
  - intros H. destruct (IH y) as (p & c & d & x' & y' & -> & -> & Hcd & Hp); [zlia|].
    exists (a :: p), c, d, x', y'. repeat split; [done|]. zlia.
  - intros _. by exists [], a, b, x, y.
Qed.

Lemma common_prefix_take x y n :
  n = common_prefix x y -> ztake n x = ztake n y.
Proof.
  intros ->. revert y. induction x as [|a x IH]; intros [|b y]; cbn [common_prefix]; try done.
  destruct (decide (a = b)) as [<-|]; [|done].
  pose proof (common_prefix_range x y). unfold ztake in *.
  rewrite Z2Nat.inj_add by lia. to_nat_literals.
    cbn [Nat.add take]. f_equal. apply IH.
Qed.

Lemma lex_app p x y : lex_compare (p ++ x) (p ++ y) = lex_compare x y.
Proof. induction p as [|a p IH]; [done|]. cbn. by rewrite Z.compare_refl. Qed.

Lemma at_app p a x : at_ (p ++ a :: x) (zlen p) = b2z a.
Proof.
  unfold at_, zlen. rewrite Nat2Z.id, app_nth2, Nat.sub_diag by lia. done.
Qed.

Lemma shortest_separator_between s l :
  slice_compare s l < 0 ->
  slice_compare s (shortest_separator s l) <= 0 /\
  slice_compare (shortest_separator s l) l < 0.
Proof.
  intros Hlt. unfold shortest_separator.
  destruct (Z.leb_spec (Z.min (zlen s) (zlen l)) (common_prefix s l)) as [Hp|Hp].
  { rewrite (proj2 (slice_compare_eq s s)) by done. lia. }
  destruct (common_prefix_spec s l Hp) as (p & a & b & s' & l' & Es & El & Hab & Hlen).
  rewrite <- Hlen. rewrite Es, El, !at_app, ztake_app by done.
  destruct (Z.ltb_spec (b2z a) 255), (Z.ltb_spec (b2z a + 1) (b2z b)); cbn [andb];
    try (rewrite (proj2 (slice_compare_eq (p ++ a :: s') _)) by done;
         rewrite Es, El in Hlt; split; [lia|exact Hlt]).
  rewrite !slice_compare_lex, !lex_app. cbn [lex_compare].
  rewrite b2z_z2b_small by (byte_ranges; lia).
  rewrite (proj2 (Z.compare_lt_iff (b2z a) _)) by lia.
  by rewrite (proj2 (Z.compare_lt_iff (b2z a + 1) _)) by lia.
Qed.

Lemma shortest_separator_unchanged s l :
  0 <= slice_compare s l -> shortest_separator s l = s.
Proof.
  intros Hge. unfold shortest_separator.
  destruct (Z.leb_spec (Z.min (zlen s) (zlen l)) (common_prefix s l)) as [Hp|Hp]; [done|].
  destruct (common_prefix_spec s l Hp) as (p & a & b & s' & l' & Es & El & Hab & Hlen).
  rewrite <- Hlen. rewrite Es, El, !at_app.
  rewrite Es, El, slice_compare_lex, lex_app in Hge. cbn [lex_compare] in Hge.
  destruct (Z.ltb_spec (b2z a + 1) (b2z b)); [|by rewrite andb_false_r].
  rewrite (proj2 (Z.compare_lt_iff (b2z a) _)) in Hge by lia. cbn in Hge. lia.
Qed.

Lemma short_successor_loop_above pre key :
  slice_compare (pre ++ key) (short_successor_loop pre key) <= 0.
Proof.
  revert pre. induction key as [|b key IH]; intros pre; cbn [short_successor_loop].
  - rewrite app_nil_r, (proj2 (slice_compare_eq _ _)); done.
  - destruct (Z.eqb_spec (b2z b) 255); cbn [negb].
    + replace (pre ++ b :: key) with ((pre ++ [b]) ++ key) by by rewrite <- app_assoc.
      apply IH.
    + rewrite slice_compare_lex, lex_app. cbn [lex_compare].
      rewrite b2z_z2b_small by (byte_ranges; lia).
      by rewrite (proj2 (Z.compare_lt_iff _ _)) by lia.
Qed.

Lemma slice_compare_trans x y z :
  slice_compare x y <= 0 -> slice_compare y z <= 0 -> slice_compare x z <= 0.
Proof.
  rewrite !slice_compare_lex.
  destruct (lex_compare x y) eqn:E1; cbn; try lia;
    destruct (lex_compare y z) eqn:E2; cbn; try lia; intros _ _.
  - apply lex_compare_eq in E1 as ->. by rewrite E2.
  - apply lex_compare_eq in E1 as ->. by rewrite E2.
  - apply lex_compare_eq in E2 as ->. by rewrite E1.
  - by rewrite (lex_compare_trans x y z).
Qed.

(** Shortening does not lengthen. *)
Lemma shortest_separator_length s l : zlen (shortest_separator s l) <= zlen s.
Proof.
  unfold shortest_separator. pose proof (common_prefix_range s l).
  destruct (Z.leb_spec (Z.min (zlen s) (zlen l)) (common_prefix s l)); [done|].
  destruct (_ && _); [|done]. zlia.
Qed.

Lemma short_successor_loop_length pre key : zlen (short_successor_loop pre key) <= zlen pre + zlen key.
Proof.
  revert pre. induction key as [|b key IH]; intros pre; cbn [short_successor_loop]; [zlia|].
  destruct (negb _); [zlia|]. etransitivity; [apply IH|]. zlia.
Qed.

(** The bytewise comparator keeps the promises of the interface on all keys. *)
#[export] Instance bytewise_laws : ComparatorLaws (fun _ => True) bytewise_comparator.
Proof.
  split; unfold ldb_compare, ldb_shortest_separator, ldb_short_successor; cbn.
  - intros x y _ _. rewrite !slice_compare_lex, lex_compare_antisym.
    by destruct (lex_compare x y).
  - intros x y z _ _ _. apply slice_compare_trans.
  - intros s l _ _ H. split; [done|]. by apply shortest_separator_between.
  - intros s l _ _. apply shortest_separator_unchanged.
  - intros k _. split; [done|]. apply (short_successor_loop_above [] k).
Qed.

(** It also keeps them on the keys below a given length. *)
Lemma bytewise_short_laws n : ComparatorLaws (fun x => zlen x < n) bytewise_comparator.
Proof.
  split.
  - intros x y _ _. by apply (compare_flip (dom := fun _ => True)).
  - intros x y z _ _ _. by apply (compare_trans (dom := fun _ => True)).
  - intros s l Hs _ H. split; [|by apply shortest_separator_between].
    unfold ldb_shortest_separator. cbn. pose proof (shortest_separator_length s l). lia.
  - intros s l _ _ H. by apply shortest_separator_unchanged.
  - intros k Hk. split; [|apply (short_successor_loop_above [] k)].
    unfold ldb_short_successor. cbn. pose proof (short_successor_loop_length [] k) as H. cbn in H. unfold short_successor. zlia.
Qed.

#[export] Instance bytewise_short dom : ShortSeparators dom bytewise_comparator.
Proof.
  split; intros; [apply shortest_separator_length|].
  pose proof (short_successor_loop_length [] k) as H'. by rewrite zlen_nil in H'.
Qed.

(** ** Properties *)

(** [slice_compare] is the lexicographic order on byte strings (with
    [compare = 0] exactly on equal strings), and when [start < limit]
    [shortest_separator] gives a key of the interval [[start, limit)] no
    longer than [start], as the comparator interface promises to the index
    blocks. *)
Theorem bytewise_separator s l :
  slice_compare s l < 0 ->
  lex_compare s l = Lt /\
  slice_compare s (shortest_separator s l) <= 0 /\
  slice_compare (shortest_separator s l) l < 0 /\
  zlen (shortest_separator s l) <= zlen s.
Proof.
  intros H. split; [by apply slice_compare_lt|].
  destruct (shortest_separator_between s l H) as [H1 H2]. do 2 (split; [done|]).
  apply shortest_separator_length.
Qed.

Lemma bytewise_separator_witness :
  slice_compare [Byte.x61; Byte.x62; Byte.x63] [Byte.x61; Byte.x70] < 0 /\
  slice_compare (shortest_separator [Byte.x61; Byte.x62; Byte.x63] [Byte.x61; Byte.x70])
    [Byte.x61; Byte.x70] < 0.
Proof.
  assert (slice_compare [Byte.x61; Byte.x62; Byte.x63] [Byte.x61; Byte.x70] < 0) as H
    by by vm_compute.
  split; [exact H|]. apply (bytewise_separator _ _ H).
Defined.
