(* ===== verification/Bloom.v ===== *)
(** * The hash function and the Bloom filter policy

    Models [src/engine/src/util/hash.c], [util/bloom.h] and [util/bloom.c].
    A filter policy is an interface (its [build] and [match] members); the
    builtin Bloom filter is one implementation of it, the internal-key policy
    of [dbformat.c] (file DBFormat) another. *)

From stdpp Require Import strings.
From Stdlib Require Import SpecFloat.
From S2P Require Import Prelude Coding.
#[local] Open Scope Z_scope.

(** ** ldb_hash *)

Definition hash_m : Z := 0xc6a4a793.
Definition hash_r : Z := 24.

(** [while (size >= 4)]: four bytes at a time. *)
Fixpoint hash_words (data : bytes) (h : Z) : Z * bytes :=
  match data with
  | a :: b :: c :: d :: data' =>
    let w := fixed32_decode data in
    let h := u32 (h + w) in
    let h := u32 (h * hash_m) in
    let h := Z.lxor h (Z.shiftr h 16) in
    hash_words data' h
  | _ => (h, data)
  end.

Definition ldb_hash (data : bytes) (seed : Z) : Z :=
  let h := u32 (Z.lxor seed (u64 (zlen data * hash_m))) in
  let '(h, data) := hash_words data h in
  let size := zlen data in
  let h := if size =? 3 then u32 (h + u32 (Z.shiftl (at_ data 2) 16)) else h in
  let h := if (size =? 3) || (size =? 2) then u32 (h + u32 (Z.shiftl (at_ data 1) 8)) else h in
  if (size =? 3) || (size =? 2) || (size =? 1) then
    let h := u32 (h + at_ data 0) in
    let h := u32 (h * hash_m) in
    Z.lxor h (Z.shiftr h hash_r)
  else h.

(** ** The policy interface *)

(** [ldb_bloom_t]: [build] appends a filter for the keys to [dst]. *)
Record bloom := Bloom {
  bloom_name : string;
  bloom_build_fn : bytes -> list bytes -> bytes;
  bloom_match_fn : bytes -> bytes -> bool;
  bits_per_key : Z;
  bloom_k : Z
}.

(** What [bloom.h] promises: [build] only appends, and [match] accepts every
    key the filter was built from.  The bound on the number of keys keeps the
    size computations of the policies within [size_t]. *)
Class FilterPolicy (dom : bytes -> Prop) (p : bloom) : Prop :=
  policy_no_false_negative dst keys :
    Forall dom keys -> zlen keys < 2 ^ 32 ->
    exists filter, bloom_build_fn p dst keys = dst ++ filter /\
      forall key, key ∈ keys -> bloom_match_fn p filter key = true.

(** A filter takes at most [c] bytes per key, and one key's share more. *)
Class PolicySize (p : bloom) (c : Z) : Prop :=
  policy_size dst keys : zlen (bloom_build_fn p dst keys) <= zlen dst + c * (zlen keys + 1).

(** ** The builtin filter *)

Definition bloom_hash (key : bytes) : Z := ldb_hash key 0xbc9f1d34.

Definition bloom_size (bpk n : Z) : Z :=
  let bits := u64 (n * bpk) in
  let bits := if bits <? 64 then 64 else bits in
  u64 (bits + 7) / 8.

(** [(hash >> 17) | (hash << 15)] *)
Definition bloom_delta (hash : Z) : Z := Z.lor (Z.shiftr hash 17) (u32 (Z.shiftl hash 15)).

(** [data[pos / 8] |= (1 << (pos % 8))] *)
Definition set_bit (data : bytes) (pos : Z) : bytes :=
  <[Z.to_nat (pos / 8) := z2b (Z.lor (at_ data (pos / 8)) (Z.shiftl 1 (pos mod 8)))]> data.

(** [data[pos / 8] & (1 << (pos % 8))] *)
Definition test_bit (data : bytes) (pos : Z) : Z :=
  Z.land (at_ data (pos / 8)) (Z.shiftl 1 (pos mod 8)).

(** The loop [for (i = 0; i < bloom->k; i++)] of [bloom_add]. *)
Fixpoint bloom_add_loop (k : nat) (data : bytes) (hash delta bits : Z) : bytes :=
  match k with
  | O => data
  | S k =>
    let pos := u32 (hash mod bits) in
    bloom_add_loop k (set_bit data pos) (u32 (hash + delta)) delta bits
  end.

Definition bloom_add (k : Z) (data key : bytes) (bits : Z) : bytes :=
  let hash := bloom_hash key in
  bloom_add_loop (Z.to_nat k) data hash (bloom_delta hash) bits.

Definition bloom_build (bpk k : Z) (dst : bytes) (keys : list bytes) : bytes :=
  let nbytes := bloom_size bpk (zlen keys) in
  let bits := nbytes * 8 in
  let data := zeros (nbytes + 1) in
  let data := fold_left (fun data key => bloom_add k data key bits) keys data in
  dst ++ <[Z.to_nat nbytes := z2b k]> data.

Fixpoint bloom_match_loop (k : nat) (data : bytes) (hash delta bits : Z) : bool :=
  match k with
  | O => true
  | S k =>
    let pos := u32 (hash mod bits) in
    if test_bit data pos =? 0 then false
    else bloom_match_loop k data (u32 (hash + delta)) delta bits
  end.

Definition bloom_match (filter key : bytes) : bool :=
  let len := zlen filter in
  if len <? 2 then false
  else
    let bits := (len - 1) * 8 in
    let k := at_ filter (len - 1) in
    if 30 <? k then true
    else
      let hash := bloom_hash key in
      bloom_match_loop (Z.to_nat k) filter hash (bloom_delta hash) bits.

(** The double [0.69], its product with an [int] in binary64 and the
    truncation to [size_t]. *)
Definition double_069 : spec_float := S754_finite false 6214967485771284 (-53).

Definition double_of_int (n : Z) : spec_float := binary_normalize 53 1024 n 0 false.

Definition double_trunc (f : spec_float) : Z :=
  match f with S754_finite s m e => (if s then Z.opp else id) (Z.shiftl (Zpos m) e) | _ => 0 end.

Definition bloom_init (bpk : Z) : bloom :=
  let k := double_trunc (SFmul 53 1024 (double_of_int bpk) double_069) in
  let k := if k <? 1 then 1 else k in
  let k := if 30 <? k then 30 else k in
  {| bloom_name := "leveldb.BuiltinBloomFilter2";
     bloom_build_fn := bloom_build (u64 bpk) k;
     bloom_match_fn := bloom_match;
     bits_per_key := u64 bpk;
     bloom_k := k |}.

Definition bloom_default : bloom :=
  {| bloom_name := "leveldb.BuiltinBloomFilter2";
     bloom_build_fn := bloom_build 10 6;
     bloom_match_fn := bloom_match;
     bits_per_key := 10;
     bloom_k := 6 |}.

(** [ldb_bloom_name(buf, size, bloom)]: the name under which a filter block is
    registered, when it fits with its terminator. *)
Definition ldb_bloom_name (p : bloom) (size : Z) : option string :=
  let len := Z.of_nat (String.length (bloom_name p)) in
  if size <? 7 + len + 1 then None
  else Some (String.append "filter." (bloom_name p)).

(** ** Setting and testing bits *)

Lemma u32_mod_small h bits : 0 < bits -> 0 <= h < 2 ^ 32 -> u32 (h mod bits) = h mod bits.
Proof.
  intros Hb Hh. apply u32_small. split; [apply Z.mod_pos_bound; lia|].
  pose proof (Z.mod_le h bits). lia.
Qed.

Lemma zlen_set_bit data pos : zlen (set_bit data pos) = zlen data.
Proof. unfold set_bit, zlen. by rewrite length_insert. Qed.

Lemma at_insert data i b j :
  0 <= i < zlen data -> 0 <= j ->
  at_ (<[Z.to_nat i := b]> data) j = if j =? i then b2z b else at_ data j.
Proof.
  unfold zlen. intros Hi Hj. unfold at_. rewrite !nth_lookup.
  destruct (Z.eqb_spec j i) as [->|Hne].
  - by rewrite list_lookup_insert_eq by lia.
  - by rewrite list_lookup_insert_ne by lia.
Qed.

Lemma test_bit_spec data pos :
  0 <= pos -> (test_bit data pos =? 0) = negb (Z.testbit (at_ data (pos / 8)) (pos mod 8)).
Proof.
  intros Hp. unfold test_bit. rewrite Z.shiftl_1_l. apply land_pow2_eqb. by apply Z.mod_pos_bound.
Qed.

Lemma test_set_bit data pos pos' :
  0 <= pos < 8 * zlen data -> 0 <= pos' ->
  (test_bit (set_bit data pos) pos' =? 0) = (negb (pos' =? pos) && (test_bit data pos' =? 0)).
Proof.
  intros Hp Hp'. rewrite !test_bit_spec by done. unfold set_bit.
  pose proof (Z.mod_pos_bound pos 8 eq_refl). pose proof (Z.mod_pos_bound pos' 8 eq_refl).
  assert (0 <= pos / 8 < zlen data)
    by (split; [apply Z.div_pos|apply Z.div_lt_upper_bound]; lia).
  rewrite at_insert by (try done; apply Z.div_pos; lia).
  destruct (Z.eqb_spec (pos' / 8) (pos / 8)) as [E|E].
  - rewrite b2z_z2b. change 256 with (2 ^ 8).
    rewrite Z.testbit_mod_pow2, Z.lor_spec, Z.shiftl_1_l, <- E by lia.
    rewrite (proj2 (Z.ltb_lt _ 8)) by lia. cbn [andb].
    destruct (Z.eqb_spec pos' pos) as [->|Hne].
    + rewrite Z.pow2_bits_true by lia. by rewrite orb_true_r.
    + rewrite Z.pow2_bits_false; [by rewrite orb_false_r|].
      intros E'. pose proof (Z.div_mod pos 8). pose proof (Z.div_mod pos' 8). lia.
  - destruct (Z.eqb_spec pos' pos) as [->|]; done.
Qed.

(** ** Probing after insertion *)

Section Probe.
Context (bits : Z) (Hbits : 0 < bits).

Lemma zlen_add_loop k data hash delta :
  zlen (bloom_add_loop k data hash delta bits) = zlen data.
Proof.
  revert data hash. induction k as [|k IH]; intros data hash; [done|]. cbn.
  by rewrite IH, zlen_set_bit.
Qed.

(** Bits are never cleared. *)
Lemma add_loop_mono k data hash delta pos :
  bits <= 8 * zlen data -> 0 <= pos ->
  (test_bit (bloom_add_loop k data hash delta bits) pos =? 0) = true ->
  (test_bit data pos =? 0) = true.
Proof.
  intros Hlen Hp. revert data hash Hlen.
  induction k as [|k IH]; intros data hash Hlen; [done|]. cbn [bloom_add_loop].
  intros H. apply IH in H; [|by rewrite zlen_set_bit].
  pose proof (Z.mod_pos_bound hash bits Hbits). pose proof (u32_range (hash mod bits)).
  assert (u32 (hash mod bits) <= hash mod bits) by (apply Z.mod_le; lia).
  rewrite test_set_bit in H by lia. by apply andb_true_iff in H as [_ H].
Qed.

Lemma match_loop_mono k k' data hash delta hash' delta' :
  bits <= 8 * zlen data ->
  bloom_match_loop k' data hash' delta' bits = true ->
  bloom_match_loop k' (bloom_add_loop k data hash delta bits) hash' delta' bits = true.
Proof.
  intros Hlen. revert hash'. induction k' as [|k' IH]; intros hash'; [done|].
  cbn [bloom_match_loop].
  destruct (test_bit data _ =? 0) eqn:E; [done|]. intros H.
  destruct (test_bit (bloom_add_loop _ _ _ _ _) _ =? 0) eqn:E'; [|auto].
  apply add_loop_mono in E'; [congruence|done|apply u32_range].
Qed.

Lemma match_after_add k data hash delta :
  bits <= 8 * zlen data ->
  bloom_match_loop k (bloom_add_loop k data hash delta bits) hash delta bits = true.
Proof.
  intros Hlen. revert data hash Hlen.
  induction k as [|k IH]; intros data hash Hlen; [done|].
  cbn [bloom_match_loop bloom_add_loop].
  set (pos := u32 (hash mod bits)).
  assert (0 <= pos < 8 * zlen data).
  { unfold pos. pose proof (Z.mod_pos_bound hash bits Hbits).
    pose proof (u32_range (hash mod bits)).
    assert (u32 (hash mod bits) <= hash mod bits) by (apply Z.mod_le; lia). lia. }
  destruct (test_bit _ pos =? 0) eqn:E.
  - apply add_loop_mono in E; [|by rewrite zlen_set_bit|lia].
    rewrite test_set_bit, Z.eqb_refl in E by lia. done.
  - apply IH. by rewrite zlen_set_bit.
Qed.
End Probe.

(** Writing the trailer byte does not disturb the bit array. *)
Lemma match_loop_prefix k data data' hash delta bits :
  0 < bits -> (forall i, 0 <= i -> 8 * i < bits -> at_ data' i = at_ data i) ->
  bloom_match_loop k data' hash delta bits = bloom_match_loop k data hash delta bits.
Proof.
  intros Hb Heq. revert hash. induction k as [|k IH]; intros hash; [done|].
  cbn [bloom_match_loop]. unfold test_bit. rewrite Heq, IH; [done| |].
  - apply Z.div_pos; [apply u32_range|lia].
  - pose proof (Z.mod_pos_bound hash bits Hb).
    assert (u32 (hash mod bits) <= hash mod bits) by (apply Z.mod_le; lia).
    pose proof (Z.mul_div_le (u32 (hash mod bits)) 8). lia.
Qed.

Lemma bloom_size_range bpk n :
  0 <= n * bpk < 2 ^ 64 - 8 -> 8 <= bloom_size bpk n < 2 ^ 61.
Proof.
  intros H. unfold bloom_size. rewrite (u64_small (n * bpk)) by lia.
  set (bits := if _ <? 64 then _ else _).
  assert (64 <= bits < 2 ^ 64 - 8) by (unfold bits; destruct (Z.ltb_spec (n * bpk) 64); lia).
  rewrite u64_small by lia.
  split; [apply Z.div_le_lower_bound|apply Z.div_lt_upper_bound]; lia.
Qed.

Section Build.
Context (bpk k : Z) (Hk : 1 <= k <= 30).

Local Abbreviation add_all bits := (fold_left (fun data key => bloom_add k data key bits)).

Lemma zlen_add_all bits keys data : zlen (add_all bits keys data) = zlen data.
Proof.
  revert data. induction keys as [|key keys IH]; intros data; [done|].
  cbn [fold_left]. rewrite IH. apply zlen_add_loop.
Qed.

Definition probe (data key : bytes) (bits : Z) : bool :=
  bloom_match_loop (Z.to_nat k) data (bloom_hash key) (bloom_delta (bloom_hash key)) bits.

Lemma probe_add_all_mono bits keys data key :
  0 < bits <= 8 * zlen data -> probe data key bits = true ->
  probe (add_all bits keys data) key bits = true.
Proof.
  revert data. induction keys as [|key' keys IH]; intros data Hlen H; [done|].
  cbn [fold_left]. unfold bloom_add. apply IH; [by rewrite zlen_add_loop|].
  apply match_loop_mono; [lia..|done].
Qed.

Lemma probe_add_all bits keys data key :
  0 < bits <= 8 * zlen data -> key ∈ keys -> probe (add_all bits keys data) key bits = true.
Proof.
  revert data. induction keys as [|key' keys IH]; intros data Hlen Hin.
  - by apply not_elem_of_nil in Hin.
  - cbn [fold_left]. apply elem_of_cons in Hin as [->|Hin].
    + apply probe_add_all_mono; unfold bloom_add; [by rewrite zlen_add_loop|].
      apply match_after_add; lia.
    + apply IH; [|done]. unfold bloom_add. by rewrite zlen_add_loop.
Qed.

(** The filter [build] appends accepts each of its keys. *)
Lemma bloom_build_match dst keys :
  0 <= zlen keys * bpk < 2 ^ 64 - 8 ->
  exists filter, bloom_build bpk k dst keys = dst ++ filter /\
    forall key, key ∈ keys -> bloom_match filter key = true.
Proof.
  intros Hsize. eexists. split; [reflexivity|]. intros key Hin.
  pose proof (bloom_size_range _ _ Hsize) as Hb.
  set (nbytes := bloom_size bpk (zlen keys)) in *.
  set (data := add_all (nbytes * 8) keys (zeros (nbytes + 1))).
  assert (zlen data = nbytes + 1) as Hdata
    by (unfold data; rewrite zlen_add_all; apply zlen_zeros; lia).
  unfold bloom_match.
  assert (zlen (<[Z.to_nat nbytes := z2b k]> data) = nbytes + 1) as ->
    by (unfold zlen; rewrite length_insert; exact Hdata).
  rewrite (proj2 (Z.ltb_ge _ 2)) by lia. rewrite Z.add_simpl_r.
  rewrite at_insert, Z.eqb_refl, b2z_z2b_small, (proj2 (Z.ltb_ge _ k)) by lia.
  rewrite (match_loop_prefix _ data) by
    (lia || (intros i Hi Hlt; rewrite at_insert by lia;
             by rewrite (proj2 (Z.eqb_neq _ _)) by lia)).
  apply probe_add_all; [rewrite zlen_zeros by lia; lia|done].
Qed.
End Build.

Lemma bloom_init_k bpk : 1 <= bloom_k (bloom_init bpk) <= 30.
Proof.
  unfold bloom_init. cbn [bloom_k]. set (k := double_trunc _).
  destruct (Z.ltb_spec k 1); [done|]. destruct (Z.ltb_spec 30 k); lia.
Qed.

(** Every policy [ldb_bloom_init] makes keeps the promise of the interface. *)
#[export] Instance bloom_init_policy bpk :
  TCEq (Z.leb 0 bpk && Z.ltb bpk (2 ^ 31)) true ->
  FilterPolicy (fun _ => True) (bloom_init bpk).
Proof.
  intros E dst keys _ Hlen. apply TCEq_eq in E.
  apply andb_true_iff in E as [H1%Z.leb_le H2%Z.ltb_lt].
  change (bloom_build_fn (bloom_init bpk)) with
    (bloom_build (u64 bpk) (bloom_k (bloom_init bpk))).
  rewrite u64_small by lia.
  apply bloom_build_match; [apply bloom_init_k|].
  pose proof (zlen_nonneg keys). nia.
Qed.

#[export] Instance bloom_default_policy : FilterPolicy (fun _ => True) bloom_default.
Proof.
  intros dst keys _ Hlen. apply bloom_build_match; [lia|].
  pose proof (zlen_nonneg keys). lia.
Qed.

#[export] Instance bloom_default_size : PolicySize bloom_default 9.
Proof.
  intros dst keys. cbn [bloom_build_fn bloom_default]. unfold bloom_build. rewrite zlen_app.
  match goal with |- context [<[?i := ?x]> ?l] =>
    assert (zlen (<[i := x]> l) = zlen l) as -> by (unfold zlen; by rewrite length_insert) end.
  rewrite zlen_add_all. unfold bloom_size. pose proof (zlen_nonneg keys).
  pose proof (Z.mod_le (zlen keys * 10) (2 ^ 64) ltac:(lia) ltac:(lia)) as Hm. fold (u64 (zlen keys * 10)) in Hm.
  pose proof (u64_range (zlen keys * 10)) as Hr.
  set (bits := if _ <? 64 then _ else _).
  assert (64 <= bits /\ bits <= Z.max 64 (zlen keys * 10)) as [Hb1 Hb2] by (unfold bits; destruct (Z.ltb_spec (u64 (zlen keys * 10)) 64); lia).
  pose proof (Z.mod_le (bits + 7) (2 ^ 64) ltac:(lia) ltac:(lia)) as Hm2. fold (u64 (bits + 7)) in Hm2.
  pose proof (u64_range (bits + 7)). pose proof (Z.div_pos (u64 (bits + 7)) 8 ltac:(lia) ltac:(lia)).
  pose proof (Z.mul_div_le (u64 (bits + 7)) 8 ltac:(lia)). rewrite zlen_zeros by lia. lia.
Qed.

(** The static table [bloom_default] is what [ldb_bloom_init(10)] computes: the
    comment [(size_t)(10 * 0.69) == 6] of the source. *)
Lemma bloom_default_init : bloom_default = bloom_init 10.
Proof.
  assert (bloom_k (bloom_init 10) = 6) as E by by vm_compute.
  unfold bloom_default. rewrite <- E at 1 2. done.
Qed.

Lemma ldb_hash_range data seed : 0 <= seed < 2 ^ 32 -> 0 <= ldb_hash data seed < 2 ^ 32.
Proof.
  intros Hs.
  assert (forall h k, 0 <= k -> 0 <= h < 2 ^ 32 -> 0 <= Z.lxor h (Z.shiftr h k) < 2 ^ 32) as Hx.
  { intros h k Hk Hh. apply lxor_range; [lia|done|].
    rewrite Z.shiftr_div_pow2 by done. split; [apply Z.div_pos; lia|].
    apply Z.div_lt_upper_bound; [lia|]. nia. }
  assert (forall n d h, (length d <= n)%nat -> 0 <= h < 2 ^ 32 ->
            0 <= fst (hash_words d h) < 2 ^ 32) as Hw.
  { induction n as [|n IH]; intros d h Hn Hh.
    - by destruct d; [|cbn in Hn; lia].
    - destruct d as [|a [|b [|c [|e d]]]]; try done. cbn [hash_words].
      cbn in Hn. apply IH; [lia|]. apply Hx; [lia|apply u32_range]. }
  unfold ldb_hash.
  destruct (hash_words data _) as [h d] eqn:E.
  assert (0 <= h < 2 ^ 32) as Hh
    by (pose proof (Hw (length data) data _ (le_n _) (u32_range (Z.lxor seed (u64 (zlen data * hash_m))))) as H;
        by rewrite E in H).
  destruct (zlen d =? 3), (zlen d =? 2), (zlen d =? 1); cbn [orb];
    try apply Hx; try apply u32_range; try done; unfold hash_r; lia.
Qed.

(** ** Properties *)

(** The builtin Bloom policy has no false negatives: for every number of
    bits per key [ldb_bloom_init] accepts and every list of fewer than [2^32]
    keys, [bloom_build] appends to [dst] a filter that [bloom_match] accepts
    for each of the keys. *)
Theorem bloom_no_false_negatives bpk dst keys :
  0 <= bpk < 2 ^ 31 -> zlen keys < 2 ^ 32 ->
  exists filter, bloom_build_fn (bloom_init bpk) dst keys = dst ++ filter /\
    Forall (fun key => bloom_match_fn (bloom_init bpk) filter key = true) keys.
Proof.
  intros Hb Hlen.
  assert (TCEq (Z.leb 0 bpk && Z.ltb bpk (2 ^ 31)) true) as HT
    by (apply TCEq_eq; rewrite andb_true_iff, Z.leb_le, Z.ltb_lt; lia).
  destruct (bloom_init_policy bpk HT dst keys) as (f & E & Hf);
    [apply Forall_trivial|done|].
  exists f. split; [done|]. apply Forall_forall. intros key Hin. by apply Hf, list_elem_of_In.
Qed.

Lemma bloom_no_false_negatives_witness :
  exists filter,
    bloom_build_fn (bloom_init 10) [] [[Byte.x68; Byte.x69]; [Byte.x00]] = [] ++ filter /\
    Forall (fun key => bloom_match_fn (bloom_init 10) filter key = true)
      [[Byte.x68; Byte.x69]; [Byte.x00]].
Proof. apply bloom_no_false_negatives; [lia|by vm_compute]. Defined.
