(* ===== verification/Crc32c.v ===== *)
(** * CRC32C

    Models the portable part of [src/engine/src/util/crc32c.c] and
    [util/crc32c.h]: the byte table, the four stride tables and the routine
    [crc32c_generic] that processes sixteen bytes per turn.  It is proved equal
    to the bit-serial definition of the checksum (polynomial 0x1EDC6F41,
    reflected), for every alignment of the data.  The variants for the x86-64
    and aarch64 instructions are not modelled. *)

From Stdlib Require Import Btauto.
From S2P Require Import Prelude Coding.
#[local] Open Scope Z_scope.

(** ** Tables *)

Definition byte_ext_table : list Z := [
   0x00000000; 0xf26b8303; 0xe13b70f7; 0x1350f3f4; 0xc79a971f; 0x35f1141c; 0x26a1e7e8; 0xd4ca64eb;
   0x8ad958cf; 0x78b2dbcc; 0x6be22838; 0x9989ab3b; 0x4d43cfd0; 0xbf284cd3; 0xac78bf27; 0x5e133c24;
   0x105ec76f; 0xe235446c; 0xf165b798; 0x030e349b; 0xd7c45070; 0x25afd373; 0x36ff2087; 0xc494a384;
   0x9a879fa0; 0x68ec1ca3; 0x7bbcef57; 0x89d76c54; 0x5d1d08bf; 0xaf768bbc; 0xbc267848; 0x4e4dfb4b;
   0x20bd8ede; 0xd2d60ddd; 0xc186fe29; 0x33ed7d2a; 0xe72719c1; 0x154c9ac2; 0x061c6936; 0xf477ea35;
   0xaa64d611; 0x580f5512; 0x4b5fa6e6; 0xb93425e5; 0x6dfe410e; 0x9f95c20d; 0x8cc531f9; 0x7eaeb2fa;
   0x30e349b1; 0xc288cab2; 0xd1d83946; 0x23b3ba45; 0xf779deae; 0x05125dad; 0x1642ae59; 0xe4292d5a;
   0xba3a117e; 0x4851927d; 0x5b016189; 0xa96ae28a; 0x7da08661; 0x8fcb0562; 0x9c9bf696; 0x6ef07595;
   0x417b1dbc; 0xb3109ebf; 0xa0406d4b; 0x522bee48; 0x86e18aa3; 0x748a09a0; 0x67dafa54; 0x95b17957;
   0xcba24573; 0x39c9c670; 0x2a993584; 0xd8f2b687; 0x0c38d26c; 0xfe53516f; 0xed03a29b; 0x1f682198;
   0x5125dad3; 0xa34e59d0; 0xb01eaa24; 0x42752927; 0x96bf4dcc; 0x64d4cecf; 0x77843d3b; 0x85efbe38;
   0xdbfc821c; 0x2997011f; 0x3ac7f2eb; 0xc8ac71e8; 0x1c661503; 0xee0d9600; 0xfd5d65f4; 0x0f36e6f7;
   0x61c69362; 0x93ad1061; 0x80fde395; 0x72966096; 0xa65c047d; 0x5437877e; 0x4767748a; 0xb50cf789;
   0xeb1fcbad; 0x197448ae; 0x0a24bb5a; 0xf84f3859; 0x2c855cb2; 0xdeeedfb1; 0xcdbe2c45; 0x3fd5af46;
   0x7198540d; 0x83f3d70e; 0x90a324fa; 0x62c8a7f9; 0xb602c312; 0x44694011; 0x5739b3e5; 0xa55230e6;
   0xfb410cc2; 0x092a8fc1; 0x1a7a7c35; 0xe811ff36; 0x3cdb9bdd; 0xceb018de; 0xdde0eb2a; 0x2f8b6829;
   0x82f63b78; 0x709db87b; 0x63cd4b8f; 0x91a6c88c; 0x456cac67; 0xb7072f64; 0xa457dc90; 0x563c5f93;
   0x082f63b7; 0xfa44e0b4; 0xe9141340; 0x1b7f9043; 0xcfb5f4a8; 0x3dde77ab; 0x2e8e845f; 0xdce5075c;
   0x92a8fc17; 0x60c37f14; 0x73938ce0; 0x81f80fe3; 0x55326b08; 0xa759e80b; 0xb4091bff; 0x466298fc;
   0x1871a4d8; 0xea1a27db; 0xf94ad42f; 0x0b21572c; 0xdfeb33c7; 0x2d80b0c4; 0x3ed04330; 0xccbbc033;
   0xa24bb5a6; 0x502036a5; 0x4370c551; 0xb11b4652; 0x65d122b9; 0x97baa1ba; 0x84ea524e; 0x7681d14d;
   0x2892ed69; 0xdaf96e6a; 0xc9a99d9e; 0x3bc21e9d; 0xef087a76; 0x1d63f975; 0x0e330a81; 0xfc588982;
   0xb21572c9; 0x407ef1ca; 0x532e023e; 0xa145813d; 0x758fe5d6; 0x87e466d5; 0x94b49521; 0x66df1622;
   0x38cc2a06; 0xcaa7a905; 0xd9f75af1; 0x2b9cd9f2; 0xff56bd19; 0x0d3d3e1a; 0x1e6dcdee; 0xec064eed;
   0xc38d26c4; 0x31e6a5c7; 0x22b65633; 0xd0ddd530; 0x0417b1db; 0xf67c32d8; 0xe52cc12c; 0x1747422f;
   0x49547e0b; 0xbb3ffd08; 0xa86f0efc; 0x5a048dff; 0x8ecee914; 0x7ca56a17; 0x6ff599e3; 0x9d9e1ae0;
   0xd3d3e1ab; 0x21b862a8; 0x32e8915c; 0xc083125f; 0x144976b4; 0xe622f5b7; 0xf5720643; 0x07198540;
   0x590ab964; 0xab613a67; 0xb831c993; 0x4a5a4a90; 0x9e902e7b; 0x6cfbad78; 0x7fab5e8c; 0x8dc0dd8f;
   0xe330a81a; 0x115b2b19; 0x020bd8ed; 0xf0605bee; 0x24aa3f05; 0xd6c1bc06; 0xc5914ff2; 0x37faccf1;
   0x69e9f0d5; 0x9b8273d6; 0x88d28022; 0x7ab90321; 0xae7367ca; 0x5c18e4c9; 0x4f48173d; 0xbd23943e;
   0xf36e6f75; 0x0105ec76; 0x12551f82; 0xe03e9c81; 0x34f4f86a; 0xc69f7b69; 0xd5cf889d; 0x27a40b9e;
   0x79b737ba; 0x8bdcb4b9; 0x988c474d; 0x6ae7c44e; 0xbe2da0a5; 0x4c4623a6; 0x5f16d052; 0xad7d5351].

Definition stride_ext_table_0 : list Z := [
   0x00000000; 0x30d23865; 0x61a470ca; 0x517648af; 0xc348e194; 0xf39ad9f1; 0xa2ec915e; 0x923ea93b;
   0x837db5d9; 0xb3af8dbc; 0xe2d9c513; 0xd20bfd76; 0x4035544d; 0x70e76c28; 0x21912487; 0x11431ce2;
   0x03171d43; 0x33c52526; 0x62b36d89; 0x526155ec; 0xc05ffcd7; 0xf08dc4b2; 0xa1fb8c1d; 0x9129b478;
   0x806aa89a; 0xb0b890ff; 0xe1ced850; 0xd11ce035; 0x4322490e; 0x73f0716b; 0x228639c4; 0x125401a1;
   0x062e3a86; 0x36fc02e3; 0x678a4a4c; 0x57587229; 0xc566db12; 0xf5b4e377; 0xa4c2abd8; 0x941093bd;
   0x85538f5f; 0xb581b73a; 0xe4f7ff95; 0xd425c7f0; 0x461b6ecb; 0x76c956ae; 0x27bf1e01; 0x176d2664;
   0x053927c5; 0x35eb1fa0; 0x649d570f; 0x544f6f6a; 0xc671c651; 0xf6a3fe34; 0xa7d5b69b; 0x97078efe;
   0x8644921c; 0xb696aa79; 0xe7e0e2d6; 0xd732dab3; 0x450c7388; 0x75de4bed; 0x24a80342; 0x147a3b27;
   0x0c5c750c; 0x3c8e4d69; 0x6df805c6; 0x5d2a3da3; 0xcf149498; 0xffc6acfd; 0xaeb0e452; 0x9e62dc37;
   0x8f21c0d5; 0xbff3f8b0; 0xee85b01f; 0xde57887a; 0x4c692141; 0x7cbb1924; 0x2dcd518b; 0x1d1f69ee;
   0x0f4b684f; 0x3f99502a; 0x6eef1885; 0x5e3d20e0; 0xcc0389db; 0xfcd1b1be; 0xada7f911; 0x9d75c174;
   0x8c36dd96; 0xbce4e5f3; 0xed92ad5c; 0xdd409539; 0x4f7e3c02; 0x7fac0467; 0x2eda4cc8; 0x1e0874ad;
   0x0a724f8a; 0x3aa077ef; 0x6bd63f40; 0x5b040725; 0xc93aae1e; 0xf9e8967b; 0xa89eded4; 0x984ce6b1;
   0x890ffa53; 0xb9ddc236; 0xe8ab8a99; 0xd879b2fc; 0x4a471bc7; 0x7a9523a2; 0x2be36b0d; 0x1b315368;
   0x096552c9; 0x39b76aac; 0x68c12203; 0x58131a66; 0xca2db35d; 0xfaff8b38; 0xab89c397; 0x9b5bfbf2;
   0x8a18e710; 0xbacadf75; 0xebbc97da; 0xdb6eafbf; 0x49500684; 0x79823ee1; 0x28f4764e; 0x18264e2b;
   0x18b8ea18; 0x286ad27d; 0x791c9ad2; 0x49cea2b7; 0xdbf00b8c; 0xeb2233e9; 0xba547b46; 0x8a864323;
   0x9bc55fc1; 0xab1767a4; 0xfa612f0b; 0xcab3176e; 0x588dbe55; 0x685f8630; 0x3929ce9f; 0x09fbf6fa;
   0x1baff75b; 0x2b7dcf3e; 0x7a0b8791; 0x4ad9bff4; 0xd8e716cf; 0xe8352eaa; 0xb9436605; 0x89915e60;
   0x98d24282; 0xa8007ae7; 0xf9763248; 0xc9a40a2d; 0x5b9aa316; 0x6b489b73; 0x3a3ed3dc; 0x0aecebb9;
   0x1e96d09e; 0x2e44e8fb; 0x7f32a054; 0x4fe09831; 0xddde310a; 0xed0c096f; 0xbc7a41c0; 0x8ca879a5;
   0x9deb6547; 0xad395d22; 0xfc4f158d; 0xcc9d2de8; 0x5ea384d3; 0x6e71bcb6; 0x3f07f419; 0x0fd5cc7c;
   0x1d81cddd; 0x2d53f5b8; 0x7c25bd17; 0x4cf78572; 0xdec92c49; 0xee1b142c; 0xbf6d5c83; 0x8fbf64e6;
   0x9efc7804; 0xae2e4061; 0xff5808ce; 0xcf8a30ab; 0x5db49990; 0x6d66a1f5; 0x3c10e95a; 0x0cc2d13f;
   0x14e49f14; 0x2436a771; 0x7540efde; 0x4592d7bb; 0xd7ac7e80; 0xe77e46e5; 0xb6080e4a; 0x86da362f;
   0x97992acd; 0xa74b12a8; 0xf63d5a07; 0xc6ef6262; 0x54d1cb59; 0x6403f33c; 0x3575bb93; 0x05a783f6;
   0x17f38257; 0x2721ba32; 0x7657f29d; 0x4685caf8; 0xd4bb63c3; 0xe4695ba6; 0xb51f1309; 0x85cd2b6c;
   0x948e378e; 0xa45c0feb; 0xf52a4744; 0xc5f87f21; 0x57c6d61a; 0x6714ee7f; 0x3662a6d0; 0x06b09eb5;
   0x12caa592; 0x22189df7; 0x736ed558; 0x43bced3d; 0xd1824406; 0xe1507c63; 0xb02634cc; 0x80f40ca9;
   0x91b7104b; 0xa165282e; 0xf0136081; 0xc0c158e4; 0x52fff1df; 0x622dc9ba; 0x335b8115; 0x0389b970;
   0x11ddb8d1; 0x210f80b4; 0x7079c81b; 0x40abf07e; 0xd2955945; 0xe2476120; 0xb331298f; 0x83e311ea;
   0x92a00d08; 0xa272356d; 0xf3047dc2; 0xc3d645a7; 0x51e8ec9c; 0x613ad4f9; 0x304c9c56; 0x009ea433].

Definition stride_ext_table_1 : list Z := [
   0x00000000; 0x54075546; 0xa80eaa8c; 0xfc09ffca; 0x55f123e9; 0x01f676af; 0xfdff8965; 0xa9f8dc23;
   0xabe247d2; 0xffe51294; 0x03eced5e; 0x57ebb818; 0xfe13643b; 0xaa14317d; 0x561dceb7; 0x021a9bf1;
   0x5228f955; 0x062fac13; 0xfa2653d9; 0xae21069f; 0x07d9dabc; 0x53de8ffa; 0xafd77030; 0xfbd02576;
   0xf9cabe87; 0xadcdebc1; 0x51c4140b; 0x05c3414d; 0xac3b9d6e; 0xf83cc828; 0x043537e2; 0x503262a4;
   0xa451f2aa; 0xf056a7ec; 0x0c5f5826; 0x58580d60; 0xf1a0d143; 0xa5a78405; 0x59ae7bcf; 0x0da92e89;
   0x0fb3b578; 0x5bb4e03e; 0xa7bd1ff4; 0xf3ba4ab2; 0x5a429691; 0x0e45c3d7; 0xf24c3c1d; 0xa64b695b;
   0xf6790bff; 0xa27e5eb9; 0x5e77a173; 0x0a70f435; 0xa3882816; 0xf78f7d50; 0x0b86829a; 0x5f81d7dc;
   0x5d9b4c2d; 0x099c196b; 0xf595e6a1; 0xa192b3e7; 0x086a6fc4; 0x5c6d3a82; 0xa064c548; 0xf463900e;
   0x4d4f93a5; 0x1948c6e3; 0xe5413929; 0xb1466c6f; 0x18beb04c; 0x4cb9e50a; 0xb0b01ac0; 0xe4b74f86;
   0xe6add477; 0xb2aa8131; 0x4ea37efb; 0x1aa42bbd; 0xb35cf79e; 0xe75ba2d8; 0x1b525d12; 0x4f550854;
   0x1f676af0; 0x4b603fb6; 0xb769c07c; 0xe36e953a; 0x4a964919; 0x1e911c5f; 0xe298e395; 0xb69fb6d3;
   0xb4852d22; 0xe0827864; 0x1c8b87ae; 0x488cd2e8; 0xe1740ecb; 0xb5735b8d; 0x497aa447; 0x1d7df101;
   0xe91e610f; 0xbd193449; 0x4110cb83; 0x15179ec5; 0xbcef42e6; 0xe8e817a0; 0x14e1e86a; 0x40e6bd2c;
   0x42fc26dd; 0x16fb739b; 0xeaf28c51; 0xbef5d917; 0x170d0534; 0x430a5072; 0xbf03afb8; 0xeb04fafe;
   0xbb36985a; 0xef31cd1c; 0x133832d6; 0x473f6790; 0xeec7bbb3; 0xbac0eef5; 0x46c9113f; 0x12ce4479;
   0x10d4df88; 0x44d38ace; 0xb8da7504; 0xecdd2042; 0x4525fc61; 0x1122a927; 0xed2b56ed; 0xb92c03ab;
   0x9a9f274a; 0xce98720c; 0x32918dc6; 0x6696d880; 0xcf6e04a3; 0x9b6951e5; 0x6760ae2f; 0x3367fb69;
   0x317d6098; 0x657a35de; 0x9973ca14; 0xcd749f52; 0x648c4371; 0x308b1637; 0xcc82e9fd; 0x9885bcbb;
   0xc8b7de1f; 0x9cb08b59; 0x60b97493; 0x34be21d5; 0x9d46fdf6; 0xc941a8b0; 0x3548577a; 0x614f023c;
   0x635599cd; 0x3752cc8b; 0xcb5b3341; 0x9f5c6607; 0x36a4ba24; 0x62a3ef62; 0x9eaa10a8; 0xcaad45ee;
   0x3eced5e0; 0x6ac980a6; 0x96c07f6c; 0xc2c72a2a; 0x6b3ff609; 0x3f38a34f; 0xc3315c85; 0x973609c3;
   0x952c9232; 0xc12bc774; 0x3d2238be; 0x69256df8; 0xc0ddb1db; 0x94dae49d; 0x68d31b57; 0x3cd44e11;
   0x6ce62cb5; 0x38e179f3; 0xc4e88639; 0x90efd37f; 0x39170f5c; 0x6d105a1a; 0x9119a5d0; 0xc51ef096;
   0xc7046b67; 0x93033e21; 0x6f0ac1eb; 0x3b0d94ad; 0x92f5488e; 0xc6f21dc8; 0x3afbe202; 0x6efcb744;
   0xd7d0b4ef; 0x83d7e1a9; 0x7fde1e63; 0x2bd94b25; 0x82219706; 0xd626c240; 0x2a2f3d8a; 0x7e2868cc;
   0x7c32f33d; 0x2835a67b; 0xd43c59b1; 0x803b0cf7; 0x29c3d0d4; 0x7dc48592; 0x81cd7a58; 0xd5ca2f1e;
   0x85f84dba; 0xd1ff18fc; 0x2df6e736; 0x79f1b270; 0xd0096e53; 0x840e3b15; 0x7807c4df; 0x2c009199;
   0x2e1a0a68; 0x7a1d5f2e; 0x8614a0e4; 0xd213f5a2; 0x7beb2981; 0x2fec7cc7; 0xd3e5830d; 0x87e2d64b;
   0x73814645; 0x27861303; 0xdb8fecc9; 0x8f88b98f; 0x267065ac; 0x727730ea; 0x8e7ecf20; 0xda799a66;
   0xd8630197; 0x8c6454d1; 0x706dab1b; 0x246afe5d; 0x8d92227e; 0xd9957738; 0x259c88f2; 0x719bddb4;
   0x21a9bf10; 0x75aeea56; 0x89a7159c; 0xdda040da; 0x74589cf9; 0x205fc9bf; 0xdc563675; 0x88516333;
   0x8a4bf8c2; 0xde4cad84; 0x2245524e; 0x76420708; 0xdfbadb2b; 0x8bbd8e6d; 0x77b471a7; 0x23b324e1].

Definition stride_ext_table_2 : list Z := [
   0x00000000; 0x678efd01; 0xcf1dfa02; 0xa8930703; 0x9bd782f5; 0xfc597ff4; 0x54ca78f7; 0x334485f6;
   0x3243731b; 0x55cd8e1a; 0xfd5e8919; 0x9ad07418; 0xa994f1ee; 0xce1a0cef; 0x66890bec; 0x0107f6ed;
   0x6486e636; 0x03081b37; 0xab9b1c34; 0xcc15e135; 0xff5164c3; 0x98df99c2; 0x304c9ec1; 0x57c263c0;
   0x56c5952d; 0x314b682c; 0x99d86f2f; 0xfe56922e; 0xcd1217d8; 0xaa9cead9; 0x020fedda; 0x658110db;
   0xc90dcc6c; 0xae83316d; 0x0610366e; 0x619ecb6f; 0x52da4e99; 0x3554b398; 0x9dc7b49b; 0xfa49499a;
   0xfb4ebf77; 0x9cc04276; 0x34534575; 0x53ddb874; 0x60993d82; 0x0717c083; 0xaf84c780; 0xc80a3a81;
   0xad8b2a5a; 0xca05d75b; 0x6296d058; 0x05182d59; 0x365ca8af; 0x51d255ae; 0xf94152ad; 0x9ecfafac;
   0x9fc85941; 0xf846a440; 0x50d5a343; 0x375b5e42; 0x041fdbb4; 0x639126b5; 0xcb0221b6; 0xac8cdcb7;
   0x97f7ee29; 0xf0791328; 0x58ea142b; 0x3f64e92a; 0x0c206cdc; 0x6bae91dd; 0xc33d96de; 0xa4b36bdf;
   0xa5b49d32; 0xc23a6033; 0x6aa96730; 0x0d279a31; 0x3e631fc7; 0x59ede2c6; 0xf17ee5c5; 0x96f018c4;
   0xf371081f; 0x94fff51e; 0x3c6cf21d; 0x5be20f1c; 0x68a68aea; 0x0f2877eb; 0xa7bb70e8; 0xc0358de9;
   0xc1327b04; 0xa6bc8605; 0x0e2f8106; 0x69a17c07; 0x5ae5f9f1; 0x3d6b04f0; 0x95f803f3; 0xf276fef2;
   0x5efa2245; 0x3974df44; 0x91e7d847; 0xf6692546; 0xc52da0b0; 0xa2a35db1; 0x0a305ab2; 0x6dbea7b3;
   0x6cb9515e; 0x0b37ac5f; 0xa3a4ab5c; 0xc42a565d; 0xf76ed3ab; 0x90e02eaa; 0x387329a9; 0x5ffdd4a8;
   0x3a7cc473; 0x5df23972; 0xf5613e71; 0x92efc370; 0xa1ab4686; 0xc625bb87; 0x6eb6bc84; 0x09384185;
   0x083fb768; 0x6fb14a69; 0xc7224d6a; 0xa0acb06b; 0x93e8359d; 0xf466c89c; 0x5cf5cf9f; 0x3b7b329e;
   0x2a03aaa3; 0x4d8d57a2; 0xe51e50a1; 0x8290ada0; 0xb1d42856; 0xd65ad557; 0x7ec9d254; 0x19472f55;
   0x1840d9b8; 0x7fce24b9; 0xd75d23ba; 0xb0d3debb; 0x83975b4d; 0xe419a64c; 0x4c8aa14f; 0x2b045c4e;
   0x4e854c95; 0x290bb194; 0x8198b697; 0xe6164b96; 0xd552ce60; 0xb2dc3361; 0x1a4f3462; 0x7dc1c963;
   0x7cc63f8e; 0x1b48c28f; 0xb3dbc58c; 0xd455388d; 0xe711bd7b; 0x809f407a; 0x280c4779; 0x4f82ba78;
   0xe30e66cf; 0x84809bce; 0x2c139ccd; 0x4b9d61cc; 0x78d9e43a; 0x1f57193b; 0xb7c41e38; 0xd04ae339;
   0xd14d15d4; 0xb6c3e8d5; 0x1e50efd6; 0x79de12d7; 0x4a9a9721; 0x2d146a20; 0x85876d23; 0xe2099022;
   0x878880f9; 0xe0067df8; 0x48957afb; 0x2f1b87fa; 0x1c5f020c; 0x7bd1ff0d; 0xd342f80e; 0xb4cc050f;
   0xb5cbf3e2; 0xd2450ee3; 0x7ad609e0; 0x1d58f4e1; 0x2e1c7117; 0x49928c16; 0xe1018b15; 0x868f7614;
   0xbdf4448a; 0xda7ab98b; 0x72e9be88; 0x15674389; 0x2623c67f; 0x41ad3b7e; 0xe93e3c7d; 0x8eb0c17c;
   0x8fb73791; 0xe839ca90; 0x40aacd93; 0x27243092; 0x1460b564; 0x73ee4865; 0xdb7d4f66; 0xbcf3b267;
   0xd972a2bc; 0xbefc5fbd; 0x166f58be; 0x71e1a5bf; 0x42a52049; 0x252bdd48; 0x8db8da4b; 0xea36274a;
   0xeb31d1a7; 0x8cbf2ca6; 0x242c2ba5; 0x43a2d6a4; 0x70e65352; 0x1768ae53; 0xbffba950; 0xd8755451;
   0x74f988e6; 0x137775e7; 0xbbe472e4; 0xdc6a8fe5; 0xef2e0a13; 0x88a0f712; 0x2033f011; 0x47bd0d10;
   0x46bafbfd; 0x213406fc; 0x89a701ff; 0xee29fcfe; 0xdd6d7908; 0xbae38409; 0x1270830a; 0x75fe7e0b;
   0x107f6ed0; 0x77f193d1; 0xdf6294d2; 0xb8ec69d3; 0x8ba8ec25; 0xec261124; 0x44b51627; 0x233beb26;
   0x223c1dcb; 0x45b2e0ca; 0xed21e7c9; 0x8aaf1ac8; 0xb9eb9f3e; 0xde65623f; 0x76f6653c; 0x1178983d].

Definition stride_ext_table_3 : list Z := [
   0x00000000; 0xf20c0dfe; 0xe1f46d0d; 0x13f860f3; 0xc604aceb; 0x3408a115; 0x27f0c1e6; 0xd5fccc18;
   0x89e52f27; 0x7be922d9; 0x6811422a; 0x9a1d4fd4; 0x4fe183cc; 0xbded8e32; 0xae15eec1; 0x5c19e33f;
   0x162628bf; 0xe42a2541; 0xf7d245b2; 0x05de484c; 0xd0228454; 0x222e89aa; 0x31d6e959; 0xc3dae4a7;
   0x9fc30798; 0x6dcf0a66; 0x7e376a95; 0x8c3b676b; 0x59c7ab73; 0xabcba68d; 0xb833c67e; 0x4a3fcb80;
   0x2c4c517e; 0xde405c80; 0xcdb83c73; 0x3fb4318d; 0xea48fd95; 0x1844f06b; 0x0bbc9098; 0xf9b09d66;
   0xa5a97e59; 0x57a573a7; 0x445d1354; 0xb6511eaa; 0x63add2b2; 0x91a1df4c; 0x8259bfbf; 0x7055b241;
   0x3a6a79c1; 0xc866743f; 0xdb9e14cc; 0x29921932; 0xfc6ed52a; 0x0e62d8d4; 0x1d9ab827; 0xef96b5d9;
   0xb38f56e6; 0x41835b18; 0x527b3beb; 0xa0773615; 0x758bfa0d; 0x8787f7f3; 0x947f9700; 0x66739afe;
   0x5898a2fc; 0xaa94af02; 0xb96ccff1; 0x4b60c20f; 0x9e9c0e17; 0x6c9003e9; 0x7f68631a; 0x8d646ee4;
   0xd17d8ddb; 0x23718025; 0x3089e0d6; 0xc285ed28; 0x17792130; 0xe5752cce; 0xf68d4c3d; 0x048141c3;
   0x4ebe8a43; 0xbcb287bd; 0xaf4ae74e; 0x5d46eab0; 0x88ba26a8; 0x7ab62b56; 0x694e4ba5; 0x9b42465b;
   0xc75ba564; 0x3557a89a; 0x26afc869; 0xd4a3c597; 0x015f098f; 0xf3530471; 0xe0ab6482; 0x12a7697c;
   0x74d4f382; 0x86d8fe7c; 0x95209e8f; 0x672c9371; 0xb2d05f69; 0x40dc5297; 0x53243264; 0xa1283f9a;
   0xfd31dca5; 0x0f3dd15b; 0x1cc5b1a8; 0xeec9bc56; 0x3b35704e; 0xc9397db0; 0xdac11d43; 0x28cd10bd;
   0x62f2db3d; 0x90fed6c3; 0x8306b630; 0x710abbce; 0xa4f677d6; 0x56fa7a28; 0x45021adb; 0xb70e1725;
   0xeb17f41a; 0x191bf9e4; 0x0ae39917; 0xf8ef94e9; 0x2d1358f1; 0xdf1f550f; 0xcce735fc; 0x3eeb3802;
   0xb13145f8; 0x433d4806; 0x50c528f5; 0xa2c9250b; 0x7735e913; 0x8539e4ed; 0x96c1841e; 0x64cd89e0;
   0x38d46adf; 0xcad86721; 0xd92007d2; 0x2b2c0a2c; 0xfed0c634; 0x0cdccbca; 0x1f24ab39; 0xed28a6c7;
   0xa7176d47; 0x551b60b9; 0x46e3004a; 0xb4ef0db4; 0x6113c1ac; 0x931fcc52; 0x80e7aca1; 0x72eba15f;
   0x2ef24260; 0xdcfe4f9e; 0xcf062f6d; 0x3d0a2293; 0xe8f6ee8b; 0x1afae375; 0x09028386; 0xfb0e8e78;
   0x9d7d1486; 0x6f711978; 0x7c89798b; 0x8e857475; 0x5b79b86d; 0xa975b593; 0xba8dd560; 0x4881d89e;
   0x14983ba1; 0xe694365f; 0xf56c56ac; 0x07605b52; 0xd29c974a; 0x20909ab4; 0x3368fa47; 0xc164f7b9;
   0x8b5b3c39; 0x795731c7; 0x6aaf5134; 0x98a35cca; 0x4d5f90d2; 0xbf539d2c; 0xacabfddf; 0x5ea7f021;
   0x02be131e; 0xf0b21ee0; 0xe34a7e13; 0x114673ed; 0xc4babff5; 0x36b6b20b; 0x254ed2f8; 0xd742df06;
   0xe9a9e704; 0x1ba5eafa; 0x085d8a09; 0xfa5187f7; 0x2fad4bef; 0xdda14611; 0xce5926e2; 0x3c552b1c;
   0x604cc823; 0x9240c5dd; 0x81b8a52e; 0x73b4a8d0; 0xa64864c8; 0x54446936; 0x47bc09c5; 0xb5b0043b;
   0xff8fcfbb; 0x0d83c245; 0x1e7ba2b6; 0xec77af48; 0x398b6350; 0xcb876eae; 0xd87f0e5d; 0x2a7303a3;
   0x766ae09c; 0x8466ed62; 0x979e8d91; 0x6592806f; 0xb06e4c77; 0x42624189; 0x519a217a; 0xa3962c84;
   0xc5e5b67a; 0x37e9bb84; 0x2411db77; 0xd61dd689; 0x03e11a91; 0xf1ed176f; 0xe215779c; 0x10197a62;
   0x4c00995d; 0xbe0c94a3; 0xadf4f450; 0x5ff8f9ae; 0x8a0435b6; 0x78083848; 0x6bf058bb; 0x99fc5545;
   0xd3c39ec5; 0x21cf933b; 0x3237f3c8; 0xc03bfe36; 0x15c7322e; 0xe7cb3fd0; 0xf4335f23; 0x063f52dd;
   0x5a26b1e2; 0xa82abc1c; 0xbbd2dcef; 0x49ded111; 0x9c221d09; 0x6e2e10f7; 0x7dd67004; 0x8fda7dfa].

(** [tab[i]] *)
Definition tab (t : list Z) (i : Z) : Z := nth (Z.to_nat i) t 0.

Definition CRC32_XOR : Z := 0xffffffff.

Definition PREFETCH_HORIZON : Z := 256.

(** [((uintptr_t)p + (N - 1)) & ~(N - 1)] *)
Definition round_up (p N : Z) : Z := Z.land (u64 (p + (N - 1))) (u64 (Z.lnot (N - 1))).

(** ** The macros of [crc32c_generic] *)

(** [STEP1]: one byte. *)
Definition step1 (l : Z) (b : byte) : Z :=
  let c := Z.lxor (Z.land l 0xff) (b2z b) in
  Z.lxor (tab byte_ext_table c) (Z.shiftr l 8).

(** [STEP4(s)]: the [s]-th word at [p] into its partial result. *)
Definition step4 (crc : Z) (p : bytes) (s : Z) : Z :=
  Z.lxor (Z.lxor (Z.lxor (Z.lxor
    (fixed32_decode (zdrop (s * 4) p))
    (tab stride_ext_table_3 (Z.land crc 0xff)))
    (tab stride_ext_table_2 (Z.land (Z.shiftr crc 8) 0xff)))
    (tab stride_ext_table_1 (Z.land (Z.shiftr crc 16) 0xff)))
    (tab stride_ext_table_0 (Z.shiftr crc 24)).

(** The four partial results. *)
Record stride := Stride { crc0 : Z; crc1 : Z; crc2 : Z; crc3 : Z }.

(** [STEP16] *)
Definition step16 (c : stride) (p : bytes) : stride * bytes :=
  (Stride (step4 (crc0 c) p 0) (step4 (crc1 c) p 1) (step4 (crc2 c) p 2) (step4 (crc3 c) p 3),
   zdrop 16 p).

(** [STEP4W(w)] *)
Definition step4w (l w : Z) : Z :=
  let w := Z.lxor w l in
  let t w := Z.lxor (Z.shiftr w 8) (tab byte_ext_table (Z.land w 0xff)) in
  t (t (t (t w))).

(** [while ((e - p) > PREFETCH_HORIZON)]: 64 bytes per turn, compiled only
    when the compiler offers a prefetch. *)
Fixpoint prefetch_loop (fuel : nat) (c : stride) (p : bytes) : stride * bytes :=
  match fuel with
  | O => (c, p)
  | S fuel =>
    if PREFETCH_HORIZON <? zlen p then
      let '(c, p) := step16 c p in
      let '(c, p) := step16 c p in
      let '(c, p) := step16 c p in
      let '(c, p) := step16 c p in
      prefetch_loop fuel c p
    else (c, p)
  end.

(** [while ((e - p) >= 16)] *)
Fixpoint swath_loop (fuel : nat) (c : stride) (p : bytes) : stride * bytes :=
  match fuel with
  | O => (c, p)
  | S fuel =>
    if 16 <=? zlen p then let '(c, p) := step16 c p in swath_loop fuel c p else (c, p)
  end.

(** [while ((e - p) >= 4)] *)
Fixpoint word_loop (fuel : nat) (c : stride) (p : bytes) : stride * bytes :=
  match fuel with
  | O => (c, p)
  | S fuel =>
    if 4 <=? zlen p then
      let tmp := step4 (crc0 c) p 0 in
      word_loop fuel (Stride (crc1 c) (crc2 c) (crc3 c) tmp) (zdrop 4 p)
    else (c, p)
  end.

(** [crc32c_generic(z, xp, xn)] for data at address [addr].  The loops take
    [zlen p] as fuel: each turn consumes at least four bytes. *)
Definition crc32c_generic (prefetch : bool) (addr : Z) (z : Z) (xp : bytes) : Z :=
  let e := addr + zlen xp in
  let l := Z.lxor z CRC32_XOR in
  let x := round_up addr 4 in
  let '(l, p) :=
    if x <=? e then (fold_left step1 (ztake (x - addr) xp) l, zdrop (x - addr) xp)
    else (l, xp) in
  let '(l, p) :=
    if 16 <=? zlen p then
      let c := Stride (Z.lxor (fixed32_decode (zdrop (0 * 4) p)) l)
                      (fixed32_decode (zdrop (1 * 4) p))
                      (fixed32_decode (zdrop (2 * 4) p))
                      (fixed32_decode (zdrop (3 * 4) p)) in
      let p := zdrop 16 p in
      let '(c, p) := if prefetch then prefetch_loop (length p) c p else (c, p) in
      let '(c, p) := swath_loop (length p) c p in
      let '(c, p) := word_loop (length p) c p in
      let l := 0 in
      let l := step4w l (crc0 c) in
      let l := step4w l (crc1 c) in
      let l := step4w l (crc2 c) in
      let l := step4w l (crc3 c) in
      (l, p)
    else (l, p) in
  let l := fold_left step1 p l in
  Z.lxor l CRC32_XOR.

(** [ldb_crc32c_extend]: the portable routine.  Its value does not depend on
    the address or on the prefetching, see [crc32c_generic_correct]. *)
Definition crc32c_extend (z : Z) (xp : bytes) : Z := crc32c_generic true 0 z xp.

Definition crc32c_value (xp : bytes) : Z := crc32c_extend 0 xp.

Definition crc32c_mask_delta : Z := 0xa282ead8.

Definition crc32c_mask (crc : Z) : Z :=
  u32 (Z.lor (Z.shiftr crc 15) (u32 (Z.shiftl crc 17)) + crc32c_mask_delta).

Definition crc32c_unmask (masked_crc : Z) : Z :=
  let rot := u32 (masked_crc - crc32c_mask_delta) in
  Z.lor (Z.shiftr rot 17) (u32 (Z.shiftl rot 15)).

(** ** The bit-serial definition *)

(** The reflected generator polynomial of CRC32C. *)
Definition poly : Z := 0x82f63b78.

(** One turn of the shift register. *)
Definition bit_step (l : Z) : Z :=
  Z.lxor (Z.shiftr l 1) (if Z.testbit l 0 then poly else 0).

Fixpoint iter_step (n : nat) (l : Z) : Z :=
  match n with O => l | S n => iter_step n (bit_step l) end.

(** Eight turns per byte, the byte added to the low end first. *)
Definition crc_byte (l : Z) (b : byte) : Z := iter_step 8 (Z.lxor l (b2z b)).

Definition crc32c_spec (z : Z) (xs : bytes) : Z :=
  Z.lxor (fold_left crc_byte xs (Z.lxor z CRC32_XOR)) CRC32_XOR.

(** The self-test buffer of [can_accelerate]. *)
Definition cstr_test : bytes :=
  [Byte.x54; Byte.x65; Byte.x73; Byte.x74; Byte.x43; Byte.x52; Byte.x43; Byte.x42; Byte.x75;
   Byte.x66; Byte.x66; Byte.x65; Byte.x72].

(** ** Linearity *)

Lemma lxor_ac a b c d :
  Z.lxor (Z.lxor a b) (Z.lxor c d) = Z.lxor (Z.lxor a c) (Z.lxor b d).
Proof. rewrite !Z.lxor_assoc. f_equal. rewrite <- !Z.lxor_assoc. f_equal. apply Z.lxor_comm. Qed.

(** Equalities modulo associativity, commutativity and cancellation of [lxor]. *)
Ltac lxor_solve := apply Z.bits_inj'; intros; rewrite ?Z.lxor_spec, ?Z.bits_0; btauto.

Lemma bit_step_lxor a b : bit_step (Z.lxor a b) = Z.lxor (bit_step a) (bit_step b).
Proof.
  unfold bit_step. rewrite Z.shiftr_lxor, Z.lxor_spec, lxor_ac. f_equal.
  by destruct (Z.testbit a 0), (Z.testbit b 0); cbn.
Qed.

Lemma iter_step_lxor n a b : iter_step n (Z.lxor a b) = Z.lxor (iter_step n a) (iter_step n b).
Proof. revert a b. induction n as [|n IH]; intros a b; [done|]. cbn. by rewrite bit_step_lxor. Qed.

Lemma iter_step_0 n : iter_step n 0 = 0.
Proof. induction n; [done|]. cbn. done. Qed.

Lemma iter_step_add n m l : iter_step (n + m) l = iter_step m (iter_step n l).
Proof. revert l. induction n as [|n IH]; intros l; [done|]. cbn. apply IH. Qed.

Lemma iter_step_comm n m l : iter_step n (iter_step m l) = iter_step m (iter_step n l).
Proof. rewrite <- !iter_step_add. by rewrite Nat.add_comm. Qed.

Lemma bit_step_double y : bit_step (2 * y) = y.
Proof.
  unfold bit_step. rewrite Z.testbit_even_0, Z.lxor_0_r.
  rewrite Z.shiftr_div_pow2 by lia. change (2 ^ 1) with 2. rewrite Z.mul_comm. by apply Z.div_mul.
Qed.

Lemma iter_step_shiftl n k h : k = Z.of_nat n -> iter_step n (Z.shiftl h k) = h.
Proof.
  intros ->. revert h. induction n as [|n IH]; intros h; [apply Z.shiftl_0_r|]. cbn [iter_step].
  rewrite Z.shiftl_mul_pow2, Nat2Z.inj_succ, Z.pow_succ_r by lia.
  replace (h * (2 * 2 ^ Z.of_nat n)) with (2 * (h * 2 ^ Z.of_nat n)) by lia.
  rewrite bit_step_double, <- Z.shiftl_mul_pow2 by lia. apply IH.
Qed.

Lemma bit_step_range l : 0 <= l < 2 ^ 32 -> 0 <= bit_step l < 2 ^ 32.
Proof.
  intros Hl. apply lxor_range; [lia| |].
  - rewrite Z.shiftr_div_pow2 by lia. split; [apply Z.div_pos; lia|].
    apply Z.div_lt_upper_bound; lia.
  - destruct (Z.testbit l 0); unfold poly; lia.
Qed.

Lemma iter_step_range n l : 0 <= l < 2 ^ 32 -> 0 <= iter_step n l < 2 ^ 32.
Proof.
  revert l. induction n as [|n IH]; intros l Hl; [done|]. by apply IH, bit_step_range.
Qed.

(** ** The tables *)

(** [t] holds [f] of every byte value. *)
Definition table_ok (t : list Z) (f : Z -> Z) : bool :=
  forallb (fun i => tab t (Z.of_nat i) =? f (Z.of_nat i)) (seq 0 256).

Lemma table_ok_spec t f i : table_ok t f = true -> 0 <= i < 256 -> tab t i = f i.
Proof.
  unfold table_ok. rewrite forallb_forall. intros H Hi.
  specialize (H (Z.to_nat i)). rewrite Z2Nat.id, Z.eqb_eq in H by lia.
  apply H, in_seq. lia.
Qed.

(** The byte table advances the register by one byte, the stride tables
    advance the four bytes of a word by sixteen. *)
Lemma byte_table i : 0 <= i < 256 -> tab byte_ext_table i = iter_step 8 i.
Proof. apply table_ok_spec. by vm_compute. Qed.

Lemma stride_table_0 i : 0 <= i < 256 ->
  tab stride_ext_table_0 i = iter_step 128 (Z.shiftl i 24).
Proof. apply (table_ok_spec _ (fun i => iter_step 128 (Z.shiftl i 24))). by vm_compute. Qed.
Lemma stride_table_1 i : 0 <= i < 256 ->
  tab stride_ext_table_1 i = iter_step 128 (Z.shiftl i 16).
Proof. apply (table_ok_spec _ (fun i => iter_step 128 (Z.shiftl i 16))). by vm_compute. Qed.
Lemma stride_table_2 i : 0 <= i < 256 ->
  tab stride_ext_table_2 i = iter_step 128 (Z.shiftl i 8).
Proof. apply (table_ok_spec _ (fun i => iter_step 128 (Z.shiftl i 8))). by vm_compute. Qed.
Lemma stride_table_3 i : 0 <= i < 256 ->
  tab stride_ext_table_3 i = iter_step 128 i.
Proof. apply (table_ok_spec _ (iter_step 128)). by vm_compute. Qed.

#[local] Opaque iter_step.

(** A word is the exclusive or of its low byte and the rest. *)
Lemma split_low l k :
  0 <= k -> l = Z.lxor (l mod 2 ^ k) (Z.shiftl (Z.shiftr l k) k).
Proof.
  intros Hk. apply Z.bits_inj'. intros n Hn.
  rewrite Z.lxor_spec, Z.testbit_mod_pow2, Z.shiftl_spec by lia.
  destruct (Z.ltb_spec n k); cbn [andb].
  - rewrite (Z.testbit_neg_r _ (n - k)) by lia. by rewrite xorb_false_r.
  - rewrite Z.shiftr_spec, Z.sub_add by lia. by rewrite xorb_false_l.
Qed.

Lemma land_ff l : Z.land l 0xff = l mod 2 ^ 8.
Proof. apply (Z.land_ones l 8). lia. Qed.

Lemma low_byte_range l b : 0 <= Z.lxor (l mod 2 ^ 8) (b2z b) < 2 ^ 8.
Proof. apply lxor_range; [lia|by apply Z.mod_pos_bound|]. byte_ranges. lia. Qed.

Lemma split_byte l b :
  Z.lxor l (b2z b) = Z.lxor (Z.lxor (l mod 2 ^ 8) (b2z b)) (Z.shiftl (Z.shiftr l 8) 8).
Proof. rewrite (split_low l 8) at 1 by lia. rewrite !Z.lxor_assoc. f_equal. apply Z.lxor_comm. Qed.

Lemma iter_step_low x h : iter_step 8 (Z.lxor x (Z.shiftl h 8)) = Z.lxor (iter_step 8 x) h.
Proof. rewrite iter_step_lxor. by rewrite (iter_step_shiftl 8 8). Qed.

Lemma step1_spec l b : step1 l b = crc_byte l b.
Proof.
  unfold step1, crc_byte. rewrite (split_byte l b), iter_step_low, land_ff.
  pose proof (low_byte_range l b). rewrite byte_table by lia. reflexivity.
Qed.

(** One table turn on a word without data. *)
Lemma table_turn w :
  Z.lxor (Z.shiftr w 8) (tab byte_ext_table (Z.land w 0xff)) = iter_step 8 w.
Proof.
  pose proof (Z.mod_pos_bound w (2 ^ 8) eq_refl).
  rewrite land_ff, byte_table, Z.lxor_comm, <- iter_step_low by lia.
  by rewrite <- split_low.
Qed.

Lemma step4w_spec l w : step4w l w = iter_step 32 (Z.lxor l w).
Proof.
  unfold step4w. rewrite !table_turn, <- !iter_step_add. by rewrite Z.lxor_comm.
Qed.

(** The stride tables together advance a whole word by sixteen bytes. *)
Lemma step4_spec crc p s :
  0 <= crc < 2 ^ 32 ->
  step4 crc p s = Z.lxor (fixed32_decode (zdrop (s * 4) p)) (iter_step 128 crc).
Proof.
  intros Hc. unfold step4. rewrite !land_ff.
  assert (0 <= Z.shiftr crc 24 < 256) as H24.
  { rewrite Z.shiftr_div_pow2 by lia.
    split; [apply Z.div_pos; lia|]. apply Z.div_lt_upper_bound; lia. }
  pose proof (Z.mod_pos_bound crc (2 ^ 8) eq_refl).
  pose proof (Z.mod_pos_bound (Z.shiftr crc 8) (2 ^ 8) eq_refl).
  pose proof (Z.mod_pos_bound (Z.shiftr crc 16) (2 ^ 8) eq_refl).
  rewrite stride_table_3, stride_table_2, stride_table_1, stride_table_0 by lia.
  rewrite !Z.lxor_assoc. f_equal. rewrite <- !iter_step_lxor. f_equal. symmetry.
  rewrite (split_low crc 8) at 1 by lia. f_equal.
  rewrite (split_low (Z.shiftr crc 8) 8) at 1 by lia.
  rewrite Z.shiftl_lxor, !Z.shiftl_shiftl, Z.shiftr_shiftr by lia. f_equal.
  change (8 + 8) with 16.
  rewrite (split_low (Z.shiftr crc 16) 8) at 1 by lia.
  rewrite Z.shiftl_lxor, !Z.shiftl_shiftl, Z.shiftr_shiftr by lia. done.
Qed.

(** ** The routine computes the checksum *)

Lemma le_value_cons x ys : le_value (x :: ys) = Z.lxor (b2z x) (Z.shiftl (le_value ys) 8).
Proof.
  cbn [le_value]. pose proof (le_value_range ys). byte_ranges.
  rewrite <- Z.add_nocarry_lxor.
  - rewrite Z.shiftl_mul_pow2 by lia. lia.
  - apply Z.bits_inj'. intros n Hn. rewrite Z.land_spec, Z.bits_0, Z.shiftl_spec by lia.
    destruct (Z.ltb_spec n 8).
    + by rewrite (Z.testbit_neg_r _ (n - 8)), andb_false_r by lia.
    + by rewrite (testbit_small _ 8) by lia.
Qed.

Lemma crc_byte_cons x ws l :
  iter_step 8 (Z.lxor (le_value (x :: ws)) l) = Z.lxor (le_value ws) (crc_byte l x).
Proof.
  unfold crc_byte. rewrite le_value_cons, (Z.lxor_comm _ l), <- Z.lxor_assoc, iter_step_low.
  apply Z.lxor_comm.
Qed.

(** The register after a run of bytes: they enter like one wide number. *)
Lemma crc_bytes ws l :
  fold_left crc_byte ws l = iter_step (8 * length ws) (Z.lxor (le_value ws) l).
Proof.
  revert l. induction ws as [|x ws IH]; intros l; [done|].
  rewrite fold_left_cons, IH. replace (8 * length (x :: ws))%nat with (8 + 8 * length ws)%nat by (cbn; lia).
  by rewrite iter_step_add, crc_byte_cons.
Qed.

(** Four partial results stand for one register. *)
Definition combine (c : stride) : Z :=
  iter_step 32 (Z.lxor (crc3 c)
    (iter_step 32 (Z.lxor (crc2 c)
      (iter_step 32 (Z.lxor (crc1 c) (iter_step 32 (crc0 c))))))).

Definition stride_ok (c : stride) : Prop :=
  0 <= crc0 c < 2 ^ 32 /\ 0 <= crc1 c < 2 ^ 32 /\
  0 <= crc2 c < 2 ^ 32 /\ 0 <= crc3 c < 2 ^ 32.

(** The word of [p] at offset [k]. *)
Lemma fixed32_at p k :
  0 <= k -> k + 4 <= zlen p ->
  fixed32_decode (zdrop k p) = le_value (ztake 4 (zdrop k p)).
Proof.
  intros Hk Hlen. rewrite <- (ztake_zdrop 4 (zdrop k p)) at 1.
  apply fixed32_decode_app. rewrite zlen_take; [done|]. rewrite zlen_drop by lia. lia.
Qed.

Lemma crc_take4 p l :
  4 <= zlen p ->
  fold_left crc_byte (ztake 4 p) l = iter_step 32 (Z.lxor (fixed32_decode p) l).
Proof.
  intros H. destruct p as [|a [|b [|c [|d p]]]]; try (unfold zlen in H; cbn in H; lia).
  change (ztake 4 (a :: b :: c :: d :: p)) with [a; b; c; d].
  by rewrite crc_bytes, fixed32_decode_le.
Qed.

Lemma ztake_add {A} n m (p : list A) :
  0 <= n -> 0 <= m -> ztake (n + m) p = ztake n p ++ ztake m (zdrop n p).
Proof.
  intros Hn Hm. unfold ztake, zdrop. rewrite Z2Nat.inj_add by lia.
  symmetry. apply take_take_drop.
Qed.

Lemma step4_range crc p s : 0 <= crc < 2 ^ 32 -> 0 <= step4 crc p s < 2 ^ 32.
Proof.
  intros Hc. rewrite step4_spec by done.
  apply lxor_range; [lia|apply fixed32_decode_range|by apply iter_step_range].
Qed.

(** Sixteen bytes of data move the register by sixteen bytes. *)
Lemma step16_spec c p :
  stride_ok c -> 16 <= zlen p ->
  let '(c', p') := step16 c p in
  stride_ok c' /\ p' = zdrop 16 p /\
  combine c' = fold_left crc_byte (ztake 16 p) (combine c).
Proof.
  intros (H0 & H1 & H2 & H3) Hlen. cbn [step16].
  split; [repeat split; apply step4_range; done|]. split; [done|].
  change 16 with (4 + (4 + (4 + 4))). rewrite !ztake_add, !fold_left_app by lia.
  rewrite !zdrop_zdrop, !crc_take4 by (rewrite ?zlen_drop by lia; lia).
  change (4 + (4 + 4)) with 12. change (4 + 4) with 8.
  unfold combine. cbn [crc0 crc1 crc2 crc3].
  rewrite !step4_spec by done. change (0 * 4) with 0. change (1 * 4) with 4.
  change (2 * 4) with 8. change (3 * 4) with 12. rewrite zdrop_0.
  rewrite !iter_step_lxor, <- !iter_step_add. cbn [Nat.add]. lxor_solve.
Qed.

Definition run_spec (res : stride * bytes) (c : stride) (p : bytes) : Prop :=
  stride_ok (fst res) /\
  exists used, p = used ++ snd res /\ combine (fst res) = fold_left crc_byte used (combine c).

Lemma run_spec_step16 res c p :
  stride_ok c -> 16 <= zlen p ->
  (stride_ok (fst (step16 c p)) -> run_spec res (fst (step16 c p)) (snd (step16 c p))) ->
  run_spec res c p.
Proof.
  intros Hc Hp Hres. pose proof (step16_spec c p Hc Hp) as H.
  destruct (step16 c p) as [c' p']. cbn [fst snd] in *. destruct H as (Hc' & -> & E).
  destruct (Hres Hc') as (H1 & used & H2 & H3). split; [done|].
  exists (ztake 16 p ++ used). split.
  - by rewrite <- app_assoc, <- H2, ztake_zdrop.
  - by rewrite H3, fold_left_app, E.
Qed.

Lemma run_spec_refl c p : stride_ok c -> run_spec (c, p) c p.
Proof. intros H. split; [done|]. exists []. by split. Qed.

Lemma prefetch_loop_spec fuel c p : stride_ok c -> run_spec (prefetch_loop fuel c p) c p.
Proof.
  revert c p. induction fuel as [|fuel IH]; intros c p Hc; cbn [prefetch_loop];
    [by apply run_spec_refl|].
  destruct (Z.ltb_spec PREFETCH_HORIZON (zlen p)) as [Hp|]; [|by apply run_spec_refl].
  unfold PREFETCH_HORIZON in Hp.
  apply (run_spec_step16 _ c p); [done|lia|]. intros Hc1.
  destruct (step16 c p) as [c1 p1] eqn:E1. cbn [fst snd] in *.
  assert (zlen p1 = zlen p - 16) by (injection E1 as _ <-; rewrite zlen_drop; lia).
  apply (run_spec_step16 _ c1 p1); [done|lia|]. intros Hc2.
  destruct (step16 c1 p1) as [c2 p2] eqn:E2. cbn [fst snd] in *.
  assert (zlen p2 = zlen p1 - 16) by (injection E2 as _ <-; rewrite zlen_drop; lia).
  apply (run_spec_step16 _ c2 p2); [done|lia|]. intros Hc3.
  destruct (step16 c2 p2) as [c3 p3] eqn:E3. cbn [fst snd] in *.
  assert (zlen p3 = zlen p2 - 16) by (injection E3 as _ <-; rewrite zlen_drop; lia).
  apply (run_spec_step16 _ c3 p3); [done|lia|]. intros Hc4.
  destruct (step16 c3 p3) as [c4 p4]. by apply IH.
Qed.

Lemma swath_loop_spec fuel c p : stride_ok c -> run_spec (swath_loop fuel c p) c p.
Proof.
  revert c p. induction fuel as [|fuel IH]; intros c p Hc; cbn [swath_loop];
    [by apply run_spec_refl|].
  destruct (Z.leb_spec 16 (zlen p)) as [Hp|]; [|by apply run_spec_refl].
  apply (run_spec_step16 _ c p); [done|lia|]. intros Hc1.
  destruct (step16 c p) as [c1 p1]. by apply IH.
Qed.

Lemma word_loop_spec fuel c p : stride_ok c -> run_spec (word_loop fuel c p) c p.
Proof.
  revert c p. induction fuel as [|fuel IH]; intros c p Hc; cbn [word_loop];
    [by apply run_spec_refl|].
  destruct (Z.leb_spec 4 (zlen p)) as [Hp|]; [|by apply run_spec_refl].
  destruct Hc as (H0 & H1 & H2 & H3).
  set (c' := Stride _ _ _ _).
  assert (stride_ok c') as Hc' by (repeat split; try apply step4_range; tauto).
  destruct (IH c' (zdrop 4 p) Hc') as (Ho & used & Hu & E). split; [done|].
  exists (ztake 4 p ++ used). split; [by rewrite <- app_assoc, <- Hu, ztake_zdrop|].
  rewrite E, fold_left_app. f_equal. rewrite crc_take4 by done.
  unfold c', combine. cbn [crc0 crc1 crc2 crc3]. rewrite step4_spec by done.
  change (0 * 4) with 0. rewrite zdrop_0.
  rewrite !iter_step_lxor, <- !iter_step_add. cbn [Nat.add]. lxor_solve.
Qed.

Lemma fold_step1 p l : fold_left step1 p l = fold_left crc_byte p l.
Proof. apply fold_left_ext, step1_spec. Qed.

Lemma crc_byte_range l b : 0 <= l < 2 ^ 32 -> 0 <= crc_byte l b < 2 ^ 32.
Proof.
  intros Hl. apply iter_step_range, lxor_range; [lia|done|]. byte_ranges. lia.
Qed.

Lemma fold_crc_byte_range p l : 0 <= l < 2 ^ 32 -> 0 <= fold_left crc_byte p l < 2 ^ 32.
Proof. apply (fold_left_ind (fun l => 0 <= l < 2 ^ 32)). intros a b. apply crc_byte_range. Qed.

(** The middle section of the routine, from the first full swath on. *)
Lemma swaths_spec p l :
  0 <= l < 2 ^ 32 -> 16 <= zlen p ->
  let c := Stride (Z.lxor (fixed32_decode (zdrop (0 * 4) p)) l)
                  (fixed32_decode (zdrop (1 * 4) p))
                  (fixed32_decode (zdrop (2 * 4) p))
                  (fixed32_decode (zdrop (3 * 4) p)) in
  stride_ok c /\ combine c = fold_left crc_byte (ztake 16 p) l.
Proof.
  intros Hl Hlen c. split.
  { unfold stride_ok, c. cbn [crc0 crc1 crc2 crc3].
    split; [apply lxor_range; (lia || apply fixed32_decode_range)|].
    split; [|split]; apply fixed32_decode_range. }
  change 16 with (4 + (4 + (4 + 4))). rewrite !ztake_add, !fold_left_app by lia.
  rewrite !zdrop_zdrop, !crc_take4 by (rewrite ?zlen_drop by lia; lia).
  change (4 + (4 + 4)) with 12. change (4 + 4) with 8.
  unfold combine, c. cbn [crc0 crc1 crc2 crc3].
  change (0 * 4) with 0. change (1 * 4) with 4.
  change (2 * 4) with 8. change (3 * 4) with 12. by rewrite zdrop_0.
Qed.

Lemma combine_step4w c :
  step4w (step4w (step4w (step4w 0 (crc0 c)) (crc1 c)) (crc2 c)) (crc3 c) = combine c.
Proof.
  rewrite !step4w_spec. unfold combine. rewrite Z.lxor_0_l.
  rewrite (Z.lxor_comm (crc3 c)), (Z.lxor_comm (crc2 c)), (Z.lxor_comm (crc1 c)). done.
Qed.

Lemma crc32c_generic_spec prefetch addr z xs :
  0 <= z < 2 ^ 32 -> crc32c_generic prefetch addr z xs = crc32c_spec z xs.
Proof.
  intros Hz. unfold crc32c_generic, crc32c_spec. f_equal.
  set (l0 := Z.lxor z CRC32_XOR).
  assert (0 <= l0 < 2 ^ 32) as Hl0 by (apply lxor_range; unfold CRC32_XOR; lia).
  set (n := round_up addr 4 - addr).
  destruct (if round_up addr 4 <=? addr + zlen xs then _ else _) as [l p] eqn:E1.
  assert (fold_left crc_byte p l = fold_left crc_byte xs l0 /\ 0 <= l < 2 ^ 32) as [<- Hl].
  { destruct (_ <=? _); injection E1 as <- <-; [|done]. rewrite fold_step1.
    rewrite <- fold_left_app, ztake_zdrop. split; [done|]. by apply fold_crc_byte_range. }
  clear E1. destruct (Z.leb_spec 16 (zlen p)) as [Hp|]; [|by rewrite fold_step1].
  destruct (swaths_spec p l Hl Hp) as [Hc Ec]. set (c := Stride _ _ _ _) in *.
  assert (fold_left crc_byte p l = fold_left crc_byte (zdrop 16 p) (combine c)) as ->
    by by rewrite Ec, <- fold_left_app, ztake_zdrop.
  clearbody c. set (q := zdrop 16 p). clearbody q. clear Ec.
  destruct (if prefetch then _ else _) as [c1 p1] eqn:E1.
  assert (run_spec (c1, p1) c q) as (Hc1 & u1 & -> & Eu1)
    by (destruct prefetch; [rewrite <- E1; by apply prefetch_loop_spec|
                            injection E1 as <- <-; by apply run_spec_refl]).
  clear E1. cbn [fst snd] in *. rewrite fold_left_app, <- Eu1.
  pose proof (swath_loop_spec (length p1) c1 p1 Hc1) as (Hc2 & u2 & H2 & Eu2).
  destruct (swath_loop (length p1) c1 p1) as [c2 p2]. cbn [fst snd] in *.
  rewrite H2, fold_left_app, <- Eu2.
  pose proof (word_loop_spec (length p2) c2 p2 Hc2) as (Hc3 & u3 & H3 & Eu3).
  destruct (word_loop (length p2) c2 p2) as [c3 p3]. cbn [fst snd] in *.
  rewrite H3, fold_left_app, <- Eu3. by rewrite combine_step4w, fold_step1.
Qed.

Lemma crc32c_spec_range z xs : 0 <= z < 2 ^ 32 -> 0 <= crc32c_spec z xs < 2 ^ 32.
Proof.
  intros Hz. unfold crc32c_spec. apply lxor_range; [lia| |unfold CRC32_XOR; lia].
  apply fold_crc_byte_range, lxor_range; unfold CRC32_XOR; lia.
Qed.

Lemma crc32c_extend_spec z xs : 0 <= z < 2 ^ 32 -> crc32c_extend z xs = crc32c_spec z xs.
Proof. apply crc32c_generic_spec. Qed.

Lemma crc32c_extend_range z xs : 0 <= z < 2 ^ 32 -> 0 <= crc32c_extend z xs < 2 ^ 32.
Proof. intros Hz. rewrite crc32c_extend_spec by done. by apply crc32c_spec_range. Qed.

Lemma crc32c_value_range xs : 0 <= crc32c_value xs < 2 ^ 32.
Proof. by apply crc32c_extend_range. Qed.

Lemma lxor_cancel_r a b : Z.lxor (Z.lxor a b) b = a.
Proof. by rewrite Z.lxor_assoc, Z.lxor_nilpotent, Z.lxor_0_r. Qed.

(** What [ldb_crc32c_extend] is for: the checksum of a concatenation. *)
Lemma crc32c_extend_app z xs ys :
  0 <= z < 2 ^ 32 -> crc32c_extend (crc32c_extend z xs) ys = crc32c_extend z (xs ++ ys).
Proof.
  intros Hz. pose proof (crc32c_spec_range z xs Hz).
  rewrite (crc32c_extend_spec z xs), !crc32c_extend_spec by done.
  unfold crc32c_spec. by rewrite lxor_cancel_r, fold_left_app.
Qed.

(** ** Masking *)

(** The bits of a rotation of a 32-bit word to the right by [k]. *)
Lemma testbit_rotr x k j m :
  0 <= x < 2 ^ 32 -> 0 < k -> 0 < j -> k + j = 32 -> 0 <= m ->
  Z.testbit (Z.lor (Z.shiftr x k) (u32 (Z.shiftl x j))) m
  = (m <? 32) && Z.testbit x (if m <? j then m + k else m - j).
Proof.
  intros Hx Hk Hj Hkj Hm. unfold u32.
  rewrite Z.lor_spec, Z.testbit_mod_pow2, Z.shiftr_spec, Z.shiftl_spec by lia.
  destruct (Z.ltb_spec m j).
  - rewrite (Z.testbit_neg_r _ (m - j)), andb_false_r, orb_false_r by lia.
    by rewrite (proj2 (Z.ltb_lt _ _)) by lia.
  - by rewrite (testbit_small x 32 (m + k)) by lia.
Qed.

Lemma rotr_range x k j :
  0 <= x < 2 ^ 32 -> 0 < k ->
  0 <= Z.lor (Z.shiftr x k) (u32 (Z.shiftl x j)) < 2 ^ 32.
Proof.
  intros Hx Hk. apply lor_range; [lia| |apply u32_range]. rewrite Z.shiftr_div_pow2 by lia.
  split; [apply Z.div_pos; lia|]. apply Z.div_lt_upper_bound; nia.
Qed.

(** Rotating by 15 and then by 17 bits is the identity. *)
Lemma rotr_rotr x k j : 0 <= x < 2 ^ 32 -> 0 < k -> 0 < j -> k + j = 32 ->
  let r := Z.lor (Z.shiftr x k) (u32 (Z.shiftl x j)) in
  Z.lor (Z.shiftr r j) (u32 (Z.shiftl r k)) = x.
Proof.
  intros Hx Hk Hj E r. pose proof (rotr_range x k j Hx Hk) as Hr. fold r in Hr.
  apply Z.bits_inj'. intros n Hn. rewrite (testbit_rotr r j k n) by lia. unfold r.
  destruct (Z.ltb_spec n 32); [|by rewrite (testbit_small x 32) by lia]. cbn [andb].
  destruct (Z.ltb_spec n k); rewrite (testbit_rotr x k j) by lia.
  - rewrite (proj2 (Z.ltb_lt _ 32)), (proj2 (Z.ltb_ge _ _)) by lia. cbn [andb]. f_equal. lia.
  - rewrite (proj2 (Z.ltb_lt _ 32)), (proj2 (Z.ltb_lt _ _)) by lia. cbn [andb]. f_equal. lia.
Qed.

Lemma crc32c_mask_unmask v : 0 <= v < 2 ^ 32 -> crc32c_mask (crc32c_unmask v) = v.
Proof.
  intros Hv. unfold crc32c_unmask, crc32c_mask.
  rewrite (rotr_rotr (u32 (v - crc32c_mask_delta)) 17 15) by (try apply u32_range; lia).
  unfold u32. by rewrite Zplus_mod_idemp_l, Z.sub_add, Z.mod_small.
Qed.

Lemma crc32c_unmask_mask crc : 0 <= crc < 2 ^ 32 -> crc32c_unmask (crc32c_mask crc) = crc.
Proof.
  intros Hc. unfold crc32c_unmask, crc32c_mask.
  pose proof (rotr_range crc 15 17 Hc ltac:(lia)) as Hr.
  set (r := Z.lor (Z.shiftr crc 15) (u32 (Z.shiftl crc 17))) in *.
  assert (u32 (u32 (r + crc32c_mask_delta) - crc32c_mask_delta) = r) as ->.
  { unfold u32. by rewrite Zminus_mod_idemp_l, Z.add_simpl_r, Z.mod_small. }
  apply (rotr_rotr crc 15 17); lia.
Qed.

Lemma crc32c_mask_range crc : 0 <= crc32c_mask crc < 2 ^ 32.
Proof. apply u32_range. Qed.

(** ** Error detection *)

Lemma bit_step_0 d : 0 <= d < 2 ^ 32 -> bit_step d = 0 -> d = 0.
Proof.
  intros Hd. unfold bit_step. destruct (Z.testbit d 0) eqn:E0.
  - intros H. apply Z.lxor_eq in H.
    assert (Z.testbit (Z.shiftr d 1) 31 = true) as Hb by by rewrite H.
    rewrite Z.shiftr_spec, (testbit_small d 32) in Hb by lia. done.
  - rewrite Z.lxor_0_r, Z.shiftr_div_pow2 by lia. change (2 ^ 1) with 2. intros H.
    rewrite Z.bit0_eqb in E0. apply Z.eqb_neq in E0.
    pose proof (Z.div_mod d 2). pose proof (Z.mod_pos_bound d 2). lia.
Qed.

Lemma iter_step_inj n a b :
  0 <= a < 2 ^ 32 -> 0 <= b < 2 ^ 32 -> iter_step n a = iter_step n b -> a = b.
Proof.
  intros Ha Hb H. apply Z.lxor_eq.
  assert (0 <= Z.lxor a b < 2 ^ 32) as Hd by by apply lxor_range.
  assert (iter_step n (Z.lxor a b) = 0) as H0 by by rewrite iter_step_lxor, H, Z.lxor_nilpotent.
  clear -Hd H0. revert H0. generalize dependent (Z.lxor a b).
  induction n as [|n IH]; intros d Hd; [done|]. intros H0.
  apply bit_step_0; [done|]. apply IH; [by apply bit_step_range|exact H0].
Qed.

Lemma lxor_cancel_l a b c : Z.lxor a c = Z.lxor b c -> a = b.
Proof. intros H. rewrite <- (lxor_cancel_r a c), H. apply lxor_cancel_r. Qed.

(** The register after a message determines the register before it. *)
Lemma fold_crc_inj ws a b :
  0 <= a < 2 ^ 32 -> 0 <= b < 2 ^ 32 ->
  fold_left crc_byte ws a = fold_left crc_byte ws b -> a = b.
Proof.
  intros Ha Hb. rewrite !crc_bytes, !iter_step_lxor. intros H.
  rewrite !(Z.lxor_comm (iter_step _ (le_value ws))) in H. apply lxor_cancel_l in H.
  by apply iter_step_inj in H.
Qed.

Lemma le_value_short ws : zlen ws <= 4 -> 0 <= le_value ws < 2 ^ 32.
Proof.
  intros H. pose proof (le_value_range ws). pose proof (zlen_nonneg ws).
  assert (256 ^ zlen ws <= 256 ^ 4) by (apply Z.pow_le_mono_r; lia). lia.
Qed.

Lemma burst_detected l pre ws ws' post :
  0 <= l < 2 ^ 32 -> length ws = length ws' -> zlen ws <= 4 -> ws <> ws' ->
  fold_left crc_byte (pre ++ ws ++ post) l <> fold_left crc_byte (pre ++ ws' ++ post) l.
Proof.
  intros Hl Hlen H4 Hne H. rewrite !fold_left_app in H.
  set (m := fold_left crc_byte pre l) in *.
  assert (0 <= m < 2 ^ 32) by by apply fold_crc_byte_range.
  apply fold_crc_inj in H; [|by apply fold_crc_byte_range..].
  rewrite !crc_bytes, Hlen in H.
  assert (zlen ws' <= 4) by (unfold zlen in *; lia).
  apply iter_step_inj in H; [|apply lxor_range; [lia|by apply le_value_short|done]..].
  apply lxor_cancel_l in H. by apply Hne, le_value_inj.
Qed.

Lemma crc32c_burst pre ws ws' post :
  length ws = length ws' -> zlen ws <= 4 -> ws <> ws' ->
  crc32c_value (pre ++ ws ++ post) <> crc32c_value (pre ++ ws' ++ post).
Proof.
  intros Hlen H4 Hne H. unfold crc32c_value in H. rewrite !crc32c_extend_spec in H by done.
  apply lxor_cancel_l in H. revert H. by apply burst_detected.
Qed.

(** ** Properties *)

(** [crc32c_generic], which consumes sixteen bytes per turn through four
    interleaved partial checksums and five tables, computes the bit-serial
    CRC32C of the data, for every starting address, with or without
    prefetching. *)
Theorem crc32c_generic_correct prefetch addr z xs :
  0 <= z < 2 ^ 32 -> crc32c_generic prefetch addr z xs = crc32c_spec z xs.
Proof. apply crc32c_generic_spec. Qed.

Lemma crc32c_generic_correct_witness :
  crc32c_generic false 3 0 (cstr_test) = 0xdcbc59fa /\
  crc32c_spec 0 cstr_test = 0xdcbc59fa.
Proof.
  assert (crc32c_generic false 3 0 cstr_test = 0xdcbc59fa) as H by by vm_compute.
  split; [exact H|]. rewrite <- (crc32c_generic_correct false 3 0 cstr_test ltac:(lia)). exact H.
Defined.

(** The checksum detects every error confined to four consecutive bytes:
    two messages that differ only there have different checksums, and the
    difference survives masking. *)
Theorem crc32c_detects_burst pre ws ws' post :
  length ws = length ws' -> zlen ws <= 4 -> ws <> ws' ->
  crc32c_mask (crc32c_value (pre ++ ws ++ post)) <>
  crc32c_mask (crc32c_value (pre ++ ws' ++ post)).
Proof.
  intros Hlen H4 Hne H. apply (f_equal crc32c_unmask) in H.
  rewrite !crc32c_unmask_mask in H by apply crc32c_value_range.
  by apply (crc32c_burst pre ws ws' post).
Qed.

Lemma crc32c_detects_burst_witness :
  crc32c_mask (crc32c_value ([Byte.x01] ++ [Byte.x02; Byte.x03] ++ [Byte.x04])) <>
  crc32c_mask (crc32c_value ([Byte.x01] ++ [Byte.x82; Byte.x13] ++ [Byte.x04])).
Proof. apply crc32c_detects_burst; [reflexivity|by vm_compute|discriminate]. Defined.
