(* ===== verification/DBFormat.v ===== *)
(** * Internal keys

    Models [src/engine/src/dbformat.h] and [dbformat.c]: internal keys (a user
    key, a sequence number and a value type), lookup keys, the comparator of
    internal keys and the filter policy on user keys.  The [assert]s of the
    code are hypotheses of the theorems about the values they guard, or are
    proved ([ikc_separator_spec], [ikc_successor_spec]). *)

From stdpp Require Import strings.
From S2P Require Import Prelude Coding Strutil Buffer Comparator Bloom.
#[local] Open Scope Z_scope.

(** ** Data *)

Definition LDB_NUM_LEVELS : Z := 7.

Inductive ldb_valtype := LDB_TYPE_DELETION | LDB_TYPE_VALUE.

#[export] Instance valtype_eq_decision : EqDecision ldb_valtype.
Proof. solve_decision. Defined.

Definition valtype_num (t : ldb_valtype) : Z :=
  match t with LDB_TYPE_DELETION => 0 | LDB_TYPE_VALUE => 1 end.

Definition LDB_VALTYPE_SEEK : ldb_valtype := LDB_TYPE_VALUE.

Definition LDB_MAX_SEQUENCE : Z := Z.shiftl 1 56 - 1.

(** [ldb_pkey_t] *)
Record ldb_pkey := Pkey { user_key : bytes; sequence : Z; type : ldb_valtype }.

(** [ldb_extract_user_key(x)]: the size wraps below 8 bytes. *)
Definition ldb_extract_user_key (x : bytes) : bytes := ztake (u64 (zlen x - 8)) x.

(** ** Parsed internal keys *)

Definition pack_seqtype (sequence : Z) (type : ldb_valtype) : Z :=
  Z.lor (u64 (Z.shiftl sequence 8)) (valtype_num type).

Definition ldb_pkey_init (user_key : bytes) (sequence : Z) (type : ldb_valtype) : ldb_pkey :=
  Pkey user_key sequence type.

Definition ldb_pkey_size (x : ldb_pkey) : Z := zlen (user_key x) + 8.

Definition ldb_pkey_write (x : ldb_pkey) : bytes :=
  raw_write (user_key x) (zlen (user_key x)) ++
  fixed64_write (pack_seqtype (sequence x) (type x)).

(** Appends to the buffer [z]. *)
Definition ldb_pkey_export (z : bytes) (x : ldb_pkey) : bytes := z ++ ldb_pkey_write x.

Definition ldb_pkey_import (x : bytes) : option ldb_pkey :=
  let xn := zlen x in
  if xn <? 8 then None
  else
    let num := fixed64_decode (zdrop (xn - 8) x) in
    let type := Z.land num 0xff in
    if valtype_num LDB_TYPE_VALUE <? type then None
    else
      Some {| user_key := ztake (xn - 8) x;
              sequence := Z.shiftr num 8;
              type := if type =? 0 then LDB_TYPE_DELETION else LDB_TYPE_VALUE |}.

Definition ldb_pkey_debug (z : bytes) (x : ldb_pkey) : bytes :=
  z ++ [Byte.x27] ++ escape (user_key x) ++ cstr "' @ " ++
  ldb_encode_int (sequence x) 0 ++ cstr " : " ++ ldb_encode_int (valtype_num (type x)) 0.

(** ** Internal keys *)

Definition ldb_ikey_init : bytes := [].

Definition ldb_ikey_set (user_key : bytes) (sequence : Z) (type : ldb_valtype) : bytes :=
  ldb_pkey_export [] (ldb_pkey_init user_key sequence type).

Definition ldb_ikey_clear (ikey : bytes) : bytes := [].

Definition ldb_ikey_copy (x : bytes) : bytes := x.

Definition ldb_ikey_export (z x : bytes) : bytes := z ++ slice_write x.

Definition ldb_ikey_debug (z x : bytes) : bytes :=
  match ldb_pkey_import x with
  | Some pkey => ldb_pkey_debug z pkey
  | None => z ++ cstr "(bad)" ++ escape x
  end.

(** ** Lookup keys *)

(** [ldb_lkey_t]: the bytes from [start] to [end], the offset of [kstart], and
    whether [start] is a block of its own (of [lk_room] bytes) or the [space]
    member. *)
Record ldb_lkey := Lkey { lk_bytes : bytes; lk_kstart : Z; lk_room : Z; lk_heap : bool }.

Definition lkey_space : Z := 200.

Definition ldb_lkey_init (user_key : bytes) (sequence : Z) : ldb_lkey :=
  let usize := zlen user_key in
  let needed := usize + 13 in
  let heap := lkey_space <? needed in
  let head := varint32_write (u32 (usize + 8)) in
  {| lk_bytes := head ++ raw_write user_key usize ++
                 fixed64_write (pack_seqtype sequence LDB_VALTYPE_SEEK);
     lk_kstart := zlen head;
     lk_room := if heap then needed else lkey_space;
     lk_heap := heap |}.

(** Whether [ldb_lkey_clear] frees the block. *)
Definition ldb_lkey_clear (lkey : ldb_lkey) : bool := lk_heap lkey.

Definition ldb_lkey_memtable_key (x : ldb_lkey) : bytes := lk_bytes x.
Definition ldb_lkey_internal_key (x : ldb_lkey) : bytes := zdrop (lk_kstart x) (lk_bytes x).
Definition ldb_lkey_user_key (x : ldb_lkey) : bytes :=
  ztake (zlen (lk_bytes x) - lk_kstart x - 8) (zdrop (lk_kstart x) (lk_bytes x)).

(** ** The comparator of internal keys *)

Definition ldb_ikc_compare (uc : comparator) (x y : bytes) : Z :=
  let r := ldb_compare uc (ldb_extract_user_key x) (ldb_extract_user_key y) in
  if r =? 0 then
    let xn := fixed64_decode (zdrop (zlen x - 8) x) in
    let yn := fixed64_decode (zdrop (zlen y - 8) y) in
    if yn <? xn then -1 else if xn <? yn then 1 else r
  else r.

(** The tail of both shortening routines: [tmp] replaces the key only when it
    is shorter and above the user key. *)
Definition ikc_shorten (uc : comparator) (key tmp : bytes) : bytes :=
  let user := ldb_extract_user_key key in
  if (zlen tmp <? zlen user) && (ldb_compare uc user tmp <? 0) then
    tmp ++ fixed64_write (pack_seqtype LDB_MAX_SEQUENCE LDB_VALTYPE_SEEK)
  else key.

Definition ldb_ikc_shortest_separator (uc : comparator) (start limit : bytes) : bytes :=
  ikc_shorten uc start
    (ldb_shortest_separator uc (ldb_extract_user_key start) (ldb_extract_user_key limit)).

Definition ldb_ikc_short_successor (uc : comparator) (key : bytes) : bytes :=
  ikc_shorten uc key (ldb_short_successor uc (ldb_extract_user_key key)).

Definition ldb_ikc_init (user_comparator : comparator) : comparator := {|
  cmp_name := "leveldb.InternalKeyComparator";
  cmp_compare := ldb_ikc_compare user_comparator;
  cmp_shortest_separator :=
    match cmp_shortest_separator user_comparator with
    | Some _ => Some (ldb_ikc_shortest_separator user_comparator)
    | None => None
    end;
  cmp_short_successor :=
    match cmp_short_successor user_comparator with
    | Some _ => Some (ldb_ikc_short_successor user_comparator)
    | None => None
    end;
  cmp_user_comparator := Some user_comparator
|}.

(** ** The filter policy on user keys *)

Definition ldb_ifp_build (user_policy : bloom) (dst : bytes) (keys : list bytes) : bytes :=
  bloom_build_fn user_policy dst (map (fun k => ztake (u64 (zlen k - 8)) k) keys).

Definition ldb_ifp_match (user_policy : bloom) (filter key : bytes) : bool :=
  bloom_match_fn user_policy filter (ldb_extract_user_key key).

Definition ldb_ifp_init (user_policy : bloom) : bloom := {|
  bloom_name := bloom_name user_policy;
  bloom_build_fn := ldb_ifp_build user_policy;
  bloom_match_fn := ldb_ifp_match user_policy;
  bits_per_key := 0;
  bloom_k := 0
|}.

(** ** Tags *)

(** The tag of an internal key: its last eight bytes. *)
Definition ikey_tag (x : bytes) : Z := fixed64_decode (zdrop (zlen x - 8) x).

Lemma ikey_tag_eq x : fixed64_decode (zdrop (zlen x - 8) x) = ikey_tag x.
Proof. by unfold ikey_tag. Qed.

(** Keys that have a tag. *)
Definition ikey_dom (udom : bytes -> Prop) (x : bytes) : Prop :=
  8 <= zlen x < 2 ^ 64 /\ udom (ldb_extract_user_key x).

Definition pkey_wf (x : ldb_pkey) : Prop :=
  0 <= sequence x <= LDB_MAX_SEQUENCE /\ zlen (user_key x) < 2 ^ 64 - 8.

Definition ikey (x : ldb_pkey) : bytes := ldb_pkey_export [] x.

Lemma valtype_num_range t : 0 <= valtype_num t <= 1.
Proof. destruct t; cbn; lia. Qed.

Lemma valtype_num_inj t t' : valtype_num t = valtype_num t' -> t = t'.
Proof. destruct t, t'; done. Qed.

Lemma pack_seqtype_sum s t :
  0 <= s <= LDB_MAX_SEQUENCE -> pack_seqtype s t = s * 256 + valtype_num t.
Proof.
  intros Hs. unfold pack_seqtype. change LDB_MAX_SEQUENCE with (2 ^ 56 - 1) in Hs.
  pose proof (valtype_num_range t).
  rewrite u64_small by (rewrite Z.shiftl_mul_pow2 by lia; lia).
  rewrite Z.lor_comm, lor_disjoint by lia. lia.
Qed.

Lemma pack_seqtype_range s t :
  0 <= s <= LDB_MAX_SEQUENCE -> 0 <= pack_seqtype s t < 2 ^ 64.
Proof.
  intros Hs. rewrite pack_seqtype_sum by done. change LDB_MAX_SEQUENCE with (2 ^ 56 - 1) in Hs.
  pose proof (valtype_num_range t). lia.
Qed.

(** A larger sequence number gives a larger tag, whatever the types. *)
Lemma pack_seqtype_lt s t s' t' :
  0 <= s <= LDB_MAX_SEQUENCE -> 0 <= s' <= LDB_MAX_SEQUENCE ->
  pack_seqtype s t < pack_seqtype s' t' <->
  s < s' \/ (s = s' /\ valtype_num t < valtype_num t').
Proof.
  intros Hs Hs'. rewrite !pack_seqtype_sum by done.
  pose proof (valtype_num_range t). pose proof (valtype_num_range t'). lia.
Qed.

Lemma ikey_write x : ikey x = user_key x ++ fixed64_write (pack_seqtype (sequence x) (type x)).
Proof. unfold ikey, ldb_pkey_export, ldb_pkey_write. by rewrite zlen_raw_write. Qed.

Lemma zlen_ikey x : zlen (ikey x) = ldb_pkey_size x.
Proof. rewrite ikey_write, zlen_app, zlen_fixed64_write. done. Qed.

Lemma extract_user_key_app u tag :
  zlen u < 2 ^ 64 - 8 -> zlen tag = 8 -> ldb_extract_user_key (u ++ tag) = u.
Proof.
  intros Hu Ht. unfold ldb_extract_user_key. rewrite zlen_app, Ht.
  pose proof (zlen_nonneg u). rewrite u64_small by lia. apply ztake_app. lia.
Qed.

Lemma extract_user_key_take x :
  8 <= zlen x < 2 ^ 64 -> ldb_extract_user_key x = ztake (zlen x - 8) x.
Proof. intros H. unfold ldb_extract_user_key. by rewrite u64_small by lia. Qed.

Lemma zlen_extract x : 8 <= zlen x < 2 ^ 64 -> zlen (ldb_extract_user_key x) = zlen x - 8.
Proof. intros H. rewrite extract_user_key_take by done. zlia. Qed.

Lemma ikey_tag_app u tag :
  zlen tag = 8 -> ikey_tag (u ++ tag) = fixed64_decode tag.
Proof. intros Ht. unfold ikey_tag. by rewrite zdrop_app by zlia. Qed.

Lemma user_key_ikey x : pkey_wf x -> ldb_extract_user_key (ikey x) = user_key x.
Proof.
  intros [_ H]. rewrite ikey_write. by apply extract_user_key_app; [|apply zlen_fixed64_write].
Qed.

Lemma ikey_tag_ikey x : pkey_wf x -> ikey_tag (ikey x) = pack_seqtype (sequence x) (type x).
Proof.
  intros [Hs _]. rewrite ikey_write, ikey_tag_app by apply zlen_fixed64_write.
  rewrite <- (app_nil_r (fixed64_write _)). by apply fixed64_decode_write, pack_seqtype_range.
Qed.

Lemma ikey_in_dom (udom : bytes -> Prop) x :
  pkey_wf x -> udom (user_key x) -> ikey_dom udom (ikey x).
Proof.
  intros Hx Hu. unfold ikey_dom. rewrite user_key_ikey by done. split; [|done].
  rewrite zlen_ikey. unfold ldb_pkey_size. destruct Hx. zlia.
Qed.

(** Parsing is the inverse of writing. *)
Lemma pkey_import_export x : pkey_wf x -> ldb_pkey_import (ikey x) = Some x.
Proof.
  intros Hx. unfold ldb_pkey_import. rewrite ikey_tag_eq, ikey_tag_ikey by done.
  rewrite <- extract_user_key_take, user_key_ikey
    by (done || (rewrite zlen_ikey; unfold ldb_pkey_size; destruct Hx; zlia)).
  destruct (Z.ltb_spec (zlen (ikey x)) 8) as [H|_];
    [rewrite zlen_ikey in H; unfold ldb_pkey_size in H; zlia|].
  destruct x as [u s t], Hx as [Hs Hu]; cbn [user_key sequence type] in *.
  rewrite pack_seqtype_sum by done. rewrite land_255.
  pose proof (valtype_num_range t).
  rewrite Z.shiftr_div_pow2 by lia. change (2 ^ 8) with 256.
  rewrite Z.div_add_l, (Z.div_small (valtype_num t)) by lia.
  rewrite Z.add_comm, Z.mod_add, Z.mod_small by lia.
  rewrite Z.add_0_r. by destruct t.
Qed.

(** A parse that succeeds determines the bytes. *)
Lemma pkey_import_sound x k :
  zlen x < 2 ^ 64 -> ldb_pkey_import x = Some k -> pkey_wf k /\ ikey k = x.
Proof.
  intros Hlen. unfold ldb_pkey_import. rewrite ikey_tag_eq.
  destruct (Z.ltb_spec (zlen x) 8) as [|H8]; [done|].
  destruct (Z.ltb_spec (valtype_num LDB_TYPE_VALUE) (Z.land (ikey_tag x) 255)) as [|Ht]; [done|].
  intros [= <-]. pose proof (fixed64_decode_range (zdrop (zlen x - 8) x)) as Hr.
  rewrite ikey_tag_eq in Hr. rewrite land_255 in *. cbn in Ht.
  assert (Hq : 0 <= Z.shiftr (ikey_tag x) 8 <= LDB_MAX_SEQUENCE).
  { rewrite Z.shiftr_div_pow2 by lia. change LDB_MAX_SEQUENCE with (2 ^ 56 - 1).
    Z.div_mod_to_equations. lia. }
  split; [split; [done|]; cbn [user_key]; rewrite zlen_take by lia; lia|].
  rewrite ikey_write. cbn [user_key sequence type].
  rewrite pack_seqtype_sum by done.
  assert (Z.shiftr (ikey_tag x) 8 * 256 +
    valtype_num (if ikey_tag x mod 256 =? 0 then LDB_TYPE_DELETION else LDB_TYPE_VALUE)
    = ikey_tag x) as ->.
  { rewrite Z.shiftr_div_pow2 by lia. change (2 ^ 8) with 256.
    destruct (Z.eqb_spec (ikey_tag x mod 256) 0); cbn; Z.div_mod_to_equations; lia. }
  assert (zlen (zdrop (zlen x - 8) x) = 8) as E8 by zlia.
  rewrite <- ikey_tag_eq, fixed64_write_le.
  rewrite <- (app_nil_r (zdrop (zlen x - 8) x)) at 1. rewrite fixed64_decode_app by done.
  replace 8%nat with (length (zdrop (zlen x - 8) x)) by (unfold zlen in *; lia).
  rewrite le_bytes_value. apply ztake_zdrop.
Qed.

(** ** The order of internal keys *)

Section Order.
Context (udom : bytes -> Prop) (uc : comparator) `{!ComparatorLaws udom uc}.

Abbreviation ucmp x y := (ldb_compare uc (ldb_extract_user_key x) (ldb_extract_user_key y)).

Lemma ikc_compare_spec x y :
  ldb_ikc_compare uc x y =
  if ucmp x y =? 0 then
    if ikey_tag y <? ikey_tag x then -1 else if ikey_tag x <? ikey_tag y then 1 else 0
  else ucmp x y.
Proof.
  unfold ldb_ikc_compare. rewrite !ikey_tag_eq.
  destruct (Z.eqb_spec (ucmp x y) 0) as [->|]; done.
Qed.

(** Below: smaller user key, or an equal one with a larger tag. *)
Lemma ikc_compare_lt x y :
  ldb_ikc_compare uc x y < 0 <->
  ucmp x y < 0 \/ (ucmp x y = 0 /\ ikey_tag y < ikey_tag x).
Proof.
  rewrite ikc_compare_spec. destruct (Z.eqb_spec (ucmp x y) 0); [|lia].
  destruct (Z.ltb_spec (ikey_tag y) (ikey_tag x)); [lia|].
  destruct (Z.ltb_spec (ikey_tag x) (ikey_tag y)); lia.
Qed.

Lemma ikc_compare_le x y :
  ldb_ikc_compare uc x y <= 0 <->
  ucmp x y < 0 \/ (ucmp x y = 0 /\ ikey_tag y <= ikey_tag x).
Proof.
  rewrite ikc_compare_spec. destruct (Z.eqb_spec (ucmp x y) 0); [|lia].
  destruct (Z.ltb_spec (ikey_tag y) (ikey_tag x)); [lia|].
  destruct (Z.ltb_spec (ikey_tag x) (ikey_tag y)); lia.
Qed.

Lemma ikc_compare_flip x y :
  ikey_dom udom x -> ikey_dom udom y ->
  Z.sgn (ldb_ikc_compare uc y x) = - Z.sgn (ldb_ikc_compare uc x y).
Proof.
  intros [_ Hx] [_ Hy]. pose proof (compare_flip (c:=uc) _ _ Hx Hy) as F.
  rewrite !ikc_compare_spec.
  destruct (Z.eqb_spec (ucmp x y) 0) as [E|E].
  - destruct (Z.eqb_spec (ucmp y x) 0); [|lia].
    destruct (Z.ltb_spec (ikey_tag x) (ikey_tag y)), (Z.ltb_spec (ikey_tag y) (ikey_tag x)); lia.
  - destruct (Z.eqb_spec (ucmp y x) 0); lia.
Qed.

Lemma ikc_compare_trans x y z :
  ikey_dom udom x -> ikey_dom udom y -> ikey_dom udom z ->
  ldb_ikc_compare uc x y <= 0 -> ldb_ikc_compare uc y z <= 0 -> ldb_ikc_compare uc x z <= 0.
Proof.
  intros [_ Hx] [_ Hy] [_ Hz]. rewrite !ikc_compare_le.
  intros [H1|[H1 T1]] [H2|[H2 T2]].
  - left. by apply (compare_lt_trans udom uc _ _ _ Hx Hy Hz).
  - left. apply (compare_lt_le_trans udom uc _ _ _ Hx Hy Hz); lia.
  - left. apply (compare_le_lt_trans udom uc _ _ _ Hx Hy Hz); lia.
  - right. split; [|lia].
    pose proof (compare_trans (c:=uc) _ _ _ Hx Hy Hz ltac:(lia) ltac:(lia)) as Hle.
    pose proof (compare_flip (c:=uc) _ _ Hx Hy). pose proof (compare_flip (c:=uc) _ _ Hy Hz).
    pose proof (compare_trans (c:=uc) _ _ _ Hz Hy Hx ltac:(lia) ltac:(lia)) as Hge.
    pose proof (compare_flip (c:=uc) _ _ Hx Hz). lia.
Qed.

(** The replacement key of the shortening routines. *)
Abbreviation seek_key tmp :=
  (tmp ++ fixed64_write (pack_seqtype LDB_MAX_SEQUENCE LDB_VALTYPE_SEEK)).

Lemma seek_key_user tmp : zlen tmp < 2 ^ 64 - 8 -> ldb_extract_user_key (seek_key tmp) = tmp.
Proof. intros H. apply extract_user_key_app; [done|apply zlen_fixed64_write]. Qed.

(** The first [assert] of both routines: a replaced key is above the old one. *)
Lemma ikc_shorten_above key tmp :
  ikey_dom udom key -> udom tmp ->
  ikey_dom udom (ikc_shorten uc key tmp) /\
  ldb_ikc_compare uc key (ikc_shorten uc key tmp) <= 0 /\
  (ikc_shorten uc key tmp = key \/
   ikc_shorten uc key tmp = seek_key tmp /\
   ldb_compare uc (ldb_extract_user_key key) tmp < 0 /\
   ldb_extract_user_key (seek_key tmp) = tmp).
Proof.
  intros Hkey Ht. destruct (Hkey) as [Hk Hu]. unfold ikc_shorten.
  pose proof (compare_refl udom uc _ Hu) as Hr.
  destruct (Z.ltb_spec (zlen tmp) (zlen (ldb_extract_user_key key))) as [Hlen|]; cbn [andb].
  2: { rewrite ikc_compare_le. split; [done|]. split; [lia|by left]. }
  destruct (Z.ltb_spec (ldb_compare uc (ldb_extract_user_key key) tmp) 0) as [Hlt|].
  2: { rewrite ikc_compare_le. split; [done|]. split; [lia|by left]. }
  rewrite zlen_extract in Hlen by done.
  assert (ldb_extract_user_key (seek_key tmp) = tmp) as E by (apply seek_key_user; lia).
  unfold ikey_dom. rewrite ikc_compare_le, E. pose proof (zlen_nonneg tmp).
  rewrite zlen_app, zlen_fixed64_write.
  split; [split; [lia|done]|]. split; [by left|by right].
Qed.

Lemma ikc_separator_spec s l :
  ikey_dom udom s -> ikey_dom udom l -> ldb_ikc_compare uc s l < 0 ->
  ikey_dom udom (ldb_ikc_shortest_separator uc s l) /\
  ldb_ikc_compare uc s (ldb_ikc_shortest_separator uc s l) <= 0 /\
  ldb_ikc_compare uc (ldb_ikc_shortest_separator uc s l) l < 0.
Proof.
  intros Hs Hl Hlt. destruct (Hs) as [_ Hus], (Hl) as [_ Hul].
  unfold ldb_ikc_shortest_separator.
  destruct (Z.lt_ge_cases (ucmp s l) 0) as [Hu|Hu].
  - destruct (separator_between _ _ Hus Hul Hu) as (Hd & _ & Hlim).
    destruct (ikc_shorten_above s _ Hs Hd) as (H1 & H2 & H3).
    split; [done|]. split; [done|]. destruct H3 as [->|(-> & _ & E)]; [done|].
    rewrite ikc_compare_lt, E. by left.
  - rewrite (separator_unchanged _ _ Hus Hul) by lia.
    destruct (ikc_shorten_above s _ Hs Hus) as (H1 & H2 & H3).
    split; [done|]. split; [done|]. destruct H3 as [->|(_ & E & _)]; [done|].
    rewrite (compare_refl udom uc) in E by done. lia.
Qed.

Lemma ikc_separator_unchanged s l :
  ikey_dom udom s -> ikey_dom udom l -> 0 <= ldb_ikc_compare uc s l ->
  ldb_ikc_shortest_separator uc s l = s.
Proof.
  intros Hs Hl Hge. destruct (Hs) as [_ Hus], (Hl) as [_ Hul].
  unfold ldb_ikc_shortest_separator.
  assert (0 <= ucmp s l) by (pose proof (ikc_compare_lt s l); lia).
  rewrite (separator_unchanged _ _ Hus Hul) by lia.
  destruct (ikc_shorten_above s _ Hs Hus) as (_ & _ & [->|(_ & E & _)]); [done|].
  rewrite (compare_refl udom uc) in E by done. lia.
Qed.

Lemma ikc_successor_spec k :
  ikey_dom udom k ->
  ikey_dom udom (ldb_ikc_short_successor uc k) /\
  ldb_ikc_compare uc k (ldb_ikc_short_successor uc k) <= 0.
Proof.
  intros Hk. destruct (Hk) as [_ Hu]. unfold ldb_ikc_short_successor.
  destruct (successor_above _ Hu) as [Hd _].
  by destruct (ikc_shorten_above k _ Hk Hd) as (? & ? & _).
Qed.

(** The internal-key comparator keeps the contract of comparators, on keys
    that have a tag. *)
#[export] Instance ikc_laws : ComparatorLaws (ikey_dom udom) (ldb_ikc_init uc).
Proof.
  assert (forall x, ikey_dom udom x -> ldb_ikc_compare uc x x <= 0) as Hrefl.
  { intros x [_ Hx]. rewrite ikc_compare_le. right. split; [|lia]. by apply (compare_refl udom). }
  split.
  - apply ikc_compare_flip.
  - apply ikc_compare_trans.
  - intros s l Hs Hl H. unfold ldb_shortest_separator. cbn [cmp_shortest_separator ldb_ikc_init].
    destruct (cmp_shortest_separator uc); [by apply ikc_separator_spec|].
    split; [done|]. split; [by apply Hrefl|done].
  - intros s l Hs Hl H. unfold ldb_shortest_separator. cbn [cmp_shortest_separator ldb_ikc_init].
    destruct (cmp_shortest_separator uc); [by apply ikc_separator_unchanged|done].
  - intros k Hk. unfold ldb_short_successor. cbn [cmp_short_successor ldb_ikc_init].
    destruct (cmp_short_successor uc); [by apply ikc_successor_spec|].
    split; [done|]. by apply Hrefl.
Qed.

(** The order on parsed keys. *)
(** No separator falls between two versions of a user key. *)
Lemma ikc_unseparated s k k' :
  ikey_dom udom s -> ikey_dom udom k' -> ldb_extract_user_key k = ldb_extract_user_key k' ->
  ldb_compare (ldb_ikc_init uc) s k < 0 ->
  ldb_compare (ldb_ikc_init uc) (ldb_shortest_separator (ldb_ikc_init uc) s k') k < 0.
Proof.
  intros Hs Hk' Hu Hlt. destruct (Hs) as [_ Hus], (Hk') as [_ Huk]. unfold ldb_shortest_separator.
  cbn [cmp_shortest_separator ldb_ikc_init ldb_compare cmp_compare] in *. destruct (cmp_shortest_separator uc); [|done].
  change (ldb_ikc_compare uc s k < 0) in Hlt. change (ldb_ikc_compare uc (ldb_ikc_shortest_separator uc s k') k < 0).
  unfold ldb_ikc_shortest_separator. destruct (Z.lt_ge_cases (ucmp s k') 0) as [H|H].
  - destruct (separator_between _ _ Hus Huk H) as (Hd & _ & Hlim).
    destruct (ikc_shorten_above s _ Hs Hd) as (_ & _ & [->|(-> & _ & E)]); [done|].
    rewrite ikc_compare_lt, E, Hu. by left.
  - rewrite (separator_unchanged _ _ Hus Huk) by lia.
    destruct (ikc_shorten_above s _ Hs Hus) as (_ & _ & [->|(_ & E & _)]); [done|].
    rewrite (compare_refl udom uc) in E by done. lia.
Qed.

Lemma ikc_compare_pkeys x y :
  pkey_wf x -> pkey_wf y ->
  ldb_ikc_compare uc (ikey x) (ikey y) < 0 <->
  ldb_compare uc (user_key x) (user_key y) < 0 \/
  (ldb_compare uc (user_key x) (user_key y) = 0 /\
   (sequence y < sequence x \/
    (sequence y = sequence x /\ valtype_num (type y) < valtype_num (type x)))).
Proof.
  intros Hx Hy. rewrite ikc_compare_lt, !user_key_ikey, !ikey_tag_ikey by done.
  rewrite pack_seqtype_lt; [done|apply Hy|apply Hx].
Qed.
End Order.

#[export] Instance ikc_short udom uc : ShortSeparators (ikey_dom udom) (ldb_ikc_init uc).
Proof.
  assert (forall k tmp, ikey_dom udom k -> zlen (ikc_shorten uc k tmp) <= zlen k) as H.
  { intros k tmp [Hk _]. unfold ikc_shorten. destruct (Z.ltb_spec (zlen tmp) (zlen (ldb_extract_user_key k))) as [Hl|]; [|done].
    cbn [andb]. destruct (_ <? 0); [|done]. rewrite zlen_extract in Hl by done. rewrite zlen_app, zlen_fixed64_write. lia. }
  split; unfold ldb_shortest_separator, ldb_short_successor; cbn [cmp_shortest_separator cmp_short_successor ldb_ikc_init].
  - intros s l Hs _ _. destruct (cmp_shortest_separator uc); [by apply H|done].
  - intros k Hk. destruct (cmp_short_successor uc); [by apply H|done].
Qed.

(** ** The filter policy *)

(** The policy on internal keys keeps the contract of filter policies when the
    policy on user keys does. *)
#[export] Instance ifp_policy udom p `{!FilterPolicy udom p} :
  FilterPolicy (ikey_dom udom) (ldb_ifp_init p).
Proof.
  intros dst keys Hdom Hlen. cbn [bloom_build_fn ldb_ifp_init].
  destruct (policy_no_false_negative dst (map ldb_extract_user_key keys)) as (f & E & Hf).
  - apply Forall_map. eapply Forall_impl; [|exact Hdom]. by intros x [_ H].
  - unfold zlen in *. by rewrite length_map.
  - exists f. split; [exact E|]. intros key Hin. apply Hf. by apply list_elem_of_fmap_2.
Qed.

#[export] Instance ifp_size p c `{!PolicySize p c} : PolicySize (ldb_ifp_init p) c.
Proof.
  intros dst keys. cbn [bloom_build_fn ldb_ifp_init]. unfold ldb_ifp_build.
  etransitivity; [apply (policy_size (c := c))|]. unfold zlen. by rewrite length_map.
Qed.

(** ** Lookup keys *)

(** The lookup key fits the block it is written to. *)
Lemma lkey_fits u s : zlen u < 2 ^ 64 - 13 ->
  zlen (lk_bytes (ldb_lkey_init u s)) <= lk_room (ldb_lkey_init u s).
Proof.
  intros _. unfold ldb_lkey_init. cbn [lk_bytes lk_room].
  rewrite zlen_raw_write, !zlen_app, zlen_varint32_write, zlen_fixed64_write.
  pose proof (varint32_size_range (u32 (zlen u + 8))).
  destruct (Z.ltb_spec lkey_space (zlen u + 13)); lia.
Qed.

Definition seek_pkey (u : bytes) (s : Z) : ldb_pkey := Pkey u s LDB_VALTYPE_SEEK.

Lemma lkey_parts u s :
  zlen u < 2 ^ 32 - 8 ->
  ldb_lkey_memtable_key (ldb_lkey_init u s) = slice_write (ikey (seek_pkey u s)) /\
  ldb_lkey_internal_key (ldb_lkey_init u s) = ikey (seek_pkey u s) /\
  ldb_lkey_user_key (ldb_lkey_init u s) = u.
Proof.
  intros Hu. pose proof (zlen_nonneg u).
  unfold ldb_lkey_memtable_key, ldb_lkey_internal_key, ldb_lkey_user_key, ldb_lkey_init.
  cbn [lk_bytes lk_kstart]. rewrite zlen_raw_write, u32_small by lia.
  change (u ++ fixed64_write (pack_seqtype s LDB_VALTYPE_SEEK))
    with (user_key (seek_pkey u s) ++
          fixed64_write (pack_seqtype (sequence (seek_pkey u s)) (type (seek_pkey u s)))).
  rewrite <- ikey_write.
  assert (zlen (ikey (seek_pkey u s)) = zlen u + 8) as El by apply zlen_ikey.
  rewrite slice_write_wf by (unfold slice_wf; lia). rewrite El.
  split; [done|]. rewrite zdrop_app by done. split; [done|].
  rewrite zlen_app, El, ikey_write. apply ztake_app. cbn [user_key seek_pkey]. lia.
Qed.

(** ** Properties *)

(** Internal keys round-trip: [ldb_pkey_import] parses what
    [ldb_pkey_export] wrote, for every 56-bit sequence number, and conversely a
    key it accepts is the encoding of the parsed key, with a sequence number in
    range. *)
Theorem pkey_roundtrip x :
  (pkey_wf x -> ldb_pkey_import (ldb_pkey_export [] x) = Some x) /\
  (forall xs, zlen xs < 2 ^ 64 -> ldb_pkey_import xs = Some x ->
     pkey_wf x /\ ldb_pkey_export [] x = xs).
Proof. split; [apply pkey_import_export|]. intros xs. apply pkey_import_sound. Qed.

Lemma pkey_roundtrip_witness :
  let x := Pkey [Byte.x61] 7 LDB_TYPE_VALUE in
  ldb_pkey_import (ldb_pkey_export [] x) = Some x.
Proof. intros x. apply pkey_roundtrip. split; by vm_compute. Defined.

(** The comparator made by [ldb_ikc_init] orders internal keys by user key,
    then newest first, and its separator and successor keep the contract of
    comparators: the [assert]s of the shortening routines hold. *)
Theorem internal_key_order udom uc `{!ComparatorLaws udom uc} x y :
  pkey_wf x -> pkey_wf y -> udom (user_key x) -> udom (user_key y) ->
  let ikc := ldb_ikc_init uc in
  let a := ldb_pkey_export [] x in
  let b := ldb_pkey_export [] y in
  (ldb_compare ikc a b < 0 <->
   ldb_compare uc (user_key x) (user_key y) < 0 \/
   (ldb_compare uc (user_key x) (user_key y) = 0 /\
    (sequence y < sequence x \/
     (sequence y = sequence x /\ valtype_num (type y) < valtype_num (type x))))) /\
  (ldb_compare ikc a b < 0 ->
   ldb_compare ikc a (ldb_shortest_separator ikc a b) <= 0 /\
   ldb_compare ikc (ldb_shortest_separator ikc a b) b < 0) /\
  ldb_compare ikc a (ldb_short_successor ikc a) <= 0.
Proof.
  intros Hx Hy Ux Uy ikc a b.
  pose proof (ikey_in_dom udom x Hx Ux) as Da. pose proof (ikey_in_dom udom y Hy Uy) as Db.
  split; [by apply ikc_compare_pkeys|]. split.
  - intros H. by destruct (separator_between (c:=ikc) a b Da Db H) as (_ & ? & ?).
  - by destruct (successor_above (c:=ikc) a Da) as [_ ?].
Qed.

Lemma internal_key_order_witness :
  let x := Pkey [Byte.x61] 7 LDB_TYPE_VALUE in
  let y := Pkey [Byte.x61] 5 LDB_TYPE_DELETION in
  ldb_compare (ldb_ikc_init bytewise_comparator)
    (ldb_pkey_export [] x) (ldb_pkey_export [] y) < 0.
Proof.
  intros x y.
  assert (pkey_wf x) as Hx by (split; by vm_compute).
  assert (pkey_wf y) as Hy by (split; by vm_compute).
  destruct (internal_key_order (fun _ => True) bytewise_comparator x y Hx Hy I I) as [H _].
  apply H. right. split; [by vm_compute|]. left. by vm_compute.
Defined.

(** A lookup key at a snapshot sorts before exactly the entries of its user
    key that the snapshot sees: it is written within its block, its memtable
    form is the length-prefixed internal key, and it compares at most equal to
    the internal key of an entry iff the entry's sequence number is at most
    the snapshot's. *)
Theorem lookup_key_seeks udom uc `{!ComparatorLaws udom uc} u s x :
  zlen u < 2 ^ 32 - 8 -> 0 <= s <= LDB_MAX_SEQUENCE ->
  pkey_wf x -> udom u -> user_key x = u ->
  let lkey := ldb_lkey_init u s in
  zlen (lk_bytes lkey) <= lk_room lkey /\
  slice_read (ldb_lkey_memtable_key lkey) = (Some (ldb_lkey_internal_key lkey), []) /\
  ldb_lkey_user_key lkey = u /\
  (ldb_compare (ldb_ikc_init uc) (ldb_lkey_internal_key lkey) (ldb_pkey_export [] x) <= 0 <->
   sequence x <= s).
Proof.
  intros Hu Hs Hx Ud Eu lkey. pose proof (zlen_nonneg u).
  destruct (lkey_parts u s Hu) as (Em & Ei & Ek). subst lkey.
  split; [apply lkey_fits; lia|].
  assert (slice_wf (ikey (seek_pkey u s))) as Hw
    by (unfold slice_wf; rewrite zlen_ikey; unfold ldb_pkey_size; cbn [user_key seek_pkey]; lia).
  rewrite Em, Ei, Ek. split.
  { rewrite <- (app_nil_r (slice_write _)). by apply (codec_roundtrip (dec := slice_read)). }
  split; [done|].
  assert (pkey_wf (seek_pkey u s)) as Hp by (split; cbn [user_key sequence seek_pkey]; lia).
  change (ldb_compare (ldb_ikc_init uc)) with (ldb_ikc_compare uc).
  change (ldb_pkey_export [] x) with (ikey x).
  rewrite ikc_compare_le, !user_key_ikey, !ikey_tag_ikey by done.
  rewrite Eu. cbn [user_key sequence type seek_pkey].
  rewrite (compare_refl udom uc) by done. destruct Hx as [Hx _].
  rewrite !pack_seqtype_sum by done. unfold LDB_VALTYPE_SEEK.
  destruct (type x); cbn [valtype_num]; lia.
Qed.

Lemma lookup_key_seeks_witness :
  ldb_compare (ldb_ikc_init bytewise_comparator)
    (ldb_lkey_internal_key (ldb_lkey_init [Byte.x61] 5))
    (ldb_pkey_export [] (Pkey [Byte.x61] 5 LDB_TYPE_DELETION)) <= 0.
Proof.
  set (x := Pkey [Byte.x61] 5 LDB_TYPE_DELETION).
  assert (pkey_wf x) as Hx by (split; by vm_compute).
  destruct (lookup_key_seeks (fun _ => True) bytewise_comparator [Byte.x61] 5 x
    ltac:(by vm_compute) ltac:(by vm_compute) Hx I eq_refl) as (_ & _ & _ & H).
  apply H. by vm_compute.
Defined.
