(* ===== verification/KeyOrder.v ===== *)
(** * Order arguments on keys

    A comparator orders any finite list of keys like their ranks, which are
    integers; user keys and internal keys get ranks that agree.  The tactic
    [key_order] turns comparisons of keys into comparisons of ranks, for [lia]. *)

From S2P Require Import Prelude Coding Comparator DBFormat.
#[local] Open Scope Z_scope.

(** How many keys of the list are smaller. *)
Definition rank (c : comparator) (ks : list bytes) (x : bytes) : Z := zlen (List.filter (fun k => ldb_compare c k x <? 0) ks).

Section Rank.
Context (dom : bytes -> Prop) (c : comparator) `{!ComparatorLaws dom c}.

Lemma key_rank_lt ks x y : Forall dom ks -> In x ks -> In y ks -> ldb_compare c x y < 0 -> rank c ks x < rank c ks y.
Proof.
  intros Hd Hx Hy Hlt. rewrite List.Forall_forall in Hd. unfold rank, zlen. apply Nat2Z.inj_lt.
  apply (filter_length_lt _ _ _ x); [|by apply list_elem_of_In|by apply Z.ltb_lt|].
  - intros k Hk%list_elem_of_In Hkx%Z.ltb_lt. apply Z.ltb_lt. apply (compare_lt_trans dom c _ x); auto.
  - apply Z.ltb_ge. rewrite (compare_refl dom c) by auto. lia.
Qed.

Lemma key_rank_le ks x y : Forall dom ks -> In x ks -> In y ks -> ldb_compare c x y <= 0 -> rank c ks x <= rank c ks y.
Proof.
  intros Hd Hx Hy Hle. rewrite List.Forall_forall in Hd. unfold rank, zlen. apply Nat2Z.inj_le.
  apply filter_length_le. intros k Hk%list_elem_of_In Hkx%Z.ltb_lt. apply Z.ltb_lt. apply (compare_lt_le_trans dom c _ x); auto.
Qed.

Lemma rank_sgn ks x y : Forall dom ks -> In x ks -> In y ks -> Z.sgn (ldb_compare c x y) = Z.sgn (rank c ks x - rank c ks y).
Proof.
  intros Hd Hx Hy. assert (dom x /\ dom y) as [Dx Dy] by (rewrite List.Forall_forall in Hd; auto).
  pose proof (compare_flip x y Dx Dy) as Hf.
  destruct (Z_lt_le_dec (ldb_compare c x y) 0) as [H1|H1]; [pose proof (key_rank_lt ks x y Hd Hx Hy H1); lia|].
  destruct (Z.eq_dec (ldb_compare c x y) 0) as [H2|H2].
  - pose proof (key_rank_le ks x y Hd Hx Hy). pose proof (key_rank_le ks y x Hd Hy Hx). lia.
  - pose proof (key_rank_lt ks y x Hd Hy Hx). lia.
Qed.
End Rank.

(** Ranks of internal keys that refine those of their user keys. *)
Lemma key_ranks udom uc `{!ComparatorLaws udom uc} ks : Forall (ikey_dom udom) ks ->
  exists R r : bytes -> Z, (forall x, r x * 18446744073709551616 <= R x < r x * 18446744073709551616 + 18446744073709551616) /\
    forall x y, In x ks -> In y ks ->
    Z.sgn (ldb_compare (ldb_ikc_init uc) x y) = Z.sgn (R x - R y) /\
    Z.sgn (ldb_compare uc (ldb_extract_user_key x) (ldb_extract_user_key y)) = Z.sgn (r x - r y).
Proof.
  intros Hd. set (r := fun x => rank uc (map ldb_extract_user_key ks) (ldb_extract_user_key x)).
  set (K := 18446744073709551616). exists (fun x => r x * K + (K - 1 - ikey_tag x)), r.
  assert (forall x, 0 <= ikey_tag x < K) as Ht by (intros x; apply fixed64_decode_range). split; [intros x; specialize (Ht x); lia|].
  intros x y Hx Hy. assert (Forall udom (map ldb_extract_user_key ks)) as Hd'.
  { apply Forall_map. eapply List.Forall_impl; [|exact Hd]. by intros k []. }
  pose proof (rank_sgn udom uc _ _ _ Hd' (in_map ldb_extract_user_key _ _ Hx) (in_map ldb_extract_user_key _ _ Hy)) as H2.
  fold (r x) (r y) in H2. split; [|done]. pose proof (Ht x). pose proof (Ht y).
  change (ldb_compare (ldb_ikc_init uc)) with (ldb_ikc_compare uc). pose proof (ikc_compare_lt uc x y) as H3. pose proof (ikc_compare_le uc x y) as H4.
  set (u := ldb_compare uc _ _) in *. clearbody u r K. destruct (Z.lt_trichotomy (r x) (r y)) as [H5|[H5|H5]]; nia.
Qed.

Section Signs.
Context (t a b : Z) (H : Z.sgn t = Z.sgn (a - b)).
Lemma sgn_lt : t < 0 <-> a < b. Proof using H. lia. Qed.
Lemma sgn_le : t <= 0 <-> a <= b. Proof using H. lia. Qed.
Lemma sgn_eq : t = 0 <-> a = b. Proof using H. lia. Qed.
Lemma sgn_gt : 0 < t <-> b < a. Proof using H. lia. Qed.
Lemma sgn_ge : 0 <= t <-> b <= a. Proof using H. lia. Qed.
End Signs.

(** [key_order udom uc ks]: [ks] are internal keys of the domain. *)
Ltac bound_ranks H ks :=
  lazymatch ks with @nil _ => idtac | @cons _ ?x ?ks' => pose proof (H x); bound_ranks H ks' end.

Ltac use_sign t S :=
  repeat match goal with
  | h : context [t < 0] |- _ => rewrite (sgn_lt t _ _ S) in h
  | h : context [t <= 0] |- _ => rewrite (sgn_le t _ _ S) in h
  | h : context [t = 0] |- _ => rewrite (sgn_eq t _ _ S) in h
  | h : context [0 < t] |- _ => rewrite (sgn_gt t _ _ S) in h
  | h : context [0 <= t] |- _ => rewrite (sgn_ge t _ _ S) in h
  end;
  rewrite ?(sgn_lt t _ _ S), ?(sgn_le t _ _ S), ?(sgn_eq t _ _ S), ?(sgn_gt t _ _ S), ?(sgn_ge t _ _ S); clear S; try clear t.

Ltac rank_internal H x y uc :=
  let S := fresh "S" in pose proof (proj1 (H x y ltac:(cbn; tauto) ltac:(cbn; tauto))) as S;
  let t := fresh "t" in set (t := ldb_compare (ldb_ikc_init uc) x y) in *; clearbody t; use_sign t S.
Ltac rank_user H x y uc :=
  let S := fresh "S" in pose proof (proj2 (H x y ltac:(cbn; tauto) ltac:(cbn; tauto))) as S;
  let t := fresh "t" in set (t := ldb_compare uc (ldb_extract_user_key x) (ldb_extract_user_key y)) in *; clearbody t; use_sign t S.

Ltac key_order udom uc ks :=
  let H := fresh "Hrank" in let B := fresh "B" in let R := fresh "R" in let r := fresh "r" in
  destruct (key_ranks udom uc ks) as (R & r & B & H); [repeat (apply List.Forall_cons; [assumption|]); apply List.Forall_nil|];
  bound_ranks B ks; clear B; revert H;
  repeat match goal with
  | h : context [ldb_compare (ldb_ikc_init uc) ?x ?y] |- _ => intros H; rank_internal H x y uc; revert H
  | h : context [ldb_compare uc (ldb_extract_user_key ?x) (ldb_extract_user_key ?y)] |- _ => intros H; rank_user H x y uc; revert H
  end;
  intros H;
  repeat match goal with
  | |- context [ldb_compare (ldb_ikc_init uc) ?x ?y] => rank_internal H x y uc
  | |- context [ldb_compare uc (ldb_extract_user_key ?x) (ldb_extract_user_key ?y)] => rank_user H x y uc
  end; clear H; lia.

(** The order is total, and user keys order no finer. *)
Lemma key_order_example udom uc `{!ComparatorLaws udom uc} x y z : ikey_dom udom x -> ikey_dom udom y -> ikey_dom udom z ->
  ldb_compare (ldb_ikc_init uc) x y < 0 -> ldb_compare (ldb_ikc_init uc) y z <= 0 ->
  ldb_compare uc (ldb_extract_user_key z) (ldb_extract_user_key x) = 0 ->
  ldb_compare (ldb_ikc_init uc) x z < 0 /\ ldb_compare uc (ldb_extract_user_key y) (ldb_extract_user_key z) = 0.
Proof. intros Dx Dy Dz H1 H2 H3. key_order udom uc [x; y; z]. Qed.
