(* ===== verification/Random.v ===== *)
(** * The random number generator

    Models [src/engine/src/util/random.h] and [random.c].  The state is the
    [seed] member; every routine returns its value with the next seed. *)

From S2P Require Import Prelude.
#[local] Open Scope Z_scope.

Definition ldb_rand_init (seed : Z) : Z :=
  let seed := Z.land seed 0x7fffffff in
  if (seed =? 0) || (seed =? 2147483647) then 1 else seed.

Definition rand_M : Z := 2147483647.
Definition rand_A : Z := 16807.

Definition ldb_rand_next (seed : Z) : Z * Z :=
  let product := u64 (seed * rand_A) in
  let seed := u32 (u64 (Z.shiftr product 31 + Z.land product rand_M)) in
  let seed := if rand_M <? seed then seed - rand_M else seed in
  (seed, seed).

Definition ldb_rand_uniform (seed n : Z) : Z * Z :=
  if n =? 0 then (0, seed)
  else let (r, seed) := ldb_rand_next seed in (r mod n, seed).

Definition ldb_rand_one_in (seed n : Z) : bool * Z :=
  let (r, seed) := ldb_rand_uniform seed n in (r =? 0, seed).

Definition ldb_rand_skewed (seed max_log : Z) : Z * Z :=
  let (shift, seed) := ldb_rand_uniform seed (max_log + 1) in
  ldb_rand_uniform seed (Z.shiftl 1 shift).

(** The seeds the generator moves through. *)
Definition seed_ok (seed : Z) : Prop := 0 < seed < rand_M.

Lemma land_ones_31 x : Z.land x 2147483647 = x mod 2 ^ 31.
Proof. by apply (Z.land_ones x 31). Qed.

Lemma rand_init_ok seed : 0 <= seed < 2 ^ 32 -> seed_ok (ldb_rand_init seed).
Proof.
  intros H. unfold ldb_rand_init, seed_ok, rand_M.
  rewrite (land_ones_31 seed).
  pose proof (Z.mod_pos_bound seed (2 ^ 31) ltac:(lia)).
  destruct (Z.eqb_spec (seed mod 2 ^ 31) 0), (Z.eqb_spec (seed mod 2 ^ 31) 2147483647);
    cbv beta iota delta [orb]; lia.
Qed.

(** The multiplier is invertible, so no seed leads to zero. *)
Lemma lehmer_nonzero seed : seed_ok seed -> (seed * rand_A) mod rand_M <> 0.
Proof.
  intros [H1 H2] [k Hk]%Z.mod_divide; [|done].
  assert (seed = (k * 1407677000 - seed * 11017) * rand_M) as E.
  { rewrite Z.mul_sub_distr_r, <- (Z.mul_assoc k), (Z.mul_comm 1407677000), Z.mul_assoc, <- Hk.
    unfold rand_A, rand_M. lia. }
  assert (Z.divide rand_M seed) as D by (eexists; exact E).
  apply Z.divide_pos_le in D; lia.
Qed.

(** The shift-and-add reduction is the remainder modulo [2^31 - 1]. *)
Lemma rand_next_spec seed :
  seed_ok seed -> ldb_rand_next seed = ((seed * rand_A) mod rand_M, (seed * rand_A) mod rand_M).
Proof.
  intros Hs. pose proof (lehmer_nonzero seed Hs) as Hnz. destruct Hs as [H1 H2].
  unfold ldb_rand_next, rand_M, rand_A in *. set (p := seed * 16807) in *.
  assert (0 < p < 2 ^ 31 * 16807) by lia. rewrite (u64_small p) by lia.
  rewrite land_ones_31, Z.shiftr_div_pow2 by lia.
  pose proof (Z.div_mod p (2 ^ 31) ltac:(lia)) as Ed.
  pose proof (Z.mod_pos_bound p (2 ^ 31) ltac:(lia)).
  assert (0 <= p / 2 ^ 31 < 16807) by (split; [apply Z.div_pos|apply Z.div_lt_upper_bound]; lia).
  rewrite u64_small, u32_small by (rewrite ?u64_small; lia).
  set (s := p / 2 ^ 31 + p mod 2 ^ 31) in *.
  assert (p mod 2147483647 = s mod 2147483647) as Em.
  { replace p with (s + p / 2 ^ 31 * 2147483647) by lia. apply Z.mod_add. lia. }
  rewrite Em in *.
  destruct (Z.ltb_spec 2147483647 s) as [Hl|Hl].
  - assert (s mod 2147483647 = s - 2147483647) as ->; [|done].
    symmetry. apply (Z.mod_unique_pos _ _ 1); lia.
  - assert (s <> 2147483647) by (intros E; rewrite E in Hnz; done).
    rewrite Z.mod_small by lia. done.
Qed.

Lemma rand_next_ok seed : seed_ok seed -> seed_ok (ldb_rand_next seed).2.
Proof.
  intros Hs. rewrite rand_next_spec by done. cbn [snd].
  pose proof (lehmer_nonzero seed Hs). unfold seed_ok.
  pose proof (Z.mod_pos_bound (seed * rand_A) rand_M eq_refl). lia.
Qed.

Lemma rand_uniform_ok seed n : seed_ok seed -> seed_ok (ldb_rand_uniform seed n).2.
Proof.
  intros Hs. unfold ldb_rand_uniform. destruct (n =? 0); [done|].
  pose proof (rand_next_ok seed Hs). by destruct (ldb_rand_next seed).
Qed.

Lemma rand_one_in_ok seed n : seed_ok seed -> seed_ok (ldb_rand_one_in seed n).2.
Proof.
  intros Hs. unfold ldb_rand_one_in. pose proof (rand_uniform_ok seed n Hs).
  by destruct (ldb_rand_uniform seed n).
Qed.

(** ** Properties *)

(** [ldb_rand_next] steps the Lehmer generator: its shift-and-add reduction
    is multiplication by 16807 modulo [2^31 - 1], and from every seed
    [ldb_rand_init] can give the state never reaches 0 or [2^31 - 1], where it
    would stay. *)
Theorem rand_next_lehmer seed n :
  0 <= seed < 2 ^ 32 ->
  let s := Nat.iter n (fun s => (ldb_rand_next s).2) (ldb_rand_init seed) in
  0 < s < rand_M /\ ldb_rand_next s = ((s * rand_A) mod rand_M, (s * rand_A) mod rand_M).
Proof.
  intros H. assert (seed_ok (Nat.iter n (fun s => (ldb_rand_next s).2) (ldb_rand_init seed))) as Hn.
  { induction n as [|n IH]; [by apply rand_init_ok|]. by apply rand_next_ok. }
  split; [exact Hn|by apply rand_next_spec].
Qed.

Lemma rand_next_lehmer_witness :
  0 <= 0xdeadbeef < 2 ^ 32 /\ 0 < (ldb_rand_next (ldb_rand_init 0xdeadbeef)).2 < rand_M.
Proof. split; [lia|]. apply (rand_next_lehmer 0xdeadbeef 1). lia. Defined.
