(* ===== verification/Arena.v ===== *)
(** * Arenas

    Models [src/engine/src/util/arena.c] for 64-bit pointers: memory that is
    handed out piece by piece from blocks and freed as a whole.  A pointer is the
    number of a block and an offset in it; blocks start at multiples of eight, as
    [malloc] returns them. *)

From stdpp Require Import list.
From S2P Require Import Prelude.
#[local] Open Scope Z_scope.

Definition LDB_ARENA_BLOCK : Z := 4096.

(** [ldb_arena_t]: the sizes of the blocks, the free part of the current block. *)
Record arena := Arena { ar_blocks : list Z; ar_data : option (nat * Z); ar_left : Z; ar_usage : Z }.

Definition ldb_arena_init : arena := Arena [] None 0 0.

Definition ldb_arena_usage (a : arena) : Z := ar_usage a.

Definition ldb_arena_alloc_block (a : arena) (size : Z) : (nat * Z) * arena :=
  ((length (ar_blocks a), 0), Arena (ar_blocks a ++ [size]) (ar_data a) (ar_left a) (u64 (ar_usage a + (size + 8)))).

Definition ldb_arena_alloc_fallback (a : arena) (size : Z) : (nat * Z) * arena :=
  if LDB_ARENA_BLOCK / 4 <? size then ldb_arena_alloc_block a size
  else
    let '(data, a) := ldb_arena_alloc_block a LDB_ARENA_BLOCK in
    (data, Arena (ar_blocks a) (Some (data.1, data.2 + size)) (LDB_ARENA_BLOCK - size) (ar_usage a)).

(** [None]: the assertion fails, or there is no current block. *)
Definition ldb_arena_alloc (a : arena) (size : Z) : option ((nat * Z) * arena) :=
  if negb (0 <? size) then None
  else if size <=? ar_left a then
    '(b, o) ← ar_data a;
    Some ((b, o), Arena (ar_blocks a) (Some (b, o + size)) (ar_left a - size) (ar_usage a))
  else Some (ldb_arena_alloc_fallback a size).

Definition ldb_arena_alloc_aligned (a : arena) (size : Z) : option ((nat * Z) * arena) :=
  let current_mod := match ar_data a with Some (_, o) => Z.land o 7 | None => 0 end in
  let slop := if current_mod =? 0 then 0 else 8 - current_mod in
  let needed := u64 (size + slop) in
  if needed <=? ar_left a then
    '(b, o) ← ar_data a;
    let result := (b, o + slop) in
    if Z.land result.2 7 =? 0 then Some (result, Arena (ar_blocks a) (Some (b, o + needed)) (ar_left a - needed) (ar_usage a)) else None
  else Some (ldb_arena_alloc_fallback a size).

(** ** Correctness *)

(** A piece of memory: where it is and how long. *)
Definition piece : Type := (nat * Z) * Z.

Definition apart (x y : piece) : Prop := x.1.1 <> y.1.1 \/ x.1.2 + x.2 <= y.1.2 \/ y.1.2 + y.2 <= x.1.2.

Definition in_block (blocks : list Z) (x : piece) : Prop := 0 <= x.1.2 /\ 0 < x.2 /\ exists size, blocks !! x.1.1 = Some size /\ x.1.2 + x.2 <= size.

(** The pieces handed out, and the free rest of the current block. *)
Record arena_ok (a : arena) (pieces : list piece) : Prop := {
  ao_blocks x : x ∈ pieces -> in_block (ar_blocks a) x;
  ao_apart : ForallOrdPairs apart pieces;
  ao_data : match ar_data a with
            | Some (b, o) => 0 <= o /\ 0 <= ar_left a /\ ar_blocks a !! b = Some (o + ar_left a) /\
                forall x, x ∈ pieces -> x.1.1 = b -> x.1.2 + x.2 <= o
            | None => ar_left a = 0
            end;
  ao_usage : ar_usage a = u64 (foldr (fun size n => size + 8 + n) 0 (ar_blocks a))
}.

Lemma blocks_usage blocks size : foldr (fun size n => size + 8 + n) 0 (blocks ++ [size]) = foldr (fun size n => size + 8 + n) 0 blocks + (size + 8).
Proof. induction blocks as [|b blocks IH]; cbn; [lia|]. rewrite IH. lia. Qed.

Lemma in_block_app blocks size x : in_block blocks x -> in_block (blocks ++ [size]) x.
Proof. intros (H1 & H2 & s & E & H3). split; [done|]. split; [done|]. exists s. split; [by apply lookup_app_l_Some|done]. Qed.

Lemma arena_init_ok : arena_ok ldb_arena_init [].
Proof. split; [by intros x Hx%elem_of_nil|constructor|done|done]. Qed.

Lemma fallback_ok a pieces size : arena_ok a pieces -> 0 < size ->
  exists r a', ldb_arena_alloc_fallback a size = (r, a') /\ arena_ok a' ((r, size) :: pieces) /\ Z.land r.2 7 = 0.
Proof.
  intros [H1 H2 H3 H4] Hs. set (n := length (ar_blocks a)).
  assert (forall x, x ∈ pieces -> x.1.1 <> n) as Hnew.
  { intros x Hx. destruct (H1 x Hx) as (_ & _ & s & E & _). apply lookup_lt_Some in E. unfold n. lia. }
  assert (forall total r a', ar_blocks a' = ar_blocks a ++ [total] -> r = (n, 0) -> size <= total ->
    (forall x, x ∈ (r, size) :: pieces -> in_block (ar_blocks a') x) /\ ForallOrdPairs apart ((r, size) :: pieces)) as Hcommon.
  { intros total r a' Eb -> Ht. split.
    - intros x [->|Hx]%elem_of_cons; [|rewrite Eb; by apply in_block_app, H1]. cbn. split; [done|]. split; [done|]. exists total.
      rewrite Eb. split; [|cbn; lia]. cbn. unfold n. by rewrite lookup_app_r, Nat.sub_diag by lia.
    - constructor; [|done]. apply List.Forall_forall. intros x Hx%list_elem_of_In. left. cbn. intros E1. by apply (Hnew x Hx). }
  assert (forall total, u64 (ar_usage a + (total + 8)) = u64 (foldr (fun size n => size + 8 + n) 0 (ar_blocks a ++ [total]))) as Hu.
  { intros total. rewrite H4, blocks_usage. unfold u64. by rewrite Zplus_mod_idemp_l. }
  unfold ldb_arena_alloc_fallback, ldb_arena_alloc_block. fold n. destruct (Z.ltb_spec (LDB_ARENA_BLOCK / 4) size) as [Hbig|Hsmall].
  - eexists _, _. split; [reflexivity|]. split; [|done].
    destruct (Hcommon size (n, 0) (Arena (ar_blocks a ++ [size]) (ar_data a) (ar_left a) (u64 (ar_usage a + (size + 8)))) eq_refl eq_refl ltac:(lia)) as [C1 C2].
    split; cbn [ar_blocks ar_data ar_left ar_usage]; [exact C1|exact C2| |apply Hu].
    destruct (ar_data a) as [[b o]|]; [|done]. destruct H3 as (P1 & P2 & P3 & P4). split; [done|]. split; [done|]. split; [by apply lookup_app_l_Some|].
    intros x [->|Hx]%elem_of_cons; [|by apply P4]. cbn. intros <-. apply lookup_lt_Some in P3. unfold n in P3. lia.
  - eexists _, _. split; [reflexivity|]. split; [|done].
    destruct (Hcommon LDB_ARENA_BLOCK (n, 0) (Arena (ar_blocks a ++ [LDB_ARENA_BLOCK]) None 0 0) eq_refl eq_refl) as [C1 C2];
      [change (LDB_ARENA_BLOCK / 4) with 1024 in Hsmall; unfold LDB_ARENA_BLOCK; lia|].
    split; cbn [ar_blocks ar_data ar_left ar_usage fst snd]; [exact C1|exact C2| |apply Hu].
    change (LDB_ARENA_BLOCK / 4) with 1024 in Hsmall. split; [lia|]. split; [unfold LDB_ARENA_BLOCK; lia|]. split.
    + unfold n. rewrite lookup_app_r, Nat.sub_diag by lia. cbn. f_equal. lia.
    + intros x [->|Hx]%elem_of_cons; [cbn; lia|]. intros E1. by destruct (Hnew x Hx).
Qed.

(** A piece from the free rest, [skip] bytes into it. *)
Lemma rest_ok a pieces b o skip size : arena_ok a pieces -> ar_data a = Some (b, o) -> 0 <= skip -> 0 < size -> skip + size <= ar_left a ->
  arena_ok (Arena (ar_blocks a) (Some (b, o + (skip + size))) (ar_left a - (skip + size)) (ar_usage a)) (((b, o + skip), size) :: pieces).
Proof.
  intros [H1 H2 H3 H4] Ed Hk Hs Hl. rewrite Ed in H3. destruct H3 as (P1 & P2 & P3 & P4).
  split; cbn [ar_blocks ar_data ar_left ar_usage]; [| | |done].
  - intros x [->|Hx]%elem_of_cons; [|by apply H1]. cbn. split; [cbn; lia|]. split; [done|]. exists (o + ar_left a). split; [done|cbn; lia].
  - constructor; [|done]. apply List.Forall_forall. intros x Hx%list_elem_of_In. destruct (decide (x.1.1 = b)) as [Eb|Hne].
    + right. right. cbn. pose proof (P4 x Hx Eb). lia.
    + left. cbn. by intros Eb; rewrite Eb in Hne.
  - split; [lia|]. split; [lia|]. split; [rewrite P3; f_equal; lia|]. intros x [->|Hx]%elem_of_cons; [cbn; lia|]. intros Eb. pose proof (P4 x Hx Eb). lia.
Qed.

Lemma alloc_ok a pieces size : arena_ok a pieces -> 0 < size ->
  exists r a', ldb_arena_alloc a size = Some (r, a') /\ arena_ok a' ((r, size) :: pieces).
Proof.
  intros Ha Hs. unfold ldb_arena_alloc. rewrite (proj2 (Z.ltb_lt 0 size)) by done. cbn [negb]. destruct (Z.leb_spec size (ar_left a)) as [Hl|Hl].
  - pose proof (ao_data _ _ Ha) as Hd. destruct (ar_data a) as [[b o]|] eqn:Ed; [|lia]. rewrite bind_some. eexists _, _. split; [reflexivity|].
    pose proof (rest_ok a pieces b o 0 size Ha Ed ltac:(lia) Hs ltac:(lia)) as Hr. by rewrite Z.add_0_r, Z.add_0_l in Hr.
  - destruct (fallback_ok a pieces size Ha Hs) as (r & a' & E & Ha' & _). rewrite E. by exists r, a'.
Qed.

Lemma alloc_aligned_ok a pieces size : arena_ok a pieces -> 0 < size < 2 ^ 63 -> 
  exists r a', ldb_arena_alloc_aligned a size = Some (r, a') /\ arena_ok a' ((r, size) :: pieces) /\ r.2 mod 8 = 0.
Proof.
  intros Ha Hs. unfold ldb_arena_alloc_aligned.
  assert (forall z, Z.land z 7 = z mod 8) as Hland by (intros z; change 7 with (Z.ones 3); by rewrite Z.land_ones by lia).
  set (slop := if _ =? 0 then 0 else _).
  assert (0 <= slop < 8 /\ forall b o, ar_data a = Some (b, o) -> (o + slop) mod 8 = 0) as [Hslop Hal].
  { unfold slop. destruct (ar_data a) as [[b o]|]; [|by split]. rewrite Hland. pose proof (Z.mod_pos_bound o 8 ltac:(lia)).
    destruct (Z.eqb_spec (o mod 8) 0) as [E|E]; [split; [lia|]; intros b' o' [= <- <-]; by rewrite Z.add_0_r|]. split; [lia|]. intros b' o' [= <- <-].
    replace (o + (8 - o mod 8)) with ((o - o mod 8) + 1 * 8) by lia. rewrite Z.mod_add, Zminus_mod_idemp_r, Z.sub_diag by lia. done. }
  clearbody slop. assert (u64 (size + slop) = slop + size) as -> by (unfold u64; rewrite Z.mod_small by lia; lia).
  destruct (Z.leb_spec (slop + size) (ar_left a)) as [Hl|Hl].
  - pose proof (ao_data _ _ Ha) as Hd. destruct (ar_data a) as [[b o]|] eqn:Ed; [|lia]. rewrite bind_some. cbn [snd].
    rewrite Hland, (Hal b o eq_refl). cbn. eexists _, _. split; [reflexivity|]. split; [|by apply (Hal b o)].
    by apply (rest_ok a pieces b o slop size Ha Ed ltac:(lia) ltac:(lia)).
  - destruct (fallback_ok a pieces size Ha ltac:(lia)) as (r & a' & E & Ha' & E0). rewrite E. exists r, a'. split; [done|]. split; [done|]. by rewrite <- Hland.
Qed.

(** Requests: a size, and whether the memory must be aligned. *)
Fixpoint allocate (requests : list (bool * Z)) (a : arena) : option (list piece * arena) :=
  match requests with
  | [] => Some ([], a)
  | (aligned, size) :: requests =>
    '(r, a) ← (if aligned : bool then ldb_arena_alloc_aligned a size else ldb_arena_alloc a size);
    '(pieces, a) ← allocate requests a;
    Some ((r, size) :: pieces, a)
  end.

Lemma allocate_ok requests : forall a pieces, arena_ok a pieces -> Forall (fun x => 0 < x.2 < 2 ^ 63) requests ->
  exists rs a', allocate requests a = Some (rs, a') /\ arena_ok a' (rev rs ++ pieces) /\ map snd rs = map snd requests /\
    Forall2 (fun x r => x.1 = true -> r.1.2 mod 8 = 0) requests rs.
Proof.
  induction requests as [|[aligned size] requests IH]; intros a pieces Ha Hr; cbn [allocate]; [by exists [], a|].
  apply List.Forall_cons_iff in Hr as [Hs Hr]. cbn [snd] in Hs.
  assert (exists r a', (if aligned : bool then ldb_arena_alloc_aligned a size else ldb_arena_alloc a size) = Some (r, a') /\
    arena_ok a' ((r, size) :: pieces) /\ (aligned = true -> r.2 mod 8 = 0)) as (r & a' & -> & Ha' & Hal).
  { destruct aligned; [destruct (alloc_aligned_ok a pieces size Ha Hs) as (r & a' & ? & ? & ?); by exists r, a'|].
    destruct (alloc_ok a pieces size Ha ltac:(lia)) as (r & a' & ? & ?). by exists r, a'. }
  rewrite bind_some. destruct (IH a' ((r, size) :: pieces) Ha' Hr) as (rs & a2 & -> & Ha2 & Es & Hf). rewrite bind_some.
  exists ((r, size) :: rs), a2. split; [done|]. split; [cbn [rev]; by rewrite <- app_assoc|]. split; [cbn; by rewrite Es|]. by constructor.
Qed.

(** An arena serves every sequence of requests: the pieces of memory lie in
    its blocks, have the sizes asked for, are disjoint, aligned where that is
    asked for, and the usage is the sum of the sizes of the blocks with a pointer
    for each (as a 64-bit number). *)
Theorem arena_allocations_disjoint requests : Forall (fun x => 0 < x.2 < 2 ^ 63) requests ->
  exists pieces a, allocate requests ldb_arena_init = Some (pieces, a) /\ map snd pieces = map snd requests /\
    Forall (in_block (ar_blocks a)) pieces /\ ForallOrdPairs apart (rev pieces) /\
    Forall2 (fun x r => x.1 = true -> r.1.2 mod 8 = 0) requests pieces /\
    ldb_arena_usage a = u64 (foldr (fun size n => size + 8 + n) 0 (ar_blocks a)).
Proof.
  intros Hr. destruct (allocate_ok requests _ [] arena_init_ok Hr) as (rs & a & E & Ha & Es & Hf). rewrite app_nil_r in Ha.
  exists rs, a. split; [done|]. split; [done|]. split; [|split; [apply Ha|split; [done|apply Ha]]].
  apply List.Forall_forall. intros x Hx. apply (ao_blocks _ _ Ha). by apply list_elem_of_In, in_rev; rewrite rev_involutive.
Qed.

Lemma arena_allocations_disjoint_witness : exists pieces a,
  allocate [(false, 5); (true, 16); (false, 3000); (true, 4090); (false, 1)] ldb_arena_init = Some (pieces, a) /\
  Forall (in_block (ar_blocks a)) pieces.
Proof.
  destruct (arena_allocations_disjoint [(false, 5); (true, 16); (false, 3000); (true, 4090); (false, 1)]) as (pieces & a & E & _ & Hb & _);
    [repeat constructor; lia|]. exists pieces, a. split; [exact E|exact Hb].
Defined.
