(* ===== verification/Skiplist.v ===== *)
(** * The skip list of the memtable

    Models [src/engine/src/skiplist.h] and [skiplist.c].  The nodes are a heap
    (a list indexed by node number; node 0 is [list->head]); a [next] pointer is
    [option nat], [None] for [NULL].  An access outside the heap or outside the
    [next] array of a node, which C does not define, is [None] in the option
    monad, and so is a search that runs out of fuel: the theorems show that
    neither happens.

    Inserting is modelled together with the trace of heap states its stores
    pass through, since readers run concurrently with the (single) writer. *)

From stdpp Require Import sorting.
From S2P Require Import Prelude Coding Comparator Random.
#[local] Open Scope nat_scope.

(** ** Data *)

Definition LDB_MAX_HEIGHT : nat := 12.

(** [ldb_skipnode_t]: [node_key] is the memory the [key] pointer addresses. *)
Record skipnode := Skipnode { node_key : bytes; node_next : list (option nat) }.

(** [ldb_skiplist_t] *)
Record skiplist := Skiplist {
  sl_comparator : comparator;
  sl_nodes : list skipnode;
  sl_max_height : nat;
  sl_rnd : Z
}.

(** ** Nodes *)

Definition ldb_skipnode_next (ns : list skipnode) (node n : nat) : option (option nat) :=
  nd ← ns !! node; node_next nd !! n.

Definition ldb_skipnode_set (ns : list skipnode) (node n : nat) (x : option nat)
    : option (list skipnode) :=
  nd ← ns !! node;
  if bool_decide (n < length (node_next nd)) then
    Some (<[node := Skipnode (node_key nd) (<[n := x]> (node_next nd))]> ns)
  else None.

(** The arena memory of the links of a new node is not initialised. *)
Definition ldb_skipnode_create (ns : list skipnode) (key : bytes) (height : nat)
    : list skipnode * nat :=
  (ns ++ [Skipnode key (replicate height None)], length ns).

(** ** Searching *)

Definition ldb_skiplist_init (cmp : comparator) : skiplist :=
  {| sl_comparator := cmp;
     sl_nodes := [Skipnode [] (replicate LDB_MAX_HEIGHT None)];
     sl_max_height := 1;
     sl_rnd := ldb_rand_init 0xdeadbeef |}.

(** [ldb_slice_decode] asserts that the length prefix is well formed. *)
Definition ldb_skiplist_compare (cmp : comparator) (xp yp : bytes) : option Z :=
  x ← fst (slice_decode xp);
  y ← fst (slice_decode yp);
  Some (ldb_compare cmp x y).

Definition ldb_skiplist_equal (cmp : comparator) (xp yp : bytes) : option bool :=
  r ← ldb_skiplist_compare cmp xp yp; Some (Z.eqb r 0).

Fixpoint randheight_loop (fuel height : nat) (rnd : Z) : nat * Z :=
  match fuel with
  | O => (height, rnd)
  | S fuel =>
    if bool_decide (height < LDB_MAX_HEIGHT) then
      match ldb_rand_one_in rnd 4 with
      | (true, rnd) => randheight_loop fuel (S height) rnd
      | (false, rnd) => (height, rnd)
      end
    else (height, rnd)
  end.

(** The height grows with every turn, so [LDB_MAX_HEIGHT] turns are enough. *)
Definition ldb_skiplist_randheight (rnd : Z) : nat * Z := randheight_loop LDB_MAX_HEIGHT 1 rnd.

Definition ldb_skiplist_key_after_node (l : skiplist) (key : bytes) (node : option nat)
    : option bool :=
  match node with
  | None => Some false
  | Some n =>
    nd ← sl_nodes l !! n;
    r ← ldb_skiplist_compare (sl_comparator l) (node_key nd) key;
    Some (r <? 0)%Z
  end.

(** The loop the three searches share: from node [x], follow [next[level]]
    while [advance next] holds, otherwise record [prev[level] = x] and drop one
    level; the result is the last node, its successor and [prev]. *)
Fixpoint search_loop (fuel : nat) (ns : list skipnode) (advance : option nat -> option bool)
    (level x : nat) (prev : list nat) : option (nat * option nat * list nat) :=
  match fuel with
  | O => None
  | S fuel =>
    next ← ldb_skipnode_next ns x level;
    go ← advance next;
    match (go : bool), next with
    | true, Some y => search_loop fuel ns advance level y prev
    | true, None => None
    | false, _ =>
      let prev := <[level := x]> prev in
      match level with
      | O => Some (x, next, prev)
      | S level => search_loop fuel ns advance level x prev
      end
    end
  end.

(** Every turn advances along the list or drops a level. *)
Definition search_fuel (l : skiplist) : nat := length (sl_nodes l) + LDB_MAX_HEIGHT.

Definition search (l : skiplist) (advance : option nat -> option bool)
    : option (nat * option nat * list nat) :=
  search_loop (search_fuel l) (sl_nodes l) advance (sl_max_height l - 1) 0
    (replicate LDB_MAX_HEIGHT 0).

(** The node found and the array [prev]. *)
Definition ldb_skiplist_find_ge (l : skiplist) (key : bytes) : option (option nat * list nat) :=
  r ← search l (ldb_skiplist_key_after_node l key);
  Some (r.1.2, r.2).

Definition ldb_skiplist_find_lt (l : skiplist) (key : bytes) : option nat :=
  r ← search l (fun next =>
    match next with
    | None => Some false
    | Some n =>
      nd ← sl_nodes l !! n;
      c ← ldb_skiplist_compare (sl_comparator l) (node_key nd) key;
      Some (negb (0 <=? c)%Z)
    end);
  Some r.1.1.

Definition ldb_skiplist_find_last (l : skiplist) : option nat :=
  r ← search l (fun next => Some (bool_decide (next <> None)));
  Some r.1.1.

Definition ldb_skiplist_contains (l : skiplist) (key : bytes) : option bool :=
  r ← ldb_skiplist_find_ge l key;
  match r.1 with
  | None => Some false
  | Some x => nd ← sl_nodes l !! x; ldb_skiplist_equal (sl_comparator l) key (node_key nd)
  end.

(** ** Inserting *)

(** [for (i = ldb_skiplist_maxheight(list); i < height; i++) prev[i] = head]. *)
Fixpoint raise_prev (i n : nat) (prev : list nat) : list nat :=
  match n with O => prev | S n => raise_prev (S i) n (<[i := 0]> prev) end.

Definition with_nodes (l : skiplist) (ns : list skipnode) : skiplist :=
  Skiplist (sl_comparator l) ns (sl_max_height l) (sl_rnd l).

(** The loop that links the node [x] into the levels [i .. i + n); the states
    after each of its stores, the last one first. *)
Fixpoint link_loop (n i x : nat) (prev : list nat) (l : skiplist) (trace : list skiplist)
    : option (skiplist * list skiplist) :=
  match n with
  | O => Some (l, trace)
  | S n =>
    p ← prev !! i;
    next ← ldb_skipnode_next (sl_nodes l) p i;
    ns1 ← ldb_skipnode_set (sl_nodes l) x i next;
    ns2 ← ldb_skipnode_set ns1 p i (Some x);
    link_loop n (S i) x prev (with_nodes l ns2) (with_nodes l ns2 :: with_nodes l ns1 :: trace)
  end.

(** The list afterwards, and the states that readers can see meanwhile.  The
    [assert] that no equal key is present is a hypothesis of the theorems. *)
Definition insert_trace (l : skiplist) (key : bytes) : option (skiplist * list skiplist) :=
  r ← ldb_skiplist_find_ge l key;
  let (height, rnd) := ldb_skiplist_randheight (sl_rnd l) in
  let prev :=
    if bool_decide (sl_max_height l < height)
    then raise_prev (sl_max_height l) (height - sl_max_height l) r.2 else r.2 in
  let l1 := Skiplist (sl_comparator l) (sl_nodes l) (Nat.max (sl_max_height l) height) rnd in
  let (ns, x) := ldb_skipnode_create (sl_nodes l1) key height in
  let l2 := with_nodes l1 ns in
  link_loop height 0 x prev l2 [l2; l1].

Definition ldb_skiplist_insert (l : skiplist) (key : bytes) : option skiplist :=
  fst <$> insert_trace l key.

(** ** Iterators *)

(** [ldb_skipiter_t]: the [node] member; the list is an argument. *)
Definition ldb_skipiter_init : option nat := None.

Definition ldb_skipiter_valid (node : option nat) : bool := bool_decide (node <> None).

Definition ldb_skipiter_key (l : skiplist) (node : option nat) : option bytes :=
  n ← node; nd ← sl_nodes l !! n; Some (node_key nd).

Definition ldb_skipiter_next (l : skiplist) (node : option nat) : option (option nat) :=
  n ← node; ldb_skipnode_next (sl_nodes l) n 0.

Definition head_to_null (n : nat) : option nat := if bool_decide (n = 0) then None else Some n.

Definition ldb_skipiter_prev (l : skiplist) (node : option nat) : option (option nat) :=
  key ← ldb_skipiter_key l node;
  n ← ldb_skiplist_find_lt l key;
  Some (head_to_null n).

Definition ldb_skipiter_seek (l : skiplist) (target : bytes) : option (option nat) :=
  fst <$> ldb_skiplist_find_ge l target.

Definition ldb_skipiter_first (l : skiplist) : option (option nat) :=
  ldb_skipnode_next (sl_nodes l) 0 0.

Definition ldb_skipiter_last (l : skiplist) : option (option nat) :=
  n ← ldb_skiplist_find_last l; Some (head_to_null n).

(** ** Lists of nodes *)

(** The last node of [a], or [p] when there is none. *)
Fixpoint endp (p : nat) (a : list nat) : nat :=
  match a with [] => p | y :: a => endp y a end.

(** From [p], the links at level [l] run through [ids] to [NULL]. *)
Fixpoint chain (ns : list skipnode) (l p : nat) (ids : list nat) : Prop :=
  match ids with
  | [] => ldb_skipnode_next ns p l = Some None
  | y :: ids => ldb_skipnode_next ns p l = Some (Some y) /\ chain ns l y ids
  end.

Lemma endp_app p a b : endp p (a ++ b) = endp (endp p a) b.
Proof. revert p. induction a as [|y a IH]; intros p; [done|]. apply IH. Qed.

Lemma endp_elem p a : endp p a ∈ p :: a.
Proof.
  revert p. induction a as [|y a IH]; intros p; [by left|]. right. apply IH.
Qed.

Lemma chain_app ns l p a b : chain ns l p (a ++ b) -> chain ns l (endp p a) b.
Proof. revert p. induction a as [|y a IH]; intros p; [done|]. intros [_ H]. by apply IH. Qed.

Lemma chain_next ns l p b : chain ns l p b -> ldb_skipnode_next ns p l = Some (head b).
Proof. destruct b; cbn; [done|]. by intros [-> _]. Qed.

(** A list whose links nobody changed. *)
Lemma chain_frame ns ns' l p ids :
  (forall q, q ∈ p :: ids -> ldb_skipnode_next ns' q l = ldb_skipnode_next ns q l) ->
  chain ns l p ids -> chain ns' l p ids.
Proof.
  revert p. induction ids as [|y ids IH]; intros p H; cbn.
  - by rewrite H by left.
  - rewrite H by left. intros [? ?]. split; [done|].
    apply IH; [|done]. intros q Hq. apply H. by right.
Qed.

(** Splicing a node between [a] and [b]. *)
Lemma chain_splice ns ns' l p a x b :
  NoDup (p :: a) -> x ∉ p :: a ->
  (forall q, q ∈ p :: a ++ b -> q <> endp p a ->
     ldb_skipnode_next ns' q l = ldb_skipnode_next ns q l) ->
  (forall q, q ∈ b -> q ∉ p :: a) ->
  ldb_skipnode_next ns' (endp p a) l = Some (Some x) ->
  ldb_skipnode_next ns' x l = Some (head b) ->
  chain ns l p (a ++ b) -> chain ns' l p (a ++ x :: b).
Proof.
  intros Hnd Hx Hf Hb He Hxb. revert p Hnd Hx Hf Hb He. induction a as [|y a IH]; intros p Hnd Hx Hf Hb He.
  - cbn in *. intros Hc. split; [done|].
    assert (forall q, q ∈ b -> ldb_skipnode_next ns' q l = ldb_skipnode_next ns q l) as Hf'.
    { intros q Hq. apply Hf; [by right|]. intros ->. apply (Hb p Hq). by left. }
    destruct b as [|z b]; cbn in *; [done|]. split; [done|]. destruct Hc as [_ Hc].
    by eapply chain_frame.
  - apply list.NoDup_cons in Hnd as [Hp Hnd]. cbn in *. intros [H1 H2]. split.
    + rewrite Hf; [done|by left|]. intros E. apply Hp. rewrite E. apply endp_elem.
    + apply IH; try done.
      * intros ?. apply Hx. by right.
      * intros q Hq. apply Hf. by right.
      * intros q Hq Hin. apply (Hb q Hq). by right.
Qed.

Lemma next_set ns x l v ns' y m :
  ldb_skipnode_set ns x l v = Some ns' ->
  ldb_skipnode_next ns' y m =
    if decide (x = y /\ l = m) then Some v else ldb_skipnode_next ns y m.
Proof.
  unfold ldb_skipnode_set, ldb_skipnode_next.
  destruct (ns !! x) as [nd|] eqn:E; cbn; [|done]. case_bool_decide as Hl; [|done].
  intros [= <-]. pose proof (lookup_lt_Some _ _ _ E) as Hx.
  destruct (decide (x = y)) as [<-|Hne].
  - rewrite list_lookup_insert_eq by done. cbn. rewrite E. cbn. destruct (decide (l = m)) as [<-|Hlm].
    + rewrite list_lookup_insert_eq by done. by rewrite decide_True.
    + rewrite list_lookup_insert_ne by done. rewrite decide_False; [done|]. tauto.
  - rewrite list_lookup_insert_ne by done. rewrite decide_False; [done|]. tauto.
Qed.

Lemma set_some ns x l v w :
  ldb_skipnode_next ns x l = Some w -> is_Some (ldb_skipnode_set ns x l v).
Proof.
  unfold ldb_skipnode_next, ldb_skipnode_set. destruct (ns !! x) as [nd|]; cbn; [|done].
  intros H%lookup_lt_Some. by rewrite bool_decide_eq_true_2.
Qed.

Lemma set_key ns x l v ns' y :
  ldb_skipnode_set ns x l v = Some ns' ->
  node_key <$> ns' !! y = node_key <$> ns !! y.
Proof.
  unfold ldb_skipnode_set. destruct (ns !! x) as [nd|] eqn:E; cbn; [|done].
  case_bool_decide; [|done]. intros [= <-]. destruct (decide (x = y)) as [<-|].
  - rewrite list_lookup_insert_eq by (by eapply lookup_lt_Some). by rewrite E.
  - by rewrite list_lookup_insert_ne.
Qed.

Lemma set_length ns x l v ns' : ldb_skipnode_set ns x l v = Some ns' -> length ns' = length ns.
Proof.
  unfold ldb_skipnode_set. destruct (ns !! x) as [nd|]; cbn; [|done].
  case_bool_decide; [|done]. intros [= <-]. apply length_insert.
Qed.

(** ** Cutting a sorted list of nodes *)

Section Cut.
Context (lt : nat -> bool).

Definition below (ids : list nat) : list nat := List.filter lt ids.
Definition above (ids : list nat) : list nat := List.filter (fun n => negb (lt n)) ids.

(** [lt] holds of an initial part of the list. *)
Definition cuts (ids : list nat) : Prop :=
  StronglySorted (fun a b => lt b = true -> lt a = true) ids.

Lemma below_above_split p s :
  Forall (fun n => lt n = true) p -> Forall (fun n => lt n = false) s ->
  below (p ++ s) = p /\ above (p ++ s) = s.
Proof.
  intros Hp Hs. unfold below, above. rewrite !List.filter_app.
  assert (forall q, Forall (fun n => lt n = true) q ->
    List.filter lt q = q /\ List.filter (fun n => negb (lt n)) q = []) as H1.
  { induction 1 as [|x q E _ [IH1 IH2]]; [done|]. cbn. rewrite E. cbn. by rewrite IH1, IH2. }
  assert (forall q, Forall (fun n => lt n = false) q ->
    List.filter lt q = [] /\ List.filter (fun n => negb (lt n)) q = q) as H2.
  { induction 1 as [|x q E _ [IH1 IH2]]; [done|]. cbn. rewrite E. cbn. by rewrite IH1, IH2. }
  destruct (H1 p Hp) as [-> ->], (H2 s Hs) as [-> ->]. by rewrite app_nil_r.
Qed.

Lemma cuts_above y ids :
  cuts (y :: ids) -> lt y = false -> Forall (fun n => lt n = false) (y :: ids).
Proof.
  intros [_ H]%StronglySorted_inv E. constructor; [done|].
  eapply Forall_impl; [|exact H]. intros z Hz. cbn in Hz. destruct (lt z); [|done].
  rewrite Hz in E; done.
Qed.

Lemma cuts_below a y b :
  cuts (a ++ y :: b) -> lt y = true -> Forall (fun n => lt n = true) a.
Proof.
  intros H E. apply List.Forall_forall. intros z Hz%list_elem_of_In.
  apply (StronglySorted_app_1_elem_of _ _ _ z y H Hz); [by left|done].
Qed.

Lemma cuts_split ids : cuts ids -> ids = below ids ++ above ids.
Proof.
  induction ids as [|y ids IH]; [done|]. intros H. destruct (lt y) eqn:E.
  - unfold below, above. cbn. rewrite E. cbn. f_equal. apply IH.
    by apply StronglySorted_inv in H as [? _].
  - destruct (below_above_split [] (y :: ids) (Forall_nil _) (cuts_above y ids H E)) as [E1 E2].
    cbn [app] in *. by rewrite E1, E2.
Qed.

Lemma Forall_below ids : Forall (fun n => lt n = true) (below ids).
Proof. apply List.Forall_forall. intros x. by intros [_ ?]%filter_In. Qed.

Lemma Forall_above ids : Forall (fun n => lt n = false) (above ids).
Proof.
  apply List.Forall_forall. intros x [_ H]%filter_In. by destruct (lt x).
Qed.

Lemma below_sublist a b : sublist a b -> sublist (below a) (below b).
Proof.
  unfold below. induction 1; cbn; [done|..]; destruct (lt x);
    try done; by constructor.
Qed.

Lemma above_sublist a b : sublist a b -> sublist (above a) (above b).
Proof.
  unfold above. induction 1; cbn; [done|..]; destruct (lt x); cbn;
    try done; by constructor.
Qed.
End Cut.

Lemma StronglySorted_sublist {A} (R : A -> A -> Prop) a b :
  sublist a b -> StronglySorted R b -> StronglySorted R a.
Proof.
  induction 1 as [|x a b Hs IH|x a b Hs IH]; [done|..]; intros [H1 H2]%StronglySorted_inv.
  - constructor; [by apply IH|]. apply List.Forall_forall. intros y Hy%list_elem_of_In.
    rewrite List.Forall_forall in H2. apply H2, list_elem_of_In. by eapply elem_of_sublist.
  - by apply IH.
Qed.

Lemma app_cons_NoDup_inj {A} (x : A) a b c d :
  NoDup (a ++ x :: b) -> a ++ x :: b = c ++ x :: d -> a = c /\ b = d.
Proof.
  revert c. induction a as [|y a IH]; intros [|z c] Hnd; cbn [app]; intros E;
    injection E; clear E; intros; subst.
  - done.
  - apply list.NoDup_cons in Hnd as [Hn _]. exfalso. apply Hn, elem_of_app. right. by left.
  - apply list.NoDup_cons in Hnd as [Hn _]. exfalso. apply Hn, elem_of_app. right. by left.
  - apply list.NoDup_cons in Hnd as [_ Hnd]. by destruct (IH c Hnd ltac:(done)) as [-> ->].
Qed.

(** ** The representation *)

(** The key in an entry, and the order of entries. *)
Definition ekey (e : bytes) : bytes := default [] (fst (slice_decode e)).
Definition ecmp (cmp : comparator) (a b : bytes) : Z := ldb_compare cmp (ekey a) (ekey b).
Definition entry_ok (dom : bytes -> Prop) (e : bytes) : Prop :=
  exists k, fst (slice_decode e) = Some k /\ dom k.

Definition ent (ns : list skipnode) (n : nat) : bytes := from_option node_key [] (ns !! n).

(** The list [l] holds, at each level [i], the nodes [lv i]: linked from the
    head, each level a part of the one below, sorted at level 0.  This is what
    a reader needs; it holds after every single store of an insertion. *)
Record skip_rep (dom : bytes -> Prop) (l : skiplist) (lv : nat -> list nat) : Prop := {
  rep_height : 1 <= sl_max_height l <= LDB_MAX_HEIGHT;
  rep_chain i : i < LDB_MAX_HEIGHT -> chain (sl_nodes l) i 0 (lv i);
  rep_nested i : sublist (lv (S i)) (lv i);
  rep_empty i : sl_max_height l <= i -> lv i = [];
  rep_nodup : NoDup (0 :: lv 0);
  rep_entries n : n ∈ lv 0 -> n < length (sl_nodes l) /\ entry_ok dom (ent (sl_nodes l) n);
  rep_sorted : StronglySorted (fun a b =>
    (ecmp (sl_comparator l) (ent (sl_nodes l) a) (ent (sl_nodes l) b) < 0)%Z) (lv 0);
  rep_rnd : seed_ok (sl_rnd l)
}.

(** The entries of the list, in order. *)
Definition entries (l : skiplist) (lv : nat -> list nat) : list bytes :=
  map (ent (sl_nodes l)) (lv 0).

Lemma compare_entries dom cmp a b :
  entry_ok dom a -> entry_ok dom b -> ldb_skiplist_compare cmp a b = Some (ecmp cmp a b).
Proof.
  intros (x & Ex & _) (y & Ey & _). unfold ldb_skiplist_compare, ecmp, ekey.
  by rewrite Ex, Ey.
Qed.

Lemma entry_ok_dom dom e : entry_ok dom e -> dom (ekey e).
Proof. intros (k & E & H). unfold ekey. by rewrite E. Qed.

Lemma nested_le dom l lv i j : skip_rep dom l lv -> i <= j -> sublist (lv j) (lv i).
Proof.
  intros R. induction 1 as [|j _ IH]; [done|]. transitivity (lv j); [by apply (rep_nested _ _ _ R)|done].
Qed.

(** ** Searching *)

Section Search.
Context (dom : bytes -> Prop) (l : skiplist) (lv : nat -> list nat) (R : skip_rep dom l lv).
Context (lt : nat -> bool) (advance : option nat -> option bool).
Hypothesis Hcuts : cuts lt (lv 0).
Hypothesis advance_none : advance None = Some false.
Hypothesis advance_some : forall n, n ∈ lv 0 -> advance (Some n) = Some (lt n).

(** [x] is the last node of both prefixes, or both are empty. *)
Definition anchored (x : nat) (Pi P : list nat) : Prop :=
  (x = 0 /\ Pi = [] /\ P = []) \/ exists Pi' P', Pi = Pi' ++ [x] /\ P = P' ++ [x].

Lemma anchored_endp x Pi P : anchored x Pi P -> endp 0 Pi = x.
Proof. intros [(-> & -> & ->)|(Pi' & P' & -> & ->)]; [done|]. by rewrite endp_app. Qed.

(** Dropping one level. *)
Lemma anchored_down i x Pi Ri P S0 :
  lv (S i) = Pi ++ Ri -> lv 0 = P ++ S0 -> anchored x Pi P ->
  exists Pj Rj, lv i = Pj ++ Rj /\ anchored x Pj P /\ sublist Pj P /\ sublist Rj S0.
Proof.
  intros Ei E0 HA. pose proof (nested_le dom l lv 0 i R ltac:(lia)) as Hs.
  destruct HA as [(-> & -> & ->)|(Pi' & P' & -> & ->)].
  - rewrite E0 in Hs. exists [], (lv i). split; [done|]. split; [by left|]. split; [done|exact Hs].
  - assert (x ∈ lv i) as Hin.
    { eapply elem_of_sublist; [|apply (rep_nested _ _ _ R)]. rewrite Ei, !elem_of_app. left. right. by left. }
    apply list_elem_of_split in Hin as (A & B & EA).
    pose proof (rep_nodup _ _ _ R) as Hnd. apply list.NoDup_cons in Hnd as [_ Hnd].
    rewrite EA, E0, <- app_assoc in Hs. rewrite E0, <- app_assoc in Hnd. cbn [app] in *.
    apply sublist_app_cons_l in Hs as (k1 & k2 & Ek & H1 & H2).
    destruct (app_cons_NoDup_inj _ _ _ _ _ Hnd Ek) as [-> ->].
    exists (A ++ [x]), B. rewrite <- app_assoc. split; [done|]. split; [right; eauto|].
    split; [by apply sublist_app|done].
Qed.

(** What a finished search says about level [i]. *)
Definition prev_ok (prev : list nat) (i : nat) : Prop :=
  prev !! i = Some (endp 0 (below lt (lv i))).

Lemma Forall_sublist {A} (P : A -> Prop) a b : sublist a b -> Forall P b -> Forall P a.
Proof.
  induction 1; intros H'; [done|..]; inversion H'; subst; [constructor|]; auto.
Qed.

Lemma search_loop_spec fuel level x prev Pi Ri P S0 :
  level < LDB_MAX_HEIGHT -> length prev = LDB_MAX_HEIGHT ->
  lv level = Pi ++ Ri -> lv 0 = P ++ S0 -> anchored x Pi P ->
  sublist Pi P -> sublist Ri S0 -> Forall (fun n => lt n = true) P ->
  length S0 + level < fuel ->
  exists prev',
    search_loop fuel (sl_nodes l) advance level x prev =
      Some (endp 0 (below lt (lv 0)), head (above lt (lv 0)), prev') /\
    length prev' = LDB_MAX_HEIGHT /\
    (forall i, level < i -> prev' !! i = prev !! i) /\
    (forall i, i <= level -> prev_ok prev' i).
Proof.
  revert level x prev Pi Ri P S0. induction fuel as [|fuel IH]; intros level x prev Pi Ri P S0
    Hl Hp Ei E0 HA Hs1 Hs2 HP Hfuel; [lia|]. cbn [search_loop].
  assert (ldb_skipnode_next (sl_nodes l) x level = Some (head Ri)) as ->.
  { rewrite <- (anchored_endp x Pi P HA). apply chain_next, chain_app.
    rewrite <- Ei. by apply (rep_chain _ _ _ R). }
  assert (Forall (fun n => n ∈ lv 0) Ri) as HRi.
  { apply List.Forall_forall. intros y Hy%list_elem_of_In. rewrite E0, elem_of_app. right.
    by eapply elem_of_sublist. }
  assert (cuts lt (Pi ++ Ri)) as Hc.
  { rewrite <- Ei. eapply StronglySorted_sublist; [by apply (nested_le dom l lv 0 level R); lia|done]. }
  cbn [mbind option_bind].
  (* stopping at this level *)
  assert (forall next, next = head Ri -> Forall (fun n => lt n = false) Ri ->
    exists prev',
      (let prev := <[level := x]> prev in
       match level with
       | O => Some (x, next, prev)
       | S level => search_loop fuel (sl_nodes l) advance level x prev
       end) = Some (endp 0 (below lt (lv 0)), head (above lt (lv 0)), prev') /\
      length prev' = LDB_MAX_HEIGHT /\
      (forall i, level < i -> prev' !! i = prev !! i) /\
      (forall i, i <= level -> prev_ok prev' i)) as Hstop.
  { intros next -> Hf. cbv zeta.
    destruct (below_above_split lt Pi Ri (Forall_sublist _ _ _ Hs1 HP) Hf) as [Eb Ea].
    rewrite <- Ei in Eb, Ea.
    assert (prev_ok (<[level := x]> prev) level) as Hpo.
    { unfold prev_ok. rewrite list_lookup_insert_eq by lia. rewrite Eb.
      by rewrite (anchored_endp x Pi P HA). }
    destruct level as [|i].
    - eexists. split; [|split; [|split]].
      + rewrite Eb, Ea, (anchored_endp x Pi P HA). reflexivity.
      + by rewrite length_insert.
      + intros i Hi. by rewrite list_lookup_insert_ne by lia.
      + intros i Hi. replace i with 0 by lia. exact Hpo.
    - destruct (anchored_down i x Pi Ri P S0 Ei E0 HA) as (Pj & Rj & Ej & HAj & HPj & HRj).
      destruct (IH i x (<[S i := x]> prev) Pj Rj P S0) as (prev' & E & H1 & H2 & H3);
        try done; [lia|by rewrite length_insert|lia|].
      exists prev'. split; [exact E|]. split; [done|]. split.
      + intros j Hj. rewrite H2 by lia. by rewrite list_lookup_insert_ne by lia.
      + intros j Hj. destruct (decide (j = S i)) as [->|]; [|apply H3; lia].
        unfold prev_ok. rewrite H2 by lia. exact Hpo. }
  destruct Ri as [|y Ri]; cbn [head].
  { rewrite advance_none. cbn. by apply Hstop. }
  apply List.Forall_cons_iff in HRi as [Hy HRi].
  rewrite advance_some by done. cbn.
  destruct (lt y) eqn:Ey.
  - apply sublist_cons_l in Hs2 as (S1 & S2 & -> & Hs2).
    apply (IH level y prev (Pi ++ [y]) Ri (P ++ S1 ++ [y]) S2); try done.
    + by rewrite <- app_assoc.
    + by rewrite <- !app_assoc.
    + right. exists Pi, (P ++ S1). by rewrite app_assoc.
    + apply sublist_app; [done|]. by apply sublist_inserts_l.
    + rewrite app_assoc. apply List.Forall_app. split; [|by constructor].
      rewrite E0, app_assoc in Hcuts. by eapply cuts_below.
    + rewrite length_app in Hfuel. cbn in Hfuel. lia.
  - apply Hstop; [done|]. apply cuts_above; [|done].
    by apply (StronglySorted_app_1_r _ Pi).
Qed.

Lemma search_spec :
  exists prev,
    search l advance = Some (endp 0 (below lt (lv 0)), head (above lt (lv 0)), prev) /\
    length prev = LDB_MAX_HEIGHT /\
    (forall i, i < sl_max_height l -> prev_ok prev i).
Proof.
  pose proof (rep_height _ _ _ R) as Hh. unfold search.
  assert (length (lv 0) <= length (sl_nodes l)) as Hlen.
  { rewrite <- (length_seq (length (sl_nodes l)) 0). apply NoDup_incl_length.
    - apply NoDup_ListNoDup. pose proof (rep_nodup _ _ _ R) as H. by apply list.NoDup_cons in H as [_ ?].
    - intros n Hn%list_elem_of_In. apply (rep_entries _ _ _ R) in Hn as [? _]. apply in_seq. lia. }
  destruct (search_loop_spec (search_fuel l) (sl_max_height l - 1) 0 (replicate LDB_MAX_HEIGHT 0)
    [] (lv (sl_max_height l - 1)) [] (lv 0)) as (prev & E & H1 & _ & H2); try done.
  - lia.
  - by left.
  - by apply (nested_le dom l lv 0 _ R); lia.
  - unfold search_fuel. unfold LDB_MAX_HEIGHT in *. lia.
  - exists prev. split; [exact E|]. split; [done|]. intros i Hi. apply H2. lia.
Qed.
End Search.

Section Ordered.
Context (dom : bytes -> Prop) (l : skiplist) `{!ComparatorLaws dom (sl_comparator l)}.
Context (lv : nat -> list nat) (R : skip_rep dom l lv).

Abbreviation cmp := (sl_comparator l).
Abbreviation ns := (sl_nodes l).

(** The nodes whose keys are below [key]. *)
Definition key_lt (key : bytes) (n : nat) : bool := (ecmp cmp (ent ns n) key <? 0)%Z.

Lemma key_lt_cuts key : entry_ok dom key -> cuts (key_lt key) (lv 0).
Proof.
  intros Hk. pose proof (rep_sorted _ _ _ R) as Hs. pose proof (rep_entries _ _ _ R) as He.
  unfold cuts. induction Hs as [|a ids Hs IH Hall]; [constructor|].
  constructor; [apply IH; intros n Hn; apply He; by right|].
  apply List.Forall_forall. intros b Hb%list_elem_of_In. unfold key_lt. rewrite !Z.ltb_lt.
  rewrite List.Forall_forall in Hall. pose proof (Hall b (proj1 (list_elem_of_In _ _) Hb)) as Hab.
  destruct (He a ltac:(by left)) as [_ Ha%entry_ok_dom].
  destruct (He b ltac:(by right)) as [_ Hb'%entry_ok_dom].
  apply entry_ok_dom in Hk. unfold ecmp in *. by apply (compare_lt_trans dom cmp).
Qed.

Lemma lookup_ent n : n < length ns -> exists nd, ns !! n = Some nd /\ node_key nd = ent ns n.
Proof.
  intros H. destruct (lookup_lt_is_Some_2 ns n H) as [nd E]. exists nd. unfold ent. by rewrite E.
Qed.

Lemma key_after_node_spec key n :
  entry_ok dom key -> n ∈ lv 0 -> ldb_skiplist_key_after_node l key (Some n) = Some (key_lt key n).
Proof.
  intros Hk Hn. apply (rep_entries _ _ _ R) in Hn as [Hl He]. cbn.
  destruct (lookup_ent n Hl) as (nd & -> & E). cbn. rewrite E.
  by rewrite (compare_entries dom) by done.
Qed.

(** [find_ge]: the first node not below the key; [prev] holds the last node
    below it on every level. *)
Lemma find_ge_spec key :
  entry_ok dom key ->
  exists prev,
    ldb_skiplist_find_ge l key = Some (head (above (key_lt key) (lv 0)), prev) /\
    length prev = LDB_MAX_HEIGHT /\
    (forall i, i < sl_max_height l -> prev !! i = Some (endp 0 (below (key_lt key) (lv i)))).
Proof.
  intros Hk. destruct (search_spec dom l lv R (key_lt key) (ldb_skiplist_key_after_node l key))
    as (prev & E & H1 & H2).
  - by apply key_lt_cuts.
  - done.
  - intros n Hn. by apply key_after_node_spec.
  - exists prev. unfold ldb_skiplist_find_ge. by rewrite E.
Qed.

(** [find_lt]: the last node below the key, or the head. *)
Lemma find_lt_spec key :
  entry_ok dom key ->
  ldb_skiplist_find_lt l key = Some (endp 0 (below (key_lt key) (lv 0))).
Proof.
  intros Hk. unfold ldb_skiplist_find_lt.
  match goal with |- context [search l ?f] =>
    destruct (search_spec dom l lv R (key_lt key) f) as (prev & E & _) end.
  - by apply key_lt_cuts.
  - done.
  - intros n Hn. apply (rep_entries _ _ _ R) in Hn as [Hl He].
    destruct (lookup_ent n Hl) as (nd & -> & E). cbn. rewrite E.
    rewrite (compare_entries dom) by done. cbn. f_equal. unfold key_lt.
    by rewrite Z.leb_antisym, negb_involutive.
  - by rewrite E.
Qed.

(** [find_last]: the last node, or the head. *)
Lemma find_last_spec : ldb_skiplist_find_last l = Some (endp 0 (lv 0)).
Proof.
  unfold ldb_skiplist_find_last.
  match goal with |- context [search l ?f] =>
    destruct (search_spec dom l lv R (fun _ => true) f) as (prev & E & _) end.
  - unfold cuts. generalize (lv 0). intros ids.
    induction ids as [|x ids IH]; constructor; [done|]. by apply List.Forall_forall.
  - done.
  - done.
  - rewrite E. unfold below. by rewrite filter_true.
Qed.
End Ordered.

(** ** Inserting *)

Lemma randheight_loop_spec fuel h rnd :
  1 <= h <= LDB_MAX_HEIGHT -> seed_ok rnd ->
  1 <= (randheight_loop fuel h rnd).1 <= LDB_MAX_HEIGHT /\
  seed_ok (randheight_loop fuel h rnd).2.
Proof.
  revert h rnd. induction fuel as [|fuel IH]; intros h rnd Hh Hr; cbn [randheight_loop]; [done|].
  case_bool_decide; [|done]. pose proof (rand_one_in_ok rnd 4 Hr) as Hok.
  destruct (ldb_rand_one_in rnd 4) as [[] rnd']; cbn [fst snd] in *; [|done]. apply IH; [lia|done].
Qed.

Lemma raise_prev_spec n i prev j :
  i + n <= length prev ->
  length (raise_prev i n prev) = length prev /\
  raise_prev i n prev !! j =
    if decide (i <= j < i + n) then Some 0 else prev !! j.
Proof.
  revert i prev. induction n as [|n IH]; intros i prev Hn; cbn.
  { split; [done|]. rewrite decide_False; [done|lia]. }
  destruct (IH (S i) (<[i := 0]> prev)) as [H1 H2]; [rewrite length_insert; lia|].
  rewrite length_insert in H1. split; [done|]. rewrite H2.
  destruct (decide (S i <= j < S i + n)), (decide (i <= j < i + S n)); try done; try lia.
  - replace j with i by lia. apply list_lookup_insert_eq. lia.
  - apply list_lookup_insert_ne. lia.
Qed.

Section Insert.
Context (dom : bytes -> Prop) (l0 : skiplist) `{!ComparatorLaws dom (sl_comparator l0)}.
Context (lv : nat -> list nat) (R : skip_rep dom l0 lv).
Context (key : bytes) (Hkey : entry_ok dom key).
Hypothesis Hnew : forall n, n ∈ lv 0 -> ecmp (sl_comparator l0) (ent (sl_nodes l0) n) key <> 0%Z.
Context (height : nat) (Hheight : 1 <= height <= LDB_MAX_HEIGHT) (rnd : Z) (Hrnd : seed_ok rnd).

Abbreviation cmp0 := (sl_comparator l0).
Abbreviation x := (length (sl_nodes l0)).
Abbreviation lo i := (below (key_lt l0 key) (lv i)).
Abbreviation hi i := (above (key_lt l0 key) (lv i)).
Abbreviation maxh := (Nat.max (sl_max_height l0) height).

(** The levels once the node is linked into the lowest [k] of them. *)
Definition lvk (k i : nat) : list nat :=
  if bool_decide (i < k) then lo i ++ x :: hi i else lv i.

(** The keys of the nodes with the new one. *)
Definition ent' (n : nat) : bytes := if bool_decide (n = x) then key else ent (sl_nodes l0) n.

Lemma lv_cuts i : cuts (key_lt l0 key) (lv i).
Proof.
  eapply StronglySorted_sublist; [apply (nested_le dom l0 lv 0 i R); lia|].
  by apply (key_lt_cuts dom).
Qed.

Lemma lv_split i : lv i = lo i ++ hi i.
Proof. apply cuts_split, lv_cuts. Qed.

Lemma elem_lv i n : n ∈ lv i <-> n ∈ lo i \/ n ∈ hi i.
Proof. rewrite (lv_split i) at 1. apply elem_of_app. Qed.

Lemma lv_elem i n : n ∈ lv i -> n <> 0 /\ n < x /\ entry_ok dom (ent (sl_nodes l0) n).
Proof.
  intros Hn. assert (n ∈ lv 0) as H0
    by (eapply elem_of_sublist; [done|apply (nested_le dom l0 lv 0 i R); lia]).
  split; [|by apply (rep_entries _ _ _ R)]. intros ->.
  pose proof (rep_nodup _ _ _ R) as H. by apply list.NoDup_cons in H as [? _].
Qed.

Lemma x_pos : x <> 0.
Proof.
  pose proof (rep_chain _ _ _ R 0 ltac:(unfold LDB_MAX_HEIGHT; lia)) as H%chain_next.
  unfold ldb_skipnode_next in H. by destruct (sl_nodes l0).
Qed.

Lemma lvk_elem k i n : n ∈ lvk k i -> n = x \/ n ∈ lv i.
Proof.
  unfold lvk. case_bool_decide; [|by right].
  rewrite elem_of_app, elem_of_cons, elem_lv. tauto.
Qed.

Lemma lvk_nested k i : sublist (lvk k (S i)) (lvk k i).
Proof.
  pose proof (rep_nested _ _ _ R i) as Hs. unfold lvk.
  destruct (decide (S i < k)); [rewrite !bool_decide_eq_true_2 by lia|].
  - apply sublist_app; [by apply below_sublist|]. constructor. by apply above_sublist.
  - rewrite (bool_decide_eq_false_2 (S i < k)) by done. case_bool_decide; [|done].
    etrans; [exact Hs|]. rewrite (lv_split i) at 1. apply sublist_app; [done|]. by constructor.
Qed.

Lemma lvk_empty k i : k <= height -> maxh <= i -> lvk k i = [].
Proof.
  intros Hk Hi. unfold lvk. rewrite bool_decide_eq_false_2 by lia.
  apply (rep_empty _ _ _ R). lia.
Qed.

Lemma lvk_nodup k : NoDup (0 :: lvk k 0).
Proof.
  pose proof (rep_nodup _ _ _ R) as [H0 Hnd]%list.NoDup_cons. apply list.NoDup_cons. split.
  - intros [E|E]%lvk_elem; [by apply x_pos|done].
  - unfold lvk. case_bool_decide; [|done].
    assert (NoDup (lo 0 ++ hi 0)) as Hnd' by by rewrite <- lv_split.
    clear Hnd. rename Hnd' into Hnd. rewrite list.NoDup_app in Hnd |- *.
    destruct Hnd as (H1 & H2 & H3).
    assert (forall n, n ∈ lv 0 -> n <> x) as Hx by (intros n Hn%lv_elem; lia).
    setoid_rewrite elem_lv in Hx.
    split; [done|]. split.
    + intros n Hn [E|E]%elem_of_cons; [apply (Hx n); tauto|by apply (H2 n)].
    + apply list.NoDup_cons. split; [|done]. intros E. apply (Hx x); tauto.
Qed.

Lemma ent'_old n : n ∈ lv 0 -> ent' n = ent (sl_nodes l0) n.
Proof. intros Hn%lv_elem. unfold ent'. rewrite bool_decide_eq_false_2 by lia. done. Qed.

Lemma ent'_x : ent' x = key.
Proof. unfold ent'. by rewrite bool_decide_eq_true_2. Qed.

Lemma lvk_entries k n : n ∈ lvk k 0 -> n < S x /\ entry_ok dom (ent' n).
Proof.
  intros [->|Hn]%lvk_elem; [rewrite ent'_x; split; [lia|done]|].
  rewrite ent'_old by done. destruct (lv_elem 0 n Hn) as (_ & ? & ?). split; [lia|done].
Qed.

Lemma lvk_sorted k : StronglySorted (fun a b => (ecmp cmp0 (ent' a) (ent' b) < 0)%Z) (lvk k 0).
Proof.
  assert (StronglySorted (fun a b => (ecmp cmp0 (ent' a) (ent' b) < 0)%Z) (lv 0)) as Hs.
  { pose proof (rep_sorted _ _ _ R) as Hs. assert (forall n, n ∈ lv 0 -> n ∈ lv 0) as Hin by done.
    revert Hin Hs. generalize (lv 0) at 1 3 4. induction l as [|a l IH]; intros Hin; [intros _; constructor|].
    intros [H1 H2]%StronglySorted_inv. constructor; [apply IH; [|done]; intros; apply Hin; by right|].
    apply List.Forall_forall. intros b Hb%list_elem_of_In.
    rewrite !ent'_old by (apply Hin; (by left) || by right).
    rewrite List.Forall_forall in H2. by apply H2, list_elem_of_In. }
  unfold lvk. case_bool_decide; [|done].
  assert (Hs' := Hs). revert Hs'. rewrite (lv_split 0) at 1.
  intros (H1 & H2 & H3)%StronglySorted_app.
  assert (forall n, n ∈ lo 0 -> (ecmp cmp0 (ent' n) key < 0)%Z) as Hlo.
  { intros n Hn. pose proof (Forall_below (key_lt l0 key) (lv 0)) as Hf.
    rewrite List.Forall_forall in Hf. specialize (Hf n (proj1 (list_elem_of_In _ _) Hn)).
    rewrite ent'_old by (rewrite elem_lv; tauto).
    unfold key_lt in Hf. by apply Z.ltb_lt in Hf. }
  assert (forall n, n ∈ hi 0 -> (ecmp cmp0 key (ent' n) < 0)%Z) as Hhi.
  { intros n Hn. pose proof (Forall_above (key_lt l0 key) (lv 0)) as Hf.
    assert (n ∈ lv 0) as Hin by (rewrite elem_lv; tauto).
    rewrite List.Forall_forall in Hf. specialize (Hf n (proj1 (list_elem_of_In _ _) Hn)).
    rewrite ent'_old by done. unfold key_lt in Hf. apply Z.ltb_ge in Hf.
    pose proof (Hnew n Hin). destruct (lv_elem 0 n Hin) as (_ & _ & Hd%entry_ok_dom).
    unfold ecmp in *. apply (compare_lt_flip dom cmp0); [by apply entry_ok_dom|done|lia]. }
  apply StronglySorted_app_2; [|done|].
  - intros a b Ha [->|Hb]%elem_of_cons; [rewrite ent'_x; by apply Hlo|by apply H1].
  - constructor; [done|]. apply List.Forall_forall. intros b Hb%list_elem_of_In.
    rewrite ent'_x. by apply Hhi.
Qed.

(** The state when the lowest [k] levels are linked. *)
Record linked (k : nat) (l : skiplist) : Prop := {
  lk_cmp : sl_comparator l = cmp0;
  lk_max : sl_max_height l = maxh;
  lk_rnd : sl_rnd l = rnd;
  lk_len : length (sl_nodes l) = S x;
  lk_ent n : ent (sl_nodes l) n = ent' n;
  lk_chain i : i < LDB_MAX_HEIGHT -> chain (sl_nodes l) i 0 (lvk k i);
  lk_x i : i < height -> is_Some (ldb_skipnode_next (sl_nodes l) x i)
}.

Lemma linked_rep k l : k <= height -> linked k l -> skip_rep dom l (lvk k).
Proof.
  intros Hk L. pose proof (rep_height _ _ _ R). split.
  - rewrite (lk_max _ _ L). lia.
  - apply (lk_chain _ _ L).
  - intros i. apply lvk_nested.
  - rewrite (lk_max _ _ L). intros i. by apply lvk_empty.
  - apply lvk_nodup.
  - intros n Hn. rewrite (lk_len _ _ L), (lk_ent _ _ L). by apply (lvk_entries k).
  - rewrite <- (list_fmap_id (lvk k 0)). eapply StronglySorted_fmap; [|apply (lvk_sorted k)].
    intros a b. by rewrite (lk_cmp _ _ L), !(lk_ent _ _ L).
  - by rewrite (lk_rnd _ _ L).
Qed.

Lemma set_ent ns' a b v ns'' n :
  ldb_skipnode_set ns' a b v = Some ns'' -> ent ns'' n = ent ns' n.
Proof.
  intros H%(fun H => set_key _ _ _ _ _ n H). unfold ent.
  destruct (ns'' !! n), (ns' !! n); cbn in *; congruence.
Qed.

Lemma with_nodes_linked k k' l ns' p i v :
  linked k l -> ldb_skipnode_set (sl_nodes l) p i v = Some ns' ->
  (forall j, j < LDB_MAX_HEIGHT -> chain ns' j 0 (lvk k' j)) -> linked k' (with_nodes l ns').
Proof.
  intros L E Hc. split; try apply L; cbn [with_nodes sl_nodes].
  - rewrite (set_length _ _ _ _ _ E). apply (lk_len _ _ L).
  - intros n. rewrite (set_ent _ _ _ _ _ n E). apply (lk_ent _ _ L).
  - exact Hc.
  - intros j Hj. rewrite (next_set _ _ _ _ _ x j E). case_decide; [done|].
    by apply (lk_x _ _ L).
Qed.

Lemma lvk_high k i : k <= i -> lvk k i = lv i.
Proof. intros H. unfold lvk. by rewrite bool_decide_eq_false_2 by lia. Qed.

Lemma lvk_step k i : i <> k -> lvk (S k) i = lvk k i.
Proof.
  intros H. unfold lvk.
  destruct (decide (i < k)); [by rewrite !bool_decide_eq_true_2 by lia|].
  by rewrite !bool_decide_eq_false_2 by lia.
Qed.

(** One turn of the linking loop: both stores leave a readable list. *)
Lemma link_step i l :
  i < height -> linked i l ->
  exists ns1 ns2,
    ldb_skipnode_next (sl_nodes l) (endp 0 (lo i)) i = Some (head (hi i)) /\
    ldb_skipnode_set (sl_nodes l) x i (head (hi i)) = Some ns1 /\
    ldb_skipnode_set ns1 (endp 0 (lo i)) i (Some x) = Some ns2 /\
    linked i (with_nodes l ns1) /\ linked (S i) (with_nodes l ns2).
Proof.
  intros Hi L. pose proof (lk_chain _ _ L i ltac:(lia)) as Hc.
  rewrite lvk_high in Hc by lia.
  assert (chain (sl_nodes l) i 0 (lo i ++ hi i)) as Hc' by by rewrite <- lv_split.
  pose proof (chain_next _ _ _ _ (chain_app _ _ _ _ _ Hc')) as Hn.
  destruct (lk_x _ _ L i Hi) as [w Hw].
  destruct (set_some _ _ _ (head (hi i)) _ Hw) as [ns1 E1].
  assert (forall n, n ∈ 0 :: lv i -> n <> x) as Hne.
  { intros n [->|Hn']%elem_of_cons; [pose proof x_pos; lia|]. apply lv_elem in Hn'. lia. }
  assert (endp 0 (lo i) ∈ 0 :: lv i) as Hend.
  { pose proof (endp_elem 0 (lo i)) as He. rewrite !elem_of_cons in *. rewrite elem_lv. tauto. }
  assert (linked i (with_nodes l ns1)) as L1.
  { eapply with_nodes_linked; [done..|]. intros j Hj.
    destruct (decide (i = j)) as [<-|Hij].
    - rewrite lvk_high by lia. eapply chain_frame; [|exact Hc]. intros q Hq.
      rewrite (next_set _ _ _ _ _ q i E1), decide_False; [done|].
      intros [<- _]. by apply (Hne x Hq).
    - eapply chain_frame; [|by apply (lk_chain _ _ L)]. intros q _.
      rewrite (next_set _ _ _ _ _ q j E1), decide_False; [done|]. tauto. }
  assert (ldb_skipnode_next ns1 (endp 0 (lo i)) i = Some (head (hi i))) as Hn1.
  { rewrite (next_set _ _ _ _ _ _ i E1), decide_False; [done|].
    intros [E _]. by apply (Hne _ Hend). }
  destruct (set_some _ _ _ (Some x) _ Hn1) as [ns2 E2].
  exists ns1, ns2. do 4 (split; [done|]).
  change (with_nodes l ns2) with (with_nodes (with_nodes l ns1) ns2).
  eapply with_nodes_linked; [exact L1|exact E2|]. intros j Hj.
  destruct (decide (i = j)) as [<-|Hij].
  - unfold lvk. rewrite bool_decide_eq_true_2 by lia.
    pose proof (lk_chain _ _ L1 i ltac:(lia)) as Hc1. rewrite lvk_high in Hc1 by lia.
    cbn [with_nodes sl_nodes] in Hc1.
    assert (NoDup (0 :: lo i ++ hi i)) as Hnd.
    { rewrite <- lv_split. eapply sublist_NoDup; [apply (rep_nodup _ _ _ R)|].
      constructor. apply (nested_le dom l0 lv 0 i R). lia. }
    assert (NoDup ((0 :: lo i) ++ hi i)) as (Hnd1 & Hnd2 & _)%list.NoDup_app by exact Hnd.
    apply (chain_splice ns1).
    + done.
    + rewrite elem_of_cons. intros Hx. apply (Hne x); [|done].
      rewrite elem_of_cons, elem_lv. tauto.
    + intros q _ Hq. rewrite (next_set _ _ _ _ _ q i E2), decide_False; [done|].
      intros [? _]. congruence.
    + intros q Hq Hq'. by apply (Hnd2 q).
    + rewrite (next_set _ _ _ _ _ _ i E2), decide_True; done.
    + rewrite (next_set _ _ _ _ _ _ i E2), decide_False.
      * rewrite (next_set _ _ _ _ _ _ i E1), decide_True; done.
      * intros [E _]. by apply (Hne _ Hend).
    + by rewrite <- lv_split.
  - rewrite lvk_step by done. eapply chain_frame; [|by apply (lk_chain _ _ L1)].
    intros q _. cbn [with_nodes sl_nodes]. rewrite (next_set _ _ _ _ _ q j E2), decide_False; [done|].
    tauto.
Qed.

Lemma link_loop_spec n i l prev trace :
  i + n = height -> linked i l ->
  (forall j, j < height -> prev !! j = Some (endp 0 (lo j))) ->
  exists l' new,
    link_loop n i x prev l trace = Some (l', new ++ trace) /\ linked height l' /\
    Forall (fun s => exists k, k <= height /\ linked k s) new.
Proof.
  revert i l trace. induction n as [|n IH]; intros i l trace Hn L Hprev.
  { exists l, []. split; [done|]. split; [|constructor]. by replace height with i by lia. }
  destruct (link_step i l ltac:(lia) L) as (ns1 & ns2 & E0 & E1 & E2 & L1 & L2).
  cbn [link_loop]. rewrite (Hprev i) by lia. cbn [mbind option_bind].
  rewrite E0. cbn [mbind option_bind]. rewrite E1. cbn [mbind option_bind]. rewrite E2.
  cbn [mbind option_bind].
  destruct (IH (S i) (with_nodes l ns2)
    (with_nodes l ns2 :: with_nodes l ns1 :: trace)) as (l' & new & E & L' & Hnew');
    [lia|done..|].
  exists l', (new ++ [with_nodes l ns2; with_nodes l ns1]).
  rewrite <- app_assoc. split; [exact E|]. split; [done|]. apply List.Forall_app. split; [done|].
  constructor; [exists (S i); split; [lia|done]|].
  constructor; [exists i; split; [lia|done]|constructor].
Qed.

(** The list with its new height, before and after the node is allocated. *)
Abbreviation l1 := (Skiplist cmp0 (sl_nodes l0) maxh rnd).
Abbreviation l2 := (with_nodes l1 (sl_nodes l0 ++ [Skipnode key (replicate height None)])).

Lemma raised_rep : skip_rep dom l1 lv.
Proof.
  pose proof (rep_height _ _ _ R). destruct R. split; try done; cbn [sl_max_height].
  - lia.
  - intros i Hi. apply rep_empty0. lia.
Qed.

Lemma created_linked : linked 0 l2.
Proof.
  assert (forall q m, q < x -> ldb_skipnode_next (sl_nodes l2) q m = ldb_skipnode_next (sl_nodes l0) q m)
    as Hnext.
  { intros q m Hq. unfold ldb_skipnode_next. cbn. by rewrite lookup_app_l. }
  split; try done; cbn [sl_nodes with_nodes].
  - rewrite length_app. cbn. lia.
  - intros n. unfold ent', ent. case_bool_decide as En.
    + subst n. by rewrite lookup_app_r, Nat.sub_diag by lia.
    + destruct (decide (n < x)); [by rewrite lookup_app_l|].
      rewrite lookup_app_r by lia. rewrite (lookup_ge_None_2 (sl_nodes l0)) by lia.
      rewrite lookup_ge_None_2; [done|]. cbn. lia.
  - intros i Hi. rewrite lvk_high by lia. eapply chain_frame; [|by apply (rep_chain _ _ _ R)].
    intros q [->|Hq]%elem_of_cons; [|apply lv_elem in Hq as (_ & ? & _); by apply Hnext].
    apply Hnext. pose proof x_pos. lia.
  - intros i Hi. unfold ldb_skipnode_next. rewrite lookup_app_r, Nat.sub_diag by lia. cbn.
    exists None. by apply lookup_replicate_2.
Qed.

Lemma insert_loop_spec prev :
  (forall j, j < height -> prev !! j = Some (endp 0 (lo j))) ->
  exists l' trace,
    link_loop height 0 x prev l2 [l2; l1] = Some (l', trace) /\ linked height l' /\
    Forall (fun s => s = l1 \/ exists k, k <= height /\ linked k s) trace.
Proof.
  intros Hp. pose proof created_linked as L2.
  destruct (link_loop_spec height 0 l2 prev [l2; l1]) as (l' & new & E & L & Hf); [lia|done..|].
  exists l', (new ++ [l2; l1]). split; [done|]. split; [done|].
  apply List.Forall_app. split; [eapply List.Forall_impl; [|exact Hf]; tauto|].
  constructor; [right; exists 0; split; [lia|done]|]. constructor; [by left|constructor].
Qed.
End Insert.

(** ** The list as a sorted list of entries *)

(** [l] holds the entries [es]. *)
Definition skip_holds (dom : bytes -> Prop) (l : skiplist) (es : list bytes) : Prop :=
  exists lv, skip_rep dom l lv /\ entries l lv = es.

Fixpoint sorted_insert (cmp : comparator) (key : bytes) (es : list bytes) : list bytes :=
  match es with
  | [] => [key]
  | e :: es' => if (ecmp cmp e key <? 0)%Z then e :: sorted_insert cmp key es' else key :: es
  end.

(** The entries at or after [key]. *)
Definition entries_ge (cmp : comparator) (key : bytes) (es : list bytes) : list bytes :=
  List.filter (fun e => negb (ecmp cmp e key <? 0)%Z) es.
Definition entries_lt (cmp : comparator) (key : bytes) (es : list bytes) : list bytes :=
  List.filter (fun e => ecmp cmp e key <? 0)%Z es.

Lemma map_filter {A B} (f : A -> B) (P : B -> bool) xs :
  List.filter P (map f xs) = map f (List.filter (fun a => P (f a)) xs).
Proof. induction xs as [|a xs IH]; [done|]. cbn. destruct (P (f a)); cbn; by rewrite IH. Qed.

Lemma entries_above l lv key :
  entries_ge (sl_comparator l) key (entries l lv) =
  map (ent (sl_nodes l)) (above (key_lt l key) (lv 0)).
Proof. unfold entries_ge, entries. by rewrite map_filter. Qed.

Lemma entries_below l lv key :
  entries_lt (sl_comparator l) key (entries l lv) =
  map (ent (sl_nodes l)) (below (key_lt l key) (lv 0)).
Proof. unfold entries_lt, entries. by rewrite map_filter. Qed.

Lemma sorted_insert_split cmp key a b :
  Forall (fun e => (ecmp cmp e key < 0)%Z) a -> Forall (fun e => (0 <= ecmp cmp e key)%Z) b ->
  sorted_insert cmp key (a ++ b) = a ++ key :: b.
Proof.
  intros Ha Hb. induction Ha as [|e a He _ IH]; cbn.
  - destruct Hb as [|e b He _]; [done|]. cbn. by rewrite (proj2 (Z.ltb_ge _ _)).
  - rewrite (proj2 (Z.ltb_lt _ _)) by done. by rewrite IH.
Qed.

Lemma skip_holds_init dom cmp : skip_holds dom (ldb_skiplist_init cmp) [].
Proof.
  exists (fun _ => []). split; [|done]. split; cbn -[ldb_rand_init replicate]; try done.
  - unfold LDB_MAX_HEIGHT. lia.
  - intros i Hi. unfold ldb_skipnode_next. cbn -[replicate]. by apply lookup_replicate_2.
  - apply NoDup_singleton.
  - intros n Hn. by apply elem_of_nil in Hn.
  - constructor.
Qed.

Section Contract.
Context (dom : bytes -> Prop) (l : skiplist) `{!ComparatorLaws dom (sl_comparator l)}.
Context (es : list bytes) (H : skip_holds dom l es).

Lemma holds_entry_ok e : e ∈ es -> entry_ok dom e.
Proof.
  destruct H as (lv & R & <-). unfold entries. intros (n & -> & Hn)%list_elem_of_fmap.
  by apply (rep_entries _ _ _ R).
Qed.

Lemma holds_sorted : StronglySorted (fun a b => (ecmp (sl_comparator l) a b < 0)%Z) es.
Proof.
  destruct H as (lv & R & <-). unfold entries. eapply (StronglySorted_fmap (ent (sl_nodes l)));
    [|apply (rep_sorted _ _ _ R)]. done.
Qed.

Lemma linked_entries lv key k h rnd s :
  skip_rep dom l lv -> entry_ok dom key -> 1 <= h <= LDB_MAX_HEIGHT ->
  linked l lv key h rnd k s ->
  map (ent (sl_nodes s)) (lvk l lv key k 0) =
    if bool_decide (0 < k) then sorted_insert (sl_comparator l) key (entries l lv)
    else entries l lv.
Proof.
  intros R Hk Hh L. assert (forall ids, (forall n, n ∈ ids -> n ∈ lv 0) ->
    map (ent (sl_nodes s)) ids = map (ent (sl_nodes l)) ids) as Hmap.
  { intros ids Hids. apply map_ext_in. intros n Hn%list_elem_of_In.
    rewrite (lk_ent _ _ _ _ _ _ _ L). by apply (ent'_old dom l lv R key h Hh), Hids. }
  unfold lvk. case_bool_decide; [|by apply Hmap].
  pose proof (lv_split dom l lv R key Hk h Hh 0) as E. pose proof (elem_lv dom l lv R key Hk h Hh 0) as Hin.
  rewrite map_app. cbn [map]. rewrite !Hmap by (intros n; rewrite Hin; tauto).
  rewrite (lk_ent _ _ _ _ _ _ _ L), ent'_x.
  unfold entries. rewrite E at 3. rewrite map_app, sorted_insert_split; [done|..];
    apply List.Forall_map.
  - eapply List.Forall_impl; [|apply Forall_below]. intros n. cbn. unfold key_lt. by rewrite Z.ltb_lt.
  - eapply List.Forall_impl; [|apply Forall_above]. intros n. cbn. unfold key_lt. by rewrite Z.ltb_ge.
Qed.

(** Inserting, with the states the readers can see. *)
Lemma insert_trace_spec key :
  entry_ok dom key -> (forall e, e ∈ es -> ecmp (sl_comparator l) e key <> 0%Z) ->
  exists l' trace,
    insert_trace l key = Some (l', trace) /\
    sl_comparator l' = sl_comparator l /\
    skip_holds dom l' (sorted_insert (sl_comparator l) key es) /\
    Forall (fun s => sl_comparator s = sl_comparator l /\
      (skip_holds dom s es \/ skip_holds dom s (sorted_insert (sl_comparator l) key es))) trace.
Proof.
  intros Hk Hne. destruct H as (lv & R & He).
  destruct (find_ge_spec dom l lv R key Hk) as (prev & Ef & Hlen & Hprev).
  unfold insert_trace. rewrite Ef. cbn [mbind option_bind snd].
  pose proof (rep_height _ _ _ R) as Hh.
  destruct (randheight_loop_spec LDB_MAX_HEIGHT 1 (sl_rnd l)) as [Hr1 Hr2];
    [unfold LDB_MAX_HEIGHT; lia|apply (rep_rnd _ _ _ R)|].
  unfold ldb_skiplist_randheight. destruct (randheight_loop _ 1 _) as [height rnd].
  cbn [fst snd] in *. unfold ldb_skipnode_create. cbn [sl_nodes].
  set (prev' := if bool_decide _ then _ else prev).
  assert (forall j, j < height -> prev' !! j = Some (endp 0 (below (key_lt l key) (lv j)))) as Hp.
  { intros j Hj. subst prev'. case_bool_decide; [|apply Hprev; lia].
    destruct (raise_prev_spec (height - sl_max_height l) (sl_max_height l) prev j) as [_ ->]; [lia|].
    case_decide; [|apply Hprev; lia]. by rewrite (rep_empty _ _ _ R j) by lia. }
  assert (forall n, n ∈ lv 0 -> ecmp (sl_comparator l) (ent (sl_nodes l) n) key <> 0%Z) as Hnew.
  { intros n Hn. apply Hne. rewrite <- He. by apply list_elem_of_fmap_2. }
  destruct (insert_loop_spec dom l lv R key Hk Hnew height Hr1 rnd prev' Hp)
    as (l' & trace & E & L & Hf).
  exists l', trace. split; [exact E|].
  assert (forall k s, k <= height -> linked l lv key height rnd k s ->
    skip_holds dom s (if bool_decide (0 < k) then sorted_insert (sl_comparator l) key es else es)) as Hh'.
  { intros k s Hks Ls. exists (lvk l lv key k). split.
    - by apply (linked_rep dom l lv R key Hk Hnew height Hr1 rnd Hr2).
    - rewrite <- He. unfold entries at 1.
      by rewrite (linked_entries lv key k height rnd s R Hk Hr1 Ls). }
  split; [apply L|]. split.
  { specialize (Hh' height l' ltac:(lia) L). by rewrite bool_decide_eq_true_2 in Hh' by lia. }
  eapply List.Forall_impl; [|exact Hf]. intros s [->|(k & Hks & Ls)].
  - split; [done|]. left. exists lv. split; [|done].
    by apply (raised_rep dom l lv R height Hr1 rnd Hr2).
  - split; [apply Ls|]. specialize (Hh' k s Hks Ls). case_bool_decide; tauto.
Qed.

(** The iterator's node and the entries from there on, resp. back from there. *)
Fixpoint walk (fuel : nat) (node : option nat) : option (list bytes) :=
  match fuel with
  | O => None
  | S fuel =>
    if ldb_skipiter_valid node then
      key ← ldb_skipiter_key l node;
      next ← ldb_skipiter_next l node;
      rest ← walk fuel next;
      Some (key :: rest)
    else Some []
  end.

Fixpoint walk_back (fuel : nat) (node : option nat) : option (list bytes) :=
  match fuel with
  | O => None
  | S fuel =>
    if ldb_skipiter_valid node then
      key ← ldb_skipiter_key l node;
      next ← ldb_skipiter_prev l node;
      rest ← walk_back fuel next;
      Some (key :: rest)
    else Some []
  end.

Lemma iter_key lv n :
  skip_rep dom l lv -> n ∈ lv 0 -> ldb_skipiter_key l (Some n) = Some (ent (sl_nodes l) n).
Proof.
  intros R Hn. apply (rep_entries _ _ _ R) in Hn as [Hl _].
  destruct (lookup_ent l n Hl) as (nd & E & <-). cbn. by rewrite E.
Qed.

Lemma walk_spec lv a b fuel :
  skip_rep dom l lv -> lv 0 = a ++ b -> length b < fuel ->
  walk fuel (head b) = Some (map (ent (sl_nodes l)) b).
Proof.
  intros R. revert a b. induction fuel as [|fuel IH]; intros a b E Hf; [lia|].
  destruct b as [|n b]; [done|]. cbn [head walk]. change (ldb_skipiter_valid (Some n)) with true. cbv iota.
  rewrite (iter_key lv) by (done || rewrite E, elem_of_app; right; by left).
  cbn [mbind option_bind ldb_skipiter_next].
  pose proof (rep_chain _ _ _ R 0 ltac:(unfold LDB_MAX_HEIGHT; lia)) as Hc.
  rewrite E in Hc. change (n :: b) with ([n] ++ b) in Hc. rewrite app_assoc in Hc.
  apply chain_app in Hc. rewrite endp_app in Hc. cbn [endp] in Hc.
  rewrite (chain_next _ _ _ _ Hc). cbn [mbind option_bind].
  rewrite (IH (a ++ [n]) b) by (rewrite <- ?app_assoc; cbn in *; (done || lia)). done.
Qed.

(** The nodes below a node of the list are the ones in front of it. *)
Lemma below_node lv a n b :
  skip_rep dom l lv -> lv 0 = a ++ n :: b ->
  below (key_lt l (ent (sl_nodes l) n)) (lv 0) = a.
Proof.
  intros R E. pose proof (rep_sorted _ _ _ R) as Hs. pose proof (rep_entries _ _ _ R) as He.
  rewrite E in Hs, He |- *.
  assert (entry_ok dom (ent (sl_nodes l) n)) as Hn%entry_ok_dom
    by (apply He; rewrite elem_of_app; right; by left).
  apply below_above_split; apply List.Forall_forall; intros m Hm%list_elem_of_In; unfold key_lt.
  - apply Z.ltb_lt. apply (StronglySorted_app_1_elem_of _ _ _ m n Hs Hm). by left.
  - apply Z.ltb_ge. unfold ecmp. apply elem_of_cons in Hm as [->|Hm].
    + rewrite (compare_refl dom) by done. lia.
    + apply StronglySorted_app_1_r, StronglySorted_inv in Hs as [_ Hs].
      rewrite List.Forall_forall in Hs. specialize (Hs m (proj1 (list_elem_of_In _ _) Hm)).
      unfold ecmp in Hs. destruct (He m ltac:(rewrite elem_of_app; right; by right)) as [_ Hd%entry_ok_dom].
      apply (compare_lt_flip dom) in Hs; [lia|done..].
Qed.

Lemma walk_back_spec lv a b fuel :
  skip_rep dom l lv -> lv 0 = a ++ b -> length a < fuel ->
  walk_back fuel (head_to_null (endp 0 a)) = Some (rev (map (ent (sl_nodes l)) a)).
Proof.
  intros R. revert a b. induction fuel as [|fuel IH]; intros a b E Hf; [lia|].
  destruct a as [|n a' _] using rev_ind; [done|].
  rewrite endp_app. cbn [endp].
  assert (n ∈ lv 0) as Hn by (rewrite E, !elem_of_app; left; right; by left).
  assert (n <> 0) as Hn0.
  { intros ->. pose proof (rep_nodup _ _ _ R) as Hnd. by apply list.NoDup_cons in Hnd as [? _]. }
  unfold head_to_null at 1. rewrite bool_decide_eq_false_2 by done.
  cbn [walk_back]. change (ldb_skipiter_valid (Some n)) with true. cbv iota.
  unfold ldb_skipiter_prev. rewrite (iter_key lv) by done. cbn [mbind option_bind].
  rewrite <- app_assoc in E. cbn [app] in E.
  rewrite (find_lt_spec dom l lv R) by by apply (rep_entries _ _ _ R).
  cbn [mbind option_bind]. rewrite (below_node lv a' n b R E).
  rewrite (IH a' (n :: b)) by (done || rewrite length_app in Hf; cbn in Hf; lia).
  cbn. by rewrite map_app, rev_app_distr.
Qed.
End Contract.

(** The entry a seek finds is the first one not below the target. *)
Lemma seek_spec dom l `{!ComparatorLaws dom (sl_comparator l)} es target :
  skip_holds dom l es -> entry_ok dom target ->
  exists node, ldb_skipiter_seek l target = Some node /\
    ldb_skipiter_key l node = head (entries_ge (sl_comparator l) target es) /\
    ldb_skipiter_valid node = bool_decide (entries_ge (sl_comparator l) target es <> []).
Proof.
  intros (lv & R & <-) Ht. destruct (find_ge_spec dom l lv R target Ht) as (prev & E & _).
  exists (head (above (key_lt l target) (lv 0))). unfold ldb_skipiter_seek. rewrite E, entries_above.
  split; [done|]. destruct (above (key_lt l target) (lv 0)) as [|n ids] eqn:Ea; [done|].
  cbn [head map]. split; [|done]. apply (iter_key dom l lv); [done|].
  assert (n ∈ above (key_lt l target) (lv 0)) as Hn by (rewrite Ea; by left).
  apply list_elem_of_In, filter_In in Hn as [Hn _]. by apply list_elem_of_In.
Qed.

Lemma ldb_skiplist_insert_spec dom l `{!ComparatorLaws dom (sl_comparator l)} es key :
  skip_holds dom l es -> entry_ok dom key ->
  (forall e, e ∈ es -> ecmp (sl_comparator l) e key <> 0%Z) ->
  exists l', ldb_skiplist_insert l key = Some l' /\ sl_comparator l' = sl_comparator l /\
    skip_holds dom l' (sorted_insert (sl_comparator l) key es).
Proof.
  intros Hh Hk Hne. destruct (insert_trace_spec dom l es Hh key Hk Hne) as (l' & tr & E & Hc & H' & _).
  exists l'. unfold ldb_skiplist_insert. by rewrite E.
Qed.

(** ** Properties *)

(** C25: [ldb_skiplist_insert] turns a skip list holding the sorted entries
    [es] into one holding [es] with the new entry at its place (every level
    linked, no node lost), for every state of the random generator.  It is
    atomic for concurrent readers: in each of the heap states its single stores
    pass through, a seek to any target terminates and finds the first entry not
    below the target of either the old or the new list. *)
Theorem skiplist_insert_atomic dom l `{!ComparatorLaws dom (sl_comparator l)} es key :
  skip_holds dom l es -> entry_ok dom key ->
  (forall e, e ∈ es -> ecmp (sl_comparator l) e key <> 0%Z) ->
  let es' := sorted_insert (sl_comparator l) key es in
  exists l' trace,
    insert_trace l key = Some (l', trace) /\ ldb_skiplist_insert l key = Some l' /\
    skip_holds dom l' es' /\
    Forall (fun s => forall target, entry_ok dom target ->
      exists node, ldb_skipiter_seek s target = Some node /\
        (ldb_skipiter_key s node = head (entries_ge (sl_comparator l) target es) \/
         ldb_skipiter_key s node = head (entries_ge (sl_comparator l) target es'))) trace.
Proof.
  intros Hh Hk Hne es'. destruct (insert_trace_spec dom l es Hh key Hk Hne)
    as (l' & tr & E & Hc & H' & Hf).
  exists l', tr. split; [done|]. split; [unfold ldb_skiplist_insert; by rewrite E|]. split; [done|].
  eapply List.Forall_impl; [|exact Hf]. intros s [Ec Hs] target Ht.
  assert (ComparatorLaws dom (sl_comparator s)) by by rewrite Ec.
  destruct Hs as [Hs|Hs]; destruct (seek_spec dom s _ target Hs Ht) as (node & Hn & Hkey & _);
    exists node; (split; [done|]); rewrite Ec in Hkey; [by left|by right].
Qed.

Lemma skiplist_insert_atomic_witness :
  let l := ldb_skiplist_init bytewise_comparator in
  exists l' trace,
    insert_trace l [Byte.x01; Byte.x61] = Some (l', trace) /\
    skip_holds (fun _ => True) l' [[Byte.x01; Byte.x61]].
Proof.
  intros l.
  destruct (skiplist_insert_atomic (fun _ => True) l [] [Byte.x01; Byte.x61])
    as (l' & tr & E & _ & H & _).
  - apply skip_holds_init.
  - exists [Byte.x61]. split; [by vm_compute|exact I].
  - intros e He. by apply elem_of_nil in He.
  - exists l', tr. split; [exact E|exact H].
Defined.

(** The iterator of a skip list holding the sorted entries [es] visits
    exactly [es] in order from [ldb_skipiter_first], the entries not below a
    target from [ldb_skipiter_seek], and [es] backwards from
    [ldb_skipiter_last] (which has no back links and searches instead). *)
Theorem skiplist_iteration dom l `{!ComparatorLaws dom (sl_comparator l)} es target fuel :
  skip_holds dom l es -> entry_ok dom target -> length es < fuel ->
  (node ← ldb_skipiter_first l; walk l fuel node) = Some es /\
  (node ← ldb_skipiter_seek l target; walk l fuel node) =
    Some (entries_ge (sl_comparator l) target es) /\
  (node ← ldb_skipiter_last l; walk_back l fuel node) = Some (rev es).
Proof.
  intros (lv & R & <-) Ht Hf. unfold entries in Hf. rewrite length_map in Hf. split; [|split].
  - unfold ldb_skipiter_first. rewrite (chain_next _ 0 0 (lv 0))
      by (apply (rep_chain _ _ _ R); unfold LDB_MAX_HEIGHT; lia).
    by apply (walk_spec dom l lv []).
  - destruct (find_ge_spec dom l lv R target Ht) as (prev & E & _).
    unfold ldb_skipiter_seek. rewrite E, entries_above. cbn [fmap option_fmap option_map fst mbind option_bind].
    apply (walk_spec dom l lv (below (key_lt l target) (lv 0))); [done|..].
    + by apply cuts_split, (key_lt_cuts dom).
    + unfold above. pose proof (List.filter_length_le (fun n => negb (key_lt l target n)) (lv 0)). lia.
  - unfold ldb_skipiter_last. rewrite (find_last_spec dom l lv R). cbn [mbind option_bind].
    apply (walk_back_spec dom l lv (lv 0) []); [done|by rewrite app_nil_r|done].
Qed.

Lemma skiplist_iteration_witness :
  let l := ldb_skiplist_init bytewise_comparator in
  exists l', ldb_skiplist_insert l [Byte.x01; Byte.x61] = Some l' /\
    (node ← ldb_skipiter_first l'; walk l' 2 node) = Some [[Byte.x01; Byte.x61]].
Proof.
  intros l.
  assert (entry_ok (fun _ => True) [Byte.x01; Byte.x61]) as Hk
    by (exists [Byte.x61]; split; [by vm_compute|exact I]).
  destruct (ldb_skiplist_insert_spec (fun _ => True) l [] [Byte.x01; Byte.x61]) as (l' & E & Ec & H).
  - apply skip_holds_init.
  - exact Hk.
  - intros e He. by apply elem_of_nil in He.
  - exists l'. split; [exact E|].
    assert (ComparatorLaws (fun _ => True) (sl_comparator l')) by (rewrite Ec; exact bytewise_laws).
    apply (skiplist_iteration (fun _ => True) l' [[Byte.x01; Byte.x61]] [Byte.x01; Byte.x61] 2);
      [exact H|exact Hk|cbn; lia].
Defined.
