(* ===== verification/Memtable.v ===== *)
(** * The memtable

    Models [src/engine/src/memtable.c]: the encoding of entries, insertion into
    the skip list, and lookup of a key at a snapshot. *)

From stdpp Require Import sorting.
From S2P Require Import Prelude Coding Status Comparator DBFormat Random Arena Skiplist.
#[local] Open Scope Z_scope.

(** ** Data *)

(** [ldb_memtable_t].  The arena provides the memory for entries and nodes; the
    skip list names its nodes by numbers instead of addresses. *)
Record memtable := Memtable {
  mt_comparator : comparator;
  mt_refs : Z;
  mt_arena : arena;
  mt_table : skiplist
}.

(** The size of a node: its key and [height] links. *)
Definition skipnode_size (height : nat) : Z := 16 + 8 * (Z.of_nat height - 1).

(** The arena gets the head of the skip list; it does not refuse. *)
Definition ldb_memtable_create (cmp : comparator) : memtable :=
  Memtable cmp 0 (from_option snd ldb_arena_init (ldb_arena_alloc_aligned ldb_arena_init (skipnode_size LDB_MAX_HEIGHT))) (ldb_skiplist_init cmp).

Definition ldb_memtable_usage (mt : memtable) : Z := ldb_arena_usage (mt_arena mt).

Definition ldb_memtable_ref (mt : memtable) : memtable :=
  Memtable (mt_comparator mt) (mt_refs mt + 1) (mt_arena mt) (mt_table mt).

(** [None]: the table is destroyed. *)
Definition ldb_memtable_unref (mt : memtable) : option memtable :=
  let refs := mt_refs mt - 1 in
  if refs <=? 0 then None
  else Some (Memtable (mt_comparator mt) refs (mt_arena mt) (mt_table mt)).

(** The bytes [ldb_memtable_add] writes at [tp]. *)
Definition memtable_entry (sequence : Z) (type : ldb_valtype) (key value : bytes) : bytes :=
  varint32_write (u32 (zlen key + 8)) ++
  raw_write key (zlen key) ++
  fixed64_write (Z.lor (u64 (Z.shiftl sequence 8)) (valtype_num type)) ++
  varint32_write (u32 (zlen value)) ++
  raw_write value (zlen value).

(** The size it allocates. *)
Definition memtable_entry_size (key value : bytes) : Z :=
  (varint32_size (u32 (zlen key + 8)) + (zlen key + 8)) +
  (varint32_size (u32 (zlen value)) + zlen value).

Definition ldb_memtable_add (mt : memtable) (sequence : Z) (type : ldb_valtype)
    (key value : bytes) : option memtable :=
  '(_, arena) ← ldb_arena_alloc (mt_arena mt) (memtable_entry_size key value);
  table ← ldb_skiplist_insert (mt_table mt) (memtable_entry sequence type key value);
  let height := fst (ldb_skiplist_randheight (sl_rnd (mt_table mt))) in
  '(_, arena) ← ldb_arena_alloc_aligned arena (skipnode_size height);
  Some (Memtable (mt_comparator mt) (mt_refs mt) arena table).

(** The outcomes of [ldb_memtable_get]: it returns 1 with a value, 1 with
    [*status = LDB_NOTFOUND], or 0. *)
Inductive get_result := GetValue (value : bytes) | GetNotFound | GetMissing.

Definition ldb_memtable_get (mt : memtable) (key : ldb_lkey) : option get_result :=
  let mkey := ldb_lkey_memtable_key key in
  iter ← ldb_skipiter_seek (mt_table mt) mkey;
  if ldb_skipiter_valid iter then
    cmp ← cmp_user_comparator (mt_comparator mt);
    mem ← ldb_skipiter_key (mt_table mt) iter;
    match slice_decode mem with
    | (None, _) => None
    | (Some okey, rest) =>
      let ukey := ldb_lkey_user_key key in
      if zlen okey <? 8 then None
      else if ldb_compare cmp (ztake (zlen okey - 8) okey) ukey =? 0 then
        let tag := fixed64_decode (zdrop (zlen okey - 8) okey) in
        let ty := Z.land tag 0xff in
        if ty =? valtype_num LDB_TYPE_VALUE then
          val ← fst (slice_decode rest); Some (GetValue val)
        else if ty =? valtype_num LDB_TYPE_DELETION then Some GetNotFound
        else Some GetMissing
      else Some GetMissing
    end
  else Some GetMissing.

(** ** The iterator *)

(** [ldb_memiter_t] is the skip-list iterator; [tmp] is its scratch buffer. *)
Definition ldb_memiter_valid (iter : option nat) : bool := ldb_skipiter_valid iter.
Definition ldb_memiter_seek (mt : memtable) (key : bytes) : option (option nat) :=
  ldb_skipiter_seek (mt_table mt) (slice_write key).
Definition ldb_memiter_first (mt : memtable) : option (option nat) := ldb_skipiter_first (mt_table mt).
Definition ldb_memiter_last (mt : memtable) : option (option nat) := ldb_skipiter_last (mt_table mt).
Definition ldb_memiter_next (mt : memtable) (iter : option nat) : option (option nat) :=
  ldb_skipiter_next (mt_table mt) iter.
Definition ldb_memiter_prev (mt : memtable) (iter : option nat) : option (option nat) :=
  ldb_skipiter_prev (mt_table mt) iter.
Definition ldb_memiter_key (mt : memtable) (iter : option nat) : option bytes :=
  mem ← ldb_skipiter_key (mt_table mt) iter; fst (slice_decode mem).
Definition ldb_memiter_value (mt : memtable) (iter : option nat) : option bytes :=
  mem ← ldb_skipiter_key (mt_table mt) iter;
  match slice_decode mem with
  | (Some _, rest) => fst (slice_decode rest)
  | (None, _) => None
  end.

(** ** Entries *)

(** A versioned entry: an internal key and a value. *)
Abbreviation entry := (ldb_pkey * bytes)%type.

Definition entry_bytes (e : entry) : bytes := slice_write (ikey e.1) ++ slice_write e.2.

Definition entry_wf (udom : bytes -> Prop) (e : entry) : Prop :=
  0 <= sequence e.1 <= LDB_MAX_SEQUENCE /\ zlen (user_key e.1) < 2 ^ 32 - 8 /\
  zlen e.2 < 2 ^ 32 /\ udom (user_key e.1).

Definition entry_tag (e : entry) : Z := pack_seqtype (sequence e.1) (type e.1).

Lemma entry_pkey_wf udom e : entry_wf udom e -> pkey_wf e.1.
Proof. intros (H1 & H2 & _). split; [done|lia]. Qed.

Lemma entry_slice_wf udom e : entry_wf udom e -> slice_wf (ikey e.1).
Proof. intros (_ & H & _). unfold slice_wf. rewrite zlen_ikey. unfold ldb_pkey_size. lia. Qed.

Lemma memtable_entry_bytes udom s t k v :
  entry_wf udom (Pkey k s t, v) -> memtable_entry s t k v = entry_bytes (Pkey k s t, v).
Proof.
  intros H. pose proof (entry_slice_wf udom _ H) as Hk. destruct H as (Hs & Hu & Hv & _).
  cbn [fst snd user_key sequence] in *. unfold memtable_entry, entry_bytes. cbn [fst snd].
  rewrite !slice_write_wf by done. rewrite zlen_ikey, ikey_write. unfold ldb_pkey_size.
  cbn [user_key sequence type]. pose proof (zlen_nonneg k). pose proof (zlen_nonneg v).
  rewrite !zlen_raw_write, !u32_small by lia. rewrite <- !app_assoc. done.
Qed.

(** The entry fits the block it is written to: the [assert] of the code. *)
Lemma memtable_entry_fits s t k v :
  zlen (memtable_entry s t k v) = memtable_entry_size k v.
Proof.
  unfold memtable_entry, memtable_entry_size. rewrite !zlen_raw_write, !zlen_app.
  rewrite !zlen_varint32_write, zlen_fixed64_write. lia.
Qed.

Lemma decode_entry udom e :
  entry_wf udom e ->
  slice_decode (entry_bytes e) = (Some (ikey e.1), slice_write e.2) /\
  slice_decode (slice_write e.2) = (Some e.2, []).
Proof.
  intros H. pose proof (entry_slice_wf udom e H). destruct H as (_ & _ & Hv & _). split.
  - by apply slice_decode_write.
  - rewrite <- (app_nil_r (slice_write e.2)). by apply slice_decode_write.
Qed.

Lemma entry_entry_ok udom e : entry_wf udom e -> entry_ok (ikey_dom udom) (entry_bytes e).
Proof.
  intros H. destruct (decode_entry udom e H) as [E _]. exists (ikey e.1). rewrite E. split; [done|].
  apply ikey_in_dom; [by eapply entry_pkey_wf|apply H].
Qed.

Lemma ekey_entry udom e : entry_wf udom e -> ekey (entry_bytes e) = ikey e.1.
Proof. intros H. unfold ekey. by rewrite (proj1 (decode_entry udom e H)). Qed.

(** ** The specification: a multi-version map *)

Section Versions.
Context (uc : comparator).

(** [e] is a version of [u] that a snapshot at [s] sees. *)
Definition visible (u : bytes) (s : Z) (e : entry) : bool :=
  (ldb_compare uc (user_key e.1) u =? 0) && (sequence e.1 <=? s).

(** The newest visible version in a history. *)
Fixpoint newest (u : bytes) (s : Z) (h : list entry) : option entry :=
  match h with
  | [] => None
  | e :: h =>
    match newest u s h with
    | Some e' => if visible u s e && (entry_tag e' <? entry_tag e) then Some e else Some e'
    | None => if visible u s e then Some e else None
    end
  end.

(** What a read of it returns. *)
Definition read_version (r : option entry) : get_result :=
  match r with
  | None => GetMissing
  | Some e => match type e.1 with
              | LDB_TYPE_VALUE => GetValue e.2
              | LDB_TYPE_DELETION => GetNotFound
              end
  end.

Lemma newest_none u s h : newest u s h = None <-> forall e, e ∈ h -> visible u s e = false.
Proof.
  induction h as [|e h IH]; cbn; [split; [intros _ e' H; by apply elem_of_nil in H|done]|].
  destruct (newest u s h) as [e'|].
  - split; [by destruct (_ && _)|]. intros H. exfalso.
    assert (Some e' = None) by (apply IH; intros; apply H; by right). done.
  - destruct (visible u s e) eqn:E.
    + split; [done|]. intros H. rewrite H in E; [done|by left].
    + split; [|done]. intros _ e' [->|H]%elem_of_cons; [done|]. by apply IH.
Qed.

Lemma newest_some u s h e :
  newest u s h = Some e ->
  e ∈ h /\ visible u s e = true /\
  forall e', e' ∈ h -> visible u s e' = true -> entry_tag e' <= entry_tag e.
Proof.
  revert e. induction h as [|a h IH]; cbn; intros e; [done|].
  destruct (newest u s h) as [b|] eqn:Eb.
  - destruct (IH b eq_refl) as (Hb & Vb & Mb). destruct (visible u s a) eqn:Va; cbn [andb].
    + destruct (Z.ltb_spec (entry_tag b) (entry_tag a)); intros [= <-].
      * split; [by left|]. split; [done|]. intros e' [->|H']%elem_of_cons V'; [lia|].
        specialize (Mb e' H' V'). lia.
      * split; [by right|]. split; [done|]. intros e' [->|H']%elem_of_cons V'; [lia|by apply Mb].
    + intros [= <-]. split; [by right|]. split; [done|].
      intros e' [->|H']%elem_of_cons V'; [congruence|by apply Mb].
  - destruct (visible u s a) eqn:Va; intros [= <-]. split; [by left|]. split; [done|].
    intros e' [->|H']%elem_of_cons V'; [lia|].
    rewrite (proj1 (newest_none u s h) Eb e' H') in V'. done.
Qed.
End Versions.

(** ** The memtable holds a history *)

Definition mt_holds (udom : bytes -> Prop) (uc : comparator) (mt : memtable) (h : list entry) : Prop :=
  (exists pieces, arena_ok (mt_arena mt) pieces) /\
  mt_comparator mt = ldb_ikc_init uc /\ sl_comparator (mt_table mt) = ldb_ikc_init uc /\
  Forall (entry_wf udom) h /\
  exists es, skip_holds (ikey_dom udom) (mt_table mt) es /\ es ≡ₚ map entry_bytes h.

Lemma sorted_insert_perm cmp key es : sorted_insert cmp key es ≡ₚ key :: es.
Proof.
  induction es as [|e es IH]; cbn; [done|]. destruct (_ <? 0); [|done].
  rewrite IH. apply perm_swap.
Qed.

Section Memtable.
Context (udom : bytes -> Prop) (uc : comparator) `{!ComparatorLaws udom uc}.

Lemma ecmp_entries e e' :
  entry_wf udom e -> entry_wf udom e' ->
  ecmp (ldb_ikc_init uc) (entry_bytes e) (entry_bytes e') = ldb_ikc_compare uc (ikey e.1) (ikey e'.1).
Proof. intros H H'. unfold ecmp. by rewrite !(ekey_entry udom) by done. Qed.

Lemma ecmp_zero e e' :
  entry_wf udom e -> entry_wf udom e' ->
  ecmp (ldb_ikc_init uc) (entry_bytes e) (entry_bytes e') = 0 ->
  ldb_compare uc (user_key e.1) (user_key e'.1) = 0 /\ entry_tag e = entry_tag e'.
Proof.
  intros H H'. pose proof (entry_pkey_wf _ _ H). pose proof (entry_pkey_wf _ _ H').
  rewrite ecmp_entries, ikc_compare_spec, !user_key_ikey, !ikey_tag_ikey by done.
  unfold entry_tag. destruct (Z.eqb_spec (ldb_compare uc (user_key e.1) (user_key e'.1)) 0); [|done].
  destruct (Z.ltb_spec (pack_seqtype (sequence e'.1) (type e'.1)) (pack_seqtype (sequence e.1) (type e.1)));
    [done|].
  destruct (Z.ltb_spec (pack_seqtype (sequence e.1) (type e.1)) (pack_seqtype (sequence e'.1) (type e'.1)));
    [done|lia].
Qed.

Lemma mt_holds_create : mt_holds udom uc (ldb_memtable_create (ldb_ikc_init uc)) [].
Proof.
  split; [|split; [done|]; split; [done|]; split; [constructor|]; exists []; split; [apply skip_holds_init|done]].
  destruct (alloc_aligned_ok ldb_arena_init [] (skipnode_size LDB_MAX_HEIGHT) arena_init_ok) as (r & a & E & Ha & _); [by vm_compute|].
  cbn [ldb_memtable_create mt_arena]. rewrite E. cbn [from_option snd]. by eexists.
Qed.

(** Adding a version no earlier entry has the key and tag of. *)
Lemma memtable_add_spec mt h s t k v :
  mt_holds udom uc mt h -> entry_wf udom (Pkey k s t, v) ->
  (forall e, e ∈ h -> ldb_compare uc (user_key e.1) k = 0 -> entry_tag e <> pack_seqtype s t) ->
  exists mt', ldb_memtable_add mt s t k v = Some mt' /\
    mt_holds udom uc mt' ((Pkey k s t, v) :: h) /\ mt_refs mt' = mt_refs mt.
Proof.
  intros ([pieces Ha] & Hc & Hc' & Hwf & es & Hs & Hp) Hv Hne. unfold ldb_memtable_add.
  rewrite (memtable_entry_bytes udom) by done.
  assert (ComparatorLaws (ikey_dom udom) (sl_comparator (mt_table mt))) by (rewrite Hc'; apply _).
  destruct (ldb_skiplist_insert_spec (ikey_dom udom) (mt_table mt) es (entry_bytes (Pkey k s t, v)))
    as (l' & E & Ec & H'); [done|by apply entry_entry_ok|..].
  - intros e He. rewrite Hp in He. apply list_elem_of_fmap in He as (e' & -> & He').
    rewrite List.Forall_forall in Hwf. pose proof (Hwf e' (proj1 (list_elem_of_In _ _) He')) as He.
    rewrite Hc'. intros [H1 H2]%(ecmp_zero e' _ He Hv). by apply (Hne e' He').
  - assert (0 < memtable_entry_size k v) as Hsize.
    { unfold memtable_entry_size. pose proof (zlen_nonneg k). pose proof (zlen_nonneg v). pose proof (varint32_size_range (u32 (zlen k + 8))).
      pose proof (varint32_size_range (u32 (zlen v))). lia. }
    destruct (alloc_ok (mt_arena mt) pieces _ Ha Hsize) as (r1 & a1 & -> & Ha1). rewrite bind_some, E, bind_some. cbv zeta.
    destruct (alloc_aligned_ok a1 _ (skipnode_size (fst (ldb_skiplist_randheight (sl_rnd (mt_table mt))))) Ha1) as (r2 & a2 & -> & Ha2 & _).
    { destruct Hs as (lv & Hrep & _). destruct (randheight_loop_spec LDB_MAX_HEIGHT 1 (sl_rnd (mt_table mt)) ltac:(unfold LDB_MAX_HEIGHT; lia) (rep_rnd _ _ _ Hrep)) as [Hh _].
      unfold ldb_skiplist_randheight, skipnode_size, LDB_MAX_HEIGHT in *. lia. }
    rewrite bind_some. eexists. split; [reflexivity|]. split; [|done].
    split; [by eexists|]. split; [done|]. cbn [mt_table]. rewrite Ec, Hc'. split; [done|]. split; [by constructor|].
    eexists. split; [exact H'|]. rewrite sorted_insert_perm. cbn [map]. by rewrite Hp.
Qed.

(** An entry sorts at or after the seek key of [(u, s)] iff its user key is
    above [u], or it is a visible version of [u]. *)
Lemma ecmp_target u s e :
  entry_wf udom e -> udom u -> zlen u < 2 ^ 32 - 8 -> 0 <= s <= LDB_MAX_SEQUENCE ->
  ecmp (ldb_ikc_init uc) (entry_bytes e) (slice_write (ikey (seek_pkey u s))) < 0 <->
  ldb_compare uc (user_key e.1) u < 0 \/
  (ldb_compare uc (user_key e.1) u = 0 /\ s < sequence e.1).
Proof.
  intros He Hu Hl Hs. pose proof (zlen_nonneg u).
  assert (pkey_wf (seek_pkey u s)) as Hp by (split; cbn [user_key sequence seek_pkey]; [done|lia]).
  unfold ecmp. rewrite (ekey_entry udom) by done. unfold ekey.
  rewrite <- (app_nil_r (slice_write _)), slice_decode_write
    by (unfold slice_wf; rewrite zlen_ikey; unfold ldb_pkey_size; cbn [user_key seek_pkey]; lia).
  cbn [fst from_option id]. change (ldb_compare (ldb_ikc_init uc)) with (ldb_ikc_compare uc).
  rewrite ikc_compare_pkeys by (done || by eapply entry_pkey_wf).
  cbn [user_key sequence type seek_pkey]. pose proof (valtype_num_range (type e.1)).
  unfold LDB_VALTYPE_SEEK. cbn [valtype_num]. lia.
Qed.

Lemma target_entry_ok u s :
  udom u -> zlen u < 2 ^ 32 - 8 -> 0 <= s <= LDB_MAX_SEQUENCE ->
  entry_ok (ikey_dom udom) (slice_write (ikey (seek_pkey u s))).
Proof.
  intros Hu Hl Hs. exists (ikey (seek_pkey u s)). split.
  - rewrite <- (app_nil_r (slice_write _)), slice_decode_write; [done|].
    unfold slice_wf. rewrite zlen_ikey. unfold ldb_pkey_size. cbn [user_key seek_pkey]. lia.
  - apply ikey_in_dom; [|done]. split; cbn [user_key sequence seek_pkey]; [done|lia].
Qed.

(** The first entry at or after the seek key is the newest visible version,
    if it belongs to the user key at all. *)
Lemma first_ge_newest h es u s :
  Forall (entry_wf udom) h -> es ≡ₚ map entry_bytes h ->
  StronglySorted (fun a b => ecmp (ldb_ikc_init uc) a b < 0) es ->
  udom u -> zlen u < 2 ^ 32 - 8 -> 0 <= s <= LDB_MAX_SEQUENCE ->
  match entries_ge (ldb_ikc_init uc) (slice_write (ikey (seek_pkey u s))) es with
  | [] => newest uc u s h = None
  | m :: _ => exists e, m = entry_bytes e /\ entry_wf udom e /\
      newest uc u s h = if ldb_compare uc (user_key e.1) u =? 0 then Some e else None
  end.
Proof.
  intros Hwf Hp Hs Hu Hl Hseq. rewrite List.Forall_forall in Hwf.
  set (T := slice_write (ikey (seek_pkey u s))).
  assert (forall e, e ∈ h -> entry_wf udom e) as Hw by (intros e He; by apply Hwf, list_elem_of_In).
  assert (forall e, e ∈ h -> visible uc u s e = true ->
    entry_bytes e ∈ entries_ge (ldb_ikc_init uc) T es) as Hin.
  { intros e He V. unfold visible in V. apply andb_true_iff in V as [V1%Z.eqb_eq V2%Z.leb_le].
    apply list_elem_of_In, filter_In. split.
    - apply list_elem_of_In. rewrite Hp. by apply list_elem_of_fmap_2.
    - rewrite negb_true_iff, Z.ltb_ge. pose proof (ecmp_target u s e (Hw e He) Hu Hl Hseq). subst T. lia. }
  destruct (entries_ge (ldb_ikc_init uc) T es) as [|m rest] eqn:Em.
  { apply newest_none. intros e He. destruct (visible uc u s e) eqn:V; [|done].
    by apply Hin, elem_of_nil in V. }
  assert (m ∈ es /\ 0 <= ecmp (ldb_ikc_init uc) m T) as [Hm Hge].
  { assert (m ∈ entries_ge (ldb_ikc_init uc) T es) as H by (rewrite Em; by left).
    apply list_elem_of_In, filter_In in H as [H1%list_elem_of_In H2].
    rewrite negb_true_iff, Z.ltb_ge in H2. done. }
  rewrite Hp in Hm. apply list_elem_of_fmap in Hm as (e & -> & He). exists e.
  split; [done|]. split; [by apply Hw|]. pose proof (Hw e He) as We.
  pose proof (ecmp_target u s e We Hu Hl Hseq) as HT. fold T in HT.
  assert (forall e', e' ∈ h -> visible uc u s e' = true ->
    e' = e \/ ldb_ikc_compare uc (ikey e.1) (ikey e'.1) < 0) as Hfirst.
  { intros e' He' V'. pose proof (Hin e' He' V') as Hin'.
    apply elem_of_cons in Hin' as [Heq|Hr].
    - left. destruct e as [k v], e' as [k' v'].
      destruct (decode_entry udom _ We) as [D1 D2], (decode_entry udom _ (Hw _ He')) as [D1' D2'].
      rewrite Heq, D1 in D1'. cbn [fst snd] in *. injection D1' as E1 E2.
      rewrite <- E2, D2 in D2'. injection D2' as ->.
      pose proof (pkey_import_export k' (entry_pkey_wf _ _ (Hw _ He'))) as P.
      rewrite <- E1, (pkey_import_export k (entry_pkey_wf _ _ We)) in P. congruence.
    - right. rewrite <- ecmp_entries by (done || by apply Hw).
      assert (sublist (entry_bytes e :: rest) es) as Hsub.
      { rewrite <- Em. unfold entries_ge. clear. induction es as [|a es IH]; cbn; [done|].
        destruct (negb _); by constructor. }
      apply (StronglySorted_sublist _ _ _ Hsub), StronglySorted_inv in Hs as [_ Hall].
      rewrite List.Forall_forall in Hall. by apply Hall, list_elem_of_In. }
  pose proof (entry_pkey_wf _ _ We) as Pe.
  destruct (Z.eqb_spec (ldb_compare uc (user_key e.1) u) 0) as [E0|E0].
  - assert (visible uc u s e = true) as Ve.
    { unfold visible. rewrite E0, Z.eqb_refl. apply Z.leb_le. lia. }
    destruct (newest uc u s h) as [e2|] eqn:E2.
    + apply newest_some in E2 as (H2 & V2 & M2). f_equal.
      destruct (Hfirst e2 H2 V2) as [|Hlt]; [done|]. exfalso.
      pose proof (M2 e He Ve) as Hle.
      apply ikc_compare_lt in Hlt; [|done..].
      rewrite !user_key_ikey, !ikey_tag_ikey in Hlt by (done || by eapply entry_pkey_wf, Hw).
      unfold visible in V2. apply andb_true_iff in V2 as [V2%Z.eqb_eq _].
      destruct We as (_ & _ & _ & Ue). destruct (Hw e2 H2) as (_ & _ & _ & Ue2).
      apply (compare_eq_flip udom uc) in V2; [|done..].
      pose proof (compare_eq_l udom uc _ _ _ Ue Hu Ue2 E0) as Hsg.
      unfold entry_tag in Hle. lia.
    + apply newest_none with (e := e) in E2; [congruence|done].
  - apply newest_none. intros e' He'. destruct (visible uc u s e') eqn:V'; [|done]. exfalso.
    destruct (Hfirst e' He' V') as [->|Hlt];
      unfold visible in V'; apply andb_true_iff in V' as [V'%Z.eqb_eq _]; [done|].
    apply ikc_compare_lt in Hlt; [|done..].
    rewrite !user_key_ikey in Hlt by (done || by eapply entry_pkey_wf, Hw).
    destruct We as (_ & _ & _ & Ue). destruct (Hw e' He') as (_ & _ & _ & Ue').
    assert (ldb_compare uc (user_key e.1) u <= 0); [|lia].
    apply (compare_trans (c := uc) _ (user_key e'.1)); [done..|lia|lia].
Qed.

Lemma memtable_get_spec mt h u s :
  mt_holds udom uc mt h -> udom u -> zlen u < 2 ^ 32 - 8 -> 0 <= s <= LDB_MAX_SEQUENCE ->
  ldb_memtable_get mt (ldb_lkey_init u s) = Some (read_version (newest uc u s h)).
Proof.
  intros ([pieces Ha] & Hc & Hc' & Hwf & es & Hs & Hp) Hu Hl Hseq.
  destruct (lkey_parts u s Hl) as (Em & _ & Eu).
  assert (ComparatorLaws (ikey_dom udom) (sl_comparator (mt_table mt))) as HL by (rewrite Hc'; apply _).
  pose proof (target_entry_ok u s Hu Hl Hseq) as Ht.
  destruct (seek_spec (ikey_dom udom) (mt_table mt) es _ Hs Ht) as (node & E1 & E2 & E3).
  pose proof (holds_sorted (ikey_dom udom) (mt_table mt) es Hs) as Hsort. rewrite Hc' in *.
  pose proof (first_ge_newest h es u s Hwf Hp Hsort Hu Hl Hseq) as Hn.
  unfold ldb_memtable_get. rewrite Em, E1, Hc, Eu. cbn [mbind option_bind]. rewrite E3.
  destruct (entries_ge _ _ es) as [|m rest].
  { rewrite bool_decide_eq_false_2 by tauto. by rewrite Hn. }
  rewrite bool_decide_eq_true_2 by done. destruct Hn as (e & -> & We & ->).
  cbn [cmp_user_comparator ldb_ikc_init mbind option_bind]. rewrite E2. cbn [head mbind option_bind].
  destruct (decode_entry udom e We) as [-> D2].
  pose proof (entry_pkey_wf _ _ We) as Pe.
  assert (8 <= zlen (ikey e.1) < 2 ^ 64) as Hlen.
  { rewrite zlen_ikey. unfold ldb_pkey_size. destruct Pe. zlia. }
  rewrite (proj2 (Z.ltb_ge _ _)) by lia.
  rewrite <- extract_user_key_take, user_key_ikey by done.
  destruct (ldb_compare uc (user_key e.1) u =? 0); [|done].
  rewrite ikey_tag_eq, ikey_tag_ikey by done. rewrite pack_seqtype_sum by apply Pe.
  rewrite land_255, Z.add_comm, Z.mod_add by lia. cbn [read_version].
  destruct (type e.1); cbn [valtype_num]; [done|]. by rewrite D2.
Qed.
End Memtable.

(** A memtable filled with versions of distinct keys and tags. *)
Lemma memtable_fill udom uc `{!ComparatorLaws udom uc} h :
  Forall (entry_wf udom) h ->
  ForallOrdPairs (fun e e' =>
    ldb_compare uc (user_key e'.1) (user_key e.1) = 0 -> entry_tag e' <> entry_tag e) h ->
  exists mt,
    fold_right (fun e mt => mt ← mt; ldb_memtable_add mt (sequence e.1) (type e.1) (user_key e.1) e.2)
      (Some (ldb_memtable_create (ldb_ikc_init uc))) h = Some mt /\ mt_holds udom uc mt h.
Proof.
  intros Hwf Hd. induction Hd as [|e h He Hd IH]; [eexists; split; [reflexivity|by apply mt_holds_create]|].
  apply List.Forall_cons_iff in Hwf as [We Wh]. destruct (IH Wh) as (mt & E & H). cbn [fold_right].
  rewrite E. cbn [mbind option_bind]. destruct e as [[k q t] v]. cbn [fst snd user_key sequence type] in *.
  destruct (memtable_add_spec udom uc mt h q t k v H We) as (mt' & E' & H' & _); [|eauto].
  intros e He' Hc. rewrite List.Forall_forall in He. by apply (He e (proj1 (list_elem_of_In _ _) He')).
Qed.

(** ** Properties *)

(** C26: A memtable implements a multi-version map: created empty and filled by
    [ldb_memtable_add] with any versions of distinct (user key, sequence, type),
    in any order, every insertion succeeds and [ldb_memtable_get] at a snapshot
    returns the value or the deletion of the newest version the snapshot sees,
    or reports that there is none. *)
Theorem memtable_get_newest udom uc `{!ComparatorLaws udom uc} h u s :
  Forall (entry_wf udom) h ->
  ForallOrdPairs (fun e e' =>
    ldb_compare uc (user_key e'.1) (user_key e.1) = 0 -> entry_tag e' <> entry_tag e) h ->
  udom u -> zlen u < 2 ^ 32 - 8 -> 0 <= s <= LDB_MAX_SEQUENCE ->
  exists mt,
    fold_right (fun e mt => mt ← mt; ldb_memtable_add mt (sequence e.1) (type e.1) (user_key e.1) e.2)
      (Some (ldb_memtable_create (ldb_ikc_init uc))) h = Some mt /\
    ldb_memtable_get mt (ldb_lkey_init u s) = Some (read_version (newest uc u s h)).
Proof.
  intros Hwf Hd Hu Hl Hs. destruct (memtable_fill udom uc h Hwf Hd) as (mt & E & H).
  exists mt. split; [done|]. by apply (memtable_get_spec udom uc).
Qed.

Lemma memtable_get_newest_witness :
  let h := [(Pkey [Byte.x61] 3 LDB_TYPE_DELETION, []); (Pkey [Byte.x61] 2 LDB_TYPE_VALUE, [Byte.x76])] in
  exists mt, ldb_memtable_get mt (ldb_lkey_init [Byte.x61] 2) = Some (GetValue [Byte.x76]).
Proof.
  intros h.
  destruct (memtable_get_newest (fun _ => True) bytewise_comparator h [Byte.x61] 2) as (mt & _ & E).
  - repeat (apply List.Forall_cons; [repeat split; by vm_compute|]). apply List.Forall_nil.
  - repeat constructor. intros _. by vm_compute.
  - exact I.
  - by vm_compute.
  - by vm_compute.
  - exists mt. exact E.
Defined.
