(* ===== verification/WriteBatch.v ===== *)
(** * Write batches

    Models [src/engine/src/write_batch.h] and [write_batch.c]: batches as byte
    strings ([rep]), their iteration with a handler, and their insertion into a
    memtable. *)

From S2P Require Import Prelude Coding Status Comparator DBFormat Random Skiplist Memtable.
#[local] Open Scope Z_scope.

(** ** Data and operations *)

Definition LDB_HEADER : Z := 12.

Definition ldb_batch_reset : bytes := zeros LDB_HEADER.
Definition ldb_batch_init : bytes := ldb_batch_reset.

Definition ldb_batch_approximate_size (rep : bytes) : Z := zlen rep.

(** [int] results and arguments are 32 bits wide. *)
Definition ldb_batch_count (rep : bytes) : Z := s32 (fixed32_decode (zdrop 8 rep)).

Definition ldb_batch_set_count (rep : bytes) (count : Z) : bytes :=
  ztake 8 rep ++ fixed32_write (u32 count) ++ zdrop 12 rep.

Definition ldb_batch_sequence (rep : bytes) : Z := fixed64_decode rep.

Definition ldb_batch_set_sequence (rep : bytes) (seq : Z) : bytes :=
  fixed64_write seq ++ zdrop 8 rep.

Definition ldb_batch_put (rep key value : bytes) : bytes :=
  ldb_batch_set_count rep (ldb_batch_count rep + 1) ++
  [z2b (valtype_num LDB_TYPE_VALUE)] ++ slice_write key ++ slice_write value.

Definition ldb_batch_del (rep key : bytes) : bytes :=
  ldb_batch_set_count rep (ldb_batch_count rep + 1) ++
  [z2b (valtype_num LDB_TYPE_DELETION)] ++ slice_write key.

Definition ldb_batch_append (dst src : bytes) : bytes :=
  ldb_batch_set_count dst (ldb_batch_count dst + ldb_batch_count src) ++ zdrop LDB_HEADER src.

Definition ldb_batch_set_contents (contents : bytes) : bytes := contents.
Definition ldb_batch_contents (rep : bytes) : bytes := rep.
Definition ldb_batch_size (rep : bytes) : Z := zlen rep.

(** [ldb_handler_t] with its state; a callback that cannot go on is [None]. *)
Record handler (H : Type) := Handler {
  h_put : H -> bytes -> bytes -> option H;
  h_del : H -> bytes -> option H
}.
Arguments h_put {H}.
Arguments h_del {H}.
Arguments Handler {H}.

Section Iterate.
Context {H : Type} (handler : handler H).

(** The loop of [ldb_batch_iterate]: the status it ends with, the handler and
    the number of records.  [None] is a callback that failed, or no fuel. *)
Fixpoint iterate_loop (fuel : nat) (input : bytes) (h : H) (found : Z) : option (Z * H * Z) :=
  match fuel with
  | O => None
  | S fuel =>
    match input with
    | [] => Some (LDB_OK, h, found)
    | tag :: input =>
      let found := s32 (found + 1) in
      if b2z tag =? valtype_num LDB_TYPE_VALUE then
        match slice_slurp input with
        | (None, _) => Some (LDB_CORRUPTION, h, found)
        | (Some key, input) =>
          match slice_slurp input with
          | (None, _) => Some (LDB_CORRUPTION, h, found)
          | (Some value, input) =>
            h ← h_put handler h key value; iterate_loop fuel input h found
          end
        end
      else if b2z tag =? valtype_num LDB_TYPE_DELETION then
        match slice_slurp input with
        | (None, _) => Some (LDB_CORRUPTION, h, found)
        | (Some key, input) => h ← h_del handler h key; iterate_loop fuel input h found
        end
      else Some (LDB_CORRUPTION, h, found)
    end
  end.

(** Every turn consumes a byte at least. *)
Definition ldb_batch_iterate (rep : bytes) (h : H) : option (Z * H) :=
  if zlen rep <? LDB_HEADER then Some (LDB_CORRUPTION, h)
  else
    let input := zdrop LDB_HEADER rep in
    '(rc, h, found) ← iterate_loop (S (length input)) input h 0;
    if rc =? LDB_OK then
      if negb (found =? ldb_batch_count rep) then Some (LDB_CORRUPTION, h) else Some (LDB_OK, h)
    else Some (rc, h).
End Iterate.

(** The handler of [ldb_batch_insert_into]: the memtable and the sequence
    number of the next record. *)
Definition memtable_put (h : memtable * Z) (key value : bytes) : option (memtable * Z) :=
  mt ← ldb_memtable_add h.1 h.2 LDB_TYPE_VALUE key value; Some (mt, u64 (h.2 + 1)).

Definition memtable_del (h : memtable * Z) (key : bytes) : option (memtable * Z) :=
  mt ← ldb_memtable_add h.1 h.2 LDB_TYPE_DELETION key []; Some (mt, u64 (h.2 + 1)).

Definition ldb_batch_insert_into (rep : bytes) (table : memtable) : option (Z * memtable) :=
  '(rc, h) ← ldb_batch_iterate (Handler memtable_put memtable_del) rep
               (table, ldb_batch_sequence rep);
  Some (rc, h.1).

(** ** Batches as lists of updates *)

Inductive update := Put (key value : bytes) | Del (key : bytes).

Definition update_wf (x : update) : Prop :=
  match x with Put k v => slice_wf k /\ slice_wf v | Del k => slice_wf k end.

Definition batch_add (rep : bytes) (x : update) : bytes :=
  match x with Put k v => ldb_batch_put rep k v | Del k => ldb_batch_del rep k end.

(** The batch a client builds with [ldb_batch_put] and [ldb_batch_del]. *)
Definition batch_of (us : list update) : bytes := fold_left batch_add us ldb_batch_init.

Definition record_bytes (x : update) : bytes :=
  match x with
  | Put k v => [z2b (valtype_num LDB_TYPE_VALUE)] ++ slice_write k ++ slice_write v
  | Del k => [z2b (valtype_num LDB_TYPE_DELETION)] ++ slice_write k
  end.

(** The layout of a batch. *)
Definition batch_bytes (seq : Z) (us : list update) : bytes :=
  fixed64_write seq ++ fixed32_write (zlen us) ++ concat (map record_bytes us).

Definition run_handler {H} (hd : handler H) (h : H) (us : list update) : option H :=
  fold_left (fun h x => h ← h; match x with
    | Put k v => h_put hd h k v
    | Del k => h_del hd h k
    end) us (Some h).

Lemma s32_small z : - 2 ^ 31 <= z < 2 ^ 31 -> s32 z = z.
Proof. intros Hz. unfold s32. rewrite Z.mod_small by lia. lia. Qed.

Lemma batch_count_bytes seq us :
  zlen us < 2 ^ 31 -> ldb_batch_count (batch_bytes seq us) = zlen us.
Proof.
  intros H. pose proof (zlen_nonneg us). unfold ldb_batch_count, batch_bytes.
  rewrite zdrop_app by (by rewrite zlen_fixed64_write).
  rewrite fixed32_decode_write by lia. apply s32_small. lia.
Qed.

Lemma zlen_header seq n : zlen (fixed64_write seq ++ fixed32_write n) = 12.
Proof. by rewrite zlen_app, zlen_fixed64_write, zlen_fixed32_write. Qed.

Lemma batch_body seq us : zdrop 12 (batch_bytes seq us) = concat (map record_bytes us).
Proof. unfold batch_bytes. rewrite app_assoc, zdrop_app; [done|by rewrite zlen_header]. Qed.

Lemma batch_set_count_bytes seq us n :
  0 <= n < 2 ^ 32 ->
  ldb_batch_set_count (batch_bytes seq us) n =
    fixed64_write seq ++ fixed32_write n ++ concat (map record_bytes us).
Proof.
  intros H. unfold ldb_batch_set_count. rewrite batch_body, u32_small by done.
  unfold batch_bytes. by rewrite ztake_app by (by rewrite zlen_fixed64_write).
Qed.

Lemma batch_add_bytes seq us x :
  zlen us + 1 < 2 ^ 31 -> batch_add (batch_bytes seq us) x = batch_bytes seq (us ++ [x]).
Proof.
  intros H. pose proof (zlen_nonneg us).
  assert (ldb_batch_set_count (batch_bytes seq us) (ldb_batch_count (batch_bytes seq us) + 1)
    ++ record_bytes x = batch_bytes seq (us ++ [x])) as E.
  { rewrite batch_count_bytes, batch_set_count_bytes by lia. unfold batch_bytes.
    rewrite zlen_app, map_app, concat_app, zlen_cons, zlen_nil. cbn [map concat].
    rewrite app_nil_r, <- !app_assoc. do 3 f_equal. }
  destruct x; exact E.
Qed.

Lemma batch_init_bytes : ldb_batch_init = batch_bytes 0 [].
Proof. by vm_compute. Qed.

Lemma batch_of_bytes us : zlen us < 2 ^ 31 -> batch_of us = batch_bytes 0 us.
Proof.
  unfold batch_of. induction us as [|x us IH] using rev_ind; intros H; [apply batch_init_bytes|].
  rewrite zlen_app, zlen_cons, zlen_nil in H. pose proof (zlen_nonneg us).
  rewrite fold_left_app. cbn [fold_left]. rewrite IH by lia. apply batch_add_bytes. lia.
Qed.

Lemma batch_set_sequence_bytes seq seq' us :
  ldb_batch_set_sequence (batch_bytes seq us) seq' = batch_bytes seq' us.
Proof.
  unfold ldb_batch_set_sequence, batch_bytes. by rewrite zdrop_app by (by rewrite zlen_fixed64_write).
Qed.

Lemma batch_sequence_bytes seq us :
  0 <= seq < 2 ^ 64 -> ldb_batch_sequence (batch_bytes seq us) = seq.
Proof. intros H. unfold ldb_batch_sequence, batch_bytes. by apply fixed64_decode_write. Qed.

Lemma batch_append_bytes s1 s2 us vs :
  zlen us + zlen vs < 2 ^ 31 ->
  ldb_batch_append (batch_bytes s1 us) (batch_bytes s2 vs) = batch_bytes s1 (us ++ vs).
Proof.
  intros H. pose proof (zlen_nonneg us). pose proof (zlen_nonneg vs). unfold ldb_batch_append.
  rewrite !batch_count_bytes, batch_set_count_bytes, batch_body by lia.
  unfold batch_bytes. rewrite zlen_app, map_app, concat_app, <- !app_assoc. done.
Qed.

(** ** Iteration *)

Lemma run_handler_cons {H} (hd : handler H) h x us :
  run_handler hd h (x :: us) =
    (h ← match x with Put k v => h_put hd h k v | Del k => h_del hd h k end;
     run_handler hd h us).
Proof.
  unfold run_handler. cbn [fold_left mbind option_bind].
  destruct (match x with Put k v => h_put hd h k v | Del k => h_del hd h k end); [done|].
  cbn [mbind option_bind]. by induction us.
Qed.

Lemma iterate_loop_records {H} (hd : handler H) us fuel h n :
  Forall update_wf us -> (length us < fuel)%nat -> 0 <= n -> n + zlen us < 2 ^ 31 ->
  iterate_loop hd fuel (concat (map record_bytes us)) h n =
    (h ← run_handler hd h us; Some (LDB_OK, h, n + zlen us)).
Proof.
  intros Hwf. revert fuel h n. induction Hwf as [|x us Hx _ IH]; intros fuel h n Hf Hn Hb.
  { destruct fuel; [lia|]. cbn. by rewrite Z.add_0_r. }
  destruct fuel as [|fuel]; [cbn in Hf; lia|]. rewrite zlen_cons in Hb. pose proof (zlen_nonneg us).
  rewrite run_handler_cons. cbn [map concat]. rewrite zlen_cons.
  replace (n + (1 + zlen us)) with (n + 1 + zlen us) by lia.
  assert (s32 (n + 1) = n + 1) as En by (apply s32_small; lia). cbn [length] in Hf.
  destruct x as [k v|k]; cbn [record_bytes update_wf] in *; rewrite <- !app_assoc;
    cbn [app iterate_loop]; rewrite b2z_z2b; cbn -[run_handler iterate_loop slice_slurp s32 Z.add];
    rewrite En; unfold slice_slurp.
  - destruct Hx as [Hk Hv]. rewrite !(codec_roundtrip (dec := slice_read)) by done.
    destruct (h_put hd h k v) as [h'|]; [|done]. cbn [mbind option_bind]. apply IH; lia.
  - rewrite !(codec_roundtrip (dec := slice_read)) by done.
    destruct (h_del hd h k) as [h'|]; [|done]. cbn [mbind option_bind]. apply IH; lia.
Qed.

Lemma length_records us : (length us <= length (concat (map record_bytes us)))%nat.
Proof.
  induction us as [|x us IH]; cbn [map concat length]; [lia|]. rewrite length_app.
  destruct x; cbn [record_bytes length app]; lia.
Qed.

Lemma batch_iterate_bytes {H} (hd : handler H) seq us h :
  Forall update_wf us -> zlen us < 2 ^ 31 ->
  ldb_batch_iterate hd (batch_bytes seq us) h = (h ← run_handler hd h us; Some (LDB_OK, h)).
Proof.
  intros Hwf Hb. unfold ldb_batch_iterate, LDB_HEADER. rewrite batch_body.
  assert (12 <= zlen (batch_bytes seq us)) as Hl.
  { unfold batch_bytes. rewrite app_assoc, zlen_app, zlen_header. zlia. }
  rewrite (proj2 (Z.ltb_ge _ _)) by lia.
  pose proof (length_records us).
  rewrite iterate_loop_records by (done || lia). rewrite batch_count_bytes by done.
  destruct (run_handler hd h us); [|done]. cbn [mbind option_bind].
  by rewrite Z.eqb_refl, Z.add_0_l, Z.eqb_refl.
Qed.

(** Iteration over arbitrary bytes ends, with success or a corruption. *)
Lemma iterate_loop_total {H} (hd : handler H) fuel input h n :
  (forall h k v, is_Some (h_put hd h k v)) -> (forall h k, is_Some (h_del hd h k)) ->
  (length input < fuel)%nat ->
  exists rc h' n', iterate_loop hd fuel input h n = Some (rc, h', n') /\
    (rc = LDB_OK \/ rc = LDB_CORRUPTION).
Proof.
  intros Hput Hdel. revert input h n. induction fuel as [|fuel IH]; intros input h n Hf; [lia|].
  destruct input as [|tag input]; cbn [iterate_loop]; [eauto 10|]. cbn [length] in Hf.
  assert (forall x ys, slice_slurp input = (Some x, ys) -> (length ys <= length input)%nat) as Hs.
  { intros x ys E. apply slice_read_sound in E as (_ & p & -> & _). rewrite !length_app. lia. }
  destruct (b2z tag =? valtype_num LDB_TYPE_VALUE).
  - destruct (slice_slurp input) as [[k|] ys] eqn:E1; [|eauto 10].
    specialize (Hs k ys eq_refl).
    destruct (slice_slurp ys) as [[v|] zs] eqn:E2; [|eauto 10].
    destruct (Hput h k v) as [h' ->]. cbn [mbind option_bind]. apply IH.
    apply slice_read_sound in E2 as (_ & p & -> & _). rewrite !length_app in Hs. lia.
  - destruct (b2z tag =? valtype_num LDB_TYPE_DELETION); [|eauto 10].
    destruct (slice_slurp input) as [[k|] ys] eqn:E1; [|eauto 10].
    specialize (Hs k ys eq_refl). destruct (Hdel h k) as [h' ->]. cbn [mbind option_bind].
    apply IH. lia.
Qed.

(** ** Insertion into a memtable *)

(** The versions the records of a batch become. *)
Definition update_entry (seq : Z) (x : update) : entry :=
  match x with
  | Put k v => (Pkey k seq LDB_TYPE_VALUE, v)
  | Del k => (Pkey k seq LDB_TYPE_DELETION, [])
  end.

Fixpoint numbered (seq : Z) (us : list update) : list entry :=
  match us with [] => [] | x :: us => update_entry seq x :: numbered (seq + 1) us end.

Definition update_key (x : update) : bytes := match x with Put k _ => k | Del k => k end.

(** The last update of a key. *)
Definition last_update (uc : comparator) (us : list update) (u : bytes) : option update :=
  fold_left (fun acc x => if ldb_compare uc (update_key x) u =? 0 then Some x else acc) us None.

Definition read_update (x : update) : get_result :=
  match x with Put _ v => GetValue v | Del _ => GetNotFound end.

Section InsertInto.
Context (udom : bytes -> Prop) (uc : comparator) `{!ComparatorLaws udom uc}.

(** What a record must satisfy to be stored. *)
Definition update_ok (x : update) : Prop := entry_wf udom (update_entry 0 x).

Lemma update_ok_entry x seq :
  update_ok x -> 0 <= seq <= LDB_MAX_SEQUENCE -> entry_wf udom (update_entry seq x).
Proof. intros (_ & H) Hs. by destruct x; split. Qed.

Lemma update_ok_wf x : update_ok x -> update_wf x.
Proof.
  destruct x; intros (_ & H1 & H2 & _); cbn [fst snd update_entry user_key update_wf] in *;
    unfold slice_wf; [split|]; lia.
Qed.

Lemma numbered_app seq us x :
  numbered seq (us ++ [x]) = numbered seq us ++ [update_entry (seq + zlen us) x].
Proof.
  revert seq. induction us as [|y us IH]; intros seq; cbn [numbered app].
  - by rewrite Z.add_0_r.
  - rewrite IH, zlen_cons. by replace (seq + 1 + zlen us) with (seq + (1 + zlen us)) by lia.
Qed.

Lemma update_entry_parts seq x :
  user_key (update_entry seq x).1 = update_key x /\ sequence (update_entry seq x).1 = seq /\
  read_version (Some (update_entry seq x)) = read_update x.
Proof. by destruct x. Qed.

(** The sequence numbers of a history lie below [seq]. *)
Definition before (seq : Z) (h : list entry) : Prop :=
  Forall (fun e => 0 <= sequence e.1 < seq) h.

Lemma run_insert us mt h seq :
  mt_holds udom uc mt h -> before seq h -> Forall update_ok us ->
  0 <= seq -> seq + zlen us <= LDB_MAX_SEQUENCE + 1 ->
  exists mt', run_handler (Handler memtable_put memtable_del) (mt, seq) us =
      Some (mt', seq + zlen us) /\
    mt_holds udom uc mt' (rev (numbered seq us) ++ h) /\
    before (seq + zlen us) (rev (numbered seq us) ++ h).
Proof.
  intros Hm Hb Hus. revert mt h seq Hm Hb. induction Hus as [|x us Hx _ IH]; intros mt h seq Hm Hb H0 Hmax.
  { exists mt. by rewrite Z.add_0_r. }
  rewrite zlen_cons in Hmax. pose proof (zlen_nonneg us).
  change LDB_MAX_SEQUENCE with (2 ^ 56 - 1) in *.
  assert (entry_wf udom (update_entry seq x)) as Hw
    by (apply update_ok_entry; [done|change LDB_MAX_SEQUENCE with (2 ^ 56 - 1); lia]).
  destruct (update_entry_parts seq x) as (Ek & Es & _).
  assert (exists mt1, match x with
    | Put k v => memtable_put (mt, seq) k v
    | Del k => memtable_del (mt, seq) k
    end = Some (mt1, seq + 1) /\ mt_holds udom uc mt1 (update_entry seq x :: h)) as (mt1 & E1 & Hm1).
  { assert (forall t, forall e, e ∈ h -> ldb_compare uc (user_key e.1) (update_key x) = 0 ->
      entry_tag e <> pack_seqtype seq t) as Hne.
    { intros t e He _. unfold before in Hb. rewrite List.Forall_forall in Hb.
      specialize (Hb e (proj1 (list_elem_of_In _ _) He)). intros E.
      pose proof (pack_seqtype_lt (sequence e.1) (type e.1) seq t) as Hlt.
      unfold entry_tag in E. change LDB_MAX_SEQUENCE with (2 ^ 56 - 1) in *. lia. }
    destruct x as [k v|k]; unfold memtable_put, memtable_del; cbn [fst snd update_key update_entry] in *;
    [destruct (memtable_add_spec udom uc mt h seq LDB_TYPE_VALUE k v Hm Hw (Hne _)) as (mt1 & E1 & Hm1 & _)
    |destruct (memtable_add_spec udom uc mt h seq LDB_TYPE_DELETION k [] Hm Hw (Hne _)) as (mt1 & E1 & Hm1 & _)];
    exists mt1; rewrite E1; cbn [mbind option_bind]; rewrite u64_small by lia; done. }
  rewrite run_handler_cons. cbn [h_put h_del]. rewrite E1. cbn [mbind option_bind].
  destruct (IH mt1 (update_entry seq x :: h) (seq + 1)) as (mt' & E & Hm' & Hb').
  - done.
  - constructor; [rewrite Es; lia|]. eapply List.Forall_impl; [|exact Hb]. intros e ?. cbn in *. lia.
  - lia.
  - lia.
  - exists mt'. rewrite E, zlen_cons. cbn [numbered rev]. rewrite <- app_assoc. cbn [app].
    split; [do 2 f_equal; lia|]. split; [done|]. by replace (seq + (1 + zlen us)) with (seq + 1 + zlen us) by lia.
Qed.

(** The newest version when one is newer than the rest. *)
Lemma newest_fresh u s e h seq :
  sequence e.1 = seq -> 0 <= seq <= LDB_MAX_SEQUENCE -> before seq h ->
  newest uc u s (e :: h) = if visible uc u s e then Some e else newest uc u s h.
Proof.
  intros <- Hs Hb. cbn [newest]. destruct (newest uc u s h) as [e'|] eqn:E; [|by destruct (visible _ _ _ _)].
  apply newest_some in E as (He' & _). unfold before in Hb. rewrite List.Forall_forall in Hb.
  specialize (Hb e' (proj1 (list_elem_of_In _ _) He')).
  destruct (visible uc u s e); [|done]. cbn [andb].
  assert (entry_tag e' < entry_tag e) as Hlt.
  { unfold entry_tag. apply pack_seqtype_lt; [lia|done|lia]. }
  by rewrite (proj2 (Z.ltb_lt _ _)) by done.
Qed.

Lemma before_numbered us seq h :
  0 <= seq -> before seq h -> before (seq + zlen us) (rev (numbered seq us) ++ h).
Proof.
  intros H0 Hb. unfold before. apply List.Forall_app. split.
  - apply List.Forall_rev. revert seq H0 Hb. induction us as [|x us IH]; intros seq H0 Hb; constructor.
    + destruct (update_entry_parts seq x) as (_ & -> & _). rewrite zlen_cons. pose proof (zlen_nonneg us). lia.
    + rewrite zlen_cons. replace (seq + (1 + zlen us)) with (seq + 1 + zlen us) by lia. apply IH; [lia|].
      eapply List.Forall_impl; [|exact Hb]. cbn. intros e ?. lia.
  - eapply List.Forall_impl; [|exact Hb]. intros e ?. pose proof (zlen_nonneg us). cbn in *. lia.
Qed.

(** A snapshot at [s] sees the records numbered up to [s], and of those the
    last one of its key; without one it sees what was there before. *)
Lemma newest_numbered us u s h seq :
  before seq h -> 0 <= seq -> seq + zlen us <= LDB_MAX_SEQUENCE + 1 ->
  read_version (newest uc u s (rev (numbered seq us) ++ h)) =
    match last_update uc (ztake (s + 1 - seq) us) u with
    | Some x => read_update x
    | None => read_version (newest uc u s h)
    end.
Proof.
  intros Hb H0. induction us as [|x us IH] using rev_ind; intros Hmax.
  { by unfold ztake; rewrite take_nil. }
  rewrite zlen_app, zlen_cons, zlen_nil in Hmax. pose proof (zlen_nonneg us).
  rewrite numbered_app, rev_app_distr. cbn [rev app].
  destruct (update_entry_parts (seq + zlen us) x) as (Ek & Es & Er).
  rewrite (newest_fresh u s _ _ (seq + zlen us)); [|done|lia|by apply before_numbered].
  unfold visible. rewrite Ek, Es.
  destruct (Z.leb_spec (seq + zlen us) s) as [Hle|Hgt].
  - rewrite ztake_all by zlia. rewrite ztake_all in IH by zlia.
    unfold last_update. rewrite fold_left_app. cbn [fold_left].
    destruct (ldb_compare uc (update_key x) u =? 0); cbn [andb]; [exact Er|apply IH; lia].
  - rewrite andb_false_r. rewrite IH by lia.
    assert (ztake (s + 1 - seq) (us ++ [x]) = ztake (s + 1 - seq) us) as ->; [|done].
    unfold ztake. rewrite take_app_le; [done|]. unfold zlen in *. lia.
Qed.
End InsertInto.

(** ** Properties *)

(** C40: A write batch round-trips: the batch a client builds from any list of
    fewer than [2^31] puts and deletes has that count, keeps the sequence
    number given to it, appending batches concatenates their updates, and
    [ldb_batch_iterate] hands the updates to any handler in order and succeeds
    iff no callback stops it. *)
Theorem batch_roundtrip {H} (hd : handler H) us vs seq h :
  Forall update_wf (us ++ vs) -> zlen (us ++ vs) < 2 ^ 31 -> 0 <= seq < 2 ^ 64 ->
  let rep := ldb_batch_set_sequence (ldb_batch_append (batch_of us) (batch_of vs)) seq in
  ldb_batch_count rep = zlen (us ++ vs) /\
  ldb_batch_sequence rep = seq /\
  ldb_batch_iterate hd rep h = (h ← run_handler hd h (us ++ vs); Some (LDB_OK, h)).
Proof.
  intros Hwf Hl Hs rep. subst rep. rewrite zlen_app in Hl.
  pose proof (zlen_nonneg us). pose proof (zlen_nonneg vs).
  rewrite !batch_of_bytes, batch_append_bytes, batch_set_sequence_bytes by lia.
  split; [apply batch_count_bytes; rewrite zlen_app; lia|].
  split; [by apply batch_sequence_bytes|].
  apply batch_iterate_bytes; [done|rewrite zlen_app; lia].
Qed.

Lemma batch_roundtrip_witness :
  let us := [Put [Byte.x61] [Byte.x31]; Del [Byte.x62]] in
  let vs := [Put [Byte.x62] []] in
  let rep := ldb_batch_set_sequence (ldb_batch_append (batch_of us) (batch_of vs)) 7 in
  ldb_batch_count rep = 3 /\ ldb_batch_sequence rep = 7.
Proof.
  intros us vs rep.
  destruct (batch_roundtrip (Handler (H := Z) (fun h _ _ => Some h) (fun h _ => Some h)) us vs 7 0)
    as (H1 & H2 & _).
  - repeat (apply List.Forall_cons; [by vm_compute|]). apply List.Forall_nil.
  - by vm_compute.
  - by vm_compute.
  - split; [exact H1|exact H2].
Defined.

(** C22: Writing a batch is visible record by record: inserted at sequence
    number [seq] into a memtable whose versions are older,
    [ldb_batch_insert_into] succeeds, and afterwards a lookup of any key at any
    snapshot [s] returns the last of the batch's records numbered up to [s] for
    that key, and what the memtable held before when there is none. *)
Theorem batch_insert_visible udom uc `{!ComparatorLaws udom uc} mt h us seq u s :
  mt_holds udom uc mt h -> before seq h -> Forall (update_ok udom) us ->
  zlen us < 2 ^ 31 -> 0 <= seq -> seq + zlen us <= LDB_MAX_SEQUENCE + 1 ->
  udom u -> zlen u < 2 ^ 32 - 8 -> 0 <= s <= LDB_MAX_SEQUENCE ->
  exists mt',
    ldb_batch_insert_into (ldb_batch_set_sequence (batch_of us) seq) mt = Some (LDB_OK, mt') /\
    ldb_memtable_get mt' (ldb_lkey_init u s) =
      match last_update uc (ztake (s + 1 - seq) us) u with
      | Some x => Some (read_update x)
      | None => ldb_memtable_get mt (ldb_lkey_init u s)
      end.
Proof.
  intros Hm Hb Hus Hl H0 Hmax Hu Hul Hs.
  destruct (run_insert udom uc us mt h seq Hm Hb Hus H0 Hmax) as (mt' & E & Hm' & _).
  exists mt'. rewrite batch_of_bytes, batch_set_sequence_bytes by done. split.
  - unfold ldb_batch_insert_into. change LDB_MAX_SEQUENCE with (2 ^ 56 - 1) in Hmax.
    pose proof (zlen_nonneg us). rewrite batch_sequence_bytes by lia.
    rewrite batch_iterate_bytes; [|eapply List.Forall_impl; [|exact Hus]; apply update_ok_wf|done].
    by rewrite E.
  - rewrite !(memtable_get_spec udom uc _ _ u s Hm'), (memtable_get_spec udom uc _ _ u s Hm) by done.
    rewrite newest_numbered by done. by destruct (last_update uc _ u).
Qed.

Lemma batch_insert_visible_witness :
  let us := [Put [Byte.x61] [Byte.x31]; Del [Byte.x61]] in
  let mt := ldb_memtable_create (ldb_ikc_init bytewise_comparator) in
  exists mt',
    ldb_batch_insert_into (ldb_batch_set_sequence (batch_of us) 5) mt = Some (LDB_OK, mt') /\
    ldb_memtable_get mt' (ldb_lkey_init [Byte.x61] 5) = Some (GetValue [Byte.x31]).
Proof.
  intros us mt.
  destruct (batch_insert_visible (fun _ => True) bytewise_comparator mt [] us 5 [Byte.x61] 5)
    as (mt' & E & G).
  - apply mt_holds_create.
  - apply List.Forall_nil.
  - repeat (apply List.Forall_cons; [repeat split; by vm_compute|]). apply List.Forall_nil.
  - by vm_compute.
  - lia.
  - by vm_compute.
  - exact I.
  - by vm_compute.
  - by vm_compute.
  - exists mt'. split; [exact E|exact G].
Defined.

(** [ldb_batch_iterate] is total on arbitrary bytes: with callbacks that
    return, it terminates with [LDB_OK] or [LDB_CORRUPTION], and it reports a
    corruption whenever the bytes are shorter than a header. *)
Theorem batch_iterate_total {H} (hd : handler H) rep h :
  (forall h k v, is_Some (h_put hd h k v)) -> (forall h k, is_Some (h_del hd h k)) ->
  exists rc h', ldb_batch_iterate hd rep h = Some (rc, h') /\
    (rc = LDB_OK \/ rc = LDB_CORRUPTION) /\
    (zlen rep < LDB_HEADER -> rc = LDB_CORRUPTION).
Proof.
  intros Hp Hd. unfold ldb_batch_iterate.
  destruct (Z.ltb_spec (zlen rep) LDB_HEADER) as [Hlt|Hge]; [eauto 10|].
  destruct (iterate_loop_total hd (S (length (zdrop LDB_HEADER rep))) (zdrop LDB_HEADER rep) h 0 Hp Hd
    ltac:(lia)) as (rc & h' & n & E & Hrc).
  rewrite E. cbn [mbind option_bind].
  destruct Hrc as [->| ->]; cbn [Z.eqb LDB_OK LDB_CORRUPTION Pos.eqb].
  - destruct (negb _); eexists _, _; (split; [reflexivity|]); (split; [auto|lia]).
  - eexists _, _. split; [reflexivity|]. split; [auto|lia].
Qed.

Lemma batch_iterate_total_witness :
  exists rc h', ldb_batch_iterate (Handler (H := Z) (fun h _ _ => Some h) (fun h _ => Some h))
    [Byte.x00] 0 = Some (rc, h') /\ rc = LDB_CORRUPTION.
Proof.
  destruct (batch_iterate_total (Handler (H := Z) (fun h _ _ => Some h) (fun h _ => Some h))
    [Byte.x00] 0) as (rc & h' & E & _ & Hc).
  - intros h k v. by exists h.
  - intros h k. by exists h.
  - exists rc, h'. split; [exact E|]. apply Hc. by vm_compute.
Defined.
