(* ===== verification/File.v ===== *)
(** * Files

    The operations the storage layer uses of writable and readable files
    ([ldb_wfile_t], [ldb_rfile_t] of [src/engine/src/util/env.h]) as records,
    with classes that state what it relies on, and the file objects of the
    in-memory environment [src/engine/src/util/env_mem_impl.h], a vector of
    8 KB blocks, which keep both contracts. *)

From S2P Require Import Prelude Status.
#[local] Open Scope Z_scope.

(** ** Interfaces *)

Record wfile_ops (F : Type) := WfileOps {
  wfile_append : F -> bytes -> Z * F;
  wfile_flush : F -> Z * F
}.
Arguments wfile_append {F}.
Arguments wfile_flush {F}.
Arguments WfileOps {F}.

(** [rfile_pread f count offset]: the status and the bytes read. *)
Record rfile_ops (F : Type) := RfileOps {
  rfile_mapped : F -> bool;
  rfile_pread : F -> Z -> Z -> Z * bytes
}.
Arguments rfile_mapped {F}.
Arguments rfile_pread {F}.
Arguments RfileOps {F}.

(** Appending extends the contents [rep f]. *)
Class WFileLaws {F} (ops : wfile_ops F) (rep : F -> bytes -> Prop) : Prop := {
  wlaws_append f d xs : rep f d -> zlen d + zlen xs < 2 ^ 64 ->
    exists f', wfile_append ops f xs = (LDB_OK, f') /\ rep f' (d ++ xs);
  wlaws_flush f d : rep f d -> exists f', wfile_flush ops f = (LDB_OK, f') /\ rep f' d
}.

(** Reading inside the file gives the bytes there, fewer at its end. *)
Class RFileLaws {F} (ops : rfile_ops F) (rep : F -> bytes -> Prop) : Prop :=
  rlaws_pread f d count offset : rep f d -> 0 <= count -> 0 <= offset <= zlen d ->
    rfile_pread ops f count offset = (LDB_OK, ztake count (zdrop offset d)).

(** A file that is its contents. *)
Definition mem_file : wfile_ops bytes :=
  WfileOps (fun f xs => (LDB_OK, f ++ xs)) (fun f => (LDB_OK, f)).

#[export] Instance mem_file_laws : WFileLaws mem_file eq.
Proof. split; intros; subst; eauto. Qed.

(** ** The file objects of the in-memory environment *)

Definition BLOCK_SIZE : Z := 8 * 1024.

(** [ldb_fstate_t]: the blocks and the size. *)
Record fstate := Fstate { fs_blocks : list bytes; fs_size : Z }.

Definition ldb_fstate_create : fstate := Fstate [] 0.

Definition ldb_fstate_truncate (state : fstate) : fstate := Fstate [] 0.

Definition ldb_fstate_size (state : fstate) : Z := fs_size state.

(** The loop [while (bytes_to_copy > 0)]: what it appends to [dst]. *)
Fixpoint pread_loop (fuel : nat) (blocks : list bytes) (block block_offset bytes_to_copy : Z) (dst : bytes) : option bytes :=
  if 0 <? bytes_to_copy then
    match fuel with
    | O => None
    | S fuel =>
      let avail := BLOCK_SIZE - block_offset in
      let avail := if bytes_to_copy <? avail then bytes_to_copy else avail in
      b ← blocks !! Z.to_nat block;
      pread_loop fuel blocks (block + 1) 0 (bytes_to_copy - avail) (dst ++ ztake avail (zdrop block_offset b))
    end
  else Some dst.

Definition ldb_fstate_pread (state : fstate) (count offset : Z) : option (Z * bytes) :=
  if fs_size state <? offset then Some (LDB_EINVAL, [])
  else
    let available := fs_size state - offset in
    let count := if available <? count then available else count in
    if count =? 0 then Some (LDB_OK, [])
    else
      dst ← pread_loop (S (length (fs_blocks state))) (fs_blocks state) (offset / BLOCK_SIZE) (offset mod BLOCK_SIZE) count [];
      Some (LDB_OK, dst).

(** [memcpy(b + offset, src, avail)] *)
Definition overwrite (b : bytes) (offset : Z) (src : bytes) : bytes :=
  ztake offset b ++ src ++ zdrop (offset + zlen src) b.

Section Append.
(** What [ldb_malloc] finds in a new block. *)
Context (garbage : bytes).

(** The loop [while (src_len > 0)]. *)
Fixpoint append_loop (fuel : nat) (state : fstate) (src : bytes) : option fstate :=
  if 0 <? zlen src then
    match fuel with
    | O => None
    | S fuel =>
      let offset := fs_size state mod BLOCK_SIZE in
      let '(blocks, avail) :=
        if negb (offset =? 0) then (fs_blocks state, BLOCK_SIZE - offset)
        else (fs_blocks state ++ [garbage], BLOCK_SIZE) in
      let avail := if zlen src <? avail then zlen src else avail in
      top ← list.last blocks;
      let blocks := <[(length blocks - 1)%nat := overwrite top offset (ztake avail src)]> blocks in
      append_loop fuel (Fstate blocks (fs_size state + avail)) (zdrop avail src)
    end
  else Some state.

(** A block holds at least one byte of the source, so the loop runs at most
    [zlen src] times. *)
Definition ldb_fstate_append (state : fstate) (data : bytes) : option fstate :=
  append_loop (length data) state data.

(** [ldb_wfile_t] and [ldb_rfile_t] over a file object. *)
Definition ldb_wfile_append0 (file : fstate) (data : bytes) : option (Z * fstate) :=
  state ← ldb_fstate_append file data; Some (LDB_OK, state).

Definition ldb_wfile_flush (file : fstate) : Z * fstate := (LDB_OK, file).
End Append.

(** Reading sequentially: [ldb_rfile_t] with its position. *)
Record rfile := Rfile { rf_state : fstate; rf_pos : Z }.

Definition ldb_rfile_init (state : fstate) : rfile := Rfile state 0.

Definition ldb_rfile_mapped (file : rfile) : bool := false.

Definition ldb_rfile_read (file : rfile) (count : Z) : option (Z * bytes * rfile) :=
  '(rc, result) ← ldb_fstate_pread (rf_state file) count (rf_pos file);
  Some (rc, result, if rc =? LDB_OK then Rfile (rf_state file) (rf_pos file + zlen result) else file).

Definition ldb_rfile_skip (file : rfile) (offset : Z) : Z * rfile :=
  let size := ldb_fstate_size (rf_state file) in
  if size <? rf_pos file then (LDB_EINVAL, file)
  else
    let available := size - rf_pos file in
    let offset := if available <? offset then available else offset in
    (LDB_OK, Rfile (rf_state file) (rf_pos file + offset)).

Definition ldb_rfile_pread0 (file : rfile) (count offset : Z) : option (Z * bytes) :=
  ldb_fstate_pread (rf_state file) count offset.

(** ** File objects hold byte strings *)

Lemma block_size_pos : 0 < BLOCK_SIZE.
Proof. done. Qed.

Lemma zlen_concat_blocks (blocks : list bytes) :
  Forall (fun b => zlen b = BLOCK_SIZE) blocks -> zlen (concat blocks) = BLOCK_SIZE * zlen blocks.
Proof.
  induction 1 as [|b blocks Hb _ IH]; [done|]. cbn [concat]. rewrite zlen_app, zlen_cons. lia.
Qed.

(** All blocks are full-sized, and the last one is in use. *)
Record fstate_rep (state : fstate) (d : bytes) : Prop := {
  fs_len : fs_size state = zlen d;
  fs_full : Forall (fun b => zlen b = BLOCK_SIZE) (fs_blocks state);
  fs_used : BLOCK_SIZE * (zlen (fs_blocks state) - 1) < zlen d \/ fs_blocks state = [];
  fs_room : zlen d <= BLOCK_SIZE * zlen (fs_blocks state);
  fs_data : d = ztake (zlen d) (concat (fs_blocks state))
}.

Lemma create_rep : fstate_rep ldb_fstate_create [].
Proof. split; cbn; try done; by right. Qed.

Lemma zlen_overwrite b offset src :
  0 <= offset -> offset + zlen src <= zlen b -> zlen (overwrite b offset src) = zlen b.
Proof. intros Ho Hs. pose proof (zlen_nonneg src). unfold overwrite. rewrite !zlen_app, zlen_take, zlen_drop by lia. lia. Qed.

(** The state seen from its last block. *)
Lemma extend_last init b d offset src :
  Forall (fun b => zlen b = BLOCK_SIZE) (init ++ [b]) -> 0 <= offset -> offset + zlen src <= BLOCK_SIZE ->
  0 < zlen src -> d = concat init ++ ztake offset b -> zlen d = zlen (concat init) + offset ->
  fstate_rep (Fstate (init ++ [overwrite b offset src]) (zlen d + zlen src)) (d ++ src).
Proof.
  intros Hf Ho Hs Hp Hd Hl. apply List.Forall_app in Hf as [Hf Hb]. apply List.Forall_cons_iff in Hb as [Hb _].
  pose proof (zlen_concat_blocks init Hf) as Hc.
  split; cbn [fs_size fs_blocks]; rewrite ?zlen_app; try done.
  - apply List.Forall_app. split; [done|]. repeat constructor. by rewrite zlen_overwrite by lia.
  - left. change (zlen [overwrite b offset src]) with 1. lia.
  - change (zlen [overwrite b offset src]) with 1. lia.
  - rewrite concat_app. cbn [concat]. rewrite app_nil_r. unfold overwrite. rewrite Hd at 1.
    rewrite !app_assoc. symmetry. apply ztake_app. rewrite <- Hd, zlen_app. lia.
Qed.

Section AppendProof.
Context (garbage : bytes) (Hgarbage : zlen garbage = BLOCK_SIZE).

Lemma append_loop_ok fuel state d src :
  fstate_rep state d -> (length src <= fuel)%nat ->
  exists state', append_loop garbage fuel state src = Some state' /\ fstate_rep state' (d ++ src).
Proof.
  revert state d src. induction fuel as [|fuel IH]; intros state d src R Hf; cbn [append_loop];
    destruct (Z.ltb_spec 0 (zlen src)) as [Hs|Hs].
  - unfold zlen in Hs. lia.
  - assert (src = []) as -> by (apply zlen_0_nil; pose proof (zlen_nonneg src); lia). rewrite app_nil_r. by exists state.
  - destruct R as [Hl Hfull Hused Hroom Hdata]. rewrite Hl.
    pose proof (Z.mod_pos_bound (zlen d) BLOCK_SIZE block_size_pos) as Hm.
    pose proof (Z.div_mod (zlen d) BLOCK_SIZE ltac:(done)) as Hdm. set (offset := zlen d mod BLOCK_SIZE) in *.
    assert (exists init b, (if negb (offset =? 0) then (fs_blocks state, BLOCK_SIZE - offset)
        else (fs_blocks state ++ [garbage], BLOCK_SIZE)) = (init ++ [b], BLOCK_SIZE - offset) /\
      Forall (fun b => zlen b = BLOCK_SIZE) (init ++ [b]) /\ d = concat init ++ ztake offset b /\
      zlen d = zlen (concat init) + offset) as (init & b & -> & Hall & Hd & Hld).
    { destruct (Z.eqb_spec offset 0) as [E|E]; cbn [negb].
      - exists (fs_blocks state), garbage. split; [f_equal; lia|].
        split; [apply List.Forall_app; split; [done|by repeat constructor]|]. rewrite E, ztake_0, app_nil_r.
        assert (zlen d = zlen (concat (fs_blocks state))) as Hz.
        { rewrite zlen_concat_blocks by done. destruct Hused as [?|He]; [unfold BLOCK_SIZE in *; lia|].
          rewrite He in *. change (zlen (@nil bytes)) with 0 in *. pose proof (zlen_nonneg d). lia. }
        split; [|lia]. rewrite Hdata at 1. by apply ztake_all; rewrite Hz.
      - destruct Hused as [Hused|He].
        2: { rewrite He in *. change (zlen (@nil bytes)) with 0 in *. pose proof (zlen_nonneg d).
             assert (zlen d = 0) as Hz by lia. exfalso. apply E. unfold offset. by rewrite Hz. }
        destruct (exists_last (l := fs_blocks state)) as (init & b & E2).
        { intros E2. rewrite E2 in *. change (zlen (@nil bytes)) with 0 in *. pose proof (zlen_nonneg d).
          assert (zlen d = 0) as Hz by lia. apply E. unfold offset. by rewrite Hz. }
        rewrite E2 in *. exists init, b. split; [done|]. split; [done|].
        apply List.Forall_app in Hfull as [Hi Hb]. pose proof (zlen_concat_blocks init Hi) as Hc.
        rewrite zlen_app in *. change (zlen [b]) with 1 in *.
        assert (zlen d = zlen (concat init) + offset) as Hz by (unfold BLOCK_SIZE in *; lia).
        split; [|done]. rewrite Hdata at 1. rewrite Hz, concat_app. cbn [concat]. rewrite app_nil_r. unfold ztake, zlen.
        rewrite Z2Nat.inj_add, Nat2Z.id by lia. by rewrite take_app_add. }
    cbv iota beta.
    set (avail := if zlen src <? BLOCK_SIZE - offset then zlen src else BLOCK_SIZE - offset).
    assert (0 < avail <= zlen src /\ avail <= BLOCK_SIZE - offset) as [Ha Ha'].
    { unfold avail. destruct (Z.ltb_spec (zlen src) (BLOCK_SIZE - offset)); lia. }
    rewrite list.last_snoc. cbn [mbind option_bind].
    replace (length (init ++ [b]) - 1)%nat with (length init + 0)%nat by (rewrite length_app; cbn; lia).
    rewrite insert_app_r. cbn [list_insert insert].
    destruct (IH (Fstate (init ++ [overwrite b offset (ztake avail src)]) (zlen d + avail)) (d ++ ztake avail src) (zdrop avail src))
      as (state' & E & R').
    + rewrite <- (zlen_take avail src) at 2 by lia. by apply extend_last; rewrite ?zlen_take by lia; try done; lia.
    + unfold zdrop. rewrite length_drop. lia.
    + exists state'. split; [exact E|]. by rewrite <- app_assoc, ztake_zdrop in R'.
  - assert (src = []) as -> by (apply zlen_0_nil; pose proof (zlen_nonneg src); lia). rewrite app_nil_r. by exists state.
Qed.
End AppendProof.

Lemma pread_loop_ok fuel blocks k off n dst :
  Forall (fun b => zlen b = BLOCK_SIZE) blocks -> 0 <= k -> 0 <= off < BLOCK_SIZE -> 0 <= n ->
  BLOCK_SIZE * k + off + n <= BLOCK_SIZE * zlen blocks -> zlen blocks - k <= Z.of_nat fuel ->
  pread_loop fuel blocks k off n dst = Some (dst ++ ztake n (zdrop (BLOCK_SIZE * k + off) (concat blocks))).
Proof.
  intros Hf. revert k off n dst. induction fuel as [|fuel IH]; intros k off n dst Hk Ho Hn Hb Hfu; cbn [pread_loop];
    destruct (Z.ltb_spec 0 n) as [Hn0|Hn0].
  - unfold BLOCK_SIZE in *. lia.
  - assert (n = 0) as -> by lia. by rewrite ztake_0, app_nil_r.
  - assert (k < zlen blocks) as Hkl by (unfold BLOCK_SIZE in *; lia).
    destruct (lookup_lt_is_Some_2 blocks (Z.to_nat k)) as [b Hlk]; [unfold zlen in *; lia|]. rewrite Hlk. cbn [mbind option_bind].
    pose proof (take_drop_middle _ _ _ Hlk) as Hsplit.
    assert (Forall (fun b => zlen b = BLOCK_SIZE) (take (Z.to_nat k) blocks)) as Hft by by apply Forall_take.
    assert (zlen b = BLOCK_SIZE) as Hzb.
    { rewrite List.Forall_forall in Hf. apply Hf, list_elem_of_In. by eapply list_elem_of_lookup_2. }
    assert (zlen (concat (take (Z.to_nat k) blocks)) = BLOCK_SIZE * k) as Hpre.
    { rewrite zlen_concat_blocks by done. unfold zlen. rewrite length_take. unfold zlen in Hkl. f_equal. lia. }
    set (avail := if n <? BLOCK_SIZE - off then n else BLOCK_SIZE - off).
    assert (0 < avail <= n /\ avail <= BLOCK_SIZE - off) as [Ha Ha'].
    { unfold avail. destruct (Z.ltb_spec n (BLOCK_SIZE - off)); lia. }
    rewrite IH; [|lia|by split| |  |].
    + rewrite <- app_assoc. do 2 f_equal. rewrite <- Hsplit, concat_app. cbn [concat].
      set (pre := concat (take (Z.to_nat k) blocks)) in *. set (post := concat (drop _ blocks)).
      assert (zdrop (BLOCK_SIZE * k + off) (pre ++ b ++ post) = zdrop off b ++ post) as ->.
      { rewrite <- Hpre. rewrite <- zdrop_zdrop by (try apply zlen_nonneg; lia). rewrite zdrop_app by done.
        unfold zdrop. rewrite drop_app_le by (unfold zlen in *; lia). done. }
      assert (zlen (zdrop off b) = BLOCK_SIZE - off) as Hzd by (rewrite zlen_drop by lia; lia).
      destruct (Z.ltb_spec n (BLOCK_SIZE - off)) as [Hlt|Hge]; unfold avail in *; clear avail.
      * rewrite Z.sub_diag, ztake_0, app_nil_r. unfold ztake. rewrite take_app_le; [done|]. unfold zlen in *. lia.
      * rewrite (ztake_all (BLOCK_SIZE - off)) by lia.
        assert (ztake n (zdrop off b ++ post) = zdrop off b ++ ztake (n - (BLOCK_SIZE - off)) post) as ->.
        { unfold ztake. rewrite take_app_ge by (unfold zlen in *; lia). do 2 f_equal. unfold zlen in *. lia. }
        f_equal. f_equal. rewrite Z.add_0_r. replace (BLOCK_SIZE * (k + 1)) with (zlen (pre ++ b)) by (rewrite zlen_app, Hpre, Hzb; ring).
        rewrite app_assoc. by apply zdrop_app.
    + lia.
    + rewrite Z.mul_add_distr_l. destruct (Z.ltb_spec n (BLOCK_SIZE - off)); unfold avail, BLOCK_SIZE in *; lia.
    + lia.
  - assert (n = 0) as -> by lia. by rewrite ztake_0, app_nil_r.
Qed.

Lemma pread_ok state d count offset :
  fstate_rep state d -> 0 <= count -> 0 <= offset <= zlen d ->
  ldb_fstate_pread state count offset = Some (LDB_OK, ztake count (zdrop offset d)).
Proof.
  intros [Hl Hfull Hused Hroom Hdata] Hc Ho. unfold ldb_fstate_pread. rewrite Hl, (proj2 (Z.ltb_ge _ _)) by lia.
  set (n := if zlen d - offset <? count then zlen d - offset else count).
  assert (0 <= n <= zlen d - offset /\ ztake n (zdrop offset d) = ztake count (zdrop offset d)) as [Hn <-].
  { unfold n. destruct (Z.ltb_spec (zlen d - offset) count); [|done]. split; [lia|].
    by rewrite !ztake_all by (rewrite zlen_drop; lia). }
  destruct (Z.eqb_spec n 0) as [->|Hn0]; [by rewrite ztake_0|].
  pose proof (Z.mod_pos_bound offset BLOCK_SIZE block_size_pos). pose proof (Z.div_mod offset BLOCK_SIZE ltac:(done)).
  rewrite pread_loop_ok; [|done|apply Z.div_pos; [lia|done]|done|lia|lia|].
  2: { pose proof (Z.div_pos offset BLOCK_SIZE ltac:(lia) block_size_pos). unfold zlen. lia. }
  cbn [mbind option_bind app]. do 2 f_equal.
  replace (BLOCK_SIZE * (offset / BLOCK_SIZE) + offset mod BLOCK_SIZE) with offset by lia.
  transitivity (ztake n (zdrop offset (ztake (zlen d) (concat (fs_blocks state))))); [|by rewrite <- Hdata].
  unfold ztake, zdrop. rewrite skipn_firstn_comm, take_take. f_equal. lia.
Qed.

Lemma pread_outside state d count offset :
  fstate_rep state d -> zlen d < offset -> ldb_fstate_pread state count offset = Some (LDB_EINVAL, []).
Proof. intros [Hl _ _ _ _] Ho. unfold ldb_fstate_pread. by rewrite Hl, (proj2 (Z.ltb_lt _ _)). Qed.

(** ** The contracts *)

(** The operations as tables; the model's failure value is unreachable. *)
Definition memenv_wfile (garbage : bytes) : wfile_ops fstate :=
  WfileOps (fun f xs => from_option id (LDB_IOERR, f) (ldb_wfile_append0 garbage f xs)) ldb_wfile_flush.

Definition memenv_rfile : rfile_ops fstate :=
  RfileOps (fun f => ldb_rfile_mapped (ldb_rfile_init f))
    (fun f count offset => from_option id (LDB_IOERR, []) (ldb_rfile_pread0 (ldb_rfile_init f) count offset)).

#[export] Instance memenv_wfile_laws garbage :
  TCEq (zlen garbage) BLOCK_SIZE -> WFileLaws (memenv_wfile garbage) fstate_rep.
Proof.
  intros Hg%TCEq_eq. split.
  - intros f d xs R _. destruct (append_loop_ok garbage Hg (length xs) f d xs R (le_n _)) as (f' & E & R').
    exists f'. split; [|done]. cbn. unfold ldb_wfile_append0, ldb_fstate_append. by rewrite E.
  - intros f d R. by exists f.
Qed.

#[export] Instance memenv_rfile_laws : RFileLaws memenv_rfile fstate_rep.
Proof. intros f d count offset R Hc Ho. cbn. unfold ldb_rfile_pread0. cbn. by rewrite (pread_ok f d). Qed.

(** ** Properties *)

(** Reads of a sequential file: the chunks returned. *)
Fixpoint read_chunks (file : rfile) (counts : list Z) : option (list bytes * rfile) :=
  match counts with
  | [] => Some ([], file)
  | n :: counts =>
    '(rc, xs, file) ← ldb_rfile_read file n;
    if rc =? LDB_OK then '(rest, file) ← read_chunks file counts; Some (xs :: rest, file) else None
  end.

(** Appends, one after the other. *)
Fixpoint append_all (garbage : bytes) (state : fstate) (chunks : list bytes) : option fstate :=
  match chunks with
  | [] => Some state
  | xs :: chunks => state ← ldb_fstate_append garbage state xs; append_all garbage state chunks
  end.

Lemma read_chunks_ok counts : forall file d,
  fstate_rep (rf_state file) d -> 0 <= rf_pos file <= zlen d -> Forall (Z.le 0) counts ->
  exists xss file', read_chunks file counts = Some (xss, file') /\
    concat xss = ztake (foldr Z.add 0 counts) (zdrop (rf_pos file) d).
Proof.
  induction counts as [|n counts IH]; intros [st pos] d R Hp Hc; cbn [rf_state rf_pos] in *.
  { exists [], (Rfile st pos). by rewrite ztake_0. }
  apply List.Forall_cons_iff in Hc as [Hn Hc]. cbn [read_chunks ldb_rfile_read rf_state rf_pos].
  unfold ldb_rfile_read. cbn [rf_state rf_pos]. rewrite (pread_ok st d n pos R Hn Hp). cbn [mbind option_bind Z.eqb LDB_OK].
  set (xs := ztake n (zdrop pos d)).
  assert (zlen xs = Z.min n (zlen d - pos)) as Hx.
  { unfold xs. destruct (Z_le_gt_dec n (zlen d - pos)).
    - rewrite zlen_take by (rewrite zlen_drop by lia; lia). lia.
    - rewrite ztake_all by (rewrite zlen_drop by lia; lia). rewrite zlen_drop by lia. lia. }
  destruct (IH (Rfile st (pos + zlen xs)) d R) as (xss & file' & E & Hcat); [cbn; lia|done|]. cbn [rf_pos] in Hcat.
  cbn [Z.eqb]. change (LDB_OK =? LDB_OK) with true. cbv iota. rewrite E. cbn [mbind option_bind].
  exists (xs :: xss), file'. split; [done|]. cbn [concat foldr]. rewrite Hcat.
  assert (0 <= foldr Z.add 0 counts) as Hs.
  { clear -Hc. induction Hc as [|m counts Hm _ IH]; cbn; [lia|]. lia. }
  rewrite Hx. unfold xs, ztake, zdrop. rewrite (Z2Nat.inj_add n) by lia.
  destruct (Z_le_gt_dec n (zlen d - pos)).
  - rewrite Z.min_l by lia. rewrite Z2Nat.inj_add by lia. rewrite <- drop_drop. by rewrite take_take_drop.
  - rewrite Z.min_r by lia. replace (pos + (zlen d - pos)) with (zlen d) by lia.
    rewrite (drop_ge d (Z.to_nat (zlen d))) by (unfold zlen; lia). rewrite take_nil, app_nil_r.
    rewrite !take_ge; [done|..]; rewrite length_drop; unfold zlen in *; lia.
Qed.

Lemma append_all_ok garbage chunks : zlen garbage = BLOCK_SIZE -> forall state d,
  fstate_rep state d -> exists state', append_all garbage state chunks = Some state' /\ fstate_rep state' (d ++ concat chunks).
Proof.
  intros Hg. induction chunks as [|xs chunks IH]; intros state d R; cbn [append_all concat].
  { exists state. by rewrite app_nil_r. }
  destruct (append_loop_ok garbage Hg (length xs) state d xs R (le_n _)) as (s1 & E & R1).
  unfold ldb_fstate_append. rewrite E. cbn [mbind option_bind]. rewrite app_assoc. by apply IH.
Qed.

(** A file object of the in-memory environment refines a byte string:
    whatever is appended to it, in whatever chunks, is cut into 8 KB blocks
    without touching memory outside them, and then a positional read gives the
    bytes there, a read behind the end fails with [LDB_EINVAL], and sequential
    reads in chunks of any size give the contents in order. *)
Theorem memfile_refines_bytes garbage chunks counts :
  zlen garbage = BLOCK_SIZE -> Forall (Z.le 0) counts ->
  exists state, append_all garbage ldb_fstate_create chunks = Some state /\
    ldb_fstate_size state = zlen (concat chunks) /\
    (forall count offset, 0 <= count -> 0 <= offset <= zlen (concat chunks) ->
      ldb_fstate_pread state count offset = Some (LDB_OK, ztake count (zdrop offset (concat chunks)))) /\
    (forall count offset, zlen (concat chunks) < offset -> ldb_fstate_pread state count offset = Some (LDB_EINVAL, [])) /\
    exists xss file', read_chunks (ldb_rfile_init state) counts = Some (xss, file') /\
      concat xss = ztake (foldr Z.add 0 counts) (concat chunks).
Proof.
  intros Hg Hc. destruct (append_all_ok garbage chunks Hg _ _ create_rep) as (state & E & R). cbn [app] in R.
  exists state. split; [done|]. split; [apply (fs_len _ _ R)|]. split; [intros; by apply pread_ok|].
  split; [intros; by apply (pread_outside _ _ _ _ R)|].
  destruct (read_chunks_ok counts (ldb_rfile_init state) (concat chunks) R) as (xss & file' & E' & Hx); [cbn; pose proof (zlen_nonneg (concat chunks)); lia|done|].
  exists xss, file'. split; [done|]. by rewrite Hx, zdrop_0.
Qed.

Lemma memfile_refines_bytes_witness :
  exists state, append_all (zeros BLOCK_SIZE) ldb_fstate_create [[Byte.x61; Byte.x62]; [Byte.x63]] = Some state /\
    ldb_fstate_pread state 5 1 = Some (LDB_OK, [Byte.x62; Byte.x63]).
Proof.
  destruct (memfile_refines_bytes (zeros BLOCK_SIZE) [[Byte.x61; Byte.x62]; [Byte.x63]] []) as (state & E & _ & Hr & _).
  - by apply zlen_zeros.
  - constructor.
  - exists state. split; [exact E|]. rewrite Hr; [reflexivity|lia|by vm_compute].
Defined.
