(* ===== verification/LogWriter.v ===== *)
(** * The log writer

    Models [src/engine/src/log_format.h], [log_writer.h] and [log_writer.c].
    The file ([ldb_wfile_t], in the environment layer) is a parameter, the
    interface of File.v. *)

From S2P Require Import Prelude Coding Status File Crc32c.
#[local] Open Scope Z_scope.

(** ** The format *)

Definition LDB_TYPE_ZERO : Z := 0.
Definition LDB_TYPE_FULL : Z := 1.
Definition LDB_TYPE_FIRST : Z := 2.
Definition LDB_TYPE_MIDDLE : Z := 3.
Definition LDB_TYPE_LAST : Z := 4.
Definition LDB_MAX_RECTYPE : Z := LDB_TYPE_LAST.
Definition LDB_BLOCK_SIZE : Z := 32768.
Definition LDB_HEADER_SIZE : Z := 4 + 2 + 1.

(** ** The writer *)

(** [ldb_writer_t], with [dst == NULL]. *)
Record writer (F : Type) := Writer {
  lw_file : F;
  lw_block_offset : Z;
  lw_type_crc : list Z
}.
Arguments lw_file {F}.
Arguments lw_block_offset {F}.
Arguments lw_type_crc {F}.
Arguments Writer {F}.

Definition init_type_crc : list Z :=
  map (fun i => crc32c_value [z2b (Z.of_nat i)]) (seq 0 5).

Section Writer.
Context {F : Type} (fops : wfile_ops F).

Definition ldb_writer_init (file : F) (length : Z) : writer F :=
  Writer file (length mod LDB_BLOCK_SIZE) init_type_crc.

(** The header [buf] of a physical record. *)
Definition record_header (lw : writer F) (type : Z) (data : bytes) : bytes :=
  let length := zlen data in
  let crc := crc32c_extend (nth (Z.to_nat type) (lw_type_crc lw) 0) data in
  let crc := crc32c_mask crc in
  fixed32_write crc ++ [z2b (Z.land length 0xff); z2b (Z.shiftr length 8); z2b type].

Definition emit_physical_record (lw : writer F) (type : Z) (data : bytes) : Z * writer F :=
  let (rc, file) := wfile_append fops (lw_file lw) (record_header lw type data) in
  let (rc, file) :=
    if rc =? LDB_OK then
      let (rc, file) := wfile_append fops file data in
      if rc =? LDB_OK then wfile_flush fops file else (rc, file)
    else (rc, file) in
  (rc, Writer file (lw_block_offset lw + (LDB_HEADER_SIZE + zlen data)) (lw_type_crc lw)).

(** Switching to a new block; the status of the padding is ignored. *)
Definition switch_block (lw : writer F) : writer F :=
  let leftover := LDB_BLOCK_SIZE - lw_block_offset lw in
  if leftover <? LDB_HEADER_SIZE then
    let file :=
      if 0 <? leftover then snd (wfile_append fops (lw_file lw) (zeros leftover))
      else lw_file lw in
    Writer file 0 (lw_type_crc lw)
  else lw.

(** The [do ... while] loop; [None] is no fuel. *)
Fixpoint add_record_loop (fuel : nat) (lw : writer F) (ptr : bytes) (begin : bool)
    : option (Z * writer F) :=
  match fuel with
  | O => None
  | S fuel =>
    let lw := switch_block lw in
    let avail := LDB_BLOCK_SIZE - lw_block_offset lw - LDB_HEADER_SIZE in
    let left := zlen ptr in
    let fragment_length := if left <? avail then left else avail in
    let end_ := left =? fragment_length in
    let type :=
      if begin && end_ then LDB_TYPE_FULL
      else if begin then LDB_TYPE_FIRST
      else if end_ then LDB_TYPE_LAST
      else LDB_TYPE_MIDDLE in
    let (rc, lw) := emit_physical_record lw type (ztake fragment_length ptr) in
    let ptr := zdrop fragment_length ptr in
    if (rc =? LDB_OK) && (0 <? zlen ptr) then add_record_loop fuel lw ptr false
    else Some (rc, lw)
  end.

(** A turn consumes a byte of the record, except one that finds room for a
    header only; the next turn then starts a block. *)
Definition ldb_writer_add_record (lw : writer F) (slice : bytes) : option (Z * writer F) :=
  add_record_loop (S (S (length slice))) lw slice true.
End Writer.

(** ** The layout the writer produces *)

(** A physical record. *)
Definition phys (type : Z) (data : bytes) : bytes :=
  fixed32_write (crc32c_mask (crc32c_value (z2b type :: data))) ++
  [z2b (Z.land (zlen data) 0xff); z2b (Z.shiftr (zlen data) 8); z2b type] ++ data.

(** The filler at block offset [o], and the offset where the next header goes. *)
Definition pad (o : Z) : bytes :=
  if LDB_BLOCK_SIZE - o <? LDB_HEADER_SIZE then zeros (LDB_BLOCK_SIZE - o) else [].
Definition start (o : Z) : Z := if LDB_BLOCK_SIZE - o <? LDB_HEADER_SIZE then 0 else o.

(** A sequence of (type, data) records from block offset [o] on. *)
Fixpoint layout (o : Z) (fs : list (Z * bytes)) : bytes :=
  match fs with
  | [] => []
  | (t, d) :: fs => pad o ++ phys t d ++ layout (start o + 7 + zlen d) fs
  end.

Fixpoint layout_end (o : Z) (fs : list (Z * bytes)) : Z :=
  match fs with [] => o | (t, d) :: fs => layout_end (start o + 7 + zlen d) fs end.

(** Each record fits its block. *)
Fixpoint fits (o : Z) (fs : list (Z * bytes)) : Prop :=
  match fs with
  | [] => True
  | (t, d) :: fs => 1 <= t <= 4 /\ start o + 7 + zlen d <= LDB_BLOCK_SIZE /\
      fits (start o + 7 + zlen d) fs
  end.

(** The fragments of a record that continues, and of a whole record. *)
Inductive tail_frags : list (Z * bytes) -> bytes -> Prop :=
  | tail_last d : tail_frags [(LDB_TYPE_LAST, d)] d
  | tail_middle d fs r : tail_frags fs r -> tail_frags ((LDB_TYPE_MIDDLE, d) :: fs) (d ++ r).

Inductive record_frags : list (Z * bytes) -> bytes -> Prop :=
  | frags_full d : record_frags [(LDB_TYPE_FULL, d)] d
  | frags_first d fs r : tail_frags fs r -> record_frags ((LDB_TYPE_FIRST, d) :: fs) (d ++ r).

(** ** The writer produces the layout *)

Definition writer_ok {F} (lw : writer F) : Prop :=
  0 <= lw_block_offset lw <= LDB_BLOCK_SIZE /\ lw_type_crc lw = init_type_crc.

Lemma type_crc_spec t :
  0 <= t <= 4 -> nth (Z.to_nat t) init_type_crc 0 = crc32c_value [z2b t].
Proof.
  intros Ht. unfold init_type_crc. rewrite (nth_indep _ 0 (crc32c_value [z2b (Z.of_nat 0)]))
    by (rewrite length_map, length_seq; lia).
  rewrite (map_nth (fun i => crc32c_value [z2b (Z.of_nat i)])), seq_nth by lia.
  by rewrite Nat.add_0_l, Z2Nat.id by lia.
Qed.

Lemma record_header_phys {F} (lw : writer F) t d :
  writer_ok lw -> 0 <= t <= 4 -> record_header lw t d ++ d = phys t d.
Proof.
  intros [_ Hc] Ht. unfold record_header, phys. rewrite Hc, type_crc_spec by done.
  unfold crc32c_value. rewrite crc32c_extend_app by done. by rewrite <- app_assoc.
Qed.

Lemma emit_spec (lw : writer bytes) t d :
  writer_ok lw -> 0 <= t <= 4 ->
  emit_physical_record mem_file lw t d =
    (LDB_OK, Writer (lw_file lw ++ phys t d) (lw_block_offset lw + 7 + zlen d) (lw_type_crc lw)).
Proof.
  intros Hw Ht. unfold emit_physical_record. cbn [wfile_append wfile_flush mem_file].
  cbn -[record_header lw_block_offset zlen Z.add].
  rewrite <- app_assoc, record_header_phys by done. unfold LDB_HEADER_SIZE. do 2 f_equal. lia.
Qed.

Lemma switch_spec (lw : writer bytes) :
  writer_ok lw ->
  switch_block mem_file lw =
    Writer (lw_file lw ++ pad (lw_block_offset lw)) (start (lw_block_offset lw)) (lw_type_crc lw).
Proof.
  intros [Ho _]. unfold switch_block, pad, start.
  destruct (Z.ltb_spec (LDB_BLOCK_SIZE - lw_block_offset lw) LDB_HEADER_SIZE).
  - destruct (Z.ltb_spec 0 (LDB_BLOCK_SIZE - lw_block_offset lw)); [done|].
    replace (LDB_BLOCK_SIZE - lw_block_offset lw) with 0 by lia. by rewrite app_nil_r.
  - destruct lw. cbn. by rewrite app_nil_r.
Qed.

Lemma start_range o : 0 <= o <= LDB_BLOCK_SIZE -> 0 <= start o <= LDB_BLOCK_SIZE - LDB_HEADER_SIZE.
Proof.
  intros Ho. unfold start, LDB_BLOCK_SIZE, LDB_HEADER_SIZE in *.
  destruct (Z.ltb_spec (32768 - o) (4 + 2 + 1)); lia.
Qed.

Lemma layout_end_range o fs :
  0 <= o <= LDB_BLOCK_SIZE -> fits o fs -> 0 <= layout_end o fs <= LDB_BLOCK_SIZE.
Proof.
  revert o. induction fs as [|[t d] fs IH]; intros o Ho; [done|].
  cbn [fits layout_end]. intros (_ & Hd & Hf). apply IH; [|done].
  pose proof (start_range o Ho). zlia.
Qed.

Lemma record_frags_first n ptr fs :
  tail_frags fs (zdrop n ptr) -> record_frags ((LDB_TYPE_FIRST, ztake n ptr) :: fs) ptr.
Proof. intros H. rewrite <- (ztake_zdrop n ptr) at 2. by constructor. Qed.

Lemma tail_frags_middle n ptr fs :
  tail_frags fs (zdrop n ptr) -> tail_frags ((LDB_TYPE_MIDDLE, ztake n ptr) :: fs) ptr.
Proof. intros H. rewrite <- (ztake_zdrop n ptr) at 2. by constructor. Qed.

(** The room for data behind the next header. *)
Definition avail (o : Z) : Z := LDB_BLOCK_SIZE - start o - LDB_HEADER_SIZE.

Lemma add_record_loop_spec fuel (lw : writer bytes) ptr begin :
  writer_ok lw ->
  zlen ptr + (if avail (lw_block_offset lw) =? 0 then 1 else 0) < Z.of_nat fuel ->
  exists fs,
    add_record_loop mem_file fuel lw ptr begin =
      Some (LDB_OK, Writer (lw_file lw ++ layout (lw_block_offset lw) fs)
                      (layout_end (lw_block_offset lw) fs) (lw_type_crc lw)) /\
    fits (lw_block_offset lw) fs /\
    (if begin : bool then record_frags fs ptr else tail_frags fs ptr).
Proof.
  revert lw ptr begin. induction fuel as [|fuel IH]; intros lw ptr begin Hw Hfuel.
  { pose proof (zlen_nonneg ptr). destruct (_ =? 0); lia. }
  cbn [add_record_loop]. rewrite switch_spec by done. cbn [lw_block_offset].
  pose proof Hw as [Ho Hc]. set (o := lw_block_offset lw) in *. pose proof (start_range o Ho) as Hs.
  change (LDB_BLOCK_SIZE - start o - LDB_HEADER_SIZE) with (avail o).
  assert (0 <= avail o /\ start o + 7 + avail o = LDB_BLOCK_SIZE) as [Ha Hsum]
    by (unfold avail, LDB_HEADER_SIZE in *; lia).
  pose proof (zlen_nonneg ptr) as Hp.
  set (n := if zlen ptr <? avail o then zlen ptr else avail o).
  assert (0 <= n <= zlen ptr /\ n <= avail o) as [Hn Hna]
    by (subst n; destruct (Z.ltb_spec (zlen ptr) (avail o)); lia).
  set (t := if begin && (zlen ptr =? n) then _ else _).
  assert (1 <= t <= 4) as Ht by (subst t; destruct begin, (zlen ptr =? n); cbn [andb];
        unfold LDB_TYPE_FULL, LDB_TYPE_FIRST, LDB_TYPE_LAST, LDB_TYPE_MIDDLE; lia).
  rewrite emit_spec by (lia || (split; cbn [lw_block_offset lw_type_crc]; [unfold LDB_BLOCK_SIZE, LDB_HEADER_SIZE in *; lia|done])).
  rewrite Z.eqb_refl, zlen_drop, zlen_take by lia. cbn [andb].
  cbn [lw_file lw_block_offset lw_type_crc].
  assert (zlen (ztake n ptr) = n) as Hzt by (apply zlen_take; lia).
  destruct (Z.ltb_spec 0 (zlen ptr - n)) as [Hmore|Hdone].
  - (* more fragments follow: this one fills the block *)
    assert (n = avail o) as En by (subst n; destruct (Z.ltb_spec (zlen ptr) (avail o)); lia).
    set (lw' := Writer _ _ _).
    destruct (IH lw' (zdrop n ptr) false) as (fs & E & Hf & Hfr).
    + split; [subst lw'; cbn [lw_block_offset]; lia|done].
    + subst lw'. cbn [lw_block_offset]. rewrite zlen_drop by lia.
      replace (start o + 7 + n) with LDB_BLOCK_SIZE by lia.
      change (avail LDB_BLOCK_SIZE =? 0) with false. destruct (Z.eqb_spec (avail o) 0); lia.
    + exists ((t, ztake n ptr) :: fs). rewrite E. subst lw'.
      cbn [lw_file lw_block_offset lw_type_crc layout layout_end fits] in *. rewrite Hzt.
      split; [by rewrite <- !app_assoc|]. split; [split; [done|split; [lia|done]]|].
      assert ((zlen ptr =? n) = false) as Ee by (apply Z.eqb_neq; lia).
      subst t. rewrite Ee. destruct begin; cbn [andb];
        [by apply record_frags_first|by apply tail_frags_middle].
  - exists [(t, ztake n ptr)]. cbn [layout layout_end fits]. rewrite Hzt, app_nil_r.
    split; [by rewrite <- app_assoc|]. split; [split; [done|split; [lia|done]]|].
    assert ((zlen ptr =? n) = true) as Ee by (apply Z.eqb_eq; lia).
    subst t. rewrite Ee, ztake_all by lia. destruct begin; cbn [andb]; constructor.
Qed.

(** A record is written as its fragments. *)
Lemma writer_add_record_spec (lw : writer bytes) r :
  writer_ok lw ->
  exists fs lw',
    ldb_writer_add_record mem_file lw r = Some (LDB_OK, lw') /\
    lw_file lw' = lw_file lw ++ layout (lw_block_offset lw) fs /\
    lw_block_offset lw' = layout_end (lw_block_offset lw) fs /\
    writer_ok lw' /\ fits (lw_block_offset lw) fs /\ record_frags fs r.
Proof.
  intros Hw. destruct (add_record_loop_spec (S (S (length r))) lw r true Hw) as (fs & E & Hf & Hfr).
  { unfold zlen. destruct (_ =? 0); lia. }
  eexists fs, _. split; [exact E|]. split; [done|]. split; [done|]. split; [|done].
  destruct Hw as [Ho Hc]. split; [by apply layout_end_range|done].
Qed.

(** Writing a list of records. *)
Fixpoint write_records (lw : writer bytes) (rs : list bytes) : option (writer bytes) :=
  match rs with
  | [] => Some lw
  | r :: rs =>
    '(rc, lw) ← ldb_writer_add_record mem_file lw r;
    if rc =? LDB_OK then write_records lw rs else None
  end.

Inductive log_frags : list (list (Z * bytes)) -> list bytes -> Prop :=
  | log_nil : log_frags [] []
  | log_cons fs r fss rs : record_frags fs r -> log_frags fss rs -> log_frags (fs :: fss) (r :: rs).

Lemma layout_app o fs gs : layout o (fs ++ gs) = layout o fs ++ layout (layout_end o fs) gs.
Proof.
  revert o. induction fs as [|[t d] fs IH]; intros o; [done|]. cbn [app layout layout_end].
  by rewrite IH, <- !app_assoc.
Qed.

Lemma fits_app o fs gs : fits o fs -> fits (layout_end o fs) gs -> fits o (fs ++ gs).
Proof.
  revert o. induction fs as [|[t d] fs IH]; intros o; [done|]. cbn [app fits layout_end].
  intros (? & ? & ?) ?. split; [done|]. split; [done|]. by apply IH.
Qed.

Lemma write_records_spec (lw : writer bytes) rs :
  writer_ok lw ->
  exists fss lw',
    write_records lw rs = Some lw' /\
    lw_file lw' = lw_file lw ++ layout (lw_block_offset lw) (concat fss) /\
    fits (lw_block_offset lw) (concat fss) /\ log_frags fss rs.
Proof.
  revert lw. induction rs as [|r rs IH]; intros lw Hw.
  { exists [], lw. cbn. rewrite app_nil_r. do 3 (split; [done|]). constructor. }
  destruct (writer_add_record_spec lw r Hw) as (fs & lw1 & E1 & F1 & O1 & W1 & Fit1 & R1).
  destruct (IH lw1 W1) as (fss & lw2 & E2 & F2 & Fit2 & R2).
  exists (fs :: fss), lw2. cbn [write_records concat]. rewrite E1. cbn [mbind option_bind].
  rewrite Z.eqb_refl. split; [done|]. rewrite O1 in F2, Fit2.
  split; [by rewrite F2, F1, layout_app, app_assoc|]. split; [by apply fits_app|by constructor].
Qed.

(** ** The writer over any file

    Over a file that takes appends as long as its contents stay within a limit,
    the writer does what it does over a byte string.  (The limit lets the file
    promise something about every state it passes through.) *)
Section Within.
Context {F : Type} (fops : wfile_ops F) (rep : F -> bytes -> Prop) (limit : bytes).
Context (append_within : forall f d xs, rep f d -> d ++ xs `prefix_of` limit ->
  exists f', wfile_append fops f xs = (LDB_OK, f') /\ rep f' (d ++ xs)).
Context (flush_within : forall f d, rep f d -> exists f', wfile_flush fops f = (LDB_OK, f') /\ rep f' d).

Definition same_writer (lw : writer F) (m : writer bytes) : Prop :=
  rep (lw_file lw) (lw_file m) /\ lw_block_offset lw = lw_block_offset m /\ lw_type_crc lw = lw_type_crc m.

Lemma prefix_app_inv (x y z : bytes) : x ++ y `prefix_of` z -> x `prefix_of` z.
Proof. intros [w ->]. exists (y ++ w). by rewrite app_assoc. Qed.

Lemma emit_within lw m t d : same_writer lw m -> lw_file (emit_physical_record mem_file m t d).2 `prefix_of` limit ->
  exists lw', emit_physical_record fops lw t d = (LDB_OK, lw') /\
    same_writer lw' (emit_physical_record mem_file m t d).2.
Proof.
  intros (R & Ho & Hc) Hp. unfold emit_physical_record in *. assert (record_header lw t d = record_header m t d) as ->.
  { unfold record_header. by rewrite Hc. }
  cbn [wfile_append wfile_flush mem_file snd] in *. cbn -[record_header] in Hp.
  destruct (append_within _ _ (record_header m t d) R (prefix_app_inv _ _ _ Hp)) as (f1 & -> & R1).
  change (LDB_OK =? LDB_OK) with true. cbv iota.
  destruct (append_within _ _ d R1 Hp) as (f2 & -> & R2). change (LDB_OK =? LDB_OK) with true. cbv iota.
  destruct (flush_within _ _ R2) as (f3 & -> & R3). eexists. split; [reflexivity|]. split; [exact R3|].
  cbn [snd lw_block_offset lw_type_crc]. by rewrite Ho.
Qed.

Lemma switch_within lw m : same_writer lw m -> lw_file (switch_block mem_file m) `prefix_of` limit ->
  same_writer (switch_block fops lw) (switch_block mem_file m).
Proof.
  intros (R & Ho & Hc) Hp. unfold switch_block in *. rewrite Ho. destruct (_ <? LDB_HEADER_SIZE); [|done].
  destruct (0 <? _); cbn [wfile_append mem_file snd lw_file] in *; [|done].
  destruct (append_within _ _ (zeros (LDB_BLOCK_SIZE - lw_block_offset m)) R Hp) as (f1 & -> & R1). by split.
Qed.

Lemma emit_grows (m : writer bytes) t d : lw_file m `prefix_of` lw_file (emit_physical_record mem_file m t d).2.
Proof. unfold emit_physical_record. cbn -[record_header]. rewrite <- app_assoc. apply prefix_app_r. done. Qed.

Lemma switch_grows (m : writer bytes) : lw_file m `prefix_of` lw_file (switch_block mem_file m).
Proof. unfold switch_block. destruct (_ <? _); [|done]. destruct (_ <? _); [|done]. by apply prefix_app_r. Qed.

Lemma add_record_loop_grows fuel : forall m ptr begin rc m',
  add_record_loop mem_file fuel m ptr begin = Some (rc, m') -> lw_file m `prefix_of` lw_file m'.
Proof.
  induction fuel as [|fuel IH]; intros m ptr begin rc m' E; [done|]. cbn [add_record_loop] in E.
  pose proof (switch_grows m) as G. set (m1 := switch_block mem_file m) in *. set (n := if zlen ptr <? _ then _ else _) in E.
  set (t := if begin && _ then _ else _) in E. pose proof (emit_grows m1 t (ztake n ptr)) as G'.
  destruct (emit_physical_record mem_file m1 t (ztake n ptr)) as [rc2 m2]. cbn [snd] in G'.
  destruct ((rc2 =? LDB_OK) && (0 <? zlen (zdrop n ptr))); [apply IH in E|injection E as _ <-]; (etrans; [exact G|]); (etrans; [exact G'|]); done.
Qed.

Lemma add_record_loop_within fuel : forall lw m ptr begin rc m', same_writer lw m ->
  add_record_loop mem_file fuel m ptr begin = Some (rc, m') -> lw_file m' `prefix_of` limit ->
  exists lw', add_record_loop fops fuel lw ptr begin = Some (rc, lw') /\ same_writer lw' m'.
Proof.
  induction fuel as [|fuel IH]; intros lw m ptr begin rc m' S E Hp; [done|]. cbn [add_record_loop] in E |- *.
  assert (lw_file (switch_block mem_file m) `prefix_of` lw_file m' /\
    lw_file (emit_physical_record mem_file (switch_block mem_file m)
      (let left := zlen ptr in let avail := LDB_BLOCK_SIZE - lw_block_offset (switch_block mem_file m) - LDB_HEADER_SIZE in
       let n := if left <? avail then left else avail in
       if begin && (left =? n) then LDB_TYPE_FULL else if begin then LDB_TYPE_FIRST else if left =? n then LDB_TYPE_LAST else LDB_TYPE_MIDDLE)
      (ztake (let left := zlen ptr in let avail := LDB_BLOCK_SIZE - lw_block_offset (switch_block mem_file m) - LDB_HEADER_SIZE in
         if left <? avail then left else avail) ptr)).2 `prefix_of` lw_file m') as [G1 G2].
  { cbv zeta. set (n := if zlen ptr <? _ then _ else _) in *. set (t := if begin && _ then _ else _) in *.
    pose proof (emit_grows (switch_block mem_file m) t (ztake n ptr)) as G'.
    destruct (emit_physical_record mem_file (switch_block mem_file m) t (ztake n ptr)) as [rc2 m2]. cbn [snd] in *.
    assert (lw_file m2 `prefix_of` lw_file m') as G2.
    { destruct ((rc2 =? LDB_OK) && (0 <? zlen (zdrop n ptr))); [by apply add_record_loop_grows in E|by injection E as _ <-]. }
    split; [by etrans|done]. }
  cbv zeta in G2. pose proof (switch_within lw m S ltac:(by etrans)) as S1. pose proof S1 as (_ & Eo & _). rewrite Eo.
  set (m1 := switch_block mem_file m) in *. set (n := if zlen ptr <? _ then _ else _) in *. set (t := if begin && _ then _ else _) in *.
  destruct (emit_within _ _ t (ztake n ptr) S1 ltac:(by etrans)) as (lw2 & -> & S2).
  assert (emit_physical_record mem_file m1 t (ztake n ptr) = (LDB_OK, (emit_physical_record mem_file m1 t (ztake n ptr)).2)) as Em by done.
  rewrite Em in E. destruct ((LDB_OK =? LDB_OK) && (0 <? zlen (zdrop n ptr))); [by apply (IH lw2 _ _ _ _ _ S2 E)|]. injection E as <- <-. by exists lw2.
Qed.

Lemma writer_add_record_within lw m r rc m' : same_writer lw m ->
  ldb_writer_add_record mem_file m r = Some (rc, m') -> lw_file m' `prefix_of` limit ->
  exists lw', ldb_writer_add_record fops lw r = Some (rc, lw') /\ same_writer lw' m'.
Proof. apply add_record_loop_within. Qed.
End Within.

Lemma writer_add_record_grows (m : writer bytes) r rc m' :
  ldb_writer_add_record mem_file m r = Some (rc, m') -> lw_file m `prefix_of` lw_file m'.
Proof. apply add_record_loop_grows. Qed.
