(* ===== verification/LogReader.v ===== *)
(** * The log reader

    Models [src/engine/src/log_reader.h] and [log_reader.c].  The file is the
    byte string [lr_src] still to be read (the [src] member of the code; a
    sequential file of the environment layer gives the same blocks), and
    [lr_error] is the status its reads report.  The calls of
    [reporter->corruption] are collected in [lr_reports]. *)

From S2P Require Import Prelude Coding Status File Crc32c LogWriter.
#[local] Open Scope Z_scope.

(** ** Data *)

Definition LDB_EOF : Z := LDB_MAX_RECTYPE + 1.
Definition LDB_BAD_RECORD : Z := LDB_MAX_RECTYPE + 2.

(** [ldb_reader_t] *)
Record reader := Reader {
  lr_src : bytes;
  lr_error : Z;
  lr_reporter : bool;
  lr_checksum : bool;
  lr_buffer : bytes;
  lr_eof : bool;
  lr_last_offset : Z;
  lr_end_offset : Z;
  lr_initial_offset : Z;
  lr_resyncing : bool;
  lr_reports : list (Z * Z)
}.

Definition ldb_reader_init (src : bytes) (error : Z) (reporter checksum : bool)
    (initial_offset : Z) : reader :=
  Reader src error reporter checksum [] false 0 0 initial_offset (0 <? initial_offset) [].

Definition set_buffer (lr : reader) (b : bytes) : reader :=
  Reader (lr_src lr) (lr_error lr) (lr_reporter lr) (lr_checksum lr) b (lr_eof lr)
    (lr_last_offset lr) (lr_end_offset lr) (lr_initial_offset lr) (lr_resyncing lr) (lr_reports lr).
Definition set_eof (lr : reader) : reader :=
  Reader (lr_src lr) (lr_error lr) (lr_reporter lr) (lr_checksum lr) (lr_buffer lr) true
    (lr_last_offset lr) (lr_end_offset lr) (lr_initial_offset lr) (lr_resyncing lr) (lr_reports lr).
Definition set_resyncing (lr : reader) (b : bool) : reader :=
  Reader (lr_src lr) (lr_error lr) (lr_reporter lr) (lr_checksum lr) (lr_buffer lr) (lr_eof lr)
    (lr_last_offset lr) (lr_end_offset lr) (lr_initial_offset lr) b (lr_reports lr).
Definition set_last_offset (lr : reader) (n : Z) : reader :=
  Reader (lr_src lr) (lr_error lr) (lr_reporter lr) (lr_checksum lr) (lr_buffer lr) (lr_eof lr)
    n (lr_end_offset lr) (lr_initial_offset lr) (lr_resyncing lr) (lr_reports lr).
Definition add_report (lr : reader) (bytes reason : Z) : reader :=
  Reader (lr_src lr) (lr_error lr) (lr_reporter lr) (lr_checksum lr) (lr_buffer lr) (lr_eof lr)
    (lr_last_offset lr) (lr_end_offset lr) (lr_initial_offset lr) (lr_resyncing lr)
    (lr_reports lr ++ [(bytes, reason)]).

Definition report_drop (lr : reader) (bytes reason : Z) : reader :=
  if lr_reporter lr &&
     (lr_initial_offset lr <=? u64 (lr_end_offset lr - zlen (lr_buffer lr) - bytes))
  then add_report lr bytes reason else lr.

Definition report_corruption (lr : reader) (bytes : Z) : reader :=
  report_drop lr bytes LDB_CORRUPTION.

(** ** Physical records *)

(** The refill of the buffer: the next block of the file.  The status is [rc]
    of the code; on an error the buffer stays empty. *)
Definition refill (lr : reader) : Z * reader :=
  let lr := set_buffer lr [] in
  if negb (lr_error lr =? LDB_OK) then (lr_error lr, lr)
  else
    let nread := Z.min LDB_BLOCK_SIZE (zlen (lr_src lr)) in
    (LDB_OK,
     Reader (zdrop nread (lr_src lr)) (lr_error lr) (lr_reporter lr) (lr_checksum lr)
       (ztake nread (lr_src lr)) (lr_eof lr) (lr_last_offset lr) (u64 (lr_end_offset lr + nread))
       (lr_initial_offset lr) (lr_resyncing lr) (lr_reports lr)).

(** The type returned, [*result] and the reader afterwards.  The loop only
    turns after a refill; [None] is no fuel. *)
Fixpoint read_physical_record_loop (fuel : nat) (lr : reader) (result : bytes)
    : option (Z * bytes * reader) :=
  match fuel with
  | O => None
  | S fuel =>
    if zlen (lr_buffer lr) <? LDB_HEADER_SIZE then
      if negb (lr_eof lr) then
        let (rc, lr) := refill lr in
        if negb (rc =? LDB_OK) then
          Some (LDB_EOF, result, set_eof (report_drop (set_buffer lr []) LDB_BLOCK_SIZE rc))
        else
          let lr := if zlen (lr_buffer lr) <? LDB_BLOCK_SIZE then set_eof lr else lr in
          read_physical_record_loop fuel lr result
      else Some (LDB_EOF, result, set_buffer lr [])
    else
      let header := lr_buffer lr in
      let a := Z.land (at_ header 4) 0xff in
      let b := Z.land (at_ header 5) 0xff in
      let type := at_ header 6 in
      let length := Z.lor a (Z.shiftl b 8) in
      if zlen (lr_buffer lr) <? LDB_HEADER_SIZE + length then
        let drop_size := zlen (lr_buffer lr) in
        let lr := set_buffer lr [] in
        if negb (lr_eof lr) then Some (LDB_BAD_RECORD, result, report_corruption lr drop_size)
        else Some (LDB_EOF, result, lr)
      else if (type =? LDB_TYPE_ZERO) && (length =? 0) then
        Some (LDB_BAD_RECORD, result, set_buffer lr [])
      else if lr_checksum lr &&
          negb (crc32c_value (ztake (1 + length) (zdrop 6 header)) =?
                crc32c_unmask (fixed32_decode header)) then
        let drop_size := zlen (lr_buffer lr) in
        Some (LDB_BAD_RECORD, result, report_corruption (set_buffer lr []) drop_size)
      else
        let lr := set_buffer lr (zdrop (LDB_HEADER_SIZE + length) (lr_buffer lr)) in
        if u64 (lr_end_offset lr - zlen (lr_buffer lr) - LDB_HEADER_SIZE - length)
             <? lr_initial_offset lr then
          Some (LDB_BAD_RECORD, [], lr)
        else Some (type, ztake length (zdrop LDB_HEADER_SIZE header), lr)
  end.

(** After a refill the buffer is a block, or the reader is at the end. *)
Definition read_physical_record (lr : reader) (result : bytes) : option (Z * bytes * reader) :=
  read_physical_record_loop 2 lr result.

(** [skip_to_initial_block]: whether it succeeded. *)
Definition skip_to_initial_block (lr : reader) : bool * reader :=
  let offset_in_block := lr_initial_offset lr mod LDB_BLOCK_SIZE in
  let block_start := lr_initial_offset lr - offset_in_block in
  let block_start :=
    if LDB_BLOCK_SIZE - 6 <? offset_in_block then u64 (block_start + LDB_BLOCK_SIZE)
    else block_start in
  let nskip := if 0 <? block_start then Z.min block_start (zlen (lr_src lr)) else 0 in
  (true,
   Reader (zdrop nskip (lr_src lr)) (lr_error lr) (lr_reporter lr) (lr_checksum lr)
     (lr_buffer lr) (lr_eof lr) (lr_last_offset lr) block_start (lr_initial_offset lr)
     (lr_resyncing lr) (lr_reports lr)).

(** ** Logical records *)

(** The loop of [ldb_reader_read_record].  [fragment] is the local slice, which
    [read_physical_record] leaves alone when it has no record; the result is
    the record, or [None] when the code returns 0.  The outer [None] is no
    fuel. *)
Fixpoint read_record_loop (fuel : nat) (lr : reader) (fragment scratch : bytes)
    (prospective_offset : Z) (in_fragmented_record : bool) : option (option bytes * reader) :=
  match fuel with
  | O => None
  | S fuel =>
    '(record_type, fragment, lr) ← read_physical_record lr fragment;
    let physical_offset :=
      u64 (lr_end_offset lr - zlen (lr_buffer lr) - LDB_HEADER_SIZE - zlen fragment) in
    let again lr scratch po inf := read_record_loop fuel lr fragment scratch po inf in
    if lr_resyncing lr && (record_type =? LDB_TYPE_MIDDLE) then
      again lr scratch prospective_offset in_fragmented_record
    else if lr_resyncing lr && (record_type =? LDB_TYPE_LAST) then
      again (set_resyncing lr false) scratch prospective_offset in_fragmented_record
    else
      let lr := if lr_resyncing lr then set_resyncing lr false else lr in
      if record_type =? LDB_TYPE_FULL then
        let lr := if in_fragmented_record && (0 <? zlen scratch)
                  then report_corruption lr (zlen scratch) else lr in
        Some (Some fragment, set_last_offset lr physical_offset)
      else if record_type =? LDB_TYPE_FIRST then
        let lr := if in_fragmented_record && (0 <? zlen scratch)
                  then report_corruption lr (zlen scratch) else lr in
        again lr fragment physical_offset true
      else if record_type =? LDB_TYPE_MIDDLE then
        if negb in_fragmented_record then
          again (report_corruption lr (zlen fragment)) scratch prospective_offset false
        else again lr (scratch ++ fragment) prospective_offset true
      else if record_type =? LDB_TYPE_LAST then
        if negb in_fragmented_record then
          again (report_corruption lr (zlen fragment)) scratch prospective_offset false
        else Some (Some (scratch ++ fragment), set_last_offset lr prospective_offset)
      else if record_type =? LDB_EOF then Some (None, lr)
      else if record_type =? LDB_BAD_RECORD then
        if in_fragmented_record then
          again (report_corruption lr (zlen scratch)) [] prospective_offset false
        else again lr scratch prospective_offset false
      else
        again (report_corruption lr
          (zlen fragment + (if in_fragmented_record then zlen scratch else 0)))
          [] prospective_offset false
  end.

(** Every turn but the last takes bytes from the buffer or the file. *)
Definition ldb_reader_read_record (junk : bytes) (lr : reader) : option (option bytes * reader) :=
  let '(ok, lr) :=
    if lr_last_offset lr <? lr_initial_offset lr then skip_to_initial_block lr else (true, lr) in
  if negb ok then Some (None, lr)
  else read_record_loop (S (S (length (lr_buffer lr) + length (lr_src lr)))) lr junk [] 0 false.

(** Reading until the reader returns 0. *)
Fixpoint read_all (fuel : nat) (junk : bytes) (lr : reader) : option (list bytes * reader) :=
  match fuel with
  | O => None
  | S fuel =>
    '(r, lr) ← ldb_reader_read_record junk lr;
    match r with
    | None => Some ([], lr)
    | Some r => '(rs, lr) ← read_all fuel junk lr; Some (r :: rs, lr)
    end
  end.

(** ** Where the reader stands *)

(** The reader is at block offset [o], with [rest] left of the file. *)
Record at_offset (lr : reader) (o : Z) (rest : bytes) : Prop := {
  at_range : 0 <= o <= LDB_BLOCK_SIZE;
  at_buffer : lr_buffer lr = ztake (LDB_BLOCK_SIZE - o) rest;
  at_src : lr_src lr = zdrop (LDB_BLOCK_SIZE - o) rest;
  at_eof : lr_eof lr = (zlen rest <? LDB_BLOCK_SIZE - o);
  at_error : lr_error lr = LDB_OK;
  at_initial : lr_initial_offset lr = 0;
  at_resyncing : lr_resyncing lr = false
}.

(** Nothing but the position changed. *)
Definition same_config (lr lr' : reader) : Prop :=
  lr_reports lr' = lr_reports lr /\ lr_reporter lr' = lr_reporter lr /\
  lr_checksum lr' = lr_checksum lr.

#[global] Instance same_config_preorder : PreOrder same_config.
Proof. unfold same_config. split; [done|]. intros x y z (-> & -> & ->) (-> & -> & ->). done. Qed.

Lemma ztake_app_ge {A} n (xs ys : list A) :
  zlen xs <= n -> ztake n (xs ++ ys) = xs ++ ztake (n - zlen xs) ys.
Proof.
  unfold ztake, zlen. intros H. rewrite take_app. rewrite take_ge by lia. do 2 f_equal. lia.
Qed.

Lemma zdrop_app_ge {A} n (xs ys : list A) :
  zlen xs <= n -> zdrop n (xs ++ ys) = zdrop (n - zlen xs) ys.
Proof.
  unfold zdrop, zlen. intros H. rewrite drop_app. rewrite drop_ge by lia. cbn. f_equal. lia.
Qed.

Lemma ztake_app_le {A} n (xs ys : list A) : n <= zlen xs -> ztake n (xs ++ ys) = ztake n xs.
Proof. unfold ztake, zlen. intros H. apply take_app_le. lia. Qed.

Lemma zlen_ztake_le {A} n (xs : list A) : zlen (ztake n xs) <= zlen xs.
Proof. unfold ztake, zlen. rewrite length_take. lia. Qed.

Lemma zlen_phys t d : zlen (phys t d) = 7 + zlen d.
Proof. unfold phys. rewrite !zlen_app, zlen_fixed32_write, !zlen_cons, zlen_nil. lia. Qed.

(** The header fields as the reader decodes them. *)
Definition header_length (h : bytes) : Z :=
  Z.lor (Z.land (at_ h 4) 0xff) (Z.shiftl (Z.land (at_ h 5) 0xff) 8).

Lemma phys_cons t d rest :
  exists a b c e, phys t d ++ rest =
    a :: b :: c :: e :: z2b (Z.land (zlen d) 0xff) :: z2b (Z.shiftr (zlen d) 8) :: z2b t :: d ++ rest /\
    fixed32_decode (a :: b :: c :: e :: z2b (Z.land (zlen d) 0xff) :: z2b (Z.shiftr (zlen d) 8)
      :: z2b t :: d ++ rest) = crc32c_mask (crc32c_value (z2b t :: d)).
Proof.
  unfold phys. set (m := crc32c_mask _). pose proof (crc32c_mask_range (crc32c_value (z2b t :: d))) as Hm.
  fold m in Hm. pose proof (zlen_fixed32_write m) as Hl.
  destruct (fixed32_write m) as [|a [|b [|c [|e [|f ?]]]]] eqn:E;
    rewrite ?zlen_cons, ?zlen_nil in Hl; try lia; [|exfalso; zlia].
  exists a, b, c, e. rewrite <- app_assoc. cbn [app]. split; [done|].
  change (a :: b :: c :: e :: ?x) with ([a; b; c; e] ++ x). rewrite <- E.
  by apply fixed32_decode_write.
Qed.

Lemma header_length_phys t d rest :
  zlen d < 65536 -> header_length (phys t d ++ rest) = zlen d.
Proof.
  intros Hd. destruct (phys_cons t d rest) as (a & b & c & e & -> & _). pose proof (zlen_nonneg d).
  unfold header_length, at_. to_nat_literals. cbn [nth].
  rewrite !b2z_z2b, !land_255, Z.shiftr_div_pow2 by lia. change (2 ^ 8) with 256.
  rewrite !Z.mod_mod by lia.
  rewrite (Z.mod_small (zlen d / 256)) by (split; [apply Z.div_pos|apply Z.div_lt_upper_bound]; lia).
  rewrite lor_disjoint by (pose proof (Z.mod_pos_bound (zlen d) 256); lia).
  change (2 ^ 8) with 256. pose proof (Z.div_mod (zlen d) 256). lia.
Qed.

(** A complete record in the buffer is returned. *)
Lemma read_complete fuel lr res o t d rest :
  at_offset lr o (phys t d ++ rest) -> start o = o -> 1 <= t <= 4 -> o + 7 + zlen d <= LDB_BLOCK_SIZE ->
  exists lr', read_physical_record_loop (S fuel) lr res = Some (t, d, lr') /\
    at_offset lr' (o + 7 + zlen d) rest /\ same_config lr lr'.
Proof.
  intros A _ Ht Hfit. destruct A as [Ho Hb Hsrc Heof Herr Hi Hr]. pose proof (zlen_nonneg d).
  assert (0 <= o) by lia.
  assert (lr_buffer lr = phys t d ++ ztake (LDB_BLOCK_SIZE - (o + 7 + zlen d)) rest) as Eb.
  { rewrite Hb, ztake_app_ge by (rewrite zlen_phys; lia). do 2 f_equal. rewrite zlen_phys. lia. }
  cbn [read_physical_record_loop]. rewrite Eb. set (rb := ztake _ rest).
  fold (header_length (phys t d ++ rb)).
  unfold LDB_BLOCK_SIZE in *. rewrite header_length_phys by lia.
  rewrite zlen_app, zlen_phys. unfold LDB_HEADER_SIZE. pose proof (zlen_nonneg rb).
  rewrite (proj2 (Z.ltb_ge _ _)) by lia. rewrite (proj2 (Z.ltb_ge _ _)) by lia.
  destruct (phys_cons t d rb) as (a & b & c & e & Ep & Ecrc).
  assert (at_ (phys t d ++ rb) 6 = t) as ->.
  { rewrite Ep. unfold at_. to_nat_literals. cbn [nth]. by rewrite b2z_z2b_small by lia. }
  assert ((t =? LDB_TYPE_ZERO) = false) as -> by (apply Z.eqb_neq; unfold LDB_TYPE_ZERO; lia).
  cbn [andb].
  assert (ztake (1 + zlen d) (zdrop 6 (phys t d ++ rb)) = z2b t :: d) as ->.
  { rewrite Ep. unfold zdrop. to_nat_literals. cbn [drop].
    change (z2b t :: d ++ rb) with ((z2b t :: d) ++ rb). apply ztake_app. rewrite zlen_cons. lia. }
  assert (fixed32_decode (phys t d ++ rb) = crc32c_mask (crc32c_value (z2b t :: d))) as ->
    by by rewrite Ep.
  rewrite crc32c_unmask_mask by apply crc32c_value_range.
  rewrite Z.eqb_refl. cbn [negb]. rewrite andb_false_r.
  assert (zdrop (4 + 2 + 1 + zlen d) (phys t d ++ rb) = rb) as ->
    by (apply zdrop_app; rewrite zlen_phys; lia).
  cbn [set_buffer lr_initial_offset lr_end_offset lr_buffer]. rewrite Hi.
  rewrite (proj2 (Z.ltb_ge _ _)) by apply u64_range.
  assert (ztake (zlen d) (zdrop (4 + 2 + 1) (phys t d ++ rb)) = d) as ->.
  { rewrite Ep. unfold zdrop. to_nat_literals. cbn [drop]. by apply ztake_app. }
  eexists. split; [reflexivity|]. split; [|done].
  split; cbn [set_buffer lr_src lr_buffer lr_eof lr_error lr_initial_offset lr_resyncing];
    unfold LDB_BLOCK_SIZE; try done.
  - lia.
  - rewrite Hsrc, zdrop_app_ge by (rewrite zlen_phys; lia). rewrite zlen_phys. f_equal. lia.
  - rewrite Heof. rewrite zlen_app, zlen_phys.
    apply Bool.eq_iff_eq_true. rewrite !Z.ltb_lt. lia.
Qed.

Lemma zlen_pad o : 0 <= o <= LDB_BLOCK_SIZE ->
  zlen (pad o) = if LDB_BLOCK_SIZE - o <? LDB_HEADER_SIZE then LDB_BLOCK_SIZE - o else 0.
Proof. intros Ho. unfold pad. destruct (_ <? _); [|done]. apply zlen_zeros. lia. Qed.

(** At a trailer the reader goes on to the next block. *)
Lemma read_refill fuel lr res o rest :
  at_offset lr o (pad o ++ rest) -> LDB_BLOCK_SIZE - o < LDB_HEADER_SIZE ->
  exists lr', read_physical_record_loop (S fuel) lr res = read_physical_record_loop fuel lr' res /\
    at_offset lr' 0 rest /\ same_config lr lr'.
Proof.
  intros A Ht. destruct A as [Ho Hb Hsrc Heof Herr Hi Hr].
  assert (zlen (pad o) = LDB_BLOCK_SIZE - o) as Hp
    by (rewrite zlen_pad by done; rewrite (proj2 (Z.ltb_lt _ _)); done).
  rewrite ztake_app in Hb by done. rewrite zdrop_app in Hsrc by done.
  rewrite zlen_app, Hp in Heof. pose proof (zlen_nonneg rest).
  rewrite (proj2 (Z.ltb_ge _ _)) in Heof by lia.
  cbn [read_physical_record_loop]. rewrite Hb, Hp, (proj2 (Z.ltb_lt _ _)), Heof by done. cbn [negb].
  unfold refill. cbn [set_buffer lr_error lr_src lr_reporter lr_checksum lr_eof lr_last_offset
    lr_end_offset lr_initial_offset lr_resyncing lr_reports].
  rewrite Herr, Hsrc, Heof. cbn [negb Z.eqb LDB_OK].
  set (n := Z.min LDB_BLOCK_SIZE (zlen rest)).
  assert (0 <= n <= zlen rest) by (unfold LDB_BLOCK_SIZE in *; lia).
  cbn [lr_buffer]. rewrite zlen_take by done.
  assert (ztake n rest = ztake (LDB_BLOCK_SIZE - 0) rest) as Et.
  { destruct (Z.le_gt_cases LDB_BLOCK_SIZE (zlen rest)); [by replace n with (LDB_BLOCK_SIZE - 0) by lia|].
    rewrite !ztake_all by lia. done. }
  assert (zdrop n rest = zdrop (LDB_BLOCK_SIZE - 0) rest) as Ed.
  { destruct (Z.le_gt_cases LDB_BLOCK_SIZE (zlen rest)); [by replace n with (LDB_BLOCK_SIZE - 0) by lia|].
    rewrite !zdrop_all by lia. done. }
  eexists. split; [reflexivity|].
  destruct (Z.ltb_spec n LDB_BLOCK_SIZE); (split; [|done]); split;
    cbn [set_eof lr_src lr_buffer lr_eof lr_error lr_initial_offset lr_resyncing]; try done;
    first [symmetry; apply Z.ltb_lt; lia | symmetry; apply Z.ltb_ge; lia | unfold LDB_BLOCK_SIZE; lia].
Qed.

(** A record that the file has only a part of is taken for the end. *)
Lemma read_incomplete fuel lr res o t d k :
  at_offset lr o (ztake k (phys t d)) -> LDB_HEADER_SIZE <= LDB_BLOCK_SIZE - o ->
  1 <= t <= 4 -> o + 7 + zlen d <= LDB_BLOCK_SIZE -> k < 7 + zlen d ->
  exists lr', read_physical_record_loop (S fuel) lr res = Some (LDB_EOF, res, lr') /\
    lr_resyncing lr' = false /\ same_config lr lr'.
Proof.
  intros A Hh Ht Hfit Hk. destruct A as [Ho Hb Hsrc Heof Herr Hi Hr]. pose proof (zlen_nonneg d).
  assert (zlen (ztake k (phys t d)) < 7 + zlen d) as Hlen.
  { destruct (Z.le_gt_cases 0 k).
    - rewrite zlen_take by (rewrite zlen_phys; lia). lia.
    - unfold ztake. replace (Z.to_nat k) with 0%nat by lia. rewrite take_0, zlen_nil. lia. }
  rewrite (ztake_all (LDB_BLOCK_SIZE - o)) in Hb by lia.
  rewrite (proj2 (Z.ltb_lt _ _)) in Heof by lia.
  cbn [read_physical_record_loop]. rewrite Hb, Heof. cbn [negb].
  destruct (Z.ltb_spec (zlen (ztake k (phys t d))) LDB_HEADER_SIZE) as [|H7];
    [eexists; split; [reflexivity|]; split; [exact Hr|done]|].
  assert (7 <= k) as Hk7.
  { destruct (Z.le_gt_cases 7 k); [done|]. exfalso. unfold LDB_HEADER_SIZE in H7.
    pose proof (zlen_phys t d). unfold ztake, zlen in H7. rewrite length_take in H7. unfold zlen in *. lia. }
  fold (header_length (ztake k (phys t d))).
  assert (header_length (ztake k (phys t d)) = zlen d) as ->.
  { unfold LDB_BLOCK_SIZE in *. rewrite <- (header_length_phys t d []) by lia. rewrite app_nil_r.
    unfold header_length. rewrite <- (ztake_zdrop k (phys t d)) at 3 4. unfold at_.
    rewrite zlen_take in H7 by (rewrite zlen_phys; lia).
    assert (7 <= zlen (ztake k (phys t d))) by (rewrite zlen_take by (rewrite zlen_phys; lia); lia).
    rewrite !app_nth1 by (unfold zlen in *; lia). done. }
  unfold LDB_HEADER_SIZE. rewrite (proj2 (Z.ltb_lt _ _)) by lia.
  cbn [set_buffer lr_eof]. rewrite Heof. cbn [negb].
  eexists; split; [reflexivity|]; split; [exact Hr|done].
Qed.

(** The same through a trailer: one physical record, and a part of one. *)
Lemma read_physical_frag lr res o t d rest :
  at_offset lr o (pad o ++ phys t d ++ rest) -> 1 <= t <= 4 -> start o + 7 + zlen d <= LDB_BLOCK_SIZE ->
  exists lr', read_physical_record lr res = Some (t, d, lr') /\
    at_offset lr' (start o + 7 + zlen d) rest /\ same_config lr lr'.
Proof.
  intros A Ht Hfit. unfold read_physical_record.
  destruct (Z.lt_ge_cases (LDB_BLOCK_SIZE - o) LDB_HEADER_SIZE) as [Hlt|Hge].
  - destruct (read_refill 1 lr res o _ A Hlt) as (lr1 & -> & A1 & C1).
    assert (start o = 0) as E by (unfold start; by rewrite (proj2 (Z.ltb_lt _ _))).
    rewrite E in *. destruct (read_complete 0 lr1 res 0 t d rest A1) as (lr2 & E2 & A2 & C2); try done.
    exists lr2. split; [done|]. split; [done|]. by transitivity lr1.
  - assert (start o = o /\ pad o = []) as [E Ep]
      by (unfold start, pad; by rewrite (proj2 (Z.ltb_ge _ _))).
    rewrite Ep, E in *. by apply (read_complete 1).
Qed.

Lemma read_physical_trunc lr res o t d k :
  at_offset lr o (ztake k (pad o ++ phys t d)) -> 1 <= t <= 4 ->
  start o + 7 + zlen d <= LDB_BLOCK_SIZE -> 0 <= k < zlen (pad o) + 7 + zlen d ->
  exists lr', read_physical_record lr res = Some (LDB_EOF, res, lr') /\
    lr_resyncing lr' = false /\ same_config lr lr'.
Proof.
  intros A Ht Hfit Hk. unfold read_physical_record. pose proof (at_range _ _ _ A) as Ho.
  destruct (Z.lt_ge_cases (LDB_BLOCK_SIZE - o) LDB_HEADER_SIZE) as [Hlt|Hge].
  - pose proof (zlen_pad o Ho) as Hp. rewrite (proj2 (Z.ltb_lt _ _)) in Hp by done.
    assert (start o = 0) as E by (unfold start; by rewrite (proj2 (Z.ltb_lt _ _))). rewrite E in Hfit.
    destruct (Z.le_gt_cases (zlen (pad o)) k) as [Hpk|Hpk].
    + rewrite ztake_app_ge in A by done.
      destruct (read_refill 1 lr res o _ A Hlt) as (lr1 & -> & A1 & C1).
      destruct (read_incomplete 0 lr1 res 0 t d (k - zlen (pad o)) A1) as (lr2 & E2 & R2 & C2);
        [unfold LDB_HEADER_SIZE, LDB_BLOCK_SIZE; lia|done|lia|lia|].
      exists lr2. split; [done|]. split; [done|]. by transitivity lr1.
    + rewrite ztake_app_le in A by lia. destruct A as [_ Hb Hsrc Heof Herr Hi Hr].
      assert (zlen (ztake k (pad o)) < zlen (pad o)) as Hl.
      { unfold ztake, zlen in *. rewrite length_take. lia. }
      rewrite (ztake_all (LDB_BLOCK_SIZE - o)) in Hb by lia.
      rewrite (proj2 (Z.ltb_lt _ _)) in Heof by lia.
      cbn [read_physical_record_loop]. rewrite Hb, Heof, (proj2 (Z.ltb_lt _ _)) by lia.
      cbn [negb]. eexists; split; [reflexivity|]; split; [exact Hr|done].
  - assert (start o = o /\ pad o = []) as [E Ep]
      by (unfold start, pad; by rewrite (proj2 (Z.ltb_ge _ _))).
    assert (zlen (pad o) = 0) as Hp by by rewrite Ep.
    rewrite Ep in A. cbn [app] in A. rewrite E in Hfit.
    apply (read_incomplete 1 lr res o t d k); (done || lia).
Qed.

(** ** Logical records *)

Lemma at_set_last lr o rest n : at_offset lr o rest -> at_offset (set_last_offset lr n) o rest.
Proof. by intros []. Qed.

(** One turn of the loop on a fragment of each type, and at the end. *)
Lemma loop_frag fuel lr frag scratch po inf t d lr' :
  read_physical_record lr frag = Some (t, d, lr') -> lr_resyncing lr' = false ->
  let off := u64 (lr_end_offset lr' - zlen (lr_buffer lr') - LDB_HEADER_SIZE - zlen d) in
  (t = LDB_TYPE_FULL -> inf = false ->
   read_record_loop (S fuel) lr frag scratch po inf = Some (Some d, set_last_offset lr' off)) /\
  (t = LDB_TYPE_FIRST -> inf = false ->
   read_record_loop (S fuel) lr frag scratch po inf = read_record_loop fuel lr' d d off true) /\
  (t = LDB_TYPE_MIDDLE -> inf = true ->
   read_record_loop (S fuel) lr frag scratch po inf =
     read_record_loop fuel lr' d (scratch ++ d) po true) /\
  (t = LDB_TYPE_LAST -> inf = true ->
   read_record_loop (S fuel) lr frag scratch po inf =
     Some (Some (scratch ++ d), set_last_offset lr' po)) /\
  (t = LDB_EOF -> read_record_loop (S fuel) lr frag scratch po inf = Some (None, lr')).
Proof.
  intros E R off. cbn [read_record_loop]. rewrite E. cbn [mbind option_bind]. rewrite R. cbn [andb].
  repeat split; intros ->; try intros ->; reflexivity.
Qed.

Lemma tail_frags_nonempty fs r : tail_frags fs r -> fs <> [].
Proof. by destruct 1. Qed.

Lemma length_app_phys o t d (rest : bytes) :
  (length rest + 7 <= length (pad o ++ phys t d ++ rest))%nat.
Proof.
  pose proof (zlen_phys t d). pose proof (zlen_nonneg d). unfold zlen in *. rewrite !length_app. lia.
Qed.

Lemma read_tail fs r :
  tail_frags fs r -> forall fuel lr frag scratch po o rest,
  fits o fs -> at_offset lr o (layout o fs ++ rest) -> (length (layout o fs ++ rest) < fuel)%nat ->
  exists lr', read_record_loop fuel lr frag scratch po true = Some (Some (scratch ++ r), lr') /\
    at_offset lr' (layout_end o fs) rest /\ same_config lr lr' /\ lr_last_offset lr' = po.
Proof.
  induction 1 as [d|d fs r _ IH]; intros fuel lr frag scratch po o rest; cbn [fits layout layout_end];
    intros (Ht & Hfit & Hfits) A Hfuel; (destruct fuel as [|fuel]; [lia|]);
    rewrite <- !app_assoc in A, Hfuel; cbn [app] in A, Hfuel.
  - destruct (read_physical_frag lr frag o _ d rest A Ht Hfit) as (lr1 & E1 & A1 & C1).
    destruct (loop_frag fuel lr frag scratch po true _ d lr1 E1 (at_resyncing _ _ _ A1))
      as (_ & _ & _ & H & _).
    eexists. split; [by apply H|]. split; [by apply at_set_last|]. split; done.
  - destruct (read_physical_frag lr frag o _ d _ A Ht Hfit) as (lr1 & E1 & A1 & C1).
    destruct (loop_frag fuel lr frag scratch po true _ d lr1 E1 (at_resyncing _ _ _ A1))
      as (_ & _ & H & _). rewrite H by done.
    destruct (IH fuel lr1 d (scratch ++ d) po _ rest Hfits A1) as (lr2 & E2 & A2 & C2 & L2).
    { pose proof (length_app_phys o LDB_TYPE_MIDDLE d (layout (start o + 7 + zlen d) fs ++ rest)). lia. }
    exists lr2. rewrite E2, app_assoc. do 2 (split; [done|]). split; [by transitivity lr1|done].
Qed.

(** The first fragment is complete, or the file ends inside it. *)
Lemma trunc_cases o t d (fs : bytes) k :
  0 <= k -> 0 <= o <= LDB_BLOCK_SIZE ->
  (zlen (pad o) + 7 + zlen d <= k /\
   ztake k (pad o ++ phys t d ++ fs) = pad o ++ phys t d ++ ztake (k - zlen (pad o) - 7 - zlen d) fs) \/
  (k < zlen (pad o) + 7 + zlen d /\ ztake k (pad o ++ phys t d ++ fs) = ztake k (pad o ++ phys t d)).
Proof.
  intros Hk Ho. rewrite app_assoc.
  assert (zlen (pad o ++ phys t d) = zlen (pad o) + 7 + zlen d) as Hl
    by (rewrite zlen_app, zlen_phys; lia).
  destruct (Z.le_gt_cases (zlen (pad o) + 7 + zlen d) k).
  - left. split; [done|]. rewrite ztake_app_ge, <- app_assoc by lia. do 3 f_equal. lia.
  - right. split; [lia|]. apply ztake_app_le. lia.
Qed.

Lemma read_tail_trunc fs r :
  tail_frags fs r -> forall fuel lr frag scratch po o k,
  fits o fs -> at_offset lr o (ztake k (layout o fs)) -> 0 <= k < zlen (layout o fs) ->
  k < Z.of_nat fuel ->
  exists lr', read_record_loop fuel lr frag scratch po true = Some (None, lr') /\ same_config lr lr'.
Proof.
  induction 1 as [d|d fs r Hfr IH]; intros fuel lr frag scratch po o k; cbn [fits layout];
    intros (Ht & Hfit & Hfits) A Hk Hfuel; (destruct fuel as [|fuel]; [lia|]);
    pose proof (at_range _ _ _ A) as Ho; pose proof (zlen_nonneg d); pose proof (zlen_nonneg (pad o)).
  - rewrite app_nil_r in *. rewrite zlen_app, zlen_phys in Hk.
    destruct (read_physical_trunc lr frag o _ d k A Ht Hfit ltac:(lia)) as (lr1 & E1 & R1 & C1).
    destruct (loop_frag fuel lr frag scratch po true _ _ lr1 E1 R1) as (_ & _ & _ & _ & ->); eauto.
  - rewrite !zlen_app, zlen_phys in Hk.
    destruct (trunc_cases o LDB_TYPE_MIDDLE d (layout (start o + 7 + zlen d) fs) k ltac:(lia) Ho)
      as [[Hge E]|[Hlt E]]; rewrite E in A.
    + destruct (read_physical_frag lr frag o _ d _ A Ht Hfit) as (lr1 & E1 & A1 & C1).
      destruct (loop_frag fuel lr frag scratch po true _ d lr1 E1 (at_resyncing _ _ _ A1))
        as (_ & _ & H' & _). rewrite H' by done.
      destruct (IH fuel lr1 d (scratch ++ d) po _ _ Hfits A1) as (lr2 & E2 & C2); [lia|lia|].
      exists lr2. split; [done|]. by transitivity lr1.
    + destruct (read_physical_trunc lr frag o _ d k A Ht Hfit ltac:(lia)) as (lr1 & E1 & R1 & C1).
      destruct (loop_frag fuel lr frag scratch po true _ _ lr1 E1 R1) as (_ & _ & _ & _ & ->); eauto.
Qed.

Lemma length_buffer_src lr o rest :
  at_offset lr o rest -> (length (lr_buffer lr) + length (lr_src lr) = length rest)%nat.
Proof.
  intros A. rewrite (at_buffer _ _ _ A), (at_src _ _ _ A), <- length_app. by rewrite ztake_zdrop.
Qed.

Lemma read_record_enter junk lr o rest :
  at_offset lr o rest -> 0 <= lr_last_offset lr ->
  ldb_reader_read_record junk lr = read_record_loop (S (S (length rest))) lr junk [] 0 false.
Proof.
  intros A Hl. unfold ldb_reader_read_record. rewrite (at_initial _ _ _ A).
  rewrite (proj2 (Z.ltb_ge _ _)) by done. cbn [negb]. by rewrite (length_buffer_src _ _ _ A).
Qed.

(** A whole record. *)
Lemma read_record_spec junk lr fs r o rest :
  record_frags fs r -> fits o fs -> at_offset lr o (layout o fs ++ rest) -> 0 <= lr_last_offset lr ->
  exists lr', ldb_reader_read_record junk lr = Some (Some r, lr') /\
    at_offset lr' (layout_end o fs) rest /\ same_config lr lr' /\ 0 <= lr_last_offset lr'.
Proof.
  intros Hfr Hfits A Hl. rewrite (read_record_enter junk lr o _ A Hl).
  set (n := length (layout o fs ++ rest)). assert (length (layout o fs ++ rest) <= n)%nat as Hn by done.
  clearbody n. destruct Hfr as [d|d fs r Htl]; cbn [fits layout layout_end] in *;
    destruct Hfits as (Ht & Hfit & Hfits); rewrite <- !app_assoc in A, Hn; cbn [app] in A, Hn;
    destruct (read_physical_frag lr junk o _ d _ A Ht Hfit) as (lr1 & E1 & A1 & C1).
  - destruct (loop_frag (S n) lr junk [] 0 false _ d lr1 E1 (at_resyncing _ _ _ A1)) as (H & _).
    eexists. split; [by apply H|]. split; [by apply at_set_last|]. split; [done|]. apply u64_range.
  - destruct (loop_frag (S n) lr junk [] 0 false _ d lr1 E1 (at_resyncing _ _ _ A1)) as (_ & H & _).
    rewrite H by done.
    destruct (read_tail fs r Htl (S n) lr1 d d (u64 (lr_end_offset lr1 - zlen (lr_buffer lr1) -
      LDB_HEADER_SIZE - zlen d)) _ rest Hfits A1) as (lr2 & E2 & A2 & C2 & L2).
    { pose proof (length_app_phys o LDB_TYPE_FIRST d (layout (start o + 7 + zlen d) fs ++ rest)). lia. }
    exists lr2. rewrite E2. split; [done|]. split; [done|]. split; [by transitivity lr1|].
    rewrite L2. apply u64_range.
Qed.

(** A record the file has only a part of. *)
Lemma read_record_trunc junk lr fs r o k :
  record_frags fs r -> fits o fs -> at_offset lr o (ztake k (layout o fs)) -> 0 <= lr_last_offset lr ->
  0 <= k < zlen (layout o fs) ->
  exists lr', ldb_reader_read_record junk lr = Some (None, lr') /\ same_config lr lr'.
Proof.
  intros Hfr Hfits A Hl Hk. rewrite (read_record_enter junk lr o _ A Hl).
  assert (zlen (ztake k (layout o fs)) = k) as Hz by (apply zlen_take; lia).
  set (n := length (ztake k (layout o fs))).
  assert (k <= Z.of_nat n) as Hn by (unfold zlen in Hz; lia).
  clearbody n. pose proof (at_range _ _ _ A) as Ho.
  destruct Hfr as [d|d fs r Htl]; cbn [fits layout] in *;
    destruct Hfits as (Ht & Hfit & Hfits); pose proof (zlen_nonneg d).
  - rewrite app_nil_r in *. rewrite zlen_app, zlen_phys in Hk.
    destruct (read_physical_trunc lr junk o _ d k A Ht Hfit ltac:(lia)) as (lr1 & E1 & R1 & C1).
    destruct (loop_frag (S n) lr junk [] 0 false _ _ lr1 E1 R1) as (_ & _ & _ & _ & ->); eauto.
  - rewrite !zlen_app, zlen_phys in Hk.
    destruct (trunc_cases o LDB_TYPE_FIRST d (layout (start o + 7 + zlen d) fs) k ltac:(lia) Ho)
      as [[Hge E]|[Hlt E]]; rewrite E in A; pose proof (zlen_nonneg (pad o)).
    + destruct (read_physical_frag lr junk o _ d _ A Ht Hfit) as (lr1 & E1 & A1 & C1).
      destruct (loop_frag (S n) lr junk [] 0 false _ d lr1 E1 (at_resyncing _ _ _ A1)) as (_ & H' & _).
      rewrite H' by done.
      destruct (read_tail_trunc fs r Htl (S n) lr1 d d (u64 (lr_end_offset lr1 - zlen (lr_buffer lr1) -
        LDB_HEADER_SIZE - zlen d)) _ _ Hfits A1) as (lr2 & E2 & C2); [lia|lia|].
      exists lr2. split; [done|]. by transitivity lr1.
    + destruct (read_physical_trunc lr junk o _ d k A Ht Hfit ltac:(lia)) as (lr1 & E1 & R1 & C1).
      destruct (loop_frag (S n) lr junk [] 0 false _ _ lr1 E1 R1) as (_ & _ & _ & _ & ->); eauto.
Qed.

(** At the end of the file. *)
Lemma read_record_end junk lr o :
  at_offset lr o [] -> 0 <= lr_last_offset lr ->
  exists lr', ldb_reader_read_record junk lr = Some (None, lr') /\ same_config lr lr'.
Proof.
  intros A Hl. rewrite (read_record_enter junk lr o _ A Hl). cbn [length].
  pose proof (at_range _ _ _ A) as Ho. unfold LDB_BLOCK_SIZE in *.
  destruct (read_physical_trunc lr junk o LDB_TYPE_FULL [] 0) as (lr1 & E1 & R1 & C1).
  - by rewrite ztake_0.
  - unfold LDB_TYPE_FULL. lia.
  - rewrite zlen_nil. pose proof (start_range o Ho). unfold LDB_BLOCK_SIZE, LDB_HEADER_SIZE in *. lia.
  - pose proof (zlen_nonneg (pad o)). pose proof (zlen_nonneg (@nil byte)). lia.
  - destruct (loop_frag 1 lr junk [] 0 false _ _ lr1 E1 R1) as (_ & _ & _ & _ & ->); eauto.
Qed.

(** ** Whole files *)

(** The reader's offset for the writer's: a block boundary has two names. *)
Definition synced (lr : reader) (o : Z) (rest : bytes) : Prop :=
  exists o', at_offset lr o' rest /\ pad o' = pad o /\ start o' = start o.

Lemma layout_synced o o' fs :
  pad o' = pad o -> start o' = start o -> fs <> [] ->
  layout o' fs = layout o fs /\ layout_end o' fs = layout_end o fs /\ (fits o' fs <-> fits o fs).
Proof. intros Hp Hs Hne. destruct fs as [|[t d] fs]; [done|]. cbn. by rewrite Hp, Hs. Qed.

Lemma record_frags_nonempty fs r : record_frags fs r -> fs <> [].
Proof. by destruct 1. Qed.

Lemma write_records_mono lw rs lw' :
  writer_ok lw -> write_records lw rs = Some lw' -> zlen (lw_file lw) <= zlen (lw_file lw').
Proof.
  intros Hw E. destruct (write_records_spec lw rs Hw) as (fss & lw2 & E2 & F2 & _).
  rewrite E in E2. injection E2 as <-. rewrite F2, zlen_app. zlia.
Qed.

(** Reading what was written, up to byte [n] of the part written by [rs]. *)
Lemma read_all_written junk rs : forall lw lw' lr n,
  writer_ok lw -> write_records lw rs = Some lw' -> 0 <= n -> 0 <= lr_last_offset lr ->
  synced lr (lw_block_offset lw) (ztake n (zdrop (zlen (lw_file lw)) (lw_file lw'))) ->
  exists m lr', read_all (S (length rs)) junk lr = Some (take m rs, lr') /\ same_config lr lr' /\
    (forall j lwj, (j <= length rs)%nat -> write_records lw (take j rs) = Some lwj ->
       zlen (lw_file lwj) - zlen (lw_file lw) <= n -> (j <= m)%nat).
Proof.
  induction rs as [|r rs IH]; intros lw lw' lr n Hw E Hn Hl (o' & A & Hp & Hs).
  { injection E as <-. rewrite zdrop_all in A by done. unfold ztake in A. rewrite take_nil in A.
    destruct (read_record_end junk lr o' A Hl) as (lr1 & E1 & C1).
    exists 0%nat, lr1. cbn [read_all length]. rewrite E1. cbn. split; [done|]. split; [done|]. lia. }
  cbn [write_records] in E.
  destruct (writer_add_record_spec lw r Hw) as (fs & lw1 & E1 & F1 & O1 & W1 & Fit & Fr).
  rewrite E1 in E. cbn [mbind option_bind] in E. rewrite Z.eqb_refl in E.
  destruct (write_records_spec lw1 rs W1) as (fss & lw2 & E2 & F2 & _ & _).
  rewrite E in E2. injection E2 as <-.
  destruct (layout_synced (lw_block_offset lw) o' fs Hp Hs (record_frags_nonempty fs r Fr)) as (El & Ee & Ef).
  assert (zdrop (zlen (lw_file lw)) (lw_file lw') =
    layout o' fs ++ zdrop (zlen (lw_file lw1)) (lw_file lw')) as Ed.
  { rewrite F2, (zdrop_app (zlen (lw_file lw1))) by done.
    rewrite F1, <- app_assoc, zdrop_app by done. by rewrite El. }
  rewrite Ed in A. set (T := zdrop (zlen (lw_file lw1)) (lw_file lw')) in *.
  assert (zlen (lw_file lw1) = zlen (lw_file lw) + zlen (layout o' fs)) as HL1
    by (rewrite F1, zlen_app, El; done).
  destruct (Z.le_gt_cases (zlen (layout o' fs)) n) as [Hge|Hlt].
  - rewrite ztake_app_ge in A by done.
    destruct (read_record_spec junk lr fs r o' _ Fr (proj2 Ef Fit) A Hl) as (lr1 & R1 & A1 & C1 & L1).
    destruct (IH lw1 lw' lr1 (n - zlen (layout o' fs)) W1 E ltac:(lia) L1) as (m & lr2 & R2 & C2 & M2).
    { exists (layout_end o' fs). rewrite Ee, <- O1. rewrite Ee, <- O1 in A1. done. }
    exists (S m), lr2. cbn [length]. remember (S (length rs)) as fuel. cbn [read_all]. rewrite R1.
    cbn [mbind option_bind]. rewrite R2. cbn [mbind option_bind take].
    split; [done|]. split; [by transitivity lr1|].
    intros [|j] lwj Hj Hwj Hlen; [lia|]. cbn [take write_records] in Hwj. rewrite E1 in Hwj.
    cbn [mbind option_bind] in Hwj. rewrite Z.eqb_refl in Hwj. cbn [length] in Hj.
    assert (j <= m)%nat; [|lia]. apply (M2 j lwj); [lia|done|lia].
  - rewrite ztake_app_le in A by lia.
    destruct (read_record_trunc junk lr fs r o' n Fr (proj2 Ef Fit) A Hl ltac:(lia)) as (lr1 & R1 & C1).
    exists 0%nat, lr1. cbn [length]. remember (S (length rs)) as fuel. cbn [read_all]. rewrite R1.
    cbn [mbind option_bind take]. split; [done|]. split; [done|].
    intros [|j] lwj Hj Hwj Hlen; [lia|]. exfalso. cbn [take write_records] in Hwj. rewrite E1 in Hwj.
    cbn [mbind option_bind] in Hwj. rewrite Z.eqb_refl in Hwj.
    pose proof (write_records_mono lw1 _ lwj W1 Hwj). lia.
Qed.

(** ** Arbitrary files *)

(** The bytes a reader still holds. *)
Definition left_bytes (lr : reader) : nat := length (lr_buffer lr) + length (lr_src lr).

Lemma report_left lr n rc :
  left_bytes (report_drop lr n rc) = left_bytes lr /\
  lr_eof (report_drop lr n rc) = lr_eof lr.
Proof. unfold report_drop. by destruct (_ && _). Qed.

(** A turn that finds a header in the buffer: it ends the loop and uses it up. *)
Lemma read_header_total fuel lr res :
  LDB_HEADER_SIZE <= zlen (lr_buffer lr) ->
  exists t d lr', read_physical_record_loop (S fuel) lr res = Some (t, d, lr') /\
    (left_bytes lr' < left_bytes lr)%nat.
Proof.
  intros H7. cbn [read_physical_record_loop]. rewrite (proj2 (Z.ltb_ge _ _)) by done.
  set (length_ := Z.lor _ (Z.shiftl _ 8)).
  assert (length (lr_buffer lr) >= 7)%nat as Hb by (unfold zlen, LDB_HEADER_SIZE in H7; lia).
  assert (0 <= length_) as Hl.
  { subst length_. rewrite !land_255.
    pose proof (Z.mod_pos_bound (at_ (lr_buffer lr) 4) 256). pose proof (Z.mod_pos_bound (at_ (lr_buffer lr) 5) 256).
    apply Z.lor_nonneg. split; [lia|]. apply Z.shiftl_nonneg. lia. }
  clearbody length_.
  assert (forall n rc, left_bytes (report_drop (set_buffer lr []) n rc) < left_bytes lr)%nat as Hr.
  { intros n rc. rewrite (proj1 (report_left _ _ _)). unfold left_bytes. cbn. lia. }
  assert (left_bytes (set_buffer lr []) < left_bytes lr)%nat as Hd by (unfold left_bytes; cbn; lia).
  destruct (Z.ltb_spec (zlen (lr_buffer lr)) (LDB_HEADER_SIZE + length_)).
  { destruct (negb _); (eexists _, _, _; split; [reflexivity|]); [apply Hr|done]. }
  destruct (_ && _); [eexists _, _, _; by split; [reflexivity|]|].
  destruct (_ && _); [eexists _, _, _; split; [reflexivity|apply Hr]|].
  assert (left_bytes (set_buffer lr (zdrop (LDB_HEADER_SIZE + length_) (lr_buffer lr))) < left_bytes lr)%nat
    as He.
  { unfold left_bytes, set_buffer, zdrop. cbn [lr_buffer lr_src]. rewrite length_drop.
    unfold LDB_HEADER_SIZE. lia. }
  destruct (_ <? _); eexists _, _, _; (split; [reflexivity|exact He]).
Qed.

Lemma read_physical_total lr res :
  exists t d lr', read_physical_record lr res = Some (t, d, lr') /\
    (left_bytes lr' <= left_bytes lr)%nat /\
    (t <> LDB_EOF -> left_bytes lr' < left_bytes lr)%nat.
Proof.
  unfold read_physical_record.
  destruct (Z.lt_ge_cases (zlen (lr_buffer lr)) LDB_HEADER_SIZE) as [Hlt|Hge].
  2: { destruct (read_header_total 1 lr res Hge) as (t & d & lr' & E & H).
       eexists _, _, _. split; [exact E|]. lia. }
  remember 1%nat as one eqn:E1. cbn [read_physical_record_loop]. rewrite (proj2 (Z.ltb_lt _ _)) by done.
  destruct (lr_eof lr) eqn:Eeof; cbn [negb].
  { eexists _, _, _. split; [reflexivity|]. unfold left_bytes. cbn. split; [lia|done]. }
  unfold refill. cbn [set_buffer lr_error lr_src].
  destruct (Z.eqb_spec (lr_error lr) LDB_OK) as [Herr|Herr]; cbn [negb].
  2: { rewrite (proj2 (Z.eqb_neq _ _)) by done. cbn [negb]. eexists _, _, _. split; [reflexivity|].
       match goal with |- context [left_bytes (set_eof ?l)] =>
         change (left_bytes (set_eof l)) with (left_bytes l) end.
       rewrite (proj1 (report_left _ _ _)). unfold left_bytes. cbn. split; [lia|done]. }
  cbn [Z.eqb LDB_OK negb]. set (n := Z.min LDB_BLOCK_SIZE (zlen (lr_src lr))).
  set (lr1 := Reader _ _ _ _ _ _ _ _ _ _ _).
  assert (left_bytes (if (zlen (lr_buffer lr1) <? LDB_BLOCK_SIZE)%Z then set_eof lr1 else lr1) <=
    left_bytes lr)%nat as Hl1.
  { destruct (_ <? _); unfold left_bytes, lr1; cbn; unfold ztake, zdrop;
      rewrite length_take, length_drop; lia. }
  set (lr2 := if zlen (lr_buffer lr1) <? LDB_BLOCK_SIZE then set_eof lr1 else lr1) in *.
  destruct (Z.lt_ge_cases (zlen (lr_buffer lr2)) LDB_HEADER_SIZE) as [Hlt2|Hge2]; subst one.
  - cbn [read_physical_record_loop]. rewrite (proj2 (Z.ltb_lt _ _)) by done.
    assert (lr_eof lr2 = true) as Ee2.
    { subst lr2. destruct (Z.ltb_spec (zlen (lr_buffer lr1)) LDB_BLOCK_SIZE); [done|].
      unfold LDB_BLOCK_SIZE, LDB_HEADER_SIZE in *. lia. }
    rewrite Ee2. cbn [negb]. eexists _, _, _. split; [reflexivity|].
    assert (left_bytes (set_buffer lr2 []) <= left_bytes lr2)%nat by (unfold left_bytes; cbn; lia).
    split; [lia|done].
  - destruct (read_header_total 0 lr2 res Hge2) as (t & d & lr' & E & H).
    eexists _, _, _. split; [exact E|]. lia.
Qed.

Lemma report_corruption_left lr n : left_bytes (report_corruption lr n) = left_bytes lr.
Proof. apply report_left. Qed.

Lemma read_record_loop_total fuel : forall lr frag scratch po inf,
  (left_bytes lr < fuel)%nat ->
  exists r lr', read_record_loop fuel lr frag scratch po inf = Some (r, lr') /\
    (left_bytes lr' <= left_bytes lr)%nat /\ (r <> None -> left_bytes lr' < left_bytes lr)%nat.
Proof.
  induction fuel as [|fuel IH]; intros lr frag scratch po inf Hf; [lia|]. cbn [read_record_loop].
  destruct (read_physical_total lr frag) as (t & d & lr1 & E & Hle & Hlt). rewrite E.
  cbn [mbind option_bind].
  assert (forall l s p i, (left_bytes l = left_bytes lr1)%nat -> t <> LDB_EOF ->
    exists r lr', read_record_loop fuel l d s p i = Some (r, lr') /\
      (left_bytes lr' <= left_bytes lr)%nat /\ (r <> None -> left_bytes lr' < left_bytes lr)%nat) as Hagain.
  { intros l s p i El Ht. specialize (Hlt Ht).
    destruct (IH l d s p i ltac:(lia)) as (r & lr' & E' & H1 & H2). eexists _, _.
    split; [exact E'|]. split; [lia|]. intros Hr. specialize (H2 Hr). lia. }
  set (lr2 := if lr_resyncing lr1 then set_resyncing lr1 false else lr1).
  assert (left_bytes lr2 = left_bytes lr1) as E2 by (subst lr2; by destruct (lr_resyncing lr1)).
  unfold LDB_TYPE_FULL, LDB_TYPE_FIRST, LDB_TYPE_MIDDLE, LDB_TYPE_LAST, LDB_EOF, LDB_BAD_RECORD,
    LDB_MAX_RECTYPE, LDB_TYPE_LAST in *.
  destruct (Z.eqb_spec t 5) as [->|H5].
  { rewrite !andb_false_r. cbn [Z.eqb Pos.eqb Z.add Pos.add]. eexists _, _.
    split; [reflexivity|]. split; [lia|done]. }
  specialize (Hlt H5).
  rewrite (proj2 (Z.eqb_neq t (4 + 1))) by done.
  assert (forall c : bool, forall n, left_bytes (if c then report_corruption lr2 n else lr2) = left_bytes lr1)
    as Hrep by (intros [] n; rewrite ?report_corruption_left; done).
  destruct (_ && (t =? 3)); [by apply Hagain|].
  destruct (_ && (t =? 4)); [by apply Hagain|].
  destruct (t =? 1).
  { eexists _, _. split; [reflexivity|].
    match goal with |- context [left_bytes (set_last_offset ?l _)] =>
      change (left_bytes (set_last_offset l _)) with (left_bytes l) end.
    rewrite Hrep. split; [lia|intros _; lia]. }
  destruct (t =? 2); [by apply Hagain; [apply Hrep|]|].
  destruct (t =? 3); [destruct (negb inf); (apply Hagain; [rewrite ?report_corruption_left|]; done)|].
  destruct (t =? 4).
  { destruct (negb inf); [apply Hagain; [by rewrite report_corruption_left|done]|].
    eexists _, _. split; [reflexivity|].
    match goal with |- context [left_bytes (set_last_offset ?l _)] =>
      change (left_bytes (set_last_offset l _)) with (left_bytes l) end.
    rewrite E2. split; [lia|intros _; lia]. }
  destruct (t =? 4 + 2); [destruct inf; (apply Hagain; [rewrite ?report_corruption_left|]; done)|].
  apply Hagain; [by rewrite report_corruption_left|done].
Qed.

Lemma read_record_total junk lr :
  exists r lr', ldb_reader_read_record junk lr = Some (r, lr') /\
    (left_bytes lr' <= left_bytes lr)%nat /\ (r <> None -> left_bytes lr' < left_bytes lr)%nat.
Proof.
  unfold ldb_reader_read_record.
  assert (exists lr0, (if lr_last_offset lr <? lr_initial_offset lr then skip_to_initial_block lr
    else (true, lr)) = (true, lr0) /\ (left_bytes lr0 <= left_bytes lr)%nat) as (lr0 & -> & H0).
  { destruct (_ <? _); [|by exists lr]. eexists. split; [reflexivity|].
    unfold left_bytes. cbn [lr_buffer lr_src]. unfold zdrop. rewrite length_drop. lia. }
  cbn [negb].
  destruct (read_record_loop_total (S (S (length (lr_buffer lr0) + length (lr_src lr0)))) lr0 junk [] 0 false)
    as (r & lr' & E & H1 & H2); [unfold left_bytes; lia|].
  exists r, lr'. split; [exact E|]. split; [lia|]. intros Hr. specialize (H2 Hr). lia.
Qed.

Lemma read_all_total junk n lr :
  (left_bytes lr < n)%nat -> exists rs lr', read_all n junk lr = Some (rs, lr').
Proof.
  revert lr. induction n as [|n IH]; intros lr Hn; [lia|]. cbn [read_all].
  destruct (read_record_total junk lr) as (r & lr1 & E & H1 & H2). rewrite E. cbn [mbind option_bind].
  destruct r as [r|]; [|eauto]. specialize (H2 ltac:(done)).
  destruct (IH lr1 ltac:(lia)) as (rs & lr2 & E2). rewrite E2. cbn. eauto.
Qed.

(** The file that [ldb_writer_add_record] produces for a list of records. *)
Definition log_file (rs : list bytes) : bytes :=
  match write_records (ldb_writer_init [] 0) rs with Some lw => lw_file lw | None => [] end.

Lemma writer_init_ok {F} (f : F) n : 0 <= n -> writer_ok (ldb_writer_init f n).
Proof.
  intros Hn. split; [|done]. cbn [ldb_writer_init lw_block_offset].
  pose proof (Z.mod_pos_bound n LDB_BLOCK_SIZE eq_refl). lia.
Qed.

(** A log that was cut is read up to the cut. *)
Lemma read_cut_log junk rs n :
  0 <= n ->
  exists m lr',
    read_all (S (length rs)) junk (ldb_reader_init (ztake n (log_file rs)) LDB_OK true true 0) =
      Some (take m rs, lr') /\
    lr_reports lr' = [] /\
    (forall j, (j <= length rs)%nat -> zlen (log_file (take j rs)) <= n -> (j <= m)%nat).
Proof.
  intros Hn. set (lw := ldb_writer_init (F := bytes) [] 0). pose proof (writer_init_ok (F := bytes) [] 0 ltac:(lia)) as Hw.
  fold lw in Hw. destruct (write_records_spec lw rs Hw) as (fss & lw' & E & F & _).
  assert (log_file rs = lw_file lw') as Ef by (unfold log_file; fold lw; by rewrite E).
  destruct (read_all_written junk rs lw lw'
    (ldb_reader_init (ztake n (log_file rs)) LDB_OK true true 0) n Hw E Hn ltac:(done))
    as (m & lr' & R & (C & _) & M).
  - exists LDB_BLOCK_SIZE. change (zlen (lw_file lw)) with 0. rewrite zdrop_0, Ef. split; [|done].
    split; try done. cbn [ldb_reader_init lr_eof].
    symmetry. apply Z.ltb_ge. pose proof (zlen_nonneg (ztake n (lw_file lw'))). lia.
  - exists m, lr'. split; [exact R|]. split; [exact C|]. intros j Hj Hlen.
    destruct (write_records_spec lw (take j rs) Hw) as (_ & lwj & Ej & _).
    apply (M j lwj Hj Ej). change (zlen (lw_file lw)) with 0.
    unfold log_file in Hlen. fold lw in Hlen. rewrite Ej in Hlen. lia.
Qed.

(** ** Properties *)

(** C7: The log survives a crash at any byte.  Write any records with
    [ldb_writer_add_record] (of any size: they are fragmented over blocks) and
    cut the file at any length [n]: a fresh reader that verifies checksums
    returns, in order, a prefix of the records and then the end, without
    reporting a corruption; every record whose bytes are all in front of the
    cut is returned.  Uncut, all records are. *)
Theorem log_crash_recovery junk rs n :
  0 <= n ->
  exists m lr',
    read_all (S (length rs)) junk (ldb_reader_init (ztake n (log_file rs)) LDB_OK true true 0) =
      Some (take m rs, lr') /\
    lr_reports lr' = [] /\
    (forall j, (j <= length rs)%nat -> zlen (log_file (take j rs)) <= n -> (j <= m)%nat).
Proof. apply read_cut_log. Qed.

Lemma log_crash_recovery_witness :
  let rs := [[Byte.x61; Byte.x62]; []; [Byte.x63]] in
  exists m lr',
    read_all 4 [] (ldb_reader_init (ztake 20 (log_file rs)) LDB_OK true true 0) =
      Some (take m rs, lr') /\ (2 <= m)%nat.
Proof.
  intros rs. destruct (log_crash_recovery [] rs 20 ltac:(lia)) as (m & lr' & E & _ & M).
  exists m, lr'. split; [exact E|]. apply M; [cbn; lia|]. by vm_compute.
Defined.

(** The reader is total on arbitrary files: whatever the bytes, the status
    of the reads, the checksum setting and the initial offset, every read ends,
    and reading to the end takes at most one call per byte of the file. *)
Theorem log_reader_total junk src error reporter checksum initial_offset :
  exists rs lr',
    read_all (S (length src)) junk (ldb_reader_init src error reporter checksum initial_offset) =
      Some (rs, lr').
Proof. apply read_all_total. unfold left_bytes. cbn. lia. Qed.

(** Bytes in place of a physical record: up to four consecutive bytes of its
    checksum, or of its type and payload, were overwritten. *)
Inductive damaged (t : Z) (d w : bytes) : Prop :=
  | Damaged pre ws ws' post :
      phys t d = pre ++ ws ++ post -> w = pre ++ ws' ++ post -> length ws = length ws' -> zlen ws <= 4 -> ws <> ws' ->
      zlen pre + zlen ws <= 4 \/ 6 <= zlen pre -> damaged t d w.

Lemma shorter_prefix (l1 l2 k1 k2 : bytes) : l1 ++ l2 = k1 ++ k2 -> zlen l1 <= zlen k1 -> exists k, k1 = l1 ++ k /\ l2 = k ++ k2.
Proof.
  intros [(k & -> & ->)|(k & -> & ->)]%app_eq_inv Hl; [|by exists k]. rewrite zlen_app in Hl.
  destruct k as [|b k]; [exists []; by rewrite !app_nil_r|]. rewrite zlen_cons in Hl. zlia.
Qed.

(** A checksum field tells its checksum. *)
Lemma checksum_field c crc : zlen c = 4 -> 0 <= crc < 2 ^ 32 -> crc32c_unmask (fixed32_decode c) = crc ->
  c = fixed32_write (crc32c_mask crc).
Proof.
  intros H4 Hc E. rewrite <- E, crc32c_mask_unmask by apply fixed32_decode_range.
  apply le_value_inj; [unfold zlen in H4; cbn; lia|].
  rewrite <- (fixed32_decode_app (fixed32_write _) []) by done.
  rewrite fixed32_decode_write by apply fixed32_decode_range. by rewrite <- (fixed32_decode_app c []), app_nil_r by done.
Qed.

(** What the reader sees of it: the length field, and a checksum that does not
    match. *)
Lemma damaged_mismatch t d w : damaged t d w ->
  exists c body, w = c ++ [z2b (Z.land (zlen d) 0xff); z2b (Z.shiftr (zlen d) 8)] ++ body /\ zlen c = 4 /\
    zlen body = 1 + zlen d /\ crc32c_value body <> crc32c_unmask (fixed32_decode c).
Proof.
  intros [pre ws ws' post E -> Hlen H4 Hne Hpos].
  pose proof (crc32c_value_range (z2b t :: d)) as Hcr. set (m := crc32c_mask (crc32c_value (z2b t :: d))).
  set (L := [z2b (Z.land (zlen d) 0xff); z2b (Z.shiftr (zlen d) 8)]).
  assert (phys t d = fixed32_write m ++ L ++ z2b t :: d) as Ep by done. rewrite Ep in E.
  assert (zlen ws = zlen ws') as Hz by (unfold zlen; lia). destruct Hpos as [Hpos|Hpos].
  - rewrite (app_assoc pre) in E. symmetry in E.
    apply shorter_prefix in E as (k & Ek & ->); [|by rewrite zlen_app, zlen_fixed32_write].
    exists (pre ++ ws' ++ k), (z2b t :: d). split; [by rewrite <- !app_assoc|].
    assert (zlen (pre ++ ws' ++ k) = 4) as Hc by (rewrite <- (zlen_fixed32_write m), Ek, !zlen_app; lia).
    split; [done|]. split; [rewrite zlen_cons; lia|]. intros Heq. symmetry in Heq.
    apply checksum_field in Heq; [|done|done]. fold m in Heq. rewrite Ek, <- app_assoc in Heq.
    apply app_inv_head, app_inv_tail in Heq. congruence.
  - rewrite app_assoc in E. apply shorter_prefix in E as (k & -> & Ek); [|done].
    exists (fixed32_write m), (k ++ ws' ++ post). split; [by rewrite <- !app_assoc|]. split; [done|].
    split; [rewrite <- (zlen_cons (z2b t)), Ek, !zlen_app; lia|].
    rewrite <- (app_nil_r (fixed32_write m)), fixed32_decode_write by apply crc32c_mask_range.
    unfold m. rewrite crc32c_unmask_mask, Ek by done. intros Heq. by apply (crc32c_burst k ws ws' post Hlen H4 Hne).
Qed.

(** C39: A damaged record is never delivered: when up to four consecutive bytes
    of a physical record differ from what was written, all in its checksum or
    all in its type and payload, the verifying reader returns
    [LDB_BAD_RECORD], delivers nothing, drops the rest of the block and reports
    the drop with its size; only a record without payload whose type byte now
    reads zero looks like preallocated space and is dropped without a report.
    (The two bytes of the length are not protected: the checksum covers as many
    bytes as they say.) *)
Theorem log_damage_detected lr res o t d w rest :
  damaged t d w -> lr_checksum lr = true -> lr_reporter lr = true ->
  at_offset lr o (w ++ rest) -> o + 7 + zlen d <= LDB_BLOCK_SIZE ->
  exists lr',
    read_physical_record lr res = Some (LDB_BAD_RECORD, res, lr') /\ lr_buffer lr' = [] /\
    lr_reports lr' = (if (at_ w 6 =? LDB_TYPE_ZERO) && (zlen d =? 0) then lr_reports lr
                      else lr_reports lr ++ [(zlen (lr_buffer lr), LDB_CORRUPTION)]).
Proof.
  intros (c & body & -> & H4 & Hbl & Hcrc)%damaged_mismatch Hc Hrep A Hfit. destruct A as [Ho Hb Hsrc Heof Herr Hi Hr].
  pose proof (zlen_nonneg d).
  set (w := c ++ [z2b (Z.land (zlen d) 0xff); z2b (Z.shiftr (zlen d) 8)] ++ body) in *.
  assert (zlen w = 7 + zlen d) as Hw by (unfold w; rewrite !zlen_app, !zlen_cons, zlen_nil; lia).
  rewrite ztake_app_ge in Hb by lia. set (rb := ztake _ rest) in Hb. pose proof (zlen_nonneg rb).
  assert (header_length (w ++ rb) = header_length (phys t d ++ rb) /\ zdrop 6 (w ++ rb) = body ++ rb /\
    at_ (w ++ rb) 6 = at_ w 6 /\ fixed32_decode (w ++ rb) = fixed32_decode c) as (Eh & E6 & Et & Ec).
  { rewrite <- (app_nil_r c). unfold w. rewrite <- !app_assoc, !fixed32_decode_app by done.
    destruct (phys_cons t d rb) as (a' & b' & c' & e' & -> & _). unfold header_length, at_.
    destruct c as [|a [|b [|c [|e [|f ?]]]]]; rewrite ?zlen_cons, ?zlen_nil in H4; try lia; [|exfalso; zlia].
    destruct body as [|y body]; [rewrite zlen_nil in Hbl; lia|].
    unfold zdrop. to_nat_literals. by cbn [app nth drop]. }
  rewrite header_length_phys in Eh by (unfold LDB_BLOCK_SIZE in Hfit; lia).
  unfold read_physical_record. cbn [read_physical_record_loop]. rewrite Hb.
  fold (header_length (w ++ rb)). rewrite Eh, E6, Et, Ec.
  rewrite zlen_app, Hw. unfold LDB_HEADER_SIZE.
  rewrite (proj2 (Z.ltb_ge _ _)) by lia. rewrite (proj2 (Z.ltb_ge _ _)) by lia.
  destruct (_ && (zlen d =? 0)); [by eexists|].
  rewrite Hc, ztake_app by lia. rewrite (proj2 (Z.eqb_neq _ _) Hcrc).
  cbn [negb andb]. eexists. split; [reflexivity|].
  unfold report_corruption, report_drop. cbn [set_buffer lr_reporter lr_initial_offset lr_end_offset lr_buffer].
  rewrite Hrep, Hi, (proj2 (Z.leb_le _ _)) by apply u64_range. cbn [andb]. done.
Qed.

(** One witness with a damaged payload, one with a damaged checksum. *)
Lemma log_damage_detected_witness :
  let good := phys LDB_TYPE_FULL [Byte.x61] in
  let reader_on w := Reader [] LDB_OK true true w true 0 8 0 false [] in
  let payload := ztake 7 good ++ [Byte.x62] in
  let checksum := Byte.x00 :: zdrop 1 good in
  (exists lr', read_physical_record (reader_on payload) [] = Some (LDB_BAD_RECORD, [], lr') /\ lr_buffer lr' = [] /\
    lr_reports lr' = [(8, LDB_CORRUPTION)]) /\
  exists lr', read_physical_record (reader_on checksum) [] = Some (LDB_BAD_RECORD, [], lr') /\ lr_buffer lr' = [] /\
    lr_reports lr' = [(8, LDB_CORRUPTION)].
Proof.
  intros good reader_on payload checksum. split.
  - apply (log_damage_detected (reader_on payload) [] 0 LDB_TYPE_FULL [Byte.x61] payload []);
      [|reflexivity|reflexivity|split; by vm_compute|by vm_compute].
    apply (Damaged _ _ _ (ztake 7 good) [Byte.x61] [Byte.x62] []); [by vm_compute|by vm_compute|done|by vm_compute|done|right; by vm_compute].
  - apply (log_damage_detected (reader_on checksum) [] 0 LDB_TYPE_FULL [Byte.x61] checksum []);
      [|reflexivity|reflexivity|split; by vm_compute|by vm_compute].
    apply (Damaged _ _ _ [] (ztake 1 good) [Byte.x00] (zdrop 1 good)); [by vm_compute|by vm_compute|done|by vm_compute|done|left; by vm_compute].
Defined.
