(* ===== verification/Iterator.v ===== *)
(** * Iterators

    Models [src/engine/src/table/iterator.h] and [iterator.c]: the table of
    operations every iterator of the database provides, its documented contract
    as a type class, the seeks defined on top of it, and the empty iterator.
    (Cleanup functions only manage memory and are not modelled.)

    Blocks, memtables and what is built from them are instances; their clients
    are proved against the class. *)

From stdpp Require Import sorting.
From S2P Require Import Prelude Status Comparator.
#[local] Open Scope Z_scope.

(** ** The interface *)

(** [ldb_itertbl_t] over the state of an iterator.  [None] is an operation the
    code does not define in that state (an assertion, an access out of
    bounds). *)
Record iter_ops (S : Type) := IterOps {
  it_valid : S -> bool;
  it_first : S -> option S;
  it_last : S -> option S;
  it_seek : S -> bytes -> option S;
  it_next : S -> option S;
  it_prev : S -> option S;
  it_key : S -> option bytes;
  it_value : S -> option bytes;
  it_status : S -> Z
}.
Arguments IterOps {S}.
Arguments it_valid {S}.
Arguments it_first {S}.
Arguments it_last {S}.
Arguments it_seek {S}.
Arguments it_next {S}.
Arguments it_prev {S}.
Arguments it_key {S}.
Arguments it_value {S}.
Arguments it_status {S}.

(** ** Positions in a list of pairs *)

Abbreviation pairs := (list (bytes * bytes)).

(** The position [n], if the list has it, and the one before. *)
Definition position (kvs : pairs) (n : nat) : option nat :=
  if bool_decide (n < length kvs)%nat then Some n else None.
Definition position_before (n : nat) : option nat :=
  match n with O => None | S n => Some n end.

(** How many leading keys are below (at most) the target. *)
Fixpoint count_lt (cmp : comparator) (target : bytes) (kvs : pairs) : nat :=
  match kvs with
  | [] => 0
  | kv :: kvs => if ldb_compare cmp kv.1 target <? 0 then S (count_lt cmp target kvs) else 0
  end.
Fixpoint count_le (cmp : comparator) (target : bytes) (kvs : pairs) : nat :=
  match kvs with
  | [] => 0
  | kv :: kvs => if ldb_compare cmp kv.1 target <=? 0 then S (count_le cmp target kvs) else 0
  end.

Definition sorted_pairs (cmp : comparator) (kvs : pairs) : Prop :=
  StronglySorted (fun a b => ldb_compare cmp a.1 b.1 < 0) kvs.

(** The contract of [iterator.h] for an iterator over [kvs]: [rep s p] says that
    [s] stands at position [p] of the list, [None] when it is not valid. *)
Class IteratorLaws {S} (ops : iter_ops S) (dom : bytes -> Prop) (cmp : comparator)
    (kvs : pairs) (rep : S -> option nat -> Prop) : Prop := {
  laws_bound s i : rep s (Some i) -> (i < length kvs)%nat;
  laws_valid s p : rep s p -> it_valid ops s = bool_decide (p <> None);
  laws_status s p : rep s p -> it_status ops s = LDB_OK;
  laws_entry s i kv : rep s (Some i) -> kvs !! i = Some kv ->
    it_key ops s = Some kv.1 /\ it_value ops s = Some kv.2;
  laws_first s p : rep s p -> exists s', it_first ops s = Some s' /\ rep s' (position kvs 0);
  laws_last s p : rep s p ->
    exists s', it_last ops s = Some s' /\ rep s' (position_before (length kvs));
  laws_seek s p target : rep s p -> dom target ->
    exists s', it_seek ops s target = Some s' /\ rep s' (position kvs (count_lt cmp target kvs));
  laws_next s i : rep s (Some i) ->
    exists s', it_next ops s = Some s' /\ rep s' (position kvs (i + 1));
  laws_prev s i : rep s (Some i) -> exists s', it_prev ops s = Some s' /\ rep s' (position_before i)
}.

(** ** Seeks built on the interface *)

Section Seeks.
Context {S : Type} (ops : iter_ops S) (cmp : comparator).

Definition ldb_iter_compare (s : S) (key : bytes) : option Z :=
  x ← it_key ops s; Some (ldb_compare cmp x key).

Definition ldb_iter_seek_ge (s : S) (target : bytes) : option S := it_seek ops s target.

Definition ldb_iter_seek_gt (s : S) (target : bytes) : option S :=
  s ← it_seek ops s target;
  if it_valid ops s then
    c ← ldb_iter_compare s target;
    if c =? 0 then it_next ops s else Some s
  else Some s.

Definition ldb_iter_seek_le (s : S) (target : bytes) : option S :=
  s ← it_seek ops s target;
  if it_valid ops s then
    c ← ldb_iter_compare s target;
    if 0 <? c then it_prev ops s else Some s
  else it_last ops s.

Definition ldb_iter_seek_lt (s : S) (target : bytes) : option S :=
  s ← it_seek ops s target;
  if it_valid ops s then it_prev ops s else it_last ops s.
End Seeks.

(** ** The empty iterator *)

(** [ldb_emptyiter_t] is its [status]. *)
Definition ldb_emptyiter_table : iter_ops Z := {|
  it_valid := fun _ => false;
  it_first := fun s => Some s;
  it_last := fun s => Some s;
  it_seek := fun s _ => Some s;
  it_next := fun s => Some s;
  it_prev := fun s => Some s;
  it_key := fun _ => None;
  it_value := fun _ => None;
  it_status := fun s => s
|}.

(** ** Iterators of two kinds

    [ldb_iter_t] refers to the table of its kind; here the kinds are the sides of
    a sum. *)

Definition sum_iter_table {A B : Type} (a : iter_ops A) (b : iter_ops B) : iter_ops (A + B) := {|
  it_valid := fun s => match s with inl x => it_valid a x | inr y => it_valid b y end;
  it_first := fun s => match s with inl x => inl <$> it_first a x | inr y => inr <$> it_first b y end;
  it_last := fun s => match s with inl x => inl <$> it_last a x | inr y => inr <$> it_last b y end;
  it_seek := fun s t => match s with inl x => inl <$> it_seek a x t | inr y => inr <$> it_seek b y t end;
  it_next := fun s => match s with inl x => inl <$> it_next a x | inr y => inr <$> it_next b y end;
  it_prev := fun s => match s with inl x => inl <$> it_prev a x | inr y => inr <$> it_prev b y end;
  it_key := fun s => match s with inl x => it_key a x | inr y => it_key b y end;
  it_value := fun s => match s with inl x => it_value a x | inr y => it_value b y end;
  it_status := fun s => match s with inl x => it_status a x | inr y => it_status b y end
|}.

(** ** Counting in sorted lists *)

Lemma sorted_lookup {A} (R : A -> A -> Prop) xs a b x y :
  StronglySorted R xs -> xs !! a = Some x -> xs !! b = Some y -> (a < b)%nat -> R x y.
Proof.
  intros Hs. revert a b. induction Hs as [|z xs Hs IH Hall]; intros [|a] [|b] Ha Hb Hab; try done; try lia.
  - injection Ha as ->. rewrite List.Forall_forall in Hall. apply Hall, list_elem_of_In.
    by eapply list_elem_of_lookup_2.
  - apply (IH a b); [done..|lia].
Qed.

Lemma count_lt_length cmp t kvs : (count_lt cmp t kvs <= length kvs)%nat.
Proof. induction kvs as [|kv kvs IH]; cbn; [lia|]. destruct (_ <? _); lia. Qed.

Lemma position_some kvs n : (n < length kvs)%nat -> position kvs n = Some n.
Proof. intros H. unfold position. by rewrite bool_decide_eq_true_2. Qed.

Lemma position_none kvs n : (length kvs <= n)%nat -> position kvs n = None.
Proof. intros H. unfold position. rewrite bool_decide_eq_false_2; [done|lia]. Qed.

Lemma count_lt_below cmp t kvs i kv :
  (i < count_lt cmp t kvs)%nat -> kvs !! i = Some kv -> ldb_compare cmp kv.1 t < 0.
Proof.
  revert i. induction kvs as [|kv' kvs IH]; intros i; cbn; [lia|].
  destruct (Z.ltb_spec (ldb_compare cmp kv'.1 t) 0); [|lia].
  destruct i as [|i]; cbn; [by intros _ [= <-]|]. intros Hi. apply IH. lia.
Qed.

Lemma count_lt_at cmp t kvs kv :
  kvs !! count_lt cmp t kvs = Some kv -> 0 <= ldb_compare cmp kv.1 t.
Proof.
  induction kvs as [|kv' kvs IH]; cbn; [done|].
  destruct (Z.ltb_spec (ldb_compare cmp kv'.1 t) 0); [done|]. by intros [= <-].
Qed.

(** [count_lt] is determined by the two facts above. *)
Lemma count_lt_unique cmp t kvs n :
  (forall i kv, (i < n)%nat -> kvs !! i = Some kv -> ldb_compare cmp kv.1 t < 0) ->
  (forall kv, kvs !! n = Some kv -> 0 <= ldb_compare cmp kv.1 t) ->
  (n <= length kvs)%nat -> count_lt cmp t kvs = n.
Proof.
  revert n. induction kvs as [|kv kvs IH]; intros n Hlt Hge Hn; cbn in *; [lia|].
  destruct n as [|n].
  - specialize (Hge kv eq_refl). by rewrite (proj2 (Z.ltb_ge _ _)).
  - pose proof (Hlt 0%nat kv ltac:(lia) eq_refl). rewrite (proj2 (Z.ltb_lt _ _)) by done.
    f_equal. apply IH; [|done|lia]. intros i kv' Hi. apply (Hlt (S i)). lia.
Qed.

Section Sorted.
Context (dom : bytes -> Prop) (cmp : comparator) `{!ComparatorLaws dom cmp}.

(** From [count_lt] on no key is below the target. *)
Lemma count_lt_above t kvs i kv :
  sorted_pairs cmp kvs -> Forall (fun kv => dom kv.1) kvs -> dom t ->
  (count_lt cmp t kvs <= i)%nat -> kvs !! i = Some kv -> 0 <= ldb_compare cmp kv.1 t.
Proof.
  intros Hs Hd Ht Hi Hkv. rewrite List.Forall_forall in Hd.
  assert (forall k kv', kvs !! k = Some kv' -> dom kv'.1) as HD
    by (intros k kv' H; apply Hd, list_elem_of_In; by eapply list_elem_of_lookup_2).
  destruct (lookup_lt_is_Some_2 kvs (count_lt cmp t kvs)) as [kv0 E0]; [apply lookup_lt_Some in Hkv; lia|].
  pose proof (count_lt_at cmp t kvs kv0 E0) as H0.
  destruct (decide (count_lt cmp t kvs = i)) as [Heq|Hne]; [rewrite Heq in E0; by simplify_eq|].
  pose proof (sorted_lookup _ kvs _ i _ _ Hs E0 Hkv ltac:(lia)) as Hlt. cbn in Hlt.
  apply (compare_le_flip dom cmp) in H0; [|by eauto..]. apply (compare_le_flip dom cmp); [by eauto..|].
  apply (compare_trans _ kv0.1); [by eauto..|done|lia].
Qed.

(** In a sorted list at most one key equals the target. *)
Lemma count_le_sorted t kvs :
  sorted_pairs cmp kvs -> Forall (fun kv => dom kv.1) kvs -> dom t ->
  count_le cmp t kvs =
    match kvs !! count_lt cmp t kvs with
    | Some kv => if ldb_compare cmp kv.1 t =? 0 then S (count_lt cmp t kvs) else count_lt cmp t kvs
    | None => count_lt cmp t kvs
    end.
Proof.
  intros Hs Hd Ht. induction Hs as [|kv kvs Hs IH Hall]; [done|]. cbn [count_le count_lt].
  apply List.Forall_cons_iff in Hd as [Dk Hd].
  destruct (Z.ltb_spec (ldb_compare cmp kv.1 t) 0) as [Hlt|Hge].
  - rewrite (proj2 (Z.leb_le _ _)) by lia. rewrite IH by done. cbn [lookup list_lookup].
    destruct (kvs !! count_lt cmp t kvs) as [kv'|]; [|done]. by destruct (_ =? 0).
  - cbn. destruct (Z.leb_spec (ldb_compare cmp kv.1 t) 0) as [Hle|Hgt].
    + rewrite (proj2 (Z.eqb_eq _ _)) by lia. f_equal.
      destruct kvs as [|kv' kvs]; [done|]. cbn.
      apply List.Forall_cons_iff in Hall as [Hkk _]. apply List.Forall_cons_iff in Hd as [Dk' _].
      rewrite (proj2 (Z.leb_gt _ _)); [done|].
      apply (compare_lt_flip dom cmp) in Hkk; [|done..].
      pose proof (compare_flip (c := cmp) kv.1 t Dk Ht).
      apply (compare_lt_flip dom cmp); [done..|].
      apply (compare_le_lt_trans dom cmp _ kv.1); [done..|lia|]. by apply (compare_lt_flip dom cmp).
    + rewrite (proj2 (Z.eqb_neq _ _)) by lia. done.
Qed.
End Sorted.

Lemma count_lt_mono dom cmp `{!ComparatorLaws dom cmp} t t' kvs :
  Forall (fun kv => dom kv.1) kvs -> dom t -> dom t' -> ldb_compare cmp t t' <= 0 -> (count_lt cmp t kvs <= count_lt cmp t' kvs)%nat.
Proof.
  intros Hd Ht Ht' Hle. induction Hd as [|kv kvs Hkv Hd IH]; cbn; [lia|].
  destruct (Z.ltb_spec (ldb_compare cmp kv.1 t) 0) as [Hlt|]; [|lia].
  rewrite (proj2 (Z.ltb_lt _ _)); [lia|]. by apply (compare_lt_le_trans dom cmp _ t).
Qed.

#[export] Instance emptyiter_laws dom cmp :
  IteratorLaws ldb_emptyiter_table dom cmp [] (fun s p => s = LDB_OK /\ p = None).
Proof.
  split.
  - by intros s i [_ ?].
  - by intros s p [-> ->].
  - by intros s p [-> _].
  - by intros s i kv [_ ?].
  - intros s p [-> _]. by exists LDB_OK.
  - intros s p [-> _]. by exists LDB_OK.
  - intros s p t [-> _] _. by exists LDB_OK.
  - by intros s i [_ ?].
  - by intros s i [_ ?].
Qed.

#[export] Instance sum_iter_laws {A B} (a : iter_ops A) (b : iter_ops B) dom cmp kvs rep `{!IteratorLaws b dom cmp kvs rep} :
  IteratorLaws (sum_iter_table a b) dom cmp kvs (fun s p => exists y, s = inr y /\ rep y p).
Proof.
  split; cbn [sum_iter_table it_valid it_status it_key it_value it_first it_last it_seek it_next it_prev].
  - intros s i (y & -> & R). by apply (laws_bound y).
  - intros s p (y & -> & R). by apply laws_valid.
  - intros s p (y & -> & R). by eapply laws_status.
  - intros s i kv (y & -> & R). by apply laws_entry.
  - intros s p (y & -> & R). destruct (laws_first y p R) as (y' & -> & R'). cbn. eauto.
  - intros s p (y & -> & R). destruct (laws_last y p R) as (y' & -> & R'). cbn. eauto.
  - intros s p t (y & -> & R) Ht. destruct (laws_seek y p t R Ht) as (y' & -> & R'). cbn. eauto.
  - intros s i (y & -> & R). destruct (laws_next y i R) as (y' & -> & R'). cbn. eauto.
  - intros s i (y & -> & R). destruct (laws_prev y i R) as (y' & -> & R'). cbn. eauto.
Qed.

(** Every lawful representation at once. *)
Definition any_rep {S} (ops : iter_ops S) (dom : bytes -> Prop) (cmp : comparator) (kvs : pairs) (s : S) (p : option nat) : Prop :=
  exists rep, IteratorLaws ops dom cmp kvs rep /\ rep s p.

#[export] Instance any_rep_laws {S} (ops : iter_ops S) dom cmp kvs : IteratorLaws ops dom cmp kvs (any_rep ops dom cmp kvs).
Proof.
  split.
  - intros s i (rep & L & R). by apply (laws_bound s).
  - intros s p (rep & L & R). by apply laws_valid.
  - intros s p (rep & L & R). by eapply laws_status.
  - intros s i kv (rep & L & R). by apply laws_entry.
  - intros s p (rep & L & R). destruct (laws_first s p R) as (s' & -> & R'). exists s'. split; [done|]. by exists rep.
  - intros s p (rep & L & R). destruct (laws_last s p R) as (s' & -> & R'). exists s'. split; [done|]. by exists rep.
  - intros s p t (rep & L & R) Ht. destruct (laws_seek s p t R Ht) as (s' & -> & R'). exists s'. split; [done|]. by exists rep.
  - intros s i (rep & L & R). destruct (laws_next s i R) as (s' & -> & R'). exists s'. split; [done|]. by exists rep.
  - intros s i (rep & L & R). destruct (laws_prev s i R) as (s' & -> & R'). exists s'. split; [done|]. by exists rep.
Qed.

Lemma any_rep_inl {A B} (a : iter_ops A) (b : iter_ops B) dom cmp kvs x p :
  any_rep a dom cmp kvs x p -> any_rep (sum_iter_table a b) dom cmp kvs (inl x) p.
Proof.
  intros (rep & L & R). exists (fun s p => exists x, s = inl x /\ rep x p). split; [|eauto].
  split; cbn [sum_iter_table it_valid it_status it_key it_value it_first it_last it_seek it_next it_prev].
  - intros s i (y & -> & H). by apply (laws_bound y).
  - intros s q (y & -> & H). by apply laws_valid.
  - intros s q (y & -> & H). by eapply laws_status.
  - intros s i kv (y & -> & H). by apply laws_entry.
  - intros s q (y & -> & H). destruct (laws_first y q H) as (y' & -> & H'). cbn. eauto.
  - intros s q (y & -> & H). destruct (laws_last y q H) as (y' & -> & H'). cbn. eauto.
  - intros s q t (y & -> & H) Ht. destruct (laws_seek y q t H Ht) as (y' & -> & H'). cbn. eauto.
  - intros s i (y & -> & H). destruct (laws_next y i H) as (y' & -> & H'). cbn. eauto.
  - intros s i (y & -> & H). destruct (laws_prev y i H) as (y' & -> & H'). cbn. eauto.
Qed.

Lemma any_rep_inr {A B} (a : iter_ops A) (b : iter_ops B) dom cmp kvs y p :
  any_rep b dom cmp kvs y p -> any_rep (sum_iter_table a b) dom cmp kvs (inr y) p.
Proof. intros (rep & L & R). exists (fun s p => exists y, s = inr y /\ rep y p). split; [by apply sum_iter_laws|eauto]. Qed.

(** An iterator together with the structure it moves in. *)
Definition with_owner {A S : Type} (ops : A -> iter_ops S) : iter_ops (A * S) := {|
  it_valid := fun s => it_valid (ops s.1) s.2;
  it_first := fun s => pair s.1 <$> it_first (ops s.1) s.2;
  it_last := fun s => pair s.1 <$> it_last (ops s.1) s.2;
  it_seek := fun s t => pair s.1 <$> it_seek (ops s.1) s.2 t;
  it_next := fun s => pair s.1 <$> it_next (ops s.1) s.2;
  it_prev := fun s => pair s.1 <$> it_prev (ops s.1) s.2;
  it_key := fun s => it_key (ops s.1) s.2;
  it_value := fun s => it_value (ops s.1) s.2;
  it_status := fun s => it_status (ops s.1) s.2
|}.

Lemma with_owner_rep {A S} (ops : A -> iter_ops S) dom cmp kvs a s p :
  any_rep (ops a) dom cmp kvs s p -> any_rep (with_owner ops) dom cmp kvs (a, s) p.
Proof.
  intros (rep & L & R). exists (fun x p => exists s, x = (a, s) /\ rep s p). split; [|eauto].
  split; cbn [with_owner it_valid it_status it_key it_value it_first it_last it_seek it_next it_prev].
  - intros x i (y & -> & H). by apply (laws_bound y).
  - intros x q (y & -> & H). by apply laws_valid.
  - intros x q (y & -> & H). by eapply laws_status.
  - intros x i kv (y & -> & H). by apply laws_entry.
  - intros x q (y & -> & H). cbn [fst snd]. destruct (laws_first y q H) as (y' & -> & H'). cbn. eauto.
  - intros x q (y & -> & H). cbn [fst snd]. destruct (laws_last y q H) as (y' & -> & H'). cbn. eauto.
  - intros x q t (y & -> & H) Ht. cbn [fst snd]. destruct (laws_seek y q t H Ht) as (y' & -> & H'). cbn. eauto.
  - intros x i (y & -> & H). cbn [fst snd]. destruct (laws_next y i H) as (y' & -> & H'). cbn. eauto.
  - intros x i (y & -> & H). cbn [fst snd]. destruct (laws_prev y i H) as (y' & -> & H'). cbn. eauto.
Qed.

(** ** The specification as an iterator

    A list of pairs with a position: the simplest iterator that keeps the
    contract, for any list. *)

Definition listiter : Type := pairs * option nat.

Definition list_entry (s : listiter) : option (bytes * bytes) := i ← s.2; s.1 !! i.

Definition listiter_table (cmp : comparator) : iter_ops listiter := {|
  it_valid := fun s => bool_decide (is_Some (list_entry s));
  it_first := fun s => Some (s.1, position s.1 0);
  it_last := fun s => Some (s.1, position_before (length s.1));
  it_seek := fun s t => Some (s.1, position s.1 (count_lt cmp t s.1));
  it_next := fun s => i ← s.2; Some (s.1, position s.1 (i + 1));
  it_prev := fun s => i ← s.2; Some (s.1, position_before i);
  it_key := fun s => fst <$> list_entry s;
  it_value := fun s => snd <$> list_entry s;
  it_status := fun _ => LDB_OK
|}.

Definition listiter_rep (kvs : pairs) (s : listiter) (p : option nat) : Prop :=
  s = (kvs, p) /\ from_option (fun i => i < length kvs)%nat True p.

Lemma position_bound kvs n : from_option (fun i => i < length kvs)%nat True (position kvs n).
Proof. unfold position. by case_bool_decide. Qed.

#[export] Instance listiter_laws dom cmp kvs :
  IteratorLaws (listiter_table cmp) dom cmp kvs (listiter_rep kvs).
Proof.
  split; cbn [listiter_table it_valid it_status it_key it_value it_first it_last it_seek it_next it_prev].
  - by intros s i [_ ?].
  - intros s [i|] [-> Hi]; unfold list_entry; cbn; [|done].
    destruct (lookup_lt_is_Some_2 kvs i Hi) as [kv ->]. by rewrite bool_decide_eq_true_2.
  - done.
  - intros s i kv [-> _] E. unfold list_entry. cbn. by rewrite E.
  - intros s p [-> _]. eexists. split; [reflexivity|]. split; [done|apply position_bound].
  - intros s p [-> _]. eexists. split; [reflexivity|]. split; [done|].
    unfold position_before. cbn [fst]. destruct (length kvs); cbn; lia.
  - intros s p t [-> _] _. eexists. split; [reflexivity|]. split; [done|apply position_bound].
  - intros s i [-> _]. eexists. split; [reflexivity|]. split; [done|apply position_bound].
  - intros s i [-> Hi]. eexists. split; [reflexivity|]. split; [done|]. destruct i; cbn in *; lia.
Qed.

Section Contract.
Context {S : Type} (ops : iter_ops S) (dom : bytes -> Prop) (cmp : comparator).
Context (kvs : pairs) (rep : S -> option nat -> Prop).
Context `{!ComparatorLaws dom cmp, !IteratorLaws ops dom cmp kvs rep}.
Hypothesis Hsorted : sorted_pairs cmp kvs.
Hypothesis Hdom : Forall (fun kv => dom kv.1) kvs.

(** A seek ends at a pair not below the target, or past the end. *)
Lemma seek_cases s p target :
  rep s p -> dom target ->
  exists s', it_seek ops s target = Some s' /\
    ((exists kv, kvs !! count_lt cmp target kvs = Some kv /\ rep s' (Some (count_lt cmp target kvs)) /\
       it_valid ops s' = true /\
       ldb_iter_compare ops cmp s' target = Some (ldb_compare cmp kv.1 target) /\
       0 <= ldb_compare cmp kv.1 target) \/
     (count_lt cmp target kvs = length kvs /\ rep s' None /\ it_valid ops s' = false)).
Proof.
  intros Hr Ht. destruct (laws_seek s p target Hr Ht) as (s' & E & R). exists s'. split; [done|].
  pose proof (count_lt_length cmp target kvs). unfold position in R. case_bool_decide as Hn.
  - left. destruct (lookup_lt_is_Some_2 kvs _ Hn) as [kv Ekv]. exists kv.
    destruct (laws_entry s' _ kv R Ekv) as [Ek _].
    split; [done|]. split; [done|]. split; [by rewrite (laws_valid s' _ R)|].
    split; [unfold ldb_iter_compare; by rewrite Ek|]. by apply (count_lt_at cmp target kvs).
  - right. split; [lia|]. split; [done|]. by rewrite (laws_valid s' _ R).
Qed.

Lemma seek_gt_spec s p target :
  rep s p -> dom target ->
  exists s', ldb_iter_seek_gt ops cmp s target = Some s' /\
    rep s' (position kvs (count_le cmp target kvs)).
Proof.
  intros Hr Ht. destruct (seek_cases s p target Hr Ht) as (s1 & E & [(kv & Ekv & R & V & C & Hge)|(En & R & V)]);
    unfold ldb_iter_seek_gt; rewrite E; cbn [mbind option_bind]; rewrite V;
    rewrite (count_le_sorted dom cmp) by done.
  - rewrite C, Ekv. cbn [mbind option_bind]. pose proof (lookup_lt_Some _ _ _ Ekv).
    destruct (Z.eqb_spec (ldb_compare cmp kv.1 target) 0).
    + destruct (laws_next s1 _ R) as (s2 & E2 & R2). exists s2. split; [done|].
      by rewrite Nat.add_1_r in R2.
    + exists s1. split; [done|]. by rewrite position_some.
  - rewrite (lookup_ge_None_2 kvs) by lia. exists s1. split; [done|]. by rewrite position_none by lia.
Qed.

Lemma seek_le_spec s p target :
  rep s p -> dom target ->
  exists s', ldb_iter_seek_le ops cmp s target = Some s' /\
    rep s' (position_before (count_le cmp target kvs)).
Proof.
  intros Hr Ht. destruct (seek_cases s p target Hr Ht) as (s1 & E & [(kv & Ekv & R & V & C & Hge)|(En & R & V)]);
    unfold ldb_iter_seek_le; rewrite E; cbn [mbind option_bind]; rewrite V;
    rewrite (count_le_sorted dom cmp) by done.
  - rewrite C, Ekv. cbn [mbind option_bind].
    destruct (Z.ltb_spec 0 (ldb_compare cmp kv.1 target)).
    + rewrite (proj2 (Z.eqb_neq _ _)) by lia. apply (laws_prev s1 _ R).
    + rewrite (proj2 (Z.eqb_eq _ _)) by lia. by exists s1.
  - rewrite (lookup_ge_None_2 kvs) by lia. rewrite En. apply (laws_last s1 _ R).
Qed.

Lemma seek_lt_spec s p target :
  rep s p -> dom target ->
  exists s', ldb_iter_seek_lt ops s target = Some s' /\
    rep s' (position_before (count_lt cmp target kvs)).
Proof.
  intros Hr Ht. destruct (seek_cases s p target Hr Ht) as (s1 & E & [(kv & Ekv & R & V & C & Hge)|(En & R & V)]);
    unfold ldb_iter_seek_lt; rewrite E; cbn [mbind option_bind]; rewrite V.
  - apply (laws_prev s1 _ R).
  - rewrite En. apply (laws_last s1 _ R).
Qed.
End Contract.

(** ** Properties *)

(** The derived seeks are correct for every iterator that keeps the
    contract, over any sorted list of pairs: [ldb_iter_seek_ge] and
    [ldb_iter_seek_gt] stop at the first key at or after, resp. after, the
    target, [ldb_iter_seek_le] and [ldb_iter_seek_lt] at the last key at or
    before, resp. before, it; past either end the iterator is not valid. *)
Theorem derived_seeks {S} (ops : iter_ops S) dom cmp kvs rep
    `{!ComparatorLaws dom cmp, !IteratorLaws ops dom cmp kvs rep} s p target :
  sorted_pairs cmp kvs -> Forall (fun kv => dom kv.1) kvs -> rep s p -> dom target ->
  let ends r q := exists s', r = Some s' /\ rep s' q /\ it_valid ops s' = bool_decide (q <> None) in
  ends (ldb_iter_seek_ge ops s target) (position kvs (count_lt cmp target kvs)) /\
  ends (ldb_iter_seek_gt ops cmp s target) (position kvs (count_le cmp target kvs)) /\
  ends (ldb_iter_seek_le ops cmp s target) (position_before (count_le cmp target kvs)) /\
  ends (ldb_iter_seek_lt ops s target) (position_before (count_lt cmp target kvs)).
Proof.
  intros Hs Hd Hr Ht ends.
  assert (forall r q, (exists s', r = Some s' /\ rep s' q) -> ends r q) as Hends.
  { intros r q (s' & E & R). exists s'. split; [done|]. split; [done|]. by apply laws_valid. }
  split; [by eapply Hends, laws_seek|]. split; [by eapply Hends, (seek_gt_spec ops dom cmp)|].
  split; [by eapply Hends, (seek_le_spec ops dom cmp)|by eapply Hends, (seek_lt_spec ops dom cmp)].
Qed.

Lemma derived_seeks_witness :
  let kvs := [([Byte.x61], [Byte.x01]); ([Byte.x63], [Byte.x02])] in
  exists s', ldb_iter_seek_le (listiter_table bytewise_comparator) bytewise_comparator (kvs, None) [Byte.x62] = Some s' /\
    s' = (kvs, Some 0%nat).
Proof.
  intros kvs. destruct (derived_seeks (listiter_table bytewise_comparator) (fun _ => True) bytewise_comparator kvs
    (listiter_rep kvs) (kvs, None) None [Byte.x62]) as (_ & _ & (s' & E & [R _] & _) & _).
  - repeat constructor.
  - repeat constructor.
  - split; [reflexivity|exact I].
  - exact I.
  - exists s'. split; [exact E|exact R].
Defined.
