(* ===== verification/BlockBuilder.v ===== *)
(** * Building blocks

    Models [src/engine/src/table/block_builder.h] and [block_builder.c]:
    prefix-compressed entries with restart points.  Buffers and the restart
    array appear as the lists they hold (see Buffer.v). *)

From stdpp Require Import sorting.
From S2P Require Import Prelude Coding Comparator Iterator.
#[local] Open Scope Z_scope.

(** ** The builder *)

(** [ldb_blockgen_t]; of the options it uses [block_restart_interval] and, in
    an assertion, the comparator. *)
Record blockgen := Blockgen {
  bb_restart_interval : Z;
  bb_buffer : bytes;
  bb_restarts : list Z;
  bb_counter : Z;
  bb_finished : bool;
  bb_last_key : bytes
}.

Definition ldb_blockgen_init (restart_interval : Z) : blockgen :=
  Blockgen restart_interval [] [0] 0 false [].

Definition ldb_blockgen_reset (bb : blockgen) : blockgen :=
  Blockgen (bb_restart_interval bb) [] [0] 0 false [].

Definition ldb_blockgen_empty (bb : blockgen) : bool := zlen (bb_buffer bb) =? 0.

Definition ldb_blockgen_add (bb : blockgen) (key value : bytes) : blockgen :=
  let last := bb_last_key bb in
  let '(shared, restarts, counter) :=
    if bb_counter bb <? bb_restart_interval bb then
      (common_prefix last key, bb_restarts bb, bb_counter bb)
    else (0, bb_restarts bb ++ [zlen (bb_buffer bb)], 0) in
  let delta := zdrop shared key in
  let non_shared := zlen key - shared in
  {| bb_restart_interval := bb_restart_interval bb;
     bb_buffer := bb_buffer bb ++ varint32_write (u32 shared) ++ varint32_write (u32 non_shared) ++
                  varint32_write (u32 (zlen value)) ++ delta ++ value;
     bb_restarts := restarts;
     bb_counter := counter + 1;
     bb_finished := bb_finished bb;
     bb_last_key := ztake shared last ++ delta |}.

(** The contents of the block, and the builder afterwards. *)
Definition ldb_blockgen_finish (bb : blockgen) : bytes * blockgen :=
  let buffer := bb_buffer bb ++
    concat (map (fun r => fixed32_write (u32 r)) (bb_restarts bb)) ++
    fixed32_write (u32 (zlen (bb_restarts bb))) in
  (buffer,
   Blockgen (bb_restart_interval bb) buffer (bb_restarts bb) (bb_counter bb) true (bb_last_key bb)).

Definition ldb_blockgen_size_estimate (bb : blockgen) : Z :=
  zlen (bb_buffer bb) + zlen (bb_restarts bb) * 4 + 4.

(** ** The format of a block *)

(** An entry, with the number of bytes its key shares with the previous one. *)
Record bentry := BEntry { be_key : bytes; be_value : bytes; be_shared : Z }.

Definition be_pair (e : bentry) : bytes * bytes := (be_key e, be_value e).

Definition entry_enc (e : bentry) : bytes :=
  varint32_write (be_shared e) ++ varint32_write (zlen (be_key e) - be_shared e) ++
  varint32_write (zlen (be_value e)) ++ zdrop (be_shared e) (be_key e) ++ be_value e.

Definition body (es : list bentry) : bytes := concat (map entry_enc es).

(** The offset of entry [i]. *)
Definition off (es : list bentry) (i : nat) : Z := zlen (body (take i es)).

(** A block with the entries [es] and restart points at the entries [idx]. *)
Definition block_bytes (es : list bentry) (idx : list nat) : bytes :=
  body es ++ concat (map (fun i => fixed32_write (off es i)) idx) ++ fixed32_write (zlen idx).

(** The shared bytes are those of the previous key. *)
Fixpoint shared_ok (prev : bytes) (es : list bentry) : Prop :=
  match es with
  | [] => True
  | e :: es =>
    0 <= be_shared e <= zlen (be_key e) /\ be_shared e <= zlen prev /\
    ztake (be_shared e) prev = ztake (be_shared e) (be_key e) /\ shared_ok (be_key e) es
  end.

Record block_wf (es : list bentry) (idx : list nat) : Prop := {
  wf_shared : shared_ok [] es;
  wf_first : exists rest, idx = 0%nat :: rest;
  wf_sorted : StronglySorted Nat.lt idx;
  wf_bound i : i ∈ idx -> (i < length es)%nat \/ (es = [] /\ i = 0%nat);
  wf_restart i e : i ∈ idx -> es !! i = Some e -> be_shared e = 0;
  wf_size : zlen (block_bytes es idx) < 2 ^ 32
}.

(** ** Offsets *)

Lemma body_app es fs : body (es ++ fs) = body es ++ body fs.
Proof. unfold body. by rewrite map_app, concat_app. Qed.

Lemma body_cons e es : body (e :: es) = entry_enc e ++ body es.
Proof. done. Qed.

Lemma body_nil : body [] = [].
Proof. done. Qed.

Lemma zlen_entry_enc e : 3 <= zlen (entry_enc e).
Proof.
  unfold entry_enc. rewrite !zlen_app, !zlen_varint32_write.
  pose proof (varint32_size_range (be_shared e)).
  pose proof (varint32_size_range (zlen (be_key e) - be_shared e)).
  pose proof (varint32_size_range (zlen (be_value e))).
  pose proof (zlen_nonneg (zdrop (be_shared e) (be_key e))). pose proof (zlen_nonneg (be_value e)). lia.
Qed.

Lemma off_0 es : off es 0 = 0.
Proof. done. Qed.

Lemma off_S es i e : es !! i = Some e -> off es (S i) = off es i + zlen (entry_enc e).
Proof.
  intros H. unfold off. rewrite (take_S_r es i e) by done.
  rewrite body_app, zlen_app, body_cons, zlen_app, body_nil, zlen_nil. lia.
Qed.

Lemma off_all es i : (length es <= i)%nat -> off es i = zlen (body es).
Proof. intros H. unfold off. by rewrite take_ge. Qed.

Lemma off_app es fs i : (i <= length es)%nat -> off (es ++ fs) i = off es i.
Proof. intros H. unfold off. by rewrite take_app_le. Qed.

Lemma off_lt es i j : (i < j)%nat -> (i < length es)%nat -> off es i < off es j.
Proof.
  intros Hij Hi. destruct (lookup_lt_is_Some_2 es i Hi) as [e E].
  assert (off es (S i) <= off es j) as H.
  { unfold off. rewrite <- (take_drop (S i) (take j es)), take_take, Nat.min_l by lia.
    rewrite body_app, zlen_app. pose proof (zlen_nonneg (body (drop (S i) (take j es)))). lia. }
  rewrite (off_S es i e E) in H. pose proof (zlen_entry_enc e). lia.
Qed.

Lemma off_le es i j : (i <= j)%nat -> off es i <= off es j.
Proof.
  intros Hij. unfold off. rewrite <- (take_drop i (take j es)), take_take, Nat.min_l by lia.
  rewrite body_app, zlen_app. zlia.
Qed.

Lemma off_nonneg es i : 0 <= off es i.
Proof. apply zlen_nonneg. Qed.

Lemma off_body es i : off es i <= zlen (body es).
Proof.
  unfold off. rewrite <- (take_drop i es) at 2. rewrite body_app, zlen_app. zlia.
Qed.

(** Strictly increasing, so offsets identify entries. *)
Lemma off_lt_inv es i j : off es i < off es j -> (i < j)%nat.
Proof.
  intros H. destruct (decide (i < j)%nat); [done|]. exfalso.
  pose proof (off_le es j i ltac:(lia)). lia.
Qed.

(** ** The builder produces well-formed blocks *)

(** The builder holds the entries [es] and restart points [idx]. *)
Record blockgen_rep (bb : blockgen) (es : list bentry) (idx : list nat) : Prop := {
  rep_buffer : bb_buffer bb = body es;
  rep_restarts : bb_restarts bb = map (off es) idx;
  rep_last : bb_last_key bb = from_option be_key [] (list.last es);
  rep_shared : shared_ok [] es;
  rep_first : exists rest, idx = 0%nat :: rest;
  rep_sorted : StronglySorted Nat.lt idx;
  rep_bound i : i ∈ idx -> (i < length es)%nat \/ (es = [] /\ i = 0%nat);
  rep_restart i e : i ∈ idx -> es !! i = Some e -> be_shared e = 0;
  rep_counter : 0 <= bb_counter bb;
  rep_empty : es = [] -> bb_counter bb = 0
}.

Lemma shared_ok_snoc prev es e :
  shared_ok prev es ->
  0 <= be_shared e <= zlen (be_key e) ->
  be_shared e <= zlen (from_option be_key prev (list.last es)) ->
  ztake (be_shared e) (from_option be_key prev (list.last es)) = ztake (be_shared e) (be_key e) ->
  shared_ok prev (es ++ [e]).
Proof.
  revert prev. induction es as [|a es IH]; intros prev Hs H1 H2 H3; [done|].
  destruct Hs as (S1 & S2 & S3 & S4). cbn [app shared_ok]. do 3 (split; [done|]).
  rewrite list.last_cons in H2, H3. apply IH; [done|done|..]; by destruct (list.last es).
Qed.

Lemma blockgen_init_rep n : blockgen_rep (ldb_blockgen_init n) [] [0%nat].
Proof.
  split; try done.
  - by exists [].
  - constructor; constructor.
  - intros i Hi. right. apply list_elem_of_singleton in Hi. done.
Qed.

Lemma map_off_app es fs idx :
  (forall i, i ∈ idx -> (i <= length es)%nat) -> map (off (es ++ fs)) idx = map (off es) idx.
Proof. intros H. apply map_ext_in. intros i Hi%list_elem_of_In. by apply off_app, H. Qed.

(** The entry [ldb_blockgen_add] appends. *)
Definition added_entry (bb : blockgen) (key value : bytes) : bentry :=
  BEntry key value
    (if bb_counter bb <? bb_restart_interval bb then common_prefix (bb_last_key bb) key else 0).

Lemma blockgen_add_rep bb es idx key value :
  blockgen_rep bb es idx -> 1 <= bb_restart_interval bb ->
  zlen key < 2 ^ 32 -> zlen value < 2 ^ 32 ->
  exists idx', blockgen_rep (ldb_blockgen_add bb key value) (es ++ [added_entry bb key value]) idx' /\
    bb_restart_interval (ldb_blockgen_add bb key value) = bb_restart_interval bb /\
    (length idx' <= S (length idx))%nat.
Proof.
  intros R Hint Hk Hv. set (e := added_entry bb key value).
  pose proof (common_prefix_range (bb_last_key bb) key) as Hcp.
  assert (0 <= be_shared e <= zlen key /\ be_shared e <= zlen (bb_last_key bb) /\
    ztake (be_shared e) (bb_last_key bb) = ztake (be_shared e) key) as (Hs1 & Hs2 & Hs3).
  { subst e. cbn [added_entry be_shared]. destruct (_ <? _).
    - split; [lia|]. split; [lia|]. by apply common_prefix_take.
    - pose proof (zlen_nonneg key). pose proof (zlen_nonneg (bb_last_key bb)). split; [lia|]. by split; [lia|]. }
  pose proof (zlen_nonneg value). pose proof (zlen_nonneg key).
  set (idx' := if bb_counter bb <? bb_restart_interval bb then idx else idx ++ [length es]).
  exists idx'.
  assert (ldb_blockgen_add bb key value =
    {| bb_restart_interval := bb_restart_interval bb;
       bb_buffer := body (es ++ [e]);
       bb_restarts := map (off (es ++ [e])) idx';
       bb_counter := (if bb_counter bb <? bb_restart_interval bb then bb_counter bb else 0) + 1;
       bb_finished := bb_finished bb;
       bb_last_key := key |}) as ->.
  { assert (forall i, i ∈ idx -> (i <= length es)%nat) as Hle.
    { intros i Hi. apply (rep_bound _ _ _ R) in Hi as [?|[-> ->]]; cbn; lia. }
    assert (body (es ++ [e]) = bb_buffer bb ++ varint32_write (u32 (be_shared e)) ++
      varint32_write (u32 (zlen key - be_shared e)) ++ varint32_write (u32 (zlen value)) ++
      zdrop (be_shared e) key ++ value) as Eb.
    { rewrite body_app, body_cons, body_nil, app_nil_r, (rep_buffer _ _ _ R).
      rewrite !u32_small by lia. done. }
    assert (ztake (be_shared e) (bb_last_key bb) ++ zdrop (be_shared e) key = key) as El
      by (rewrite Hs3; apply ztake_zdrop).
    unfold ldb_blockgen_add. rewrite Eb. revert Eb El. subst e idx'. cbn [added_entry be_shared].
    destruct (_ <? _); intros Eb El; f_equal; try done.
    - rewrite (rep_restarts _ _ _ R). symmetry. by apply map_off_app.
    - rewrite map_app, map_off_app by done. cbn [map]. f_equal; [apply R|].
      rewrite off_app by lia. rewrite off_all by lia. by rewrite (rep_buffer _ _ _ R). }
  split; [|split; [done|subst idx'; destruct (_ <? _); rewrite ?length_app; cbn; lia]].
  split; cbn [bb_buffer bb_restarts bb_last_key bb_counter]; try done.
  - by rewrite list.last_snoc.
  - apply shared_ok_snoc; [apply R|done|..]; by rewrite <- (rep_last _ _ _ R).
  - destruct (rep_first _ _ _ R) as [rest ->]. subst idx'. destruct (_ <? _); eexists; reflexivity.
  - subst idx'. destruct (Z.ltb_spec (bb_counter bb) (bb_restart_interval bb)); [apply R|].
    apply StronglySorted_app_2; [|apply R|repeat constructor].
    intros i j Hi Hj%list_elem_of_singleton. subst j.
    apply (rep_bound _ _ _ R) in Hi as [?|[Hes ->]]; [done|].
    pose proof (rep_empty _ _ _ R Hes). lia.
  - intros i Hi. left. rewrite length_app. cbn [length]. subst idx'.
    assert (i ∈ idx \/ i = length es) as [Hi'|Hi'].
    { destruct (_ <? _); [by left|]. apply elem_of_app in Hi as [?|?%list_elem_of_singleton]; auto. }
    + apply (rep_bound _ _ _ R) in Hi' as [?|[-> ->]]; cbn; lia.
    + lia.
  - intros i f Hi Hf. subst idx'.
    assert ((i ∈ idx /\ (i < length es \/ es = [] /\ i = 0)%nat) \/
      (i = length es /\ (bb_counter bb <? bb_restart_interval bb) = false)) as [[Hi' Hb]|[Hi' Hc]].
    { destruct (_ <? _); [left; split; [done|by apply (rep_bound _ _ _ R)]|].
      apply elem_of_app in Hi as [Hi|?%list_elem_of_singleton]; [|by right].
      left. split; [done|by apply (rep_bound _ _ _ R)]. }
    + destruct Hb as [Hb|[Hes ->]].
      * rewrite lookup_app_l in Hf by done. by apply (rep_restart _ _ _ R i).
      * rewrite Hes in Hf. injection Hf as <-. subst e. cbn [added_entry be_shared].
        pose proof (rep_empty _ _ _ R Hes). rewrite (rep_last _ _ _ R), Hes. by destruct (_ <? _).
    + subst i. rewrite lookup_app_r, Nat.sub_diag in Hf by lia. injection Hf as <-.
      subst e. cbn [added_entry be_shared]. by rewrite Hc.
  - pose proof (rep_counter _ _ _ R). destruct (_ <? _); lia.
  - intros Hn. by destruct es.
Qed.

(** Adding a list of pairs. *)
Definition blockgen_add_all (bb : blockgen) (kvs : pairs) : blockgen :=
  fold_left (fun bb kv => ldb_blockgen_add bb kv.1 kv.2) kvs bb.

(** The contents of the block built from [kvs]. *)
Definition build_block (restart_interval : Z) (kvs : pairs) : bytes :=
  (ldb_blockgen_finish (blockgen_add_all (ldb_blockgen_init restart_interval) kvs)).1.

Lemma blockgen_add_all_rep bb es idx kvs :
  blockgen_rep bb es idx -> 1 <= bb_restart_interval bb ->
  Forall (fun kv => zlen kv.1 < 2 ^ 32 /\ zlen kv.2 < 2 ^ 32) kvs ->
  exists es' idx', blockgen_rep (blockgen_add_all bb kvs) es' idx' /\
    map be_pair es' = map be_pair es ++ kvs /\ (length idx' <= length idx + length kvs)%nat.
Proof.
  intros R Hint Hkv. revert bb es idx R Hint. induction Hkv as [|[k v] kvs [Hk Hv] _ IH]; intros bb es idx R Hint.
  { exists es, idx. rewrite app_nil_r. cbn. split; [done|]. split; [done|lia]. }
  cbn [fst snd] in *.
  destruct (blockgen_add_rep bb es idx k v R Hint Hk Hv) as (idx1 & R1 & I1 & L1).
  destruct (IH _ _ _ R1) as (es2 & idx2 & R2 & E2 & L2); [by rewrite I1|].
  exists es2, idx2. cbn [blockgen_add_all fold_left fst snd length]. split; [done|].
  rewrite E2, map_app, <- app_assoc. split; [done|lia].
Qed.

Lemma finish_block_bytes bb es idx :
  blockgen_rep bb es idx -> zlen (block_bytes es idx) < 2 ^ 32 ->
  (ldb_blockgen_finish bb).1 = block_bytes es idx /\ block_wf es idx.
Proof.
  intros R Hsize. split.
  - unfold ldb_blockgen_finish, block_bytes. cbn [fst]. rewrite (rep_buffer _ _ _ R), (rep_restarts _ _ _ R).
    unfold block_bytes in Hsize. rewrite !zlen_app, zlen_fixed32_write in Hsize.
    pose proof (zlen_nonneg (body es)).
    pose proof (zlen_nonneg (concat (map (fun i => fixed32_write (off es i)) idx))).
    assert (zlen idx <= zlen (concat (map (fun i => fixed32_write (off es i)) idx))) as Hl.
    { clear. induction idx as [|i idx IH]; cbn [map concat]; [done|].
      rewrite zlen_app, zlen_cons, zlen_fixed32_write. lia. }
    assert (zlen (map (off es) idx) = zlen idx) as -> by (unfold zlen; by rewrite length_map).
    rewrite map_map, u32_small by zlia. do 2 f_equal. f_equal. apply map_ext. intros i.
    rewrite u32_small; [done|]. pose proof (off_body es i). pose proof (off_nonneg es i). lia.
  - split; try apply R. done.
Qed.

(** ** The size of a block *)

(** What a pair can add to a block: its bytes, three lengths and a restart
    point. *)
Definition pair_cost (kv : bytes * bytes) : Z := zlen kv.1 + zlen kv.2 + 19.
Definition pairs_cost (kvs : pairs) : Z := foldr (fun kv n => pair_cost kv + n) 0 kvs.

Lemma pair_cost_pos kv : 19 <= pair_cost kv.
Proof. unfold pair_cost. pose proof (zlen_nonneg kv.1). pose proof (zlen_nonneg kv.2). lia. Qed.

Lemma pairs_cost_app kvs kvs' : pairs_cost (kvs ++ kvs') = pairs_cost kvs + pairs_cost kvs'.
Proof. unfold pairs_cost in *. induction kvs as [|kv kvs IH]; [done|]. cbn [foldr app]. rewrite IH. lia. Qed.

Lemma pairs_cost_nonneg kvs : 0 <= pairs_cost kvs.
Proof. unfold pairs_cost in *. induction kvs as [|kv kvs IH]; [done|]. cbn [foldr]. pose proof (pair_cost_pos kv). lia. Qed.

Lemma pairs_cost_length kvs : 19 * zlen kvs <= pairs_cost kvs.
Proof. unfold pairs_cost in *. induction kvs as [|kv kvs IH]; [done|]. cbn [foldr]. rewrite zlen_cons. pose proof (pair_cost_pos kv). lia. Qed.

Definition blockgen_size (bb : blockgen) : Z := zlen (bb_buffer bb) + 4 * zlen (bb_restarts bb).

(** Lengths are not negative, varints take one to five bytes. *)
Ltac size_ranges :=
  repeat match goal with
  | |- context [varint32_size ?x] =>
      lazymatch goal with
      | _ : 1 <= varint32_size x <= 5 |- _ => fail
      | _ => pose proof (varint32_size_range x)
      end
  | |- context [zlen ?x] =>
      lazymatch goal with
      | _ : 0 <= zlen x |- _ => fail
      | _ => pose proof (zlen_nonneg x)
      end
  end.

Lemma blockgen_add_size bb k v :
  blockgen_size bb + 3 <= blockgen_size (ldb_blockgen_add bb k v) <= blockgen_size bb + pair_cost (k, v) /\
  zlen (bb_buffer bb) < zlen (bb_buffer (ldb_blockgen_add bb k v)).
Proof.
  unfold ldb_blockgen_add, blockgen_size, pair_cost. cbn [fst snd].
  pose proof (common_prefix_range (bb_last_key bb) k) as Hc. pose proof (zlen_nonneg k).
  destruct (_ <? _); cbn [bb_buffer bb_restarts]; rewrite !zlen_app, !zlen_varint32_write, zlen_drop by lia;
    try change (zlen [zlen (bb_buffer bb)]) with 1; size_ranges; lia.
Qed.

Lemma blockgen_add_all_size bb kvs :
  blockgen_size bb <= blockgen_size (blockgen_add_all bb kvs) <= blockgen_size bb + pairs_cost kvs /\
  zlen (bb_buffer bb) <= zlen (bb_buffer (blockgen_add_all bb kvs)).
Proof.
  revert bb. induction kvs as [|[k v] kvs IH]; intros bb; cbn [blockgen_add_all fold_left pairs_cost foldr]; [lia|].
  pose proof (blockgen_add_size bb k v). specialize (IH (ldb_blockgen_add bb k v)). cbn [fst snd].
  unfold blockgen_add_all in IH. fold (pairs_cost kvs). lia.
Qed.

Lemma zlen_finish bb : zlen (ldb_blockgen_finish bb).1 = blockgen_size bb + 4.
Proof.
  unfold ldb_blockgen_finish, blockgen_size. cbn [fst]. rewrite !zlen_app, zlen_fixed32_write.
  rewrite <- (map_map u32 fixed32_write), zlen_words. unfold zlen at 2. rewrite length_map. fold (zlen (bb_restarts bb)). lia.
Qed.

Lemma build_block_size n kvs : 8 <= zlen (build_block n kvs) <= pairs_cost kvs + 8.
Proof.
  unfold build_block. rewrite zlen_finish. pose proof (blockgen_add_all_size (ldb_blockgen_init n) kvs) as H.
  change (blockgen_size (ldb_blockgen_init n)) with 4 in H. lia.
Qed.

Lemma build_block_entries n kvs : 3 * zlen kvs <= zlen (build_block n kvs).
Proof.
  unfold build_block. rewrite zlen_finish. pose proof (zlen_nonneg (bb_buffer (ldb_blockgen_init n))).
  enough (forall bb, blockgen_size bb + 3 * zlen kvs <= blockgen_size (blockgen_add_all bb kvs)) as Hs
    by (specialize (Hs (ldb_blockgen_init n)); change (blockgen_size (ldb_blockgen_init n)) with 4 in Hs; lia).
  induction kvs as [|[k v] kvs IH]; intros bb; [unfold zlen; cbn; lia|]. rewrite zlen_cons.
  cbn [blockgen_add_all fold_left fst snd]. pose proof (blockgen_add_size bb k v) as [? _]. specialize (IH (ldb_blockgen_add bb k v)).
  unfold blockgen_add_all in IH. lia.
Qed.

Lemma add_all_interval bb kvs : bb_restart_interval (blockgen_add_all bb kvs) = bb_restart_interval bb.
Proof.
  revert bb. induction kvs as [|kv kvs IH]; intros bb; [done|]. cbn [blockgen_add_all fold_left]. unfold blockgen_add_all in IH.
  rewrite IH. unfold ldb_blockgen_add. by destruct (_ <? _).
Qed.

Lemma add_all_snoc bb kvs k v : ldb_blockgen_add (blockgen_add_all bb kvs) k v = blockgen_add_all bb (kvs ++ [(k, v)]).
Proof. unfold blockgen_add_all. by rewrite fold_left_app. Qed.

(** A builder is empty until something is added to it. *)
Lemma add_all_empty n kvs : ldb_blockgen_empty (blockgen_add_all (ldb_blockgen_init n) kvs) = bool_decide (kvs = []).
Proof.
  destruct kvs as [|[k v] kvs]; [done|]. rewrite bool_decide_eq_false_2 by done. apply Z.eqb_neq.
  pose proof (blockgen_add_size (ldb_blockgen_init n) k v) as [_ H1]. cbn [blockgen_add_all fold_left fst snd].
  pose proof (blockgen_add_all_size (ldb_blockgen_add (ldb_blockgen_init n) k v) kvs) as [_ H2].
  unfold blockgen_add_all in H2. pose proof (zlen_nonneg (bb_buffer (ldb_blockgen_init n))). lia.
Qed.

(** Finishing and resetting a builder gives a new one. *)
Lemma reset_finish n kvs :
  ldb_blockgen_reset (ldb_blockgen_finish (blockgen_add_all (ldb_blockgen_init n) kvs)).2 = ldb_blockgen_init n.
Proof. unfold ldb_blockgen_reset, ldb_blockgen_finish. cbn. by rewrite add_all_interval. Qed.
