(* ===== verification/Block.v ===== *)
(** * Reading blocks

    Models [src/engine/src/table/block.h] and [block.c]: parsing of block
    contents and the block iterator.  Pointers into the block are offsets, sizes
    are [size_t] with their wrap-around.  Every read goes through a checked
    access: one outside the block and a failed assertion are [None]; so is a
    loop that runs out of fuel. *)

From stdpp Require Import sorting.
From S2P Require Import Prelude Coding Status Comparator Iterator BlockBuilder.
#[local] Open Scope Z_scope.

(** ** Blocks *)

(** [ldb_block_t], without the ownership of the memory. *)
Record block := Block { blk_data : bytes; blk_size : Z; blk_restart_offset : Z }.

Definition ldb_block_restarts (b : block) : option Z :=
  if blk_size b <? 4 then None else read32 (blk_data b) (blk_size b - 4).

Definition ldb_block_init (contents : bytes) : option block :=
  let size := zlen contents in
  if size <? 4 then Some (Block contents 0 0)
  else
    restarts ← ldb_block_restarts (Block contents size 0);
    let max_restarts_allowed := (size - 4) / 4 in
    if max_restarts_allowed <? restarts then Some (Block contents 0 0)
    else Some (Block contents size (u32 (size - u32 (u32 (1 + restarts) * 4)))).

(** ** Entries *)

(** The byte at an offset, and the [n] bytes from an offset on. *)
Definition byte_at (data : bytes) (p : Z) : option Z :=
  if (0 <=? p) && (p <? zlen data) then Some (at_ data p) else None.

Definition slice_at (data : bytes) (p n : Z) : option bytes :=
  if (0 <=? p) && (0 <=? n) && (p + n <=? zlen data) then Some (ztake n (zdrop p data)) else None.

(** The three calls of [ldb_varint32_read] on the [xn] bytes at [xp]: the
    lengths and the bytes left. *)
Definition read_lengths (w : bytes) : option (Z * Z * Z * bytes) :=
  match varint32_read w with
  | (None, _) => None
  | (Some s, w) =>
    match varint32_read w with
    | (None, _) => None
    | (Some n, w) =>
      match varint32_read w with
      | (None, _) => None
      | (Some v, w) => Some (s, n, v, w)
      end
    end
  end.

(** [decode_entry(&shared, &non_shared, &value_length, xp, limit)]: the three
    lengths and the offset of the key delta, or [Some None] for [NULL]. *)
Definition ldb_decode_entry (data : bytes) (xp limit : Z) : option (option (Z * Z * Z * Z)) :=
  if limit <? xp then Some None
  else
    let xn := u64 (limit - xp) in
    if xn <? 3 then Some None
    else
      s ← byte_at data xp;
      n ← byte_at data (xp + 1);
      v ← byte_at data (xp + 2);
      decoded ← (if Z.lor (Z.lor s n) v <? 128 then Some (Some (s, n, v, xp + 3, u64 (xn - 3)))
                 else
                   window ← slice_at data xp xn;
                   Some (match read_lengths window with
                         | None => None
                         | Some (s, n, v, w) => Some (s, n, v, xp + (xn - zlen w), zlen w)
                         end));
      Some (match decoded with
            | None => None
            | Some (s, n, v, xp, xn) => if xn <? n + v then None else Some (s, n, v, xp)
            end).

(** ** The iterator *)

(** [ldb_blockiter_t]; the value slice is its offset and size. *)
Record blockiter := Blockiter {
  bi_comparator : comparator;
  bi_data : bytes;
  bi_restarts : Z;
  bi_num_restarts : Z;
  bi_current : Z;
  bi_restart_index : Z;
  bi_key : bytes;
  bi_value_off : Z;
  bi_value_size : Z;
  bi_status : Z
}.

Definition is_internal (it : blockiter) : bool :=
  match cmp_user_comparator (bi_comparator it) with Some _ => true | None => false end.

Definition next_entry_offset (it : blockiter) : Z := u32 (bi_value_off it + bi_value_size it).

Definition get_restart_point (it : blockiter) (index : Z) : option Z :=
  if (0 <=? index) && (index <? bi_num_restarts it) then
    offset ← read32 (bi_data it) (bi_restarts it + u32 (index * 4));
    Some (if bi_restarts it <? offset then bi_restarts it else offset)
  else None.

Definition set_position (it : blockiter) (current restart_index : Z) (key : bytes)
    (voff vsize : Z) (status : Z) : blockiter :=
  Blockiter (bi_comparator it) (bi_data it) (bi_restarts it) (bi_num_restarts it)
    current restart_index key voff vsize status.

Definition seek_to_restart_point (it : blockiter) (index : Z) : option blockiter :=
  offset ← get_restart_point it index;
  Some (set_position it (bi_current it) index [] offset 0 (bi_status it)).

Definition ldb_blockiter_init (cmp : comparator) (data : bytes) (restarts num_restarts : Z) : option blockiter :=
  if 0 <? num_restarts then Some (Blockiter cmp data restarts num_restarts restarts num_restarts [] 0 0 LDB_OK) else None.

(** The value becomes [NULL]; nothing reads it before it is set again. *)
Definition ldb_blockiter_corruption (it : blockiter) : blockiter :=
  set_position it (bi_restarts it) (bi_num_restarts it) [] 0 0 LDB_CORRUPTION.

Definition ldb_blockiter_valid (it : blockiter) : bool := bi_current it <? bi_restarts it.

Definition ldb_blockiter_status (it : blockiter) : Z := bi_status it.

Definition ldb_blockiter_key (it : blockiter) : option bytes :=
  if ldb_blockiter_valid it then Some (bi_key it) else None.

Definition ldb_blockiter_value (it : blockiter) : option bytes :=
  if ldb_blockiter_valid it then slice_at (bi_data it) (bi_value_off it) (bi_value_size it) else None.

(** [do_compare]: the order of internal keys asserts that they have a tag. *)
Definition do_compare (it : blockiter) (x y : bytes) : option Z :=
  if is_internal it && ((zlen x <? 8) || (zlen y <? 8)) then None else Some (ldb_compare (bi_comparator it) x y).

(** [while (restart_index + 1 < num_restarts && get_restart_point(restart_index
    + 1) < current) ++restart_index], at most [num_restarts] turns. *)
Fixpoint advance_restart (fuel : nat) (it : blockiter) (ri : Z) : option Z :=
  match fuel with
  | O => None
  | S fuel =>
    if ri + 1 <? bi_num_restarts it then
      r ← get_restart_point it (ri + 1);
      if r <? bi_current it then advance_restart fuel it (ri + 1) else Some ri
    else Some ri
  end.

(** The result and the iterator afterwards. *)
Definition parse_next_key (it : blockiter) : option (bool * blockiter) :=
  let current := next_entry_offset it in
  if bi_restarts it <=? current then
    Some (false, set_position it (bi_restarts it) (bi_num_restarts it) (bi_key it)
                   (bi_value_off it) (bi_value_size it) (bi_status it))
  else
    entry ← ldb_decode_entry (bi_data it) current (bi_restarts it);
    match entry with
    | None => Some (false, ldb_blockiter_corruption it)
    | Some (shared, non_shared, value_length, p) =>
      if zlen (bi_key it) <? shared then Some (false, ldb_blockiter_corruption it)
      else if is_internal it && (shared + non_shared <? 8) then
        Some (false, ldb_blockiter_corruption it)
      else
        kept ← slice_at (bi_key it) 0 shared;
        delta ← slice_at (bi_data it) p non_shared;
        let key := kept ++ delta in
        let it := set_position it current (bi_restart_index it) key (p + non_shared) value_length
                    (bi_status it) in
        ri ← advance_restart (S (Z.to_nat (bi_num_restarts it))) it (bi_restart_index it);
        Some (true, set_position it current ri key (p + non_shared) value_length (bi_status it))
    end.

Definition ldb_blockiter_next (it : blockiter) : option blockiter :=
  if ldb_blockiter_valid it then snd <$> parse_next_key it else None.

(** The first loop of [prev]: the restart index, or [None] inside for "no more
    entries". *)
Fixpoint scan_back (fuel : nat) (it : blockiter) (original ri : Z) : option (option Z) :=
  match fuel with
  | O => None
  | S fuel =>
    r ← get_restart_point it ri;
    if original <=? r then
      if ri =? 0 then Some None else scan_back fuel it original (ri - 1)
    else Some (Some ri)
  end.

(** [do { } while (parse_next_key(iter) && next_entry_offset(iter) < limit)];
    every turn consumes at least three bytes of the block. *)
Fixpoint parse_until (fuel : nat) (it : blockiter) (limit : Z) : option blockiter :=
  match fuel with
  | O => None
  | S fuel =>
    '(ok, it) ← parse_next_key it;
    if ok && (next_entry_offset it <? limit) then parse_until fuel it limit else Some it
  end.

Definition block_fuel (it : blockiter) : nat := S (Z.to_nat (bi_restarts it)).

Definition ldb_blockiter_prev (it : blockiter) : option blockiter :=
  if ldb_blockiter_valid it then
    let original := bi_current it in
    r ← scan_back (S (Z.to_nat (bi_num_restarts it))) it original (bi_restart_index it);
    match r with
    | None => Some (set_position it (bi_restarts it) (bi_num_restarts it) (bi_key it)
                      (bi_value_off it) (bi_value_size it) (bi_status it))
    | Some ri =>
      it ← seek_to_restart_point it ri;
      parse_until (block_fuel it) it original
    end
  else None.

(** The binary search: the index found, or [None] inside for a corruption. *)
Fixpoint binary_search (fuel : nat) (it : blockiter) (target : bytes) (left right : Z)
    : option (option Z) :=
  match fuel with
  | O => None
  | S fuel =>
    if left <? right then
      let mid := u32 (left + right + 1) / 2 in
      region_offset ← get_restart_point it mid;
      entry ← ldb_decode_entry (bi_data it) region_offset (bi_restarts it);
      match entry with
      | None => Some None
      | Some (shared, non_shared, value_length, p) =>
        if negb (shared =? 0) then Some None
        else if is_internal it && (non_shared <? 8) then Some None
        else
          mid_key ← slice_at (bi_data it) p non_shared;
          c ← do_compare it mid_key target;
          if c <? 0
          then binary_search fuel it target mid right
          else binary_search fuel it target left (mid - 1)
      end
    else Some (Some left)
  end.

(** The linear search for the first key not below the target. *)
Fixpoint linear_search (fuel : nat) (it : blockiter) (target : bytes) : option blockiter :=
  match fuel with
  | O => None
  | S fuel =>
    '(ok, it) ← parse_next_key it;
    if negb ok then Some it
    else
      c ← do_compare it (bi_key it) target;
      if 0 <=? c then Some it else linear_search fuel it target
  end.

Definition ldb_blockiter_seek (it : blockiter) (target : bytes) : option blockiter :=
  if is_internal it && (zlen target <? 8) then Some (ldb_blockiter_corruption it)
  else
    current_key_compare ← (if ldb_blockiter_valid it then do_compare it (bi_key it) target else Some 0);
    let valid := ldb_blockiter_valid it in
    if valid && (current_key_compare =? 0) then Some it
    else
      let left := if valid && (current_key_compare <? 0) then bi_restart_index it else 0 in
      let right := if valid && (0 <? current_key_compare) then bi_restart_index it
                   else bi_num_restarts it - 1 in
      r ← binary_search (S (Z.to_nat (bi_num_restarts it))) it target left right;
      match r with
      | None => Some (ldb_blockiter_corruption it)
      | Some found =>
        let skip_seek := (found =? bi_restart_index it) && (current_key_compare <? 0) in
        it ← (if skip_seek then Some it else seek_to_restart_point it found);
        linear_search (block_fuel it) it target
      end.

Definition ldb_blockiter_first (it : blockiter) : option blockiter :=
  it ← seek_to_restart_point it 0; snd <$> parse_next_key it.

Definition ldb_blockiter_last (it : blockiter) : option blockiter :=
  it ← seek_to_restart_point it (bi_num_restarts it - 1);
  parse_until (block_fuel it) it (bi_restarts it).

Definition ldb_blockiter_table : iter_ops blockiter := {|
  it_valid := ldb_blockiter_valid;
  it_first := ldb_blockiter_first;
  it_last := ldb_blockiter_last;
  it_seek := ldb_blockiter_seek;
  it_next := ldb_blockiter_next;
  it_prev := ldb_blockiter_prev;
  it_key := ldb_blockiter_key;
  it_value := ldb_blockiter_value;
  it_status := ldb_blockiter_status
|}.

(** [ldb_blockiter_create]: an empty iterator with a status, or a block
    iterator. *)
Definition ldb_blockiter_create (b : block) (cmp : comparator) : option (Z + blockiter) :=
  if blk_size b <? 4 then Some (inl LDB_CORRUPTION)
  else
    num_restarts ← ldb_block_restarts b;
    if num_restarts =? 0 then Some (inl LDB_OK)
    else it ← ldb_blockiter_init cmp (blk_data b) (blk_restart_offset b) num_restarts; Some (inr it).

(** ** Decoding entries *)

Lemma byte_at_in data p : 0 <= p < zlen data -> byte_at data p = Some (at_ data p).
Proof. intros H. unfold byte_at. by rewrite (proj2 (Z.leb_le _ _)), (proj2 (Z.ltb_lt _ _)) by lia. Qed.

Lemma slice_at_in data p n : 0 <= p -> 0 <= n -> p + n <= zlen data -> slice_at data p n = Some (ztake n (zdrop p data)).
Proof. intros. unfold slice_at. by rewrite !(proj2 (Z.leb_le _ _)) by lia. Qed.

Lemma slice_at_start x n : 0 <= n <= zlen x -> slice_at x 0 n = Some (ztake n x).
Proof. intros H. rewrite slice_at_in by lia. by rewrite zdrop_0. Qed.

Lemma at_drop data p k : 0 <= p -> 0 <= k -> at_ data (p + k) = at_ (zdrop p data) k.
Proof. intros Hp Hk. unfold at_, zdrop. rewrite List.nth_skipn. do 2 f_equal. lia. Qed.

Lemma at_take w n k : 0 <= k < n -> at_ (ztake n w) k = at_ w k.
Proof. intros H. unfold at_, ztake. rewrite List.nth_firstn. by rewrite (proj2 (Nat.ltb_lt _ _)) by lia. Qed.

Lemma varint32_read_small b w : b2z b < 128 -> varint32_read (b :: w) = (Some (b2z b), w).
Proof.
  intros H. pose proof (b2z_range b).
  assert (varint32_write (b2z b) = [b]) as E.
  { unfold varint32_write. change (Z.shiftl 1 7) with 128.
    rewrite (proj2 (Z.ltb_lt _ _)) by done. by rewrite z2b_b2z. }
  change (b :: w) with ([b] ++ w). rewrite <- E.
  apply (codec_roundtrip (dec := varint32_read)). lia.
Qed.

Lemma lor_128 a b : 0 <= a < 256 -> 0 <= b < 256 -> Z.lor a b < 128 -> a < 128 /\ b < 128.
Proof.
  intros Ha Hb H. pose proof (lor_range a b 8 ltac:(lia) Ha Hb) as Hr.
  pose proof (testbit_7_ltb _ Hr) as T. rewrite (proj2 (Z.ltb_lt _ _)) in T by done.
  rewrite Z.lor_spec, !testbit_7_ltb in T by done.
  destruct (Z.ltb_spec a 128), (Z.ltb_spec b 128); done.
Qed.

(** The fast path reads what the slow path would. *)
Lemma fast_path w :
  3 <= zlen w ->
  (if Z.lor (Z.lor (at_ w 0) (at_ w 1)) (at_ w 2) <? 128
   then Some (at_ w 0, at_ w 1, at_ w 2, zlen w - 3)
   else match read_lengths w with Some (s, n, v, r) => Some (s, n, v, zlen r) | None => None end)
  = match read_lengths w with Some (s, n, v, r) => Some (s, n, v, zlen r) | None => None end.
Proof.
  intros Hw. destruct (Z.ltb_spec (Z.lor (Z.lor (at_ w 0) (at_ w 1)) (at_ w 2)) 128) as [H|]; [|done].
  destruct w as [|a [|b [|c w]]]; [zlia..|]. unfold at_ in *. to_nat_literals.
  cbn [nth] in *. change (Z.to_nat 1) with 1%nat in H. change (Z.to_nat 2) with 2%nat in H.
  change (Z.to_nat 0) with 0%nat in H. cbn [nth] in H.
  apply lor_128 in H as [H Hc]; [|apply (lor_range _ _ 8); [lia|apply b2z_range..]|apply b2z_range].
  apply lor_128 in H as [Ha Hb]; [|apply b2z_range..].
  unfold read_lengths. rewrite !varint32_read_small by done. rewrite !zlen_cons. do 2 f_equal. lia.
Qed.

Lemma decode_entry_lengths data xp limit :
  0 <= xp -> limit <= zlen data -> zlen data < 2 ^ 32 ->
  ldb_decode_entry data xp limit =
    Some (if limit - xp <? 3 then None
          else match read_lengths (ztake (limit - xp) (zdrop xp data)) with
               | None => None
               | Some (s, n, v, r) => if zlen r <? n + v then None else Some (s, n, v, limit - zlen r)
               end).
Proof.
  intros Hxp Hl Hd. unfold ldb_decode_entry.
  destruct (Z.ltb_spec limit xp); [by rewrite (proj2 (Z.ltb_lt _ _)) by lia|]. rewrite u64_small by lia. cbv zeta.
  destruct (Z.ltb_spec (limit - xp) 3); [done|].
  rewrite !byte_at_in, !bind_some, slice_at_in, !bind_some by lia.
  set (w := ztake (limit - xp) (zdrop xp data)).
  assert (zlen w = limit - xp) as Ew by (unfold w; rewrite zlen_take; rewrite ?zlen_drop; lia).
  assert (forall k, 0 <= k < 3 -> at_ data (xp + k) = at_ w k) as Ha
    by (intros k Hk; unfold w; by rewrite at_take, at_drop by lia).
  pose proof (Ha 0 ltac:(lia)) as H0'. rewrite Z.add_0_r in H0'. rewrite H0', !Ha by lia. pose proof (fast_path w ltac:(lia)) as F. rewrite Ew in F.
  rewrite (u64_small (limit - xp - 3)) by lia. destruct (_ <? 128).
  - rewrite bind_some. destruct (read_lengths w) as [[[[s n] v] r]|]; [|done]. injection F as -> -> -> <-.
    destruct (_ <? _); [done|]. do 3 f_equal. lia.
  - rewrite bind_some. destruct (read_lengths w) as [[[[s n] v] r]|]; [|done].
    destruct (_ <? _); [done|]. do 3 f_equal. lia.
Qed.

(** Whatever the contents, decoding makes no access outside, and what is decoded
    lies inside the limit. *)
Lemma decode_entry_sound data xp limit :
  0 <= xp -> limit <= zlen data -> zlen data < 2 ^ 32 ->
  exists d, ldb_decode_entry data xp limit = Some d /\
    forall s n v p, d = Some (s, n, v, p) ->
      0 <= s < 2 ^ 32 /\ 0 <= n < 2 ^ 32 /\ 0 <= v < 2 ^ 32 /\ xp + 3 <= p /\ p + n + v <= limit.
Proof.
  intros Hxp Hl Hd. rewrite decode_entry_lengths by done. eexists. split; [done|]. intros s n v p.
  destruct (Z.ltb_spec (limit - xp) 3); [done|].
  set (w := ztake (limit - xp) (zdrop xp data)).
  assert (zlen w = limit - xp) as Ew by (unfold w; rewrite zlen_take; rewrite ?zlen_drop; lia).
  unfold read_lengths.
  destruct (varint32_read w) as [[s'|] w1] eqn:E1; [|done].
  destruct (varint32_read w1) as [[n'|] w2] eqn:E2; [|done].
  destruct (varint32_read w2) as [[v'|] w3] eqn:E3; [|done].
  apply varint32_read_sound in E1 as (? & u1 & -> & ?).
  apply varint32_read_sound in E2 as (? & u2 & -> & ?).
  apply varint32_read_sound in E3 as (? & u3 & -> & ?).
  rewrite !zlen_app in Ew.
  destruct (Z.ltb_spec (zlen w3) (n' + v')); [done|]. intros [= -> -> -> <-]. lia.
Qed.

Definition entry_ok (e : bentry) : Prop :=
  0 <= be_shared e <= zlen (be_key e) /\ zlen (be_key e) < 2 ^ 32 /\ zlen (be_value e) < 2 ^ 32.

(** The offset of the key delta inside an encoded entry. *)
Definition header_len (e : bentry) : Z :=
  zlen (entry_enc e) - (zlen (be_key e) - be_shared e) - zlen (be_value e).

Lemma entry_enc_header e : entry_ok e ->
  exists h, entry_enc e = h ++ zdrop (be_shared e) (be_key e) ++ be_value e /\ zlen h = header_len e.
Proof.
  intros (H1 & _). exists (varint32_write (be_shared e) ++ varint32_write (zlen (be_key e) - be_shared e) ++
    varint32_write (zlen (be_value e))). unfold header_len, entry_enc. rewrite <- !app_assoc. split; [done|].
  rewrite !zlen_app, zlen_drop by lia. lia.
Qed.

(** An entry the builder wrote is decoded to its lengths. *)
Lemma decode_entry_enc data pre e post limit :
  data = pre ++ entry_enc e ++ post -> entry_ok e ->
  zlen pre + zlen (entry_enc e) <= limit -> limit <= zlen data -> zlen data < 2 ^ 32 ->
  ldb_decode_entry data (zlen pre) limit =
    Some (Some (be_shared e, zlen (be_key e) - be_shared e, zlen (be_value e), zlen pre + header_len e)).
Proof.
  intros -> (Hs & Hk & Hv) Hl Hd Hsize. rewrite decode_entry_lengths by (done || zlia).
  pose proof (zlen_entry_enc e). rewrite (proj2 (Z.ltb_ge _ _)) by lia.
  rewrite zdrop_app by done.
  assert (ztake (limit - zlen pre) (entry_enc e ++ post) =
    entry_enc e ++ ztake (limit - zlen pre - zlen (entry_enc e)) post) as ->.
  { unfold ztake. rewrite take_app, take_ge by (unfold zlen in *; lia). do 2 f_equal. unfold zlen in *. lia. }
  set (r := ztake _ post).
  assert (zlen r = limit - zlen pre - zlen (entry_enc e)) as Er.
  { unfold r. rewrite zlen_take; [done|]. rewrite !zlen_app in Hd. lia. }
  unfold read_lengths, entry_enc at 1. rewrite <- !app_assoc. pose proof (zlen_nonneg (be_value e)).
  rewrite (codec_roundtrip (dec := varint32_read)) by lia.
  rewrite (codec_roundtrip (dec := varint32_read)) by lia.
  rewrite (codec_roundtrip (dec := varint32_read)) by lia.
  rewrite !zlen_app, Er, zlen_drop by lia. rewrite (proj2 (Z.ltb_ge _ _)) by lia.
  unfold header_len. do 3 f_equal. lia.
Qed.

(** ** The iterator over a well-formed block *)

Lemma zlen_restarts (f : nat -> Z) (idx : list nat) :
  zlen (concat (map (fun i => fixed32_write (f i)) idx)) = 4 * zlen idx.
Proof.
  induction idx as [|i idx IH]; [done|]. cbn [map concat].
  rewrite zlen_app, IH, zlen_cons, zlen_fixed32_write. lia.
Qed.

Lemma shared_ok_lookup prev es i e :
  shared_ok prev es -> es !! i = Some e ->
  0 <= be_shared e <= zlen (be_key e) /\
  match i with
  | O => be_shared e <= zlen prev /\ ztake (be_shared e) prev = ztake (be_shared e) (be_key e)
  | S i => exists e', es !! i = Some e' /\ be_shared e <= zlen (be_key e') /\
             ztake (be_shared e) (be_key e') = ztake (be_shared e) (be_key e)
  end.
Proof.
  revert prev i. induction es as [|a es IH]; intros prev i Hok He; [done|].
  destruct Hok as (S1 & S2 & S3 & S4).
  destruct i as [|i]; [by injection He as ->|]. cbn in He.
  destruct (IH _ _ S4 He) as [H1 H2]. split; [done|].
  destruct i as [|i]; [by exists a|]. destruct H2 as (e' & ? & ?). by exists e'.
Qed.

Section WellFormed.
Context (es : list bentry) (idx : list nat) (cmp : comparator).
Hypothesis wf : block_wf es idx.
Hypothesis entries_ok : Forall entry_ok es.
Hypothesis internal_ok :
  cmp_user_comparator cmp <> None -> Forall (fun e => 8 <= zlen (be_key e)) es.

Local Abbreviation data := (block_bytes es idx).

Record base (it : blockiter) : Prop := {
  base_cmp : bi_comparator it = cmp;
  base_data : bi_data it = data;
  base_restarts : bi_restarts it = zlen (body es);
  base_num : bi_num_restarts it = zlen idx
}.

(** The restart index is that of a restart point at or before entry [i]. *)
Definition restart_ok (ri : Z) (i : nat) : Prop :=
  exists m j, ri = Z.of_nat m /\ idx !! m = Some j /\ (j <= i)%nat.

(** The iterator stands at entry [i]. *)
Record at_entry (it : blockiter) (i : nat) : Prop := {
  at_base : base it;
  at_status : bi_status it = LDB_OK;
  at_current : bi_current it = off es i;
  at_next : bi_value_off it + bi_value_size it = off es (S i);
  at_pair : exists e, es !! i = Some e /\ bi_key it = be_key e /\
    slice_at data (bi_value_off it) (bi_value_size it) = Some (be_value e);
  at_restart : restart_ok (bi_restart_index it) i
}.

(** The next entry [parse_next_key] reads is [i]. *)
Record ready (it : blockiter) (i : nat) : Prop := {
  ready_base : base it;
  ready_status : bi_status it = LDB_OK;
  ready_next : bi_value_off it + bi_value_size it = off es i;
  ready_bound : (i <= length es)%nat;
  ready_key e : es !! i = Some e ->
    be_shared e <= zlen (bi_key it) /\ ztake (be_shared e) (bi_key it) = ztake (be_shared e) (be_key e);
  ready_restart : restart_ok (bi_restart_index it) i
}.

Record ended (it : blockiter) : Prop := {
  ended_base : base it;
  ended_status : bi_status it = LDB_OK;
  ended_current : bi_current it = zlen (body es)
}.

Definition block_rep (it : blockiter) (p : option nat) : Prop :=
  match p with Some i => at_entry it i | None => ended it end.

Lemma data_size : zlen data = zlen (body es) + 4 * zlen idx + 4 /\ zlen data < 2 ^ 32.
Proof.
  split; [|apply wf]. unfold block_bytes. rewrite !zlen_app, zlen_restarts, zlen_fixed32_write. lia.
Qed.

Lemma off_range i : 0 <= off es i <= zlen (body es) /\ off es i < 2 ^ 32.
Proof.
  pose proof data_size. pose proof (zlen_nonneg idx).
  pose proof (off_body es i). pose proof (off_nonneg es i). lia.
Qed.

Lemma entry_lookup_ok i e : es !! i = Some e -> entry_ok e.
Proof. intros H. rewrite List.Forall_forall in entries_ok. apply entries_ok, list_elem_of_In. by eapply list_elem_of_lookup_2. Qed.

Lemma get_restart_point_base it m j :
  base it -> idx !! m = Some j -> get_restart_point it (Z.of_nat m) = Some (off es j).
Proof.
  intros B Hm. pose proof (lookup_lt_Some _ _ _ Hm) as Hlen. pose proof data_size as [Hd Hd'].
  unfold get_restart_point. rewrite (base_num _ B), (base_restarts _ B), (base_data _ B).
  pose proof (zlen_nonneg (body es)).
  rewrite (proj2 (Z.leb_le _ _)), (proj2 (Z.ltb_lt _ _)) by (unfold zlen; lia). cbn [andb].
  assert (u32 (Z.of_nat m * 4) = 4 * Z.of_nat m) as -> by (rewrite u32_small; unfold zlen in *; lia).
  pose proof (off_range j) as Hoff. unfold block_bytes.
  rewrite <- (map_map (off es) fixed32_write), (read32_words _ _ _ m (off es j)); [|by rewrite list_lookup_fmap, Hm|lia].
  cbn [mbind option_bind].
  by rewrite (proj2 (Z.ltb_ge _ _)) by lia.
Qed.

Lemma next_offset_small it i :
  bi_value_off it + bi_value_size it = off es i -> next_entry_offset it = off es i.
Proof. intros E. unfold next_entry_offset. rewrite E. apply u32_small. pose proof (off_range i). lia. Qed.

Lemma restart_first i : restart_ok 0 i.
Proof. destruct (wf_first _ _ wf) as [rest E]. exists 0%nat, 0%nat. rewrite E. split; [done|]. split; [done|lia]. Qed.

(** The block seen from entry [i]. *)
Lemma data_split i e :
  es !! i = Some e -> exists pre post, data = pre ++ entry_enc e ++ post /\ zlen pre = off es i.
Proof.
  intros H. assert (body es = body (take i es) ++ entry_enc e ++ body (drop (S i) es)) as E.
  { rewrite <- (take_drop_middle es i e H) at 1. by rewrite body_app, body_cons. }
  unfold block_bytes. rewrite E, <- !app_assoc. by eexists _, _.
Qed.

Lemma decode_entry_at i e :
  es !! i = Some e ->
  ldb_decode_entry data (off es i) (zlen (body es)) =
    Some (Some (be_shared e, zlen (be_key e) - be_shared e, zlen (be_value e), off es i + header_len e)) /\
  slice_at data (off es i + header_len e) (zlen (be_key e) - be_shared e) = Some (zdrop (be_shared e) (be_key e)) /\
  slice_at data (off es i + header_len e + (zlen (be_key e) - be_shared e)) (zlen (be_value e)) = Some (be_value e).
Proof.
  intros H. destruct (data_split i e H) as (pre & post & E & Hp).
  pose proof (entry_lookup_ok i e H) as Hok. pose proof data_size as [Hd Hd2]. pose proof (zlen_nonneg idx).
  pose proof (off_S es i e H) as HS. pose proof (off_body es (S i)).
  split; [|].
  - rewrite <- Hp. apply (decode_entry_enc _ pre e post); [done|done|lia|lia|done].
  - destruct (entry_enc_header e Hok) as (h & Eh & Hh). destruct Hok as (Hs & _). rewrite <- Hp, <- Hh.
    pose proof (zlen_nonneg h). pose proof (zlen_nonneg pre). pose proof (zlen_nonneg (be_value e)). pose proof (zlen_nonneg post).
    assert (zlen (zdrop (be_shared e) (be_key e)) = zlen (be_key e) - be_shared e) as Ez by (rewrite zlen_drop; lia).
    rewrite E, Eh, <- !app_assoc. split.
    + rewrite slice_at_in by (rewrite ?zlen_app; lia). f_equal. rewrite app_assoc, zdrop_app by zlia. by apply ztake_app.
    + rewrite slice_at_in by (rewrite ?zlen_app; lia). f_equal. rewrite (app_assoc h), (app_assoc pre), zdrop_app.
      * by apply ztake_app.
      * rewrite !zlen_app. lia.
Qed.

Lemma restart_ok_range ri i : restart_ok ri i -> 0 <= ri < zlen idx.
Proof. intros (m & j & -> & Hm & _). apply lookup_lt_Some in Hm. unfold zlen. lia. Qed.

Lemma advance_restart_ok fuel it ri i :
  base it -> bi_current it = off es i -> restart_ok ri i -> zlen idx - ri < Z.of_nat fuel ->
  exists ri', advance_restart fuel it ri = Some ri' /\ restart_ok ri' i.
Proof.
  intros B Hc. revert ri. induction fuel as [|fuel IH]; intros ri Hr Hf.
  { apply restart_ok_range in Hr. lia. }
  cbn [advance_restart]. rewrite (base_num _ B).
  destruct (Z.ltb_spec (ri + 1) (zlen idx)) as [Hlt|]; [|by exists ri].
  destruct Hr as (m & j & -> & Hm & Hj).
  replace (Z.of_nat m + 1) with (Z.of_nat (S m)) in * by lia.
  destruct (lookup_lt_is_Some_2 idx (S m)) as [j' Hm']; [unfold zlen in Hlt; lia|].
  rewrite (get_restart_point_base it (S m) j') by done. cbn [mbind option_bind]. rewrite Hc.
  destruct (Z.ltb_spec (off es j') (off es i)) as [Ho|].
  - apply IH; [|lia]. exists (S m), j'. apply off_lt_inv in Ho. split; [done|]. split; [done|lia].
  - exists (Z.of_nat m). split; [done|]. by exists m, j.
Qed.

Lemma base_set it c ri k vo vs st : base it -> base (set_position it c ri k vo vs st).
Proof. intros B. split; apply B. Qed.

(** One step of [parse_next_key]. *)
Lemma parse_ready it i :
  ready it i -> (i < length es)%nat ->
  exists it', parse_next_key it = Some (true, it') /\ at_entry it' i.
Proof.
  intros R Hi. pose proof (ready_base _ _ R) as B. pose proof (off_lt es i (length es) Hi Hi) as Ho.
  rewrite (off_all es (length es)) in Ho by done.
  destruct (lookup_lt_is_Some_2 es i Hi) as [e He]. destruct (entry_lookup_ok i e He) as (Hs & Hk & Hv).
  destruct (decode_entry_at i e He) as (Ed & Edelta & Evalue). destruct (ready_key _ _ R e He) as [Hk1 Hk2].
  unfold parse_next_key. rewrite (next_offset_small it i (ready_next _ _ R)).
  rewrite (base_restarts _ B), (base_data _ B), Ed, !bind_some.
  rewrite (proj2 (Z.leb_gt _ _)), (proj2 (Z.ltb_ge _ _)) by lia.
  assert ((is_internal it && (be_shared e + (zlen (be_key e) - be_shared e) <? 8)) = false) as ->.
  { unfold is_internal. rewrite (base_cmp _ B). destruct (cmp_user_comparator cmp) eqn:Eu; [|done].
    cbn [andb]. apply Z.ltb_ge. assert (8 <= zlen (be_key e)); [|lia].
    rewrite List.Forall_forall in internal_ok. apply internal_ok; [done|].
    apply list_elem_of_In. by eapply list_elem_of_lookup_2. }
  rewrite slice_at_start, Edelta, !bind_some by lia. cbv zeta. rewrite Hk2, ztake_zdrop.
  set (it1 := set_position it (off es i) _ _ _ _ _).
  destruct (advance_restart_ok (S (Z.to_nat (bi_num_restarts it1))) it1 (bi_restart_index it1) i)
    as (ri & Er & Hr); [by apply base_set|done|apply R| |].
  { subst it1. cbn [set_position bi_num_restarts bi_restart_index]. rewrite (base_num _ B).
    pose proof (restart_ok_range _ _ (ready_restart _ _ R)). lia. }
  rewrite Er. cbn [mbind option_bind]. eexists. split; [reflexivity|].
  split; cbn [set_position bi_status bi_current bi_value_off bi_value_size bi_key bi_restart_index it1].
  - by apply base_set, base_set.
  - apply R.
  - done.
  - rewrite (off_S es i e He). unfold header_len. lia.
  - by exists e.
  - done.
Qed.

Lemma parse_end it :
  ready it (length es) -> exists it', parse_next_key it = Some (false, it') /\ ended it'.
Proof.
  intros R. pose proof (ready_base _ _ R) as B. unfold parse_next_key.
  rewrite (next_offset_small it _ (ready_next _ _ R)), (base_restarts _ B), off_all by done.
  rewrite (proj2 (Z.leb_le _ _)) by lia. eexists. split; [reflexivity|].
  split; [by apply base_set|apply R|done].
Qed.

Lemma at_ready it i : at_entry it i -> ready it (S i).
Proof.
  intros A. destruct (at_pair _ _ A) as (e & He & Ek & _). pose proof (lookup_lt_Some _ _ _ He).
  split; try apply A; [lia| |].
  - intros e' He'. destruct (shared_ok_lookup _ _ _ _ (wf_shared _ _ wf) He') as [_ (e0 & E0 & H1 & H2)].
    rewrite He in E0. injection E0 as <-. by rewrite Ek.
  - destruct (at_restart _ _ A) as (m & j & -> & Hm & Hj). exists m, j. split; [done|]. split; [done|lia].
Qed.

(** [parse_next_key] as a move to the position [i]. *)
Lemma parse_position it i :
  ready it i ->
  exists it', parse_next_key it = Some (bool_decide (i < length es)%nat, it') /\
    block_rep it' (position (map be_pair es) i).
Proof.
  intros R. unfold position. rewrite length_map. case_bool_decide as Hi.
  - by apply parse_ready.
  - assert (i = length es) as -> by (pose proof (ready_bound _ _ R); lia). by apply parse_end.
Qed.

Lemma seek_restart_ready it m j :
  base it -> bi_status it = LDB_OK -> idx !! m = Some j ->
  exists it', seek_to_restart_point it (Z.of_nat m) = Some it' /\ ready it' j.
Proof.
  intros B Hst Hm. unfold seek_to_restart_point. rewrite (get_restart_point_base it m j B Hm).
  cbn [mbind option_bind]. eexists. split; [reflexivity|].
  assert (j ∈ idx) as Hin by by eapply list_elem_of_lookup_2.
  split; cbn [set_position bi_status bi_value_off bi_value_size bi_key bi_restart_index]; try done.
  - by apply base_set.
  - lia.
  - destruct (wf_bound _ _ wf j Hin) as [?|[_ ->]]; lia.
  - intros e He. rewrite (wf_restart _ _ wf j e Hin He). split; [zlia|done].
  - exists m, j. split; [done|]. split; [done|lia].
Qed.

(** The loop of [prev] and [last] stops at the entry that ends at the limit. *)
Lemma parse_until_at fuel it j i :
  ready it j -> (j < i <= length es)%nat -> (i - j <= fuel)%nat ->
  exists it', parse_until fuel it (off es i) = Some it' /\ at_entry it' (pred i).
Proof.
  revert it j. induction fuel as [|fuel IH]; intros it j R Hj Hf; [lia|]. cbn [parse_until].
  destruct (parse_ready it j R ltac:(lia)) as (it1 & E & A). rewrite E. cbn [mbind option_bind andb].
  rewrite (next_offset_small it1 (S j) (at_next _ _ A)).
  destruct (decide (S j = i)) as [<-|Hne].
  - rewrite Z.ltb_irrefl. by exists it1.
  - rewrite (proj2 (Z.ltb_lt _ _)) by (apply off_lt; lia). apply (IH it1 (S j)); [by apply at_ready|lia|lia].
Qed.

Lemma first_restart : idx !! 0%nat = Some 0%nat.
Proof. destruct (wf_first _ _ wf) as [rest E]. by rewrite E. Qed.

(** The scan of [prev] finds a restart point before entry [i] if there is one. *)
Lemma scan_back_ok fuel it m j i :
  base it -> (i < length es)%nat -> idx !! m = Some j -> (m < fuel)%nat ->
  (i = 0%nat /\ scan_back fuel it (off es i) (Z.of_nat m) = Some None) \/
  exists m' j', scan_back fuel it (off es i) (Z.of_nat m) = Some (Some (Z.of_nat m')) /\
    idx !! m' = Some j' /\ (j' < i)%nat.
Proof.
  intros B Hi. revert m j. induction fuel as [|fuel IH]; intros m j Hm Hf; [lia|]. cbn [scan_back].
  rewrite (get_restart_point_base it m j B Hm). cbn [mbind option_bind].
  destruct (Z.leb_spec (off es i) (off es j)) as [Hle|Hlt].
  2: { right. exists m, j. split; [done|]. split; [done|]. by apply off_lt_inv in Hlt. }
  destruct m as [|m].
  - left. rewrite first_restart in Hm. injection Hm as <-. split; [|done].
    destruct i as [|i]; [done|]. pose proof (off_lt es 0 (S i)). rewrite off_0 in *. lia.
  - rewrite (proj2 (Z.eqb_neq _ _)) by lia. replace (Z.of_nat (S m) - 1) with (Z.of_nat m) by lia.
    destruct (lookup_lt_is_Some_2 idx m) as [j' Hm']; [apply lookup_lt_Some in Hm; lia|].
    apply (IH m j'); [done|lia].
Qed.

(** Every entry takes at least one byte. *)
Lemma entries_le_bytes : Z.of_nat (length es) <= zlen (body es).
Proof.
  clear. induction es as [|e l IH]; [done|]. rewrite body_cons, zlen_app. cbn [length].
  pose proof (zlen_entry_enc e). lia.
Qed.

Lemma block_fuel_enough it : base it -> (length es < block_fuel it)%nat.
Proof. intros B. unfold block_fuel. rewrite (base_restarts _ B). pose proof entries_le_bytes. lia. Qed.

Lemma first_ok it :
  base it -> bi_status it = LDB_OK ->
  exists it', ldb_blockiter_first it = Some it' /\ block_rep it' (position (map be_pair es) 0).
Proof.
  intros B Hst. unfold ldb_blockiter_first.
  destruct (seek_restart_ready it 0 0 B Hst first_restart) as (it1 & E1 & R1).
  change 0 with (Z.of_nat 0). rewrite E1. cbn [mbind option_bind].
  destruct (parse_position it1 0 R1) as (it2 & E2 & R2). rewrite E2. by exists it2.
Qed.

Lemma last_ok it :
  base it -> bi_status it = LDB_OK ->
  exists it', ldb_blockiter_last it = Some it' /\ block_rep it' (position_before (length es)).
Proof.
  intros B Hst. unfold ldb_blockiter_last. rewrite (base_num _ B).
  destruct (lookup_lt_is_Some_2 idx (pred (length idx))) as [j Hj].
  { pose proof (lookup_lt_Some _ _ _ first_restart). lia. }
  replace (zlen idx - 1) with (Z.of_nat (pred (length idx)))
    by (pose proof (lookup_lt_Some _ _ _ first_restart); unfold zlen; lia).
  destruct (seek_restart_ready it _ j B Hst Hj) as (it1 & E1 & R1).
  rewrite E1. cbn [mbind option_bind]. pose proof (ready_base _ _ R1) as B1.
  pose proof (block_fuel_enough it1 B1) as Hf. rewrite (base_restarts _ B1).
  destruct (wf_bound _ _ wf j) as [Hlt|[Hes ->]]; [by eapply list_elem_of_lookup_2| |].
  - rewrite <- (off_all es (length es)) by done.
    destruct (parse_until_at (block_fuel it1) it1 j (length es)) as (it2 & E2 & A2); [done|lia|lia|].
    exists it2. split; [done|]. destruct (length es); [lia|done].
  - assert (length es = 0%nat) as Hn by by rewrite Hes. rewrite <- Hn in R1.
    destruct (parse_end it1 R1) as (it2 & E2 & R2). destruct (block_fuel it1) as [|f]; [lia|].
    cbn [parse_until]. rewrite E2. cbn [mbind option_bind andb]. exists it2. by rewrite Hn.
Qed.

Lemma next_ok it i :
  at_entry it i ->
  exists it', ldb_blockiter_next it = Some it' /\ block_rep it' (position (map be_pair es) (S i)).
Proof.
  intros A. pose proof (at_ready _ _ A) as R. unfold ldb_blockiter_next, ldb_blockiter_valid.
  pose proof (ready_bound _ _ R). rewrite (at_current _ _ A), (base_restarts _ (at_base _ _ A)).
  rewrite <- (off_all es (length es)), (proj2 (Z.ltb_lt _ _)) by (try apply off_lt; lia).
  destruct (parse_position it (S i) R) as (it1 & E & R1). rewrite E. by exists it1.
Qed.

Lemma prev_ok it i :
  at_entry it i -> exists it', ldb_blockiter_prev it = Some it' /\ block_rep it' (position_before i).
Proof.
  intros A. pose proof (at_base _ _ A) as B. destruct (at_pair _ _ A) as (e & He & _).
  pose proof (lookup_lt_Some _ _ _ He) as Hi. unfold ldb_blockiter_prev, ldb_blockiter_valid.
  rewrite (at_current _ _ A), (base_restarts _ B).
  rewrite <- (off_all es (length es)), (proj2 (Z.ltb_lt _ _)) by (try apply off_lt; lia).
  destruct (at_restart _ _ A) as (m & j & -> & Hm & Hj). rewrite (base_num _ B).
  pose proof (lookup_lt_Some _ _ _ Hm).
  destruct (scan_back_ok (S (Z.to_nat (zlen idx))) it m j i B Hi Hm) as [[-> E]|(m' & j' & E & Hm' & Hj')];
    [unfold zlen; lia|..]; rewrite E; cbn [mbind option_bind].
  - eexists. split; [reflexivity|]. split; [by apply base_set|apply A|]. by rewrite off_all.
  - destruct (seek_restart_ready it m' j' B (at_status _ _ A) Hm') as (it1 & E1 & R1). rewrite E1.
    cbn [mbind option_bind]. pose proof (block_fuel_enough it1 (ready_base _ _ R1)).
    destruct (parse_until_at (block_fuel it1) it1 j' i R1) as (it2 & E2 & A2); [lia|lia|].
    exists it2. split; [done|]. destruct i; [lia|done].
Qed.

(** *** Seeking *)

Context (dom : bytes -> Prop) `{!ComparatorLaws dom cmp}.
Hypothesis dom_internal : cmp_user_comparator cmp <> None -> forall k, dom k -> 8 <= zlen k.
Hypothesis keys_dom : Forall (fun e => dom (be_key e)) es.
Hypothesis keys_sorted : sorted_pairs cmp (map be_pair es).

(** The entries before [j] are below the target. *)
Definition below (target : bytes) (j : nat) : Prop :=
  forall k e, (k < j)%nat -> es !! k = Some e -> ldb_compare cmp (be_key e) target < 0.

Lemma entry_dom i e : es !! i = Some e -> dom (be_key e).
Proof. intros H. rewrite List.Forall_forall in keys_dom. apply keys_dom, list_elem_of_In. by eapply list_elem_of_lookup_2. Qed.

Lemma keys_lt i j e f :
  es !! i = Some e -> es !! j = Some f -> (i < j)%nat -> ldb_compare cmp (be_key e) (be_key f) < 0.
Proof.
  intros He Hf. apply (sorted_lookup _ _ i j (be_pair e) (be_pair f) keys_sorted);
    by rewrite list_lookup_fmap, ?He, ?Hf.
Qed.

Lemma below_le target i e j :
  es !! i = Some e -> ldb_compare cmp (be_key e) target < 0 -> dom target -> (j <= S i)%nat -> below target j.
Proof.
  intros He Hlt Ht Hj k f Hk Hf. destruct (decide (k = i)) as [->|Hne]; [by simplify_eq|].
  pose proof (keys_lt k i f e Hf He ltac:(lia)).
  apply (compare_lt_trans dom cmp _ (be_key e)); [by eapply entry_dom..|done|done|done].
Qed.

Lemma count_lt_below_eq target j :
  below target j -> (j <= length es)%nat ->
  (forall e, es !! j = Some e -> 0 <= ldb_compare cmp (be_key e) target) ->
  count_lt cmp target (map be_pair es) = j.
Proof.
  intros Hb Hj Hge. apply count_lt_unique; [| |by rewrite length_map].
  - intros k kv Hk Hkv. rewrite list_lookup_fmap in Hkv. destruct (es !! k) as [e|] eqn:E; [|done].
    injection Hkv as <-. by apply (Hb k).
  - intros kv Hkv. rewrite list_lookup_fmap in Hkv. destruct (es !! j) as [e|]; [|done].
    injection Hkv as <-. by apply Hge.
Qed.

Lemma internal_long it k : base it -> dom k -> (is_internal it && (zlen k <? 8)) = false.
Proof.
  intros B Hk. unfold is_internal. rewrite (base_cmp _ B).
  pose proof (fun H => dom_internal H k Hk) as H8. destruct (cmp_user_comparator cmp); [|done].
  apply Z.ltb_ge. by apply H8.
Qed.

Lemma do_compare_ok it x y : base it -> dom x -> dom y -> do_compare it x y = Some (ldb_compare cmp x y).
Proof.
  intros B Hx Hy. unfold do_compare. rewrite andb_orb_distrib_r, !internal_long by done. by rewrite (base_cmp _ B).
Qed.

Lemma linear_search_ok fuel it j target :
  ready it j -> below target j -> dom target -> (length es - j < fuel)%nat ->
  exists it', linear_search fuel it target = Some it' /\
    block_rep it' (position (map be_pair es) (count_lt cmp target (map be_pair es))).
Proof.
  revert it j. induction fuel as [|fuel IH]; intros it j R Hb Ht Hf; [lia|]. cbn [linear_search].
  destruct (parse_position it j R) as (it1 & E & R1). rewrite E. cbn [mbind option_bind].
  pose proof (ready_bound _ _ R) as Hj. case_bool_decide as Hlt; cbn [negb].
  - rewrite position_some in R1 by by rewrite length_map.
    destruct (at_pair _ _ R1) as (e & He & Ek & _). rewrite Ek, do_compare_ok, bind_some by (by eauto using at_base, entry_dom).
    destruct (Z.leb_spec 0 (ldb_compare cmp (be_key e) target)) as [Hge|Hl].
    + exists it1. split; [done|]. rewrite (count_lt_below_eq target j); [|done..|].
      * by rewrite position_some by by rewrite length_map.
      * intros e' He'. by simplify_eq.
    + apply (IH it1 (S j)); [by apply at_ready| |done|lia]. by apply (below_le target j e).
  - exists it1. split; [done|]. rewrite (count_lt_below_eq target j); [done..|].
    intros e He. apply lookup_lt_Some in He. lia.
Qed.

(** The key at a restart point other than the first. *)
Lemma restart_entry m j : idx !! m = Some j -> (0 < m)%nat -> (j < length es)%nat.
Proof.
  intros Hm Hpos. destruct (wf_bound _ _ wf j) as [?|[_ ->]]; [by eapply list_elem_of_lookup_2|done|].
  pose proof (sorted_lookup _ _ 0 m 0%nat 0%nat (wf_sorted _ _ wf) first_restart Hm Hpos). lia.
Qed.

Lemma binary_search_ok fuel it l r j target :
  base it -> dom target -> idx !! l = Some j -> below target j -> (l <= r < length idx)%nat ->
  (r - l < fuel)%nat ->
  exists m j', binary_search fuel it target (Z.of_nat l) (Z.of_nat r) = Some (Some (Z.of_nat m)) /\
    idx !! m = Some j' /\ below target j'.
Proof.
  intros B Ht. revert l r j. induction fuel as [|fuel IH]; intros l r j Hl Hb Hlr Hf; [lia|].
  cbn [binary_search]. destruct (Z.ltb_spec (Z.of_nat l) (Z.of_nat r)) as [Hlt|]; [|by exists l, j].
  pose proof data_size as [Hd1 Hd2]. pose proof (zlen_nonneg (body es)).
  set (mid := ((l + r + 1) / 2)%nat).
  assert (u32 (Z.of_nat l + Z.of_nat r + 1) / 2 = Z.of_nat mid) as ->.
  { unfold mid. rewrite u32_small by (unfold zlen in *; lia). rewrite Nat2Z.inj_div. f_equal. lia. }
  assert (l < mid <= r)%nat as Hmid by (unfold mid; pose proof (Nat.div_mod (l + r + 1) 2 ltac:(lia));
    pose proof (Nat.mod_upper_bound (l + r + 1) 2 ltac:(lia)); lia).
  clearbody mid. destruct (lookup_lt_is_Some_2 idx mid) as [i Hi]; [lia|].
  rewrite (get_restart_point_base it mid i B Hi). cbn [mbind option_bind].
  destruct (lookup_lt_is_Some_2 es i) as [e He]; [apply (restart_entry mid); [done|lia]|].
  destruct (decode_entry_at i e He) as (Ed & Ek & _). rewrite (base_data _ B), (base_restarts _ B), Ed, bind_some.
  rewrite (wf_restart _ _ wf i e) in Ek |- * by first [done|by eapply list_elem_of_lookup_2].
  rewrite zdrop_0 in Ek. rewrite Ek, bind_some. cbn [Z.eqb negb]. rewrite Z.sub_0_r.
  rewrite (internal_long it (be_key e) B) by by eapply entry_dom.
  rewrite do_compare_ok, bind_some by (by eauto using entry_dom). destruct (Z.ltb_spec (ldb_compare cmp (be_key e) target) 0).
  - apply (IH mid r i); [done| |lia|lia]. apply (below_le target i e); [done..|lia].
  - replace (Z.of_nat mid - 1) with (Z.of_nat (pred mid)) by lia. apply (IH l (pred mid) j); [done|done|lia|lia].
Qed.

Lemma seek_from it found target :
  base it -> bi_status it = LDB_OK -> dom target ->
  (exists m j, found = Z.of_nat m /\ idx !! m = Some j /\ below target j) ->
  exists it', (it ← seek_to_restart_point it found; linear_search (block_fuel it) it target) = Some it' /\
    block_rep it' (position (map be_pair es) (count_lt cmp target (map be_pair es))).
Proof.
  intros B Hst Ht (m & j & -> & Hm & Hb).
  destruct (seek_restart_ready it m j B Hst Hm) as (it1 & E & R). rewrite E. cbn [mbind option_bind].
  pose proof (block_fuel_enough it1 (ready_base _ _ R)). apply (linear_search_ok _ it1 j); [done..|lia].
Qed.

Lemma below_0 target : below target 0.
Proof. intros k e Hk. lia. Qed.

Lemma seek_ended it target :
  ended it -> dom target ->
  exists it', ldb_blockiter_seek it target = Some it' /\
    block_rep it' (position (map be_pair es) (count_lt cmp target (map be_pair es))).
Proof.
  intros A Ht. pose proof (ended_base _ A) as B. unfold ldb_blockiter_seek.
  rewrite (internal_long it target B Ht).
  assert (ldb_blockiter_valid it = false) as ->.
  { unfold ldb_blockiter_valid. rewrite (ended_current _ A), (base_restarts _ B). apply Z.ltb_irrefl. }
  rewrite bind_some. cbv zeta. cbn [andb]. change (0 <? 0) with false. rewrite (base_num _ B). cbn [andb].
  pose proof (lookup_lt_Some _ _ _ first_restart).
  destruct (binary_search_ok (S (Z.to_nat (zlen idx))) it 0 (pred (length idx)) 0 target)
    as (m & j & E & Hm & Hb); [done|done|apply first_restart|apply below_0|lia|unfold zlen; lia|].
  replace (zlen idx - 1) with (Z.of_nat (pred (length idx))) by (unfold zlen; lia).
  change (Z.of_nat 0) with 0 in E. rewrite E. cbn [mbind option_bind]. rewrite andb_false_r.
  apply seek_from; [done|apply A|done|by exists m, j].
Qed.

Lemma seek_at it i target :
  at_entry it i -> dom target ->
  exists it', ldb_blockiter_seek it target = Some it' /\
    block_rep it' (position (map be_pair es) (count_lt cmp target (map be_pair es))).
Proof.
  intros A Ht. pose proof (at_base _ _ A) as B. unfold ldb_blockiter_seek.
  destruct (at_pair _ _ A) as (e & He & Ek & _). pose proof (lookup_lt_Some _ _ _ He) as Hi.
  rewrite (internal_long it target B Ht).
  assert (ldb_blockiter_valid it = true) as ->.
  { unfold ldb_blockiter_valid. rewrite (at_current _ _ A), (base_restarts _ B), <- (off_all es (length es)) by lia.
    apply Z.ltb_lt, off_lt; lia. }
  rewrite Ek, do_compare_ok, bind_some, (base_num _ B) by (by eauto using entry_dom). cbv zeta. cbn [andb].
  destruct (at_restart _ _ A) as (m & j & Er & Hm & Hj). rewrite Er. pose proof (lookup_lt_Some _ _ _ Hm).
  replace (zlen idx - 1) with (Z.of_nat (pred (length idx))) by (unfold zlen; lia).
  destruct (Z.eqb_spec (ldb_compare cmp (be_key e) target) 0) as [Heq|Hne].
  { exists it. split; [done|]. rewrite (count_lt_below_eq target i); [|..].
    - by rewrite position_some by by rewrite length_map.
    - intros k f Hk Hf. pose proof (keys_lt k i f e Hf He Hk).
      apply (compare_lt_le_trans dom cmp _ (be_key e)); [by eapply entry_dom..|done|done|lia].
    - lia.
    - intros e' He'. simplify_eq. lia. }
  destruct (Z.ltb_spec (ldb_compare cmp (be_key e) target) 0) as [Hlt|Hge].
  - rewrite (proj2 (Z.ltb_ge _ _)) by lia.
    destruct (binary_search_ok (S (Z.to_nat (zlen idx))) it m (pred (length idx)) j target)
      as (m' & j' & E & Hm' & Hb); [done|done|done|apply (below_le target i e); [done..|lia]|lia|unfold zlen; lia|].
    rewrite E. cbn [mbind option_bind]. rewrite andb_true_r.
    destruct (Z.eqb_spec (Z.of_nat m') (Z.of_nat m)) as [Hmm|Hmm].
    + pose proof (block_fuel_enough it B). cbn [mbind option_bind].
      apply (linear_search_ok _ it (S i)); [by apply at_ready|by apply (below_le target i e)|done|lia].
    + apply seek_from; [done|apply A|done|by exists m', j'].
  - rewrite (proj2 (Z.ltb_lt _ _)) by lia.
    destruct (binary_search_ok (S (Z.to_nat (zlen idx))) it 0 m 0 target)
      as (m' & j' & E & Hm' & Hb); [done|done|apply first_restart|apply below_0|lia|unfold zlen; lia|].
    change (Z.of_nat 0) with 0 in E. rewrite E. cbn [mbind option_bind]. rewrite andb_false_r.
    apply seek_from; [done|apply A|done|by exists m', j'].
Qed.

(** The block iterator keeps the contract of [iterator.h]. *)
Lemma blockiter_laws : IteratorLaws ldb_blockiter_table dom cmp (map be_pair es) block_rep.
Proof.
  split; cbn [ldb_blockiter_table it_valid it_status it_key it_value it_first it_last it_seek it_next it_prev].
  - intros it i A. destruct (at_pair _ _ A) as (e & He & _). rewrite length_map. by eapply lookup_lt_Some.
  - intros it [i|] R; unfold ldb_blockiter_valid.
    + destruct (at_pair _ _ R) as (e & He & _). pose proof (lookup_lt_Some _ _ _ He).
      rewrite (at_current _ _ R), (base_restarts _ (at_base _ _ R)), <- (off_all es (length es)) by lia.
      apply Z.ltb_lt, off_lt; lia.
    + rewrite (ended_current _ R), (base_restarts _ (ended_base _ R)). apply Z.ltb_irrefl.
  - intros it [i|] R; apply R.
  - intros it i kv R Hkv. destruct (at_pair _ _ R) as (e & He & Ek & Ev). pose proof (lookup_lt_Some _ _ _ He).
    rewrite list_lookup_fmap, He in Hkv. injection Hkv as <-.
    unfold ldb_blockiter_key, ldb_blockiter_value, ldb_blockiter_valid.
    rewrite (at_current _ _ R), (base_restarts _ (at_base _ _ R)), <- (off_all es (length es)) by lia.
    rewrite (proj2 (Z.ltb_lt _ _)) by (apply off_lt; lia).
    by rewrite Ek, (base_data _ (at_base _ _ R)), Ev.
  - intros it [i|] R; apply first_ok; apply R.
  - intros it [i|] R; rewrite length_map; apply last_ok; apply R.
  - intros it [i|] target R Ht; [by eapply seek_at|by apply seek_ended].
  - intros it i R. rewrite Nat.add_1_r. by apply next_ok.
  - intros it i R. by apply prev_ok.
Qed.
End WellFormed.

(** ** The iterator over arbitrary contents *)

(** The geometry of a block that [ldb_block_init] accepted. *)
Record bounds (it : blockiter) : Prop := {
  bounds_restarts : 0 <= bi_restarts it;
  bounds_num : 1 <= bi_num_restarts it;
  bounds_data : bi_restarts it + 4 * bi_num_restarts it + 4 <= zlen (bi_data it);
  bounds_size : zlen (bi_data it) < 2 ^ 32
}.

(** The value slice and the restart index are inside the block. *)
Record parsing (it : blockiter) : Prop := {
  parsing_bounds : bounds it;
  parsing_value : 0 <= bi_value_off it /\ 0 <= bi_value_size it /\
    bi_value_off it + bi_value_size it <= bi_restarts it;
  parsing_index : 0 <= bi_restart_index it < bi_num_restarts it
}.

(** An iterator its client may use: at no entry, or at one that lies inside the
    block and whose key the comparator accepts. *)
Definition safe (it : blockiter) : Prop :=
  bounds it /\
  (bi_current it = bi_restarts it \/
   (bi_current it < bi_restarts it /\ parsing it /\
    (is_internal it = true -> 8 <= zlen (bi_key it)))).

Lemma bounds_set it c ri k vo vs st : bounds it -> bounds (set_position it c ri k vo vs st).
Proof. intros B. split; apply B. Qed.

Lemma get_restart_point_total it i :
  bounds it -> 0 <= i < bi_num_restarts it ->
  exists r, get_restart_point it i = Some r /\ 0 <= r <= bi_restarts it.
Proof.
  intros B Hi. pose proof (bounds_restarts _ B). pose proof (bounds_data _ B). pose proof (bounds_size _ B).
  unfold get_restart_point. rewrite (proj2 (Z.leb_le _ _)), (proj2 (Z.ltb_lt _ _)) by lia. cbn [andb].
  rewrite u32_small by lia. unfold read32.
  rewrite (proj2 (Z.leb_le _ _)), (proj2 (Z.leb_le _ _)) by lia. cbn [andb mbind option_bind].
  pose proof (fixed32_decode_range (zdrop (bi_restarts it + i * 4) (bi_data it))).
  eexists. split; [reflexivity|]. destruct (Z.ltb_spec (bi_restarts it)
    (fixed32_decode (zdrop (bi_restarts it + i * 4) (bi_data it)))); lia.
Qed.

Lemma advance_restart_total fuel it ri :
  bounds it -> 0 <= ri < bi_num_restarts it -> bi_num_restarts it - ri < Z.of_nat fuel ->
  exists ri', advance_restart fuel it ri = Some ri' /\ 0 <= ri' < bi_num_restarts it.
Proof.
  intros B. revert ri. induction fuel as [|fuel IH]; intros ri Hr Hf; [lia|]. cbn [advance_restart].
  destruct (Z.ltb_spec (ri + 1) (bi_num_restarts it)); [|by exists ri].
  destruct (get_restart_point_total it (ri + 1) B) as (r & E & _); [lia|]. rewrite E. cbn [mbind option_bind].
  destruct (_ <? _); [apply IH; lia|by exists ri].
Qed.

Lemma corruption_safe it : bounds it -> safe (ldb_blockiter_corruption it).
Proof. intros B. split; [by apply bounds_set|by left]. Qed.

(** Parsing moves forward, or ends the iteration. *)
Lemma parse_total it :
  parsing it ->
  exists ok it', parse_next_key it = Some (ok, it') /\ safe it' /\
    (bi_restarts it' = bi_restarts it /\ bi_comparator it' = bi_comparator it) /\
    (ok = true -> parsing it' /\ (is_internal it' = true -> 8 <= zlen (bi_key it')) /\
       next_entry_offset it < next_entry_offset it').
Proof.
  intros P. pose proof (parsing_bounds _ P) as B. pose proof (parsing_value _ P) as (V1 & V2 & V3).
  pose proof (bounds_data _ B). pose proof (bounds_size _ B). pose proof (bounds_num _ B).
  pose proof (parsing_index _ P) as Hri.
  assert (next_entry_offset it = bi_value_off it + bi_value_size it) as En.
  { unfold next_entry_offset. apply u32_small. lia. }
  unfold parse_next_key. rewrite En.
  destruct (Z.leb_spec (bi_restarts it) (bi_value_off it + bi_value_size it)).
  { do 2 eexists. split; [reflexivity|]. split; [|done]. split; [by apply bounds_set|by left]. }
  destruct (decode_entry_sound (bi_data it) (bi_value_off it + bi_value_size it) (bi_restarts it)) as (d & Ed & Hd); [lia..|].
  rewrite Ed, bind_some. clear Ed. destruct d as [[[[s n] v] p]|].
  2: { do 2 eexists. split; [reflexivity|]. split; [by apply corruption_safe|done]. }
  destruct (Hd s n v p eq_refl) as (Hs & Hn & Hv & Hp & Hl). clear Hd.
  destruct (Z.ltb_spec (zlen (bi_key it)) s).
  { do 2 eexists. split; [reflexivity|]. split; [by apply corruption_safe|done]. }
  destruct (is_internal it && (s + n <? 8)) eqn:Ei.
  { do 2 eexists. split; [reflexivity|]. split; [by apply corruption_safe|done]. }
  rewrite slice_at_start, bind_some, slice_at_in, bind_some by lia. cbv zeta.
  set (it1 := set_position it _ _ _ _ _ _).
  assert (bounds it1) as B1 by by apply bounds_set.
  destruct (advance_restart_total (S (Z.to_nat (bi_num_restarts it1))) it1 (bi_restart_index it1) B1)
    as (ri & Er & Hri'); [done|subst it1; cbn [set_position bi_num_restarts bi_restart_index]; lia|].
  rewrite Er. cbn [mbind option_bind].
  assert (parsing (set_position it1 (bi_value_off it + bi_value_size it) ri
    (ztake s (bi_key it) ++ ztake n (zdrop p (bi_data it))) (p + n) v (bi_status it1))) as P1.
  { split; [by apply bounds_set, bounds_set| |done].
    subst it1. cbn [set_position bi_value_off bi_value_size bi_restarts]. lia. }
  assert (is_internal it = true -> 8 <= zlen (ztake s (bi_key it) ++ ztake n (zdrop p (bi_data it)))) as Hk.
  { intros Hi. rewrite Hi in Ei. cbn [andb] in Ei. apply Z.ltb_ge in Ei. rewrite zlen_app, !zlen_take; [done|..].
    - rewrite zlen_drop; lia.
    - lia. }
  do 2 eexists. split; [reflexivity|]. split; [|split; [done|]].
  - split; [apply P1|]. right. split; [subst it1; cbn [set_position bi_current bi_restarts]; lia|].
    by split.
  - intros _. split; [done|]. split; [done|]. unfold next_entry_offset.
    subst it1. cbn [set_position bi_value_off bi_value_size]. rewrite u32_small; lia.
Qed.

Lemma seek_restart_total it i :
  bounds it -> 0 <= i < bi_num_restarts it ->
  exists it', seek_to_restart_point it i = Some it' /\ parsing it' /\ bi_comparator it' = bi_comparator it.
Proof.
  intros B Hi. destruct (get_restart_point_total it i B Hi) as (r & E & Hr).
  unfold seek_to_restart_point. rewrite E. cbn [mbind option_bind]. eexists. split; [reflexivity|].
  split; [|done]. split; [by apply bounds_set|cbn [set_position bi_value_off bi_value_size bi_restarts]; lia|done].
Qed.

Lemma parsing_offset it : parsing it -> 0 <= next_entry_offset it <= bi_restarts it.
Proof.
  intros P. pose proof (parsing_value _ P) as (V1 & V2 & V3).
  pose proof (bounds_data _ (parsing_bounds _ P)). pose proof (bounds_size _ (parsing_bounds _ P)).
  pose proof (bounds_num _ (parsing_bounds _ P)). unfold next_entry_offset. rewrite u32_small; lia.
Qed.

Lemma parse_until_total fuel it limit :
  parsing it -> bi_restarts it - next_entry_offset it < Z.of_nat fuel ->
  exists it', parse_until fuel it limit = Some it' /\ safe it'.
Proof.
  revert it. induction fuel as [|fuel IH]; intros it P Hf; [pose proof (parsing_offset it P); lia|].
  cbn [parse_until]. destruct (parse_total it P) as (ok & it1 & E & S1 & [R1 _] & Hok). rewrite E.
  cbn [mbind option_bind]. destruct ok; cbn [andb]; [|by exists it1].
  destruct (_ <? _); [|by exists it1]. destruct Hok as (P1 & _ & Hn); [done|]. apply IH; [done|lia].
Qed.

Lemma do_compare_long it x y : (is_internal it = true -> 8 <= zlen x) -> (is_internal it = true -> 8 <= zlen y) ->
  do_compare it x y = Some (ldb_compare (bi_comparator it) x y).
Proof.
  intros Hx Hy. unfold do_compare. destruct (is_internal it); [|done]. cbn [andb].
  by rewrite !(proj2 (Z.ltb_ge _ _)) by auto.
Qed.

Lemma linear_search_total fuel it target :
  parsing it -> (is_internal it = true -> 8 <= zlen target) -> bi_restarts it - next_entry_offset it < Z.of_nat fuel ->
  exists it', linear_search fuel it target = Some it' /\ safe it'.
Proof.
  revert it. induction fuel as [|fuel IH]; intros it P Ht Hf; [pose proof (parsing_offset it P); lia|].
  cbn [linear_search]. destruct (parse_total it P) as (ok & it1 & E & S1 & [R1 C1] & Hok). rewrite E, bind_some.
  destruct ok; cbn [negb]; [|by exists it1]. destruct Hok as (P1 & Hk & Hn); [done|].
  assert (is_internal it1 = true -> 8 <= zlen target) as Ht1 by (unfold is_internal in *; by rewrite C1).
  rewrite do_compare_long, bind_some by done. destruct (_ <=? _); [by exists it1|]. apply IH; [done|done|lia].
Qed.

Lemma block_fuel_total it : parsing it -> bi_restarts it - next_entry_offset it < Z.of_nat (block_fuel it).
Proof. intros P. pose proof (parsing_offset it P). unfold block_fuel. lia. Qed.

Lemma scan_back_total fuel it original ri :
  bounds it -> 0 <= ri < bi_num_restarts it -> ri < Z.of_nat fuel ->
  exists r, scan_back fuel it original ri = Some r /\
    match r with Some ri' => 0 <= ri' < bi_num_restarts it | None => True end.
Proof.
  intros B. revert ri. induction fuel as [|fuel IH]; intros ri Hr Hf; [lia|]. cbn [scan_back].
  destruct (get_restart_point_total it ri B Hr) as (r & E & _). rewrite E. cbn [mbind option_bind].
  destruct (_ <=? _); [|by exists (Some ri)].
  destruct (Z.eqb_spec ri 0); [by exists None|]. apply IH; lia.
Qed.

Lemma binary_search_total fuel it target l r :
  bounds it -> (is_internal it = true -> 8 <= zlen target) ->
  0 <= l < bi_num_restarts it -> r < bi_num_restarts it -> r - l < Z.of_nat fuel -> 0 < Z.of_nat fuel ->
  exists f, binary_search fuel it target l r = Some f /\
    match f with Some m => 0 <= m < bi_num_restarts it | None => True end.
Proof.
  intros B Ht. revert l r. induction fuel as [|fuel IH]; intros l r Hl Hr Hf Hpos; [lia|]. cbn [binary_search].
  destruct (Z.ltb_spec l r); [|by exists (Some l)].
  pose proof (bounds_data _ B). pose proof (bounds_size _ B). pose proof (bounds_restarts _ B).
  rewrite u32_small by lia. set (mid := (l + r + 1) / 2).
  assert (l < mid <= r) as Hmid by (unfold mid; Z.div_mod_to_equations; lia). clearbody mid.
  pose proof (bounds_num _ B).
  destruct (get_restart_point_total it mid B) as (off & E & Ho); [lia|]. rewrite E, bind_some.
  destruct (decode_entry_sound (bi_data it) off (bi_restarts it)) as (d & Ed & Hd); [lia..|]. rewrite Ed, bind_some. clear Ed.
  destruct d as [[[[s n] v] p]|]; [|by exists None]. destruct (Hd s n v p eq_refl) as (Hs & Hn & Hv & Hp & Hlim).
  destruct (negb _); [by exists None|]. destruct (is_internal it && (n <? 8)) eqn:Ei; [by exists None|].
  assert (is_internal it = true -> 8 <= zlen (ztake n (zdrop p (bi_data it)))) as Hmid8.
  { intros Hi. rewrite Hi in Ei. apply Z.ltb_ge in Ei. rewrite zlen_take; [done|]. rewrite zlen_drop; lia. }
  rewrite slice_at_in, bind_some, do_compare_long, bind_some by (done || lia). destruct (_ <? 0); apply IH; lia.
Qed.

Lemma first_total it : bounds it -> exists it', ldb_blockiter_first it = Some it' /\ safe it'.
Proof.
  intros B. pose proof (bounds_num _ B). unfold ldb_blockiter_first.
  destruct (seek_restart_total it 0 B) as (it1 & E & P & _); [lia|]. rewrite E. cbn [mbind option_bind].
  destruct (parse_total it1 P) as (ok & it2 & E2 & S2 & _). rewrite E2. by exists it2.
Qed.

Lemma last_total it : bounds it -> exists it', ldb_blockiter_last it = Some it' /\ safe it'.
Proof.
  intros B. pose proof (bounds_num _ B). unfold ldb_blockiter_last.
  destruct (seek_restart_total it (bi_num_restarts it - 1) B) as (it1 & E & P & _); [lia|]. rewrite E.
  cbn [mbind option_bind]. apply parse_until_total; [done|by apply block_fuel_total].
Qed.

Lemma next_total it :
  safe it -> ldb_blockiter_valid it = true -> exists it', ldb_blockiter_next it = Some it' /\ safe it'.
Proof.
  intros [B Hs] V. unfold ldb_blockiter_next. rewrite V. apply Z.ltb_lt in V.
  destruct Hs as [?|(_ & P & _)]; [lia|].
  destruct (parse_total it P) as (ok & it2 & E2 & S2 & _). rewrite E2. by exists it2.
Qed.

Lemma prev_total it :
  safe it -> ldb_blockiter_valid it = true -> exists it', ldb_blockiter_prev it = Some it' /\ safe it'.
Proof.
  intros [B Hs] V. unfold ldb_blockiter_prev. rewrite V. apply Z.ltb_lt in V.
  destruct Hs as [?|(_ & P & _)]; [lia|]. pose proof (parsing_index _ P).
  destruct (scan_back_total (S (Z.to_nat (bi_num_restarts it))) it (bi_current it) (bi_restart_index it) B)
    as (r & E & Hr); [done|lia|]. rewrite E. cbn [mbind option_bind]. destruct r as [ri|].
  - destruct (seek_restart_total it ri B Hr) as (it1 & E1 & P1 & _). rewrite E1. cbn [mbind option_bind].
    apply parse_until_total; [done|by apply block_fuel_total].
  - eexists. split; [reflexivity|]. split; [by apply bounds_set|by left].
Qed.

Lemma seek_found it target found :
  bounds it -> (is_internal it = true -> 8 <= zlen target) -> 0 <= found < bi_num_restarts it ->
  exists it', (it ← seek_to_restart_point it found; linear_search (block_fuel it) it target) = Some it' /\ safe it'.
Proof.
  intros B Ht Hf. destruct (seek_restart_total it found B Hf) as (it1 & E1 & P1 & C1). rewrite E1, bind_some.
  apply linear_search_total; [done| |by apply block_fuel_total]. unfold is_internal in *. by rewrite C1.
Qed.

Lemma seek_total it target : safe it -> exists it', ldb_blockiter_seek it target = Some it' /\ safe it'.
Proof.
  intros [B Hs]. pose proof (bounds_num _ B). unfold ldb_blockiter_seek.
  destruct (is_internal it && (zlen target <? 8)) eqn:Ei; [eexists; split; [reflexivity|by apply corruption_safe]|].
  assert (is_internal it = true -> 8 <= zlen target) as Ht by (intros Hi; rewrite Hi in Ei; by apply Z.ltb_ge in Ei).
  destruct (ldb_blockiter_valid it) eqn:V.
  - pose proof V as V'. apply Z.ltb_lt in V'. destruct Hs as [?|(_ & HP & Hk)]; [lia|].
    pose proof (parsing_index _ HP). rewrite do_compare_long, bind_some by done. cbv zeta. cbn [andb].
    set (c := ldb_compare _ _ _). clearbody c. destruct (Z.eqb_spec c 0); [exists it; split; [done|by split; [|right]]|].
    set (l := if c <? 0 then bi_restart_index it else 0). set (r := if 0 <? c then bi_restart_index it else bi_num_restarts it - 1).
    assert (0 <= l < bi_num_restarts it) by (unfold l; destruct (c <? 0); lia).
    assert (r < bi_num_restarts it) by (unfold r; destruct (0 <? c); lia). clearbody l r.
    destruct (binary_search_total (S (Z.to_nat (bi_num_restarts it))) it target l r B Ht)
      as (f & E & Hf); [lia..|]. rewrite E, bind_some.
    destruct f as [m|]; [|eexists; split; [reflexivity|by apply corruption_safe]].
    destruct ((m =? bi_restart_index it) && (c <? 0)); [|by apply seek_found].
    rewrite bind_some. apply linear_search_total; [done|done|by apply block_fuel_total].
  - rewrite bind_some. cbv zeta. cbn [andb]. change (0 <? 0) with false.
    destruct (binary_search_total (S (Z.to_nat (bi_num_restarts it))) it target 0 (bi_num_restarts it - 1) B Ht)
      as (f & E & Hf); [lia..|]. rewrite E, bind_some.
    destruct f as [m|]; [|eexists; split; [reflexivity|by apply corruption_safe]]. rewrite andb_false_r.
    by apply seek_found.
Qed.

Lemma init_size contents b :
  zlen contents < 2 ^ 32 -> ldb_block_init contents = Some b ->
  blk_data b = contents /\
  (blk_size b = 0 \/
   exists n, blk_size b = zlen contents /\ 4 <= zlen contents /\ ldb_block_restarts b = Some n /\ 0 <= n /\
     blk_restart_offset b = zlen contents - 4 * n - 4 /\ 0 <= blk_restart_offset b).
Proof.
  intros Hs. unfold ldb_block_init. destruct (Z.ltb_spec (zlen contents) 4).
  { intros [= <-]. split; [done|by left]. }
  destruct (ldb_block_restarts _) as [n|] eqn:E; [|done]. cbn [mbind option_bind].
  assert (0 <= n) as Hn.
  { unfold ldb_block_restarts in E. cbn [blk_size blk_data] in E. destruct (_ <? _); [done|].
    unfold read32 in E. destruct (_ && _); [|done]. injection E as <-. apply fixed32_decode_range. }
  destruct (Z.ltb_spec ((zlen contents - 4) / 4) n) as [?|Hle]; intros [= <-]; (split; [done|]); [by left|].
  right. exists n. split; [done|]. split; [done|]. split; [exact E|]. split; [done|].
  assert (4 * n <= zlen contents - 4) by (Z.div_mod_to_equations; lia).
  cbn [blk_restart_offset]. rewrite (u32_small (1 + n)), (u32_small ((1 + n) * 4)), u32_small by lia. lia.
Qed.

Lemma init_total contents : zlen contents < 2 ^ 32 -> exists b, ldb_block_init contents = Some b.
Proof.
  intros Hs. unfold ldb_block_init. destruct (Z.ltb_spec (zlen contents) 4); [by eexists|].
  unfold ldb_block_restarts, read32. cbn [blk_size blk_data]. rewrite (proj2 (Z.ltb_ge _ _)) by lia.
  rewrite (proj2 (Z.leb_le _ _)), (proj2 (Z.leb_le _ _)) by lia. cbn [andb mbind option_bind].
  destruct (_ <? _); by eexists.
Qed.

(** ** Client programs *)

Inductive iter_call := CallFirst | CallLast | CallSeek (target : bytes) | CallNext | CallPrev.

(** A client may only move an iterator that is valid. *)
Definition run_call (it : blockiter) (c : iter_call) : option blockiter :=
  match c with
  | CallFirst => ldb_blockiter_first it
  | CallLast => ldb_blockiter_last it
  | CallSeek target => ldb_blockiter_seek it target
  | CallNext => if ldb_blockiter_valid it then ldb_blockiter_next it else Some it
  | CallPrev => if ldb_blockiter_valid it then ldb_blockiter_prev it else Some it
  end.

Fixpoint run_calls (it : blockiter) (cs : list iter_call) : option blockiter :=
  match cs with [] => Some it | c :: cs => it ← run_call it c; run_calls it cs end.

Lemma run_call_total it c : safe it -> exists it', run_call it c = Some it' /\ safe it'.
Proof.
  intros S. destruct c; cbn [run_call].
  - apply first_total, S.
  - apply last_total, S.
  - by apply seek_total.
  - destruct (ldb_blockiter_valid it) eqn:V; [by apply next_total|by exists it].
  - destruct (ldb_blockiter_valid it) eqn:V; [by apply prev_total|by exists it].
Qed.

Lemma run_calls_total it cs : safe it -> exists it', run_calls it cs = Some it' /\ safe it'.
Proof.
  revert it. induction cs as [|c cs IH]; intros it S; [by exists it|]. cbn [run_calls].
  destruct (run_call_total it c S) as (it1 & E & S1). rewrite E. cbn [mbind option_bind]. by apply IH.
Qed.

Lemma create_total contents b cmp :
  zlen contents < 2 ^ 32 -> ldb_block_init contents = Some b ->
  exists r, ldb_blockiter_create b cmp = Some r /\
    match r with inr it => safe it /\ bi_data it = contents | inl st => st = LDB_OK \/ st = LDB_CORRUPTION end.
Proof.
  intros Hs Eb. destruct (init_size contents b Hs Eb) as (Ed & [E0|(n & E1 & H4 & En & Hn & Eo & Ho)]);
    unfold ldb_blockiter_create.
  - rewrite E0. change (0 <? 4) with true. cbv iota. eexists. split; [reflexivity|by right].
  - rewrite E1, (proj2 (Z.ltb_ge _ _)) by lia. rewrite En. cbn [mbind option_bind].
    destruct (Z.eqb_spec n 0); [eexists; split; [reflexivity|by left]|].
    unfold ldb_blockiter_init. rewrite (proj2 (Z.ltb_lt _ _)), bind_some by lia.
    eexists. split; [reflexivity|]. rewrite Ed. split; [|done]. split; [|by left].
    split; cbn [bi_restarts bi_num_restarts bi_data]; lia.
Qed.

(** ** Opening a block the builder wrote *)

Lemma open_block_bytes es idx cmp :
  block_wf es idx ->
  exists b, ldb_block_init (block_bytes es idx) = Some b /\
    ldb_blockiter_create b cmp =
      Some (inr (Blockiter cmp (block_bytes es idx) (zlen (body es)) (zlen idx) (zlen (body es)) (zlen idx) [] 0 0 LDB_OK)).
Proof.
  intros W. destruct (data_size es idx W) as [Hd1 Hd2]. pose proof (zlen_nonneg (body es)).
  assert (1 <= zlen idx) as Hn by (destruct (wf_first _ _ W) as [rest ->]; rewrite zlen_cons; zlia).
  assert (forall o, ldb_block_restarts (Block (block_bytes es idx) (zlen (block_bytes es idx)) o) = Some (zlen idx)) as Er.
  { intros o. unfold ldb_block_restarts, read32. cbn [blk_size blk_data].
    rewrite (proj2 (Z.ltb_ge _ _)), (proj2 (Z.leb_le _ _)), (proj2 (Z.leb_le _ _)) by lia. cbn [andb]. f_equal.
    unfold block_bytes at 2. rewrite app_assoc, zdrop_app by (rewrite zlen_app, zlen_restarts; lia).
    rewrite <- (app_nil_r (fixed32_write _)). apply fixed32_decode_write. lia. }
  exists (Block (block_bytes es idx) (zlen (block_bytes es idx)) (zlen (body es))). split.
  - unfold ldb_block_init. rewrite (proj2 (Z.ltb_ge _ _)), Er by lia. cbn [mbind option_bind].
    rewrite (proj2 (Z.ltb_ge _ _)) by (Z.div_mod_to_equations; lia).
    rewrite (u32_small (1 + _)), (u32_small ((1 + _) * 4)), u32_small by lia. do 2 f_equal. lia.
  - unfold ldb_blockiter_create. cbn [blk_size blk_data blk_restart_offset].
    rewrite (proj2 (Z.ltb_ge _ _)), Er, bind_some, (proj2 (Z.eqb_neq _ _)) by lia.
    unfold ldb_blockiter_init. by rewrite (proj2 (Z.ltb_lt _ _)) by lia.
Qed.

(** What the builder makes of [kvs]. *)
Lemma build_block_wf n kvs :
  1 <= n -> Forall (fun kv => zlen kv.1 < 2 ^ 32 /\ zlen kv.2 < 2 ^ 32) kvs ->
  zlen (build_block n kvs) < 2 ^ 32 ->
  exists es idx, build_block n kvs = block_bytes es idx /\ block_wf es idx /\ map be_pair es = kvs /\
    Forall entry_ok es.
Proof.
  intros Hn Hkv Hs. destruct (blockgen_add_all_rep (ldb_blockgen_init n) [] [0%nat] kvs (blockgen_init_rep n) Hn Hkv)
    as (es & idx & R & E & _). cbn [map app] in E. exists es, idx.
  destruct (finish_block_bytes _ es idx R) as [Eb W].
  { unfold build_block, ldb_blockgen_finish in Hs. cbn [fst] in Hs.
    rewrite !zlen_app, zlen_fixed32_write, (rep_buffer _ _ _ R), (rep_restarts _ _ _ R), map_map in Hs.
    rewrite (zlen_restarts (fun i => u32 (off es i))) in Hs.
    unfold block_bytes. rewrite !zlen_app, zlen_restarts, zlen_fixed32_write. lia. }
  split; [done|]. split; [done|]. split; [done|]. rewrite <- E in Hkv. clear -Hkv W.
  apply List.Forall_forall. intros e [i Hi]%list_elem_of_In%list_elem_of_lookup.
  destruct (shared_ok_lookup _ _ _ _ (wf_shared _ _ W) Hi) as [H1 _].
  rewrite List.Forall_forall in Hkv. destruct (Hkv (be_pair e)) as [H2 H3]; [|done].
  apply list_elem_of_In, list_elem_of_lookup. exists i. by rewrite list_lookup_fmap, Hi.
Qed.

Lemma build_block_opens dom cmp `{!ComparatorLaws dom cmp} n kvs :
  1 <= n -> sorted_pairs cmp kvs -> Forall (fun kv => dom kv.1) kvs ->
  (cmp_user_comparator cmp <> None -> forall k, dom k -> 8 <= zlen k) ->
  Forall (fun kv => zlen kv.1 < 2 ^ 32 /\ zlen kv.2 < 2 ^ 32) kvs ->
  zlen (build_block n kvs) < 2 ^ 32 ->
  exists b it, ldb_block_init (build_block n kvs) = Some b /\ ldb_blockiter_create b cmp = Some (inr it) /\
    any_rep ldb_blockiter_table dom cmp kvs it None.
Proof.
  intros Hn Hs Hd H8 Hkv Hsize.
  destruct (build_block_wf n kvs Hn Hkv Hsize) as (es & idx & E & W & Ep & Hok). rewrite E, <- Ep in *.
  assert (Forall (fun e => dom (be_key e)) es) as Hd'.
  { apply (proj1 (List.Forall_map be_pair (fun kv => dom kv.1) es)) in Hd. exact Hd. }
  destruct (open_block_bytes es idx cmp W) as (b & Eb & Ei).
  exists b. eexists. split; [done|]. split; [exact Ei|]. exists (block_rep es idx cmp). split.
  - apply blockiter_laws; try done. intros Hu. eapply List.Forall_impl; [|exact Hd'].
    intros e. apply (H8 Hu).
  - split; [by split|done|done].
Qed.

(** ** Properties *)

(** C27: A block built by [ldb_blockgen_add] from a sorted list of pairs, with
    any restart interval and any lawful comparator, opens, and its iterator
    keeps the contract of [iterator.h] over exactly these pairs: it starts out
    not valid; [first], [last], [next], [prev] move through the list in both
    directions with the keys rebuilt from their shared prefixes; [seek] finds
    the first key at or after its target through the binary search over the
    restart points and the linear scan. *)
Theorem block_iterator_correct dom cmp `{!ComparatorLaws dom cmp} n kvs :
  1 <= n -> sorted_pairs cmp kvs -> Forall (fun kv => dom kv.1) kvs ->
  (cmp_user_comparator cmp <> None -> forall k, dom k -> 8 <= zlen k) ->
  Forall (fun kv => zlen kv.1 < 2 ^ 32 /\ zlen kv.2 < 2 ^ 32) kvs ->
  zlen (build_block n kvs) < 2 ^ 32 ->
  exists b it rep,
    ldb_block_init (build_block n kvs) = Some b /\ ldb_blockiter_create b cmp = Some (inr it) /\
    rep it None /\ IteratorLaws ldb_blockiter_table dom cmp kvs rep.
Proof.
  intros Hn Hs Hd H8 Hkv Hsize.
  destruct (build_block_opens dom cmp n kvs Hn Hs Hd H8 Hkv Hsize) as (b & it & Eb & Ei & rep & L & R).
  by exists b, it, rep.
Qed.

Lemma block_iterator_correct_witness :
  let kvs := [([Byte.x61; Byte.x62], [Byte.x01]); ([Byte.x61; Byte.x63], [Byte.x02]); ([Byte.x62], [])] in
  exists b it rep,
    ldb_block_init (build_block 2 kvs) = Some b /\ ldb_blockiter_create b bytewise_comparator = Some (inr it) /\
    rep it None /\ IteratorLaws ldb_blockiter_table (fun _ => True) bytewise_comparator kvs rep.
Proof.
  intros kvs. apply (block_iterator_correct (fun _ => True) bytewise_comparator 2 kvs).
  - lia.
  - repeat constructor.
  - repeat constructor.
  - intros H. exfalso. apply H. reflexivity.
  - repeat constructor.
  - vm_compute. reflexivity.
Defined.

(** C37: Whatever bytes a block holds, reading it is safe: opening it and any
    sequence of iterator calls a client may make (moving only a valid iterator)
    terminates; every byte read, every key delta, every key compared and every
    value given out lies inside the block, no prefix is taken beyond the key it
    is taken of, no size wraps around, and no assertion fails (those of the
    order of internal keys included).  Afterwards an iterator that is valid
    gives a key and a value. *)
Theorem block_iterator_safe contents cmp calls :
  zlen contents < 2 ^ 32 ->
  exists b r, ldb_block_init contents = Some b /\ ldb_blockiter_create b cmp = Some r /\
    match r with
    | inl status => status = LDB_OK \/ status = LDB_CORRUPTION
    | inr it => exists it', run_calls it calls = Some it' /\
        (ldb_blockiter_valid it' = true ->
         (exists key, ldb_blockiter_key it' = Some key /\ (is_internal it' = true -> 8 <= zlen key)) /\
         exists value, ldb_blockiter_value it' = Some value)
    end.
Proof.
  intros Hs. destruct (init_total contents Hs) as [b Eb]. destruct (create_total contents b cmp Hs Eb) as (r & Er & Hr).
  exists b, r. split; [done|]. split; [done|]. destruct r as [st|it]; [done|]. destruct Hr as [Hsafe _].
  destruct (run_calls_total it calls Hsafe) as (it' & E & [B Hp]). exists it'. split; [done|].
  intros V. unfold ldb_blockiter_key, ldb_blockiter_value. rewrite V. apply Z.ltb_lt in V.
  destruct Hp as [?|(_ & P & Hk)]; [lia|]. pose proof (parsing_value _ P).
  pose proof (bounds_data _ B). pose proof (bounds_num _ B).
  split; [by eexists|]. rewrite slice_at_in by lia. by eexists.
Qed.

Lemma block_iterator_safe_witness :
  let contents := [Byte.xff; Byte.x01; Byte.x01; Byte.x61; Byte.x00; Byte.x00; Byte.x00; Byte.x00; Byte.x01; Byte.x00; Byte.x00; Byte.x00] in
  let calls := [CallFirst; CallNext; CallLast; CallPrev] in
  exists b r, ldb_block_init contents = Some b /\ ldb_blockiter_create b bytewise_comparator = Some r /\
    match r with
    | inl status => status = LDB_OK \/ status = LDB_CORRUPTION
    | inr it => exists it', run_calls it calls = Some it' /\
        (ldb_blockiter_valid it' = true ->
         (exists key, ldb_blockiter_key it' = Some key /\ (is_internal it' = true -> 8 <= zlen key)) /\
         exists value, ldb_blockiter_value it' = Some value)
    end.
Proof. intros contents calls. apply (block_iterator_safe contents bytewise_comparator calls). vm_compute. reflexivity. Defined.
