(* ===== verification/IteratorWrapper.v ===== *)
(** * Iterator wrappers

    Models [src/engine/src/table/iterator_wrapper.h]: an iterator together
    with its cached validity and key.  The merging and the two-level iterator
    are built from wrappers.

    The cached key is a view of the iterator's own storage; nothing but the
    wrapper moves the iterator, so the bytes are stored instead. *)

From S2P Require Import Prelude Status Comparator Iterator.
#[local] Open Scope Z_scope.

Section Wrapper.
Context {S : Type} (ops : iter_ops S).

(** [ldb_wrapiter_t]; a [NULL] iterator is [None]. *)
Record wrapiter := Wrapiter { wi_iter : option S; wi_valid : bool; wi_key : bytes }.

Definition ldb_wrapiter_update (w : wrapiter) (s : S) : option wrapiter :=
  if it_valid ops s then k ← it_key ops s; Some (Wrapiter (Some s) true k)
  else Some (Wrapiter (Some s) false (wi_key w)).

Definition ldb_wrapiter_init (iter : option S) : option wrapiter :=
  let w := Wrapiter iter false [] in
  match iter with Some s => ldb_wrapiter_update w s | None => Some w end.

Definition ldb_wrapiter_set (w : wrapiter) (iter : option S) : option wrapiter :=
  let w := Wrapiter iter false (wi_key w) in
  match iter with Some s => ldb_wrapiter_update w s | None => Some w end.

Definition ldb_wrapiter_valid (w : wrapiter) : bool := wi_valid w.

Definition ldb_wrapiter_seek (w : wrapiter) (k : bytes) : option wrapiter :=
  s ← wi_iter w; s ← it_seek ops s k; ldb_wrapiter_update w s.

Definition ldb_wrapiter_first (w : wrapiter) : option wrapiter :=
  s ← wi_iter w; s ← it_first ops s; ldb_wrapiter_update w s.

Definition ldb_wrapiter_last (w : wrapiter) : option wrapiter :=
  s ← wi_iter w; s ← it_last ops s; ldb_wrapiter_update w s.

Definition ldb_wrapiter_next (w : wrapiter) : option wrapiter :=
  s ← wi_iter w; s ← it_next ops s; ldb_wrapiter_update w s.

Definition ldb_wrapiter_prev (w : wrapiter) : option wrapiter :=
  s ← wi_iter w; s ← it_prev ops s; ldb_wrapiter_update w s.

Definition ldb_wrapiter_key (w : wrapiter) : option bytes :=
  if ldb_wrapiter_valid w then Some (wi_key w) else None.

Definition ldb_wrapiter_value (w : wrapiter) : option bytes :=
  if ldb_wrapiter_valid w then s ← wi_iter w; it_value ops s else None.

Definition ldb_wrapiter_status (w : wrapiter) : option Z :=
  s ← wi_iter w; Some (it_status ops s).

(** ** Wrappers of lawful iterators *)

Context (dom : bytes -> Prop) (cmp : comparator) (kvs : pairs) (rep : S -> option nat -> Prop).

(** The wrapper holds an iterator at position [p] and its cache is current. *)
Record wrap_at (w : wrapiter) (p : option nat) : Prop := {
  wrap_rep : exists s, wi_iter w = Some s /\ rep s p;
  wrap_valid : wi_valid w = bool_decide (p <> None);
  wrap_key i kv : p = Some i -> kvs !! i = Some kv -> wi_key w = kv.1
}.

Context `{!IteratorLaws ops dom cmp kvs rep}.

Lemma wrap_update w s p :
  rep s p -> exists w', ldb_wrapiter_update w s = Some w' /\ wrap_at w' p.
Proof.
  intros R. unfold ldb_wrapiter_update. rewrite (laws_valid s p R). destruct p as [i|]; cbn.
  - destruct (lookup_lt_is_Some_2 kvs i (laws_bound s i R)) as [kv E].
    destruct (laws_entry s i kv R E) as [-> _]. eexists. split; [reflexivity|]. split; cbn.
    + by exists s.
    + done.
    + intros i' kv' [= <-] E'. by rewrite E in E'; injection E' as <-.
  - eexists. split; [reflexivity|]. split; cbn; [by exists s|done|done].
Qed.

Lemma wrap_init s p : rep s p -> exists w, ldb_wrapiter_init (Some s) = Some w /\ wrap_at w p.
Proof. apply wrap_update. Qed.

Lemma wrap_set w s p : rep s p -> exists w', ldb_wrapiter_set w (Some s) = Some w' /\ wrap_at w' p.
Proof. apply wrap_update. Qed.

(** Every operation of a wrapper is the operation of its iterator. *)
Lemma wrap_lift (op : S -> option S) w p q :
  wrap_at w p -> (forall s, rep s p -> exists s', op s = Some s' /\ rep s' q) ->
  exists w', (s ← wi_iter w; s ← op s; ldb_wrapiter_update w s) = Some w' /\ wrap_at w' q.
Proof.
  intros W H. destruct (wrap_rep _ _ W) as (s & E & R). destruct (H s R) as (s' & E' & R').
  rewrite E. cbn [mbind option_bind]. rewrite E'. cbn [mbind option_bind]. by apply wrap_update.
Qed.

Lemma wrap_first w p :
  wrap_at w p -> exists w', ldb_wrapiter_first w = Some w' /\ wrap_at w' (position kvs 0).
Proof. intros W. apply (wrap_lift _ w p _ W). intros s R. by apply (laws_first s p). Qed.

Lemma wrap_last w p :
  wrap_at w p -> exists w', ldb_wrapiter_last w = Some w' /\ wrap_at w' (position_before (length kvs)).
Proof. intros W. apply (wrap_lift _ w p _ W). intros s R. by apply (laws_last s p). Qed.

Lemma wrap_seek w p k :
  wrap_at w p -> dom k ->
  exists w', ldb_wrapiter_seek w k = Some w' /\ wrap_at w' (position kvs (count_lt cmp k kvs)).
Proof. intros W Hk. apply (wrap_lift (fun s => it_seek ops s k) w p _ W). intros s R. by apply (laws_seek s p). Qed.

Lemma wrap_next w i :
  wrap_at w (Some i) -> exists w', ldb_wrapiter_next w = Some w' /\ wrap_at w' (position kvs (i + 1)).
Proof. intros W. apply (wrap_lift _ w _ _ W). intros s R. by apply laws_next. Qed.

Lemma wrap_prev w i :
  wrap_at w (Some i) -> exists w', ldb_wrapiter_prev w = Some w' /\ wrap_at w' (position_before i).
Proof. intros W. apply (wrap_lift _ w _ _ W). intros s R. by apply laws_prev. Qed.

Lemma wrap_entry w i kv :
  wrap_at w (Some i) -> kvs !! i = Some kv ->
  ldb_wrapiter_key w = Some kv.1 /\ ldb_wrapiter_value w = Some kv.2.
Proof.
  intros W E. destruct (wrap_rep _ _ W) as (s & Es & R).
  unfold ldb_wrapiter_key, ldb_wrapiter_value, ldb_wrapiter_valid. rewrite (wrap_valid _ _ W), Es. cbn.
  rewrite (wrap_key _ _ W i kv) by done. split; [done|]. by apply (laws_entry s i kv).
Qed.

Lemma wrap_status w p : wrap_at w p -> ldb_wrapiter_status w = Some LDB_OK.
Proof.
  intros W. destruct (wrap_rep _ _ W) as (s & Es & R). unfold ldb_wrapiter_status. rewrite Es.
  cbn [mbind option_bind]. by rewrite (laws_status s p R).
Qed.

Lemma wrap_bound w i : wrap_at w (Some i) -> (i < length kvs)%nat.
Proof. intros W. destruct (wrap_rep _ _ W) as (s & _ & R). by apply (laws_bound s). Qed.
End Wrapper.

Arguments Wrapiter {S}.
Arguments wi_iter {S}.
Arguments wi_valid {S}.
Arguments wi_key {S}.
Arguments ldb_wrapiter_valid {S}.
Arguments ldb_wrapiter_key {S}.
Arguments wrapiter : clear implicits.
