(* ===== verification/Merger.v ===== *)
(** * The merging iterator

    Models [src/engine/src/table/merger.c]: the iterator that presents several
    child iterators as one.  The memtable, the immutable memtable and the
    tables of a database are merged by it.

    The pointer [current] into the array of children is an index. *)

From stdpp Require Import sorting.
From S2P Require Import Prelude Status Comparator Iterator IteratorWrapper.
#[local] Open Scope Z_scope.

Inductive ldb_direction := LDB_FORWARD | LDB_REVERSE.

Section Merger.
Context {S : Type} (ops : iter_ops S).

(** [ldb_mergeiter_t] *)
Record mergeiter := Mergeiter {
  mi_comparator : comparator;
  mi_children : list (wrapiter S);
  mi_current : option nat;
  mi_direction : ldb_direction
}.

(** A loop over all children. *)
Fixpoint for_children (f : wrapiter S -> option (wrapiter S)) (ws : list (wrapiter S))
    : option (list (wrapiter S)) :=
  match ws with
  | [] => Some []
  | w :: ws => w ← f w; ws ← for_children f ws; Some (w :: ws)
  end.

(** A loop over the children other than the current one; [i] is the index of
    the first of [ws]. *)
Fixpoint for_others (f : wrapiter S -> option (wrapiter S)) (cur i : nat) (ws : list (wrapiter S))
    : option (list (wrapiter S)) :=
  match ws with
  | [] => Some []
  | w :: ws =>
    w ← (if Nat.eqb i cur then Some w else f w);
    ws ← for_others f cur (Datatypes.S i) ws; Some (w :: ws)
  end.

Definition ldb_mergeiter_init (cmp : comparator) (children : list S) : option mergeiter :=
  ws ← mapM (fun s => ldb_wrapiter_init ops (Some s)) children;
  Some (Mergeiter cmp ws None LDB_FORWARD).

Definition ldb_mergeiter_valid (mi : mergeiter) : bool :=
  match mi_current mi with Some _ => true | None => false end.

Definition current_child (mi : mergeiter) : option (wrapiter S) :=
  c ← mi_current mi; mi_children mi !! c.

Definition ldb_mergeiter_key (mi : mergeiter) : option bytes :=
  w ← current_child mi; ldb_wrapiter_key w.

Definition ldb_mergeiter_value (mi : mergeiter) : option bytes :=
  w ← current_child mi; ldb_wrapiter_value ops w.

Fixpoint children_status (ws : list (wrapiter S)) : Z :=
  match ws with
  | [] => LDB_OK
  | w :: ws =>
    match ldb_wrapiter_status ops w with
    | Some rc => if rc =? LDB_OK then children_status ws else rc
    | None => LDB_OK
    end
  end.

Definition ldb_mergeiter_status (mi : mergeiter) : Z := children_status (mi_children mi).

(** The scan of [find_smallest] and [find_largest]: the best valid child so
    far. *)
Fixpoint pick (better : bytes -> bytes -> bool) (xs : list (nat * wrapiter S))
    (best : option (nat * wrapiter S)) : option nat :=
  match xs with
  | [] => fst <$> best
  | (i, child) :: xs =>
    if ldb_wrapiter_valid child then
      match best with
      | None => pick better xs (Some (i, child))
      | Some (b, w) =>
        if better (wi_key child) (wi_key w) then pick better xs (Some (i, child))
        else pick better xs best
      end
    else pick better xs best
  end.

Definition indexed (ws : list (wrapiter S)) : list (nat * wrapiter S) := imap pair ws.

Definition ldb_mergeiter_find_smallest (mi : mergeiter) : mergeiter :=
  let current := pick (fun x y => ldb_compare (mi_comparator mi) x y <? 0) (indexed (mi_children mi)) None in
  Mergeiter (mi_comparator mi) (mi_children mi) current (mi_direction mi).

(** From the last child to the first. *)
Definition ldb_mergeiter_find_largest (mi : mergeiter) : mergeiter :=
  let current := pick (fun x y => 0 <? ldb_compare (mi_comparator mi) x y)
                   (rev (indexed (mi_children mi))) None in
  Mergeiter (mi_comparator mi) (mi_children mi) current (mi_direction mi).

Definition set_children (mi : mergeiter) (ws : list (wrapiter S)) : mergeiter :=
  Mergeiter (mi_comparator mi) ws (mi_current mi) (mi_direction mi).

Definition set_direction (mi : mergeiter) (d : ldb_direction) : mergeiter :=
  Mergeiter (mi_comparator mi) (mi_children mi) (mi_current mi) d.

Definition ldb_mergeiter_first (mi : mergeiter) : option mergeiter :=
  ws ← for_children (ldb_wrapiter_first ops) (mi_children mi);
  Some (set_direction (ldb_mergeiter_find_smallest (set_children mi ws)) LDB_FORWARD).

Definition ldb_mergeiter_last (mi : mergeiter) : option mergeiter :=
  ws ← for_children (ldb_wrapiter_last ops) (mi_children mi);
  Some (set_direction (ldb_mergeiter_find_largest (set_children mi ws)) LDB_REVERSE).

Definition ldb_mergeiter_seek (mi : mergeiter) (target : bytes) : option mergeiter :=
  ws ← for_children (fun w => ldb_wrapiter_seek ops w target) (mi_children mi);
  Some (set_direction (ldb_mergeiter_find_smallest (set_children mi ws)) LDB_FORWARD).

(** A child is moved behind the current key. *)
Definition place_after (cmp : comparator) (mi_key : bytes) (child : wrapiter S) : option (wrapiter S) :=
  child ← ldb_wrapiter_seek ops child mi_key;
  if ldb_wrapiter_valid child then
    child_key ← ldb_wrapiter_key child;
    if ldb_compare cmp mi_key child_key =? 0 then ldb_wrapiter_next ops child else Some child
  else Some child.

(** A child is moved before the current key. *)
Definition place_before (mi_key : bytes) (child : wrapiter S) : option (wrapiter S) :=
  child ← ldb_wrapiter_seek ops child mi_key;
  if ldb_wrapiter_valid child then ldb_wrapiter_prev ops child else ldb_wrapiter_last ops child.

(** [ldb_wrapiter_next(mi->current)] and [ldb_wrapiter_prev(mi->current)]. *)
Definition move_current (f : wrapiter S -> option (wrapiter S)) (mi : mergeiter) : option mergeiter :=
  c ← mi_current mi; w ← mi_children mi !! c; w ← f w;
  Some (set_children mi (<[c := w]> (mi_children mi))).

Definition ldb_mergeiter_next (mi : mergeiter) : option mergeiter :=
  cur ← mi_current mi;
  mi ← (match mi_direction mi with
        | LDB_FORWARD => Some mi
        | LDB_REVERSE =>
          mi_key ← ldb_mergeiter_key mi;
          ws ← for_others (place_after (mi_comparator mi) mi_key) cur 0 (mi_children mi);
          Some (set_direction (set_children mi ws) LDB_FORWARD)
        end);
  mi ← move_current (ldb_wrapiter_next ops) mi;
  Some (ldb_mergeiter_find_smallest mi).

Definition ldb_mergeiter_prev (mi : mergeiter) : option mergeiter :=
  cur ← mi_current mi;
  mi ← (match mi_direction mi with
        | LDB_REVERSE => Some mi
        | LDB_FORWARD =>
          mi_key ← ldb_mergeiter_key mi;
          ws ← for_others (place_before mi_key) cur 0 (mi_children mi);
          Some (set_direction (set_children mi ws) LDB_REVERSE)
        end);
  mi ← move_current (ldb_wrapiter_prev ops) mi;
  Some (ldb_mergeiter_find_largest mi).

Definition ldb_mergeiter_table : iter_ops mergeiter := {|
  it_valid := ldb_mergeiter_valid;
  it_first := ldb_mergeiter_first;
  it_last := ldb_mergeiter_last;
  it_seek := ldb_mergeiter_seek;
  it_next := ldb_mergeiter_next;
  it_prev := ldb_mergeiter_prev;
  it_key := ldb_mergeiter_key;
  it_value := ldb_mergeiter_value;
  it_status := ldb_mergeiter_status
|}.

(** What [ldb_mergeiter_create] returns: an empty iterator, its only child, or
    a merging iterator. *)
Inductive merged := MergedEmpty (status : Z) | MergedChild (s : S) | MergedIter (mi : mergeiter).

Definition ldb_mergeiter_create (cmp : comparator) (children : list S) : option merged :=
  match children with
  | [] => Some (MergedEmpty LDB_OK)
  | [s] => Some (MergedChild s)
  | _ => MergedIter <$> ldb_mergeiter_init cmp children
  end.

(** The same as an iterator of one of three kinds. *)
Definition merged_iter (m : merged) : Z + (S + mergeiter) :=
  match m with MergedEmpty status => inl status | MergedChild s => inr (inl s) | MergedIter mi => inr (inr mi) end.

Definition merged_table : iter_ops (Z + (S + mergeiter)) := sum_iter_table ldb_emptyiter_table (sum_iter_table ops ldb_mergeiter_table).
End Merger.

Arguments Mergeiter {S}.
Arguments mi_comparator {S}.
Arguments mi_children {S}.
Arguments mi_current {S}.
Arguments mi_direction {S}.
Arguments mergeiter : clear implicits.
Arguments merged : clear implicits.
Arguments merged_iter {S}.

(** ** Interleavings

    The merged list of pairs, each with the child it comes from. *)

Abbreviation tagged := (list (nat * (bytes * bytes))).

Definition child (ms : tagged) (c : nat) : pairs := snd <$> filter (fun x => x.1 = c) ms.

(** How many of the first [j] pairs come from child [c]. *)
Definition cnt (ms : tagged) (c j : nat) : nat := length (filter (fun x => x.1 = c) (take j ms)).

Lemma cnt_S ms j c kv c' :
  ms !! j = Some (c, kv) -> cnt ms c' (S j) = (cnt ms c' j + (if decide (c = c') then 1 else 0))%nat.
Proof.
  intros H. unfold cnt. rewrite (take_S_r ms j (c, kv)) by done. rewrite list.filter_app, length_app. f_equal.
  rewrite filter_cons, filter_nil. cbn. by destruct (decide (c = c')).
Qed.

Lemma child_split ms c j : child ms c = child (take j ms) c ++ child (drop j ms) c.
Proof. unfold child. rewrite <- fmap_app, <- list.filter_app. by rewrite take_drop. Qed.

Lemma cnt_length ms c j : cnt ms c j = length (child (take j ms) c).
Proof. unfold cnt, child. by rewrite length_fmap. Qed.

Lemma cnt_le ms c j : (cnt ms c j <= length (child ms c))%nat.
Proof. rewrite cnt_length, (child_split ms c j), length_app. lia. Qed.

Lemma cnt_all ms c j : (length ms <= j)%nat -> cnt ms c j = length (child ms c).
Proof. intros H. rewrite cnt_length. by rewrite take_ge. Qed.

Lemma child_at ms j c kv : ms !! j = Some (c, kv) -> child ms c !! cnt ms c j = Some kv.
Proof.
  intros H. rewrite (child_split ms c j), lookup_app_r by (rewrite cnt_length; lia).
  rewrite cnt_length, Nat.sub_diag. rewrite (drop_S ms (c, kv) j) by done.
  unfold child. rewrite filter_cons. cbn. by rewrite decide_True.
Qed.

(** The pairs of a child come from the merged list. *)
Lemma child_origin ms c i kv : child ms c !! i = Some kv -> exists g, ms !! g = Some (c, kv).
Proof.
  intros H. unfold child in H. rewrite list_lookup_fmap in H.
  destruct (filter _ ms !! i) as [[c' kv']|] eqn:E; [|done]. injection H as ->.
  apply list_elem_of_lookup_2 in E. apply list_elem_of_filter in E as [E1 E2]. cbn in E1. subst c'.
  by apply list_elem_of_lookup.
Qed.

(** At a boundary [j] the next pair of a child is at or after [j], the previous
    one before [j]. *)
Lemma child_next ms c j kv : child ms c !! cnt ms c j = Some kv -> exists g, (j <= g)%nat /\ ms !! g = Some (c, kv).
Proof.
  rewrite (child_split ms c j), lookup_app_r, cnt_length, Nat.sub_diag by (rewrite cnt_length; lia).
  intros (g & E)%child_origin. rewrite lookup_drop in E. exists (j + g)%nat. split; [lia|done].
Qed.

Lemma child_prev ms c j m kv :
  cnt ms c j = S m -> child ms c !! m = Some kv -> exists g, (g < j)%nat /\ ms !! g = Some (c, kv).
Proof.
  intros Hm. rewrite (child_split ms c j), lookup_app_l by (rewrite <- cnt_length; lia).
  intros (g & E)%child_origin. exists g. apply lookup_take_Some in E as [E ?]. done.
Qed.

(** ** Choosing a child *)

Section Pick.
Context {S : Type} (better : bytes -> bytes -> bool).
Implicit Types (xs : list (nat * wrapiter S)).

Lemma pick_none xs :
  (forall i w, (i, w) ∈ xs -> wi_valid w = false) -> pick better xs None = None.
Proof.
  induction xs as [|[i w] xs IH]; intros H; [done|]. cbn [pick]. unfold ldb_wrapiter_valid.
  rewrite (H i w) by apply list_elem_of_here. apply IH. intros. eapply H. by apply list_elem_of_further.
Qed.

(** [b] beats every other valid child. *)
Definition beats (b : wrapiter S) (xs : list (nat * wrapiter S)) (c : nat) : Prop :=
  forall i w, (i, w) ∈ xs -> wi_valid w = true ->
    better (wi_key w) (wi_key b) = false /\ (i <> c -> better (wi_key b) (wi_key w) = true).

Lemma pick_stays xs c b : beats b xs c -> pick better xs (Some (c, b)) = Some c.
Proof.
  induction xs as [|[i w] xs IH]; intros H; [done|]. cbn [pick]. unfold ldb_wrapiter_valid.
  assert (beats b xs c) as Hxs by (intros i' w' Hin; apply H; by apply list_elem_of_further).
  destruct (wi_valid w) eqn:V; [|by apply IH].
  destruct (H i w) as [-> _]; [apply list_elem_of_here|done|]. by apply IH.
Qed.

Lemma pick_best xs c b best :
  (c, b) ∈ xs -> wi_valid b = true -> beats b xs c ->
  (forall i w, (i, w) ∈ xs -> i = c -> w = b) ->
  match best with Some (_, w) => better (wi_key b) (wi_key w) = true | None => True end ->
  pick better xs best = Some c.
Proof.
  revert best. induction xs as [|[i w] xs IH]; intros best Hin V H Hu Hb; [by inversion Hin|].
  assert (beats b xs c) as Hxs by (intros i' w' ?; apply H; by apply list_elem_of_further).
  assert (forall i w, (i, w) ∈ xs -> i = c -> w = b) as Hu' by (intros; eapply Hu; [by apply list_elem_of_further|done]).
  cbn [pick]. unfold ldb_wrapiter_valid. destruct (decide (i = c)) as [->|Hne].
  - rewrite (Hu c w) by first [apply list_elem_of_here|done]. rewrite V.
    destruct best as [[i' w']|]; [rewrite Hb|]; by apply pick_stays.
  - apply elem_of_cons in Hin as [Heq|Hin]; [by injection Heq as -> ->|].
    destruct (wi_valid w) eqn:Vw; [|by apply IH].
    destruct (H i w) as [H1 H2]; [apply list_elem_of_here|done|]. specialize (H2 Hne).
    destruct best as [[i' w']|]; [destruct (better (wi_key w) (wi_key w'))|]; by apply IH.
Qed.
End Pick.

Lemma indexed_elem {S} (ws : list (wrapiter S)) i w : (i, w) ∈ indexed ws <-> ws !! i = Some w.
Proof.
  unfold indexed. rewrite list_elem_of_lookup. split.
  - intros [k Hk]. rewrite list_lookup_imap in Hk. destruct (ws !! k) eqn:E; [|done].
    by injection Hk as -> ->.
  - intros H. exists i. by rewrite list_lookup_imap, H.
Qed.

(** ** The merged order *)

Section Merged.
Context {S : Type} (ops : iter_ops S) (dom : bytes -> Prop) (cmp : comparator) `{!ComparatorLaws dom cmp}.
Context (ms : tagged) (n : nat) (rep : nat -> S -> option nat -> Prop).
Context (laws : forall c, (c < n)%nat -> IteratorLaws ops dom cmp (child ms c) (rep c)).
Hypothesis owners : Forall (fun x => (x.1 < n)%nat) ms.
Hypothesis sorted : sorted_pairs cmp (map snd ms).
Hypothesis doms : Forall (fun x => dom x.2.1) ms.

Local Abbreviation kvs := (map snd ms).

Lemma ms_owner g c kv : ms !! g = Some (c, kv) -> (c < n)%nat /\ dom kv.1.
Proof.
  intros H%list_elem_of_lookup_2%list_elem_of_In. rewrite List.Forall_forall in owners, doms.
  split; [by apply (owners (c, kv))|by apply (doms (c, kv))].
Qed.

Lemma ms_lt g h c kv c' kv' :
  ms !! g = Some (c, kv) -> ms !! h = Some (c', kv') -> (g < h)%nat -> ldb_compare cmp kv.1 kv'.1 < 0.
Proof.
  intros Hg Hh. apply (sorted_lookup _ _ g h kv kv' sorted); by rewrite list_lookup_fmap, ?Hg, ?Hh.
Qed.

(** Counting in a child is counting in the merged list. *)
Lemma count_lt_child t c : dom t -> count_lt cmp t (child ms c) = cnt ms c (count_lt cmp t kvs).
Proof.
  intros Ht. clear laws owners. induction ms as [|[c' kv] l IH]; [done|]. cbn [map snd] in *.
  apply StronglySorted_inv in sorted as [Hs Hall]. apply List.Forall_cons_iff in doms as [Dk Dl]. cbn [fst snd] in Dk.
  cbn [count_lt]. unfold child, cnt. rewrite filter_cons. cbn [fst].
  destruct (Z.ltb_spec (ldb_compare cmp kv.1 t) 0) as [Hlt|Hge].
  - rewrite firstn_cons, filter_cons. cbn [fst]. destruct (decide (c' = c)); [|by apply IH].
    rewrite fmap_cons. cbn [count_lt snd length]. rewrite (proj2 (Z.ltb_lt _ _)) by done. f_equal. by apply IH.
  - cbn [take]. rewrite filter_nil. cbn [length].
    assert (forall x, x ∈ snd <$> filter (fun x => x.1 = c) ((c', kv) :: l) -> 0 <= ldb_compare cmp x.1 t) as Hall'.
    { intros x ([c0 kv0] & -> & [_ Hin]%list_elem_of_filter)%list_elem_of_fmap. cbn [snd].
      apply elem_of_cons in Hin as [[= -> ->]|Hin]; [done|].
      rewrite List.Forall_forall in Hall, Dl. pose proof (Dl (c0, kv0) (proj1 (list_elem_of_In _ _) Hin)) as D0.
      assert (ldb_compare cmp kv.1 kv0.1 < 0) as Hk.
      { apply Hall, list_elem_of_In. change kv0 with (snd (c0, kv0)). by apply list_elem_of_fmap_2. }
      apply (compare_le_flip dom cmp); [done..|]. apply (compare_trans _ kv.1); [done..| |lia].
      by apply (compare_le_flip dom cmp). }
    rewrite filter_cons in Hall'. cbn [fst] in Hall'.
    destruct (snd <$> _) as [|x l'] eqn:E; [done|]. cbn [count_lt].
    rewrite (proj2 (Z.ltb_ge _ _)); [done|]. apply Hall', list_elem_of_here.
Qed.

Lemma count_lt_own g c kv : ms !! g = Some (c, kv) -> count_lt cmp kv.1 kvs = g.
Proof.
  intros H. destruct (ms_owner g c kv H) as [_ D]. pose proof (lookup_lt_Some _ _ _ H).
  apply count_lt_unique; [| |by rewrite length_map; lia].
  - intros i kv' Hi E. rewrite list_lookup_fmap in E. destruct (ms !! i) as [[c' kv'']|] eqn:Ei; [|done].
    injection E as <-. by eapply ms_lt.
  - intros kv' E. rewrite list_lookup_fmap, H in E. injection E as <-. by rewrite (compare_refl dom cmp).
Qed.

(** ** The children *)

Definition kid (c : nat) (w : wrapiter S) (p : option nat) : Prop := wrap_at (child ms c) (rep c) w p.

(** The children from [i] on are at the positions [p]. *)
Definition kids_from (i : nat) (ws : list (wrapiter S)) (p : nat -> option nat) : Prop :=
  (i + length ws)%nat = n /\ forall k w, ws !! k = Some w -> kid (i + k) w (p (i + k)%nat).

Definition kids (ws : list (wrapiter S)) (p : nat -> option nat) : Prop := kids_from 0 ws p.

(** Positions at a boundary of the merged list, seen from either side. *)
Definition after (j c : nat) : option nat := position (child ms c) (cnt ms c j).
Definition before (j c : nat) : option nat := position_before (cnt ms c j).

Lemma kids_cons i w ws p : kids_from i (w :: ws) p <-> (i < n)%nat /\ kid i w (p i) /\ kids_from (Datatypes.S i) ws p.
Proof.
  split.
  - intros [L H]. cbn [length] in L. split; [lia|]. split.
    + specialize (H 0%nat w eq_refl). by rewrite Nat.add_0_r in H.
    + split; [lia|]. intros k w' Hk. specialize (H (Datatypes.S k) w' Hk). by rewrite Nat.add_succ_r in H.
  - intros (_ & H0 & L & H). split; [cbn; lia|]. intros [|k] w' Hk.
    + injection Hk as <-. by rewrite Nat.add_0_r.
    + rewrite Nat.add_succ_r. by apply (H k).
Qed.

Lemma for_others_ok f cur i ws p q :
  kids_from i ws p -> p cur = q cur ->
  (forall c w, (c < n)%nat -> c <> cur -> kid c w (p c) -> exists w', f w = Some w' /\ kid c w' (q c)) ->
  exists ws', for_others f cur i ws = Some ws' /\ kids_from i ws' q.
Proof.
  intros H Hcur Hf. revert i H. induction ws as [|w ws IH]; intros i H.
  { exists []. split; [done|]. split; [apply H|done]. }
  apply kids_cons in H as (Hi & H0 & H). destruct (IH _ H) as (ws' & E & K). cbn [for_others].
  destruct (Nat.eqb_spec i cur) as [->|Hne].
  - rewrite E. cbn [mbind option_bind]. exists (w :: ws'). split; [done|]. apply kids_cons.
    rewrite <- Hcur. done.
  - destruct (Hf i w Hi Hne H0) as (w' & Ew & Kw). rewrite Ew. cbn [mbind option_bind]. rewrite E.
    cbn [mbind option_bind]. exists (w' :: ws'). split; [done|]. by apply kids_cons.
Qed.

Lemma for_children_others (f : wrapiter S -> option (wrapiter S)) cur i ws :
  (i + length ws <= cur)%nat -> for_others f cur i ws = for_children f ws.
Proof.
  revert i. induction ws as [|w ws IH]; intros i H; [done|]. cbn [for_others for_children length] in *.
  destruct (Nat.eqb_spec i cur); [lia|]. destruct (f w); [|done]. cbn [mbind option_bind]. by rewrite IH by lia.
Qed.

Lemma for_children_ok f ws p q :
  kids ws p ->
  (forall c w, (c < n)%nat -> kid c w (p c) -> exists w', f w = Some w' /\ kid c w' (q c)) ->
  exists ws', for_children f ws = Some ws' /\ kids ws' q.
Proof.
  intros K Hf. pose proof (proj1 K) as L. rewrite <- (for_children_others f n 0) by lia.
  destruct (for_others_ok f n 0 ws p (fun c => if decide (c = n) then p c else q c)) as (ws' & E & K1 & K2).
  - done.
  - by rewrite decide_True.
  - intros c w Hc Hne. rewrite decide_False by done. by apply Hf.
  - exists ws'. split; [done|]. split; [done|]. intros k w Hk. specialize (K2 k w Hk). cbn in K2.
    rewrite decide_False in K2; [done|]. apply lookup_lt_Some in Hk. lia.
Qed.

(** The entry of the list a child stands at. *)
Lemma kid_entry c w m : (c < n)%nat -> kid c w (Some m) -> exists kv, child ms c !! m = Some kv /\ wi_key w = kv.1.
Proof.
  intros Hc K. pose proof (laws c Hc) as Lc. pose proof (wrap_bound ops dom cmp _ _ w m K) as Hm.
  destruct (lookup_lt_is_Some_2 _ _ Hm) as [kv E]. exists kv. split; [done|]. by apply (wrap_key _ _ _ _ K m).
Qed.

Lemma kids_lookup ws p c : kids ws p -> (c < n)%nat -> exists w, ws !! c = Some w /\ kid c w (p c).
Proof.
  intros [L H] Hc. destruct (lookup_lt_is_Some_2 ws c) as [w E]; [lia|]. exists w. split; [done|]. by apply (H c).
Qed.

Lemma after_next j c m : after j c = Some m -> m = cnt ms c j.
Proof. unfold after, position. case_bool_decide; [|done]. by intros [= <-]. Qed.

Lemma after_own j c kv : ms !! j = Some (c, kv) -> after j c = Some (cnt ms c j).
Proof. intros H. apply position_some. eapply lookup_lt_Some. by apply child_at. Qed.

Lemma before_own j c kv : ms !! j = Some (c, kv) -> before (Datatypes.S j) c = Some (cnt ms c j).
Proof. intros H. unfold before. rewrite (cnt_S ms j c kv c H), decide_True, Nat.add_1_r by done. done. Qed.

Lemma kids_valid ws p i w : kids ws p -> ws !! i = Some w -> (i < n)%nat /\ kid i w (p i) /\ wi_valid w = bool_decide (p i <> None).
Proof.
  intros [L H] Hw. split; [apply lookup_lt_Some in Hw; lia|]. specialize (H i w Hw). split; [done|].
  apply (wrap_valid _ _ _ _ H).
Qed.

(** The chosen child [c] holds the pair at [g0]; every other child stands at a
    pair [worse] than that. *)
Lemma pick_child better xs ws p c kv g0 (worse : nat -> Prop) :
  kids ws p -> (forall i w, (i, w) ∈ xs <-> ws !! i = Some w) ->
  ms !! g0 = Some (c, kv) -> (exists m, p c = Some m /\ child ms c !! m = Some kv) ->
  (forall i m, (i < n)%nat -> i <> c -> p i = Some m ->
    exists g kv', worse g /\ g <> g0 /\ ms !! g = Some (i, kv') /\ child ms i !! m = Some kv') ->
  (forall g i kv', worse g -> g <> g0 -> ms !! g = Some (i, kv') ->
    better kv'.1 kv.1 = false /\ better kv.1 kv'.1 = true) ->
  better kv.1 kv.1 = false ->
  pick better xs None = Some c.
Proof.
  intros K Hxs Hg (m & Hp & Hm) Hothers Hworse Hirr.
  destruct (ms_owner g0 c kv Hg) as [Hc _]. destruct (kids_lookup ws p c K Hc) as (b & Hb & Kb).
  assert (forall i w, (i, w) ∈ xs -> i = c -> w = b) as Hu.
  { intros i w Hin ->. apply Hxs in Hin. rewrite Hb in Hin. by injection Hin. }
  assert (wi_key b = kv.1) as Ek.
  { rewrite Hp in Kb. destruct (kid_entry c b m Hc Kb) as (kv' & E & ->). by simplify_eq. }
  apply (pick_best better xs c b None); [by apply Hxs| |..]; try done.
  - destruct (kids_valid ws p c b K Hb) as (_ & _ & ->). by rewrite Hp.
  - intros i w Hin V. pose proof Hin as Hw. apply Hxs in Hw.
    destruct (decide (i = c)) as [->|Hne].
    { rewrite (Hu c w Hin eq_refl), Ek. done. }
    destruct (kids_valid ws p i w K Hw) as (Hi & Kw & Ew). rewrite Ew in V. apply bool_decide_eq_true in V.
    destruct (p i) as [m'|] eqn:Ep; [|done]. destruct (Hothers i m' Hi Hne Ep) as (g & kv' & Hg' & Hne' & Eg & Em).
    destruct (kid_entry i w m' Hi Kw) as (kv'' & E & ->). simplify_eq. rewrite Ek.
    destruct (Hworse g i kv' Hg' Hne' Eg) as [-> ->]. done.
Qed.

Lemma find_smallest_ok ws j :
  kids ws (after j) ->
  pick (fun x y => ldb_compare cmp x y <? 0) (indexed ws) None = fst <$> (ms !! j).
Proof.
  intros K. destruct (ms !! j) as [[c kv]|] eqn:Ej; cbn.
  - destruct (ms_owner j c kv Ej) as [_ D].
    apply (pick_child _ _ ws (after j) c kv j (fun g => (j <= g)%nat)); [done|apply indexed_elem|done|..].
    + exists (cnt ms c j). split; [by eapply after_own|by apply child_at].
    + intros i m Hi Hne Em. pose proof (after_next _ _ _ Em) as ->. unfold after, position in Em. case_bool_decide as Hlt; [|done].
      destruct (lookup_lt_is_Some_2 _ _ Hlt) as [kv' E]. destruct (child_next ms i j kv' E) as (g & Hg & Eg).
      exists g, kv'. split; [done|]. split; [|done]. intros ->. by simplify_eq.
    + intros g i kv' Hg Hne Eg. pose proof (ms_lt j g _ _ _ _ Ej Eg ltac:(lia)) as Hlt.
      destruct (ms_owner g i kv' Eg) as [_ D']. split; [|by apply Z.ltb_lt].
      apply Z.ltb_ge. apply (compare_le_flip dom cmp); [done..|lia].
    + by rewrite (compare_refl dom cmp).
  - apply pick_none. intros i w Hin%indexed_elem. destruct (kids_valid ws _ i w K Hin) as (_ & _ & ->).
    unfold after. rewrite position_none; [done|]. rewrite cnt_all; [lia|by apply lookup_ge_None].
Qed.

Lemma find_largest_ok ws j :
  kids ws (before j) -> (j <= length ms)%nat ->
  pick (fun x y => 0 <? ldb_compare cmp x y) (rev (indexed ws)) None =
    match j with O => None | Datatypes.S i => fst <$> (ms !! i) end.
Proof.
  intros K Hj. assert (forall i w, (i, w) ∈ rev (indexed ws) <-> ws !! i = Some w) as Hrev.
  { intros i w. rewrite <- indexed_elem, !list_elem_of_In. symmetry. apply List.in_rev. }
  destruct j as [|j].
  - apply pick_none. intros i w Hin%Hrev. destruct (kids_valid ws _ i w K Hin) as (_ & _ & ->). done.
  - destruct (lookup_lt_is_Some_2 ms j ltac:(lia)) as [[c kv] Ej]. rewrite Ej. cbn.
    destruct (ms_owner j c kv Ej) as [_ D].
    apply (pick_child _ _ ws (before (Datatypes.S j)) c kv j (fun g => (g <= j)%nat)); [done|done|done|..].
    + exists (cnt ms c j). split; [by eapply before_own|by apply child_at].
    + intros i m Hi Hne Em. unfold before, position_before in Em.
      destruct (cnt ms i (Datatypes.S j)) as [|m'] eqn:Ec; [done|]. injection Em as ->.
      destruct (lookup_lt_is_Some_2 (child ms i) m) as [kv' E]; [pose proof (cnt_le ms i (Datatypes.S j)); lia|].
      destruct (child_prev ms i (Datatypes.S j) m kv' Ec E) as (g & Hg & Eg).
      exists g, kv'. split; [lia|]. split; [|done]. intros ->. by simplify_eq.
    + intros g i kv' Hg Hne Eg. pose proof (ms_lt g j _ _ _ _ Eg Ej ltac:(lia)) as Hlt.
      destruct (ms_owner g i kv' Eg) as [_ D']. split; [apply Z.ltb_ge; lia|].
      apply Z.ltb_lt. by apply (compare_lt_flip dom cmp).
    + by rewrite (compare_refl dom cmp).
Qed.

(** ** The merging iterator keeps the contract *)

Definition merge_rep (mi : mergeiter S) (p : option nat) : Prop :=
  mi_comparator mi = cmp /\
  match p with
  | Some i => exists c kv, ms !! i = Some (c, kv) /\ mi_current mi = Some c /\
      kids (mi_children mi) (match mi_direction mi with LDB_FORWARD => after i | LDB_REVERSE => before (Datatypes.S i) end)
  | None => mi_current mi = None /\ exists q, kids (mi_children mi) q
  end.

Lemma smallest_rep ws j mi :
  mi_comparator mi = cmp -> mi_children mi = ws -> mi_direction mi = LDB_FORWARD ->
  kids ws (after j) -> merge_rep (ldb_mergeiter_find_smallest mi) (position kvs j).
Proof.
  intros Hc Hw Hd K. unfold ldb_mergeiter_find_smallest, merge_rep. cbn [mi_comparator mi_current mi_children mi_direction].
  split; [done|]. rewrite Hc, Hw, Hd, (find_smallest_ok ws j K). unfold position. rewrite length_map.
  case_bool_decide as Hj.
  - destruct (lookup_lt_is_Some_2 ms j Hj) as [[c kv] E]. exists c, kv. by rewrite E.
  - rewrite (lookup_ge_None_2 ms) by lia. split; [done|by eexists].
Qed.

Lemma largest_rep ws j mi :
  mi_comparator mi = cmp -> mi_children mi = ws -> mi_direction mi = LDB_REVERSE -> (j <= length ms)%nat ->
  kids ws (before j) -> merge_rep (ldb_mergeiter_find_largest mi) (position_before j).
Proof.
  intros Hc Hw Hd Hj K. unfold ldb_mergeiter_find_largest, merge_rep. cbn [mi_comparator mi_current mi_children mi_direction].
  split; [done|]. rewrite Hc, Hw, Hd, (find_largest_ok ws j K Hj). unfold position_before.
  destruct j as [|j]; [split; [done|by eexists]|].
  destruct (lookup_lt_is_Some_2 ms j ltac:(lia)) as [[c kv] E]. exists c, kv. by rewrite E.
Qed.

Lemma rep_kids mi p : merge_rep mi p -> mi_comparator mi = cmp /\ exists q, kids (mi_children mi) q.
Proof. intros [Hc H]. split; [done|]. destruct p; [destruct H as (? & ? & _ & _ & ?); by eexists|apply H]. Qed.

(** Moving the current child and keeping the others. *)
Lemma move_current_ok f mi c p q :
  mi_current mi = Some c -> kids (mi_children mi) p -> (c < n)%nat ->
  (forall c', c' <> c -> p c' = q c') ->
  (forall w, kid c w (p c) -> exists w', f w = Some w' /\ kid c w' (q c)) ->
  exists ws, move_current f mi = Some (set_children mi ws) /\ kids ws q.
Proof.
  intros Ec K Hc Hpq Hf. destruct (kids_lookup _ _ c K Hc) as (w & Hw & Kw).
  destruct (Hf w Kw) as (w' & E & Kw'). unfold move_current. rewrite Ec. cbn [mbind option_bind].
  rewrite Hw. cbn [mbind option_bind]. rewrite E. cbn [mbind option_bind].
  eexists. split; [reflexivity|]. destruct K as [L K]. split; [by rewrite length_insert|].
  intros k v Hk. destruct (decide (k = c)) as [->|Hne].
  - rewrite list_lookup_insert_eq in Hk by (apply lookup_lt_Some in Hw; lia). by injection Hk as <-.
  - rewrite list_lookup_insert_ne in Hk by done. cbn. rewrite <- Hpq by done. by apply (K k).
Qed.

Lemma after_S i c kv c' : ms !! i = Some (c, kv) -> c' <> c -> after i c' = after (Datatypes.S i) c'.
Proof. intros H Hne. unfold after. rewrite (cnt_S ms i c kv c' H), decide_False, Nat.add_0_r by congruence. done. Qed.

Lemma before_S i c kv c' : ms !! i = Some (c, kv) -> c' <> c -> before (Datatypes.S i) c' = before i c'.
Proof. intros H Hne. unfold before. rewrite (cnt_S ms i c kv c' H), decide_False, Nat.add_0_r by congruence. done. Qed.

Lemma place_after_ok c kv i c' w q :
  ms !! i = Some (c, kv) -> (c' < n)%nat -> c' <> c -> kid c' w q ->
  exists w', place_after ops cmp kv.1 w = Some w' /\ kid c' w' (after i c').
Proof.
  intros Hi Hc' Hne K. pose proof (laws c' Hc') as L. destruct (ms_owner i c kv Hi) as [_ D].
  destruct (wrap_seek ops dom cmp _ _ w q kv.1 K D) as (w1 & E & K1).
  rewrite count_lt_child, (count_lt_own i c kv Hi) in K1 by done.
  unfold place_after. rewrite E. cbn [mbind option_bind]. unfold ldb_wrapiter_key, ldb_wrapiter_valid.
  destruct (wi_valid w1) eqn:V; [|by exists w1]. cbn [mbind option_bind].
  rewrite (wrap_valid _ _ _ _ K1) in V. apply bool_decide_eq_true in V.
  destruct (position (child ms c') (cnt ms c' i)) as [m|] eqn:Ep; [|done].
  destruct (kid_entry c' w1 m Hc' K1) as (kv' & Em & Ek). rewrite Ek.
  assert (m = cnt ms c' i) as -> by by apply (after_next i c' m).
  destruct (child_next ms c' i kv' Em) as (g & Hg & Eg).
  assert (g <> i) by (intros ->; by simplify_eq).
  pose proof (ms_lt i g _ _ _ _ Hi Eg ltac:(lia)). rewrite (proj2 (Z.eqb_neq _ _)) by lia.
  exists w1. split; [done|]. unfold after. by rewrite Ep.
Qed.

Lemma place_before_ok c kv i c' w q :
  ms !! i = Some (c, kv) -> (c' < n)%nat -> c' <> c -> kid c' w q ->
  exists w', place_before ops kv.1 w = Some w' /\ kid c' w' (before (Datatypes.S i) c').
Proof.
  intros Hi Hc' Hne K. pose proof (laws c' Hc') as L. destruct (ms_owner i c kv Hi) as [_ D].
  destruct (wrap_seek ops dom cmp _ _ w q kv.1 K D) as (w1 & E & K1).
  rewrite count_lt_child, (count_lt_own i c kv Hi) in K1 by done. rewrite (before_S i c kv) by done.
  unfold place_before. rewrite E. cbn [mbind option_bind]. unfold ldb_wrapiter_valid.
  rewrite (wrap_valid _ _ _ _ K1). unfold position in *. case_bool_decide as Hlt; cbn.
  - apply (wrap_prev ops dom cmp _ _ w1 _ K1).
  - destruct (wrap_last ops dom cmp _ _ w1 _ K1) as (w2 & E2 & K2). exists w2. split; [done|].
    unfold before. pose proof (cnt_le ms c' i). by replace (cnt ms c' i) with (length (child ms c')) by lia.
Qed.

Lemma merge_key mi i c kv :
  merge_rep mi (Some i) -> ms !! i = Some (c, kv) ->
  ldb_mergeiter_key mi = Some kv.1 /\ ldb_mergeiter_value ops mi = Some kv.2.
Proof.
  intros (Hc & c' & kv' & Ei & Ec & K) H. rewrite H in Ei. injection Ei as <- <-.
  destruct (ms_owner i c kv H) as [Hn _]. destruct (kids_lookup _ _ c K Hn) as (w & Hw & Kw).
  unfold ldb_mergeiter_key, ldb_mergeiter_value, current_child. rewrite Ec. cbn [mbind option_bind]. rewrite Hw.
  cbn [mbind option_bind]. pose proof (laws c Hn) as L.
  apply (wrap_entry ops dom cmp _ _ w (cnt ms c i)); [|by apply child_at].
  destruct (mi_direction mi); [by rewrite (after_own i c kv H) in Kw|by rewrite (before_own i c kv H) in Kw].
Qed.

(** Turning around leaves the iterator at the same pair. *)
Lemma turn_forward mi i c :
  merge_rep mi (Some i) -> mi_current mi = Some c ->
  exists mi', (match mi_direction mi with
    | LDB_FORWARD => Some mi
    | LDB_REVERSE =>
      mi_key ← ldb_mergeiter_key mi;
      ws ← for_others (place_after ops (mi_comparator mi) mi_key) c 0 (mi_children mi);
      Some (set_direction (set_children mi ws) LDB_FORWARD)
    end) = Some mi' /\ mi_direction mi' = LDB_FORWARD /\ mi_comparator mi' = cmp /\ mi_current mi' = Some c /\
    kids (mi_children mi') (after i).
Proof.
  intros R Hcur. pose proof R as (Hc & c' & kv & Ei & Ec & K). rewrite Hcur in Ec. injection Ec as <-.
  destruct (mi_direction mi) eqn:Ed; [by exists mi|].
  destruct (merge_key mi i c kv R Ei) as [-> _]. cbn [mbind option_bind]. rewrite Hc.
  destruct (for_others_ok (place_after ops cmp kv.1) c 0 (mi_children mi) (before (Datatypes.S i)) (after i))
    as (ws & E & K'); [done|by rewrite (before_own i c kv), (after_own i c kv)| |].
  - intros c' w Hc' Hne Kw. by apply (place_after_ok c kv i c' w _ Ei Hc' Hne Kw).
  - rewrite E. cbn [mbind option_bind]. by eexists.
Qed.

Lemma turn_backward mi i c :
  merge_rep mi (Some i) -> mi_current mi = Some c ->
  exists mi', (match mi_direction mi with
    | LDB_REVERSE => Some mi
    | LDB_FORWARD =>
      mi_key ← ldb_mergeiter_key mi;
      ws ← for_others (place_before ops mi_key) c 0 (mi_children mi);
      Some (set_direction (set_children mi ws) LDB_REVERSE)
    end) = Some mi' /\ mi_direction mi' = LDB_REVERSE /\ mi_comparator mi' = cmp /\ mi_current mi' = Some c /\
    kids (mi_children mi') (before (Datatypes.S i)).
Proof.
  intros R Hcur. pose proof R as (Hc & c' & kv & Ei & Ec & K). rewrite Hcur in Ec. injection Ec as <-.
  destruct (mi_direction mi) eqn:Ed; [|by exists mi].
  destruct (merge_key mi i c kv R Ei) as [-> _]. cbn [mbind option_bind].
  destruct (for_others_ok (place_before ops kv.1) c 0 (mi_children mi) (after i) (before (Datatypes.S i)))
    as (ws & E & K'); [done|by rewrite (before_own i c kv), (after_own i c kv)| |].
  - intros c' w Hc' Hne Kw. by apply (place_before_ok c kv i c' w _ Ei Hc' Hne Kw).
  - rewrite E. cbn [mbind option_bind]. by eexists.
Qed.

Lemma mergeiter_next_ok mi i :
  merge_rep mi (Some i) -> exists mi', ldb_mergeiter_next ops mi = Some mi' /\ merge_rep mi' (position kvs (i + 1)).
Proof.
  intros R. pose proof R as (Hc & c & kv & Ei & Ec & K). destruct (ms_owner i c kv Ei) as [Hn _].
  destruct (turn_forward mi i c R Ec) as (mi1 & E1 & D1 & C1 & Ec1 & K1).
  unfold ldb_mergeiter_next. rewrite Ec. cbn [mbind option_bind]. rewrite E1. cbn [mbind option_bind].
  destruct (move_current_ok (ldb_wrapiter_next ops) mi1 c (after i) (after (Datatypes.S i))) as (ws & E2 & K2);
    [done|done|done| | |].
  - intros c' Hne. by apply (after_S i c kv).
  - intros w Kw. rewrite (after_own i c kv Ei) in Kw. pose proof (laws c Hn) as L.
    unfold after. rewrite (cnt_S ms i c kv c Ei), decide_True by done. by apply (wrap_next ops dom cmp).
  - rewrite E2. cbn [mbind option_bind]. eexists. split; [reflexivity|]. rewrite Nat.add_1_r.
    by apply (smallest_rep ws).
Qed.

Lemma mergeiter_prev_ok mi i :
  merge_rep mi (Some i) -> exists mi', ldb_mergeiter_prev ops mi = Some mi' /\ merge_rep mi' (position_before i).
Proof.
  intros R. pose proof R as (Hc & c & kv & Ei & Ec & K). destruct (ms_owner i c kv Ei) as [Hn _].
  destruct (turn_backward mi i c R Ec) as (mi1 & E1 & D1 & C1 & Ec1 & K1).
  unfold ldb_mergeiter_prev. rewrite Ec. cbn [mbind option_bind]. rewrite E1. cbn [mbind option_bind].
  destruct (move_current_ok (ldb_wrapiter_prev ops) mi1 c (before (Datatypes.S i)) (before i)) as (ws & E2 & K2);
    [done|done|done| | |].
  - intros c' Hne. by apply (before_S i c kv).
  - intros w Kw. rewrite (before_own i c kv Ei) in Kw. pose proof (laws c Hn) as L. by apply (wrap_prev ops dom cmp _ _ w).
  - rewrite E2. cbn [mbind option_bind]. eexists. split; [reflexivity|]. pose proof (lookup_lt_Some _ _ _ Ei).
    apply (largest_rep ws); try done. lia.
Qed.

Lemma children_status_ok i ws p : kids_from i ws p -> children_status ops ws = LDB_OK.
Proof.
  revert i. induction ws as [|w ws IH]; intros i K; [done|]. apply kids_cons in K as (Hi & K0 & K).
  cbn [children_status]. pose proof (laws i Hi) as L. rewrite (wrap_status ops dom cmp _ _ w _ K0). cbn. by apply (IH _ K).
Qed.

Lemma mergeiter_laws : IteratorLaws (ldb_mergeiter_table ops) dom cmp kvs merge_rep.
Proof.
  split; cbn [ldb_mergeiter_table it_valid it_status it_key it_value it_first it_last it_seek it_next it_prev].
  - intros mi i (_ & c & kv & E & _). rewrite length_map. by eapply lookup_lt_Some.
  - intros mi [i|] (_ & R); unfold ldb_mergeiter_valid.
    + destruct R as (c & kv & _ & -> & _). done.
    + destruct R as (-> & _). done.
  - intros mi p R. destruct (rep_kids mi p R) as [_ [q K]]. by apply (children_status_ok 0 _ q).
  - intros mi i kv R E. rewrite list_lookup_fmap in E. destruct (ms !! i) as [[c kv']|] eqn:Ei; [|done].
    injection E as <-. by apply (merge_key mi i c).
  - intros mi p R. destruct (rep_kids mi p R) as [Hc [q K]].
    destruct (for_children_ok (ldb_wrapiter_first ops) _ q (after 0) K) as (ws & E & K').
    + intros c w Hn Kw. pose proof (laws c Hn) as L. by apply (wrap_first ops dom cmp _ _ w (q c)).
    + unfold ldb_mergeiter_first. rewrite E. cbn [mbind option_bind]. eexists. split; [reflexivity|].
      by apply (smallest_rep ws 0 (set_direction (set_children mi ws) LDB_FORWARD)).
  - intros mi p R. destruct (rep_kids mi p R) as [Hc [q K]]. rewrite length_map.
    destruct (for_children_ok (ldb_wrapiter_last ops) _ q (before (length ms)) K) as (ws & E & K').
    + intros c w Hn Kw. pose proof (laws c Hn) as L. unfold before. rewrite cnt_all by done.
      by apply (wrap_last ops dom cmp _ _ w (q c)).
    + unfold ldb_mergeiter_last. rewrite E. cbn [mbind option_bind]. eexists. split; [reflexivity|].
      by apply (largest_rep ws (length ms) (set_direction (set_children mi ws) LDB_REVERSE)).
  - intros mi p t R Ht. destruct (rep_kids mi p R) as [Hc [q K]].
    destruct (for_children_ok (fun w => ldb_wrapiter_seek ops w t) _ q (after (count_lt cmp t kvs)) K) as (ws & E & K').
    + intros c w Hn Kw. pose proof (laws c Hn) as L. unfold after. rewrite <- count_lt_child by done.
      by apply (wrap_seek ops dom cmp _ _ w (q c)).
    + unfold ldb_mergeiter_seek. rewrite E. cbn [mbind option_bind]. eexists. split; [reflexivity|].
      by apply (smallest_rep ws _ (set_direction (set_children mi ws) LDB_FORWARD)).
  - apply mergeiter_next_ok.
  - apply mergeiter_prev_ok.
Qed.
End Merged.

(** ** From lists to interleavings *)

Definition tag (ls : list pairs) : tagged := concat (imap (fun c l => map (pair c) l) ls).

Lemma tag_snd ls : map snd (tag ls) = concat ls.
Proof.
  unfold tag. rewrite concat_map. f_equal. apply list_eq. intros c.
  rewrite list_lookup_fmap, list_lookup_imap. destruct (ls !! c) as [l|]; [|done]. cbn. f_equal.
  rewrite map_map. apply map_id.
Qed.

Lemma child_app xs ys c : child (xs ++ ys) c = child xs c ++ child ys c.
Proof. unfold child. by rewrite list.filter_app, fmap_app. Qed.

Lemma child_map_pair c c' l : child (map (pair c') l) c = if decide (c' = c) then l else [].
Proof.
  induction l as [|kv l IH]; cbn [map]; [by destruct (decide _)|]. unfold child in *.
  rewrite filter_cons. cbn [fst]. destruct (decide (c' = c)); [|done]. rewrite fmap_cons, IH. done.
Qed.

Lemma child_other ls g z :
  (forall k, g k <> z) -> child (concat (imap (fun k l => map (pair (g k)) l) ls)) z = [].
Proof.
  revert g. induction ls as [|l ls IH]; intros g Hne; [done|]. rewrite imap_cons. cbn [concat].
  rewrite child_app, child_map_pair, decide_False by apply Hne. by apply (IH (fun k => g (S k))).
Qed.

Lemma child_tag_from ls f c :
  (forall k k', f k = f k' -> k = k') ->
  child (concat (imap (fun k l => map (pair (f k)) l) ls)) (f c) = default [] (ls !! c).
Proof.
  revert f c. induction ls as [|l ls IH]; intros f c Hf; [done|]. rewrite imap_cons. cbn [concat].
  rewrite child_app, child_map_pair. destruct c as [|c].
  - rewrite decide_True by done. transitivity (l ++ []); [f_equal|apply app_nil_r].
    apply (child_other ls (fun k => f (S k))). by intros k ?%Hf.
  - rewrite decide_False by (intros ?%Hf; done). cbn. apply (IH (fun k => f (S k)) c). intros k k' ?%Hf. lia.
Qed.

Lemma child_tag ls c : child (tag ls) c = default [] (ls !! c).
Proof. by apply (child_tag_from ls id). Qed.

Lemma tag_owners ls : Forall (fun x => (x.1 < length ls)%nat) (tag ls).
Proof.
  apply List.Forall_forall. intros [c kv] (l & Hl & Hin)%List.in_concat. cbn.
  apply list_elem_of_In, list_elem_of_lookup in Hl as [k Hk]. rewrite list_lookup_imap in Hk.
  destruct (ls !! k) as [l'|] eqn:E; [|done]. injection Hk as <-.
  apply List.in_map_iff in Hin as (kv' & [= <- _] & _). by eapply lookup_lt_Some.
Qed.

Lemma sorted_filter {A} (R : A -> A -> Prop) (P : A -> Prop) `{!forall x, Decision (P x)} xs :
  StronglySorted R xs -> StronglySorted R (filter P xs).
Proof.
  induction 1 as [|x xs Hs IH Hall]; [constructor|]. rewrite filter_cons. destruct (decide (P x)); [|done].
  constructor; [done|]. rewrite List.Forall_forall in *. intros y Hy%list_elem_of_In. apply Hall, list_elem_of_In.
  by apply list_elem_of_filter in Hy as [_ ?].
Qed.

Lemma sorted_map {A B} (f : A -> B) (R : B -> B -> Prop) xs :
  StronglySorted R (map f xs) <-> StronglySorted (fun x y => R (f x) (f y)) xs.
Proof.
  induction xs as [|x xs IH]; cbn [map]; [split; constructor|]. split.
  - intros [Hs Hall]%StronglySorted_inv. constructor; [by apply IH|]. by rewrite List.Forall_map in Hall.
  - intros [Hs Hall]%StronglySorted_inv. constructor; [by apply IH|]. by rewrite List.Forall_map.
Qed.

(** A sorted list that has the pairs of the sorted lists [ls] interleaves them. *)
Lemma interleaving dom cmp `{!ComparatorLaws dom cmp} ls kvs :
  Permutation kvs (concat ls) -> sorted_pairs cmp kvs -> Forall (sorted_pairs cmp) ls ->
  Forall (fun kv => dom kv.1) kvs ->
  exists ms, map snd ms = kvs /\ Forall (fun x => (x.1 < length ls)%nat) ms /\
    Forall (fun x => dom x.2.1) ms /\ forall c, child ms c = default [] (ls !! c).
Proof.
  intros Hp Hs Hls Hd. rewrite <- tag_snd in Hp. apply Permutation_map_inv in Hp as (ms & -> & Hp).
  apply (proj1 (List.Forall_map snd (fun kv => dom kv.1) ms)) in Hd.
  exists ms. split; [done|]. split; [by rewrite <- Hp; apply tag_owners|]. split; [done|]. intros c.
  rewrite <- child_tag. assert (Permutation (child ms c) (child (tag ls) c)) as Hc
    by (unfold child; by rewrite Hp).
  assert (forall z, z ∈ child ms c -> dom z.1) as HD.
  { intros z (k & Hk)%list_elem_of_lookup. apply child_origin in Hk as (g' & Hg').
    rewrite List.Forall_forall in Hd. apply (Hd (c, z)), list_elem_of_In. by eapply list_elem_of_lookup_2. }
  apply (StronglySorted_unique_strong (fun a b => ldb_compare cmp a.1 b.1 < 0)); [| | |done].
  - intros x y Hx Hy Hxy Hyx. rewrite <- Hc in Hy.
    apply (compare_lt_flip dom cmp) in Hxy; [lia|by apply HD..].
  - apply sorted_map, sorted_filter. by apply sorted_map in Hs.
  - rewrite child_tag. destruct (ls !! c) as [l|] eqn:E; [|constructor]. cbn.
    rewrite List.Forall_forall in Hls. apply Hls, list_elem_of_In. by eapply list_elem_of_lookup_2.
Qed.

Lemma mergeiter_init_ok {S} (ops : iter_ops S) dom cmp ms children rep :
  (forall c s, children !! c = Some s -> IteratorLaws ops dom cmp (child ms c) (rep c) /\ exists p, rep c s p) ->
  exists mi, ldb_mergeiter_init ops cmp children = Some mi /\ merge_rep cmp ms (length children) rep mi None.
Proof.
  intros H. unfold ldb_mergeiter_init.
  assert (forall i l, (i + length l)%nat = length children ->
    (forall k s, l !! k = Some s -> children !! (i + k)%nat = Some s) ->
    exists ws q, mapM (fun s => ldb_wrapiter_init ops (Some s)) l = Some ws /\
      kids_from ms (length children) rep i ws q) as Hm.
  { intros i l. revert i. induction l as [|s l IH]; intros i Hi Hl; [by exists [], (fun _ => None)|].
    destruct (H i s) as [L [p Hp]]; [specialize (Hl 0%nat s eq_refl); by rewrite Nat.add_0_r in Hl|].
    destruct (wrap_init ops dom cmp _ _ s p Hp) as (w & E & K).
    destruct (IH (Datatypes.S i)) as (ws & q & E2 & K2); [cbn in Hi; lia| |].
    { intros k s' Hk. specialize (Hl (Datatypes.S k) s' Hk). by rewrite Nat.add_succ_r in Hl. }
    exists (w :: ws), (fun c => if decide (c = i) then p else q c). split.
    - cbn [mapM]. rewrite E. cbn [mbind option_bind]. by rewrite E2.
    - apply kids_cons. split; [cbn in Hi; lia|]. split; [by rewrite decide_True|].
      destruct K2 as [L2 K2]. split; [done|]. intros k w' Hk. rewrite decide_False by lia. by apply K2. }
  destruct (Hm 0%nat children) as (ws & q & E & K); [done|done|]. rewrite E. cbn [mbind option_bind].
  eexists. split; [reflexivity|]. split; [done|]. split; [done|]. by exists q.
Qed.

(** What [ldb_mergeiter_create] returns iterates over all pairs of the children. *)
Lemma mergeiter_create_ok {S} (ops : iter_ops S) dom cmp `{!ComparatorLaws dom cmp} children ls kvs :
  Forall2 (fun s l => exists p, any_rep ops dom cmp l s p) children ls ->
  Permutation kvs (concat ls) -> sorted_pairs cmp kvs -> Forall (sorted_pairs cmp) ls -> Forall (fun kv => dom kv.1) kvs ->
  exists m q, ldb_mergeiter_create ops cmp children = Some m /\ any_rep (merged_table ops) dom cmp kvs (merged_iter m) q.
Proof.
  intros Hk Hp Hs Hls Hd. pose proof (Forall2_length Hk) as Hlen. unfold ldb_mergeiter_create, merged_table.
  destruct children as [|s1 [|s2 children]].
  - destruct ls; [|done]. apply Permutation_sym, Permutation_nil in Hp as ->. exists (MergedEmpty LDB_OK), None. split; [done|].
    apply any_rep_inl. exists (fun s p => s = LDB_OK /\ p = None). by split; [apply _|].
  - destruct ls as [|l [|]]; [done| |done]. cbn in Hp. rewrite app_nil_r in Hp. apply List.Forall_cons_iff in Hls as [Hl _].
    assert (kvs = l) as <-.
    { apply (StronglySorted_unique_strong (fun a b => ldb_compare cmp a.1 b.1 < 0)); [|done..]. intros a b Ha Hb H1 H2.
      assert (forall kv, kv ∈ kvs -> dom kv.1) as Dk by (intros kv H%list_elem_of_In; by eapply List.Forall_forall in H; [|exact Hd]).
      rewrite <- Hp in Hb. apply (compare_lt_flip dom cmp) in H2; [lia|auto..]. }
    exists (MergedChild s1). inversion Hk as [|? ? ? ? [p R] _]; subst. exists p. split; [done|]. apply any_rep_inr. by apply any_rep_inl.
  - set (children' := s1 :: s2 :: children) in *.
    set (rep := fun c s p => match ls !! c with Some l => any_rep ops dom cmp l s p | None => False end).
    assert (forall c s l, children' !! c = Some s -> ls !! c = Some l -> IteratorLaws ops dom cmp l (rep c) /\ exists p, rep c s p) as HK.
    { intros c s l Hc Hl. unfold rep. rewrite Hl. split; [apply any_rep_laws|].
      exact (Forall2_lookup_lr _ _ _ _ _ _ Hk Hc Hl). }
    destruct (interleaving dom cmp ls kvs Hp Hs Hls Hd) as (ms & <- & Hown & Hdom & Hchild).
    assert (forall c s, children' !! c = Some s -> IteratorLaws ops dom cmp (child ms c) (rep c) /\ exists p, rep c s p) as HL.
    { intros c s Hc. destruct (lookup_lt_is_Some_2 ls c) as [l El]; [apply lookup_lt_Some in Hc; lia|]. rewrite Hchild, El. by apply HK. }
    destruct (mergeiter_init_ok ops dom cmp ms children' rep HL) as (mi & E & R). rewrite E. exists (MergedIter mi), None. split; [done|].
    apply any_rep_inr, any_rep_inr. exists (merge_rep cmp ms (length children') rep). split; [|done].
    rewrite <- Hlen in Hown. apply mergeiter_laws; try done. intros c Hc.
    destruct (lookup_lt_is_Some_2 children' c Hc) as [s Es]. by apply (HL c s).
Qed.

(** ** Properties *)

(** C28: The merging iterator over two or more children that keep the iterator
    contract keeps it itself, over the sorted interleaving of their lists: it
    visits every pair of every child exactly once, in order, in both
    directions and across changes of direction, and [seek] finds the first key
    at or after the target in any child. *)
Theorem merging_iterator_correct {S} (ops : iter_ops S) dom cmp `{!ComparatorLaws dom cmp} children ls kvs rep :
  (2 <= length children)%nat -> length ls = length children ->
  (forall c s l, children !! c = Some s -> ls !! c = Some l ->
    IteratorLaws ops dom cmp l (rep c) /\ exists p, rep c s p) ->
  Permutation kvs (concat ls) -> sorted_pairs cmp kvs -> Forall (sorted_pairs cmp) ls ->
  Forall (fun kv => dom kv.1) kvs ->
  exists mi mrep, ldb_mergeiter_create ops cmp children = Some (MergedIter mi) /\ mrep mi None /\
    IteratorLaws (ldb_mergeiter_table ops) dom cmp kvs mrep.
Proof.
  intros Hn Hlen Hkids Hp Hs Hls Hd.
  destruct (interleaving dom cmp ls kvs Hp Hs Hls Hd) as (ms & <- & Hown & Hdom & Hchild). rewrite Hlen in Hown.
  assert (forall c s, children !! c = Some s -> IteratorLaws ops dom cmp (child ms c) (rep c) /\ exists p, rep c s p) as HL.
  { intros c s Hc. destruct (lookup_lt_is_Some_2 ls c) as [l El]; [apply lookup_lt_Some in Hc; lia|].
    rewrite Hchild, El. by apply Hkids. }
  destruct (mergeiter_init_ok ops dom cmp ms children rep HL) as (mi & E & R).
  exists mi, (merge_rep cmp ms (length children) rep). split; [|split; [done|]].
  - unfold ldb_mergeiter_create. destruct children as [|s1 [|s2 children]]; [cbn in Hn; lia..|]. by rewrite E.
  - apply mergeiter_laws; try done. intros c Hc.
    destruct (lookup_lt_is_Some_2 children c Hc) as [s Es]. by apply (HL c s).
Qed.

Lemma merging_iterator_correct_witness :
  let l1 := [([Byte.x61], [Byte.x01]); ([Byte.x63], [Byte.x02])] in
  let l2 := [([Byte.x62], [Byte.x03])] in
  exists mi mrep,
    ldb_mergeiter_create (listiter_table bytewise_comparator) bytewise_comparator [(l1, None); (l2, None)]
      = Some (MergedIter mi) /\ mrep mi None /\
    IteratorLaws (ldb_mergeiter_table (listiter_table bytewise_comparator)) (fun _ => True) bytewise_comparator
      [([Byte.x61], [Byte.x01]); ([Byte.x62], [Byte.x03]); ([Byte.x63], [Byte.x02])] mrep.
Proof.
  intros l1 l2. apply (merging_iterator_correct (listiter_table bytewise_comparator) (fun _ => True)
    bytewise_comparator [(l1, None); (l2, None)] [l1; l2] _
    (fun c => listiter_rep (default [] ([l1; l2] !! c)))).
  - cbn. lia.
  - reflexivity.
  - intros [|[|c]] s l; [| |intros H; discriminate H]; intros [= <-] [= <-];
      (split; [apply listiter_laws|exists None; split; [reflexivity|exact I]]).
  - apply perm_skip. apply perm_swap.
  - repeat constructor.
  - repeat constructor.
  - repeat constructor.
Defined.
