(* ===== verification/TwoLevel.v ===== *)
(** * The two-level iterator

    Models [src/engine/src/table/two_level_iterator.c]: an iterator over an
    index whose values are handles of blocks, and an iterator over the block
    the index stands at.  Tables and levels of tables are read through it.

    The block function (with its argument and read options) is a parameter: a
    function from handles to iterators, [None] for a [NULL] iterator. *)

From stdpp Require Import sorting.
From S2P Require Import Prelude Coding Status Comparator Iterator IteratorWrapper.
#[local] Open Scope Z_scope.

Section TwoLevel.
Context {I D : Type} (iops : iter_ops I) (dops : iter_ops D) (block_function : bytes -> option D).

(** [ldb_twoiter_t] *)
Record twoiter := Twoiter {
  ti_status : Z;
  ti_index : wrapiter I;
  ti_data : wrapiter D;
  ti_handle : bytes
}.

Definition data_null (it : twoiter) : bool := match wi_iter (ti_data it) with None => true | Some _ => false end.

Definition ldb_twoiter_valid (it : twoiter) : bool := ldb_wrapiter_valid (ti_data it).

Definition ldb_twoiter_key (it : twoiter) : option bytes :=
  if ldb_twoiter_valid it then ldb_wrapiter_key (ti_data it) else None.

Definition ldb_twoiter_value (it : twoiter) : option bytes :=
  if ldb_twoiter_valid it then ldb_wrapiter_value dops (ti_data it) else None.

Definition ldb_twoiter_status (it : twoiter) : Z :=
  let rc := default LDB_OK (ldb_wrapiter_status iops (ti_index it)) in
  if negb (rc =? LDB_OK) then rc
  else if negb (data_null it) then
    let rc := default LDB_OK (ldb_wrapiter_status dops (ti_data it)) in
    if negb (rc =? LDB_OK) then rc else ti_status it
  else ti_status it.

Definition ldb_twoiter_saverr (it : twoiter) (status : Z) : twoiter :=
  if (ti_status it =? LDB_OK) && negb (status =? LDB_OK)
  then Twoiter status (ti_index it) (ti_data it) (ti_handle it) else it.

Definition ldb_twoiter_init (index_iter : I) : option twoiter :=
  w ← ldb_wrapiter_init iops (Some index_iter);
  d ← ldb_wrapiter_init dops None;
  Some (Twoiter LDB_OK w d []).

Definition ldb_twoiter_set_data_iter (it : twoiter) (data_iter : option D) : option twoiter :=
  it ← (if data_null it then Some it
        else rc ← ldb_wrapiter_status dops (ti_data it); Some (ldb_twoiter_saverr it rc));
  d ← ldb_wrapiter_set dops (ti_data it) data_iter;
  Some (Twoiter (ti_status it) (ti_index it) d (ti_handle it)).

Definition ldb_twoiter_init_data_block (it : twoiter) : option twoiter :=
  if negb (ldb_wrapiter_valid (ti_index it)) then ldb_twoiter_set_data_iter it None
  else
    handle ← ldb_wrapiter_value iops (ti_index it);
    if negb (data_null it) && slice_equal handle (ti_handle it) then Some it
    else
      let data_iter := block_function handle in
      ldb_twoiter_set_data_iter (Twoiter (ti_status it) (ti_index it) (ti_data it) handle) data_iter.

Definition set_index (it : twoiter) (w : wrapiter I) : twoiter :=
  Twoiter (ti_status it) w (ti_data it) (ti_handle it).

(** [if (data_iter.iter != NULL) f(&data_iter)] *)
Definition on_data (f : wrapiter D -> option (wrapiter D)) (it : twoiter) : option twoiter :=
  if data_null it then Some it
  else d ← f (ti_data it); Some (Twoiter (ti_status it) (ti_index it) d (ti_handle it)).

(** The loops of [skip_forward] and [skip_backward]: every turn moves the
    index. *)
Fixpoint skip (move : wrapiter I -> option (wrapiter I)) (start : wrapiter D -> option (wrapiter D))
    (fuel : nat) (it : twoiter) : option twoiter :=
  match fuel with
  | O => None
  | S fuel =>
    if data_null it || negb (ldb_wrapiter_valid (ti_data it)) then
      if negb (ldb_wrapiter_valid (ti_index it)) then ldb_twoiter_set_data_iter it None
      else
        w ← move (ti_index it);
        it ← ldb_twoiter_init_data_block (set_index it w);
        it ← on_data start it;
        skip move start fuel it
    else Some it
  end.

Definition ldb_twoiter_skip_forward : nat -> twoiter -> option twoiter :=
  skip (ldb_wrapiter_next iops) (ldb_wrapiter_first dops).

Definition ldb_twoiter_skip_backward : nat -> twoiter -> option twoiter :=
  skip (ldb_wrapiter_prev iops) (ldb_wrapiter_last dops).

Section Operations.
(** A bound on the turns of the loops: one more than the entries of the
    index. *)
Context (fuel : nat).

Definition ldb_twoiter_seek (it : twoiter) (target : bytes) : option twoiter :=
  w ← ldb_wrapiter_seek iops (ti_index it) target;
  it ← ldb_twoiter_init_data_block (set_index it w);
  it ← on_data (fun d => ldb_wrapiter_seek dops d target) it;
  ldb_twoiter_skip_forward fuel it.

Definition ldb_twoiter_first (it : twoiter) : option twoiter :=
  w ← ldb_wrapiter_first iops (ti_index it);
  it ← ldb_twoiter_init_data_block (set_index it w);
  it ← on_data (ldb_wrapiter_first dops) it;
  ldb_twoiter_skip_forward fuel it.

Definition ldb_twoiter_last (it : twoiter) : option twoiter :=
  w ← ldb_wrapiter_last iops (ti_index it);
  it ← ldb_twoiter_init_data_block (set_index it w);
  it ← on_data (ldb_wrapiter_last dops) it;
  ldb_twoiter_skip_backward fuel it.

Definition ldb_twoiter_next (it : twoiter) : option twoiter :=
  if ldb_twoiter_valid it then
    d ← ldb_wrapiter_next dops (ti_data it);
    ldb_twoiter_skip_forward fuel (Twoiter (ti_status it) (ti_index it) d (ti_handle it))
  else None.

Definition ldb_twoiter_prev (it : twoiter) : option twoiter :=
  if ldb_twoiter_valid it then
    d ← ldb_wrapiter_prev dops (ti_data it);
    ldb_twoiter_skip_backward fuel (Twoiter (ti_status it) (ti_index it) d (ti_handle it))
  else None.

Definition ldb_twoiter_table : iter_ops twoiter := {|
  it_valid := ldb_twoiter_valid;
  it_first := ldb_twoiter_first;
  it_last := ldb_twoiter_last;
  it_seek := ldb_twoiter_seek;
  it_next := ldb_twoiter_next;
  it_prev := ldb_twoiter_prev;
  it_key := ldb_twoiter_key;
  it_value := ldb_twoiter_value;
  it_status := ldb_twoiter_status
|}.
End Operations.

(** ** Indexed blocks *)

Context (dom : bytes -> Prop) (cmp : comparator) `{!ComparatorLaws dom cmp}.
Context (ix : pairs) (irep : I -> option nat -> Prop) `{!IteratorLaws iops dom cmp ix irep}.
Context (contents : bytes -> pairs) (drep : bytes -> D -> option nat -> Prop).

Definition block_of (b : nat) : pairs := from_option (fun e => contents e.2) [] (ix !! b).

(** The pairs of all blocks, and where block [b] starts. *)
Definition all_pairs : pairs := concat (map (fun e => contents e.2) ix).
Definition block_start (b : nat) : nat := length (concat (map (fun e => contents e.2) (take b ix))).

(** Every handle of the index opens its block. *)
Hypothesis opens : forall e, e ∈ ix -> IteratorLaws dops dom cmp (contents e.2) (drep e.2) /\
  exists s p, block_function e.2 = Some s /\ drep e.2 s p.

(** The index keys separate the blocks. *)
Hypothesis at_most : forall b e kv, ix !! b = Some e -> kv ∈ contents e.2 -> ldb_compare cmp kv.1 e.1 <= 0.
Hypothesis more_than : forall b e e' kv, ix !! b = Some e -> ix !! S b = Some e' -> kv ∈ contents e'.2 ->
  ldb_compare cmp e.1 kv.1 < 0.
Hypothesis ix_sorted : sorted_pairs cmp ix.
Hypothesis ix_dom : Forall (fun e => dom e.1) ix.
Hypothesis all_dom : Forall (fun kv => dom kv.1) all_pairs.

Lemma block_start_S b e : ix !! b = Some e -> block_start (S b) = (block_start b + length (contents e.2))%nat.
Proof.
  intros H. unfold block_start. rewrite (take_S_r ix b e) by done.
  rewrite map_app, concat_app, length_app. cbn [map concat]. by rewrite app_nil_r.
Qed.

Lemma block_start_all b : (length ix <= b)%nat -> block_start b = length all_pairs.
Proof. intros H. unfold block_start. by rewrite take_ge. Qed.

Lemma all_pairs_split b e :
  ix !! b = Some e ->
  all_pairs = concat (map (fun e => contents e.2) (take b ix)) ++ contents e.2 ++
    concat (map (fun e => contents e.2) (drop (S b) ix)).
Proof.
  intros H. unfold all_pairs. rewrite <- (take_drop_middle ix b e H) at 1.
  by rewrite map_app, concat_app.
Qed.

Lemma all_pairs_at b e i : ix !! b = Some e -> (i < length (contents e.2))%nat ->
  all_pairs !! (block_start b + i)%nat = contents e.2 !! i.
Proof.
  intros H Hi. rewrite (all_pairs_split b e H). unfold block_start. rewrite lookup_app_r by lia.
  rewrite lookup_app_l by lia. f_equal. lia.
Qed.

Lemma block_start_le b : (block_start b <= length all_pairs)%nat.
Proof.
  unfold block_start, all_pairs. rewrite <- (take_drop b ix) at 2. rewrite map_app, concat_app, length_app. lia.
Qed.

Lemma block_bound b e n : ix !! b = Some e -> (n < length (contents e.2))%nat -> (block_start b + n < length all_pairs)%nat.
Proof. intros H Hn. pose proof (block_start_S b e H). pose proof (block_start_le (S b)). lia. Qed.

(** Every pair lies in a block. *)
Lemma all_pairs_locate g kv :
  all_pairs !! g = Some kv ->
  exists b e i, ix !! b = Some e /\ contents e.2 !! i = Some kv /\ g = (block_start b + i)%nat.
Proof.
  intros H. assert (forall n, (n <= length ix)%nat -> (g < block_start n)%nat ->
    exists b e i, ix !! b = Some e /\ contents e.2 !! i = Some kv /\ g = (block_start b + i)%nat) as Hloc.
  { induction n as [|n IH]; intros Hn Hg; [change (block_start 0) with 0%nat in Hg; lia|].
    destruct (decide (g < block_start n)%nat); [apply IH; lia|].
    destruct (lookup_lt_is_Some_2 ix n ltac:(lia)) as [e He]. rewrite (block_start_S n e He) in Hg.
    exists n, e, (g - block_start n)%nat. split; [done|]. split; [|lia].
    rewrite <- (all_pairs_at n e) by (done || lia). rewrite <- H. f_equal. lia. }
  apply (Hloc (length ix)); [done|]. rewrite block_start_all by done. by eapply lookup_lt_Some.
Qed.

Lemma block_start_mono b b' : (b <= b')%nat -> (block_start b <= block_start b')%nat.
Proof.
  intros H. unfold block_start. rewrite <- (take_drop b (take b' ix)), take_take, Nat.min_l by lia.
  rewrite map_app, concat_app, length_app. lia.
Qed.

Lemma ix_elem b e : ix !! b = Some e -> e ∈ ix /\ dom e.1.
Proof.
  intros H. apply list_elem_of_lookup_2 in H. split; [done|]. rewrite List.Forall_forall in ix_dom.
  by apply ix_dom, list_elem_of_In.
Qed.

Lemma pair_dom b e i kv : ix !! b = Some e -> contents e.2 !! i = Some kv -> dom kv.1.
Proof.
  intros He Hi. rewrite List.Forall_forall in all_dom. apply all_dom, list_elem_of_In, list_elem_of_lookup.
  exists (block_start b + i)%nat. rewrite (all_pairs_at b e); [done|done|by eapply lookup_lt_Some].
Qed.

(** Blocks before that of the target are below it, blocks after it are not. *)
Lemma block_below t b e i kv :
  dom t -> (b < count_lt cmp t ix)%nat -> ix !! b = Some e -> contents e.2 !! i = Some kv -> ldb_compare cmp kv.1 t < 0.
Proof.
  intros Ht Hb He Hi. destruct (ix_elem b e He) as [_ De].
  apply (compare_le_lt_trans dom cmp _ e.1); [by eapply pair_dom|done|done| |].
  - apply (at_most b); [done|by eapply list_elem_of_lookup_2].
  - by apply (count_lt_below cmp t ix b).
Qed.

Lemma block_above t b e i kv :
  dom t -> (count_lt cmp t ix < b)%nat -> ix !! b = Some e -> contents e.2 !! i = Some kv -> 0 < ldb_compare cmp kv.1 t.
Proof.
  intros Ht Hb He Hi. destruct b as [|b]; [lia|]. pose proof (pair_dom _ e i kv He Hi) as Dk.
  pose proof (lookup_lt_Some _ _ _ He).
  destruct (lookup_lt_is_Some_2 ix b ltac:(lia)) as [e1 E1]. destruct (ix_elem b e1 E1) as [_ D1].
  destruct (lookup_lt_is_Some_2 ix (count_lt cmp t ix) ltac:(lia)) as [e0 E0]. destruct (ix_elem _ e0 E0) as [_ D0].
  pose proof (count_lt_at cmp t ix e0 E0) as H0. apply (compare_le_flip dom cmp) in H0; [|done..].
  apply (compare_lt_flip dom cmp); [done..|].
  apply (compare_le_lt_trans dom cmp _ e1.1); [done..| |].
  - destruct (decide (count_lt cmp t ix = b)) as [Eb|Hne]; [rewrite Eb in E0; by simplify_eq|].
    pose proof (sorted_lookup _ ix _ b _ _ ix_sorted E0 E1 ltac:(lia)) as Hlt. cbn in Hlt.
    apply (compare_trans _ e0.1); [done..|lia].
  - apply (more_than b e1 e); [done..|by eapply list_elem_of_lookup_2].
Qed.

Lemma count_lt_all t :
  dom t ->
  count_lt cmp t all_pairs = (block_start (count_lt cmp t ix) + count_lt cmp t (block_of (count_lt cmp t ix)))%nat.
Proof.
  intros Ht. set (b := count_lt cmp t ix). pose proof (count_lt_length cmp t (block_of b)) as Hl.
  assert (block_start b + length (block_of b) = block_start (S b))%nat as Hs.
  { unfold block_of. destruct (ix !! b) as [e|] eqn:E; cbn [from_option]; [by rewrite (block_start_S b e)|].
    apply lookup_ge_None in E. rewrite !block_start_all by lia. cbn. lia. }
  apply count_lt_unique.
  - intros g kv Hg Hkv. destruct (all_pairs_locate g kv Hkv) as (b' & e & i & He & Hi & ->).
    destruct (decide (b' < b)%nat) as [Hlt|Hge]; [by eapply block_below|].
    destruct (decide (b' = b)) as [->|Hne].
    + unfold block_of in Hg. rewrite He in Hg. cbn in Hg. apply (count_lt_below cmp t (contents e.2) i); [lia|done].
    + pose proof (block_start_mono (S b) b' ltac:(lia)). lia.
  - intros kv Hkv. destruct (all_pairs_locate _ kv Hkv) as (b' & e & i & He & Hi & Eg).
    pose proof (lookup_lt_Some _ _ _ Hi). pose proof (block_start_S b' e He).
    destruct (decide (b' < b)%nat) as [Hlt|Hge]; [pose proof (block_start_mono (S b') b ltac:(lia)); lia|].
    destruct (decide (b' = b)) as [->|Hne].
    + unfold block_of in Eg. rewrite He in Eg. cbn in Eg. apply (count_lt_at cmp t (contents e.2)).
      by replace (count_lt cmp t (contents e.2)) with i by lia.
    + pose proof (block_above t b' e i kv Ht ltac:(lia) He Hi). lia.
  - pose proof (block_start_le (S b)). lia.
Qed.

(** ** Positions *)

Definition data_at (e : bytes * bytes) (d : wrapiter D) (q : option nat) : Prop :=
  wrap_at (contents e.2) (drep e.2) d q.

Definition null_data (it : twoiter) : Prop := wi_iter (ti_data it) = None /\ wi_valid (ti_data it) = false.

(** Block [b] is open, at position [q] of it. *)
Record open_at (it : twoiter) (b : nat) (e : bytes * bytes) (q : option nat) : Prop := {
  open_status : ti_status it = LDB_OK;
  open_index : wrap_at ix irep (ti_index it) (Some b);
  open_entry : ix !! b = Some e;
  open_data : data_at e (ti_data it) q;
  open_handle : ti_handle it = e.2
}.

(** What the data iterator may be left at: nothing, or any block opened from
    the handle kept. *)
Definition cache (it : twoiter) : Prop :=
  ti_status it = LDB_OK /\
  (null_data it \/ exists e q, e ∈ ix /\ data_at e (ti_data it) q /\ ti_handle it = e.2).

Definition two_rep (it : twoiter) (p : option nat) : Prop :=
  match p with
  | Some g => exists b e i, open_at it b e (Some i) /\ g = (block_start b + i)%nat
  | None => ti_status it = LDB_OK /\ null_data it /\ exists q, wrap_at ix irep (ti_index it) q
  end.

Lemma open_cache it b e q : open_at it b e q -> cache it.
Proof.
  intros O. split; [apply O|]. right. exists e, q. split; [|split; apply O].
  by eapply list_elem_of_lookup_2, O.
Qed.

Lemma rep_cache it p : two_rep it p -> cache it /\ exists q, wrap_at ix irep (ti_index it) q.
Proof.
  destruct p as [g|]; cbn.
  - intros (b & e & i & O & _). split; [by eapply open_cache|]. eexists. apply O.
  - intros (St & N & q). split; [split; [done|by left]|done].
Qed.

Lemma data_null_at e it q : data_at e (ti_data it) q -> data_null it = false.
Proof. intros W. unfold data_null. by destruct (wrap_rep _ _ _ _ W) as (s & -> & _). Qed.

Lemma set_data_null it :
  cache it -> exists it', ldb_twoiter_set_data_iter it None = Some it' /\ ti_status it' = LDB_OK /\
    null_data it' /\ ti_index it' = ti_index it.
Proof.
  intros [St [N|(e & q & He & W & Eh)]]; unfold ldb_twoiter_set_data_iter.
  - unfold data_null. rewrite (proj1 N). cbn. by eexists.
  - rewrite (data_null_at e it q W). destruct (opens e He) as [L _].
    rewrite (wrap_status dops dom cmp _ _ _ _ W). cbn [mbind option_bind]. unfold ldb_twoiter_saverr.
    rewrite St. cbn. by eexists.
Qed.

Lemma set_data_some it e s p :
  cache it -> e ∈ ix -> drep e.2 s p ->
  exists it', ldb_twoiter_set_data_iter (Twoiter (ti_status it) (ti_index it) (ti_data it) e.2) (Some s) = Some it' /\
    ti_status it' = LDB_OK /\ data_at e (ti_data it') p /\ ti_index it' = ti_index it /\ ti_handle it' = e.2.
Proof.
  intros [St C] He R. destruct (opens e He) as [L _]. unfold ldb_twoiter_set_data_iter.
  set (it0 := Twoiter _ _ _ _).
  assert ((if data_null it0 then Some it0
    else rc ← ldb_wrapiter_status dops (ti_data it0); Some (ldb_twoiter_saverr it0 rc)) = Some it0) as ->.
  { destruct C as [N|(e' & q & He' & W & _)].
    - unfold data_null. cbn [it0 ti_data]. by rewrite (proj1 N).
    - rewrite (data_null_at e' it0 q W). destruct (opens e' He') as [L' _].
      rewrite (wrap_status dops dom cmp _ _ (ti_data it0) _ W). cbn [mbind option_bind]. unfold ldb_twoiter_saverr.
      by rewrite andb_false_r. }
  cbn [mbind option_bind]. destruct (wrap_set dops dom cmp _ _ (ti_data it0) s p R) as (d & E & W). rewrite E.
  cbn [mbind option_bind]. by eexists.
Qed.

Lemma init_block_open it w b e :
  cache it -> wrap_at ix irep w (Some b) -> ix !! b = Some e ->
  exists it' q, ldb_twoiter_init_data_block (set_index it w) = Some it' /\ open_at it' b e q.
Proof.
  intros C W He. destruct (ix_elem b e He) as [Hin _]. unfold ldb_twoiter_init_data_block, ldb_wrapiter_valid.
  cbn [set_index ti_index]. rewrite (wrap_valid _ _ _ _ W). cbn [bool_decide negb].
  rewrite bool_decide_eq_true_2 by done. cbn [negb].
  rewrite (proj2 (wrap_entry iops dom cmp ix irep w b e W He)). cbn [mbind option_bind].
  destruct (negb (data_null (set_index it w)) && slice_equal e.2 (ti_handle (set_index it w))) eqn:Ec.
  - apply andb_true_iff in Ec as [En Es]. rewrite slice_equal_spec in Es. apply bool_decide_eq_true in Es.
    destruct C as [St [N|(e' & q & He' & Wd & Eh)]].
    { apply negb_true_iff in En. unfold data_null in En. cbn [set_index ti_data] in En. by rewrite (proj1 N) in En. }
    exists (set_index it w), q. split; [done|]. cbn [set_index ti_handle] in Es.
    split; cbn [set_index ti_status ti_index ti_data ti_handle]; try done.
    unfold data_at in *. rewrite Es, Eh. done.
  - destruct (opens e Hin) as (L & s & p & Eb & R). rewrite Eb.
    destruct (set_data_some (set_index it w) e s p) as (it' & E & St & Wd & Ei & Eh); [exact C|done|done|].
    exists it', p. split; [exact E|]. split; try done. by rewrite Ei.
Qed.

Lemma init_block_none it w :
  cache it -> wrap_at ix irep w None ->
  exists it', ldb_twoiter_init_data_block (set_index it w) = Some it' /\ two_rep it' None /\ ti_index it' = w.
Proof.
  intros C W. unfold ldb_twoiter_init_data_block, ldb_wrapiter_valid. cbn [set_index ti_index].
  rewrite (wrap_valid _ _ _ _ W). rewrite bool_decide_eq_false_2 by (intros H; by apply H). cbn [negb].
  destruct (set_data_null (set_index it w) C) as (it' & E & St & N & Ei). exists it'. split; [done|].
  split; [|done]. split; [done|]. split; [done|]. exists None. by rewrite Ei.
Qed.

Lemma on_data_open f it b e q q' :
  open_at it b e q ->
  (forall d, data_at e d q -> exists d', f d = Some d' /\ data_at e d' q') ->
  exists it', on_data f it = Some it' /\ open_at it' b e q'.
Proof.
  intros O Hf. destruct (Hf _ (open_data _ _ _ _ O)) as (d & E & W). unfold on_data.
  rewrite (data_null_at e it q (open_data _ _ _ _ O)), E. cbn [mbind option_bind]. eexists.
  split; [reflexivity|]. split; try done; apply O.
Qed.

Lemma on_data_null f it : null_data it -> on_data f it = Some it.
Proof. intros [N _]. unfold on_data, data_null. by rewrite N. Qed.

(** Past either end of the index. *)
Lemma skip_end move start fuel it :
  two_rep it None -> wrap_at ix irep (ti_index it) None ->
  exists it', skip move start (S fuel) it = Some it' /\ two_rep it' None.
Proof.
  intros R W. destruct (rep_cache it None R) as [C _]. destruct R as (St & N & _). cbn [skip].
  unfold data_null at 1. rewrite (proj1 N). cbn [orb]. unfold ldb_wrapiter_valid. rewrite (wrap_valid _ _ _ _ W).
  rewrite bool_decide_eq_false_2 by (intros H; by apply H). cbn [negb].
  destruct (set_data_null it C) as (it' & E & St' & N' & Ei). exists it'. split; [done|].
  split; [done|]. split; [done|]. exists None. by rewrite Ei.
Qed.

(** One turn of the loop when the open block is exhausted. *)
Lemma skip_turn move start fuel it b e :
  open_at it b e None ->
  skip move start (S fuel) it =
    (w ← move (ti_index it); it ← ldb_twoiter_init_data_block (set_index it w);
     it ← on_data start it; skip move start fuel it).
Proof.
  intros O. cbn [skip]. unfold ldb_wrapiter_valid. rewrite (wrap_valid _ _ _ _ (open_data _ _ _ _ O)).
  rewrite (wrap_valid _ _ _ _ (open_index _ _ _ _ O)).
  rewrite bool_decide_eq_false_2 by (intros H; by apply H). rewrite bool_decide_eq_true_2 by done.
  cbn [negb]. by rewrite orb_true_r.
Qed.

Lemma skip_done move start fuel it b e i :
  open_at it b e (Some i) -> skip move start (S fuel) it = Some it /\ two_rep it (Some (block_start b + i)%nat).
Proof.
  intros O. cbn [skip]. rewrite (data_null_at e it _ (open_data _ _ _ _ O)). unfold ldb_wrapiter_valid.
  rewrite (wrap_valid _ _ _ _ (open_data _ _ _ _ O)), bool_decide_eq_true_2 by done. cbn. split; [done|].
  by exists b, e, i.
Qed.

Lemma land_forward fuel it b e n :
  open_at it b e (position (contents e.2) n) -> (n <= length (contents e.2))%nat -> (length ix - b < fuel)%nat ->
  exists it', ldb_twoiter_skip_forward fuel it = Some it' /\ two_rep it' (position all_pairs (block_start b + n)).
Proof.
  revert it b e n. induction fuel as [|fuel IH]; intros it b e n O Hn Hf; [lia|].
  pose proof (open_entry _ _ _ _ O) as He. pose proof (lookup_lt_Some _ _ _ He) as Hb.
  destruct (decide (n < length (contents e.2))%nat) as [Hlt|Hge].
  - rewrite position_some in O by done. rewrite position_some by by eapply block_bound.
    destruct (skip_done (ldb_wrapiter_next iops) (ldb_wrapiter_first dops) fuel it b e n O) as [E R].
    by exists it.
  - rewrite position_none in O by lia. replace (block_start b + n)%nat with (block_start (S b))
      by (rewrite (block_start_S b e He); lia).
    unfold ldb_twoiter_skip_forward. rewrite (skip_turn _ _ fuel it b e O).
    destruct (wrap_next iops dom cmp ix irep _ b (open_index _ _ _ _ O)) as (w & E & W). rewrite E. cbn [mbind option_bind].
    rewrite Nat.add_1_r in W. pose proof (open_cache _ _ _ _ O) as C.
    destruct (ix !! S b) as [e'|] eqn:He'.
    + rewrite position_some in W by by eapply lookup_lt_Some.
      destruct (init_block_open it w (S b) e' C W He') as (it1 & q & E1 & O1). rewrite E1. cbn [mbind option_bind].
      destruct (opens e') as [L _]; [by eapply list_elem_of_lookup_2|].
      destruct (on_data_open (ldb_wrapiter_first dops) it1 (S b) e' q (position (contents e'.2) 0) O1) as (it2 & E2 & O2).
      { intros d Wd. by apply (wrap_first dops dom cmp _ _ d q). }
      rewrite E2. cbn [mbind option_bind]. destruct (IH it2 (S b) e' 0%nat O2) as (it3 & E3 & R3); [lia|lia|].
      exists it3. split; [exact E3|]. by rewrite Nat.add_0_r in R3.
    + pose proof (proj1 (lookup_ge_None ix (S b)) He') as HSb.
      rewrite position_none in W by done.
      destruct (init_block_none it w C W) as (it1 & E1 & R1 & Ei). rewrite E1. cbn [mbind option_bind].
      rewrite (on_data_null _ it1) by apply R1. cbn [mbind option_bind]. destruct fuel as [|fuel]; [lia|].
      rewrite block_start_all, position_none by lia. apply skip_end; [done|by rewrite Ei].
Qed.

Lemma land_backward fuel it b e n :
  open_at it b e (position_before n) -> (n <= length (contents e.2))%nat -> (b + 1 < fuel)%nat ->
  exists it', ldb_twoiter_skip_backward fuel it = Some it' /\ two_rep it' (position_before (block_start b + n)).
Proof.
  revert it b e n. induction fuel as [|fuel IH]; intros it b e n O Hn Hf; [lia|].
  pose proof (open_entry _ _ _ _ O) as He. destruct n as [|n]; cbn [position_before] in O.
  - unfold ldb_twoiter_skip_backward. rewrite (skip_turn _ _ fuel it b e O).
    destruct (wrap_prev iops dom cmp ix irep _ b (open_index _ _ _ _ O)) as (w & E & W). rewrite E. cbn [mbind option_bind].
    pose proof (open_cache _ _ _ _ O) as C. rewrite Nat.add_0_r. destruct b as [|b]; cbn [position_before] in W.
    + destruct (init_block_none it w C W) as (it1 & E1 & R1 & Ei). rewrite E1. cbn [mbind option_bind].
      rewrite (on_data_null _ it1) by apply R1. cbn [mbind option_bind]. destruct fuel as [|fuel]; [lia|].
      apply skip_end; [done|by rewrite Ei].
    + destruct (lookup_lt_is_Some_2 ix b) as [e' He']; [apply lookup_lt_Some in He; lia|].
      destruct (init_block_open it w b e' C W He') as (it1 & q & E1 & O1). rewrite E1. cbn [mbind option_bind].
      destruct (opens e') as [L _]; [by eapply list_elem_of_lookup_2|].
      destruct (on_data_open (ldb_wrapiter_last dops) it1 b e' q (position_before (length (contents e'.2))) O1) as (it2 & E2 & O2).
      { intros d Wd. by apply (wrap_last dops dom cmp _ _ d q). }
      rewrite E2. cbn [mbind option_bind]. destruct (IH it2 b e' _ O2) as (it3 & E3 & R3); [lia|lia|].
      exists it3. split; [exact E3|]. by rewrite (block_start_S b e' He').
  - destruct (skip_done (ldb_wrapiter_prev iops) (ldb_wrapiter_last dops) fuel it b e n O) as [E R].
    exists it. split; [done|]. by rewrite Nat.add_succ_r.
Qed.

(** ** The two-level iterator keeps the contract *)

Section Laws.
Context (fuel : nat).
Hypothesis enough : (length ix < fuel)%nat.

(** Moving the index, opening the block and placing the data iterator. *)
Lemma reposition p (move : wrapiter I -> option (wrapiter I)) (place : wrapiter D -> option (wrapiter D)) q it (n : nat -> nat) :
  two_rep it p ->
  (forall w q', wrap_at ix irep w q' -> exists w', move w = Some w' /\ wrap_at ix irep w' q) ->
  (forall b e d q', q = Some b -> ix !! b = Some e -> data_at e d q' ->
    exists d', place d = Some d' /\ data_at e d' (position (contents e.2) (n b))) ->
  exists w it1 it2, move (ti_index it) = Some w /\ ldb_twoiter_init_data_block (set_index it w) = Some it1 /\
    on_data place it1 = Some it2 /\
    match q with
    | Some b => exists e, open_at it2 b e (position (contents e.2) (n b))
    | None => two_rep it2 None /\ wrap_at ix irep (ti_index it2) None
    end.
Proof.
  intros R Hmove Hplace. destruct (rep_cache it p R) as [C [q' W]]. destruct (Hmove _ _ W) as (w & E & W').
  exists w. destruct q as [b|].
  - destruct (lookup_lt_is_Some_2 ix b (wrap_bound iops dom cmp _ _ w b W')) as [e He].
    destruct (init_block_open it w b e C W' He) as (it1 & q1 & E1 & O1).
    destruct (on_data_open place it1 b e q1 (position (contents e.2) (n b)) O1) as (it2 & E2 & O2).
    { intros d Wd. by apply (Hplace b e d q1). }
    exists it1, it2. split; [done|]. split; [done|]. split; [done|]. by exists e.
  - destruct (init_block_none it w C W') as (it1 & E1 & R1 & Ei). exists it1, it1.
    split; [done|]. split; [done|]. split; [apply on_data_null, R1|]. split; [done|]. by rewrite Ei.
Qed.

Lemma twoiter_first_ok it p :
  two_rep it p -> exists it', ldb_twoiter_first fuel it = Some it' /\ two_rep it' (position all_pairs 0).
Proof.
  intros R. destruct (reposition p (ldb_wrapiter_first iops) (ldb_wrapiter_first dops) (position ix 0) it (fun _ => 0%nat) R)
    as (w & it1 & it2 & E & E1 & E2 & H).
  - intros w q' W. by apply (wrap_first iops dom cmp _ _ w q').
  - intros b e d q' _ He Wd. destruct (opens e) as [L _]; [by eapply list_elem_of_lookup_2|].
    by apply (wrap_first dops dom cmp _ _ d q').
  - unfold ldb_twoiter_first. rewrite E. cbn [mbind option_bind]. rewrite E1. cbn [mbind option_bind].
    rewrite E2. cbn [mbind option_bind]. unfold position in H at 1. case_bool_decide as Hlt.
    + destruct H as [e O]. apply (land_forward fuel it2 0 e 0 O); lia.
    + destruct H as [R2 W2]. destruct fuel as [|f]; [lia|].
      destruct (skip_end (ldb_wrapiter_next iops) (ldb_wrapiter_first dops) f it2 R2 W2) as (it3 & E3 & R3).
      exists it3. split; [exact E3|]. rewrite position_none; [done|].
      rewrite <- (block_start_all 0) by lia. done.
Qed.

Lemma twoiter_seek_ok it p t :
  two_rep it p -> dom t ->
  exists it', ldb_twoiter_seek fuel it t = Some it' /\ two_rep it' (position all_pairs (count_lt cmp t all_pairs)).
Proof.
  intros R Ht. destruct (reposition p (fun w => ldb_wrapiter_seek iops w t) (fun d => ldb_wrapiter_seek dops d t)
      (position ix (count_lt cmp t ix)) it (fun b => count_lt cmp t (block_of b)) R)
    as (w & it1 & it2 & E & E1 & E2 & H).
  - intros w q' W. by apply (wrap_seek iops dom cmp _ _ w q').
  - intros b e d q' _ He Wd. destruct (opens e) as [L _]; [by eapply list_elem_of_lookup_2|].
    unfold block_of. rewrite He. by apply (wrap_seek dops dom cmp _ _ d q').
  - unfold ldb_twoiter_seek. rewrite E. cbn [mbind option_bind]. rewrite E1. cbn [mbind option_bind].
    rewrite E2. cbn [mbind option_bind]. unfold position in H at 1. rewrite (count_lt_all t Ht). case_bool_decide as Hlt.
    + destruct H as [e O]. apply (land_forward fuel it2 _ e _ O); [|lia].
      unfold block_of. rewrite (open_entry _ _ _ _ O). apply count_lt_length.
    + destruct H as [R2 W2]. destruct fuel as [|f]; [lia|].
      destruct (skip_end (ldb_wrapiter_next iops) (ldb_wrapiter_first dops) f it2 R2 W2) as (it3 & E3 & R3).
      exists it3. split; [exact E3|]. rewrite block_start_all, position_none by lia. done.
Qed.

Lemma twoiter_last_ok it p :
  two_rep it p ->
  exists it', ldb_twoiter_last fuel it = Some it' /\ two_rep it' (position_before (length all_pairs)).
Proof.
  intros R. destruct (rep_cache it p R) as [C [q W]].
  destruct (wrap_last iops dom cmp ix irep _ q W) as (w & E & W'). unfold ldb_twoiter_last. rewrite E. cbn [mbind option_bind].
  destruct (position_before (length ix)) as [b|] eqn:Eb.
  - assert (length ix = S b) as El by (destruct (length ix); [done|by injection Eb as ->]).
    destruct (lookup_lt_is_Some_2 ix b ltac:(lia)) as [e He].
    destruct (init_block_open it w b e C W' He) as (it1 & q1 & E1 & O1). rewrite E1. cbn [mbind option_bind].
    destruct (opens e) as [L _]; [by eapply list_elem_of_lookup_2|].
    destruct (on_data_open (ldb_wrapiter_last dops) it1 b e q1 (position_before (length (contents e.2))) O1) as (it2 & E2 & O2).
    { intros d Wd. by apply (wrap_last dops dom cmp _ _ d q1). }
    rewrite E2. cbn [mbind option_bind]. destruct (land_backward fuel it2 b e _ O2) as (it3 & E3 & R3); [lia|lia|].
    exists it3. split; [exact E3|]. by rewrite <- (block_start_all (S b)), (block_start_S b e He) by lia.
  - assert (length ix = 0%nat) as El by (destruct (length ix); done).
    destruct (init_block_none it w C W') as (it1 & E1 & R1 & Ei). rewrite E1. cbn [mbind option_bind].
    rewrite (on_data_null _ it1) by apply R1. cbn [mbind option_bind]. destruct fuel as [|f]; [lia|].
    destruct (skip_end (ldb_wrapiter_prev iops) (ldb_wrapiter_last dops) f it1 R1) as (it3 & E3 & R3); [by rewrite Ei|].
    exists it3. split; [exact E3|]. by rewrite <- (block_start_all 0) by lia.
Qed.

Lemma set_data_open it b e q d q' :
  open_at it b e q -> data_at e d q' -> open_at (Twoiter (ti_status it) (ti_index it) d (ti_handle it)) b e q'.
Proof. intros O W. split; try done; apply O. Qed.

Lemma open_valid it b e i : open_at it b e (Some i) -> ldb_twoiter_valid it = true.
Proof.
  intros O. unfold ldb_twoiter_valid, ldb_wrapiter_valid. rewrite (wrap_valid _ _ _ _ (open_data _ _ _ _ O)).
  by apply bool_decide_eq_true_2.
Qed.

Lemma open_lookup it b e i :
  open_at it b e (Some i) -> IteratorLaws dops dom cmp (contents e.2) (drep e.2) /\ (i < length (contents e.2))%nat /\
    all_pairs !! (block_start b + i)%nat = contents e.2 !! i.
Proof.
  intros O. destruct (opens e) as [L _]; [eapply list_elem_of_lookup_2, O|]. split; [done|].
  pose proof (wrap_bound dops dom cmp _ _ _ i (open_data _ _ _ _ O)). split; [done|]. apply all_pairs_at; [apply O|done].
Qed.

Lemma twoiter_next_ok it g :
  two_rep it (Some g) -> exists it', ldb_twoiter_next fuel it = Some it' /\ two_rep it' (position all_pairs (g + 1)).
Proof.
  intros (b & e & i & O & ->). destruct (open_lookup it b e i O) as (L & Hi & _). unfold ldb_twoiter_next. rewrite (open_valid it b e i O).
  destruct (wrap_next dops dom cmp _ _ _ i (open_data _ _ _ _ O)) as (d & E & W). rewrite E. cbn [mbind option_bind].
  rewrite <- Nat.add_assoc. pose proof (lookup_lt_Some _ _ _ (open_entry _ _ _ _ O)).
  apply (land_forward fuel _ b e (i + 1)); [by eapply set_data_open|lia|lia].
Qed.

Lemma twoiter_prev_ok it g :
  two_rep it (Some g) -> exists it', ldb_twoiter_prev fuel it = Some it' /\ two_rep it' (position_before g).
Proof.
  intros (b & e & i & O & ->). destruct (open_lookup it b e i O) as (L & Hi & _). unfold ldb_twoiter_prev. rewrite (open_valid it b e i O).
  destruct (wrap_prev dops dom cmp _ _ _ i (open_data _ _ _ _ O)) as (d & E & W). rewrite E. cbn [mbind option_bind].
  pose proof (lookup_lt_Some _ _ _ (open_entry _ _ _ _ O)).
  apply (land_backward fuel _ b e i); [by eapply set_data_open|lia|lia].
Qed.

Lemma twoiter_status_ok it p : two_rep it p -> ldb_twoiter_status it = LDB_OK.
Proof.
  intros R. destruct (rep_cache it p R) as [[St C] [q W]]. unfold ldb_twoiter_status.
  rewrite (wrap_status iops dom cmp _ _ _ _ W). cbn. destruct C as [N|(e & q' & He & Wd & _)].
  - unfold data_null. by rewrite (proj1 N).
  - rewrite (data_null_at e it q' Wd). destruct (opens e He) as [L _].
    rewrite (wrap_status dops dom cmp _ _ _ _ Wd). done.
Qed.

Lemma twoiter_laws : IteratorLaws (ldb_twoiter_table fuel) dom cmp all_pairs two_rep.
Proof.
  split; cbn [ldb_twoiter_table it_valid it_status it_key it_value it_first it_last it_seek it_next it_prev].
  - intros it g (b & e & i & O & ->). destruct (open_lookup it b e i O) as (_ & Hi & _).
    eapply block_bound; [apply O|done].
  - intros it [g|] R.
    + destruct R as (b & e & i & O & _). by apply (open_valid it b e i).
    + unfold ldb_twoiter_valid, ldb_wrapiter_valid. by destruct R as (_ & [_ ->] & _).
  - apply twoiter_status_ok.
  - intros it g kv (b & e & i & O & ->) Hkv. destruct (open_lookup it b e i O) as (L & Hi & Ei).
    unfold ldb_twoiter_key, ldb_twoiter_value. rewrite (open_valid it b e i O).
    apply (wrap_entry dops dom cmp _ _ _ i); [apply O|by rewrite <- Ei].
  - apply twoiter_first_ok.
  - apply twoiter_last_ok.
  - intros it p t R Ht. by apply (twoiter_seek_ok it p t).
  - apply twoiter_next_ok.
  - apply twoiter_prev_ok.
Qed.

Lemma twoiter_init_ok index_iter p :
  irep index_iter p -> exists it, ldb_twoiter_init index_iter = Some it /\ two_rep it None.
Proof.
  intros R. unfold ldb_twoiter_init. destruct (wrap_init iops dom cmp _ _ index_iter p R) as (w & E & W). rewrite E.
  cbn. eexists. split; [reflexivity|]. split; [done|]. split; [done|]. by exists p.
Qed.
End Laws.
End TwoLevel.

(** ** Properties *)

(** C29: The two-level iterator over an index and a block function keeps the
    iterator contract over the concatenation of the blocks, if the index and
    every block keep it and the index keys separate the blocks: it steps over
    block boundaries and empty blocks in both directions, keeps a block that is
    already open, [seek] finds the first key at or after the target through the
    index, and its loops end within one more turn than the index has
    entries. *)
Theorem two_level_iterator_correct {I D} (iops : iter_ops I) (dops : iter_ops D) block_function dom cmp
    `{!ComparatorLaws dom cmp} ix irep `{!IteratorLaws iops dom cmp ix irep} contents drep index_iter p fuel :
  (forall e, e ∈ ix -> IteratorLaws dops dom cmp (contents e.2) (drep e.2) /\
    exists s q, block_function e.2 = Some s /\ drep e.2 s q) ->
  (forall b e kv, ix !! b = Some e -> kv ∈ contents e.2 -> ldb_compare cmp kv.1 e.1 <= 0) ->
  (forall b e e' kv, ix !! b = Some e -> ix !! S b = Some e' -> kv ∈ contents e'.2 -> ldb_compare cmp e.1 kv.1 < 0) ->
  sorted_pairs cmp ix -> Forall (fun e => dom e.1) ix ->
  Forall (fun kv => dom kv.1) (concat (map (fun e => contents e.2) ix)) ->
  irep index_iter p -> (length ix < fuel)%nat ->
  exists it rep, ldb_twoiter_init iops dops index_iter = Some it /\ rep it None /\
    IteratorLaws (ldb_twoiter_table iops dops block_function fuel) dom cmp
      (concat (map (fun e => contents e.2) ix)) rep.
Proof.
  intros Ho Hm Hg Hs Hd Ha R Hf.
  destruct (twoiter_init_ok iops dops dom cmp ix irep contents drep index_iter p R) as (it & E & Rep).
  exists it. eexists. split; [exact E|]. split; [exact Rep|]. by apply twoiter_laws.
Qed.

Lemma two_level_iterator_correct_witness :
  let ix := [([Byte.x62], [Byte.x00]); ([Byte.x63], [Byte.x01]); ([Byte.x65], [Byte.x02])] in
  let contents h :=
    match h with
    | [Byte.x00] => [([Byte.x61], [Byte.x0a]); ([Byte.x62], [Byte.x0b])]
    | [Byte.x02] => [([Byte.x64], [Byte.x0c])]
    | _ => []
    end in
  let tbl := listiter_table bytewise_comparator in
  exists it rep, ldb_twoiter_init tbl tbl (ix, None) = Some it /\ rep it None /\
    IteratorLaws (ldb_twoiter_table tbl tbl (fun h => Some (contents h, None)) 4) (fun _ => True) bytewise_comparator
      [([Byte.x61], [Byte.x0a]); ([Byte.x62], [Byte.x0b]); ([Byte.x64], [Byte.x0c])] rep.
Proof.
  intros ix contents tbl.
  apply (two_level_iterator_correct tbl tbl (fun h => Some (contents h, None)) (fun _ => True) bytewise_comparator
    ix (listiter_rep ix) contents (fun h => listiter_rep (contents h)) (ix, None) None 4).
  - intros e _. split; [apply listiter_laws|]. eexists. exists None. split; [reflexivity|]. split; [reflexivity|exact I].
  - intros [|[|[|b]]] e kv; [intros [= <-]..|intros H; discriminate H]; intros Hin%list_elem_of_In;
      cbn in Hin; repeat (destruct Hin as [<-|Hin]; [vm_compute; intros H; discriminate H|]); destruct Hin.
  - intros [|[|[|b]]] e e' kv; [intros [= <-] [= <-]|intros [= <-] [= <-]|intros _ H; discriminate H|intros H; discriminate H]; intros Hin%list_elem_of_In;
      cbn in Hin; repeat (destruct Hin as [<-|Hin]; [vm_compute; reflexivity|]); destruct Hin.
  - repeat constructor.
  - repeat constructor.
  - repeat constructor.
  - split; [reflexivity|exact I].
  - cbn. lia.
Defined.
