(* ===== verification/DBIter.v ===== *)
(** * The database iterator

    Models [src/engine/src/db_iter.c]: the iterator a client sees, over user
    keys at a snapshot, built from an iterator over internal keys.

    Buffers are their contents (see Buffer.v); how much memory
    [clear_saved_value] keeps is not modelled.  [ldb_record_read_sample] hands a
    key to the database, which may schedule a compaction: the keys handed over
    are collected in [db_samples]. *)

From stdpp Require Import sorting.
From S2P Require Import Prelude Coding Status Comparator DBFormat Random Iterator.
#[local] Open Scope Z_scope.

Inductive ldb_direction := LDB_FORWARD | LDB_REVERSE.

Definition LDB_READ_BYTES_PERIOD : Z := 1048576.

Section DBIter.
Context {T : Type} (ops : iter_ops T).

(** [ldb_dbiter_t] *)
Record dbiter := Dbiter {
  db_ucmp : comparator;
  db_iter : T;
  db_sequence : Z;
  db_status : Z;
  db_saved_key : bytes;
  db_saved_value : bytes;
  db_direction : ldb_direction;
  db_valid : bool;
  db_rnd : Z;
  db_bytes_until_read_sampling : Z;
  db_samples : list bytes
}.

(** *** Updates of single members *)

Definition set_iter (it : dbiter) (s : T) : dbiter :=
  Dbiter (db_ucmp it) s (db_sequence it) (db_status it) (db_saved_key it) (db_saved_value it)
    (db_direction it) (db_valid it) (db_rnd it) (db_bytes_until_read_sampling it) (db_samples it).
Definition set_status (it : dbiter) (rc : Z) : dbiter :=
  Dbiter (db_ucmp it) (db_iter it) (db_sequence it) rc (db_saved_key it) (db_saved_value it)
    (db_direction it) (db_valid it) (db_rnd it) (db_bytes_until_read_sampling it) (db_samples it).
Definition set_saved (it : dbiter) (key value : bytes) : dbiter :=
  Dbiter (db_ucmp it) (db_iter it) (db_sequence it) (db_status it) key value
    (db_direction it) (db_valid it) (db_rnd it) (db_bytes_until_read_sampling it) (db_samples it).
Definition set_saved_key (it : dbiter) (key : bytes) : dbiter := set_saved it key (db_saved_value it).
Definition set_direction (it : dbiter) (d : ldb_direction) : dbiter :=
  Dbiter (db_ucmp it) (db_iter it) (db_sequence it) (db_status it) (db_saved_key it) (db_saved_value it)
    d (db_valid it) (db_rnd it) (db_bytes_until_read_sampling it) (db_samples it).
Definition set_valid (it : dbiter) (v : bool) : dbiter :=
  Dbiter (db_ucmp it) (db_iter it) (db_sequence it) (db_status it) (db_saved_key it) (db_saved_value it)
    (db_direction it) v (db_rnd it) (db_bytes_until_read_sampling it) (db_samples it).
Definition set_sampling (it : dbiter) (rnd n : Z) (samples : list bytes) : dbiter :=
  Dbiter (db_ucmp it) (db_iter it) (db_sequence it) (db_status it) (db_saved_key it) (db_saved_value it)
    (db_direction it) (db_valid it) rnd n samples.

(** *** Helpers *)

Definition random_compaction_period (rnd : Z) : Z * Z := ldb_rand_uniform rnd (2 * LDB_READ_BYTES_PERIOD).

(** [while (bytes_until_read_sampling < bytes_read)]: at least one of two
    successive periods is not zero, see [sample_loop_total]. *)
Fixpoint sample_loop (fuel : nat) (rnd n bytes_read : Z) (k : bytes) (samples : list bytes)
    : option (Z * Z * list bytes) :=
  match fuel with
  | O => None
  | S fuel =>
    if n <? bytes_read then
      let (p, rnd) := random_compaction_period rnd in
      sample_loop fuel rnd (u64 (n + p)) bytes_read k (samples ++ [k])
    else Some (rnd, n, samples)
  end.

(** The parsed key, if the entry has one, and the iterator afterwards. *)
Definition parse_key (it : dbiter) : option (option ldb_pkey * dbiter) :=
  k ← it_key ops (db_iter it);
  v ← it_value ops (db_iter it);
  let bytes_read := u64 (zlen k + zlen v) in
  '(rnd, n, samples) ← sample_loop (2 * Z.to_nat bytes_read + 1) (db_rnd it)
     (db_bytes_until_read_sampling it) bytes_read k (db_samples it);
  let it := set_sampling it rnd (n - bytes_read) samples in
  match ldb_pkey_import k with
  | None => Some (None, set_status it LDB_CORRUPTION)
  | Some ikey => Some (Some ikey, it)
  end.

(** The parameter [skip] of the code is always [&iter->saved_key]. *)
Fixpoint find_next_user_entry (fuel : nat) (it : dbiter) (skipping : bool) : option dbiter :=
  match fuel with
  | O => None
  | S fuel =>
    let continue it skipping :=
      s ← it_next ops (db_iter it);
      let it := set_iter it s in
      if it_valid ops s then find_next_user_entry fuel it skipping
      else Some (set_valid (set_saved_key it []) false) in
    '(parsed, it) ← parse_key it;
    match parsed with
    | Some ikey =>
      if sequence ikey <=? db_sequence it then
        match type ikey with
        | LDB_TYPE_DELETION => continue (set_saved_key it (user_key ikey)) true
        | LDB_TYPE_VALUE =>
          if skipping && (ldb_compare (db_ucmp it) (user_key ikey) (db_saved_key it) <=? 0)
          then continue it skipping
          else Some (set_saved_key (set_valid it true) [])
        end
      else continue it skipping
    | None => continue it skipping
    end
  end.

(** The loop of [find_prev_user_entry]: the iterator and the [value_type]. *)
Fixpoint find_prev_loop (fuel : nat) (it : dbiter) (value_type : ldb_valtype) : option (dbiter * ldb_valtype) :=
  match fuel with
  | O => None
  | S fuel =>
    let continue it value_type :=
      s ← it_prev ops (db_iter it);
      let it := set_iter it s in
      if it_valid ops s then find_prev_loop fuel it value_type else Some (it, value_type) in
    '(parsed, it) ← parse_key it;
    match parsed with
    | Some ikey =>
      if sequence ikey <=? db_sequence it then
        if negb (bool_decide (value_type = LDB_TYPE_DELETION)) &&
           (ldb_compare (db_ucmp it) (user_key ikey) (db_saved_key it) <? 0)
        then Some (it, value_type)
        else
          match type ikey with
          | LDB_TYPE_DELETION => continue (set_saved it [] []) LDB_TYPE_DELETION
          | LDB_TYPE_VALUE =>
            key ← it_key ops (db_iter it);
            value ← it_value ops (db_iter it);
            continue (set_saved it (ldb_extract_user_key key) value) LDB_TYPE_VALUE
          end
      else continue it value_type
    | None => continue it value_type
    end
  end.

Definition find_prev_user_entry (fuel : nat) (it : dbiter) : option dbiter :=
  '(it, value_type) ← (if it_valid ops (db_iter it) then find_prev_loop fuel it LDB_TYPE_DELETION
                       else Some (it, LDB_TYPE_DELETION));
  match value_type with
  | LDB_TYPE_DELETION => Some (set_direction (set_saved (set_valid it false) [] []) LDB_FORWARD)
  | LDB_TYPE_VALUE => Some (set_valid it true)
  end.

(** *** The iterator *)

Definition ldb_dbiter_init (ucmp : comparator) (internal_iter : T) (sequence seed : Z) : dbiter :=
  let (p, rnd) := random_compaction_period (ldb_rand_init seed) in
  Dbiter ucmp internal_iter sequence LDB_OK [] [] LDB_FORWARD false rnd p [].

Definition ldb_dbiter_valid (it : dbiter) : bool := db_valid it.

Definition ldb_dbiter_key (it : dbiter) : option bytes :=
  if db_valid it then
    match db_direction it with
    | LDB_FORWARD => key ← it_key ops (db_iter it); Some (ldb_extract_user_key key)
    | LDB_REVERSE => Some (db_saved_key it)
    end
  else None.

Definition ldb_dbiter_value (it : dbiter) : option bytes :=
  if db_valid it then
    match db_direction it with
    | LDB_FORWARD => it_value ops (db_iter it)
    | LDB_REVERSE => Some (db_saved_value it)
    end
  else None.

Definition ldb_dbiter_status (it : dbiter) : Z :=
  if db_status it =? LDB_OK then it_status ops (db_iter it) else db_status it.

(** The loop of [prev] that leaves the entries of the current key: [false] if
    there is nothing before them. *)
Fixpoint leave_key (fuel : nat) (it : dbiter) : option (bool * dbiter) :=
  match fuel with
  | O => None
  | S fuel =>
    s ← it_prev ops (db_iter it);
    let it := set_iter it s in
    if it_valid ops s then
      key ← it_key ops s;
      if ldb_compare (db_ucmp it) (ldb_extract_user_key key) (db_saved_key it) <? 0
      then Some (true, it) else leave_key fuel it
    else Some (false, it)
  end.

Section Operations.
(** A bound on the turns of the loops: one more than the entries of the
    internal iterator. *)
Context (fuel : nat).

Definition ldb_dbiter_next (it : dbiter) : option dbiter :=
  if db_valid it then
    it ← (match db_direction it with
          | LDB_REVERSE =>
            let it := set_direction it LDB_FORWARD in
            s ← (if it_valid ops (db_iter it) then it_next ops (db_iter it) else it_first ops (db_iter it));
            Some (set_iter it s)
          | LDB_FORWARD =>
            key ← it_key ops (db_iter it);
            let it := set_saved_key it (ldb_extract_user_key key) in
            s ← it_next ops (db_iter it);
            Some (set_iter it s)
          end);
    if it_valid ops (db_iter it) then find_next_user_entry fuel it true
    else Some (set_saved_key (set_valid it false) [])
  else None.

Definition ldb_dbiter_prev (it : dbiter) : option dbiter :=
  if db_valid it then
    match db_direction it with
    | LDB_FORWARD =>
      key ← it_key ops (db_iter it);
      '(found, it) ← leave_key fuel (set_saved_key it (ldb_extract_user_key key));
      if found : bool then find_prev_user_entry fuel (set_direction it LDB_REVERSE)
      else Some (set_saved (set_valid it false) [] [])
    | LDB_REVERSE => find_prev_user_entry fuel it
    end
  else None.

Definition ldb_dbiter_seek (it : dbiter) (target : bytes) : option dbiter :=
  let it := set_saved (set_direction it LDB_FORWARD) [] [] in
  let pkey := ldb_pkey_init target (db_sequence it) LDB_VALTYPE_SEEK in
  let it := set_saved_key it (ldb_pkey_export (db_saved_key it) pkey) in
  s ← it_seek ops (db_iter it) (db_saved_key it);
  let it := set_iter it s in
  if it_valid ops s then find_next_user_entry fuel it false else Some (set_valid it false).

Definition ldb_dbiter_first (it : dbiter) : option dbiter :=
  let it := set_saved (set_direction it LDB_FORWARD) (db_saved_key it) [] in
  s ← it_first ops (db_iter it);
  let it := set_iter it s in
  if it_valid ops s then find_next_user_entry fuel it false else Some (set_valid it false).

Definition ldb_dbiter_last (it : dbiter) : option dbiter :=
  let it := set_saved (set_direction it LDB_REVERSE) (db_saved_key it) [] in
  s ← it_last ops (db_iter it);
  find_prev_user_entry fuel (set_iter it s).

Definition ldb_dbiter_table : iter_ops dbiter := {|
  it_valid := ldb_dbiter_valid;
  it_first := ldb_dbiter_first;
  it_last := ldb_dbiter_last;
  it_seek := ldb_dbiter_seek;
  it_next := ldb_dbiter_next;
  it_prev := ldb_dbiter_prev;
  it_key := ldb_dbiter_key;
  it_value := ldb_dbiter_value;
  it_status := ldb_dbiter_status
|}.
End Operations.
End DBIter.

Arguments Dbiter {T}.
Arguments db_ucmp {T}.
Arguments db_iter {T}.
Arguments db_sequence {T}.
Arguments db_status {T}.
Arguments db_saved_key {T}.
Arguments db_saved_value {T}.
Arguments db_direction {T}.
Arguments db_valid {T}.
Arguments db_rnd {T}.
Arguments db_bytes_until_read_sampling {T}.
Arguments db_samples {T}.
Arguments dbiter : clear implicits.

(** ** Sampling terminates *)

Lemma period_spec rnd :
  seed_ok rnd ->
  random_compaction_period rnd = (((rnd * rand_A) mod rand_M) mod 2097152, (rnd * rand_A) mod rand_M) /\
  0 <= (random_compaction_period rnd).1 < 2097152 /\ seed_ok (random_compaction_period rnd).2.
Proof.
  intros H. unfold random_compaction_period, ldb_rand_uniform. change (2 * LDB_READ_BYTES_PERIOD) with 2097152.
  change (2097152 =? 0) with false. cbv iota. pose proof (rand_next_ok rnd H) as Hn.
  rewrite (rand_next_spec rnd H) in *. cbn [fst snd] in *. split; [done|]. split; [by apply Z.mod_pos_bound|done].
Qed.

(** The multiples of the range below the modulus do not lead to each other. *)
Lemma no_two_zero_periods rnd :
  seed_ok rnd -> (random_compaction_period rnd).1 = 0 ->
  (random_compaction_period (random_compaction_period rnd).2).1 <> 0.
Proof.
  intros H. destruct (period_spec rnd H) as (E & _ & H2). rewrite E in *. cbn [fst snd] in *.
  destruct (period_spec _ H2) as (E2 & _ & _). rewrite E2. cbn [fst]. clear E E2.
  set (t := (rnd * rand_A) mod rand_M) in *. intros Ht.
  apply Z.mod_divide in Ht as [k Hk]; [|done]. destruct H2 as [H2 H3]. rewrite Hk in *. clearbody t. clear -H2 H3.
  assert (forallb (fun k => negb ((k * 2097152 * rand_A) mod rand_M mod 2097152 =? 0))
    (map Z.of_nat (seq 1 1023)) = true) as F by (vm_compute; reflexivity).
  rewrite forallb_forall in F. unfold rand_M in H3.
  specialize (F k). assert (In k (map Z.of_nat (seq 1 1023))) as Hin.
  { apply in_map_iff. exists (Z.to_nat k). rewrite in_seq. lia. }
  apply F, negb_true_iff, Z.eqb_neq in Hin. done.
Qed.

Lemma sample_loop_total fuel rnd n bytes_read k samples :
  seed_ok rnd -> 0 <= n < 2 ^ 63 -> 0 <= bytes_read < 2 ^ 62 ->
  2 * Z.max 0 (bytes_read - n) + 1 <= Z.of_nat fuel \/
  (2 * Z.max 0 (bytes_read - n) <= Z.of_nat fuel /\ n < bytes_read /\ (random_compaction_period rnd).1 <> 0) ->
  exists rnd' n' samples', sample_loop fuel rnd n bytes_read k samples = Some (rnd', n', samples') /\
    seed_ok rnd' /\ bytes_read <= n' < 2 ^ 63.
Proof.
  revert rnd n samples. induction fuel as [|fuel IH]; intros rnd n samples Hr Hn Hb Hf; [lia|].
  cbn [sample_loop]. destruct (Z.ltb_spec n bytes_read) as [Hlt|]; [|exists rnd, n, samples; split; [done|]; split; [done|lia]].
  destruct (period_spec rnd Hr) as (_ & Hp & Hr'). pose proof (no_two_zero_periods rnd Hr) as Hz.
  destruct (random_compaction_period rnd) as [p rnd']. cbn [fst snd] in *.
  rewrite u64_small by lia. apply IH; [done|lia|done|].
  destruct (decide (p = 0)) as [->|]; [|left; lia]. right. specialize (Hz eq_refl). lia.
Qed.

(** ** The specification: what a snapshot sees *)

(** A version of a user key: its internal key, parsed, and its value. *)
Abbreviation version := (ldb_pkey * bytes)%type.

Section View.
Context (ucmp : comparator) (snapshot : Z).

Definition same_key (x y : version) : bool := ldb_compare ucmp (user_key x.1) (user_key y.1) =? 0.

(** The snapshot includes the version. *)
Definition included (x : version) : bool := sequence x.1 <=? snapshot.

(** Version [i] is shown: it is included, it is a value, and no included
    version of the same key comes before it, i.e. is newer. *)
Definition shown (es : list version) (i : nat) : bool :=
  match es !! i with
  | Some x =>
    included x && bool_decide (type x.1 = LDB_TYPE_VALUE) &&
    forallb (fun y => negb (included y && same_key y x)) (take i es)
  | None => false
  end.

(** The indices shown, in order, and the pairs of user key and value. *)
Definition shown_indices (es : list version) : list nat := filter (fun i => shown es i = true) (seq 0 (length es)).

Definition view (es : list version) : pairs :=
  map (fun i => from_option (fun x : version => (user_key x.1, x.2)) ([], []) (es !! i)) (shown_indices es).

(** How many versions before [j] are shown. *)
Definition rank (es : list version) (j : nat) : nat := length (filter (fun i => shown es i = true) (seq 0 j)).
End View.

Section ViewLemmas.
Context (udom : bytes -> Prop) (ucmp : comparator) `{!ComparatorLaws udom ucmp} (snapshot : Z).
Context (es : list version).

Local Abbreviation ukey x := (user_key (fst x)).
Local Abbreviation shows := (shown ucmp snapshot es).
Local Abbreviation rk := (rank ucmp snapshot es).
Local Abbreviation seen := (view ucmp snapshot es).

Definition pair_of (x : version) : bytes * bytes := (ukey x, x.2).

Lemma rank_S j : rk (S j) = (rk j + (if shows j then 1 else 0))%nat.
Proof.
  unfold rank. rewrite seq_S, list.filter_app, length_app, Nat.add_0_l. f_equal.
  rewrite filter_cons, filter_nil. destruct (shows j); by case_decide.
Qed.

Lemma rank_mono i j : (i <= j)%nat -> (rk i <= rk j)%nat.
Proof. induction 1 as [|j _ IH]; [lia|]. rewrite rank_S. lia. Qed.

Lemma rank_skip i j : (i <= j)%nat -> (forall k, (i <= k < j)%nat -> shows k = false) -> rk j = rk i.
Proof.
  induction 1 as [|j Hij IH]; intros H; [done|]. rewrite rank_S, (H j) by lia.
  rewrite IH by (intros; apply H; lia). lia.
Qed.

Lemma shown_lookup i : shows i = true -> exists x, es !! i = Some x.
Proof. unfold shown. destruct (es !! i) as [x|]; [by exists x|done]. Qed.

Lemma view_length : length seen = rk (length es).
Proof. unfold view, rank, shown_indices. by rewrite length_map. Qed.

Lemma view_at i x : es !! i = Some x -> shows i = true -> seen !! rk i = Some (pair_of x).
Proof.
  intros Hx Hs. pose proof (lookup_lt_Some _ _ _ Hx) as Hi. unfold view, shown_indices.
  rewrite list_lookup_fmap. replace (length es) with (i + (length es - i))%nat by lia.
  rewrite seq_app, list.filter_app, lookup_app_r by (unfold rank; lia).
  unfold rank at 1. rewrite Nat.sub_diag, Nat.add_0_l. replace (length es - i)%nat with (S (length es - S i)) by lia.
  cbn [seq]. rewrite filter_cons, decide_True by done. cbn. by rewrite Hx.
Qed.

Lemma rank_lt i : shows i = true -> (rk i < length seen)%nat.
Proof.
  intros H. destruct (shown_lookup i H) as [x Hx]. eapply lookup_lt_Some. by apply view_at.
Qed.

Lemma rank_inj i j : shows i = true -> shows j = true -> rk i = rk j -> i = j.
Proof.
  intros Hi Hj E. destruct (lt_eq_lt_dec i j) as [[Hlt|]|Hlt]; [|done|].
  - pose proof (rank_mono (S i) j Hlt) as H. rewrite rank_S, Hi in H. lia.
  - pose proof (rank_mono (S j) i Hlt) as H. rewrite rank_S, Hj in H. lia.
Qed.

(** Every pair of the view is that of an index shown. *)
Lemma view_origin p kv : seen !! p = Some kv -> exists i x, es !! i = Some x /\ shows i = true /\ rk i = p /\ kv = pair_of x.
Proof.
  intros H. unfold view in H. rewrite list_lookup_fmap in H.
  destruct (shown_indices ucmp snapshot es !! p) as [i|] eqn:E; [|done]. injection H as <-.
  pose proof (list_elem_of_lookup_2 _ _ _ E) as Hin. unfold shown_indices in Hin.
  apply list_elem_of_filter in Hin as [Hs _]. destruct (shown_lookup i Hs) as [x Hx].
  exists i, x. split; [done|]. split; [done|]. rewrite Hx. split; [|done].
  assert (forall a b, shown_indices ucmp snapshot es !! a = Some i -> shown_indices ucmp snapshot es !! b = Some i -> a = b) as Hinj.
  { intros a b. apply NoDup_lookup. unfold shown_indices. apply list.NoDup_filter, base.NoDup_ListNoDup, seq_NoDup. }
  apply Hinj; [|done]. pose proof (lookup_lt_Some _ _ _ Hx). unfold shown_indices, rank.
  replace (length es) with (i + (length es - i))%nat by lia.
  rewrite seq_app, list.filter_app, lookup_app_r by lia. rewrite Nat.sub_diag, Nat.add_0_l.
  replace (length es - i)%nat with (S (length es - S i)) by lia. cbn [seq]. by rewrite filter_cons, decide_True.
Qed.

(** What it means to be shown. *)
Lemma shown_iff i x :
  es !! i = Some x ->
  shows i = true <->
  sequence x.1 <= snapshot /\ type x.1 = LDB_TYPE_VALUE /\
  forall j y, (j < i)%nat -> es !! j = Some y -> sequence y.1 <= snapshot -> ldb_compare ucmp (ukey y) (ukey x) <> 0.
Proof.
  intros Hx. unfold shown. rewrite Hx. rewrite !andb_true_iff, bool_decide_eq_true, forallb_forall.
  unfold included at 1. rewrite Z.leb_le. split.
  - intros [[H1 H2] H3]. split; [done|]. split; [done|]. intros j y Hj Hy Hs E.
    assert (In y (take i es)) as Hin.
    { apply list_elem_of_In, list_elem_of_lookup. exists j. by rewrite lookup_take_lt. }
    apply H3 in Hin. unfold included, same_key in Hin. rewrite E, (proj2 (Z.leb_le _ _)) in Hin by done. done.
  - intros (H1 & H2 & H3). split; [done|]. intros y Hin. apply list_elem_of_In, list_elem_of_lookup in Hin as [j Hj].
    apply lookup_take_Some in Hj as [Hy Hj]. apply negb_true_iff, andb_false_iff. unfold included, same_key.
    destruct (Z.leb_spec (sequence y.1) snapshot); [|by left]. right. apply Z.eqb_neq. by apply (H3 j).
Qed.

(** *** Sorted versions *)

Hypothesis versions_wf : Forall (fun x => pkey_wf x.1 /\ udom (ukey x)) es.
Hypothesis versions_sorted : sorted_pairs (ldb_ikc_init ucmp) (map (fun x => (ikey x.1, x.2)) es).

Lemma version_ok i x : es !! i = Some x -> pkey_wf x.1 /\ udom (ukey x).
Proof.
  intros H%list_elem_of_lookup_2%list_elem_of_In. rewrite List.Forall_forall in versions_wf. by apply versions_wf.
Qed.

Lemma user_le i j x y : (i <= j)%nat -> es !! i = Some x -> es !! j = Some y -> ldb_compare ucmp (ukey x) (ukey y) <= 0.
Proof.
  intros Hij Hx Hy. destruct (version_ok i x Hx) as [Wx Dx], (version_ok j y Hy) as [Wy Dy].
  destruct (decide (i = j)) as [->|Hne]; [simplify_eq; by rewrite (compare_refl udom ucmp)|].
  assert (ldb_compare (ldb_ikc_init ucmp) (ikey x.1) (ikey y.1) < 0) as Hlt.
  { apply (sorted_lookup _ _ i j (ikey x.1, x.2) (ikey y.1, y.2) versions_sorted);
      [by rewrite list_lookup_fmap, Hx|by rewrite list_lookup_fmap, Hy|lia]. }
  apply (ikc_compare_pkeys ucmp) in Hlt; [lia|done..].
Qed.

(** A later version of the same or a smaller key has the same key. *)
Lemma user_eq i j x y :
  (i <= j)%nat -> es !! i = Some x -> es !! j = Some y -> ldb_compare ucmp (ukey y) (ukey x) <= 0 ->
  ldb_compare ucmp (ukey x) (ukey y) = 0.
Proof.
  intros Hij Hx Hy H. destruct (version_ok i x Hx) as [_ Dx], (version_ok j y Hy) as [_ Dy].
  pose proof (user_le i j x y Hij Hx Hy). apply (compare_le_flip udom ucmp) in H; [|done..]. lia.
Qed.

(** After an included version, nothing of its key is shown. *)
Lemma not_shown_after i j x y :
  (i < j)%nat -> es !! i = Some x -> es !! j = Some y -> sequence x.1 <= snapshot ->
  ldb_compare ucmp (ukey y) (ukey x) <= 0 -> shows j = false.
Proof.
  intros Hij Hx Hy Hs H. destruct (shows j) eqn:E; [|done]. apply (shown_iff j y Hy) in E as (_ & _ & E).
  exfalso. apply (E i x Hij Hx Hs). apply (user_eq i j x y); [lia|done..].
Qed.

(** Two versions shown have different keys. *)
Lemma shown_lt i j x y :
  (i < j)%nat -> es !! i = Some x -> es !! j = Some y -> shows i = true -> shows j = true ->
  ldb_compare ucmp (ukey x) (ukey y) < 0.
Proof.
  intros Hij Hx Hy Hi Hj. pose proof (user_le i j x y ltac:(lia) Hx Hy).
  apply (shown_iff i x Hx) in Hi as (Hs & _). apply (shown_iff j y Hy) in Hj as (_ & _ & E).
  pose proof (E i x Hij Hx Hs). lia.
Qed.
End ViewLemmas.

(** ** The iterator shows the view *)

Section Iteration.
Context {T : Type} (ops : iter_ops T).
Context (udom : bytes -> Prop) (ucmp : comparator) `{!ComparatorLaws udom ucmp} (snapshot : Z).
Context (es : list version) (rep : T -> option nat -> Prop).

Local Abbreviation ukey x := (user_key (fst x)).
Local Abbreviation kvs := (map (fun x => (ikey (fst x), snd x)) es).
Local Abbreviation shows := (shown ucmp snapshot es).
Local Abbreviation rk := (rank ucmp snapshot es).
Local Abbreviation seen := (view ucmp snapshot es).

Context `{!IteratorLaws ops (ikey_dom udom) (ldb_ikc_init ucmp) kvs rep}.
Hypothesis versions_wf : Forall (fun x => pkey_wf x.1 /\ udom (ukey x)) es.
Hypothesis versions_sorted : sorted_pairs (ldb_ikc_init ucmp) kvs.
Hypothesis versions_size : Forall (fun x => zlen (ukey x) + 8 + zlen x.2 < 2 ^ 62) es.

Record base_ok (it : dbiter T) : Prop := {
  ok_ucmp : db_ucmp it = ucmp;
  ok_sequence : db_sequence it = snapshot;
  ok_status : db_status it = LDB_OK;
  ok_rnd : seed_ok (db_rnd it);
  ok_bytes : 0 <= db_bytes_until_read_sampling it < 2 ^ 63
}.

(** Where the internal iterator stands when the shown version [c] was reached
    backwards: before [c], with nothing included in between. *)
Definition start (q : option nat) : nat := match q with Some q => S q | None => 0 end.

Definition reverse_pos (q : option nat) (c : nat) : Prop :=
  (start q <= c)%nat /\
  (forall j y, (start q <= j < c)%nat -> es !! j = Some y -> snapshot < sequence y.1) /\
  (forall i, q = Some i -> exists y, es !! i = Some y /\ sequence y.1 <= snapshot).

Definition db_rep (it : dbiter T) (p : option nat) : Prop :=
  base_ok it /\
  match p with
  | None => db_valid it = false /\ exists q, rep (db_iter it) q
  | Some p => db_valid it = true /\ exists c x, es !! c = Some x /\ shows c = true /\ p = rk c /\
      match db_direction it with
      | LDB_FORWARD => rep (db_iter it) (Some c)
      | LDB_REVERSE => db_saved_key it = ukey x /\ db_saved_value it = x.2 /\
          exists q, rep (db_iter it) q /\ reverse_pos q c
      end
  end.

Lemma kvs_lookup i x : es !! i = Some x -> kvs !! i = Some (ikey x.1, x.2).
Proof. intros H. by rewrite list_lookup_fmap, H. Qed.

Lemma internal_entry t i x :
  rep t (Some i) -> es !! i = Some x -> it_key ops t = Some (ikey x.1) /\ it_value ops t = Some x.2.
Proof. intros R H. by apply (laws_entry t i (ikey x.1, x.2) R), kvs_lookup. Qed.

Lemma internal_lookup t i : rep t (Some i) -> exists x, es !! i = Some x.
Proof. intros R. apply lookup_lt_is_Some_2. pose proof (laws_bound t i R) as H. by rewrite length_map in H. Qed.

Lemma internal_valid t q : rep t q -> it_valid ops t = bool_decide (q <> None).
Proof. apply laws_valid. Qed.

Lemma extract_ikey i x : es !! i = Some x -> ldb_extract_user_key (ikey x.1) = ukey x.
Proof. intros H. apply user_key_ikey. by eapply version_ok. Qed.

Lemma parse_key_ok it i x :
  base_ok it -> rep (db_iter it) (Some i) -> es !! i = Some x ->
  exists rnd n samples, parse_key ops it = Some (Some x.1, set_sampling it rnd n samples) /\
    seed_ok rnd /\ 0 <= n < 2 ^ 63.
Proof.
  intros B R Hx. destruct (internal_entry _ i x R Hx) as [Ek Ev]. unfold parse_key. rewrite Ek, Ev. cbn [mbind option_bind].
  destruct (version_ok udom es versions_wf i x Hx) as [W _].
  assert (0 <= zlen (ikey x.1) + zlen x.2 < 2 ^ 62) as Hsize.
  { rewrite zlen_ikey. unfold ldb_pkey_size. pose proof (zlen_nonneg (ukey x)). pose proof (zlen_nonneg x.2).
    rewrite List.Forall_forall in versions_size. pose proof (versions_size x). 
    assert (In x es) as Hin by (apply list_elem_of_In; by eapply list_elem_of_lookup_2). specialize (H1 Hin). lia. }
  rewrite u64_small by lia.
  destruct (sample_loop_total (2 * Z.to_nat (zlen (ikey x.1) + zlen x.2) + 1) (db_rnd it) (db_bytes_until_read_sampling it)
    (zlen (ikey x.1) + zlen x.2) (ikey x.1) (db_samples it)) as (rnd & n & samples & E & Hr & Hn);
    [apply B|apply B|done|left; pose proof (ok_bytes _ B); lia|].
  rewrite E. cbn [mbind option_bind]. rewrite (pkey_import_export x.1 W).
  do 3 eexists. split; [reflexivity|]. split; [done|]. lia.
Qed.

Lemma base_set_iter it t : base_ok it -> base_ok (set_iter it t).
Proof. intros B. split; apply B. Qed.
Lemma base_set_saved it k v : base_ok it -> base_ok (set_saved it k v).
Proof. intros B. split; apply B. Qed.
Lemma base_set_valid it v : base_ok it -> base_ok (set_valid it v).
Proof. intros B. split; apply B. Qed.
Lemma base_set_direction it d : base_ok it -> base_ok (set_direction it d).
Proof. intros B. split; apply B. Qed.
Lemma base_set_sampling it rnd n samples : base_ok it -> seed_ok rnd -> 0 <= n < 2 ^ 63 -> base_ok (set_sampling it rnd n samples).
Proof. intros B H1 H2. split; try done; apply B. Qed.

(** *** Forwards *)

(** What the loop of [find_next_user_entry] relies on at version [i]: keys with
    an included version before [i] are skipped, and nothing included from [i]
    on is below the saved key. *)
Record forward_inv (it : dbiter T) (i : nat) (skipping : bool) : Prop := {
  fwd_straddle j' j y' y : (j' < i <= j)%nat -> es !! j' = Some y' -> es !! j = Some y ->
    sequence y'.1 <= snapshot -> ldb_compare ucmp (ukey y') (ukey y) = 0 ->
    skipping = true /\ ldb_compare ucmp (ukey y) (db_saved_key it) <= 0;
  fwd_above j y : skipping = true -> (i <= j)%nat -> es !! j = Some y -> sequence y.1 <= snapshot ->
    ldb_compare ucmp (db_saved_key it) (ukey y) <= 0;
  fwd_dom : skipping = true -> udom (db_saved_key it)
}.

(** The versions the loop may stop at are those shown from [m] on. *)
Definition forward_goal (it : dbiter T) (i m : nat) (skipping : bool) : Prop :=
  (forall j y, (i <= j)%nat -> es !! j = Some y -> shows j = true ->
    ((m <= j)%nat <-> ~ (skipping = true /\ ldb_compare ucmp (ukey y) (db_saved_key it) <= 0))) /\
  (forall j, (m <= j)%nat -> shows j = true -> (i <= j)%nat).

Lemma forward_step it it' i x m skipping :
  es !! i = Some x -> db_saved_key it' = db_saved_key it ->
  forward_inv it i skipping -> forward_goal it i m skipping ->
  (shows i = true -> (m <= i)%nat -> False) ->
  (sequence x.1 <= snapshot -> skipping = true /\ ldb_compare ucmp (ukey x) (db_saved_key it) <= 0) ->
  forward_inv it' (S i) skipping /\ forward_goal it' (S i) m skipping.
Proof.
  intros Hx Es I G Hshow Hskip. split.
  - split; rewrite ?Es.
    + intros j' j y' y Hj Hy' Hy Hs E. destruct (decide (j' = i)) as [->|Hne].
      * simplify_eq. destruct (Hskip Hs) as [-> Hle]. split; [done|].
        destruct (version_ok udom es versions_wf i x Hx) as [_ Dx], (version_ok udom es versions_wf j y Hy) as [_ Dy].
        apply (compare_trans _ (ukey x)); [done|done|by eapply fwd_dom| |done].
        apply (compare_eq_flip udom ucmp) in E; [lia|done..].
      * apply (fwd_straddle _ _ _ I j' j y' y); [lia|done..].
    + intros j y Hsk Hj. apply (fwd_above _ _ _ I j y); [done|lia].
    + apply (fwd_dom _ _ _ I).
  - destruct G as [G1 G2]. split; rewrite ?Es.
    + intros j y Hj. apply G1. lia.
    + intros j Hm Hsj. pose proof (G2 j Hm Hsj). destruct (decide (j = i)) as [->|]; [by exfalso; apply Hshow|lia].
Qed.

(** At a deletion the key is saved and skipped from then on. *)
Lemma forward_deletion it it' i x m skipping :
  es !! i = Some x -> db_saved_key it' = ukey x -> sequence x.1 <= snapshot -> type x.1 = LDB_TYPE_DELETION ->
  forward_inv it i skipping -> forward_goal it i m skipping ->
  forward_inv it' (S i) true /\ forward_goal it' (S i) m true.
Proof.
  intros Hx Es Hs Ht I [G1 G2]. destruct (version_ok udom es versions_wf i x Hx) as [_ Dx].
  assert (shows i = false) as Hns.
  { destruct (shows i) eqn:E; [|done]. apply (shown_iff ucmp snapshot es i x Hx) in E as (_ & E & _). by rewrite Ht in E. }
  split.
  - split; rewrite Es.
    + intros j' j y' y Hj Hy' Hy Hs' E. split; [done|].
      destruct (version_ok udom es versions_wf j y Hy) as [_ Dy], (version_ok udom es versions_wf j' y' Hy') as [_ Dy'].
      apply (compare_trans _ (ukey y')); [done|done|done| |].
      * apply (compare_eq_flip udom ucmp) in E; [lia|done..].
      * apply (user_le udom ucmp es versions_wf versions_sorted j' i); [lia|done..].
    + intros j y _ Hj Hy _. apply (user_le udom ucmp es versions_wf versions_sorted i j); [lia|done..].
    + done.
  - split; rewrite ?Es.
    + intros j y Hj Hy Hsj. destruct (version_ok udom es versions_wf j y Hy) as [_ Dy].
      assert (ldb_compare ucmp (ukey y) (ukey x) <= 0 -> False) as Hgt.
      { intros H. rewrite (not_shown_after udom ucmp snapshot es versions_wf versions_sorted i j x y) in Hsj by (done || lia). done. }
      split; [intros _ [_ H]; by apply Hgt|]. intros _. apply (G1 j y ltac:(lia) Hy Hsj). intros [Hsk Hle].
      apply Hgt. apply (compare_trans _ (db_saved_key it)); [done|by eapply fwd_dom|done|done|].
      by apply (fwd_above _ _ _ I i x).
    + intros j Hm Hsj. pose proof (G2 j Hm Hsj). destruct (decide (j = i)) as [->|]; [by rewrite Hns in Hsj|lia].
Qed.

(** A value that is not skipped is shown. *)
Lemma forward_stop it i x skipping :
  es !! i = Some x -> forward_inv it i skipping -> sequence x.1 <= snapshot -> type x.1 = LDB_TYPE_VALUE ->
  ~ (skipping = true /\ ldb_compare ucmp (ukey x) (db_saved_key it) <= 0) -> shows i = true.
Proof.
  intros Hx I Hs Ht Hn. apply (shown_iff ucmp snapshot es i x Hx). split; [done|]. split; [done|].
  intros j y Hj Hy Hsy E. apply Hn. apply (fwd_straddle _ _ _ I j i y x); [lia|done..].
Qed.

Lemma position_rank_none m : (m <= length es)%nat -> (forall j, (m <= j)%nat -> shows j = false) -> position seen (rk m) = None.
Proof.
  intros Hm H. apply position_none. rewrite view_length.
  rewrite (rank_skip ucmp snapshot es m (length es)) by (try done; intros; apply H; lia). lia.
Qed.

Lemma position_rank_some m j :
  (m <= j)%nat -> shows j = true -> (forall k, (m <= k < j)%nat -> shows k = false) -> position seen (rk m) = Some (rk j).
Proof.
  intros Hm Hj H. rewrite <- (rank_skip ucmp snapshot es m j) by done. apply position_some. by apply rank_lt.
Qed.

Lemma not_shown_beyond j : (length es <= j)%nat -> shows j = false.
Proof. intros H. unfold shown. by rewrite lookup_ge_None_2. Qed.

(** [continue]: the step to the next version, or the end. *)
Lemma forward_continue fuel it i m skipping :
  base_ok it -> rep (db_iter it) (Some i) -> (m <= length es)%nat ->
  forward_inv it (S i) skipping -> forward_goal it (S i) m skipping ->
  (forall it', base_ok it' -> db_direction it' = db_direction it -> rep (db_iter it') (Some (S i)) ->
     forward_inv it' (S i) skipping -> forward_goal it' (S i) m skipping ->
     exists it'', find_next_user_entry ops fuel it' skipping = Some it'' /\ db_rep it'' (position seen (rk m))) ->
  exists it'', (s ← it_next ops (db_iter it);
     if it_valid ops s then find_next_user_entry ops fuel (set_iter it s) skipping
     else Some (set_valid (set_saved_key (set_iter it s) []) false)) = Some it'' /\
    db_rep it'' (position seen (rk m)).
Proof.
  intros B R Hm I G IH. destruct (laws_next _ i R) as (s & E & Rs). rewrite E. cbn [mbind option_bind].
  rewrite Nat.add_1_r in Rs. unfold position in Rs. rewrite length_map in Rs. rewrite (internal_valid _ _ Rs).
  case_bool_decide as Hlt.
  - rewrite bool_decide_eq_true_2 by done. apply IH; try done; [by apply base_set_iter|].
    destruct I as [I1 I2 I3]. by split.
  - rewrite bool_decide_eq_false_2 by (intros H; by apply H). eexists. split; [reflexivity|].
    rewrite position_rank_none; [|done|].
    + split; [by apply base_set_valid, base_set_saved, base_set_iter|]. split; [done|]. by exists None.
    + intros j Hj. destruct (shows j) eqn:Es; [|done]. pose proof (proj2 G j Hj Es).
      by rewrite not_shown_beyond in Es by lia.
Qed.

Lemma find_next_ok fuel it i m skipping :
  base_ok it -> db_direction it = LDB_FORWARD -> rep (db_iter it) (Some i) -> (m <= length es)%nat ->
  forward_inv it i skipping -> forward_goal it i m skipping -> (length es - i < fuel)%nat ->
  exists it', find_next_user_entry ops fuel it skipping = Some it' /\ db_rep it' (position seen (rk m)).
Proof.
  revert it i skipping. induction fuel as [|fuel IH]; intros it i skipping B Hd R Hm I G Hf; [lia|].
  destruct (internal_lookup _ _ R) as [x Hx]. pose proof (lookup_lt_Some _ _ _ Hx) as Hi.
  destruct (parse_key_ok it i x B R Hx) as (rnd & n & samples & E & Hr & Hn).
  pose proof (base_set_sampling it rnd n samples B Hr Hn) as B1.
  assert (forall it' sk, base_ok it' -> db_direction it' = LDB_FORWARD -> rep (db_iter it') (Some i) ->
    forward_inv it' (S i) sk -> forward_goal it' (S i) m sk ->
    exists it'', (s ← it_next ops (db_iter it');
      if it_valid ops s then find_next_user_entry ops fuel (set_iter it' s) sk
      else Some (set_valid (set_saved_key (set_iter it' s) []) false)) = Some it'' /\
      db_rep it'' (position seen (rk m))) as Hcont.
  { intros it' sk B' Hd' R' I' G'. apply (forward_continue fuel it' i m sk); try done.
    intros it2 B2 D2 R2 I2 G2. apply (IH it2 (S i) sk); try done; [by rewrite D2|lia]. }
  cbn [find_next_user_entry]. rewrite E. cbn [mbind option_bind].
  change (db_sequence (set_sampling it rnd n samples)) with (db_sequence it). rewrite (ok_sequence _ B).
  destruct (Z.leb_spec (sequence x.1) snapshot) as [Hs|Hs].
  - destruct (type x.1) eqn:Et.
    + destruct (forward_deletion it (set_saved_key (set_sampling it rnd n samples) (ukey x)) i x m skipping) as [I' G']; try done.
      apply Hcont; try done. by apply base_set_saved.
    + change (db_ucmp (set_sampling it rnd n samples)) with (db_ucmp it).
      change (db_saved_key (set_sampling it rnd n samples)) with (db_saved_key it). rewrite (ok_ucmp _ B).
      destruct (skipping && (ldb_compare ucmp (ukey x) (db_saved_key it) <=? 0)) eqn:Esk.
      * apply andb_true_iff in Esk as [-> Hle]. apply Z.leb_le in Hle.
        destruct (forward_step it (set_sampling it rnd n samples) i x m true) as [I' G']; try done.
        { intros Hsi Hmi. by apply (proj1 (proj1 G i x ltac:(lia) Hx Hsi) Hmi). }
        by apply Hcont.
      * assert (~ (skipping = true /\ ldb_compare ucmp (ukey x) (db_saved_key it) <= 0)) as Hn'.
        { intros [-> Hle]. by rewrite (proj2 (Z.leb_le _ _)) in Esk. }
        pose proof (forward_stop it i x skipping Hx I Hs Et Hn') as Hsi.
        eexists. split; [reflexivity|]. pose proof (proj2 (proj1 G i x ltac:(lia) Hx Hsi) Hn') as Hmi.
        rewrite (position_rank_some m i Hmi Hsi).
        -- split; [by apply base_set_saved, base_set_valid|]. split; [done|]. exists i, x. split; [done|]. split; [done|].
           split; [done|]. cbn [set_saved_key set_saved set_valid set_sampling db_direction db_iter]. by rewrite Hd.
        -- intros k Hk. destruct (shows k) eqn:Ek; [|done]. pose proof (proj2 G k ltac:(lia) Ek). lia.
  - destruct (forward_step it (set_sampling it rnd n samples) i x m skipping) as [I' G']; try done.
    + intros Hsi. apply (shown_iff ucmp snapshot es i x Hx) in Hsi. lia.
    + lia.
    + by apply Hcont.
Qed.

(** *** Backwards *)

(** What the loop of [find_prev_user_entry] has found in the versions from [m]
    up to [top]. *)
Definition backward_inv (it : dbiter T) (vt : ldb_valtype) (m top : nat) : Prop :=
  match vt with
  | LDB_TYPE_DELETION => forall j, (m <= j < top)%nat -> shows j = false
  | LDB_TYPE_VALUE => exists c x, (m <= c < top)%nat /\ es !! c = Some x /\ sequence x.1 <= snapshot /\
      type x.1 = LDB_TYPE_VALUE /\ db_saved_key it = ukey x /\ db_saved_value it = x.2 /\
      (forall j y, (m <= j < c)%nat -> es !! j = Some y -> snapshot < sequence y.1) /\
      (forall j, (c < j < top)%nat -> shows j = false)
  end.

Definition backward_done (it : dbiter T) (vt : ldb_valtype) (top : nat) : Prop :=
  match vt with
  | LDB_TYPE_DELETION => forall j, (j < top)%nat -> shows j = false
  | LDB_TYPE_VALUE => exists c x, (c < top)%nat /\ es !! c = Some x /\ shows c = true /\
      db_saved_key it = ukey x /\ db_saved_value it = x.2 /\
      (exists q, rep (db_iter it) q /\ reverse_pos q c) /\ (forall j, (c < j < top)%nat -> shows j = false)
  end.

Lemma excluded_not_shown i x : es !! i = Some x -> snapshot < sequence x.1 -> shows i = false.
Proof.
  intros Hx H. destruct (shows i) eqn:E; [|done]. apply (shown_iff ucmp snapshot es i x Hx) in E. lia.
Qed.

(** An included version [i] of the candidate's key hides the candidate. *)
Lemma backward_hidden it vt i x top :
  es !! i = Some x -> sequence x.1 <= snapshot -> backward_inv it vt (S i) top ->
  (vt = LDB_TYPE_DELETION \/ 0 <= ldb_compare ucmp (ukey x) (db_saved_key it)) ->
  forall j, (i < j < top)%nat -> shows j = false.
Proof.
  intros Hx Hs I Hk j Hj. destruct vt; cbn in I; [apply I; lia|].
  destruct I as (c & y & Hc & Hy & _ & _ & Ek & _ & Hinv & Hrest). destruct Hk as [|Hk]; [done|]. rewrite Ek in Hk.
  destruct (version_ok udom es versions_wf i x Hx) as [_ Dx], (version_ok udom es versions_wf c y Hy) as [_ Dy].
  destruct (decide (j = c)) as [->|Hne].
  - apply (not_shown_after udom ucmp snapshot es versions_wf versions_sorted i c x y); try done; [lia|].
    by apply (compare_le_flip udom ucmp).
  - destruct (decide (c < j)%nat); [apply Hrest; lia|].
    destruct (shows j) eqn:E; [|done]. destruct (shown_lookup _ _ _ j E) as [z Hz].
    pose proof (Hinv j z ltac:(lia) Hz). by rewrite (excluded_not_shown j z) in E.
Qed.

(** The candidate is shown when nothing included before it has its key. *)
Lemma backward_candidate i c x :
  es !! c = Some x -> sequence x.1 <= snapshot -> type x.1 = LDB_TYPE_VALUE ->
  (forall j y, (i <= j < c)%nat -> es !! j = Some y -> snapshot < sequence y.1) ->
  (forall j y, (j < i)%nat -> es !! j = Some y -> ldb_compare ucmp (ukey y) (ukey x) <> 0) -> shows c = true.
Proof.
  intros Hx Hs Ht Hinv Hless. apply (shown_iff ucmp snapshot es c x Hx). split; [done|]. split; [done|].
  intros j y Hj Hy Hsy. destruct (decide (j < i)%nat); [by apply (Hless j)|].
  pose proof (Hinv j y ltac:(lia) Hy). lia.
Qed.

Lemma find_prev_loop_ok fuel it vt i top :
  base_ok it -> rep (db_iter it) (Some i) -> backward_inv it vt (S i) top -> (i < top)%nat -> (i < fuel)%nat ->
  exists it' vt', find_prev_loop ops fuel it vt = Some (it', vt') /\ base_ok it' /\
    db_direction it' = db_direction it /\ backward_done it' vt' top /\ exists q, rep (db_iter it') q.
Proof.
  revert it vt i. induction fuel as [|fuel IH]; intros it vt i B R I Htop Hf; [lia|].
  destruct (internal_lookup _ _ R) as [x Hx].
  destruct (parse_key_ok it i x B R Hx) as (rnd & n & samples & E & Hr & Hn).
  pose proof (base_set_sampling it rnd n samples B Hr Hn) as B1. set (it1 := set_sampling it rnd n samples) in *.
  assert (forall it' vt, base_ok it' -> db_direction it' = db_direction it -> rep (db_iter it') (Some i) ->
    backward_inv it' vt i top ->
    exists it'' vt'', (s ← it_prev ops (db_iter it');
      if it_valid ops s then find_prev_loop ops fuel (set_iter it' s) vt else Some (set_iter it' s, vt)) = Some (it'', vt'') /\
      base_ok it'' /\ db_direction it'' = db_direction it /\ backward_done it'' vt'' top /\ exists q, rep (db_iter it'') q) as Hcont.
  { intros it' vt' B' D' R' I'. destruct (laws_prev _ i R') as (s & Es & Rs). rewrite Es. cbn [mbind option_bind].
    rewrite (internal_valid _ _ Rs). destruct i as [|i]; cbn [position_before] in *.
    - rewrite bool_decide_eq_false_2 by (intros H; by apply H). do 2 eexists. split; [reflexivity|].
      split; [by apply base_set_iter|]. split; [done|]. split; [|by exists None].
      destruct vt'; cbn in I' |- *; [intros j Hj; apply I'; lia|].
      destruct I' as (c & y & Hc & Hy & Hsy & Hty & Ek & Ev & Hinv & Hrest).
      exists c, y. split; [lia|]. split; [done|]. split; [by apply (backward_candidate 0 c y); [..|intros; lia]|].
      split; [done|]. split; [done|]. split; [|done]. exists None. split; [done|]. split; [cbn; lia|].
      split; [done|done].
    - rewrite bool_decide_eq_true_2 by done.
      destruct (IH (set_iter it' s) vt' i) as (it2 & vt2 & E2 & B2 & D2 & H2); [by apply base_set_iter|done|done|lia|lia|].
      exists it2, vt2. split; [done|]. split; [done|]. by split; [rewrite D2|]. }
  cbn [find_prev_loop]. rewrite E. cbn [mbind option_bind]. change (db_sequence it1) with (db_sequence it).
  rewrite (ok_sequence _ B). destruct (Z.leb_spec (sequence x.1) snapshot) as [Hs|Hs].
  - change (db_ucmp it1) with (db_ucmp it). change (db_saved_key it1) with (db_saved_key it). rewrite (ok_ucmp _ B).
    destruct (negb (bool_decide (vt = LDB_TYPE_DELETION)) && (ldb_compare ucmp (ukey x) (db_saved_key it) <? 0)) eqn:Eb.
    + apply andb_true_iff in Eb as [Hvt Hlt]. apply Z.ltb_lt in Hlt.
      apply negb_true_iff, bool_decide_eq_false in Hvt. destruct vt; [done|].
      destruct I as (c & y & Hc & Hy & Hsy & Hty & Ek & Ev & Hinv & Hrest).
      do 2 eexists. split; [reflexivity|]. split; [done|]. split; [done|]. split; [|by exists (Some i)].
      exists c, y. split; [lia|]. split; [done|]. split.
      * apply (backward_candidate (S i) c y); try done. intros j z Hj Hz E0.
        pose proof (user_le udom ucmp es versions_wf versions_sorted j i z x ltac:(lia) Hz Hx) as Hle.
        destruct (version_ok udom es versions_wf j z Hz) as [_ Dz], (version_ok udom es versions_wf i x Hx) as [_ Dx],
          (version_ok udom es versions_wf c y Hy) as [_ Dy]. rewrite Ek in Hlt.
        pose proof (compare_le_lt_trans udom ucmp _ _ _ Dz Dx Dy Hle Hlt). lia.
      * split; [done|]. split; [done|]. split; [|done]. exists (Some i). split; [done|]. split; [cbn; lia|].
        split; [done|]. intros i' [= <-]. by exists x.
    + assert (forall j, (i < j < top)%nat -> shows j = false) as Hhid.
      { apply (backward_hidden it vt i x top Hx Hs I). apply andb_false_iff in Eb as [Hb|Hb].
        - left. apply negb_false_iff, bool_decide_eq_true in Hb. done.
        - right. by apply Z.ltb_ge in Hb. }
      destruct (type x.1) eqn:Et.
      * apply Hcont; [by apply base_set_saved|done|done|]. intros j Hj. destruct (decide (j = i)) as [->|]; [|apply Hhid; lia].
        destruct (shows i) eqn:Es; [|done]. apply (shown_iff ucmp snapshot es i x Hx) in Es as (_ & Es & _). by rewrite Et in Es.
      * destruct (internal_entry _ i x R Hx) as [Eik Eiv]. change (db_iter it1) with (db_iter it). rewrite Eik, Eiv.
        cbn [mbind option_bind]. rewrite (extract_ikey i x Hx). apply Hcont; [by apply base_set_saved|done|done|].
        exists i, x. repeat split; try done; lia.
  - apply Hcont; [done|done|done|]. destruct vt; cbn in I |- *.
    + intros j Hj. destruct (decide (j = i)) as [->|]; [by apply (excluded_not_shown i x)|apply I; lia].
    + destruct I as (c & y & Hc & Hy & Hsy & Hty & Ek & Ev & Hinv & Hrest). exists c, y.
      split; [lia|]. do 5 (split; [done|]). split; [|done]. intros j z Hj Hz.
      destruct (decide (j = i)) as [->|]; [by simplify_eq|apply (Hinv j); [lia|done]].
Qed.

Lemma find_prev_ok fuel it q :
  base_ok it -> db_direction it = LDB_REVERSE -> rep (db_iter it) q -> (length es < fuel)%nat ->
  exists it', find_prev_user_entry ops fuel it = Some it' /\ db_rep it' (position_before (rk (start q))).
Proof.
  intros B Hd R Hf. unfold find_prev_user_entry.
  assert (exists it' vt', (if it_valid ops (db_iter it) then find_prev_loop ops fuel it LDB_TYPE_DELETION
      else Some (it, LDB_TYPE_DELETION)) = Some (it', vt') /\ base_ok it' /\ db_direction it' = LDB_REVERSE /\
      backward_done it' vt' (start q) /\ exists q, rep (db_iter it') q) as (it1 & vt & E & B1 & D1 & Done & R1).
  { rewrite (internal_valid _ _ R). destruct q as [i|].
    - rewrite bool_decide_eq_true_2 by done. destruct (internal_lookup _ _ R) as [x Hx]. pose proof (lookup_lt_Some _ _ _ Hx).
      rewrite <- Hd. apply (find_prev_loop_ok fuel it LDB_TYPE_DELETION i (S i)); try done; [|lia|lia]. intros j Hj. lia.
    - rewrite bool_decide_eq_false_2 by (intros H; by apply H). do 2 eexists. split; [reflexivity|]. split; [done|].
      split; [done|]. split; [intros j Hj; cbn in Hj; lia|by exists None]. }
  rewrite E. cbn [mbind option_bind]. destruct vt; eexists; (split; [reflexivity|]).
  - rewrite (rank_skip ucmp snapshot es 0 (start q)) by (try lia; intros; apply Done; lia). cbn.
    split; [by apply base_set_direction, base_set_saved, base_set_valid|done].
  - destruct Done as (c & x & Hc & Hx & Hsc & Ek & Ev & Hq & Hrest).
    rewrite (rank_skip ucmp snapshot es (S c) (start q)) by (try lia; intros; apply Hrest; lia).
    rewrite rank_S, Hsc, Nat.add_1_r. cbn [position_before]. split; [by apply base_set_valid|]. split; [done|].
    exists c, x. split; [done|]. split; [done|]. split; [done|]. cbn [set_valid db_direction]. rewrite D1. done.
Qed.

(** *** The operations *)

Context (fuel : nat).
Hypothesis enough : (length es < fuel)%nat.
Hypothesis snapshot_range : 0 <= snapshot <= LDB_MAX_SEQUENCE.

Lemma db_rep_parts it p : db_rep it p -> base_ok it /\ exists q, rep (db_iter it) q.
Proof.
  intros [B H]. split; [done|]. destruct p; [|apply H]. destruct H as (_ & c & x & _ & _ & _ & H).
  destruct (db_direction it); [by eexists|]. destruct H as (_ & _ & q & R & _). by exists q.
Qed.

Lemma position_kvs n : position kvs n = if bool_decide (n < length es)%nat then Some n else None.
Proof. unfold position. by rewrite length_map. Qed.

Lemma forward_goal_false it i : forward_goal it i i false.
Proof. split; [|done]. intros j y Hj _ _. split; [by intros _ [? _]|done]. Qed.

Lemma dbiter_first_ok it p :
  db_rep it p -> exists it', ldb_dbiter_first ops fuel it = Some it' /\ db_rep it' (position seen 0).
Proof.
  intros H. destruct (db_rep_parts it p H) as [B [q R]]. unfold ldb_dbiter_first.
  set (it0 := set_saved (set_direction it LDB_FORWARD) (db_saved_key it) []).
  assert (base_ok it0) as B0 by by apply base_set_saved, base_set_direction.
  change (db_iter it0) with (db_iter it). destruct (laws_first _ q R) as (s & E & Rs). rewrite E. cbn [mbind option_bind].
  rewrite (internal_valid _ _ Rs). rewrite position_kvs in Rs |- *.
  change (position seen 0) with (position seen (rk 0)). case_bool_decide as Hlt.
  - rewrite bool_decide_eq_true_2 by done.
    apply (find_next_ok fuel (set_iter it0 s) 0 0 false); try done; [by apply base_set_iter|lia| |apply forward_goal_false|lia].
    split; [intros; lia|done|done].
  - rewrite bool_decide_eq_false_2 by (intros N; by apply N). eexists. split; [reflexivity|].
    rewrite position_rank_none; [|lia|intros j _; apply not_shown_beyond; lia].
    split; [by apply base_set_valid, base_set_iter|]. split; [done|by exists None].
Qed.

Lemma dbiter_last_ok it p :
  db_rep it p -> exists it', ldb_dbiter_last ops fuel it = Some it' /\ db_rep it' (position_before (length seen)).
Proof.
  intros H. destruct (db_rep_parts it p H) as [B [q R]]. unfold ldb_dbiter_last.
  set (it0 := set_saved (set_direction it LDB_REVERSE) (db_saved_key it) []).
  change (db_iter it0) with (db_iter it). destruct (laws_last _ q R) as (s & E & Rs). rewrite E. cbn [mbind option_bind].
  rewrite length_map in Rs. rewrite view_length.
  replace (rk (length es)) with (rk (start (position_before (length es)))) by (by destruct (length es)).
  apply find_prev_ok; try done. by apply base_set_iter, base_set_saved, base_set_direction.
Qed.

(** *** Seeking *)

Lemma kvs_dom : Forall (fun kv => ikey_dom udom kv.1) kvs.
Proof.
  apply List.Forall_map. eapply List.Forall_impl; [|exact versions_wf]. intros x [W D]. cbn. by apply ikey_in_dom.
Qed.

Definition seek_index (t : bytes) : nat := count_lt (ldb_ikc_init ucmp) (ikey (seek_pkey t snapshot)) kvs.

Lemma seek_pkey_wf t : zlen t < 2 ^ 64 - 8 -> pkey_wf (seek_pkey t snapshot).
Proof. intros H. split; done. Qed.

(** The included versions before the index sought are those below the target. *)
Lemma seek_index_spec t j y :
  udom t -> zlen t < 2 ^ 64 - 8 -> es !! j = Some y -> sequence y.1 <= snapshot ->
  (j < seek_index t)%nat <-> ldb_compare ucmp (ukey y) t < 0.
Proof.
  intros Ht Hl Hy Hs. pose proof (seek_pkey_wf t Hl) as W. destruct (version_ok udom es versions_wf j y Hy) as [Wy Dy].
  assert (ldb_compare (ldb_ikc_init ucmp) (ikey y.1) (ikey (seek_pkey t snapshot)) < 0 <-> ldb_compare ucmp (ukey y) t < 0) as Hc.
  { change (ldb_compare (ldb_ikc_init ucmp)) with (ldb_ikc_compare ucmp). rewrite (ikc_compare_pkeys ucmp) by done.
    cbn [user_key sequence type seek_pkey]. pose proof (valtype_num_range (type y.1)).
    change (valtype_num LDB_VALTYPE_SEEK) with 1. lia. }
  rewrite <- Hc. split.
  - intros Hj. apply (count_lt_below _ _ kvs j (ikey y.1, y.2) Hj). by apply kvs_lookup.
  - intros Hlt. destruct (decide (j < seek_index t)%nat); [done|].
    pose proof (count_lt_above (ikey_dom udom) (ldb_ikc_init ucmp) (ikey (seek_pkey t snapshot)) kvs j (ikey y.1, y.2)
      versions_sorted kvs_dom (ikey_in_dom udom _ W Ht) ltac:(unfold seek_index in *; lia) (kvs_lookup j y Hy)) as Hge.
    cbn [fst] in Hge. lia.
Qed.

Lemma seek_rank t : udom t -> zlen t < 2 ^ 64 - 8 -> count_lt ucmp t seen = rk (seek_index t).
Proof.
  intros Ht Hl. apply count_lt_unique.
  - intros p kv Hp Hkv. destruct (view_origin ucmp snapshot es p kv Hkv) as (i & x & Hx & Hs & <- & ->). cbn.
    pose proof (proj1 (shown_iff ucmp snapshot es i x Hx) Hs) as (Hsx & _).
    apply (seek_index_spec t i x); try done. destruct (decide (i < seek_index t)%nat); [done|].
    pose proof (rank_mono ucmp snapshot es (seek_index t) i ltac:(lia)). lia.
  - intros kv Hkv. destruct (view_origin ucmp snapshot es _ kv Hkv) as (i & x & Hx & Hs & Er & ->). cbn.
    pose proof (proj1 (shown_iff ucmp snapshot es i x Hx) Hs) as (Hsx & _).
    destruct (Z.le_gt_cases 0 (ldb_compare ucmp (ukey x) t)) as [|Hlt]; [done|].
    apply (seek_index_spec t i x) in Hlt; try done.
    pose proof (rank_mono ucmp snapshot es (S i) (seek_index t) Hlt) as Hm. rewrite rank_S, Hs in Hm. lia.
  - rewrite view_length. apply rank_mono. unfold seek_index. etransitivity; [apply count_lt_length|]. apply Nat.eq_le_incl, length_map.
Qed.

Lemma dbiter_seek_ok it p t :
  db_rep it p -> udom t -> zlen t < 2 ^ 64 - 8 ->
  exists it', ldb_dbiter_seek ops fuel it t = Some it' /\ db_rep it' (position seen (count_lt ucmp t seen)).
Proof.
  intros H Ht Hl. destruct (db_rep_parts it p H) as [B [q R]]. unfold ldb_dbiter_seek.
  set (it0 := set_saved (set_direction it LDB_FORWARD) [] []). change (db_sequence it0) with (db_sequence it).
  rewrite (ok_sequence _ B). change (ldb_pkey_export (db_saved_key it0) (ldb_pkey_init t snapshot LDB_VALTYPE_SEEK))
    with (ikey (seek_pkey t snapshot)).
  set (it1 := set_saved_key it0 _). assert (base_ok it1) as B1 by by apply base_set_saved, base_set_saved, base_set_direction.
  change (db_iter it1) with (db_iter it). change (db_saved_key it1) with (ikey (seek_pkey t snapshot)).
  destruct (laws_seek _ q (ikey (seek_pkey t snapshot)) R) as (s & E & Rs); [by apply ikey_in_dom; [apply seek_pkey_wf|]|].
  rewrite E. cbn [mbind option_bind]. rewrite (internal_valid _ _ Rs), (seek_rank t Ht Hl).
  fold (seek_index t) in Rs |- *. rewrite position_kvs in Rs |- *.
  case_bool_decide as Hlt.
  - rewrite bool_decide_eq_true_2 by done.
    apply (find_next_ok fuel (set_iter it1 s) (seek_index t) (seek_index t) false); try done;
      [by apply base_set_iter|lia| |apply forward_goal_false|lia].
    split; [|done|done]. intros j' j y' y Hj Hy' Hy Hs Heq.
    destruct (version_ok udom es versions_wf j y Hy) as [_ Dy], (version_ok udom es versions_wf j' y' Hy') as [_ Dy'].
    pose proof (proj1 (seek_index_spec t j' y' Ht Hl Hy' Hs) ltac:(lia)) as Hlt'.
    exfalso. pose proof (count_lt_above (ikey_dom udom) (ldb_ikc_init ucmp) (ikey (seek_pkey t snapshot)) kvs j (ikey y.1, y.2)
      versions_sorted kvs_dom (ikey_in_dom udom _ (seek_pkey_wf t Hl) Ht) ltac:(unfold seek_index in *; lia) (kvs_lookup j y Hy)) as Hge.
    cbn [fst] in Hge. assert (ldb_compare ucmp (ukey y) t < 0) as Hlt2.
    { apply (compare_le_lt_trans udom ucmp _ (ukey y')); [done..| |done].
      apply (compare_eq_flip udom ucmp) in Heq; [lia|done..]. }
    assert (ldb_compare (ldb_ikc_init ucmp) (ikey y.1) (ikey (seek_pkey t snapshot)) < 0); [|lia].
    change (ldb_compare (ldb_ikc_init ucmp)) with (ldb_ikc_compare ucmp).
    apply (ikc_compare_pkeys ucmp); [by eapply (version_ok udom es versions_wf)|by apply seek_pkey_wf|by left].
  - rewrite bool_decide_eq_false_2 by (intros N; by apply N). eexists. split; [reflexivity|].
    assert (seek_index t <= length es)%nat by (unfold seek_index; etransitivity; [apply count_lt_length|apply Nat.eq_le_incl, length_map]).
    rewrite position_rank_none; [|lia|intros j Hj; apply not_shown_beyond; lia].
    split; [by apply base_set_valid, base_set_iter|]. split; [done|by exists None].
Qed.

(** *** Moving *)

(** The next shown version after [c], from any version at or before [c + 1]
    with nothing included in between. *)
Lemma find_next_after it c x i :
  base_ok it -> db_direction it = LDB_FORWARD -> rep (db_iter it) (Some i) -> es !! c = Some x -> shows c = true ->
  db_saved_key it = ukey x -> (i <= S c)%nat ->
  (forall j y, (i <= j < c)%nat -> es !! j = Some y -> snapshot < sequence y.1) ->
  exists it', find_next_user_entry ops fuel it true = Some it' /\ db_rep it' (position seen (S (rk c))).
Proof.
  intros B Hd R Hx Hs Ek Hi Hbetween. pose proof (lookup_lt_Some _ _ _ Hx).
  destruct (version_ok udom es versions_wf c x Hx) as [_ Dx].
  pose proof (proj1 (shown_iff ucmp snapshot es c x Hx) Hs) as (Hsx & _).
  replace (S (rk c)) with (rk (S c)) by (rewrite rank_S, Hs; lia).
  apply (find_next_ok fuel it i (S c) true); try done; [|split|lia].
  - split; rewrite ?Ek; [|intros j y _ Hj Hy Hsy|done].
    + intros j' j y' y Hj Hy' Hy Hsy E. split; [done|].
      destruct (version_ok udom es versions_wf j y Hy) as [_ Dy], (version_ok udom es versions_wf j' y' Hy') as [_ Dy'].
      apply (compare_trans _ (ukey y')); [done..| |].
      * apply (compare_eq_flip udom ucmp) in E; [lia|done..].
      * apply (user_le udom ucmp es versions_wf versions_sorted j' c); [lia|done..].
    + destruct (decide (j < c)%nat); [pose proof (Hbetween j y ltac:(lia) Hy); lia|].
      apply (user_le udom ucmp es versions_wf versions_sorted c j); [lia|done..].
  - rewrite Ek. intros j y Hj Hy Hsj. destruct (lt_eq_lt_dec j c) as [[Hlt| ->]|Hgt].
    + pose proof (Hbetween j y ltac:(lia) Hy). by rewrite (excluded_not_shown j y) in Hsj.
    + simplify_eq. split; [lia|]. intros Hn. exfalso. apply Hn. split; [done|]. rewrite (compare_refl udom ucmp); [done|done].
    + split; [|lia]. intros _ [_ Hle].
      by rewrite (not_shown_after udom ucmp snapshot es versions_wf versions_sorted c j x y) in Hsj.
  - intros j Hj _. lia.
Qed.

Lemma dbiter_next_ok it p :
  db_rep it (Some p) -> exists it', ldb_dbiter_next ops fuel it = Some it' /\ db_rep it' (position seen (p + 1)).
Proof.
  intros (B & V & c & x & Hx & Hs & -> & H). unfold ldb_dbiter_next. rewrite V, Nat.add_1_r.
  pose proof (lookup_lt_Some _ _ _ Hx) as Hc. destruct (db_direction it) eqn:Hd.
  - destruct (internal_entry _ c x H Hx) as [Eik _]. rewrite Eik. cbn [mbind option_bind].
    rewrite (extract_ikey c x Hx). change (db_iter (set_saved_key it (ukey x))) with (db_iter it).
    destruct (laws_next _ c H) as (s & E & Rs). rewrite E. cbn [mbind option_bind].
    change (db_iter (set_iter (set_saved_key it (ukey x)) s)) with s. rewrite (internal_valid _ _ Rs).
    rewrite Nat.add_1_r, position_kvs in *. case_bool_decide as Hlt.
    + rewrite bool_decide_eq_true_2 by done.
      apply (find_next_after _ c x (S c)); try done; [by apply base_set_iter, base_set_saved|intros; lia].
    + rewrite bool_decide_eq_false_2 by (intros N; by apply N). eexists. split; [reflexivity|].
      replace (S (rk c)) with (rk (S c)) by (rewrite rank_S, Hs; lia).
      rewrite position_rank_none; [|lia|intros j Hj; apply not_shown_beyond; lia].
      split; [by apply base_set_saved, base_set_valid, base_set_iter, base_set_saved|]. split; [done|by exists None].
  - destruct H as (Ek & Ev & q & R & Hq1 & Hq2 & Hq3).
    change (db_iter (set_direction it LDB_FORWARD)) with (db_iter it).
    assert (exists s, (if it_valid ops (db_iter it) then it_next ops (db_iter it) else it_first ops (db_iter it)) = Some s /\
      rep s (position kvs (start q))) as (s & E & Rs).
    { rewrite (internal_valid _ _ R). destruct q as [q|].
      - rewrite bool_decide_eq_true_2 by done. destruct (laws_next _ q R) as (s & E & Rs). exists s.
        by rewrite Nat.add_1_r in Rs.
      - rewrite bool_decide_eq_false_2 by (intros N; by apply N). by apply (laws_first _ None). }
    rewrite E. cbn [mbind option_bind]. change (db_iter (set_iter (set_direction it LDB_FORWARD) s)) with s.
    rewrite position_kvs, (bool_decide_eq_true_2 (start q < length es)%nat) in Rs by lia.
    rewrite (internal_valid _ _ Rs), bool_decide_eq_true_2 by done.
    apply (find_next_after _ c x (start q)); try done; [by apply base_set_iter, base_set_direction|lia].
Qed.

(** [prev] first leaves the versions of the current key. *)
Lemma leave_key_ok f it i c x :
  base_ok it -> rep (db_iter it) (Some i) -> es !! c = Some x -> shows c = true -> db_saved_key it = ukey x ->
  (i <= c)%nat -> (forall j, (i <= j < c)%nat -> shows j = false) -> (i < f)%nat ->
  exists found it' q, leave_key ops f it = Some (found, it') /\ base_ok it' /\ rep (db_iter it') q /\
    found = bool_decide (q <> None) /\ rk (start q) = rk c.
Proof.
  intros B R Hx Hs Ek. revert it i B R Ek. induction f as [|f IH]; intros it i B R Ek Hi Hbetween Hf; [lia|].
  cbn [leave_key]. destruct (laws_prev _ i R) as (s & E & Rs). rewrite E. cbn [mbind option_bind].
  rewrite (internal_valid _ _ Rs). destruct i as [|i]; cbn [position_before] in *.
  - rewrite bool_decide_eq_false_2 by (intros N; by apply N).
    exists false, (set_iter it s), None. split; [done|]. split; [by apply base_set_iter|]. split; [done|]. split; [done|].
    symmetry. apply rank_skip; [cbn; lia|done].
  - rewrite bool_decide_eq_true_2 by done. destruct (internal_lookup _ _ Rs) as [y Hy].
    destruct (internal_entry _ i y Rs Hy) as [-> _]. cbn [mbind option_bind]. rewrite (extract_ikey i y Hy).
    change (db_ucmp (set_iter it s)) with (db_ucmp it). change (db_saved_key (set_iter it s)) with (db_saved_key it).
    rewrite (ok_ucmp _ B), Ek. destruct (Z.ltb_spec (ldb_compare ucmp (ukey y) (ukey x)) 0) as [Hlt|Hge].
    + exists true, (set_iter it s), (Some i). split; [done|]. split; [by apply base_set_iter|]. split; [done|].
      split; [by rewrite bool_decide_eq_true_2|]. symmetry. apply rank_skip; [cbn; lia|]. intros k Hk. apply Hbetween. cbn in Hk. lia.
    + apply (IH (set_iter it s) i); try done; [by apply base_set_iter|lia| |lia].
      intros j Hj. destruct (decide (j = i)) as [->|]; [|apply Hbetween; lia].
      destruct (shows i) eqn:Esi; [|done].
      pose proof (shown_lt udom ucmp snapshot es versions_wf versions_sorted i c y x ltac:(lia) Hy Hx Esi Hs). lia.
Qed.

Lemma dbiter_prev_ok it p :
  db_rep it (Some p) -> exists it', ldb_dbiter_prev ops fuel it = Some it' /\ db_rep it' (position_before p).
Proof.
  intros (B & V & c & x & Hx & Hs & -> & H). unfold ldb_dbiter_prev. rewrite V.
  pose proof (lookup_lt_Some _ _ _ Hx) as Hc. destruct (db_direction it) eqn:Hd.
  - destruct (internal_entry _ c x H Hx) as [Eik _]. rewrite Eik. cbn [mbind option_bind]. rewrite (extract_ikey c x Hx).
    destruct (leave_key_ok fuel (set_saved_key it (ukey x)) c c x) as (found & it1 & q & E & B1 & R1 & Ef & Er);
      try done; [by apply base_set_saved|intros; lia|lia|].
    rewrite E. cbn [mbind option_bind]. rewrite <- Er, Ef. destruct q as [q|].
    + rewrite bool_decide_eq_true_2 by done. apply find_prev_ok; try done. by apply base_set_direction.
    + rewrite bool_decide_eq_false_2 by (intros N; by apply N). eexists. split; [reflexivity|].
      split; [by apply base_set_saved, base_set_valid|]. split; [done|by exists None].
  - destruct H as (Ek & Ev & q & R & Hq1 & Hq2 & Hq3).
    rewrite (rank_skip ucmp snapshot es (start q) c Hq1); [by apply find_prev_ok|].
    intros k Hk. destruct (lookup_lt_is_Some_2 es k ltac:(lia)) as [y Hy]. apply (excluded_not_shown k y Hy).
    by apply (Hq2 k).
Qed.

Lemma dbiter_laws :
  IteratorLaws (ldb_dbiter_table ops fuel) (fun t => udom t /\ zlen t < 2 ^ 64 - 8) ucmp seen db_rep.
Proof.
  split; cbn [ldb_dbiter_table it_valid it_status it_key it_value it_first it_last it_seek it_next it_prev].
  - intros it p (_ & _ & c & x & Hx & Hs & -> & _). by apply rank_lt.
  - intros it [p|] (_ & V & _); unfold ldb_dbiter_valid; rewrite V; [by rewrite bool_decide_eq_true_2|].
    by rewrite bool_decide_eq_false_2 by (intros N; by apply N).
  - intros it p H. destruct (db_rep_parts it p H) as [B [q R]]. unfold ldb_dbiter_status. rewrite (ok_status _ B). cbn.
    by apply (laws_status _ q).
  - intros it p kv (B & V & c & x & Hx & Hs & -> & H) Hkv. rewrite (view_at ucmp snapshot es c x Hx Hs) in Hkv.
    injection Hkv as <-. unfold ldb_dbiter_key, ldb_dbiter_value. rewrite V. destruct (db_direction it).
    + destruct (internal_entry _ c x H Hx) as [-> ->]. cbn [mbind option_bind]. by rewrite (extract_ikey c x Hx).
    + destruct H as (-> & -> & _). done.
  - apply dbiter_first_ok.
  - apply dbiter_last_ok.
  - intros it p t R [Ht Hl]. by apply (dbiter_seek_ok it p t).
  - apply dbiter_next_ok.
  - apply dbiter_prev_ok.
Qed.
End Iteration.

(** ** Properties *)

(** C23: The database iterator at a snapshot, over any lawful iterator on
    internal keys, keeps the iterator contract over the view of the snapshot:
    for every user key the newest version the snapshot includes, unless that is
    a deletion.  It does so forwards, backwards and across changes of
    direction, terminates, and its read sampling never gets stuck. *)
Theorem db_iterator_view {T} (ops : iter_ops T) udom ucmp `{!ComparatorLaws udom ucmp} snapshot es rep
    `{!IteratorLaws ops (ikey_dom udom) (ldb_ikc_init ucmp) (map (fun x => (ikey x.1, x.2)) es) rep}
    internal_iter p seed fuel :
  Forall (fun x => pkey_wf x.1 /\ udom (user_key x.1)) es ->
  sorted_pairs (ldb_ikc_init ucmp) (map (fun x => (ikey x.1, x.2)) es) ->
  Forall (fun x => zlen (user_key x.1) + 8 + zlen x.2 < 2 ^ 62) es ->
  rep internal_iter p -> 0 <= snapshot <= LDB_MAX_SEQUENCE -> 0 <= seed < 2 ^ 32 -> (length es < fuel)%nat ->
  exists drep, drep (ldb_dbiter_init ucmp internal_iter snapshot seed) None /\
    IteratorLaws (ldb_dbiter_table ops fuel) (fun t => udom t /\ zlen t < 2 ^ 64 - 8) ucmp
      (view ucmp snapshot es) drep.
Proof.
  intros Hw Hs Hsz R Hsn Hseed Hf. exists (db_rep ucmp snapshot es rep). split; [|by eapply dbiter_laws].
  unfold ldb_dbiter_init. pose proof (rand_init_ok seed Hseed) as Hr. destruct (period_spec _ Hr) as (_ & Hp & Hr').
  destruct (random_compaction_period (ldb_rand_init seed)) as [n rnd]. cbn [fst snd] in *.
  split; [split; cbn; try done; lia|]. split; [done|]. by exists p.
Qed.

Lemma db_iterator_view_witness :
  let es := [(Pkey [Byte.x61] 4 LDB_TYPE_DELETION, []); (Pkey [Byte.x61] 2 LDB_TYPE_VALUE, [Byte.x01]);
             (Pkey [Byte.x62] 9 LDB_TYPE_VALUE, [Byte.x02]); (Pkey [Byte.x62] 3 LDB_TYPE_VALUE, [Byte.x03])] in
  let kvs := map (fun x : version => (ikey x.1, x.2)) es in
  exists drep, drep (ldb_dbiter_init bytewise_comparator (kvs, None) 5 1) None /\
    IteratorLaws (ldb_dbiter_table (listiter_table (ldb_ikc_init bytewise_comparator)) 5)
      (fun t => True /\ zlen t < 2 ^ 64 - 8) bytewise_comparator [([Byte.x62], [Byte.x03])] drep.
Proof.
  intros es kvs.
  apply (db_iterator_view (listiter_table (ldb_ikc_init bytewise_comparator)) (fun _ => True) bytewise_comparator 5 es
    (listiter_rep kvs) (kvs, None) None 1 5).
  - repeat constructor; vm_compute; intros H; discriminate H.
  - repeat constructor.
  - repeat constructor.
  - split; [reflexivity|exact I].
  - split; vm_compute; intros H; discriminate H.
  - split; [lia|reflexivity].
  - cbn. lia.
Defined.
