(* ===== verification/MemIter.v ===== *)
(** * The memtable as an iterator

    Collects the memtable-iterator operations of [src/engine/src/memtable.c]
    (defined in Memtable.v) into the table [ldb_memiter_table] and proves that
    they keep the contract of [iterator.h] over the sorted versions the memtable
    holds; the database iterator over a memtable follows. *)

From stdpp Require Import sorting.
From S2P Require Import Prelude Coding Status Comparator DBFormat Random Skiplist Memtable Iterator DBIter.
#[local] Open Scope Z_scope.

(** The state is the node; the memtable does not change while it is read. *)
Definition ldb_memiter_table (mt : memtable) : iter_ops (option nat) := {|
  it_valid := ldb_memiter_valid;
  it_first := fun _ => ldb_memiter_first mt;
  it_last := fun _ => ldb_memiter_last mt;
  it_seek := fun _ key => ldb_memiter_seek mt key;
  it_next := ldb_memiter_next mt;
  it_prev := ldb_memiter_prev mt;
  it_key := ldb_memiter_key mt;
  it_value := ldb_memiter_value mt;
  it_status := fun _ => LDB_OK
|}.

Lemma endp_take p ids k : (k <= length ids)%nat -> endp p (take k ids) = match k with O => p | S k => nth k ids p end.
Proof.
  revert p k. induction ids as [|n ids IH]; intros p k Hk; cbn in Hk.
  - by replace k with 0%nat by lia.
  - destruct k as [|k]; [done|]. rewrite firstn_cons. cbn [endp]. rewrite IH by lia. destruct k as [|k]; [done|].
    cbn [nth]. apply nth_indep. lia.
Qed.

Section MemIter.
Context (udom : bytes -> Prop) (uc : comparator) `{!ComparatorLaws udom uc}.
Hypothesis short : forall u, udom u -> zlen u < 2 ^ 32 - 8.
Context (mt : memtable) (vs : list entry) (lv : nat -> list nat).
Hypothesis mt_cmp : sl_comparator (mt_table mt) = ldb_ikc_init uc.
Hypothesis R : skip_rep (ikey_dom udom) (mt_table mt) lv.
Hypothesis holds : entries (mt_table mt) lv = map entry_bytes vs.
Hypothesis vs_wf : Forall (entry_wf udom) vs.

Local Abbreviation kvs := (map (fun e => (ikey (fst e), snd e)) vs).
Local Abbreviation ids := (lv 0).

Definition node_rep (node : option nat) (p : option nat) : Prop :=
  match p with Some i => exists n, node = Some n /\ ids !! i = Some n | None => node = None end.

#[local] Instance mt_laws : ComparatorLaws (ikey_dom udom) (sl_comparator (mt_table mt)).
Proof. rewrite mt_cmp. apply _. Qed.

Lemma ids_length : length ids = length vs.
Proof. pose proof (f_equal length holds) as H. unfold entries in H. by rewrite !length_map in H. Qed.

Lemma node_entry i n : ids !! i = Some n -> exists e, vs !! i = Some e /\ ent (sl_nodes (mt_table mt)) n = entry_bytes e.
Proof.
  intros H. destruct (lookup_lt_is_Some_2 vs i) as [e He].
  { rewrite <- ids_length. by eapply lookup_lt_Some. }
  exists e. split; [done|]. pose proof (f_equal (fun l => l !! i) holds) as E. unfold entries in E. cbn in E.
  rewrite !list_lookup_fmap, H, He in E. by injection E.
Qed.

Lemma version_wf i e : vs !! i = Some e -> entry_wf udom e.
Proof. intros H. rewrite List.Forall_forall in vs_wf. apply vs_wf, list_elem_of_In. by eapply list_elem_of_lookup_2. Qed.

Lemma node_lookup k : node_rep (ids !! k) (position kvs k).
Proof.
  unfold position. rewrite length_map. case_bool_decide as Hk; cbn.
  - destruct (lookup_lt_is_Some_2 ids k) as [n Hn]; [by rewrite ids_length|]. by exists n.
  - apply lookup_ge_None. rewrite ids_length. lia.
Qed.

Lemma id_nonzero i n : ids !! i = Some n -> n <> 0%nat.
Proof.
  intros H ->. pose proof (rep_nodup _ _ _ R) as Hnd. apply list.NoDup_cons in Hnd as [Hn _].
  apply Hn. by eapply list_elem_of_lookup_2.
Qed.

Lemma node_before k : (k <= length ids)%nat -> node_rep (head_to_null (endp 0 (take k ids))) (position_before k).
Proof.
  intros Hk. rewrite endp_take by done. destruct k as [|k]; [done|]. cbn.
  destruct (lookup_lt_is_Some_2 ids k ltac:(lia)) as [n Hn]. exists n. split; [|done].
  rewrite (nth_lookup_Some _ _ _ _ Hn). unfold head_to_null. rewrite bool_decide_eq_false_2; [done|]. by apply (id_nonzero k).
Qed.

Lemma target_slice_wf t : ikey_dom udom t -> slice_wf t.
Proof. intros [H1 H2]. apply short in H2. rewrite zlen_extract in H2 by done. unfold slice_wf. lia. Qed.

Lemma target_ok t : ikey_dom udom t -> entry_ok (ikey_dom udom) (slice_write t) /\ ekey (slice_write t) = t.
Proof.
  intros Ht. pose proof (slice_decode_write t [] (target_slice_wf t Ht)) as E. rewrite app_nil_r in E.
  split; [by exists t; rewrite E|]. unfold ekey. by rewrite E.
Qed.

Lemma key_lt_node t i n e :
  ikey_dom udom t -> ids !! i = Some n -> vs !! i = Some e ->
  key_lt (mt_table mt) (slice_write t) n = (ldb_compare (ldb_ikc_init uc) (ikey e.1) t <? 0).
Proof.
  intros Ht Hn He. unfold key_lt. destruct (node_entry i n Hn) as (e' & He' & ->). simplify_eq.
  unfold ecmp. rewrite (proj2 (target_ok t Ht)), (ekey_entry udom) by by eapply version_wf. by rewrite mt_cmp.
Qed.

Lemma seek_count t :
  ikey_dom udom t ->
  count_lt (ldb_ikc_init uc) t kvs = length (below (key_lt (mt_table mt) (slice_write t)) ids).
Proof.
  intros Ht. destruct (target_ok t Ht) as [Hok _].
  pose proof (cuts_split _ _ (key_lt_cuts (ikey_dom udom) (mt_table mt) lv R (slice_write t) Hok)) as Hsplit.
  set (lt := key_lt (mt_table mt) (slice_write t)) in *.
  assert (forall i kv, kvs !! i = Some kv -> exists n, ids !! i = Some n /\ lt n = (ldb_compare (ldb_ikc_init uc) kv.1 t <? 0)) as Hk.
  { intros i kv H. rewrite list_lookup_fmap in H. destruct (vs !! i) as [e|] eqn:He; [|done]. injection H as <-.
    destruct (lookup_lt_is_Some_2 ids i) as [n Hn]; [rewrite ids_length; by eapply lookup_lt_Some|].
    exists n. split; [done|]. by apply (key_lt_node t i n e). }
  assert (forall n, n ∈ below lt ids -> lt n = true) as HB by (by intros n [_ ?]%list_elem_of_In%filter_In).
  assert (forall n, n ∈ above lt ids -> lt n = false) as HA
    by (intros n [_ H]%list_elem_of_In%filter_In; by apply negb_true_iff).
  revert Hsplit HA HB. generalize (below lt ids) (above lt ids). intros B A Hsplit HA HB.
  apply count_lt_unique.
  - intros i kv Hi Hkv. destruct (Hk i kv Hkv) as (n & Hn & E). rewrite Hsplit, lookup_app_l in Hn by done.
    apply list_elem_of_lookup_2, HB in Hn. rewrite E in Hn. by apply Z.ltb_lt.
  - intros kv Hkv. destruct (Hk _ kv Hkv) as (n & Hn & E). rewrite Hsplit, lookup_app_r in Hn by done.
    apply list_elem_of_lookup_2, HA in Hn. rewrite E in Hn. by apply Z.ltb_ge.
  - rewrite length_map, <- ids_length, Hsplit, length_app. lia.
Qed.

Lemma chain_split k : chain (sl_nodes (mt_table mt)) 0 (endp 0 (take k ids)) (drop k ids).
Proof.
  pose proof (rep_chain _ _ _ R 0 ltac:(unfold LDB_MAX_HEIGHT; lia)) as Hc.
  rewrite <- (take_drop k ids) in Hc. by apply chain_app in Hc.
Qed.

Lemma memiter_laws : IteratorLaws (ldb_memiter_table mt) (ikey_dom udom) (ldb_ikc_init uc) kvs node_rep.
Proof.
  split; cbn [ldb_memiter_table it_valid it_status it_key it_value it_first it_last it_seek it_next it_prev].
  - intros node i (n & _ & Hn). rewrite length_map, <- ids_length. by eapply lookup_lt_Some.
  - intros node [i|] Hr; unfold ldb_memiter_valid, ldb_skipiter_valid.
    + destruct Hr as (n & -> & _). done.
    + by rewrite Hr.
  - done.
  - intros node i kv (n & -> & Hn) Hkv. destruct (node_entry i n Hn) as (e & He & Ee).
    rewrite list_lookup_fmap, He in Hkv. injection Hkv as <-. destruct (decode_entry udom e (version_wf i e He)) as [D1 D2].
    unfold ldb_memiter_key, ldb_memiter_value.
    rewrite (iter_key (ikey_dom udom) (mt_table mt) lv n R) by by eapply list_elem_of_lookup_2.
    cbn [mbind option_bind]. by rewrite Ee, D1, D2.
  - intros node p _. unfold ldb_memiter_first, ldb_skipiter_first.
    pose proof (chain_split 0) as Hc. change (endp 0 (take 0 ids)) with 0%nat in Hc. rewrite drop_0 in Hc.
    rewrite (chain_next _ _ _ _ Hc). eexists. split; [reflexivity|]. rewrite head_lookup. apply node_lookup.
  - intros node p _. unfold ldb_memiter_last, ldb_skipiter_last.
    rewrite (find_last_spec (ikey_dom udom) (mt_table mt) lv R). cbn [mbind option_bind]. eexists. split; [reflexivity|].
    rewrite length_map, <- ids_length. rewrite <- (firstn_all ids) at 1. by apply node_before.
  - intros node p t _ Ht. destruct (target_ok t Ht) as [Hok _].
    destruct (find_ge_spec (ikey_dom udom) (mt_table mt) lv R (slice_write t) Hok) as (prev & E & _).
    unfold ldb_memiter_seek, ldb_skipiter_seek. rewrite E. eexists. split; [reflexivity|]. cbn [fst].
    rewrite seek_count by done. rewrite head_lookup.
    replace (above (key_lt (mt_table mt) (slice_write t)) ids !! 0%nat)
      with (ids !! length (below (key_lt (mt_table mt) (slice_write t)) ids)); [apply node_lookup|].
    pose proof (cuts_split _ _ (key_lt_cuts (ikey_dom udom) (mt_table mt) lv R (slice_write t) Hok)) as Hsplit.
    revert Hsplit. generalize (below (key_lt (mt_table mt) (slice_write t)) ids) (above (key_lt (mt_table mt) (slice_write t)) ids).
    intros B A ->. by rewrite lookup_app_r, Nat.sub_diag.
  - intros node i (n & -> & Hn). unfold ldb_memiter_next, ldb_skipiter_next. cbn [mbind option_bind].
    pose proof (chain_split (S i)) as Hc. rewrite endp_take in Hc by (apply lookup_lt_Some in Hn; lia).
    rewrite (nth_lookup_Some _ _ _ _ Hn) in Hc. rewrite (chain_next _ _ _ _ Hc). eexists. split; [reflexivity|].
    rewrite head_lookup, lookup_drop, Nat.add_0_r, Nat.add_1_r. apply node_lookup.
  - intros node i (n & -> & Hn). unfold ldb_memiter_prev, ldb_skipiter_prev.
    assert (n ∈ ids) as Hin by by eapply list_elem_of_lookup_2.
    rewrite (iter_key (ikey_dom udom) (mt_table mt) lv n R Hin). cbn [mbind option_bind].
    rewrite (find_lt_spec (ikey_dom udom) (mt_table mt) lv R) by by apply (rep_entries _ _ _ R).
    cbn [mbind option_bind]. eexists. split; [reflexivity|].
    rewrite (below_node (ikey_dom udom) (mt_table mt) lv (take i ids) n (drop (S i) ids) R)
      by by rewrite take_drop_middle.
    apply node_before. apply lookup_lt_Some in Hn. lia.
Qed.
End MemIter.

(** ** What a memtable holds, as sorted versions *)

Section Scan.
Context (udom : bytes -> Prop) (uc : comparator) `{!ComparatorLaws udom uc}.
Hypothesis short : forall u, udom u -> zlen u < 2 ^ 32 - 8.

Lemma mt_versions mt h :
  mt_holds udom uc mt h ->
  exists vs lv, Permutation vs h /\ skip_rep (ikey_dom udom) (mt_table mt) lv /\
    entries (mt_table mt) lv = map entry_bytes vs /\ Forall (entry_wf udom) vs /\
    sorted_pairs (ldb_ikc_init uc) (map (fun e => (ikey e.1, e.2)) vs).
Proof.
  intros (_ & Hc & Hc' & Hwf & es & Hs & Hp). pose proof (holds_sorted _ _ _ Hs) as Hsort.
  apply Permutation_map_inv in Hp as (vs & -> & Hp). destruct Hs as (lv & R & E).
  assert (Forall (entry_wf udom) vs) as Hwf' by (by rewrite <- Hp).
  exists vs, lv. split; [by symmetry|]. split; [done|]. split; [done|]. split; [done|].
  rewrite Hc' in Hsort. clear -Hsort Hwf'. unfold sorted_pairs. induction vs as [|e vs IH]; [constructor|].
  cbn [map] in *. apply StronglySorted_inv in Hsort as [Hs Hall]. apply List.Forall_cons_iff in Hwf' as [We Wvs].
  constructor; [by apply IH|]. rewrite List.Forall_map in Hall. rewrite List.Forall_map, List.Forall_forall in *.
  intros f Hf. specialize (Hall f Hf). rewrite (ecmp_entries udom) in Hall by auto. exact Hall.
Qed.

(** An earlier version of the same key has the larger tag. *)
Lemma earlier_newer vs i j x y :
  Forall (entry_wf udom) vs -> sorted_pairs (ldb_ikc_init uc) (map (fun e => (ikey e.1, e.2)) vs) ->
  vs !! i = Some x -> vs !! j = Some y -> (i < j)%nat ->
  ldb_compare uc (user_key x.1) (user_key y.1) = 0 -> entry_tag y < entry_tag x.
Proof.
  intros Hwf Hs Hx Hy Hij E. rewrite List.Forall_forall in Hwf.
  assert (entry_wf udom x /\ entry_wf udom y) as [Wx Wy].
  { split; apply Hwf, list_elem_of_In; by eapply list_elem_of_lookup_2. }
  assert (ldb_compare (ldb_ikc_init uc) (ikey x.1) (ikey y.1) < 0) as Hlt.
  { apply (sorted_lookup _ _ i j (ikey x.1, x.2) (ikey y.1, y.2) Hs); by rewrite ?list_lookup_fmap, ?Hx, ?Hy. }
  change (ldb_compare (ldb_ikc_init uc)) with (ldb_ikc_compare uc) in Hlt.
  apply ikc_compare_lt in Hlt. rewrite !user_key_ikey, !ikey_tag_ikey in Hlt by by eapply entry_pkey_wf.
  unfold entry_tag. lia.
Qed.

(** Lookups and the view agree. *)
Lemma newest_view h vs u s v :
  Permutation vs h -> Forall (entry_wf udom) vs -> sorted_pairs (ldb_ikc_init uc) (map (fun e => (ikey e.1, e.2)) vs) ->
  udom u ->
  read_version (newest uc u s h) = GetValue v <-> exists u', (u', v) ∈ view uc s vs /\ ldb_compare uc u' u = 0.
Proof.
  intros Hp Hwf Hs Hu. assert (forall e, e ∈ vs -> udom (user_key e.1)) as HD.
  { intros e He%list_elem_of_In. rewrite List.Forall_forall in Hwf. by apply Hwf in He as (_ & _ & _ & ?). }
  assert (forall x y, x ∈ vs -> y ∈ vs -> visible uc u s x = true -> ldb_compare uc (user_key y.1) (user_key x.1) = 0 ->
    sequence y.1 <= s -> visible uc u s y = true) as Hvis.
  { intros x y Hx Hy [Vx%Z.eqb_eq _]%andb_true_iff E Hsy. unfold visible. apply andb_true_iff.
    split; [|by apply Z.leb_le]. apply Z.eqb_eq. pose proof (HD x Hx). pose proof (HD y Hy).
    pose proof (compare_eq_l udom uc _ _ u (HD y Hy) (HD x Hx) Hu E). lia. }
  split.
  - destruct (newest uc u s h) as [e|] eqn:En; [|done]. apply newest_some in En as (He & Ve & Me).
    cbn [read_version]. destruct (type e.1) eqn:Et; [done|]. intros [= <-]. rewrite <- Hp in He.
    pose proof Ve as [Ee%Z.eqb_eq Hle%Z.leb_le]%andb_true_iff. exists (user_key e.1). split; [|done].
    apply list_elem_of_lookup in He as [i Hi]. apply list_elem_of_lookup. exists (rank uc s vs i).
    apply (view_at uc s vs i e Hi). apply (shown_iff uc s vs i e Hi). split; [done|]. split; [done|].
    intros j y Hj Hy Hsy E. pose proof (earlier_newer vs j i y e Hwf Hs Hy Hi Hj E).
    assert (entry_tag y <= entry_tag e); [|lia]. apply Me; [rewrite <- Hp; by eapply list_elem_of_lookup_2|].
    apply (Hvis e y); try done; by eapply list_elem_of_lookup_2.
  - intros (u' & [p Hv]%list_elem_of_lookup & Eu). destruct (view_origin uc s vs p _ Hv) as (i & x & Hx & Hsh & _ & Epair).
    injection Epair as -> ->. apply (shown_iff uc s vs i x Hx) in Hsh as (Hsx & Htx & Hnew).
    assert (visible uc u s x = true) as Vx by (apply andb_true_iff; split; [by apply Z.eqb_eq|by apply Z.leb_le]).
    assert (x ∈ h) as Hxh by (rewrite <- Hp; by eapply list_elem_of_lookup_2).
    destruct (newest uc u s h) as [e|] eqn:En.
    2: { rewrite (proj1 (newest_none uc u s h) En x Hxh) in Vx. done. }
    apply newest_some in En as (He & Ve & Me). specialize (Me x Hxh Vx). rewrite <- Hp in He.
    apply list_elem_of_lookup in He as [k Hk].
    assert (ldb_compare uc (user_key e.1) (user_key x.1) = 0) as Eex.
    { pose proof (HD e ltac:(by eapply list_elem_of_lookup_2)) as De. pose proof (HD x ltac:(by eapply list_elem_of_lookup_2)) as Dx.
      pose proof Ve as [Ee%Z.eqb_eq _]%andb_true_iff. apply (compare_eq_flip udom uc) in Eu; [|done..].
      pose proof (compare_eq_l udom uc _ _ (user_key x.1) De Hu Dx Ee). lia. }
    destruct (lt_eq_lt_dec k i) as [[Hlt| ->]|Hgt].
    + exfalso. apply (Hnew k e Hlt Hk); [|done]. by apply andb_true_iff in Ve as [_ ?%Z.leb_le].
    + simplify_eq. cbn. by rewrite Htx.
    + exfalso. apply (compare_eq_flip udom uc) in Eex; [|apply HD; by eapply list_elem_of_lookup_2..].
      pose proof (earlier_newer vs i k x e Hwf Hs Hx Hk Hgt Eex). lia.
Qed.
End Scan.

(** ** Properties *)

(** C24: Scanning a memtable agrees with looking keys up in it: filled in any
    order, the database iterator over the memtable iterator keeps the iterator
    contract over a list of pairs that contains a value for a user key exactly
    when [ldb_memtable_get] at the same snapshot finds that value. *)
Theorem memtable_scan_agrees udom uc `{!ComparatorLaws udom uc} h snapshot seed fuel :
  (forall u, udom u -> zlen u < 2 ^ 32 - 8) ->
  Forall (entry_wf udom) h ->
  ForallOrdPairs (fun e e' =>
    ldb_compare uc (user_key e'.1) (user_key e.1) = 0 -> entry_tag e' <> entry_tag e) h ->
  0 <= snapshot <= LDB_MAX_SEQUENCE -> 0 <= seed < 2 ^ 32 -> (length h < fuel)%nat ->
  exists mt shown drep,
    fold_right (fun e mt => mt ← mt; ldb_memtable_add mt (sequence e.1) (type e.1) (user_key e.1) e.2)
      (Some (ldb_memtable_create (ldb_ikc_init uc))) h = Some mt /\
    drep (ldb_dbiter_init uc (None : option nat) snapshot seed) None /\
    IteratorLaws (ldb_dbiter_table (ldb_memiter_table mt) fuel) (fun t => udom t /\ zlen t < 2 ^ 64 - 8) uc shown drep /\
    forall u v, udom u ->
      ldb_memtable_get mt (ldb_lkey_init u snapshot) = Some (GetValue v) <->
      exists u', (u', v) ∈ shown /\ ldb_compare uc u' u = 0.
Proof.
  intros Hshort Hwf Hd Hsn Hseed Hf. destruct (memtable_fill udom uc h Hwf Hd) as (mt & E & H).
  destruct (mt_versions udom uc mt h H) as (vs & lv & Hp & R & He & Hvs & Hs).
  pose proof (memiter_laws udom uc Hshort mt vs lv (proj1 (proj2 (proj2 H))) R He Hvs) as L.
  exists mt, (view uc snapshot vs), (db_rep uc snapshot vs (node_rep lv)). split; [done|].
  assert (base_ok uc snapshot (ldb_dbiter_init uc (None : option nat) snapshot seed)) as B.
  { unfold ldb_dbiter_init. pose proof (rand_init_ok seed Hseed) as Hr. destruct (period_spec _ Hr) as (_ & Hq & Hr').
    destruct (random_compaction_period (ldb_rand_init seed)) as [n rnd]. cbn [fst snd] in *. split; cbn; try done; lia. }
  split; [|split].
  - split; [done|]. unfold ldb_dbiter_init. destruct (random_compaction_period _). split; [done|by exists None].
  - apply (dbiter_laws (ldb_memiter_table mt) udom uc); try done.
    + eapply List.Forall_impl; [|exact Hvs]. intros e We. split; [by eapply entry_pkey_wf|apply We].
    + eapply List.Forall_impl; [|exact Hvs]. intros e (_ & H1 & H2 & _). lia.
    + by rewrite (Permutation_length Hp).
  - intros u v Hu. rewrite (memtable_get_spec udom uc mt h u snapshot H Hu (Hshort u Hu) Hsn).
    rewrite <- (newest_view udom uc h vs u snapshot v Hp Hvs Hs Hu). split; [by intros [= ->]|by intros ->].
Qed.

Lemma memtable_scan_agrees_witness :
  let h := [(Pkey [Byte.x61] 3 LDB_TYPE_DELETION, []); (Pkey [Byte.x61] 2 LDB_TYPE_VALUE, [Byte.x76])] in
  exists mt shown drep,
    ldb_memtable_get mt (ldb_lkey_init [Byte.x61] 2) = Some (GetValue [Byte.x76]) /\
    IteratorLaws (ldb_dbiter_table (ldb_memiter_table mt) 3)
      (fun t => zlen t < 100 /\ zlen t < 2 ^ 64 - 8) bytewise_comparator shown drep /\
    exists u', (u', [Byte.x76]) ∈ shown /\ ldb_compare bytewise_comparator u' [Byte.x61] = 0.
Proof.
  intros h.
  destruct (memtable_scan_agrees (fun u => zlen u < 100) bytewise_comparator (ComparatorLaws0 := bytewise_short_laws 100)
    h 2 1 3) as (mt & shown & drep & E & _ & L & H).
  - intros u Hu. lia.
  - repeat (apply List.Forall_cons; [repeat split; by vm_compute|]). apply List.Forall_nil.
  - repeat constructor. intros _. by vm_compute.
  - by vm_compute.
  - lia.
  - cbn. lia.
  - assert (ldb_memtable_get mt (ldb_lkey_init [Byte.x61] 2) = Some (GetValue [Byte.x76])) as G.
    { change (Some mt ≫= (fun m => ldb_memtable_get m (ldb_lkey_init [Byte.x61] 2)) = Some (GetValue [Byte.x76])).
      rewrite <- E. by vm_compute. }
    exists mt, shown, drep. split; [exact G|]. split; [exact L|]. apply H; [by vm_compute|exact G].
Defined.
