(* ===== verification/FilterBlock.v ===== *)
(** * Filter blocks

    Models [src/engine/src/table/filter_block.h] and [filter_block.c]: the
    builder that makes one filter for every 2 KB of block offsets and the reader
    that consults them, for any filter policy. *)

From stdpp Require Import sorting.
From S2P Require Import Prelude Coding Bloom.
#[local] Open Scope Z_scope.

Definition LDB_FILTER_BASE_LG : Z := 11.
Definition LDB_FILTER_BASE : Z := Z.shiftl 1 LDB_FILTER_BASE_LG.

(** ** The builder *)

(** [ldb_filtergen_t]; buffers and arrays are the lists they hold, [fg_num_keys]
    is the capacity of the scratch array [tmp_keys]. *)
Record filtergen := Filtergen {
  fg_policy : bloom;
  fg_num_keys : Z;
  fg_keys : bytes;
  fg_start : list Z;
  fg_result : bytes;
  fg_offsets : list Z
}.

Definition ldb_filtergen_init (policy : bloom) : filtergen := Filtergen policy 0 [] [] [] [].

Definition ldb_filtergen_alloc (fb : filtergen) (num_keys : Z) : filtergen :=
  if fg_num_keys fb <? num_keys
  then Filtergen (fg_policy fb) num_keys (fg_keys fb) (fg_start fb) (fg_result fb) (fg_offsets fb)
  else fb.

(** The loop that fills [tmp_keys] from the flattened keys. *)
Definition tmp_keys (keys : bytes) (start : list Z) (num_keys : nat) : list bytes :=
  map (fun i => let base := nth i start 0 in ztake (nth (S i) start 0 - base) (zdrop base keys))
    (seq 0 num_keys).

Definition ldb_filtergen_generate (fb : filtergen) : filtergen :=
  let num_keys := length (fg_start fb) in
  if (num_keys =? 0)%nat then
    Filtergen (fg_policy fb) (fg_num_keys fb) (fg_keys fb) (fg_start fb) (fg_result fb)
      (fg_offsets fb ++ [zlen (fg_result fb)])
  else
    let start := fg_start fb ++ [zlen (fg_keys fb)] in
    let fb := ldb_filtergen_alloc fb (Z.of_nat num_keys) in
    let keys := tmp_keys (fg_keys fb) start num_keys in
    let offsets := fg_offsets fb ++ [zlen (fg_result fb)] in
    let result := bloom_build_fn (fg_policy fb) (fg_result fb) keys in
    Filtergen (fg_policy fb) (fg_num_keys fb) [] [] result offsets.

(** The loop [while (filter_index > fb->filter_offsets.length)]. *)
Fixpoint start_block_loop (fuel : nat) (fb : filtergen) (filter_index : Z) : option filtergen :=
  if zlen (fg_offsets fb) <? filter_index then
    match fuel with
    | O => None
    | S fuel => start_block_loop fuel (ldb_filtergen_generate fb) filter_index
    end
  else Some fb.

(** [None] when the assertion fails.  Every turn of the loop adds an offset. *)
Definition ldb_filtergen_start_block (fb : filtergen) (block_offset : Z) : option filtergen :=
  let filter_index := block_offset / LDB_FILTER_BASE in
  if filter_index <? zlen (fg_offsets fb) then None
  else start_block_loop (Z.to_nat (filter_index - zlen (fg_offsets fb))) fb filter_index.

Definition ldb_filtergen_add_key (fb : filtergen) (key : bytes) : filtergen :=
  Filtergen (fg_policy fb) (fg_num_keys fb) (fg_keys fb ++ key) (fg_start fb ++ [zlen (fg_keys fb)])
    (fg_result fb) (fg_offsets fb).

(** The contents of the filter block, and the builder afterwards. *)
Definition ldb_filtergen_finish (fb : filtergen) : bytes * filtergen :=
  let fb := if (0 <? length (fg_start fb))%nat then ldb_filtergen_generate fb else fb in
  let array_offset := u32 (zlen (fg_result fb)) in
  let result := fg_result fb ++ concat (map (fun o => fixed32_write (u32 o)) (fg_offsets fb)) ++
    fixed32_write array_offset ++ [z2b LDB_FILTER_BASE_LG] in
  (result, Filtergen (fg_policy fb) (fg_num_keys fb) (fg_keys fb) (fg_start fb) result (fg_offsets fb)).

(** ** The reader *)

(** [ldb_filter_t]; [offset - data] in place of the pointer [offset]. *)
Record filter := Filter {
  fr_policy : bloom;
  fr_data : bytes;
  fr_offset : Z;
  fr_num : Z;
  fr_base_lg : Z
}.

Definition ldb_filter_init (policy : bloom) (contents : bytes) : option filter :=
  let n := zlen contents in
  if n <? 5 then Some (Filter policy [] 0 0 0)
  else
    let base_lg := Z.land (at_ contents (n - 1)) 63 in
    last_word ← read32 contents (n - 5);
    if n - 5 <? last_word then Some (Filter policy [] 0 0 base_lg)
    else Some (Filter policy contents last_word ((n - 5 - last_word) / 4) base_lg).

Definition ldb_filter_matches (fr : filter) (block_offset : Z) (key : bytes) : option bool :=
  let index := Z.shiftr block_offset (fr_base_lg fr) in
  if index <? fr_num fr then
    start ← read32 (fr_data fr) (fr_offset fr + index * 4);
    limit ← read32 (fr_data fr) (fr_offset fr + index * 4 + 4);
    if (start <=? limit) && (limit <=? fr_offset fr) then
      Some (bloom_match_fn (fr_policy fr) (ztake (limit - start) (zdrop start (fr_data fr))) key)
    else if start =? limit then Some false
    else Some true
  else Some true.

(** ** Flattened lists *)

(** Where the elements of [xs] start in [concat xs]. *)
Definition starts (xs : list bytes) : list Z :=
  map (fun i => zlen (concat (take i xs))) (seq 0 (length xs)).

Lemma starts_lookup xs i :
  (i <= length xs)%nat -> (starts xs ++ [zlen (concat xs)]) !! i = Some (zlen (concat (take i xs))).
Proof.
  intros Hi. unfold starts. destruct (decide (i = length xs)) as [->|].
  - rewrite lookup_app_r, length_map, length_seq, Nat.sub_diag by (rewrite length_map, length_seq; lia).
    by rewrite take_ge.
  - rewrite lookup_app_l by (rewrite length_map, length_seq; lia).
    by rewrite list_lookup_fmap, lookup_seq_lt by lia.
Qed.

Lemma starts_snoc xs x : starts (xs ++ [x]) = starts xs ++ [zlen (concat xs)].
Proof.
  unfold starts. rewrite length_app, Nat.add_1_r, seq_S, map_app. cbn [map Nat.add]. f_equal.
  - apply map_ext_in. intros i [_ Hi]%in_seq. by rewrite take_app_le by lia.
  - by rewrite take_app_length.
Qed.

Lemma length_starts xs : length (starts xs) = length xs.
Proof. unfold starts. by rewrite length_map, length_seq. Qed.

(** Cutting the concatenation at the starts gives the elements back. *)
Lemma cut_element (xs : list bytes) i x :
  xs !! i = Some x ->
  ztake (zlen (concat (take (S i) xs)) - zlen (concat (take i xs)))
    (zdrop (zlen (concat (take i xs))) (concat xs)) = x.
Proof.
  intros Hx. rewrite (take_S_r _ _ _ Hx), concat_app. cbn [concat]. rewrite app_nil_r, zlen_app.
  rewrite <- (take_drop_middle xs i x Hx) at 4. rewrite concat_app. cbn [concat].
  rewrite zdrop_app by done. apply ztake_app. lia.
Qed.

Lemma tmp_keys_cut (xs : list bytes) : tmp_keys (concat xs) (starts xs ++ [zlen (concat xs)]) (length xs) = xs.
Proof.
  apply list_eq. intros i. unfold tmp_keys. rewrite list_lookup_fmap.
  destruct (decide (i < length xs)%nat) as [Hi|Hi].
  - rewrite lookup_seq_lt by done. cbn. destruct (lookup_lt_is_Some_2 xs i Hi) as [x Hx].
    rewrite !nth_lookup, !starts_lookup by lia. cbn. rewrite Hx. f_equal. by apply cut_element.
  - rewrite lookup_seq_ge by lia. cbn. by rewrite lookup_ge_None_2 by lia.
Qed.

Lemma concat_take_le (xs : list bytes) i : zlen (concat (take i xs)) <= zlen (concat xs).
Proof. rewrite <- (take_drop i xs) at 2. rewrite concat_app, zlen_app. pose proof (zlen_nonneg (concat (drop i xs))). lia. Qed.

(** ** The state of the builder *)

Section Builder.
Context (dom : bytes -> Prop) (p : bloom) `{!FilterPolicy dom p}.

Definition covers (ks : list bytes) (f : bytes) : Prop := forall k, k ∈ ks -> bloom_match_fn p f k = true.

(** Finished filters [filters] for the groups of keys [groups], and the keys
    [cur] of the group being collected. *)
Record filtergen_rep (fb : filtergen) (groups : list (list bytes)) (cur : list bytes) (filters : list bytes) : Prop := {
  rep_policy : fg_policy fb = p;
  rep_keys : fg_keys fb = concat cur;
  rep_start : fg_start fb = starts cur;
  rep_result : fg_result fb = concat filters;
  rep_offsets : fg_offsets fb = starts filters;
  rep_cover : Forall2 covers groups filters
}.

Lemma rep_count fb groups cur filters :
  filtergen_rep fb groups cur filters -> zlen (fg_offsets fb) = zlen groups.
Proof.
  intros R. rewrite (rep_offsets _ _ _ _ R). unfold zlen.
  by rewrite length_starts, (Forall2_length (rep_cover _ _ _ _ R)).
Qed.

Lemma init_rep : filtergen_rep (ldb_filtergen_init p) [] [] [].
Proof. by split. Qed.

Lemma add_key_rep fb groups cur filters k :
  filtergen_rep fb groups cur filters -> filtergen_rep (ldb_filtergen_add_key fb k) groups (cur ++ [k]) filters.
Proof.
  intros [Hp Hk Hs Hr Ho Hc]. split; try done; cbn.
  - rewrite Hk, concat_app. cbn [concat]. by rewrite app_nil_r.
  - by rewrite Hk, Hs, starts_snoc.
Qed.

Lemma generate_rep fb groups cur filters :
  filtergen_rep fb groups cur filters -> Forall dom cur -> zlen cur < 2 ^ 32 ->
  exists f, filtergen_rep (ldb_filtergen_generate fb) (groups ++ [cur]) [] (filters ++ [f]).
Proof.
  intros [Hp Hk Hs Hr Ho Hc] Hd Hl. unfold ldb_filtergen_generate. rewrite Hs, length_starts.
  destruct cur as [|k cur].
  - exists []. split; cbn; try done.
    + by rewrite Hr, concat_app, app_nil_r.
    + by rewrite Ho, Hr, starts_snoc.
    + apply Forall2_app; [done|]. constructor; [|constructor]. by intros k ?%not_elem_of_nil.
  - set (ks := k :: cur) in *. change (length ks =? 0)%nat with false. cbv iota.
    destruct (policy_no_false_negative (fg_result fb) ks Hd Hl) as (f & E & Hf). exists f.
    assert (fg_policy (ldb_filtergen_alloc fb (Z.of_nat (length ks))) = p /\
            fg_keys (ldb_filtergen_alloc fb (Z.of_nat (length ks))) = concat ks /\
            fg_result (ldb_filtergen_alloc fb (Z.of_nat (length ks))) = fg_result fb /\
            fg_offsets (ldb_filtergen_alloc fb (Z.of_nat (length ks))) = starts filters) as (E1 & E2 & E3 & E4)
      by (unfold ldb_filtergen_alloc; destruct (_ <? _); cbn; auto).
    rewrite E1, E2, E3, E4, Hk, tmp_keys_cut, E, Hr.
    split; cbn [fg_policy fg_keys fg_start fg_result fg_offsets]; try done.
    + rewrite concat_app. cbn [concat]. by rewrite app_nil_r.
    + by rewrite starts_snoc.
    + apply Forall2_app; [done|]. by constructor.
Qed.

Lemma start_block_loop_rep fuel fb groups cur filters idx :
  filtergen_rep fb groups cur filters -> Forall dom cur -> zlen cur < 2 ^ 32 ->
  zlen groups + Z.of_nat fuel = idx ->
  exists fb' groups' cur' filters', start_block_loop fuel fb idx = Some fb' /\
    filtergen_rep fb' groups' cur' filters' /\ zlen groups' = idx /\
    (cur' = cur \/ cur' = []) /\ (groups ++ [cur]) `prefix_of` (groups' ++ [cur']).
Proof.
  revert fb groups cur filters. induction fuel as [|fuel IH]; intros fb groups cur filters R Hd Hl Hi;
    cbn [start_block_loop]; rewrite (rep_count _ _ _ _ R).
  - rewrite (proj2 (Z.ltb_ge _ _)) by lia. exists fb, groups, cur, filters. split; [done|]. split; [done|].
    split; [lia|]. by split; [left|].
  - rewrite (proj2 (Z.ltb_lt _ _)) by lia. destruct (generate_rep _ _ _ _ R Hd Hl) as [f R'].
    destruct (IH _ _ _ _ R') as (fb' & groups' & cur' & filters' & E & Rep & Hn & Hc & Hp);
      [constructor|by vm_compute|rewrite zlen_app; unfold zlen in *; cbn; lia|].
    exists fb', groups', cur', filters'. split; [done|]. split; [done|]. split; [done|]. split; [right; by destruct Hc as [-> | ->]|].
    etrans; [|exact Hp]. by exists [[]].
Qed.

(** The builder has started the block at offset [off] and seen the keys [seen],
    each with the offset of its block. *)
Definition filtergen_ok (fb : filtergen) (seen : list (Z * bytes)) (off : Z) : Prop :=
  exists groups cur filters, filtergen_rep fb groups cur filters /\
    0 <= off /\ zlen groups = off / LDB_FILTER_BASE /\ Forall dom cur /\ (length cur <= length seen)%nat /\
    forall o k, (o, k) ∈ seen -> 0 <= o /\
      exists g, (groups ++ [cur]) !! Z.to_nat (o / LDB_FILTER_BASE) = Some g /\ k ∈ g.

Lemma init_ok : filtergen_ok (ldb_filtergen_init p) [] 0.
Proof.
  exists [], [], []. split; [exact init_rep|]. split; [lia|]. split; [done|]. split; [constructor|].
  split; [done|]. by intros o k ?%not_elem_of_nil.
Qed.

Lemma add_key_ok fb seen off k :
  filtergen_ok fb seen off -> dom k -> filtergen_ok (ldb_filtergen_add_key fb k) (seen ++ [(off, k)]) off.
Proof.
  intros (groups & cur & filters & R & Ho & Hn & Hd & Hl & Hs) Hk.
  exists groups, (cur ++ [k]), filters. split; [by apply add_key_rep|]. split; [done|]. split; [done|].
  split; [apply List.Forall_app; split; [done|by repeat constructor]|]. rewrite !length_app. split; [cbn; lia|].
  intros o k' [Hin|Hin%list_elem_of_singleton]%elem_of_app.
  - destruct (Hs o k' Hin) as (H0 & g & Hg & Hkg). split; [done|].
    apply lookup_app_Some in Hg as [Hg|[Hge Hg]].
    + exists g. by rewrite lookup_app_l by by eapply lookup_lt_Some.
    + exists (cur ++ [k]). apply list_lookup_singleton_Some in Hg as [Hz <-].
      rewrite lookup_app_r, Hz by done. split; [done|]. apply elem_of_app. by left.
  - injection Hin as -> ->. split; [done|]. exists (cur ++ [k]). rewrite <- Hn. unfold zlen.
    rewrite Nat2Z.id, lookup_app_r, Nat.sub_diag by done. split; [done|]. apply elem_of_app. right. by left.
Qed.

Lemma start_block_ok fb seen off off' :
  filtergen_ok fb seen off -> off <= off' -> zlen seen < 2 ^ 32 ->
  exists fb', ldb_filtergen_start_block fb off' = Some fb' /\ filtergen_ok fb' seen off'.
Proof.
  intros (groups & cur & filters & R & Ho & Hn & Hd & Hl & Hs) Hle Hlen.
  assert (off / LDB_FILTER_BASE <= off' / LDB_FILTER_BASE) as Hi by (apply Z.div_le_mono; done).
  unfold ldb_filtergen_start_block. rewrite (rep_count _ _ _ _ R), (proj2 (Z.ltb_ge _ _)) by lia.
  destruct (start_block_loop_rep (Z.to_nat (off' / LDB_FILTER_BASE - zlen groups)) fb groups cur filters
    (off' / LDB_FILTER_BASE) R Hd) as (fb' & groups' & cur' & filters' & E & R' & Hn' & Hc & Hp);
    [unfold zlen in *; lia|lia|].
  exists fb'. split; [done|]. exists groups', cur', filters'. split; [done|]. split; [lia|]. split; [done|].
  split; [destruct Hc as [->| ->]; [done|constructor]|]. split; [destruct Hc as [->| ->]; [done|cbn; lia]|].
  intros o k Hin. destruct (Hs o k Hin) as (H0 & g & Hg & Hkg). split; [done|]. exists g.
  split; [by eapply prefix_lookup_Some|done].
Qed.

(** ** The finished block *)

Definition filter_bytes (filters : list bytes) : bytes :=
  concat filters ++ concat (map fixed32_write (starts filters ++ [zlen (concat filters)])) ++ [z2b LDB_FILTER_BASE_LG].

Lemma starts_range (filters : list bytes) i w :
  zlen (concat filters) < 2 ^ 32 -> (starts filters ++ [zlen (concat filters)]) !! i = Some w -> 0 <= w < 2 ^ 32.
Proof.
  intros Hs Hw. pose proof (lookup_lt_Some _ _ _ Hw) as Hi. rewrite length_app, length_starts in Hi. cbn in Hi.
  rewrite starts_lookup in Hw by lia. injection Hw as <-.
  pose proof (concat_take_le filters i). pose proof (zlen_nonneg (concat (take i filters))). lia.
Qed.

Lemma finish_rep fb groups cur filters :
  filtergen_rep fb groups cur filters -> Forall dom cur -> zlen cur < 2 ^ 32 ->
  zlen (ldb_filtergen_finish fb).1 < 2 ^ 32 ->
  exists groups' filters', (ldb_filtergen_finish fb).1 = filter_bytes filters' /\ Forall2 covers groups' filters' /\
    forall i g k, (groups ++ [cur]) !! i = Some g -> k ∈ g -> groups' !! i = Some g.
Proof.
  intros R Hd Hl. unfold ldb_filtergen_finish. cbn [fst].
  set (fb' := if (0 <? length (fg_start fb))%nat then ldb_filtergen_generate fb else fb).
  assert (exists groups' cur' filters', filtergen_rep fb' groups' cur' filters' /\
    forall i g k, (groups ++ [cur]) !! i = Some g -> k ∈ g -> groups' !! i = Some g) as (groups' & cur' & filters' & R' & Hg).
  { unfold fb'. rewrite (rep_start _ _ _ _ R), length_starts. destruct (Nat.ltb_spec 0 (length cur)) as [Hc|Hc].
    - destruct (generate_rep _ _ _ _ R Hd Hl) as [f R']. by exists (groups ++ [cur]), [], (filters ++ [f]).
    - assert (cur = []) as -> by (by apply length_zero_iff_nil; lia). exists groups, [], filters. split; [done|].
      intros i g k [Hi|[_ Hi]]%lookup_app_Some Hk; [done|]. apply list_lookup_singleton_Some in Hi as [_ <-].
      by apply not_elem_of_nil in Hk. }
  intros Hs. exists groups', filters'. split; [|split; [by destruct R'|done]].
  rewrite (rep_result _ _ _ _ R'), (rep_offsets _ _ _ _ R') in Hs |- *. rewrite !zlen_app in Hs.
  assert (map (fun o => fixed32_write (u32 o)) (starts filters') = map fixed32_write (starts filters')) as ->.
  { apply map_ext_in. intros w [i Hi]%list_elem_of_In%list_elem_of_lookup.
    rewrite u32_small; [done|]. apply (starts_range filters' i); [zlia|]. by apply lookup_app_l_Some. }
  rewrite u32_small by zlia. unfold filter_bytes. rewrite map_app, concat_app, <- app_assoc. cbn [map concat].
  by rewrite app_nil_r.
Qed.

Lemma filter_open filters :
  zlen (filter_bytes filters) < 2 ^ 32 ->
  ldb_filter_init p (filter_bytes filters) =
    Some (Filter p (filter_bytes filters) (zlen (concat filters)) (zlen filters) LDB_FILTER_BASE_LG).
Proof.
  intros Hs. set (ws := starts filters ++ [zlen (concat filters)]).
  assert (zlen ws = zlen filters + 1) as Hw by (unfold ws; rewrite zlen_app; unfold zlen; rewrite length_starts; done).
  assert (zlen (filter_bytes filters) = zlen (concat filters) + 4 * zlen filters + 5) as Hn
    by (unfold filter_bytes; fold ws; rewrite !zlen_app, zlen_words, Hw; unfold zlen; cbn; lia).
  pose proof (zlen_nonneg (concat filters)). pose proof (zlen_nonneg filters).
  unfold ldb_filter_init. rewrite Hn, (proj2 (Z.ltb_ge _ 5)) by lia.
  assert (read32 (filter_bytes filters) (zlen (concat filters) + 4 * zlen filters + 5 - 5) = Some (zlen (concat filters))) as ->.
  { replace (zlen (concat filters) + 4 * zlen filters + 5 - 5) with (zlen (concat filters) + 4 * Z.of_nat (length filters))
      by (unfold zlen; lia).
    apply read32_words; [|lia]. rewrite starts_lookup by done. by rewrite take_ge. }
  cbn [mbind option_bind]. rewrite (proj2 (Z.ltb_ge _ _)) by lia. do 2 f_equal.
  - etrans; [|by apply (Z.div_mul (zlen filters) 4)]. f_equal. lia.
  - replace (zlen (concat filters) + 4 * zlen filters + 5 - 1) with (zlen (concat filters ++ concat (map fixed32_write ws)))
      by (rewrite zlen_app, zlen_words, Hw; lia).
    unfold at_, filter_bytes. fold ws. rewrite app_assoc. unfold zlen. by rewrite Nat2Z.id, nth_middle.
Qed.

Lemma filter_bytes_match groups filters i g k off :
  Forall2 covers groups filters -> zlen (filter_bytes filters) < 2 ^ 32 ->
  0 <= off -> off / LDB_FILTER_BASE = Z.of_nat i -> groups !! i = Some g -> k ∈ g ->
  ldb_filter_matches (Filter p (filter_bytes filters) (zlen (concat filters)) (zlen filters) LDB_FILTER_BASE_LG) off k
    = Some true.
Proof.
  intros Hc Hs Ho Hi Hg Hk. destruct (Forall2_lookup_l _ _ _ _ _ Hc Hg) as (f & Hf & Hcov).
  pose proof (lookup_lt_Some _ _ _ Hf) as Hlt.
  unfold ldb_filter_matches. cbn [fr_base_lg fr_num fr_data fr_offset fr_policy].
  rewrite Z.shiftr_div_pow2 by done. change (2 ^ LDB_FILTER_BASE_LG) with LDB_FILTER_BASE. rewrite Hi.
  rewrite (proj2 (Z.ltb_lt _ _)) by (unfold zlen; lia).
  assert (zlen (concat filters) < 2 ^ 32) as Hc32.
  { unfold filter_bytes in Hs. rewrite zlen_app in Hs. match type of Hs with _ + zlen ?x < _ => pose proof (zlen_nonneg x) end. lia. }
  assert (forall j, (j <= length filters)%nat ->
    read32 (filter_bytes filters) (zlen (concat filters) + 4 * Z.of_nat j) = Some (zlen (concat (take j filters)))) as Hread.
  { intros j Hj. pose proof (starts_lookup filters j Hj) as Hl. apply read32_words; [done|by eapply starts_range]. }
  replace (Z.of_nat i * 4) with (4 * Z.of_nat i) by lia. rewrite Hread by lia.
  replace (zlen (concat filters) + 4 * Z.of_nat i + 4) with (zlen (concat filters) + 4 * Z.of_nat (S i)) by lia.
  rewrite Hread by lia. cbn [mbind option_bind].
  pose proof (concat_take_le filters (S i)).
  assert (zlen (concat (take i filters)) <= zlen (concat (take (S i) filters))).
  { rewrite (take_S_r _ _ _ Hf), concat_app, zlen_app. match goal with |- _ <= _ + zlen ?x => pose proof (zlen_nonneg x) end. lia. }
  rewrite !(proj2 (Z.leb_le _ _)) by lia. cbn [andb].
  assert (ztake (zlen (concat (take (S i) filters)) - zlen (concat (take i filters)))
    (zdrop (zlen (concat (take i filters))) (filter_bytes filters)) = f) as ->.
  { etrans; [|exact (cut_element filters i f Hf)]. unfold filter_bytes, ztake, zdrop.
    rewrite drop_app_le, take_app_le; [done|..]; rewrite ?length_drop; unfold zlen in *; lia. }
  by rewrite Hcov.
Qed.

Lemma finish_ok fb seen off contents fb' :
  filtergen_ok fb seen off -> zlen seen < 2 ^ 32 -> ldb_filtergen_finish fb = (contents, fb') ->
  zlen contents < 2 ^ 32 ->
  exists fr, ldb_filter_init p contents = Some fr /\
    forall o k, (o, k) ∈ seen -> ldb_filter_matches fr o k = Some true.
Proof.
  intros (groups & cur & filters & R & Ho & Hn & Hd & Hl & Hs) Hlen E Hsz.
  destruct (finish_rep fb groups cur filters R Hd) as (groups' & filters' & Ec & Hc & Hg);
    [unfold zlen in *; lia|by rewrite E|]. rewrite E in Ec. cbn [fst] in Ec. subst contents.
  eexists. split; [by apply filter_open|]. intros o k Hin. destruct (Hs o k Hin) as (H0 & g & Hlk & Hk).
  assert (0 <= o / LDB_FILTER_BASE) by (apply Z.div_pos; done).
  eapply (filter_bytes_match groups' filters'); [done|done|done| |by eapply Hg|done]. lia.
Qed.
End Builder.

(** ** Whole blocks *)

(** One block after the other, each with the offset it starts at. *)
Definition filtergen_blocks (fb : filtergen) (blocks : list (Z * list bytes)) : option filtergen :=
  fold_left (fun fb b => fb ← fb; fb ← ldb_filtergen_start_block fb b.1; Some (fold_left ldb_filtergen_add_key b.2 fb))
    blocks (Some fb).

Definition flat (blocks : list (Z * list bytes)) : list (Z * bytes) := concat (map (fun b => map (pair b.1) b.2) blocks).

Lemma elem_of_flat blocks o k : (o, k) ∈ flat blocks <-> exists ks, (o, ks) ∈ blocks /\ k ∈ ks.
Proof.
  unfold flat. induction blocks as [|[o' ks'] blocks IH]; cbn.
  - split; [by intros ?%not_elem_of_nil|by intros (ks & ?%not_elem_of_nil & _)].
  - rewrite elem_of_app, IH, list_elem_of_In, in_map_iff. setoid_rewrite elem_of_cons. setoid_rewrite <- list_elem_of_In.
    split; [intros [(k' & [= -> ->] & Hk)|(ks & H & Hk)]; eauto|].
    intros (ks & [[= -> ->]|H] & Hk); [left; eauto|right; eauto].
Qed.

Lemma length_flat blocks : length (flat blocks) = length (concat (map snd blocks)).
Proof.
  unfold flat. induction blocks as [|b blocks IH]; [done|]. cbn. by rewrite !length_app, length_map, IH.
Qed.

Section Blocks.
Context (dom : bytes -> Prop) (p : bloom) `{!FilterPolicy dom p}.

Lemma add_keys_ok fb seen off ks :
  filtergen_ok dom p fb seen off -> Forall dom ks ->
  filtergen_ok dom p (fold_left ldb_filtergen_add_key ks fb) (seen ++ map (pair off) ks) off.
Proof.
  revert fb seen. induction ks as [|k ks IH]; intros fb seen H Hd; cbn [fold_left map]; [by rewrite app_nil_r|].
  apply List.Forall_cons_iff in Hd as [Hk Hd].
  replace (seen ++ (off, k) :: map (pair off) ks) with ((seen ++ [(off, k)]) ++ map (pair off) ks) by by rewrite <- app_assoc.
  apply IH; [by apply add_key_ok|done].
Qed.

Lemma blocks_ok blocks : forall fb seen off,
  filtergen_ok dom p fb seen off -> Forall (fun b => off <= b.1) blocks -> StronglySorted Z.le (map fst blocks) ->
  Forall (fun b => Forall dom b.2) blocks -> zlen (seen ++ flat blocks) < 2 ^ 32 ->
  exists fb' off', filtergen_blocks fb blocks = Some fb' /\ filtergen_ok dom p fb' (seen ++ flat blocks) off'.
Proof.
  induction blocks as [|[o ks] blocks IH]; intros fb seen off H Ho Hs Hd Hl.
  { exists fb, off. unfold flat. cbn. by rewrite app_nil_r. }
  apply List.Forall_cons_iff in Ho as [Ho _]. apply List.Forall_cons_iff in Hd as [Hk Hd]. cbn [fst snd map] in *.
  apply StronglySorted_inv in Hs as [Hs Hso]. change (flat ((o, ks) :: blocks)) with (map (pair o) ks ++ flat blocks) in *.
  destruct (start_block_ok dom p fb seen off o H Ho) as (fb1 & E & H1); [zlia|].
  rewrite app_assoc in *. destruct (IH _ _ o (add_keys_ok fb1 seen o ks H1 Hk)) as (fb' & off' & E' & H'); try done.
  { by apply (proj1 (List.Forall_map fst (Z.le o) blocks)) in Hso. }
  exists fb', off'. split; [|done]. unfold filtergen_blocks. cbn [fold_left mbind option_bind fst snd]. by rewrite E.
Qed.
End Blocks.

(** ** The size of a filter block *)

Section Size.
Context (p : bloom) (c : Z) (Hc : 0 <= c) `{!PolicySize p c}.

(** The filters built, and what the keys collected may still take. *)
Definition filter_size (fb : filtergen) : Z := zlen (fg_result fb) + 2 * c * zlen (fg_start fb).

Lemma generate_size fb : fg_policy fb = p ->
  fg_policy (ldb_filtergen_generate fb) = p /\ filter_size (ldb_filtergen_generate fb) <= filter_size fb.
Proof.
  intros Hp. unfold ldb_filtergen_generate, filter_size. destruct (Nat.eqb_spec (length (fg_start fb)) 0) as [E|E]; [done|].
  assert (fg_policy (ldb_filtergen_alloc fb (Z.of_nat (length (fg_start fb)))) = p /\
    fg_result (ldb_filtergen_alloc fb (Z.of_nat (length (fg_start fb)))) = fg_result fb) as [E1 E2]
    by (unfold ldb_filtergen_alloc; destruct (_ <? _); done).
  rewrite E1, E2. split; [done|]. cbn [fg_result fg_start]. etransitivity.
  { apply Z.add_le_mono_r. apply (policy_size (c := c)). }
  unfold tmp_keys. cbn [fg_start]. unfold zlen. rewrite length_map, length_seq. cbn [length]. nia.
Qed.

Lemma start_block_size fb off fb' : fg_policy fb = p -> ldb_filtergen_start_block fb off = Some fb' ->
  fg_policy fb' = p /\ filter_size fb' <= filter_size fb.
Proof.
  unfold ldb_filtergen_start_block. destruct (_ <? _); [done|].
  generalize (Z.to_nat (off / LDB_FILTER_BASE - zlen (fg_offsets fb))) as fuel. intros fuel. revert fb.
  induction fuel as [|fuel IH]; intros fb Hp; cbn [start_block_loop]; destruct (_ <? _); try done; try by intros [= <-].
  destruct (generate_size fb Hp) as [Hp' Hs]. intros E. destruct (IH _ Hp' E) as [? ?]. split; [done|lia].
Qed.

Lemma add_key_size fb k : filter_size (ldb_filtergen_add_key fb k) = filter_size fb + 2 * c.
Proof. unfold filter_size. cbn [fg_result fg_start ldb_filtergen_add_key]. rewrite zlen_app. change (zlen [_]) with 1. lia. Qed.

Lemma finish_size fb : fg_policy fb = p ->
  zlen (ldb_filtergen_finish fb).1 <= filter_size fb + 4 * (zlen (fg_offsets fb) + 1) + 5.
Proof.
  intros Hp. unfold ldb_filtergen_finish. cbn [fst]. rewrite !zlen_app, zlen_fixed32_write.
  rewrite <- (map_map u32 fixed32_write), zlen_words. change (zlen [z2b LDB_FILTER_BASE_LG]) with 1.
  assert (forall xs : list Z, zlen (map u32 xs) = zlen xs) as Hm by (intros; unfold zlen; by rewrite length_map).
  rewrite Hm. destruct (Nat.ltb_spec 0 (length (fg_start fb))) as [H|H].
  - destruct (generate_size fb Hp) as [_ Hs]. unfold filter_size in Hs at 1.
    assert (zlen (fg_offsets (ldb_filtergen_generate fb)) = zlen (fg_offsets fb) + 1) as Ho.
    { unfold ldb_filtergen_generate, ldb_filtergen_alloc. destruct (_ =? _)%nat; [|destruct (_ <? _)];
        cbn [fg_offsets]; rewrite zlen_app; done. }
    pose proof (zlen_nonneg (fg_start (ldb_filtergen_generate fb))). nia.
  - unfold filter_size. pose proof (zlen_nonneg (fg_start fb)). nia.
Qed.
End Size.

(** ** Reading arbitrary bytes *)

Lemma filter_init_total policy contents :
  exists fr, ldb_filter_init policy contents = Some fr /\ 0 <= fr_base_lg fr /\
    (fr_num fr = 0 \/ (0 <= fr_offset fr /\ fr_offset fr + 4 * fr_num fr + 5 <= zlen (fr_data fr))).
Proof.
  unfold ldb_filter_init. destruct (Z.ltb_spec (zlen contents) 5) as [Hn|Hn]; [eexists; split; [done|]; cbn; lia|].
  assert (0 <= Z.land (at_ contents (zlen contents - 1)) 63) as Hlg.
  { apply Z.land_nonneg. by right. }
  rewrite read32_inside by lia. cbn [mbind option_bind].
  pose proof (fixed32_decode_range (zdrop (zlen contents - 5) contents)) as Hr.
  destruct (Z.ltb_spec (zlen contents - 5) (fixed32_decode (zdrop (zlen contents - 5) contents))) as [H|H];
    (eexists; split; [done|]); cbn [fr_base_lg fr_num fr_offset fr_data]; split; try done; [by left|right].
  split; [lia|]. pose proof (Z.mul_div_le (zlen contents - 5 - fixed32_decode (zdrop (zlen contents - 5) contents)) 4). lia.
Qed.

Lemma filter_init_policy policy contents fr : ldb_filter_init policy contents = Some fr -> fr_policy fr = policy.
Proof.
  unfold ldb_filter_init. destruct (_ <? _); [by intros [= <-]|]. destruct (read32 _ _); [|done]. cbn [mbind option_bind].
  destruct (_ <? _); by intros [= <-].
Qed.

Lemma filter_matches_total policy contents fr block_offset key :
  ldb_filter_init policy contents = Some fr -> 0 <= block_offset -> exists b, ldb_filter_matches fr block_offset key = Some b.
Proof.
  intros E Ho. destruct (filter_init_total policy contents) as (fr' & E' & Hlg & Hfr). rewrite E in E'. injection E' as <-.
  unfold ldb_filter_matches. pose proof (proj2 (Z.shiftr_nonneg block_offset (fr_base_lg fr)) Ho) as Hi.
  destruct (Z.ltb_spec (Z.shiftr block_offset (fr_base_lg fr)) (fr_num fr)); [|by eexists].
  destruct Hfr as [?|[H1 H2]]; [lia|]. rewrite !read32_inside by lia. cbn [mbind option_bind].
  destruct (_ && _); [by eexists|]. destruct (_ =? _); by eexists.
Qed.

(** A filter answers alike for keys its policy does not tell apart. *)
Lemma filter_matches_same fr block_offset k k' :
  (forall f, bloom_match_fn (fr_policy fr) f k = bloom_match_fn (fr_policy fr) f k') ->
  ldb_filter_matches fr block_offset k = ldb_filter_matches fr block_offset k'.
Proof.
  intros H. unfold ldb_filter_matches. destruct (_ <? _); [|done]. destruct (read32 _ _) as [start|]; [|done].
  cbn [mbind option_bind]. destruct (read32 _ _) as [limit|]; [|done]. cbn [mbind option_bind]. by rewrite H.
Qed.

(** ** Properties *)

(** C32: A filter block has no false negatives: for any policy that keeps its
    promise, the builder accepts blocks of keys at non-decreasing offsets
    without failing its assertion, and the reader opens the finished block and
    matches every key at the offset of its block. *)
Theorem filter_block_no_false_negatives dom p `{!FilterPolicy dom p} blocks :
  StronglySorted Z.le (map fst blocks) -> Forall (fun b => 0 <= b.1 /\ Forall dom b.2) blocks ->
  zlen (concat (map snd blocks)) < 2 ^ 32 ->
  exists fb contents fb', filtergen_blocks (ldb_filtergen_init p) blocks = Some fb /\
    ldb_filtergen_finish fb = (contents, fb') /\
    (zlen contents < 2 ^ 32 ->
     exists fr, ldb_filter_init p contents = Some fr /\
       forall off ks k, (off, ks) ∈ blocks -> k ∈ ks -> ldb_filter_matches fr off k = Some true).
Proof.
  intros Hs Hb Hl. destruct (blocks_ok dom p blocks (ldb_filtergen_init p) [] 0) as (fb & off & E & H).
  - apply init_ok.
  - eapply List.Forall_impl; [|exact Hb]. by intros b [? _].
  - done.
  - eapply List.Forall_impl; [|exact Hb]. by intros b [_ ?].
  - cbn [app]. unfold zlen in *. by rewrite length_flat.
  - destruct (ldb_filtergen_finish fb) as [contents fb'] eqn:Ef. exists fb, contents, fb'. split; [done|]. split; [done|].
    intros Hsz. destruct (finish_ok dom p fb _ off contents fb' H) as (fr & Er & Hm); [|done..|].
    + cbn [app]. unfold zlen in *. by rewrite length_flat.
    + exists fr. split; [done|]. intros o ks k Hin Hk. apply Hm. apply elem_of_flat. eauto.
Qed.

Lemma filter_block_no_false_negatives_witness :
  let blocks := [(0, [[Byte.x61]; [Byte.x62]]); (1000, [[Byte.x63]]); (5000, [[Byte.x64]]); (5100, [])] in
  exists fb contents fb', filtergen_blocks (ldb_filtergen_init bloom_default) blocks = Some fb /\
    ldb_filtergen_finish fb = (contents, fb') /\ zlen contents < 2 ^ 32 /\
    exists fr, ldb_filter_init bloom_default contents = Some fr /\
      ldb_filter_matches fr 1000 [Byte.x63] = Some true /\ ldb_filter_matches fr 5000 [Byte.x61] = Some false.
Proof.
  intros blocks.
  destruct (filter_block_no_false_negatives (fun _ => True) bloom_default blocks) as (fb & contents & fb' & E & F & H).
  - cbn. repeat (apply SSorted_cons; [|repeat (apply List.Forall_cons; [lia|]); apply List.Forall_nil]). apply SSorted_nil.
  - repeat (apply List.Forall_cons; [split; [cbn; lia|repeat constructor]|]). apply List.Forall_nil.
  - by vm_compute.
  - let c := eval vm_compute in (fst ∘ ldb_filtergen_finish <$> filtergen_blocks (ldb_filtergen_init bloom_default) blocks) in
    assert (fst ∘ ldb_filtergen_finish <$> filtergen_blocks (ldb_filtergen_init bloom_default) blocks = c) as Hc
      by by vm_compute.
    rewrite E in Hc. cbn [fmap option_fmap option_map compose] in Hc. rewrite F in Hc. cbn [fst] in Hc. injection Hc as ->.
    exists fb. eexists _, fb'. split; [exact E|]. split; [exact F|]. split; [by vm_compute|].
    destruct H as (fr & Er & Hm); [by vm_compute|]. exists fr. split; [exact Er|]. split.
    + apply (Hm 1000 [[Byte.x63]]); [by right; left|by left].
    + change ((Some fr ≫= fun fr => ldb_filter_matches fr 5000 [Byte.x61]) = Some false).
      rewrite <- Er. by vm_compute.
Defined.

(** Whatever bytes a filter block holds, opening it and matching a key
    reads inside the block. *)
Theorem filter_reader_safe policy contents block_offset key :
  0 <= block_offset ->
  exists fr b, ldb_filter_init policy contents = Some fr /\ ldb_filter_matches fr block_offset key = Some b.
Proof.
  intros Ho. destruct (filter_init_total policy contents) as (fr & E & _).
  destruct (filter_matches_total policy contents fr block_offset key E Ho) as [b Eb]. by exists fr, b.
Qed.

Lemma filter_reader_safe_witness :
  exists fr b, ldb_filter_init bloom_default (zeros 9) = Some fr /\ ldb_filter_matches fr 0 [Byte.x61] = Some b.
Proof. apply (filter_reader_safe bloom_default (zeros 9) 0 [Byte.x61]). lia. Defined.
