(* ===== verification/Snappy.v ===== *)
(** * Snappy compression

    Models [src/engine/src/util/snappy.c]: the encoder with its hash table of
    earlier positions, and the decoder.  Reads outside the input and table
    accesses outside the initialised part are [None], and so is a loop that
    runs out of fuel; the encoder's output is the bytes written so far. *)

From S2P Require Import Prelude Coding.
#[local] Open Scope Z_scope.

(** ** Constants *)

Definition MAX_TABLE_SIZE : Z := Z.shiftl 1 11.
Definition INPUT_MARGIN : Z := 16 - 1.
Definition MIN_BLOCK_SIZE : Z := 1 + 1 + INPUT_MARGIN.
Definition MAX_BLOCK_SIZE : Z := 65536.

Definition TAG_LITERAL : Z := 0.
Definition TAG_COPY1 : Z := 1.
Definition TAG_COPY2 : Z := 2.
Definition TAG_COPY4 : Z := 3.

Definition hash32 (x shift : Z) : Z := Z.shiftr (u32 (x * 0x1e35a7bd)) shift.

(** [ldb_fixed64_decode(xp + off)], inside the input. *)
Definition read64 (data : bytes) (off : Z) : option Z :=
  if (0 <=? off) && (off + 8 <=? zlen data) then Some (fixed64_decode (zdrop off data)) else None.

(** ** Encoding *)

(** [emit_literal(zp, xp, xn)] for the [xn] bytes [x]. *)
Definition emit_literal (zp x : bytes) : bytes :=
  let n := u64 (zlen x - 1) in
  zp ++
  (if n <? 60 then [z2b (Z.lor (Z.shiftl n 2) TAG_LITERAL)]
   else if n <? Z.shiftl 1 8 then [z2b (Z.lor (Z.shiftl 60 2) TAG_LITERAL); z2b n]
   else [z2b (Z.lor (Z.shiftl 61 2) TAG_LITERAL); z2b n; z2b (Z.shiftr n 8)]) ++ x.

Definition copy2_bytes (off len : Z) : bytes :=
  [z2b (Z.lor (Z.shiftl (len - 1) 2) TAG_COPY2); z2b off; z2b (Z.shiftr off 8)].

(** The loop [while (len >= 68)]. *)
Fixpoint emit_copy_loop (fuel : nat) (zp : bytes) (off len : Z) : option (bytes * Z) :=
  if 68 <=? len then
    match fuel with
    | O => None
    | S fuel => emit_copy_loop fuel (zp ++ copy2_bytes off 64) off (len - 64)
    end
  else Some (zp, len).

Definition emit_copy (zp : bytes) (off len : Z) : option bytes :=
  '(zp, len) ← emit_copy_loop (Z.to_nat (len / 64)) zp off len;
  let '(zp, len) := if 64 <? len then (zp ++ copy2_bytes off 60, len - 60) else (zp, len) in
  if (12 <=? len) || (2048 <=? off) then Some (zp ++ copy2_bytes off len)
  else
    Some (zp ++ [z2b (Z.lor (Z.lor (Z.shiftl (Z.shiftr off 8) 5) (Z.shiftl (len - 4) 2)) TAG_COPY1); z2b off]).

(** [while (size < MAX_TABLE_SIZE && size < xn)] *)
Fixpoint table_size (fuel : nat) (xn size shift : Z) : option (Z * Z) :=
  if (size <? MAX_TABLE_SIZE) && (size <? xn) then
    match fuel with
    | O => None
    | S fuel => table_size fuel xn (size * 2) (shift - 1)
    end
  else Some (size, shift).

(** [table[i]] and [table[i] = pos], in the initialised part of [uint16_t table[]]. *)
Definition table_get (table : list Z) (i : Z) : option Z := if 0 <=? i then table !! Z.to_nat i else None.
Definition table_set (table : list Z) (i pos : Z) : list Z := <[Z.to_nat i := u16 pos]> table.

Section Encode.
Context (x : bytes) (limit shift : Z).

(** The inner loop that looks for a match: [Some None] is [goto finish],
    otherwise the position, the candidate and the table. *)
Fixpoint find_match (fuel : nat) (table : list Z) (next skip npos : Z) : option (option (Z * Z * list Z)) :=
  match fuel with
  | O => None
  | S fuel =>
    let pos := npos in
    let npos := pos + Z.shiftr skip 5 in
    let skip := skip + Z.shiftr skip 5 in
    if limit <? npos then Some None
    else
      cand ← table_get table next;
      let table := table_set table next pos in
      w ← read32 x npos;
      let next := hash32 w shift in
      a ← read32 x pos;
      b ← read32 x cand;
      if a =? b then Some (Some (pos, cand, table)) else find_match fuel table next skip npos
  end.

(** [while (pos < xn && xp[chk] == xp[pos])] *)
Fixpoint extend_match (fuel : nat) (chk pos : Z) : option Z :=
  if (pos <? zlen x) && (at_ x chk =? at_ x pos) then
    match fuel with O => None | S fuel => extend_match fuel (chk + 1) (pos + 1) end
  else Some pos.

(** The inner loop that emits copies: the output, [emit], and unless the block
    is finished the table, position and hash to go on with. *)
Fixpoint copy_loop (fuel : nat) (zp : bytes) (table : list Z) (pos cand : Z)
    : option (bytes * Z * option (list Z * Z * Z)) :=
  match fuel with
  | O => None
  | S fuel =>
    let base := pos in
    pos ← extend_match (length x) (cand + 4) (pos + 4);
    zp ← emit_copy zp (base - cand) (pos - base);
    let emit := pos in
    if limit <=? pos then Some (zp, emit, None)
    else
      w ← read64 x (pos - 1);
      let prev := hash32 (u32 w) shift in
      let table := table_set table prev (pos - 1) in
      let cur := hash32 (u32 (Z.shiftr w 8)) shift in
      cand ← table_get table cur;
      let table := table_set table cur pos in
      c ← read32 x cand;
      if negb (Z.shiftr w 8 =? c)
      then Some (zp, emit, Some (table, pos + 1, hash32 (u32 (Z.shiftr w 16)) shift))
      else copy_loop fuel zp table pos cand
  end.

(** The outer loop, up to [finish]. *)
Fixpoint encode_loop (fuel : nat) (zp : bytes) (table : list Z) (next emit pos : Z) : option (bytes * Z) :=
  match fuel with
  | O => None
  | S fuel =>
    m ← find_match (S (length x)) table next 32 pos;
    match m with
    | None => Some (zp, emit)
    | Some (pos, cand, table) =>
      let zp := emit_literal zp (ztake (pos - emit) (zdrop emit x)) in
      r ← copy_loop (S (length x)) zp table pos cand;
      match r with
      | (zp, emit, None) => Some (zp, emit)
      | (zp, emit, Some (table, pos, next)) => encode_loop fuel zp table next emit pos
      end
    end
  end.
End Encode.

Definition encode_block (zp x : bytes) : option bytes :=
  let limit := u64 (zlen x - INPUT_MARGIN) in
  '(size, shift) ← table_size 4 (zlen x) (Z.shiftl 1 8) (32 - 8);
  if MAX_TABLE_SIZE <? size then None
  else
    let table := replicate (Z.to_nat size) 0 in
    w ← read32 x 1;
    let next := hash32 w shift in
    '(zp, emit) ← encode_loop x limit shift (S (length x)) zp table next 0 1;
    Some (if emit <? zlen x then emit_literal zp (zdrop emit x) else zp).

(** ** Decoding *)

(** The length field of a literal: the value [x] and the input behind it. *)
Definition literal_length (tag : Z) (xp : bytes) : option (Z * bytes) :=
  let n := Z.shiftr tag 2 in
  if n <? 60 then Some (n, xp)
  else if n =? 60 then
    match xp with a :: xp => Some (b2z a, xp) | _ => None end
  else if n =? 61 then
    match xp with
    | a :: b :: xp => Some (Z.lor (b2z a) (Z.shiftl (b2z b) 8), xp)
    | _ => None
    end
  else if n =? 62 then
    match xp with
    | a :: b :: c :: xp => Some (Z.lor (Z.lor (b2z a) (Z.shiftl (b2z b) 8)) (Z.shiftl (b2z c) 16), xp)
    | _ => None
    end
  else
    match xp with
    | a :: b :: c :: d :: xp =>
      Some (Z.lor (Z.lor (Z.lor (b2z a) (Z.shiftl (b2z b) 8)) (Z.shiftl (b2z c) 16)) (Z.shiftl (b2z d) 24), xp)
    | _ => None
    end.

(** Offset and length of a copy, and the input behind them. *)
Definition copy_fields (tag : Z) (xp : bytes) : option (Z * Z * bytes) :=
  if Z.land tag 3 =? TAG_COPY1 then
    match xp with
    | a :: xp => Some (Z.lor (Z.shiftl (Z.land tag 0xe0) 3) (b2z a), 4 + Z.land (Z.shiftr tag 2) 7, xp)
    | _ => None
    end
  else if Z.land tag 3 =? TAG_COPY2 then
    match xp with
    | a :: b :: xp => Some (Z.lor (b2z a) (Z.shiftl (b2z b) 8), 1 + Z.shiftr tag 2, xp)
    | _ => None
    end
  else
    match xp with
    | a :: b :: c :: d :: xp =>
      Some (Z.lor (Z.lor (Z.lor (b2z a) (Z.shiftl (b2z b) 8)) (Z.shiftl (b2z c) 16)) (Z.shiftl (b2z d) 24),
            1 + Z.shiftr tag 2, xp)
    | _ => None
    end.

(** [for (i = 0; i < len; i++) zp[i] = (zp - off)[i]] *)
Fixpoint copy_bytes (len : nat) (out : bytes) (off : Z) : bytes :=
  match len with
  | O => out
  | S len => copy_bytes len (out ++ [nth (Z.to_nat (zlen out - off)) out Byte.x00]) off
  end.

Definition copy_from (out : bytes) (off len : Z) : bytes :=
  if len <=? off then out ++ ztake len (zdrop (zlen out - off) out)
  else copy_bytes (Z.to_nat len) out off.

(** One turn of the loop of [decode_blocks]: the bytes written between [sp] and
    [zp], the room left and the input left; [None] is [return 0]. *)
Definition decode_token (out : bytes) (zn : Z) (xp : bytes) : option (bytes * Z * bytes) :=
  match xp with
  | [] => None
  | b :: xp =>
    let tag := b2z b in
    if Z.land tag 3 =? TAG_LITERAL then
      '(n, xp) ← literal_length tag xp;
      if 0x7fffffff <=? n then None
      else
        let len := n + 1 in
        if (zn <? len) || (zlen xp <? len) then None
        else Some (out ++ ztake len xp, zn - len, zdrop len xp)
    else
      '(off, len, xp) ← copy_fields tag xp;
      if (off =? 0) || (0x80000000 <=? off) then None
      else if (zlen out <? off) || (zn <? len) then None
      else Some (copy_from out off len, zn - len, xp)
  end.

(** [decode_blocks]: the output when it returns 1. *)
Fixpoint decode_loop (fuel : nat) (out : bytes) (zn : Z) (xp : bytes) : option (option bytes) :=
  match xp with
  | [] => Some (if negb (zn =? 0) then None else Some out)
  | _ :: _ =>
    match fuel with
    | O => None
    | S fuel =>
      match decode_token out zn xp with
      | None => Some None
      | Some (out, zn, xp) => decode_loop fuel out zn xp
      end
    end
  end.

Definition decode_blocks (zn : Z) (xp : bytes) : option (option bytes) := decode_loop (length xp) [] zn xp.

(** ** The interface *)

Definition snappy_encode_size (xn : Z) : option Z :=
  let n := xn in
  if 0x7fffffff <? n then None
  else
    let n := 32 + n + n / 6 in
    if 0x7fffffff <? n then None else Some n.

(** The loop over the blocks. *)
Fixpoint snappy_encode_loop (fuel : nat) (zp x : bytes) : option bytes :=
  if MAX_BLOCK_SIZE <=? zlen x then
    match fuel with
    | O => None
    | S fuel =>
      zp ← encode_block zp (ztake MAX_BLOCK_SIZE x);
      snappy_encode_loop fuel zp (zdrop MAX_BLOCK_SIZE x)
    end
  else if 0 <? zlen x then
    if MIN_BLOCK_SIZE <=? zlen x then encode_block zp x else Some (emit_literal zp x)
  else Some zp.

Definition snappy_encode (x : bytes) : option bytes :=
  snappy_encode_loop (Z.to_nat (zlen x / MAX_BLOCK_SIZE)) (varint32_write (u32 (zlen x))) x.

Definition snappy_decode_size (x : bytes) : option Z :=
  match varint32_read x with
  | (Some n, _) => if 0x7fffffff <? n then None else Some n
  | (None, _) => None
  end.

Definition snappy_decode (x : bytes) : option (option bytes) :=
  match varint32_read x with
  | (Some zn, xp) => if 0x7fffffff <? zn then Some None else decode_blocks zn xp
  | (None, _) => Some None
  end.

Example snappy_ex :
  let x := concat (replicate 20 [Byte.x61; Byte.x62; Byte.x63; Byte.x64]) in
  (z ← snappy_encode x; snappy_decode z) = Some (Some x).
Proof. vm_compute. reflexivity. Qed.

(** ** Decoding one token *)

Lemma byte_forall (P : Z -> bool) :
  forallb P (map Z.of_nat (seq 0 256)) = true -> forall z, 0 <= z < 256 -> P z = true.
Proof.
  intros H z Hz. rewrite forallb_forall in H. apply H, in_map_iff. exists (Z.to_nat z).
  split; [lia|]. apply in_seq. lia.
Qed.

Lemma literal_length_spec tag xp n xp' :
  0 <= tag -> literal_length tag xp = Some (n, xp') -> 0 <= n /\ (length xp' <= length xp)%nat.
Proof.
  intros Ht. unfold literal_length. destruct (Z.ltb_spec (Z.shiftr tag 2) 60).
  { intros [= <- <-]. split; [by apply Z.shiftr_nonneg|done]. }
  destruct (_ =? 60); [|destruct (_ =? 61); [|destruct (_ =? 62)]];
    destruct xp as [|a [|b [|c [|d xp]]]]; intros E; try discriminate E; injection E as <- <-;
    (split; [rewrite ?Z.lor_nonneg, ?Z.shiftl_nonneg; byte_ranges; lia|cbn; lia]).
Qed.

Lemma copy_fields_spec tag xp off len xp' :
  0 <= tag -> copy_fields tag xp = Some (off, len, xp') -> 0 <= off /\ 0 < len /\ (length xp' <= length xp)%nat.
Proof.
  intros Ht. unfold copy_fields.
  assert (0 <= Z.shiftr tag 2) by by apply Z.shiftr_nonneg.
  assert (0 <= Z.land (Z.shiftr tag 2) 7) by (apply Z.land_nonneg; lia).
  assert (0 <= Z.land tag 224) by (apply Z.land_nonneg; lia).
  destruct (_ =? TAG_COPY1); [|destruct (_ =? TAG_COPY2)];
    destruct xp as [|a [|b [|c [|d xp]]]]; intros E; try discriminate E; injection E as <- <- <-;
    (split; [rewrite ?Z.lor_nonneg, ?Z.shiftl_nonneg; byte_ranges; lia|split; [lia|cbn; lia]]).
Qed.

Lemma zlen_copy_bytes n out off : zlen (copy_bytes n out off) = zlen out + Z.of_nat n.
Proof.
  revert out. induction n as [|n IH]; intros out; cbn [copy_bytes]; [lia|]. rewrite IH, zlen_app. unfold zlen. cbn. lia.
Qed.

Lemma zlen_copy_from out off len : 0 <= off <= zlen out -> 0 <= len -> zlen (copy_from out off len) = zlen out + len.
Proof.
  intros Ho Hl. unfold copy_from. destruct (Z.leb_spec len off).
  - rewrite zlen_app, zlen_take; [done|]. rewrite zlen_drop by lia. lia.
  - rewrite zlen_copy_bytes. lia.
Qed.

Lemma decode_token_spec out zn xp out' zn' xp' :
  decode_token out zn xp = Some (out', zn', xp') ->
  (length xp' < length xp)%nat /\ zlen out' + zn' = zlen out + zn /\ 0 <= zn'.
Proof.
  destruct xp as [|b xp]; [done|]. cbn [decode_token]. pose proof (b2z_range b) as Hb.
  destruct (_ =? TAG_LITERAL).
  - destruct (literal_length (b2z b) xp) as [[n xp1]|] eqn:E; [|done]. cbn [mbind option_bind].
    apply literal_length_spec in E as [Hn Hl]; [|lia]. destruct (_ <=? n); [done|].
    destruct (Z.ltb_spec zn (n + 1)); [done|]. destruct (Z.ltb_spec (zlen xp1) (n + 1)); [done|].
    intros [= <- <- <-]. rewrite zlen_app, zlen_take by lia. unfold zdrop. rewrite length_drop. cbn [length].
    split; [lia|]. split; lia.
  - destruct (copy_fields (b2z b) xp) as [[[off len] xp1]|] eqn:E; [|done]. cbn [mbind option_bind].
    apply copy_fields_spec in E as (Ho & Hn & Hl); [|lia]. destruct (_ || _); [done|].
    destruct (Z.ltb_spec (zlen out) off); [done|]. destruct (Z.ltb_spec zn len); [done|].
    intros [= <- <- <-]. rewrite zlen_copy_from by lia. cbn [length]. split; [lia|]. split; lia.
Qed.

(** ** Fuel and safety of the decoder *)

Lemma decode_loop_fuel f f' out zn xp :
  (length xp <= f)%nat -> (length xp <= f')%nat -> decode_loop f out zn xp = decode_loop f' out zn xp.
Proof.
  revert f' out zn xp. induction f as [|f IH]; intros f' out zn xp Hf Hf'.
  - destruct xp; [by destruct f'|cbn in Hf; lia].
  - destruct f' as [|f']; [destruct xp; [done|cbn in Hf'; lia]|]. cbn [decode_loop]. destruct xp as [|b xp]; [done|].
    destruct (decode_token out zn (b :: xp)) as [[[out' zn'] xp']|] eqn:E; [|done].
    apply decode_token_spec in E as (Hl & _). apply IH; cbn in *; lia.
Qed.

(** The loop, with fuel for its whole input. *)
Definition decode (out : bytes) (zn : Z) (xp : bytes) : option (option bytes) := decode_loop (length xp) out zn xp.

Lemma decode_nil out : decode out 0 [] = Some (Some out).
Proof. done. Qed.

Lemma decode_step out zn xp out' zn' xp' :
  decode_token out zn xp = Some (out', zn', xp') -> decode out zn xp = decode out' zn' xp'.
Proof.
  intros E. pose proof (decode_token_spec _ _ _ _ _ _ E) as (Hl & _). unfold decode.
  destruct xp as [|b xp]; [done|]. cbn [length decode_loop]. rewrite E. apply decode_loop_fuel; cbn in Hl; lia.
Qed.

Lemma decode_loop_total f out zn xp :
  (length xp <= f)%nat -> 0 <= zn ->
  exists r, decode_loop f out zn xp = Some r /\ forall res, r = Some res -> zlen res = zlen out + zn.
Proof.
  revert out zn xp. induction f as [|f IH]; intros out zn xp Hf Hz.
  - destruct xp; [|cbn in Hf; lia]. eexists. split; [done|]. intros res. destruct (Z.eqb_spec zn 0); [|done].
    intros [= <-]. lia.
  - cbn [decode_loop]. destruct xp as [|b xp].
    { eexists. split; [done|]. intros res. destruct (Z.eqb_spec zn 0); [|done]. intros [= <-]. lia. }
    destruct (decode_token out zn (b :: xp)) as [[[out' zn'] xp']|] eqn:E; [|by eexists].
    apply decode_token_spec in E as (Hl & Hs & Hz'). destruct (IH out' zn' xp') as (r & Er & Hr); [cbn in *; lia|done|].
    exists r. split; [done|]. intros res Hres. rewrite (Hr res Hres). lia.
Qed.

(** ** What the tokens of the encoder decode to *)

(** The tokens [toks] extend the output [pre] by [d]. *)
Definition emits (pre toks d : bytes) : Prop :=
  forall zn rest, zlen d <= zn -> decode pre zn (toks ++ rest) = decode (pre ++ d) (zn - zlen d) rest.

Lemma emits_nil pre : emits pre [] [].
Proof. intros zn rest _. cbn [app]. rewrite app_nil_r, zlen_nil. by replace (zn - 0) with zn by lia. Qed.

Lemma emits_app pre t1 d1 t2 d2 : emits pre t1 d1 -> emits (pre ++ d1) t2 d2 -> emits pre (t1 ++ t2) (d1 ++ d2).
Proof.
  intros H1 H2 zn rest. rewrite zlen_app. intros Hz. pose proof (zlen_nonneg d1). pose proof (zlen_nonneg d2).
  rewrite <- app_assoc, H1, H2, <- app_assoc by lia. f_equal. lia.
Qed.

Lemma tag_byte m t : 0 <= m < 64 -> 0 <= t < 4 ->
  b2z (z2b (Z.lor (Z.shiftl m 2) t)) = 4 * m + t /\
  Z.land (4 * m + t) 3 = t /\ Z.shiftr (4 * m + t) 2 = m.
Proof.
  intros Hm Ht. rewrite Z.lor_comm, (lor_disjoint t m 2) by lia. change (2 ^ 2) with 4.
  split; [rewrite b2z_z2b_small; lia|]. split.
  - change 3 with (Z.ones 2). rewrite land_ones_mod by lia. change (2 ^ 2) with 4.
    symmetry. apply (Z.mod_unique _ _ m); lia.
  - rewrite Z.shiftr_div_pow2 by lia. change (2 ^ 2) with 4. symmetry. apply (Z.div_unique _ _ m t); lia.
Qed.

(** *** Literals *)

Lemma decode_literal pre zn b xp x rest :
  literal_length (b2z b) xp = Some (zlen x - 1, x ++ rest) -> Z.land (b2z b) 3 = 0 ->
  1 <= zlen x < 2 ^ 31 - 1 -> zlen x <= zn ->
  decode_token pre zn (b :: xp) = Some (pre ++ x, zn - zlen x, rest).
Proof.
  intros E Ht Hx Hz. cbn [decode_token]. rewrite Ht, E. cbn [Z.eqb TAG_LITERAL mbind option_bind].
  change 2147483647 with (2 ^ 31 - 1).
  rewrite (proj2 (Z.leb_gt _ _)) by lia. replace (zlen x - 1 + 1) with (zlen x) by lia.
  rewrite (proj2 (Z.ltb_ge _ _)) by lia. pose proof (zlen_nonneg rest).
  rewrite (proj2 (Z.ltb_ge _ _)) by zlia. cbn [orb]. by rewrite ztake_app, zdrop_app.
Qed.

Lemma le16_bytes n : 0 <= n < 65536 ->
  Z.lor (b2z (z2b n)) (Z.shiftl (b2z (z2b (Z.shiftr n 8))) 8) = n.
Proof.
  intros Hn. rewrite !b2z_z2b, Z.shiftr_div_pow2 by lia. change (2 ^ 8) with 256.
  rewrite (Z.mod_small (n / 256)) by (split; [apply Z.div_pos|apply Z.div_lt_upper_bound]; lia).
  rewrite lor_disjoint by (try lia; apply Z.mod_pos_bound; lia). pose proof (Z.div_mod n 256). lia.
Qed.

Lemma emit_literal_app zp x : emit_literal zp x = zp ++ emit_literal [] x.
Proof. done. Qed.

Lemma emit_literal_emits pre x : 1 <= zlen x <= 65536 -> emits pre (emit_literal [] x) x.
Proof.
  intros Hx zn rest Hz. unfold emit_literal. rewrite u64_small by lia. cbn [app].
  destruct (Z.ltb_spec (zlen x - 1) 60); [|change (Z.shiftl 1 8) with 256; destruct (Z.ltb_spec (zlen x - 1) 256)];
    cbn [app]; apply decode_step, decode_literal; try lia.
  - change TAG_LITERAL with 0. destruct (tag_byte (zlen x - 1) 0) as (-> & _ & Hs); [lia..|]. unfold literal_length.
    by rewrite Hs, (proj2 (Z.ltb_lt _ _)).
  - change TAG_LITERAL with 0. destruct (tag_byte (zlen x - 1) 0) as (-> & Hl & _); [lia..|done].
  - change (b2z (z2b (Z.lor (Z.shiftl 60 2) TAG_LITERAL))) with 240. unfold literal_length.
    change (Z.shiftr 240 2) with 60. cbn [Z.ltb Z.eqb Z.compare Pos.compare Pos.compare_cont Pos.eqb].
    by rewrite b2z_z2b_small by lia.
  - done.
  - change (b2z (z2b (Z.lor (Z.shiftl 61 2) TAG_LITERAL))) with 244. unfold literal_length.
    change (Z.shiftr 244 2) with 61. cbn [Z.ltb Z.eqb Z.compare Pos.compare Pos.compare_cont Pos.eqb].
    by rewrite le16_bytes by lia.
  - done.
Qed.

(** The header of a literal: one byte, or two, or three for longer ones. *)
Lemma zlen_emit_literal lit : 1 <= zlen lit <= 65536 ->
  zlen (emit_literal [] lit) <= zlen lit + 3 /\
  (zlen lit <= 256 -> zlen (emit_literal [] lit) <= zlen lit + 2) /\
  (zlen lit <= 60 -> zlen (emit_literal [] lit) = zlen lit + 1).
Proof.
  intros Hl. unfold emit_literal. rewrite u64_small by lia. cbn [app].
  destruct (Z.ltb_spec (zlen lit - 1) 60); [|change (Z.shiftl 1 8) with 256; destruct (Z.ltb_spec (zlen lit - 1) 256)];
    rewrite zlen_app; match goal with |- context [zlen [z2b ?a]] => change (zlen [z2b a]) with 1
    | |- context [zlen [z2b ?a; z2b ?b]] => change (zlen [z2b a; z2b b]) with 2
    | |- context [zlen [z2b ?a; z2b ?b; z2b ?c]] => change (zlen [z2b a; z2b b; z2b c]) with 3 end; lia.
Qed.

(** *** Copies *)

Lemma copy_bytes_memcpy n out off :
  (1 <= off <= length out)%nat -> (n <= off)%nat ->
  copy_bytes n out (Z.of_nat off) = out ++ take n (drop (length out - off) out).
Proof.
  revert out. induction n as [|n IH]; intros out Ho Hn; cbn [copy_bytes]; [by rewrite app_nil_r|].
  replace (Z.to_nat (zlen out - Z.of_nat off)) with (length out - off)%nat by (unfold zlen; lia).
  rewrite IH by (rewrite ?length_app; lia). rewrite length_app. cbn [length].
  rewrite <- app_assoc. f_equal.
  destruct (lookup_lt_is_Some_2 out (length out - off)) as [c Hc]; [lia|].
  rewrite (drop_S _ _ _ Hc). cbn [app take]. f_equal; [by rewrite nth_lookup, Hc|].
  replace (length out + 1 - off)%nat with (S (length out - off)) by lia.
  rewrite drop_app_le by lia. by rewrite take_app_le by (rewrite length_drop; lia).
Qed.

Lemma copy_from_bytes out off len :
  1 <= off <= zlen out -> 0 <= len -> copy_from out off len = copy_bytes (Z.to_nat len) out off.
Proof.
  intros Ho Hl. unfold copy_from. destruct (Z.leb_spec len off); [|done].
  replace off with (Z.of_nat (Z.to_nat off)) by lia. rewrite copy_bytes_memcpy by (unfold zlen in *; lia).
  unfold ztake, zdrop, zlen. do 3 f_equal. lia.
Qed.

(** The input [s] repeats itself [off] bytes back, for [len] bytes at [p]. *)
Definition repeats (s : bytes) (p off len : Z) : Prop :=
  1 <= off <= p /\ p + len <= zlen s /\ forall i, 0 <= i < len -> at_ s (p - off + i) = at_ s (p + i).

Lemma copy_bytes_repeats n s p off :
  repeats s p off (Z.of_nat n) -> copy_bytes n (ztake p s) off = ztake (p + Z.of_nat n) s.
Proof.
  revert p. induction n as [|n IH]; intros p (Ho & Hp & H); cbn [copy_bytes]; [f_equal; lia|].
  assert (ztake p s ++ [nth (Z.to_nat (zlen (ztake p s) - off)) (ztake p s) Byte.x00] = ztake (p + 1) s) as ->.
  { rewrite zlen_take by lia. specialize (H 0 ltac:(lia)). rewrite !Z.add_0_r in H. apply b2z_inj in H.
    destruct (lookup_lt_is_Some_2 s (Z.to_nat p)) as [c Hc]; [unfold zlen in *; lia|].
    rewrite (nth_lookup_Some _ _ _ _ Hc) in H. unfold ztake. replace (Z.to_nat (p + 1)) with (S (Z.to_nat p)) by lia.
    rewrite (take_S_r _ _ _ Hc), <- H. do 2 f_equal. rewrite !nth_lookup, lookup_take_lt by lia. done. }
  rewrite IH; [f_equal; lia|]. split; [lia|]. split; [lia|]. intros i Hi.
  specialize (H (i + 1) ltac:(lia)). by replace (p + 1 - off + i) with (p - off + (i + 1)) by lia;
    replace (p + 1 + i) with (p + (i + 1)) by lia.
Qed.

Lemma copy_from_repeats s p off len :
  repeats s p off len -> 0 <= len -> copy_from (ztake p s) off len = ztake (p + len) s.
Proof.
  intros H Hl. pose proof H as (Ho & Hp & _). rewrite copy_from_bytes by (rewrite ?zlen_take; lia).
  rewrite copy_bytes_repeats; [f_equal; lia|]. by rewrite Z2Nat.id.
Qed.

Lemma repeats_split s p off a b :
  repeats s p off (a + b) -> 0 <= a -> 0 <= b -> repeats s p off a /\ repeats s (p + a) off b.
Proof.
  intros (Ho & Hp & H) Ha Hb. split.
  - split; [done|]. split; [lia|]. intros i Hi. apply H. lia.
  - split; [lia|]. split; [lia|]. intros i Hi. specialize (H (a + i) ltac:(lia)).
    by replace (p + a - off + i) with (p - off + (a + i)) by lia; replace (p + a + i) with (p + (a + i)) by lia.
Qed.

(** The bytes [p .. p + len) of the input. *)
Definition piece (s : bytes) (p len : Z) : bytes := ztake len (zdrop p s).

Lemma take_piece s p len : 0 <= p -> 0 <= len -> ztake p s ++ piece s p len = ztake (p + len) s.
Proof.
  intros Hp Hl. unfold piece, ztake, zdrop. rewrite Z2Nat.inj_add by lia. by rewrite take_take_drop.
Qed.

Lemma zlen_piece s p len : 0 <= p -> 0 <= len -> p + len <= zlen s -> zlen (piece s p len) = len.
Proof. intros Hp Hl Hs. unfold piece. apply zlen_take. rewrite zlen_drop by lia. lia. Qed.

Lemma piece_app s p a b : 0 <= p -> 0 <= a -> 0 <= b -> p + a <= zlen s -> piece s p (a + b) = piece s p a ++ piece s (p + a) b.
Proof.
  intros Hp Ha Hb Hs. apply (app_inv_head (ztake p s)). rewrite take_piece, app_assoc, !take_piece by lia. f_equal. lia.
Qed.

Lemma decode_copy pre zn b xp off len rest :
  copy_fields (b2z b) xp = Some (off, len, rest) -> Z.land (b2z b) 3 <> 0 ->
  1 <= off <= zlen pre -> off < 2 ^ 31 -> len <= zn ->
  decode_token pre zn (b :: xp) = Some (copy_from pre off len, zn - len, rest).
Proof.
  intros E Ht Ho Ho' Hz. cbn [decode_token]. rewrite (proj2 (Z.eqb_neq _ TAG_LITERAL)), E by done.
  cbn [mbind option_bind]. rewrite (proj2 (Z.eqb_neq _ 0)) by lia. change 2147483648 with (2 ^ 31).
  rewrite (proj2 (Z.leb_gt _ _)) by lia. cbn [orb].
  rewrite (proj2 (Z.ltb_ge _ _)) by lia. by rewrite (proj2 (Z.ltb_ge _ _)) by lia.
Qed.

Lemma emits_copy s p off len toks b xp :
  repeats s p off len -> 0 <= len -> off < 2 ^ 31 -> toks = b :: xp ->
  (forall rest, copy_fields (b2z b) (xp ++ rest) = Some (off, len, rest)) -> Z.land (b2z b) 3 <> 0 ->
  emits (ztake p s) toks (piece s p len).
Proof.
  intros H Hl Ho -> E Ht zn rest. pose proof H as (Hop & Hp & _). rewrite zlen_piece by lia. intros Hz.
  rewrite take_piece, <- (copy_from_repeats s p off len) by (done || lia).
  apply decode_step, decode_copy; [apply E|done|rewrite zlen_take; lia|done|done].
Qed.

Lemma copy2_emits s p off len :
  repeats s p off len -> 1 <= len <= 64 -> off < 65536 -> emits (ztake p s) (copy2_bytes off len) (piece s p len).
Proof.
  intros H Hl Ho. pose proof H as (Hop & Hp & _).
  destruct (tag_byte (len - 1) 2) as (E & Et & Es); [lia..|].
  eapply (emits_copy s p off len); [done|lia|lia|done| |].
  - intros rest. change TAG_COPY2 with 2. rewrite E. unfold copy_fields. rewrite Et, Es. cbn [app Z.eqb TAG_COPY1 TAG_COPY2].
    change (2 =? 1) with false. change (2 =? 2) with true. cbv iota. rewrite le16_bytes by lia. do 3 f_equal. lia.
  - change TAG_COPY2 with 2. rewrite E, Et. lia.
Qed.

Definition copy1_bytes (off len : Z) : bytes :=
  [z2b (Z.lor (Z.lor (Z.shiftl (Z.shiftr off 8) 5) (Z.shiftl (len - 4) 2)) TAG_COPY1); z2b off].

Lemma copy1_tag a m : 0 <= a < 8 -> 0 <= m < 8 ->
  b2z (z2b (Z.lor (Z.lor (Z.shiftl a 5) (Z.shiftl m 2)) TAG_COPY1)) = 32 * a + 4 * m + 1 /\
  Z.land (32 * a + 4 * m + 1) 3 = 1 /\ Z.land (32 * a + 4 * m + 1) 224 = 32 * a /\
  Z.land (Z.shiftr (32 * a + 4 * m + 1) 2) 7 = m.
Proof.
  intros Ha Hm.
  assert (a = 0 \/ a = 1 \/ a = 2 \/ a = 3 \/ a = 4 \/ a = 5 \/ a = 6 \/ a = 7) as Ca by lia.
  assert (m = 0 \/ m = 1 \/ m = 2 \/ m = 3 \/ m = 4 \/ m = 5 \/ m = 6 \/ m = 7) as Cm by lia.
  destruct Ca as [->|[->|[->|[->|[->|[->|[->| ->]]]]]]], Cm as [->|[->|[->|[->|[->|[->|[->| ->]]]]]]];
    repeat split; reflexivity.
Qed.

Lemma copy1_emits s p off len :
  repeats s p off len -> 4 <= len <= 11 -> off < 2048 -> emits (ztake p s) (copy1_bytes off len) (piece s p len).
Proof.
  intros H Hl Ho. pose proof H as (Hop & Hp & _).
  assert (0 <= Z.shiftr off 8 < 8) as Ha.
  { rewrite Z.shiftr_div_pow2 by lia. change (2 ^ 8) with 256. split; [apply Z.div_pos|apply Z.div_lt_upper_bound]; lia. }
  destruct (copy1_tag (Z.shiftr off 8) (len - 4)) as (E & Et & Eo & El); [done|lia|].
  eapply (emits_copy s p off len); [done|lia|lia|done| |].
  - intros rest. rewrite E. unfold copy_fields. rewrite Et, Eo, El. cbn [app].
    change (1 =? TAG_COPY1) with true. cbv iota. do 3 f_equal; [|lia].
    rewrite Z.lor_comm, b2z_z2b.
    replace (Z.shiftl (32 * Z.shiftr off 8) 3) with (Z.shiftl (Z.shiftr off 8) 8)
      by (rewrite !Z.shiftl_mul_pow2 by lia; lia).
    rewrite lor_disjoint by (try lia; apply Z.mod_pos_bound; lia). rewrite Z.shiftr_div_pow2 by lia.
    change (2 ^ 8) with 256. pose proof (Z.div_mod off 256). lia.
  - rewrite E, Et. lia.
Qed.

Lemma emit_copy_loop_ok fuel zp s p off len :
  repeats s p off len -> 4 <= len -> off < 65536 -> len / 64 <= Z.of_nat fuel ->
  exists toks len', emit_copy_loop fuel zp off len = Some (zp ++ toks, len') /\ 4 <= len' < 68 /\ len' <= len /\
    emits (ztake p s) toks (piece s p (len - len')) /\ zlen toks <= len - len'.
Proof.
  revert zp p len. induction fuel as [|fuel IH]; intros zp p len H Hl Ho Hf; cbn [emit_copy_loop];
    destruct (Z.leb_spec 68 len) as [H68|H68].
  - assert (1 <= len / 64) by (apply Z.div_le_lower_bound; lia). lia.
  - exists [], len. rewrite app_nil_r, Z.sub_diag. split; [done|]. split; [lia|]. split; [lia|].
    split; [apply emits_nil|by vm_compute].
  - replace len with (64 + (len - 64)) in H by lia. apply repeats_split in H as [H1 H2]; [|lia..].
    assert ((len - 64) / 64 = len / 64 - 1) as Hd by (apply (Z.div_add len (-1) 64); lia).
    destruct (IH (zp ++ copy2_bytes off 64) (p + 64) (len - 64) H2) as (toks & len' & E & Hl' & Hle & Hem & Hz); [lia..|].
    exists (copy2_bytes off 64 ++ toks), len'. rewrite E, <- app_assoc. split; [done|]. split; [done|]. split; [lia|].
    pose proof H1 as (Hop & Hp & _). pose proof H2 as (_ & Hp2 & _). split.
    + replace (len - len') with (64 + (len - 64 - len')) by lia. rewrite piece_app by lia.
      apply emits_app; [by apply copy2_emits|]. by rewrite take_piece by lia.
    + rewrite zlen_app. change (zlen (copy2_bytes off 64)) with 3. lia.
  - exists [], len. rewrite app_nil_r, Z.sub_diag. split; [done|]. split; [lia|]. split; [lia|].
    split; [apply emits_nil|by vm_compute].
Qed.

(** The tokens of a copy decode to the repeated bytes and are shorter. *)
Lemma emit_copy_ok zp s p off len :
  repeats s p off len -> 4 <= len -> off < 65536 ->
  exists toks, emit_copy zp off len = Some (zp ++ toks) /\ emits (ztake p s) toks (piece s p len) /\ zlen toks <= len - 1.
Proof.
  intros H Hl Ho. unfold emit_copy. pose proof H as (Hop & Hp & _).
  destruct (emit_copy_loop_ok (Z.to_nat (len / 64)) zp s p off len H Hl Ho) as (t1 & len1 & -> & Hl1 & Hle & Hem & Hz);
    [rewrite Z2Nat.id; [lia|apply Z.div_pos; lia]|]. cbn [mbind option_bind].
  replace len with ((len - len1) + len1) in H by lia. apply repeats_split in H as [H1 H2]; [|lia..].
  set (p1 := p + (len - len1)) in *.
  assert (exists t2 len2, (if 64 <? len1 then (((zp ++ t1) ++ copy2_bytes off 60), len1 - 60) else (zp ++ t1, len1))
    = (zp ++ t1 ++ t2, len2) /\ 4 <= len2 <= 64 /\ len2 <= len1 /\
    emits (ztake p1 s) t2 (piece s p1 (len1 - len2)) /\ zlen t2 <= len1 - len2) as (t2 & len2 & -> & Hl2 & Hle2 & Hem2 & Hz2).
  { destruct (Z.ltb_spec 64 len1).
    - exists (copy2_bytes off 60), (len1 - 60). rewrite <- app_assoc. split; [done|]. split; [lia|]. split; [lia|].
      replace (len1 - (len1 - 60)) with 60 by lia. split; [|done]. apply copy2_emits; [|lia|done].
      replace len1 with (60 + (len1 - 60)) in H2 by lia. by apply repeats_split in H2 as [? _]; [|lia..].
    - exists [], len1. rewrite app_nil_r, Z.sub_diag. split; [done|]. split; [lia|]. split; [lia|]. split; [apply emits_nil|by vm_compute]. }
  replace len1 with ((len1 - len2) + len2) in H2 by lia. apply repeats_split in H2 as [_ H3]; [|lia..].
  assert (forall t3, emits (ztake (p1 + (len1 - len2)) s) t3 (piece s (p1 + (len1 - len2)) len2) -> zlen t3 <= len2 - 1 ->
    exists toks, Some ((zp ++ t1 ++ t2) ++ t3) = Some (zp ++ toks) /\ emits (ztake p s) toks (piece s p len) /\ zlen toks <= len - 1)
    as Hall.
  { intros t3 Hem3 Hz3. exists (t1 ++ t2 ++ t3). split; [by rewrite !app_assoc|]. split.
    - replace len with ((len - len1) + ((len1 - len2) + len2)) by lia.
      pose proof H1 as (_ & Hp1 & _). pose proof H3 as (_ & Hp3 & _). unfold p1 in *.
      rewrite piece_app, (piece_app _ (p + _)) by lia. apply emits_app; [done|]. rewrite take_piece by lia.
      apply emits_app; [done|]. by rewrite take_piece by lia.
    - rewrite !zlen_app. lia. }
  destruct ((12 <=? len2) || (2048 <=? off)) eqn:Ec.
  - apply Hall; [apply copy2_emits; [done|lia|done]|]. change (zlen (copy2_bytes off len2)) with 3. lia.
  - apply orb_false_iff in Ec as [?%Z.leb_gt ?%Z.leb_gt].
    apply (Hall (copy1_bytes off len2)); [apply copy1_emits; [done|lia|lia]|]. change (zlen (copy1_bytes off len2)) with 2. lia.
Qed.

(** ** Words and bytes of the input *)

Lemma at_piece s p len i : 0 <= p -> 0 <= i < len -> at_ (piece s p len) i = at_ s (p + i).
Proof.
  intros Hp Hi. unfold at_, piece, ztake, zdrop. rewrite !nth_lookup, lookup_take_lt, lookup_drop by lia.
  do 3 f_equal. lia.
Qed.

Lemma drop_piece s p len : 0 <= p -> 0 <= len -> zdrop p s = piece s p len ++ zdrop (p + len) s.
Proof.
  intros Hp Hl. unfold piece. rewrite <- (ztake_zdrop len (zdrop p s)) at 1. f_equal. rewrite zdrop_zdrop by lia. f_equal.
Qed.

Lemma read32_piece s p v : read32 s p = Some v -> 0 <= p /\ p + 4 <= zlen s /\ v = le_value (piece s p 4).
Proof.
  unfold read32. destruct (Z.leb_spec 0 p); [|done]. destruct (Z.leb_spec (p + 4) (zlen s)); [|done].
  intros [= <-]. split; [done|]. split; [done|]. rewrite (drop_piece s p 4) by lia.
  apply fixed32_decode_app. by apply zlen_piece.
Qed.

Lemma read64_piece s p : 0 <= p -> p + 8 <= zlen s -> read64 s p = Some (le_value (piece s p 8)).
Proof.
  intros Hp Hs. unfold read64. rewrite (proj2 (Z.leb_le _ _)), (proj2 (Z.leb_le _ _)) by lia. cbn [andb]. f_equal.
  rewrite (drop_piece s p 8) by lia. apply fixed64_decode_app. by apply zlen_piece.
Qed.

Lemma le_value_app a b : le_value (a ++ b) = le_value a + 256 ^ zlen a * le_value b.
Proof.
  induction a as [|x a IH]; [cbn [app le_value]; change (zlen (@nil byte)) with 0; lia|].
  cbn [app le_value]. rewrite IH, zlen_cons, Z.pow_add_r by (try lia; apply zlen_nonneg). lia.
Qed.

(** Four bytes that agree as a word agree one by one. *)
Definition same4 (s : bytes) (p q : Z) : Prop := forall i, 0 <= i < 4 -> at_ s (q + i) = at_ s (p + i).

Lemma same4_piece s p q : 0 <= p -> 0 <= q -> piece s p 4 = piece s q 4 -> same4 s p q.
Proof. intros Hp Hq E i Hi. by rewrite <- (at_piece s q 4), <- (at_piece s p 4), E by lia. Qed.

Lemma read32_same s p q v : read32 s p = Some v -> read32 s q = Some v -> same4 s p q.
Proof.
  intros (Hp & Hps & ->)%read32_piece (Hq & Hqs & E)%read32_piece. apply same4_piece; [done..|].
  apply le_value_inj; [|done]. apply Nat2Z.inj. change (zlen (piece s p 4) = zlen (piece s q 4)). by rewrite !zlen_piece.
Qed.

Lemma read64_same s p q w v :
  1 <= p -> p + 7 <= zlen s -> read64 s (p - 1) = Some w -> read32 s q = Some v -> Z.shiftr w 8 = v -> same4 s p q.
Proof.
  intros Hp Hs. rewrite read64_piece by lia. intros [= <-] (Hq & Hqs & ->)%read32_piece. intros E.
  apply same4_piece; [lia..|]. apply le_value_inj.
  { apply Nat2Z.inj. change (zlen (piece s p 4) = zlen (piece s q 4)). by rewrite !zlen_piece by lia. }
  change 8 with (1 + (4 + 3)) in E at 1. rewrite !piece_app in E by lia. replace (p - 1 + 1) with p in E by lia.
  rewrite !le_value_app, !zlen_piece in E by lia.
  pose proof (le_value_range (piece s (p - 1) 1)) as H1. pose proof (le_value_range (piece s p 4)) as H4.
  pose proof (le_value_range (piece s (p + 4) 3)) as H3. pose proof (le_value_range (piece s q 4)) as Hv.
  rewrite !zlen_piece in * by lia. rewrite Z.shiftr_div_pow2 in E by lia. change (2 ^ 8) with 256 in *.
  change (256 ^ 1) with 256 in *.
  rewrite Z.mul_comm, Z.div_add, (Z.div_small (le_value (piece s (p - 1) 1))), Z.add_0_l in E by lia.
  change (256 ^ 4) with 4294967296 in *. lia.
Qed.

(** ** The encoder *)

Section EncodeBlock.
Context (x : bytes) (size shift : Z) (Hn : 17 <= zlen x <= 65536).
Context (Hshift : 0 <= shift <= 32) (Hsize : size = 2 ^ (32 - shift)).
Local Abbreviation limit := (zlen x - 15).

(** Every entry is a position before [b]. *)
Definition table_ok (table : list Z) (b : Z) : Prop := zlen table = size /\ Forall (fun c => 0 <= c < b) table.

Lemma hash32_range w : 0 <= hash32 w shift < size.
Proof.
  unfold hash32. pose proof (u32_range (w * 0x1e35a7bd)) as Hu. rewrite Z.shiftr_div_pow2 by lia.
  assert (0 < 2 ^ shift) by (apply Z.pow_pos_nonneg; lia).
  assert (2 ^ shift * size = 2 ^ 32) as E by (rewrite Hsize, <- Z.pow_add_r by lia; f_equal; lia).
  split; [apply Z.div_pos; lia|]. apply Z.div_lt_upper_bound; lia.
Qed.

Lemma table_get_ok table b i : table_ok table b -> 0 <= i < size -> exists c, table_get table i = Some c /\ 0 <= c < b.
Proof.
  intros [Hl Hf] Hi. unfold table_get. rewrite (proj2 (Z.leb_le _ _)) by lia.
  destruct (lookup_lt_is_Some_2 table (Z.to_nat i)) as [c Hc]; [unfold zlen in Hl; lia|]. exists c. split; [done|].
  rewrite List.Forall_forall in Hf. apply Hf, list_elem_of_In. by eapply list_elem_of_lookup_2.
Qed.

Lemma table_set_ok table b b' i pos :
  table_ok table b -> b <= b' -> 0 <= pos < b' -> b' <= 65536 -> table_ok (table_set table i pos) b'.
Proof.
  intros [Hl Hf] Hb Hp Hb'. unfold table_set. split; [unfold zlen in *; by rewrite length_insert|].
  apply list.Forall_insert; [|rewrite u16_small; lia]. eapply List.Forall_impl; [|exact Hf]. intros c. cbn. lia.
Qed.

Lemma find_match_ok fuel table next skip npos :
  table_ok table npos -> 1 <= npos -> 0 <= next < size -> 32 <= skip -> limit - npos < Z.of_nat fuel -> (0 < fuel)%nat ->
  find_match x limit shift fuel table next skip npos = Some None \/
  exists pos cand table', find_match x limit shift fuel table next skip npos = Some (Some (pos, cand, table')) /\
    npos <= pos < limit /\ 0 <= cand < pos /\ table_ok table' (pos + 1) /\ same4 x pos cand.
Proof.
  revert table next skip npos. induction fuel as [|fuel IH]; intros table next skip npos Ht Hp Hx Hs Hf Hf0; [lia|].
  cbn [find_match]. set (d := Z.shiftr skip 5).
  assert (1 <= d) as Hd by (unfold d; rewrite Z.shiftr_div_pow2 by lia; apply Z.div_le_lower_bound; lia).
  destruct (Z.ltb_spec limit (npos + d)) as [|Hle]; [by left|].
  destruct (table_get_ok table npos next Ht Hx) as (cand & -> & Hc). cbn [mbind option_bind].
  assert (table_ok (table_set table next npos) (npos + 1)) as Ht' by (apply (table_set_ok _ npos); [done|lia..]).
  rewrite !read32_inside by lia. cbn [mbind option_bind].
  destruct (Z.eqb_spec (fixed32_decode (zdrop npos x)) (fixed32_decode (zdrop cand x))) as [E|E].
  - right. exists npos, cand, (table_set table next npos). split; [done|]. split; [lia|]. split; [lia|]. split; [done|].
    apply (read32_same x npos cand (fixed32_decode (zdrop npos x))); [by rewrite read32_inside by lia|].
    rewrite E. by rewrite read32_inside by lia.
  - destruct (IH (table_set table next npos) (hash32 (fixed32_decode (zdrop (npos + d) x)) shift) (skip + d) (npos + d))
      as [H|(pos & cand' & table' & E' & Hpos & Hc' & Ht'' & Hsame)].
    + split; [apply Ht'|]. eapply List.Forall_impl; [|apply Ht']. intros c. cbn. lia.
    + lia.
    + apply hash32_range.
    + lia.
    + lia.
    + lia.
    + by left.
    + right. exists pos, cand', table'. split; [done|]. split; [lia|done].
Qed.

Lemma extend_match_ok fuel chk pos :
  zlen x - pos <= Z.of_nat fuel -> pos <= zlen x ->
  exists pos', extend_match x fuel chk pos = Some pos' /\ pos <= pos' <= zlen x /\
    forall i, 0 <= i < pos' - pos -> at_ x (chk + i) = at_ x (pos + i).
Proof.
  revert chk pos. induction fuel as [|fuel IH]; intros chk pos Hf Hp; cbn [extend_match].
  - rewrite (proj2 (Z.ltb_ge _ _)) by lia. exists pos. split; [done|]. split; [lia|]. lia.
  - destruct (Z.ltb_spec pos (zlen x)); cbn [andb]; [|exists pos; split; [done|]; split; [lia|lia]].
    destruct (Z.eqb_spec (at_ x chk) (at_ x pos)) as [E|]; [|exists pos; split; [done|]; split; [lia|lia]].
    destruct (IH (chk + 1) (pos + 1)) as (pos' & E' & Hpos & Hs); [lia|lia|]. exists pos'. split; [done|]. split; [lia|].
    intros i Hi. destruct (Z.eq_dec i 0) as [->|]; [by rewrite !Z.add_0_r|]. specialize (Hs (i - 1) ltac:(lia)).
    by replace (chk + i) with (chk + 1 + (i - 1)) by lia; replace (pos + i) with (pos + 1 + (i - 1)) by lia.
Qed.

(** A copy from the block, behind the output [pre] of earlier blocks. *)
Lemma block_copy pre zp p off len :
  repeats x p off len -> 4 <= len ->
  exists toks, emit_copy zp off len = Some (zp ++ toks) /\ emits (pre ++ ztake p x) toks (piece x p len) /\ zlen toks <= len - 1.
Proof.
  intros (Ho & Hp & H) Hl. pose proof (zlen_nonneg pre) as Hpre.
  assert (repeats (pre ++ x) (zlen pre + p) off len) as Hr.
  { split; [lia|]. split; [zlia|]. intros i Hi. specialize (H i Hi).
    assert (forall j, 0 <= j -> at_ (pre ++ x) (zlen pre + j) = at_ x j) as Hat.
    { intros j Hj. unfold at_. rewrite app_nth2; [do 2 f_equal; unfold zlen in *; lia|unfold zlen in *; lia]. }
    replace (zlen pre + p - off + i) with (zlen pre + (p - off + i)) by lia. rewrite <- Z.add_assoc, !Hat by lia. done. }
  destruct (emit_copy_ok zp (pre ++ x) (zlen pre + p) off len Hr Hl) as (toks & E & Hem & Hz); [lia|].
  exists toks. split; [done|]. split; [|done].
  assert (ztake (zlen pre + p) (pre ++ x) = pre ++ ztake p x) as E1.
  { unfold ztake, zlen. rewrite Z2Nat.inj_add, Nat2Z.id by lia. by rewrite take_app_add. }
  assert (piece (pre ++ x) (zlen pre + p) len = piece x p len) as E2.
  { unfold piece, zdrop, zlen. rewrite Z2Nat.inj_add, Nat2Z.id by lia. by rewrite drop_app_add. }
  by rewrite E1, E2 in Hem.
Qed.

Lemma copy_loop_ok fuel pre zp table pos cand :
  table_ok table (pos + 1) -> 1 <= pos < limit -> 0 <= cand < pos -> same4 x pos cand -> limit - pos < Z.of_nat fuel ->
  exists toks emit r, copy_loop x limit shift fuel zp table pos cand = Some (zp ++ toks, emit, r) /\
    pos + 4 <= emit <= zlen x /\ emits (pre ++ ztake pos x) toks (piece x pos (emit - pos)) /\ zlen toks <= emit - pos - 1 /\
    match r with
    | None => True
    | Some (table', pos', next) => pos' = emit + 1 /\ table_ok table' pos' /\ 0 <= next < size
    end.
Proof.
  revert zp table pos cand. induction fuel as [|fuel IH]; intros zp table pos cand Ht Hp Hc Hs Hf; [lia|].
  cbn [copy_loop]. destruct (extend_match_ok (length x) (cand + 4) (pos + 4)) as (emit & -> & He & Hm);
    [unfold zlen in *; lia|lia|]. cbn [mbind option_bind].
  destruct (block_copy pre zp pos (pos - cand) (emit - pos)) as (toks & -> & Hem & Hz); [|lia|].
  { split; [lia|]. split; [lia|]. intros i Hi. replace (pos - (pos - cand) + i) with (cand + i) by lia.
    destruct (Z_lt_le_dec i 4) as [Hi4|Hi4]; [apply Hs; lia|]. specialize (Hm (i - 4) ltac:(lia)).
    by replace (cand + i) with (cand + 4 + (i - 4)) by lia; replace (pos + i) with (pos + 4 + (i - 4)) by lia. }
  cbn [mbind option_bind].
  destruct (Z.leb_spec limit emit) as [Hl|Hl].
  { exists toks, emit, None. split; [done|]. split; [lia|]. split; [done|]. split; [done|done]. }
  set (w := le_value (piece x (emit - 1) 8)).
  assert (read64 x (emit - 1) = Some w) as Hw by by (apply read64_piece; lia). rewrite Hw. cbn [mbind option_bind].
  set (t1 := table_set table (hash32 (u32 w) shift) (emit - 1)).
  assert (table_ok t1 emit) as Ht1 by (apply (table_set_ok _ (pos + 1)); [done|lia..]).
  destruct (table_get_ok t1 emit (hash32 (u32 (Z.shiftr w 8)) shift) Ht1 (hash32_range _)) as (c & -> & Hcr).
  cbn [mbind option_bind]. set (t2 := table_set t1 (hash32 (u32 (Z.shiftr w 8)) shift) emit).
  assert (table_ok t2 (emit + 1)) as Ht2 by (apply (table_set_ok _ emit); [done|lia..]).
  rewrite read32_inside by lia. cbn [mbind option_bind].
  destruct (Z.eqb_spec (Z.shiftr w 8) (fixed32_decode (zdrop c x))) as [E|E]; cbn [negb].
  - destruct (IH (zp ++ toks) t2 emit c Ht2) as (toks' & emit' & r & E' & He' & Hem' & Hz' & Hr).
    + lia.
    + lia.
    + eapply (read64_same x emit c w); [lia|lia|done| |exact E]. by rewrite read32_inside by lia.
    + lia.
    + exists (toks ++ toks'), emit', r. rewrite app_assoc. split; [done|]. split; [lia|]. split; [|split; [zlia|done]].
      replace (emit' - pos) with ((emit - pos) + (emit' - emit)) by lia. rewrite piece_app by lia.
      replace (pos + (emit - pos)) with emit by lia.
      apply emits_app; [done|]. rewrite <- app_assoc, take_piece by lia. by replace (pos + (emit - pos)) with emit by lia.
  - exists toks, emit, (Some (t2, emit + 1, hash32 (u32 (Z.shiftr w 16)) shift)). split; [done|]. split; [lia|]. split; [done|].
    split; [done|]. split; [done|]. split; [done|apply hash32_range].
Qed.
Lemma encode_loop_ok fuel pre zp table next emit pos :
  table_ok table pos -> 1 <= pos -> 0 <= emit < pos -> emit <= zlen x -> 0 <= next < size ->
  zlen x - pos < Z.of_nat fuel -> (0 < fuel)%nat ->
  exists toks emit', encode_loop x limit shift fuel zp table next emit pos = Some (zp ++ toks, emit') /\
    emit <= emit' <= zlen x /\ emits (pre ++ ztake emit x) toks (piece x emit (emit' - emit)) /\
    60 * zlen toks <= 61 * (emit' - emit).
Proof.
  revert zp table next emit pos. induction fuel as [|fuel IH]; intros zp table next emit pos Ht Hp He Hex Hx Hf Hf0; [lia|].
  cbn [encode_loop].
  destruct (find_match_ok (Datatypes.S (length x)) table next 32 pos Ht Hp Hx) as
    [->|(p & cand & table' & -> & Hpos & Hc & Ht' & Hs)]; [lia|unfold zlen in *; lia|lia| |]; cbn [mbind option_bind].
  { exists [], emit. rewrite app_nil_r, Z.sub_diag. split; [done|]. split; [lia|]. split; [apply emits_nil|by vm_compute]. }
  set (lit := ztake (p - emit) (zdrop emit x)). change (ztake (p - emit) (zdrop emit x)) with (piece x emit (p - emit)) in lit.
  assert (zlen lit = p - emit) as Hlit by (apply zlen_piece; lia).
  destruct (copy_loop_ok (Datatypes.S (length x)) pre (emit_literal zp lit) table' p cand Ht') as (toks & e & r & -> & He' & Hem & Hz & Hr);
    [lia|done|done|unfold zlen in *; lia|]. cbn [mbind option_bind].
  rewrite (emit_literal_app zp lit).
  assert (emits (pre ++ ztake emit x) (emit_literal [] lit ++ toks) (piece x emit (e - emit))) as Hem'.
  { replace (e - emit) with ((p - emit) + (e - p)) by lia. rewrite piece_app by lia.
    replace (emit + (p - emit)) with p by lia.
    apply emits_app; [apply (emit_literal_emits _ lit); lia|]. rewrite <- app_assoc, take_piece by lia.
    by replace (emit + (p - emit)) with p by lia. }
  assert (60 * zlen (emit_literal [] lit ++ toks) <= 61 * (e - emit)) as Hsz.
  { rewrite zlen_app. destruct (zlen_emit_literal lit) as (H3 & H2 & H1); [lia|].
    destruct (Z_le_gt_dec (zlen lit) 60); [specialize (H1 ltac:(done)); lia|].
    destruct (Z_le_gt_dec (zlen lit) 256); [specialize (H2 ltac:(done)); lia|lia]. }
  destruct r as [[[t' p'] next']|].
  - destruct Hr as (-> & Hr1 & Hr2).
    destruct (IH ((zp ++ emit_literal [] lit) ++ toks) t' next' e (e + 1) Hr1) as (toks' & e' & -> & He2 & Hem2 & Hz2); [lia..|].
    exists ((emit_literal [] lit ++ toks) ++ toks'), e'. rewrite !app_assoc. split; [done|]. split; [lia|]. split.
    + rewrite <- app_assoc. replace (e' - emit) with ((e - emit) + (e' - e)) by lia. rewrite piece_app by lia.
      rewrite app_assoc. replace (emit + (e - emit)) with e by lia.
      apply emits_app; [done|]. rewrite <- app_assoc, take_piece by lia. by replace (emit + (e - emit)) with e by lia.
    + rewrite zlen_app. lia.
  - exists (emit_literal [] lit ++ toks), e. rewrite app_assoc. split; [done|]. split; [lia|]. by split.
Qed.
End EncodeBlock.

Lemma table_size_ok xn : 17 <= xn ->
  exists size shift, table_size 4 xn (Z.shiftl 1 8) (32 - 8) = Some (size, shift) /\
    0 <= shift <= 32 /\ size = 2 ^ (32 - shift) /\ 256 <= size <= MAX_TABLE_SIZE.
Proof.
  intros Hx. change (Z.shiftl 1 8) with 256. change (32 - 8) with 24. unfold table_size.
  destruct (Z.ltb_spec 256 xn); [|eexists _, _; split; [reflexivity|]; repeat split; done].
  change (256 * 2) with 512. destruct (Z.ltb_spec 512 xn); [|eexists _, _; split; [reflexivity|]; repeat split; done].
  change (512 * 2) with 1024. destruct (Z.ltb_spec 1024 xn); eexists _, _; (split; [reflexivity|]); repeat split; done.
Qed.

Lemma encode_block_ok pre zp x :
  17 <= zlen x <= 65536 ->
  exists toks, encode_block zp x = Some (zp ++ toks) /\ emits pre toks x /\ 60 * zlen toks <= 61 * zlen x + 180.
Proof.
  intros Hn. unfold encode_block. unfold INPUT_MARGIN. rewrite u64_small by lia.
  destruct (table_size_ok (zlen x)) as (size & shift & -> & Hs & Hsz & Hr); [lia|]. cbn [mbind option_bind].
  rewrite (proj2 (Z.ltb_ge _ _)) by lia. rewrite read32_inside by lia. cbn [mbind option_bind].
  change (16 - 1) with 15.
  destruct (encode_loop_ok x size shift Hn Hs Hsz (Datatypes.S (length x)) pre zp (replicate (Z.to_nat size) 0)
    (hash32 (fixed32_decode (zdrop 1 x)) shift) 0 1) as (toks & emit & -> & He & Hem & Hz).
  - split; [unfold zlen; rewrite length_replicate; lia|]. apply List.Forall_forall. intros c [-> _]%list_elem_of_In%elem_of_replicate. lia.
  - lia.
  - lia.
  - lia.
  - by apply hash32_range.
  - unfold zlen in *. lia.
  - lia.
  - cbn [mbind option_bind]. rewrite Z.sub_0_r in *. rewrite ztake_0, app_nil_r in Hem.
    destruct (Z.ltb_spec emit (zlen x)) as [Hlt|].
    + set (lit := zdrop emit x). assert (zlen lit = zlen x - emit) as Hlit by (apply zlen_drop; lia).
      exists (toks ++ emit_literal [] lit). rewrite emit_literal_app, app_assoc. split; [done|]. split.
      * assert (piece x 0 emit ++ lit = x) as E by (unfold piece, lit; by rewrite zdrop_0, ztake_zdrop).
        assert (emits pre (toks ++ emit_literal [] lit) (piece x 0 emit ++ lit)) as He'
          by (apply emits_app; [done|apply emit_literal_emits; lia]).
        by rewrite E in He'.
      * destruct (zlen_emit_literal lit) as (H & _); [lia|]. rewrite zlen_app. lia.
    + assert (emit = zlen x) as -> by lia. exists toks. split; [done|]. split; [|lia].
      unfold piece in Hem. by rewrite zdrop_0, ztake_all in Hem.
Qed.

Lemma snappy_encode_loop_ok fuel pre zp x :
  zlen x / MAX_BLOCK_SIZE <= Z.of_nat fuel ->
  exists toks, snappy_encode_loop fuel zp x = Some (zp ++ toks) /\ emits pre toks x /\
    60 * zlen toks <= 61 * zlen x + 180 * (zlen x / MAX_BLOCK_SIZE + 1).
Proof.
  revert pre zp x. induction fuel as [|fuel IH]; intros pre zp x Hf; cbn [snappy_encode_loop]; unfold MAX_BLOCK_SIZE in *;
    pose proof (zlen_nonneg x) as Hn; destruct (Z.leb_spec 65536 (zlen x)) as [Hb|Hb].
  1: { assert (1 <= zlen x / 65536) by (apply Z.div_le_lower_bound; lia). lia. }
  2: { assert ((zlen x - 65536) / 65536 = zlen x / 65536 - 1) as Hd by (apply (Z.div_add (zlen x) (-1) 65536); lia).
    assert (zlen (ztake 65536 x) = 65536) as Ht by (apply zlen_take; lia).
    assert (zlen (zdrop 65536 x) = zlen x - 65536) as Hdr by (apply zlen_drop; lia).
    destruct (encode_block_ok pre zp (ztake 65536 x)) as (t1 & -> & Hem1 & Hz1); [lia|]. cbn [mbind option_bind].
    destruct (IH (pre ++ ztake 65536 x) (zp ++ t1) (zdrop 65536 x)) as (t2 & -> & Hem2 & Hz2); [rewrite Hdr; lia|].
    rewrite Hdr, Hd in Hz2.
    exists (t1 ++ t2). rewrite app_assoc. split; [done|]. split; [|rewrite zlen_app; lia].
    assert (emits pre (t1 ++ t2) (ztake 65536 x ++ zdrop 65536 x)) as He by by apply emits_app. by rewrite ztake_zdrop in He. }
  all: rewrite Z.div_small by lia; destruct (Z.ltb_spec 0 (zlen x)).
  1,3: unfold MIN_BLOCK_SIZE, INPUT_MARGIN; destruct (Z.leb_spec (1 + 1 + (16 - 1)) (zlen x));
    [destruct (encode_block_ok pre zp x) as (toks & E & Hem & Hz); [lia|]; exists toks; split; [done|]; split; [done|lia]
    |exists (emit_literal [] x); split; [by rewrite emit_literal_app|]; split; [apply emit_literal_emits; lia|];
     unfold emit_literal; rewrite u64_small, (proj2 (Z.ltb_lt _ _)) by lia; cbn [app]; rewrite zlen_cons; lia].
  all: assert (x = []) as -> by (apply zlen_0_nil; lia); exists []; rewrite app_nil_r; split; [done|]; split; [apply emits_nil|by vm_compute].
Qed.

Lemma snappy_encode_decodes x max :
  snappy_encode_size (zlen x) = Some max ->
  exists z, snappy_encode x = Some z /\ zlen z <= max /\
    snappy_decode_size z = Some (zlen x) /\ snappy_decode z = Some (Some x).
Proof.
  unfold snappy_encode_size. destruct (Z.ltb_spec 0x7fffffff (zlen x)) as [|Hn]; [done|].
  destruct (Z.ltb_spec 0x7fffffff (32 + zlen x + zlen x / 6)) as [|Hm]; [done|]. intros [= <-].
  pose proof (zlen_nonneg x) as H0. unfold snappy_encode. rewrite u32_small by lia.
  destruct (snappy_encode_loop_ok (Z.to_nat (zlen x / MAX_BLOCK_SIZE)) [] (varint32_write (zlen x)) x)
    as (toks & -> & Hem & Hz).
  { rewrite Z2Nat.id; [lia|]. by apply Z.div_pos. }
  eexists. split; [done|]. pose proof (varint32_size_range (zlen x)) as Hv.
  assert (varint32_read (varint32_write (zlen x) ++ toks) = (Some (zlen x), toks)) as Hr
    by (apply (codec_roundtrip (dec := varint32_read)); lia).
  split; [|split].
  - rewrite zlen_app, zlen_varint32_write. unfold MAX_BLOCK_SIZE in Hz.
    pose proof (Z.mul_div_le (zlen x) 65536). pose proof (Z.mul_succ_div_gt (zlen x) 6). lia.
  - unfold snappy_decode_size. by rewrite Hr, (proj2 (Z.ltb_ge _ _)).
  - unfold snappy_decode. rewrite Hr, (proj2 (Z.ltb_ge _ _)) by done.
    change (decode_blocks (zlen x) toks) with (decode [] (zlen x) toks).
    specialize (Hem (zlen x) [] (Z.le_refl _)). rewrite app_nil_r in Hem. rewrite Hem, Z.sub_diag. apply decode_nil.
Qed.

(** ** Properties *)

(** C35: Compressing and decompressing gives the input back: for every input
    [snappy_encode_size] accepts, the encoder stays inside its input and its
    hash table and terminates, its output fits the size computed for it, and
    the decoder finds the size of the input and reproduces it. *)
Theorem snappy_roundtrip x max :
  snappy_encode_size (zlen x) = Some max ->
  exists z, snappy_encode x = Some z /\ zlen z <= max /\
    snappy_decode_size z = Some (zlen x) /\ snappy_decode z = Some (Some x).
Proof. apply snappy_encode_decodes. Qed.

Lemma snappy_roundtrip_witness :
  let x := concat (replicate 20 [Byte.x61; Byte.x62; Byte.x63; Byte.x64]) in
  exists z, snappy_encode x = Some z /\ zlen z <= 125 /\
    snappy_decode_size z = Some (zlen x) /\ snappy_decode z = Some (Some x).
Proof. intros x. apply (snappy_roundtrip x 125). vm_compute. reflexivity. Defined.

(** C36: The decoder is safe on arbitrary bytes: it terminates without reading
    or copying outside its buffers, and when it succeeds it has written exactly
    the number of bytes [snappy_decode_size] announced. *)
Theorem snappy_decode_safe x :
  exists r, snappy_decode x = Some r /\
    forall out, r = Some out -> snappy_decode_size x = Some (zlen out).
Proof.
  unfold snappy_decode, snappy_decode_size. destruct (varint32_read x) as [[zn|] xp] eqn:E; [|by eexists].
  apply varint32_read_sound in E as (Hz & _). destruct (_ <? zn); [by eexists|].
  destruct (decode_loop_total (length xp) [] zn xp) as (r & Er & Hr); [done|lia|].
  exists r. split; [done|]. intros out Ho. f_equal. rewrite (Hr out Ho). done.
Qed.
