(* ===== verification/Options.v ===== *)
(** * Options

    Models [src/engine/src/util/options.h] and [options.c]: the option records
    and their defaults.  A pointer that may be [NULL] is an [option]; the
    information log, the block cache and the snapshot, objects with state of
    their own, are left out of the records. *)

From S2P Require Import Prelude Comparator Bloom.
#[local] Open Scope Z_scope.

Inductive ldb_compression : Type := LDB_NO_COMPRESSION | LDB_SNAPPY_COMPRESSION.

(** The values of the enumeration, part of the format on disk. *)
Definition compression_num (c : ldb_compression) : Z :=
  match c with LDB_NO_COMPRESSION => 0x0 | LDB_SNAPPY_COMPRESSION => 0x1 end.

Record dbopt := Dbopt {
  opt_comparator : option comparator;
  opt_create_if_missing : bool;
  opt_error_if_exists : bool;
  opt_paranoid_checks : bool;
  opt_write_buffer_size : Z;
  opt_max_open_files : Z;
  opt_block_size : Z;
  opt_block_restart_interval : Z;
  opt_max_file_size : Z;
  opt_compression : ldb_compression;
  opt_reuse_logs : bool;
  opt_filter_policy : option bloom;
  opt_use_mmap : bool
}.

Record readopt := Readopt { ro_verify_checksums : bool; ro_fill_cache : bool }.

Record writeopt := Writeopt { wo_sync : bool }.

Definition ldb_dbopt_default : dbopt := {|
  opt_comparator := None;
  opt_create_if_missing := false;
  opt_error_if_exists := false;
  opt_paranoid_checks := false;
  opt_write_buffer_size := 4 * 1024 * 1024;
  opt_max_open_files := 1000;
  opt_block_size := 4 * 1024;
  opt_block_restart_interval := 16;
  opt_max_file_size := 2 * 1024 * 1024;
  opt_compression := LDB_SNAPPY_COMPRESSION;
  opt_reuse_logs := false;
  opt_filter_policy := None;
  opt_use_mmap := true
|}.

Definition ldb_readopt_default : readopt := Readopt false true.
Definition ldb_writeopt_default : writeopt := Writeopt false.
Definition ldb_iteropt_default : readopt := Readopt false false.
