(* ===== verification/Format.v ===== *)
(** * The table format

    Models [src/engine/src/table/format.h] and [format.c]: block handles, the
    footer, and reading a block with its checksum and compression.  The file is
    the interface of File.v; whether [malloc] succeeds is a parameter. *)

From S2P Require Import Prelude Coding Status Options File Crc32c Snappy.
#[local] Open Scope Z_scope.

Definition LDB_HANDLE_SIZE : Z := 10 + 10.
Definition LDB_FOOTER_SIZE : Z := 2 * LDB_HANDLE_SIZE + 8.
Definition LDB_TRAILER_SIZE : Z := 5.
Definition LDB_TABLE_MAGIC : Z := 0xdb4775248b80fb57.

(** ** Block handles *)

Record handle := Handle { h_offset : Z; h_size : Z }.

(** [~UINT64_C(0)] *)
Definition ones64 : Z := 2 ^ 64 - 1.

Definition ldb_handle_init : handle := Handle ones64 ones64.

Definition ldb_handle_size (x : handle) : Z := varint64_size (h_offset x) + varint64_size (h_size x).

(** The bytes written; [None] when an assertion fails. *)
Definition ldb_handle_write (x : handle) : option bytes :=
  if (h_offset x =? ones64) || (h_size x =? ones64) then None
  else Some (varint64_write (h_offset x) ++ varint64_write (h_size x)).

Definition ldb_handle_export (z : bytes) (x : handle) : option bytes := zp ← ldb_handle_write x; Some (z ++ zp).

Definition ldb_handle_read : rdr handle :=
  rd o <- varint64_read; rd s <- varint64_read; rret (Handle o s).

Definition ldb_handle_import (x : bytes) : option handle := fst (ldb_handle_read x).

(** ** The footer *)

Record footer := Footer { metaindex_handle : handle; index_handle : handle }.

Definition ldb_footer_init : footer := Footer ldb_handle_init ldb_handle_init.

Definition ldb_footer_write (x : footer) : option bytes :=
  m ← ldb_handle_write (metaindex_handle x);
  i ← ldb_handle_write (index_handle x);
  let pad := 2 * LDB_HANDLE_SIZE - zlen (m ++ i) in
  Some (m ++ i ++ padding_write pad ++ fixed64_write LDB_TABLE_MAGIC).

Definition ldb_footer_export (z : bytes) (x : footer) : option bytes := zp ← ldb_footer_write x; Some (z ++ zp).

Definition ldb_footer_read : rdr footer := fun xp =>
  if zlen xp <? LDB_FOOTER_SIZE then (None, xp)
  else if negb (fixed64_decode (zdrop (LDB_FOOTER_SIZE - 8) xp) =? LDB_TABLE_MAGIC) then (None, xp)
  else
    match ldb_handle_read xp with
    | (None, xp1) => (None, xp1)
    | (Some m, xp1) =>
      match ldb_handle_read xp1 with
      | (None, xp2) => (None, xp2)
      | (Some i, _) => (Some (Footer m i), zdrop LDB_FOOTER_SIZE xp)
      end
    end.

Definition ldb_footer_import (x : bytes) : option footer := fst (ldb_footer_read x).

(** ** Reading a block *)

Record contents := Contents { ct_data : bytes; ct_cachable : bool; ct_heap_allocated : bool }.

Definition ldb_contents_init : contents := Contents [] false false.

Section ReadBlock.
Context {F : Type} (rops : rfile_ops F) (malloc : Z -> bool).

(** [SIZE_MAX] *)
Definition size_max : Z := 2 ^ 64 - 1.

(** The status and the contents; [None] where the decoder of Snappy would be
    stuck (it is not: [read_block_total]). *)
Definition ldb_read_block (file : F) (options : readopt) (h : handle) : option (Z * contents) :=
  if size_max - LDB_TRAILER_SIZE <? h_size h then Some (LDB_CORRUPTION, ldb_contents_init)
  else
    let n := h_size h in
    let len := n + LDB_TRAILER_SIZE in
    let mapped := rfile_mapped rops file in
    if negb mapped && negb (malloc len) then Some (LDB_ENOMEM, ldb_contents_init)
    else
      let (rc, data) := rfile_pread rops file len (h_offset h) in
      if negb (rc =? LDB_OK) then Some (rc, ldb_contents_init)
      else if negb (zlen data =? len) then Some (LDB_IOERR, ldb_contents_init)
      else
        let crc := crc32c_unmask (fixed32_decode (zdrop (n + 1) data)) in
        let actual := crc32c_value (ztake (n + 1) data) in
        if ro_verify_checksums options && negb (crc =? actual) then Some (LDB_CORRUPTION, ldb_contents_init)
        else if at_ data n =? compression_num LDB_NO_COMPRESSION then
          if mapped then Some (LDB_OK, Contents (ztake n data) false false)
          else Some (LDB_OK, Contents (ztake n data) true true)
        else if at_ data n =? compression_num LDB_SNAPPY_COMPRESSION then
          match snappy_decode_size (ztake n data) with
          | None => Some (LDB_CORRUPTION, ldb_contents_init)
          | Some ulength =>
            if negb (malloc ulength) then Some (LDB_ENOMEM, ldb_contents_init)
            else
              r ← snappy_decode (ztake n data);
              match r with
              | None => Some (LDB_CORRUPTION, ldb_contents_init)
              | Some ubuf => Some (LDB_OK, Contents ubuf true true)
              end
          end
        else Some (LDB_CORRUPTION, ldb_contents_init).
End ReadBlock.

(** ** Handles and footers are read back *)

Definition handle_ok (h : handle) : Prop := 0 <= h_offset h < ones64 /\ 0 <= h_size h < ones64.

Definition handle_bytes (h : handle) : bytes := varint64_write (h_offset h) ++ varint64_write (h_size h).

Lemma handle_write_ok h : handle_ok h -> ldb_handle_write h = Some (handle_bytes h).
Proof.
  intros [H1 H2]. unfold ldb_handle_write.
  by rewrite (proj2 (Z.eqb_neq (h_offset h) _)), (proj2 (Z.eqb_neq (h_size h) _)) by lia.
Qed.

#[export] Instance handle_codec : Codec handle_ok handle_bytes ldb_handle_read.
Proof.
  intros [o s] rest [H1 H2]. unfold handle_bytes, ldb_handle_read, ones64 in *. cbn [h_offset h_size] in *.
  rewrite <- app_assoc. rewrite !(codec_step (fun x => 0 <= x < 2 ^ 64) varint64_write varint64_read) by lia. done.
Qed.

Lemma zlen_handle_bytes h : zlen (handle_bytes h) = ldb_handle_size h.
Proof. unfold handle_bytes, ldb_handle_size. by rewrite zlen_app, !zlen_varint64_write. Qed.

Lemma handle_size_range h : 2 <= ldb_handle_size h <= LDB_HANDLE_SIZE.
Proof.
  unfold ldb_handle_size, LDB_HANDLE_SIZE. pose proof (varint64_size_range (h_offset h)). pose proof (varint64_size_range (h_size h)). lia.
Qed.

Lemma handle_import_app h rest : handle_ok h -> ldb_handle_import (handle_bytes h ++ rest) = Some h.
Proof. intros H. unfold ldb_handle_import. by rewrite (codec_roundtrip (dec := ldb_handle_read)). Qed.

Lemma handle_import_bytes h : handle_ok h -> ldb_handle_import (handle_bytes h) = Some h.
Proof. intros H. rewrite <- (app_nil_r (handle_bytes h)). by apply handle_import_app. Qed.

Definition footer_ok (f : footer) : Prop := handle_ok (metaindex_handle f) /\ handle_ok (index_handle f).

Lemma footer_write_ok f : footer_ok f ->
  exists bs, ldb_footer_write f = Some bs /\ zlen bs = LDB_FOOTER_SIZE /\ ldb_footer_import bs = Some f.
Proof.
  intros [Hm Hi]. unfold ldb_footer_write. rewrite !handle_write_ok by done. cbn [mbind option_bind].
  eexists. split; [reflexivity|].
  pose proof (handle_size_range (metaindex_handle f)) as R1. pose proof (handle_size_range (index_handle f)) as R2.
  set (m := handle_bytes (metaindex_handle f)). set (i := handle_bytes (index_handle f)).
  assert (zlen (m ++ i) = ldb_handle_size (metaindex_handle f) + ldb_handle_size (index_handle f)) as Hmi
    by (rewrite zlen_app; unfold m, i; by rewrite !zlen_handle_bytes).
  set (pad := 2 * LDB_HANDLE_SIZE - zlen (m ++ i)).
  assert (zlen (padding_write pad) = pad) as Hpad.
  { unfold padding_write. destruct (Z.ltb_spec 0 pad); [apply zlen_zeros; lia|].
    unfold pad in *. change (zlen (@nil byte)) with 0. lia. }
  assert (zlen (m ++ i ++ padding_write pad ++ fixed64_write LDB_TABLE_MAGIC) = LDB_FOOTER_SIZE) as Hlen.
  { rewrite !zlen_app, Hpad, zlen_fixed64_write. unfold pad. rewrite zlen_app. unfold LDB_FOOTER_SIZE. lia. }
  split; [exact Hlen|]. unfold ldb_footer_import, ldb_footer_read. rewrite Hlen, (proj2 (Z.ltb_ge _ _)) by lia.
  assert (zdrop (LDB_FOOTER_SIZE - 8) (m ++ i ++ padding_write pad ++ fixed64_write LDB_TABLE_MAGIC)
    = fixed64_write LDB_TABLE_MAGIC ++ []) as ->.
  { rewrite app_nil_r, (app_assoc m), app_assoc. apply zdrop_app. rewrite zlen_app, Hpad. unfold pad, LDB_FOOTER_SIZE. lia. }
  rewrite fixed64_decode_write by done. rewrite Z.eqb_refl. cbn [negb].
  unfold m. rewrite (codec_roundtrip (dec := ldb_handle_read)) by done.
  unfold i. rewrite (codec_roundtrip (dec := ldb_handle_read)) by done. by destruct f.
Qed.

(** ** Stored blocks *)

(** What a block occupies in the file. *)
Definition stored_block (type : Z) (raw : bytes) : bytes :=
  raw ++ [z2b type] ++ fixed32_write (crc32c_mask (crc32c_value (raw ++ [z2b type]))).

Lemma zlen_stored_block type raw : zlen (stored_block type raw) = zlen raw + LDB_TRAILER_SIZE.
Proof. unfold stored_block. rewrite !zlen_app, zlen_fixed32_write. unfold LDB_TRAILER_SIZE. cbn. unfold zlen. cbn. lia. Qed.

(** What the block at a handle decompresses to. *)
Definition block_data (type : Z) (raw data : bytes) : Prop :=
  (type = compression_num LDB_NO_COMPRESSION /\ data = raw) \/
  (type = compression_num LDB_SNAPPY_COMPRESSION /\ snappy_decode_size raw = Some (zlen data) /\ snappy_decode raw = Some (Some data)).

Section ReadBlockProof.
Context {F : Type} (rops : rfile_ops F) (rep : F -> bytes -> Prop) `{!RFileLaws rops rep} (malloc : Z -> bool).

(** Reading at a handle into the file. *)
Lemma pread_block file d h :
  rep file d -> 0 <= h_offset h -> 0 <= h_size h -> h_offset h + h_size h + LDB_TRAILER_SIZE <= zlen d ->
  rfile_pread rops file (h_size h + LDB_TRAILER_SIZE) (h_offset h) =
    (LDB_OK, ztake (h_size h + LDB_TRAILER_SIZE) (zdrop (h_offset h) d)).
Proof.
  intros R Ho Hs Hl. unfold LDB_TRAILER_SIZE in *. apply (rlaws_pread file d); [done|lia..].
Qed.

Lemma stored_fields type raw :
  0 <= type < 256 ->
  at_ (stored_block type raw) (zlen raw) = type /\ ztake (zlen raw) (stored_block type raw) = raw /\
  ztake (zlen raw + 1) (stored_block type raw) = raw ++ [z2b type] /\
  crc32c_unmask (fixed32_decode (zdrop (zlen raw + 1) (stored_block type raw))) = crc32c_value (raw ++ [z2b type]).
Proof.
  intros Ht. assert (zlen (raw ++ [z2b type]) = zlen raw + 1) as Hz by (rewrite zlen_app; done).
  unfold stored_block. split; [|split; [by apply ztake_app|]].
  - unfold at_, zlen. rewrite Nat2Z.id. cbn [app]. rewrite nth_middle. by apply b2z_z2b_small.
  - rewrite app_assoc. split; [by apply ztake_app|]. rewrite zdrop_app by done.
    rewrite <- (app_nil_r (fixed32_write _)), fixed32_decode_write by apply crc32c_mask_range.
    apply crc32c_unmask_mask, crc32c_value_range.
Qed.

(** A stored block is read back, with or without verification. *)
Lemma read_block_ok file pre type raw data post options :
  rep file (pre ++ stored_block type raw ++ post) -> block_data type raw data ->
  zlen raw + LDB_TRAILER_SIZE < 2 ^ 64 -> malloc (zlen raw + LDB_TRAILER_SIZE) = true -> malloc (zlen data) = true ->
  exists c, ldb_read_block rops malloc file options (Handle (zlen pre) (zlen raw)) = Some (LDB_OK, c) /\ ct_data c = data.
Proof.
  intros R Hd Hs Hm1 Hm2. pose proof (zlen_nonneg raw). pose proof (zlen_nonneg pre). pose proof (zlen_nonneg post).
  unfold ldb_read_block. cbn [h_size h_offset].
  rewrite (proj2 (Z.ltb_ge _ _)) by (unfold size_max; lia). rewrite Hm1, andb_false_r.
  pose proof (pread_block file _ (Handle (zlen pre) (zlen raw)) R) as E. cbn [h_size h_offset] in E.
  rewrite E by (rewrite ?zlen_app, ?zlen_stored_block; lia). clear E.
  rewrite zdrop_app, ztake_app by (rewrite ?zlen_stored_block; done).
  change (negb (LDB_OK =? LDB_OK)) with false. cbv iota. rewrite zlen_stored_block, Z.eqb_refl. cbn [negb].
  destruct (stored_fields type raw) as (Ea & Et & Et1 & Ec).
  { destruct Hd as [[-> _]|[-> _]]; cbn; lia. }
  rewrite Ea, Et, Et1, Ec, Z.eqb_refl. cbn [negb]. rewrite andb_false_r.
  destruct Hd as [[-> ->]|(-> & Esz & Edec)].
  - rewrite Z.eqb_refl. destruct (rfile_mapped rops file); eexists; (split; [reflexivity|done]).
  - change (compression_num LDB_SNAPPY_COMPRESSION =? compression_num LDB_NO_COMPRESSION) with false. cbv iota.
    rewrite Z.eqb_refl, Esz, Hm2, Edec. cbn [negb mbind option_bind]. eexists. by split.
Qed.

(** Reading ends with a status, whatever the file holds. *)
Lemma read_block_total file options h : exists rc c, ldb_read_block rops malloc file options h = Some (rc, c).
Proof.
  unfold ldb_read_block. destruct (_ <? h_size h); [eauto|]. destruct (_ && _); [eauto|].
  destruct (rfile_pread _ _ _ _) as [rc data]. destruct (negb (rc =? _)); [eauto|]. destruct (negb (zlen data =? _)); [eauto|].
  destruct (_ && _); [eauto|]. destruct (_ =? _); [destruct (rfile_mapped _ _); eauto|]. destruct (_ =? _); [|eauto].
  destruct (snappy_decode_size _) eqn:E1; [|eauto]. destruct (negb (malloc _)); [eauto|].
  unfold snappy_decode. destruct (varint32_read (ztake (h_size h) data)) as [[zn|] xp] eqn:E; [|eauto].
  apply varint32_read_sound in E as (Hz & _). destruct (_ <? zn); [cbn; eauto|].
  destruct (decode_loop_total (length xp) [] zn xp) as (r & Er & _); [done|lia|]. unfold decode_blocks. rewrite Er.
  destruct r; cbn; eauto.
Qed.
End ReadBlockProof.

(** ** Damaged blocks *)

(** What the check of the checksum compares. *)
Definition checksum_ok (n : Z) (data : bytes) : Prop :=
  crc32c_unmask (fixed32_decode (zdrop (n + 1) data)) = crc32c_value (ztake (n + 1) data).

(** The damage is in the contents and type, or it is in the checksum. *)
Inductive damaged (n : Z) (sb sb' : bytes) : Prop :=
  | damage_body P ws ws' Q :
      sb = P ++ ws ++ Q -> sb' = P ++ ws' ++ Q -> length ws = length ws' -> zlen ws <= 4 -> ws <> ws' ->
      zlen P + zlen ws <= n + 1 -> damaged n sb sb'
  | damage_crc P ws ws' Q :
      sb = P ++ ws ++ Q -> sb' = P ++ ws' ++ Q -> length ws = length ws' -> zlen ws <= 4 -> ws <> ws' ->
      n + 1 <= zlen P -> damaged n sb sb'.

Lemma zlen_damaged n sb sb' : damaged n sb sb' -> zlen sb' = zlen sb.
Proof. intros [P ws ws' Q -> -> Hl _ _ _|P ws ws' Q -> -> Hl _ _ _]; rewrite !zlen_app; unfold zlen; lia. Qed.

(** Cutting inside the first of the three parts of a list. *)
Lemma ztake_within {A} (a b c : list A) n : zlen a + zlen b <= n -> ztake n (a ++ b ++ c) = a ++ b ++ ztake (n - zlen a - zlen b) c.
Proof.
  intros H. pose proof (zlen_nonneg a). pose proof (zlen_nonneg b). unfold ztake.
  rewrite take_app_ge by (unfold zlen in *; lia). f_equal. rewrite take_app_ge by (unfold zlen in *; lia). f_equal.
  f_equal. unfold zlen. lia.
Qed.

Lemma zdrop_within {A} (a b c : list A) n : zlen a + zlen b <= n -> zdrop n (a ++ b ++ c) = zdrop (n - zlen a - zlen b) c.
Proof.
  intros H. pose proof (zlen_nonneg a). pose proof (zlen_nonneg b). unfold zdrop.
  rewrite drop_app_ge by (unfold zlen in *; lia). rewrite drop_app_ge by (unfold zlen in *; lia). f_equal. unfold zlen. lia.
Qed.

Lemma unmask_inj xs ys : zlen xs = 4 -> zlen ys = 4 ->
  crc32c_unmask (fixed32_decode xs) = crc32c_unmask (fixed32_decode ys) -> xs = ys.
Proof.
  intros Hx Hy E. apply (f_equal crc32c_mask) in E. rewrite !crc32c_mask_unmask in E by apply fixed32_decode_range.
  rewrite <- (app_nil_r xs), <- (app_nil_r ys), !fixed32_decode_app in E by done.
  apply le_value_inj; [unfold zlen in *; lia|done].
Qed.

Lemma damage_detected type raw sb' :
  0 <= type < 256 -> damaged (zlen raw) (stored_block type raw) sb' -> ~ checksum_ok (zlen raw) sb'.
Proof.
  intros Ht Hd Hok. destruct (stored_fields type raw Ht) as (_ & _ & Et & Ec). unfold checksum_ok in Hok.
  pose proof (zlen_stored_block type raw) as Hz. rewrite <- Et in Ec. unfold LDB_TRAILER_SIZE in Hz.
  destruct Hd as [P ws ws' Q E -> Hl H4 Hne Hn|P ws ws' Q E -> Hl H4 Hne Hn]; rewrite E in *;
    assert (zlen ws' = zlen ws) as Hl' by (unfold zlen; lia).
  - rewrite zdrop_within, ztake_within in Ec, Hok by lia. rewrite Hl' in Hok.
    refine (crc32c_burst P ws ws' _ Hl H4 Hne _). by rewrite <- Ec, <- Hok.
  - pose proof (zlen_nonneg raw).
    assert (forall X : bytes, ztake (zlen raw + 1) (P ++ X) = ztake (zlen raw + 1) P) as Htk.
    { intros X. unfold ztake. apply take_app_le. unfold zlen in *. lia. }
    assert (forall X : bytes, zdrop (zlen raw + 1) (P ++ X) = zdrop (zlen raw + 1) P ++ X) as Hdk.
    { intros X. unfold zdrop. apply drop_app_le. unfold zlen in *. lia. }
    rewrite Htk, Hdk in Ec, Hok. rewrite <- Ec in Hok. rewrite !zlen_app in Hz.
    apply unmask_inj in Hok; [|rewrite !zlen_app, zlen_drop by lia; lia..].
    apply app_inv_head in Hok. apply app_inj_1 in Hok as [-> _]; done.
Qed.

(** ** Properties *)

(** With checksum verification a damaged block is not delivered: when up to
    four consecutive bytes of a stored block (its contents and type, or its
    checksum) have changed, reading it reports [LDB_CORRUPTION], through any
    file that returns the bytes it holds. *)
Theorem read_block_detects_damage {F} (rops : rfile_ops F) rep `{!RFileLaws rops rep} malloc file pre type raw sb' post fill_cache :
  0 <= type < 256 -> zlen raw + LDB_TRAILER_SIZE < 2 ^ 64 -> malloc (zlen raw + LDB_TRAILER_SIZE) = true ->
  damaged (zlen raw) (stored_block type raw) sb' -> rep file (pre ++ sb' ++ post) ->
  ldb_read_block rops malloc file (Readopt true fill_cache) (Handle (zlen pre) (zlen raw)) = Some (LDB_CORRUPTION, ldb_contents_init).
Proof.
  intros Ht Hs Hm Hd R. pose proof (zlen_damaged _ _ _ Hd) as Hz. rewrite zlen_stored_block in Hz.
  pose proof (zlen_nonneg raw). pose proof (zlen_nonneg pre). pose proof (zlen_nonneg post).
  unfold ldb_read_block. cbn [h_size h_offset ro_verify_checksums].
  rewrite (proj2 (Z.ltb_ge _ _)) by (unfold size_max; lia). rewrite Hm, andb_false_r.
  pose proof (pread_block rops rep file _ (Handle (zlen pre) (zlen raw)) R) as E. cbn [h_size h_offset] in E.
  rewrite E by (rewrite ?zlen_app, ?Hz; lia). clear E.
  rewrite zdrop_app, ztake_app by (rewrite ?Hz; done).
  change (negb (LDB_OK =? LDB_OK)) with false. cbv iota. rewrite Hz, Z.eqb_refl. cbn [negb andb].
  rewrite (proj2 (Z.eqb_neq _ _)); [done|]. by apply (damage_detected type).
Qed.

(** A file in memory that returns slices of its contents. *)
Definition mem_rfile (mapped : bool) : rfile_ops bytes :=
  RfileOps (fun _ => mapped) (fun d count offset => (LDB_OK, ztake count (zdrop offset d))).

#[export] Instance mem_rfile_laws mapped : RFileLaws (mem_rfile mapped) eq.
Proof. intros f d count offset -> _ _. done. Qed.

Lemma read_block_detects_damage_witness :
  let raw := [Byte.x61; Byte.x62; Byte.x63] in
  let sb' := z2b 0x62 :: zdrop 1 (stored_block 0 raw) in
  ldb_read_block (mem_rfile false) (fun _ => true) ([Byte.x00] ++ sb' ++ []) (Readopt true true) (Handle 1 3) =
    Some (LDB_CORRUPTION, ldb_contents_init).
Proof.
  intros raw sb'.
  apply (read_block_detects_damage (mem_rfile false) eq (fun _ => true) _ [Byte.x00] 0 raw sb' [] true).
  - lia.
  - by vm_compute.
  - reflexivity.
  - apply (damage_body _ _ _ [] [Byte.x61] [Byte.x62] (zdrop 1 (stored_block 0 raw))); try reflexivity; by vm_compute.
  - reflexivity.
Defined.
