(* ===== verification/TableBuilder.v ===== *)
(** * Building tables

    Models [src/engine/src/table/table_builder.h] and [table_builder.c]: sorted
    pairs are cut into data blocks, followed by the filter, metaindex and index
    blocks and the footer.  The file is the interface of File.v. *)

From stdpp Require Import strings sorting.
From S2P Require Import Prelude Coding Status Strutil Comparator Bloom Crc32c Options File Iterator BlockBuilder FilterBlock Snappy Format.
#[local] Open Scope Z_scope.

(** ** The builder *)

(** [ldb_tablegen_t]; the options of the index block, [options] with a restart
    interval of 1, are in [tb_index_block]. *)
Record tablegen (F : Type) := Tablegen {
  tb_options : dbopt;
  tb_file : F;
  tb_offset : Z;
  tb_status : Z;
  tb_data_block : blockgen;
  tb_index_block : blockgen;
  tb_last_key : bytes;
  tb_num_entries : Z;
  tb_closed : bool;
  tb_filter_block : option filtergen;
  tb_pending_index_entry : bool;
  tb_pending_handle : handle
}.
Arguments Tablegen {F}.
Arguments tb_options {F}.
Arguments tb_file {F}.
Arguments tb_offset {F}.
Arguments tb_status {F}.
Arguments tb_data_block {F}.
Arguments tb_index_block {F}.
Arguments tb_last_key {F}.
Arguments tb_num_entries {F}.
Arguments tb_closed {F}.
Arguments tb_filter_block {F}.
Arguments tb_pending_index_entry {F}.
Arguments tb_pending_handle {F}.

Section Builder.
Context {F : Type} (wops : wfile_ops F).

(** Updates of the fields. *)
Definition set_output (tb : tablegen F) (file : F) (offset status : Z) : tablegen F :=
  Tablegen (tb_options tb) file offset status (tb_data_block tb) (tb_index_block tb) (tb_last_key tb)
    (tb_num_entries tb) (tb_closed tb) (tb_filter_block tb) (tb_pending_index_entry tb) (tb_pending_handle tb).

Definition set_status (tb : tablegen F) (status : Z) : tablegen F := set_output tb (tb_file tb) (tb_offset tb) status.

Definition set_data_block (tb : tablegen F) (bb : blockgen) : tablegen F :=
  Tablegen (tb_options tb) (tb_file tb) (tb_offset tb) (tb_status tb) bb (tb_index_block tb) (tb_last_key tb)
    (tb_num_entries tb) (tb_closed tb) (tb_filter_block tb) (tb_pending_index_entry tb) (tb_pending_handle tb).

Definition set_tb_index (tb : tablegen F) (bb : blockgen) (last_key : bytes) (pending : bool) : tablegen F :=
  Tablegen (tb_options tb) (tb_file tb) (tb_offset tb) (tb_status tb) (tb_data_block tb) bb last_key
    (tb_num_entries tb) (tb_closed tb) (tb_filter_block tb) pending (tb_pending_handle tb).

Definition set_entry (tb : tablegen F) (last_key : bytes) (num_entries : Z) : tablegen F :=
  Tablegen (tb_options tb) (tb_file tb) (tb_offset tb) (tb_status tb) (tb_data_block tb) (tb_index_block tb) last_key
    num_entries (tb_closed tb) (tb_filter_block tb) (tb_pending_index_entry tb) (tb_pending_handle tb).

Definition set_filter (tb : tablegen F) (fb : option filtergen) : tablegen F :=
  Tablegen (tb_options tb) (tb_file tb) (tb_offset tb) (tb_status tb) (tb_data_block tb) (tb_index_block tb)
    (tb_last_key tb) (tb_num_entries tb) (tb_closed tb) fb (tb_pending_index_entry tb) (tb_pending_handle tb).

Definition set_pending (tb : tablegen F) (pending : bool) (h : handle) : tablegen F :=
  Tablegen (tb_options tb) (tb_file tb) (tb_offset tb) (tb_status tb) (tb_data_block tb) (tb_index_block tb)
    (tb_last_key tb) (tb_num_entries tb) (tb_closed tb) (tb_filter_block tb) pending h.

Definition set_closed (tb : tablegen F) : tablegen F :=
  Tablegen (tb_options tb) (tb_file tb) (tb_offset tb) (tb_status tb) (tb_data_block tb) (tb_index_block tb)
    (tb_last_key tb) (tb_num_entries tb) true (tb_filter_block tb) (tb_pending_index_entry tb) (tb_pending_handle tb).

Definition ldb_tablegen_init (options : dbopt) (file : F) : option (tablegen F) :=
  filter_block ← (match opt_filter_policy options with
                  | Some policy => fb ← ldb_filtergen_start_block (ldb_filtergen_init policy) 0; Some (Some fb)
                  | None => Some None
                  end);
  Some (Tablegen options file 0 LDB_OK (ldb_blockgen_init (opt_block_restart_interval options)) (ldb_blockgen_init 1)
          [] 0 false filter_block false ldb_handle_init).

(** The builder and the handle afterwards. *)
Definition ldb_tablegen_write_raw_block (tb : tablegen F) (block_contents : bytes) (type : ldb_compression)
    : tablegen F * handle :=
  let h := Handle (tb_offset tb) (zlen block_contents) in
  let (status, file) := wfile_append wops (tb_file tb) block_contents in
  if status =? LDB_OK then
    let crc := crc32c_value block_contents in
    let crc := crc32c_extend crc [z2b (compression_num type)] in
    let trailer := z2b (compression_num type) :: fixed32_write (crc32c_mask crc) in
    let (status, file) := wfile_append wops file trailer in
    if status =? LDB_OK
    then (set_output tb file (tb_offset tb + (zlen block_contents + LDB_TRAILER_SIZE)) status, h)
    else (set_output tb file (tb_offset tb) status, h)
  else (set_output tb file (tb_offset tb) status, h).

(** What is stored for a raw block; [None] is [abort()]. *)
Definition compress_block (compression : ldb_compression) (raw : bytes) : option (bytes * ldb_compression) :=
  match compression with
  | LDB_NO_COMPRESSION => Some (raw, LDB_NO_COMPRESSION)
  | LDB_SNAPPY_COMPRESSION =>
    _ ← snappy_encode_size (zlen raw);
    compressed ← snappy_encode raw;
    if zlen compressed <? zlen raw - zlen raw / 8 then Some (compressed, LDB_SNAPPY_COMPRESSION)
    else Some (raw, LDB_NO_COMPRESSION)
  end.

(** The builder, the block builder and the handle afterwards. *)
Definition ldb_tablegen_write_block (tb : tablegen F) (block : blockgen) : option (tablegen F * blockgen * handle) :=
  if tb_status tb =? LDB_OK then
    let (raw, block) := ldb_blockgen_finish block in
    '(block_contents, type) ← compress_block (opt_compression (tb_options tb)) raw;
    let (tb, h) := ldb_tablegen_write_raw_block tb block_contents type in
    Some (tb, ldb_blockgen_reset block, h)
  else None.

Definition ldb_tablegen_flush (tb : tablegen F) : option (tablegen F) :=
  if tb_closed tb then None
  else if negb (tb_status tb =? LDB_OK) then Some tb
  else if ldb_blockgen_empty (tb_data_block tb) then Some tb
  else if tb_pending_index_entry tb then None
  else
    '(tb, block, h) ← ldb_tablegen_write_block tb (tb_data_block tb);
    let tb := set_pending (set_data_block tb block) (tb_pending_index_entry tb) h in
    let tb :=
      if tb_status tb =? LDB_OK then
        let (status, file) := wfile_flush wops (tb_file tb) in
        set_output (set_pending tb true h) file (tb_offset tb) status
      else tb in
    match tb_filter_block tb with
    | Some fb => fb ← ldb_filtergen_start_block fb (tb_offset tb); Some (set_filter tb (Some fb))
    | None => Some tb
    end.

(** The index entry for the block in front of [key]. *)
Definition add_index_entry (cmp : comparator) (tb : tablegen F) (key : bytes) : option (tablegen F) :=
  if tb_pending_index_entry tb then
    if negb (ldb_blockgen_empty (tb_data_block tb)) then None
    else
      let last_key := ldb_shortest_separator cmp (tb_last_key tb) key in
      handle_encoding ← ldb_handle_export [] (tb_pending_handle tb);
      Some (set_tb_index tb (ldb_blockgen_add (tb_index_block tb) last_key handle_encoding) last_key false)
  else Some tb.

Definition ldb_tablegen_add (tb : tablegen F) (key value : bytes) : option (tablegen F) :=
  if tb_closed tb then None
  else if negb (tb_status tb =? LDB_OK) then Some tb
  else
    cmp ← opt_comparator (tb_options tb);
    if (if 0 <? tb_num_entries tb then negb (0 <? ldb_compare cmp key (tb_last_key tb)) else false) then None
    else
      tb ← add_index_entry cmp tb key;
      let tb := match tb_filter_block tb with
                | Some fb => set_filter tb (Some (ldb_filtergen_add_key fb key))
                | None => tb
                end in
      let tb := set_entry tb key (tb_num_entries tb + 1) in
      let tb := set_data_block tb (ldb_blockgen_add (tb_data_block tb) key value) in
      let estimated_block_size := ldb_blockgen_size_estimate (tb_data_block tb) in
      if opt_block_size (tb_options tb) <=? estimated_block_size then ldb_tablegen_flush tb else Some tb.

(** The steps of [ldb_tablegen_finish]: the filter block, the metaindex block,
    the index block and the footer, each unless the status is an error. *)
Definition write_filter_block (tb : tablegen F) : tablegen F * handle :=
  if tb_status tb =? LDB_OK then
    match tb_filter_block tb with
    | Some fb =>
      let (contents, fb) := ldb_filtergen_finish fb in
      ldb_tablegen_write_raw_block (set_filter tb (Some fb)) contents LDB_NO_COMPRESSION
    | None => (tb, ldb_handle_init)
    end
  else (tb, ldb_handle_init).

(** [inl]: [return LDB_INVALID]. *)
Definition write_metaindex_block (tb : tablegen F) (filter_handle : handle) : option (Z + tablegen F * handle) :=
  if tb_status tb =? LDB_OK then
    let metaindex_block := ldb_blockgen_init (opt_block_restart_interval (tb_options tb)) in
    metaindex_block ← (match tb_filter_block tb with
      | Some _ =>
        match opt_filter_policy (tb_options tb) ≫= fun p => ldb_bloom_name p 72 with
        | None => Some (inl LDB_INVALID)
        | Some name =>
          handle_encoding ← ldb_handle_export [] filter_handle;
          Some (inr (ldb_blockgen_add metaindex_block (cstr name) handle_encoding))
        end
      | None => Some (inr metaindex_block)
      end);
    match metaindex_block with
    | inl rc => Some (inl rc)
    | inr metaindex_block =>
      '(tb, _, h) ← ldb_tablegen_write_block tb metaindex_block;
      Some (inr (tb, h))
    end
  else Some (inr (tb, Handle 0 0)).

Definition write_index_block (cmp : comparator) (tb : tablegen F) : option (tablegen F * handle) :=
  if tb_status tb =? LDB_OK then
    tb ← (if tb_pending_index_entry tb then
            let last_key := ldb_short_successor cmp (tb_last_key tb) in
            handle_encoding ← ldb_handle_export [] (tb_pending_handle tb);
            Some (set_tb_index tb (ldb_blockgen_add (tb_index_block tb) last_key handle_encoding) last_key false)
          else Some tb);
    '(tb, block, h) ← ldb_tablegen_write_block tb (tb_index_block tb);
    Some (set_tb_index tb block (tb_last_key tb) (tb_pending_index_entry tb), h)
  else Some (tb, Handle 0 0).

Definition write_footer (tb : tablegen F) (metaindex_handle index_handle : handle) : option (tablegen F) :=
  if tb_status tb =? LDB_OK then
    footer_encoding ← ldb_footer_export [] (Footer metaindex_handle index_handle);
    let (status, file) := wfile_append wops (tb_file tb) footer_encoding in
    Some (set_output tb file (if status =? LDB_OK then tb_offset tb + zlen footer_encoding else tb_offset tb) status)
  else Some tb.

(** The result and the builder afterwards. *)
Definition ldb_tablegen_finish (tb : tablegen F) : option (Z * tablegen F) :=
  tb ← ldb_tablegen_flush tb;
  if tb_closed tb then None
  else
    let tb := set_closed tb in
    cmp ← opt_comparator (tb_options tb);
    let (tb, filter_handle) := write_filter_block tb in
    r ← write_metaindex_block tb filter_handle;
    match r with
    | inl rc => Some (rc, tb)
    | inr (tb, metaindex_handle) =>
      '(tb, index_handle) ← write_index_block cmp tb;
      tb ← write_footer tb metaindex_handle index_handle;
      Some (tb_status tb, tb)
    end.

Definition ldb_tablegen_abandon (tb : tablegen F) : option (tablegen F) :=
  if tb_closed tb then None else Some (set_closed tb).

Definition ldb_tablegen_status (tb : tablegen F) : Z := tb_status tb.
Definition ldb_tablegen_entries (tb : tablegen F) : Z := tb_num_entries tb.
Definition ldb_tablegen_size (tb : tablegen F) : Z := tb_offset tb.

(** Adding a list of pairs. *)
Definition tablegen_add_all (tb : tablegen F) (kvs : pairs) : option (tablegen F) :=
  fold_left (fun tb kv => tb ← tb; ldb_tablegen_add tb kv.1 kv.2) kvs (Some tb).

Definition build_table (options : dbopt) (file : F) (kvs : pairs) : option (Z * tablegen F) :=
  tb ← ldb_tablegen_init options file;
  tb ← tablegen_add_all tb kvs;
  ldb_tablegen_finish tb.
End Builder.

(** ** Stored blocks *)

(** The file holds at [h] a block that decompresses to [data]. *)
Definition stored (d : bytes) (h : handle) (data : bytes) : Prop :=
  exists pre type raw post, d = pre ++ stored_block type raw ++ post /\ h = Handle (zlen pre) (zlen raw) /\
    block_data type raw data.

Lemma stored_app d e h data : stored d h data -> stored (d ++ e) h data.
Proof.
  intros (pre & type & raw & post & -> & -> & H). exists pre, type, raw, (post ++ e). by rewrite <- !app_assoc.
Qed.

Lemma stored_range d h data : stored d h data ->
  0 <= h_offset h /\ 0 <= h_size h /\ h_offset h + h_size h + LDB_TRAILER_SIZE <= zlen d.
Proof.
  intros (pre & type & raw & post & -> & -> & _). cbn [h_offset h_size]. rewrite !zlen_app, zlen_stored_block.
  pose proof (zlen_nonneg pre). pose proof (zlen_nonneg raw). pose proof (zlen_nonneg post). unfold LDB_TRAILER_SIZE. lia.
Qed.

Lemma stored_handle_ok d h data : stored d h data -> zlen d < 2 ^ 63 -> handle_ok h.
Proof. intros H Hd. apply stored_range in H. unfold handle_ok, ones64, LDB_TRAILER_SIZE in *. lia. Qed.

Lemma compress_block_ok compression raw : zlen raw < 2 ^ 30 ->
  exists x type, compress_block compression raw = Some (x, type) /\ block_data (compression_num type) x raw /\ zlen x <= zlen raw.
Proof.
  intros Hs. pose proof (zlen_nonneg raw). destruct compression; cbn [compress_block].
  { exists raw, LDB_NO_COMPRESSION. split; [done|]. split; [by left|lia]. }
  assert (snappy_encode_size (zlen raw) = Some (32 + zlen raw + zlen raw / 6)) as E.
  { unfold snappy_encode_size. pose proof (Z.mul_div_le (zlen raw) 6 ltac:(lia)).
    by rewrite (proj2 (Z.ltb_ge _ _)), (proj2 (Z.ltb_ge _ _)) by lia. }
  rewrite E. cbn [mbind option_bind].
  destruct (snappy_encode_decodes raw _ E) as (z & -> & _ & Esz & Edec). cbn [mbind option_bind].
  destruct (Z.ltb_spec (zlen z) (zlen raw - zlen raw / 8)) as [Hlt|].
  - exists z, LDB_SNAPPY_COMPRESSION. split; [done|]. split; [by right|]. pose proof (Z.div_pos (zlen raw) 8 ltac:(lia) ltac:(lia)). lia.
  - exists raw, LDB_NO_COMPRESSION. split; [done|]. split; [by left|lia].
Qed.

Section Correct.
Context {F : Type} (wops : wfile_ops F) (wrep : F -> bytes -> Prop) `{!WFileLaws wops wrep}.

(** The builder is writing the file [d]. *)
Definition writing (tb : tablegen F) (d : bytes) : Prop :=
  wrep (tb_file tb) d /\ tb_offset tb = zlen d /\ tb_status tb = LDB_OK.

Lemma write_raw_block_ok tb d x type :
  writing tb d -> zlen d + zlen x + LDB_TRAILER_SIZE < 2 ^ 63 ->
  exists file, ldb_tablegen_write_raw_block wops tb x type =
      (set_output tb file (zlen d + (zlen x + LDB_TRAILER_SIZE)) LDB_OK, Handle (zlen d) (zlen x)) /\
    wrep file (d ++ stored_block (compression_num type) x).
Proof.
  intros (R & Eo & Es) Hs. pose proof (zlen_nonneg d). pose proof (zlen_nonneg x). unfold LDB_TRAILER_SIZE in *.
  unfold ldb_tablegen_write_raw_block. rewrite Eo.
  destruct (wlaws_append _ d x R) as (f1 & -> & R1); [lia|]. rewrite Z.eqb_refl.
  change (crc32c_extend (crc32c_value x) [z2b (compression_num type)]) with
    (crc32c_extend (crc32c_extend 0 x) [z2b (compression_num type)]). rewrite crc32c_extend_app by done.
  change (crc32c_extend 0 (x ++ [z2b (compression_num type)])) with (crc32c_value (x ++ [z2b (compression_num type)])).
  destruct (wlaws_append _ _ (z2b (compression_num type) :: fixed32_write (crc32c_mask (crc32c_value (x ++ [z2b (compression_num type)])))) R1)
    as (f2 & -> & R2); [rewrite zlen_app, zlen_cons, zlen_fixed32_write; lia|]. rewrite Z.eqb_refl.
  exists f2. split; [done|]. unfold stored_block. by rewrite <- app_assoc in R2.
Qed.

Lemma write_block_ok tb d block :
  writing tb d -> zlen (ldb_blockgen_finish block).1 < 2 ^ 30 -> zlen d < 2 ^ 40 ->
  exists file d' h, ldb_tablegen_write_block wops tb block =
      Some (set_output tb file (zlen d') LDB_OK, ldb_blockgen_reset (ldb_blockgen_finish block).2, h) /\
    wrep file d' /\ (exists e, d' = d ++ e) /\ stored d' h (ldb_blockgen_finish block).1 /\ h_offset h = zlen d /\
    zlen d < zlen d' <= zlen d + zlen (ldb_blockgen_finish block).1 + 5.
Proof.
  intros W Hs Hd. pose proof W as (R & Eo & Es). unfold ldb_tablegen_write_block. rewrite Es, Z.eqb_refl.
  destruct (ldb_blockgen_finish block) as [raw bb]. cbn [fst snd] in *.
  destruct (compress_block_ok (opt_compression (tb_options tb)) raw Hs) as (x & type & -> & Hb & Hx). cbn [mbind option_bind].
  pose proof (zlen_nonneg d). pose proof (zlen_nonneg x).
  destruct (write_raw_block_ok tb d x type W) as (file & -> & R'); [unfold LDB_TRAILER_SIZE; lia|].
  assert (zlen (d ++ stored_block (compression_num type) x) = zlen d + (zlen x + LDB_TRAILER_SIZE)) as Hz
    by (by rewrite zlen_app, zlen_stored_block).
  exists file, (d ++ stored_block (compression_num type) x), (Handle (zlen d) (zlen x)). rewrite Hz.
  split; [done|]. split; [done|]. split; [by eexists|]. split; [|split; [done|unfold LDB_TRAILER_SIZE; lia]].
  exists d, (compression_num type), x, []. by rewrite app_nil_r.
Qed.

(** ** The invariant of the builder *)

Context (dom : bytes -> Prop) (cmp : comparator) `{!ComparatorLaws dom cmp, !ShortSeparators dom cmp}.
Context (options : dbopt) (c : Z).
Hypothesis options_cmp : opt_comparator options = Some cmp.
Hypothesis options_interval : 1 <= opt_block_restart_interval options.
Hypothesis c_nonneg : 0 <= c.

(** A filter policy keeps its promise, builds filters of bounded size and has a
    name that fits the metaindex key. *)
Hypothesis options_policy : forall p, opt_filter_policy options = Some p ->
  FilterPolicy dom p /\ PolicySize p c /\ ldb_bloom_name p 72 <> None.

Local Abbreviation interval := (opt_block_restart_interval options).

(** The pairs of the finished blocks, each with its handle, and of the current
    block. *)
Definition finished (blocks : list (pairs * handle)) : pairs := concat (map fst blocks).
Definition all_kvs (blocks : list (pairs * handle)) (cur : pairs) : pairs := finished blocks ++ cur.

Definition seen_keys (blocks : list (pairs * handle)) (cur : pairs) (off : Z) : list (Z * bytes) :=
  concat (map (fun b => map (fun kv => (h_offset b.2, kv.1)) b.1) blocks) ++ map (fun kv => (off, kv.1)) cur.

Definition filter_inv (fbo : option filtergen) (blocks : list (pairs * handle)) (cur : pairs) (off : Z) : Prop :=
  match opt_filter_policy options with
  | None => fbo = None
  | Some p => exists fb, fbo = Some fb /\ fg_policy fb = p /\ filtergen_ok dom p fb (seen_keys blocks cur off) off /\
      filter_size c fb <= 2 * c * zlen (all_kvs blocks cur)
  end.

(** The first pair after block [i]. *)
Definition next_head (blocks : list (pairs * handle)) (cur : pairs) (i : nat) : option (bytes * bytes) :=
  match blocks !! S i with Some b => head b.1 | None => head cur end.

(** The index entries separate the blocks; the last block may not have its
    entry yet. *)
Record ix_inv (blocks : list (pairs * handle)) (ix cur : pairs) : Prop := {
  ix_entry i e : ix !! i = Some e -> exists b, blocks !! i = Some b /\ e.2 = handle_bytes b.2 /\ dom e.1 /\
    (forall kv, kv ∈ b.1 -> ldb_compare cmp kv.1 e.1 <= 0);
  ix_above i e j b kv : ix !! i = Some e -> (i < j)%nat -> blocks !! j = Some b -> kv ∈ b.1 -> ldb_compare cmp e.1 kv.1 < 0;
  ix_above_cur e kv : e ∈ ix -> kv ∈ cur -> ldb_compare cmp e.1 kv.1 < 0;
  ix_sep i e b kv : ix !! i = Some e -> blocks !! i = Some b -> next_head blocks cur i = Some kv ->
    exists s, s ∈ b.1 /\ e.1 = ldb_shortest_separator cmp s.1 kv.1;
  ix_cost : pairs_cost ix <= pairs_cost (finished (take (length ix) blocks)) + 20 * zlen ix
}.

Record tg_ok (tb : tablegen F) (blocks : list (pairs * handle)) (ix cur : pairs) (d : bytes) : Prop := {
  ok_options : tb_options tb = options;
  ok_writing : writing tb d;
  ok_open : tb_closed tb = false;
  ok_data : tb_data_block tb = blockgen_add_all (ldb_blockgen_init interval) cur;
  ok_index : tb_index_block tb = blockgen_add_all (ldb_blockgen_init 1) ix;
  ok_blocks : Forall (fun b => b.1 <> [] /\ stored d b.2 (build_block interval b.1)) blocks;
  ok_offsets : StronglySorted Z.lt (map (fun b => h_offset b.2) blocks);
  ok_pending : if tb_pending_index_entry tb
    then cur = [] /\ length blocks = S (length ix) /\ exists b, list.last blocks = Some b /\ tb_pending_handle tb = b.2
    else length blocks = length ix /\ (cur = [] -> blocks = []);
  ok_ix : ix_inv blocks ix cur;
  ok_num : tb_num_entries tb = zlen (all_kvs blocks cur);
  ok_filter : filter_inv (tb_filter_block tb) blocks cur (zlen d);
  ok_size : zlen d <= pairs_cost (finished blocks) + 13 * zlen blocks
}.

Definition last_ok (tb : tablegen F) (kvs : pairs) : Prop :=
  forall kv, list.last kvs = Some kv -> tb_last_key tb = kv.1.

(** What bounds every size that occurs. *)
Definition total_ok (kvs : pairs) : Prop := pairs_cost kvs + 2 * c * zlen kvs < 2 ^ 28.

Lemma finished_app bs bs' : finished (bs ++ bs') = finished bs ++ finished bs'.
Proof. unfold finished. by rewrite map_app, concat_app. Qed.

Lemma all_kvs_flush blocks cur h : all_kvs (blocks ++ [(cur, h)]) [] = all_kvs blocks cur.
Proof. unfold all_kvs. rewrite finished_app. unfold finished at 2. cbn. by rewrite !app_nil_r. Qed.

Lemma all_kvs_snoc blocks cur kv : all_kvs blocks (cur ++ [kv]) = all_kvs blocks cur ++ [kv].
Proof. unfold all_kvs. by rewrite app_assoc. Qed.

Lemma seen_flush blocks cur h : seen_keys (blocks ++ [(cur, h)]) [] 0 = seen_keys blocks cur (h_offset h).
Proof. unfold seen_keys. rewrite map_app, concat_app. cbn. by rewrite !app_nil_r. Qed.

Lemma length_seen blocks cur off : length (seen_keys blocks cur off) = length (all_kvs blocks cur).
Proof.
  unfold seen_keys, all_kvs, finished. rewrite !length_app, length_map. f_equal.
  induction blocks as [|b blocks IH]; [done|]. cbn. by rewrite !length_app, length_map, IH.
Qed.

(** Blocks are not empty, so there are no more blocks than pairs. *)
Lemma blocks_le_pairs blocks : Forall (fun b => b.1 <> []) blocks -> 19 * zlen blocks <= pairs_cost (finished blocks).
Proof.
  intros H. assert (zlen blocks <= zlen (finished blocks)) as Hl.
  { unfold zlen. apply inj_le. unfold finished. induction H as [|b blocks Hb _ IH]; [done|]. cbn. rewrite length_app.
    destruct b.1; [done|]. cbn. lia. }
  pose proof (pairs_cost_length (finished blocks)). lia.
Qed.

Lemma tg_blocks tb blocks ix cur d : tg_ok tb blocks ix cur d -> 19 * zlen blocks <= pairs_cost (finished blocks).
Proof. intros H. apply blocks_le_pairs. eapply List.Forall_impl; [|apply (ok_blocks _ _ _ _ _ H)]. by intros b [? _]. Qed.

Lemma tg_size tb blocks ix cur d : tg_ok tb blocks ix cur d -> total_ok (all_kvs blocks cur) ->
  zlen d < 2 ^ 29 /\ zlen (all_kvs blocks cur) < 2 ^ 28 /\ zlen (build_block interval cur) < 2 ^ 29.
Proof.
  intros H Ht. unfold total_ok, all_kvs in *. rewrite pairs_cost_app in Ht.
  pose proof (tg_blocks _ _ _ _ _ H). pose proof (ok_size _ _ _ _ _ H). pose proof (pairs_cost_nonneg cur).
  pose proof (pairs_cost_nonneg (finished blocks)). pose proof (build_block_size interval cur).
  pose proof (pairs_cost_length (finished blocks ++ cur)) as Hl. rewrite pairs_cost_app in Hl.
  pose proof (zlen_nonneg (finished blocks ++ cur)). nia.
Qed.

(** *** The filter *)

Lemma filter_add fbo blocks cur off k v :
  filter_inv fbo blocks cur off -> dom k ->
  filter_inv (match fbo with Some fb => Some (ldb_filtergen_add_key fb k) | None => None end) blocks (cur ++ [(k, v)]) off.
Proof.
  unfold filter_inv. destruct (opt_filter_policy options) as [p|]; [|by intros -> _].
  intros (fb & -> & Hp & Hok & Hsz) Hk. eexists. split; [done|]. split; [done|]. split.
  - unfold seen_keys. rewrite map_app, app_assoc. by apply add_key_ok.
  - rewrite add_key_size, all_kvs_snoc, zlen_app. change (zlen [(k, v)]) with 1. lia.
Qed.

Lemma filter_flush fbo blocks cur off off' h :
  filter_inv fbo blocks cur off -> h_offset h = off -> off <= off' -> zlen (all_kvs blocks cur) < 2 ^ 32 ->
  match fbo with
  | Some fb => exists fb', ldb_filtergen_start_block fb off' = Some fb' /\ filter_inv (Some fb') (blocks ++ [(cur, h)]) [] off'
  | None => filter_inv None (blocks ++ [(cur, h)]) [] off'
  end.
Proof.
  unfold filter_inv. destruct (opt_filter_policy options) as [p|] eqn:Ep; [|by intros -> _].
  intros (fb & -> & Hp & Hok & Hsz) Ho Hle Hlen. destruct (options_policy p eq_refl) as (HP & HS & _).
  destruct (start_block_ok dom p fb _ off off' Hok Hle) as (fb' & E & Hok').
  { unfold zlen in *. by rewrite length_seen. }
  exists fb'. split; [done|]. exists fb'. split; [done|].
  destruct (start_block_size p c c_nonneg fb off' fb' Hp E) as [Hp' Hs']. split; [done|].
  rewrite all_kvs_flush. split; [|lia].
  assert (seen_keys (blocks ++ [(cur, h)]) [] off' = seen_keys (blocks ++ [(cur, h)]) [] 0) as -> by done.
  by rewrite seen_flush, Ho.
Qed.

(** *** Flushing the current block *)

Lemma ix_inv_flush blocks ix cur h : ix_inv blocks ix cur -> length blocks = length ix -> ix_inv (blocks ++ [(cur, h)]) ix [].
Proof.
  intros [Hent Hab Hcur Hsep Hcost] Hl. split.
  - intros i e Hi. destruct (Hent i e Hi) as (b & Hb & Hrest). exists b. split; [by apply lookup_app_l_Some|done].
  - intros i e j b kv Hi Hij Hj Hk. apply lookup_app_Some in Hj as [Hj|[Hge Hj]]; [by eapply Hab|].
    apply list_lookup_singleton_Some in Hj as [_ <-]. eapply Hcur; [by eapply list_elem_of_lookup_2|done].
  - by intros e kv _ ?%not_elem_of_nil.
  - intros i e b kv Hi Hb Hk. pose proof (lookup_lt_Some _ _ _ Hi). rewrite lookup_app_l in Hb by lia.
    apply (Hsep i e b kv Hi Hb). unfold next_head in *. destruct (decide (S i < length blocks)%nat).
    + rewrite lookup_app_l in Hk by done. by destruct (lookup_lt_is_Some_2 blocks (S i)) as [b1 E1]; [|rewrite E1 in *].
    + rewrite lookup_app_r in Hk by lia. replace (S i - length blocks)%nat with 0%nat in Hk by lia.
      by rewrite (lookup_ge_None_2 blocks) by lia.
  - by rewrite take_app_le by lia.
Qed.

Lemma flush_step tb blocks ix cur d :
  tg_ok tb blocks ix cur d -> total_ok (all_kvs blocks cur) -> cur <> [] ->
  exists tb' d' h, ldb_tablegen_flush wops tb = Some tb' /\ tg_ok tb' (blocks ++ [(cur, h)]) ix [] d' /\
    tb_last_key tb' = tb_last_key tb.
Proof.
  intros H Ht Hne. destruct (tg_size _ _ _ _ _ H Ht) as (Hd & Hn & Hb). pose proof (ok_writing _ _ _ _ _ H) as W.
  pose proof (ok_pending _ _ _ _ _ H) as Hp. pose proof W as (_ & Eo & Es).
  unfold ldb_tablegen_flush. rewrite (ok_open _ _ _ _ _ H), Es. change (negb (LDB_OK =? LDB_OK)) with false. cbv iota.
  rewrite (ok_data _ _ _ _ _ H), add_all_empty, bool_decide_eq_false_2 by done.
  destruct (tb_pending_index_entry tb); [by destruct Hp as [-> _]|]. destruct Hp as [Hlen _].
  destruct (write_block_ok tb d (blockgen_add_all (ldb_blockgen_init interval) cur) W) as
    (file & d' & h & -> & R' & [x He] & Hst & Ho & Hz); [fold (build_block interval cur); lia|lia|].
  fold (build_block interval cur) in *. rewrite reset_finish. cbn [mbind option_bind].
  cbn [tb_status set_pending set_data_block set_output]. rewrite Z.eqb_refl.
  destruct (wlaws_flush file d' R') as (f2 & E2 & R2). cbn [tb_file set_pending set_data_block set_output]. rewrite E2.
  pose proof (filter_flush _ _ _ _ (zlen d') h (ok_filter _ _ _ _ _ H) Ho ltac:(lia) ltac:(lia)) as Hf.
  cbn [tb_filter_block tb_offset set_pending set_data_block set_output].
  assert (forall fbo, filter_inv fbo (blocks ++ [(cur, h)]) [] (zlen d') ->
    tg_ok (set_filter (set_output (set_pending (set_pending (set_data_block (set_output tb file (zlen d') LDB_OK)
      (ldb_blockgen_init interval)) false h) true h) f2 (zlen d') LDB_OK) fbo) (blocks ++ [(cur, h)]) ix [] d') as Hall.
  { intros fbo Hfbo. pose proof (ok_blocks _ _ _ _ _ H) as Hbs. split; cbn.
    - apply (ok_options _ _ _ _ _ H).
    - by split.
    - apply (ok_open _ _ _ _ _ H).
    - done.
    - apply (ok_index _ _ _ _ _ H).
    - apply List.Forall_app. split; [|by repeat constructor]. eapply List.Forall_impl; [|exact Hbs].
      intros b [? Hb']. split; [done|]. rewrite He. by apply stored_app.
    - rewrite map_app. apply StronglySorted_app_2; [|apply (ok_offsets _ _ _ _ _ H)|by repeat constructor].
      intros o1 o2 (b & -> & Hin)%list_elem_of_fmap Ho2%list_elem_of_singleton. cbn in Ho2. subst o2.
      rewrite List.Forall_forall in Hbs. apply list_elem_of_In in Hin. destruct (Hbs b Hin) as [_ Hb'].
      apply stored_range in Hb'. unfold LDB_TRAILER_SIZE in Hb'. lia.
    - split; [done|]. rewrite length_app. cbn. split; [lia|]. exists (cur, h). by rewrite list.last_snoc.
    - apply ix_inv_flush; [apply (ok_ix _ _ _ _ _ H)|done].
    - rewrite all_kvs_flush. apply (ok_num _ _ _ _ _ H).
    - done.
    - pose proof (ok_size _ _ _ _ _ H). pose proof (build_block_size interval cur).
      rewrite finished_app, pairs_cost_app, zlen_app. unfold finished at 2. cbn [map concat fst]. rewrite app_nil_r.
      change (zlen [(cur, h)]) with 1. lia. }
  destruct (tb_filter_block tb) as [fb|] eqn:Efb.
  - destruct Hf as (fb' & -> & Hf'). cbn [mbind option_bind]. eexists _, d', h. split; [reflexivity|]. by split; [apply Hall|].
  - eexists _, d', h. split; [reflexivity|]. split; [|done]. specialize (Hall None Hf).
    unfold set_filter in Hall. rewrite <- Efb in Hall. exact Hall.
Qed.

(** Whatever the current block holds. *)
Lemma flush_ok tb blocks ix cur d :
  tg_ok tb blocks ix cur d -> total_ok (all_kvs blocks cur) ->
  exists tb' blocks' d', ldb_tablegen_flush wops tb = Some tb' /\ tg_ok tb' blocks' ix [] d' /\
    all_kvs blocks' [] = all_kvs blocks cur /\ tb_last_key tb' = tb_last_key tb.
Proof.
  intros H Ht. destruct (decide (cur = [])) as [->|Hne].
  - exists tb, blocks, d. split; [|done]. unfold ldb_tablegen_flush. pose proof (ok_writing _ _ _ _ _ H) as (_ & _ & Es).
    rewrite (ok_open _ _ _ _ _ H), Es, (ok_data _ _ _ _ _ H), add_all_empty. done.
  - destruct (flush_step _ _ _ _ _ H Ht Hne) as (tb' & d' & h & E & H' & Hl). exists tb', (blocks ++ [(cur, h)]), d'.
    split; [done|]. split; [done|]. split; [apply all_kvs_flush|done].
Qed.

(** *** The index entry of a finished block *)

Lemma sorted_last kvs kv kv' : sorted_pairs cmp (kvs ++ [kv]) -> kv' ∈ kvs -> ldb_compare cmp kv'.1 kv.1 < 0.
Proof. intros Hs Hin. apply (StronglySorted_app_1_elem_of _ _ _ kv' kv Hs Hin). by left. Qed.

(** Extending the index by an entry for the last block. *)
Lemma ix_inv_extend blocks b ix key :
  ix_inv (blocks ++ [b]) ix [] -> length ix = length blocks -> dom key ->
  (forall kv, kv ∈ b.1 -> ldb_compare cmp kv.1 key <= 0) -> zlen key + 19 <= pairs_cost b.1 -> ldb_handle_size b.2 <= 20 ->
  ix_inv (blocks ++ [b]) (ix ++ [(key, handle_bytes b.2)]) [].
Proof.
  intros [Hent Hab Hcur Hsep Hcost] Hl Hd Hle Hc Hh. split.
  - intros i e [Hi|[Hge Hi]]%lookup_app_Some; [by apply Hent|]. apply list_lookup_singleton_Some in Hi as [Hz <-].
    exists b. replace i with (length blocks + 0)%nat by lia. rewrite lookup_app_r, Nat.add_0_r, Nat.sub_diag by lia. by split.
  - intros i e j b' kv [Hi|[Hge Hi]]%lookup_app_Some Hij Hj; [by eapply Hab|].
    apply lookup_lt_Some in Hj. rewrite length_app in Hj. cbn in Hj. lia.
  - by intros e kv _ ?%not_elem_of_nil.
  - intros i e b' kv [Hi|[Hge Hi]]%lookup_app_Some Hb Hk; [by eapply Hsep|]. apply list_lookup_singleton_Some in Hi as [Hz <-].
    unfold next_head in Hk. by rewrite lookup_ge_None_2 in Hk by (rewrite length_app; cbn; lia).
  - rewrite length_app, Nat.add_comm. cbn [length Nat.add]. rewrite take_ge by (rewrite length_app; cbn; lia).
    rewrite Hl, take_app_length in Hcost. rewrite finished_app, !pairs_cost_app, zlen_app.
    unfold finished at 2. cbn [map concat]. rewrite app_nil_r. unfold pairs_cost at 2. cbn [foldr]. unfold pair_cost. cbn [fst snd].
    rewrite zlen_handle_bytes. change (zlen [(key, handle_bytes b.2)]) with 1. lia.
Qed.

Lemma pairs_cost_elem kv kvs : kv ∈ kvs -> pair_cost kv <= pairs_cost kvs.
Proof.
  intros (kvs1 & kvs2 & ->)%list_elem_of_split. rewrite pairs_cost_app. change (pairs_cost (kv :: kvs2)) with (pair_cost kv + pairs_cost kvs2).
  pose proof (pairs_cost_nonneg kvs1). pose proof (pairs_cost_nonneg kvs2). lia.
Qed.

Lemma total_app kvs kvs' : total_ok (kvs ++ kvs') -> total_ok kvs.
Proof. unfold total_ok. rewrite pairs_cost_app, zlen_app. pose proof (pairs_cost_nonneg kvs'). pose proof (zlen_nonneg kvs'). nia. Qed.

(** The last key is the largest. *)
Lemma last_max kvs kv kv' : sorted_pairs cmp kvs -> Forall (fun kv => dom kv.1) kvs ->
  list.last kvs = Some kv -> kv' ∈ kvs -> ldb_compare cmp kv'.1 kv.1 <= 0.
Proof.
  intros Hs Hd (kvs' & ->)%list.last_Some Hin. apply List.Forall_app in Hd as [_ Hd]. apply List.Forall_inv in Hd.
  apply elem_of_app in Hin as [Hin| ->%list_elem_of_singleton].
  - pose proof (sorted_last _ _ _ Hs Hin). lia.
  - rewrite (compare_refl dom cmp) by done. lia.
Qed.

(** The block that waits for its index entry. *)
Lemma pending_block tb blocks ix cur d :
  tg_ok tb blocks ix cur d -> tb_pending_index_entry tb = true ->
  exists bs b lk v, blocks = bs ++ [b] /\ cur = [] /\ length bs = length ix /\ tb_pending_handle tb = b.2 /\
    list.last b.1 = Some (lk, v) /\ list.last (all_kvs blocks cur) = Some (lk, v).
Proof.
  intros H Hp. pose proof (ok_pending _ _ _ _ _ H) as Hpe. rewrite Hp in Hpe. destruct Hpe as (-> & Hl & b & Hb & Hh).
  apply list.last_Some in Hb as [bs ->]. pose proof (ok_blocks _ _ _ _ _ H) as Hbs.
  apply List.Forall_app in Hbs as [_ Hbs]. apply List.Forall_inv in Hbs as [Hne _].
  destruct (list.last b.1) as [[lk v]|] eqn:El; [|by apply list.last_None in El]. rewrite length_app in Hl. cbn in Hl.
  exists bs, b, lk, v. do 2 (split; [done|]). split; [lia|]. do 2 (split; [done|]).
  unfold all_kvs. rewrite app_nil_r, finished_app. unfold finished at 2. cbn [map concat]. rewrite app_nil_r.
  apply list.last_Some in El as [l' ->]. by rewrite app_assoc, list.last_snoc.
Qed.

Lemma in_blocks blocks b cur kv : b ∈ blocks -> kv ∈ b.1 -> kv ∈ all_kvs blocks cur.
Proof.
  intros (b1 & b2 & ->)%list_elem_of_split Hkv. unfold all_kvs. rewrite finished_app. unfold finished at 2. cbn [map concat].
  rewrite !elem_of_app. auto.
Qed.

(** Its entry, with a key that separates. *)
Lemma index_entry_step tb bs b ix d sep lk v :
  tg_ok tb (bs ++ [b]) ix [] d -> tb_pending_handle tb = b.2 -> length bs = length ix ->
  total_ok (all_kvs (bs ++ [b]) []) -> list.last b.1 = Some (lk, v) -> dom sep -> zlen sep <= zlen lk ->
  (forall kv, kv ∈ b.1 -> ldb_compare cmp kv.1 sep <= 0) ->
  ldb_handle_export [] (tb_pending_handle tb) = Some (handle_bytes b.2) /\
  ldb_blockgen_add (tb_index_block tb) sep (handle_bytes b.2) =
    blockgen_add_all (ldb_blockgen_init 1) (ix ++ [(sep, handle_bytes b.2)]) /\
  ix_inv (bs ++ [b]) (ix ++ [(sep, handle_bytes b.2)]) [].
Proof.
  intros H Hh Hl Ht Hlast Hd Hz Hle. destruct (tg_size _ _ _ _ _ H Ht) as (Hds & _ & _).
  pose proof (ok_blocks _ _ _ _ _ H) as Hbs. apply List.Forall_app in Hbs as [_ Hbs]. apply List.Forall_inv in Hbs as [_ Hst].
  rewrite Hh. unfold ldb_handle_export. rewrite handle_write_ok by (eapply stored_handle_ok; [done|lia]). split; [done|].
  rewrite (ok_index _ _ _ _ _ H), add_all_snoc. split; [done|].
  apply ix_inv_extend; try done; [apply (ok_ix _ _ _ _ _ H)| |apply handle_size_range].
  pose proof (pairs_cost_elem (lk, v) b.1) as Hc. unfold pair_cost in Hc. cbn [fst snd] in Hc.
  pose proof (zlen_nonneg v). enough ((lk, v) ∈ b.1) by (specialize (Hc ltac:(done)); lia).
  apply list.last_Some in Hlast as [l' ->]. apply elem_of_app. right. by left.
Qed.

(** Every index key is below a key above all pairs, if each block that has an
    entry is followed by a pair. *)
Lemma ix_below blocks ix cur key :
  ix_inv blocks ix cur -> (forall e, e ∈ ix -> dom e.1) -> dom key -> Forall (fun kv => dom kv.1) (all_kvs blocks cur) ->
  (forall kv, kv ∈ all_kvs blocks cur -> ldb_compare cmp kv.1 key < 0) -> Forall (fun b => b.1 <> []) blocks ->
  cur <> [] \/ (length ix < length blocks)%nat ->
  forall e, e ∈ ix -> ldb_compare cmp e.1 key < 0.
Proof.
  intros Hix Hde Hdk Hda Hlt Hne Hor e He. rewrite List.Forall_forall in Hda.
  assert (exists kv, kv ∈ all_kvs blocks cur /\ ldb_compare cmp e.1 kv.1 < 0) as (kv & Hkv & Hek).
  { destruct Hor as [Hc|Hl].
    - destruct cur as [|kv cur]; [done|]. exists kv. split; [apply elem_of_app; right; by left|]. eapply (ix_above_cur _ _ _ Hix); [done|by left].
    - apply list_elem_of_lookup in He as [i Hi]. pose proof (lookup_lt_Some _ _ _ Hi).
      destruct (lookup_lt_is_Some_2 blocks (length ix) Hl) as [b Hb]. rewrite List.Forall_forall in Hne.
      assert (b ∈ blocks) as Hin by (by eapply list_elem_of_lookup_2).
      specialize (Hne b (proj1 (list_elem_of_In _ _) Hin)). destruct b.1 as [|kv kvs] eqn:Eb; [done|].
      assert (kv ∈ b.1) as Hkv by (rewrite Eb; by left). exists kv. split; [by eapply in_blocks|].
      by eapply (ix_above _ _ _ Hix _ _ (length ix)). }
  eapply (compare_lt_trans dom cmp _ kv.1); try done; [by apply Hde| |by apply Hlt].
  apply Hda, list_elem_of_In, Hkv.
Qed.

Lemma ix_dom_ok blocks ix cur : ix_inv blocks ix cur -> forall e, e ∈ ix -> dom e.1.
Proof. intros H e (i & Hi)%list_elem_of_lookup. by destruct (ix_entry _ _ _ H _ _ Hi) as (_ & _ & _ & ? & _). Qed.

(** *** Adding a pair *)

Lemma add_index_entry_ok tb blocks ix cur d key :
  tg_ok tb blocks ix cur d -> last_ok tb (all_kvs blocks cur) -> total_ok (all_kvs blocks cur) ->
  sorted_pairs cmp (all_kvs blocks cur) -> Forall (fun kv => dom kv.1) (all_kvs blocks cur) -> dom key ->
  (forall kv, kv ∈ all_kvs blocks cur -> ldb_compare cmp kv.1 key < 0) ->
  exists ix' last, add_index_entry cmp tb key =
      Some (set_tb_index tb (blockgen_add_all (ldb_blockgen_init 1) ix') last false) /\
    length ix' = length blocks /\ ix_inv blocks ix' cur /\ (forall e, e ∈ ix' -> ldb_compare cmp e.1 key < 0) /\
    (cur = [] -> forall i e b, ix' !! i = Some e -> blocks !! i = Some b -> blocks !! S i = None ->
      exists s, s ∈ b.1 /\ e.1 = ldb_shortest_separator cmp s.1 key).
Proof.
  intros H Hlast Ht Hs Hd Hdk Hlt. pose proof (ok_ix _ _ _ _ _ H) as Hix. pose proof (ok_blocks _ _ _ _ _ H) as Hbs.
  assert (Forall (fun b => b.1 <> []) blocks) as Hne by (eapply List.Forall_impl; [|exact Hbs]; by intros b [? _]).
  pose proof (ix_dom_ok _ _ _ Hix) as Hixd. unfold add_index_entry. destruct (tb_pending_index_entry tb) eqn:Ep.
  - destruct (pending_block _ _ _ _ _ H Ep) as (bs & b & lk & v & -> & -> & Hl & Hh & Hb & Ha).
    rewrite (ok_data _ _ _ _ _ H). change (negb (ldb_blockgen_empty (blockgen_add_all (ldb_blockgen_init interval) []))) with false. cbv iota.
    assert ((lk, v) ∈ all_kvs (bs ++ [b]) []) as Hin.
    { apply list.last_Some in Ha as [l' ->]. apply elem_of_app. right. by left. }
    assert (dom lk) as Hdl by (rewrite List.Forall_forall in Hd; apply (Hd (lk, v)), list_elem_of_In, Hin).
    pose proof (Hlt _ Hin) as Hlk. cbn [fst] in Hlk. rewrite (Hlast _ Ha). cbn [fst].
    destruct (separator_between lk key Hdl Hdk Hlk) as (Hds & Hs1 & Hs2).
    destruct (index_entry_step tb bs b ix d (ldb_shortest_separator cmp lk key) lk v H Hh Hl Ht Hb Hds) as (E1 & E2 & Hix').
    { by apply (separator_short (dom := dom)). }
    { intros kv Hkv. assert (kv ∈ all_kvs (bs ++ [b]) []) as Hkv'.
      { eapply in_blocks; [|done]. apply elem_of_app. right. by left. }
      apply (compare_trans (dom := dom) _ lk); try done; [rewrite List.Forall_forall in Hd; apply Hd, list_elem_of_In, Hkv'|].
      by apply (last_max _ (lk, v) kv Hs Hd Ha). }
    rewrite E1. cbn [mbind option_bind]. rewrite E2. eexists _, _. split; [reflexivity|].
    rewrite !length_app. cbn [length]. split; [lia|]. split; [done|]. split.
    + intros e [He| ->%list_elem_of_singleton]%elem_of_app; [|done].
      eapply (ix_below (bs ++ [b]) ix []); try done. right. rewrite length_app. cbn. lia.
    + intros _ i e b' Hi Hb' Hn. apply lookup_ge_None in Hn. rewrite length_app in Hn. cbn in Hn.
      pose proof (lookup_lt_Some _ _ _ Hb') as Hlt'. rewrite length_app in Hlt'. cbn in Hlt'.
      assert (i = length bs) as -> by lia. rewrite Hl, list_lookup_middle in Hi by done. rewrite list_lookup_middle in Hb' by done.
      injection Hi as <-. injection Hb' as <-. exists (lk, v). split; [|done].
      apply list.last_Some in Hb as [l' ->]. apply elem_of_app. right. by left.
  - pose proof (ok_pending _ _ _ _ _ H) as Hp. rewrite Ep in Hp. destruct Hp as [Hl Hc].
    exists ix, (tb_last_key tb). rewrite <- (ok_index _ _ _ _ _ H). split; [unfold set_tb_index; rewrite <- Ep; by destruct tb|].
    split; [done|]. split; [done|]. destruct (decide (cur = [])) as [->|Hcur].
    + pose proof (Hc eq_refl) as ->. destruct ix; [|done]. split; [by intros e ?%not_elem_of_nil|]. intros _ i e b Hi. by rewrite lookup_nil in Hi.
    + split; [|by intros ->]. eapply ix_below; try done. by left.
Qed.

Lemma add_ok tb blocks ix cur d key value :
  let kvs := all_kvs blocks cur ++ [(key, value)] in
  tg_ok tb blocks ix cur d -> last_ok tb (all_kvs blocks cur) -> total_ok kvs ->
  sorted_pairs cmp kvs -> Forall (fun kv => dom kv.1) kvs ->
  exists tb' blocks' ix' cur' d', ldb_tablegen_add wops tb key value = Some tb' /\ tg_ok tb' blocks' ix' cur' d' /\
    last_ok tb' kvs /\ all_kvs blocks' cur' = kvs.
Proof.
  intros kvs H Hlast Ht Hs Hd. pose proof (ok_writing _ _ _ _ _ H) as (R & Eo & Es).
  assert (forall kv, kv ∈ all_kvs blocks cur -> ldb_compare cmp kv.1 key < 0) as Hlt by (intros kv Hkv; apply (sorted_last _ _ _ Hs Hkv)).
  pose proof (proj1 (List.Forall_app _ _ _) Hd) as [Hd' Hdk]. apply List.Forall_inv in Hdk. cbn [fst] in Hdk.
  unfold ldb_tablegen_add. rewrite (ok_open _ _ _ _ _ H), Es, (ok_options _ _ _ _ _ H), options_cmp. cbn [mbind option_bind].
  change (negb (LDB_OK =? LDB_OK)) with false. cbv iota.
  assert ((if 0 <? tb_num_entries tb then negb (0 <? ldb_compare cmp key (tb_last_key tb)) else false) = false) as ->.
  { rewrite (ok_num _ _ _ _ _ H). destruct (list.last (all_kvs blocks cur)) as [kv|] eqn:El.
    - rewrite (Hlast _ El). assert (kv ∈ all_kvs blocks cur) as Hin.
      { apply list.last_Some in El as [l' ->]. apply elem_of_app. right. by left. }
      assert (dom kv.1) by (rewrite List.Forall_forall in Hd'; apply Hd', list_elem_of_In, Hin).
      rewrite (proj2 (Z.ltb_lt 0 (ldb_compare cmp key kv.1))); [by destruct (0 <? _)|].
      apply (compare_lt_flip dom); [done..|]. by apply Hlt.
    - apply list.last_None in El. by rewrite El. }
  destruct (add_index_entry_ok tb blocks ix cur d key H Hlast (total_app _ _ Ht)) as (ix' & last & -> & Hl & Hix & Hek & Hsk); try done.
  { by apply StronglySorted_app_1_l in Hs. }
  cbn [mbind option_bind].
  pose proof (filter_add _ _ _ _ key value (ok_filter _ _ _ _ _ H) Hdk) as Hf.
  change (tb_filter_block (set_tb_index tb (blockgen_add_all (ldb_blockgen_init 1) ix') last false)) with (tb_filter_block tb).
  set (tb1 := match tb_filter_block tb with Some fb => set_filter _ _ | None => _ end).
  assert (exists fbo, tb1 = set_filter (set_tb_index tb (blockgen_add_all (ldb_blockgen_init 1) ix') last false) fbo /\
    filter_inv fbo blocks (cur ++ [(key, value)]) (zlen d)) as (fbo & E1 & Hf').
  { subst tb1. destruct (tb_filter_block tb) as [fb|] eqn:Efb; eexists; (split; [|exact Hf]); [done|].
    unfold set_filter, set_tb_index. cbn. by rewrite <- Efb. }
  clearbody tb1. subst tb1.
  set (tb2 := set_data_block _ _).
  assert (tg_ok tb2 blocks ix' (cur ++ [(key, value)]) d) as H2.
  { subst tb2. split; cbn; try apply H.
    - rewrite (ok_data _ _ _ _ _ H). apply add_all_snoc.
    - done.
    - split; [done|]. intros Hnil. by destruct cur.
    - destruct Hix as [Hent Hab Hcur Hsep Hcost]. split; try done.
      + intros e kv He [Hkv| ->%list_elem_of_singleton]%elem_of_app; [by apply Hcur|by apply Hek].
      + intros i e b kv Hi Hb Hk. specialize (Hsep i e b kv Hi Hb). unfold next_head in *.
        destruct (blocks !! S i) as [b'|] eqn:En; [by apply Hsep|]. destruct cur as [|kv0 cur]; [|by apply Hsep].
        cbn in Hk. injection Hk as <-. by apply (Hsk eq_refl i e b).
    - rewrite all_kvs_snoc, zlen_app, (ok_num _ _ _ _ _ H). done.
    - done. }
  assert (last_ok tb2 kvs) as Hl2 by (intros kv; unfold kvs; rewrite list.last_snoc; by intros [= <-]).
  assert (all_kvs blocks (cur ++ [(key, value)]) = kvs) as Ek by apply all_kvs_snoc.
  destruct (_ <=? _).
  - destruct (flush_ok tb2 _ _ _ _ H2) as (tb' & blocks' & d' & E & H' & Ek' & El'); [by rewrite Ek|].
    exists tb', blocks', ix', [], d'. split; [done|]. split; [done|]. split; [|by rewrite Ek'].
    intros kv Hkv. rewrite El'. by apply Hl2.
  - by exists tb2, blocks, ix', (cur ++ [(key, value)]), d.
Qed.

Lemma add_all_ok kvs : forall tb blocks ix cur d,
  tg_ok tb blocks ix cur d -> last_ok tb (all_kvs blocks cur) -> total_ok (all_kvs blocks cur ++ kvs) ->
  sorted_pairs cmp (all_kvs blocks cur ++ kvs) -> Forall (fun kv => dom kv.1) (all_kvs blocks cur ++ kvs) ->
  exists tb' blocks' ix' cur' d', tablegen_add_all wops tb kvs = Some tb' /\ tg_ok tb' blocks' ix' cur' d' /\
    last_ok tb' (all_kvs blocks cur ++ kvs) /\ all_kvs blocks' cur' = all_kvs blocks cur ++ kvs.
Proof.
  induction kvs as [|[k v] kvs IH]; intros tb blocks ix cur d H Hl Ht Hs Hd.
  { rewrite app_nil_r in *. by exists tb, blocks, ix, cur, d. }
  replace (all_kvs blocks cur ++ (k, v) :: kvs) with ((all_kvs blocks cur ++ [(k, v)]) ++ kvs) in * by by rewrite <- app_assoc.
  destruct (add_ok tb blocks ix cur d k v H Hl) as (tb1 & blocks1 & ix1 & cur1 & d1 & E1 & H1 & Hl1 & Ek).
  { by apply total_app in Ht. }
  { by apply StronglySorted_app_1_l in Hs. }
  { by apply List.Forall_app in Hd as [? _]. }
  rewrite <- Ek in Ht, Hs, Hd, Hl1. destruct (IH tb1 blocks1 ix1 cur1 d1) as (tb' & blocks' & ix' & cur' & d' & E' & H' & Hl' & Ek'); try done.
  rewrite Ek in Ek', Hl'. exists tb', blocks', ix', cur', d'. split; [|done].
  unfold tablegen_add_all. cbn [fold_left mbind option_bind fst snd]. by rewrite E1.
Qed.

Lemma tablegen_init_ok file : wrep file [] ->
  exists tb, ldb_tablegen_init options file = Some tb /\ tg_ok tb [] [] [] [] /\ last_ok tb (all_kvs [] []).
Proof.
  intros R. unfold ldb_tablegen_init.
  assert (forall fbo, filter_inv fbo [] [] 0 -> tg_ok (Tablegen options file 0 LDB_OK (ldb_blockgen_init interval)
    (ldb_blockgen_init 1) [] 0 false fbo false ldb_handle_init) [] [] [] []) as Hall.
  { intros fbo Hf. split; cbn; try done; [constructor|]. split; [| |by intros e kv ?%not_elem_of_nil| |done].
    - intros i e Hi. by rewrite lookup_nil in Hi.
    - intros i e j b kv Hi. by rewrite lookup_nil in Hi.
    - intros i e b kv Hi. by rewrite lookup_nil in Hi. }
  unfold filter_inv in Hall. destruct (opt_filter_policy options) as [p|] eqn:Ep; cbn [mbind option_bind].
  - change (ldb_filtergen_start_block (ldb_filtergen_init p) 0) with (Some (ldb_filtergen_init p)). cbn [mbind option_bind].
    eexists. split; [reflexivity|]. split; [|done]. apply Hall. eexists. split; [done|]. split; [done|].
    split; [apply init_ok|]. change (0 + 2 * c * 0 <= 2 * c * 0). lia.
  - eexists. split; [reflexivity|]. split; [by apply Hall|done].
Qed.

(** *** Finishing *)

(** What the steps of [ldb_tablegen_finish] before the index leave alone. *)
Record kept (tb tb' : tablegen F) : Prop := {
  kept_options : tb_options tb' = tb_options tb;
  kept_index : tb_index_block tb' = tb_index_block tb;
  kept_last : tb_last_key tb' = tb_last_key tb;
  kept_pending : tb_pending_index_entry tb' = tb_pending_index_entry tb;
  kept_handle : tb_pending_handle tb' = tb_pending_handle tb
}.

(** The filter block at [fh] answers for every key. *)
Definition filter_stored (d : bytes) (fh : handle) (blocks : list (pairs * handle)) : Prop :=
  match opt_filter_policy options with
  | None => True
  | Some p => exists data fr, stored d fh data /\ zlen data < 2 ^ 32 /\ ldb_filter_init p data = Some fr /\
      forall o k, (o, k) ∈ seen_keys blocks [] 0 -> ldb_filter_matches fr o k = Some true
  end.

Definition meta_pairs (fh : handle) : pairs :=
  match opt_filter_policy options with
  | None => []
  | Some p => match ldb_bloom_name p 72 with Some name => [(cstr name, handle_bytes fh)] | None => [] end
  end.

Lemma write_filter_ok tb d blocks :
  writing tb d -> filter_inv (tb_filter_block tb) blocks [] (zlen d) -> zlen d < 2 ^ 29 -> total_ok (all_kvs blocks []) ->
  exists tb' fh d', write_filter_block wops tb = (tb', fh) /\ writing tb' d' /\ (exists e, d' = d ++ e) /\ zlen d' < 2 ^ 30 /\
    kept tb tb' /\ filter_stored d' fh blocks /\
    (match opt_filter_policy options with Some _ => exists fb, tb_filter_block tb' = Some fb | None => tb_filter_block tb' = None end).
Proof.
  intros W Hf Hd Ht. pose proof W as (_ & _ & Es). unfold write_filter_block. rewrite Es, Z.eqb_refl.
  unfold filter_inv, filter_stored in *. destruct (opt_filter_policy options) as [p|] eqn:Ep.
  - destruct Hf as (fb & -> & Hp & Hok & Hsz). destruct (options_policy p eq_refl) as (HP & HS & _).
    pose proof (finish_size p c c_nonneg fb Hp) as Hfs.
    assert (zlen (fg_offsets fb) * 2048 <= zlen d) as Hoff.
    { destruct Hok as (groups & cur & filters & R & _ & Hn & _). rewrite (rep_count _ _ _ _ _ R), Hn.
      change LDB_FILTER_BASE with 2048. pose proof (Z.mul_div_le (zlen d) 2048 ltac:(lia)). lia. }
    destruct (ldb_filtergen_finish fb) as [data fb'] eqn:Efin. cbn [fst] in Hfs.
    pose proof (pairs_cost_nonneg (all_kvs blocks [])). unfold total_ok in Ht.
    destruct (write_raw_block_ok (set_filter tb (Some fb')) d data LDB_NO_COMPRESSION W) as (file & -> & R');
      [unfold LDB_TRAILER_SIZE; lia|].
    destruct (finish_ok dom p fb _ _ _ _ Hok ltac:(unfold zlen; rewrite length_seen; unfold zlen in *; pose proof (pairs_cost_length (all_kvs blocks [])); unfold zlen in *; nia) Efin) as (fr & Efr & Hm); [lia|].
    eexists _, _, (d ++ stored_block (compression_num LDB_NO_COMPRESSION) data). split; [reflexivity|]. split.
    { split; [done|]. split; [|done]. by rewrite zlen_app, zlen_stored_block. }
    split; [by eexists|]. split; [rewrite zlen_app, zlen_stored_block; unfold LDB_TRAILER_SIZE; lia|].
    split; [done|]. split; [|by eexists]. exists data, fr. split; [|split; [lia|split; [done|exact Hm]]].
    exists d, (compression_num LDB_NO_COMPRESSION), data, []. rewrite app_nil_r. split; [done|]. split; [done|]. by left.
  - rewrite Hf. eexists _, _, d. split; [reflexivity|]. split; [done|]. split; [exists []; by rewrite app_nil_r|]. split; [lia|].
    by split.
Qed.

Lemma meta_cost fh : pairs_cost (meta_pairs fh) <= 111.
Proof.
  unfold meta_pairs. generalize (opt_filter_policy options). intros [p|]; [|done]. unfold ldb_bloom_name.
  destruct (Z.ltb_spec 72 (7 + Z.of_nat (String.length (bloom_name p)) + 1)) as [|Hz]; [done|].
  unfold pairs_cost, foldr, pair_cost. cbn [fst snd]. rewrite zlen_handle_bytes. pose proof (handle_size_range fh).
  unfold LDB_HANDLE_SIZE in *. rewrite zlen_cstr, length_append.
  change (String.length "filter.") with 7%nat. lia.
Qed.

Lemma write_meta_ok tb d fh blocks :
  writing tb d -> tb_options tb = options -> zlen d < 2 ^ 30 -> filter_stored d fh blocks ->
  (match opt_filter_policy options with Some _ => exists fb, tb_filter_block tb = Some fb | None => tb_filter_block tb = None end) ->
  exists tb' mh d', write_metaindex_block wops tb fh = Some (inr (tb', mh)) /\ writing tb' d' /\ (exists e, d' = d ++ e) /\
    zlen d' < 2 ^ 30 + 200 /\ kept tb tb' /\ stored d' mh (build_block interval (meta_pairs fh)) /\ h_offset mh = zlen d.
Proof.
  intros W Ho Hd Hst Hfb. pose proof W as (_ & _ & Es). unfold write_metaindex_block. rewrite Es, Z.eqb_refl, Ho.
  pose proof (build_block_size interval (meta_pairs fh)) as Hbs. pose proof (meta_cost fh).
  destruct (write_block_ok tb d (blockgen_add_all (ldb_blockgen_init interval) (meta_pairs fh)) W) as
    (file & d' & mh & E & R' & He & Hs & Hoff & Hz); [fold (build_block interval (meta_pairs fh)); lia|lia|].
  fold (build_block interval (meta_pairs fh)) in Hs, Hz.
  exists (set_output tb file (zlen d') LDB_OK), mh, d'. split; [|by repeat (split; [done || lia|])].
  unfold meta_pairs, filter_stored in *. destruct (opt_filter_policy options) as [p|] eqn:Ep.
  - destruct Hfb as [fb ->]. cbn [mbind option_bind]. destruct (options_policy p eq_refl) as (_ & _ & Hname).
    destruct (ldb_bloom_name p 72) as [name|]; [|done]. destruct Hst as (data & fr & Hst & _).
    unfold ldb_handle_export. rewrite handle_write_ok by (eapply stored_handle_ok; [done|lia]). cbn [mbind option_bind app].
    cbn [blockgen_add_all fold_left fst snd] in E. by rewrite E.
  - rewrite Hfb. cbn [mbind option_bind]. cbn [blockgen_add_all fold_left] in E. by rewrite E.
Qed.

Lemma ix_size blocks ix cur : ix_inv blocks ix cur -> length ix = length blocks -> total_ok (all_kvs blocks cur) ->
  Forall (fun b => b.1 <> []) blocks -> zlen (build_block 1 ix) < 2 ^ 30.
Proof.
  intros Hix Hl Ht Hne. pose proof (ix_cost _ _ _ Hix) as Hc. rewrite take_ge in Hc by lia. pose proof (blocks_le_pairs _ Hne).
  unfold total_ok, all_kvs in Ht. rewrite pairs_cost_app in Ht. pose proof (pairs_cost_nonneg cur). pose proof (zlen_nonneg (finished blocks ++ cur)).
  pose proof (build_block_size 1 ix). assert (zlen ix = zlen blocks) by (unfold zlen; lia). nia.
Qed.

(** The index block: [tb0] is the builder before the last steps. *)
Lemma write_index_ok tb0 tb blocks ix d0 d :
  tg_ok tb0 blocks ix [] d0 -> last_ok tb0 (all_kvs blocks []) -> total_ok (all_kvs blocks []) ->
  sorted_pairs cmp (all_kvs blocks []) -> Forall (fun kv => dom kv.1) (all_kvs blocks []) ->
  kept tb0 tb -> writing tb d -> zlen d < 2 ^ 39 ->
  exists tb' ih d' ix', write_index_block wops cmp tb = Some (tb', ih) /\ writing tb' d' /\ (exists e, d' = d ++ e) /\
    zlen d' <= zlen d + 2 ^ 30 + 5 /\ length ix' = length blocks /\ ix_inv blocks ix' [] /\ stored d' ih (build_block 1 ix').
Proof.
  intros H Hlast Ht Hs Hd [Ko Ki Kl Kp Kh] W Hsz. pose proof W as (R & Eo & Es). pose proof (ok_ix _ _ _ _ _ H) as Hix.
  assert (Forall (fun b => b.1 <> []) blocks) as Hne by (eapply List.Forall_impl; [|exact (ok_blocks _ _ _ _ _ H)]; by intros b [? _]).
  assert (exists ix' last, (if tb_pending_index_entry tb then
            handle_encoding ← ldb_handle_export [] (tb_pending_handle tb);
            Some (set_tb_index tb (ldb_blockgen_add (tb_index_block tb) (ldb_short_successor cmp (tb_last_key tb)) handle_encoding)
              (ldb_short_successor cmp (tb_last_key tb)) false)
          else Some tb) = Some (set_tb_index tb (blockgen_add_all (ldb_blockgen_init 1) ix') last false) /\
    length ix' = length blocks /\ ix_inv blocks ix' []) as (ix' & last & E & Hl & Hix').
  { rewrite Kp, Ki, Kl, Kh. destruct (tb_pending_index_entry tb0) eqn:Ep.
    - destruct (pending_block _ _ _ _ _ H Ep) as (bs & b & lk & v & -> & _ & Hl & Hh & Hb & Ha). rewrite (Hlast _ Ha). cbn [fst].
      assert (dom lk) as Hdl.
      { rewrite List.Forall_forall in Hd. apply (Hd (lk, v)). apply list_elem_of_In. apply list.last_Some in Ha as [l' ->].
        apply elem_of_app. right. by left. }
      destruct (successor_above lk Hdl) as [Hds Hs1].
      destruct (index_entry_step tb0 bs b ix d0 (ldb_short_successor cmp lk) lk v H Hh Hl Ht Hb Hds) as (E1 & E2 & Hix').
      { by apply (successor_short (dom := dom)). }
      { intros kv Hkv. assert (kv ∈ all_kvs (bs ++ [b]) []) as Hkv'.
        { eapply in_blocks; [|done]. apply elem_of_app. right. by left. }
        apply (compare_trans (dom := dom) _ lk); try done; [rewrite List.Forall_forall in Hd; apply Hd, list_elem_of_In, Hkv'|].
        by apply (last_max _ (lk, v) kv Hs Hd Ha). }
      rewrite E1. cbn [mbind option_bind]. rewrite E2. eexists _, _. split; [reflexivity|].
      rewrite !length_app. cbn [length]. split; [lia|done].
    - pose proof (ok_pending _ _ _ _ _ H) as Hp. rewrite Ep in Hp. destruct Hp as [Hl _].
      exists ix, (tb_last_key tb). rewrite <- (ok_index _ _ _ _ _ H), <- Ki. split; [|by split].
      unfold set_tb_index. rewrite <- Kp. by destruct tb. }
  unfold write_index_block. cbv zeta. rewrite Es, Z.eqb_refl, E. cbn [mbind option_bind].
  pose proof (ix_size _ _ _ Hix' Hl Ht Hne) as Hz.
  destruct (write_block_ok (set_tb_index tb (blockgen_add_all (ldb_blockgen_init 1) ix') last false) d
    (blockgen_add_all (ldb_blockgen_init 1) ix') W) as (file & d' & ih & E' & R' & He & Hst & _ & Hz'); [exact Hz|lia|].
  fold (build_block 1 ix') in Hst, Hz'. cbn [tb_index_block set_tb_index]. rewrite E'. cbn [mbind option_bind].
  eexists _, ih, d', ix'. split; [reflexivity|]. split; [done|]. split; [done|]. split; [lia|done].
Qed.

Lemma write_footer_ok tb d mh ih : writing tb d -> zlen d < 2 ^ 40 -> handle_ok mh -> handle_ok ih ->
  exists tb' foot, write_footer wops tb mh ih = Some tb' /\ writing tb' (d ++ foot) /\ zlen foot = LDB_FOOTER_SIZE /\
    ldb_footer_import foot = Some (Footer mh ih).
Proof.
  intros (R & Eo & Es) Hd Hm Hi. unfold write_footer. rewrite Es, Z.eqb_refl.
  destruct (footer_write_ok (Footer mh ih)) as (foot & Ef & Hz & Ei); [by split|]. unfold ldb_footer_export. rewrite Ef.
  cbn [mbind option_bind app]. destruct (wlaws_append _ d foot R) as (f' & -> & R'); [rewrite Hz; unfold LDB_FOOTER_SIZE, LDB_HANDLE_SIZE; lia|].
  eexists _, foot. split; [reflexivity|]. split; [|done]. split; [done|]. split; [|done]. cbn [tb_offset set_output].
  by rewrite Z.eqb_refl, zlen_app, Eo.
Qed.

(** What a finished table file holds. *)
Record table_image (kvs : pairs) (d : bytes) (blocks : list (pairs * handle)) (ix : pairs) (mh ih fh : handle) : Prop := {
  img_kvs : finished blocks = kvs;
  img_blocks : Forall (fun b => b.1 <> [] /\ stored d b.2 (build_block interval b.1)) blocks;
  img_offsets : StronglySorted Z.lt (map (fun b => h_offset b.2) blocks);
  img_ix : ix_inv blocks ix [];
  img_len : length ix = length blocks;
  img_index : stored d ih (build_block 1 ix);
  img_meta : stored d mh (build_block interval (meta_pairs fh));
  img_filter : filter_stored d fh blocks;
  img_meta_offset b : b ∈ blocks -> h_offset b.2 < h_offset mh;
  img_footer : exists pre foot, d = pre ++ foot /\ zlen foot = LDB_FOOTER_SIZE /\ ldb_footer_import foot = Some (Footer mh ih);
  img_size : zlen d < 2 ^ 32
}.

Lemma filter_stored_app d e fh blocks : filter_stored d fh blocks -> filter_stored (d ++ e) fh blocks.
Proof.
  unfold filter_stored. destruct (opt_filter_policy options); [|done]. intros (data & fr & H & Hr).
  exists data, fr. split; [by apply stored_app|done].
Qed.

Lemma finish_table_ok tb blocks ix cur d :
  tg_ok tb blocks ix cur d -> last_ok tb (all_kvs blocks cur) -> total_ok (all_kvs blocks cur) ->
  sorted_pairs cmp (all_kvs blocks cur) -> Forall (fun kv => dom kv.1) (all_kvs blocks cur) ->
  exists tb' d' blocks' ix' mh ih fh, ldb_tablegen_finish wops tb = Some (LDB_OK, tb') /\ wrep (tb_file tb') d' /\
    tb_offset tb' = zlen d' /\ table_image (all_kvs blocks cur) d' blocks' ix' mh ih fh.
Proof.
  intros H0 Hl0 Ht0 Hs0 Hd0. unfold ldb_tablegen_finish.
  destruct (flush_ok _ _ _ _ _ H0 Ht0) as (tb1 & blocks' & d1 & -> & H & Ek & Hl). cbn [mbind option_bind].
  assert (last_ok tb1 (all_kvs blocks' [])) as Hlast by (rewrite Ek; intros kv Hkv; rewrite Hl; by apply Hl0).
  rewrite <- Ek in *. destruct (tg_size _ _ _ _ _ H Ht0) as (Hd1 & _ & _).
  rewrite (ok_open _ _ _ _ _ H). change (tb_options (set_closed tb1)) with (tb_options tb1).
  rewrite (ok_options _ _ _ _ _ H), options_cmp. cbn [mbind option_bind].
  pose proof (ok_writing _ _ _ _ _ H) as W1.
  destruct (write_filter_ok (set_closed tb1) d1 blocks' W1 (ok_filter _ _ _ _ _ H) Hd1 Ht0) as
    (tb2 & fh & d2 & -> & W2 & [e2 E2] & Hz2 & K2 & Hf2 & Hfb).
  assert (kept tb1 tb2) as K2' by (destruct K2; by split). destruct K2' as [Ko Ki Kl Kp Kh].
  destruct (write_meta_ok tb2 d2 fh blocks' W2) as (tb3 & mh & d3 & -> & W3 & [e3 E3] & Hz3 & K3 & Hm & Hoff); try done.
  { rewrite Ko. apply (ok_options _ _ _ _ _ H). }
  assert (kept tb1 tb3) as K13 by (destruct K3; split; congruence). cbn [mbind option_bind].
  destruct (write_index_ok tb1 tb3 blocks' ix d1 d3 H Hlast Ht0 Hs0 Hd0 K13 W3) as
    (tb4 & ih & d4 & ix' & -> & W4 & [e4 E4] & Hz4 & Hlen & Hix & Hst); [lia|]. cbn [mbind option_bind].
  assert (stored d4 mh (build_block interval (meta_pairs fh))) as Hm4 by (rewrite E4; by apply stored_app).
  destruct (write_footer_ok tb4 d4 mh ih W4) as (tb5 & foot & -> & W5 & Hzf & Hif);
    [lia|eapply stored_handle_ok; [exact Hm4|lia]|eapply stored_handle_ok; [exact Hst|lia]|]. cbn [mbind option_bind].
  pose proof W5 as (R5 & Eo5 & Es5). rewrite Es5. exists tb5, (d4 ++ foot), blocks', ix', mh, ih, fh.
  split; [done|]. split; [done|]. split; [done|]. split.
  - unfold all_kvs. by rewrite app_nil_r.
  - eapply List.Forall_impl; [|exact (ok_blocks _ _ _ _ _ H)]. intros b [? Hb]. split; [done|].
    apply stored_app. rewrite E4, E3, E2, <- !app_assoc. by apply stored_app.
  - apply (ok_offsets _ _ _ _ _ H).
  - done.
  - done.
  - by apply stored_app.
  - by apply stored_app.
  - rewrite E4, E3, <- !app_assoc. by apply filter_stored_app.
  - intros b Hb. pose proof (ok_blocks _ _ _ _ _ H) as Hbs. rewrite List.Forall_forall in Hbs.
    destruct (Hbs b (proj1 (list_elem_of_In _ _) Hb)) as [_ Hr%stored_range]. rewrite Hoff, E2, zlen_app.
    pose proof (zlen_nonneg e2). unfold LDB_TRAILER_SIZE in Hr. lia.
  - by exists d4, foot.
  - rewrite zlen_app, Hzf. unfold LDB_FOOTER_SIZE, LDB_HANDLE_SIZE. lia.
Qed.

Lemma build_table_ok file kvs :
  wrep file [] -> total_ok kvs -> sorted_pairs cmp kvs -> Forall (fun kv => dom kv.1) kvs ->
  exists tb d blocks ix mh ih fh, build_table wops options file kvs = Some (LDB_OK, tb) /\ wrep (tb_file tb) d /\
    tb_offset tb = zlen d /\ table_image kvs d blocks ix mh ih fh.
Proof.
  intros R Ht Hs Hd. unfold build_table. destruct (tablegen_init_ok file R) as (tb0 & -> & H0 & Hl0). cbn [mbind option_bind].
  destruct (add_all_ok kvs tb0 [] [] [] [] H0 Hl0 Ht Hs Hd) as (tb1 & blocks1 & ix1 & cur1 & d1 & -> & H1 & Hl1 & Ek).
  change (all_kvs [] [] ++ kvs) with kvs in *. cbn [mbind option_bind]. rewrite <- Ek in *.
  by apply (finish_table_ok tb1 blocks1 ix1 cur1 d1).
Qed.
End Correct.
