(* ===== verification/Table.v ===== *)
(** * Tables

    Models [src/engine/src/table/table.h] and [table.c]: opening a table file,
    iterators over it, lookups through the filter, and offsets.  The block cache
    is what it answers and what is put into it: [block_cache] is [None] without
    a cache, else the lookup function at the time of the call, and the functions
    return the block they insert. *)

From stdpp Require Import strings sorting.
From S2P Require Import Prelude Coding Status Strutil Comparator Bloom Options File Iterator BlockBuilder Block IteratorWrapper TwoLevel FilterBlock Snappy Format TableBuilder DBFormat.
#[local] Open Scope Z_scope.

(** ** Tables *)

(** [ldb_table_t]; [filter_data] only says who frees the filter. *)
Record table (F : Type) := Table {
  tbl_options : dbopt;
  tbl_status : Z;
  tbl_file : F;
  tbl_cache_id : Z;
  tbl_filter : option filter;
  tbl_metaindex_handle : handle;
  tbl_index_block : block
}.
Arguments Table {F}.
Arguments tbl_options {F}.
Arguments tbl_status {F}.
Arguments tbl_file {F}.
Arguments tbl_cache_id {F}.
Arguments tbl_filter {F}.
Arguments tbl_metaindex_handle {F}.
Arguments tbl_index_block {F}.

(** An empty iterator or one over a block. *)
Abbreviation blockreader_iter := (Z + blockiter)%type.
Definition blockreader_table : iter_ops blockreader_iter := sum_iter_table ldb_emptyiter_table ldb_blockiter_table.

Section Table.
Context {F : Type} (rops : rfile_ops F) (malloc : Z -> bool).

(** The default options, verifying checksums if the table is paranoid. *)
Definition meta_readopt (options : dbopt) : readopt :=
  if opt_paranoid_checks options then Readopt true (ro_fill_cache ldb_readopt_default) else ldb_readopt_default.

(** The filter the table gets, if any; a failure to read it is no error. *)
Definition ldb_table_read_filter (options : dbopt) (file : F) (filter_handle_value : bytes) : option (option filter) :=
  match ldb_handle_import filter_handle_value with
  | None => Some None
  | Some filter_handle =>
    '(rc, block) ← ldb_read_block rops malloc file (meta_readopt options) filter_handle;
    if negb (rc =? LDB_OK) then Some None
    else
      filter_policy ← opt_filter_policy options;
      f ← ldb_filter_init filter_policy (ct_data block);
      Some (Some f)
  end.

Definition ldb_table_read_meta (options : dbopt) (file : F) (foot : footer) : option (option filter) :=
  match opt_filter_policy options with
  | None => Some None
  | Some policy =>
    match ldb_bloom_name policy 72 with
    | None => Some None
    | Some name =>
      '(rc, contents) ← ldb_read_block rops malloc file (meta_readopt options) (metaindex_handle foot);
      if negb (rc =? LDB_OK) then Some None
      else
        meta ← ldb_block_init (ct_data contents);
        iter ← ldb_blockiter_create meta bytewise_comparator;
        let key := cstr name in
        iter ← it_seek blockreader_table iter key;
        if it_valid blockreader_table iter then
          iter_key ← it_key blockreader_table iter;
          if bool_decide (iter_key = key) then
            iter_value ← it_value blockreader_table iter;
            ldb_table_read_filter options file iter_value
          else Some None
        else Some None
    end
  end.

(** [lru_id] is the identifier the cache hands out, 0 without a cache. *)
Definition ldb_table_open (options : dbopt) (file : F) (size : Z) (lru_id : Z) : option (Z * option (table F)) :=
  if size <? LDB_FOOTER_SIZE then Some (LDB_CORRUPTION, None)
  else
    let (rc, input) := rfile_pread rops file LDB_FOOTER_SIZE (size - LDB_FOOTER_SIZE) in
    if negb (rc =? LDB_OK) then Some (rc, None)
    else
      match ldb_footer_import input with
      | None => Some (LDB_CORRUPTION, None)
      | Some foot =>
        '(rc, contents) ← ldb_read_block rops malloc file (meta_readopt options) (index_handle foot);
        if rc =? LDB_OK then
          index_block ← ldb_block_init (ct_data contents);
          filter ← ldb_table_read_meta options file foot;
          Some (rc, Some (Table options LDB_OK file lru_id filter (metaindex_handle foot) index_block))
        else Some (rc, None)
      end.

(** The key of a block in the cache. *)
Definition block_cache_key (tbl : table F) (h : handle) : bytes :=
  fixed64_write (tbl_cache_id tbl) ++ fixed64_write (h_offset h).

(** The block an index value refers to, from the cache or the file, and what is
    inserted into the cache. *)
Definition find_block (block_cache : option (bytes -> option block)) (tbl : table F) (options : readopt) (index_value : bytes)
    : option ((Z + block) * option (bytes * block)) :=
  match ldb_handle_import index_value with
  | None => Some (inl LDB_CORRUPTION, None)
  | Some h =>
    match block_cache with
    | Some lookup =>
      let key := block_cache_key tbl h in
      match lookup key with
      | Some block => Some (inr block, None)
      | None =>
        '(rc, contents) ← ldb_read_block rops malloc (tbl_file tbl) options h;
        if rc =? LDB_OK then
          block ← ldb_block_init (ct_data contents);
          Some (inr block, if ct_cachable contents && ro_fill_cache options then Some (key, block) else None)
        else Some (inl rc, None)
      end
    | None =>
      '(rc, contents) ← ldb_read_block rops malloc (tbl_file tbl) options h;
      if rc =? LDB_OK then block ← ldb_block_init (ct_data contents); Some (inr block, None)
      else Some (inl rc, None)
    end
  end.

Section Reading.
Context (block_cache : option (bytes -> option block)).

Definition ldb_table_blockreader (tbl : table F) (options : readopt) (index_value : bytes) : option blockreader_iter :=
  '(r, _) ← find_block block_cache tbl options index_value;
  match r with
  | inl rc => Some (inl rc)
  | inr block => cmp ← opt_comparator (tbl_options tbl); ldb_blockiter_create block cmp
  end.

(** More turns than the index has entries. *)
Definition table_fuel (tbl : table F) : nat := S (Z.to_nat (blk_size (tbl_index_block tbl))).

Abbreviation tableiter := (@twoiter blockreader_iter blockreader_iter).

Definition ldb_tableiter_create (tbl : table F) (options : readopt) : option tableiter :=
  cmp ← opt_comparator (tbl_options tbl);
  iter ← ldb_blockiter_create (tbl_index_block tbl) cmp;
  ldb_twoiter_init blockreader_table blockreader_table iter.

Definition ldb_tableiter_table (tbl : table F) (options : readopt) : iter_ops tableiter :=
  ldb_twoiter_table blockreader_table blockreader_table (ldb_table_blockreader tbl options) (table_fuel tbl).

(** The status, and the pair [handle_result] is called with. *)
Definition ldb_table_internal_get (tbl : table F) (options : readopt) (k : bytes) : option (Z * option (bytes * bytes)) :=
  cmp ← opt_comparator (tbl_options tbl);
  index_iter ← ldb_blockiter_create (tbl_index_block tbl) cmp;
  index_iter ← it_seek blockreader_table index_iter k;
  '(rc, result) ← (
    if it_valid blockreader_table index_iter then
      iter_value ← it_value blockreader_table index_iter;
      not_found ← (match tbl_filter tbl, ldb_handle_import iter_value with
                   | Some f, Some h => m ← ldb_filter_matches f (h_offset h) k; Some (negb m)
                   | _, _ => Some false
                   end);
      if not_found : bool then Some (LDB_OK, None)
      else
        block_iter ← ldb_table_blockreader tbl options iter_value;
        block_iter ← it_seek blockreader_table block_iter k;
        result ← (if it_valid blockreader_table block_iter then
                    block_iter_key ← it_key blockreader_table block_iter;
                    block_iter_value ← it_value blockreader_table block_iter;
                    Some (Some (block_iter_key, block_iter_value))
                  else Some None);
        Some (it_status blockreader_table block_iter, result)
    else Some (LDB_OK, None));
  Some (if rc =? LDB_OK then it_status blockreader_table index_iter else rc, result).

Definition ldb_table_approximate_offset (tbl : table F) (key : bytes) : option Z :=
  cmp ← opt_comparator (tbl_options tbl);
  index_iter ← ldb_blockiter_create (tbl_index_block tbl) cmp;
  index_iter ← it_seek blockreader_table index_iter key;
  if it_valid blockreader_table index_iter then
    input ← it_value blockreader_table index_iter;
    match ldb_handle_import input with
    | Some h => Some (h_offset h)
    | None => Some (h_offset (tbl_metaindex_handle tbl))
    end
  else Some (h_offset (tbl_metaindex_handle tbl)).
End Reading.
End Table.

(** ** Iterators over built blocks *)

Lemma any_sum dom cmp kvs it p :
  any_rep ldb_blockiter_table dom cmp kvs it p -> any_rep blockreader_table dom cmp kvs (inr it) p.
Proof. intros (rep & L & R). eexists. split; [by apply sum_iter_laws|]. by exists it. Qed.

Lemma cost_sizes kvs n : pairs_cost kvs < n -> Forall (fun kv => zlen kv.1 < n /\ zlen kv.2 < n) kvs.
Proof.
  intros H. apply List.Forall_forall. intros kv Hin%list_elem_of_In. pose proof (pairs_cost_elem kv kvs Hin) as Hc. unfold pair_cost in Hc.
  pose proof (zlen_nonneg kv.1). pose proof (zlen_nonneg kv.2). lia.
Qed.

Lemma built_iter dom cmp `{!ComparatorLaws dom cmp} n kvs :
  1 <= n -> sorted_pairs cmp kvs -> Forall (fun kv => dom kv.1) kvs ->
  (cmp_user_comparator cmp <> None -> forall k, dom k -> 8 <= zlen k) -> pairs_cost kvs < 2 ^ 31 ->
  exists blk it, ldb_block_init (build_block n kvs) = Some blk /\ ldb_blockiter_create blk cmp = Some it /\
    any_rep blockreader_table dom cmp kvs it None.
Proof.
  intros Hn Hs Hd H8 Hc. destruct (build_block_opens dom cmp n kvs Hn Hs Hd H8) as (blk & it & E1 & E2 & R).
  - apply cost_sizes. lia.
  - pose proof (build_block_size n kvs). lia.
  - exists blk, (inr it). split; [done|]. split; [done|]. by apply any_sum.
Qed.

(** What the cache holds for the handles of [blocks] are these blocks. *)
Definition cache_ok {F} (interval : Z) (blocks : list (pairs * handle)) (tbl : table F) (block_cache : option (bytes -> option block)) : Prop :=
  forall lookup b blk, block_cache = Some lookup -> b ∈ blocks -> lookup (block_cache_key tbl b.2) = Some blk ->
    ldb_block_init (build_block interval b.1) = Some blk.

(** The cache after an insertion. *)
Definition cache_insert (lookup : bytes -> option block) (ins : option (bytes * block)) : bytes -> option block :=
  match ins with
  | Some (k, blk) => fun key => if bool_decide (key = k) then Some blk else lookup key
  | None => lookup
  end.

Section Correct.
Context {F : Type} (rops : rfile_ops F) (rrep : F -> bytes -> Prop) `{!RFileLaws rops rrep} (malloc : Z -> bool).
Hypothesis malloc_ok : forall n, 0 <= n < 2 ^ 33 -> malloc n = true.
Context (dom : bytes -> Prop) (cmp : comparator) `{!ComparatorLaws dom cmp}.
Hypothesis dom_internal : cmp_user_comparator cmp <> None -> forall k, dom k -> 8 <= zlen k.
Context (options : dbopt) (c : Z).
Hypothesis options_cmp : opt_comparator options = Some cmp.
Hypothesis options_interval : 1 <= opt_block_restart_interval options.
Hypothesis c_nonneg : 0 <= c.
Hypothesis options_name : forall p, opt_filter_policy options = Some p -> ldb_bloom_name p 72 <> None.
Context (kvs : pairs) (d : bytes) (blocks : list (pairs * handle)) (ix : pairs) (mh ih fh : handle).
Hypothesis img : table_image dom cmp options kvs d blocks ix mh ih fh.
Hypothesis kvs_total : total_ok c kvs.
Hypothesis kvs_sorted : sorted_pairs cmp kvs.
Hypothesis kvs_dom : Forall (fun kv => dom kv.1) kvs.

Local Abbreviation interval := (opt_block_restart_interval options).

Lemma kvs_cost : pairs_cost kvs < 2 ^ 28.
Proof. unfold total_ok in kvs_total. pose proof (zlen_nonneg kvs). nia. Qed.

Lemma block_split i b : blocks !! i = Some b ->
  kvs = concat (map fst (take i blocks)) ++ b.1 ++ concat (map fst (drop (S i) blocks)).
Proof.
  intros Hi. rewrite <- (img_kvs _ _ _ _ _ _ _ _ _ _ img) at 1. unfold finished.
  rewrite <- (take_drop_middle blocks i b Hi) at 1. by rewrite map_app, concat_app.
Qed.

Lemma blocks_stored i b : blocks !! i = Some b -> b.1 <> [] /\ stored d b.2 (build_block interval b.1).
Proof.
  intros Hi. pose proof (img_blocks _ _ _ _ _ _ _ _ _ _ img) as H. rewrite List.Forall_forall in H.
  apply H, list_elem_of_In. by eapply list_elem_of_lookup_2.
Qed.

(** What a block inherits from the whole list. *)
Lemma block_facts i b : blocks !! i = Some b ->
  sorted_pairs cmp b.1 /\ Forall (fun kv => dom kv.1) b.1 /\ pairs_cost b.1 < 2 ^ 28.
Proof.
  intros Hi. pose proof (block_split i b Hi) as E. pose proof kvs_cost as Hc. pose proof kvs_sorted as Hs. pose proof kvs_dom as Hd.
  rewrite E in Hc, Hs, Hd. rewrite !pairs_cost_app in Hc.
  pose proof (pairs_cost_nonneg (concat (map fst (take i blocks)))). pose proof (pairs_cost_nonneg (concat (map fst (drop (S i) blocks)))).
  apply StronglySorted_app_1_r, StronglySorted_app_1_l in Hs. apply List.Forall_app in Hd as [_ Hd].
  apply List.Forall_app in Hd as [Hd _]. split; [done|]. split; [done|lia].
Qed.

Lemma in_block i b kv : blocks !! i = Some b -> kv ∈ b.1 -> kv ∈ kvs.
Proof. intros Hi Hin. rewrite (block_split i b Hi), !elem_of_app. auto. Qed.

Lemma in_kvs_dom kv : kv ∈ kvs -> dom kv.1.
Proof. intros H. rewrite List.Forall_forall in kvs_dom. by apply kvs_dom, list_elem_of_In. Qed.

Lemma read_stored file h data ro : rrep file d -> stored d h data -> zlen data < 2 ^ 33 ->
  exists ct, ldb_read_block rops malloc file ro h = Some (LDB_OK, ct) /\ ct_data ct = data.
Proof.
  intros R Hst Hz. pose proof (stored_range _ _ _ Hst) as Hr. pose proof (img_size _ _ _ _ _ _ _ _ _ _ img).
  destruct Hst as (pre & type & raw & post & E & -> & Hb). cbn [h_offset h_size] in Hr. rewrite E in R.
  pose proof (zlen_nonneg raw). pose proof (zlen_nonneg data). unfold LDB_TRAILER_SIZE in *.
  apply (read_block_ok rops rrep malloc file pre type raw data post ro R Hb); unfold LDB_TRAILER_SIZE; [lia|apply malloc_ok; lia..].
Qed.

Lemma block_size_ok i b : blocks !! i = Some b -> zlen (build_block interval b.1) < 2 ^ 33.
Proof. intros Hi. destruct (block_facts i b Hi) as (_ & _ & Hc). pose proof (build_block_size interval b.1). lia. Qed.

(** *** The index *)

Lemma ix_small : zlen (build_block 1 ix) < 2 ^ 30.
Proof.
  apply (ix_size dom cmp c c_nonneg blocks ix []).
  - apply (img_ix _ _ _ _ _ _ _ _ _ _ img).
  - apply (img_len _ _ _ _ _ _ _ _ _ _ img).
  - unfold all_kvs. rewrite app_nil_r. by rewrite (img_kvs _ _ _ _ _ _ _ _ _ _ img).
  - eapply List.Forall_impl; [|apply (img_blocks _ _ _ _ _ _ _ _ _ _ img)]. by intros b [? _].
Qed.

Lemma ix_cost_small : pairs_cost ix < 2 ^ 30.
Proof.
  pose proof (ix_cost _ _ _ _ _ (img_ix _ _ _ _ _ _ _ _ _ _ img)) as Hc. pose proof (img_len _ _ _ _ _ _ _ _ _ _ img) as Hl.
  rewrite take_ge, (img_kvs _ _ _ _ _ _ _ _ _ _ img) in Hc by lia. pose proof kvs_cost.
  assert (19 * zlen blocks <= pairs_cost (finished blocks)) as Hb.
  { apply blocks_le_pairs. eapply List.Forall_impl; [|apply (img_blocks _ _ _ _ _ _ _ _ _ _ img)]. by intros b [? _]. }
  rewrite (img_kvs _ _ _ _ _ _ _ _ _ _ img) in Hb. assert (zlen ix = zlen blocks) by (unfold zlen; lia). lia.
Qed.

Lemma ix_block i e : ix !! i = Some e -> exists b, blocks !! i = Some b /\ e.2 = handle_bytes b.2 /\ dom e.1 /\
  (forall kv, kv ∈ b.1 -> ldb_compare cmp kv.1 e.1 <= 0).
Proof. apply (ix_entry _ _ _ _ _ (img_ix _ _ _ _ _ _ _ _ _ _ img)). Qed.

Lemma ix_dom_all : Forall (fun e => dom e.1) ix.
Proof.
  apply List.Forall_forall. intros e [i Hi]%list_elem_of_In%list_elem_of_lookup. by destruct (ix_block i e Hi) as (b & _ & _ & ? & _).
Qed.

Lemma ix_lt i j e e' : ix !! i = Some e -> ix !! j = Some e' -> (i < j)%nat -> ldb_compare cmp e.1 e'.1 < 0.
Proof.
  intros Hi Hj Hij. destruct (ix_block j e' Hj) as (b & Hb & _ & Hd' & Hle). destruct (ix_block i e Hi) as (_ & _ & _ & Hd & _).
  destruct (blocks_stored j b Hb) as [Hne _]. destruct (b.1) as [|kv l] eqn:El; [done|].
  assert (kv ∈ b.1) as Hkv by (rewrite El; by left).
  apply (compare_lt_le_trans dom cmp _ kv.1); try done.
  - by eapply in_kvs_dom, in_block.
  - by apply (ix_above _ _ _ _ _ (img_ix _ _ _ _ _ _ _ _ _ _ img) i e j b).
  - apply Hle. by left.
Qed.

Lemma ix_sorted_all : sorted_pairs cmp ix.
Proof.
  apply lookup_StronglySorted. intros i j e e' Hij Hi Hj. by apply (ix_lt i j).
Qed.

(** *** Blocks by their handles *)

Definition contents_of (v : bytes) : pairs :=
  match list_find (fun b => handle_bytes b.2 = v) blocks with Some (_, b) => b.1 | None => [] end.

Lemma block_handle_ok i b : blocks !! i = Some b -> handle_ok b.2.
Proof.
  intros Hi. destruct (blocks_stored i b Hi) as [_ Hst]. pose proof (img_size _ _ _ _ _ _ _ _ _ _ img).
  eapply stored_handle_ok; [exact Hst|lia].
Qed.

Lemma contents_ok i b : blocks !! i = Some b -> contents_of (handle_bytes b.2) = b.1.
Proof.
  intros Hi. unfold contents_of. destruct (list_find _ _) as [[j b']|] eqn:E.
  - apply list_find_Some in E as (Hj & Hh & _). 
    assert (b'.2 = b.2) as Hb.
    { pose proof (handle_import_bytes _ (block_handle_ok _ _ Hj)) as E1. rewrite Hh, (handle_import_bytes _ (block_handle_ok _ _ Hi)) in E1. congruence. }
    assert (j = i) as ->; [|by simplify_eq].
    pose proof (img_offsets _ _ _ _ _ _ _ _ _ _ img) as Ho.
    assert (forall n x, blocks !! n = Some x -> map (fun b => h_offset b.2) blocks !! n = Some (h_offset x.2)) as Hm
      by (intros n x Hx; by rewrite list_lookup_fmap, Hx).
    destruct (Nat.lt_trichotomy j i) as [Hlt|[?|Hlt]]; [|done|]; exfalso.
    + pose proof (sorted_lookup _ _ j i _ _ Ho (Hm _ _ Hj) (Hm _ _ Hi) Hlt) as Hlt'. rewrite Hb in Hlt'. lia.
    + pose proof (sorted_lookup _ _ i j _ _ Ho (Hm _ _ Hi) (Hm _ _ Hj) Hlt) as Hlt'. rewrite Hb in Hlt'. lia.
  - apply list_find_None in E. rewrite List.Forall_forall in E. exfalso. apply (E b); [|done].
    apply list_elem_of_In. by eapply list_elem_of_lookup_2.
Qed.

Lemma ix_contents i e b : ix !! i = Some e -> blocks !! i = Some b -> contents_of e.2 = b.1.
Proof. intros Hi Hb. destruct (ix_block i e Hi) as (b' & Hb' & -> & _). simplify_eq. by eapply contents_ok. Qed.

Lemma all_contents : all_pairs ix contents_of = kvs.
Proof.
  rewrite <- (img_kvs _ _ _ _ _ _ _ _ _ _ img). unfold all_pairs, finished. f_equal. apply list_eq. intros i. rewrite !list_lookup_fmap.
  destruct (ix !! i) as [e|] eqn:Ei; cbn.
  - destruct (ix_block i e Ei) as (b & Hb & _). rewrite Hb. cbn. by rewrite (ix_contents i e b).
  - apply lookup_ge_None in Ei. rewrite (img_len _ _ _ _ _ _ _ _ _ _ img) in Ei. by rewrite lookup_ge_None_2.
Qed.

(** *** Opening *)

(** The filter of the opened table. *)
Definition filter_opened (f : option filter) : Prop :=
  match opt_filter_policy options with
  | None => f = None
  | Some p => exists fr data, f = Some fr /\ ldb_filter_init p data = Some fr /\
      forall b kv, b ∈ blocks -> kv ∈ b.1 -> ldb_filter_matches fr (h_offset b.2) kv.1 = Some true
  end.

Lemma seen_in (bs : list (pairs * handle)) b kv : b ∈ bs -> kv ∈ b.1 -> (h_offset b.2, kv.1) ∈ seen_keys bs [] 0.
Proof.
  intros (b1 & b2 & ->)%list_elem_of_split Hkv. unfold seen_keys. rewrite app_nil_r, map_app, concat_app. cbn [map concat].
  rewrite !elem_of_app. right. left. apply list_elem_of_In, in_map_iff. exists kv. split; [done|]. by apply list_elem_of_In.
Qed.

Lemma read_meta_ok file ih' : rrep file d ->
  exists f, ldb_table_read_meta rops malloc options file (Footer mh ih') = Some f /\ filter_opened f.
Proof.
  intros R. unfold ldb_table_read_meta, filter_opened. pose proof (img_filter _ _ _ _ _ _ _ _ _ _ img) as Hf. unfold filter_stored in Hf.
  pose proof (img_meta _ _ _ _ _ _ _ _ _ _ img) as Hm. pose proof (meta_cost options fh) as Hmc. unfold meta_pairs in Hm, Hmc.
  destruct (opt_filter_policy options) as [p|] eqn:Ep; [|by exists None].
  pose proof (options_name p eq_refl) as Hname. destruct (ldb_bloom_name p 72) as [name|]; [|done].
  destruct Hf as (data & fr & Hst & Hdz & Efr & Hall). set (mp := [(cstr name, handle_bytes fh)]) in *.
  assert (dom_all : Forall (fun kv : bytes * bytes => True) mp) by by repeat constructor.
  destruct (read_stored file mh _ (meta_readopt options) R Hm) as (ct & E1 & Ect);
    [pose proof (build_block_size interval mp); lia|].
  cbn [metaindex_handle]. rewrite E1. cbn [mbind option_bind]. change (negb (LDB_OK =? LDB_OK)) with false. cbv iota. rewrite Ect.
  destruct (built_iter (fun _ => True) bytewise_comparator interval mp options_interval) as (blk & it & E2 & E3 & Ri);
    [by repeat constructor|done|done|lia|]. rewrite E2. cbn [mbind option_bind]. rewrite E3. cbn [mbind option_bind].
  destruct (laws_seek it None (cstr name) Ri I) as (it' & E4 & Ri'). rewrite E4. cbn [mbind option_bind].
  assert (count_lt bytewise_comparator (cstr name) mp = 0%nat) as Hc.
  { apply count_lt_unique; [lia| |cbn; lia]. intros kv [= <-]. cbn [fst].
    rewrite (compare_refl (fun _ => True) bytewise_comparator) by done. lia. }
  rewrite Hc in Ri'. change (position mp 0) with (Some 0%nat) in Ri'.
  rewrite (laws_valid it' _ Ri'). rewrite bool_decide_eq_true_2 by done. cbv iota.
  destruct (laws_entry (kvs := mp) it' 0%nat (cstr name, handle_bytes fh) Ri' eq_refl) as [-> ->]. cbn [mbind option_bind fst snd].
  rewrite bool_decide_eq_true_2 by done. unfold ldb_table_read_filter.
  pose proof (img_size _ _ _ _ _ _ _ _ _ _ img) as Hd.
  rewrite handle_import_bytes by (eapply stored_handle_ok; [exact Hst|lia]).
  destruct (read_stored file fh data (meta_readopt options) R Hst) as (ct' & -> & Ect'); [lia|].
  cbn [mbind option_bind]. change (negb (LDB_OK =? LDB_OK)) with false. cbv iota. rewrite Ep. cbn [mbind option_bind].
  rewrite Ect', Efr. cbn [mbind option_bind]. eexists. split; [reflexivity|]. exists fr, data. split; [done|]. split; [done|].
  intros b kv Hb Hkv. apply Hall. by apply seen_in.
Qed.

Lemma open_ok file lru_id : rrep file d ->
  exists tbl, ldb_table_open rops malloc options file (zlen d) lru_id = Some (LDB_OK, Some tbl) /\
    tbl_options tbl = options /\ tbl_file tbl = file /\ tbl_cache_id tbl = lru_id /\ filter_opened (tbl_filter tbl) /\
    tbl_metaindex_handle tbl = mh /\ ldb_block_init (build_block 1 ix) = Some (tbl_index_block tbl).
Proof.
  intros R. destruct (img_footer _ _ _ _ _ _ _ _ _ _ img) as (pre & foot & Ed & Hz & Ei).
  assert (zlen d = zlen pre + LDB_FOOTER_SIZE) as Hd by (rewrite Ed, zlen_app; lia).
  pose proof (zlen_nonneg pre). unfold ldb_table_open. rewrite (proj2 (Z.ltb_ge _ _)) by lia.
  rewrite (rlaws_pread file d LDB_FOOTER_SIZE (zlen d - LDB_FOOTER_SIZE) R) by (unfold LDB_FOOTER_SIZE, LDB_HANDLE_SIZE in *; lia).
  assert (ztake LDB_FOOTER_SIZE (zdrop (zlen d - LDB_FOOTER_SIZE) d) = foot) as ->.
  { rewrite Ed at 2. rewrite zdrop_app by lia. rewrite <- Hz. rewrite <- (app_nil_r foot) at 2. by apply ztake_app. }
  change (negb (LDB_OK =? LDB_OK)) with false. cbv iota. rewrite Ei. cbn [index_handle].
  pose proof ix_small.
  destruct (read_stored file ih _ (meta_readopt options) R (img_index _ _ _ _ _ _ _ _ _ _ img)) as (ct & -> & Ect); [lia|].
  cbn [mbind option_bind]. rewrite Z.eqb_refl, Ect.
  destruct (init_total (build_block 1 ix)) as [blk Eb]; [lia|]. rewrite Eb. cbn [mbind option_bind].
  destruct (read_meta_ok file ih R) as (f & -> & Hf). cbn [mbind option_bind].
  eexists. split; [reflexivity|]. done.
Qed.

(** *** Reading an open table *)

Record tbl_ok (tbl : table F) : Prop := {
  tok_options : tbl_options tbl = options;
  tok_file : rrep (tbl_file tbl) d;
  tok_filter : filter_opened (tbl_filter tbl);
  tok_meta : tbl_metaindex_handle tbl = mh;
  tok_index : ldb_block_init (build_block 1 ix) = Some (tbl_index_block tbl)
}.

Context (tbl : table F) (block_cache : option (bytes -> option block)).
Hypothesis tok : tbl_ok tbl.
Hypothesis cok : cache_ok interval blocks tbl block_cache.

Lemma find_block_ok ro i b : blocks !! i = Some b ->
  exists blk ins, find_block rops malloc block_cache tbl ro (handle_bytes b.2) = Some (inr blk, ins) /\
    ldb_block_init (build_block interval b.1) = Some blk /\
    (forall k blk', ins = Some (k, blk') -> k = block_cache_key tbl b.2 /\ blk' = blk).
Proof.
  intros Hi. unfold find_block. rewrite handle_import_bytes by by eapply block_handle_ok.
  destruct (blocks_stored i b Hi) as [_ Hst]. pose proof (block_size_ok i b Hi) as Hz.
  destruct (read_stored (tbl_file tbl) b.2 _ ro (tok_file _ tok) Hst Hz) as (ct & Ert & Ect).
  destruct (init_total (build_block interval b.1)) as [blk Eb].
  { destruct (block_facts i b Hi) as (_ & _ & Hc). pose proof (build_block_size interval b.1). lia. }
  exists blk. destruct block_cache as [lookup|] eqn:Ec.
  - destruct (lookup (block_cache_key tbl b.2)) as [blk'|] eqn:El.
    + pose proof (cok lookup b blk' eq_refl (list_elem_of_lookup_2 _ _ _ Hi) El) as Eb'. rewrite Eb in Eb'. injection Eb' as <-.
      by exists None.
    + rewrite Ert. cbn [mbind option_bind]. rewrite Z.eqb_refl, Ect, Eb. cbn [mbind option_bind].
      eexists. split; [reflexivity|]. split; [done|]. intros k blk'. destruct (_ && _); [|done]. by intros [= <- <-].
  - rewrite Ert. cbn [mbind option_bind]. rewrite Z.eqb_refl, Ect, Eb. cbn [mbind option_bind]. by exists None.
Qed.

Lemma blockreader_ok ro i b : blocks !! i = Some b ->
  exists it, ldb_table_blockreader rops malloc block_cache tbl ro (handle_bytes b.2) = Some it /\
    any_rep blockreader_table dom cmp b.1 it None.
Proof.
  intros Hi. unfold ldb_table_blockreader. destruct (find_block_ok ro i b Hi) as (blk & ins & -> & Eb & _). cbn [mbind option_bind].
  rewrite (tok_options _ tok), options_cmp. cbn [mbind option_bind]. destruct (block_facts i b Hi) as (Hs & Hd & Hc).
  destruct (built_iter dom cmp interval b.1 options_interval Hs Hd dom_internal) as (blk' & it & Eb' & Ei & R); [lia|].
  rewrite Eb in Eb'. injection Eb' as <-. by exists it.
Qed.

Lemma index_iter_ok :
  exists it, ldb_blockiter_create (tbl_index_block tbl) cmp = Some it /\ any_rep blockreader_table dom cmp ix it None.
Proof.
  pose proof ix_cost_small.
  destruct (built_iter dom cmp 1 ix ltac:(lia) ix_sorted_all ix_dom_all dom_internal) as (blk & it & Eb & Ei & R); [lia|].
  rewrite (tok_index _ tok) in Eb. injection Eb as <-. by exists it.
Qed.

Lemma table_fuel_ok : (length ix < table_fuel tbl)%nat.
Proof.
  destruct index_iter_ok as (it & Ei & R). pose proof ix_small. pose proof (build_block_entries 1 ix).
  destruct (init_size (build_block 1 ix) _ ltac:(lia) (tok_index _ tok)) as (_ & [E0|(n & E1 & _)]).
  - unfold ldb_blockiter_create in Ei. rewrite E0 in Ei. change (0 <? 4) with true in Ei. injection Ei as <-.
    by pose proof (laws_status _ _ R).
  - unfold table_fuel. rewrite E1. unfold zlen in *. lia.
Qed.

Lemma ix_opens ro e : e ∈ ix ->
  IteratorLaws blockreader_table dom cmp (contents_of e.2) (any_rep blockreader_table dom cmp (contents_of e.2)) /\
  exists it p, ldb_table_blockreader rops malloc block_cache tbl ro e.2 = Some it /\
    any_rep blockreader_table dom cmp (contents_of e.2) it p.
Proof.
  intros [i Hi]%list_elem_of_lookup. split; [apply any_rep_laws|]. destruct (ix_block i e Hi) as (b & Hb & Ee & _).
  rewrite (ix_contents i e b Hi Hb). destruct (blockreader_ok ro i b Hb) as (it & E & R). exists it, None. by rewrite Ee.
Qed.

Lemma ix_at_most i e kv : ix !! i = Some e -> kv ∈ contents_of e.2 -> ldb_compare cmp kv.1 e.1 <= 0.
Proof. intros Hi. destruct (ix_block i e Hi) as (b & Hb & _ & _ & Hle). rewrite (ix_contents i e b Hi Hb). apply Hle. Qed.

Lemma ix_more_than i e e' kv : ix !! i = Some e -> ix !! S i = Some e' -> kv ∈ contents_of e'.2 -> ldb_compare cmp e.1 kv.1 < 0.
Proof.
  intros Hi Hj Hkv. destruct (ix_block (S i) e' Hj) as (b & Hb & _). rewrite (ix_contents (S i) e' b Hj Hb) in Hkv.
  apply (ix_above _ _ _ _ _ (img_ix _ _ _ _ _ _ _ _ _ _ img) i e (S i) b kv Hi); [lia|done..].
Qed.

(** The position of an iterator over the table, whatever is in the block
    cache. *)
Definition tableiter_rep : @twoiter blockreader_iter blockreader_iter -> option nat -> Prop :=
  two_rep ix (any_rep blockreader_table dom cmp ix) contents_of (fun v => any_rep blockreader_table dom cmp (contents_of v)).

Lemma tableiter_starts ro : exists it, ldb_tableiter_create tbl ro = Some it /\ tableiter_rep it None.
Proof.
  destruct index_iter_ok as (iit & Ei & Ri). unfold ldb_tableiter_create. rewrite (tok_options _ tok), options_cmp.
  cbn [mbind option_bind]. rewrite Ei. cbn [mbind option_bind].
  destruct (twoiter_init_ok blockreader_table blockreader_table dom cmp ix (any_rep blockreader_table dom cmp ix) contents_of
    (fun v => any_rep blockreader_table dom cmp (contents_of v)) iit None Ri) as (it & E & R).
  exists it. split; [exact E|exact R].
Qed.

Lemma tableiter_laws ro : IteratorLaws (ldb_tableiter_table rops malloc block_cache tbl ro) dom cmp kvs tableiter_rep.
Proof.
  rewrite <- all_contents at 1.
  apply (twoiter_laws blockreader_table blockreader_table (ldb_table_blockreader rops malloc block_cache tbl ro) dom cmp ix
    (any_rep blockreader_table dom cmp ix) contents_of (fun v => any_rep blockreader_table dom cmp (contents_of v))).
  - exact (ix_opens ro).
  - exact ix_at_most.
  - exact ix_more_than.
  - exact ix_sorted_all.
  - exact ix_dom_all.
  - rewrite all_contents. exact kvs_dom.
  - exact table_fuel_ok.
Qed.

Lemma tableiter_ok ro :
  exists it, ldb_tableiter_create tbl ro = Some it /\
    any_rep (ldb_tableiter_table rops malloc block_cache tbl ro) dom cmp kvs it None.
Proof.
  destruct (tableiter_starts ro) as (it & E & R). exists it. split; [exact E|]. exists tableiter_rep. split; [apply tableiter_laws|exact R].
Qed.

(** *** Lookups *)

Definition next_block (k : bytes) : option (pairs * handle) := blocks !! count_lt cmp k ix.

Lemma block_of_ix n e b : ix !! n = Some e -> blocks !! n = Some b -> block_of ix contents_of n = b.1.
Proof. intros Hn Hb. unfold block_of. rewrite Hn. cbn. by eapply ix_contents. Qed.

Lemma count_lt_kvs k : dom k ->
  count_lt cmp k kvs = (block_start ix contents_of (count_lt cmp k ix) + count_lt cmp k (block_of ix contents_of (count_lt cmp k ix)))%nat.
Proof.
  intros Hk. rewrite <- all_contents at 1. apply (count_lt_all dom cmp); try done.
  - exact ix_at_most.
  - exact ix_more_than.
  - exact ix_sorted_all.
  - exact ix_dom_all.
  - rewrite all_contents. exact kvs_dom.
Qed.

Lemma kvs_at n b i : blocks !! n = Some b -> (i < length b.1)%nat -> kvs !! (block_start ix contents_of n + i)%nat = b.1 !! i.
Proof.
  intros Hb Hi. destruct (lookup_lt_is_Some_2 ix n) as [e He].
  { rewrite (img_len _ _ _ _ _ _ _ _ _ _ img). by eapply lookup_lt_Some. }
  rewrite <- all_contents. rewrite (all_pairs_at ix contents_of n e i He); rewrite (ix_contents n e b He Hb); done.
Qed.

(** The keys between [k] and the first pair at or after it: the separators do
    not fall between them. *)
Definition unseparated (k k' : bytes) : Prop :=
  forall s, dom s -> ldb_compare cmp s k < 0 -> ldb_compare cmp (ldb_shortest_separator cmp s k') k < 0.

Lemma next_in_block k e b kv :
  dom k -> ix !! count_lt cmp k ix = Some e -> blocks !! count_lt cmp k ix = Some b ->
  kvs !! count_lt cmp k kvs = Some kv -> unseparated k kv.1 -> b.1 !! count_lt cmp k b.1 = Some kv.
Proof.
  intros Hk He Hb Hkv Hsep. rewrite (count_lt_kvs k Hk), (block_of_ix _ e b He Hb) in Hkv. set (n := count_lt cmp k ix) in *.
  pose proof (count_lt_length cmp k b.1) as Hle. destruct (decide (count_lt cmp k b.1 < length b.1)%nat) as [Hlt|Hge].
  { by rewrite (kvs_at n b _ Hb) in Hkv. }
  assert (count_lt cmp k b.1 = length b.1) as Hall by lia. exfalso. rewrite Hall in Hkv.
  pose proof (block_start_S ix contents_of n e He) as HS. rewrite (ix_contents n e b He Hb) in HS. rewrite <- HS in Hkv.
  destruct (blocks !! S n) as [b'|] eqn:Hb'.
  - destruct (blocks_stored (S n) b' Hb') as [Hne _]. destruct (b'.1) as [|kv' l] eqn:El; [done|].
    rewrite <- (Nat.add_0_r (block_start ix contents_of (S n))), (kvs_at (S n) b' 0 Hb'), El in Hkv by (rewrite El; cbn; lia).
    cbn in Hkv. injection Hkv as ->.
    destruct (ix_sep _ _ _ _ _ (img_ix _ _ _ _ _ _ _ _ _ _ img) n e b kv He Hb) as (s & Hs & Ee).
    { unfold next_head. by rewrite Hb', El. }
    apply list_elem_of_lookup in Hs as [i Hi]. pose proof (lookup_lt_Some _ _ _ Hi).
    pose proof (count_lt_below cmp k b.1 i s ltac:(lia) Hi) as Hsk.
    assert (dom s.1) as Hds by (eapply in_kvs_dom, in_block; [exact Hb|by eapply list_elem_of_lookup_2]).
    specialize (Hsep s.1 Hds Hsk). rewrite <- Ee in Hsep. pose proof (count_lt_at cmp k ix e He). lia.
  - apply lookup_ge_None in Hb'. rewrite <- (img_len _ _ _ _ _ _ _ _ _ _ img) in Hb'.
    rewrite (block_start_all ix contents_of (S n) Hb'), all_contents in Hkv. apply lookup_lt_Some in Hkv. lia.
Qed.

Lemma none_after k : dom k -> (length ix <= count_lt cmp k ix)%nat -> kvs !! count_lt cmp k kvs = None.
Proof.
  intros Hk Hge. apply lookup_ge_None. rewrite (count_lt_kvs k Hk), (block_start_all ix contents_of _ Hge), all_contents. lia.
Qed.

Lemma index_seek k : dom k ->
  exists it it', ldb_blockiter_create (tbl_index_block tbl) cmp = Some it /\ it_seek blockreader_table it k = Some it' /\
    it_status blockreader_table it' = LDB_OK /\
    match ix !! count_lt cmp k ix with
    | Some e => exists b, blocks !! count_lt cmp k ix = Some b /\ it_valid blockreader_table it' = true /\
        it_value blockreader_table it' = Some (handle_bytes b.2)
    | None => it_valid blockreader_table it' = false
    end.
Proof.
  intros Hk. destruct index_iter_ok as (it & E & R). destruct (laws_seek it None k R Hk) as (it' & E' & R').
  exists it, it'. split; [done|]. split; [done|]. split; [by eapply laws_status|]. rewrite (laws_valid it' _ R').
  destruct (ix !! count_lt cmp k ix) as [e|] eqn:He.
  - pose proof (lookup_lt_Some _ _ _ He). rewrite position_some in * by done. destruct (ix_block _ e He) as (b & Hb & Ev & _).
    exists b. split; [done|]. split; [by rewrite bool_decide_eq_true_2|]. destruct (laws_entry it' _ e R' He) as [_ ->]. by rewrite Ev.
  - apply lookup_ge_None in He. rewrite position_none in * by done. done.
Qed.

Lemma block_seek ro n b k : blocks !! n = Some b -> dom k ->
  exists it it', ldb_table_blockreader rops malloc block_cache tbl ro (handle_bytes b.2) = Some it /\
    it_seek blockreader_table it k = Some it' /\ it_status blockreader_table it' = LDB_OK /\
    match b.1 !! count_lt cmp k b.1 with
    | Some kv => it_valid blockreader_table it' = true /\ it_key blockreader_table it' = Some kv.1 /\
        it_value blockreader_table it' = Some kv.2
    | None => it_valid blockreader_table it' = false
    end.
Proof.
  intros Hb Hk. destruct (blockreader_ok ro n b Hb) as (it & E & R). destruct (laws_seek it None k R Hk) as (it' & E' & R').
  exists it, it'. split; [done|]. split; [done|]. split; [by eapply laws_status|]. rewrite (laws_valid it' _ R').
  destruct (b.1 !! count_lt cmp k b.1) as [kv|] eqn:He.
  - pose proof (lookup_lt_Some _ _ _ He). rewrite position_some in * by done. split; [by rewrite bool_decide_eq_true_2|].
    by apply (laws_entry it' _ kv R').
  - apply lookup_ge_None in He. rewrite position_none in * by done. done.
Qed.

(** What the filter says of [k] in block [b]. *)
Lemma filter_ok n b k kv : blocks !! n = Some b -> kv ∈ b.1 ->
  (forall p f, opt_filter_policy options = Some p -> bloom_match_fn p f k = bloom_match_fn p f kv.1) ->
  match tbl_filter tbl with Some f => ldb_filter_matches f (h_offset b.2) k = Some true | None => True end.
Proof.
  intros Hb Hkv Hsame. pose proof (tok_filter _ tok) as Hf. unfold filter_opened in Hf.
  destruct (opt_filter_policy options) as [p|]; [|by rewrite Hf].
  destruct Hf as (fr & data & -> & Efr & Hall).
  rewrite (filter_matches_same fr _ k kv.1).
  - apply Hall; [by eapply list_elem_of_lookup_2|done].
  - intros f. rewrite (filter_init_policy _ _ _ Efr). by apply Hsame.
Qed.

Lemma filter_total n b k : blocks !! n = Some b ->
  match tbl_filter tbl with Some f => exists m, ldb_filter_matches f (h_offset b.2) k = Some m | None => True end.
Proof.
  intros Hb. pose proof (tok_filter _ tok) as Hf. unfold filter_opened in Hf.
  destruct (opt_filter_policy options) as [p|]; [|by rewrite Hf]. destruct Hf as (fr & data & -> & Efr & _).
  eapply filter_matches_total; [exact Efr|]. destruct (blocks_stored n b Hb) as [_ Hst]. by apply stored_range in Hst as (? & _).
Qed.

Lemma internal_get_ok ro k : dom k ->
  exists r, ldb_table_internal_get rops malloc block_cache tbl ro k = Some (LDB_OK, r) /\
    (r = None \/ r = kvs !! count_lt cmp k kvs) /\
    forall kv, kvs !! count_lt cmp k kvs = Some kv -> unseparated k kv.1 ->
      (forall p f, opt_filter_policy options = Some p -> bloom_match_fn p f k = bloom_match_fn p f kv.1) -> r = Some kv.
Proof.
  intros Hk. unfold ldb_table_internal_get. rewrite (tok_options _ tok), options_cmp. cbn [mbind option_bind].
  destruct (index_seek k Hk) as (it & it' & -> & E & Hst & Hm). cbn [mbind option_bind]. rewrite E. cbn [mbind option_bind].
  rewrite Hst. destruct (ix !! count_lt cmp k ix) as [e|] eqn:He.
  - destruct Hm as (b & Hb & -> & ->). cbn [mbind option_bind]. rewrite handle_import_bytes by by eapply block_handle_ok.
    pose proof (filter_total _ b k Hb) as Hft. pose proof (filter_ok (count_lt cmp k ix) b k) as Hfm.
    destruct (block_seek ro _ b k Hb Hk) as (bit & bit' & Eb & Es & Hbst & Hbm).
    assert (forall kv, b.1 !! count_lt cmp k b.1 = Some kv -> kvs !! count_lt cmp k kvs = Some kv) as Hin.
    { intros kv Hkv. rewrite (count_lt_kvs k Hk), (block_of_ix _ e b He Hb), (kvs_at _ b _ Hb); [done|]. by eapply lookup_lt_Some. }
    assert (exists m, (match tbl_filter tbl with
      | Some f => m ← ldb_filter_matches f (h_offset b.2) k; Some (negb m) | None => Some false end) = Some m /\
      (m = true -> match tbl_filter tbl with Some f => ldb_filter_matches f (h_offset b.2) k = Some false | None => False end))
      as (m & -> & Hmf).
    { destruct (tbl_filter tbl) as [f|]; [|by exists false]. destruct Hft as [m Em]. rewrite Em. exists (negb m). split; [done|]. by destruct m. }
    cbn [mbind option_bind]. destruct m.
    + exists None. split; [done|]. split; [by left|]. intros kv Hkv Hsep Hsame.
      pose proof (next_in_block k e b kv Hk He Hb Hkv Hsep) as Hkb. specialize (Hfm kv Hb (list_elem_of_lookup_2 _ _ _ Hkb) Hsame).
      specialize (Hmf eq_refl). destruct (tbl_filter tbl); [congruence|done].
    + rewrite Eb. cbn [mbind option_bind]. rewrite Es. cbn [mbind option_bind]. rewrite Hbst.
      destruct (b.1 !! count_lt cmp k b.1) as [kv|] eqn:Hkv.
      * destruct Hbm as (-> & -> & ->). cbn [mbind option_bind]. exists (Some kv). split; [by destruct kv|]. rewrite (Hin kv eq_refl).
        split; [by right|]. by intros kv' [= ->] _ _.
      * rewrite Hbm. cbn [mbind option_bind]. exists None. split; [done|]. split; [by left|]. intros kv Hkv' Hsep _.
        pose proof (next_in_block k e b kv Hk He Hb Hkv' Hsep). congruence.
  - rewrite Hm. cbn [mbind option_bind]. exists None. split; [done|]. split; [by left|]. intros kv Hkv.
    rewrite (none_after k Hk) in Hkv; [done|]. by apply lookup_ge_None.
Qed.

(** *** The cache *)

Lemma cache_key_block i j b b' : blocks !! i = Some b -> blocks !! j = Some b' ->
  block_cache_key tbl b.2 = block_cache_key tbl b'.2 -> b = b'.
Proof.
  intros Hi Hj E. apply app_inv_head in E. pose proof (img_offsets _ _ _ _ _ _ _ _ _ _ img) as Ho.
  destruct (block_handle_ok i b Hi) as [Hb _]. destruct (block_handle_ok j b' Hj) as [Hb' _]. unfold ones64 in *.
  assert (h_offset b.2 = h_offset b'.2) as Heq.
  { rewrite <- (fixed64_decode_write (h_offset b.2) []), <- (fixed64_decode_write (h_offset b'.2) []) by lia. by rewrite E. }
  assert (forall n x, blocks !! n = Some x -> map (fun b => h_offset b.2) blocks !! n = Some (h_offset x.2)) as Hm
    by (intros n x Hx; by rewrite list_lookup_fmap, Hx).
  destruct (Nat.lt_trichotomy i j) as [Hlt|[->|Hlt]]; [|by simplify_eq|].
  - pose proof (sorted_lookup _ _ i j _ _ Ho (Hm _ _ Hi) (Hm _ _ Hj) Hlt). lia.
  - pose proof (sorted_lookup _ _ j i _ _ Ho (Hm _ _ Hj) (Hm _ _ Hi) Hlt). lia.
Qed.

(** *** Offsets *)

Lemma approximate_offset_eq k : dom k ->
  ldb_table_approximate_offset tbl k =
    Some (match next_block k with Some b => h_offset b.2 | None => h_offset mh end).
Proof.
  intros Hk. unfold ldb_table_approximate_offset, next_block. rewrite (tok_options _ tok), options_cmp. cbn [mbind option_bind].
  destruct (index_seek k Hk) as (it & it' & -> & E & Hst & Hm). cbn [mbind option_bind]. rewrite E. cbn [mbind option_bind].
  destruct (ix !! count_lt cmp k ix) as [e|] eqn:He.
  - destruct Hm as (b & Hb & -> & ->). cbn [mbind option_bind]. rewrite handle_import_bytes by by eapply block_handle_ok.
    by rewrite Hb.
  - rewrite Hm, (tok_meta _ tok). apply lookup_ge_None in He. rewrite (img_len _ _ _ _ _ _ _ _ _ _ img) in He.
    by rewrite lookup_ge_None_2.
Qed.

Lemma next_block_mono k k' : dom k -> dom k' -> ldb_compare cmp k k' <= 0 ->
  match next_block k with Some b => h_offset b.2 | None => h_offset mh end <=
  match next_block k' with Some b => h_offset b.2 | None => h_offset mh end.
Proof.
  intros Hk Hk' Hle. pose proof (count_lt_mono dom cmp k k' ix ix_dom_all Hk Hk' Hle) as Hm. unfold next_block.
  pose proof (img_offsets _ _ _ _ _ _ _ _ _ _ img) as Ho.
  destruct (blocks !! count_lt cmp k ix) as [b|] eqn:Hb; destruct (blocks !! count_lt cmp k' ix) as [b'|] eqn:Hb'; try lia.
  - destruct (decide (count_lt cmp k ix = count_lt cmp k' ix)) as [Heq|Hne]; [rewrite Heq in Hb; simplify_eq; lia|].
    apply Z.lt_le_incl. apply (sorted_lookup _ _ (count_lt cmp k ix) (count_lt cmp k' ix) _ _ Ho); [by rewrite list_lookup_fmap, Hb|
      by rewrite list_lookup_fmap, Hb'|lia].
  - pose proof (img_meta_offset _ _ _ _ _ _ _ _ _ _ img b (list_elem_of_lookup_2 _ _ _ Hb)). lia.
  - apply lookup_ge_None in Hb. apply lookup_lt_Some in Hb'. lia.
Qed.

(** A key of the table is in the next block. *)
Lemma next_block_holds kv : kv ∈ kvs -> exists b, next_block kv.1 = Some b /\ kv ∈ b.1.
Proof.
  intros Hin. pose proof (in_kvs_dom kv Hin) as Hk. unfold next_block.
  assert (exists i, kvs !! i = Some kv) as [i Hi] by by apply list_elem_of_lookup.
  rewrite <- all_contents in Hi. destruct (all_pairs_locate ix contents_of i kv Hi) as (n & e & j & He & Hj & _).
  destruct (ix_block n e He) as (b & Hb & _ & Hde & Hle). rewrite (ix_contents n e b He Hb) in Hj.
  assert (kv ∈ b.1) as Hkb by (by eapply list_elem_of_lookup_2). exists b. split; [|done].
  rewrite (count_lt_unique cmp kv.1 ix n); [done| | |apply lookup_lt_Some in He; lia].
  - intros m e' Hm He'. by apply (ix_above _ _ _ _ _ (img_ix _ _ _ _ _ _ _ _ _ _ img) m e' n b kv).
  - intros e' He'. rewrite He in He'. injection He' as <-. apply (compare_le_flip dom cmp); [done..|]. by apply Hle.
Qed.
End Correct.

(** ** Writing a table and opening it *)

(** Options that fit a comparator: a filter policy keeps its promise, builds
    filters of bounded size and has a name that fits the metaindex key, and
    keys of a comparator with a user comparator have a tag. *)
Record options_ok (dom : bytes -> Prop) (cmp : comparator) (options : dbopt) (c : Z) : Prop := {
  oo_cmp : opt_comparator options = Some cmp;
  oo_interval : 1 <= opt_block_restart_interval options;
  oo_c : 0 <= c;
  oo_policy p : opt_filter_policy options = Some p -> FilterPolicy dom p /\ PolicySize p c /\ ldb_bloom_name p 72 <> None;
  oo_internal : cmp_user_comparator cmp <> None -> forall k, dom k -> 8 <= zlen k
}.

Section Opened.
Context {W R : Type} (wops : wfile_ops W) (wrep : W -> bytes -> Prop) (rops : rfile_ops R) (rrep : R -> bytes -> Prop).
Context (malloc : Z -> bool).

(** The builder succeeds on [kvs] and leaves a file; wherever its contents are
    read from, the table opens and satisfies [P], with the pairs in the
    [blocks] at their handles. *)
Definition written_and_opened (options : dbopt) (file : W) (kvs : pairs) (P : list (pairs * handle) -> table R -> Prop) : Prop :=
  exists tb d blocks, build_table wops options file kvs = Some (LDB_OK, tb) /\ wrep (tb_file tb) d /\
    tb_offset tb = zlen d /\ concat (map fst blocks) = kvs /\
    forall rfile lru_id, rrep rfile d ->
      exists tbl, ldb_table_open rops malloc options rfile (zlen d) lru_id = Some (LDB_OK, Some tbl) /\ P blocks tbl.

Context `{!WFileLaws wops wrep, !RFileLaws rops rrep} (malloc_ok : forall n, 0 <= n < 2 ^ 33 -> malloc n = true).
Context (dom : bytes -> Prop) (cmp : comparator) `{!ComparatorLaws dom cmp, !ShortSeparators dom cmp} (options : dbopt) (c : Z).
Hypothesis ook : options_ok dom cmp options c.

Lemma written_ok file kvs P :
  wrep file [] -> total_ok c kvs -> sorted_pairs cmp kvs -> Forall (fun kv => dom kv.1) kvs ->
  (forall d blocks ix mh ih fh tbl, table_image dom cmp options kvs d blocks ix mh ih fh ->
    tbl_ok rrep options d blocks ix mh tbl -> P blocks tbl) ->
  written_and_opened options file kvs P.
Proof.
  intros R0 Ht Hs Hd HP. destruct ook as [Hc Hi Hc0 Hp H8].
  destruct (build_table_ok wops wrep dom cmp options c Hc Hc0 Hp file kvs R0 Ht Hs Hd)
    as (tb & d & blocks & ix & mh & ih & fh & E & Rw & Eo & img).
  exists tb, d, blocks. split; [done|]. split; [done|]. split; [done|]. split; [apply (img_kvs _ _ _ _ _ _ _ _ _ _ img)|].
  intros rfile lru_id Rr.
  destruct (open_ok rops rrep malloc malloc_ok dom cmp options c Hi Hc0 ltac:(intros p Ep; by apply Hp) kvs d blocks ix mh ih fh img Ht
    rfile lru_id Rr) as (tbl & Eop & Ho & Hf & _ & Hfi & Hm & Hix).
  exists tbl. split; [done|]. eapply HP; [exact img|]. split; [done| |done..]. by rewrite Hf.
Qed.
End Opened.

(** ** Properties *)

(** C30: Tables are written and read back: for any lawful comparator, options
    and files, the builder accepts every sorted list of pairs (up to a total
    size), cutting it into blocks, and what it wrote opens from any file with
    these contents; an iterator over the table, with any block cache whose
    answers are right, keeps the iterator contract over exactly these pairs,
    through index, footer, checksums, compression and block boundaries. *)
Theorem table_file_correct {W R} (wops : wfile_ops W) wrep `{!WFileLaws wops wrep} (rops : rfile_ops R) rrep
    `{!RFileLaws rops rrep} malloc dom cmp `{!ComparatorLaws dom cmp, !ShortSeparators dom cmp} options c file kvs :
  options_ok dom cmp options c -> (forall n, 0 <= n < 2 ^ 33 -> malloc n = true) ->
  wrep file [] -> total_ok c kvs -> sorted_pairs cmp kvs -> Forall (fun kv => dom kv.1) kvs ->
  written_and_opened wops wrep rops rrep malloc options file kvs (fun blocks tbl =>
    forall block_cache ro, cache_ok (opt_block_restart_interval options) blocks tbl block_cache ->
      exists it rep, ldb_tableiter_create tbl ro = Some it /\ rep it None /\
        IteratorLaws (ldb_tableiter_table rops malloc block_cache tbl ro) dom cmp kvs rep).
Proof.
  intros ook Hm Rw Ht Hs Hd. apply (written_ok wops wrep rops rrep malloc Hm dom cmp options c ook); try done.
  intros d blocks ix mh ih fh tbl img tok block_cache ro cok. destruct ook as [Hc Hi Hc0 _ H8].
  destruct (tableiter_ok rops rrep malloc Hm dom cmp H8 options c Hc Hi Hc0 kvs d blocks ix mh ih fh img Ht Hs Hd
    tbl block_cache tok cok ro) as (it & E & rep & L & Rr). by exists it, rep.
Qed.

(** The options and pairs of the witnesses: two blocks and a filter. *)
Definition test_options : dbopt := {|
  opt_comparator := Some bytewise_comparator;
  opt_create_if_missing := false;
  opt_error_if_exists := false;
  opt_paranoid_checks := true;
  opt_write_buffer_size := 4096;
  opt_max_open_files := 10;
  opt_block_size := 24;
  opt_block_restart_interval := 2;
  opt_max_file_size := 4096;
  opt_compression := LDB_SNAPPY_COMPRESSION;
  opt_reuse_logs := false;
  opt_filter_policy := Some bloom_default;
  opt_use_mmap := true
|}.

Definition test_kvs : pairs :=
  [([Byte.x61], [Byte.x31]); ([Byte.x61; Byte.x62], zeros 24); ([Byte.x64], [Byte.x33]); ([Byte.x65], [])].

Lemma test_options_ok : options_ok (fun _ => True) bytewise_comparator test_options 9.
Proof.
  split; [done|cbn; lia|lia| |done]. intros p [= <-]. split; [apply bloom_default_policy|]. split; [apply bloom_default_size|done].
Qed.

Lemma test_kvs_ok : total_ok 9 test_kvs /\ sorted_pairs bytewise_comparator test_kvs /\ Forall (fun kv => True) test_kvs.
Proof.
  split; [by vm_compute|]. split; [|by repeat constructor].
  repeat (apply SSorted_cons; [|repeat (apply List.Forall_cons; [by vm_compute|]); apply List.Forall_nil]). apply SSorted_nil.
Qed.

Lemma table_file_correct_witness :
  written_and_opened mem_file eq (mem_rfile true) eq (fun _ => true) test_options [] test_kvs (fun blocks tbl =>
    forall block_cache ro, cache_ok 2 blocks tbl block_cache ->
      exists it rep, ldb_tableiter_create tbl ro = Some it /\ rep it None /\
        IteratorLaws (ldb_tableiter_table (mem_rfile true) (fun _ => true) block_cache tbl ro) (fun _ => True)
          bytewise_comparator test_kvs rep).
Proof.
  destruct test_kvs_ok as (Ht & Hs & Hd).
  apply (table_file_correct mem_file eq (mem_rfile true) eq (fun _ => true) (fun _ => True) bytewise_comparator test_options 9 [] test_kvs);
    [exact test_options_ok|done|done|done|done|done].
Defined.

(** Lookups in a written table, with or without a filter and a cache: the
    status is [LDB_OK]; [handle_result] is called at most once, and then with
    the first pair at or after the key; it is called if the table has the key,
    and also if the first pair after it is one that neither an index separator
    nor the filter policy tells from the key. *)
Theorem table_get_correct {W R} (wops : wfile_ops W) wrep `{!WFileLaws wops wrep} (rops : rfile_ops R) rrep
    `{!RFileLaws rops rrep} malloc dom cmp `{!ComparatorLaws dom cmp, !ShortSeparators dom cmp} options c file kvs :
  options_ok dom cmp options c -> (forall n, 0 <= n < 2 ^ 33 -> malloc n = true) ->
  wrep file [] -> total_ok c kvs -> sorted_pairs cmp kvs -> Forall (fun kv => dom kv.1) kvs ->
  written_and_opened wops wrep rops rrep malloc options file kvs (fun blocks tbl =>
    forall block_cache ro k, cache_ok (opt_block_restart_interval options) blocks tbl block_cache -> dom k ->
      let next := kvs !! count_lt cmp k kvs in
      exists r, ldb_table_internal_get rops malloc block_cache tbl ro k = Some (LDB_OK, r) /\ (r = None \/ r = next) /\
        (forall v, (k, v) ∈ kvs -> r = Some (k, v)) /\
        (forall kv, next = Some kv -> unseparated dom cmp k kv.1 ->
          (forall p f, opt_filter_policy options = Some p -> bloom_match_fn p f k = bloom_match_fn p f kv.1) -> r = Some kv)).
Proof.
  intros ook Hm Rw Ht Hs Hd. apply (written_ok wops wrep rops rrep malloc Hm dom cmp options c ook); try done.
  intros d blocks ix mh ih fh tbl img tok block_cache ro k cok Hk next. destruct ook as [Hc Hi Hc0 Hp H8].
  destruct (internal_get_ok rops rrep malloc Hm dom cmp H8 options c Hc Hi Hc0
    (fun p Ep => proj2 (proj2 (Hp p Ep))) kvs d blocks ix mh ih fh img Ht Hs Hd
    tbl block_cache tok cok ro k Hk) as (r & E & Hr & Hsame).
  exists r. split; [done|]. split; [done|]. split; [|done]. intros v [i Hv]%list_elem_of_lookup. apply Hsame; [| |done].
  - rewrite (count_lt_unique cmp k kvs i); [done| | |pose proof (lookup_lt_Some _ _ _ Hv); lia].
    + intros j kv Hj Hkv. by apply (sorted_lookup _ _ j i kv (k, v) Hs).
    + intros kv Hkv. rewrite Hv in Hkv. injection Hkv as <-. cbn. by rewrite (compare_refl dom cmp).
  - intros s Hds Hlt. by destruct (separator_between s k Hds Hk Hlt) as (_ & _ & ?).
Qed.

Lemma table_get_correct_witness :
  written_and_opened mem_file eq (mem_rfile false) eq (fun _ => true) test_options [] test_kvs (fun blocks tbl =>
    ldb_table_internal_get (mem_rfile false) (fun _ => true) None tbl ldb_readopt_default [Byte.x64] =
      Some (LDB_OK, Some ([Byte.x64], [Byte.x33])) /\
    exists r, ldb_table_internal_get (mem_rfile false) (fun _ => true) None tbl ldb_readopt_default [Byte.x66] = Some (LDB_OK, r) /\ r = None).
Proof.
  destruct test_kvs_ok as (Ht & Hs & Hd).
  destruct (table_get_correct mem_file eq (mem_rfile false) eq (fun _ => true) (fun _ => True) bytewise_comparator test_options 9 [] test_kvs)
    as (tb & d & blocks & E1 & E2 & E3 & E4 & H); [exact test_options_ok|done|done|done|done|done|].
  exists tb, d, blocks. split; [exact E1|]. split; [exact E2|]. split; [exact E3|]. split; [exact E4|].
  intros rfile lru_id Rr. destruct (H rfile lru_id Rr) as (tbl & Eo & Hg). exists tbl. split; [exact Eo|].
  assert (cache_ok 2 blocks tbl None) as Hcache by (intros lookup b blk Hl; discriminate Hl). split.
  - destruct (Hg None ldb_readopt_default [Byte.x64] Hcache I) as (r & -> & _ & Hr & _).
    rewrite (Hr [Byte.x33]); [reflexivity|]. by right; right; left.
  - destruct (Hg None ldb_readopt_default [Byte.x66] Hcache I) as (r & -> & Hr & _). exists r. split; [reflexivity|].
    destruct Hr as [-> | ->]; reflexivity.
Defined.

(** Lookups by internal key, as the database makes them: in a table ordered
    by the internal-key comparator, with a filter on user keys or none, looking
    up a user key at a sequence number finds its newest version at or below
    that number if the table has one: the versions of a user key are cut
    neither by the index separators nor by the filter. *)
Theorem table_finds_version {W R} (wops : wfile_ops W) wrep `{!WFileLaws wops wrep} (rops : rfile_ops R) rrep
    `{!RFileLaws rops rrep} malloc udom uc `{!ComparatorLaws udom uc} options policy c file kvs :
  let cmp := ldb_ikc_init uc in
  opt_comparator options = Some cmp -> 1 <= opt_block_restart_interval options -> 0 <= c ->
  opt_filter_policy options = ldb_ifp_init <$> policy ->
  (forall p, policy = Some p -> FilterPolicy udom p /\ PolicySize p c /\ ldb_bloom_name p 72 <> None) ->
  (forall n, 0 <= n < 2 ^ 33 -> malloc n = true) ->
  wrep file [] -> total_ok c kvs -> sorted_pairs cmp kvs -> Forall (fun kv => ikey_dom udom kv.1) kvs ->
  written_and_opened wops wrep rops rrep malloc options file kvs (fun blocks tbl =>
    forall block_cache ro k, cache_ok (opt_block_restart_interval options) blocks tbl block_cache -> ikey_dom udom k ->
      exists r, ldb_table_internal_get rops malloc block_cache tbl ro k = Some (LDB_OK, r) /\
        match kvs !! count_lt cmp k kvs with
        | Some kv => (r = None \/ r = Some kv) /\ (ldb_extract_user_key k = ldb_extract_user_key kv.1 -> r = Some kv)
        | None => r = None
        end).
Proof.
  intros cmp Hc Hi Hc0 Hpol Hp Hm Rw Ht Hs Hd.
  assert (options_ok (ikey_dom udom) cmp options c) as ook.
  { split; [done|done|done| |by intros _ k [? _]; lia]. rewrite Hpol. intros q Hq. destruct policy as [p|]; [|done]. injection Hq as <-.
    destruct (Hp p eq_refl) as (H1 & H2 & H3). split; [by apply ifp_policy|]. split; [by apply ifp_size|done]. }
  apply (written_ok wops wrep rops rrep malloc Hm (ikey_dom udom) cmp options c ook); try done.
  intros d blocks ix mh ih fh tbl img tok block_cache ro k cok Hk. destruct ook as [_ _ _ Hp' H8].
  destruct (internal_get_ok rops rrep malloc Hm (ikey_dom udom) cmp H8 options c Hc Hi Hc0
    (fun p Ep => proj2 (proj2 (Hp' p Ep))) kvs d blocks ix mh ih fh img Ht Hs Hd tbl block_cache tok cok ro k Hk) as (r & E & Hr & Hsame).
  exists r. split; [done|]. destruct (kvs !! count_lt cmp k kvs) as [kv|] eqn:Ekv; [|by destruct Hr].
  split; [done|]. intros Hu. assert (ikey_dom udom kv.1) as Hkv.
  { rewrite List.Forall_forall in Hd. apply Hd, list_elem_of_In. by eapply list_elem_of_lookup_2. }
  apply (Hsame kv eq_refl).
  - intros s Hds Hlt. by apply (ikc_unseparated udom uc).
  - rewrite Hpol. intros q f Hq. destruct policy as [p|]; [|done]. injection Hq as <-. cbn [bloom_match_fn ldb_ifp_init].
    unfold ldb_ifp_match. by rewrite Hu.
Qed.

(** Versions of two user keys, newest first. *)
Definition test_ikey (user : bytes) (seq : Z) : bytes := user ++ fixed64_write (pack_seqtype seq LDB_TYPE_VALUE).

Definition test_versions : pairs :=
  [(test_ikey [Byte.x61] 9, zeros 20); (test_ikey [Byte.x61] 4, zeros 30); (test_ikey [Byte.x61] 2, [Byte.x31]);
   (test_ikey [Byte.x62] 5, [])].

Definition test_ioptions : dbopt := {|
  opt_comparator := Some (ldb_ikc_init bytewise_comparator);
  opt_create_if_missing := false;
  opt_error_if_exists := false;
  opt_paranoid_checks := false;
  opt_write_buffer_size := 4096;
  opt_max_open_files := 10;
  opt_block_size := 24;
  opt_block_restart_interval := 1;
  opt_max_file_size := 4096;
  opt_compression := LDB_NO_COMPRESSION;
  opt_reuse_logs := false;
  opt_filter_policy := Some (ldb_ifp_init bloom_default);
  opt_use_mmap := false
|}.

Lemma test_versions_ok :
  total_ok 9 test_versions /\ sorted_pairs (ldb_ikc_init bytewise_comparator) test_versions /\
  Forall (fun kv => ikey_dom (fun _ => True) kv.1) test_versions.
Proof.
  split; [by vm_compute|]. split.
  - repeat (apply SSorted_cons; [|repeat (apply List.Forall_cons; [by vm_compute|]); apply List.Forall_nil]). apply SSorted_nil.
  - repeat (apply List.Forall_cons; [by vm_compute|]). apply List.Forall_nil.
Qed.

Lemma table_finds_version_witness :
  written_and_opened mem_file eq (mem_rfile true) eq (fun _ => true) test_ioptions [] test_versions (fun blocks tbl =>
    ldb_table_internal_get (mem_rfile true) (fun _ => true) None tbl ldb_readopt_default (test_ikey [Byte.x61] 7) =
      Some (LDB_OK, Some (test_ikey [Byte.x61] 4, zeros 30))).
Proof.
  destruct test_versions_ok as (Ht & Hs & Hd).
  destruct (table_finds_version mem_file eq (mem_rfile true) eq (fun _ => true) (fun _ => True) bytewise_comparator test_ioptions
    (Some bloom_default) 9 [] test_versions) as (tb & d & blocks & E1 & E2 & E3 & E4 & H); [done|done|done|done| |done|done|done|done|done|].
  { intros p [= <-]. split; [apply bloom_default_policy|]. split; [apply bloom_default_size|done]. }
  exists tb, d, blocks. split; [exact E1|]. split; [exact E2|]. split; [exact E3|]. split; [exact E4|].
  intros rfile lru_id Rr. destruct (H rfile lru_id Rr) as (tbl & Eo & Hg). exists tbl. split; [exact Eo|].
  assert (cache_ok 1 blocks tbl None) as Hcache by (intros lookup b blk Hl; discriminate Hl).
  assert (ikey_dom (fun _ => True) (test_ikey [Byte.x61] 7)) as Hk by (split; [vm_compute; split; congruence|exact I]).
  destruct (Hg None ldb_readopt_default (test_ikey [Byte.x61] 7) Hcache Hk) as (r & E & Hr). rewrite E.
  assert (count_lt (ldb_ikc_init bytewise_comparator) (test_ikey [Byte.x61] 7) test_versions = 1%nat) as Hn by by vm_compute.
  rewrite Hn in Hr. destruct Hr as [_ Hr]. by rewrite Hr.
Defined.

(** The block cache stays right: reading a block of the table, from a right
    cache or without one, gives the block that was written, and the cache is
    still right with what is inserted. *)
Theorem table_cache_consistent {W R} (wops : wfile_ops W) wrep `{!WFileLaws wops wrep} (rops : rfile_ops R) rrep
    `{!RFileLaws rops rrep} malloc dom cmp `{!ComparatorLaws dom cmp, !ShortSeparators dom cmp} options c file kvs :
  options_ok dom cmp options c -> (forall n, 0 <= n < 2 ^ 33 -> malloc n = true) ->
  wrep file [] -> total_ok c kvs -> sorted_pairs cmp kvs -> Forall (fun kv => dom kv.1) kvs ->
  written_and_opened wops wrep rops rrep malloc options file kvs (fun blocks tbl =>
    let interval := opt_block_restart_interval options in
    forall block_cache ro b, cache_ok interval blocks tbl block_cache -> b ∈ blocks ->
      exists blk ins, find_block rops malloc block_cache tbl ro (handle_bytes b.2) = Some (inr blk, ins) /\
        ldb_block_init (build_block interval b.1) = Some blk /\
        forall lookup, block_cache = Some lookup -> cache_ok interval blocks tbl (Some (cache_insert lookup ins))).
Proof.
  intros ook Hm Rw Ht Hs Hd. apply (written_ok wops wrep rops rrep malloc Hm dom cmp options c ook); try done.
  intros d blocks ix mh ih fh tbl img tok interval block_cache ro b cok [i Hi]%list_elem_of_lookup. destruct ook as [Hc Hi' Hc0 _ H8].
  destruct (find_block_ok rops rrep malloc Hm dom cmp options c Hc0 kvs d blocks ix mh ih fh img Ht Hs Hd tbl block_cache tok cok ro i b Hi)
    as (blk & ins & E & Eb & Hins).
  exists blk, ins. split; [done|]. split; [done|]. intros lookup El lookup' b' blk' [= <-] Hb'. unfold cache_insert.
  destruct ins as [[k blk1]|]; [|by apply (cok lookup)]. destruct (Hins k blk1 eq_refl) as [-> ->]. case_bool_decide as Hk; [|by apply (cok lookup)].
  intros [= <-]. apply list_elem_of_lookup in Hb' as [j Hj].
  by rewrite (cache_key_block dom cmp options kvs d blocks ix mh ih fh img tbl j i b' b Hj Hi Hk).
Qed.

Lemma table_cache_consistent_witness :
  written_and_opened mem_file eq (mem_rfile false) eq (fun _ => true) test_options [] test_kvs (fun blocks tbl =>
    forall b, b ∈ blocks ->
      exists blk ins, find_block (mem_rfile false) (fun _ => true) (Some (fun _ => None)) tbl ldb_readopt_default (handle_bytes b.2) = Some (inr blk, ins) /\
        cache_ok 2 blocks tbl (Some (cache_insert (fun _ => None) ins))).
Proof.
  destruct test_kvs_ok as (Ht & Hs & Hd).
  destruct (table_cache_consistent mem_file eq (mem_rfile false) eq (fun _ => true) (fun _ => True) bytewise_comparator test_options 9 [] test_kvs)
    as (tb & d & blocks & E1 & E2 & E3 & E4 & H); [exact test_options_ok|done|done|done|done|done|].
  exists tb, d, blocks. split; [exact E1|]. split; [exact E2|]. split; [exact E3|]. split; [exact E4|].
  intros rfile lru_id Rr. destruct (H rfile lru_id Rr) as (tbl & Eo & Hg). exists tbl. split; [exact Eo|]. intros b Hb.
  destruct (Hg (Some (fun _ => None)) ldb_readopt_default b) as (blk & ins & E & _ & Hins); [by intros lookup b' blk [= <-]|done|].
  exists blk, ins. split; [exact E|]. by apply Hins.
Defined.

(** Approximate offsets: for a key of the table it is the offset of the
    block that holds it, and offsets do not decrease with the key. *)
Theorem table_offsets_monotone {W R} (wops : wfile_ops W) wrep `{!WFileLaws wops wrep} (rops : rfile_ops R) rrep
    `{!RFileLaws rops rrep} malloc dom cmp `{!ComparatorLaws dom cmp, !ShortSeparators dom cmp} options c file kvs :
  options_ok dom cmp options c -> (forall n, 0 <= n < 2 ^ 33 -> malloc n = true) ->
  wrep file [] -> total_ok c kvs -> sorted_pairs cmp kvs -> Forall (fun kv => dom kv.1) kvs ->
  written_and_opened wops wrep rops rrep malloc options file kvs (fun blocks tbl =>
    (forall kv, kv ∈ kvs -> exists b, b ∈ blocks /\ kv ∈ b.1 /\ ldb_table_approximate_offset tbl kv.1 = Some (h_offset b.2)) /\
    (forall k k', dom k -> dom k' -> ldb_compare cmp k k' <= 0 ->
      exists o o', ldb_table_approximate_offset tbl k = Some o /\ ldb_table_approximate_offset tbl k' = Some o' /\ o <= o')).
Proof.
  intros ook Hm Rw Ht Hs Hd. apply (written_ok wops wrep rops rrep malloc Hm dom cmp options c ook); try done.
  intros d blocks ix mh ih fh tbl img tok. destruct ook as [Hc Hi Hc0 _ H8].
  pose proof (approximate_offset_eq rrep dom cmp H8 options c Hc Hc0 kvs d blocks ix mh ih fh img Ht Hd tbl tok) as Ha. split.
  - intros kv Hkv. destruct (next_block_holds dom cmp options kvs d blocks ix mh ih fh img Hd kv Hkv) as (b & Hb & Hin).
    exists b. split; [unfold next_block in Hb; by eapply list_elem_of_lookup_2|]. split; [done|]. rewrite Ha, Hb; [done|].
    rewrite List.Forall_forall in Hd. by apply Hd, list_elem_of_In.
  - intros k k' Hk Hk' Hle. eexists _, _. split; [by apply Ha|]. split; [by apply Ha|].
    by apply (next_block_mono dom cmp options kvs d blocks ix mh ih fh img).
Qed.

Lemma table_offsets_monotone_witness :
  written_and_opened mem_file eq (mem_rfile false) eq (fun _ => true) test_options [] test_kvs (fun blocks tbl =>
    exists o o', ldb_table_approximate_offset tbl [Byte.x61] = Some o /\ ldb_table_approximate_offset tbl [Byte.x65] = Some o' /\ o <= o').
Proof.
  destruct test_kvs_ok as (Ht & Hs & Hd).
  destruct (table_offsets_monotone mem_file eq (mem_rfile false) eq (fun _ => true) (fun _ => True) bytewise_comparator test_options 9 [] test_kvs)
    as (tb & d & blocks & E1 & E2 & E3 & E4 & H); [exact test_options_ok|done|done|done|done|done|].
  exists tb, d, blocks. split; [exact E1|]. split; [exact E2|]. split; [exact E3|]. split; [exact E4|].
  intros rfile lru_id Rr. destruct (H rfile lru_id Rr) as (tbl & Eo & _ & Hmono). exists tbl. split; [exact Eo|].
  apply Hmono; [done|done|by vm_compute].
Defined.
