(* ===== verification/VersionEdit.v ===== *)
(** * Version edits

    Models [src/engine/src/version_edit.h] and [version_edit.c]: the metadata of
    table files and the records of the manifest, as values, with their encoding.
    The set of deleted files, a red-black tree in the code, is the sorted list
    of its elements. *)

From stdpp Require Import strings sorting.
From S2P Require Import Prelude Coding Strutil DBFormat.
#[local] Open Scope Z_scope.


(** ** Ordered sets *)

(** What [rb_set_put] does to the sorted list of the elements of a set: the list
    afterwards, and whether the element was new.  The red-black tree that keeps
    the set in the code ([util/rbt.c]) is not modelled. *)
Fixpoint rb_set_put {A} (compare : A -> A -> Z) (s : list A) (x : A) : list A * bool :=
  match s with
  | [] => ([x], true)
  | y :: s' =>
    let c := compare x y in
    if c <? 0 then (x :: s, true)
    else if c =? 0 then (s, false)
    else let (s'', new) := rb_set_put compare s' x in (y :: s'', new)
  end.

(** ** File metadata *)

(** [ldb_filemeta_t] *)
Record filemeta := Filemeta {
  fm_refs : Z;
  fm_allowed_seeks : Z;
  fm_number : Z;
  fm_file_size : Z;
  fm_smallest : bytes;
  fm_largest : bytes
}.

Definition ldb_filemeta_init : filemeta := Filemeta 0 (Z.shiftl 1 30) 0 0 ldb_ikey_init ldb_ikey_init.

Definition ldb_filemeta_copy (x : filemeta) : filemeta := x.

Definition ldb_filemeta_clone (meta : filemeta) : filemeta := ldb_filemeta_copy meta.

Definition ldb_filemeta_ref (z : filemeta) : filemeta :=
  Filemeta (fm_refs z + 1) (fm_allowed_seeks z) (fm_number z) (fm_file_size z) (fm_smallest z) (fm_largest z).

(** [None] when the assertion fails, [Some None] when the metadata is destroyed. *)
Definition ldb_filemeta_unref (z : filemeta) : option (option filemeta) :=
  if negb (0 <? fm_refs z) then None
  else
    let z := Filemeta (fm_refs z - 1) (fm_allowed_seeks z) (fm_number z) (fm_file_size z) (fm_smallest z) (fm_largest z) in
    Some (if fm_refs z <=? 0 then None else Some z).

(** ** Edits *)

Record ikey_entry := IkeyEntry { ike_level : Z; ike_key : bytes }.
Record file_entry := FileEntry { fe_level : Z; fe_number : Z }.
Record meta_entry := MetaEntry { me_level : Z; me_meta : filemeta }.

Definition file_entry_compare (x y : file_entry) : Z :=
  if negb (fe_level x =? fe_level y) then fe_level x - fe_level y
  else if fe_number x <? fe_number y then -1 else if fe_number y <? fe_number x then 1 else 0.

Definition meta_entry_create (level number file_size : Z) (smallest largest : bytes) : meta_entry :=
  let meta := ldb_filemeta_init in
  MetaEntry level (Filemeta (fm_refs meta) (fm_allowed_seeks meta) number file_size (ldb_ikey_copy smallest) (ldb_ikey_copy largest)).

(** [ldb_edit_t]; a number with its [has_] flag is an option ([None]: the flag
    is 0 and the number as initialised, 0). *)
Record edit := Edit {
  ed_comparator : option bytes;
  ed_log_number : option Z;
  ed_prev_log_number : option Z;
  ed_next_file_number : option Z;
  ed_last_sequence : option Z;
  ed_compact_pointers : list ikey_entry;
  ed_deleted_files : list file_entry;
  ed_new_files : list meta_entry
}.

Definition ldb_edit_init : edit := Edit None None None None None [] [] [].
Definition ldb_edit_reset (e : edit) : edit := ldb_edit_init.

Definition ldb_edit_set_comparator (e : edit) (name : bytes) : edit :=
  Edit (Some name) (ed_log_number e) (ed_prev_log_number e) (ed_next_file_number e) (ed_last_sequence e)
    (ed_compact_pointers e) (ed_deleted_files e) (ed_new_files e).

Definition ldb_edit_set_comparator_name (e : edit) (name : string) : edit := ldb_edit_set_comparator e (cstr name).

Definition ldb_edit_set_log_number (e : edit) (num : Z) : edit :=
  Edit (ed_comparator e) (Some num) (ed_prev_log_number e) (ed_next_file_number e) (ed_last_sequence e)
    (ed_compact_pointers e) (ed_deleted_files e) (ed_new_files e).

Definition ldb_edit_set_prev_log_number (e : edit) (num : Z) : edit :=
  Edit (ed_comparator e) (ed_log_number e) (Some num) (ed_next_file_number e) (ed_last_sequence e)
    (ed_compact_pointers e) (ed_deleted_files e) (ed_new_files e).

Definition ldb_edit_set_next_file (e : edit) (num : Z) : edit :=
  Edit (ed_comparator e) (ed_log_number e) (ed_prev_log_number e) (Some num) (ed_last_sequence e)
    (ed_compact_pointers e) (ed_deleted_files e) (ed_new_files e).

Definition ldb_edit_set_last_sequence (e : edit) (seq : Z) : edit :=
  Edit (ed_comparator e) (ed_log_number e) (ed_prev_log_number e) (ed_next_file_number e) (Some seq)
    (ed_compact_pointers e) (ed_deleted_files e) (ed_new_files e).

Definition ldb_edit_set_compact_pointer (e : edit) (level : Z) (key : bytes) : edit :=
  Edit (ed_comparator e) (ed_log_number e) (ed_prev_log_number e) (ed_next_file_number e) (ed_last_sequence e)
    (ed_compact_pointers e ++ [IkeyEntry level (ldb_ikey_copy key)]) (ed_deleted_files e) (ed_new_files e).

Definition ldb_edit_add_file (e : edit) (level number file_size : Z) (smallest largest : bytes) : edit :=
  Edit (ed_comparator e) (ed_log_number e) (ed_prev_log_number e) (ed_next_file_number e) (ed_last_sequence e)
    (ed_compact_pointers e) (ed_deleted_files e)
    (ed_new_files e ++ [meta_entry_create level number file_size smallest largest]).

Definition ldb_edit_remove_file (e : edit) (level number : Z) : edit :=
  Edit (ed_comparator e) (ed_log_number e) (ed_prev_log_number e) (ed_next_file_number e) (ed_last_sequence e)
    (ed_compact_pointers e) (rb_set_put file_entry_compare (ed_deleted_files e) (FileEntry level number)).1 (ed_new_files e).

(** ** Encoding *)

Definition TAG_COMPARATOR : Z := 1.
Definition TAG_LOG_NUMBER : Z := 2.
Definition TAG_NEXT_FILE_NUMBER : Z := 3.
Definition TAG_LAST_SEQUENCE : Z := 4.
Definition TAG_COMPACT_POINTER : Z := 5.
Definition TAG_DELETED_FILE : Z := 6.
Definition TAG_NEW_FILE : Z := 7.
Definition TAG_PREV_LOG_NUMBER : Z := 9.

Definition export_number (tag : Z) (num : option Z) : bytes :=
  match num with Some num => varint32_write tag ++ varint64_write num | None => [] end.

Definition export_pointer (entry : ikey_entry) : bytes :=
  varint32_write TAG_COMPACT_POINTER ++ varint32_write (u32 (ike_level entry)) ++ slice_write (ike_key entry).

Definition export_deleted (entry : file_entry) : bytes :=
  varint32_write TAG_DELETED_FILE ++ varint32_write (u32 (fe_level entry)) ++ varint64_write (fe_number entry).

Definition export_file (entry : meta_entry) : bytes :=
  let meta := me_meta entry in
  varint32_write TAG_NEW_FILE ++ varint32_write (u32 (me_level entry)) ++ varint64_write (fm_number meta) ++
  varint64_write (fm_file_size meta) ++ slice_write (fm_smallest meta) ++ slice_write (fm_largest meta).

Definition ldb_edit_export (dst : bytes) (e : edit) : bytes :=
  dst ++
  (match ed_comparator e with Some name => varint32_write TAG_COMPARATOR ++ slice_write name | None => [] end) ++
  export_number TAG_LOG_NUMBER (ed_log_number e) ++
  export_number TAG_PREV_LOG_NUMBER (ed_prev_log_number e) ++
  export_number TAG_NEXT_FILE_NUMBER (ed_next_file_number e) ++
  export_number TAG_LAST_SEQUENCE (ed_last_sequence e) ++
  concat (map export_pointer (ed_compact_pointers e)) ++
  concat (map export_deleted (ed_deleted_files e)) ++
  concat (map export_file (ed_new_files e)).

Definition ldb_level_slurp : rdr Z :=
  rd val <- varint32_slurp;
  if LDB_NUM_LEVELS <=? val then rfail else rret val.

(** One turn of the loop of [ldb_edit_import]. *)
Definition import_field (e : edit) : rdr edit :=
  rd tag <- varint32_slurp;
  if tag =? TAG_COMPARATOR then rd name <- slice_slurp; rret (ldb_edit_set_comparator e name)
  else if tag =? TAG_LOG_NUMBER then rd num <- varint64_slurp; rret (ldb_edit_set_log_number e num)
  else if tag =? TAG_PREV_LOG_NUMBER then rd num <- varint64_slurp; rret (ldb_edit_set_prev_log_number e num)
  else if tag =? TAG_NEXT_FILE_NUMBER then rd num <- varint64_slurp; rret (ldb_edit_set_next_file e num)
  else if tag =? TAG_LAST_SEQUENCE then rd num <- varint64_slurp; rret (ldb_edit_set_last_sequence e num)
  else if tag =? TAG_COMPACT_POINTER then
    rd level <- ldb_level_slurp; rd key <- slice_slurp;
    if zlen key <? 8 then rfail else rret (ldb_edit_set_compact_pointer e level key)
  else if tag =? TAG_DELETED_FILE then
    rd level <- ldb_level_slurp; rd number <- varint64_slurp; rret (ldb_edit_remove_file e level number)
  else if tag =? TAG_NEW_FILE then
    rd level <- ldb_level_slurp; rd number <- varint64_slurp; rd file_size <- varint64_slurp;
    rd smallest <- slice_slurp; rd largest <- slice_slurp;
    if (zlen smallest <? 8) || (zlen largest <? 8) then rfail
    else rret (ldb_edit_add_file e level number file_size smallest largest)
  else rfail.

(** Every turn consumes a byte. *)
Fixpoint import_loop (fuel : nat) (e : edit) (input : bytes) : option edit :=
  match fuel with
  | O => None
  | S fuel =>
    if 0 <? zlen input then
      match import_field e input with
      | (None, _) => None
      | (Some e, input) => import_loop fuel e input
      end
    else Some e
  end.

(** [None]: the import fails (what it leaves in the edit is not modelled). *)
Definition ldb_edit_import (src : bytes) : option edit := import_loop (S (length src)) ldb_edit_init src.

(** ** Printing *)

Definition newline : bytes := [Byte.x0a].

Definition debug_number (label : string) (num : option Z) : bytes :=
  match num with Some num => newline ++ cstr label ++ ldb_encode_int num 0 | None => [] end.

Definition debug_pointer (entry : ikey_entry) : bytes :=
  ldb_ikey_debug (newline ++ cstr "  CompactPointer: " ++ ldb_encode_int (ike_level entry) 0 ++ cstr " ") (ike_key entry).

Definition debug_deleted (entry : file_entry) : bytes :=
  newline ++ cstr "  RemoveFile: " ++ ldb_encode_int (fe_level entry) 0 ++ cstr " " ++ ldb_encode_int (fe_number entry) 0.

Definition debug_file (entry : meta_entry) : bytes :=
  let f := me_meta entry in
  ldb_ikey_debug (ldb_ikey_debug (newline ++ cstr "  AddFile: " ++ ldb_encode_int (me_level entry) 0 ++ cstr " " ++
    ldb_encode_int (fm_number f) 0 ++ cstr " " ++ ldb_encode_int (fm_file_size f) 0 ++ cstr " ") (fm_smallest f) ++ cstr " .. ")
    (fm_largest f).

Definition ldb_edit_debug (z : bytes) (e : edit) : bytes :=
  z ++ cstr "VersionEdit {" ++
  (match ed_comparator e with Some name => newline ++ cstr "  Comparator: " ++ name | None => [] end) ++
  debug_number "  LogNumber: " (ed_log_number e) ++
  debug_number "  PrevLogNumber: " (ed_prev_log_number e) ++
  debug_number "  NextFile: " (ed_next_file_number e) ++
  debug_number "  LastSeq: " (ed_last_sequence e) ++
  concat (map debug_pointer (ed_compact_pointers e)) ++
  concat (map debug_deleted (ed_deleted_files e)) ++
  concat (map debug_file (ed_new_files e)) ++ newline ++ cstr "}" ++ newline.

(** ** Fields

    The records of the encoding; also the operations that build an edit. *)

Inductive field :=
  | SetComparator (name : bytes)
  | SetLogNumber (num : Z)
  | SetPrevLogNumber (num : Z)
  | SetNextFile (num : Z)
  | SetLastSequence (seq : Z)
  | SetCompactPointer (level : Z) (key : bytes)
  | RemoveFile (level number : Z)
  | AddFile (level number file_size : Z) (smallest largest : bytes).

Definition apply_field (e : edit) (f : field) : edit :=
  match f with
  | SetComparator name => ldb_edit_set_comparator e name
  | SetLogNumber num => ldb_edit_set_log_number e num
  | SetPrevLogNumber num => ldb_edit_set_prev_log_number e num
  | SetNextFile num => ldb_edit_set_next_file e num
  | SetLastSequence seq => ldb_edit_set_last_sequence e seq
  | SetCompactPointer level key => ldb_edit_set_compact_pointer e level key
  | RemoveFile level number => ldb_edit_remove_file e level number
  | AddFile level number file_size smallest largest => ldb_edit_add_file e level number file_size smallest largest
  end.

Definition apply_fields (e : edit) (fs : list field) : edit := fold_left apply_field fs e.

(** The ranges the encoding can hold. *)
Definition num_ok (n : Z) : Prop := 0 <= n < 2 ^ 64.
Definition level_ok (level : Z) : Prop := 0 <= level < LDB_NUM_LEVELS.
Definition ikey_ok (key : bytes) : Prop := 8 <= zlen key < 2 ^ 32.

Definition field_ok (f : field) : Prop :=
  match f with
  | SetComparator name => slice_wf name
  | SetLogNumber num | SetPrevLogNumber num | SetNextFile num | SetLastSequence num => num_ok num
  | SetCompactPointer level key => level_ok level /\ ikey_ok key
  | RemoveFile level number => level_ok level /\ num_ok number
  | AddFile level number file_size smallest largest =>
      level_ok level /\ num_ok number /\ num_ok file_size /\ ikey_ok smallest /\ ikey_ok largest
  end.

Definition field_bytes (f : field) : bytes :=
  match f with
  | SetComparator name => varint32_write TAG_COMPARATOR ++ slice_write name
  | SetLogNumber num => export_number TAG_LOG_NUMBER (Some num)
  | SetPrevLogNumber num => export_number TAG_PREV_LOG_NUMBER (Some num)
  | SetNextFile num => export_number TAG_NEXT_FILE_NUMBER (Some num)
  | SetLastSequence num => export_number TAG_LAST_SEQUENCE (Some num)
  | SetCompactPointer level key => export_pointer (IkeyEntry level key)
  | RemoveFile level number => export_deleted (FileEntry level number)
  | AddFile level number file_size smallest largest => export_file (meta_entry_create level number file_size smallest largest)
  end.

(** Metadata as files are added: no references yet. *)
Definition meta_ok (entry : meta_entry) : Prop :=
  let meta := me_meta entry in
  level_ok (me_level entry) /\ num_ok (fm_number meta) /\ num_ok (fm_file_size meta) /\
  ikey_ok (fm_smallest meta) /\ ikey_ok (fm_largest meta) /\
  fm_refs meta = fm_refs ldb_filemeta_init /\ fm_allowed_seeks meta = fm_allowed_seeks ldb_filemeta_init.

(** The type of edits. *)
Record edit_wf (e : edit) : Prop := {
  wf_comparator : from_option slice_wf True (ed_comparator e);
  wf_log : from_option num_ok True (ed_log_number e);
  wf_prev_log : from_option num_ok True (ed_prev_log_number e);
  wf_next_file : from_option num_ok True (ed_next_file_number e);
  wf_sequence : from_option num_ok True (ed_last_sequence e);
  wf_pointers : Forall (fun p => level_ok (ike_level p) /\ ikey_ok (ike_key p)) (ed_compact_pointers e);
  wf_deleted : Forall (fun f => level_ok (fe_level f) /\ num_ok (fe_number f)) (ed_deleted_files e);
  wf_deleted_sorted : StronglySorted (fun x y => file_entry_compare x y < 0) (ed_deleted_files e);
  wf_new : Forall meta_ok (ed_new_files e)
}.

(** *** The set of deleted files *)

Lemma file_entry_compare_lt x y :
  file_entry_compare x y < 0 <-> fe_level x < fe_level y \/ (fe_level x = fe_level y /\ fe_number x < fe_number y).
Proof.
  unfold file_entry_compare. destruct (Z.eqb_spec (fe_level x) (fe_level y)); cbn [negb]; [|lia].
  destruct (Z.ltb_spec (fe_number x) (fe_number y)); [lia|]. destruct (Z.ltb_spec (fe_number y) (fe_number x)); lia.
Qed.

Lemma file_entry_compare_eq x y : file_entry_compare x y = 0 <-> x = y.
Proof.
  unfold file_entry_compare. destruct x as [l n], y as [l' n']. cbn [fe_level fe_number].
  destruct (Z.eqb_spec l l') as [->|Hl]; cbn [negb].
  - destruct (Z.ltb_spec n n'); [|destruct (Z.ltb_spec n' n)]; split; intros H'; try lia; try (injection H'; lia). f_equal. lia.
  - split; [lia|]. by intros [= ? _].
Qed.

Lemma file_entry_total x y : file_entry_compare x y < 0 \/ x = y \/ file_entry_compare y x < 0.
Proof.
  rewrite !file_entry_compare_lt. destruct x as [l n], y as [l' n']. cbn [fe_level fe_number].
  destruct (Z.lt_trichotomy l l') as [?|[->|?]]; [auto| |auto]. destruct (Z.lt_trichotomy n n') as [?|[->|?]]; auto.
Qed.

Lemma rb_set_put_elem s x y : y ∈ (rb_set_put file_entry_compare s x).1 <-> y = x \/ y ∈ s.
Proof.
  induction s as [|z s IH]; cbn [rb_set_put fst].
  - rewrite list_elem_of_singleton, elem_of_nil. tauto.
  - destruct (Z.ltb_spec (file_entry_compare x z) 0); cbn [fst]; [by rewrite !elem_of_cons|].
    destruct (Z.eqb_spec (file_entry_compare x z) 0) as [E|]; cbn [fst].
    + apply file_entry_compare_eq in E as ->. rewrite !elem_of_cons. tauto.
    + destruct (rb_set_put file_entry_compare s x) as [s' new]. cbn [fst] in *. rewrite !elem_of_cons, IH. tauto.
Qed.

Lemma rb_set_put_sorted s x :
  StronglySorted (fun x y => file_entry_compare x y < 0) s ->
  StronglySorted (fun x y => file_entry_compare x y < 0) (rb_set_put file_entry_compare s x).1.
Proof.
  induction 1 as [|z s Hs IH Hz]; cbn [rb_set_put]; [by repeat constructor|].
  destruct (Z.ltb_spec (file_entry_compare x z) 0) as [Hlt|Hge]; cbn [fst].
  - constructor; [by constructor|]. constructor; [done|]. eapply List.Forall_impl; [|exact Hz]. intros y Hy.
    rewrite file_entry_compare_lt in *. lia.
  - destruct (Z.eqb_spec (file_entry_compare x z) 0) as [E|Hne]; cbn [fst]; [by constructor|].
    pose proof (rb_set_put_elem s x) as Hel. destruct (rb_set_put file_entry_compare s x) as [s' new]. cbn [fst] in *.
    constructor; [done|]. apply List.Forall_forall. intros y Hy%list_elem_of_In. apply Hel in Hy as [->|Hy].
    + destruct (file_entry_total z x) as [|[->|]]; [done| |lia]. by rewrite (proj2 (file_entry_compare_eq x x) eq_refl) in Hne.
    + rewrite List.Forall_forall in Hz. by apply Hz, list_elem_of_In.
Qed.

Lemma rb_set_put_last s x : Forall (fun y => file_entry_compare y x < 0) s -> (rb_set_put file_entry_compare s x).1 = s ++ [x].
Proof.
  induction 1 as [|z s Hz _ IH]; [done|]. cbn [rb_set_put].
  destruct (Z.ltb_spec (file_entry_compare x z) 0); [rewrite file_entry_compare_lt in *; lia|].
  destruct (Z.eqb_spec (file_entry_compare x z) 0) as [E|].
  { apply file_entry_compare_eq in E as ->. rewrite file_entry_compare_lt in Hz. lia. }
  destruct (rb_set_put file_entry_compare s x). cbn [fst] in *. by rewrite IH.
Qed.

(** *** The fields of an edit *)

Definition option_field (f : Z -> field) (o : option Z) : list field := match o with Some n => [f n] | None => [] end.

Definition edit_fields (e : edit) : list field :=
  (match ed_comparator e with Some name => [SetComparator name] | None => [] end) ++
  option_field SetLogNumber (ed_log_number e) ++
  option_field SetPrevLogNumber (ed_prev_log_number e) ++
  option_field SetNextFile (ed_next_file_number e) ++
  option_field SetLastSequence (ed_last_sequence e) ++
  map (fun p => SetCompactPointer (ike_level p) (ike_key p)) (ed_compact_pointers e) ++
  map (fun f => RemoveFile (fe_level f) (fe_number f)) (ed_deleted_files e) ++
  map (fun f => AddFile (me_level f) (fm_number (me_meta f)) (fm_file_size (me_meta f)) (fm_smallest (me_meta f)) (fm_largest (me_meta f)))
    (ed_new_files e).

Lemma export_fields z e : ldb_edit_export z e = z ++ concat (map field_bytes (edit_fields e)).
Proof.
  unfold ldb_edit_export, edit_fields. f_equal. rewrite !map_app, !concat_app, !map_map.
  assert (forall (f : Z -> field) tag o, (forall n, field_bytes (f n) = export_number tag (Some n)) ->
    concat (map field_bytes (option_field f o)) = export_number tag o) as H.
  { intros f tag [n|] Hf; cbn; [by rewrite Hf, app_nil_r|done]. }
  rewrite (H SetLogNumber TAG_LOG_NUMBER), (H SetPrevLogNumber TAG_PREV_LOG_NUMBER), (H SetNextFile TAG_NEXT_FILE_NUMBER),
    (H SetLastSequence TAG_LAST_SEQUENCE) by done.
  assert (concat (map field_bytes (match ed_comparator e with Some name => [SetComparator name] | None => [] end)) =
    match ed_comparator e with Some name => varint32_write TAG_COMPARATOR ++ slice_write name | None => [] end) as ->.
  { destruct (ed_comparator e); cbn [map concat field_bytes]; [by rewrite app_nil_r|done]. }
  rewrite (map_ext export_pointer (fun p => field_bytes (SetCompactPointer (ike_level p) (ike_key p)))) by (by intros []).
  rewrite (map_ext export_deleted (fun f => field_bytes (RemoveFile (fe_level f) (fe_number f)))) by (by intros []).
  done.
Qed.

Lemma edit_fields_ok e : edit_wf e -> Forall field_ok (edit_fields e).
Proof.
  intros [H1 H2 H3 H4 H5 H6 H7 _ H9]. unfold edit_fields.
  repeat (apply List.Forall_app; split).
  - destruct (ed_comparator e); [by apply List.Forall_cons|apply List.Forall_nil].
  - destruct (ed_log_number e); [by apply List.Forall_cons|apply List.Forall_nil].
  - destruct (ed_prev_log_number e); [by apply List.Forall_cons|apply List.Forall_nil].
  - destruct (ed_next_file_number e); [by apply List.Forall_cons|apply List.Forall_nil].
  - destruct (ed_last_sequence e); [by apply List.Forall_cons|apply List.Forall_nil].
  - apply List.Forall_map. eapply List.Forall_impl; [|exact H6]. by intros p.
  - apply List.Forall_map. eapply List.Forall_impl; [|exact H7]. by intros p.
  - apply List.Forall_map. eapply List.Forall_impl; [|exact H9]. intros f (? & ? & ? & ? & ? & _). by cbn.
Qed.

Lemma apply_fields_wf fs : forall e, edit_wf e -> Forall field_ok fs -> edit_wf (apply_fields e fs).
Proof.
  induction fs as [|f fs IH]; intros e He Hf; [done|]. apply List.Forall_cons_iff in Hf as [Hf Hfs]. apply IH; [|done].
  destruct He as [H1 H2 H3 H4 H5 H6 H7 H8 H9]. destruct f; cbn in Hf; split; cbn; try done.
  - apply List.Forall_app. split; [done|]. by apply List.Forall_cons.
  - apply List.Forall_forall. intros y Hy%list_elem_of_In. apply rb_set_put_elem in Hy as [->|Hy]; [by cbn|].
    rewrite List.Forall_forall in H7. by apply H7, list_elem_of_In.
  - by apply rb_set_put_sorted.
  - apply List.Forall_app. split; [done|]. destruct Hf as (? & ? & ? & ? & ?). by apply List.Forall_cons.
Qed.

Lemma init_wf : edit_wf ldb_edit_init.
Proof. split; cbn; try done; constructor. Qed.

Lemma apply_fields_cons e f fs : apply_fields e (f :: fs) = apply_fields (apply_field e f) fs.
Proof. done. Qed.

Lemma apply_fields_app e fs gs : apply_fields e (fs ++ gs) = apply_fields (apply_fields e fs) gs.
Proof. apply fold_left_app. Qed.

Lemma apply_pointers ps e :
  apply_fields e (map (fun p => SetCompactPointer (ike_level p) (ike_key p)) ps) =
  Edit (ed_comparator e) (ed_log_number e) (ed_prev_log_number e) (ed_next_file_number e) (ed_last_sequence e)
    (ed_compact_pointers e ++ ps) (ed_deleted_files e) (ed_new_files e).
Proof.
  revert e. induction ps as [|[l k] ps IH]; intros e; [by rewrite app_nil_r; destruct e|].
  cbn [map]. rewrite apply_fields_cons, IH. cbn. by rewrite <- app_assoc.
Qed.

Lemma apply_deleted fs e :
  StronglySorted (fun x y => file_entry_compare x y < 0) (ed_deleted_files e ++ fs) ->
  apply_fields e (map (fun f => RemoveFile (fe_level f) (fe_number f)) fs) =
  Edit (ed_comparator e) (ed_log_number e) (ed_prev_log_number e) (ed_next_file_number e) (ed_last_sequence e)
    (ed_compact_pointers e) (ed_deleted_files e ++ fs) (ed_new_files e).
Proof.
  revert e. induction fs as [|[l n] fs IH]; intros e Hs; [by rewrite app_nil_r; destruct e|].
  cbn [map fe_level fe_number]. rewrite apply_fields_cons.
  assert ((rb_set_put file_entry_compare (ed_deleted_files e) (FileEntry l n)).1 = ed_deleted_files e ++ [FileEntry l n]) as E.
  { apply rb_set_put_last. apply List.Forall_forall. intros y Hy%list_elem_of_In.
    apply (StronglySorted_app_1_elem_of _ _ _ y (FileEntry l n) Hs Hy). by left. }
  assert (apply_field e (RemoveFile l n) = Edit (ed_comparator e) (ed_log_number e) (ed_prev_log_number e) (ed_next_file_number e)
    (ed_last_sequence e) (ed_compact_pointers e) (ed_deleted_files e ++ [FileEntry l n]) (ed_new_files e)) as ->.
  { cbn [apply_field]. unfold ldb_edit_remove_file. by rewrite E. }
  rewrite IH; cbn [ed_comparator ed_log_number ed_prev_log_number ed_next_file_number ed_last_sequence ed_compact_pointers
    ed_deleted_files ed_new_files]; by rewrite <- app_assoc.
Qed.

Lemma apply_files fs e : Forall meta_ok fs ->
  apply_fields e (map (fun f => AddFile (me_level f) (fm_number (me_meta f)) (fm_file_size (me_meta f)) (fm_smallest (me_meta f))
    (fm_largest (me_meta f))) fs) =
  Edit (ed_comparator e) (ed_log_number e) (ed_prev_log_number e) (ed_next_file_number e) (ed_last_sequence e)
    (ed_compact_pointers e) (ed_deleted_files e) (ed_new_files e ++ fs).
Proof.
  intros Hf. revert e. induction Hf as [|[l [r a n sz sm la]] fs Hm Hf IH]; intros e; [by rewrite app_nil_r; destruct e|].
  destruct Hm as (_ & _ & _ & _ & _ & Hr & Ha). cbn in Hr, Ha. subst.
  cbn [map]. rewrite apply_fields_cons, IH. cbn. by rewrite <- app_assoc.
Qed.

Lemma apply_edit_fields e : edit_wf e -> apply_fields ldb_edit_init (edit_fields e) = e.
Proof.
  intros [_ _ _ _ _ _ _ Hs Hn]. unfold edit_fields. rewrite !apply_fields_app, apply_pointers.
  rewrite apply_deleted by (destruct e as [c l p n s ps ds fs]; cbn in *; by destruct c, l, p, n, s).
  rewrite apply_files by done. destruct e as [c l p n s ps ds fs]. cbn in *. by destruct c, l, p, n, s.
Qed.

(** *** Reading fields *)

Lemma level_slurp_write level rest {A} (k : Z -> rdr A) : level_ok level ->
  rbind ldb_level_slurp k (varint32_write (u32 level) ++ rest) = k level rest.
Proof.
  intros [H1 H2]. unfold LDB_NUM_LEVELS in *. rewrite u32_small by lia. unfold rbind, ldb_level_slurp.
  rewrite (codec_step (fun x => 0 <= x < 2 ^ 32) varint32_write varint32_read) by lia.
  unfold LDB_NUM_LEVELS. by rewrite (proj2 (Z.leb_gt _ _)) by lia.
Qed.

(** Compares the tag with all tags. *)
Ltac eval_tags :=
  cbn [Z.eqb Pos.eqb TAG_NEW_FILE TAG_DELETED_FILE TAG_COMPACT_POINTER TAG_COMPARATOR TAG_LOG_NUMBER TAG_PREV_LOG_NUMBER
    TAG_NEXT_FILE_NUMBER TAG_LAST_SEQUENCE].

Lemma import_field_bytes e f rest : field_ok f -> import_field e (field_bytes f ++ rest) = (Some (apply_field e f), rest).
Proof.
  intros Hf. unfold import_field.
  assert (forall tag n k, 0 <= tag < 10 -> num_ok n ->
    rbind varint32_slurp k (export_number tag (Some n) ++ rest) = (k tag (varint64_write n ++ rest) : option edit * bytes)) as Hnum.
  { intros tag n k Ht Hn. unfold export_number. rewrite <- app_assoc.
    by rewrite (codec_step (fun x => 0 <= x < 2 ^ 32) varint32_write varint32_read) by lia. }
  assert (forall k n r, num_ok n -> rbind varint64_slurp k (varint64_write n ++ r) = (k n r : option edit * bytes)) as H64.
  { intros k n r Hn. by rewrite (codec_step (fun x => 0 <= x < 2 ^ 64) varint64_write varint64_read). }
  assert (forall k x r, slice_wf x -> rbind slice_slurp k (slice_write x ++ r) = (k x r : option edit * bytes)) as Hsl.
  { intros k x r Hx. by rewrite (codec_step slice_wf slice_write slice_read). }
  assert (forall k tag r, 0 <= tag < 10 -> rbind varint32_slurp k (varint32_write tag ++ r) = (k tag r : option edit * bytes)) as H32.
  { intros k tag r Ht. by rewrite (codec_step (fun x => 0 <= x < 2 ^ 32) varint32_write varint32_read) by lia. }
  assert (forall key, ikey_ok key -> (zlen key <? 8) = false) as H8 by (intros key [? _]; by apply Z.ltb_ge).
  assert (forall key, ikey_ok key -> slice_wf key) as Hwf by (by intros key [_ ?]).
  destruct f; cbn [field_bytes field_ok] in *; unfold export_pointer, export_deleted, export_file, meta_entry_create;
    cbn [ike_level ike_key fe_level fe_number me_level me_meta fm_number fm_file_size fm_smallest fm_largest]; rewrite <- ?app_assoc.
  - rewrite H32, Z.eqb_refl, Hsl by (done || unfold TAG_COMPARATOR; lia). done.
  - rewrite Hnum by (done || unfold TAG_LOG_NUMBER; lia). eval_tags. by rewrite H64.
  - rewrite Hnum by (done || unfold TAG_PREV_LOG_NUMBER; lia). eval_tags. by rewrite H64.
  - rewrite Hnum by (done || unfold TAG_NEXT_FILE_NUMBER; lia). eval_tags. by rewrite H64.
  - rewrite Hnum by (done || unfold TAG_LAST_SEQUENCE; lia). eval_tags. by rewrite H64.
  - destruct Hf as [Hl Hk]. rewrite H32 by (unfold TAG_COMPACT_POINTER; lia). eval_tags.
    rewrite level_slurp_write, Hsl, H8 by auto. done.
  - destruct Hf as [Hl Hn]. rewrite H32 by (unfold TAG_DELETED_FILE; lia). eval_tags.
    rewrite level_slurp_write, H64 by auto. done.
  - destruct Hf as (Hl & Hn & Hz & Hs & Hg). rewrite H32 by (unfold TAG_NEW_FILE; lia). eval_tags.
    rewrite level_slurp_write, !H64, !Hsl, !H8 by auto. done.
Qed.

Lemma field_bytes_pos f : 0 < zlen (field_bytes f).
Proof.
  assert (forall tag r, 0 < zlen (varint32_write tag ++ r)) as H.
  { intros tag r. rewrite zlen_app, zlen_varint32_write. pose proof (varint32_size_range tag). pose proof (zlen_nonneg r). lia. }
  destruct f; cbn [field_bytes]; unfold export_number, export_pointer, export_deleted, export_file; apply H.
Qed.

Lemma import_loop_fields fs : forall fuel e, Forall field_ok fs -> (length (concat (map field_bytes fs)) < fuel)%nat ->
  import_loop fuel e (concat (map field_bytes fs)) = Some (apply_fields e fs).
Proof.
  induction fs as [|f fs IH]; intros [|fuel] e Hf Hl; try lia; [done|]. cbn [map concat import_loop] in *. rewrite length_app in Hl.
  apply List.Forall_cons_iff in Hf as [Hf Hfs]. pose proof (field_bytes_pos f). pose proof (zlen_nonneg (concat (map field_bytes fs))).
  rewrite (proj2 (Z.ltb_lt _ _)) by (rewrite zlen_app; lia). rewrite import_field_bytes, apply_fields_cons by done.
  apply IH; [done|]. unfold zlen in *. lia.
Qed.

(** Whatever is read is one of the fields. *)
Lemma import_field_sound e input e' rest : import_field e input = (Some e', rest) ->
  exists f, field_ok f /\ e' = apply_field e f /\ zlen rest < zlen input.
Proof.
  assert (forall xs v ys, varint64_slurp xs = (Some v, ys) -> num_ok v /\ zlen ys <= zlen xs) as H64.
  { intros xs v ys H. apply varint64_read_sound in H as (Hv & p & -> & _). split; [done|]. rewrite zlen_app. pose proof (zlen_nonneg p). lia. }
  assert (forall xs v ys, slice_slurp xs = (Some v, ys) -> slice_wf v /\ zlen ys <= zlen xs) as Hsl.
  { intros xs v ys H. apply slice_read_sound in H as (Hv & p & -> & _). split; [done|]. rewrite !zlen_app.
    pose proof (zlen_nonneg p). pose proof (zlen_nonneg v). lia. }
  assert (forall xs v ys, ldb_level_slurp xs = (Some v, ys) -> level_ok v /\ zlen ys <= zlen xs) as Hlv.
  { intros xs v ys H. apply rbind_inv in H as (n & zs & H1 & H2). apply varint32_read_sound in H1 as (Hn & p & -> & _).
    destruct (Z.leb_spec LDB_NUM_LEVELS n); [done|]. injection H2 as -> ->. unfold level_ok. split; [lia|]. rewrite zlen_app.
    pose proof (zlen_nonneg p). lia. }
  assert (forall key, slice_wf key -> (zlen key <? 8) = false -> ikey_ok key) as Hk by (intros key ? ?%Z.ltb_ge; by split).
  intros H. unfold import_field in H. apply rbind_inv in H as (tag & zs & H1 & H).
  apply varint32_read_sound in H1 as (_ & p & -> & Hp). rewrite zlen_app.
  repeat match type of H with
  | (if ?b then _ else _) _ = _ => destruct b eqn:?
  | rbind _ _ _ = _ => let v := fresh "v" in let ys := fresh "ys" in let E := fresh "E" in apply rbind_inv in H as (v & ys & E & H);
      first [apply H64 in E | apply Hsl in E | apply Hlv in E]; destruct E as [? ?]
  | rret _ _ = _ => injection H as <- <-
  | rfail _ = _ => discriminate H
  end.
  - eexists (SetComparator _). split; [eassumption|]. split; [reflexivity|lia].
  - eexists (SetLogNumber _). split; [eassumption|]. split; [reflexivity|lia].
  - eexists (SetPrevLogNumber _). split; [eassumption|]. split; [reflexivity|lia].
  - eexists (SetNextFile _). split; [eassumption|]. split; [reflexivity|lia].
  - eexists (SetLastSequence _). split; [eassumption|]. split; [reflexivity|lia].
  - eexists (SetCompactPointer _ _). split; [split; [eassumption|by apply Hk]|]. split; [reflexivity|lia].
  - eexists (RemoveFile _ _). split; [split; eassumption|]. split; [reflexivity|lia].
  - match goal with H : (_ || _) = false |- _ => apply orb_false_iff in H as [? ?] end.
    exists (AddFile v v0 v1 v2 v3). split; [split; [eassumption|]; split; [eassumption|]; split; [eassumption|]; split; by apply Hk|].
    split; [reflexivity|lia].
Qed.

Lemma import_loop_sound fuel : forall e input e', edit_wf e -> import_loop fuel e input = Some e' -> edit_wf e'.
Proof.
  induction fuel as [|fuel IH]; intros e input e' He; [done|]. cbn [import_loop].
  destruct (0 <? zlen input); [|by intros [= <-]]. destruct (import_field e input) as [[e1|] rest] eqn:E; [|done].
  apply import_field_sound in E as (f & Hf & -> & _). apply IH. apply (apply_fields_wf [f] e He). by apply List.Forall_cons.
Qed.

(** The fuel is enough: the loop ends on every input. *)
Lemma import_loop_total fuel n : forall e input, (length input < fuel)%nat -> (length input < n)%nat ->
  import_loop fuel e input = import_loop n e input.
Proof.
  revert n. induction fuel as [|fuel IH]; intros [|n] e input Hl Hn; try lia. cbn [import_loop].
  destruct (0 <? zlen input); [|done]. destruct (import_field e input) as [[e1|] rest] eqn:E; [|done].
  apply import_field_sound in E as (f & _ & _ & Hz). apply IH; unfold zlen in *; lia.
Qed.

Lemma import_export e : edit_wf e -> ldb_edit_import (ldb_edit_export [] e) = Some e.
Proof.
  intros He. rewrite export_fields. cbn [app]. unfold ldb_edit_import.
  rewrite import_loop_fields; [|by apply edit_fields_ok|lia]. by rewrite apply_edit_fields.
Qed.

(** ** Properties *)

(** C38: The manifest records edits faithfully: an edit built by any sequence of
    operations with arguments in range (files added and removed, in any order
    and repeatedly, compaction pointers, numbers, the comparator's name) is well
    formed, and importing its encoding gives it back. *)
Theorem edit_roundtrip fs : Forall field_ok fs ->
  let e := apply_fields ldb_edit_init fs in
  edit_wf e /\ ldb_edit_import (ldb_edit_export [] e) = Some e.
Proof.
  intros Hf e. assert (edit_wf e) as He by (apply apply_fields_wf; [apply init_wf|done]). split; [done|]. by apply import_export.
Qed.

Lemma edit_roundtrip_witness :
  let fs := [SetComparator (cstr "leveldb.BytewiseComparator"); SetLogNumber 7; AddFile 2 9 4096 (zeros 8) (zeros 9);
    RemoveFile 3 5; RemoveFile 1 8; RemoveFile 3 5; SetCompactPointer 6 (zeros 12); SetLastSequence (2 ^ 56 - 1)] in
  let e := apply_fields ldb_edit_init fs in
  ed_deleted_files e = [FileEntry 1 8; FileEntry 3 5] /\ edit_wf e /\ ldb_edit_import (ldb_edit_export [] e) = Some e.
Proof.
  intros fs e. split; [reflexivity|]. apply (edit_roundtrip fs).
  repeat (apply List.Forall_cons; [cbn; repeat split; by vm_compute|]). apply List.Forall_nil.
Defined.

(** Edits read from the manifest are well typed: whatever bytes the import
    accepts, every level is below [LDB_NUM_LEVELS], every internal key has its
    tag, numbers are 64-bit, the set of deleted files is sorted without
    duplicates, and encoding the edit again is accepted and gives the same
    edit. *)
Theorem edit_import_typed src e : ldb_edit_import src = Some e ->
  edit_wf e /\ ldb_edit_import (ldb_edit_export [] e) = Some e.
Proof.
  intros E. assert (edit_wf e) as He by (eapply import_loop_sound; [apply init_wf|exact E]). split; [done|].
  rewrite export_fields. cbn [app]. unfold ldb_edit_import. rewrite import_loop_fields; [|by apply edit_fields_ok|lia].
  by rewrite apply_edit_fields.
Qed.

Lemma edit_import_typed_witness :
  let src := [Byte.x09; Byte.x05; Byte.x06; Byte.x02; Byte.x07; Byte.x02; Byte.x81; Byte.x00; Byte.x06; Byte.x01; Byte.x03] in
  exists e, ldb_edit_import src = Some e /\ ed_deleted_files e = [FileEntry 1 3; FileEntry 2 7] /\ edit_wf e /\
    ldb_edit_import (ldb_edit_export [] e) = Some e.
Proof.
  intros src. eexists. split; [vm_compute; reflexivity|]. split; [reflexivity|].
  apply (edit_import_typed src). vm_compute. reflexivity.
Defined.
