(* ===== verification/Vector.v ===== *)
(** * Vectors and arrays

    Models [src/engine/src/util/vector.c] (vectors of pointers) and
    [src/engine/src/util/array.c] (the same code for 64-bit integers): growing
    arrays and their quicksort, with the Hoare partition. *)

From stdpp Require Import sorting.
From S2P Require Import Prelude.
#[local] Open Scope Z_scope.

(** ** Vectors *)

(** [ldb_vector_t]: the items in use ([length] of them) and the size of the
    block. *)
Record vector (A : Type) := Vector { vec_items : list A; vec_alloc : Z }.
Arguments Vector {A}.
Arguments vec_items {A}.
Arguments vec_alloc {A}.

Section Vector.
Context {A : Type}.

Definition ldb_vector_init : vector A := Vector [] 0.
Definition ldb_vector_clear (z : vector A) : vector A := Vector [] 0.
Definition ldb_vector_reset (z : vector A) : vector A := Vector [] (vec_alloc z).

Definition ldb_vector_grow (z : vector A) (zn : Z) : vector A :=
  if vec_alloc z <? zn then Vector (vec_items z) zn else z.

(** [None]: a store behind the block. *)
Definition ldb_vector_push (z : vector A) (x : A) : option (vector A) :=
  let z := if zlen (vec_items z) =? vec_alloc z
           then ldb_vector_grow z (vec_alloc z * 3 / 2 + (if vec_alloc z <=? 1 then 1 else 0)) else z in
  if zlen (vec_items z) <? vec_alloc z then Some (Vector (vec_items z ++ [x]) (vec_alloc z)) else None.

(** [None]: the assertion fails. *)
Definition ldb_vector_pop (z : vector A) : option (A * vector A) :=
  x ← list.last (vec_items z); Some (x, Vector (take (length (vec_items z) - 1) (vec_items z)) (vec_alloc z)).

Definition ldb_vector_top (z : vector A) : option A := list.last (vec_items z).

Definition ldb_vector_copy (z x : vector A) : vector A :=
  let z := ldb_vector_grow z (zlen (vec_items x)) in Vector (vec_items x) (vec_alloc z).

(** ** Quicksort *)

(** [items[i]]; [None] outside. *)
Definition item (items : list A) (i : Z) : option A := if i <? 0 then None else items !! Z.to_nat i.

Definition ldb_swap (items : list A) (i j : Z) : option (list A) :=
  x ← item items i; y ← item items j;
  Some (<[Z.to_nat j := x]> (<[Z.to_nat i := y]> items)).

Section Sort.
Context (cmp : A -> A -> Z).

(** [do i++; while (cmp(items[i], pivot) < 0);] and its mirror image. *)
Fixpoint scan_up (fuel : nat) (items : list A) (pivot : A) (i : Z) : option Z :=
  match fuel with
  | O => None
  | S fuel =>
    let i := i + 1 in
    x ← item items i;
    if cmp x pivot <? 0 then scan_up fuel items pivot i else Some i
  end.

Fixpoint scan_down (fuel : nat) (items : list A) (pivot : A) (j : Z) : option Z :=
  match fuel with
  | O => None
  | S fuel =>
    let j := j - 1 in
    x ← item items j;
    if 0 <? cmp x pivot then scan_down fuel items pivot j else Some j
  end.

(** Every scan and every turn of the loop is bounded by the number of items. *)
Fixpoint partition_loop (fuel : nat) (items : list A) (pivot : A) (i j : Z) : option (list A * Z) :=
  match fuel with
  | O => None
  | S fuel =>
    i ← scan_up (S (length items)) items pivot i;
    j ← scan_down (S (length items)) items pivot j;
    if j <=? i then Some (items, j)
    else items ← ldb_swap items i j; partition_loop fuel items pivot i j
  end.

(** [None] also when [hi + lo] overflows an [int]. *)
Definition ldb_partition (items : list A) (lo hi : Z) : option (list A * Z) :=
  if 2 ^ 31 <=? hi + lo then None
  else
    pivot ← item items (Z.shiftr (hi + lo) 1);
    partition_loop (S (length items)) items pivot (lo - 1) (hi + 1).

(** The intervals shrink: their size bounds the depth. *)
Fixpoint ldb_qsort (fuel : nat) (items : list A) (lo hi : Z) : option (list A) :=
  if (0 <=? lo) && (0 <=? hi) && (lo <? hi) then
    match fuel with
    | O => None
    | S fuel =>
      '(items, p) ← ldb_partition items lo hi;
      items ← ldb_qsort fuel items lo p;
      ldb_qsort fuel items (p + 1) hi
    end
  else Some items.

Definition sort_items (items : list A) : option (list A) :=
  if 1 <? zlen items then ldb_qsort (length items) items 0 (zlen items - 1) else Some items.

Definition ldb_vector_sort (z : vector A) : option (vector A) :=
  items ← sort_items (vec_items z); Some (Vector items (vec_alloc z)).
End Sort.
End Vector.

(** ** Arrays of integers *)

Definition ldb_array_init : vector Z := ldb_vector_init.
Definition ldb_array_clear : vector Z -> vector Z := ldb_vector_clear.
Definition ldb_array_reset : vector Z -> vector Z := ldb_vector_reset.
Definition ldb_array_grow : vector Z -> Z -> vector Z := ldb_vector_grow.
Definition ldb_array_push : vector Z -> Z -> option (vector Z) := ldb_vector_push.
Definition ldb_array_pop : vector Z -> option (Z * vector Z) := ldb_vector_pop.
Definition ldb_array_top : vector Z -> option Z := ldb_vector_top.
Definition ldb_array_copy : vector Z -> vector Z -> vector Z := ldb_vector_copy.
Definition ldb_array_sort : (Z -> Z -> Z) -> vector Z -> option (vector Z) := ldb_vector_sort.

(** ** Segments of lists *)

(** The items from [lo] to [hi]. *)
Definition seg {A} (lo hi : Z) (items : list A) : list A := ztake (hi + 1 - lo) (zdrop lo items).

(** Only the segment is permuted. *)
Record rearranged {A} (lo hi : Z) (items items' : list A) : Prop := {
  re_perm : items ≡ₚ items';
  re_out i : i < lo \/ hi < i -> item items i = item items' i
}.

Section Segments.
Context {A : Type}.

Lemma rearranged_refl lo hi (items : list A) : rearranged lo hi items items.
Proof. by split. Qed.

Lemma rearranged_trans lo hi (xs ys zs : list A) : rearranged lo hi xs ys -> rearranged lo hi ys zs -> rearranged lo hi xs zs.
Proof. intros [P1 O1] [P2 O2]. split; [by etrans|]. intros i Hi. by rewrite O1, O2. Qed.

Lemma rearranged_weaken lo hi lo' hi' (xs ys : list A) : lo' <= lo -> hi <= hi' -> rearranged lo hi xs ys -> rearranged lo' hi' xs ys.
Proof. intros Hl Hh [P O]. split; [done|]. intros i Hi. apply O. lia. Qed.

Lemma item_range (items : list A) i x : item items i = Some x -> 0 <= i < zlen items.
Proof.
  unfold item. destruct (Z.ltb_spec i 0); [done|]. intros Hx%lookup_lt_Some. unfold zlen. lia.
Qed.

Lemma item_some (items : list A) i : 0 <= i < zlen items -> exists x, item items i = Some x.
Proof.
  intros H. unfold item. rewrite (proj2 (Z.ltb_ge _ _)) by lia. apply lookup_lt_is_Some_2. unfold zlen in H. lia.
Qed.

Lemma item_swap (items : list A) i j x y :
  item items i = Some x -> item items j = Some y ->
  exists items', ldb_swap items i j = Some items' /\ length items' = length items /\ items ≡ₚ items' /\
    forall k, item items' k = if k =? j then Some x else if k =? i then Some y else item items k.
Proof.
  intros Hi Hj. unfold ldb_swap. rewrite Hi, Hj. cbn [mbind option_bind]. eexists. split; [reflexivity|].
  split; [by rewrite !length_insert|]. pose proof (item_range _ _ _ Hi) as Ri. pose proof (item_range _ _ _ Hj) as Rj.
  unfold item in Hi, Hj. rewrite (proj2 (Z.ltb_ge i 0)) in Hi by lia. rewrite (proj2 (Z.ltb_ge j 0)) in Hj by lia.
  unfold zlen in *. split.
  - destruct (decide (i = j)) as [->|Hne].
    { assert (x = y) as -> by congruence. by rewrite list_insert_insert_eq, list_insert_id. }
    symmetry. by apply Permutation_insert_swap.
  - intros k. unfold item. destruct (Z.ltb_spec k 0).
    + by rewrite (proj2 (Z.eqb_neq _ _)), (proj2 (Z.eqb_neq _ _)) by lia.
    + destruct (Z.eqb_spec k j) as [->|]; [by rewrite list_lookup_insert_eq by (rewrite length_insert; lia)|].
      rewrite list_lookup_insert_ne by lia. destruct (Z.eqb_spec k i) as [->|]; [by rewrite list_lookup_insert_eq by lia|].
      by rewrite list_lookup_insert_ne by lia.
Qed.
End Segments.

Lemma item_nat {A} (items : list A) (n : nat) : item items (Z.of_nat n) = items !! n.
Proof. unfold item. by rewrite (proj2 (Z.ltb_ge _ _)), Nat2Z.id by lia. Qed.

Lemma rearranged_length {A} lo hi (xs ys : list A) : rearranged lo hi xs ys -> length xs = length ys.
Proof. intros [P _]. by apply Permutation_length. Qed.

(** The items of the segment are the old ones. *)
Lemma rearranged_seg {A} lo hi (xs ys : list A) m y : 0 <= lo -> rearranged lo hi xs ys -> lo <= m <= hi -> item ys m = Some y ->
  exists m', lo <= m' <= hi /\ item xs m' = Some y.
Proof.
  intros Hlo R Hm Hy. pose proof (rearranged_length _ _ _ _ R) as Hlen. destruct R as [P O].
  set (a := Z.to_nat lo). set (b := Z.to_nat (hi + 1 - lo)).
  assert (take a xs = take a ys) as E1.
  { apply list_eq. intros n. destruct (decide (n < a)%nat); [|by rewrite !lookup_take_ge by lia].
    rewrite !lookup_take_lt by done. rewrite <- !item_nat. apply O. lia. }
  assert (drop b (drop a xs) = drop b (drop a ys)) as E2.
  { apply list_eq. intros n. rewrite !lookup_drop, <- !item_nat. apply O. lia. }
  rewrite <- (take_drop a xs), <- (take_drop a ys), E1 in P. apply Permutation_app_inv_l in P.
  rewrite <- (take_drop b (drop a xs)), <- (take_drop b (drop a ys)), E2 in P. apply Permutation_app_inv_r in P.
  assert (y ∈ take b (drop a ys)) as Hin.
  { apply list_elem_of_lookup. exists (Z.to_nat (m - lo)). rewrite lookup_take_lt, lookup_drop by lia. rewrite <- item_nat.
    rewrite <- Hy. f_equal. lia. }
  rewrite <- P in Hin. apply list_elem_of_lookup in Hin as [n Hn]. apply lookup_take_Some in Hn as [Hn Hb]. rewrite lookup_drop in Hn.
  exists (Z.of_nat (a + n)). split; [lia|]. by rewrite item_nat.
Qed.

(** ** The quicksort *)

Section Correct.
Context {A : Type} (cmp : A -> A -> Z).
Hypothesis cmp_flip : forall x y, Z.sgn (cmp y x) = - Z.sgn (cmp x y).
Hypothesis cmp_trans : forall x y z, cmp x y <= 0 -> cmp y z <= 0 -> cmp x z <= 0.

Lemma scan_up_ok fuel items pivot i k x :
  -1 <= i < k -> item items k = Some x -> 0 <= cmp x pivot -> k - i <= Z.of_nat fuel ->
  exists i' x', scan_up cmp fuel items pivot i = Some i' /\ i < i' <= k /\ item items i' = Some x' /\ 0 <= cmp x' pivot /\
    forall m y, i < m < i' -> item items m = Some y -> cmp y pivot < 0.
Proof.
  revert i. induction fuel as [|fuel IH]; intros i Hi Hk Hx Hf; [lia|]. cbn [scan_up].
  destruct (item_some items (i + 1)) as [y Hy]; [pose proof (item_range _ _ _ Hk); lia|]. rewrite Hy. cbn [mbind option_bind].
  destruct (Z.ltb_spec (cmp y pivot) 0) as [Hlt|Hge].
  - assert (i + 1 < k) by (destruct (decide (i + 1 = k)) as [Ek|]; [rewrite Ek in Hy; simplify_eq; lia|lia]).
    destruct (IH (i + 1)) as (i' & x' & E & Hi' & Hx' & Hp & Hm); [lia|done|done|lia|].
    exists i', x'. split; [done|]. split; [lia|]. split; [done|]. split; [done|]. intros m z Hmi Hz.
    destruct (decide (m = i + 1)) as [->|]; [by simplify_eq|]. apply (Hm m); [lia|done].
  - exists (i + 1), y. split; [done|]. split; [lia|]. split; [done|]. split; [done|]. lia.
Qed.

Lemma scan_down_ok fuel items pivot j k x :
  k < j <= zlen items -> item items k = Some x -> cmp x pivot <= 0 -> j - k <= Z.of_nat fuel ->
  exists j' x', scan_down cmp fuel items pivot j = Some j' /\ k <= j' < j /\ item items j' = Some x' /\ cmp x' pivot <= 0 /\
    forall m y, j' < m < j -> item items m = Some y -> 0 < cmp y pivot.
Proof.
  revert j. induction fuel as [|fuel IH]; intros j Hj Hk Hx Hf; [lia|]. cbn [scan_down].
  destruct (item_some items (j - 1)) as [y Hy]; [pose proof (item_range _ _ _ Hk); lia|]. rewrite Hy. cbn [mbind option_bind].
  destruct (Z.ltb_spec 0 (cmp y pivot)) as [Hlt|Hge].
  - assert (k < j - 1) by (destruct (decide (j - 1 = k)) as [Ek|]; [rewrite Ek in Hy; simplify_eq; lia|lia]).
    destruct (IH (j - 1)) as (j' & x' & E & Hj' & Hx' & Hp & Hm); [lia|done|done|lia|].
    exists j', x'. split; [done|]. split; [lia|]. split; [done|]. split; [done|]. intros m z Hmj Hz.
    destruct (decide (m = j - 1)) as [->|]; [by simplify_eq|]. apply (Hm m); [lia|done].
  - exists (j - 1), y. split; [done|]. split; [lia|]. split; [done|]. split; [done|]. lia.
Qed.

(** The invariant of the partition: the items up to [i] are at most, those from
    [j] on at least the pivot, and both scans have an item to stop at. *)
Record split_at (lo hi : Z) (pivot : A) (items : list A) (i j : Z) : Prop := {
  sp_range : lo - 1 <= i /\ i < j /\ j <= hi + 1;
  sp_below m x : lo <= m <= i -> item items m = Some x -> cmp x pivot <= 0;
  sp_above m x : j <= m <= hi -> item items m = Some x -> 0 <= cmp x pivot;
  sp_up : exists k x, i < k <= hi /\ item items k = Some x /\ 0 <= cmp x pivot /\ (j <= hi \/ k < hi);
  sp_down : exists k x, lo <= k < j /\ item items k = Some x /\ cmp x pivot <= 0
}.

Lemma partition_loop_ok fuel : forall lo hi pivot items i j,
  0 <= lo -> hi < zlen items -> split_at lo hi pivot items i j -> j - i <= Z.of_nat fuel ->
  exists items' p, partition_loop cmp fuel items pivot i j = Some (items', p) /\ rearranged lo hi items items' /\ lo <= p < hi /\
    (forall m x, lo <= m <= p -> item items' m = Some x -> cmp x pivot <= 0) /\
    (forall m x, p < m <= hi -> item items' m = Some x -> 0 <= cmp x pivot).
Proof.
  induction fuel as [|fuel IH]; intros lo hi pivot items i j Hlo Hhi [(R1 & R2 & R3) Hb Ha (ku & xu & Ku & Eu & Cu & Ou) (kd & xd & Kd & Ed & Cd)] Hf; [lia|].
  cbn [partition_loop].
  destruct (scan_up_ok (S (length items)) items pivot i ku xu) as (i' & x & -> & Hi' & Ex & Cx & Mx); [lia|done|done|unfold zlen in *; lia|].
  destruct (scan_down_ok (S (length items)) items pivot j kd xd) as (j' & y & -> & Hj' & Ey & Cy & My); [lia|done|done|unfold zlen in *; lia|].
  cbn [mbind option_bind]. destruct (Z.leb_spec j' i') as [Hle|Hlt].
  - exists items, j'. split; [done|]. split; [apply rearranged_refl|]. split; [destruct Ou; lia|]. split.
    + intros m z Hm Hz. destruct (decide (m <= i)); [by apply (Hb m); [lia|]|]. destruct (decide (m < i')).
      * pose proof (Mx m z ltac:(lia) Hz). lia.
      * assert (m = j') as -> by lia. by simplify_eq.
    + intros m z Hm Hz. destruct (decide (j <= m)); [by apply (Ha m); [lia|]|]. pose proof (My m z ltac:(lia) Hz). lia.
  - destruct (item_swap items i' j' x y Ex Ey) as (items2 & -> & El & P & Hit). cbn [mbind option_bind].
    destruct (IH lo hi pivot items2 i' j' Hlo) as (items' & p & E & R & Hp & HL & HR); [unfold zlen in *; lia| |lia|].
    + split; [lia| | | |].
      * intros m z Hm. rewrite Hit. rewrite (proj2 (Z.eqb_neq m j')) by lia. destruct (Z.eqb_spec m i') as [->|]; [by intros [= <-]|].
        intros Hz. destruct (decide (m <= i)); [by apply (Hb m); [lia|]|]. pose proof (Mx m z ltac:(lia) Hz). lia.
      * intros m z Hm. rewrite Hit. destruct (Z.eqb_spec m j') as [->|]; [by intros [= <-]|]. rewrite (proj2 (Z.eqb_neq m i')) by lia.
        intros Hz. destruct (decide (j <= m)); [by apply (Ha m); [lia|]|]. pose proof (My m z ltac:(lia) Hz). lia.
      * exists j', x. split; [lia|]. rewrite Hit, Z.eqb_refl. split; [done|]. split; [done|]. left. lia.
      * exists i', y. split; [lia|]. rewrite Hit, (proj2 (Z.eqb_neq i' j')), Z.eqb_refl by lia. done.
    + exists items', p. split; [done|]. split; [|done]. eapply rearranged_trans; [|exact R]. split; [done|].
      intros k Hk. rewrite Hit. by rewrite (proj2 (Z.eqb_neq k j')), (proj2 (Z.eqb_neq k i')) by lia.
Qed.

Lemma cmp_refl x : cmp x x = 0.
Proof. pose proof (cmp_flip x x). lia. Qed.

Lemma partition_ok items lo hi :
  0 <= lo < hi -> hi < zlen items -> zlen items <= 2 ^ 30 ->
  exists items' p pivot, ldb_partition cmp items lo hi = Some (items', p) /\ rearranged lo hi items items' /\ lo <= p < hi /\
    (forall m x, lo <= m <= p -> item items' m = Some x -> cmp x pivot <= 0) /\
    (forall m x, p < m <= hi -> item items' m = Some x -> 0 <= cmp x pivot).
Proof.
  intros Hlo Hhi Hn. unfold ldb_partition. rewrite (proj2 (Z.leb_gt _ _)) by lia. rewrite Z.shiftr_div_pow2 by lia. change (2 ^ 1) with 2.
  assert (lo <= (hi + lo) / 2 < hi) as Hmid by (Z.div_mod_to_equations; lia).
  destruct (item_some items ((hi + lo) / 2)) as [pivot Ep]; [lia|]. rewrite Ep. cbn [mbind option_bind].
  destruct (partition_loop_ok (S (length items)) lo hi pivot items (lo - 1) (hi + 1)) as (items' & p & E & H); [lia|done| |unfold zlen in *; lia|].
  - pose proof (cmp_refl pivot). split; [lia|lia|lia| |].
    + exists ((hi + lo) / 2), pivot. split; [lia|]. split; [done|]. split; [lia|]. right. lia.
    + exists ((hi + lo) / 2), pivot. split; [lia|]. split; [done|]. lia.
  - by exists items', p, pivot.
Qed.

Definition sorted_seg (lo hi : Z) (items : list A) : Prop :=
  forall m n x y, lo <= m < n -> n <= hi -> item items m = Some x -> item items n = Some y -> cmp x y <= 0.

Lemma qsort_ok fuel : forall items lo hi,
  0 <= lo -> hi < zlen items -> zlen items <= 2 ^ 30 -> hi - lo < Z.of_nat fuel ->
  exists items', ldb_qsort cmp fuel items lo hi = Some items' /\ rearranged lo hi items items' /\ sorted_seg lo hi items'.
Proof.
  induction fuel as [|fuel IH]; intros items lo hi Hlo Hhi Hn Hf; cbn [ldb_qsort].
  - rewrite (proj2 (Z.ltb_ge lo hi)), andb_false_r by lia. exists items. split; [done|]. split; [apply rearranged_refl|].
    intros m n x y Hm Hn'. lia.
  - destruct (Z.ltb_spec lo hi) as [Hlt|Hge]; [|rewrite andb_false_r; exists items; split; [done|]; split; [apply rearranged_refl|];
      intros m n x y Hm Hn'; lia].
    rewrite (proj2 (Z.leb_le 0 lo)), (proj2 (Z.leb_le 0 hi)) by lia. cbn [andb].
    destruct (partition_ok items lo hi) as (items1 & p & pivot & -> & R1 & Hp & HL & HR); [lia|done|done|]. cbn [mbind option_bind].
    pose proof (rearranged_length _ _ _ _ R1) as L1.
    destruct (IH items1 lo p) as (items2 & -> & R2 & S2); [lia|unfold zlen in *; lia..|]. cbn [mbind option_bind].
    pose proof (rearranged_length _ _ _ _ R2) as L2.
    destruct (IH items2 (p + 1) hi) as (items3 & -> & R3 & S3); [lia|unfold zlen in *; lia..|].
    exists items3. split; [done|]. split.
    { eapply rearranged_trans; [exact R1|]. eapply rearranged_trans; eapply rearranged_weaken; [| |exact R2| | |exact R3]; lia. }
    assert (forall m x, lo <= m <= p -> item items3 m = Some x -> cmp x pivot <= 0) as HL3.
    { intros m x Hm Hx. rewrite <- (re_out _ _ _ _ R3) in Hx by lia.
      destruct (rearranged_seg lo p items1 items2 m x Hlo R2 Hm Hx) as (m' & Hm' & Hx'). by apply (HL m'). }
    assert (forall m x, p < m <= hi -> item items3 m = Some x -> 0 <= cmp x pivot) as HR3.
    { intros m x Hm Hx. destruct (rearranged_seg (p + 1) hi items2 items3 m x ltac:(lia) R3 ltac:(lia) Hx) as (m' & Hm' & Hx').
      rewrite <- (re_out _ _ _ _ R2) in Hx' by lia. apply (HR m'); [lia|done]. }
    intros m n x y Hm Hn' Hx Hy. destruct (decide (n <= p)) as [Hnp|Hnp].
    + rewrite <- (re_out _ _ _ _ R3) in Hx by lia. rewrite <- (re_out _ _ _ _ R3) in Hy by lia. apply (S2 m n); (lia || done).
    + destruct (decide (m <= p)) as [Hmp|Hmp]; [|by apply (S3 m n); [lia|lia| |]].
      pose proof (HL3 m x ltac:(lia) Hx) as C1. pose proof (HR3 n y ltac:(lia) Hy) as C2.
      apply (cmp_trans x pivot y C1). pose proof (cmp_flip y pivot). lia.
Qed.

Lemma sort_items_ok items : zlen items <= 2 ^ 30 ->
  exists items', sort_items cmp items = Some items' /\ items ≡ₚ items' /\ StronglySorted (fun x y => cmp x y <= 0) items'.
Proof.
  intros Hn. unfold sort_items. destruct (Z.ltb_spec 1 (zlen items)) as [H1|H1].
  - destruct (qsort_ok (length items) items 0 (zlen items - 1)) as (items' & -> & R & S); [lia|lia|done|unfold zlen; lia|].
    pose proof (rearranged_length _ _ _ _ R) as Hl. exists items'. split; [done|]. split; [apply R|].
    apply lookup_StronglySorted. intros i j x y Hij Hx Hy. pose proof (lookup_lt_Some _ _ _ Hy).
    apply (S (Z.of_nat i) (Z.of_nat j) x y); [lia|unfold zlen; lia|by rewrite item_nat..].
  - exists items. split; [done|]. split; [done|]. destruct items as [|x [|y items]]; [constructor|by repeat constructor|].
    rewrite !zlen_cons in H1. pose proof (zlen_nonneg items). lia.
Qed.
End Correct.

(** ** Growing *)

(** The items fit the block. *)
Definition vec_ok {A} (z : vector A) : Prop := zlen (vec_items z) <= vec_alloc z.

Lemma push_ok {A} (z : vector A) x : vec_ok z ->
  exists z', ldb_vector_push z x = Some z' /\ vec_items z' = vec_items z ++ [x] /\ vec_ok z'.
Proof.
  unfold vec_ok. intros H. pose proof (zlen_nonneg (vec_items z)) as Hn. unfold ldb_vector_push. cbv zeta.
  set (z1 := if zlen (vec_items z) =? vec_alloc z then _ else _).
  assert (vec_items z1 = vec_items z /\ zlen (vec_items z) < vec_alloc z1) as [E1 E2].
  { subst z1. unfold ldb_vector_grow. destruct (Z.eqb_spec (zlen (vec_items z)) (vec_alloc z)) as [E|]; [|split; [done|lia]].
    destruct (Z.leb_spec (vec_alloc z) 1).
    - destruct (Z.ltb_spec (vec_alloc z) (vec_alloc z * 3 / 2 + 1)); cbn [vec_items vec_alloc]; [split; [done|lia]|].
      Z.div_mod_to_equations. lia.
    - destruct (Z.ltb_spec (vec_alloc z) (vec_alloc z * 3 / 2 + 0)); cbn [vec_items vec_alloc]; [split; [done|lia]|].
      Z.div_mod_to_equations. lia. }
  clearbody z1. rewrite E1, (proj2 (Z.ltb_lt _ _)) by done. eexists. split; [reflexivity|]. split; [done|]. cbn [vec_items vec_alloc].
  rewrite zlen_app. change (zlen [x]) with 1. lia.
Qed.

Definition push_all {A} (z : vector A) (xs : list A) : option (vector A) :=
  fold_left (fun z x => z ← z; ldb_vector_push z x) xs (Some z).

Lemma push_all_ok {A} (xs : list A) : forall z, vec_ok z ->
  exists z', push_all z xs = Some z' /\ vec_items z' = vec_items z ++ xs /\ vec_ok z'.
Proof.
  induction xs as [|x xs IH]; intros z H; [exists z; by rewrite app_nil_r|]. destruct (push_ok z x H) as (z1 & E1 & Ei & H1).
  destruct (IH z1 H1) as (z' & E & Ei' & H'). exists z'. unfold push_all. cbn [fold_left mbind option_bind]. rewrite E1.
  split; [exact E|]. split; [|done]. by rewrite Ei', Ei, <- app_assoc.
Qed.

(** ** Properties *)

(** Vectors are filled and sorted correctly: pushing items one by one stays
    within the growing block, and the quicksort, for any comparison that is a
    total preorder, terminates without leaving the vector or overflowing its
    indices (up to 2^30 items), and gives the same items in order. *)
Theorem vector_sort_correct {A} (cmp : A -> A -> Z) (xs : list A) :
  (forall x y, Z.sgn (cmp y x) = - Z.sgn (cmp x y)) ->
  (forall x y z, cmp x y <= 0 -> cmp y z <= 0 -> cmp x z <= 0) -> zlen xs <= 2 ^ 30 ->
  exists z z', push_all ldb_vector_init xs = Some z /\ ldb_vector_sort cmp z = Some z' /\
    vec_items z = xs /\ vec_items z' ≡ₚ xs /\ StronglySorted (fun x y => cmp x y <= 0) (vec_items z') /\ vec_ok z'.
Proof.
  intros Hflip Htrans Hn. destruct (push_all_ok xs ldb_vector_init) as (z & E & Ei & Hz); [by vm_compute|].
  change (vec_items z = xs) in Ei. destruct (sort_items_ok cmp Hflip Htrans xs Hn) as (ys & Es & P & S).
  exists z, (Vector ys (vec_alloc z)). split; [done|]. unfold ldb_vector_sort. rewrite Ei, Es. split; [done|]. split; [done|].
  split; [by symmetry|]. split; [done|]. unfold vec_ok in *. cbn [vec_items vec_alloc]. rewrite Ei in Hz. unfold zlen in *.
  by rewrite <- (Permutation_length P).
Qed.

Lemma vector_sort_correct_witness :
  let xs := [5; 1; 4; 1; 5; 9; 2; 6] in
  exists z z', push_all ldb_array_init xs = Some z /\ ldb_array_sort Z.sub z = Some z' /\
    vec_items z = xs /\ vec_items z' ≡ₚ xs /\ StronglySorted (fun x y => x - y <= 0) (vec_items z') /\ vec_ok z' /\
    vec_items z' = [1; 1; 2; 4; 5; 5; 6; 9].
Proof.
  intros xs. destruct (vector_sort_correct Z.sub xs) as (z & z' & E1 & E2 & H1 & H2 & H3 & H4); [lia|lia|by vm_compute|].
  exists z, z'. repeat (split; [done|]). assert ((push_all ldb_vector_init xs ≫= ldb_vector_sort Z.sub) = Some z') as E.
  { rewrite E1. exact E2. }
  vm_compute in E. by injection E as <-.
Defined.
