(* ===== verification/FileList.v ===== *)
(** * Lists of table files

    Models the first part of [src/engine/src/version_set.c]: limits and sizes,
    the search in a sorted list of files, overlap of key ranges, and the
    iterators over the files of a level. *)

From stdpp Require Import strings sorting.
From Stdlib Require Import SpecFloat.
From S2P Require Import Prelude Coding Status Comparator DBFormat Options Vector VersionEdit Iterator BlockBuilder TwoLevel.
#[local] Open Scope Z_scope.

(** A pointer to file metadata, with what it points to.  Versions, the version
    set and compactions share these objects; after its creation only the
    reference count and [allowed_seeks] of one change.  The counts are not
    modelled, and the current value of [allowed_seeks] is kept in a store at
    [fp_addr] (Version.v); every other field is read from [fp_meta]. *)
Record fileptr := FilePtr { fp_addr : nat; fp_meta : filemeta }.

Abbreviation f_number f := (fm_number (fp_meta f)).
Abbreviation f_file_size f := (fm_file_size (fp_meta f)).
Abbreviation f_smallest f := (fm_smallest (fp_meta f)).
Abbreviation f_largest f := (fm_largest (fp_meta f)).

(** [files->items[i]]; [None] behind the end. *)
Definition file_at (files : list fileptr) (i : Z) : option fileptr := item files i.

(** ** Limits and sizes *)

Definition target_file_size (options : dbopt) : Z := opt_max_file_size options.

Definition max_grandparent_overlap_bytes (options : dbopt) : Z := s64 (u64 (10 * target_file_size options)).

Definition expanded_compaction_byte_size_limit (options : dbopt) : Z := s64 (u64 (25 * target_file_size options)).

(** The double 10. *)
Definition double_10 : spec_float := S754_finite false 5629499534213120 (-49).

(** [while (level > 1) { result *= 10; level--; }] *)
Fixpoint max_bytes_loop (turns : nat) (result : spec_float) : spec_float :=
  match turns with O => result | S turns => max_bytes_loop turns (SFmul 53 1024 result double_10) end.

Definition max_bytes_for_level (level : Z) : spec_float :=
  max_bytes_loop (Z.to_nat (level - 1)) (SFmul 53 1024 double_10 (binary_normalize 53 1024 1048576 0 false)).

Definition max_file_size_for_level (options : dbopt) (level : Z) : Z := target_file_size options.

Definition total_file_size (files : list fileptr) : Z :=
  fold_left (fun sum f => s64 (u64 (sum + f_file_size f))) files 0.

(** ** Search and overlap *)

Section Overlap.
Context (ucmp : comparator).
Local Abbreviation icmp := (ldb_ikc_init ucmp).

(** The loop of [find_file]: the interval shrinks in every turn. *)
Fixpoint find_file_loop (fuel : nat) (files : list fileptr) (key : bytes) (left right : Z) : option Z :=
  if left <? right then
    match fuel with
    | O => None
    | S fuel =>
      let mid := u32 (left + right) / 2 in
      f ← file_at files mid;
      if ldb_compare icmp (f_largest f) key <? 0 then find_file_loop fuel files key (u32 (mid + 1)) right
      else find_file_loop fuel files key left mid
    end
  else Some right.

Definition find_file (files : list fileptr) (key : bytes) : option Z :=
  find_file_loop (length files) files key 0 (u32 (zlen files)).

(** A [NULL] user key is [None]. *)
Definition after_file (user_key : option bytes) (f : fileptr) : bool :=
  match user_key with
  | None => false
  | Some user_key => 0 <? ldb_compare ucmp user_key (ldb_extract_user_key (f_largest f))
  end.

Definition before_file (user_key : option bytes) (f : fileptr) : bool :=
  match user_key with
  | None => false
  | Some user_key => ldb_compare ucmp user_key (ldb_extract_user_key (f_smallest f)) <? 0
  end.

Definition some_file_overlaps_range (disjoint_sorted_files : bool) (files : list fileptr)
    (smallest_user_key largest_user_key : option bytes) : option bool :=
  if negb disjoint_sorted_files then
    Some (existsb (fun f => negb (after_file smallest_user_key f || before_file largest_user_key f)) files)
  else
    index ← match smallest_user_key with
            | Some k => find_file files (ldb_ikey_set k LDB_MAX_SEQUENCE LDB_VALTYPE_SEEK)
            | None => Some 0
            end;
    if zlen files <=? index then Some false
    else f ← file_at files index; Some (negb (before_file largest_user_key f)).

(** ** The iterator over the files of a level *)

(** [ldb_numiter_t] *)
Record numiter := Numiter { ni_flist : list fileptr; ni_index : Z }.

Definition ldb_numiter_init (flist : list fileptr) : numiter := Numiter flist (u32 (zlen flist)).

Definition ldb_numiter_valid (iter : numiter) : bool := ni_index iter <? zlen (ni_flist iter).

Definition ldb_numiter_seek (iter : numiter) (target : bytes) : option numiter :=
  index ← find_file (ni_flist iter) target; Some (Numiter (ni_flist iter) index).

Definition ldb_numiter_first (iter : numiter) : option numiter := Some (Numiter (ni_flist iter) 0).

Definition ldb_numiter_last (iter : numiter) : option numiter :=
  Some (Numiter (ni_flist iter) (if zlen (ni_flist iter) =? 0 then 0 else u32 (zlen (ni_flist iter) - 1))).

Definition ldb_numiter_next (iter : numiter) : option numiter :=
  if ldb_numiter_valid iter then Some (Numiter (ni_flist iter) (u32 (ni_index iter + 1))) else None.

Definition ldb_numiter_prev (iter : numiter) : option numiter :=
  if ldb_numiter_valid iter then
    Some (Numiter (ni_flist iter) (if ni_index iter =? 0 then u32 (zlen (ni_flist iter)) else ni_index iter - 1))
  else None.

Definition ldb_numiter_key (iter : numiter) : option bytes :=
  if ldb_numiter_valid iter then file ← file_at (ni_flist iter) (ni_index iter); Some (f_largest file) else None.

Definition file_value (file : fileptr) : bytes := fixed64_write (f_number file) ++ fixed64_write (f_file_size file).

Definition ldb_numiter_value (iter : numiter) : option bytes :=
  if ldb_numiter_valid iter then file ← file_at (ni_flist iter) (ni_index iter); Some (file_value file) else None.

Definition ldb_numiter_table : iter_ops numiter := {|
  it_valid := ldb_numiter_valid;
  it_first := ldb_numiter_first;
  it_last := ldb_numiter_last;
  it_seek := ldb_numiter_seek;
  it_next := ldb_numiter_next;
  it_prev := ldb_numiter_prev;
  it_key := ldb_numiter_key;
  it_value := ldb_numiter_value;
  it_status := fun _ => LDB_OK
|}.
End Overlap.

(** ** Sorted lists of files *)

Lemma file_at_nat files n : file_at files (Z.of_nat n) = files !! n.
Proof. apply item_nat. Qed.

Lemma file_at_some files i : 0 <= i < zlen files -> exists f, file_at files i = Some f /\ files !! Z.to_nat i = Some f.
Proof.
  intros H. destruct (item_some files i H) as [f E]. exists f. split; [done|]. unfold item in E.
  destruct (Z.ltb_spec i 0); [lia|done].
Qed.

Section Search.
Context (udom : bytes -> Prop) (uc : comparator) `{!ComparatorLaws udom uc}.
Local Abbreviation icmp := (ldb_ikc_init uc).
Local Abbreviation idom := (ikey_dom udom).
Local Abbreviation ukey := ldb_extract_user_key.

(** The range of a file: internal keys in order, the last with a tag that a
    version can have. *)
Record file_wf (f : fileptr) : Prop := {
  fw_smallest : idom (f_smallest f);
  fw_largest : idom (f_largest f);
  fw_tag : ikey_tag (f_largest f) <= pack_seqtype LDB_MAX_SEQUENCE LDB_VALTYPE_SEEK;
  fw_range : ldb_compare icmp (f_smallest f) (f_largest f) <= 0
}.

(** The invariant of the levels above 0: ranges in order, without overlap.  (Two
    neighbours may share a user key.) *)
Definition disjoint_sorted (files : list fileptr) : Prop :=
  StronglySorted (fun f g => ldb_compare icmp (f_largest f) (f_smallest g) < 0) files.

(** Whether [find_file] passes by a file. *)
Definition below (key : bytes) (f : fileptr) : Prop := ldb_compare icmp (f_largest f) key < 0.

Lemma find_file_loop_ok key files fuel : forall left right,
  zlen files < 2 ^ 31 -> 0 <= left <= right -> right <= zlen files -> right - left <= Z.of_nat fuel ->
  (forall i j f g, (i < j)%nat -> files !! i = Some f -> files !! j = Some g -> below key g -> below key f) ->
  (forall i f, Z.of_nat i < left -> files !! i = Some f -> below key f) ->
  (forall i f, right <= Z.of_nat i -> files !! i = Some f -> ~ below key f) ->
  exists n, find_file_loop uc fuel files key left right = Some (Z.of_nat n) /\ (n <= length files)%nat /\
    (forall i f, (i < n)%nat -> files !! i = Some f -> below key f) /\
    (forall i f, (n <= i)%nat -> files !! i = Some f -> ~ below key f).
Proof.
  induction fuel as [|fuel IH]; intros left right Hz Hlr Hr Hfuel Hmono Hlo Hhi; cbn [find_file_loop].
  all: destruct (Z.ltb_spec left right) as [Hlt|Hge]; [|
    exists (Z.to_nat right); rewrite Z2Nat.id by lia; split; [done|]; split; [unfold zlen in *; lia|];
    split; intros i f Hi; [apply Hlo|apply Hhi]; lia].
  - lia.
  - rewrite (u32_small (left + right)) by lia. set (mid := (left + right) / 2).
    assert (left <= mid < right) as Hmid by (subst mid; Z.div_mod_to_equations; lia). clearbody mid.
    destruct (file_at_some files mid) as (f & -> & Hf); [lia|]. cbn [mbind option_bind].
    destruct (Z.ltb_spec (ldb_compare icmp (f_largest f) key) 0) as [Hb|Hb].
    + rewrite u32_small by lia. apply IH; try done; try lia. intros i g Hi Hg.
      destruct (decide (i = Z.to_nat mid)) as [->|Hne]; [by rewrite Hf in Hg; injection Hg as <-|].
      apply (Hmono i (Z.to_nat mid) g f); [lia|done..].
    + apply IH; try done; try lia. intros i g Hi Hg Hbg.
      destruct (decide (i = Z.to_nat mid)) as [->|Hne]; [rewrite Hf in Hg; injection Hg as <-; unfold below in Hbg; lia|].
      assert (below key f) as Hbf by (apply (Hmono (Z.to_nat mid) i f g); [lia|done..]). unfold below in Hbf. lia.
Qed.

Lemma wf_at files i f : Forall file_wf files -> files !! i = Some f -> file_wf f.
Proof. intros H Hf. rewrite List.Forall_forall in H. by apply H, list_elem_of_In, list_elem_of_lookup_2 with i. Qed.

Lemma largest_sorted files : Forall file_wf files -> disjoint_sorted files ->
  forall i j f g, (i < j)%nat -> files !! i = Some f -> files !! j = Some g -> ldb_compare icmp (f_largest f) (f_largest g) < 0.
Proof.
  intros Hwf Hs i j f g Hij Hf Hg. destruct (wf_at files i f Hwf Hf) as [_ Hfl _ _]. destruct (wf_at files j g Hwf Hg) as [Hgs Hgl _ Hgr].
  apply (compare_lt_le_trans idom icmp _ (f_smallest g)); try done. by apply (sorted_lookup _ _ i j f g Hs).
Qed.

(** The smallest index with [files[i]->largest >= key], or the number of files. *)
Lemma find_file_ok key files : idom key -> Forall file_wf files -> disjoint_sorted files -> zlen files < 2 ^ 31 ->
  exists n, find_file uc files key = Some (Z.of_nat n) /\ (n <= length files)%nat /\
    (forall i f, (i < n)%nat -> files !! i = Some f -> below key f) /\
    (forall i f, (n <= i)%nat -> files !! i = Some f -> ~ below key f).
Proof.
  intros Hk Hwf Hs Hz. unfold find_file. rewrite u32_small by (pose proof (zlen_nonneg files); lia).
  apply find_file_loop_ok; try done; try lia.
  - pose proof (zlen_nonneg files). lia.
  - unfold zlen. lia.
  - intros i j f g Hij Hf Hg Hb. destruct (wf_at files i f Hwf Hf) as [_ Hfl _ _]. destruct (wf_at files j g Hwf Hg) as [_ Hgl _ _].
    apply (compare_lt_trans idom icmp _ (f_largest g)); try done. by apply (largest_sorted files Hwf Hs i j).
  - intros i f Hi Hf. apply lookup_lt_Some in Hf. unfold zlen in Hi. lia.
Qed.

(** *** Overlap *)

Lemma seek_key_above k x : zlen k < 2 ^ 64 - 8 -> ikey_tag x <= pack_seqtype LDB_MAX_SEQUENCE LDB_VALTYPE_SEEK ->
  ldb_compare icmp x (ldb_ikey_set k LDB_MAX_SEQUENCE LDB_VALTYPE_SEEK) < 0 <-> ldb_compare uc (ukey x) k < 0.
Proof.
  intros Hk Ht. assert (pkey_wf (Pkey k LDB_MAX_SEQUENCE LDB_VALTYPE_SEEK)) as Hwf by (split; [split; by vm_compute|done]).
  change (ldb_ikey_set k LDB_MAX_SEQUENCE LDB_VALTYPE_SEEK) with (ikey (Pkey k LDB_MAX_SEQUENCE LDB_VALTYPE_SEEK)).
  change (ldb_compare icmp) with (ldb_ikc_compare uc). rewrite ikc_compare_lt, user_key_ikey, ikey_tag_ikey by done. cbn [user_key sequence type].
  lia.
Qed.

Lemma seek_key_dom k : udom k -> zlen k < 2 ^ 64 - 8 -> idom (ldb_ikey_set k LDB_MAX_SEQUENCE LDB_VALTYPE_SEEK).
Proof. intros Hu Hk. apply (ikey_in_dom udom (Pkey k LDB_MAX_SEQUENCE LDB_VALTYPE_SEEK)); [|done]. split; [split; by vm_compute|done]. Qed.

(** The range of user keys of a file meets [[smallest, largest]]. *)
Definition overlaps (smallest largest : option bytes) (f : fileptr) : Prop :=
  (forall k, smallest = Some k -> ldb_compare uc k (ukey (f_largest f)) <= 0) /\
  (forall k, largest = Some k -> ldb_compare uc (ukey (f_smallest f)) k <= 0).

Definition ukey_ok (k : bytes) : Prop := udom k /\ zlen k < 2 ^ 64 - 8.

Lemma after_file_spec s f : after_file uc s f = false <-> (forall k, s = Some k -> ldb_compare uc k (ukey (f_largest f)) <= 0).
Proof.
  unfold after_file. destruct s as [k|]; [|by split]. rewrite Z.ltb_ge. split; [by intros H k' [= <-]|intros H; by apply H].
Qed.

Lemma before_file_spec l f : file_wf f -> (forall k, l = Some k -> udom k) ->
  before_file uc l f = false <-> (forall k, l = Some k -> ldb_compare uc (ukey (f_smallest f)) k <= 0).
Proof.
  intros [[_ Hs] _ _ _] Hl. unfold before_file. destruct l as [k|]; [|by split]. specialize (Hl k eq_refl). rewrite Z.ltb_ge. split.
  - intros H k' [= <-]. by apply (compare_le_flip udom uc).
  - intros H. apply (compare_le_flip udom uc); auto.
Qed.

Lemma overlaps_spec s l f : file_wf f -> (forall k, l = Some k -> udom k) ->
  negb (after_file uc s f || before_file uc l f) = true <-> overlaps s l f.
Proof.
  intros Hf Hl. unfold overlaps. rewrite negb_true_iff, orb_false_iff, after_file_spec, (before_file_spec l f Hf Hl). done.
Qed.

Lemma range_user f : file_wf f -> ldb_compare uc (ukey (f_smallest f)) (ukey (f_largest f)) <= 0.
Proof. intros [_ _ _ H]. change (ldb_compare icmp) with (ldb_ikc_compare uc) in H. rewrite ikc_compare_le in H. lia. Qed.

(** Later files have larger user keys, or equal ones at the border. *)
Lemma user_sorted files i j f g : Forall file_wf files -> disjoint_sorted files -> (i < j)%nat ->
  files !! i = Some f -> files !! j = Some g -> ldb_compare uc (ukey (f_largest f)) (ukey (f_smallest g)) <= 0.
Proof.
  intros Hwf Hs Hij Hf Hg. pose proof (sorted_lookup _ _ i j f g Hs Hf Hg Hij) as H.
  change (ldb_compare icmp) with (ldb_ikc_compare uc) in H. rewrite ikc_compare_lt in H. lia.
Qed.

(** The position the search of the sorted case starts from. *)
Lemma first_not_after files s : Forall file_wf files -> disjoint_sorted files -> zlen files < 2 ^ 31 ->
  (forall k, s = Some k -> ukey_ok k) ->
  exists n, match s with Some k => find_file uc files (ldb_ikey_set k LDB_MAX_SEQUENCE LDB_VALTYPE_SEEK) | None => Some 0 end
      = Some (Z.of_nat n) /\ (n <= length files)%nat /\
    (forall i f, (i < n)%nat -> files !! i = Some f -> after_file uc s f = true) /\
    (forall i f, (n <= i)%nat -> files !! i = Some f -> after_file uc s f = false).
Proof.
  intros Hwf Hs Hz Hk. destruct s as [k|]; [|by exists 0%nat; split; [done|]; split; [lia|]; split; [lia|]].
  destruct (Hk k eq_refl) as [Hu Hl].
  destruct (find_file_ok (ldb_ikey_set k LDB_MAX_SEQUENCE LDB_VALTYPE_SEEK) files) as (n & E & Hn & Hlo & Hhi);
    [by apply seek_key_dom|done..|].
  exists n. split; [done|]. split; [done|]. unfold after_file, below in *. split; intros i f Hi Hf.
  - specialize (Hlo i f Hi Hf). destruct (wf_at files i f Hwf Hf) as [_ [_ Hd] Ht _]. apply seek_key_above in Hlo; [|done..].
    apply Z.ltb_lt. by apply (compare_lt_flip udom uc).
  - specialize (Hhi i f Hi Hf). destruct (wf_at files i f Hwf Hf) as [_ [_ Hd] Ht _]. rewrite seek_key_above in Hhi by done.
    apply Z.ltb_ge. apply (compare_le_flip udom uc); [done..|]. lia.
Qed.

Lemma overlap_linear files s l : Forall file_wf files -> (forall k, l = Some k -> udom k) ->
  exists b, some_file_overlaps_range uc false files s l = Some b /\ (b = true <-> exists f, f ∈ files /\ overlaps s l f).
Proof.
  intros Hwf Hl. eexists. split; [reflexivity|]. rewrite existsb_exists. rewrite List.Forall_forall in Hwf. split.
  - intros (f & Hin & H). exists f. split; [by apply list_elem_of_In|]. apply overlaps_spec in H; auto.
  - intros (f & Hin%list_elem_of_In & H). exists f. split; [done|]. apply overlaps_spec; auto.
Qed.

Lemma overlap_binary files s l : Forall file_wf files -> disjoint_sorted files -> zlen files < 2 ^ 31 ->
  (forall k, s = Some k -> ukey_ok k) -> (forall k, l = Some k -> udom k) ->
  exists b, some_file_overlaps_range uc true files s l = Some b /\ (b = true <-> exists f, f ∈ files /\ overlaps s l f).
Proof.
  intros Hwf Hs Hz Hk Hl. unfold some_file_overlaps_range. cbn [negb].
  destruct (first_not_after files s Hwf Hs Hz Hk) as (n & -> & Hn & Hlo & Hhi). cbn [mbind option_bind].
  destruct (Z.leb_spec (zlen files) (Z.of_nat n)) as [Hge|Hlt].
  - exists false. split; [done|]. split; [done|]. intros (f & [i Hf]%list_elem_of_lookup & Ho%after_file_spec%not_true_iff_false & _).
    destruct Ho. apply (Hlo i f); [|done]. apply lookup_lt_Some in Hf. unfold zlen in Hge. lia.
  - rewrite file_at_nat. destruct (lookup_lt_is_Some_2 files n) as [g Hg]; [unfold zlen in Hlt; lia|]. rewrite Hg. cbn [mbind option_bind].
    pose proof (wf_at files n g Hwf Hg) as Hwg.
    eexists. split; [reflexivity|]. rewrite negb_true_iff, (before_file_spec l g) by done. split.
    + intros H. exists g. split; [by apply list_elem_of_lookup_2 with n|]. split; [|done].
      apply after_file_spec. by apply (Hhi n).
    + intros (f & [i Hf]%list_elem_of_lookup & Ho & Hlf) k ->. specialize (Hlf k eq_refl). apply after_file_spec in Ho.
      destruct (decide (i < n)%nat) as [Hi|Hi]; [rewrite (Hlo i f Hi Hf) in Ho; done|].
      destruct (decide (i = n)) as [->|Hne]; [by rewrite Hg in Hf; injection Hf as <-|].
      pose proof (user_sorted files n i g f Hwf Hs ltac:(lia) Hg Hf) as H1. pose proof (range_user g Hwg) as H2.
      pose proof (wf_at files i f Hwf Hf) as [[_ D1] _ _ _]. destruct Hwg as [[_ D2] [_ D3] _ _]. specialize (Hl k eq_refl).
      apply (compare_trans (c := uc) _ (ukey (f_largest g))); try done. by apply (compare_trans (c := uc) _ (ukey (f_smallest f))).
Qed.

(** *** The iterator over the files *)

Definition file_pairs (files : list fileptr) : pairs := map (fun f => (f_largest f, file_value f)) files.

Definition numiter_rep (files : list fileptr) (s : numiter) (p : option nat) : Prop :=
  ni_flist s = files /\
  match p with
  | Some i => ni_index s = Z.of_nat i /\ (i < length files)%nat
  | None => ni_index s = zlen files
  end.

Lemma file_pairs_sorted files : Forall file_wf files -> disjoint_sorted files -> sorted_pairs icmp (file_pairs files).
Proof.
  intros Hwf Hs. apply lookup_StronglySorted. intros i j x y Hij Hx Hy. unfold file_pairs in *. rewrite list_lookup_fmap in Hx, Hy.
  destruct (files !! i) as [f|] eqn:Hf; [|done]. destruct (files !! j) as [g|] eqn:Hg; [|done]. injection Hx as <-. injection Hy as <-.
  by apply (largest_sorted files Hwf Hs i j).
Qed.

Lemma file_pairs_dom files : Forall file_wf files -> Forall (fun kv => idom kv.1) (file_pairs files).
Proof.
  intros H. unfold file_pairs. apply Forall_map. eapply List.Forall_impl; [|exact H]. by intros f [_ ? _ _].
Qed.

Lemma file_pairs_at files i : file_pairs files !! i = (fun f => (f_largest f, file_value f)) <$> files !! i.
Proof. apply list_lookup_fmap. Qed.

Lemma find_file_count files key : idom key -> Forall file_wf files -> disjoint_sorted files -> zlen files < 2 ^ 31 ->
  find_file uc files key = Some (Z.of_nat (count_lt icmp key (file_pairs files))).
Proof.
  intros Hk Hwf Hs Hz. destruct (find_file_ok key files Hk Hwf Hs Hz) as (n & -> & Hn & Hlo & Hhi). do 2 f_equal. symmetry.
  apply count_lt_unique.
  - intros i kv Hi Hkv. rewrite file_pairs_at in Hkv. destruct (files !! i) as [f|] eqn:Hf; [|done]. injection Hkv as <-. by apply (Hlo i).
  - intros kv Hkv. rewrite file_pairs_at in Hkv. destruct (files !! n) as [f|] eqn:Hf; [|done]. injection Hkv as <-. cbn [fst].
    specialize (Hhi n f ltac:(lia) Hf). unfold below in Hhi. lia.
  - unfold file_pairs. by rewrite length_map.
Qed.

#[export] Instance numiter_laws files : Forall file_wf files -> disjoint_sorted files -> zlen files < 2 ^ 31 ->
  IteratorLaws (ldb_numiter_table uc) idom icmp (file_pairs files) (numiter_rep files).
Proof.
  intros Hwf Hs Hz. assert (length (file_pairs files) = length files) as Hlen by apply length_map.
  assert (forall n, numiter_rep files (Numiter files (Z.of_nat n)) (position (file_pairs files) n) \/ (length files < n)%nat) as Hpos.
  { intros n. destruct (decide (n < length files)%nat).
    - left. rewrite position_some by lia. done.
    - destruct (decide (n = length files)) as [->|]; [|right; lia]. left. by rewrite position_none by lia. }
  assert (forall s i, numiter_rep files s (Some i) -> ldb_numiter_valid s = true) as Hval.
  { intros s i (E1 & E2 & Hi). unfold ldb_numiter_valid. rewrite E1, E2. apply Z.ltb_lt. unfold zlen. lia. }
  split.
  - intros s i (_ & _ & Hi). lia.
  - intros s p R. destruct p as [i|]; [by rewrite bool_decide_eq_true_2, <- (Hval s i R)|].
    destruct R as (E1 & E2). cbn. unfold ldb_numiter_valid. rewrite E1, E2. apply Z.ltb_ge. lia.
  - done.
  - intros s i kv R Hkv. rewrite file_pairs_at in Hkv. destruct (files !! i) as [f|] eqn:Hf; [|done]. injection Hkv as <-.
    cbn [it_key it_value ldb_numiter_table]. unfold ldb_numiter_key, ldb_numiter_value. rewrite (Hval s i R).
    destruct R as (E1 & E2 & _). by rewrite E1, E2, file_at_nat, Hf.
  - intros s p [E1 _]. eexists. split; [reflexivity|]. rewrite E1. destruct (Hpos 0%nat); [done|lia].
  - intros s p [E1 _]. eexists. split; [reflexivity|]. rewrite E1, Hlen. destruct files as [|f files']; [by split|].
    cbn [length position_before]. split; [done|]. cbn [ni_index]. rewrite zlen_cons. pose proof (zlen_nonneg files').
    rewrite zlen_cons in Hz. destruct (Z.eqb_spec (1 + zlen files') 0); [lia|]. rewrite u32_small by lia.
    cbn [length]. unfold zlen. lia.
  - intros s p target [E1 _] Ht. cbn [it_seek ldb_numiter_table]. unfold ldb_numiter_seek.
    rewrite E1, find_file_count by done. eexists. split; [reflexivity|]. destruct (Hpos (count_lt icmp target (file_pairs files))); [done|].
    pose proof (count_lt_length icmp target (file_pairs files)). lia.
  - intros s i R. cbn [it_next ldb_numiter_table]. unfold ldb_numiter_next. rewrite (Hval s i R). destruct R as (E1 & E2 & Hi).
    eexists. split; [reflexivity|]. rewrite E1, E2, u32_small by (unfold zlen in Hz; lia).
    replace (Z.of_nat i + 1) with (Z.of_nat (i + 1)) by lia. destruct (Hpos (i + 1)%nat); [done|lia].
  - intros s i R. cbn [it_prev ldb_numiter_table]. unfold ldb_numiter_prev. rewrite (Hval s i R). destruct R as (E1 & E2 & Hi).
    eexists. split; [reflexivity|]. rewrite E1, E2. destruct i as [|i]; cbn [position_before].
    + split; [done|]. cbn [ni_index]. rewrite u32_small by (pose proof (zlen_nonneg files); lia). done.
    + split; [done|]. cbn [ni_index]. destruct (Z.eqb_spec (Z.of_nat (S i)) 0); lia.
Qed.
End Search.

(** ** Tables by number *)

(** What the table cache (TableCache.v) offers the version set: an iterator over
    the table of a number and size, and the lookup of a key in it. *)
Record tables_ops (T : Type) := TablesOps {
  ldb_tables_iterate : readopt -> Z -> Z -> option T;
  ldb_tables_get : readopt -> Z -> Z -> bytes -> option (Z * option (bytes * bytes))
}.
Arguments TablesOps {T}.
Arguments ldb_tables_iterate {T}.
Arguments ldb_tables_get {T}.

(** The tables hold what [kvs_of] says: iterators are over these pairs, and a
    lookup succeeds and finds the first pair at or after the key, at least if it
    is of the same user key (other pairs the filter may hide). *)
Class TablesLaws {T} (tops : iter_ops T) (tables : tables_ops T) (udom : bytes -> Prop) (uc : comparator)
    (kvs_of : Z -> Z -> option pairs) : Prop := {
  tables_iterate_ok ro number size kvs : kvs_of number size = Some kvs ->
    exists it p, ldb_tables_iterate tables ro number size = Some it /\ any_rep tops (ikey_dom udom) (ldb_ikc_init uc) kvs it p;
  tables_get_ok ro number size kvs k : kvs_of number size = Some kvs -> ikey_dom udom k ->
    exists r, ldb_tables_get tables ro number size k = Some (LDB_OK, r) /\
      match kvs !! count_lt (ldb_ikc_init uc) k kvs with
      | Some kv => (r = None \/ r = Some kv) /\
          (ldb_compare uc (ldb_extract_user_key k) (ldb_extract_user_key kv.1) = 0 -> r = Some kv)
      | None => r = None
      end
}.

Section LevelIterator.
Context (uc : comparator) {T : Type} (tops : iter_ops T) (tables : tables_ops T).

Definition get_file_iterator (options : readopt) (file_value : bytes) : option (Z + T) :=
  if negb (zlen file_value =? 16) then Some (inl LDB_CORRUPTION)
  else
    it ← ldb_tables_iterate tables options (fixed64_decode file_value) (fixed64_decode (zdrop 8 file_value));
    Some (inr it).

Definition file_iter_table : iter_ops (Z + T) := sum_iter_table ldb_emptyiter_table tops.

(** The two-level iterator over a list of files: [ldb_concatiter_create] with the
    files of a level, [ldb_inputiter_create] with the inputs of a compaction. *)
Definition ldb_leveliter_create (flist : list fileptr) : option (@twoiter numiter (Z + T)) :=
  ldb_twoiter_init (ldb_numiter_table uc) file_iter_table (ldb_numiter_init flist).

(** [fuel]: more than the number of files. *)
Definition ldb_leveliter_table (options : readopt) (fuel : nat) : iter_ops (@twoiter numiter (Z + T)) :=
  ldb_twoiter_table (ldb_numiter_table uc) file_iter_table (get_file_iterator options) fuel.
End LevelIterator.

(** Tables that are lists: the simplest implementation of the interface. *)
Definition list_tables (uc : comparator) (kvs_of : Z -> Z -> option pairs) : tables_ops listiter := {|
  ldb_tables_iterate := fun _ number size => kvs ← kvs_of number size; Some (kvs, None);
  ldb_tables_get := fun _ number size k =>
    kvs ← kvs_of number size; Some (LDB_OK, kvs !! count_lt (ldb_ikc_init uc) k kvs)
|}.

#[export] Instance list_tables_laws udom uc kvs_of : TablesLaws (listiter_table (ldb_ikc_init uc)) (list_tables uc kvs_of) udom uc kvs_of.
Proof.
  split.
  - intros ro number size kvs E. exists (kvs, None), None. cbn. rewrite E. split; [done|].
    exists (listiter_rep kvs). split; [apply listiter_laws|done].
  - intros ro number size kvs k E _. cbn. rewrite E. eexists. split; [reflexivity|].
    destruct (kvs !! _) as [kv|]; [|done]. split; [by right|done].
Qed.

Section Level.
Context (udom : bytes -> Prop) (uc : comparator) `{!ComparatorLaws udom uc}.
Context {T : Type} (tops : iter_ops T) (tables : tables_ops T) (kvs_of : Z -> Z -> option pairs) `{!TablesLaws tops tables udom uc kvs_of}.
Local Abbreviation icmp := (ldb_ikc_init uc).
Local Abbreviation idom := (ikey_dom udom).

(** The pairs of a file. *)
Definition file_kvs (f : fileptr) : pairs := default [] (kvs_of (f_number f) (f_file_size f)).

(** The metadata describe an existing table, whose keys are in the range. *)
Record file_ok (f : fileptr) : Prop := {
  fk_wf : file_wf udom uc f;
  fk_number : 0 <= f_number f < 2 ^ 64;
  fk_size : 0 <= f_file_size f < 2 ^ 64;
  fk_table : is_Some (kvs_of (f_number f) (f_file_size f));
  fk_sorted : sorted_pairs icmp (file_kvs f);
  fk_keys : Forall (fun kv => idom kv.1 /\ ldb_compare icmp (f_smallest f) kv.1 <= 0 /\
                              ldb_compare icmp kv.1 (f_largest f) <= 0) (file_kvs f)
}.

Definition value_kvs (v : bytes) : pairs := default [] (kvs_of (fixed64_decode v) (fixed64_decode (zdrop 8 v))).

Lemma file_value_decode f : file_ok f ->
  zlen (file_value f) = 16 /\ fixed64_decode (file_value f) = f_number f /\ fixed64_decode (zdrop 8 (file_value f)) = f_file_size f.
Proof.
  intros H. unfold file_value. rewrite zlen_app, !zlen_fixed64_write. split; [done|]. split.
  - apply fixed64_decode_write. apply H.
  - rewrite zdrop_app by (by rewrite zlen_fixed64_write). rewrite <- (app_nil_r (fixed64_write (f_file_size f))).
    apply fixed64_decode_write. apply H.
Qed.

Lemma value_kvs_file f : file_ok f -> value_kvs (file_value f) = file_kvs f.
Proof. intros H. destruct (file_value_decode f H) as (_ & E1 & E2). unfold value_kvs, file_kvs. by rewrite E1, E2. Qed.

Lemma file_kv f kv : file_ok f -> kv ∈ file_kvs f ->
  idom kv.1 /\ ldb_compare icmp (f_smallest f) kv.1 <= 0 /\ ldb_compare icmp kv.1 (f_largest f) <= 0.
Proof. intros H Hin%list_elem_of_In. pose proof (fk_keys f H) as Hk. rewrite List.Forall_forall in Hk. by apply Hk. Qed.

Lemma files_wf files : Forall file_ok files -> Forall (file_wf udom uc) files.
Proof. intros H. eapply List.Forall_impl; [|exact H]. by intros f []. Qed.

Lemma file_in files f : Forall file_ok files -> f ∈ files -> file_ok f.
Proof. intros H Hin%list_elem_of_In. rewrite List.Forall_forall in H. by apply H. Qed.

Lemma pairs_of_files files : Forall file_ok files ->
  concat (map (fun e => value_kvs e.2) (file_pairs files)) = concat (map file_kvs files).
Proof.
  intros H. unfold file_pairs. rewrite List.map_map. cbn [snd]. f_equal. apply List.map_ext_in. intros f Hin%list_elem_of_In.
  apply value_kvs_file. by eapply file_in.
Qed.

(** A pair of a later file is above every key of an earlier one. *)
Lemma files_between files i j f g kv : Forall file_ok files -> disjoint_sorted uc files -> (i < j)%nat ->
  files !! i = Some f -> files !! j = Some g -> kv ∈ file_kvs g -> ldb_compare icmp (f_largest f) kv.1 < 0.
Proof.
  intros Hok Hs Hij Hf Hg Hkv. pose proof (file_in files g Hok (list_elem_of_lookup_2 _ _ _ Hg)) as Hgo.
  destruct (file_kv g kv Hgo Hkv) as (Hd & Hlo & _). pose proof (files_wf files Hok) as Hwf.
  destruct (wf_at udom uc files i f Hwf Hf) as [_ Hfl _ _]. destruct (fk_wf g Hgo) as [Hgs _ _ _].
  apply (compare_lt_le_trans idom icmp _ (f_smallest g)); try done. by apply (sorted_lookup _ _ i j f g Hs).
Qed.

(** A state of the iterator over the files of a level; it does not say how tables
    are opened. *)
Definition level_rep (files : list fileptr) : @twoiter numiter (Z + T) -> option nat -> Prop :=
  two_rep (file_pairs files) (numiter_rep files) value_kvs (fun v => any_rep (file_iter_table tops) idom icmp (value_kvs v)).

Lemma level_iterator_init files : Forall file_ok files -> disjoint_sorted uc files -> zlen files < 2 ^ 31 ->
  exists it, ldb_leveliter_create uc tops files = Some it /\ level_rep files it None.
Proof.
  intros Hok Hs Hz. pose proof (numiter_laws udom uc files (files_wf files Hok) Hs Hz) as Hnum.
  apply (twoiter_init_ok (ldb_numiter_table uc) (file_iter_table tops) idom icmp (file_pairs files) (numiter_rep files) value_kvs
    (fun v => any_rep (file_iter_table tops) idom icmp (value_kvs v)) (ldb_numiter_init files) None).
  split; [done|]. cbn. apply u32_small. pose proof (zlen_nonneg files). lia.
Qed.

(** The contract, if the tables can be opened. *)
Lemma level_iterator_laws files ro fuel :
  (forall number size kvs, kvs_of number size = Some kvs -> exists it p, ldb_tables_iterate tables ro number size = Some it /\ any_rep tops idom icmp kvs it p) ->
  (length files < fuel)%nat -> Forall file_ok files -> disjoint_sorted uc files -> zlen files < 2 ^ 31 ->
  IteratorLaws (ldb_leveliter_table uc tops tables ro fuel) idom icmp (concat (map file_kvs files)) (level_rep files).
Proof.
  intros Hopen Hfuel Hok Hs Hz. pose proof (files_wf files Hok) as Hwf. pose proof (numiter_laws udom uc files Hwf Hs Hz) as Hnum.
  assert (forall e, e ∈ file_pairs files -> exists f, f ∈ files /\ file_ok f /\ e = (f_largest f, file_value f)) as Hentry.
  { intros e (f & <- & Hin)%list_elem_of_In%in_map_iff. apply list_elem_of_In in Hin. exists f. split; [done|]. split; [|done].
    by eapply file_in. }
  rewrite <- (pairs_of_files files Hok).
  apply (twoiter_laws (ldb_numiter_table uc) (file_iter_table tops) (get_file_iterator tables ro) idom icmp (file_pairs files)
    (numiter_rep files) value_kvs (fun v => any_rep (file_iter_table tops) idom icmp (value_kvs v))).
  - intros e He. split; [apply any_rep_laws|]. destruct (Hentry e He) as (f & Hin & Hf & ->). cbn [snd].
    destruct (file_value_decode f Hf) as (E1 & E2 & E3). unfold get_file_iterator. rewrite E1, E2, E3. cbn [Z.eqb negb Pos.eqb].
    destruct (fk_table f Hf) as [kvs Ekv]. destruct (Hopen _ _ kvs Ekv) as (t & p & Et & rep & L & Rt).
    rewrite Et. cbn [mbind option_bind]. exists (inr t), p. split; [done|]. rewrite (value_kvs_file f Hf).
    unfold file_kvs. rewrite Ekv. cbn [default]. eexists. split; [by apply sum_iter_laws|]. by exists t.
  - intros i e kv He Hkv. destruct (Hentry e (list_elem_of_lookup_2 _ _ _ He)) as (f & _ & Hf & ->). cbn [fst snd] in *.
    rewrite (value_kvs_file f Hf) in Hkv. by apply (file_kv f kv Hf).
  - intros i e e' kv He He' Hkv. rewrite file_pairs_at in He, He'. destruct (files !! i) as [f|] eqn:Hf; [|done].
    destruct (files !! S i) as [g|] eqn:Hg; [|done]. injection He as <-. injection He' as <-. cbn [fst snd] in *.
    rewrite (value_kvs_file g) in Hkv by (eapply file_in; [done|by eapply list_elem_of_lookup_2]).
    by apply (files_between files i (S i) f g); [done|done|lia|..].
  - by apply (file_pairs_sorted udom).
  - by apply (file_pairs_dom udom uc).
  - unfold all_pairs. rewrite pairs_of_files by done. apply Forall_concat, Forall_map. eapply List.Forall_impl; [|exact Hok].
    intros f Hf. eapply List.Forall_impl; [|apply (fk_keys f Hf)]. by intros kv [? _].
  - unfold file_pairs. by rewrite length_map.
Qed.

Lemma level_iterator_ok files ro fuel : (length files < fuel)%nat -> Forall file_ok files -> disjoint_sorted uc files -> zlen files < 2 ^ 31 ->
  exists it, ldb_leveliter_create uc tops files = Some it /\
    any_rep (ldb_leveliter_table uc tops tables ro fuel) idom icmp (concat (map file_kvs files)) it None.
Proof.
  intros Hfuel Hok Hs Hz. destruct (level_iterator_init files Hok Hs Hz) as (it & E & R). exists it. split; [exact E|].
  exists (level_rep files). split; [|exact R]. apply level_iterator_laws; [|done..]. intros number size kvs Ekv. by apply tables_iterate_ok.
Qed.
End Level.

(** ** Properties *)

(** Searching a sorted level: on files with disjoint ranges in order,
    [find_file] is the index of the first file whose largest key is not below
    the key, and the overlap test by binary search agrees with the test of all
    files one by one: both say whether the range of some file meets the range
    of user keys, open ends included. *)
Theorem overlap_search_correct udom uc `{!ComparatorLaws udom uc} files smallest largest :
  Forall (file_wf udom uc) files -> disjoint_sorted uc files -> zlen files < 2 ^ 31 ->
  (forall k, smallest = Some k -> ukey_ok udom k) -> (forall k, largest = Some k -> udom k) ->
  (forall key, ikey_dom udom key -> exists n, find_file uc files key = Some (Z.of_nat n) /\ (n <= length files)%nat /\
    forall i f, files !! i = Some f -> ((i < n)%nat <-> ldb_compare (ldb_ikc_init uc) (f_largest f) key < 0)) /\
  exists b, some_file_overlaps_range uc true files smallest largest = Some b /\
    some_file_overlaps_range uc false files smallest largest = Some b /\
    (b = true <-> exists f, f ∈ files /\ overlaps uc smallest largest f).
Proof.
  intros Hwf Hs Hz Hk Hl. split.
  - intros key Hd. destruct (find_file_ok udom uc key files Hd Hwf Hs Hz) as (n & E & Hn & Hlo & Hhi).
    exists n. split; [done|]. split; [done|]. intros i f Hf. split; [intros Hi; by apply (Hlo i)|].
    intros Hb. destruct (decide (i < n)%nat); [done|]. destruct (Hhi i f); [lia|done|done].
  - destruct (overlap_binary udom uc files smallest largest Hwf Hs Hz Hk Hl) as (b & E & Hb).
    destruct (overlap_linear udom uc files smallest largest Hwf Hl) as (b' & E' & Hb'). exists b. split; [done|].
    split; [|done]. rewrite E'. f_equal. apply eq_true_iff_eq. by rewrite Hb, Hb'.
Qed.

(** Files and keys of the witnesses. *)
Definition vkey (user : byte) (seq : Z) : bytes := ldb_ikey_set [user] seq LDB_TYPE_VALUE.

Definition test_file (addr : nat) (number size : Z) (smallest largest : bytes) : fileptr :=
  FilePtr addr (Filemeta 1 100 number size smallest largest).

(** Two neighbours that share the user key c, and a third file. *)
Definition test_level : list fileptr :=
  [test_file 1 11 100 (vkey Byte.x61 9) (vkey Byte.x63 8); test_file 2 12 200 (vkey Byte.x63 5) (vkey Byte.x64 7);
   test_file 3 15 300 (vkey Byte.x66 2) (vkey Byte.x68 3)].

Definition test_tables (number size : Z) : option pairs :=
  if number =? 11 then Some [(vkey Byte.x61 9, [Byte.x01]); (vkey Byte.x63 8, [Byte.x02])]
  else if number =? 12 then Some [(vkey Byte.x63 5, [Byte.x03]); (vkey Byte.x64 7, [Byte.x04])]
  else if number =? 15 then Some [(vkey Byte.x66 2, [Byte.x05]); (vkey Byte.x67 4, []); (vkey Byte.x68 3, [Byte.x06])]
  else None.

Ltac check_sorted := repeat (apply SSorted_cons; [|repeat (apply List.Forall_cons; [by vm_compute|]); apply List.Forall_nil]); apply SSorted_nil.
Ltac check_ikey := split; [vm_compute; split; congruence|exact I].

Lemma test_level_sorted : disjoint_sorted bytewise_comparator test_level.
Proof. check_sorted. Qed.

Lemma test_level_wf : Forall (file_wf (fun _ => True) bytewise_comparator) test_level.
Proof. repeat (apply List.Forall_cons; [split; [check_ikey|check_ikey|by vm_compute|by vm_compute]|]). apply List.Forall_nil. Qed.

Lemma test_level_ok : Forall (file_ok (fun _ => True) bytewise_comparator test_tables) test_level.
Proof.
  pose proof test_level_wf as H.
  repeat (apply Forall_cons_iff in H as [? H]; apply List.Forall_cons; [split; [done|by vm_compute|by vm_compute|by eexists|check_sorted|
    repeat (apply List.Forall_cons; [split; [check_ikey|split; by vm_compute]|]); apply List.Forall_nil]|]).
  apply List.Forall_nil.
Qed.

Lemma overlap_search_correct_witness :
  let range := some_file_overlaps_range bytewise_comparator true test_level in
  find_file bytewise_comparator test_level (vkey Byte.x63 7) = Some 1 /\
  range (Some [Byte.x65]) (Some [Byte.x65]) = Some false /\ range (Some [Byte.x64; Byte.x61]) None = Some true /\
  exists b, range (Some [Byte.x62]) (Some [Byte.x65]) = Some b /\
    some_file_overlaps_range bytewise_comparator false test_level (Some [Byte.x62]) (Some [Byte.x65]) = Some b /\
    (b = true <-> exists f, f ∈ test_level /\ overlaps bytewise_comparator (Some [Byte.x62]) (Some [Byte.x65]) f).
Proof.
  intros range. split; [by vm_compute|]. split; [by vm_compute|]. split; [by vm_compute|].
  refine (proj2 (overlap_search_correct (fun _ => True) bytewise_comparator test_level (Some [Byte.x62]) (Some [Byte.x65])
    test_level_wf test_level_sorted _ _ _)); [by vm_compute| |done].
  intros k [= <-]. split; [exact I|by vm_compute].
Defined.

(** C31: Iterating over a level: the two-level iterator over the files of a
    level, opening each table when it is reached, keeps the iterator contract
    over the concatenated contents of the files. *)
Theorem level_iterator_correct udom uc `{!ComparatorLaws udom uc} {T} (tops : iter_ops T) tables kvs_of
    `{!TablesLaws tops tables udom uc kvs_of} files ro fuel :
  (length files < fuel)%nat -> Forall (file_ok udom uc kvs_of) files -> disjoint_sorted uc files -> zlen files < 2 ^ 31 ->
  exists it rep, ldb_leveliter_create uc tops files = Some it /\ rep it None /\
    IteratorLaws (ldb_leveliter_table uc tops tables ro fuel) (ikey_dom udom) (ldb_ikc_init uc)
      (concat (map (file_kvs kvs_of) files)) rep.
Proof.
  intros Hf Hok Hs Hz. destruct (level_iterator_ok udom uc tops tables kvs_of files ro fuel Hf Hok Hs Hz) as (it & E & rep & L & R).
  by exists it, rep.
Qed.

Lemma level_iterator_correct_witness :
  let tbl := ldb_leveliter_table bytewise_comparator (listiter_table (ldb_ikc_init bytewise_comparator))
    (list_tables bytewise_comparator test_tables) ldb_readopt_default 4 in
  (exists it rep, ldb_leveliter_create bytewise_comparator (listiter_table (ldb_ikc_init bytewise_comparator)) test_level = Some it /\
    rep it None /\
    IteratorLaws tbl (ikey_dom (fun _ => True)) (ldb_ikc_init bytewise_comparator)
      [(vkey Byte.x61 9, [Byte.x01]); (vkey Byte.x63 8, [Byte.x02]); (vkey Byte.x63 5, [Byte.x03]); (vkey Byte.x64 7, [Byte.x04]);
       (vkey Byte.x66 2, [Byte.x05]); (vkey Byte.x67 4, []); (vkey Byte.x68 3, [Byte.x06])] rep) /\
  (it ← ldb_leveliter_create bytewise_comparator (listiter_table (ldb_ikc_init bytewise_comparator)) test_level;
   it ← it_seek tbl it (vkey Byte.x63 7); it ← it_next tbl it; it_value tbl it) = Some [Byte.x04].
Proof.
  intros tbl. split; [|by vm_compute].
  apply (level_iterator_correct (fun _ => True) bytewise_comparator _ (list_tables bytewise_comparator test_tables) test_tables
    test_level ldb_readopt_default 4); [cbn; lia|exact test_level_ok|exact test_level_sorted|by vm_compute].
Defined.
