(* ===== verification/Version.v ===== *)
(** * Versions

    Models the second part of [src/engine/src/version_set.c]: a version is the
    list of table files of each level.  Lookup of a key through the levels, the
    seek statistics that trigger compactions, overlapping files, and the level
    for a new table. *)

From stdpp Require Import strings sorting gmap.
From Stdlib Require Import SpecFloat.
From S2P Require Import Prelude Coding Status Strutil Comparator DBFormat Options Vector VersionEdit Iterator BlockBuilder TwoLevel FileList.
#[local] Open Scope Z_scope.

Definition LDB_MAX_MEM_COMPACT_LEVEL : Z := 2.

(** ** Data *)

(** [ldb_version_t]; the links of the list of versions are in VersionSet.v. *)
Record ldb_version := Version {
  ver_refs : Z;
  ver_files : list (list fileptr);
  ver_file_to_compact : option fileptr;
  ver_file_to_compact_level : Z;
  ver_compaction_score : spec_float;
  ver_compaction_level : Z
}.

Definition ldb_version_init : ldb_version :=
  Version 0 (replicate (Z.to_nat LDB_NUM_LEVELS) []) None (-1) (S754_finite true 4503599627370496 (-52)) (-1).

(** [ver->files[level]]; [None] for a level that does not exist. *)
Definition level_files (ver : ldb_version) (level : Z) : option (list fileptr) := item (ver_files ver) level.

(** [ldb_getstats_t] *)
Record getstats := Getstats { seek_file : option fileptr; seek_file_level : Z }.

(** ** Iterators *)

Section AddIterators.
Context (uc : comparator) {T : Type} (tops : iter_ops T) (tables : tables_ops T).

(** The kinds of iterators over the tables of a version. *)
Abbreviation version_iter := (T + @twoiter numiter (Z + T))%type.

(** More turns than a level has files. *)
Definition version_fuel (ver : ldb_version) : nat := S (length (concat (ver_files ver))).

Definition version_iter_table (options : readopt) (fuel : nat) : iter_ops version_iter :=
  sum_iter_table tops (ldb_leveliter_table uc tops tables options fuel).

Definition add_level_iterator (ver : ldb_version) (level : Z) (iters : list version_iter) : option (list version_iter) :=
  files ← level_files ver level;
  if 0 <? zlen files then it ← ldb_leveliter_create uc tops files; Some (iters ++ [inr it]) else Some iters.

Fixpoint add_level_iterators (ver : ldb_version) (levels : list Z) (iters : list version_iter) : option (list version_iter) :=
  match levels with
  | [] => Some iters
  | level :: levels => iters ← add_level_iterator ver level iters; add_level_iterators ver levels iters
  end.

Fixpoint add_table_iterators (options : readopt) (files : list fileptr) (iters : list version_iter) : option (list version_iter) :=
  match files with
  | [] => Some iters
  | f :: files =>
    it ← ldb_tables_iterate tables options (f_number f) (f_file_size f);
    add_table_iterators options files (iters ++ [inl it])
  end.

Definition ldb_version_add_iterators (ver : ldb_version) (options : readopt) (iters : list version_iter) : option (list version_iter) :=
  files ← level_files ver 0;
  iters ← add_table_iterators options files iters;
  add_level_iterators ver (seqZ 1 (LDB_NUM_LEVELS - 1)) iters.
End AddIterators.

(** ** Lookup *)

Definition newest_first (a b : fileptr) : Z :=
  if f_number b <? f_number a then -1 else if f_number a <? f_number b then 1 else 0.

Section ForEach.
Context (uc : comparator) {A : Type} (func : A -> Z -> fileptr -> option (bool * A)).

(** Calls [func] on the files until it returns 0. *)
Fixpoint visit (level : Z) (files : list fileptr) (arg : A) : option (bool * A) :=
  match files with
  | [] => Some (true, arg)
  | f :: files => '(go, arg) ← func arg level f; if go : bool then visit level files arg else Some (false, arg)
  end.

Definition covers (user_key : bytes) (f : fileptr) : bool :=
  (0 <=? ldb_compare uc user_key (ldb_extract_user_key (f_smallest f))) &&
  (ldb_compare uc user_key (ldb_extract_user_key (f_largest f)) <=? 0).

Fixpoint search_levels (ver : ldb_version) (user_key internal_key : bytes) (levels : list Z) (arg : A) : option A :=
  match levels with
  | [] => Some arg
  | level :: levels =>
    files ← level_files ver level;
    if zlen files =? 0 then search_levels ver user_key internal_key levels arg
    else
      index ← find_file uc files internal_key;
      if index <? zlen files then
        f ← file_at files index;
        if ldb_compare uc user_key (ldb_extract_user_key (f_smallest f)) <? 0 then
          search_levels ver user_key internal_key levels arg
        else
          '(go, arg) ← func arg level f;
          if go : bool then search_levels ver user_key internal_key levels arg else Some arg
      else search_levels ver user_key internal_key levels arg
  end.

Definition ldb_version_for_each_overlapping (ver : ldb_version) (user_key internal_key : bytes) (arg : A) : option A :=
  files ← level_files ver 0;
  let tmp := List.filter (covers user_key) files in
  '(go, arg) ← (if 0 <? zlen tmp then tmp ← sort_items newest_first tmp; visit 0 tmp arg else Some (true, arg));
  if go : bool then search_levels ver user_key internal_key (seqZ 1 (LDB_NUM_LEVELS - 1)) arg else Some arg.
End ForEach.

Inductive saver_state := S_NOTFOUND | S_FOUND | S_DELETED | S_CORRUPT.

(** [saver_t]: [sv_value] is the contents of the buffer, [None] for [NULL]. *)
Record saver := Saver { sv_state : saver_state; sv_user_key : bytes; sv_value : option bytes }.

Definition save_value (uc : comparator) (s : saver) (ikey v : bytes) : saver :=
  match ldb_pkey_import ikey with
  | None => Saver S_CORRUPT (sv_user_key s) (sv_value s)
  | Some pkey =>
    if ldb_compare uc (user_key pkey) (sv_user_key s) =? 0 then
      match type pkey with
      | LDB_TYPE_VALUE => Saver S_FOUND (sv_user_key s) (match sv_value s with Some _ => Some v | None => None end)
      | LDB_TYPE_DELETION => Saver S_DELETED (sv_user_key s) (sv_value s)
      end
    else s
  end.

(** [getstate_t]; the options, the key and the tables are parameters. *)
Record getstate := Getstate {
  gs_saver : saver;
  gs_stats : getstats;
  gs_last_file_read : option fileptr;
  gs_last_file_read_level : Z;
  gs_status : Z;
  gs_found : bool
}.

Section Get.
Context (uc : comparator) {T : Type} (tables : tables_ops T).

Definition getstate_match (options : readopt) (ikey : bytes) (state : getstate) (level : Z) (f : fileptr) : option (bool * getstate) :=
  let stats := match seek_file (gs_stats state), gs_last_file_read state with
               | None, Some _ => Getstats (gs_last_file_read state) (gs_last_file_read_level state)
               | _, _ => gs_stats state
               end in
  '(status, result) ← ldb_tables_get tables options (f_number f) (f_file_size f) ikey;
  let saver := match result with Some (k, v) => save_value uc (gs_saver state) k v | None => gs_saver state end in
  let return_ (go : bool) (status : Z) (found : bool) := Some (go, Getstate saver stats (Some f) level status found) in
  if negb (status =? LDB_OK) then return_ false status true
  else match sv_state saver with
       | S_NOTFOUND => return_ true status (gs_found state)
       | S_FOUND => return_ false status true
       | S_DELETED => return_ false status (gs_found state)
       | S_CORRUPT => return_ false LDB_CORRUPTION true
       end.

(** The status, the contents of [value], and the statistics. *)
Definition ldb_version_get (ver : ldb_version) (options : readopt) (k : ldb_lkey) (value : option bytes) : option (Z * option bytes * getstats) :=
  let ikey := ldb_lkey_internal_key k in
  let user_key := ldb_lkey_user_key k in
  state ← ldb_version_for_each_overlapping uc (getstate_match options ikey) ver user_key ikey
    (Getstate (Saver S_NOTFOUND user_key value) (Getstats None (-1)) None (-1) LDB_OK false);
  Some (if gs_found state then gs_status state else LDB_NOTFOUND, sv_value (gs_saver state), gs_stats state).
End Get.

(** ** Seek statistics *)

(** The current [allowed_seeks] of the files, by address. *)
Abbreviation seek_store := (gmap nat Z).

(** Whether a compaction may be needed; [None]: a file that does not exist, or
    the overflow of an [int]. *)
Definition ldb_version_update_stats (store : seek_store) (ver : ldb_version) (stats : getstats) : option (bool * seek_store * ldb_version) :=
  match seek_file stats with
  | None => Some (false, store, ver)
  | Some f =>
    allowed_seeks ← store !! fp_addr f;
    if allowed_seeks <=? - 2 ^ 31 then None
    else
      let allowed_seeks := allowed_seeks - 1 in
      let store := <[fp_addr f := allowed_seeks]> store in
      match ver_file_to_compact ver with
      | None =>
        if allowed_seeks <=? 0 then
          Some (true, store, Version (ver_refs ver) (ver_files ver) (Some f) (seek_file_level stats) (ver_compaction_score ver)
                  (ver_compaction_level ver))
        else Some (false, store, ver)
      | Some _ => Some (false, store, ver)
      end
  end.

(** [samplestate_t] *)
Record samplestate := Samplestate { ss_stats : getstats; ss_matches : Z }.

Definition samplestate_match (state : samplestate) (level : Z) (f : fileptr) : option (bool * samplestate) :=
  let matches := ss_matches state + 1 in
  let stats := if matches =? 1 then Getstats (Some f) level else ss_stats state in
  Some (matches <? 2, Samplestate stats matches).

Definition ldb_version_record_read_sample (uc : comparator) (store : seek_store) (ver : ldb_version) (ikey : bytes)
    : option (bool * seek_store * ldb_version) :=
  match ldb_pkey_import ikey with
  | None => Some (false, store, ver)
  | Some pkey =>
    state ← ldb_version_for_each_overlapping uc samplestate_match ver (user_key pkey) ikey (Samplestate (Getstats None 0) 0);
    if 2 <=? ss_matches state then ldb_version_update_stats store ver (ss_stats state) else Some (false, store, ver)
  end.

(** ** Overlapping files *)

Section Inputs.
Context (uc : comparator).

Definition ldb_version_overlap_in_level (ver : ldb_version) (level : Z) (smallest_user_key largest_user_key : option bytes) : option bool :=
  files ← level_files ver level;
  some_file_overlaps_range uc (0 <? level) files smallest_user_key largest_user_key.

(** Comparisons with an end of the range that may be open. *)
Definition before_begin (user_begin : option bytes) (key : bytes) : bool :=
  match user_begin with Some b => ldb_compare uc key b <? 0 | None => false end.
Definition after_end (user_end : option bytes) (key : bytes) : bool :=
  match user_end with Some e => 0 <? ldb_compare uc key e | None => false end.

(** The loop of [ldb_version_get_overlapping_inputs].  In level 0 a file that
    sticks out extends the range, and the search starts again. *)
Fixpoint overlapping_loop (fuel : nat) (level : Z) (files : list fileptr) (i : Z) (user_begin user_end : option bytes)
    (inputs : list fileptr) : option (list fileptr) :=
  if i <? zlen files then
    match fuel with
    | O => None
    | S fuel =>
      f ← file_at files i;
      let i := i + 1 in
      let file_start := ldb_extract_user_key (f_smallest f) in
      let file_limit := ldb_extract_user_key (f_largest f) in
      if before_begin user_begin file_limit then overlapping_loop fuel level files i user_begin user_end inputs
      else if after_end user_end file_start then overlapping_loop fuel level files i user_begin user_end inputs
      else if level =? 0 then
        if before_begin user_begin file_start then overlapping_loop fuel level files 0 (Some file_start) user_end []
        else if after_end user_end file_limit then overlapping_loop fuel level files 0 user_begin (Some file_limit) []
        else overlapping_loop fuel level files i user_begin user_end (inputs ++ [f])
      else overlapping_loop fuel level files i user_begin user_end (inputs ++ [f])
    end
  else Some inputs.

(** Every file restarts the search at most twice. *)
Definition overlapping_fuel (files : list fileptr) : nat := ((2 * length files + 1) * (length files + 1))%nat.

Definition ldb_version_get_overlapping_inputs (ver : ldb_version) (level : Z) (begin end_ : option bytes) : option (list fileptr) :=
  files ← level_files ver level;
  overlapping_loop (overlapping_fuel files) level files 0 (ldb_extract_user_key <$> begin) (ldb_extract_user_key <$> end_) [].

(** The loop of [ldb_version_pick_level_for_memtable_output]: at most
    [LDB_MAX_MEM_COMPACT_LEVEL] turns. *)
Fixpoint pick_level_loop (turns : nat) (options : dbopt) (ver : ldb_version) (small_key large_key start limit : bytes) (level : Z) : option Z :=
  match turns with
  | O => Some level
  | S turns =>
    overlap ← ldb_version_overlap_in_level ver (level + 1) (Some small_key) (Some large_key);
    if overlap : bool then Some level
    else
      too_much ← (if level + 2 <? LDB_NUM_LEVELS then
                    overlaps ← ldb_version_get_overlapping_inputs ver (level + 2) (Some start) (Some limit);
                    Some (max_grandparent_overlap_bytes options <? total_file_size overlaps)
                  else Some false);
      if too_much : bool then Some level else pick_level_loop turns options ver small_key large_key start limit (level + 1)
  end.

Definition ldb_version_pick_level_for_memtable_output (options : dbopt) (ver : ldb_version) (small_key large_key : bytes) : option Z :=
  overlap ← ldb_version_overlap_in_level ver 0 (Some small_key) (Some large_key);
  if overlap : bool then Some 0
  else pick_level_loop (Z.to_nat LDB_MAX_MEM_COMPACT_LEVEL) options ver small_key large_key
         (ldb_ikey_set small_key LDB_MAX_SEQUENCE LDB_VALTYPE_SEEK) (ldb_ikey_set large_key 0 LDB_TYPE_DELETION) 0.
End Inputs.

(** ** Printing *)

Definition debug_file_entry (z : bytes) (file : fileptr) : bytes :=
  let z := z ++ cstr " " ++ ldb_encode_int (f_number file) 0 ++ cstr ":" ++ ldb_encode_int (f_file_size file) 0 ++ cstr "[" in
  ldb_ikey_debug (ldb_ikey_debug z (f_smallest file) ++ cstr " .. ") (f_largest file) ++ cstr "]" ++ newline.

Fixpoint debug_levels (z : bytes) (level : Z) (levels : list (list fileptr)) : bytes :=
  match levels with
  | [] => z
  | files :: levels =>
    let z := z ++ cstr "--- level " ++ ldb_encode_int level 0 ++ cstr " ---" ++ newline in
    debug_levels (fold_left debug_file_entry files z) (level + 1) levels
  end.

Definition ldb_version_debug (z : bytes) (x : ldb_version) : bytes := debug_levels z 0 (ver_files x).

(** ** Overlapping files *)

Section Overlapping.
Context (udom : bytes -> Prop) (uc : comparator) `{!ComparatorLaws udom uc}.
Local Abbreviation ukey := ldb_extract_user_key.
Local Abbreviation small f := (ukey (f_smallest f)).
Local Abbreviation large f := (ukey (f_largest f)).

(** The range of a file meets the range; it lies inside it. *)
Definition meets (b e : option bytes) (f : fileptr) : bool := negb (before_begin uc b (large f) || after_end uc e (small f)).
Definition inside (b e : option bytes) (f : fileptr) : bool := negb (before_begin uc b (small f) || after_end uc e (large f)).

(** [b'] is at or before [b], [e'] at or after [e]; open ends stay open. *)
Definition extends (b e b' e' : option bytes) : Prop :=
  match b, b' with None, None => True | Some x, Some y => udom y /\ ldb_compare uc y x <= 0 | _, _ => False end /\
  match e, e' with None, None => True | Some x, Some y => udom y /\ 0 <= ldb_compare uc y x | _, _ => False end.

(** Files that meet the range are inside it. *)
Definition closed (files : list fileptr) (b e : option bytes) : Prop :=
  forall f, f ∈ files -> meets b e f = true -> inside b e f = true.

Definition end_dom (k : option bytes) : Prop := forall x, k = Some x -> udom x.

Lemma extends_refl b e : end_dom b -> end_dom e -> extends b e b e.
Proof.
  intros Hb He. split; [destruct b as [x|]|destruct e as [x|]]; try done.
  - rewrite (compare_refl udom uc) by auto. split; [auto|lia].
  - rewrite (compare_refl udom uc) by auto. split; [auto|lia].
Qed.

Lemma extends_dom b e b' e' : extends b e b' e' -> end_dom b' /\ end_dom e'.
Proof.
  intros [Hb He]. split; intros x ->; [destruct b|destruct e]; tauto.
Qed.

Lemma extends_trans b e b1 e1 b2 e2 : end_dom b -> end_dom e -> extends b e b1 e1 -> extends b1 e1 b2 e2 -> extends b e b2 e2.
Proof.
  intros Db De [Hb1 He1] [Hb2 He2]. split.
  - destruct b as [x|], b1 as [y|], b2 as [z|]; try done. destruct Hb1 as [Hy H1], Hb2 as [Hz H2]. split; [done|].
    apply (compare_trans (c := uc) _ y); auto.
  - destruct e as [x|], e1 as [y|], e2 as [z|]; try done. destruct He1 as [Hy H1], He2 as [Hz H2]. split; [done|].
    specialize (De x eq_refl). apply (compare_le_flip udom uc) in H1, H2; try done. apply (compare_le_flip udom uc); try done.
    by apply (compare_trans (c := uc) _ y).
Qed.

(** A larger range meets more. *)
Lemma meets_mono b e b' e' f : file_wf udom uc f -> end_dom b -> end_dom e -> extends b e b' e' -> meets b e f = true -> meets b' e' f = true.
Proof.
  intros [[_ Ds] [_ Dl] _ _] Db De [Hb He] [H1 H2]%negb_true_iff%orb_false_iff. unfold meets. apply negb_true_iff, orb_false_iff.
  unfold before_begin, after_end in *. split.
  - destruct b as [x|], b' as [y|]; try done. destruct Hb as [Dy Hb]. apply Z.ltb_ge. apply Z.ltb_ge in H1.
    apply (compare_le_flip udom uc); [done..|]. apply (compare_trans (c := uc) _ x); auto. apply (compare_le_flip udom uc); auto.
  - destruct e as [x|], e' as [y|]; try done. destruct He as [Dy He]. apply Z.ltb_ge. apply Z.ltb_ge in H2. specialize (De x eq_refl).
    apply (compare_le_flip udom uc) in He; [|done..]. by apply (compare_trans (c := uc) _ x).
Qed.

Lemma overlapping_above level files i b e inputs fuel : level <> 0 -> (i <= length files)%nat -> (length files - i <= fuel)%nat ->
  overlapping_loop uc fuel level files (Z.of_nat i) b e inputs = Some (inputs ++ List.filter (meets b e) (drop i files)).
Proof.
  intros Hl. revert i inputs. induction fuel as [|fuel IH]; intros i inputs Hi Hf; cbn [overlapping_loop].
  all: destruct (Z.ltb_spec (Z.of_nat i) (zlen files)) as [Hlt|Hge];
    [|rewrite drop_ge by (unfold zlen in Hge; lia); cbn; by rewrite app_nil_r].
  - unfold zlen in Hlt. lia.
  - rewrite file_at_nat. destruct (lookup_lt_is_Some_2 files i) as [f Hf']; [unfold zlen in Hlt; lia|]. rewrite Hf'. cbn [mbind option_bind].
    replace (Z.of_nat i + 1) with (Z.of_nat (S i)) by lia. rewrite (proj2 (Z.eqb_neq level 0) Hl).
    rewrite (drop_S _ _ _ Hf'). cbn [List.filter]. unfold meets at 1. unfold zlen in Hlt.
    destruct (before_begin uc b (large f)); cbn [orb negb]; [by apply IH; lia|].
    destruct (after_end uc e (small f)); cbn [orb negb]; [by apply IH; lia|].
    rewrite IH by lia. by rewrite <- app_assoc.
Qed.

(** *** Level 0 *)

Section LevelZero.
Context (files : list fileptr) (b0 e0 : option bytes).
Hypothesis files_ok : Forall (file_wf udom uc) files.
Hypothesis b0_dom : end_dom b0.
Hypothesis e0_dom : end_dom e0.

Local Abbreviation n := (length files).

(** How many files can still extend the range. *)
Definition sticking_out (b e : option bytes) : nat :=
  length (List.filter (fun f => before_begin uc b (small f)) files) + length (List.filter (fun f => after_end uc e (large f)) files).

Lemma begin_extended f b e : f ∈ files -> end_dom b -> before_begin uc b (small f) = true ->
  (sticking_out (Some (small f)) e < sticking_out b e)%nat.
Proof.
  intros Hin Db Hb. unfold sticking_out. apply Nat.add_lt_mono_r. pose proof files_ok as Hwf. rewrite List.Forall_forall in Hwf.
  assert (udom (small f)) as Df by (apply list_elem_of_In in Hin; by destruct (Hwf f Hin) as [[_ ?] _ _ _]).
  apply (filter_length_lt _ _ _ f); [|done|done|].
  - intros g Hg%list_elem_of_In. destruct (Hwf g Hg) as [[_ Dg] _ _ _]. unfold before_begin in *. destruct b as [x|]; [|done].
    apply Z.ltb_lt in Hb. intros H%Z.ltb_lt. apply Z.ltb_lt. by apply (compare_lt_trans udom uc _ (small f)); auto.
  - unfold before_begin. apply Z.ltb_ge. rewrite (compare_refl udom uc) by done. lia.
Qed.

Lemma end_extended f b e : f ∈ files -> end_dom e -> after_end uc e (large f) = true ->
  (sticking_out b (Some (large f)) < sticking_out b e)%nat.
Proof.
  intros Hin De He. unfold sticking_out. apply Nat.add_lt_mono_l. pose proof files_ok as Hwf. rewrite List.Forall_forall in Hwf.
  assert (udom (large f)) as Df by (apply list_elem_of_In in Hin; by destruct (Hwf f Hin) as [_ [_ ?] _ _]).
  apply (filter_length_lt _ _ _ f); [|done|done|].
  - intros g Hg%list_elem_of_In. destruct (Hwf g Hg) as [_ [_ Dg] _ _]. unfold after_end in *. destruct e as [x|]; [|done].
    specialize (De x eq_refl). apply Z.ltb_lt in He. intros H%Z.ltb_lt. apply Z.ltb_lt.
    apply (compare_lt_flip udom uc) in He, H; [|done..]. apply (compare_lt_flip udom uc); [done..|].
    by apply (compare_lt_trans udom uc _ (large f)).
  - unfold after_end. apply Z.ltb_ge. rewrite (compare_refl udom uc) by done. lia.
Qed.

(** The current range lies within every closed range around the first one. *)
Definition within_closed (b e : option bytes) : Prop := forall B E, extends b0 e0 B E -> closed files B E -> extends b e B E.

Lemma extend_begin f b e : f ∈ files -> extends b0 e0 b e -> within_closed b e -> meets b e f = true ->
  before_begin uc b (small f) = true -> extends b0 e0 (Some (small f)) e /\ within_closed (Some (small f)) e.
Proof.
  intros Hin Hx Hw Hm Hb. pose proof (extends_dom _ _ _ _ Hx) as [Db De].
  assert (file_wf udom uc f) as Hf by (rewrite List.Forall_forall in files_ok; by apply files_ok, list_elem_of_In).
  destruct (Hf) as [[_ Ds] _ _ _]. unfold before_begin in Hb. destruct b as [x|]; [|done]. apply Z.ltb_lt in Hb. split.
  - apply (extends_trans _ _ (Some x) e); [done|done|done|]. pose proof (extends_refl (Some x) e Db De) as [_ He]. split; [|done].
    split; [done|lia].
  - intros B E HB HE. pose proof (Hw B E HB HE) as [H1 H2]. split; [|done]. destruct B as [y|]; [|done]. destruct H1 as [Dy H1].
    split; [done|]. assert (meets (Some y) E f = true) as Hm' by (apply (meets_mono (Some x) e); [done|done|done|by split|done]).
    apply (HE f Hin) in Hm'. apply negb_true_iff, orb_false_iff in Hm' as [Hi _]. unfold before_begin in Hi. apply Z.ltb_ge in Hi.
    by apply (compare_le_flip udom uc).
Qed.

Lemma extend_end f b e : f ∈ files -> extends b0 e0 b e -> within_closed b e -> meets b e f = true ->
  after_end uc e (large f) = true -> extends b0 e0 b (Some (large f)) /\ within_closed b (Some (large f)).
Proof.
  intros Hin Hx Hw Hm He. pose proof (extends_dom _ _ _ _ Hx) as [Db De].
  assert (file_wf udom uc f) as Hf by (rewrite List.Forall_forall in files_ok; by apply files_ok, list_elem_of_In).
  destruct (Hf) as [_ [_ Dl] _ _]. unfold after_end in He. destruct e as [x|]; [|done]. apply Z.ltb_lt in He. split.
  - apply (extends_trans _ _ b (Some x)); [done|done|done|]. pose proof (extends_refl b (Some x) Db De) as [Hb _]. split; [done|].
    split; [done|lia].
  - intros B E HB HE. pose proof (Hw B E HB HE) as [H1 H2]. split; [done|]. destruct E as [y|]; [|done]. destruct H2 as [Dy H2].
    split; [done|]. assert (meets B (Some y) f = true) as Hm' by (apply (meets_mono b (Some x)); [done|done|done|by split|done]).
    apply (HE f Hin) in Hm'. apply negb_true_iff, orb_false_iff in Hm' as [_ Hi]. unfold after_end in Hi. apply Z.ltb_ge in Hi.
    by apply (compare_le_flip udom uc).
Qed.

Lemma overlapping_zero fuel : forall i b e inputs,
  (i <= n)%nat -> (sticking_out b e * S n + (n - i) < fuel)%nat ->
  extends b0 e0 b e -> within_closed b e -> inputs = List.filter (meets b e) (take i files) ->
  Forall (fun f => inside b e f = true) inputs ->
  exists b' e', overlapping_loop uc fuel 0 files (Z.of_nat i) b e inputs = Some (List.filter (meets b' e') files) /\
    extends b0 e0 b' e' /\ closed files b' e' /\ within_closed b' e'.
Proof.
  induction fuel as [|fuel IH]; intros i b e inputs Hi Hf Hx Hw Ein Hins; cbn [overlapping_loop]; [lia|].
  destruct (Z.ltb_spec (Z.of_nat i) (zlen files)) as [Hlt|Hge]; unfold zlen in *.
  - rewrite file_at_nat. destruct (lookup_lt_is_Some_2 files i) as [f Hf']; [lia|]. rewrite Hf'. cbn [mbind option_bind].
    pose proof (list_elem_of_lookup_2 _ _ _ Hf') as Hin. pose proof (extends_dom _ _ _ _ Hx) as [Db De].
    replace (Z.of_nat i + 1) with (Z.of_nat (S i)) by lia. cbn [Z.eqb].
    assert (forall ins, ins = (if meets b e f then [f] else []) ->
      inputs ++ ins = List.filter (meets b e) (take (S i) files)) as Hpush.
    { intros ins ->. rewrite (take_S_r _ _ _ Hf'), List.filter_app, <- Ein. cbn [List.filter]. by destruct (meets b e f). }
    destruct (before_begin uc b (large f)) eqn:E1.
    { apply IH; [lia|lia|done|done| |done]. rewrite <- (Hpush []); [by rewrite app_nil_r|]. unfold meets. by rewrite E1. }
    destruct (after_end uc e (small f)) eqn:E2.
    { apply IH; [lia|lia|done|done| |done]. rewrite <- (Hpush []); [by rewrite app_nil_r|]. unfold meets. by rewrite E1, E2. }
    assert (meets b e f = true) as Hm by (unfold meets; by rewrite E1, E2).
    destruct (before_begin uc b (small f)) eqn:E3.
    { destruct (extend_begin f b e Hin Hx Hw Hm E3) as [Hx' Hw']. pose proof (begin_extended f b e Hin Db E3).
      change 0 with (Z.of_nat 0). apply IH; [lia|nia|done|done|done|by constructor]. }
    destruct (after_end uc e (large f)) eqn:E4.
    { destruct (extend_end f b e Hin Hx Hw Hm E4) as [Hx' Hw']. pose proof (end_extended f b e Hin De E4).
      change 0 with (Z.of_nat 0). apply IH; [lia|nia|done|done|done|by constructor]. }
    apply IH; [lia|lia|done|done|by apply Hpush; rewrite Hm|]. apply List.Forall_app. split; [done|].
    apply List.Forall_cons; [|by apply List.Forall_nil]. unfold inside. by rewrite E3, E4.
  - assert (i = n) as -> by lia. rewrite take_ge in Ein by lia. exists b, e. rewrite <- Ein. split; [done|]. split; [done|].
    split; [|done]. intros f Hin Hm. rewrite List.Forall_forall in Hins. apply Hins. rewrite Ein. apply List.filter_In.
    split; [by apply list_elem_of_In|done].
Qed.
End LevelZero.

Lemma sticking_bound files b e : (sticking_out files b e <= 2 * length files)%nat.
Proof.
  unfold sticking_out. pose proof (List.filter_length_le (fun f => before_begin uc b (small f)) files).
  pose proof (List.filter_length_le (fun f => after_end uc e (large f)) files). lia.
Qed.

(** The files found: those that meet the range, in level 0 its closure. *)
Definition overlapping_spec (level : Z) (files : list fileptr) (b e : option bytes) (inputs : list fileptr) : Prop :=
  exists b' e', inputs = List.filter (meets b' e') files /\
    if level =? 0 then
      extends b e b' e' /\ closed files b' e' /\ forall B E, extends b e B E -> closed files B E -> extends b' e' B E
    else b' = b /\ e' = e.

Lemma get_overlapping_ok ver level files begin end_ :
  level_files ver level = Some files -> Forall (file_wf udom uc) files ->
  end_dom (ukey <$> begin) -> end_dom (ukey <$> end_) ->
  exists inputs, ldb_version_get_overlapping_inputs uc ver level begin end_ = Some inputs /\
    overlapping_spec level files (ukey <$> begin) (ukey <$> end_) inputs.
Proof.
  intros Hl Hwf Db De. unfold ldb_version_get_overlapping_inputs, overlapping_spec. rewrite Hl. cbn [mbind option_bind].
  set (b := ukey <$> begin) in *. set (e := ukey <$> end_) in *. change 0 with (Z.of_nat 0) at 1.
  destruct (Z.eqb_spec level 0) as [->|Hne].
  - pose proof (sticking_bound files b e).
    destruct (overlapping_zero files b e Hwf Db De (overlapping_fuel files) 0 b e []) as (b' & e' & E & H1 & H2 & H3);
      [lia|unfold overlapping_fuel; nia|by apply extends_refl|by intros B E HB _|done|constructor|].
    eexists. split; [exact E|]. exists b', e'. split; [done|]. split; [done|]. by split.
  - rewrite overlapping_above by (done || lia || (unfold overlapping_fuel; nia)). eexists. split; [reflexivity|]. exists b, e.
    by rewrite drop_0.
Qed.
End Overlapping.

(** ** The level for a new table *)

Section PickLevel.
Context (udom : bytes -> Prop) (uc : comparator) `{!ComparatorLaws udom uc}.

(** What the choice of a level relies on. *)
Record levels_ok (ver : ldb_version) : Prop := {
  lo_count : zlen (ver_files ver) = LDB_NUM_LEVELS;
  lo_files level files : level_files ver level = Some files -> Forall (file_wf udom uc) files /\ zlen files < 2 ^ 31;
  lo_sorted level files : level <> 0 -> level_files ver level = Some files -> disjoint_sorted uc files
}.

Lemma level_exists ver level : levels_ok ver -> 0 <= level < LDB_NUM_LEVELS -> exists files, level_files ver level = Some files.
Proof. intros Hv Hl. apply item_some. by rewrite (lo_count ver Hv). Qed.

Lemma overlap_in_level_ok ver level s l : levels_ok ver -> 0 <= level < LDB_NUM_LEVELS ->
  (forall k, s = Some k -> ukey_ok udom k) -> (forall k, l = Some k -> udom k) ->
  exists b files, ldb_version_overlap_in_level uc ver level s l = Some b /\ level_files ver level = Some files /\
    (b = true <-> exists f, f ∈ files /\ overlaps uc s l f).
Proof.
  intros Hv Hl Hs He. destruct (level_exists ver level Hv Hl) as [files E]. destruct (lo_files ver Hv level files E) as [Hwf Hz].
  unfold ldb_version_overlap_in_level. rewrite E. cbn [mbind option_bind]. destruct (Z.ltb_spec 0 level) as [Hgt|Hle].
  - destruct (overlap_binary udom uc files s l Hwf (lo_sorted ver Hv level files ltac:(lia) E) Hz Hs He) as (b & Eb & Hb). by exists b, files.
  - destruct (overlap_linear udom uc files s l Hwf He) as (b & Eb & Hb). by exists b, files.
Qed.

(** No file of the level meets the range. *)
Definition level_free (ver : ldb_version) (level : Z) (small_key large_key : bytes) : Prop :=
  forall files f, level_files ver level = Some files -> f ∈ files -> ~ overlaps uc (Some small_key) (Some large_key) f.

(** The files of the level that meet the range are small enough for a table two
    levels above. *)
Definition grandparents_small (options : dbopt) (ver : ldb_version) (level : Z) (small_key large_key : bytes) : Prop :=
  forall files, level_files ver level = Some files ->
    total_file_size (List.filter (meets uc (Some small_key) (Some large_key)) files) <= max_grandparent_overlap_bytes options.

(** A table of the range may go from the level to the next one. *)
Definition may_descend (options : dbopt) (ver : ldb_version) (small_key large_key : bytes) (level : Z) : Prop :=
  level_free ver (level + 1) small_key large_key /\ grandparents_small options ver (level + 2) small_key large_key.

Lemma level_free_overlap ver level s l files b : level_files ver level = Some files ->
  (b = true <-> exists f, f ∈ files /\ overlaps uc (Some s) (Some l) f) -> b = false <-> level_free ver level s l.
Proof.
  intros E Hb. split.
  - intros -> fs f Ef Hin Ho. rewrite E in Ef. injection Ef as <-. destruct Hb as [_ Hb]. discriminate Hb. by exists f.
  - intros Hf. destruct b; [|done]. destruct Hb as [Hb _]. destruct (Hb eq_refl) as (f & Hin & Ho). by destruct (Hf files f E Hin).
Qed.

Lemma grandparents_checked options ver level start limit : levels_ok ver -> 0 < level < LDB_NUM_LEVELS ->
  ikey_dom udom start -> ikey_dom udom limit ->
  exists overlaps, ldb_version_get_overlapping_inputs uc ver level (Some start) (Some limit) = Some overlaps /\
    (total_file_size overlaps <= max_grandparent_overlap_bytes options <->
     grandparents_small options ver level (ldb_extract_user_key start) (ldb_extract_user_key limit)).
Proof.
  intros Hv Hl Ds Dl. destruct (level_exists ver level Hv ltac:(lia)) as [gs Eg]. destruct (lo_files ver Hv _ gs Eg) as [Hwf _].
  destruct (get_overlapping_ok udom uc ver level gs (Some start) (Some limit) Eg Hwf) as (inputs & -> & b' & e' & -> & Hz).
  - intros x [= <-]. apply Ds.
  - intros x [= <-]. apply Dl.
  - destruct (Z.eqb_spec level 0) as [|_]; [lia|]. destruct Hz as [-> ->]. eexists. split; [done|]. split.
    + intros H fs Ef. rewrite Eg in Ef. by injection Ef as <-.
    + intros H. by apply H.
Qed.

(** The loop goes down as long as it may. *)
Lemma pick_level_loop_ok turns : forall options ver small_key large_key start limit level,
  levels_ok ver -> ukey_ok udom small_key -> udom large_key -> ikey_dom udom start -> ikey_dom udom limit ->
  ldb_extract_user_key start = small_key -> ldb_extract_user_key limit = large_key ->
  0 <= level -> level + Z.of_nat turns <= LDB_MAX_MEM_COMPACT_LEVEL ->
  exists level', pick_level_loop uc turns options ver small_key large_key start limit level = Some level' /\
    level <= level' <= level + Z.of_nat turns /\
    (forall l, level <= l < level' -> may_descend options ver small_key large_key l) /\
    (level' = level + Z.of_nat turns \/ ~ may_descend options ver small_key large_key level').
Proof.
  induction turns as [|turns IH]; intros options ver small_key large_key start limit level Hv Hs Hl Ds Dl Es El Hlo Hhi; cbn [pick_level_loop].
  - exists level. split; [done|]. split; [lia|]. split; [intros; lia|left; lia].
  - unfold LDB_MAX_MEM_COMPACT_LEVEL in *.
    destruct (overlap_in_level_ok ver (level + 1) (Some small_key) (Some large_key)) as (b & files & -> & E & Hb);
      [done|unfold LDB_NUM_LEVELS; lia|by intros k [= <-]|by intros k [= <-]|].
    apply (level_free_overlap ver (level + 1) _ _ _ _ E) in Hb. rewrite bind_some.
    assert (forall P : Prop, ~ P -> exists level', Some level = Some level' /\ level <= level' <= level + Z.of_nat (S turns) /\
      (forall l, level <= l < level' -> may_descend options ver small_key large_key l) /\ (level' = level + Z.of_nat (S turns) \/ ~ P) /\ level' = level)
      as Hstay by (intros P HP; exists level; split; [done|]; split; [lia|]; split; [intros; lia|by split; [right|]]).
    destruct b.
    { destruct (Hstay (may_descend options ver small_key large_key level)) as (l' & ? & ? & ? & ? & ->); [|by exists level].
      intros [Hf _]. by apply Hb in Hf. }
    destruct (Z.ltb_spec (level + 2) LDB_NUM_LEVELS) as [Hlt|Hge]; [|unfold LDB_NUM_LEVELS in Hge; lia].
    destruct (grandparents_checked options ver (level + 2) start limit) as (gs & -> & Hg); [done|lia|done|done|]. rewrite !bind_some.
    rewrite Es, El in Hg. destruct (Z.ltb_spec (max_grandparent_overlap_bytes options) (total_file_size gs)) as [Hbig|Hsmall].
    { destruct (Hstay (may_descend options ver small_key large_key level)) as (l' & ? & ? & ? & ? & ->); [|by exists level].
      intros [_ Hf]. apply Hg in Hf. lia. }
    destruct (IH options ver small_key large_key start limit (level + 1)) as (level' & E' & Hr & Hf & Hm); [done..|lia|lia|].
    exists level'. split; [done|]. split; [lia|]. split; [|by destruct Hm; [left; lia|right]]. intros l Hl'.
    destruct (Z.eq_dec l level) as [->|]; [|apply Hf; lia]. split; [by apply Hb|by apply Hg].
Qed.
End PickLevel.

(** ** Properties *)

(** C33: Files for a compaction: collecting the files of a level that overlap a
    range of keys terminates; above level 0 these are the files whose range meets
    the given one; in level 0, where files overlap each other, they are those that
    meet the smallest range around the given one that no file sticks out of. *)
Theorem overlapping_inputs_correct udom uc `{!ComparatorLaws udom uc} ver level files begin end_ :
  level_files ver level = Some files -> Forall (file_wf udom uc) files ->
  end_dom udom (ldb_extract_user_key <$> begin) -> end_dom udom (ldb_extract_user_key <$> end_) ->
  exists inputs, ldb_version_get_overlapping_inputs uc ver level begin end_ = Some inputs /\
    overlapping_spec udom uc level files (ldb_extract_user_key <$> begin) (ldb_extract_user_key <$> end_) inputs.
Proof. apply get_overlapping_ok. apply _. Qed.

(** Level 0 of the witness: the range of b reaches the second file through the
    third, but not the fourth. *)
Definition test_zero : ldb_version :=
  Version 1 [[test_file 1 11 10 (vkey Byte.x63 9) (vkey Byte.x65 8); test_file 2 12 10 (vkey Byte.x61 5) (vkey Byte.x62 7);
              test_file 3 13 10 (vkey Byte.x62 2) (vkey Byte.x63 3); test_file 4 14 10 (vkey Byte.x66 2) (vkey Byte.x67 3)];
             []; []; []; []; []; []] None (-1) (S754_zero false) (-1).

Lemma overlapping_inputs_correct_witness :
  let files := default [] (level_files test_zero 0) in
  exists inputs, ldb_version_get_overlapping_inputs bytewise_comparator test_zero 0 (Some (vkey Byte.x62 9)) (Some (vkey Byte.x62 1)) = Some inputs /\
    overlapping_spec (fun _ => True) bytewise_comparator 0 files (Some [Byte.x62]) (Some [Byte.x62]) inputs /\
    map (fun f => f_number f) inputs = [11; 12; 13].
Proof.
  intros files.
  destruct (overlapping_inputs_correct (fun _ => True) bytewise_comparator test_zero 0 files (Some (vkey Byte.x62 9)) (Some (vkey Byte.x62 1)))
    as (inputs & E & H); [done| |done|done|].
  { repeat (apply List.Forall_cons; [split; [check_ikey|check_ikey|by vm_compute|by vm_compute]|]); apply List.Forall_nil. }
  exists inputs. split; [exact E|]. split; [exact H|]. vm_compute in E. by injection E as <-.
Defined.

(** C34: A table written from a memtable goes to level 0 exactly when a file of
    level 0 overlaps its range or it may not go down to level 1; otherwise it goes
    down level by level, at most to the second, as far as it may: as long as the
    next level has no file that overlaps the range and the files that overlap it
    one level further down do not exceed the limit.  So above level 0 no file of
    the chosen level, nor of one above it, overlaps the range, and older versions
    of its keys are only in deeper levels. *)
Theorem memtable_output_level_safe udom uc `{!ComparatorLaws udom uc} options ver small_key large_key :
  levels_ok udom uc ver -> ukey_ok udom small_key -> ukey_ok udom large_key ->
  exists level, ldb_version_pick_level_for_memtable_output uc options ver small_key large_key = Some level /\
    (level = 0 /\ ~ level_free uc ver 0 small_key large_key \/
     0 <= level <= LDB_MAX_MEM_COMPACT_LEVEL /\
     (forall l, 0 <= l <= level -> level_free uc ver l small_key large_key) /\
     (forall l, 0 <= l < level -> may_descend uc options ver small_key large_key l) /\
     (level = LDB_MAX_MEM_COMPACT_LEVEL \/ ~ may_descend uc options ver small_key large_key level)).
Proof.
  intros Hv Hs Hl. unfold ldb_version_pick_level_for_memtable_output.
  destruct (overlap_in_level_ok udom uc ver 0 (Some small_key) (Some large_key)) as (b & files & -> & E & Hb);
    [done|unfold LDB_NUM_LEVELS; lia|by intros k [= <-]|by intros k [= <-]; apply Hl|].
  apply (level_free_overlap uc ver 0 _ _ _ _ E) in Hb. rewrite bind_some. destruct b.
  { exists 0. split; [done|]. left. split; [done|]. intros Hf. by apply Hb in Hf. }
  assert (pkey_wf (Pkey large_key 0 LDB_TYPE_DELETION)) as Hpk by (split; [split; by vm_compute|apply Hl]).
  assert (pkey_wf (Pkey small_key LDB_MAX_SEQUENCE LDB_VALTYPE_SEEK)) as Hps by (split; [split; by vm_compute|apply Hs]).
  destruct (pick_level_loop_ok udom uc (Z.to_nat LDB_MAX_MEM_COMPACT_LEVEL) options ver small_key large_key
    (ldb_ikey_set small_key LDB_MAX_SEQUENCE LDB_VALTYPE_SEEK) (ldb_ikey_set large_key 0 LDB_TYPE_DELETION) 0)
    as (level & -> & Hr & Hf & Hm); [done|done|apply Hl|by apply seek_key_dom; apply Hs| | | |lia|unfold LDB_MAX_MEM_COMPACT_LEVEL; lia|].
  { apply (ikey_in_dom udom (Pkey large_key 0 LDB_TYPE_DELETION)); [done|apply Hl]. }
  { exact (user_key_ikey _ Hps). }
  { exact (user_key_ikey _ Hpk). }
  exists level. split; [done|]. right. unfold LDB_MAX_MEM_COMPACT_LEVEL in *. split; [lia|]. split; [|by split].
  intros l Hl'. destruct (Z.eq_dec l 0) as [->|]; [by apply Hb|]. replace l with (l - 1 + 1) by lia. apply (Hf (l - 1)). lia.
Qed.

Lemma memtable_output_level_safe_witness :
  let ver := Version 1 [[test_file 9 20 10 (vkey Byte.x70 9) (vkey Byte.x71 8)]; []; test_level; []; []; []; []] None (-1) (S754_zero false) (-1) in
  ldb_version_pick_level_for_memtable_output bytewise_comparator ldb_dbopt_default ver [Byte.x65] [Byte.x65; Byte.x66] = Some 2 /\
  ldb_version_pick_level_for_memtable_output bytewise_comparator ldb_dbopt_default ver [Byte.x65] [Byte.x66] = Some 1 /\
  ldb_version_pick_level_for_memtable_output bytewise_comparator ldb_dbopt_default ver [Byte.x6a] [Byte.x70] = Some 0 /\
  exists level, ldb_version_pick_level_for_memtable_output bytewise_comparator ldb_dbopt_default ver [Byte.x65] [Byte.x66] = Some level /\
    (level = 0 /\ ~ level_free bytewise_comparator ver 0 [Byte.x65] [Byte.x66] \/
     0 <= level <= 2 /\
     (forall l, 0 <= l <= level -> level_free bytewise_comparator ver l [Byte.x65] [Byte.x66]) /\
     (forall l, 0 <= l < level -> may_descend bytewise_comparator ldb_dbopt_default ver [Byte.x65] [Byte.x66] l) /\
     (level = 2 \/ ~ may_descend bytewise_comparator ldb_dbopt_default ver [Byte.x65] [Byte.x66] level)).
Proof.
  intros ver. split; [by vm_compute|]. split; [by vm_compute|]. split; [by vm_compute|].
  apply (memtable_output_level_safe (fun _ => True) bytewise_comparator ldb_dbopt_default ver [Byte.x65] [Byte.x66]);
    [|by split; [|vm_compute]..].
  assert (forall level files, level_files ver level = Some files ->
    Forall (file_wf (fun _ => True) bytewise_comparator) files /\ zlen files < 2 ^ 31 /\ disjoint_sorted bytewise_comparator files) as H.
  { intros level files. unfold level_files, item. destruct (Z.ltb_spec level 0); [done|].
    assert (files = [] -> Forall (file_wf (fun _ => True) bytewise_comparator) files /\ zlen files < 2 ^ 31 /\ disjoint_sorted bytewise_comparator files) as Hnil
      by (intros ->; split; [constructor|split; [done|constructor]]).
    generalize (Z.to_nat level). intros n Hn. destruct n as [|[|[|n]]]; cbn in Hn.
    - injection Hn as <-. split; [|split; [done|check_sorted]]. apply List.Forall_cons; [|apply List.Forall_nil].
      split; [check_ikey|check_ikey|by vm_compute|by vm_compute].
    - injection Hn as <-. by apply Hnil.
    - injection Hn as <-. split; [exact test_level_wf|split; [done|exact test_level_sorted]].
    - apply Hnil. do 4 (destruct n as [|n]; [by injection Hn as <-|]). done. }
  split; [done| |]; [intros level files E|intros level files _ E]; by destruct (H level files E) as (? & ? & ?).
Defined.
