(* ===== verification/VersionGet.v ===== *)
(** * Lookup in a version

    Correctness of [ldb_version_get] (Version.v): over tables that keep the
    invariants of the log-structured merge tree, the levels searched in the order
    of the code give the newest version of a key that a snapshot sees. *)

From stdpp Require Import strings sorting gmap.
From S2P Require Import Prelude Coding Status Comparator DBFormat Options Vector VersionEdit Memtable Iterator BlockBuilder FileList Version.
#[local] Open Scope Z_scope.

(** ** The newest visible version of a set of entries *)

Section Newest.
Context (udom : bytes -> Prop) (uc : comparator) `{!ComparatorLaws udom uc}.

Definition is_newest (u : bytes) (s : Z) (h : list entry) (r : option entry) : Prop :=
  match r with
  | None => forall e, e ∈ h -> visible uc u s e = false
  | Some e => e ∈ h /\ visible uc u s e = true /\
      forall e', e' ∈ h -> visible uc u s e' = true -> e' = e \/ entry_tag e' < entry_tag e
  end.

Lemma is_newest_eq u s h r : is_newest u s h r -> newest uc u s h = r.
Proof.
  destruct r as [e|]; cbn; [|by apply newest_none]. intros (Hin & Hv & Hmax).
  destruct (newest uc u s h) as [e'|] eqn:E.
  - apply newest_some in E as (Hin' & Hv' & Hmax'). destruct (Hmax e' Hin' Hv') as [->|Hlt]; [done|].
    specialize (Hmax' e Hin Hv). lia.
  - rewrite newest_none in E. rewrite (E e Hin) in Hv. done.
Qed.

(** Versions of a key in [h] are newer than those in [h']. *)
Definition newer_than (h h' : list entry) : Prop :=
  forall e e', e ∈ h -> e' ∈ h' -> ldb_compare uc (user_key e.1) (user_key e'.1) = 0 -> entry_tag e' < entry_tag e.

Lemma visible_same u s e e' : udom u -> udom (user_key e.1) -> udom (user_key e'.1) ->
  visible uc u s e = true -> visible uc u s e' = true -> ldb_compare uc (user_key e.1) (user_key e'.1) = 0.
Proof.
  intros Du De De' [H%Z.eqb_eq _]%andb_true_iff [H'%Z.eqb_eq _]%andb_true_iff.
  apply (compare_eq_flip udom uc) in H'; [|done..]. pose proof (compare_eq_l udom uc _ _ _ De Du De' H). lia.
Qed.

Lemma is_newest_left u s h h' e : udom u -> Forall (entry_wf udom) h -> Forall (entry_wf udom) h' -> newer_than h h' ->
  is_newest u s h (Some e) -> is_newest u s (h ++ h') (Some e).
Proof.
  intros Du Hw Hw' Hn (Hin & Hv & Hmax). rewrite List.Forall_forall in Hw, Hw'.
  split; [rewrite elem_of_app; by left|]. split; [done|].
  intros e' [H|H]%elem_of_app Hv'; [by apply Hmax|]. right. apply Hn; [done..|].
  apply (visible_same u s); try done; [by apply Hw, list_elem_of_In|by apply Hw', list_elem_of_In].
Qed.

Lemma is_newest_right u s h h' r : is_newest u s h None -> is_newest u s h' r -> is_newest u s (h ++ h') r.
Proof.
  intros Hn Hr. destruct r as [e|]; cbn in *.
  - destruct Hr as (Hin & Hv & Hmax). split; [rewrite elem_of_app; by right|]. split; [done|].
    intros e' [H|H]%elem_of_app Hv'; [by rewrite (Hn e' H) in Hv'|by apply Hmax].
  - intros e [H|H]%elem_of_app; auto.
Qed.

Lemma is_newest_ext u s h h' r : (forall e, e ∈ h <-> e ∈ h') -> is_newest u s h r -> is_newest u s h' r.
Proof.
  intros E Hr. destruct r as [e|]; cbn in *.
  - destruct Hr as (Hin & Hv & Hmax). split; [by apply E|]. split; [done|]. intros e' H. by apply Hmax, E.
  - intros e H. by apply Hr, E.
Qed.

Lemma newer_than_concat h hs : (forall h', h' ∈ hs -> newer_than h h') -> newer_than h (concat hs).
Proof.
  intros H e e' He He'. apply list_elem_of_In, in_concat in He' as (h' & Hh' & He'). apply list_elem_of_In in Hh', He'. by apply (H h').
Qed.

(** *** The first entry at or after the seek key *)

Definition entry_pair (e : entry) : bytes * bytes := (ikey e.1, e.2).

Definition seek_bytes (u : bytes) (s : Z) : bytes := ikey (seek_pkey u s).

Lemma seek_bytes_wf u s : zlen u < 2 ^ 32 - 8 -> 0 <= s <= LDB_MAX_SEQUENCE -> pkey_wf (seek_pkey u s).
Proof. intros Hu Hs. split; cbn [user_key sequence seek_pkey]; [done|lia]. Qed.

Lemma seek_bytes_dom u s : udom u -> zlen u < 2 ^ 32 - 8 -> 0 <= s <= LDB_MAX_SEQUENCE -> ikey_dom udom (seek_bytes u s).
Proof. intros Du Hu Hs. apply ikey_in_dom; [by apply seek_bytes_wf|done]. Qed.

Lemma version_entry_dom e : entry_wf udom e -> ikey_dom udom (ikey e.1).
Proof. intros H. apply ikey_in_dom; [by eapply entry_pkey_wf|apply H]. Qed.

(** An entry sorts below the seek key iff its user key is smaller, or equal with
    a number the snapshot does not see. *)
Lemma below_seek u s e : entry_wf udom e -> zlen u < 2 ^ 32 - 8 -> 0 <= s <= LDB_MAX_SEQUENCE ->
  ldb_compare (ldb_ikc_init uc) (ikey e.1) (seek_bytes u s) < 0 <->
  ldb_compare uc (user_key e.1) u < 0 \/ (ldb_compare uc (user_key e.1) u = 0 /\ s < sequence e.1).
Proof.
  intros He Hu Hs. change (ldb_compare (ldb_ikc_init uc)) with (ldb_ikc_compare uc). unfold seek_bytes.
  rewrite ikc_compare_pkeys by (by eapply entry_pkey_wf || by apply seek_bytes_wf). cbn [user_key sequence type seek_pkey].
  pose proof (valtype_num_range (type e.1)). unfold LDB_VALTYPE_SEEK. cbn [valtype_num]. lia.
Qed.

Lemma above_seek u s e : entry_wf udom e -> zlen u < 2 ^ 32 - 8 -> 0 <= s <= LDB_MAX_SEQUENCE ->
  0 <= ldb_compare (ldb_ikc_init uc) (ikey e.1) (seek_bytes u s) ->
  0 < ldb_compare uc (user_key e.1) u \/ visible uc u s e = true.
Proof.
  intros He Hu Hs H. pose proof (below_seek u s e He Hu Hs) as Hb.
  destruct (Z.eq_dec (ldb_compare uc (user_key e.1) u) 0) as [E|E].
  - right. apply andb_true_iff. split; [by apply Z.eqb_eq|]. apply Z.leb_le. lia.
  - left. lia.
Qed.

Lemma visible_above u s e : entry_wf udom e -> zlen u < 2 ^ 32 - 8 -> 0 <= s <= LDB_MAX_SEQUENCE ->
  visible uc u s e = true -> 0 <= ldb_compare (ldb_ikc_init uc) (ikey e.1) (seek_bytes u s).
Proof.
  intros He Hu Hs [H1%Z.eqb_eq H2%Z.leb_le]%andb_true_iff. pose proof (below_seek u s e He Hu Hs) as Hb. lia.
Qed.

(** Keys in order: the user keys are in order, and an equal one is older. *)
Lemma key_order e e' : entry_wf udom e -> entry_wf udom e' ->
  ldb_compare (ldb_ikc_init uc) (ikey e.1) (ikey e'.1) < 0 ->
  ldb_compare uc (user_key e.1) (user_key e'.1) <= 0 /\
  (ldb_compare uc (user_key e.1) (user_key e'.1) = 0 -> entry_tag e' < entry_tag e).
Proof.
  intros He He' H. change (ldb_compare (ldb_ikc_init uc)) with (ldb_ikc_compare uc) in H. rewrite ikc_compare_lt in H.
  rewrite !user_key_ikey, !ikey_tag_ikey in H by by eapply entry_pkey_wf. unfold entry_tag. lia.
Qed.

Lemma later_invisible u s e e' : entry_wf udom e -> entry_wf udom e' -> udom u -> 0 < ldb_compare uc (user_key e.1) u ->
  ldb_compare (ldb_ikc_init uc) (ikey e.1) (ikey e'.1) < 0 -> visible uc u s e' = false.
Proof.
  intros He He' Du Hu H. destruct (key_order e e' He He' H) as [Hle _]. destruct (visible uc u s e') eqn:V; [|done].
  apply andb_true_iff in V as [V%Z.eqb_eq _]. destruct He as (_ & _ & _ & De), He' as (_ & _ & _ & De').
  assert (ldb_compare uc (user_key e.1) u <= 0); [|lia]. apply (compare_trans (c := uc) _ (user_key e'.1)); [done..|lia].
Qed.

Lemma seek_newest es u s : Forall (entry_wf udom) es -> sorted_pairs (ldb_ikc_init uc) (map entry_pair es) ->
  udom u -> zlen u < 2 ^ 32 - 8 -> 0 <= s <= LDB_MAX_SEQUENCE ->
  is_newest u s es (e ← es !! count_lt (ldb_ikc_init uc) (seek_bytes u s) (map entry_pair es);
                    if ldb_compare uc (user_key e.1) u =? 0 then Some e else None).
Proof.
  intros Hw Hs Du Hu Hq. set (n := count_lt _ _ _). rewrite List.Forall_forall in Hw.
  assert (forall i e, es !! i = Some e -> entry_wf udom e /\ map entry_pair es !! i = Some (entry_pair e)) as Hat.
  { intros i e H. split; [by apply Hw, list_elem_of_In, list_elem_of_lookup_2 with i|]. by rewrite list_lookup_fmap, H. }
  assert (forall i e, (i < n)%nat -> es !! i = Some e -> visible uc u s e = false) as Hlo.
  { intros i e Hi H. destruct (Hat i e H) as [We Hp]. destruct (visible uc u s e) eqn:V; [|done].
    apply (visible_above u s e We Hu Hq) in V. pose proof (count_lt_below _ _ _ _ _ Hi Hp) as Hb. cbn [fst entry_pair] in Hb. lia. }
  assert (forall i j e e', (i < j)%nat -> es !! i = Some e -> es !! j = Some e' ->
    ldb_compare (ldb_ikc_init uc) (ikey e.1) (ikey e'.1) < 0) as Hord.
  { intros i j e e' Hij H H'. apply (sorted_lookup _ _ i j _ _ Hs (proj2 (Hat i e H)) (proj2 (Hat j e' H')) Hij). }
  destruct (es !! n) as [e|] eqn:He; cbn [mbind option_bind].
  - destruct (Hat n e He) as [We Hp].
    assert (0 <= ldb_compare (ldb_ikc_init uc) (ikey e.1) (seek_bytes u s)) as Hge by (by apply (count_lt_at _ _ _ _ Hp)).
    destruct (above_seek u s e We Hu Hq Hge) as [Hgt|V].
    + rewrite (proj2 (Z.eqb_neq _ 0)) by lia. intros e' [i Hi]%list_elem_of_lookup. destruct (Hat i e' Hi) as [We' _].
      destruct (Nat.lt_trichotomy i n) as [?|[->|?]]; [by apply (Hlo i)| |].
      * rewrite He in Hi. injection Hi as <-. unfold visible. by rewrite (proj2 (Z.eqb_neq _ 0)) by lia.
      * by apply (later_invisible u s e); [..|apply (Hord n i)].
    + pose proof V as [E%Z.eqb_eq _]%andb_true_iff. rewrite E. cbn [Z.eqb]. split; [by apply list_elem_of_lookup_2 with n|].
      split; [done|]. intros e' [i Hi]%list_elem_of_lookup V'. destruct (Hat i e' Hi) as [We' _].
      destruct (Nat.lt_trichotomy i n) as [?|[->|?]]; [by rewrite (Hlo i e') in V'|left; congruence|right].
      apply (key_order e e' We We'); [by apply (Hord n i)|]. apply (visible_same u s); [done|apply We|apply We'|done..].
  - intros e [i Hi]%list_elem_of_lookup. apply (Hlo i); [|done]. apply lookup_lt_Some in Hi. apply lookup_ge_None in He. lia.
Qed.
End Newest.

(** ** The invariants of a version *)

Section Lookup.
Context (udom : bytes -> Prop) (uc : comparator) `{!ComparatorLaws udom uc}.
(** The entries of the table of a number and size. *)
Context (ents_of : Z -> Z -> option (list entry)).

Definition pairs_of (number size : Z) : option pairs := map entry_pair <$> ents_of number size.

Definition file_entries (f : fileptr) : list entry := default [] (ents_of (f_number f) (f_file_size f)).

(** A file of a version: its table holds well-formed entries in the range, and
    the largest key is that of an entry. *)
Record version_file (f : fileptr) : Prop := {
  vf_ok : file_ok udom uc pairs_of f;
  vf_wf : Forall (entry_wf udom) (file_entries f);
  vf_last : exists e, e ∈ file_entries f /\ ikey e.1 = f_largest f
}.

(** Seven levels; above level 0 the files are in order; in level 0 a file with a
    larger number has the newer versions of a key, and so has a lower level. *)
Record version_wf (ver : ldb_version) : Prop := {
  vw_levels : zlen (ver_files ver) = LDB_NUM_LEVELS;
  vw_files : Forall (Forall version_file) (ver_files ver);
  vw_count : Forall (fun files => zlen files <= 2 ^ 30) (ver_files ver);
  vw_sorted level files : level <> 0 -> level_files ver level = Some files -> disjoint_sorted uc files;
  vw_numbers files : level_files ver 0 = Some files -> NoDup (map (fun f => f_number f) files);
  vw_zero files f g : level_files ver 0 = Some files -> f ∈ files -> g ∈ files -> f_number g < f_number f ->
    newer_than uc (file_entries f) (file_entries g);
  vw_deeper i j fs gs f g : i < j -> level_files ver i = Some fs -> level_files ver j = Some gs -> f ∈ fs -> g ∈ gs ->
    newer_than uc (file_entries f) (file_entries g)
}.

(** What the version holds. *)
Definition files_entries (files : list fileptr) : list entry := concat (map file_entries files).
Definition version_entries (ver : ldb_version) : list entry := files_entries (concat (ver_files ver)).

Lemma file_kvs_entries f : version_file f -> file_kvs pairs_of f = map entry_pair (file_entries f).
Proof.
  intros [Hok _ _]. destruct (fk_table _ _ _ _ Hok) as [kvs E]. unfold file_kvs, file_entries, pairs_of in *.
  destruct (ents_of _ _); [done|done].
Qed.

Lemma files_entries_elem files e : e ∈ files_entries files <-> exists f, f ∈ files /\ e ∈ file_entries f.
Proof.
  unfold files_entries. rewrite list_elem_of_In, in_concat. split.
  - intros (h & (f & <- & Hf)%in_map_iff & He). exists f. by rewrite !list_elem_of_In.
  - intros (f & Hf & He). exists (file_entries f). rewrite in_map_iff. split; [exists f; split; [done|]|]; by apply list_elem_of_In.
Qed.

Lemma files_entries_app xs ys : files_entries (xs ++ ys) = files_entries xs ++ files_entries ys.
Proof. unfold files_entries. by rewrite map_app, concat_app. Qed.

Lemma files_entries_wf files : Forall version_file files -> Forall (entry_wf udom) (files_entries files).
Proof.
  intros H. unfold files_entries. apply Forall_concat, Forall_map. eapply List.Forall_impl; [|exact H]. by intros f [].
Qed.

Lemma file_wf_in files f : Forall version_file files -> f ∈ files -> version_file f.
Proof. intros H Hin%list_elem_of_In. rewrite List.Forall_forall in H. by apply H. Qed.

(** The range of an entry's file. *)
Lemma entry_range f e : version_file f -> e ∈ file_entries f ->
  entry_wf udom e /\ ldb_compare (ldb_ikc_init uc) (f_smallest f) (ikey e.1) <= 0 /\
  ldb_compare (ldb_ikc_init uc) (ikey e.1) (f_largest f) <= 0.
Proof.
  intros Hf Hin. split; [pose proof (vf_wf f Hf) as H; rewrite List.Forall_forall in H; by apply H, list_elem_of_In|].
  destruct (file_kv udom uc pairs_of f (entry_pair e) (vf_ok f Hf)) as (_ & H1 & H2); [|done].
  rewrite (file_kvs_entries f Hf). by apply list_elem_of_fmap_2.
Qed.

(** ** Visiting a file *)

Context {T : Type} (tops : iter_ops T) (tables : tables_ops T) `{!TablesLaws tops tables udom uc pairs_of}.
(** [buf]: the buffer of the caller, if there is one. *)
Context (u : bytes) (s : Z) (buf : option bytes) (ro : readopt).
Hypothesis u_dom : udom u.
Hypothesis u_len : zlen u < 2 ^ 32 - 8.
Hypothesis s_range : 0 <= s <= LDB_MAX_SEQUENCE.

Local Abbreviation ikey_ := (seek_bytes u s).
Local Abbreviation match_ := (getstate_match uc tables ro ikey_).
Local Abbreviation newest_in := (is_newest uc u s).

(** Nothing found yet. *)
Definition clean (st : getstate) : Prop :=
  gs_saver st = Saver S_NOTFOUND u buf /\ gs_found st = false.

(** The search ended at [e]. *)
Definition ended (st : getstate) (e : entry) : Prop :=
  match type e.1 with
  | LDB_TYPE_VALUE => gs_found st = true /\ gs_status st = LDB_OK /\ sv_value (gs_saver st) = match buf with Some _ => Some e.2 | None => None end
  | LDB_TYPE_DELETION => gs_found st = false /\ sv_value (gs_saver st) = buf
  end.

(** What a search over files with the entries [h] comes to. *)
Definition outcome (h : list entry) (go : bool) (st : getstate) : Prop :=
  exists r, newest_in h r /\ match r with None => go = true /\ clean st | Some e => go = false /\ ended st e end.

Lemma match_ok level f st : version_file f -> clean st ->
  exists go st', match_ st level f = Some (go, st') /\ outcome (file_entries f) go st'.
Proof.
  intros Hf [Hs Hfound]. pose proof (vf_ok f Hf) as Hok. destruct (fk_table _ _ _ _ Hok) as [kvs Ekv].
  pose proof (seek_bytes_dom udom u s u_dom u_len s_range) as Hd.
  destruct (tables_get_ok ro _ _ kvs ikey_ Ekv Hd) as (r & Er & Hr).
  assert (kvs = map entry_pair (file_entries f)) as -> by (rewrite <- (file_kvs_entries f Hf); unfold file_kvs; by rewrite Ekv).
  pose proof (seek_newest udom uc (file_entries f) u s (vf_wf f Hf)) as Hn.
  rewrite <- (file_kvs_entries f Hf) in Hn, Hr. specialize (Hn (fk_sorted _ _ _ _ Hok) u_dom u_len s_range).
  rewrite (file_kvs_entries f Hf) in Hn, Hr. set (n := count_lt _ _ _) in *. rewrite list_lookup_fmap in Hr.
  unfold getstate_match. rewrite Er. cbn [mbind option_bind]. change (negb (LDB_OK =? LDB_OK)) with false. cbv iota.
  unfold outcome. destruct (file_entries f !! n) as [e|] eqn:He; cbn [fmap option_fmap option_map mbind option_bind] in *.
  - destruct Hr as [Hr Hsame]. cbn [fst entry_pair] in Hsame. destruct (entry_range f e Hf (list_elem_of_lookup_2 _ _ _ He)) as (We & _).
    pose proof (entry_pkey_wf _ _ We) as Pe. destruct (We) as (_ & _ & _ & De).
    unfold seek_bytes in Hsame. rewrite !user_key_ikey in Hsame by (done || by apply seek_bytes_wf). cbn [user_key seek_pkey] in Hsame.
    destruct (Z.eqb_spec (ldb_compare uc (user_key e.1) u) 0) as [E|E].
    + rewrite Hsame by by apply (compare_eq_flip udom uc). unfold save_value. cbn [entry_pair].
      rewrite Hs, pkey_import_export by done. cbn [sv_user_key sv_value]. rewrite E, Z.eqb_refl.
      destruct (type e.1) eqn:Et; cbn [sv_state]; eexists _, _; (split; [reflexivity|]); exists (Some e); (split; [exact Hn|]); split; try done;
        unfold ended; rewrite Et; by rewrite ?Hfound.
    + assert (match r with Some (k, v) => save_value uc (gs_saver st) k v | None => gs_saver st end = gs_saver st) as ->.
      { destruct Hr as [-> | ->]; [done|]. unfold save_value. cbn [entry_pair]. rewrite Hs, pkey_import_export by done.
        cbn [sv_user_key]. by rewrite (proj2 (Z.eqb_neq _ 0)). }
      rewrite Hs. cbn [sv_state]. eexists _, _. split; [reflexivity|]. exists None. split; [done|]. split; [done|]. by split.
  - rewrite Hr, Hs. cbn [sv_state]. eexists _, _. split; [reflexivity|]. exists None. split; [done|]. split; [done|]. by split.
Qed.

(** Two searches one after the other. *)
Lemma outcome_go h go st : outcome h go st -> if go then clean st /\ newest_in h None else exists e, newest_in h (Some e) /\ ended st e.
Proof. intros ([e|] & Hn & Hr); [destruct Hr as [-> ?]; by exists e|by destruct Hr as [-> ?]]. Qed.

Lemma outcome_right h h' go st : newest_in h None -> outcome h' go st -> outcome (h ++ h') go st.
Proof. intros Hn (r & Hr & H). exists r. split; [|done]. by apply is_newest_right. Qed.

Lemma outcome_left h h' st : newer_than uc h h' -> Forall (entry_wf udom) h -> Forall (entry_wf udom) h' ->
  outcome h false st -> outcome (h ++ h') false st.
Proof.
  intros Hn Hw Hw' (r & Hr & H). destruct r as [e|]; [|by destruct H]. exists (Some e). split; [|done].
  by apply (is_newest_left udom).
Qed.

Lemma outcome_ext h h' go st : (forall e, e ∈ h <-> e ∈ h') -> outcome h go st -> outcome h' go st.
Proof. intros E (r & Hr & H). exists r. split; [|done]. by apply (is_newest_ext uc u s h). Qed.

(** Entries of a list of files, each newer than the rest. *)
Lemma visit_ok level files : forall st, Forall version_file files -> clean st ->
  StronglySorted (fun f g => newer_than uc (file_entries f) (file_entries g)) files ->
  exists go st', visit match_ level files st = Some (go, st') /\ outcome (files_entries files) go st'.
Proof.
  induction files as [|f files IH]; intros st Hf Hc Hs; cbn [visit].
  - exists true, st. split; [done|]. exists None. split; [|done]. intros e He. by apply elem_of_nil in He.
  - apply Forall_cons_iff in Hf as [Hf Hfs]. apply StronglySorted_inv in Hs as [Hs Hall].
    destruct (match_ok level f st Hf Hc) as (go & st1 & -> & Ho). cbn [mbind option_bind].
    change (files_entries (f :: files)) with (file_entries f ++ files_entries files). destruct go.
    + destruct (outcome_go _ _ _ Ho) as [Hc1 Hn]. destruct (IH st1 Hfs Hc1 Hs) as (go & st' & E & Ho').
      exists go, st'. split; [done|]. by apply outcome_right.
    + exists false, st1. split; [done|]. apply outcome_left; [|apply Hf|by apply files_entries_wf|done].
      unfold files_entries. apply newer_than_concat. intros h (g & -> & Hg)%list_elem_of_fmap.
      rewrite List.Forall_forall in Hall. by apply Hall, list_elem_of_In.
Qed.

(** *** A sorted level *)

(** An entry of a later file is above the largest key. *)
Lemma later_file files i j f g e : Forall version_file files -> disjoint_sorted uc files -> (i < j)%nat ->
  files !! i = Some f -> files !! j = Some g -> e ∈ file_entries g -> ldb_compare (ldb_ikc_init uc) (f_largest f) (ikey e.1) < 0.
Proof.
  intros Hf Hs Hij Hi Hj He.
  apply (files_between udom uc pairs_of files i j f g (entry_pair e)); try done.
  - eapply List.Forall_impl; [|exact Hf]. by intros x [].
  - rewrite file_kvs_entries by (by eapply file_wf_in; [|eapply list_elem_of_lookup_2]). by apply list_elem_of_fmap_2.
Qed.

Lemma sorted_newer files i j f g : Forall version_file files -> disjoint_sorted uc files -> (i < j)%nat ->
  files !! i = Some f -> files !! j = Some g -> newer_than uc (file_entries f) (file_entries g).
Proof.
  intros Hf Hs Hij Hi Hj e e' He He' Hsame.
  pose proof (file_wf_in files f Hf (list_elem_of_lookup_2 _ _ _ Hi)) as Wf. pose proof (file_wf_in files g Hf (list_elem_of_lookup_2 _ _ _ Hj)) as Wg.
  destruct (entry_range f e Wf He) as (We & _ & Hle). destruct (entry_range g e' Wg He') as (We' & _ & _).
  pose proof (later_file files i j f g e' Hf Hs Hij Hi Hj He') as Hlt. destruct (fk_wf _ _ _ _ (vf_ok f Wf)) as [_ Dl _ _].
  apply (key_order udom uc e e' We We'); [|done]. apply (compare_le_lt_trans (ikey_dom udom) (ldb_ikc_init uc) _ (f_largest f)); try done;
    by apply version_entry_dom.
Qed.

(** Files the search passes by hold nothing visible. *)
Lemma below_invisible f e : version_file f -> below uc ikey_ f -> e ∈ file_entries f -> visible uc u s e = false.
Proof.
  intros Hf Hb He. destruct (entry_range f e Hf He) as (We & _ & Hle). destruct (visible uc u s e) eqn:V; [|done].
  apply (visible_above udom uc u s e We u_len s_range) in V. destruct (fk_wf _ _ _ _ (vf_ok f Hf)) as [_ Dl _ _].
  pose proof (seek_bytes_dom udom u s u_dom u_len s_range) as Dk.
  assert (ldb_compare (ldb_ikc_init uc) (ikey e.1) ikey_ < 0); [|lia].
  apply (compare_le_lt_trans (ikey_dom udom) (ldb_ikc_init uc) _ (f_largest f)); try done. by apply version_entry_dom.
Qed.

(** If the file found holds nothing visible, neither do the later ones: its last
    entry is already above the user key. *)
Lemma after_invisible files i j f g e : Forall version_file files -> disjoint_sorted uc files -> (i < j)%nat ->
  files !! i = Some f -> files !! j = Some g -> ~ below uc ikey_ f -> newest_in (file_entries f) None ->
  e ∈ file_entries g -> visible uc u s e = false.
Proof.
  intros Hf Hs Hij Hi Hj Hb Hn He. pose proof (file_wf_in files f Hf (list_elem_of_lookup_2 _ _ _ Hi)) as Wf.
  destruct (vf_last f Wf) as (e0 & He0 & El). destruct (entry_range f e0 Wf He0) as (We0 & _).
  pose proof (file_wf_in files g Hf (list_elem_of_lookup_2 _ _ _ Hj)) as Wg. destruct (entry_range g e Wg He) as (We & _).
  unfold below in Hb. rewrite <- El in Hb. destruct (above_seek udom uc u s e0 We0 u_len s_range) as [Hgt|V]; [lia| |].
  - apply (later_invisible udom uc u s e0 e We0 We u_dom Hgt). rewrite El. by apply (later_file files i j f g).
  - by rewrite (Hn e0 He0) in V.
Qed.

(** All entries of a file lie above a user key below its smallest. *)
Lemma smallest_above f e : version_file f -> ldb_compare uc u (ldb_extract_user_key (f_smallest f)) < 0 ->
  e ∈ file_entries f -> visible uc u s e = false.
Proof.
  intros Hf Hlt He. destruct (entry_range f e Hf He) as (We & Hle & _). destruct (fk_wf _ _ _ _ (vf_ok f Hf)) as [[_ Ds] _ _ _].
  change (ldb_compare (ldb_ikc_init uc)) with (ldb_ikc_compare uc) in Hle. rewrite ikc_compare_le in Hle.
  rewrite user_key_ikey in Hle by by eapply entry_pkey_wf. destruct (visible uc u s e) eqn:V; [|done].
  apply andb_true_iff in V as [V%Z.eqb_eq _]. destruct We as (_ & _ & _ & De).
  assert (ldb_compare uc u (user_key e.1) < 0) as H.
  { apply (compare_lt_le_trans udom uc _ (ldb_extract_user_key (f_smallest f))); try done. lia. }
  apply (compare_eq_flip udom uc) in V; [lia|done..].
Qed.

Lemma level_split (files : list fileptr) n f : files !! n = Some f ->
  files_entries files = files_entries (take n files) ++ file_entries f ++ files_entries (drop (S n) files).
Proof. intros H. rewrite <- (take_drop_middle files n f H) at 1. by rewrite files_entries_app. Qed.

Lemma none_in (files : list fileptr) : (forall f e, f ∈ files -> e ∈ file_entries f -> visible uc u s e = false) ->
  newest_in (files_entries files) None.
Proof. intros H e (f & Hf & He)%files_entries_elem. by apply (H f). Qed.

(** One level of the search. *)
Lemma level_ok ver level levels files st : level_files ver level = Some files -> Forall version_file files ->
  disjoint_sorted uc files -> zlen files < 2 ^ 31 -> clean st ->
  exists go st', outcome (files_entries files) go st' /\
    search_levels uc match_ ver u ikey_ (level :: levels) st =
      if go then search_levels uc match_ ver u ikey_ levels st' else Some st'.
Proof.
  intros El Hf Hs Hz Hc. cbn [search_levels]. rewrite El. cbn [mbind option_bind].
  assert (newest_in [] None) as Hnil by (intros e He; by apply elem_of_nil in He).
  destruct (Z.eqb_spec (zlen files) 0) as [E0|_].
  { apply zlen_0_nil in E0 as ->. exists true, st. split; [|done]. by exists None. }
  assert (Forall (file_wf udom uc) files) as Hwf by (eapply List.Forall_impl; [|exact Hf]; intros x [[]]; done).
  pose proof (seek_bytes_dom udom u s u_dom u_len s_range) as Dk.
  destruct (find_file_ok udom uc ikey_ files Dk Hwf Hs Hz) as (n & -> & Hn & Hlo & Hhi). cbn [mbind option_bind].
  assert (newest_in (files_entries (take n files)) None) as Hbefore.
  { apply none_in. intros f e [i Hi]%list_elem_of_lookup He. apply lookup_take_Some in Hi as [Hi Hin].
    apply (below_invisible f); [by eapply file_wf_in; [|eapply list_elem_of_lookup_2]|by apply (Hlo i)|done]. }
  destruct (Z.ltb_spec (Z.of_nat n) (zlen files)) as [Hlt|Hge].
  - rewrite file_at_nat. destruct (lookup_lt_is_Some_2 files n) as [f Hf']; [unfold zlen in Hlt; lia|]. rewrite Hf'.
    cbn [mbind option_bind]. pose proof (file_wf_in files f Hf (list_elem_of_lookup_2 _ _ _ Hf')) as Wf.
    assert (forall g, g ∈ drop (S n) files -> exists j, (n < j)%nat /\ files !! j = Some g) as Hdrop.
    { intros g [j Hj]%list_elem_of_lookup. rewrite lookup_drop in Hj. exists (S n + j)%nat. split; [lia|done]. }
    assert (newest_in (file_entries f) None -> newest_in (files_entries (drop (S n) files)) None) as Hafter.
    { intros Hnone. apply none_in. intros g e (j & Hj & Hg)%Hdrop He. by apply (after_invisible files n j f g); [..|apply (Hhi n)| |]. }
    rewrite (level_split files n f Hf'). destruct (Z.ltb_spec (ldb_compare uc u (ldb_extract_user_key (f_smallest f))) 0) as [Hsm|_].
    + assert (newest_in (file_entries f) None) as Hnone by (intros e; by apply smallest_above). exists true, st. split; [|done].
      exists None. split; [|done]. apply is_newest_right; [done|]. apply is_newest_right; auto.
    + destruct (match_ok level f st Wf Hc) as (go & st' & -> & Ho). cbn [mbind option_bind]. exists go, st'. split; [|done].
      apply outcome_right; [done|]. destruct go.
      * destruct (outcome_go _ _ _ Ho) as [Hc' Hnone]. exists None. split; [|done]. by apply is_newest_right; [|apply Hafter].
      * apply outcome_left; [|apply Wf| |done].
        -- unfold files_entries. apply newer_than_concat. intros h (g & -> & (j & Hj & Hg)%Hdrop)%list_elem_of_fmap.
           by apply (sorted_newer files n j).
        -- apply files_entries_wf. rewrite <- (take_drop (S n) files) in Hf. by apply List.Forall_app in Hf as [_ ?].
  - exists true, st. split; [|done]. exists None. split; [|done]. rewrite take_ge in Hbefore by (unfold zlen in Hge; lia). done.
Qed.

(** *** All levels *)

Lemma level_at ver level : version_wf ver -> 0 <= level < LDB_NUM_LEVELS ->
  exists files, level_files ver level = Some files /\ Forall version_file files /\ zlen files <= 2 ^ 30 /\ files ∈ ver_files ver.
Proof.
  intros Hv Hl. rewrite <- (vw_levels ver Hv) in Hl. destruct (item_some (ver_files ver) level Hl) as [files E].
  exists files. split; [done|]. unfold item in E. destruct (Z.ltb_spec level 0); [done|]. apply list_elem_of_lookup_2 in E.
  pose proof (vw_files ver Hv) as Hf. pose proof (vw_count ver Hv) as Hc. rewrite List.Forall_forall in Hf, Hc.
  split; [by apply Hf, list_elem_of_In|]. split; [by apply Hc, list_elem_of_In|done].
Qed.

Definition levels_entries (ver : ldb_version) (levels : list Z) : list entry :=
  concat (map (fun level => files_entries (default [] (level_files ver level))) levels).

Lemma files_newer fs gs : (forall f g, f ∈ fs -> g ∈ gs -> newer_than uc (file_entries f) (file_entries g)) ->
  newer_than uc (files_entries fs) (files_entries gs).
Proof. intros H e e' (f & Hf & He)%files_entries_elem (g & Hg & He')%files_entries_elem. by apply (H f g). Qed.

Lemma level_newer ver level levels files : version_wf ver -> level_files ver level = Some files -> Forall (fun l => level < l) levels ->
  newer_than uc (files_entries files) (levels_entries ver levels).
Proof.
  intros Hv El Hall. unfold levels_entries. apply newer_than_concat. intros h (l & <- & Hl)%list_elem_of_In%in_map_iff.
  rewrite List.Forall_forall in Hall. specialize (Hall l Hl). destruct (level_files ver l) as [gs|] eqn:Eg.
  - apply files_newer. intros f g Hf Hg. by apply (vw_deeper ver Hv level l files gs).
  - intros e e' _ He'. by apply elem_of_nil in He'.
Qed.

Lemma levels_wf ver levels : version_wf ver -> Forall (fun l => 0 <= l < LDB_NUM_LEVELS) levels ->
  Forall (entry_wf udom) (levels_entries ver levels).
Proof.
  intros Hv Hr. unfold levels_entries. apply Forall_concat, Forall_map. eapply List.Forall_impl; [|exact Hr].
  intros level Hl. destruct (level_at ver level Hv Hl) as (files & -> & Hf & _). by apply files_entries_wf.
Qed.

Lemma levels_ok ver levels : forall st, version_wf ver -> clean st -> StronglySorted Z.lt levels ->
  Forall (fun l => 1 <= l < LDB_NUM_LEVELS) levels ->
  exists go st', search_levels uc match_ ver u ikey_ levels st = Some st' /\ outcome (levels_entries ver levels) go st'.
Proof.
  induction levels as [|level levels IH]; intros st Hv Hc Hs Hr.
  - exists true, st. split; [done|]. exists None. split; [|done]. intros e He. by apply elem_of_nil in He.
  - apply Forall_cons_iff in Hr as [Hl Hr]. apply StronglySorted_inv in Hs as [Hs Hall].
    destruct (level_at ver level Hv ltac:(lia)) as (files & El & Hf & Hz & _).
    destruct (level_ok ver level levels files st El Hf (vw_sorted ver Hv level files ltac:(lia) El) ltac:(lia) Hc) as (go & st1 & Ho & ->).
    unfold levels_entries. cbn [map concat]. rewrite El. cbn [default id from_option]. destruct go.
    + destruct (outcome_go _ _ _ Ho) as [Hc1 Hn]. destruct (IH st1 Hv Hc1 Hs Hr) as (go & st' & E & Ho'). exists go, st'.
      split; [done|]. by apply outcome_right.
    + exists false, st1. split; [done|]. apply outcome_left; [|by apply files_entries_wf| |done].
      * by apply (level_newer ver level).
      * apply (levels_wf ver levels Hv). eapply List.Forall_impl; [|exact Hr]. intros l. cbn. lia.
Qed.

(** *** Level 0 *)

Lemma uncovered_invisible f e : version_file f -> covers uc u f = false -> e ∈ file_entries f -> visible uc u s e = false.
Proof.
  intros Hf Hcov He. destruct (visible uc u s e) eqn:V; [|done]. rewrite <- Hcov. symmetry.
  destruct (entry_range f e Hf He) as (We & H1 & H2). destruct (fk_wf _ _ _ _ (vf_ok f Hf)) as [[_ Ds] [_ Dl] _ _].
  change (ldb_compare (ldb_ikc_init uc)) with (ldb_ikc_compare uc) in H1, H2. rewrite ikc_compare_le in H1, H2.
  rewrite user_key_ikey in H1, H2 by by eapply entry_pkey_wf. apply andb_true_iff in V as [V%Z.eqb_eq _].
  pose proof (We) as (_ & _ & _ & De). unfold covers. apply andb_true_iff. rewrite Z.leb_le, Z.leb_le. split.
  - apply (compare_le_flip udom uc); [done..|]. apply (compare_trans (c := uc) _ (user_key e.1)); [done..|lia|lia].
  - apply (compare_trans (c := uc) _ (user_key e.1)); [done..| |lia]. apply (compare_eq_flip udom uc) in V; [lia|done..].
Qed.

Lemma newest_first_order x y : newest_first x y <= 0 <-> f_number y <= f_number x.
Proof.
  unfold newest_first. destruct (Z.ltb_spec (f_number y) (f_number x)); [lia|]. destruct (Z.ltb_spec (f_number x) (f_number y)); lia.
Qed.

Lemma number_inj files f g : NoDup (map (fun f => f_number f) files) -> f ∈ files -> g ∈ files -> f_number f = f_number g -> f = g.
Proof.
  intros Hn [i Hi]%list_elem_of_lookup [j Hj]%list_elem_of_lookup E.
  assert (i = j) as ->; [|congruence]. apply (NoDup_lookup _ i j (f_number f) Hn); rewrite list_lookup_fmap.
  - by rewrite Hi.
  - rewrite Hj. cbn. by f_equal.
Qed.

Lemma zero_sorted ver files tmp tmp' : version_wf ver -> level_files ver 0 = Some files -> tmp = List.filter (covers uc u) files ->
  tmp ≡ₚ tmp' -> StronglySorted (fun f g => newest_first f g <= 0) tmp' ->
  StronglySorted (fun f g => newer_than uc (file_entries f) (file_entries g)) tmp'.
Proof.
  intros Hv E0 Et P S. pose proof (vw_numbers ver Hv files E0) as Hn.
  assert (NoDup tmp') as Nd.
  { rewrite <- P, Et. apply NoDup_ListNoDup, List.NoDup_filter, NoDup_ListNoDup. apply (NoDup_fmap_1 (fun f => f_number f)). exact Hn. }
  assert (forall f, f ∈ tmp' -> f ∈ files) as Hin.
  { intros f Hf. rewrite <- P, Et in Hf. apply list_elem_of_In, filter_In in Hf as [Hf _]. by apply list_elem_of_In. }
  apply lookup_StronglySorted. intros i j f g Hij Hi Hj. pose proof (sorted_lookup _ _ i j f g S Hi Hj Hij) as Hle.
  apply newest_first_order in Hle. pose proof (Hin f (list_elem_of_lookup_2 _ _ _ Hi)) as Hf.
  pose proof (Hin g (list_elem_of_lookup_2 _ _ _ Hj)) as Hg. apply (vw_zero ver Hv files f g E0 Hf Hg).
  assert (f_number f <> f_number g); [|lia]. intros E. pose proof (number_inj files f g Hn Hf Hg E) as ->.
  pose proof (NoDup_lookup tmp' i j g Nd Hi Hj). lia.
Qed.

Lemma filtered_entries files e : e ∈ files_entries files <->
  e ∈ files_entries (List.filter (fun f => negb (covers uc u f)) files) ++ files_entries (List.filter (covers uc u) files).
Proof.
  rewrite elem_of_app, !files_entries_elem. split.
  - intros (f & Hf & He). destruct (covers uc u f) eqn:C; [right|left]; exists f; split; try done;
      apply list_elem_of_In, filter_In; (split; [by apply list_elem_of_In|by rewrite C]).
  - intros [(f & Hf & He)|(f & Hf & He)]; exists f; (split; [|done]); apply list_elem_of_In, filter_In in Hf as [Hf _];
      by apply list_elem_of_In.
Qed.

Lemma zero_ok ver files st : version_wf ver -> level_files ver 0 = Some files -> clean st ->
  exists go st',
    (let tmp := List.filter (covers uc u) files in
     if 0 <? zlen tmp then tmp ← sort_items newest_first tmp; visit match_ 0 tmp st else Some (true, st)) = Some (go, st') /\
    outcome (files_entries files) go st'.
Proof.
  intros Hv E0 Hc. cbv zeta. set (tmp := List.filter (covers uc u) files).
  destruct (level_at ver 0 Hv ltac:(unfold LDB_NUM_LEVELS; lia)) as (files' & E & Hf & Hz & _). rewrite E0 in E. injection E as <-.
  assert (newest_in (files_entries (List.filter (fun f => negb (covers uc u f)) files)) None) as Hrest.
  { apply none_in. intros f e Hin He. apply list_elem_of_In, filter_In in Hin as [Hin%list_elem_of_In Hcov%negb_true_iff].
    apply (uncovered_invisible f); [by eapply file_wf_in|done|done]. }
  assert (exists go st', (if 0 <? zlen tmp then tmp ← sort_items newest_first tmp; visit match_ 0 tmp st else Some (true, st)) = Some (go, st') /\
    outcome (files_entries tmp) go st') as (go & st' & Ev & Ho).
  { destruct (Z.ltb_spec 0 (zlen tmp)) as [_|Hge].
    - destruct (sort_items_ok newest_first) with (items := tmp) as (tmp' & -> & P & S).
      + intros x y. unfold newest_first. destruct (Z.ltb_spec (f_number x) (f_number y)), (Z.ltb_spec (f_number y) (f_number x)); lia.
      + intros x y z. rewrite !newest_first_order. lia.
      + etransitivity; [|exact Hz]. unfold zlen, tmp. pose proof (List.filter_length_le (covers uc u) files). lia.
      + cbn [mbind option_bind]. destruct (visit_ok 0 tmp' st) as (go & st' & E & Ho); [|done| |].
        * rewrite <- P. apply List.Forall_forall. intros f [Hin%list_elem_of_In _]%filter_In. by eapply file_wf_in.
        * by apply (zero_sorted ver files tmp).
        * exists go, st'. split; [done|]. apply (outcome_ext (files_entries tmp')); [|done]. intros e. rewrite !files_entries_elem.
          split; intros (f & Hin & He); exists f; (split; [|done]); by rewrite P in Hin || rewrite P.
    - exists true, st. split; [done|]. pose proof (zlen_nonneg tmp). rewrite (zlen_0_nil tmp) by lia. exists None. split; [|done].
      intros e He. by apply elem_of_nil in He. }
  exists go, st'. split; [done|]. eapply outcome_ext; [intros e; symmetry; apply filtered_entries|]. by apply outcome_right.
Qed.

(** *** The whole lookup *)

Lemma version_entries_levels ver : version_wf ver ->
  version_entries ver = files_entries (default [] (level_files ver 0)) ++ levels_entries ver (seqZ 1 (LDB_NUM_LEVELS - 1)).
Proof.
  intros Hv. pose proof (vw_levels ver Hv) as Hl. unfold version_entries, levels_entries, level_files.
  destruct (ver_files ver) as [|a [|b [|c [|d [|e [|f [|g [|h l]]]]]]]]; try done.
  - cbn [concat]. rewrite !files_entries_app. reflexivity.
  - exfalso. unfold LDB_NUM_LEVELS, zlen in Hl. cbn [length] in Hl. lia.
Qed.

Lemma version_get_ok ver : version_wf ver ->
  exists status value stats, ldb_version_get uc tables ver ro (ldb_lkey_init u s) buf = Some (status, value, stats) /\
    match newest uc u s (version_entries ver) with
    | Some (Pkey _ _ LDB_TYPE_VALUE, v) => status = LDB_OK /\ value = match buf with Some _ => Some v | None => None end
    | _ => status = LDB_NOTFOUND /\ value = buf
    end.
Proof.
  intros Hv. unfold ldb_version_get. destruct (lkey_parts u s u_len) as (_ & -> & ->). fold (seek_bytes u s).
  set (st0 := Getstate _ _ _ _ _ _). assert (clean st0) as Hc by done.
  destruct (level_at ver 0 Hv ltac:(unfold LDB_NUM_LEVELS; lia)) as (files & E0 & Hf & _).
  unfold ldb_version_for_each_overlapping. rewrite E0. cbn [mbind option_bind].
  destruct (zero_ok ver files st0 Hv E0 Hc) as (go & st1 & Ez & Ho). cbv zeta in Ez |- *. rewrite Ez. cbn [mbind option_bind].
  assert (exists go' st', (if go : bool then search_levels uc match_ ver u ikey_ (seqZ 1 (LDB_NUM_LEVELS - 1)) st1 else Some st1) = Some st' /\
    outcome (version_entries ver) go' st') as (go' & st' & E & r & Hn & Hr).
  { rewrite (version_entries_levels ver Hv), E0. cbn [default id from_option].
    assert (Forall (fun l => 1 <= l < LDB_NUM_LEVELS) (seqZ 1 (LDB_NUM_LEVELS - 1))) as Hr
      by (apply List.Forall_forall; intros l [H1 H2]%list_elem_of_In%elem_of_seqZ; lia).
    destruct go.
    - destruct (outcome_go _ _ _ Ho) as [Hc1 Hn]. destruct (levels_ok ver (seqZ 1 (LDB_NUM_LEVELS - 1)) st1 Hv Hc1) as (go & st' & E & Ho').
      + apply lookup_StronglySorted. intros i j x y Hij [-> _]%lookup_seqZ [-> _]%lookup_seqZ. lia.
      + done.
      + exists go, st'. split; [exact E|]. by apply outcome_right.
    - exists false, st1. split; [done|]. apply outcome_left; [|by apply files_entries_wf| |done].
      + apply (level_newer ver 0 _ files Hv E0). eapply List.Forall_impl; [|exact Hr]. intros l. cbn. lia.
      + apply levels_wf; [done|]. eapply List.Forall_impl; [|exact Hr]. intros l. cbn. lia. }
  rewrite E. cbn [mbind option_bind]. eexists _, _, _. split; [reflexivity|]. rewrite (is_newest_eq uc u s _ r Hn).
  destruct r as [[[u' s' t] v]|].
  - destruct Hr as [_ He]. unfold ended in He. cbn [fst type] in He. destruct t.
    + destruct He as (-> & ?). done.
    + destruct He as (-> & -> & ?). done.
  - destruct Hr as [_ [Hs ->]]. by rewrite Hs.
Qed.
End Lookup.

(** ** Properties *)

(** C20: Reading a version: over any tables that hold the entries of the files,
    looking up a user key at a snapshot terminates, searches level 0 from the
    newest file on and one file of each deeper level, and gives the newest version
    of the key in all files that the snapshot sees: its value, or not found if it
    is a deletion or there is none. *)
Theorem version_get_newest udom uc `{!ComparatorLaws udom uc} ents_of {T} (tops : iter_ops T) tables
    `{!TablesLaws tops tables udom uc (pairs_of ents_of)} ver ro u s buf :
  version_wf udom uc ents_of ver -> udom u -> zlen u < 2 ^ 32 - 8 -> 0 <= s <= LDB_MAX_SEQUENCE ->
  exists status value stats, ldb_version_get uc tables ver ro (ldb_lkey_init u s) (Some buf) = Some (status, value, stats) /\
    match read_version (newest uc u s (version_entries ents_of ver)) with
    | GetValue v => status = LDB_OK /\ value = Some v
    | GetNotFound | GetMissing => status = LDB_NOTFOUND /\ value = Some buf
    end.
Proof.
  intros Hv Du Hu Hs.
  destruct (version_get_ok udom uc ents_of tops tables u s (Some buf) ro Du Hu Hs ver Hv) as (status & value & stats & E & H).
  exists status, value, stats. split; [done|]. unfold read_version. by destruct (newest _ _ _ _) as [[[u' s' []] v]|].
Qed.

(** A version with two overlapping files in level 0 and one in level 1: the key a
    was written at 2, deleted at 5 and written again at 9. File 9, not in the
    version, is what merging them leaves. *)
Definition test_entries (number size : Z) : option (list entry) :=
  if number =? 9 then Some [(Pkey [Byte.x61] 9 LDB_TYPE_VALUE, [Byte.x09]); (Pkey [Byte.x62] 1 LDB_TYPE_VALUE, [Byte.x01]);
    (Pkey [Byte.x63] 6 LDB_TYPE_VALUE, [Byte.x06])]
  else if number =? 8 then Some [(Pkey [Byte.x61] 9 LDB_TYPE_VALUE, [Byte.x09])]
  else if number =? 7 then Some [(Pkey [Byte.x61] 5 LDB_TYPE_DELETION, []); (Pkey [Byte.x63] 6 LDB_TYPE_VALUE, [Byte.x06])]
  else if number =? 3 then Some [(Pkey [Byte.x61] 2 LDB_TYPE_VALUE, [Byte.x02]); (Pkey [Byte.x62] 1 LDB_TYPE_VALUE, [Byte.x01])]
  else None.

Definition test_file7 := test_file 1 7 100 (ikey (Pkey [Byte.x61] 5 LDB_TYPE_DELETION)) (vkey Byte.x63 6).
Definition test_file8 := test_file 2 8 100 (vkey Byte.x61 9) (vkey Byte.x61 9).
Definition test_file3 := test_file 3 3 200 (vkey Byte.x61 2) (vkey Byte.x62 1).
Definition test_file9 := test_file 4 9 300 (vkey Byte.x61 9) (vkey Byte.x63 6).

Definition test_version : ldb_version :=
  Version 1 [[test_file8; test_file7]; [test_file3]; []; []; []; []; []] None (-1) (SpecFloat.S754_zero false) (-1).

Lemma test_version_level i fs f : level_files test_version i = Some fs -> f ∈ fs ->
  (i = 0 /\ fs = [test_file8; test_file7] /\ (f = test_file7 \/ f = test_file8)) \/ (i = 1 /\ fs = [test_file3] /\ f = test_file3).
Proof.
  unfold level_files, item. destruct (Z.ltb_spec i 0); [done|]. destruct (Z.to_nat i) as [|[|n]] eqn:En; cbn [test_version ver_files lookup list_lookup].
  - intros [= <-] Hf. left. split; [lia|]. split; [done|]. apply elem_of_cons in Hf as [->|Hf]; [by right|].
    apply list_elem_of_singleton in Hf. by left.
  - intros [= <-] Hf%list_elem_of_singleton. right. by split; [lia|].
  - intros H1 Hf. exfalso. do 5 (destruct n as [|n]; [injection H1 as <-; by apply elem_of_nil in Hf|]). done.
Qed.

Ltac check_entry := split; [split; by vm_compute|]; split; [by vm_compute|]; split; [by vm_compute|exact I].
Ltac check_newer := intros e e' He%list_elem_of_In He'%list_elem_of_In; vm_compute in He, He';
  repeat (destruct He as [<-|He]; [|]); repeat (destruct He' as [<-|He']; [|]); try done; by vm_compute.

Lemma test_version_file f : f = test_file7 \/ f = test_file8 \/ f = test_file3 \/ f = test_file9 ->
  version_file (fun _ => True) bytewise_comparator test_entries f.
Proof.
  intros [-> |[-> |[-> | ->]]]; split;
    try (split; [split; [check_ikey|check_ikey|by vm_compute|by vm_compute]|by vm_compute|by vm_compute|by eexists|check_sorted|
           repeat (apply List.Forall_cons; [split; [check_ikey|split; by vm_compute]|]); apply List.Forall_nil]);
    try (repeat (apply List.Forall_cons; [check_entry|]); apply List.Forall_nil).
  - eexists. split; [right; left|by vm_compute].
  - eexists. split; [left|by vm_compute].
  - eexists. split; [right; left|by vm_compute].
  - eexists. split; [right; right; left|by vm_compute].
Qed.

Lemma test_version_wf : version_wf (fun _ => True) bytewise_comparator test_entries test_version.
Proof.
  split.
  - by vm_compute.
  - repeat (apply List.Forall_cons;
      [repeat (apply List.Forall_cons; [apply test_version_file; auto|]); apply List.Forall_nil|]); apply List.Forall_nil.
  - repeat (apply List.Forall_cons; [by vm_compute|]); apply List.Forall_nil.
  - intros level files Hl E. destruct files as [|f files]; [constructor|].
    destruct (test_version_level level (f :: files) f E) as [(-> & _)|(_ & -> & _)]; [by left|done|]. repeat constructor.
  - intros files [= <-]. apply NoDup_ListNoDup. repeat constructor; cbn; [|tauto]. intros [H|[]]. by vm_compute in H.
  - intros files f g E Hf Hg Hlt. destruct (test_version_level 0 files f E Hf) as [(_ & _ & [-> | ->])|[? _]]; [| |done];
      (destruct (test_version_level 0 files g E Hg) as [(_ & _ & [-> | ->])|[? _]]; [| |done]); try (by vm_compute in Hlt). check_newer.
  - intros i j fs gs f g Hij E E' Hf Hg.
    destruct (test_version_level i fs f E Hf) as [(-> & _ & Hf')|(-> & _)];
      (destruct (test_version_level j gs g E' Hg) as [(-> & _)|(-> & _ & ->)]; [lia|]); [|lia].
    destruct Hf' as [-> | ->]; check_newer.
Qed.

Lemma version_get_newest_witness :
  let get s := ldb_version_get bytewise_comparator (list_tables bytewise_comparator (pairs_of test_entries)) test_version
    ldb_readopt_default (ldb_lkey_init [Byte.x61] s) (Some []) in
  (r ← get 20; Some r.1) = Some (LDB_OK, Some [Byte.x09]) /\
  (r ← get 4; Some r.1) = Some (LDB_OK, Some [Byte.x02]) /\
  exists status value stats, get 7 = Some (status, value, stats) /\ status = LDB_NOTFOUND /\ value = Some [].
Proof.
  intros get. split; [by vm_compute|]. split; [by vm_compute|].
  apply (version_get_newest (fun _ => True) bytewise_comparator test_entries (listiter_table (ldb_ikc_init bytewise_comparator))
    (list_tables bytewise_comparator (pairs_of test_entries)) test_version ldb_readopt_default [Byte.x61] 7 []);
    [exact test_version_wf|exact I|by vm_compute|split; by vm_compute].
Defined.
