(* ===== verification/VersionBuilder.v ===== *)
(** * Applying edits to a version

    Models the builder of [src/engine/src/version_set.c]: it collects a sequence
    of version edits and merges them with the files of a base version.  The set
    of deleted numbers ([rb_set64_t]) is a [gset], the set of added files
    ([rb_set_t]) the sorted list of its elements, as in VersionEdit.v.  The
    reference counts of files and of the base version are left out. *)

From stdpp Require Import strings sorting gmap.
From S2P Require Import Prelude Status Comparator DBFormat Vector VersionEdit Iterator FileList Version.
#[local] Open Scope Z_scope.

(** ** Data *)

(** The metadata objects: the next address to be handed out, and the current
    [allowed_seeks] of each. *)
Record fileheap := FileHeap { fh_next : nat; fh_seeks : seek_store }.

(** [level_state_t] *)
Record level_state := LevelState { ls_deleted_files : gset Z; ls_added_files : list fileptr }.

(** [builder_t] *)
Record builder := Builder { b_base : ldb_version; b_levels : list level_state }.

Section Builder.
Context (uc : comparator).
Local Abbreviation icmp := (ldb_ikc_init uc).

Definition by_smallest_key (f1 f2 : fileptr) : Z :=
  let r := ldb_compare icmp (f_smallest f1) (f_smallest f2) in
  if negb (r =? 0) then r
  else if f_number f1 <? f_number f2 then -1 else if f_number f2 <? f_number f1 then 1 else 0.

Definition builder_init (base : ldb_version) : builder :=
  Builder base (replicate (Z.to_nat LDB_NUM_LEVELS) (LevelState ∅ [])).

(** ** Applying an edit *)

(** [None] for a level that does not exist. *)
Definition set_level {A} (levels : list A) (level : Z) (x : A) : option (list A) :=
  _ ← item levels level; Some (<[Z.to_nat level := x]> levels).

Definition apply_pointer (pointers : list bytes) (entry : ikey_entry) : option (list bytes) :=
  set_level pointers (ike_level entry) (ike_key entry).

Definition apply_deletion (levels : list level_state) (entry : file_entry) : option (list level_state) :=
  state ← item levels (fe_level entry);
  set_level levels (fe_level entry) (LevelState ({[fe_number entry]} ∪ ls_deleted_files state) (ls_added_files state)).

(** How many seeks a file allows before it is compacted. *)
Definition initial_seeks (file_size : Z) : Z :=
  let allowed_seeks := s32 (file_size / 16384) in
  if allowed_seeks <? 100 then 100 else allowed_seeks.

Definition apply_addition (heap : fileheap) (levels : list level_state) (entry : meta_entry) : option (fileheap * list level_state) :=
  state ← item levels (me_level entry);
  let meta := ldb_filemeta_clone (me_meta entry) in
  let allowed_seeks := initial_seeks (fm_file_size meta) in
  let f := FilePtr (fh_next heap)
             (Filemeta 1 allowed_seeks (fm_number meta) (fm_file_size meta) (fm_smallest meta) (fm_largest meta)) in
  levels ← set_level levels (me_level entry)
             (LevelState (ls_deleted_files state ∖ {[f_number f]}) (rb_set_put by_smallest_key (ls_added_files state) f).1);
  Some (FileHeap (S (fh_next heap)) (<[fh_next heap := allowed_seeks]> (fh_seeks heap)), levels).

(** The compaction pointers of the version set, the objects and the builder. *)
Definition builder_apply (heap : fileheap) (pointers : list bytes) (b : builder) (e : edit) : option (fileheap * list bytes * builder) :=
  pointers ← fold_opt apply_pointer (ed_compact_pointers e) pointers;
  levels ← fold_opt apply_deletion (ed_deleted_files e) (b_levels b);
  '(heap, levels) ← fold_opt (fun hl entry => apply_addition hl.1 hl.2 entry) (ed_new_files e) (heap, levels);
  Some (heap, pointers, Builder (b_base b) levels).

(** ** Saving the result *)

(** The files of the level afterwards; [None] if the assertion fails. *)
Definition builder_maybe_add_file (state : level_state) (level : Z) (files : list fileptr) (f : fileptr) : option (list fileptr) :=
  if bool_decide (f_number f ∈ ls_deleted_files state) then Some files
  else
    match (if 0 <? level then list.last files else None) with
    | Some last => if ldb_compare icmp (f_largest last) (f_smallest f) <? 0 then Some (files ++ [f]) else None
    | None => Some (files ++ [f])
    end.

(** The base files below [added_file]: those left, and the files of the level. *)
Fixpoint save_smaller (state : level_state) (level : Z) (base_files : list fileptr) (added_file : fileptr) (files : list fileptr)
    : option (list fileptr * list fileptr) :=
  match base_files with
  | [] => Some ([], files)
  | base_file :: base_files' =>
    if 0 <=? by_smallest_key base_file added_file then Some (base_files, files)
    else
      files ← builder_maybe_add_file state level files base_file;
      save_smaller state level base_files' added_file files
  end.

Fixpoint save_added (state : level_state) (level : Z) (base_files added_files : list fileptr) (files : list fileptr) : option (list fileptr) :=
  match added_files with
  | [] => fold_opt (builder_maybe_add_file state level) base_files files
  | added_file :: added_files =>
    '(base_files, files) ← save_smaller state level base_files added_file files;
    files ← builder_maybe_add_file state level files added_file;
    save_added state level base_files added_files files
  end.

(** The final check, made above level 0: [None] aborts. *)
Fixpoint check_overlap (files : list fileptr) : option unit :=
  match files with
  | x :: (y :: _) as files =>
    if 0 <=? ldb_compare icmp (f_largest x) (f_smallest y) then None else check_overlap files
  | _ => Some tt
  end.

Definition save_level (b : builder) (level : Z) (files : list fileptr) : option (list fileptr) :=
  base_files ← level_files (b_base b) level;
  state ← item (b_levels b) level;
  files ← save_added state level base_files (ls_added_files state) files;
  _ ← (if 0 <? level then check_overlap files else Some tt);
  Some files.

Fixpoint save_levels (b : builder) (level : Z) (levels : list (list fileptr)) : option (list (list fileptr)) :=
  match levels with
  | [] => Some []
  | files :: levels => files ← save_level b level files; levels ← save_levels b (level + 1) levels; Some (files :: levels)
  end.

Definition builder_save_to (b : builder) (v : ldb_version) : option ldb_version :=
  files ← save_levels b 0 (ver_files v);
  Some (Version (ver_refs v) files (ver_file_to_compact v) (ver_file_to_compact_level v) (ver_compaction_score v) (ver_compaction_level v)).
End Builder.

(** ** The order of files *)

Abbreviation numbers files := (map (fun f => f_number f) files).

Lemma number_in (files : list fileptr) f : f ∈ files -> f_number f ∈ numbers files.
Proof. intros H. apply list_elem_of_In, in_map_iff. exists f. split; [done|by apply list_elem_of_In]. Qed.

Section Order.
Context (udom : bytes -> Prop) (uc : comparator) `{!ComparatorLaws udom uc}.
Local Abbreviation icmp := (ldb_ikc_init uc).
Local Abbreviation idom := (ikey_dom udom).
Local Abbreviation cmp := (by_smallest_key uc).

Definition key_lt (f g : fileptr) : Prop := cmp f g < 0.

Lemma key_lt_spec f g : key_lt f g <-> ldb_compare icmp (f_smallest f) (f_smallest g) < 0 \/
  (ldb_compare icmp (f_smallest f) (f_smallest g) = 0 /\ f_number f < f_number g).
Proof.
  unfold key_lt, by_smallest_key. cbv zeta. destruct (Z.eqb_spec (ldb_compare icmp (f_smallest f) (f_smallest g)) 0); cbn [negb]; [|lia].
  destruct (Z.ltb_spec (f_number f) (f_number g)); [lia|]. destruct (Z.ltb_spec (f_number g) (f_number f)); lia.
Qed.

Lemma by_smallest_flip f g : file_wf udom uc f -> file_wf udom uc g -> Z.sgn (cmp g f) = - Z.sgn (cmp f g).
Proof.
  intros [Df _ _ _] [Dg _ _ _]. pose proof (compare_flip (c := icmp) _ _ Df Dg) as F. unfold by_smallest_key. cbv zeta.
  destruct (Z.eqb_spec (ldb_compare icmp (f_smallest f) (f_smallest g)) 0) as [E|E];
    destruct (Z.eqb_spec (ldb_compare icmp (f_smallest g) (f_smallest f)) 0) as [E'|E']; cbn [negb]; try lia.
  destruct (Z.ltb_spec (f_number f) (f_number g)), (Z.ltb_spec (f_number g) (f_number f)); lia.
Qed.

Lemma key_lt_trans f g h : file_wf udom uc f -> file_wf udom uc g -> file_wf udom uc h -> key_lt f g -> key_lt g h -> key_lt f h.
Proof.
  intros [Df _ _ _] [Dg _ _ _] [Dh _ _ _]. rewrite !key_lt_spec. intros [H1|[H1 N1]] [H2|[H2 N2]].
  - left. by apply (compare_lt_trans idom icmp _ (f_smallest g)).
  - left. apply (compare_lt_le_trans idom icmp _ (f_smallest g)); try done. lia.
  - left. apply (compare_le_lt_trans idom icmp _ (f_smallest g)); try done. lia.
  - right. split; [|lia]. pose proof (compare_eq_l idom icmp _ _ _ Df Dg Dh H1). lia.
Qed.

Lemma by_smallest_distinct f g : f_number f <> f_number g -> cmp f g <> 0.
Proof.
  intros Hn. unfold by_smallest_key. cbv zeta. destruct (Z.eqb_spec (ldb_compare icmp (f_smallest f) (f_smallest g)) 0); cbn [negb]; [|done].
  destruct (Z.ltb_spec (f_number f) (f_number g)); [lia|]. destruct (Z.ltb_spec (f_number g) (f_number f)); lia.
Qed.

(** *** The set of added files *)

Lemma put_perm s f : (forall g, g ∈ s -> f_number f <> f_number g) -> (rb_set_put cmp s f).1 ≡ₚ f :: s.
Proof.
  induction s as [|g s IH]; intros H; [done|]. cbn [rb_set_put].
  destruct (Z.ltb_spec (cmp f g) 0); [done|]. destruct (Z.eqb_spec (cmp f g) 0) as [E|E].
  { exfalso. apply (by_smallest_distinct f g); [apply H; by left|done]. }
  assert ((rb_set_put cmp s f).1 ≡ₚ f :: s) as IH' by (apply IH; intros h Hh; apply H; by right).
  destruct (rb_set_put cmp s f) as [s' new]. cbn [fst] in *. rewrite IH'. apply perm_swap.
Qed.

Lemma put_sorted s f : file_wf udom uc f -> Forall (file_wf udom uc) s -> (forall g, g ∈ s -> f_number f <> f_number g) ->
  StronglySorted key_lt s -> StronglySorted key_lt (rb_set_put cmp s f).1.
Proof.
  intros Wf. induction s as [|g s IH]; intros Ws Hn Hs; [by repeat constructor|]. cbn [rb_set_put].
  apply Forall_cons_iff in Ws as [Wg Ws]. apply StronglySorted_inv in Hs as [Hs Hall].
  destruct (Z.ltb_spec (cmp f g) 0) as [Hlt|Hge].
  - constructor; [by constructor|]. constructor; [done|]. rewrite List.Forall_forall in Hall, Ws |- *. intros h Hh.
    apply (key_lt_trans f g h); auto.
  - destruct (Z.eqb_spec (cmp f g) 0) as [E|E]; [by constructor|].
    assert (StronglySorted key_lt (rb_set_put cmp s f).1) as IH' by (apply IH; [done|intros h Hh; apply Hn; by right|done]).
    assert ((rb_set_put cmp s f).1 ≡ₚ f :: s) as P by (apply put_perm; intros h Hh; apply Hn; by right).
    destruct (rb_set_put cmp s f) as [s' new]. cbn [fst] in *. constructor; [done|].
    assert (Forall (key_lt g) (f :: s)) as Hfs.
    { constructor; [|done]. unfold key_lt. pose proof (by_smallest_flip f g Wf Wg). lia. }
    by rewrite P.
Qed.

(** *** The merge *)

Fixpoint split_smaller (base : list fileptr) (a : fileptr) : list fileptr * list fileptr :=
  match base with
  | [] => ([], [])
  | x :: base' => if 0 <=? cmp x a then ([], base) else let (lo, hi) := split_smaller base' a in (x :: lo, hi)
  end.

Fixpoint merged (base added : list fileptr) : list fileptr :=
  match added with
  | [] => base
  | a :: added => let (lo, hi) := split_smaller base a in lo ++ a :: merged hi added
  end.

Lemma split_app base a : (split_smaller base a).1 ++ (split_smaller base a).2 = base.
Proof.
  induction base as [|x base IH]; [done|]. cbn [split_smaller]. destruct (0 <=? cmp x a); [done|].
  destruct (split_smaller base a) as [lo hi]. cbn in *. by rewrite IH.
Qed.

Lemma merged_perm base added : merged base added ≡ₚ base ++ added.
Proof.
  revert base. induction added as [|a added IH]; intros base; cbn [merged]; [by rewrite app_nil_r|].
  pose proof (split_app base a) as E. destruct (split_smaller base a) as [lo hi]. cbn [fst snd] in E. rewrite IH, <- E, <- app_assoc.
  by rewrite (Permutation_middle hi added a).
Qed.

Lemma split_lo base a : Forall (fun x => key_lt x a) (split_smaller base a).1.
Proof.
  induction base as [|x base IH]; [constructor|]. cbn [split_smaller]. destruct (Z.leb_spec 0 (cmp x a)); [constructor|].
  destruct (split_smaller base a) as [lo hi]. by constructor.
Qed.

Lemma split_hi base a : Forall (file_wf udom uc) base -> file_wf udom uc a -> StronglySorted key_lt base ->
  (forall x, x ∈ base -> f_number x <> f_number a) -> Forall (key_lt a) (split_smaller base a).2.
Proof.
  intros Wb Wa Hs Hn. induction base as [|x base IH]; [constructor|]. cbn [split_smaller].
  apply Forall_cons_iff in Wb as [Wx Wb]. apply StronglySorted_inv in Hs as [Hs Hall].
  destruct (Z.leb_spec 0 (cmp x a)) as [Hge|Hlt]; cbn [snd].
  - assert (key_lt a x) as Hax.
    { unfold key_lt. pose proof (by_smallest_flip x a Wx Wa). pose proof (by_smallest_distinct x a (Hn x ltac:(by left))). lia. }
    constructor; [done|]. rewrite List.Forall_forall in Hall, Wb |- *. intros y Hy. apply (key_lt_trans a x y); auto.
  - assert (Forall (key_lt a) (split_smaller base a).2) as IH' by (apply IH; [done|done|intros y Hy; apply Hn; by right]).
    by destruct (split_smaller base a) as [lo hi].
Qed.

Lemma merged_sorted added : forall base, Forall (file_wf udom uc) (base ++ added) -> NoDup (map (fun f => f_number f) (base ++ added)) ->
  StronglySorted key_lt base -> StronglySorted key_lt added -> StronglySorted key_lt (merged base added).
Proof.
  induction added as [|a added IH]; intros base Hw Hn Hb Ha; cbn [merged]; [done|].
  pose proof (split_app base a) as E. pose proof (split_lo base a) as Hlo.
  apply List.Forall_app in Hw as [Wb Wa]. apply Forall_cons_iff in Wa as [Wa Was]. apply StronglySorted_inv in Ha as [Ha Hall].
  assert (forall x, x ∈ base -> f_number x <> f_number a) as Hne.
  { intros x Hx Hxa. rewrite map_app in Hn. apply list.NoDup_app in Hn as (_ & Hn & _).
    apply (Hn (f_number x)); [by apply number_in|]. cbn [map]. rewrite Hxa. by left. }
  pose proof (split_hi base a Wb Wa Hb Hne) as Hhi. destruct (split_smaller base a) as [lo hi]. cbn [fst snd] in *.
  assert (StronglySorted key_lt (merged hi added)) as Hm.
  { apply IH; [| |rewrite <- E in Hb; by eapply StronglySorted_app_1_r|done].
    - apply List.Forall_app. split; [|done]. rewrite <- E in Wb. by apply List.Forall_app in Wb as [_ ?].
    - rewrite <- E, !map_app in Hn. rewrite <- app_assoc in Hn. cbn [map] in Hn. apply list.NoDup_app in Hn as (_ & _ & Hn).
      rewrite map_app. assert (f_number a :: map (fun f => f_number f) hi ++ map (fun f => f_number f) added ≡ₚ
        map (fun f => f_number f) hi ++ f_number a :: map (fun f => f_number f) added) as P by apply Permutation_middle.
      rewrite <- P in Hn. by apply list.NoDup_cons in Hn as [_ Hn]. }
  assert (Forall (key_lt a) (merged hi added)) as Ham by (rewrite merged_perm; by apply List.Forall_app).
  assert (Forall (file_wf udom uc) (merged hi added)) as Wm.
  { rewrite merged_perm. apply List.Forall_app. split; [|done]. rewrite <- E in Wb. by apply List.Forall_app in Wb as [_ ?]. }
  apply StronglySorted_app_2; [|rewrite <- E in Hb; by eapply StronglySorted_app_1_l|by constructor].
  intros x y Hx Hy. rewrite List.Forall_forall in Hlo, Wm, Ham.
  assert (file_wf udom uc x) as Wx.
  { rewrite List.Forall_forall in Wb. apply Wb, list_elem_of_In. rewrite <- E. rewrite elem_of_app. by left. }
  apply list_elem_of_In in Hx. apply elem_of_cons in Hy as [->|Hy%list_elem_of_In]; [by apply Hlo|].
  apply (key_lt_trans x a y); auto.
Qed.
End Order.

(** ** Saving *)

Section Save.
Context (udom : bytes -> Prop) (uc : comparator) `{!ComparatorLaws udom uc}.
Local Abbreviation icmp := (ldb_ikc_init uc).

Definition kept (state : level_state) (f : fileptr) : bool := negb (bool_decide (f_number f ∈ ls_deleted_files state)).

(** The loops make the merged sequence of additions. *)
Lemma save_smaller_eq state level base a files :
  save_smaller uc state level base a files =
    (files ← fold_opt (builder_maybe_add_file uc state level) (split_smaller uc base a).1 files; Some ((split_smaller uc base a).2, files)).
Proof.
  revert files. induction base as [|x base IH]; intros files; [done|]. cbn [save_smaller split_smaller].
  destruct (0 <=? by_smallest_key uc x a); [done|]. destruct (split_smaller uc base a) as [lo hi]. cbn [fst snd fold_opt] in *.
  destruct (builder_maybe_add_file uc state level files x) as [files'|]; [apply IH|done].
Qed.

Lemma save_added_eq state level added : forall base files,
  save_added uc state level base added files = fold_opt (builder_maybe_add_file uc state level) (merged uc base added) files.
Proof.
  induction added as [|a added IH]; intros base files; [done|]. cbn [save_added merged]. rewrite save_smaller_eq.
  destruct (split_smaller uc base a) as [lo hi]. cbn [fst snd]. rewrite fold_opt_app.
  destruct (fold_opt _ lo files) as [files'|]; [|done]. cbn [mbind option_bind fold_opt].
  destruct (builder_maybe_add_file uc state level files' a) as [files''|]; [apply IH|done].
Qed.

(** The assertion holds when the files kept are disjoint. *)
Lemma maybe_add_all_ok state level xs : forall files,
  (0 < level -> disjoint_sorted uc (files ++ List.filter (kept state) xs)) ->
  fold_opt (builder_maybe_add_file uc state level) xs files = Some (files ++ List.filter (kept state) xs).
Proof.
  induction xs as [|x xs IH]; intros files Hs; cbn [fold_opt List.filter]; [by rewrite app_nil_r|].
  cbn [List.filter] in Hs. destruct (kept state x) eqn:Ek.
  - assert (builder_maybe_add_file uc state level files x = Some (files ++ [x])) as ->.
    { unfold builder_maybe_add_file. unfold kept in Ek. apply negb_true_iff in Ek. rewrite Ek.
      destruct (Z.ltb_spec 0 level) as [Hl|_]; [|done]. destruct (list.last files) as [y|] eqn:Ey; [|done].
      specialize (Hs Hl). apply last_Some in Ey as [files' ->]. rewrite (proj2 (Z.ltb_lt _ 0)); [done|].
      apply (sorted_lookup _ _ (length files') (S (length files')) y x Hs); [| |lia].
      - rewrite <- app_assoc, lookup_app_r, Nat.sub_diag by lia. done.
      - rewrite <- app_assoc, lookup_app_r by lia. replace (S (length files') - length files')%nat with 1%nat by lia. done. }
    cbn [mbind option_bind]. rewrite IH; rewrite <- app_assoc; done.
  - assert (builder_maybe_add_file uc state level files x = Some files) as ->.
    { unfold builder_maybe_add_file. unfold kept in Ek. apply negb_false_iff in Ek. by rewrite Ek. }
    by apply IH.
Qed.

Lemma check_overlap_ok files : disjoint_sorted uc files -> check_overlap uc files = Some tt.
Proof.
  induction files as [|x [|y files] IH]; intros Hs; [done|done|]. cbn [check_overlap]. apply StronglySorted_inv in Hs as [Hs Hall].
  apply Forall_cons_iff in Hall as [Hxy _]. rewrite (proj2 (Z.leb_gt 0 _)) by done. by apply IH.
Qed.

(** Files in the order of their smallest keys whose ranges are disjoint. *)
Definition pairwise_disjoint (files : list fileptr) : Prop :=
  forall f g, f ∈ files -> g ∈ files -> f_number f <> f_number g ->
    ldb_compare icmp (f_largest f) (f_smallest g) < 0 \/ ldb_compare icmp (f_largest g) (f_smallest f) < 0.

Lemma sorted_disjoint files : Forall (file_wf udom uc) files -> NoDup (numbers files) -> StronglySorted (key_lt uc) files ->
  pairwise_disjoint files -> disjoint_sorted uc files.
Proof.
  intros Hw Hn Hs Hd. apply lookup_StronglySorted. intros i j f g Hij Hf Hg.
  pose proof (sorted_lookup _ _ i j f g Hs Hf Hg Hij) as Hlt. apply key_lt_spec in Hlt.
  destruct (Hd f g) as [H|H]; [by eapply list_elem_of_lookup_2|by eapply list_elem_of_lookup_2| |done|].
  - intros E. assert (i = j); [|lia]. apply (NoDup_lookup _ i j (f_number f) Hn); rewrite list_lookup_fmap.
    + by rewrite Hf.
    + rewrite Hg. cbn. by f_equal.
  - exfalso. destruct (wf_at udom uc files i f Hw Hf) as [Dfs Dfl _ Hfr]. destruct (wf_at udom uc files j g Hw Hg) as [Dgs Dgl _ Hgr].
    assert (ldb_compare icmp (f_smallest g) (f_smallest f) < 0) as H'.
    { by apply (compare_le_lt_trans (ikey_dom udom) icmp _ (f_largest g)). }
    apply (compare_lt_flip (ikey_dom udom) icmp) in H'; [|done..]. lia.
Qed.

(** What is left of a level. *)
Definition survivors (state : level_state) (base : list fileptr) : list fileptr :=
  List.filter (kept state) (merged uc base (ls_added_files state)).

Lemma survivors_elem state base f : f ∈ survivors state base <-> f ∈ base ++ ls_added_files state /\ kept state f = true.
Proof.
  unfold survivors. rewrite list_elem_of_In, filter_In, <- list_elem_of_In. by rewrite (merged_perm uc base (ls_added_files state)).
Qed.

Lemma filter_sorted {A} (R : A -> A -> Prop) (p : A -> bool) xs : StronglySorted R xs -> StronglySorted R (List.filter p xs).
Proof.
  induction 1 as [|x xs Hs IH Hall]; [constructor|]. cbn [List.filter]. destruct (p x); [|done]. constructor; [done|].
  rewrite List.Forall_forall in *. intros y [Hy _]%filter_In. auto.
Qed.

Lemma filter_numbers (p : fileptr -> bool) xs : NoDup (numbers xs) -> NoDup (numbers (List.filter p xs)).
Proof.
  induction xs as [|x xs IH]; intros H; [constructor|]. cbn [map List.filter] in *. apply list.NoDup_cons in H as [Hx H].
  destruct (p x); [|auto]. cbn [map]. apply list.NoDup_cons. split; [|auto]. intros Hin. apply Hx.
  apply list_elem_of_In, in_map_iff in Hin as (y & Ey & [Hy _]%filter_In). apply list_elem_of_In, in_map_iff. by exists y.
Qed.

Lemma survivors_ok state base : Forall (file_wf udom uc) (base ++ ls_added_files state) ->
  NoDup (numbers (base ++ ls_added_files state)) -> StronglySorted (key_lt uc) base -> StronglySorted (key_lt uc) (ls_added_files state) ->
  Forall (file_wf udom uc) (survivors state base) /\ NoDup (numbers (survivors state base)) /\ StronglySorted (key_lt uc) (survivors state base).
Proof.
  intros Hw Hn Hb Ha. pose proof (merged_perm uc base (ls_added_files state)) as P. split; [|split].
  - apply List.Forall_forall. intros f [Hf _]%list_elem_of_In%survivors_elem. rewrite List.Forall_forall in Hw. by apply Hw, list_elem_of_In.
  - apply filter_numbers. by rewrite P.
  - apply filter_sorted. by apply (merged_sorted udom).
Qed.

Lemma save_level_ok b level base state : level_files (b_base b) level = Some base -> item (b_levels b) level = Some state ->
  (0 < level -> disjoint_sorted uc (survivors state base)) ->
  save_level uc b level [] = Some (survivors state base).
Proof.
  intros Eb Es Hd. unfold save_level. rewrite Eb, Es. cbn [mbind option_bind]. rewrite save_added_eq, maybe_add_all_ok by exact Hd.
  cbn [mbind option_bind app]. fold (survivors state base). destruct (Z.ltb_spec 0 level) as [Hl|]; [|done].
  by rewrite check_overlap_ok by auto.
Qed.
End Save.

(** ** The specification: levels as maps from numbers to files *)

(** What a table is known by: size, smallest and largest key. *)
Abbreviation file_info := (Z * bytes * bytes)%type.
Definition meta_info (m : filemeta) : file_info := (fm_file_size m, fm_smallest m, fm_largest m).
Abbreviation level_state_map := (gmap Z file_info).

Definition level_map (files : list fileptr) : level_state_map := list_to_map (map (fun f => (f_number f, meta_info (fp_meta f))) files).

(** The effect of an edit on a level: deletions first. *)
Definition delete_entry (level : Z) (m : level_state_map) (d : file_entry) : level_state_map :=
  if fe_level d =? level then delete (fe_number d) m else m.
Definition insert_entry (level : Z) (m : level_state_map) (a : meta_entry) : level_state_map :=
  if me_level a =? level then <[fm_number (me_meta a) := meta_info (me_meta a)]> m else m.
Definition apply_edit (level : Z) (m : level_state_map) (e : edit) : level_state_map :=
  fold_left (insert_entry level) (ed_new_files e) (fold_left (delete_entry level) (ed_deleted_files e) m).

(** The numbers an edit adds to a level. *)
Definition added_numbers (level : Z) (entries : list meta_entry) : list Z :=
  map (fun a => fm_number (me_meta a)) (List.filter (fun a => me_level a =? level) entries).

Lemma level_map_lookup files n i : NoDup (numbers files) ->
  level_map files !! n = Some i <-> exists f, f ∈ files /\ f_number f = n /\ meta_info (fp_meta f) = i.
Proof.
  intros Hn. unfold level_map. rewrite <- elem_of_list_to_map.
  - rewrite list_elem_of_In, in_map_iff. split.
    + intros (f & [= <- <-] & Hf). exists f. by rewrite list_elem_of_In.
    + intros (f & Hf & <- & <-). exists f. by rewrite <- list_elem_of_In.
  - change (NoDup (map fst (map (fun f => (f_number f, meta_info (fp_meta f))) files))). rewrite List.map_map. exact Hn.
Qed.

(** A map is determined by the files it comes from. *)
Lemma level_map_eq files m : NoDup (numbers files) ->
  (forall n i, m !! n = Some i <-> exists f, f ∈ files /\ f_number f = n /\ meta_info (fp_meta f) = i) -> m = level_map files.
Proof.
  intros Hn H. apply map_eq. intros n. apply option_eq. intros i. by rewrite H, level_map_lookup.
Qed.

Section Apply.
Context (udom : bytes -> Prop) (uc : comparator) `{!ComparatorLaws udom uc}.

(** The builder's state of a level over the base files, for the numbers [seen]
    there so far. *)
Record level_rep (base : list fileptr) (state : level_state) (seen : list Z) (m : level_state_map) : Prop := {
  lr_sorted : StronglySorted (key_lt uc) (ls_added_files state);
  lr_wf : Forall (file_wf udom uc) (ls_added_files state);
  lr_seen : numbers (base ++ ls_added_files state) ≡ₚ seen;
  lr_map n i : m !! n = Some i <->
    exists f, (f ∈ base ++ ls_added_files state /\ kept state f = true) /\ f_number f = n /\ meta_info (fp_meta f) = i
}.

(** The files of an edit have ranges. *)
Definition meta_wf (m : filemeta) : Prop := file_wf udom uc (FilePtr 0 m).

Lemma kept_spec state f : kept state f = true <-> f_number f ∉ ls_deleted_files state.
Proof. unfold kept. rewrite negb_true_iff, bool_decide_eq_false. done. Qed.

Lemma deletion_rep base state seen m n : level_rep base state seen m ->
  level_rep base (LevelState ({[n]} ∪ ls_deleted_files state) (ls_added_files state)) seen (delete n m).
Proof.
  intros [Hs Hw Hseen Hm]. split; cbn [ls_added_files]; try done. intros k i. rewrite lookup_delete_Some, Hm. split.
  - intros (Hne & f & (Hf & Hk) & <- & <-). exists f. split; [split; [done|]|done]. rewrite kept_spec in *. cbn [ls_deleted_files].
    rewrite elem_of_union, elem_of_singleton. intros [E|?]; [by destruct Hne|done].
  - intros (f & (Hf & Hk) & <- & <-). rewrite kept_spec in Hk. cbn [ls_deleted_files] in Hk. rewrite elem_of_union, elem_of_singleton in Hk.
    split; [intros E; by destruct Hk; left|]. exists f. rewrite kept_spec. split; [split; [done|]|done]. intros ?. destruct Hk. by right.
Qed.

Lemma addition_rep base state seen m f : level_rep base state seen m -> file_wf udom uc f -> f_number f ∉ seen ->
  level_rep base (LevelState (ls_deleted_files state ∖ {[f_number f]}) (rb_set_put (by_smallest_key uc) (ls_added_files state) f).1)
    (f_number f :: seen) (<[f_number f := meta_info (fp_meta f)]> m).
Proof.
  intros [Hs Hw Hseen Hm] Wf Hnew. rewrite <- Hseen in Hnew.
  assert (forall g, g ∈ base ++ ls_added_files state -> f_number f <> f_number g) as Hne.
  { intros g Hg E. apply Hnew. rewrite E. by apply number_in. }
  assert ((rb_set_put (by_smallest_key uc) (ls_added_files state) f).1 ≡ₚ f :: ls_added_files state) as P.
  { apply put_perm. intros g Hg. apply Hne. rewrite elem_of_app. by right. }
  split; cbn [ls_added_files].
  - apply (put_sorted udom uc _ _ Wf Hw); [|done]. intros g Hg. apply Hne. rewrite elem_of_app. by right.
  - rewrite P. by constructor.
  - rewrite P, <- Permutation_middle. cbn [map]. by rewrite Hseen.
  - intros k i. rewrite lookup_insert_Some, Hm. setoid_rewrite kept_spec. cbn [ls_deleted_files]. setoid_rewrite P.
    setoid_rewrite elem_of_app. setoid_rewrite elem_of_cons. setoid_rewrite elem_of_difference. setoid_rewrite elem_of_singleton. split.
    + intros [(E1 & E2)|(Hk & g & (Hg & Hd) & E1 & E2)].
      * exists f. split; [split; [right; by left|tauto]|done].
      * exists g. split; [|done]. split; [tauto|]. intros [? _]. done.
    + intros (g & (Hg & Hd) & E1 & E2). destruct (decide (f_number f = k)) as [E|E].
      * left. split; [done|]. assert (g = f) as ->; [|done]. destruct Hg as [Hg|[->|Hg]]; [|done|];
          exfalso; apply (Hne g); [rewrite elem_of_app; tauto|congruence|rewrite elem_of_app; tauto|congruence].
      * right. split; [done|]. exists g. split; [|done].
        assert (g <> f) as Hgf by (intros ->; congruence). split; [tauto|]. intros Hin. apply Hd. split; [done|]. congruence.
Qed.

Lemma level_rep_perm base state seen seen' m : seen ≡ₚ seen' -> level_rep base state seen m -> level_rep base state seen' m.
Proof. intros P [Hs Hw Hseen Hm]. split; try done. by rewrite Hseen. Qed.

(** *** All levels *)

Lemma set_level_ok {A} (levels : list A) level x : 0 <= level < zlen levels ->
  exists levels', set_level levels level x = Some levels' /\ zlen levels' = zlen levels /\
    forall l, item levels' l = if l =? level then Some x else item levels l.
Proof.
  intros Hl. unfold set_level. destruct (item_some levels level Hl) as [y ->]. cbn [mbind option_bind].
  eexists. split; [reflexivity|]. split; [unfold zlen; by rewrite length_insert|]. intros l. unfold item.
  destruct (Z.eqb_spec l level) as [->|Hne].
  - rewrite (proj2 (Z.ltb_ge _ 0)) by lia. apply list_lookup_insert_eq. unfold zlen in Hl. lia.
  - destruct (Z.ltb_spec l 0); [done|]. apply list_lookup_insert_ne. lia.
Qed.

Record builder_rep (b : builder) (seen : Z -> list Z) (ms : Z -> level_state_map) : Prop := {
  br_levels : zlen (b_levels b) = LDB_NUM_LEVELS;
  br_level level : level_ok level -> exists base state, level_files (b_base b) level = Some base /\
    item (b_levels b) level = Some state /\ level_rep base state (seen level) (ms level)
}.

(** The effect on one level leaves the others alone. *)
Lemma level_update b seen ms levels' level state' seen' m' :
  builder_rep b seen ms -> level_ok level ->
  zlen levels' = LDB_NUM_LEVELS -> (forall l, item levels' l = if l =? level then Some state' else item (b_levels b) l) ->
  (forall base, level_files (b_base b) level = Some base -> level_rep base state' (seen' level) (m' level)) ->
  (forall l, l <> level -> seen l ≡ₚ seen' l /\ ms l = m' l) -> builder_rep (Builder (b_base b) levels') seen' m'.
Proof.
  intros Hr Hl Hz Hi Hrep Hother. split; cbn [b_levels b_base]; [done|]. intros l Hl'.
  destruct (br_level b seen ms Hr l Hl') as (base & state & Eb & Es & R). rewrite Hi. destruct (Z.eqb_spec l level) as [->|Hne].
  - exists base, state'. split; [done|]. split; [done|]. by apply Hrep.
  - exists base, state. split; [done|]. split; [done|]. destruct (Hother l Hne) as [P <-]. by eapply level_rep_perm.
Qed.

Lemma deletions_ok ds : forall b seen ms, builder_rep b seen ms -> Forall (fun d => level_ok (fe_level d)) ds ->
  exists levels', fold_opt apply_deletion ds (b_levels b) = Some levels' /\
    builder_rep (Builder (b_base b) levels') seen (fun l => fold_left (delete_entry l) ds (ms l)).
Proof.
  induction ds as [|d ds IH]; intros b seen ms Hr Hds.
  - exists (b_levels b). split; [done|]. by destruct b.
  - apply Forall_cons_iff in Hds as [Hd Hds].
    destruct (br_level b seen ms Hr (fe_level d) Hd) as (base & state & Eb & Es & R).
    destruct (set_level_ok (b_levels b) (fe_level d) (LevelState ({[fe_number d]} ∪ ls_deleted_files state) (ls_added_files state)))
      as (levels' & Eset & Hz & Hi); [by rewrite (br_levels b seen ms Hr)|].
    assert (apply_deletion (b_levels b) d = Some levels') as E1 by (unfold apply_deletion; by rewrite Es).
    cbn [fold_opt]. rewrite E1. cbn [mbind option_bind].
    destruct (IH (Builder (b_base b) levels') seen (fun l => delete_entry l (ms l) d)) as (levels'' & E & Hr'); [|done|by exists levels''].
    apply (level_update b seen ms levels' (fe_level d) _ seen (fun l => delete_entry l (ms l) d) Hr Hd
      ltac:(by rewrite Hz, (br_levels b seen ms Hr)) Hi).
    + intros base' Eb'. rewrite Eb in Eb'. injection Eb' as <-. unfold delete_entry. rewrite Z.eqb_refl. by apply deletion_rep.
    + intros l Hl. split; [done|]. unfold delete_entry. by rewrite (proj2 (Z.eqb_neq _ _)) by congruence.
Qed.

Lemma additions_ok entries : forall heap b seen ms, builder_rep b seen ms ->
  Forall (fun a => level_ok (me_level a) /\ meta_wf (me_meta a)) entries ->
  (forall l, level_ok l -> NoDup (added_numbers l entries ++ seen l)) ->
  exists heap' levels', fold_opt (fun hl entry => apply_addition uc hl.1 hl.2 entry) entries (heap, b_levels b) = Some (heap', levels') /\
    builder_rep (Builder (b_base b) levels') (fun l => added_numbers l entries ++ seen l) (fun l => fold_left (insert_entry l) entries (ms l)).
Proof.
  induction entries as [|a entries IH]; intros heap b seen ms Hr Has Hnd.
  - exists heap, (b_levels b). split; [done|]. by destruct b.
  - apply Forall_cons_iff in Has as [[Ha Wa] Has].
    destruct (br_level b seen ms Hr (me_level a) Ha) as (base & state & Eb & Es & R).
    set (seeks := initial_seeks (fm_file_size (me_meta a))).
    set (f := FilePtr (fh_next heap) (Filemeta 1 seeks (fm_number (me_meta a)) (fm_file_size (me_meta a)) (fm_smallest (me_meta a)) (fm_largest (me_meta a)))).
    set (heap1 := FileHeap (S (fh_next heap)) (<[fh_next heap := seeks]> (fh_seeks heap))).
    destruct (set_level_ok (b_levels b) (me_level a)
      (LevelState (ls_deleted_files state ∖ {[f_number f]}) (rb_set_put (by_smallest_key uc) (ls_added_files state) f).1))
      as (levels' & Eset & Hz & Hi); [by rewrite (br_levels b seen ms Hr)|].
    assert (apply_addition uc heap (b_levels b) a = Some (heap1, levels')) as E1.
    { unfold apply_addition. rewrite Es. cbn [mbind option_bind]. unfold ldb_filemeta_clone, ldb_filemeta_copy.
      cbn [fm_number fm_file_size fm_smallest fm_largest]. fold seeks. fold f. by rewrite Eset. }
    cbn [fold_opt fst snd]. rewrite E1. cbn [mbind option_bind].
    assert (forall l, added_numbers l (a :: entries) = if me_level a =? l then fm_number (me_meta a) :: added_numbers l entries else added_numbers l entries) as Ecs.
    { intros l. unfold added_numbers. cbn [List.filter]. by destruct (me_level a =? l). }
    set (seen1 := fun l => (if me_level a =? l then [fm_number (me_meta a)] else []) ++ seen l).
    assert (forall l, added_numbers l entries ++ seen1 l ≡ₚ added_numbers l (a :: entries) ++ seen l) as Pseen.
    { intros l. rewrite Ecs. unfold seen1. destruct (me_level a =? l); [|done]. cbn [app]. by rewrite <- Permutation_middle. }
    destruct (IH heap1 (Builder (b_base b) levels') seen1 (fun l => insert_entry l (ms l) a)) as (heap'' & levels'' & E & Hr').
    + apply (level_update b seen ms levels' (me_level a) _ seen1 (fun l => insert_entry l (ms l) a) Hr Ha
        ltac:(by rewrite Hz, (br_levels b seen ms Hr)) Hi).
      * intros base' Eb'. rewrite Eb in Eb'. injection Eb' as <-. unfold insert_entry, seen1. rewrite Z.eqb_refl.
        apply (addition_rep base state (seen (me_level a)) (ms (me_level a)) f R); [destruct Wa; by split|].
        specialize (Hnd (me_level a) Ha). rewrite Ecs, Z.eqb_refl in Hnd. cbn [app] in Hnd. apply list.NoDup_cons in Hnd as [Hnd _].
        intros Hin. apply Hnd. rewrite elem_of_app. by right.
      * intros l Hl. unfold seen1, insert_entry. by rewrite (proj2 (Z.eqb_neq _ _)) by congruence.
    + done.
    + intros l Hl. rewrite Pseen. by apply Hnd.
    + exists heap'', levels''. split; [exact E|]. destruct Hr' as [Hz' Hl']. split; [done|]. intros l Hl.
      destruct (Hl' l Hl) as (base' & state' & E3 & E4 & R'). exists base', state'. split; [done|]. split; [done|].
      by eapply level_rep_perm; [apply Pseen|].
Qed.

Lemma pointers_ok entries : forall pointers, zlen pointers = LDB_NUM_LEVELS -> Forall (fun p => level_ok (ike_level p)) entries ->
  exists pointers', fold_opt apply_pointer entries pointers = Some pointers' /\ zlen pointers' = LDB_NUM_LEVELS.
Proof.
  induction entries as [|p entries IH]; intros pointers Hz Hp; [by exists pointers|].
  apply Forall_cons_iff in Hp as [Hp Hps].
  destruct (set_level_ok pointers (ike_level p) (ike_key p)) as (pointers' & Eset & Hz' & _); [by rewrite Hz|].
  cbn [fold_opt]. change (apply_pointer pointers p) with (set_level pointers (ike_level p) (ike_key p)). rewrite Eset.
  cbn [mbind option_bind]. apply IH; [by rewrite Hz'|done].
Qed.

(** Edits whose levels exist and whose files have ranges. *)
Record edit_ok (e : edit) : Prop := {
  eo_pointers : Forall (fun p => level_ok (ike_level p)) (ed_compact_pointers e);
  eo_deleted : Forall (fun d => level_ok (fe_level d)) (ed_deleted_files e);
  eo_new : Forall (fun a => level_ok (me_level a) /\ meta_wf (me_meta a)) (ed_new_files e)
}.

Lemma builder_apply_ok heap pointers b seen ms e : builder_rep b seen ms -> zlen pointers = LDB_NUM_LEVELS -> edit_ok e ->
  (forall l, level_ok l -> NoDup (added_numbers l (ed_new_files e) ++ seen l)) ->
  exists heap' pointers' b', builder_apply uc heap pointers b e = Some (heap', pointers', b') /\
    zlen pointers' = LDB_NUM_LEVELS /\ b_base b' = b_base b /\
    builder_rep b' (fun l => added_numbers l (ed_new_files e) ++ seen l) (fun l => apply_edit l (ms l) e).
Proof.
  intros Hr Hz [Hp Hd Ha] Hnd. unfold builder_apply.
  destruct (pointers_ok (ed_compact_pointers e) pointers Hz Hp) as (pointers' & -> & Hz'). cbn [mbind option_bind].
  destruct (deletions_ok (ed_deleted_files e) b seen ms Hr Hd) as (levels1 & -> & Hr1). cbn [mbind option_bind].
  destruct (additions_ok (ed_new_files e) heap (Builder (b_base b) levels1) seen _ Hr1 Ha Hnd) as (heap' & levels2 & E & Hr2).
  cbn [b_levels b_base] in E, Hr2. rewrite E. cbn [mbind option_bind]. eexists _, _, _. split; [reflexivity|]. by split.
Qed.

(** A sequence of edits. *)
Definition builder_apply_all (heap : fileheap) (pointers : list bytes) (b : builder) (es : list edit) : option (fileheap * list bytes * builder) :=
  fold_opt (fun s e => builder_apply uc s.1.1 s.1.2 s.2 e) es (heap, pointers, b).

Definition apply_edits (level : Z) (m : level_state_map) (es : list edit) : level_state_map := fold_left (apply_edit level) es m.

Definition added_by (level : Z) (es : list edit) : list Z := concat (map (fun e => added_numbers level (ed_new_files e)) es).

Lemma builder_apply_all_ok es : forall heap pointers b seen ms, builder_rep b seen ms -> zlen pointers = LDB_NUM_LEVELS ->
  Forall edit_ok es -> (forall l, level_ok l -> NoDup (added_by l es ++ seen l)) ->
  exists heap' pointers' b' seen', builder_apply_all heap pointers b es = Some (heap', pointers', b') /\
    zlen pointers' = LDB_NUM_LEVELS /\ b_base b' = b_base b /\ (forall l, level_ok l -> NoDup (seen' l)) /\
    builder_rep b' seen' (fun l => apply_edits l (ms l) es).
Proof.
  induction es as [|e es IH]; intros heap pointers b seen ms Hr Hz Hes Hnd.
  - exists heap, pointers, b, seen. by repeat split; try done; apply Hr.
  - apply Forall_cons_iff in Hes as [He Hes]. unfold builder_apply_all. cbn [fold_opt fst snd].
    assert (forall l, added_by l (e :: es) ++ seen l ≡ₚ added_by l es ++ added_numbers l (ed_new_files e) ++ seen l) as P.
    { intros l. unfold added_by. cbn [map concat]. rewrite <- app_assoc. apply Permutation_app_swap_app. }
    destruct (builder_apply_ok heap pointers b seen ms e Hr Hz He) as (heap1 & pointers1 & b1 & -> & Hz1 & Eb1 & Hr1).
    { intros l Hl. specialize (Hnd l Hl). rewrite P in Hnd. by apply list.NoDup_app in Hnd as (_ & _ & ?). }
    cbn [mbind option_bind]. destruct (IH heap1 pointers1 b1 _ _ Hr1 Hz1 Hes) as (heap' & pointers' & b' & seen' & E & H1 & H2 & H3).
    { intros l Hl. rewrite <- P. by apply Hnd. }
    exists heap', pointers', b', seen'. split; [exact E|]. split; [done|]. split; [by rewrite H2|]. done.
Qed.

(** *** The result *)

(** The invariant of a level, kept by every version. *)
Record level_inv (level : Z) (files : list fileptr) : Prop := {
  li_wf : Forall (file_wf udom uc) files;
  li_numbers : NoDup (numbers files);
  li_sorted : StronglySorted (key_lt uc) files;
  li_disjoint : 0 < level -> disjoint_sorted uc files
}.

Record levels_inv (ver : ldb_version) : Prop := {
  vi_levels : zlen (ver_files ver) = LDB_NUM_LEVELS;
  vi_level level files : level_files ver level = Some files -> level_inv level files
}.

(** The files of a level as the edits leave it. *)
Definition base_map (ver : ldb_version) (level : Z) : level_state_map := level_map (default [] (level_files ver level)).
Definition base_numbers (ver : ldb_version) (level : Z) : list Z := numbers (default [] (level_files ver level)).

(** Ranges that do not overlap. *)
Definition map_disjoint (m : level_state_map) : Prop :=
  forall n n' i i', m !! n = Some i -> m !! n' = Some i' -> n <> n' ->
    ldb_compare (ldb_ikc_init uc) i.2 i'.1.2 < 0 \/ ldb_compare (ldb_ikc_init uc) i'.2 i.1.2 < 0.

Lemma level_some ver level : zlen (ver_files ver) = LDB_NUM_LEVELS -> level_ok level -> exists files, level_files ver level = Some files.
Proof. intros Hz Hl. apply item_some. by rewrite Hz. Qed.

Lemma level_in ver level files : zlen (ver_files ver) = LDB_NUM_LEVELS -> level_files ver level = Some files -> level_ok level.
Proof.
  intros Hz E. unfold level_files, item in E. destruct (Z.ltb_spec level 0); [done|]. apply lookup_lt_Some in E.
  unfold level_ok. unfold zlen in Hz. lia.
Qed.

Lemma builder_init_ok base : levels_inv base -> builder_rep (builder_init base) (base_numbers base) (base_map base).
Proof.
  intros [Hz Hl]. split; [done|]. intros level Hlev. destruct (level_some base level Hz Hlev) as [files E].
  exists files, (LevelState ∅ []). split; [done|]. destruct (Hl level files E) as [Hw Hn Hs _]. split.
  { cbn [builder_init b_levels]. unfold item. destruct (Z.ltb_spec level 0); [unfold level_ok in Hlev; lia|].
    apply lookup_replicate_2. unfold level_ok in Hlev. lia. }
  split; cbn [ls_added_files]; [constructor|constructor| |].
  - unfold base_numbers. rewrite E, app_nil_r. done.
  - intros n i. unfold base_map. rewrite E, app_nil_r. cbn [default from_option]. rewrite (level_map_lookup files n i Hn). split.
    + intros (f & Hf & H). exists f. split; [|done]. split; [done|]. apply kept_spec. apply not_elem_of_empty.
    + intros (f & (Hf & _) & H). by exists f.
Qed.

(** One level is saved. *)
Lemma save_rep b seen ms level : levels_inv (b_base b) -> builder_rep b seen ms -> level_ok level -> NoDup (seen level) ->
  (0 < level -> map_disjoint (ms level)) ->
  exists files, save_level uc b level [] = Some files /\ level_inv level files /\ level_map files = ms level.
Proof.
  intros Hb Hr Hl Hn Hd. destruct (br_level b seen ms Hr level Hl) as (base & state & Eb & Es & [Hs Hw Hseen Hm]).
  destruct (vi_level _ Hb level base Eb) as [Wb Nb Sb _]. rewrite <- Hseen in Hn.
  destruct (survivors_ok udom uc state base) as (Wv & Nv & Sv); [by apply Forall_app|done..|].
  assert (forall n i, ms level !! n = Some i <-> exists f, f ∈ survivors uc state base /\ f_number f = n /\ meta_info (fp_meta f) = i) as Em.
  { intros n i. rewrite Hm. setoid_rewrite survivors_elem. done. }
  assert (0 < level -> disjoint_sorted uc (survivors uc state base)) as Hdis.
  { intros Hpos. apply (sorted_disjoint udom uc); try done. intros f g Hf Hg Hne.
    apply (Hd Hpos (f_number f) (f_number g) (meta_info (fp_meta f)) (meta_info (fp_meta g))); [| |done]; apply Em; [by exists f|by exists g]. }
  exists (survivors uc state base). split; [by apply save_level_ok|]. split; [by split|]. symmetry. by apply level_map_eq.
Qed.

Lemma save_levels_ok b seen ms n : forall level, levels_inv (b_base b) -> builder_rep b seen ms ->
  (forall l, level_ok l -> NoDup (seen l)) -> (forall l, 0 < l -> level_ok l -> map_disjoint (ms l)) ->
  0 <= level -> level + Z.of_nat n <= LDB_NUM_LEVELS ->
  exists files, save_levels uc b level (replicate n []) = Some files /\ length files = n /\
    forall i fs, files !! i = Some fs -> level_inv (level + Z.of_nat i) fs /\ level_map fs = ms (level + Z.of_nat i).
Proof.
  induction n as [|n IH]; intros level Hb Hr Hn Hd H0 Hz; [by exists []|]. cbn [replicate save_levels].
  assert (level_ok level) as Hl by (unfold level_ok; lia).
  destruct (save_rep b seen ms level Hb Hr Hl (Hn level Hl)) as (fs & -> & Hinv & Hmap); [intros ?; by apply Hd|].
  cbn [mbind option_bind]. destruct (IH (level + 1) Hb Hr Hn Hd) as (files & -> & Hlen & Hall); [lia..|]. cbn [mbind option_bind].
  exists (fs :: files). split; [done|]. split; [cbn; lia|]. intros [|i] gs E; cbn in E.
  - injection E as <-. by rewrite Z.add_0_r.
  - destruct (Hall i gs E) as [? ?]. by replace (level + Z.of_nat (S i)) with (level + 1 + Z.of_nat i) by lia.
Qed.

Lemma saved_ok files ms v : ver_files v = files -> zlen files = LDB_NUM_LEVELS ->
  (forall level fs, item files level = Some fs -> level_inv level fs /\ level_map fs = ms level) ->
  levels_inv v /\ forall level, level_ok level -> base_map v level = ms level.
Proof.
  intros <- Hz Hall. split; [split; [done|]; intros level fs E; by apply Hall|]. intros level Hl.
  destruct (level_some v level Hz Hl) as [fs E]. unfold base_map. rewrite E. by apply Hall.
Qed.

Lemma builder_save_ok b seen ms : levels_inv (b_base b) -> builder_rep b seen ms ->
  (forall l, level_ok l -> NoDup (seen l)) -> (forall l, 0 < l -> level_ok l -> map_disjoint (ms l)) ->
  exists v, builder_save_to uc b ldb_version_init = Some v /\ levels_inv v /\ forall level, level_ok level -> base_map v level = ms level.
Proof.
  intros Hb Hr Hn Hd. unfold builder_save_to. cbn [ldb_version_init ver_files].
  destruct (save_levels_ok b seen ms (Z.to_nat LDB_NUM_LEVELS) 0 Hb Hr Hn Hd) as (files & -> & Hlen & Hall); [lia|done|].
  cbn [mbind option_bind]. eexists. split; [reflexivity|]. apply (saved_ok files ms); [done|unfold zlen; by rewrite Hlen|].
  intros level fs E. unfold item in E. destruct (Z.ltb_spec level 0); [done|].
  apply Hall in E. by rewrite Z.add_0_l, Z2Nat.id in E by done.
Qed.

(** C21: The version a builder saves is the base version with the edits applied
    one after the other: when the files the edits add have ranges and numbers
    new to their levels, and the files that remain above level 0 do not overlap,
    neither an assertion nor the final check fails, every level is sorted and
    free of overlaps above level 0, and holds exactly the files that deleting
    and inserting, edit by edit, leaves. *)
Theorem builder_correct base es heap pointers :
  levels_inv base -> zlen pointers = LDB_NUM_LEVELS -> Forall edit_ok es ->
  (forall l, level_ok l -> NoDup (added_by l es ++ base_numbers base l)) ->
  (forall l, 0 < l -> level_ok l -> map_disjoint (apply_edits l (base_map base l) es)) ->
  exists heap' pointers' b v,
    builder_apply_all heap pointers (builder_init base) es = Some (heap', pointers', b) /\ zlen pointers' = LDB_NUM_LEVELS /\
    builder_save_to uc b ldb_version_init = Some v /\ levels_inv v /\
    forall l, level_ok l -> base_map v l = apply_edits l (base_map base l) es.
Proof.
  intros Hb Hz Hes Hn Hd.
  destruct (builder_apply_all_ok es heap pointers (builder_init base) _ _ (builder_init_ok base Hb) Hz Hes Hn)
    as (heap' & pointers' & b & seen' & E & Hz' & Ebase & Hn' & Hr).
  destruct (builder_save_ok b seen' (fun l => apply_edits l (base_map base l) es)) as (v & Es & Hv & Hm); [by rewrite Ebase|exact Hr|done|done|].
  exists heap', pointers', b, v. done.
Qed.
End Apply.

(** *** A concrete sequence *)

(** [map_disjoint], decided. *)
Definition map_disjoint_dec (uc : comparator) (m : level_state_map) : bool :=
  let apart (i i' : file_info) := ldb_compare (ldb_ikc_init uc) i.2 i'.1.2 <? 0 in
  forallb (fun x => forallb (fun y => (x.1 =? y.1) || apart x.2 y.2 || apart y.2 x.2) (map_to_list m)) (map_to_list m).

Lemma map_disjoint_dec_ok uc m : map_disjoint_dec uc m = true -> map_disjoint uc m.
Proof.
  unfold map_disjoint_dec. rewrite forallb_forall. intros H n n' i i' Hi Hi' Hne.
  apply elem_of_map_to_list, list_elem_of_In in Hi. apply elem_of_map_to_list, list_elem_of_In in Hi'.
  specialize (H _ Hi). rewrite forallb_forall in H. specialize (H _ Hi'). cbn [fst snd] in H.
  rewrite (proj2 (Z.eqb_neq n n')) in H by done. cbn [orb] in H. apply orb_true_iff in H as [H|H]; [left|right]; by apply Z.ltb_lt.
Qed.

Lemma level_cases (P : Z -> Prop) : P 0 -> P 1 -> P 2 -> P 3 -> P 4 -> P 5 -> P 6 -> forall l, level_ok l -> P l.
Proof.
  intros ??????? l Hl. assert (l = 0 \/ l = 1 \/ l = 2 \/ l = 3 \/ l = 4 \/ l = 5 \/ l = 6) as E by (unfold level_ok, LDB_NUM_LEVELS in Hl; lia).
  destruct E as [->|[->|[->|[->|[->|[->| ->]]]]]]; assumption.
Qed.

Definition test_base : ldb_version :=
  Version 1 ([[]; test_level] ++ replicate 5 []) None (-1) (ver_compaction_score ldb_version_init) (-1).

(** One table moves down a level, another is rewritten. *)
Definition test_edits : list edit :=
  [ldb_edit_add_file (ldb_edit_remove_file ldb_edit_init 1 12) 2 12 200 (vkey Byte.x63 5) (vkey Byte.x64 7);
   ldb_edit_set_compact_pointer
     (ldb_edit_add_file (ldb_edit_remove_file ldb_edit_init 1 15) 1 21 250 (vkey Byte.x65 2) (vkey Byte.x67 4)) 1 (vkey Byte.x67 4)].

Lemma test_base_inv : levels_inv (fun _ => True) bytewise_comparator test_base.
Proof.
  split; [done|]. intros level files E. unfold level_files, item in E. destruct (Z.ltb_spec level 0); [done|].
  assert (files = [] \/ files = test_level) as [-> | ->].
  { apply list_elem_of_lookup_2 in E. cbn [test_base ver_files] in E. rewrite elem_of_app, !elem_of_cons, elem_of_nil in E.
    destruct E as [[?|[?|[]]]|E]; [auto..|]. left. by apply elem_of_replicate in E as [? _]. }
  - split; [by constructor..|]. intros _. constructor.
  - split; [exact test_level_wf|apply NoDup_ListNoDup; repeat constructor; cbn; intuition (by try lia)| |intros _; exact test_level_sorted].
    check_sorted.
Qed.

Lemma test_edits_ok : Forall (edit_ok (fun _ => True) bytewise_comparator) test_edits.
Proof.
  assert (forall number size smallest largest, smallest = vkey Byte.x63 5 /\ largest = vkey Byte.x64 7 \/
    smallest = vkey Byte.x65 2 /\ largest = vkey Byte.x67 4 ->
    meta_wf (fun _ => True) bytewise_comparator (Filemeta 0 0 number size smallest largest)) as Hw.
  { intros number size smallest largest [[-> ->]|[-> ->]]; (split; [check_ikey|check_ikey|by vm_compute|by vm_compute]). }
  apply List.Forall_cons; [|apply List.Forall_cons; [|apply List.Forall_nil]]; split; cbn -[vkey meta_wf];
    repeat first [apply List.Forall_nil | apply List.Forall_cons]; try done; (split; [done|apply Hw; auto]).
Qed.

Lemma builder_correct_witness :
  let result :=
    '(_, pointers, b) ← builder_apply_all bytewise_comparator (FileHeap 4 ∅) (replicate 7 []) (builder_init test_base) test_edits;
    v ← builder_save_to bytewise_comparator b ldb_version_init; Some (pointers, map (fun files => numbers files) (ver_files v)) in
  result = Some ([[]; vkey Byte.x67 4; []; []; []; []; []], [[]; [11; 21]; [12]; []; []; []; []]) /\
  exists heap' pointers' b v,
    builder_apply_all bytewise_comparator (FileHeap 4 ∅) (replicate 7 []) (builder_init test_base) test_edits = Some (heap', pointers', b) /\
    zlen pointers' = LDB_NUM_LEVELS /\ builder_save_to bytewise_comparator b ldb_version_init = Some v /\
    levels_inv (fun _ => True) bytewise_comparator v /\
    forall l, level_ok l -> base_map v l = apply_edits l (base_map test_base l) test_edits.
Proof.
  intros result. split; [by vm_compute|].
  apply (builder_correct (fun _ => True) bytewise_comparator test_base test_edits (FileHeap 4 ∅) (replicate 7 []) test_base_inv); [done| | |].
  - exact test_edits_ok.
  - apply level_cases; apply NoDup_ListNoDup; vm_compute; repeat constructor; cbn; intuition lia.
  - intros l _. revert l. apply level_cases; apply map_disjoint_dec_ok; by vm_compute.
Defined.
