(* ===== verification/Env.v ===== *)
(** * The environment

    The file system as the engine sees it ([src/engine/src/util/env.h]), as a
    record of operations with a class that states what the engine relies on;
    what [src/engine/src/util/env.c] and [src/engine/src/filename.c] build on
    it; an environment that keeps a journal of the states it passes through, for
    reasoning about crashes; and a simple environment that keeps the contract. *)

From stdpp Require Import strings sorting gmap.
From S2P Require Import Prelude Status Strutil File LogWriter.
#[local] Open Scope Z_scope.

Definition LDB_PATH_MAX : Z := 1024.

#[export] Instance byte_countable : Countable byte.
Proof. apply (inj_countable' Byte.to_nat (fun n => default Byte.x00 (Byte.of_nat n))). intros x. by rewrite Byte.of_to_nat. Defined.

(** ** The interface

    [E] is the state of the environment, [W] an open writable file.  Opening
    gives a status ([inl], never [LDB_OK]) or the file.  A file opened for
    sequential reading is the bytes that reading delivers and the status of the
    read after them. *)
Record env_ops (E W : Type) := EnvOps {
  env_truncfile_create : E -> bytes -> (Z + W) * E;
  env_appendfile_create : E -> bytes -> (Z + W) * E;
  env_append : E -> W -> bytes -> Z * E;
  env_flush : E -> W -> Z * E;
  env_sync : E -> W -> Z * E;
  env_close : E -> W -> Z * E;
  env_destroy : E -> W -> E;
  env_seqfile_create : E -> bytes -> Z + bytes * Z;
  env_file_size : E -> bytes -> Z + Z;
  env_rename_file : E -> bytes -> bytes -> Z * E;
  env_remove_file : E -> bytes -> Z * E
}.
Arguments env_truncfile_create {E W}.
Arguments env_appendfile_create {E W}.
Arguments env_append {E W}.
Arguments env_flush {E W}.
Arguments env_sync {E W}.
Arguments env_close {E W}.
Arguments env_destroy {E W}.
Arguments env_seqfile_create {E W}.
Arguments env_file_size {E W}.
Arguments env_rename_file {E W}.
Arguments env_remove_file {E W}.
Arguments EnvOps {E W}.

(** ** What is built on it *)

Section Operations.
Context {E W : Type} (ops : env_ops E W).

Definition ldb_write_file (e : E) (fname data : bytes) (should_sync : bool) : Z * E :=
  match env_truncfile_create ops e fname with
  | (inl rc, e) => (rc, e)
  | (inr file, e) =>
    let '(rc, e) := env_append ops e file data in
    let '(rc, e) := if (rc =? LDB_OK) && should_sync then env_sync ops e file else (rc, e) in
    let '(rc, e) := if rc =? LDB_OK then env_close ops e file else (rc, e) in
    let e := env_destroy ops e file in
    if negb (rc =? LDB_OK) then (rc, (env_remove_file ops e fname).2) else (rc, e)
  end.

(** The status, and what was read into the buffer ([inl]: nothing opened). *)
Definition ldb_read_file (e : E) (fname : bytes) : Z * bytes :=
  match env_seqfile_create ops e fname with
  | inl rc => (rc, [])
  | inr (data, rc) => (rc, data)
  end.

(** [None] if the assertion fails. *)
Definition ldb_set_current_file (e : E) (dbname : bytes) (desc_number : Z) : option (Z * E) :=
  if negb (0 <? desc_number) then None
  else
    match ldb_temp_filename LDB_PATH_MAX dbname desc_number, ldb_current_filename LDB_PATH_MAX dbname with
    | Some tmp, Some cur =>
      let id := ldb_encode_int desc_number 6 in
      let man := cstr "MANIFEST-" ++ id ++ [z2b 10] in
      let '(rc, e) := ldb_write_file e tmp man true in
      let '(rc, e) := if rc =? LDB_OK then env_rename_file ops e tmp cur else (rc, e) in
      Some (rc, if negb (rc =? LDB_OK) then (env_remove_file ops e tmp).2 else e)
    | _, _ => Some (LDB_INVALID, e)
    end.

(** The environment with an open file, as a file for the log writer. *)
Definition env_wfile : wfile_ops (E * W) :=
  WfileOps
    (fun f xs => let '(rc, e) := env_append ops f.1 f.2 xs in (rc, (e, f.2)))
    (fun f => let '(rc, e) := env_flush ops f.1 f.2 in (rc, (e, f.2))).
End Operations.

(** ** The contract *)

(** A file: its contents and how many bytes are known to be on the disk. *)
Record vfile := VFile { vf_data : bytes; vf_synced : Z }.

#[global] Instance vfile_eq_dec : EqDecision vfile.
Proof. solve_decision. Defined.

Abbreviation fsview := (gmap bytes vfile).

(** Without faults, the operations change the files as follows, provided every
    state passed through is [safe].  [names e w p]: the open file [w] is the
    file now called [p]. *)
Class EnvLaws {E W} (ops : env_ops E W) (rep : E -> fsview -> Prop) (names : E -> W -> bytes -> Prop)
    (safe : fsview -> Prop) : Prop := {
  el_truncfile e fs p : rep e fs -> safe (<[p := VFile [] 0]> fs) ->
    exists w e', env_truncfile_create ops e p = (inr w, e') /\ rep e' (<[p := VFile [] 0]> fs) /\ names e' w p /\
      forall w' q, names e w' q -> w' <> w /\ names e' w' q;
  el_appendfile e fs p f : rep e fs -> fs !! p = Some f -> safe fs ->
    exists w e', env_appendfile_create ops e p = (inr w, e') /\ rep e' fs /\ names e' w p /\
      forall w' q, names e w' q -> w' <> w /\ names e' w' q;
  el_append e fs w p f xs : rep e fs -> names e w p -> fs !! p = Some f -> zlen (vf_data f) + zlen xs < 2 ^ 64 ->
    safe (<[p := VFile (vf_data f ++ xs) (vf_synced f)]> fs) ->
    exists e', env_append ops e w xs = (LDB_OK, e') /\ rep e' (<[p := VFile (vf_data f ++ xs) (vf_synced f)]> fs) /\
      forall w' q, names e w' q -> names e' w' q;
  el_flush e fs w p : rep e fs -> names e w p -> safe fs ->
    exists e', env_flush ops e w = (LDB_OK, e') /\ rep e' fs /\ forall w' q, names e w' q -> names e' w' q;
  el_sync e fs w p f : rep e fs -> names e w p -> fs !! p = Some f ->
    safe (<[p := VFile (vf_data f) (zlen (vf_data f))]> fs) ->
    exists e', env_sync ops e w = (LDB_OK, e') /\ rep e' (<[p := VFile (vf_data f) (zlen (vf_data f))]> fs) /\
      forall w' q, names e w' q -> names e' w' q;
  el_close e fs w p : rep e fs -> names e w p -> safe fs ->
    exists e', env_close ops e w = (LDB_OK, e') /\ rep e' fs /\ forall w' q, names e w' q -> names e' w' q;
  el_destroy e fs w p : rep e fs -> names e w p -> safe fs ->
    rep (env_destroy ops e w) fs /\ forall w' q, names e w' q -> w' <> w -> names (env_destroy ops e w) w' q;
  el_seqfile e fs p : rep e fs ->
    env_seqfile_create ops e p = match fs !! p with Some f => inr (vf_data f, LDB_OK) | None => inl LDB_ENOENT end;
  el_file_size e fs p f : rep e fs -> fs !! p = Some f -> env_file_size ops e p = inr (zlen (vf_data f));
  el_rename e fs a b f : rep e fs -> a <> b -> fs !! a = Some f -> safe (<[b := f]> (delete a fs)) ->
    exists e', env_rename_file ops e a b = (LDB_OK, e') /\ rep e' (<[b := f]> (delete a fs)) /\
      forall w q, names e w q -> q <> a -> q <> b -> names e' w q;
  el_remove e fs p : rep e fs -> safe (delete p fs) ->
    exists rc e', env_remove_file ops e p = (rc, e') /\ rep e' (delete p fs) /\
      forall w q, names e w q -> q <> p -> names e' w q
}.

Section Lemmas.
Context {E W : Type} (ops : env_ops E W) (rep : E -> fsview -> Prop) (names : E -> W -> bytes -> Prop) (safe : fsview -> Prop).
Context `{!EnvLaws ops rep names safe}.

Lemma write_file_ok e fs p data : rep e fs -> zlen data < 2 ^ 64 ->
  (forall f, f ∈ [VFile [] 0; VFile data 0; VFile data (zlen data)] -> safe (<[p := f]> fs)) ->
  exists e', ldb_write_file ops e p data true = (LDB_OK, e') /\ rep e' (<[p := VFile data (zlen data)]> fs) /\
    forall w q, names e w q -> names e' w q.
Proof.
  intros R Hz Hs. unfold ldb_write_file.
  destruct (el_truncfile e fs p R) as (w & e1 & -> & R1 & N1 & K1); [apply Hs; clear; set_solver|].
  destruct (el_append e1 _ w p (VFile [] 0) data R1 N1 (lookup_insert_eq _ _ _)) as (e2 & -> & R2 & K2);
    [done|rewrite insert_insert_eq; apply Hs; clear; set_solver|]. rewrite insert_insert_eq in R2. cbn [vf_data vf_synced app] in R2.
  change (LDB_OK =? LDB_OK) with true. cbn [andb].
  destruct (el_sync e2 _ w p (VFile data 0) R2 (K2 _ _ N1) (lookup_insert_eq _ _ _)) as (e3 & -> & R3 & K3);
    [rewrite insert_insert_eq; apply Hs; clear; set_solver|]. rewrite insert_insert_eq in R3. cbn [vf_data] in R3.
  change (LDB_OK =? LDB_OK) with true. cbv iota.
  destruct (el_close e3 _ w p R3 (K3 _ _ (K2 _ _ N1))) as (e4 & -> & R4 & K4); [apply Hs; clear; set_solver|].
  destruct (el_destroy e4 _ w p R4 (K4 _ _ (K3 _ _ (K2 _ _ N1)))) as [R5 K5]; [apply Hs; clear; set_solver|].
  change (LDB_OK =? LDB_OK) with true. cbn [negb]. eexists. split; [reflexivity|]. split; [exact R5|].
  intros w' q Hq. destruct (K1 w' q Hq) as [Hne Hq']. auto.
Qed.

(** The contents of [CURRENT] for a manifest. *)
Definition current_contents (number : Z) : bytes := cstr "MANIFEST-" ++ ldb_encode_int number 6 ++ [z2b 10].

Lemma set_current_ok e fs dbname number tmp cur : rep e fs -> 0 < number -> zlen (current_contents number) < 2 ^ 64 ->
  ldb_temp_filename LDB_PATH_MAX dbname number = Some tmp -> ldb_current_filename LDB_PATH_MAX dbname = Some cur -> tmp <> cur ->
  (forall f, safe (<[tmp := f]> fs)) ->
  safe (<[cur := VFile (current_contents number) (zlen (current_contents number))]> (delete tmp fs)) ->
  exists e', ldb_set_current_file ops e dbname number = Some (LDB_OK, e') /\
    rep e' (<[cur := VFile (current_contents number) (zlen (current_contents number))]> (delete tmp fs)) /\
    forall w q, names e w q -> q <> tmp -> q <> cur -> names e' w q.
Proof.
  intros R Hn Hz Et Ec Hne Hs Hsafe. unfold ldb_set_current_file. rewrite (proj2 (Z.ltb_lt 0 number)), Et, Ec by done. cbn [negb].
  fold (current_contents number). destruct (write_file_ok e fs tmp (current_contents number) R Hz) as (e1 & -> & R1 & K1); [auto|].
  change (LDB_OK =? LDB_OK) with true. cbv iota.
  destruct (el_rename e1 _ tmp cur _ R1 Hne (lookup_insert_eq _ _ _)) as (e2 & -> & R2 & K2); [rewrite delete_insert_eq; apply Hsafe|].
  rewrite delete_insert_eq in R2. change (LDB_OK =? LDB_OK) with true. cbn [negb].
  exists e2. split; [done|]. split; [exact R2|]. auto.
Qed.

(** Writing a record, with every state on the way safe. *)
Lemma env_add_record_ok e fs w p f o c r m' : rep e fs -> names e w p -> fs !! p = Some f ->
  ldb_writer_add_record mem_file (Writer (vf_data f) o c) r = Some (LDB_OK, m') -> zlen (lw_file m') < 2 ^ 64 ->
  (forall d, vf_data f `prefix_of` d -> d `prefix_of` lw_file m' -> safe (<[p := VFile d (vf_synced f)]> fs)) ->
  exists e', ldb_writer_add_record (env_wfile ops) (Writer (e, w) o c) r =
      Some (LDB_OK, Writer (e', w) (lw_block_offset m') (lw_type_crc m')) /\
    rep e' (<[p := VFile (lw_file m') (vf_synced f)]> fs) /\ forall w' q, names e w' q -> names e' w' q.
Proof.
  intros R Hw Hf Em Hz Hs.
  set (rep' := fun (x : E * W) d => x.2 = w /\ rep x.1 (<[p := VFile d (vf_synced f)]> fs) /\
    (vf_data f `prefix_of` d /\ d `prefix_of` lw_file m') /\ forall w' q, names e w' q -> names x.1 w' q).
  assert (rep' (e, w) (vf_data f)) as R0.
  { split; [done|]. split; [|split; [split; [done|by apply writer_add_record_grows in Em]|done]].
    destruct f. cbn [vf_data vf_synced fst]. by rewrite insert_id. }
  destruct (writer_add_record_within (env_wfile ops) rep' (lw_file m')) with (lw := Writer (e, w) o c) (m := Writer (vf_data f) o c)
    (r := r) (rc := LDB_OK) (m' := m') as ([[e' w'] o' c'] & E1 & (Ew & R' & _ & K) & Eo & Ec); try done.
  - intros [e1 w1] d xs (Ew & R1 & [P1 _] & K1) Hd. cbn [fst snd] in *. subst w1.
    assert (vf_data f `prefix_of` d ++ xs) as P2 by (etrans; [exact P1|by apply prefix_app_r]).
    destruct (el_append e1 _ w p (VFile d (vf_synced f)) xs R1 (K1 _ _ Hw) (lookup_insert_eq _ _ _)) as (e2 & E2 & R2 & K2).
    + cbn [vf_data]. destruct Hd as [tl Ht]. rewrite <- zlen_app. rewrite Ht, zlen_app in Hz. pose proof (zlen_nonneg tl). lia.
    + rewrite insert_insert_eq. cbn [vf_data vf_synced]. by apply Hs.
    + rewrite insert_insert_eq in R2. cbn [vf_data vf_synced] in R2. exists (e2, w). cbn [env_wfile wfile_append fst snd]. rewrite E2.
      split; [done|]. split; [done|]. split; [done|]. split; [done|]. auto.
  - intros [e1 w1] d (Ew & R1 & [P1 P2] & K1). cbn [fst snd] in *. subst w1.
    destruct (el_flush e1 _ w p R1 (K1 _ _ Hw)) as (e2 & E2 & R2 & K2); [by apply Hs|].
    exists (e2, w). cbn [env_wfile wfile_flush fst snd]. rewrite E2. split; [done|]. split; [done|]. split; [done|]. split; [done|]. auto.
  - cbn [lw_file fst snd lw_block_offset lw_type_crc] in *. subst. exists e'. done.
Qed.
End Lemmas.

(** ** Journals

    An environment that remembers every state it has been in since it was
    created, the latest first. *)

Definition journal {E W} (ops : env_ops E W) : env_ops (E * list E) W :=
  let note (e : E) (j : E * list E) := (e, e :: j.2) in
  EnvOps
    (fun j p => let '(r, e) := env_truncfile_create ops j.1 p in (r, note e j))
    (fun j p => let '(r, e) := env_appendfile_create ops j.1 p in (r, note e j))
    (fun j w xs => let '(r, e) := env_append ops j.1 w xs in (r, note e j))
    (fun j w => let '(r, e) := env_flush ops j.1 w in (r, note e j))
    (fun j w => let '(r, e) := env_sync ops j.1 w in (r, note e j))
    (fun j w => let '(r, e) := env_close ops j.1 w in (r, note e j))
    (fun j w => note (env_destroy ops j.1 w) j)
    (fun j p => env_seqfile_create ops j.1 p)
    (fun j p => env_file_size ops j.1 p)
    (fun j a b => let '(r, e) := env_rename_file ops j.1 a b in (r, note e j))
    (fun j p => let '(r, e) := env_remove_file ops j.1 p in (r, note e j)).

(** Every state of the journal is safe. *)
Definition journal_rep {E} (rep : E -> fsview -> Prop) (safe : fsview -> Prop) (j : E * list E) (fs : fsview) : Prop :=
  rep j.1 fs /\ Forall (fun e => exists fs, rep e fs /\ safe fs) j.2.

Definition journal_names {E W} (names : E -> W -> bytes -> Prop) (j : E * list E) : W -> bytes -> Prop := names j.1.

#[export] Instance journal_laws {E W} (ops : env_ops E W) rep names safe :
  EnvLaws ops rep names (fun _ => True) -> EnvLaws (journal ops) (journal_rep rep safe) (journal_names names) safe.
Proof.
  intros L.
  assert (forall (e' : E) (hist : list E) fs, rep e' fs -> safe fs -> Forall (fun e => exists fs, rep e fs /\ safe fs) hist ->
    journal_rep rep safe (e', e' :: hist) fs) as Note.
  { intros e' hist fs R S H. split; [done|]. constructor; [by exists fs|done]. }
  split; unfold journal_names; intros [e hist]; cbn [journal env_truncfile_create env_appendfile_create env_append env_flush env_sync
    env_close env_destroy env_seqfile_create env_file_size env_rename_file env_remove_file fst snd].
  - intros fs p [R H] S. destruct (el_truncfile e fs p R I) as (w & e' & -> & R' & K). exists w, (e', e' :: hist). eauto.
  - intros fs p f [R H] Hf S. destruct (el_appendfile e fs p f R Hf I) as (w & e' & -> & R' & K). exists w, (e', e' :: hist). eauto.
  - intros fs w p f xs [R H] N Hf Hz S. destruct (el_append e fs w p f xs R N Hf Hz I) as (e' & -> & R' & K). exists (e', e' :: hist). eauto.
  - intros fs w p [R H] N S. destruct (el_flush e fs w p R N I) as (e' & -> & R' & K). exists (e', e' :: hist). eauto.
  - intros fs w p f [R H] N Hf S. destruct (el_sync e fs w p f R N Hf I) as (e' & -> & R' & K). exists (e', e' :: hist). eauto.
  - intros fs w p [R H] N S. destruct (el_close e fs w p R N I) as (e' & -> & R' & K). exists (e', e' :: hist). eauto.
  - intros fs w p [R H] N S. destruct (el_destroy e fs w p R N I) as [R' K]. split; [by apply Note|done].
  - intros fs p [R H]. by apply el_seqfile.
  - intros fs p f [R H] Hf. by apply (el_file_size e fs).
  - intros fs a b f [R H] Hne Hf S. destruct (el_rename e fs a b f R Hne Hf I) as (e' & -> & R' & K). exists (e', e' :: hist). eauto.
  - intros fs p [R H] S. destruct (el_remove e fs p R I) as (rc & e' & -> & R' & K). exists rc, (e', e' :: hist). eauto.
Qed.

(** What a crash may leave: of every file at least what is known to be on the
    disk. *)
Definition crash_of (fs fs' : fsview) : Prop :=
  forall p, match fs !! p, fs' !! p with
  | Some f, Some f' => exists n, vf_synced f <= n /\ vf_data f' = ztake n (vf_data f)
  | None, None => True
  | _, _ => False
  end.

(** ** A simple environment

    Files by name, and the names of the open files. *)

Record disk := Disk { dk_files : fsview; dk_open : list bytes }.

Definition disk_update (e : disk) (w : nat) (g : vfile -> vfile) : Z * disk :=
  match dk_open e !! w with
  | Some p =>
    match dk_files e !! p with
    | Some f => (LDB_OK, Disk (<[p := g f]> (dk_files e)) (dk_open e))
    | None => (LDB_IOERR, e)
    end
  | None => (LDB_EINVAL, e)
  end.

Definition disk_ops : env_ops disk nat :=
  EnvOps
    (fun e p => (inr (length (dk_open e)), Disk (<[p := VFile [] 0]> (dk_files e)) (dk_open e ++ [p])))
    (fun e p => (inr (length (dk_open e)),
      Disk (match dk_files e !! p with Some _ => dk_files e | None => <[p := VFile [] 0]> (dk_files e) end) (dk_open e ++ [p])))
    (fun e w xs => disk_update e w (fun f => VFile (vf_data f ++ xs) (vf_synced f)))
    (fun e w => (LDB_OK, e))
    (fun e w => disk_update e w (fun f => VFile (vf_data f) (zlen (vf_data f))))
    (fun e w => (LDB_OK, e))
    (fun e w => e)
    (fun e p => match dk_files e !! p with Some f => inr (vf_data f, LDB_OK) | None => inl LDB_ENOENT end)
    (fun e p => match dk_files e !! p with Some f => inr (zlen (vf_data f)) | None => inl LDB_ENOENT end)
    (fun e a b => match dk_files e !! a with
                  | Some f => (LDB_OK, Disk (<[b := f]> (delete a (dk_files e))) (dk_open e))
                  | None => (LDB_ENOENT, e) end)
    (fun e p => (match dk_files e !! p with Some _ => LDB_OK | None => LDB_ENOENT end, Disk (delete p (dk_files e)) (dk_open e))).

Definition disk_rep (e : disk) (fs : fsview) : Prop := dk_files e = fs.
Definition disk_names (e : disk) (w : nat) (p : bytes) : Prop := dk_open e !! w = Some p.

#[export] Instance disk_laws : EnvLaws disk_ops disk_rep disk_names (fun _ => True).
Proof.
  assert (forall e p w' q files, disk_names e w' q ->
    w' <> length (dk_open e) /\ disk_names (Disk files (dk_open e ++ [p])) w' q) as Open.
  { intros e p w' q files H. unfold disk_names in *. cbn. pose proof (lookup_lt_Some _ _ _ H). split; [lia|]. by apply lookup_app_l_Some. }
  assert (forall e p files, disk_names (Disk files (dk_open e ++ [p])) (length (dk_open e)) p) as New.
  { intros e p files. unfold disk_names. cbn. rewrite lookup_app_r, Nat.sub_diag by lia. done. }
  assert (forall e w p f g, disk_names e w p -> dk_files e !! p = Some f ->
    disk_update e w g = (LDB_OK, Disk (<[p := g f]> (dk_files e)) (dk_open e))) as Upd.
  { intros e w p f g Hw Hf. unfold disk_update. unfold disk_names in Hw. by rewrite Hw, Hf. }
  unfold disk_rep in *. split; cbn [disk_ops env_truncfile_create env_appendfile_create env_append env_flush env_sync
    env_close env_destroy env_seqfile_create env_file_size env_rename_file env_remove_file].
  - intros e fs p <- _. eexists _, _. split; [reflexivity|]. split; [done|]. split; [apply New|]. intros. by apply Open.
  - intros e fs p f <- Hf _. rewrite Hf. eexists _, _. split; [reflexivity|]. split; [done|]. split; [apply New|]. intros. by apply Open.
  - intros e fs w p f xs <- Hw Hf _ _. rewrite (Upd e w p f _ Hw Hf). eexists. split; [reflexivity|]. done.
  - intros e fs w p <- Hw _. by exists e.
  - intros e fs w p f <- Hw Hf _. rewrite (Upd e w p f _ Hw Hf). eexists. split; [reflexivity|]. done.
  - intros e fs w p <- Hw _. by exists e.
  - done.
  - intros e fs p <-. done.
  - intros e fs p f <- Hf. by rewrite Hf.
  - intros e fs a b f <- Hne Hf _. rewrite Hf. eexists. split; [reflexivity|]. done.
  - intros e fs p <- _. eexists _, _. split; [reflexivity|]. done.
Qed.
