(* ===== verification/VersionSet.v ===== *)
(** * The version set

    Models the version set of [src/engine/src/version_set.c]: the versions that
    are alive and the current one, the counters, the compaction scores, and the
    MANIFEST, the log of edits from which the set is recovered. *)

From stdpp Require Import strings sorting gmap.
From Stdlib Require Import SpecFloat.
From S2P Require Import Prelude Status Strutil Comparator DBFormat LogWriter LogReader Options Vector VersionEdit FileList Version VersionBuilder Env.
#[local] Open Scope Z_scope.

(** ** State *)

(** [ldb_versions_t].  The comparator, the environment and the tables are
    parameters.  [vs_objects] holds the versions by address, [vs_list] is the
    list that starts at [dummy_versions.next], and [vs_heap] the metadata of
    files. *)
Record versions (W : Type) := Versions {
  vs_dbname : bytes;
  vs_options : dbopt;
  vs_next_file_number : Z;
  vs_manifest_file_number : Z;
  vs_last_sequence : Z;
  vs_log_number : Z;
  vs_prev_log_number : Z;
  vs_descriptor_file : option W;
  vs_descriptor_log : option (writer W);
  vs_next_version : nat;
  vs_objects : gmap nat ldb_version;
  vs_list : list nat;
  vs_current : nat;
  vs_heap : fileheap;
  vs_compact_pointer : list bytes
}.
Arguments Versions {W}.
Arguments vs_dbname {W}.
Arguments vs_options {W}.
Arguments vs_next_file_number {W}.
Arguments vs_manifest_file_number {W}.
Arguments vs_last_sequence {W}.
Arguments vs_log_number {W}.
Arguments vs_prev_log_number {W}.
Arguments vs_descriptor_file {W}.
Arguments vs_descriptor_log {W}.
Arguments vs_next_version {W}.
Arguments vs_objects {W}.
Arguments vs_list {W}.
Arguments vs_current {W}.
Arguments vs_heap {W}.
Arguments vs_compact_pointer {W}.

(** Assignments to groups of members. *)
Definition set_next_file {W} (vs : versions W) (n : Z) : versions W :=
  Versions (vs_dbname vs) (vs_options vs) n (vs_manifest_file_number vs) (vs_last_sequence vs) (vs_log_number vs) (vs_prev_log_number vs)
    (vs_descriptor_file vs) (vs_descriptor_log vs) (vs_next_version vs) (vs_objects vs) (vs_list vs) (vs_current vs) (vs_heap vs) (vs_compact_pointer vs).
Definition set_manifest {W} (vs : versions W) (n : Z) : versions W :=
  Versions (vs_dbname vs) (vs_options vs) (vs_next_file_number vs) n (vs_last_sequence vs) (vs_log_number vs) (vs_prev_log_number vs)
    (vs_descriptor_file vs) (vs_descriptor_log vs) (vs_next_version vs) (vs_objects vs) (vs_list vs) (vs_current vs) (vs_heap vs) (vs_compact_pointer vs).
Definition set_last_sequence {W} (vs : versions W) (n : Z) : versions W :=
  Versions (vs_dbname vs) (vs_options vs) (vs_next_file_number vs) (vs_manifest_file_number vs) n (vs_log_number vs) (vs_prev_log_number vs)
    (vs_descriptor_file vs) (vs_descriptor_log vs) (vs_next_version vs) (vs_objects vs) (vs_list vs) (vs_current vs) (vs_heap vs) (vs_compact_pointer vs).
Definition set_logs {W} (vs : versions W) (log prev : Z) : versions W :=
  Versions (vs_dbname vs) (vs_options vs) (vs_next_file_number vs) (vs_manifest_file_number vs) (vs_last_sequence vs) log prev
    (vs_descriptor_file vs) (vs_descriptor_log vs) (vs_next_version vs) (vs_objects vs) (vs_list vs) (vs_current vs) (vs_heap vs) (vs_compact_pointer vs).
Definition set_descriptor {W} (vs : versions W) (file : option W) (log : option (writer W)) : versions W :=
  Versions (vs_dbname vs) (vs_options vs) (vs_next_file_number vs) (vs_manifest_file_number vs) (vs_last_sequence vs) (vs_log_number vs) (vs_prev_log_number vs)
    file log (vs_next_version vs) (vs_objects vs) (vs_list vs) (vs_current vs) (vs_heap vs) (vs_compact_pointer vs).
Definition set_objects {W} (vs : versions W) (next : nat) (objects : gmap nat ldb_version) (vlist : list nat) (current : nat) : versions W :=
  Versions (vs_dbname vs) (vs_options vs) (vs_next_file_number vs) (vs_manifest_file_number vs) (vs_last_sequence vs) (vs_log_number vs) (vs_prev_log_number vs)
    (vs_descriptor_file vs) (vs_descriptor_log vs) next objects vlist current (vs_heap vs) (vs_compact_pointer vs).
Definition set_edited {W} (vs : versions W) (heap : fileheap) (pointers : list bytes) : versions W :=
  Versions (vs_dbname vs) (vs_options vs) (vs_next_file_number vs) (vs_manifest_file_number vs) (vs_last_sequence vs) (vs_log_number vs) (vs_prev_log_number vs)
    (vs_descriptor_file vs) (vs_descriptor_log vs) (vs_next_version vs) (vs_objects vs) (vs_list vs) (vs_current vs) heap pointers.

(** ** Versions and their references *)

Section References.
Context {W : Type}.
Implicit Type vs : versions W.

Definition with_refs (ver : ldb_version) (refs : Z) : ldb_version :=
  Version refs (ver_files ver) (ver_file_to_compact ver) (ver_file_to_compact_level ver) (ver_compaction_score ver) (ver_compaction_level ver).

(** [None]: no such version. *)
Definition ldb_version_ref vs (v : nat) : option (versions W) :=
  ver ← vs_objects vs !! v;
  Some (set_objects vs (vs_next_version vs) (<[v := with_refs ver (ver_refs ver + 1)]> (vs_objects vs)) (vs_list vs) (vs_current vs)).

(** The version leaves the list and is freed. *)
Definition ldb_version_destroy vs (v : nat) : option (versions W) :=
  ver ← vs_objects vs !! v;
  if negb (ver_refs ver =? 0) then None
  else Some (set_objects vs (vs_next_version vs) (delete v (vs_objects vs)) (List.filter (fun w => negb (Nat.eqb w v)) (vs_list vs)) (vs_current vs)).

(** [None] if an assertion fails. *)
Definition ldb_version_unref vs (v : nat) : option (versions W) :=
  ver ← vs_objects vs !! v;
  if negb (1 <=? ver_refs ver) then None
  else
    let refs := ver_refs ver - 1 in
    let vs := set_objects vs (vs_next_version vs) (<[v := with_refs ver refs]> (vs_objects vs)) (vs_list vs) (vs_current vs) in
    if refs =? 0 then ldb_version_destroy vs v else Some vs.

(** A new version with the given contents, at a new address. *)
Definition new_version vs (ver : ldb_version) : nat * versions W :=
  let v := vs_next_version vs in
  (v, set_objects vs (S v) (<[v := ver]> (vs_objects vs)) (vs_list vs) (vs_current vs)).

Definition ldb_versions_append_version vs (v : nat) : option (versions W) :=
  ver ← vs_objects vs !! v;
  if negb (ver_refs ver =? 0) || Nat.eqb v (vs_current vs) then None
  else
    vs ← ldb_version_unref vs (vs_current vs);
    let vs := set_objects vs (vs_next_version vs) (vs_objects vs) (vs_list vs) v in
    vs ← ldb_version_ref vs v;
    Some (set_objects vs (vs_next_version vs) (vs_objects vs) (vs_list vs ++ [v]) (vs_current vs)).

(** The first version is appended when there is no current one. *)
Definition ldb_versions_init (dbname : bytes) (options : dbopt) : versions W :=
  Versions dbname options 2 0 0 0 0 None None 1 {[0%nat := with_refs ldb_version_init 1]} [0%nat] 0
    (FileHeap 0 ∅) (replicate (Z.to_nat LDB_NUM_LEVELS) []).

Definition ldb_versions_create (dbname : bytes) (options : dbopt) : versions W := ldb_versions_init dbname options.

Definition current_version vs : option ldb_version := vs_objects vs !! vs_current vs.

(** ** Numbers *)

Definition ldb_versions_new_file_number vs : Z * versions W :=
  (vs_next_file_number vs, set_next_file vs (u64 (vs_next_file_number vs + 1))).

Definition ldb_versions_reuse_file_number vs (file_number : Z) : versions W :=
  if vs_next_file_number vs =? u64 (file_number + 1) then set_next_file vs file_number else vs.

Definition ldb_versions_mark_file_number vs (number : Z) : versions W :=
  if vs_next_file_number vs <=? number then set_next_file vs (u64 (number + 1)) else vs.

(** ** Compaction scores *)

Definition LDB_L0_COMPACTION_TRIGGER : Z := 4.

(** The double nearest to an integer. *)
Definition double_of (z : Z) : spec_float := binary_normalize 53 1024 z 0 false.

Definition level_score (level : Z) (files : list fileptr) : spec_float :=
  if level =? 0 then SFdiv 53 1024 (double_of (zlen files)) (double_of LDB_L0_COMPACTION_TRIGGER)
  else SFdiv 53 1024 (double_of (total_file_size files)) (max_bytes_for_level level).

Fixpoint finalize_loop (level : Z) (levels : list (list fileptr)) (best_level : Z) (best_score : spec_float) : Z * spec_float :=
  match levels with
  | [] => (best_level, best_score)
  | files :: levels =>
    let score := level_score level files in
    if SFltb best_score score then finalize_loop (level + 1) levels level score
    else finalize_loop (level + 1) levels best_level best_score
  end.

(** All levels but the last. *)
Definition ldb_versions_finalize (v : ldb_version) : ldb_version :=
  let '(best_level, best_score) := finalize_loop 0 (take (Z.to_nat (LDB_NUM_LEVELS - 1)) (ver_files v)) (-1) (double_of (-1)) in
  Version (ver_refs v) (ver_files v) (ver_file_to_compact v) (ver_file_to_compact_level v) best_score best_level.

Definition ldb_versions_needs_compaction vs : option bool :=
  v ← current_version vs;
  Some (SFleb (double_of 1) (ver_compaction_score v) || match ver_file_to_compact v with Some _ => true | None => false end).
End References.

(** ** The MANIFEST *)

Section Manifest.
Context (uc : comparator) {E W : Type} (ops : env_ops E W).
Implicit Type vs : versions W.

(** A record is added to a log whose file is open in the environment. *)
Definition env_add_record (e : E) (log : writer W) (record : bytes) : option (Z * writer W * E) :=
  '(rc, lw) ← ldb_writer_add_record (env_wfile ops) (Writer (e, lw_file log) (lw_block_offset log) (lw_type_crc log)) record;
  Some (rc, Writer (lw_file lw).2 (lw_block_offset lw) (lw_type_crc lw), (lw_file lw).1).

Fixpoint snapshot_pointers (level : Z) (pointers : list bytes) (e : edit) : edit :=
  match pointers with
  | [] => e
  | key :: pointers => snapshot_pointers (level + 1) pointers (if 0 <? zlen key then ldb_edit_set_compact_pointer e level key else e)
  end.

Definition snapshot_files (level : Z) (files : list fileptr) (e : edit) : edit :=
  fold_left (fun e f => ldb_edit_add_file e level (f_number f) (f_file_size f) (f_smallest f) (f_largest f)) files e.

Fixpoint snapshot_levels (level : Z) (levels : list (list fileptr)) (e : edit) : edit :=
  match levels with [] => e | files :: levels => snapshot_levels (level + 1) levels (snapshot_files level files e) end.

(** The edit that [ldb_versions_write_snapshot] writes. *)
Definition snapshot_edit vs (ver : ldb_version) : edit :=
  snapshot_levels 0 (ver_files ver)
    (snapshot_pointers 0 (vs_compact_pointer vs) (ldb_edit_set_comparator_name ldb_edit_init (cmp_name uc))).

Definition ldb_versions_write_snapshot (e : E) vs (log : writer W) : option (Z * writer W * E) :=
  ver ← current_version vs;
  env_add_record e log (ldb_edit_export [] (snapshot_edit vs ver)).

(** The first part of [ldb_versions_apply]: [None] if an assertion fails. *)
Definition complete_edit vs (e : edit) : option edit :=
  e ← match ed_log_number e with
      | Some n => if (vs_log_number vs <=? n) && (n <? vs_next_file_number vs) then Some e else None
      | None => Some (ldb_edit_set_log_number e (vs_log_number vs))
      end;
  let e := match ed_prev_log_number e with Some _ => e | None => ldb_edit_set_prev_log_number e (vs_prev_log_number vs) end in
  let e := ldb_edit_set_next_file e (vs_next_file_number vs) in
  Some (ldb_edit_set_last_sequence e (vs_last_sequence vs)).

(** The new version, finalized, with the references of the builder taken and
    dropped; its address. *)
Definition build_version vs (b : builder) : option (nat * versions W) :=
  ver ← builder_save_to uc b ldb_version_init;
  Some (new_version vs (ldb_versions_finalize ver)).

Definition edited_version vs (e : edit) : option (nat * versions W) :=
  let base := vs_current vs in
  vs ← ldb_version_ref vs base;
  ver ← vs_objects vs !! base;
  '(heap, pointers, b) ← builder_apply uc (vs_heap vs) (vs_compact_pointer vs) (builder_init ver) e;
  '(v, vs) ← build_version (set_edited vs heap pointers) b;
  vs ← ldb_version_unref vs base;
  Some (v, vs).

(** The descriptor is created when there is none: the status, its name (empty
    if it was open already). *)
Definition open_descriptor (e : E) vs : option (Z * bytes * versions W * E) :=
  match vs_descriptor_log vs with
  | Some _ => Some (LDB_OK, [], vs, e)
  | None =>
    match vs_descriptor_file vs with
    | Some _ => None
    | None =>
      match ldb_desc_filename LDB_PATH_MAX (vs_dbname vs) (vs_manifest_file_number vs) with
      | None => Some (LDB_INVALID, [], vs, e)
      | Some fname =>
        match env_truncfile_create ops e fname with
        | (inl rc, e) => Some (rc, fname, vs, e)
        | (inr file, e) =>
          '(rc, log, e) ← ldb_versions_write_snapshot e vs (ldb_writer_init file 0);
          Some (rc, fname, set_descriptor vs (Some file) (Some log), e)
        end
      end
    end
  end.

(** The record goes to the log, which is synced. *)
Definition write_edit (e : E) vs (ed : edit) : option (Z * versions W * E) :=
  log ← vs_descriptor_log vs;
  '(rc, log, e) ← env_add_record e log (ldb_edit_export [] ed);
  let vs := set_descriptor vs (vs_descriptor_file vs) (Some log) in
  if rc =? LDB_OK then
    file ← vs_descriptor_file vs;
    let '(rc, e) := env_sync ops e file in Some (rc, vs, e)
  else Some (rc, vs, e).

(** Then [CURRENT] is set if the descriptor is new. *)
Definition log_edit (e : E) vs (fname : bytes) (rc : Z) (ed : edit) : option (Z * versions W * E) :=
  '(rc, vs, e) ← (if rc =? LDB_OK then write_edit e vs ed else Some (rc, vs, e));
  if (rc =? LDB_OK) && (0 <? zlen fname) then
    '(rc, e) ← ldb_set_current_file ops e (vs_dbname vs) (vs_manifest_file_number vs);
    Some (rc, vs, e)
  else Some (rc, vs, e).

(** After a failure a new descriptor is closed and removed.  [None] when it had
    not been opened: [ldb_wfile_destroy] is called with [NULL]. *)
Definition drop_descriptor (e : E) vs (fname : bytes) : option (versions W * E) :=
  if 0 <? zlen fname then
    file ← vs_descriptor_file vs;
    let e := env_destroy ops e file in
    Some (set_descriptor vs None None, (env_remove_file ops e fname).2)
  else Some (vs, e).

(** The status, and the edit as completed.  The mutex is released while the log
    is written; no other thread applies an edit then. *)
Definition ldb_versions_apply (e : E) vs (ed : edit) : option (Z * edit * versions W * E) :=
  ed ← complete_edit vs ed;
  '(v, vs) ← edited_version vs ed;
  '(rc, fname, vs, e) ← open_descriptor e vs;
  '(rc, vs, e) ← log_edit e vs fname rc ed;
  if rc =? LDB_OK then
    vs ← ldb_versions_append_version vs v;
    log_number ← ed_log_number ed;
    prev_log_number ← ed_prev_log_number ed;
    Some (rc, ed, set_logs vs log_number prev_log_number, e)
  else
    vs ← ldb_version_destroy vs v;
    '(vs, e) ← drop_descriptor e vs fname;
    Some (rc, ed, vs, e).

(** ** Recovery *)

Definition ldb_versions_reuse_manifest (e : E) vs (dscname : bytes) : option (bool * versions W * E) :=
  if negb (opt_reuse_logs (vs_options vs)) then Some (false, vs, e)
  else
    match ldb_parse_filename (ldb_basename dscname), env_file_size ops e dscname with
    | Some (LDB_FILE_DESC, manifest_number), inr manifest_size =>
      if target_file_size (vs_options vs) <=? manifest_size then Some (false, vs, e)
      else
        match vs_descriptor_file vs, vs_descriptor_log vs with
        | None, None =>
          match env_appendfile_create ops e dscname with
          | (inl _, e) => Some (false, vs, e)
          | (inr file, e) =>
            Some (true, set_manifest (set_descriptor vs (Some file) (Some (ldb_writer_init file manifest_size))) manifest_number, e)
          end
        | _, _ => None
        end
    | _, _ => Some (false, vs, e)
    end.

(** A string up to its terminator. *)
Fixpoint c_string (xs : bytes) : bytes :=
  match xs with [] => [] | x :: xs => if b2z x =? 0 then [] else x :: c_string xs end.

(** The path of the descriptor. *)
Definition read_current_filename (e : E) (dbname : bytes) : Z * bytes :=
  match ldb_current_filename LDB_PATH_MAX dbname with
  | None => (LDB_INVALID, [])
  | Some path =>
    let '(rc, data) := ldb_read_file ops e path in
    if negb (rc =? LDB_OK) then (rc, path)
    else
      let len := zlen data in
      if (len =? 0) || negb (at_ data (len - 1) =? 10) then (LDB_CORRUPTION, path)
      else
        match ldb_join LDB_PATH_MAX dbname (c_string (ztake (len - 1) data)) with
        | None => (LDB_INVALID, path)
        | Some path => (LDB_OK, path)
        end
  end.

(** What is read from the descriptor: the numbers with their [have_] flags as
    options, and the builder with the file objects and compaction pointers. *)
Record recovered := Recovered {
  rv_log_number : option Z;
  rv_prev_log_number : option Z;
  rv_next_file : option Z;
  rv_last_sequence : option Z;
  rv_heap : fileheap;
  rv_pointers : list bytes;
  rv_builder : builder
}.

(** The later number, if an edit has it. *)
Definition latest (new old : option Z) : option Z := match new with Some n => Some n | None => old end.

(** [report_corruption]: the first status reported stays. *)
Definition first_report (rc : Z) (reports : list (Z * Z)) : Z :=
  fold_left (fun rc r => if rc =? LDB_OK then r.2 else rc) reports rc.

(** One record: the status and what is known afterwards.  When the record
    cannot be imported nothing is applied, and the numbers, which no one reads
    after an error, are left alone. *)
Definition recover_record (record : bytes) (r : recovered) : option (Z * recovered) :=
  match ldb_edit_import record with
  | None => Some (LDB_CORRUPTION, r)
  | Some ed =>
    let rc := match ed_comparator ed with
              | Some name => if bool_decide (name = cstr (cmp_name uc)) then LDB_OK else LDB_INVALID
              | None => LDB_OK
              end in
    '(heap, pointers, b) ←
      (if rc =? LDB_OK then builder_apply uc (rv_heap r) (rv_pointers r) (rv_builder r) ed
       else Some (rv_heap r, rv_pointers r, rv_builder r));
    Some (rc, Recovered (latest (ed_log_number ed) (rv_log_number r)) (latest (ed_prev_log_number ed) (rv_prev_log_number r))
                (latest (ed_next_file_number ed) (rv_next_file r)) (latest (ed_last_sequence ed) (rv_last_sequence r)) heap pointers b)
  end.

(** The loop over the records; [junk] is the slice of the reader before the
    first record. *)
Fixpoint recover_loop (fuel : nat) (junk : bytes) (reader : reader) (rc : Z) (r : recovered) : option (Z * recovered) :=
  match fuel with
  | O => None
  | S fuel =>
    '(record, reader') ← ldb_reader_read_record junk reader;
    let rc := first_report rc (drop (length (lr_reports reader)) (lr_reports reader')) in
    match record with
    | Some record =>
      if rc =? LDB_OK then
        '(rc, r) ← recover_record record r;
        recover_loop fuel junk reader' rc r
      else Some (rc, r)
    | None => Some (rc, r)
    end
  end.

(** The last checks. *)
Definition recover_status (rc : Z) (r : recovered) : Z :=
  if rc =? LDB_OK then
    match rv_next_file r, rv_log_number r, rv_last_sequence r with
    | Some _, Some _, Some _ => LDB_OK
    | _, _, _ => LDB_CORRUPTION
    end
  else rc.

Definition install_recovered (e : E) vs (fname : bytes) (r : recovered) (save_manifest : bool) : option (bool * versions W * E) :=
  '(v, vs) ← build_version vs (rv_builder r);
  vs ← ldb_versions_append_version vs v;
  let next_file := default 0 (rv_next_file r) in
  let vs := set_next_file (set_manifest vs next_file) (u64 (next_file + 1)) in
  let vs := set_last_sequence vs (default 0 (rv_last_sequence r)) in
  let vs := set_logs vs (default 0 (rv_log_number r)) (default 0 (rv_prev_log_number r)) in
  '(reused, vs, e) ← ldb_versions_reuse_manifest e vs fname;
  Some (if reused : bool then save_manifest else true, vs, e).

(** The status, [*save_manifest], the set and the environment. *)
Definition ldb_versions_recover (junk : bytes) (e : E) vs (save_manifest : bool) : option (Z * bool * versions W * E) :=
  let '(rc, fname) := read_current_filename e (vs_dbname vs) in
  if negb (rc =? LDB_OK) then Some (rc, save_manifest, vs, e)
  else
    match env_seqfile_create ops e fname with
    | inl rc => Some (if rc =? LDB_ENOENT then LDB_CORRUPTION else rc, save_manifest, vs, e)
    | inr (data, error) =>
      let base := vs_current vs in
      vs ← ldb_version_ref vs base;
      ver ← vs_objects vs !! base;
      '(rc, r) ← recover_loop (S (S (length data))) junk (ldb_reader_init data error true true 0) LDB_OK
                   (Recovered None None None None (vs_heap vs) (vs_compact_pointer vs) (builder_init ver));
      let vs := set_edited vs (rv_heap r) (rv_pointers r) in
      let vs := if rc =? LDB_OK then
                  ldb_versions_mark_file_number (ldb_versions_mark_file_number vs (default 0 (rv_prev_log_number r)))
                    (default 0 (rv_log_number r))
                else vs in
      let rc := recover_status rc r in
      '(save_manifest, vs, e) ← (if rc =? LDB_OK then install_recovered e vs fname r save_manifest else Some (save_manifest, vs, e));
      vs ← ldb_version_unref vs base;
      Some (rc, save_manifest, vs, e)
    end.

(** [None] if the list is not empty: a version is still referenced. *)
Definition ldb_versions_clear (e : E) vs : option E :=
  vs ← ldb_version_unref vs (vs_current vs);
  match vs_list vs with
  | [] => Some (match vs_descriptor_file vs with Some file => env_destroy ops e file | None => e end)
  | _ => None
  end.
End Manifest.

(** ** Queries *)

Section Queries.
Context (uc : comparator) {W : Type}.
Implicit Type vs : versions W.

Definition ldb_versions_files vs (level : Z) : option Z :=
  v ← current_version vs; files ← level_files v level; Some (s32 (zlen files)).

Definition summary_count (n : Z) : bytes := (if n <? 0 then cstr "-" else []) ++ ldb_encode_int (Z.abs n) 0.

Definition ldb_versions_summary vs : option bytes :=
  c ← current_version vs;
  Some (cstr "files[ " ++ concat (map (fun files => summary_count (s32 (zlen files)) ++ cstr " ") (ver_files c)) ++ cstr "]").

(** The loop over the files of a level; [offset number size key] is what
    [ldb_table_approximate_offset] gives for the table, 0 if it cannot be
    opened. *)
Fixpoint offset_loop (offset : Z -> Z -> bytes -> Z) (level : Z) (ikey : bytes) (files : list fileptr) (result : Z) : Z :=
  match files with
  | [] => result
  | file :: files =>
    if ldb_compare (ldb_ikc_init uc) (f_largest file) ikey <=? 0 then
      offset_loop offset level ikey files (u64 (result + f_file_size file))
    else if 0 <? ldb_compare (ldb_ikc_init uc) (f_smallest file) ikey then
      if 0 <? level then result else offset_loop offset level ikey files result
    else offset_loop offset level ikey files (u64 (result + offset (f_number file) (f_file_size file) ikey))
  end.

Fixpoint offset_levels (offset : Z -> Z -> bytes -> Z) (level : Z) (ikey : bytes) (levels : list (list fileptr)) (result : Z) : Z :=
  match levels with
  | [] => result
  | files :: levels => offset_levels offset (level + 1) ikey levels (offset_loop offset level ikey files result)
  end.

Definition ldb_versions_approximate_offset (offset : Z -> Z -> bytes -> Z) (v : ldb_version) (ikey : bytes) : Z :=
  offset_levels offset 0 ikey (ver_files v) 0.

(** The numbers of the files of all versions of the list; [None] for an address
    that holds no version. *)
Fixpoint add_files_loop (objects : gmap nat ldb_version) (vlist : list nat) (live : gset Z) : option (gset Z) :=
  match vlist with
  | [] => Some live
  | v :: vlist =>
    ver ← objects !! v;
    add_files_loop objects vlist (list_to_set (numbers (concat (ver_files ver))) ∪ live)
  end.

Definition ldb_versions_add_files vs (live : gset Z) : option (gset Z) := add_files_loop (vs_objects vs) (vs_list vs) live.

Definition ldb_versions_bytes vs (level : Z) : option Z :=
  v ← current_version vs; files ← level_files v level; Some (total_file_size files).

Fixpoint max_overlapping_loop (v : ldb_version) (level : Z) (files : list fileptr) (result : Z) : option Z :=
  match files with
  | [] => Some result
  | f :: files =>
    overlaps ← ldb_version_get_overlapping_inputs uc v (level + 1) (Some (f_smallest f)) (Some (f_largest f));
    let sum := total_file_size overlaps in
    max_overlapping_loop v level files (if result <? sum then sum else result)
  end.

Definition ldb_versions_max_next_level_overlapping_bytes vs : option Z :=
  v ← current_version vs;
  fold_opt (fun result level => files ← level_files v level; max_overlapping_loop v level files result) (seqZ 1 (LDB_NUM_LEVELS - 2)) 0.
End Queries.
