(* ===== verification/LogFile.v ===== *)
(** * Logs in open files

    The records in a log file that is open in the environment, and what adding
    a record does to it; used for the MANIFEST and for the log of the writes. *)

From stdpp Require Import strings gmap.
From S2P Require Import Prelude Status File LogWriter LogReader Env VersionSet.
#[local] Open Scope Z_scope.

Lemma write_records_app lw rs1 rs2 : write_records lw (rs1 ++ rs2) = (lw1 ← write_records lw rs1; write_records lw1 rs2).
Proof.
  revert lw. induction rs1 as [|r rs1 IH]; intros lw; [done|]. cbn [app write_records].
  destruct (ldb_writer_add_record mem_file lw r) as [[rc lw1]|]; [|done]. cbn [mbind option_bind]. destruct (rc =? LDB_OK); [apply IH|done].
Qed.

Lemma write_records_ok lw rs : writer_ok lw -> exists lw', write_records lw rs = Some lw' /\ writer_ok lw'.
Proof.
  revert lw. induction rs as [|r rs IH]; intros lw Hw; [by exists lw|]. cbn [write_records].
  destruct (writer_add_record_spec lw r Hw) as (fs & lw1 & -> & _ & _ & W1 & _). cbn [mbind option_bind].
  change (LDB_OK =? LDB_OK) with true. cbv iota. by apply IH.
Qed.

(** The writer behind the records of a file. *)
Definition log_writer_at {W} (rs : list bytes) (file : W) (log : writer W) : Prop :=
  exists m, write_records (ldb_writer_init [] 0) rs = Some m /\ log = Writer file (lw_block_offset m) (lw_type_crc m).

Lemma log_writer_at_nil {W} (file : W) : log_writer_at [] file (ldb_writer_init file 0).
Proof. by eexists. Qed.

Lemma log_file_at rs m : write_records (ldb_writer_init [] 0) rs = Some m -> log_file rs = lw_file m.
Proof. intros E. unfold log_file. by rewrite E. Qed.

(** The next record. *)
Lemma next_log_record rs r m : write_records (ldb_writer_init [] 0) rs = Some m ->
  exists m', ldb_writer_add_record mem_file m r = Some (LDB_OK, m') /\
    write_records (ldb_writer_init [] 0) (rs ++ [r]) = Some m'.
Proof.
  intros E. destruct (write_records_ok (ldb_writer_init [] 0) rs (writer_init_ok [] 0 ltac:(lia))) as (m0 & E0 & W0).
  rewrite E in E0. injection E0 as <-. destruct (writer_add_record_spec m r W0) as (fs & m' & E1 & _).
  exists m'. split; [done|]. rewrite write_records_app, E, bind_some. cbn [write_records]. by rewrite E1.
Qed.

(** The file grows with the records. *)
Lemma log_file_snoc rs r : log_file rs `prefix_of` log_file (rs ++ [r]).
Proof.
  destruct (write_records_ok (ldb_writer_init [] 0) rs (writer_init_ok [] 0 ltac:(lia))) as (m & Em & _).
  destruct (next_log_record rs r m Em) as (m' & E1 & E2). rewrite (log_file_at _ _ Em), (log_file_at _ _ E2).
  by apply writer_add_record_grows in E1.
Qed.

Lemma log_file_app rs rs' : log_file rs `prefix_of` log_file (rs ++ rs').
Proof.
  induction rs' as [|r rs' IH] using rev_ind; [by rewrite app_nil_r|].
  rewrite app_assoc. etrans; [exact IH|apply log_file_snoc].
Qed.

Section Open.
Context {E W : Type} (ops : env_ops E W) (rep : E -> fsview -> Prop) (names : E -> W -> bytes -> Prop) (safe : fsview -> Prop).
Context `{!EnvLaws ops rep names safe}.

(** A record is added to the file; every state on the way is safe. *)
Lemma add_log_record_ok e fs file path f rs r log : rep e fs -> names e file path -> fs !! path = Some f ->
  vf_data f = log_file rs -> log_writer_at rs file log -> zlen (log_file (rs ++ [r])) < 2 ^ 64 ->
  (forall d, log_file rs `prefix_of` d -> d `prefix_of` log_file (rs ++ [r]) -> safe (<[path := VFile d (vf_synced f)]> fs)) ->
  exists log' e', env_add_record ops e log r = Some (LDB_OK, log', e') /\ log_writer_at (rs ++ [r]) file log' /\
    rep e' (<[path := VFile (log_file (rs ++ [r])) (vf_synced f)]> fs) /\ forall w q, names e w q -> names e' w q.
Proof.
  intros R N Hf Hd (m & Em & ->) Hz Hs. destruct (next_log_record rs r m Em) as (m' & Ea & Em').
  assert (lw_file m' = log_file (rs ++ [r])) as Ed by (symmetry; by apply log_file_at).
  assert (m = Writer (vf_data f) (lw_block_offset m) (lw_type_crc m)) as Hm by (rewrite Hd, (log_file_at rs m Em); by destruct m).
  rewrite Hm in Ea. destruct (env_add_record_ok ops rep names safe e fs file path f _ _ _ m' R N Hf Ea) as (e' & E1 & R' & K).
  - by rewrite Ed.
  - rewrite Hd, Ed. exact Hs.
  - unfold env_add_record. cbn [lw_file lw_block_offset lw_type_crc]. rewrite E1. rewrite bind_some. cbn [lw_file lw_block_offset lw_type_crc fst snd].
    eexists _, e'. split; [reflexivity|]. split; [by exists m'|]. split; [by rewrite <- Ed|done].
Qed.
End Open.
