(* ===== verification/FaultyEnv.v ===== *)
(** * An environment with faults

    Any operation on a file that is written may fail, and then leave any part of
    what had not been flushed: the contract of such an environment, what adding
    a record to a log does in it, and a disk that fails as a schedule tells. *)

From stdpp Require Import strings gmap.
From S2P Require Import Prelude Status File LogWriter LogReader Env LogFile VersionSet.
#[local] Open Scope Z_scope.

(** ** What a file holds *)

(** The fragments of some records, in their order, perhaps with other bytes
    between them. *)
Fixpoint carries (d : bytes) (fs : list (Z * bytes)) : Prop :=
  match fs with [] => True | (t, x) :: fs => exists gap rest, d = gap ++ phys t x ++ rest /\ carries rest fs end.

Definition holds_records (d : bytes) (rs : list bytes) : Prop := exists fss, log_frags fss rs /\ carries d (concat fss).

Lemma carries_gap gap d fs : carries d fs -> carries (gap ++ d) fs.
Proof. destruct fs as [|[t x] fs]; [done|]. intros (g & rest & -> & H). exists (gap ++ g), rest. by rewrite <- app_assoc. Qed.

Lemma carries_app d fs d' fs' : carries d fs -> carries d' fs' -> carries (d ++ d') (fs ++ fs').
Proof.
  revert d. induction fs as [|[t x] fs IH]; intros d H H'; [by apply carries_gap|]. destruct H as (g & rest & -> & H).
  exists g, (rest ++ d'). rewrite <- !app_assoc. split; [done|]. by apply IH.
Qed.

Lemma carries_grows d d' fs : carries d fs -> carries (d ++ d') fs.
Proof. intros H. rewrite <- (app_nil_r fs). by apply carries_app. Qed.

Lemma log_frags_app fss rs fss' rs' : log_frags fss rs -> log_frags fss' rs' -> log_frags (fss ++ fss') (rs ++ rs').
Proof. induction 1; cbn; [done|]. intros. constructor; auto. Qed.

Lemma holds_nil d : holds_records d [].
Proof. exists []. split; [constructor|done]. Qed.

Lemma holds_grows d d' rs : holds_records d rs -> holds_records (d ++ d') rs.
Proof. intros (fss & H & Hc). exists fss. split; [done|]. by apply carries_grows. Qed.

Lemma holds_prefix d d' rs : d `prefix_of` d' -> holds_records d rs -> holds_records d' rs.
Proof. intros [x ->]. apply holds_grows. Qed.

Lemma holds_snoc d d' rs r fs : holds_records d rs -> record_frags fs r -> carries d' fs -> holds_records (d ++ d') (rs ++ [r]).
Proof.
  intros (fss & H & Hc) Hr Hc'. exists (fss ++ [fs]). split; [apply log_frags_app; [done|]; repeat constructor; done|].
  rewrite concat_app. cbn [concat]. rewrite app_nil_r. by apply carries_app.
Qed.

(** ** Files that may fail

    After a failure some of what was written since the last flush is there. *)

Definition kept (k : Z) (d d' : bytes) : Prop := exists n, k <= n /\ d' = ztake n d.

Lemma ztake_short n (d : bytes) : zlen d <= n -> ztake n d = d.
Proof. apply ztake_all. Qed.

Lemma ztake_take k n (d : bytes) : 0 <= k <= n -> ztake k (ztake n d) = ztake k d.
Proof. intros H. unfold ztake. rewrite take_take. f_equal. lia. Qed.

Lemma kept_same k (d : bytes) : k <= zlen d -> kept k d d.
Proof. intros H. exists (zlen d). split; [done|]. by rewrite ztake_all. Qed.

(** The first [k] bytes are there and unchanged. *)
Definition keeps (k : Z) (d d' : bytes) : Prop := k <= zlen d' /\ ztake k d' = ztake k d.

Lemma kept_keeps k d d' : 0 <= k <= zlen d -> kept k d d' -> keeps k d d'.
Proof.
  intros Hk (n & Hn & ->). split; [|apply ztake_take; lia]. unfold ztake, zlen in *. rewrite length_take. lia.
Qed.

Lemma keeps_refl k d : k <= zlen d -> keeps k d d.
Proof. done. Qed.

Lemma keeps_trans k l a b c : 0 <= k <= l -> keeps k a b -> keeps l b c -> keeps k a c.
Proof.
  intros Hk [_ H1] [H2 H3]. split; [lia|]. by rewrite <- H1, <- (ztake_take k l c), <- (ztake_take k l b), H3 by done.
Qed.

Lemma keeps_app k d x : k <= zlen d -> 0 <= k -> keeps k d (d ++ x).
Proof. intros Hk H0. split; [rewrite zlen_app; pose proof (zlen_nonneg x); lia|]. unfold ztake. rewrite take_app_le; [done|]. unfold zlen in Hk. lia. Qed.

Lemma keeps_split k d d' : 0 <= k -> keeps k d d' -> d' = ztake k d ++ zdrop k d'.
Proof. intros H0 [_ <-]. by rewrite ztake_zdrop. Qed.

(** *** A log writer over such a file

    [rep f d k b]: the file holds [d], the first [k] bytes are flushed, and [b]
    tells whether an operation on it failed. *)
Section Faulty.
Context {F : Type} (fops : wfile_ops F) (rep : F -> bytes -> Z -> bool -> Prop).
Context (append_faulty : forall f d k b xs, rep f d k b -> exists rc f', wfile_append fops f xs = (rc, f') /\
  (rc = LDB_OK /\ rep f' (d ++ xs) k b \/ rc <> LDB_OK /\ exists d', kept k (d ++ xs) d' /\ rep f' d' k true)).
Context (flush_faulty : forall f d k b, rep f d k b -> exists rc f', wfile_flush fops f = (rc, f') /\
  (rc = LDB_OK /\ rep f' d (zlen d) b \/ rc <> LDB_OK /\ exists d', kept k d d' /\ rep f' d' k true)).

Lemma append_keeps f d k b xs : rep f d k b -> 0 <= k <= zlen d -> exists rc f' d' b', wfile_append fops f xs = (rc, f') /\ rep f' d' k b' /\
  keeps k d d' /\ (b = true -> b' = true) /\ (b' = false -> rc = LDB_OK /\ b = false) /\ (rc = LDB_OK -> d' = d ++ xs).
Proof.
  intros R Hk. destruct (append_faulty f d k b xs R) as (rc & f' & -> & [[-> R']|[Hrc (d' & K & R')]]).
  - exists LDB_OK, f', (d ++ xs), b. split; [done|]. split; [done|]. split; [apply keeps_app; lia|]. by destruct b.
  - exists rc, f', d', true. split; [done|]. split; [done|]. split; [|done].
    apply kept_keeps in K; [|rewrite zlen_app; pose proof (zlen_nonneg xs); lia].
    apply (keeps_trans k k _ (d ++ xs)); [lia|apply keeps_app; lia|done].
Qed.

Lemma switch_faulty lw d k b : rep (lw_file lw) d k b -> 0 <= k <= zlen d -> writer_ok lw ->
  exists f d' b', switch_block fops lw = Writer f (start (lw_block_offset lw)) (lw_type_crc lw) /\ rep f d' k b' /\ keeps k d d' /\
    (b = true -> b' = true) /\ (b' = false -> b = false /\ d' = d ++ pad (lw_block_offset lw)).
Proof.
  intros R Hk [Ho _]. unfold switch_block, pad, start.
  destruct (Z.ltb_spec (LDB_BLOCK_SIZE - lw_block_offset lw) LDB_HEADER_SIZE).
  - destruct (Z.ltb_spec 0 (LDB_BLOCK_SIZE - lw_block_offset lw)).
    + destruct (append_keeps _ _ _ _ (zeros (LDB_BLOCK_SIZE - lw_block_offset lw)) R Hk) as (rc & f' & d' & b' & -> & R' & K & H1 & H2 & H3).
      exists f', d', b'. split; [done|]. split; [done|]. split; [done|]. split; [done|]. intros Hb. destruct (H2 Hb) as [-> Hb0]. auto.
    + exists (lw_file lw), d, b. split; [done|]. split; [done|]. split; [apply keeps_refl; lia|]. split; [done|].
      replace (LDB_BLOCK_SIZE - lw_block_offset lw) with 0 by lia. by rewrite app_nil_r.
  - exists (lw_file lw), d, b. split; [by destruct lw|]. split; [done|]. split; [apply keeps_refl; lia|]. split; [done|]. by rewrite app_nil_r.
Qed.

Lemma emit_faulty lw d k b t x : rep (lw_file lw) d k b -> 0 <= k <= zlen d -> writer_ok lw -> 0 <= t <= 4 ->
  exists rc f d' k' b', emit_physical_record fops lw t x = (rc, Writer f (lw_block_offset lw + 7 + zlen x) (lw_type_crc lw)) /\
    rep f d' k' b' /\ keeps k d d' /\ k <= k' <= zlen d' /\ (b = true -> b' = true) /\ (b' = false -> b = false /\ rc = LDB_OK) /\
    (rc = LDB_OK -> k' = zlen d' /\ d' = d ++ phys t x).
Proof.
  intros R Hk Hw Ht. unfold emit_physical_record, LDB_HEADER_SIZE. replace (lw_block_offset lw + (4 + 2 + 1 + zlen x)) with (lw_block_offset lw + 7 + zlen x) by lia.
  rewrite <- (record_header_phys lw t x) by done.
  destruct (append_keeps _ _ _ _ (record_header lw t x) R Hk) as (rc1 & f1 & d1 & b1 & -> & R1 & K1 & M1 & C1 & D1).
  destruct (Z.eqb_spec rc1 LDB_OK) as [->|Hrc].
  2: { exists rc1, f1, d1, k, b1. do 3 (split; [done|]). split; [destruct K1; lia|]. split; [done|]. split; [|done]. intros Hb. by destruct (C1 Hb). }
  destruct (append_keeps _ _ _ _ x R1 ltac:(destruct K1; lia)) as (rc2 & f2 & d2 & b2 & -> & R2 & K2 & M2 & C2 & D2).
  assert (keeps k d d2) as K2' by (apply (keeps_trans k k d d1); [lia|done|done]).
  destruct (Z.eqb_spec rc2 LDB_OK) as [->|Hrc].
  2: { exists rc2, f2, d2, k, b2. do 3 (split; [done|]). split; [destruct K2; lia|]. split; [auto|]. split; [|done]. intros Hb. by destruct (C2 Hb). }
  specialize (D1 eq_refl). specialize (D2 eq_refl). rewrite D1, <- app_assoc in D2.
  destruct (flush_faulty _ _ _ _ R2) as (rc3 & f3 & -> & [[-> R3]|[Hrc (d3 & K3 & R3)]]).
  - exists LDB_OK, f3, d2, (zlen d2), b2. do 3 (split; [done|]). split; [destruct K2; lia|]. split; [auto|]. split; [|done].
    intros Hb. destruct (C2 Hb) as [_ Hb1]. destruct (C1 Hb1) as [_ Hb0]. done.
  - apply kept_keeps in K3; [|destruct K2; lia]. exists rc3, f3, d3, k, true. split; [done|]. split; [done|].
    split; [apply (keeps_trans k k d d2); [lia|done|done]|]. split; [destruct K3; lia|]. done.
Qed.

Lemma add_record_loop_faulty fuel : forall lw ptr begin d k b, rep (lw_file lw) d k b -> 0 <= k <= zlen d -> writer_ok lw ->
  zlen ptr + (if avail (lw_block_offset lw) =? 0 then 1 else 0) < Z.of_nat fuel ->
  exists rc lw' d' k' b', add_record_loop fops fuel lw ptr begin = Some (rc, lw') /\ rep (lw_file lw') d' k' b' /\ writer_ok lw' /\
    keeps k d d' /\ k <= k' <= zlen d' /\ (b = true -> b' = true) /\
    (b' = false -> rc = LDB_OK /\ b = false /\
      add_record_loop mem_file fuel (Writer d (lw_block_offset lw) (lw_type_crc lw)) ptr begin =
        Some (LDB_OK, Writer d' (lw_block_offset lw') (lw_type_crc lw'))) /\
    (rc = LDB_OK -> k' = zlen d' /\ exists fs, (if begin : bool then record_frags fs ptr else tail_frags fs ptr) /\ carries (zdrop k d') fs).
Proof.
  induction fuel as [|fuel IH]; intros lw ptr begin d k b R Hk Hw Hfuel.
  { pose proof (zlen_nonneg ptr). destruct (_ =? 0); lia. }
  cbn [add_record_loop]. pose proof Hw as [Ho Hc]. set (o := lw_block_offset lw) in *. pose proof (start_range o Ho) as Hs.
  destruct (switch_faulty lw d k b R Hk Hw) as (f1 & d1 & b1 & -> & R1 & K1 & M1 & C1). fold o in C1 |- *.
  rewrite (switch_spec (Writer d o (lw_type_crc lw))) by done. cbn [lw_block_offset lw_file lw_type_crc].
  change (LDB_BLOCK_SIZE - start o - LDB_HEADER_SIZE) with (avail o).
  assert (0 <= avail o /\ start o + 7 + avail o = LDB_BLOCK_SIZE) as [Ha Hsum] by (unfold avail, LDB_HEADER_SIZE in *; lia).
  pose proof (zlen_nonneg ptr) as Hp. set (n := if zlen ptr <? avail o then zlen ptr else avail o).
  assert (0 <= n <= zlen ptr /\ n <= avail o) as [Hn Hna] by (subst n; destruct (Z.ltb_spec (zlen ptr) (avail o)); lia).
  set (t := if begin && (zlen ptr =? n) then _ else _).
  assert (1 <= t <= 4) as Ht by (subst t; destruct begin, (zlen ptr =? n); cbn [andb];
        unfold LDB_TYPE_FULL, LDB_TYPE_FIRST, LDB_TYPE_LAST, LDB_TYPE_MIDDLE; lia).
  assert (writer_ok (Writer f1 (start o) (lw_type_crc lw))) as Hw1 by (split; cbn; [unfold LDB_BLOCK_SIZE, LDB_HEADER_SIZE in *; lia|done]).
  destruct (emit_faulty (Writer f1 (start o) (lw_type_crc lw)) d1 k b1 t (ztake n ptr) R1 ltac:(destruct K1; lia) Hw1 ltac:(lia))
    as (rc & f2 & d2 & k2 & b2 & -> & R2 & K2 & Hk2 & M2 & C2 & O2). cbn [lw_block_offset lw_type_crc lw_file] in *.
  rewrite (emit_spec (Writer (d ++ pad o) (start o) (lw_type_crc lw))) by (lia || (split; cbn; [unfold LDB_BLOCK_SIZE, LDB_HEADER_SIZE in *; lia|done])).
  rewrite Z.eqb_refl, zlen_drop, zlen_take by lia. cbn [andb lw_file lw_block_offset lw_type_crc].
  assert (zlen (ztake n ptr) = n) as Hzt by (apply zlen_take; lia). rewrite ?Hzt.
  assert (keeps k d d2) as Kd by (apply (keeps_trans k k d d1); [lia|done|done]).
  assert (forall fs, carries (zdrop k d1 ++ phys t (ztake n ptr) ++ fs) [(t, ztake n ptr)]) as Hcar by (intros fs; by exists (zdrop k d1), fs).
  assert (zdrop k (d1 ++ phys t (ztake n ptr)) = zdrop k d1 ++ phys t (ztake n ptr)) as Hdrop.
  { unfold zdrop. apply drop_app_le. destruct K1 as [K1 _]. unfold zlen in K1. lia. }
  assert (b2 = false -> rc = LDB_OK /\ b = false /\ d2 = (d ++ pad o) ++ phys t (ztake n ptr)) as Clean.
  { intros Hb. destruct (C2 Hb) as [Hb1 Hrc]. destruct (C1 Hb1) as [Hb0 Hd1]. destruct (O2 Hrc) as [_ ->]. by rewrite Hd1. }
  destruct (Z.ltb_spec 0 (zlen ptr - n)) as [Hmore|Hdone].
  - assert (n = avail o) as En by (subst n; destruct (Z.ltb_spec (zlen ptr) (avail o)); lia).
    assert ((zlen ptr =? n) = false) as Ee by (apply Z.eqb_neq; lia).
    assert (start o + 7 + n = LDB_BLOCK_SIZE) as Eo by lia.
    destruct (Z.eqb_spec rc LDB_OK) as [->|Hrc]; cbn [andb].
    2: { eexists rc, _, d2, k2, b2. split; [reflexivity|]. split; [done|]. split; [split; cbn; [rewrite Eo; unfold LDB_BLOCK_SIZE; lia|done]|].
         do 2 (split; [done|]). split; [auto|]. split; [|done]. intros Hb. by destruct (Clean Hb). }
    destruct (O2 eq_refl) as [-> Hd2].
    destruct (IH (Writer f2 (start o + 7 + n) (lw_type_crc lw)) (zdrop n ptr) false d2 (zlen d2) b2 R2) as
      (rc' & lw' & d' & k' & b' & -> & R' & Hw' & K' & Hk' & M' & C' & O'); cbn [lw_block_offset lw_type_crc] in *.
    { pose proof (zlen_nonneg d2). lia. }
    { split; cbn; [rewrite Eo; unfold LDB_BLOCK_SIZE; lia|done]. }
    { rewrite zlen_drop by lia. rewrite Eo. change (avail LDB_BLOCK_SIZE =? 0) with false. destruct (Z.eqb_spec (avail o) 0); lia. }
    exists rc', lw', d', k', b'. do 3 (split; [done|]). split; [apply (keeps_trans k (zlen d2) d d2); [lia|done|done]|]. split; [lia|].
    split; [auto|]. split.
    + intros Hb. destruct (C' Hb) as (-> & Hb2 & E'). destruct (Clean Hb2) as (_ & -> & <-). done.
    + intros Hrc. destruct (O' Hrc) as [-> (fs & Hfs & Hcs)]. split; [done|]. exists ((t, ztake n ptr) :: fs).
      split; [subst t; rewrite Ee; destruct begin; cbn [andb]; [by apply record_frags_first|by apply tail_frags_middle]|].
      pose proof (zlen_nonneg d2). rewrite (keeps_split (zlen d2) d2 d') by done. rewrite ztake_all by lia.
      exists (zdrop k d1), (zdrop (zlen d2) d'). split; [|done]. rewrite Hd2 at 1. unfold zdrop at 1. rewrite drop_app_le.
      * change (drop (Z.to_nat k) (d1 ++ phys t (ztake n ptr))) with (zdrop k (d1 ++ phys t (ztake n ptr))). rewrite Hdrop. by rewrite <- app_assoc.
      * destruct Kd as [Kd _]. rewrite Hd2 in Kd. unfold zlen in Kd. lia.
  - rewrite andb_false_r. eexists rc, _, d2, k2, b2. split; [reflexivity|]. split; [done|].
    split; [split; cbn; [unfold LDB_BLOCK_SIZE, LDB_HEADER_SIZE in *; lia|done]|].
    do 2 (split; [done|]). split; [auto|]. split.
    + intros Hb. destruct (Clean Hb) as (-> & -> & ->). done.
    + intros Hrc. destruct (O2 Hrc) as [-> Hd2]. split; [done|]. exists [(t, ztake n ptr)].
      assert ((zlen ptr =? n) = true) as Ee by (apply Z.eqb_eq; lia).
      split; [subst t; rewrite Ee, ztake_all by lia; destruct begin; cbn [andb]; constructor|].
      rewrite Hd2, Hdrop. rewrite <- (app_nil_r (phys t _)). apply Hcar.
Qed.
End Faulty.

(** ** The contract *)

Section Contract.
Context {E W : Type} (ops : env_ops E W) (rep : E -> fsview -> Prop) (names : E -> W -> bytes -> Prop).
Context (flushed : E -> W -> Z) (failed : E -> W -> bool).

(** Only one open file is concerned. *)
Definition only (e e' : E) (w : W) : Prop :=
  (forall w' q, names e w' q -> names e' w' q) /\ forall w', w' <> w -> flushed e' w' = flushed e w' /\ failed e' w' = failed e w'.

(** [flushed e w] bytes of an open file have been flushed; [failed e w] tells
    whether an operation on it has failed.  One that fails keeps what had been
    flushed, and what is known to be on the disk is still known to be there. *)
Class FaultyLaws : Prop := {
  fl_truncfile e fs p : rep e fs ->
    (exists w e', env_truncfile_create ops e p = (inr w, e') /\ rep e' (<[p := VFile [] 0]> fs) /\ names e' w p /\
      flushed e' w = 0 /\ failed e' w = false /\ only e e' w /\ forall w' q, names e w' q -> w' <> w) \/
    exists rc e' fs', env_truncfile_create ops e p = (inl rc, e') /\ rc <> LDB_OK /\ rep e' fs' /\
      (forall q, q <> p -> fs' !! q = fs !! q) /\ forall w, (forall q, names e w q -> names e' w q) /\ flushed e' w = flushed e w /\ failed e' w = failed e w;
  fl_append e fs w p f xs : rep e fs -> names e w p -> fs !! p = Some f -> 0 <= flushed e w <= zlen (vf_data f) ->
    exists rc e' d', env_append ops e w xs = (rc, e') /\ rep e' (<[p := VFile d' (vf_synced f)]> fs) /\ only e e' w /\
      flushed e' w = flushed e w /\
      (rc = LDB_OK /\ d' = vf_data f ++ xs /\ failed e' w = failed e w \/
       rc <> LDB_OK /\ kept (flushed e w) (vf_data f ++ xs) d' /\ failed e' w = true);
  fl_flush e fs w p f : rep e fs -> names e w p -> fs !! p = Some f -> 0 <= flushed e w <= zlen (vf_data f) ->
    exists rc e' d', env_flush ops e w = (rc, e') /\ rep e' (<[p := VFile d' (vf_synced f)]> fs) /\ only e e' w /\
      (rc = LDB_OK /\ d' = vf_data f /\ flushed e' w = zlen d' /\ failed e' w = failed e w \/
       rc <> LDB_OK /\ kept (flushed e w) (vf_data f) d' /\ flushed e' w = flushed e w /\ failed e' w = true);
  fl_sync e fs w p f : rep e fs -> names e w p -> fs !! p = Some f -> 0 <= flushed e w <= zlen (vf_data f) ->
    exists rc e' d' s', env_sync ops e w = (rc, e') /\ rep e' (<[p := VFile d' s']> fs) /\ only e e' w /\
      (rc = LDB_OK /\ d' = vf_data f /\ s' = zlen d' /\ flushed e' w = zlen d' /\ failed e' w = failed e w \/
       rc <> LDB_OK /\ kept (flushed e w) (vf_data f) d' /\ s' = vf_synced f /\ flushed e' w = flushed e w /\ failed e' w = true);
  fl_close e fs w p f : rep e fs -> names e w p -> fs !! p = Some f -> 0 <= flushed e w <= zlen (vf_data f) ->
    exists rc e' d', env_close ops e w = (rc, e') /\ rep e' (<[p := VFile d' (vf_synced f)]> fs) /\ only e e' w /\
      (rc = LDB_OK /\ d' = vf_data f \/ rc <> LDB_OK /\ kept (flushed e w) (vf_data f) d');
  fl_destroy e fs w p : rep e fs -> names e w p ->
    rep (env_destroy ops e w) fs /\ forall w', w' <> w -> (forall q, names e w' q -> names (env_destroy ops e w) w' q) /\
      flushed (env_destroy ops e w) w' = flushed e w' /\ failed (env_destroy ops e w) w' = failed e w'
}.

Lemma only_refl e w : only e e w.
Proof. by split. Qed.

Lemma only_trans e1 e2 e3 w : only e1 e2 w -> only e2 e3 w -> only e1 e3 w.
Proof. intros [A1 A2] [B1 B2]. split; [auto|]. intros w' Hw. destruct (A2 w' Hw), (B2 w' Hw). split; congruence. Qed.

Context {laws : FaultyLaws}.

(** A record for the log: always an answer. *)
Lemma faulty_add_record e fs w p f o c r : rep e fs -> names e w p -> fs !! p = Some f -> 0 <= flushed e w <= zlen (vf_data f) ->
  writer_ok (Writer w o c) ->
  exists rc log' e' d', env_add_record ops e (Writer w o c) r = Some (rc, log', e') /\ lw_file log' = w /\ writer_ok log' /\
    rep e' (<[p := VFile d' (vf_synced f)]> fs) /\ only e e' w /\ keeps (flushed e w) (vf_data f) d' /\
    flushed e w <= flushed e' w <= zlen d' /\ (failed e w = true -> failed e' w = true) /\
    (failed e' w = false -> rc = LDB_OK /\ failed e w = false /\
      ldb_writer_add_record mem_file (Writer (vf_data f) o c) r = Some (LDB_OK, Writer d' (lw_block_offset log') (lw_type_crc log'))) /\
    (rc = LDB_OK -> flushed e' w = zlen d' /\ exists frs, record_frags frs r /\ carries (zdrop (flushed e w) d') frs).
Proof.
  intros R N Hf Hk Hw.
  set (rep' := fun (x : E * W) d k b => x.2 = w /\ rep x.1 (<[p := VFile d (vf_synced f)]> fs) /\ flushed x.1 w = k /\ 0 <= k <= zlen d /\
    failed x.1 w = b /\ only e x.1 w).
  assert (forall k d d', 0 <= k <= zlen d -> kept k d d' -> 0 <= k <= zlen d') as Long by (intros k d d' H0 K0; destruct (kept_keeps k d d' H0 K0); lia).
  destruct (add_record_loop_faulty (env_wfile ops) rep') with (fuel := S (S (length r))) (lw := Writer (e, w) o c) (ptr := r) (begin := true)
    (d := vf_data f) (k := flushed e w) (b := failed e w) as (rc & lw' & d' & k' & b' & E1 & (Ew & R' & Ek & _ & Eb & Ho) & Hw' & K & Hk' & M & C & O).
  - intros [e1 w1] d k b xs (Ew & R1 & Ek & Hk1 & Eb & Ho). cbn [fst snd] in *. subst w1 k.
    destruct (fl_append e1 _ w p _ xs R1 (proj1 Ho _ _ N) (lookup_insert_eq _ _ _) Hk1) as (rc & e2 & d2 & E2 & R2 & Ho2 & Ef & H).
    rewrite insert_insert_eq in R2. cbn [vf_data vf_synced] in *. exists rc, (e2, w). cbn [env_wfile wfile_append fst snd]. rewrite E2. split; [done|].
    destruct H as [(-> & -> & Efl)|(Hrc & K & Efl)]; [left; split; [done|]|right; split; [done|]; exists d2; split; [done|]];
      (split; [done|]; split; [done|]; split; [done|]; split; [|split; [cbn [fst]; congruence|by apply (only_trans e e1)]]).
    + rewrite zlen_app. pose proof (zlen_nonneg xs). lia.
    + apply (Long _ (d ++ xs)); [rewrite zlen_app; pose proof (zlen_nonneg xs); lia|done].
  - intros [e1 w1] d k b (Ew & R1 & Ek & Hk1 & Eb & Ho). cbn [fst snd] in *. subst w1 k.
    destruct (fl_flush e1 _ w p _ R1 (proj1 Ho _ _ N) (lookup_insert_eq _ _ _) Hk1) as (rc & e2 & d2 & E2 & R2 & Ho2 & H).
    rewrite insert_insert_eq in R2. cbn [vf_data vf_synced] in *. exists rc, (e2, w). cbn [env_wfile wfile_flush fst snd]. rewrite E2. split; [done|].
    destruct H as [(-> & -> & Efl & Efa)|(Hrc & K & Efl & Efa)]; [left; split; [done|]|right; split; [done|]; exists d2; split; [done|]];
      (split; [done|]; split; [done|]; split; [done|]; split; [|split; [cbn [fst]; congruence|by apply (only_trans e e1)]]).
    + pose proof (zlen_nonneg d). lia.
    + by apply (Long _ d).
  - split; [done|]. split; [destruct f; cbn; by rewrite insert_id|]. split; [done|]. split; [done|]. split; [done|apply only_refl].
  - done.
  - done.
  - cbn [lw_block_offset]. unfold zlen. destruct (_ =? 0); lia.
  - destruct lw' as [[e' w'] o' c']. cbn [lw_file fst snd lw_block_offset lw_type_crc] in *. subst w'.
    exists rc, (Writer w o' c'), e', d'. unfold env_add_record. cbn [lw_file lw_block_offset lw_type_crc]. unfold ldb_writer_add_record at 1. rewrite E1.
    cbn [mbind option_bind lw_file lw_block_offset lw_type_crc fst snd]. rewrite Ek, Eb. do 8 (split; [done|]). split; [done|]. exact O.
Qed.
End Contract.

(** ** A disk that fails on schedule

    The schedule tells which of the coming operations fail: a failing append
    writes half of its bytes, a failing flush, sync or close loses what was not
    flushed. *)

Record fdisk := Fdisk { fd_disk : disk; fd_schedule : list bool; fd_flushed : gmap nat Z; fd_failed : gset nat }.

Definition fdisk_flushed (e : fdisk) (w : nat) : Z := default 0 (fd_flushed e !! w).
Definition fdisk_failed (e : fdisk) (w : nat) : bool := bool_decide (w ∈ fd_failed e).

Definition next_fails (e : fdisk) : bool := default false (head (fd_schedule e)).

(** The new contents, synced bytes and flushed bytes of an open file if the
    operation works, and the contents if it fails. *)
Definition fdisk_update (e : fdisk) (w : nat) (works : vfile -> vfile * Z) (fails : vfile -> vfile) : Z * fdisk :=
  let schedule := tail (fd_schedule e) in
  match dk_open (fd_disk e) !! w with
  | Some p =>
    match dk_files (fd_disk e) !! p with
    | Some f =>
      if next_fails e then (LDB_IOERR, Fdisk (Disk (<[p := fails f]> (dk_files (fd_disk e))) (dk_open (fd_disk e))) schedule (fd_flushed e) ({[w]} ∪ fd_failed e))
      else (LDB_OK, Fdisk (Disk (<[p := (works f).1]> (dk_files (fd_disk e))) (dk_open (fd_disk e))) schedule (<[w := (works f).2]> (fd_flushed e)) (fd_failed e))
    | None => (LDB_IOERR, e)
    end
  | None => (LDB_EINVAL, e)
  end.

Definition unflushed_lost (e : fdisk) (w : nat) (f : vfile) : vfile := VFile (ztake (fdisk_flushed e w) (vf_data f)) (vf_synced f).

Definition with_disk (e : fdisk) (d : disk) : fdisk := Fdisk d (fd_schedule e) (fd_flushed e) (fd_failed e).

Definition fdisk_ops : env_ops fdisk nat :=
  EnvOps
    (fun e p =>
      if next_fails e then (inl LDB_IOERR, Fdisk (fd_disk e) (tail (fd_schedule e)) (fd_flushed e) (fd_failed e))
      else
        let w := length (dk_open (fd_disk e)) in
        (inr w, Fdisk (env_truncfile_create disk_ops (fd_disk e) p).2 (tail (fd_schedule e)) (<[w := 0]> (fd_flushed e)) (fd_failed e ∖ {[w]})))
    (fun e p => let '(r, d) := env_appendfile_create disk_ops (fd_disk e) p in (r, with_disk e d))
    (fun e w xs => fdisk_update e w (fun f => (VFile (vf_data f ++ xs) (vf_synced f), fdisk_flushed e w))
                                    (fun f => VFile (vf_data f ++ ztake (zlen xs / 2) xs) (vf_synced f)))
    (fun e w => fdisk_update e w (fun f => (f, zlen (vf_data f))) (unflushed_lost e w))
    (fun e w => fdisk_update e w (fun f => (VFile (vf_data f) (zlen (vf_data f)), zlen (vf_data f))) (unflushed_lost e w))
    (fun e w => fdisk_update e w (fun f => (f, fdisk_flushed e w)) (unflushed_lost e w))
    (fun e w => e)
    (fun e p => env_seqfile_create disk_ops (fd_disk e) p)
    (fun e p => env_file_size disk_ops (fd_disk e) p)
    (fun e a b => let '(rc, d) := env_rename_file disk_ops (fd_disk e) a b in (rc, with_disk e d))
    (fun e p => let '(rc, d) := env_remove_file disk_ops (fd_disk e) p in (rc, with_disk e d)).

Definition fdisk_rep (e : fdisk) (fs : fsview) : Prop := dk_files (fd_disk e) = fs.
Definition fdisk_names (e : fdisk) : nat -> bytes -> Prop := disk_names (fd_disk e).

Lemma fdisk_update_spec e w works fails p f : fdisk_names e w p -> dk_files (fd_disk e) !! p = Some f ->
  exists rc e' f', fdisk_update e w works fails = (rc, e') /\ fdisk_rep e' (<[p := f']> (dk_files (fd_disk e))) /\
    only fdisk_names fdisk_flushed fdisk_failed e e' w /\
    (rc = LDB_OK /\ f' = (works f).1 /\ fdisk_flushed e' w = (works f).2 /\ fdisk_failed e' w = fdisk_failed e w \/
     rc <> LDB_OK /\ f' = fails f /\ fdisk_flushed e' w = fdisk_flushed e w /\ fdisk_failed e' w = true).
Proof.
  intros Hw Hf. unfold fdisk_update. unfold fdisk_names, disk_names in Hw. rewrite Hw, Hf. destruct (next_fails e).
  - eexists LDB_IOERR, _, (fails f). split; [reflexivity|]. split; [done|]. split; [split; [done|]|right; split; [done|]; split; [done|]; split; [done|]].
    + intros w' Hne. split; [done|]. unfold fdisk_failed. cbn. apply bool_decide_ext. set_solver.
    + unfold fdisk_failed. cbn. apply bool_decide_eq_true. set_solver.
  - eexists LDB_OK, _, (works f).1. split; [reflexivity|]. split; [done|]. split; [split; [done|]|left; split; [done|]; split; [done|]; split; [|done]].
    + intros w' Hne. split; [|done]. unfold fdisk_flushed. cbn. by rewrite lookup_insert_ne.
    + unfold fdisk_flushed. cbn. by rewrite lookup_insert_eq.
Qed.

Lemma kept_half k d xs : k <= zlen d -> kept k (d ++ xs) (d ++ ztake (zlen xs / 2) xs).
Proof.
  intros Hk. pose proof (zlen_nonneg xs). pose proof (zlen_nonneg d). assert (0 <= zlen xs / 2) by (apply Z.div_pos; lia).
  exists (zlen d + zlen xs / 2). split; [lia|]. by rewrite ztake_app_ge, Z.add_simpl_l by lia.
Qed.

Lemma kept_flushed k d : kept k d (ztake k d).
Proof. by exists k. Qed.

#[export] Instance fdisk_laws : FaultyLaws fdisk_ops fdisk_rep fdisk_names fdisk_flushed fdisk_failed.
Proof.
  split; unfold fdisk_rep; cbn [fdisk_ops env_truncfile_create env_append env_flush env_sync env_close env_destroy].
  - intros e fs p <-. destruct (next_fails e).
    + right. eexists LDB_IOERR, _, _. split; [reflexivity|]. split; [done|]. split; [reflexivity|]. by split.
    + left. set (w := length (dk_open (fd_disk e))). eexists w, _. split; [reflexivity|]. split; [done|].
      assert (forall w' q, fdisk_names e w' q -> (w' < w)%nat) as Hlt by (intros w' q Hq; by eapply lookup_lt_Some).
      split; [unfold fdisk_names, disk_names; cbn; unfold w; by rewrite lookup_app_r, Nat.sub_diag by lia|].
      split; [unfold fdisk_flushed; cbn; by rewrite lookup_insert_eq|].
      split; [unfold fdisk_failed; cbn; apply bool_decide_eq_false; set_solver|].
      split; [|intros w' q Hq%Hlt; lia]. split.
      * intros w' q Hq. unfold fdisk_names, disk_names in *. cbn. by apply lookup_app_l_Some.
      * intros w' Hne. split; [unfold fdisk_flushed; cbn; by rewrite lookup_insert_ne|]. unfold fdisk_failed. cbn. apply bool_decide_ext. set_solver.
  - intros e fs w p f xs <- Hw Hf Hk. destruct (fdisk_update_spec e w (fun f => (VFile (vf_data f ++ xs) (vf_synced f), fdisk_flushed e w))
      (fun f => VFile (vf_data f ++ ztake (zlen xs / 2) xs) (vf_synced f)) p f Hw Hf) as (rc & e' & f' & -> & R & Ho & [(-> & -> & F & A)|(Hrc & -> & F & A)]).
    + cbn [fst snd] in *. exists LDB_OK, e', (vf_data f ++ xs). split; [done|]. split; [exact R|]. split; [exact Ho|]. split; [exact F|]. by left.
    + exists rc, e', (vf_data f ++ ztake (zlen xs / 2) xs). split; [done|]. split; [exact R|]. split; [exact Ho|]. split; [exact F|]. right. split; [done|]. split; [|done]. apply kept_half. lia.
  - intros e fs w p f <- Hw Hf Hk. destruct (fdisk_update_spec e w (fun f => (f, zlen (vf_data f))) (unflushed_lost e w) p f Hw Hf)
      as (rc & e' & f' & -> & R & Ho & [(-> & -> & F & A)|(Hrc & -> & F & A)]).
    + exists LDB_OK, e', (vf_data f). split; [done|]. split; [by destruct f|]. split; [done|]. by left.
    + exists rc, e', (ztake (fdisk_flushed e w) (vf_data f)). do 3 (split; [done|]). right. split; [done|]. split; [apply kept_flushed|done].
  - intros e fs w p f <- Hw Hf Hk. destruct (fdisk_update_spec e w (fun f => (VFile (vf_data f) (zlen (vf_data f)), zlen (vf_data f))) (unflushed_lost e w) p f Hw Hf)
      as (rc & e' & f' & -> & R & Ho & [(-> & -> & F & A)|(Hrc & -> & F & A)]).
    + exists LDB_OK, e', (vf_data f), (zlen (vf_data f)). do 3 (split; [done|]). by left.
    + exists rc, e', (ztake (fdisk_flushed e w) (vf_data f)), (vf_synced f). do 3 (split; [done|]). right. split; [done|]. split; [apply kept_flushed|done].
  - intros e fs w p f <- Hw Hf Hk. destruct (fdisk_update_spec e w (fun f => (f, fdisk_flushed e w)) (unflushed_lost e w) p f Hw Hf)
      as (rc & e' & f' & -> & R & Ho & [(-> & -> & F & A)|(Hrc & -> & F & A)]).
    + exists LDB_OK, e', (vf_data f). split; [done|]. split; [by destruct f|]. split; [done|]. by left.
    + exists rc, e', (ztake (fdisk_flushed e w) (vf_data f)). do 3 (split; [done|]). right. split; [done|]. apply kept_flushed.
  - done.
Qed.
