(* ===== verification/Recovery.v ===== *)
(** * Recovery of the version set

    The MANIFEST is a log of edits.  This file proves that recovering from it
    gives the version set that the edits describe, also when the log was cut by
    a crash. *)

From stdpp Require Import strings sorting gmap.
From Stdlib Require Import SpecFloat.
From S2P Require Import Prelude Status Strutil Comparator DBFormat File LogWriter LogReader Options Vector VersionEdit Iterator FileList Version VersionBuilder Env VersionSet.
#[local] Open Scope Z_scope.

(** ** The reader only adds reports *)

Definition reports_grow (lr lr' : reader) : Prop := lr_reports lr `prefix_of` lr_reports lr'.

#[global] Instance reports_grow_preorder : PreOrder reports_grow.
Proof. unfold reports_grow. split; [by intros x|]. intros x y z H1 H2. by etrans. Qed.

Lemma report_grows lr n rc : reports_grow lr (report_drop lr n rc).
Proof. unfold report_drop, reports_grow. destruct (_ && _); [|done]. cbn [add_report lr_reports]. by apply prefix_app_r. Qed.

Lemma same_reports lr lr' : lr_reports lr' = lr_reports lr -> reports_grow lr lr'.
Proof. intros E. unfold reports_grow. by rewrite E. Qed.

Lemma physical_grows fuel : forall lr res t d lr', read_physical_record_loop fuel lr res = Some (t, d, lr') -> reports_grow lr lr'.
Proof.
  induction fuel as [|fuel IH]; intros lr res t d lr' E; [done|]. cbn [read_physical_record_loop] in E.
  assert (forall b n rc, reports_grow lr (report_drop (set_buffer lr b) n rc)) as Hrep by (intros b n rc; exact (report_grows (set_buffer lr b) n rc)).
  destruct (_ <? LDB_HEADER_SIZE).
  - destruct (negb (lr_eof lr)); [|injection E as _ _ <-; by apply same_reports]. unfold refill in E. cbn [set_buffer lr_error] in E.
    destruct (negb (lr_error lr =? LDB_OK)) eqn:Ee.
    + rewrite Ee in E. injection E as _ _ <-. apply Hrep.
    + change (negb (LDB_OK =? LDB_OK)) with false in E. cbv iota in E. apply IH in E. destruct (_ <? LDB_BLOCK_SIZE) in E; exact E.
  - cbv zeta in E. destruct (_ <? _).
    { destruct (negb (lr_eof _)); injection E as _ _ <-; [apply Hrep|by apply same_reports]. }
    destruct (_ && (_ =? 0)); [injection E as _ _ <-; by apply same_reports|]. destruct (_ && negb _); [injection E as _ _ <-; apply Hrep|].
    destruct (_ <? _); injection E as _ _ <-; by apply same_reports.
Qed.

Lemma record_loop_grows fuel : forall lr frag scratch po inf r lr',
  read_record_loop fuel lr frag scratch po inf = Some (r, lr') -> reports_grow lr lr'.
Proof.
  induction fuel as [|fuel IH]; intros lr frag scratch po inf r lr' E; [done|]. cbn [read_record_loop] in E.
  destruct (read_physical_record lr frag) as [[[t d] lr1]|] eqn:Ep; [|done]. apply physical_grows in Ep. etrans; [exact Ep|]. clear Ep.
  cbn [mbind option_bind] in E.
  assert (forall n, reports_grow lr1 (report_corruption lr1 n)) as Hc by (intros n; apply report_grows).
  assert (forall n, reports_grow lr1 (report_corruption (if lr_resyncing lr1 then set_resyncing lr1 false else lr1) n)) as Hc'.
  { intros n. destruct (lr_resyncing lr1); [exact (report_grows (set_resyncing lr1 false) n LDB_CORRUPTION)|apply Hc]. }
  assert (reports_grow lr1 (if lr_resyncing lr1 then set_resyncing lr1 false else lr1)) as H0 by (destruct (lr_resyncing lr1); by apply same_reports).
  set (lr2 := if lr_resyncing lr1 then set_resyncing lr1 false else lr1) in *.
  assert (forall c : bool, forall n, reports_grow lr1 (if c then report_corruption lr2 n else lr2)) as Hif by (intros [] n; [apply Hc'|apply H0]).
  destruct (_ && (t =? LDB_TYPE_MIDDLE)); [by apply IH in E|]. destruct (_ && (t =? LDB_TYPE_LAST)); [by apply IH in E|].
  destruct (t =? LDB_TYPE_FULL); [injection E as _ <-; etrans; [apply Hif|by apply same_reports]|].
  destruct (t =? LDB_TYPE_FIRST); [apply IH in E; etrans; [apply Hif|exact E]|].
  destruct (t =? LDB_TYPE_MIDDLE); [destruct (negb inf); apply IH in E; (etrans; [|exact E]); auto|].
  destruct (t =? LDB_TYPE_LAST); [destruct (negb inf); [apply IH in E; (etrans; [|exact E]); auto|injection E as _ <-; (etrans; [exact H0|by apply same_reports])]|].
  destruct (t =? LDB_EOF); [injection E as _ <-; exact H0|].
  destruct (t =? LDB_BAD_RECORD); [destruct inf; apply IH in E; (etrans; [|exact E]); auto|].
  apply IH in E. etrans; [|exact E]. auto.
Qed.

Lemma read_record_grows junk lr r lr' : ldb_reader_read_record junk lr = Some (r, lr') -> reports_grow lr lr'.
Proof.
  unfold ldb_reader_read_record. destruct (lr_last_offset lr <? lr_initial_offset lr).
  - unfold skip_to_initial_block. cbv zeta. cbn [negb]. intros E. apply record_loop_grows in E. exact E.
  - cbn [negb]. apply record_loop_grows.
Qed.

Lemma read_all_grows fuel : forall junk lr rs lr', read_all fuel junk lr = Some (rs, lr') -> reports_grow lr lr'.
Proof.
  induction fuel as [|fuel IH]; intros junk lr rs lr' E; [done|]. cbn [read_all] in E.
  destruct (ldb_reader_read_record junk lr) as [[r lr1]|] eqn:E1; [|done]. apply read_record_grows in E1. cbn [mbind option_bind] in E.
  destruct r as [r|]; [|by injection E as _ <-]. destruct (read_all fuel junk lr1) as [[rs1 lr2]|] eqn:E2; [|done].
  injection E as _ <-. etrans; [exact E1|]. by eapply IH.
Qed.

Lemma no_reports lr lr' : reports_grow lr lr' -> lr_reports lr' = [] -> lr_reports lr = [].
Proof. unfold reports_grow. intros H E. rewrite E in H. by apply prefix_nil_inv in H. Qed.

(** ** Replaying the records *)

Section Replay.
Context (uc : comparator).

(** The numbers of a list of edits: the last that was set. *)
Definition last_number (get : edit -> option Z) (es : list edit) (old : option Z) : option Z :=
  fold_left (fun old e => latest (get e) old) es old.

Lemma recover_loop_ok es : forall fuel n junk lr lr' heap pointers b log prev next seq heap' pointers' b',
  read_all n junk lr = Some (map (ldb_edit_export []) es, lr') -> lr_reports lr' = [] -> (n <= fuel)%nat ->
  Forall edit_wf es -> Forall (fun e => from_option (fun name => name = cstr (cmp_name uc)) True (ed_comparator e)) es ->
  builder_apply_all uc heap pointers b es = Some (heap', pointers', b') ->
  recover_loop uc fuel junk lr LDB_OK (Recovered log prev next seq heap pointers b) =
    Some (LDB_OK, Recovered (last_number ed_log_number es log) (last_number ed_prev_log_number es prev)
      (last_number ed_next_file_number es next) (last_number ed_last_sequence es seq) heap' pointers' b').
Proof.
  induction es as [|ed es IH]; intros fuel n junk lr lr' heap pointers b log prev next seq heap' pointers' b' Er Hr Hf Hwf Hcmp Eb;
    (destruct n as [|n]; [done|]); (destruct fuel as [|fuel]; [lia|]); cbn [read_all recover_loop map] in *;
    (destruct (ldb_reader_read_record junk lr) as [[r lr1]|] eqn:E1; [|done]); pose proof (read_record_grows _ _ _ _ E1) as G1;
    cbn [mbind option_bind] in *.
  - destruct r as [r|]; [destruct (read_all n junk lr1) as [[? ?]|]; done|]. injection Er as <-.
    rewrite Hr, (no_reports lr lr1 G1 Hr). injection Eb as <- <- <-. done.
  - destruct r as [r|]; [|done]. destruct (read_all n junk lr1) as [[rs lr2]|] eqn:E2; [|done]. injection Er as -> -> ->.
    pose proof (read_all_grows _ _ _ _ _ E2) as G2. pose proof (no_reports lr1 lr' G2 Hr) as Hr1.
    rewrite Hr1, (no_reports lr lr1 G1 Hr1). cbn [length drop first_report fold_left].
    change (LDB_OK =? LDB_OK) with true. cbv iota.
    apply Forall_cons_iff in Hwf as [Hw Hwf]. apply Forall_cons_iff in Hcmp as [Hc Hcmp].
    unfold recover_record. rewrite (import_export ed Hw).
    unfold builder_apply_all in Eb. cbn [fold_opt fst snd] in Eb.
    destruct (builder_apply uc heap pointers b ed) as [[[heap1 pointers1] b1]|] eqn:E3; [|done]. cbn [mbind option_bind] in Eb.
    assert (match ed_comparator ed with Some name => if bool_decide (name = cstr (cmp_name uc)) then LDB_OK else LDB_INVALID | None => LDB_OK end
      = LDB_OK) as ->.
    { destruct (ed_comparator ed) as [name|]; [|done]. cbn [from_option] in Hc. by rewrite bool_decide_eq_true_2. }
    cbn [rv_heap rv_pointers rv_builder rv_log_number rv_prev_log_number rv_next_file rv_last_sequence].
    change (LDB_OK =? LDB_OK) with true. cbv iota. rewrite E3. cbn [mbind option_bind].
    rewrite (IH fuel n junk lr1 lr' heap1 pointers1 b1 _ _ _ _ heap' pointers' b' E2 Hr); [done|lia|done|done|exact Eb].
Qed.
End Replay.

(** ** References to versions *)

Section References.
Context {W : Type}.
Implicit Type vs : versions W.

Lemma ref_ok vs v ver : vs_objects vs !! v = Some ver ->
  ldb_version_ref vs v =
    Some (set_objects vs (vs_next_version vs) (<[v := with_refs ver (ver_refs ver + 1)]> (vs_objects vs)) (vs_list vs) (vs_current vs)).
Proof. intros E. unfold ldb_version_ref. by rewrite E. Qed.

(** What is left of the objects and of the list when a reference is dropped. *)
Definition dropped (objects : gmap nat ldb_version) (v : nat) (ver : ldb_version) : gmap nat ldb_version :=
  if ver_refs ver =? 1 then delete v objects else <[v := with_refs ver (ver_refs ver - 1)]> objects.
Definition unlisted (vlist : list nat) (v : nat) (ver : ldb_version) : list nat :=
  if ver_refs ver =? 1 then List.filter (fun w => negb (Nat.eqb w v)) vlist else vlist.

Lemma dropped_more objects v ver : ver_refs ver <> 1 -> dropped objects v ver = <[v := with_refs ver (ver_refs ver - 1)]> objects.
Proof. intros Hr. unfold dropped. by rewrite (proj2 (Z.eqb_neq _ _)). Qed.

Lemma dropped_last objects v ver : ver_refs ver = 1 -> dropped objects v ver = delete v objects.
Proof. intros Hr. unfold dropped. by rewrite Hr. Qed.

Lemma unref_ok vs v ver : vs_objects vs !! v = Some ver -> 1 <= ver_refs ver ->
  ldb_version_unref vs v =
    Some (set_objects vs (vs_next_version vs) (dropped (vs_objects vs) v ver) (unlisted (vs_list vs) v ver) (vs_current vs)).
Proof.
  intros E Hr. unfold ldb_version_unref, dropped, unlisted. rewrite E. cbn [mbind option_bind]. rewrite (proj2 (Z.leb_le 1 _)) by done. cbn [negb].
  destruct (Z.eqb_spec (ver_refs ver - 1) 0) as [E0|E0], (Z.eqb_spec (ver_refs ver) 1) as [E1|E1]; try lia; [|done].
  unfold ldb_version_destroy. cbn [set_objects vs_objects]. rewrite lookup_insert_eq. cbn [mbind option_bind with_refs ver_refs].
  rewrite E0. cbn [Z.eqb negb]. unfold set_objects. cbn. by rewrite delete_insert_eq.
Qed.

Lemma append_version_ok vs v ver cur : vs_objects vs !! v = Some ver -> ver_refs ver = 0 -> v <> vs_current vs ->
  vs_objects vs !! vs_current vs = Some cur -> 1 <= ver_refs cur ->
  ldb_versions_append_version vs v =
    Some (set_objects vs (vs_next_version vs) (<[v := with_refs ver 1]> (dropped (vs_objects vs) (vs_current vs) cur))
            (unlisted (vs_list vs) (vs_current vs) cur ++ [v]) v).
Proof.
  intros Ev Hr Hne Ec Hc. unfold ldb_versions_append_version. rewrite Ev. cbn [mbind option_bind]. rewrite Hr, (proj2 (Nat.eqb_neq _ _)) by done.
  cbn [Z.eqb negb orb]. rewrite (unref_ok vs _ cur Ec Hc). cbn [mbind option_bind].
  erewrite ref_ok; [cbn; by rewrite Hr|]. cbn [set_objects vs_objects]. unfold dropped.
  by destruct (_ =? 1); [rewrite lookup_delete_ne|rewrite lookup_insert_ne].
Qed.
End References.

(** ** What a list of edits describes *)

Record mstate := Mstate { st_log : Z; st_prev : Z; st_next : Z; st_seq : Z; st_levels : Z -> level_state_map }.

Definition state_of (es : list edit) : mstate :=
  Mstate (default 0 (last_number ed_log_number es None)) (default 0 (last_number ed_prev_log_number es None))
    (default 0 (last_number ed_next_file_number es None)) (default 0 (last_number ed_last_sequence es None))
    (fun l => apply_edits l ∅ es).

Definition records (es : list edit) : list bytes := map (ldb_edit_export []) es.

Section Recover.
Context (udom : bytes -> Prop) (uc : comparator) `{!ComparatorLaws udom uc}.

(** Edits that a MANIFEST may hold: they are well formed, of this comparator,
    add files with new numbers that do not overlap above level 0 in the end, and
    the counters are there. *)
Record manifest_ok (es : list edit) : Prop := {
  mo_wf : Forall edit_wf es;
  mo_files : Forall (edit_ok udom uc) es;
  mo_names : Forall (fun e => from_option (fun name => name = cstr (cmp_name uc)) True (ed_comparator e)) es;
  mo_fresh l : level_ok l -> NoDup (added_by l es);
  mo_disjoint l : 0 < l -> level_ok l -> map_disjoint uc (apply_edits l ∅ es);
  mo_next : is_Some (last_number ed_next_file_number es None);
  mo_log : is_Some (last_number ed_log_number es None);
  mo_sequence : is_Some (last_number ed_last_sequence es None)
}.

(** The current version and the counters of a set. *)
Record set_is {W} (vs : versions W) (st : mstate) : Prop := {
  si_version : exists ver, current_version vs = Some ver /\ 1 <= ver_refs ver /\ levels_inv udom uc ver /\
    forall l, level_ok l -> base_map ver l = st_levels st l;
  si_log : vs_log_number vs = st_log st;
  si_prev : vs_prev_log_number vs = st_prev st;
  si_sequence : vs_last_sequence vs = st_seq st
}.

(** Versions in the list are the objects, each with a reference. *)
Record alive {W} (vs : versions W) : Prop := {
  al_list v : v ∈ vs_list vs <-> is_Some (vs_objects vs !! v);
  al_nodup : NoDup (vs_list vs);
  al_refs v ver : vs_objects vs !! v = Some ver -> 1 <= ver_refs ver;
  al_current : is_Some (current_version vs);
  al_next v : is_Some (vs_objects vs !! v) -> (v < vs_next_version vs)%nat
}.

(** Compaction pointers: internal keys, where set. *)
Definition pointers_wf (pointers : list bytes) : Prop :=
  zlen pointers = LDB_NUM_LEVELS /\ Forall (fun key => key = [] \/ ikey_ok key) pointers.

Lemma apply_pointers_wf entries : forall pointers pointers', Forall (fun p => level_ok (ike_level p) /\ ikey_ok (ike_key p)) entries ->
  pointers_wf pointers -> fold_opt apply_pointer entries pointers = Some pointers' -> pointers_wf pointers'.
Proof.
  induction entries as [|p entries IH]; intros pointers pointers' He [Hz Hp]; [by intros [= <-]|].
  apply Forall_cons_iff in He as [[Hl Hk] He]. cbn [fold_opt]. destruct (apply_pointer pointers p) as [p1|] eqn:E; [|done]. rewrite bind_some.
  apply IH; [done|]. unfold apply_pointer, set_level in E. destruct (item pointers (ike_level p)); [|done]. injection E as <-. split.
  - unfold zlen in *. by rewrite length_insert.
  - apply Forall_insert; [done|by right].
Qed.

Lemma builder_pointers heap pointers b ed heap' pointers' b' : builder_apply uc heap pointers b ed = Some (heap', pointers', b') ->
  fold_opt apply_pointer (ed_compact_pointers ed) pointers = Some pointers'.
Proof.
  unfold builder_apply. destruct (fold_opt apply_pointer _ _) as [p|]; [|done]. rewrite bind_some.
  destruct (fold_opt apply_deletion _ _) as [d|]; [|done]. rewrite bind_some.
  destruct (fold_opt _ (ed_new_files ed) _) as [[h lv]|]; [|done]. rewrite bind_some. by intros [= _ -> _].
Qed.

Lemma replay_pointers_wf es : forall heap pointers b heap' pointers' b', Forall edit_wf es -> pointers_wf pointers ->
  builder_apply_all uc heap pointers b es = Some (heap', pointers', b') -> pointers_wf pointers'.
Proof.
  induction es as [|ed es IH]; intros heap pointers b heap' pointers' b' Hw Hp; unfold builder_apply_all; cbn [fold_opt fst snd].
  { by intros [= _ <- _]. }
  apply Forall_cons_iff in Hw as [Hed Hw]. destruct (builder_apply uc heap pointers b ed) as [[[h p] b1]|] eqn:E; [|done]. rewrite bind_some.
  apply IH; [done|]. apply builder_pointers in E. by apply (apply_pointers_wf _ _ _ (wf_pointers _ Hed) Hp E).
Qed.

Lemma inv_files ver ver' : ver_files ver' = ver_files ver -> levels_inv udom uc ver -> levels_inv udom uc ver'.
Proof. intros E [Hz Hl]. split; [by rewrite E|]. intros level files H. apply Hl. unfold level_files in *. by rewrite <- E. Qed.

Lemma base_map_files ver ver' l : ver_files ver' = ver_files ver -> base_map ver' l = base_map ver l.
Proof. intros E. unfold base_map, level_files. by rewrite E. Qed.

Lemma finalize_files v : ver_files (ldb_versions_finalize v) = ver_files v /\ ver_refs (ldb_versions_finalize v) = ver_refs v.
Proof. unfold ldb_versions_finalize. by destruct (finalize_loop _ _ _ _). Qed.

Lemma save_refs b v v' : builder_save_to uc b v = Some v' -> ver_refs v' = ver_refs v.
Proof. unfold builder_save_to. destruct (save_levels uc b 0 (ver_files v)); [|done]. by intros [= <-]. Qed.

Lemma empty_level k l : level_ok l -> level_files (with_refs ldb_version_init k) l = Some [].
Proof.
  intros Hl. unfold level_files, item. destruct (Z.ltb_spec l 0); [unfold level_ok in Hl; lia|]. cbn [with_refs ver_files ldb_version_init].
  apply lookup_replicate_2. unfold level_ok in Hl. lia.
Qed.

Lemma empty_inv k : levels_inv udom uc (with_refs ldb_version_init k).
Proof.
  split; [done|]. intros level files E. assert (level_ok level) as Hl by (by apply (level_in (with_refs ldb_version_init k) level files)).
  rewrite empty_level in E by done. injection E as <-. split; [constructor|constructor|constructor|]. intros _. constructor.
Qed.

(** A version is built from a list of edits over a base version. *)
Lemma build_ok (W : Type) base heap pointers es :
  levels_inv udom uc base -> zlen pointers = LDB_NUM_LEVELS -> Forall (edit_ok udom uc) es ->
  (forall l, level_ok l -> NoDup (added_by l es ++ base_numbers base l)) ->
  (forall l, 0 < l -> level_ok l -> map_disjoint uc (apply_edits l (base_map base l) es)) ->
  exists heap' pointers' b ver,
    builder_apply_all uc heap pointers (builder_init base) es = Some (heap', pointers', b) /\ zlen pointers' = LDB_NUM_LEVELS /\
    (forall vs : versions W, build_version uc vs b = Some (new_version vs ver)) /\ ver_refs ver = 0 /\
    levels_inv udom uc ver /\ forall l, level_ok l -> base_map ver l = apply_edits l (base_map base l) es.
Proof.
  intros Hb Hz Hes Hn Hd.
  destruct (builder_apply_all_ok udom uc es heap pointers (builder_init base) _ _ (builder_init_ok udom uc base Hb) Hz Hes Hn)
    as (heap' & pointers' & b & seen' & E & Hz' & Ebase & Hn' & Hr).
  destruct (builder_save_ok udom uc b seen' (fun l => apply_edits l (base_map base l) es)) as (v & Es & Hv & Hm);
    [by rewrite Ebase|exact Hr|done|done|].
  destruct (finalize_files v) as [Ef Er]. exists heap', pointers', b, (ldb_versions_finalize v).
  split; [done|]. split; [done|]. split; [intros vs'; unfold build_version; by rewrite Es|].
  split; [rewrite Er; apply (save_refs _ _ _ Es)|]. split; [by apply (inv_files v)|]. intros l Hl. rewrite (base_map_files v) by done. auto.
Qed.

Lemma default_empty l : base_map (with_refs ldb_version_init 2) l = ∅ /\ base_numbers (with_refs ldb_version_init 2) l = [].
Proof.
  unfold base_map, base_numbers, level_files, item. destruct (l <? 0); [done|]. cbn [with_refs ver_files ldb_version_init].
  destruct (replicate _ [] !! Z.to_nat l) as [fs|] eqn:E; [|done]. apply lookup_replicate_1 in E as [-> _]. done.
Qed.

(** *** The name of the descriptor *)

Lemma c_string_id xs : Forall (fun b => b2z b <> 0) xs -> c_string xs = xs.
Proof. induction 1 as [|x xs Hx _ IH]; [done|]. cbn [c_string]. rewrite (proj2 (Z.eqb_neq _ 0)) by done. by rewrite IH. Qed.

Lemma desc_name_chars number : 0 <= number < 2 ^ 64 -> Forall (fun b => b2z b <> 0) (cstr "MANIFEST-" ++ ldb_encode_int number 6).
Proof.
  intros Hn. destruct (ldb_encode_int_spec number 6 Hn) as (Hd & _). apply Forall_app. split.
  - repeat (apply List.Forall_cons; [by vm_compute|]). apply List.Forall_nil.
  - eapply List.Forall_impl; [|exact Hd]. intros b Hb. unfold is_digit in Hb. lia.
Qed.

Context {E W : Type} (ops : env_ops E W) (rep : E -> fsview -> Prop) (names : E -> W -> bytes -> Prop) (safe : fsview -> Prop).
Context `{!EnvLaws ops rep names safe}.

Lemma read_current_ok e fs dbname number cur path s : rep e fs -> 0 <= number < 2 ^ 64 ->
  ldb_current_filename LDB_PATH_MAX dbname = Some cur -> ldb_desc_filename LDB_PATH_MAX dbname number = Some path ->
  fs !! cur = Some (VFile (current_contents number) s) ->
  read_current_filename ops e dbname = (LDB_OK, path).
Proof.
  intros R Hn Ec Ed Hf. unfold read_current_filename, ldb_read_file. rewrite Ec, (el_seqfile e fs cur R), Hf. cbn [vf_data].
  change (negb (LDB_OK =? LDB_OK)) with false. cbv iota. unfold current_contents. rewrite app_assoc.
  set (x := cstr "MANIFEST-" ++ ldb_encode_int number 6).
  assert (zlen (x ++ [z2b 10]) = zlen x + 1) as Hz by (rewrite zlen_app; done). pose proof (zlen_nonneg x).
  rewrite (proj2 (Z.eqb_neq (zlen (x ++ [z2b 10])) 0)) by lia. rewrite Hz, Z.add_simpl_r. cbn [orb].
  assert (at_ (x ++ [z2b 10]) (zlen x) = 10) as ->.
  { unfold at_, zlen. rewrite Nat2Z.id, app_nth2, Nat.sub_diag by lia. done. }
  cbn [Z.eqb Pos.eqb negb]. rewrite ztake_app by done. rewrite c_string_id by (by apply desc_name_chars).
  unfold x. unfold ldb_desc_filename in Ed. by rewrite Ed.
Qed.

Lemma reuse_ok e fs vs path f : rep e fs -> safe fs -> fs !! path = Some f ->
  vs_descriptor_file vs = None -> vs_descriptor_log vs = None ->
  exists reused vs' e', ldb_versions_reuse_manifest ops e vs path = Some (reused, vs', e') /\ rep e' fs /\
    (vs' = vs \/ exists file number, vs' = set_manifest (set_descriptor vs (Some file) (Some (ldb_writer_init file (zlen (vf_data f))))) number /\
      ldb_parse_filename (ldb_basename path) = Some (LDB_FILE_DESC, number) /\ names e' file path /\ opt_reuse_logs (vs_options vs) = true).
Proof.
  intros R Hs Hf Ef El. unfold ldb_versions_reuse_manifest. destruct (opt_reuse_logs (vs_options vs)); cbn [negb]; [|by exists false, vs, e; eauto].
  rewrite (el_file_size e fs path f R Hf). destruct (ldb_parse_filename (ldb_basename path)) as [[[] number]|]; try (by exists false, vs, e; eauto).
  destruct (_ <=? _); [by exists false, vs, e; eauto|]. rewrite Ef, El.
  destruct (el_appendfile e fs path f R Hf Hs) as (w & e' & -> & R' & N & _). exists true. eexists _, e'. split; [reflexivity|].
  split; [done|]. right. exists w, number. done.
Qed.

(** *** A fresh set *)

Lemma read_all_unique n : forall k junk lr x y, read_all n junk lr = Some x -> read_all k junk lr = Some y -> x = y.
Proof.
  induction n as [|n IH]; intros [|k] junk lr x y Ex Ey; try done. cbn [read_all] in *.
  destruct (ldb_reader_read_record junk lr) as [[[r|] lr1]|]; cbn [mbind option_bind] in *; [|congruence|done].
  destruct (read_all n junk lr1) as [x1|] eqn:E1; [|done]. destruct (read_all k junk lr1) as [y1|] eqn:E2; [|done].
  pose proof (IH _ _ _ _ _ E1 E2) as ->. congruence.
Qed.

(** What a log that was cut gives: at least the records in front of the cut. *)
Lemma read_cut_records junk rs n : 0 <= n -> exists m lr', (m <= length rs)%nat /\
  (forall j, (j <= length rs)%nat -> zlen (log_file (take j rs)) <= n -> (j <= m)%nat) /\
  read_all (S (length (ztake n (log_file rs)))) junk (ldb_reader_init (ztake n (log_file rs)) LDB_OK true true 0) = Some (take m rs, lr') /\
  lr_reports lr' = [].
Proof.
  intros Hn. destruct (read_cut_log junk rs n Hn) as (m & lr' & Erd & Hr & Hm). exists (Nat.min m (length rs)), lr'.
  split; [lia|]. split; [intros j Hj Hz; specialize (Hm j Hj Hz); lia|]. split; [|done]. set (data := ztake n (log_file rs)) in *.
  destruct (read_all_total junk (S (length data)) (ldb_reader_init data LDB_OK true true 0)) as (rs2 & lr2 & E2); [unfold left_bytes; cbn; lia|].
  pose proof (read_all_unique _ _ _ _ _ _ Erd E2) as [= <- <-]. rewrite E2.
  assert (take m rs = take (Nat.min m (length rs)) rs) as ->; [|done].
  destruct (Nat.min_spec m (length rs)) as [[? ->]|[? ->]]; [done|]. by rewrite !take_ge by lia.
Qed.

(** What the MANIFEST of length [n] gives. *)
Definition covered (es : list edit) (n : Z) (m : nat) : Prop :=
  (m <= length es)%nat /\ forall j, (j <= length es)%nat -> zlen (log_file (take j (records es))) <= n -> (j <= m)%nat.

Lemma read_manifest junk es n : 0 <= n -> exists m lr', covered es n m /\
  read_all (S (length (ztake n (log_file (records es))))) junk (ldb_reader_init (ztake n (log_file (records es))) LDB_OK true true 0) =
    Some (records (take m es), lr') /\ lr_reports lr' = [].
Proof.
  intros Hn. destruct (read_cut_records junk (records es) n Hn) as (m & lr' & H1 & H2 & H3 & H4). unfold records in H1, H2. rewrite length_map in H1, H2.
  exists m, lr'. split; [by split|]. unfold records in H3 |- *. by rewrite firstn_map in H3.
Qed.

Lemma mark_ok (vs : versions W) number : exists k, ldb_versions_mark_file_number vs number = set_next_file vs k.
Proof. unfold ldb_versions_mark_file_number. destruct (_ <=? _); [by eexists|]. exists (vs_next_file_number vs). by destruct vs. Qed.

(** The descriptor after a recovery: none, and the next number is the number of
    the next MANIFEST; or the MANIFEST that was read. *)
Definition descriptor_after (e : E) (vs : versions W) (path : bytes) (size next : Z) : Prop :=
  (vs_descriptor_file vs = None /\ vs_descriptor_log vs = None /\ vs_manifest_file_number vs = next) \/
  (exists file, vs_descriptor_file vs = Some file /\ vs_descriptor_log vs = Some (ldb_writer_init file size) /\ names e file path /\
    ldb_parse_filename (ldb_basename path) = Some (LDB_FILE_DESC, vs_manifest_file_number vs) /\ opt_reuse_logs (vs_options vs) = true).

(** The recovered version next to the empty one of a fresh set. *)
Record installed (vs vs' : versions W) (ver : ldb_version) (log prev next seq : Z) : Prop := {
  in_objects : vs_objects vs' = <[1%nat := with_refs ver 1]> {[0%nat := with_refs ldb_version_init 1]};
  in_list : vs_list vs' = vs_list vs ++ [1%nat];
  in_current : vs_current vs' = 1%nat;
  in_next_version : vs_next_version vs' = 2%nat;
  in_pointers : vs_compact_pointer vs' = vs_compact_pointer vs;
  in_dbname : vs_dbname vs' = vs_dbname vs;
  in_log : vs_log_number vs' = log;
  in_prev : vs_prev_log_number vs' = prev;
  in_sequence : vs_last_sequence vs' = seq;
  in_next : vs_next_file_number vs' = u64 (next + 1)
}.

Lemma install_ok e fs (vs : versions W) path f b heap pointers ver log prev next seq save :
  rep e fs -> safe fs -> fs !! path = Some f -> ver_refs ver = 0 ->
  (forall vs : versions W, build_version uc vs b = Some (new_version vs ver)) ->
  vs_descriptor_file vs = None -> vs_descriptor_log vs = None -> vs_next_version vs = 1%nat -> vs_current vs = 0%nat ->
  vs_objects vs = {[0%nat := with_refs ldb_version_init 2]} ->
  exists save' vs' e', install_recovered uc ops e vs path (Recovered (Some log) prev (Some next) (Some seq) heap pointers b) save
      = Some (save', vs', e') /\ rep e' fs /\ installed vs vs' ver log (default 0 prev) next seq /\
    descriptor_after e' vs' path (zlen (vf_data f)) next.
Proof.
  intros R Hs Hf Hr Hb Ef El Env Ecur Eobj. unfold install_recovered.
  cbn [rv_builder rv_next_file rv_last_sequence rv_log_number rv_prev_log_number]. rewrite Hb. cbn [mbind option_bind].
  unfold new_version. rewrite Env, Eobj.
  rewrite (append_version_ok _ 1%nat ver (with_refs ldb_version_init 2)); cbn [set_objects vs_objects vs_current];
    [|apply lookup_insert_eq|done|by rewrite Ecur|rewrite Ecur, lookup_insert_ne by done; apply lookup_singleton_eq|done].
  rewrite bind_some. cbv beta zeta. rewrite Ecur, dropped_more by done. unfold unlisted.
  change (ver_refs (with_refs ldb_version_init 2) =? 1) with false. cbv iota.
  rewrite (insert_insert_ne {[0%nat := _]}), insert_insert_eq, insert_singleton_eq by done.
  set (objects := <[1%nat := with_refs ver 1]> _). set (vs1 := set_logs _ _ _).
  assert (installed vs vs1 ver log (default 0 prev) next seq) as Hin by done.
  assert (vs_descriptor_file vs1 = None /\ vs_descriptor_log vs1 = None /\ vs_manifest_file_number vs1 = next /\ vs_options vs1 = vs_options vs)
    as (V1 & V2 & V3 & V4) by done.
  clearbody vs1. destruct (reuse_ok e fs vs1 path f R Hs Hf V1 V2) as (reused & vs' & e' & -> & R' & Hvs).
  rewrite bind_some. eexists _, vs', e'. split; [reflexivity|]. split; [done|].
  destruct Hvs as [->|(file & number & -> & Hn & N & Ho)]; [split; [done|by left]|].
  split; [by destruct Hin; split|]. right. exists file. done.
Qed.

Lemma fresh_ref dbname options :
  ldb_version_ref (ldb_versions_create (W := W) dbname options) 0 =
    Some (set_objects (ldb_versions_create dbname options) 1 {[0%nat := with_refs ldb_version_init 2]} [0%nat] 0).
Proof. rewrite (ref_ok _ 0%nat (with_refs ldb_version_init 1)) by apply lookup_singleton_eq. unfold set_objects. cbn -[insert]. by rewrite insert_singleton_eq. Qed.

(** A set in which the recovered version is the only one. *)
Record recovered_as (vs : versions W) (st : mstate) : Prop := {
  ra_set : set_is vs st;
  ra_alive : alive vs;
  ra_pointers : pointers_wf (vs_compact_pointer vs);
  ra_next : vs_next_file_number vs = u64 (st_next st + 1);
  ra_list : length (vs_list vs) = 1%nat
}.

Lemma single_ok (vs vs' : versions W) ver es log prev next seq : installed vs vs' ver log prev next seq -> vs_list vs = [0%nat] ->
  levels_inv udom uc ver -> (forall l, level_ok l -> base_map ver l = st_levels (state_of es) l) -> pointers_wf (vs_compact_pointer vs) ->
  log = st_log (state_of es) -> prev = st_prev (state_of es) -> next = st_next (state_of es) -> seq = st_seq (state_of es) ->
  exists vs2, ldb_version_unref vs' 0 = Some vs2 /\ recovered_as vs2 (state_of es) /\
    vs2 = set_objects vs' 2 {[1%nat := with_refs ver 1]} [1%nat] 1.
Proof.
  intros [Io Il Ic In Ip Id Ilog Iprev Iseq Inext] Hl Hinv Hmap Hp El Ep En Eq.
  rewrite (unref_ok vs' 0%nat (with_refs ldb_version_init 1)); [|rewrite Io, lookup_insert_ne by done; apply lookup_singleton_eq|done].
  rewrite dropped_last by done. unfold unlisted. change (ver_refs (with_refs ldb_version_init 1) =? 1) with true. cbv iota.
  rewrite Il, Hl, Ic, In. cbn [app List.filter Nat.eqb negb].
  assert (delete 0%nat (vs_objects vs') = {[1%nat := with_refs ver 1]}) as ->.
  { rewrite Io, delete_insert_ne by done. by rewrite delete_singleton_eq, insert_empty. }
  eexists. split; [reflexivity|]. split; [|done]. split; cbn [set_objects vs_compact_pointer vs_next_file_number vs_list].
  - split; cbn [set_objects vs_log_number vs_prev_log_number vs_last_sequence]; try congruence.
    exists (with_refs ver 1). unfold current_version. cbn [set_objects vs_objects vs_current]. rewrite lookup_singleton_eq.
    split; [done|]. split; [done|]. split; [by apply (inv_files ver)|]. intros l Hlev. rewrite (base_map_files ver) by done. auto.
  - split; unfold current_version; cbn [set_objects vs_list vs_objects vs_current vs_next_version].
    + intros v. rewrite list_elem_of_singleton. destruct (decide (v = 1%nat)) as [->|Hv]; [rewrite lookup_singleton_eq; split; [by eexists|done]|].
      rewrite lookup_singleton_ne by done. split; [done|by intros [? ?]].
    + apply NoDup_singleton.
    + intros v wver. rewrite lookup_singleton_Some. by intros [_ <-].
    + rewrite lookup_singleton_eq. by eexists.
    + intros v [w Hw]. apply lookup_singleton_Some in Hw as [<- _]. lia.
  - by rewrite Ip.
  - congruence.
  - done.
Qed.

(** The edits read are replayed over the empty version. *)
Lemma replay_ok junk es n m lr' heap : manifest_ok es -> read_all n junk lr' = Some (records es, m) -> lr_reports m = [] ->
  exists heap' pointers' b ver log next seq,
    (forall fuel, (n <= fuel)%nat ->
      recover_loop uc fuel junk lr' LDB_OK (Recovered None None None None heap (replicate (Z.to_nat LDB_NUM_LEVELS) [])
        (builder_init (with_refs ldb_version_init 2))) =
      Some (LDB_OK, Recovered (Some log) (last_number ed_prev_log_number es None) (Some next) (Some seq) heap' pointers' b)) /\
    log = st_log (state_of es) /\ next = st_next (state_of es) /\ seq = st_seq (state_of es) /\ pointers_wf pointers' /\
    (forall vs : versions W, build_version uc vs b = Some (new_version vs ver)) /\ ver_refs ver = 0 /\ levels_inv udom uc ver /\
    forall l, level_ok l -> base_map ver l = st_levels (state_of es) l.
Proof.
  intros [Hwf Hes Hnames Hfresh Hdis [next Enext] [log Elog] [seq Eseq]] Er Hrep.
  destruct (build_ok W (with_refs ldb_version_init 2) heap (replicate (Z.to_nat LDB_NUM_LEVELS) []) es)
    as (heap' & pointers' & b & ver & Eb & Hz & Hbuild & Hrefs & Hinv & Hmap); [apply empty_inv|done|done| | |].
  { intros l Hl. rewrite (proj2 (default_empty l)), app_nil_r. auto. }
  { intros l Hpos Hl. rewrite (proj1 (default_empty l)). auto. }
  exists heap', pointers', b, ver, log, next, seq. split.
  { intros fuel Hf. rewrite <- Elog, <- Enext, <- Eseq. by apply (recover_loop_ok uc es fuel n junk lr' m). }
  unfold state_of. cbn [st_log st_next st_seq st_levels]. rewrite Elog, Enext, Eseq. do 3 (split; [done|]).
  split. { apply (replay_pointers_wf es _ _ _ _ _ _ Hwf) in Eb; [done|]. split; [done|]. apply Forall_replicate. by left. }
  do 3 (split; [done|]). intros l Hl. rewrite Hmap by done. by rewrite (proj1 (default_empty l)).
Qed.

Lemma recover_ok junk e fs dbname options save number cur path s f es n : rep e fs -> safe fs -> 0 <= number < 2 ^ 64 ->
  ldb_current_filename LDB_PATH_MAX dbname = Some cur -> ldb_desc_filename LDB_PATH_MAX dbname number = Some path ->
  fs !! cur = Some (VFile (current_contents number) s) -> fs !! path = Some f -> vf_data f = ztake n (log_file (records es)) -> 0 <= n ->
  (forall m, covered es n m -> manifest_ok (take m es)) ->
  exists m save' vs' e', covered es n m /\
    ldb_versions_recover uc ops junk e (ldb_versions_create (W := W) dbname options) save = Some (LDB_OK, save', vs', e') /\
    rep e' fs /\ recovered_as vs' (state_of (take m es)) /\ vs_dbname vs' = dbname /\
    descriptor_after e' vs' path (zlen (vf_data f)) (st_next (state_of (take m es))).
Proof.
  intros R Hs Hn Ec Ed Hcur Hf Hdata Hn0 Hok. destruct (read_manifest junk es n Hn0) as (m & lr' & Hm & Er & Hrep). exists m.
  unfold ldb_versions_recover. change (vs_dbname (ldb_versions_create dbname options)) with dbname.
  rewrite (read_current_ok e fs dbname number cur path s R Hn Ec Ed Hcur).
  change (negb (LDB_OK =? LDB_OK)) with false. cbv iota. rewrite (el_seqfile e fs path R), Hf, Hdata.
  set (data := ztake n (log_file (records es))) in *.
  change (vs_current (ldb_versions_create dbname options)) with 0%nat. rewrite fresh_ref. cbn [mbind option_bind set_objects vs_objects].
  rewrite lookup_singleton_eq. cbn [mbind option_bind set_objects vs_heap vs_compact_pointer ldb_versions_create ldb_versions_init].
  destruct (replay_ok junk (take m es) _ lr' _ (FileHeap 0 ∅) (Hok m Hm) Er Hrep)
    as (heap' & pointers' & b & ver & log & next & seq & Eloop & Elog & Enext & Eseq & Hp & Hbuild & Hrefs & Hinv & Hmap).
  rewrite Eloop by lia. cbn [mbind option_bind rv_heap rv_pointers rv_prev_log_number rv_log_number].
  change (LDB_OK =? LDB_OK) with true. cbv iota.
  unfold recover_status. cbn [rv_next_file rv_log_number rv_last_sequence]. change (LDB_OK =? LDB_OK) with true. cbv iota.
  change (LDB_OK =? LDB_OK) with true. cbv iota.
  match goal with |- context [ldb_versions_mark_file_number (ldb_versions_mark_file_number ?vs ?a) ?b] =>
    destruct (mark_ok vs a) as [k1 ->]; destruct (mark_ok (set_next_file vs k1) b) as [k2 ->] end.
  match goal with |- context [install_recovered uc ops e ?vs path ?r save] => set (vs1 := vs) end.
  destruct (install_ok e fs vs1 path f b heap' pointers' ver log (last_number ed_prev_log_number (take m es) None) next seq save R Hs Hf Hrefs Hbuild)
    as (save' & vs' & e' & -> & R' & Hin & Hdesc); [reflexivity..|]. rewrite bind_some.
  destruct (single_ok vs1 vs' ver (take m es) _ _ _ _ Hin) as (vs2 & -> & Hrec & Evs2); try done.
  rewrite bind_some. exists save', vs2, e'. split; [done|]. split; [reflexivity|]. split; [done|]. split; [done|].
  rewrite <- Enext. subst vs2. split; [apply (in_dbname _ _ _ _ _ _ _ Hin)|]. by rewrite <- Hdata.
Qed.
End Recover.
