(* ===== verification/Snapshot.v ===== *)
(** * Snapshots of the version set

    A new MANIFEST starts with one edit that holds the whole current version.
    This file proves that the snapshot describes the version it was taken of. *)

From stdpp Require Import strings sorting gmap.
From S2P Require Import Prelude Coding Status Strutil Comparator DBFormat Vector VersionEdit FileList Version VersionBuilder VersionSet Recovery.
#[local] Open Scope Z_scope.

(** ** The entries of a snapshot *)

Definition file_entries_of (level : Z) (files : list fileptr) : list meta_entry :=
  map (fun f => meta_entry_create level (f_number f) (f_file_size f) (f_smallest f) (f_largest f)) files.

Fixpoint level_entries (level : Z) (levels : list (list fileptr)) : list meta_entry :=
  match levels with [] => [] | files :: levels => file_entries_of level files ++ level_entries (level + 1) levels end.

(** Only the new files differ. *)
Definition with_new (e : edit) (entries : list meta_entry) : edit :=
  Edit (ed_comparator e) (ed_log_number e) (ed_prev_log_number e) (ed_next_file_number e) (ed_last_sequence e) (ed_compact_pointers e)
    (ed_deleted_files e) (ed_new_files e ++ entries).

Lemma snapshot_files_eq level files : forall e, snapshot_files level files e = with_new e (file_entries_of level files).
Proof.
  induction files as [|f files IH]; intros e; unfold snapshot_files; cbn [fold_left].
  { unfold with_new. cbn. rewrite app_nil_r. by destruct e. }
  fold (snapshot_files level files (ldb_edit_add_file e level (f_number f) (f_file_size f) (f_smallest f) (f_largest f))).
  rewrite IH. unfold with_new. cbn. by rewrite <- app_assoc.
Qed.

Lemma snapshot_levels_eq levels : forall level e, snapshot_levels level levels e = with_new e (level_entries level levels).
Proof.
  induction levels as [|files levels IH]; intros level e; cbn [snapshot_levels level_entries].
  { unfold with_new. cbn. rewrite app_nil_r. by destruct e. }
  rewrite IH, snapshot_files_eq. unfold with_new. cbn. by rewrite <- app_assoc.
Qed.

(** The pointers that are set. *)
Fixpoint pointer_entries (level : Z) (pointers : list bytes) : list ikey_entry :=
  match pointers with
  | [] => []
  | key :: pointers => (if 0 <? zlen key then [IkeyEntry level key] else []) ++ pointer_entries (level + 1) pointers
  end.

Lemma snapshot_pointers_eq pointers : forall level e,
  snapshot_pointers level pointers e =
    Edit (ed_comparator e) (ed_log_number e) (ed_prev_log_number e) (ed_next_file_number e) (ed_last_sequence e)
      (ed_compact_pointers e ++ pointer_entries level pointers) (ed_deleted_files e) (ed_new_files e).
Proof.
  induction pointers as [|key pointers IH]; intros level e; cbn [snapshot_pointers pointer_entries].
  { rewrite app_nil_r. by destruct e. }
  rewrite IH. destruct (0 <? zlen key); [|done]. cbn. by rewrite <- app_assoc.
Qed.

Lemma snapshot_eq uc {W} (vs : versions W) ver :
  snapshot_edit uc vs ver =
    Edit (Some (cstr (cmp_name uc))) None None None None (pointer_entries 0 (vs_compact_pointer vs)) [] (level_entries 0 (ver_files ver)).
Proof. unfold snapshot_edit. rewrite snapshot_levels_eq, snapshot_pointers_eq. done. Qed.

(** ** What the snapshot describes *)

Lemma added_numbers_app l xs ys : added_numbers l (xs ++ ys) = added_numbers l xs ++ added_numbers l ys.
Proof. unfold added_numbers. by rewrite filter_app, List.map_app. Qed.

Lemma file_entries_numbers l level files : added_numbers l (file_entries_of level files) = if level =? l then numbers files else [].
Proof.
  unfold added_numbers, file_entries_of. induction files as [|f files IH]; cbn [map List.filter]; [by destruct (level =? l)|].
  cbn [meta_entry_create me_level]. destruct (level =? l); cbn [map]; [by rewrite IH|done].
Qed.

Lemma level_entries_numbers l levels : forall level, 0 <= level -> level <= l ->
  added_numbers l (level_entries level levels) = numbers (default [] (levels !! Z.to_nat (l - level))).
Proof.
  induction levels as [|files levels IH]; intros level H0 Hl; [done|]. cbn [level_entries].
  rewrite added_numbers_app, file_entries_numbers. destruct (Z.eqb_spec level l) as [->|Hne].
  - rewrite Z.sub_diag. cbn [Z.to_nat lookup list_lookup default from_option id].
    assert (forall lv levels, l < lv -> added_numbers l (level_entries lv levels) = []) as Hlater.
    { clear. intros lv levels. revert lv. induction levels as [|fs levels IH]; intros lv Hlv; [done|]. cbn [level_entries].
      rewrite added_numbers_app, file_entries_numbers, (proj2 (Z.eqb_neq _ _)) by lia. apply IH. lia. }
    rewrite Hlater by lia. apply app_nil_r.
  - rewrite IH by lia. replace (Z.to_nat (l - level)) with (S (Z.to_nat (l - (level + 1)))) by lia. done.
Qed.

Lemma insert_file level m f :
  insert_entry level m (meta_entry_create level (f_number f) (f_file_size f) (f_smallest f) (f_largest f)) =
    <[f_number f := meta_info (fp_meta f)]> m.
Proof. unfold insert_entry. cbn [meta_entry_create me_level]. by rewrite Z.eqb_refl. Qed.

(** The files of a level, inserted one by one. *)
Lemma insert_files_lookup level files n i : forall m, NoDup (numbers files) ->
  fold_left (insert_entry level) (file_entries_of level files) m !! n = Some i <->
    (exists f, f ∈ files /\ f_number f = n /\ meta_info (fp_meta f) = i) \/ (m !! n = Some i /\ n ∉ numbers files).
Proof.
  induction files as [|f files IH]; intros m Hn; cbn [file_entries_of map fold_left].
  { setoid_rewrite elem_of_nil. split; [intros H; right; split; [done|tauto]|intros [(f & [] & _)|[H _]]; done]. }
  cbn [map] in Hn. apply list.NoDup_cons in Hn as [Hf Hn]. fold (file_entries_of level files). rewrite IH by done.
  rewrite insert_file, lookup_insert_Some. setoid_rewrite elem_of_cons. split.
  - intros [(g & Hg & H)|[[[E1 E2]|[Hne Hm]] Hni]]; [left; exists g; tauto|left; exists f; tauto|]. right. split; [done|]. intros [E|H]; [by symmetry in E|done].
  - intros [(g & [->|Hg] & E1 & E2)|[Hm Hni]].
    + right. split; [by left|]. by rewrite <- E1.
    + left. by exists g.
    + right. split; [right; split; [|done]; intros E; apply Hni; by left|]. intros H. apply Hni. by right.
Qed.

Lemma insert_entries_other l level files m : level <> l -> fold_left (insert_entry l) (file_entries_of level files) m = m.
Proof.
  intros Hne. unfold file_entries_of. revert m. induction files as [|f files IH]; intros m; [done|]. cbn [map fold_left].
  unfold insert_entry at 2. cbn [meta_entry_create me_level]. by rewrite (proj2 (Z.eqb_neq _ _)).
Qed.

Lemma level_entries_map l levels : forall level m, 0 <= level ->
  fold_left (insert_entry l) (level_entries level levels) m =
    if l <? level then m else fold_left (insert_entry l) (file_entries_of l (default [] (levels !! Z.to_nat (l - level)))) m.
Proof.
  induction levels as [|files levels IH]; intros level m H0; cbn [level_entries].
  { by destruct (l <? level). }
  rewrite fold_left_app, IH by lia. destruct (Z.ltb_spec l (level + 1)), (Z.ltb_spec l level); try lia.
  - apply insert_entries_other. lia.
  - assert (level = l) as -> by lia. by rewrite Z.sub_diag.
  - rewrite (insert_entries_other l level) by lia. replace (Z.to_nat (l - level)) with (S (Z.to_nat (l - (level + 1)))) by lia. done.
Qed.

Section Snapshot.
Context (udom : bytes -> Prop) (uc : comparator) `{!ComparatorLaws udom uc}.

Lemma level_default ver l : level_ok l -> default [] (level_files ver l) = default [] (ver_files ver !! Z.to_nat l).
Proof. intros [Hl _]. unfold level_files, item. by rewrite (proj2 (Z.ltb_ge _ _)). Qed.

Lemma snapshot_level {W} (vs : versions W) ver l : levels_inv udom uc ver -> level_ok l ->
  apply_edit l ∅ (snapshot_edit uc vs ver) = base_map ver l.
Proof.
  intros Hi Hl. unfold apply_edit. rewrite snapshot_eq. cbn [ed_new_files ed_deleted_files fold_left].
  rewrite level_entries_map, (proj2 (Z.ltb_ge l 0)) by (unfold level_ok in Hl; lia). rewrite Z.sub_0_r, <- level_default by done.
  unfold base_map. destruct (level_some ver l (vi_levels _ _ ver Hi) Hl) as [files E]. rewrite E. cbn [default from_option id].
  pose proof (li_numbers _ _ _ _ (vi_level _ _ ver Hi l files E)) as Hn. apply level_map_eq; [done|]. intros n i.
  rewrite insert_files_lookup by done. rewrite lookup_empty. split; [intros [H|[? _]]; [exact H|done]|by left].
Qed.

Lemma snapshot_numbers {W} (vs : versions W) ver l : level_ok l -> added_numbers l (ed_new_files (snapshot_edit uc vs ver)) = base_numbers ver l.
Proof.
  intros Hl. rewrite snapshot_eq. cbn [ed_new_files]. rewrite level_entries_numbers by (unfold level_ok in Hl; lia).
  by rewrite Z.sub_0_r, <- level_default.
Qed.

(** ** The snapshot is a good edit *)

(** The ranges of numbers and keys, which files keep from the edits that added
    them. *)
Definition info_typed (n : Z) (i : file_info) : Prop :=
  num_ok n /\ num_ok i.1.1 /\ ikey_ok i.1.2 /\ ikey_ok i.2.

Definition map_typed (m : level_state_map) : Prop := forall n i, m !! n = Some i -> info_typed n i.

Lemma apply_edit_typed l m e : edit_wf e -> map_typed m -> map_typed (apply_edit l m e).
Proof.
  intros He Hm. unfold apply_edit. pose proof (wf_new e He) as Hnew.
  assert (map_typed (fold_left (delete_entry l) (ed_deleted_files e) m)) as Hd.
  { generalize (ed_deleted_files e). intros ds. revert m Hm. induction ds as [|d ds IH]; intros m Hm; [done|]. cbn [fold_left]. apply IH.
    unfold delete_entry. destruct (_ =? l); [|done]. intros n i [_ H]%lookup_delete_Some. by apply Hm. }
  revert Hd. generalize (fold_left (delete_entry l) (ed_deleted_files e) m). clear m Hm.
  induction Hnew as [|a entries Ha _ IH]; intros m Hm; [done|]. cbn [fold_left]. apply IH.
  unfold insert_entry. destruct (_ =? l); [|done]. destruct Ha as (_ & H1 & H2 & H3 & H4 & _).
  intros n i [[<- <-]|[_ H]]%lookup_insert_Some; [done|by apply Hm].
Qed.

Lemma apply_edits_typed l es : forall m, Forall edit_wf es -> map_typed m -> map_typed (apply_edits l m es).
Proof.
  induction es as [|e es IH]; intros m He Hm; [done|]. apply Forall_cons_iff in He as [He Hes]. apply IH; [done|]. by apply apply_edit_typed.
Qed.

Lemma pointer_entries_wf pointers : forall level, 0 <= level -> level + zlen pointers <= LDB_NUM_LEVELS ->
  Forall (fun key => key = [] \/ ikey_ok key) pointers ->
  Forall (fun p => level_ok (ike_level p) /\ ikey_ok (ike_key p)) (pointer_entries level pointers).
Proof.
  induction pointers as [|key pointers IH]; intros level H0 Hz Hp; [constructor|]. cbn [pointer_entries].
  apply Forall_cons_iff in Hp as [Hk Hp]. rewrite zlen_cons in Hz. pose proof (zlen_nonneg pointers). apply Forall_app. split.
  - destruct (Z.ltb_spec 0 (zlen key)) as [Hpos|]; [|constructor]. constructor; [|constructor]. cbn [ike_level ike_key].
    split; [unfold level_ok; lia|]. destruct Hk as [->|Hk]; [done|done].
  - apply IH; [lia|lia|done].
Qed.

Lemma level_entries_wf levels : forall level, 0 <= level -> level + zlen levels <= LDB_NUM_LEVELS ->
  Forall (Forall (fun f => info_typed (f_number f) (meta_info (fp_meta f)) /\ file_wf udom uc f)) levels ->
  Forall (fun a => meta_ok a /\ meta_wf udom uc (me_meta a)) (level_entries level levels).
Proof.
  induction levels as [|files levels IH]; intros level H0 Hz Hf; [constructor|]. cbn [level_entries].
  apply Forall_cons_iff in Hf as [Hf Hfs]. rewrite zlen_cons in Hz. pose proof (zlen_nonneg levels). apply Forall_app. split; [|apply IH; [lia|lia|done]].
  unfold file_entries_of. apply List.Forall_map. eapply List.Forall_impl; [|exact Hf]. intros f [(T1 & T2 & T3 & T4) [W1 W2 W3 W4]]. split.
  - unfold meta_ok. cbn. split; [unfold level_ok; lia|]. done.
  - by split.
Qed.

Lemma files_typed ver es : levels_inv udom uc ver -> (forall l, level_ok l -> base_map ver l = apply_edits l ∅ es) -> Forall edit_wf es ->
  Forall (Forall (fun f => info_typed (f_number f) (meta_info (fp_meta f)) /\ file_wf udom uc f)) (ver_files ver).
Proof.
  intros Hi Hm He. apply Forall_lookup. intros i files Ef.
  assert (level_files ver (Z.of_nat i) = Some files) as El by (unfold level_files, item; rewrite (proj2 (Z.ltb_ge _ _)), Nat2Z.id by lia; done).
  pose proof (level_in ver _ _ (vi_levels _ _ ver Hi) El) as Hl. destruct (vi_level _ _ ver Hi _ _ El) as [Hw Hn _ _].
  apply List.Forall_forall. intros f Hf. split; [|rewrite List.Forall_forall in Hw; by apply Hw].
  apply (apply_edits_typed (Z.of_nat i) es ∅ He); [intros n x; by rewrite lookup_empty|]. rewrite <- Hm by done. unfold base_map. rewrite El.
  apply level_map_lookup; [done|]. exists f. by rewrite list_elem_of_In.
Qed.

Lemma snapshot_wf {W} (vs : versions W) ver es : levels_inv udom uc ver -> (forall l, level_ok l -> base_map ver l = apply_edits l ∅ es) ->
  Forall edit_wf es -> pointers_wf (vs_compact_pointer vs) -> zlen (cstr (cmp_name uc)) < 2 ^ 32 ->
  edit_wf (snapshot_edit uc vs ver) /\ edit_ok udom uc (snapshot_edit uc vs ver).
Proof.
  intros Hi Hm He [Hz Hp] Hname. rewrite snapshot_eq.
  pose proof (pointer_entries_wf (vs_compact_pointer vs) 0 ltac:(lia) ltac:(lia) Hp) as Hpe.
  pose proof (level_entries_wf (ver_files ver) 0 ltac:(lia) ltac:(rewrite (vi_levels _ _ ver Hi); lia) (files_typed ver es Hi Hm He)) as Hle.
  split; split; cbn [ed_comparator ed_log_number ed_prev_log_number ed_next_file_number ed_last_sequence ed_compact_pointers ed_deleted_files
    ed_new_files from_option]; try done; try constructor.
  - eapply List.Forall_impl; [|exact Hle]. by intros a [H _].
  - eapply List.Forall_impl; [|exact Hpe]. by intros p [H _].
  - eapply List.Forall_impl; [|exact Hle]. intros a [(Hl & _) H]. by split.
Qed.
End Snapshot.
