(* ===== verification/Manifest.v ===== *)
(** * Applying edits to the version set

    [ldb_versions_apply] writes an edit to the MANIFEST and installs the version
    it leads to.  This file proves that the MANIFEST always describes the
    current version, whatever the edits, and that a crash at any moment of an
    application leaves the state before it or the state after it. *)

From stdpp Require Import strings sorting gmap.
From Stdlib Require Import SpecFloat.
From S2P Require Import Prelude Status Strutil Comparator DBFormat File LogWriter LogReader Options Vector VersionEdit Iterator FileList Version VersionBuilder Env VersionSet LogFile Recovery Snapshot.
#[local] Open Scope Z_scope.

(** ** The numbers of a level *)

Lemma added_by_app l es es' : added_by l (es ++ es') = added_by l es ++ added_by l es'.
Proof. unfold added_by. by rewrite map_app, concat_app. Qed.

Lemma apply_edits_app l m es es' : apply_edits l m (es ++ es') = apply_edits l (apply_edits l m es) es'.
Proof. apply fold_left_app. Qed.

Lemma last_number_app get es es' old : last_number get (es ++ es') old = last_number get es' (last_number get es old).
Proof. apply fold_left_app. Qed.

Lemma delete_entries_dom l ds : forall m n, is_Some (fold_left (delete_entry l) ds m !! n) -> is_Some (m !! n).
Proof.
  induction ds as [|d ds IH]; intros m n H; [done|]. apply IH in H. unfold delete_entry in H. destruct (_ =? _); [|done].
  destruct (decide (fe_number d = n)) as [E|]; [rewrite E, lookup_delete_eq in H; by destruct H|by rewrite lookup_delete_ne in H].
Qed.

Lemma insert_entries_dom l entries : forall m n, is_Some (fold_left (insert_entry l) entries m !! n) ->
  is_Some (m !! n) \/ n ∈ added_numbers l entries.
Proof.
  induction entries as [|a entries IH]; intros m n H; [by left|]. apply IH in H. unfold insert_entry, added_numbers in *. cbn [List.filter].
  destruct (me_level a =? l) eqn:E; cbn [map]; rewrite ?elem_of_cons; [|tauto].
  destruct H as [H|H]; [|tauto]. destruct (decide (fm_number (me_meta a) = n)) as [E1|]; [rewrite E1; tauto|]. rewrite lookup_insert_ne in H by done. tauto.
Qed.

(** A file of a level was added to it. *)
Lemma apply_edits_dom l es : forall m n, is_Some (apply_edits l m es !! n) -> is_Some (m !! n) \/ n ∈ added_by l es.
Proof.
  induction es as [|e es IH]; intros m n H; [by left|]. unfold apply_edits in H. cbn [fold_left] in H. apply IH in H.
  unfold added_by. cbn [map concat]. rewrite elem_of_app. destruct H as [H|H]; [|tauto]. unfold apply_edit in H.
  apply insert_entries_dom in H as [H|H]; [|tauto]. apply delete_entries_dom in H. tauto.
Qed.

(** ** States *)

Definition same_state (st st' : mstate) : Prop :=
  st_log st = st_log st' /\ st_prev st = st_prev st' /\ st_next st = st_next st' /\ st_seq st = st_seq st' /\
  forall l, level_ok l -> st_levels st l = st_levels st' l.

#[global] Instance same_state_equivalence : Equivalence same_state.
Proof.
  unfold same_state. split.
  - by intros x.
  - intros x y (-> & -> & -> & -> & H). do 4 (split; [done|]). intros l Hl. by rewrite H.
  - intros x y z (-> & -> & -> & -> & H) (-> & -> & -> & -> & H'). do 4 (split; [done|]). intros l Hl. by rewrite H, H'.
Qed.

Section Manifest.
Context (udom : bytes -> Prop) (uc : comparator) `{!ComparatorLaws udom uc}.

#[global] Instance set_is_proper {W} (vs : versions W) : Proper (same_state ==> iff) (set_is udom uc vs).
Proof.
  assert (forall st st', same_state st st' -> set_is udom uc vs st -> set_is udom uc vs st') as H.
  { intros st st' (E1 & E2 & E3 & E4 & El) [(ver & Hc & Hr & Hi & Hm) H1 H2 H3]. split; try congruence.
    exists ver. do 3 (split; [done|]). intros l Hl. by rewrite Hm, El. }
  intros st st' E. split; apply H; [done|by symmetry].
Qed.

(** ** One edit *)

Lemma base_fresh ver es ed l : levels_inv udom uc ver -> (forall l, level_ok l -> base_map ver l = apply_edits l ∅ es) -> level_ok l ->
  NoDup (added_by l (es ++ [ed])) -> NoDup (added_by l [ed] ++ base_numbers ver l).
Proof.
  intros Hi Hm Hl Hn. rewrite added_by_app in Hn. apply list.NoDup_app in Hn as (_ & Hdis & Hnew).
  destruct (level_some ver l (vi_levels _ _ ver Hi) Hl) as [files Ef]. specialize (Hm l Hl).
  unfold base_numbers, base_map in *. rewrite Ef in *. cbn [default from_option id] in *.
  pose proof (li_numbers _ _ _ _ (vi_level _ _ ver Hi l files Ef)) as Hnd. apply list.NoDup_app. split; [done|]. split; [|done].
  intros n Hn1 Hn2. apply (Hdis n); [|done]. destruct (apply_edits_dom l es ∅ n) as [H|H]; [|by rewrite lookup_empty in H; destruct H|done].
  rewrite <- Hm. apply list_elem_of_In, in_map_iff in Hn2 as (f & <- & Hf). exists (meta_info (fp_meta f)).
  apply level_map_lookup; [done|]. exists f. by rewrite list_elem_of_In.
Qed.

Lemma manifest_last es ed : manifest_ok udom uc (es ++ [ed]) -> edit_wf ed /\ edit_ok udom uc ed /\
  from_option (fun name => name = cstr (cmp_name uc)) True (ed_comparator ed).
Proof.
  intros [Hwf Hf Hn _ _ _ _ _]. rewrite List.Forall_app in Hwf, Hf, Hn. destruct Hwf as [_ Hwf], Hf as [_ Hf], Hn as [_ Hn].
  by apply List.Forall_inv in Hwf, Hf, Hn.
Qed.

(** The base version keeps its references while the edit is applied to it. *)
Lemma edited_by {W} (vs : versions W) cur ed heap pointers b ver : alive vs -> current_version vs = Some cur ->
  builder_apply uc (vs_heap vs) (vs_compact_pointer vs) (builder_init (with_refs cur (ver_refs cur + 1))) ed = Some (heap, pointers, b) ->
  (forall vs : versions W, build_version uc vs b = Some (new_version vs ver)) ->
  edited_version uc vs ed = Some (vs_next_version vs, set_objects (set_edited vs heap pointers) (S (vs_next_version vs))
    (<[vs_next_version vs := ver]> (vs_objects vs)) (vs_list vs) (vs_current vs)).
Proof.
  intros Ha Ecur Eb Hb. unfold current_version in Ecur. pose proof (al_next vs Ha _ (ex_intro _ cur Ecur)) as Hlt.
  pose proof (al_refs vs Ha _ cur Ecur) as Hrefs. set (cur' := with_refs cur (ver_refs cur + 1)) in *.
  unfold edited_version. rewrite (ref_ok vs _ cur Ecur), bind_some. cbn [set_objects vs_objects]. rewrite lookup_insert_eq, bind_some.
  fold cur'. cbn [set_objects vs_heap vs_compact_pointer]. rewrite Eb, bind_some. rewrite Hb, bind_some. unfold new_version.
  erewrite (unref_ok _ (vs_current vs) cur'); [| |cbn [cur' with_refs ver_refs]; lia].
  2: { cbn [set_objects set_edited vs_objects vs_next_version]. rewrite lookup_insert_ne by lia. apply lookup_insert_eq. }
  rewrite bind_some, dropped_more by (cbn [cur' with_refs ver_refs]; lia).
  assert (with_refs cur' (ver_refs cur' - 1) = cur) as ->.
  { unfold cur'. destruct cur. unfold with_refs. cbn. by rewrite Z.add_simpl_r. }
  unfold unlisted. rewrite (proj2 (Z.eqb_neq (ver_refs cur') 1)) by (cbn [cur' with_refs ver_refs]; lia).
  unfold set_objects, set_edited. cbn [vs_dbname vs_options vs_next_file_number vs_manifest_file_number vs_last_sequence vs_log_number
    vs_prev_log_number vs_descriptor_file vs_descriptor_log vs_next_version vs_objects vs_list vs_current vs_heap vs_compact_pointer].
  rewrite insert_insert_ne by lia. rewrite insert_insert_eq, (insert_id (vs_objects vs)) by done. done.
Qed.

(** The version an edit leads to. *)
Lemma edited_ok {W} (vs : versions W) es ed : set_is udom uc vs (state_of es) -> alive vs -> pointers_wf (vs_compact_pointer vs) ->
  edit_wf ed -> edit_ok udom uc ed -> (forall l, level_ok l -> NoDup (added_by l (es ++ [ed]))) ->
  (forall l, 0 < l -> level_ok l -> map_disjoint uc (apply_edits l ∅ (es ++ [ed]))) ->
  exists heap pointers ver, edited_version uc vs ed =
      Some (vs_next_version vs, set_objects (set_edited vs heap pointers) (S (vs_next_version vs))
              (<[vs_next_version vs := ver]> (vs_objects vs)) (vs_list vs) (vs_current vs)) /\
    pointers_wf pointers /\ ver_refs ver = 0 /\ levels_inv udom uc ver /\ forall l, level_ok l -> base_map ver l = apply_edits l ∅ (es ++ [ed]).
Proof.
  intros [(cur & Ecur & Hrefs & Hinv & Hmap) _ _ _] Ha Hp Hwf Hed Hfresh Hdis. unfold current_version in Ecur. cbn [state_of st_levels] in Hmap.
  set (cur' := with_refs cur (ver_refs cur + 1)).
  assert (levels_inv udom uc cur') as Hinv' by (by apply (inv_files udom uc cur)).
  assert (forall l, base_map cur' l = base_map cur l /\ base_numbers cur' l = base_numbers cur l) as Hsame by done.
  destruct (build_ok udom uc W cur' (vs_heap vs) (vs_compact_pointer vs) [ed] Hinv' (proj1 Hp)) as (heap & pointers & b & ver & Eb & Hz' & Hb & Hr & Hi & Hm).
  { by apply List.Forall_cons. }
  { intros l Hl. rewrite (proj2 (Hsame l)). apply (base_fresh cur es); auto. }
  { intros l Hpos Hl. rewrite (proj1 (Hsame l)), Hmap, <- apply_edits_app by done. auto. }
  exists heap, pointers, ver. split; [|split; [|split; [done|split; [done|]]]].
  2: { eapply (replay_pointers_wf uc [ed]); [|exact Hp|exact Eb]. by apply List.Forall_cons. }
  2: { intros l Hl. rewrite Hm by done. rewrite (proj1 (Hsame l)), Hmap by done. by rewrite apply_edits_app. }
  unfold builder_apply_all in Eb. cbn [fold_opt fst snd] in Eb. destruct (builder_apply uc _ _ _ ed) as [[[h p] b']|] eqn:E1; [|done].
  injection Eb as -> -> ->. by apply (edited_by vs cur ed heap pointers b ver).
Qed.

(** Dropping a reference keeps the rest alive. *)
Lemma dropped_lookup objects v ver w : w <> v -> dropped objects v ver !! w = objects !! w.
Proof. intros Hne. unfold dropped. destruct (_ =? 1); [by rewrite lookup_delete_ne|by rewrite lookup_insert_ne]. Qed.

Lemma unlisted_elem vlist v ver w : w ∈ unlisted vlist v ver <-> w ∈ vlist /\ (ver_refs ver = 1 -> w <> v).
Proof.
  unfold unlisted. destruct (Z.eqb_spec (ver_refs ver) 1) as [E|E]; [|tauto].
  rewrite list_elem_of_In, filter_In, <- list_elem_of_In, negb_true_iff, Nat.eqb_neq. tauto.
Qed.

Lemma unlisted_nodup vlist v ver : NoDup vlist -> NoDup (unlisted vlist v ver).
Proof.
  intros H. unfold unlisted. destruct (_ =? 1); [|done]. apply NoDup_ListNoDup, List.NoDup_filter. by apply NoDup_ListNoDup.
Qed.

(** The new version becomes the current one. *)
Lemma appended_ok {W} (vs vs1 : versions W) ver : alive vs -> ver_refs ver = 0 ->
  vs_objects vs1 = <[vs_next_version vs := ver]> (vs_objects vs) -> vs_list vs1 = vs_list vs -> vs_current vs1 = vs_current vs ->
  vs_next_version vs1 = S (vs_next_version vs) ->
  exists objects vlist, ldb_versions_append_version vs1 (vs_next_version vs) =
      Some (set_objects vs1 (S (vs_next_version vs)) objects vlist (vs_next_version vs)) /\
    objects !! vs_next_version vs = Some (with_refs ver 1) /\
    alive (set_objects vs1 (S (vs_next_version vs)) objects vlist (vs_next_version vs)) /\
    (forall w, w <> vs_next_version vs -> w <> vs_current vs -> objects !! w = vs_objects vs !! w) /\
    forall cur, current_version vs = Some cur ->
      objects !! vs_current vs = if ver_refs cur =? 1 then None else Some (with_refs cur (ver_refs cur - 1)).
Proof.
  intros [Al An Ar [cur Ac] Ax] Hr Eo El Ec En. unfold current_version in Ac.
  pose proof (Ax _ (ex_intro _ cur Ac)) as Hlt. set (v := vs_next_version vs) in *.
  assert (vs_objects vs !! v = None) as Hnone.
  { destruct (vs_objects vs !! v) eqn:E; [|done]. pose proof (Ax v (ex_intro _ _ E)). lia. }
  rewrite (append_version_ok vs1 v ver cur); [|by rewrite Eo, lookup_insert_eq|done|rewrite Ec; lia| |by apply (Ar (vs_current vs))].
  2: { rewrite Eo, Ec, lookup_insert_ne by lia. done. }
  rewrite Eo, El, Ec, En. eexists _, _. split; [reflexivity|]. split; [apply lookup_insert_eq|].
  assert (forall w, w <> v -> w <> vs_current vs ->
    <[v := with_refs ver 1]> (dropped (<[v := ver]> (vs_objects vs)) (vs_current vs) cur) !! w = vs_objects vs !! w) as Other.
  { intros w H1 H2. by rewrite lookup_insert_ne, dropped_lookup, lookup_insert_ne. }
  assert (<[v := with_refs ver 1]> (dropped (<[v := ver]> (vs_objects vs)) (vs_current vs) cur) !! vs_current vs =
    if ver_refs cur =? 1 then None else Some (with_refs cur (ver_refs cur - 1))) as Cur.
  { rewrite lookup_insert_ne by lia. unfold dropped. destruct (_ =? 1); [apply lookup_delete_eq|apply lookup_insert_eq]. }
  split; [split; cbn [set_objects vs_list vs_objects vs_current vs_next_version]|split; [exact Other|]].
  - intros w. rewrite elem_of_app, list_elem_of_singleton, unlisted_elem, Al. destruct (decide (w = v)) as [->|Hv].
    { rewrite lookup_insert_eq. split; [by eexists|by right]. }
    destruct (decide (w = vs_current vs)) as [->|Hc]; [|rewrite Other by done; tauto]. rewrite Cur, Ac.
    destruct (Z.eqb_spec (ver_refs cur) 1) as [E1|E1]; (split; [intros H|intros [? H]]); try done.
    { destruct H as [[_ H]|H]; [by destruct H|done]. }
    { left. split; [by eexists|done]. }
  - apply list.NoDup_app. split; [by apply unlisted_nodup|]. split; [|apply NoDup_singleton].
    intros w [Hw _]%unlisted_elem. rewrite list_elem_of_singleton. intros ->. apply Al in Hw. rewrite Hnone in Hw. by destruct Hw.
  - intros w wver. destruct (decide (w = v)) as [->|Hv]; [rewrite lookup_insert_eq; by intros [= <-]|].
    destruct (decide (w = vs_current vs)) as [->|Hc]; [|rewrite Other by done; apply Ar]. rewrite Cur. pose proof (Ar _ _ Ac).
    destruct (Z.eqb_spec (ver_refs cur) 1); [done|]. intros [= <-]. cbn. lia.
  - unfold current_version. cbn [set_objects vs_objects vs_current]. rewrite lookup_insert_eq. by eexists.
  - intros w Hw. destruct (decide (w = v)) as [->|Hv]; [lia|]. destruct (decide (w = vs_current vs)) as [->|Hc]; [lia|].
    rewrite Other in Hw by done. apply Ax in Hw. lia.
  - unfold current_version. rewrite Ac. intros ? [= <-]. exact Cur.
Qed.

(** ** The MANIFEST *)

(** The file grows with the records. *)
Lemma log_file_grows es ed : log_file (records es) `prefix_of` log_file (records (es ++ [ed])).
Proof. unfold records. rewrite map_app. apply log_file_snoc. Qed.

(** The writer behind the records of [es]. *)
Definition writer_at {W} (es : list edit) (file : W) (log : writer W) : Prop := log_writer_at (records es) file log.

Context {E W : Type} (ops : env_ops E W) (rep : E -> fsview -> Prop) (names : E -> W -> bytes -> Prop) (safe : fsview -> Prop).
Context `{!EnvLaws ops rep names safe}.

(** A record is written to the MANIFEST. *)
Lemma log_record_ok e fs file path f es ed log : rep e fs -> names e file path -> fs !! path = Some f ->
  vf_data f = log_file (records es) -> writer_at es file log -> zlen (log_file (records (es ++ [ed]))) < 2 ^ 64 ->
  (forall d, log_file (records es) `prefix_of` d -> d `prefix_of` log_file (records (es ++ [ed])) -> safe (<[path := VFile d (vf_synced f)]> fs)) ->
  exists log' e', env_add_record ops e log (ldb_edit_export [] ed) = Some (LDB_OK, log', e') /\ writer_at (es ++ [ed]) file log' /\
    rep e' (<[path := VFile (log_file (records (es ++ [ed]))) (vf_synced f)]> fs) /\ forall w q, names e w q -> names e' w q.
Proof.
  intros R N Hf Hd Hw. unfold writer_at, records in *. rewrite map_app. by apply add_log_record_ok with (safe := safe) (fs := fs) (f := f).
Qed.

(** The open MANIFEST of a set: it holds [es], is on the disk, and [CURRENT]
    names it. *)
Record manifest_inv (e : E) (fs : fsview) (vs : versions W) (es : list edit) : Prop := {
  mi_rep : rep e fs;
  mi_set : set_is udom uc vs (state_of es);
  mi_ok : manifest_ok udom uc es;
  mi_alive : alive vs;
  mi_pointers : pointers_wf (vs_compact_pointer vs);
  mi_number : 0 < vs_manifest_file_number vs < 2 ^ 64;
  mi_current : exists cur, ldb_current_filename LDB_PATH_MAX (vs_dbname vs) = Some cur /\
    fs !! cur = Some (VFile (current_contents (vs_manifest_file_number vs)) (zlen (current_contents (vs_manifest_file_number vs))));
  mi_descriptor : exists path file log, ldb_desc_filename LDB_PATH_MAX (vs_dbname vs) (vs_manifest_file_number vs) = Some path /\
    vs_descriptor_file vs = Some file /\ vs_descriptor_log vs = Some log /\ names e file path /\ writer_at es file log /\
    fs !! path = Some (VFile (log_file (records es)) (zlen (log_file (records es))))
}.

(** The names of the files involved are different. *)
Lemma desc_not_current dbname number cur path : 0 <= number < 2 ^ 64 ->
  ldb_current_filename LDB_PATH_MAX dbname = Some cur -> ldb_desc_filename LDB_PATH_MAX dbname number = Some path -> path <> cur.
Proof. intros Hn Hc Hp ->. apply parse_current in Hc. apply parse_desc in Hp; [|done]. congruence. Qed.

Lemma temp_not_current dbname number cur tmp : 0 <= number < 2 ^ 64 ->
  ldb_current_filename LDB_PATH_MAX dbname = Some cur -> ldb_temp_filename LDB_PATH_MAX dbname number = Some tmp -> tmp <> cur.
Proof. intros Hn Hc Hp ->. apply parse_current in Hc. apply parse_temp in Hp; [|done]. congruence. Qed.

Lemma temp_not_desc dbname number number' tmp path : 0 <= number < 2 ^ 64 -> 0 <= number' < 2 ^ 64 ->
  ldb_temp_filename LDB_PATH_MAX dbname number = Some tmp -> ldb_desc_filename LDB_PATH_MAX dbname number' = Some path -> tmp <> path.
Proof. intros Hn Hn' Ht Hp ->. apply parse_temp in Ht; [|done]. apply parse_desc in Hp; [|done]. congruence. Qed.

Lemma desc_injective dbname number number' path path' : 0 <= number < 2 ^ 64 -> 0 <= number' < 2 ^ 64 -> number <> number' ->
  ldb_desc_filename LDB_PATH_MAX dbname number = Some path -> ldb_desc_filename LDB_PATH_MAX dbname number' = Some path' -> path <> path'.
Proof. intros Hn Hn' Hne Hp Hp' ->. apply parse_desc in Hp; [|done]. apply parse_desc in Hp'; [|done]. congruence. Qed.

(** ** Applying an edit *)

Lemma complete_edit_ok (vs : versions W) ed ed' : complete_edit vs ed = Some ed' ->
  is_Some (ed_log_number ed') /\ is_Some (ed_prev_log_number ed') /\ ed_next_file_number ed' = Some (vs_next_file_number vs) /\
  ed_last_sequence ed' = Some (vs_last_sequence vs).
Proof.
  unfold complete_edit. destruct (ed_log_number ed) as [n|] eqn:El.
  - destruct (_ && _); [|done]. rewrite bind_some. destruct (ed_prev_log_number ed) as [p|] eqn:Ep; intros [= <-]; cbn; rewrite ?El, ?Ep; eauto.
  - rewrite bind_some. cbn [ldb_edit_set_log_number ed_prev_log_number].
    destruct (ed_prev_log_number ed) as [p|] eqn:Ep; intros [= <-]; cbn; rewrite ?Ep; eauto.
Qed.

Lemma write_edit_ok e fs (vs : versions W) file path f es ed log : rep e fs -> names e file path -> fs !! path = Some f ->
  vf_data f = log_file (records es) -> writer_at es file log -> zlen (log_file (records (es ++ [ed]))) < 2 ^ 64 ->
  vs_descriptor_file vs = Some file -> vs_descriptor_log vs = Some log ->
  let final := log_file (records (es ++ [ed])) in
  (forall d, log_file (records es) `prefix_of` d -> d `prefix_of` final -> safe (<[path := VFile d (vf_synced f)]> fs)) ->
  safe (<[path := VFile final (zlen final)]> fs) ->
  exists log' e', write_edit ops e vs ed = Some (LDB_OK, set_descriptor vs (Some file) (Some log'), e') /\
    writer_at (es ++ [ed]) file log' /\ rep e' (<[path := VFile final (zlen final)]> fs) /\ forall w q, names e w q -> names e' w q.
Proof.
  intros R N Hf Hd Hw Hz Ef El final Hs Hs'.
  destruct (log_record_ok e fs file path f es ed log R N Hf Hd Hw Hz Hs) as (log' & e1 & E1 & Hw' & R1 & K1).
  destruct (el_sync e1 _ file path _ R1 (K1 _ _ N) (lookup_insert_eq _ _ _)) as (e2 & E2 & R2 & K2).
  { cbn [vf_data]. by rewrite insert_insert_eq. }
  cbn [vf_data] in R2. rewrite insert_insert_eq in R2. exists log', e2. split; [|split; [done|split; [exact R2|auto]]].
  unfold write_edit. rewrite El, bind_some, E1, bind_some. change (LDB_OK =? LDB_OK) with true. cbv beta iota zeta. rewrite Ef.
  cbn [set_descriptor vs_descriptor_file]. by rewrite bind_some, E2.
Qed.

(** The set once the version is installed. *)
Lemma installed_ok (vs vs1 : versions W) es ed ver : alive vs -> ver_refs ver = 0 -> levels_inv udom uc ver ->
  (forall l, level_ok l -> base_map ver l = apply_edits l ∅ (es ++ [ed])) ->
  vs_objects vs1 = <[vs_next_version vs := ver]> (vs_objects vs) -> vs_list vs1 = vs_list vs -> vs_current vs1 = vs_current vs ->
  vs_next_version vs1 = S (vs_next_version vs) -> vs_last_sequence vs1 = vs_last_sequence vs ->
  is_Some (ed_log_number ed) -> is_Some (ed_prev_log_number ed) -> ed_last_sequence ed = Some (vs_last_sequence vs) ->
  exists objects vlist, let vs2 := set_objects vs1 (S (vs_next_version vs)) objects vlist (vs_next_version vs) in
    ldb_versions_append_version vs1 (vs_next_version vs) = Some vs2 /\ forall log prev, ed_log_number ed = Some log -> ed_prev_log_number ed = Some prev ->
    alive (set_logs vs2 log prev) /\ set_is udom uc (set_logs vs2 log prev) (state_of (es ++ [ed])).
Proof.
  intros Ha Hr Hi Hm Eo El Ec En Eq Hlog Hprev Hseq. destruct (appended_ok vs vs1 ver Ha Hr Eo El Ec En) as (objects & vlist & E1 & Hobj & Ha' & _).
  exists objects, vlist. cbv zeta. split; [done|]. intros log prev Elog Eprev. split; [by destruct Ha'; split|].
  unfold state_of. rewrite !last_number_app. cbn [last_number fold_left]. rewrite Elog, Eprev, Hseq.
  split; cbn [set_logs set_objects vs_log_number vs_prev_log_number vs_last_sequence st_log st_prev st_seq st_levels latest default from_option]; try done.
  exists (with_refs ver 1). split; [exact Hobj|]. split; [done|]. split; [by apply (inv_files udom uc ver)|].
  intros l Hl. rewrite (base_map_files ver) by done. auto.
Qed.

(** With the MANIFEST open: one record is added. *)
Lemma apply_open_ok e fs vs es ed ed' path : manifest_inv e fs vs es -> complete_edit vs ed = Some ed' ->
  manifest_ok udom uc (es ++ [ed']) -> zlen (log_file (records (es ++ [ed']))) < 2 ^ 64 ->
  ldb_desc_filename LDB_PATH_MAX (vs_dbname vs) (vs_manifest_file_number vs) = Some path ->
  let final := log_file (records (es ++ [ed'])) in
  (forall d, log_file (records es) `prefix_of` d -> d `prefix_of` final -> safe (<[path := VFile d (zlen (log_file (records es)))]> fs)) ->
  safe (<[path := VFile final (zlen final)]> fs) ->
  exists vs' e', ldb_versions_apply uc ops e vs ed = Some (LDB_OK, ed', vs', e') /\
    vs_dbname vs' = vs_dbname vs /\ manifest_inv e' (<[path := VFile final (zlen final)]> fs) vs' (es ++ [ed']).
Proof.
  intros [R Hset Hok Ha Hp Hn (cur & Ecur & Hcur) (path' & file & log & Epath & Efile & Elog & N & Hw & Hf)] Ec Hok' Hz Epath' final Hs Hs'.
  rewrite Epath in Epath'. injection Epath' as <-.
  destruct (complete_edit_ok vs ed ed' Ec) as ([logn Hlogn] & [prev Hprev] & _ & Hseq).
  destruct (edited_ok vs es ed' Hset Ha Hp) as (heap & pointers & ver & Eed & Hzp & Hr & Hi & Hm).
  { by apply (manifest_last es ed' Hok'). }
  { by apply (manifest_last es ed' Hok'). }
  { by apply (mo_fresh _ _ _ Hok'). }
  { by apply (mo_disjoint _ _ _ Hok'). }
  unfold ldb_versions_apply. rewrite Ec, bind_some, Eed, bind_some.
  set (vs1 := set_objects (set_edited vs heap pointers) _ _ _ _).
  assert (vs_descriptor_file vs1 = Some file /\ vs_descriptor_log vs1 = Some log) as [Ef1 El1] by done.
  unfold open_descriptor. rewrite El1, bind_some.
  destruct (write_edit_ok e fs vs1 file path' (VFile (log_file (records es)) (zlen (log_file (records es)))) es ed' log R N Hf eq_refl Hw Hz Ef1 El1 Hs Hs')
    as (log' & e' & Ew & Hw' & R' & K). fold final in R'.
  unfold log_edit. change (LDB_OK =? LDB_OK) with true. cbv iota. rewrite Ew, bind_some. change (LDB_OK =? LDB_OK) with true.
  change (0 <? zlen (@nil byte)) with false. cbn [andb]. cbv iota. rewrite bind_some. change (LDB_OK =? LDB_OK) with true. cbv iota.
  destruct (installed_ok vs (set_descriptor vs1 (Some file) (Some log')) es ed' ver Ha Hr Hi Hm) as (objects & vlist & Eapp & Hfin); try done; [by eexists..|].
  rewrite Eapp, bind_some, Hlogn, bind_some, Hprev, bind_some. destruct (Hfin logn prev Hlogn Hprev) as [Ha' Hset'].
  eexists _, e'. split; [reflexivity|]. split; [done|].
  assert (path' <> cur) as Hne by (apply (desc_not_current (vs_dbname vs) (vs_manifest_file_number vs)); [lia|done|done]).
  split; try done.
  - exists cur. split; [done|]. by rewrite lookup_insert_ne.
  - exists path', file, log'. do 3 (split; [done|]). split; [by apply K|]. split; [done|]. apply lookup_insert_eq.
Qed.

(** *** A new MANIFEST *)

(** The snapshot and the edit describe what all edits so far describe. *)
Lemma first_state (vs vs1 : versions W) es ed ver : levels_inv udom uc ver -> (forall l, level_ok l -> base_map ver l = apply_edits l ∅ es) ->
  vs_last_sequence vs = vs_last_sequence vs1 -> complete_edit vs ed = Some ed ->
  same_state (state_of [snapshot_edit uc vs1 ver; ed]) (state_of (es ++ [ed])).
Proof.
  intros Hi Hm Hs Hc. destruct (complete_edit_ok vs ed ed Hc) as ([log Elog] & [prev Eprev] & Enext & Eseq).
  unfold same_state, state_of. rewrite !last_number_app. cbn [last_number fold_left st_log st_prev st_next st_seq st_levels].
  rewrite Elog, Eprev, Enext, Eseq. do 4 (split; [done|]). intros l Hl. rewrite apply_edits_app, <- Hm by done.
  unfold apply_edits. cbn [fold_left]. by rewrite (snapshot_level udom uc vs1 ver l Hi Hl).
Qed.

Lemma first_records_ok (vs vs1 : versions W) es ed ver : levels_inv udom uc ver -> (forall l, level_ok l -> base_map ver l = apply_edits l ∅ es) ->
  pointers_wf (vs_compact_pointer vs1) -> zlen (cstr (cmp_name uc)) < 2 ^ 32 -> complete_edit vs ed = Some ed ->
  vs_last_sequence vs = vs_last_sequence vs1 -> manifest_ok udom uc es -> manifest_ok udom uc (es ++ [ed]) ->
  manifest_ok udom uc [snapshot_edit uc vs1 ver; ed].
Proof.
  intros Hi Hm Hp Hname Hc Hs Hok Hok'. destruct (manifest_last es ed Hok') as (Hwf & Hf & Hn).
  destruct (snapshot_wf udom uc vs1 ver es Hi Hm (mo_wf _ _ _ Hok) Hp Hname) as [Sw Sf].
  destruct (first_state vs vs1 es ed ver Hi Hm Hs Hc) as (_ & _ & _ & _ & Hl).
  destruct (complete_edit_ok vs ed ed Hc) as ([log Elog] & [prev Eprev] & Enext & Eseq).
  split; try (unfold last_number; cbn [fold_left]; rewrite ?Elog, ?Enext, ?Eseq; by eexists).
  - by repeat apply List.Forall_cons.
  - by repeat apply List.Forall_cons.
  - repeat apply List.Forall_cons; [by rewrite snapshot_eq|done|done].
  - intros l Hlev. unfold added_by. cbn [map concat]. rewrite (snapshot_numbers uc vs1 ver l Hlev), app_nil_r.
    pose proof (base_fresh ver es ed l Hi Hm Hlev (mo_fresh _ _ _ Hok' l Hlev)) as H. unfold added_by in H. cbn [map concat] in H.
    rewrite app_nil_r in H. by rewrite Permutation_app_comm.
  - intros l Hpos Hlev. change (map_disjoint uc (st_levels (state_of [snapshot_edit uc vs1 ver; ed]) l)). rewrite Hl by done.
    by apply (mo_disjoint _ _ _ Hok').
Qed.

Lemma complete_again (vs : versions W) ed ed' : complete_edit vs ed = Some ed' -> vs_log_number vs < vs_next_file_number vs -> complete_edit vs ed' = Some ed'.
Proof.
  unfold complete_edit. intros H Hlt. destruct (ed_log_number ed) as [n|] eqn:El.
  - destruct (_ && _) eqn:Ea; [|done]. rewrite bind_some in H. destruct (ed_prev_log_number ed) as [p|] eqn:Ep; injection H as <-; cbn.
    + rewrite El, Ea, bind_some. cbn. by rewrite Ep.
    + rewrite El, Ea, bind_some. by cbn.
  - rewrite bind_some in H. cbn [ldb_edit_set_log_number ed_prev_log_number] in H.
    assert ((vs_log_number vs <=? vs_log_number vs) && (vs_log_number vs <? vs_next_file_number vs) = true) as Ea.
    { rewrite (proj2 (Z.leb_le _ _)), (proj2 (Z.ltb_lt _ _)) by lia. done. }
    destruct (ed_prev_log_number ed) as [p|] eqn:Ep; injection H as <-; cbn; rewrite Ea, bind_some; cbn; by rewrite ?Ep.
Qed.

Lemma contents_short size dbname number path : ldb_desc_filename size dbname number = Some path -> zlen (current_contents number) < size.
Proof.
  unfold ldb_desc_filename, ldb_join, current_contents. rewrite !zlen_app. pose proof (zlen_nonneg dbname).
  destruct (Z.ltb_spec size (zlen dbname + (zlen (cstr "MANIFEST-") + zlen (ldb_encode_int number 6)) + 2)); [done|]. intros _.
  change (zlen [z2b 10]) with 1. lia.
Qed.

(** The first record of a new MANIFEST. *)
Definition first_edit (vs : versions W) (ed : edit) : option edit :=
  '(_, vs1) ← edited_version uc vs ed;
  ver ← current_version vs1;
  Some (snapshot_edit uc vs1 ver).

(** The new MANIFEST is created and its snapshot written. *)
Lemma open_new_ok e fs (vs : versions W) path snap : rep e fs -> vs_descriptor_file vs = None -> vs_descriptor_log vs = None ->
  ldb_desc_filename LDB_PATH_MAX (vs_dbname vs) (vs_manifest_file_number vs) = Some path ->
  (ver ← current_version vs; Some (snapshot_edit uc vs ver)) = Some snap -> zlen (log_file (records [snap])) < 2 ^ 64 ->
  (forall f, safe (<[path := f]> fs)) ->
  exists file log e', open_descriptor uc ops e vs = Some (LDB_OK, path, set_descriptor vs (Some file) (Some log), e') /\
    names e' file path /\ writer_at [snap] file log /\ rep e' (<[path := VFile (log_file (records [snap])) 0]> fs).
Proof.
  intros R Efile Elog Epath Esnap Hz Hs. unfold open_descriptor. rewrite Elog, Efile, Epath.
  destruct (el_truncfile e fs path R) as (file & e1 & -> & R1 & N1 & _); [auto|]. unfold ldb_versions_write_snapshot.
  destruct (current_version vs) as [ver|]; [|done]. cbn [mbind option_bind] in Esnap. injection Esnap as Esnap. rewrite bind_some, Esnap.
  destruct (log_record_ok e1 _ file path (VFile [] 0) [] snap (ldb_writer_init file 0) R1 N1 (lookup_insert_eq _ _ _)) as (log & e2 & E2 & Hw & R2 & K).
  - done.
  - by exists (ldb_writer_init [] 0).
  - exact Hz.
  - intros d _ _. rewrite insert_insert_eq. auto.
  - rewrite E2, bind_some. rewrite insert_insert_eq in R2. exists file, log, e2. auto.
Qed.

(** The first application: a new MANIFEST with a snapshot and the edit, and
    [CURRENT] names it. *)
Lemma apply_first_ok e fs vs es ed ed' snap path tmp cur : rep e fs -> set_is udom uc vs (state_of es) -> manifest_ok udom uc es ->
  alive vs -> pointers_wf (vs_compact_pointer vs) -> zlen (cstr (cmp_name uc)) < 2 ^ 32 -> vs_log_number vs < vs_next_file_number vs ->
  vs_descriptor_file vs = None -> vs_descriptor_log vs = None -> 0 < vs_manifest_file_number vs < 2 ^ 64 ->
  complete_edit vs ed = Some ed' -> manifest_ok udom uc (es ++ [ed']) ->
  first_edit vs ed' = Some snap -> zlen (log_file (records [snap; ed'])) < 2 ^ 64 ->
  ldb_desc_filename LDB_PATH_MAX (vs_dbname vs) (vs_manifest_file_number vs) = Some path ->
  ldb_temp_filename LDB_PATH_MAX (vs_dbname vs) (vs_manifest_file_number vs) = Some tmp ->
  ldb_current_filename LDB_PATH_MAX (vs_dbname vs) = Some cur ->
  let final := log_file (records [snap; ed']) in let contents := current_contents (vs_manifest_file_number vs) in
  let fs' := <[cur := VFile contents (zlen contents)]> (delete tmp (<[path := VFile final (zlen final)]> fs)) in
  (forall f, safe (<[path := f]> fs)) -> (forall f g, safe (<[tmp := g]> (<[path := f]> fs))) -> safe fs' ->
  exists vs' e', ldb_versions_apply uc ops e vs ed = Some (LDB_OK, ed', vs', e') /\
    vs_dbname vs' = vs_dbname vs /\ manifest_inv e' fs' vs' [snap; ed'] /\ same_state (state_of [snap; ed']) (state_of (es ++ [ed'])).
Proof.
  intros R Hset Hok Ha Hp Hname Hlt Efile Elog Hn Ec Hok' Esnap Hz Epath Etmp Ecur final contents fs' Hs1 Hs2 Hs3.
  destruct (complete_edit_ok vs ed ed' Ec) as ([logn Hlogn] & [prev Hprev] & _ & Hseq).
  destruct (edited_ok vs es ed' Hset Ha Hp) as (heap & pointers & ver & Eed & Hzp & Hr & Hi & Hm).
  { by apply (manifest_last es ed' Hok'). }
  { by apply (manifest_last es ed' Hok'). }
  { by apply (mo_fresh _ _ _ Hok'). }
  { by apply (mo_disjoint _ _ _ Hok'). }
  destruct Hset as [(base & Ebase & _ & Hib & Hmb) _ _ _]. cbn [state_of st_levels] in Hmb.
  unfold ldb_versions_apply. rewrite Ec, bind_some, Eed, bind_some. unfold first_edit in Esnap. rewrite Eed, bind_some in Esnap.
  set (vs1 := set_objects (set_edited vs heap pointers) _ _ _ _) in *.
  assert (current_version vs1 = Some base) as Ebase1.
  { unfold current_version in *. subst vs1. cbn [set_objects set_edited vs_objects vs_current]. rewrite lookup_insert_ne; [done|].
    pose proof (al_next vs Ha (vs_current vs) (ex_intro _ base Ebase)). lia. }
  assert (snap = snapshot_edit uc vs1 base) as Esnap' by (rewrite Ebase1, bind_some in Esnap; by injection Esnap).
  assert (vs_descriptor_file vs1 = None /\ vs_descriptor_log vs1 = None) as [Ef1 El1] by done.
  pose proof (log_file_grows [snap] ed' : _ `prefix_of` final) as Hpre.
  assert (zlen (log_file (records [snap])) < 2 ^ 64) as Hz1.
  { destruct Hpre as [tl Ht]. unfold final in Ht. rewrite Ht, zlen_app in Hz. pose proof (zlen_nonneg tl). lia. }
  destruct (open_new_ok e fs vs1 path snap R Ef1 El1 Epath Esnap Hz1 Hs1) as (file & log & e1 & Eo & N1 & Hw1 & R1). rewrite Eo, bind_some.
  destruct (write_edit_ok e1 _ (set_descriptor vs1 (Some file) (Some log)) file path (VFile (log_file (records [snap])) 0) [snap] ed' log R1 N1
    (lookup_insert_eq _ _ _) eq_refl Hw1 Hz eq_refl eq_refl) as (log' & e2 & Ew & Hw' & R2 & K2).
  { intros d _ _. rewrite insert_insert_eq. apply Hs1. }
  { rewrite insert_insert_eq. apply Hs1. }
  cbn [app] in Ew, R2. fold final in R2. rewrite insert_insert_eq in R2. apply K2 in N1.
  unfold log_edit. change (LDB_OK =? LDB_OK) with true. cbv iota. rewrite Ew, bind_some. change (LDB_OK =? LDB_OK) with true.
  assert (path <> cur /\ tmp <> cur /\ tmp <> path) as (Hpc & Htc & Htp).
  { pose proof (proj1 Hn) as Hn0. assert (0 <= vs_manifest_file_number vs < 2 ^ 64) as Hn' by (split; [by apply Z.lt_le_incl|apply Hn]). split; [|split].
    - by apply (desc_not_current (vs_dbname vs) (vs_manifest_file_number vs)).
    - by apply (temp_not_current (vs_dbname vs) (vs_manifest_file_number vs)).
    - by apply (temp_not_desc (vs_dbname vs) (vs_manifest_file_number vs) (vs_manifest_file_number vs)). }
  assert (zlen path <> 0) as Hpath0.
  { intros H. apply zlen_0_nil in H. subst path. apply parse_desc in Epath; [done|]. lia. }
  pose proof (zlen_nonneg path). rewrite (proj2 (Z.ltb_lt 0 (zlen path))) by lia. cbn [andb]. cbv iota.
  destruct (set_current_ok ops rep names safe e2 _ (vs_dbname vs) (vs_manifest_file_number vs) tmp cur R2 (proj1 Hn)) as (e3 & Es & R3 & K3); try done.
  { pose proof (contents_short _ _ _ _ Epath) as H1. unfold LDB_PATH_MAX in H1. fold contents. fold contents in H1. lia. }
  cbn [set_descriptor vs_dbname vs_manifest_file_number]. subst vs1. cbn [set_objects set_edited vs_dbname vs_manifest_file_number].
  rewrite Es, bind_some. rewrite bind_some. change (LDB_OK =? LDB_OK) with true. cbv iota.
  set (vs1 := set_objects (set_edited vs heap pointers) _ _ _ _) in *.
  destruct (installed_ok vs (set_descriptor vs1 (Some file) (Some log')) es ed' ver Ha Hr Hi Hm) as (objects & vlist & Eapp & Hfin); try done; [by eexists..|].
  set (vs2 := set_descriptor _ (Some file) (Some log')) in Eapp |- *. rewrite Eapp, bind_some, Hlogn, bind_some, Hprev, bind_some.
  destruct (Hfin logn prev Hlogn Hprev) as [Ha' Hset'].
  pose proof (complete_again vs ed ed' Ec Hlt) as Hag.
  pose proof (first_state vs vs1 es ed' base Hib Hmb eq_refl Hag) as Hst. rewrite <- Esnap' in Hst.
  pose proof (first_records_ok vs vs1 es ed' base Hib Hmb Hzp Hname Hag eq_refl Hok Hok') as Hokf. rewrite <- Esnap' in Hokf.
  eexists _, e3. split; [reflexivity|]. split; [done|]. split; [|exact Hst].
  split; try done.
  - by rewrite Hst.
  - exists cur. split; [done|]. apply lookup_insert_eq.
  - exists path, file, log'. do 3 (split; [done|]). split; [by apply K3|]. split; [done|]. subst fs'.
    rewrite lookup_insert_ne, lookup_delete_ne by done. apply lookup_insert_eq.
Qed.
End Manifest.
