(* ===== verification/Durable.v ===== *)
(** * Durability of the version set

    What a crash leaves of a MANIFEST, and that recovery gives the state before
    or the state after an application of [ldb_versions_apply], whenever the
    crash happens: while a record is added, or while a new MANIFEST is written
    and [CURRENT] renamed. *)

From stdpp Require Import strings sorting gmap.
From Stdlib Require Import SpecFloat.
From S2P Require Import Prelude Coding Status Strutil Comparator DBFormat File LogWriter LogReader Options Vector VersionEdit Iterator FileList Version VersionBuilder Env VersionSet Recovery Snapshot Manifest.
#[local] Open Scope Z_scope.

Section Stored.
Context (udom : bytes -> Prop) (uc : comparator) `{!ComparatorLaws udom uc}.

(** What recovery gives on the files [fs], on the simple environment. *)
Definition recovers (dbname : bytes) (fs : fsview) (P : mstate -> Prop) : Prop :=
  forall junk options save, exists save' vs' e' st,
    ldb_versions_recover uc disk_ops junk (Disk fs []) (ldb_versions_create (W := nat) dbname options) save = Some (LDB_OK, save', vs', e') /\
    dk_files e' = fs /\ recovered_as udom uc vs' st /\ P st.

(** Whatever a crash leaves of [fs], recovery succeeds with a state of [P]. *)
Definition survives (dbname : bytes) (fs : fsview) (P : mstate -> Prop) : Prop :=
  forall fs', crash_of fs fs' -> recovers dbname fs' P.

(** [CURRENT] names a MANIFEST that starts with records of edits; every record
    list that a crash may leave leads to a state of [P]. *)
Definition stored (dbname : bytes) (number : Z) (fs : fsview) (P : mstate -> Prop) : Prop :=
  0 <= number < 2 ^ 64 /\
  exists cur path data synced es,
    ldb_current_filename LDB_PATH_MAX dbname = Some cur /\ ldb_desc_filename LDB_PATH_MAX dbname number = Some path /\
    fs !! cur = Some (VFile (current_contents number) (zlen (current_contents number))) /\ fs !! path = Some (VFile data synced) /\
    0 <= synced /\ data `prefix_of` log_file (records es) /\
    forall n m, synced <= n -> covered es (zlen (ztake n data)) m -> manifest_ok udom uc (take m es) /\ P (state_of (take m es)).

Lemma ztake_prefix n (xs ys : bytes) : 0 <= n -> xs `prefix_of` ys -> ztake n xs = ztake (zlen (ztake n xs)) ys.
Proof.
  intros Hn [tl ->]. unfold ztake, zlen. rewrite Nat2Z.id, length_take.
  destruct (Nat.min_spec (Z.to_nat n) (length xs)) as [[H ->]|[H ->]].
  - by rewrite take_app_le by lia.
  - rewrite take_app_length. by rewrite take_ge.
Qed.

Lemma ztake_whole n (xs : bytes) : zlen xs <= n -> ztake n xs = xs.
Proof. intros H. unfold ztake, zlen in *. apply take_ge. lia. Qed.

Lemma stored_survives dbname number fs P : stored dbname number fs P -> survives dbname fs P.
Proof.
  intros (Hn & cur & path & data & synced & es & Ecur & Epath & Hcur & Hpath & Hs & Hpre & Hes) fs' Hc junk options save.
  pose proof (Hc cur) as Hc1. pose proof (Hc path) as Hc2. rewrite Hcur in Hc1. rewrite Hpath in Hc2.
  destruct (fs' !! cur) as [[c cs]|] eqn:E1; [|done]. destruct (fs' !! path) as [[d ds]|] eqn:E2; [|done].
  cbn [vf_data vf_synced] in Hc1, Hc2. destruct Hc1 as (n1 & Hn1 & ->). destruct Hc2 as (n & Hn2 & ->). rewrite ztake_whole in E1 by done.
  destruct (recover_ok udom uc disk_ops disk_rep disk_names (fun _ => True) junk (Disk fs' []) fs' dbname options save number cur path cs
    (VFile (ztake n data) ds) es (zlen (ztake n data))) as (m & save' & vs' & e' & Hm & Er & R & Hra & _); try done.
  - cbn [vf_data]. apply ztake_prefix; [lia|done].
  - apply zlen_nonneg.
  - intros m Hm. by apply (Hes n m).
  - exists save', vs', e', (state_of (take m es)). split; [exact Er|]. split; [exact R|]. split; [done|]. by apply (Hes n m).
Qed.

(** Other files do not matter. *)
Lemma stored_frame dbname number fs fs' P : stored dbname number fs P ->
  (forall cur path, ldb_current_filename LDB_PATH_MAX dbname = Some cur -> ldb_desc_filename LDB_PATH_MAX dbname number = Some path ->
    fs' !! cur = fs !! cur /\ fs' !! path = fs !! path) -> stored dbname number fs' P.
Proof.
  intros (Hn & cur & path & data & synced & es & Ecur & Epath & Hcur & Hpath & H) Hsame. destruct (Hsame cur path Ecur Epath) as [H1 H2].
  split; [done|]. exists cur, path, data, synced, es. rewrite H1, H2. done.
Qed.

Lemma stored_weaken dbname number fs (P Q : mstate -> Prop) : (forall st, P st -> Q st) -> stored dbname number fs P -> stored dbname number fs Q.
Proof.
  intros H (Hn & cur & path & data & synced & es & H1 & H2 & H3 & H4 & H5 & H6 & H7). split; [done|]. exists cur, path, data, synced, es.
  do 6 (split; [done|]). intros n m Hs Hm. destruct (H7 n m Hs Hm). auto.
Qed.

Lemma records_length es : length (records es) = length es.
Proof. apply length_map. Qed.

(** A MANIFEST in which [es] is on the disk, and more records may be. *)
Lemma stored_manifest dbname number fs cur path data synced es more (P : mstate -> Prop) : 0 <= number < 2 ^ 64 ->
  ldb_current_filename LDB_PATH_MAX dbname = Some cur -> ldb_desc_filename LDB_PATH_MAX dbname number = Some path ->
  fs !! cur = Some (VFile (current_contents number) (zlen (current_contents number))) -> fs !! path = Some (VFile data synced) ->
  log_file (records es) `prefix_of` data -> data `prefix_of` log_file (records (es ++ more)) -> zlen (log_file (records es)) <= synced ->
  (forall k, manifest_ok udom uc (es ++ take k more) /\ P (state_of (es ++ take k more))) ->
  stored dbname number fs P.
Proof.
  intros Hn Ecur Epath Hcur Hpath Hp1 Hp2 Hs HP. split; [done|]. exists cur, path, data, synced, (es ++ more).
  do 4 (split; [done|]). pose proof (zlen_nonneg (log_file (records es))). split; [lia|]. split; [done|]. intros n m Hsn [Hm Hcov].
  assert (length es <= m)%nat as Hle.
  { apply Hcov; [rewrite length_app; lia|]. unfold records. rewrite map_app, take_app_length' by (symmetry; apply length_map).
    fold (records es). destruct Hp1 as [tl ->]. unfold ztake. rewrite take_app_ge; [rewrite zlen_app; pose proof (zlen_nonneg (take (Z.to_nat n - length (log_file (records es))) tl)); lia|].
    unfold zlen in *. lia. }
  rewrite take_app_ge by done. apply HP.
Qed.
End Stored.

(** ** Adding a record *)

Section Durable.
Context (udom : bytes -> Prop) (uc : comparator) `{!ComparatorLaws udom uc}.
Context {E W : Type} (ops : env_ops E W) (rep : E -> fsview -> Prop) (names : E -> W -> bytes -> Prop).
Context `{!EnvLaws ops rep names (fun _ => True)}.

(** A journal says nothing more about the set. *)
Lemma journal_manifest safe (j : E * list E) fs vs es :
  manifest_inv udom uc (journal_rep rep safe) (journal_names names) j fs vs es <->
  manifest_inv udom uc rep names j.1 fs vs es /\ Forall (fun e => exists fs, rep e fs /\ safe fs) j.2.
Proof.
  split.
  - intros [[R H] ? ? ? ? ? ? D]. split; [|done]. by split.
  - intros [[R ? ? ? ? ? ? D] H]. by split.
Qed.

Definition either (es : list edit) (ed : edit) (st : mstate) : Prop :=
  same_state st (state_of es) \/ same_state st (state_of (es ++ [ed])).

(** While the record is added, either state may be recovered; then only the new
    one. *)
Lemma adding_survives dbname number fs cur path data synced es ed : 0 <= number < 2 ^ 64 ->
  ldb_current_filename LDB_PATH_MAX dbname = Some cur -> ldb_desc_filename LDB_PATH_MAX dbname number = Some path ->
  fs !! cur = Some (VFile (current_contents number) (zlen (current_contents number))) ->
  log_file (records es) `prefix_of` data -> data `prefix_of` log_file (records (es ++ [ed])) -> zlen (log_file (records es)) <= synced ->
  manifest_ok udom uc es -> manifest_ok udom uc (es ++ [ed]) -> survives udom uc dbname (<[path := VFile data synced]> fs) (either es ed).
Proof.
  intros Hn Ecur Epath Hcur Hp1 Hp2 Hs Hok Hok'. apply (stored_survives udom uc dbname number).
  apply (stored_manifest udom uc dbname number _ cur path data synced es [ed]); try done.
  - rewrite lookup_insert_ne; [done|]. by apply (desc_not_current dbname number).
  - apply lookup_insert_eq.
  - intros [|k]; cbn [take]; [rewrite app_nil_r|rewrite take_nil]; (split; [done|]); [left|right]; done.
Qed.

Lemma whole_survives e fs (vs : versions W) es : manifest_inv udom uc rep names e fs vs es ->
  survives udom uc (vs_dbname vs) fs (fun st => st = state_of es).
Proof.
  intros [R Hset Hok Ha Hp Hn (cur & Ecur & Hcur) (path & file & log & Epath & _ & _ & _ & _ & Hf)].
  apply (stored_survives udom uc _ (vs_manifest_file_number vs)).
  apply (stored_manifest udom uc _ _ _ cur path (log_file (records es)) (zlen (log_file (records es))) es []); try done; [lia|by rewrite app_nil_r|].
  intros k. rewrite take_nil, app_nil_r. done.
Qed.


Lemma survives_weaken dbname fs (P Q : mstate -> Prop) : (forall st, P st -> Q st) -> survives udom uc dbname fs P -> survives udom uc dbname fs Q.
Proof.
  intros H Hs fs' Hc junk options save. destruct (Hs fs' Hc junk options save) as (s & vs & e & st & ? & ? & ? & ?).
  exists s, vs, e, st. auto.
Qed.

(** C8: An edit applied to an open MANIFEST succeeds, and whenever the
    machine crashes during the application, recovery from what is on the disk
    gives the state before the edit or the state after it; after the application
    it gives the state after it. *)
Theorem apply_crash_safe e fs vs es ed ed' : manifest_inv udom uc rep names e fs vs es -> complete_edit vs ed = Some ed' ->
  manifest_ok udom uc (es ++ [ed']) -> zlen (log_file (records (es ++ [ed']))) < 2 ^ 64 ->
  exists vs' e' history fs', ldb_versions_apply uc (journal ops) (e, []) vs ed = Some (LDB_OK, ed', vs', (e', history)) /\
    manifest_inv udom uc rep names e' fs' vs' (es ++ [ed']) /\
    survives udom uc (vs_dbname vs) fs' (fun st => st = state_of (es ++ [ed'])) /\
    Forall (fun e => exists fs, rep e fs /\ survives udom uc (vs_dbname vs) fs (either es ed')) history.
Proof.
  intros Hinv Ec Hok Hz. pose proof Hinv as [R Hset Hok0 Ha Hp Hn (cur & Ecur & Hcur) (path & file & log & Epath & D)].
  set (safe := fun fs => survives udom uc (vs_dbname vs) fs (either es ed')).
  pose proof (journal_laws ops rep names safe _) as L.
  destruct (apply_open_ok udom uc (journal ops) (journal_rep rep safe) (journal_names names) safe (e, []) fs vs es ed ed' path)
    as (vs' & [e' history] & Eap & Hdb & Hinv'); try done.
  - by apply journal_manifest.
  - intros d Hd1 Hd2. by apply (adding_survives _ (vs_manifest_file_number vs) _ cur); try lia.
  - destruct (log_file_grows es ed') as [tl Htl]. apply (adding_survives _ (vs_manifest_file_number vs) _ cur); try done; [lia|by exists tl|].
    rewrite Htl, zlen_app. pose proof (zlen_nonneg tl). lia.
  - apply journal_manifest in Hinv' as [Hinv' Hhist]. exists vs', e', history. eexists. split; [exact Eap|]. split; [exact Hinv'|].
    split; [|exact Hhist]. rewrite <- Hdb. by apply (whole_survives e').
Qed.

(** ** A new MANIFEST *)

(** The files of the old MANIFEST are not those that a new one touches. *)
Lemma switching_survives dbname number number' fs (P : mstate -> Prop) path tmp : 0 <= number' < 2 ^ 64 -> number <> number' ->
  ldb_desc_filename LDB_PATH_MAX dbname number' = Some path -> ldb_temp_filename LDB_PATH_MAX dbname number' = Some tmp ->
  stored udom uc dbname number fs P ->
  (forall f, stored udom uc dbname number (<[path := f]> fs) P) /\ forall f g, stored udom uc dbname number (<[tmp := g]> (<[path := f]> fs)) P.
Proof.
  intros Hn' Hne Epath Etmp H. pose proof H as [Hn _].
  assert (forall cur old, ldb_current_filename LDB_PATH_MAX dbname = Some cur -> ldb_desc_filename LDB_PATH_MAX dbname number = Some old ->
    path <> cur /\ path <> old /\ tmp <> cur /\ tmp <> old) as Names.
  { intros cur old Hc Ho. split; [by apply (desc_not_current dbname number')|]. split; [by apply (desc_injective dbname number' number)|].
    split; [by apply (temp_not_current dbname number')|by apply (temp_not_desc dbname number' number)]. }
  split; intros; apply (stored_frame udom uc dbname number fs); try done; intros cur old Hc Ho;
    destruct (Names cur old Hc Ho) as (? & ? & ? & ?); by rewrite ?lookup_insert_ne.
Qed.

(** C9: Applying the first edit writes a new MANIFEST with a snapshot
    and points [CURRENT] at it; whenever the machine crashes meanwhile, recovery
    gives the state before the edit or the state after it, and after the
    application only the state after it. *)
Theorem switch_crash_safe e fs vs es ed ed' snap number : rep e fs -> set_is udom uc vs (state_of es) -> manifest_ok udom uc es ->
  alive vs -> pointers_wf (vs_compact_pointer vs) -> zlen (cstr (cmp_name uc)) < 2 ^ 32 -> vs_log_number vs < vs_next_file_number vs ->
  vs_descriptor_file vs = None -> vs_descriptor_log vs = None -> 0 < vs_manifest_file_number vs < 2 ^ 64 ->
  complete_edit vs ed = Some ed' -> manifest_ok udom uc (es ++ [ed']) ->
  first_edit uc vs ed' = Some snap -> zlen (log_file (records [snap; ed'])) < 2 ^ 64 ->
  is_Some (ldb_desc_filename LDB_PATH_MAX (vs_dbname vs) (vs_manifest_file_number vs)) ->
  is_Some (ldb_temp_filename LDB_PATH_MAX (vs_dbname vs) (vs_manifest_file_number vs)) ->
  number <> vs_manifest_file_number vs -> stored udom uc (vs_dbname vs) number fs (fun st => same_state st (state_of es)) ->
  exists vs' e' history fs', ldb_versions_apply uc (journal ops) (e, []) vs ed = Some (LDB_OK, ed', vs', (e', history)) /\
    manifest_inv udom uc rep names e' fs' vs' [snap; ed'] /\ same_state (state_of [snap; ed']) (state_of (es ++ [ed'])) /\
    survives udom uc (vs_dbname vs) fs' (fun st => same_state st (state_of (es ++ [ed']))) /\
    Forall (fun e => exists fs, rep e fs /\ survives udom uc (vs_dbname vs) fs (either es ed')) history.
Proof.
  intros R Hset Hok Ha Hp Hname Hlt Ef El Hn Ec Hok' Esnap Hz [path Epath] [tmp Etmp] Hne Hst.
  pose proof Hst as (Hn0 & cur & _ & _ & _ & _ & Ecur & _). set (dbname := vs_dbname vs) in *. set (number' := vs_manifest_file_number vs) in *.
  assert (0 <= number' < 2 ^ 64) as Hn' by lia.
  apply (stored_weaken _ _ _ _ _ _ (either es ed')) in Hst; [|by intros st H; left].
  destruct (switching_survives dbname number number' fs _ path tmp Hn' Hne Epath Etmp Hst) as [S1 S2].
  set (safe := fun fs => survives udom uc dbname fs (either es ed')).
  pose proof (journal_laws ops rep names safe _) as L. set (final := log_file (records [snap; ed'])). set (contents := current_contents number').
  set (fs' := <[cur := VFile contents (zlen contents)]> (delete tmp (<[path := VFile final (zlen final)]> fs))).
  assert (survives udom uc dbname fs' (fun st => same_state st (state_of (es ++ [ed'])))) as Fin.
  { destruct (apply_first_ok udom uc ops rep names (fun _ => True) e fs vs es ed ed' snap path tmp cur)
      as (vs' & e' & _ & Hdb & Hinv & Hsame); try done.
    fold dbname in Hdb. rewrite <- Hdb. eapply survives_weaken; [|by apply (whole_survives e')]. by intros st ->. }
  destruct (apply_first_ok udom uc (journal ops) (journal_rep rep safe) (journal_names names) safe (e, []) fs vs es ed ed' snap path tmp cur)
    as (vs' & [e' history] & Eap & Hdb & Hinv & Hsame); try done.
  - intros f. by apply (stored_survives udom uc dbname number).
  - intros f g. by apply (stored_survives udom uc dbname number).
  - unfold safe. eapply survives_weaken; [|exact Fin]. intros st H. by right.
  - apply journal_manifest in Hinv as [Hinv Hhist]. by exists vs', e', history, fs'.
Qed.

(** ** Reading the MANIFEST back *)

(** C10: After an edit was applied, recovering a new set from the same
    directory gives the version, the files and the numbers of the set to which
    it was applied. *)
Theorem apply_recover e fs vs es ed ed' junk options save : manifest_inv udom uc rep names e fs vs es -> complete_edit vs ed = Some ed' ->
  manifest_ok udom uc (es ++ [ed']) -> zlen (log_file (records (es ++ [ed']))) < 2 ^ 64 ->
  exists vs' e' save' vs2 e2, ldb_versions_apply uc ops e vs ed = Some (LDB_OK, ed', vs', e') /\
    ldb_versions_recover uc ops junk e' (ldb_versions_create (vs_dbname vs) options : versions W) save = Some (LDB_OK, save', vs2, e2) /\
    set_is udom uc vs' (state_of (es ++ [ed'])) /\ recovered_as udom uc vs2 (state_of (es ++ [ed'])).
Proof.
  intros Hinv Ec Hok Hz. pose proof Hinv as [R Hset Hok0 Ha Hp Hn _ (path & file & log & Epath & D)].
  destruct (apply_open_ok udom uc ops rep names (fun _ => True) e fs vs es ed ed' path) as (vs' & e' & Eap & Hdb & Hinv'); try done.
  destruct Hinv' as [R' Hset' Hok' _ _ Hn' (cur & Ecur & Hcur) (path' & file' & log' & Epath' & _ & _ & _ & _ & Hf)]. rewrite Hdb in *.
  destruct (recover_ok udom uc ops rep names (fun _ => True) junk e' _ (vs_dbname vs) options save (vs_manifest_file_number vs') cur path'
    (zlen (current_contents (vs_manifest_file_number vs'))) (VFile (log_file (records (es ++ [ed']))) (zlen (log_file (records (es ++ [ed'])))))
    (es ++ [ed']) (zlen (log_file (records (es ++ [ed'])))) R' I) as (m & save' & vs2 & e2 & [Hm Hcov] & Er & _ & Hra & _); try done.
  - lia.
  - cbn [vf_data]. symmetry. by apply ztake_whole.
  - apply zlen_nonneg.
  - intros m [Hm Hcov]. rewrite take_ge; [done|]. apply Hcov; [done|]. by rewrite take_ge by (by rewrite records_length).
  - assert (m = length (es ++ [ed'])) as ->.
    { apply Nat.le_antisymm; [done|]. apply Hcov; [done|]. by rewrite take_ge by (by rewrite records_length). }
    rewrite take_ge in Hra by done. by exists vs', e', save', vs2, e2.
Qed.
End Durable.

(** ** A small database *)

Definition demo_name : bytes := cstr "/db".

(** A new database, and two tables that are added one after the other. *)
Definition demo_new : edit :=
  ldb_edit_set_last_sequence (ldb_edit_set_next_file (ldb_edit_set_log_number
    (ldb_edit_set_comparator_name ldb_edit_init (cmp_name bytewise_comparator)) 0) 2) 0.
Definition demo_edit1 : edit := ldb_edit_add_file ldb_edit_init 0 1 200 (vkey Byte.x63 5) (vkey Byte.x64 7).
Definition demo_edit2 : edit :=
  ldb_edit_add_file (ldb_edit_remove_file ldb_edit_init 0 1) 1 2 250 (vkey Byte.x63 2) (vkey Byte.x67 4).

Definition demo_whole (data : bytes) : vfile := VFile data (zlen data).

Definition demo_files : fsview :=
  {[cstr "/db/CURRENT" := demo_whole (current_contents 1); cstr "/db/MANIFEST-000001" := demo_whole (log_file (records [demo_new]))]}.

Definition demo_recovered : versions nat * disk :=
  match ldb_versions_recover bytewise_comparator disk_ops [] (Disk demo_files []) (ldb_versions_create (W := nat) demo_name ldb_dbopt_default) false with
  | Some (_, _, vs, e) => (vs, e)
  | None => (ldb_versions_create demo_name ldb_dbopt_default, Disk demo_files [])
  end.

Definition demo_apply (s : versions nat * disk) (ed : edit) : versions nat * disk :=
  match ldb_versions_apply bytewise_comparator disk_ops s.2 s.1 ed with
  | Some (_, _, vs, e) => (vs, e)
  | None => s
  end.

Definition demo_complete (s : versions nat * disk) (ed : edit) : edit := default ed (complete_edit s.1 ed).
Definition demo_applied : versions nat * disk := demo_apply demo_recovered demo_edit1.
Definition demo_edit1' : edit := demo_complete demo_recovered demo_edit1.
Definition demo_snap : edit := default ldb_edit_init (first_edit bytewise_comparator demo_recovered.1 demo_edit1').
Definition demo_edit2' : edit := demo_complete demo_applied demo_edit2.

Ltac check_edit := split; cbn -[vkey meta_wf ikey_ok Z.pow]; repeat first [apply List.Forall_nil | apply List.Forall_cons | apply SSorted_nil | apply SSorted_cons].

Lemma demo_edit1_eq : demo_edit1' = ldb_edit_set_last_sequence (ldb_edit_set_next_file (ldb_edit_set_prev_log_number
  (ldb_edit_set_log_number demo_edit1 0) 0) 3) 0.
Proof. by vm_compute. Qed.
Lemma demo_edit2_eq : demo_edit2' = ldb_edit_set_last_sequence (ldb_edit_set_next_file (ldb_edit_set_prev_log_number
  (ldb_edit_set_log_number demo_edit2 0) 0) 3) 0.
Proof. by vm_compute. Qed.
Lemma demo_snap_eq : demo_snap = ldb_edit_set_comparator_name ldb_edit_init (cmp_name bytewise_comparator).
Proof. by vm_compute. Qed.

Lemma demo_wf : Forall edit_wf [demo_new; demo_edit1'; demo_edit2'; demo_snap].
Proof.
  rewrite demo_edit1_eq, demo_edit2_eq, demo_snap_eq.
  repeat (apply List.Forall_cons; [check_edit; done|]). apply List.Forall_nil.
Qed.

Lemma demo_edit_ok : Forall (edit_ok (fun _ => True) bytewise_comparator) [demo_new; demo_edit1'; demo_edit2'; demo_snap].
Proof.
  rewrite demo_edit1_eq, demo_edit2_eq, demo_snap_eq.
  repeat (apply List.Forall_cons; [check_edit; first [(split; [by vm_compute|split; [check_ikey|check_ikey|by vm_compute|by vm_compute]])|done]|]).
  apply List.Forall_nil.
Qed.

Ltac check_manifest_ok :=
  split;
  [ pose proof demo_wf as H; repeat (apply Forall_cons_iff in H as [? H]); by repeat apply List.Forall_cons
  | pose proof demo_edit_ok as H; repeat (apply Forall_cons_iff in H as [? H]); by repeat apply List.Forall_cons
  | rewrite ?demo_edit1_eq, ?demo_edit2_eq, ?demo_snap_eq; repeat (apply List.Forall_cons; [done|]); apply List.Forall_nil
  | apply level_cases; apply NoDup_ListNoDup; vm_compute; repeat constructor; cbn; intuition lia
  | intros l _; revert l; apply level_cases; apply map_disjoint_dec_ok; by vm_compute
  | by eexists; vm_compute .. ].

Lemma demo_new_ok : manifest_ok (fun _ => True) bytewise_comparator [demo_new].
Proof. check_manifest_ok. Qed.
Lemma demo_ok1 : manifest_ok (fun _ => True) bytewise_comparator ([demo_new] ++ [demo_edit1']).
Proof. check_manifest_ok. Qed.
Lemma demo_ok2 : manifest_ok (fun _ => True) bytewise_comparator ([demo_snap; demo_edit1'] ++ [demo_edit2']).
Proof. check_manifest_ok. Qed.

Abbreviation demo_set_is := (set_is (fun _ => True) bytewise_comparator).

Lemma covered_all es m : covered es (zlen (log_file (records es))) m -> m = length es.
Proof.
  intros [Hm Hcov]. apply Nat.le_antisymm; [done|]. apply Hcov; [done|]. by rewrite take_ge by (by rewrite records_length).
Qed.

Lemma demo_recovered_ok : disk_rep demo_recovered.2 demo_files /\
  recovered_as (fun _ => True) bytewise_comparator demo_recovered.1 (state_of [demo_new]) /\ vs_dbname demo_recovered.1 = demo_name.
Proof.
  destruct (recover_ok (fun _ => True) bytewise_comparator disk_ops disk_rep disk_names (fun _ => True) [] (Disk demo_files []) demo_files
    demo_name ldb_dbopt_default false 1 (cstr "/db/CURRENT") (cstr "/db/MANIFEST-000001") (zlen (current_contents 1))
    (demo_whole (log_file (records [demo_new]))) [demo_new] (zlen (log_file (records [demo_new]))) eq_refl I)
    as (m & save & vs & e & Hm & Er & R & Hra & Hdb & _); [done|by vm_compute|by vm_compute|by vm_compute|by vm_compute| |apply zlen_nonneg| |].
  - symmetry. by apply ztake_whole.
  - intros m ->%covered_all. apply demo_new_ok.
  - apply covered_all in Hm as ->. unfold demo_recovered. rewrite Er. exact (conj R (conj Hra Hdb)).
Qed.

Lemma demo_stored : stored (fun _ => True) bytewise_comparator demo_name 1 demo_files (fun st => same_state st (state_of [demo_new])).
Proof.
  apply (stored_manifest _ _ _ _ _ (cstr "/db/CURRENT") (cstr "/db/MANIFEST-000001") (log_file (records [demo_new]))
    (zlen (log_file (records [demo_new]))) [demo_new] []); try done.
  intros k. rewrite take_nil, app_nil_r. split; [apply demo_new_ok|done].
Qed.

(** The numbers of the tables on each level. *)
Definition demo_tables (s : versions nat) : option (list (list Z)) :=
  ver ← current_version s; Some (map (fun files => numbers files) (ver_files ver)).

Lemma switch_crash_safe_witness :
  demo_tables demo_recovered.1 = Some [[]; []; []; []; []; []; []] /\ demo_tables demo_applied.1 = Some [[1]; []; []; []; []; []; []] /\
  exists vs' e' history fs',
    ldb_versions_apply bytewise_comparator (journal disk_ops) (demo_recovered.2, []) demo_recovered.1 demo_edit1 =
      Some (LDB_OK, demo_edit1', vs', (e', history)) /\
    manifest_inv (fun _ => True) bytewise_comparator disk_rep disk_names e' fs' vs' [demo_snap; demo_edit1'] /\
    same_state (state_of [demo_snap; demo_edit1']) (state_of ([demo_new] ++ [demo_edit1'])) /\
    survives (fun _ => True) bytewise_comparator (vs_dbname demo_recovered.1) fs' (fun st => same_state st (state_of ([demo_new] ++ [demo_edit1']))) /\
    Forall (fun e => exists fs, disk_rep e fs /\
      survives (fun _ => True) bytewise_comparator (vs_dbname demo_recovered.1) fs (either [demo_new] demo_edit1')) history.
Proof.
  split; [by vm_compute|]. split; [by vm_compute|]. destruct demo_recovered_ok as (R & [Hset Ha Hp Hnext _] & Hdb).
  refine (switch_crash_safe (fun _ => True) bytewise_comparator disk_ops disk_rep disk_names demo_recovered.2 demo_files demo_recovered.1
    [demo_new] demo_edit1 demo_edit1' demo_snap 1 R Hset demo_new_ok Ha Hp _ _ _ _ _ _ demo_ok1 _ _ _ _ _ _).
  - by vm_compute.
  - by vm_compute.
  - by vm_compute.
  - by vm_compute.
  - split; by vm_compute.
  - by vm_compute.
  - by vm_compute.
  - by vm_compute.
  - by eexists; vm_compute.
  - by eexists; vm_compute.
  - by vm_compute.
  - rewrite Hdb. exact demo_stored.
Defined.

Lemma demo_applied_ok : exists fs, vs_dbname demo_applied.1 = demo_name /\
  manifest_inv (fun _ => True) bytewise_comparator disk_rep disk_names demo_applied.2 fs demo_applied.1 [demo_snap; demo_edit1'].
Proof.
  destruct demo_recovered_ok as (R & [Hset Ha Hp Hnext _] & Hdb).
  destruct (apply_first_ok (fun _ => True) bytewise_comparator disk_ops disk_rep disk_names (fun _ => True) demo_recovered.2 demo_files
    demo_recovered.1 [demo_new] demo_edit1 demo_edit1' demo_snap (cstr "/db/MANIFEST-000002") (cstr "/db/000002.dbtmp") (cstr "/db/CURRENT")
    R Hset demo_new_ok Ha Hp) as (vs' & e' & Eap & Hdb' & Hinv & _).
  7: exact demo_ok1.
  12: exact (fun _ => I). 12: exact (fun _ _ => I). 12: exact I.
  5: split; by vm_compute.
  1-10: by vm_compute.
  unfold demo_applied, demo_apply. rewrite Eap. eexists. split; [|exact Hinv]. cbv beta iota. cbn [fst]. by rewrite Hdb'.
Qed.

Lemma apply_crash_safe_witness :
  exists fs, demo_tables demo_applied.1 = Some [[1]; []; []; []; []; []; []] /\
  demo_tables (demo_apply demo_applied demo_edit2).1 = Some [[]; [2]; []; []; []; []; []] /\
  manifest_inv (fun _ => True) bytewise_comparator disk_rep disk_names demo_applied.2 fs demo_applied.1 [demo_snap; demo_edit1'] /\
  exists vs' e' history fs',
    ldb_versions_apply bytewise_comparator (journal disk_ops) (demo_applied.2, []) demo_applied.1 demo_edit2 =
      Some (LDB_OK, demo_edit2', vs', (e', history)) /\
    manifest_inv (fun _ => True) bytewise_comparator disk_rep disk_names e' fs' vs' ([demo_snap; demo_edit1'] ++ [demo_edit2']) /\
    survives (fun _ => True) bytewise_comparator (vs_dbname demo_applied.1) fs' (fun st => st = state_of ([demo_snap; demo_edit1'] ++ [demo_edit2'])) /\
    Forall (fun e => exists fs, disk_rep e fs /\
      survives (fun _ => True) bytewise_comparator (vs_dbname demo_applied.1) fs (either [demo_snap; demo_edit1'] demo_edit2')) history.
Proof.
  destruct demo_applied_ok as (fs & Hdb & Hinv). exists fs. split; [by vm_compute|]. split; [by vm_compute|]. split; [exact Hinv|].
  refine (apply_crash_safe (fun _ => True) bytewise_comparator disk_ops disk_rep disk_names demo_applied.2 fs demo_applied.1
    [demo_snap; demo_edit1'] demo_edit2 demo_edit2' Hinv _ demo_ok2 _); by vm_compute.
Defined.

Lemma apply_recover_witness :
  exists vs' e' save' vs2 e2,
    ldb_versions_apply bytewise_comparator disk_ops demo_applied.2 demo_applied.1 demo_edit2 = Some (LDB_OK, demo_edit2', vs', e') /\
    ldb_versions_recover bytewise_comparator disk_ops [] e' (ldb_versions_create (W := nat) (vs_dbname demo_applied.1) ldb_dbopt_default) false =
      Some (LDB_OK, save', vs2, e2) /\
    demo_set_is vs' (state_of ([demo_snap; demo_edit1'] ++ [demo_edit2'])) /\
    recovered_as (fun _ => True) bytewise_comparator vs2 (state_of ([demo_snap; demo_edit1'] ++ [demo_edit2'])).
Proof.
  destruct demo_applied_ok as (fs & Hdb & Hinv).
  refine (apply_recover (fun _ => True) bytewise_comparator disk_ops disk_rep disk_names demo_applied.2 fs demo_applied.1
    [demo_snap; demo_edit1'] demo_edit2 demo_edit2' [] ldb_dbopt_default false Hinv _ demo_ok2 _); by vm_compute.
Defined.
