(* ===== verification/References.v ===== *)
(** * References to versions

    Readers, compactions and the version set itself hold references to versions.
    This file proves that a version stays, unchanged, as long as someone holds
    it, that it goes when no one does, and that the files that
    [ldb_versions_add_files] protects are those of the versions that are held;
    and that an application that fails leaves the version set as it was. *)

From stdpp Require Import strings sorting gmap relations.
From Stdlib Require Import SpecFloat.
From S2P Require Import Prelude Coding Status Strutil Comparator DBFormat File LogWriter LogReader Options Vector VersionEdit FileList Version VersionBuilder Env VersionSet LogFile FaultyEnv Recovery Manifest Durable.
#[local] Open Scope Z_scope.

(** A reference: the version, and its files when the reference was taken. *)
Abbreviation held_version := (nat * list (list fileptr))%type.

Section References.
Context {W : Type}.
Implicit Type vs : versions W.

Definition references (held : list held_version) (v : nat) : Z := Z.of_nat (count_occ Nat.eq_dec (map fst held) v).

(** Every reference counted is held, or is that of the set to its current
    version. *)
Record counted vs (held : list held_version) : Prop := {
  ct_alive : alive vs;
  ct_refs v ver : vs_objects vs !! v = Some ver -> ver_refs ver = references held v + (if Nat.eqb v (vs_current vs) then 1 else 0);
  ct_held : Forall (fun r => exists ver, vs_objects vs !! r.1 = Some ver /\ ver_files ver = r.2) held
}.

Lemma references_cons r held v : references (r :: held) v = references held v + (if Nat.eqb v r.1 then 1 else 0).
Proof.
  unfold references. cbn [map count_occ]. destruct (Nat.eq_dec r.1 v) as [->|Hne].
  - rewrite Nat.eqb_refl. lia.
  - rewrite (proj2 (Nat.eqb_neq v r.1)) by congruence. lia.
Qed.

Lemma references_nonneg held v : 0 <= references held v.
Proof. unfold references. lia. Qed.

Lemma references_perm held held' v : Permutation held held' -> references held v = references held' v.
Proof. intros H. unfold references. f_equal. apply (Permutation_count_occ Nat.eq_dec). by apply Permutation_map. Qed.

Lemma counted_perm vs held held' : Permutation held held' -> counted vs held -> counted vs held'.
Proof.
  intros Hp [Ha Hr Hh]. split; [done| |].
  - intros v ver E. rewrite <- (references_perm held held' v Hp). auto.
  - by rewrite <- Hp.
Qed.

Lemma alive_frame vs vs' : vs_objects vs' = vs_objects vs -> vs_list vs' = vs_list vs -> vs_current vs' = vs_current vs ->
  vs_next_version vs' = vs_next_version vs -> alive vs -> alive vs'.
Proof. intros Eo El Ec En [H1 H2 H3 H4 H5]. unfold current_version in *. split; unfold current_version; rewrite ?Eo, ?El, ?Ec, ?En; auto. Qed.

Lemma counted_frame vs vs' held : vs_objects vs' = vs_objects vs -> vs_list vs' = vs_list vs -> vs_current vs' = vs_current vs ->
  vs_next_version vs' = vs_next_version vs -> counted vs held -> counted vs' held.
Proof.
  intros Eo El Ec En [Ha Hr Hh]. split; [by apply (alive_frame vs)| |].
  - rewrite Eo, Ec. auto.
  - by rewrite Eo.
Qed.

(** Changing the count of a version that stays. *)
Lemma alive_count vs v ver refs : alive vs -> vs_objects vs !! v = Some ver -> 1 <= refs ->
  alive (set_objects vs (vs_next_version vs) (<[v := with_refs ver refs]> (vs_objects vs)) (vs_list vs) (vs_current vs)).
Proof.
  intros [Al An Ar Ac Ax] E Hr. unfold current_version in *.
  assert (forall w, is_Some (<[v := with_refs ver refs]> (vs_objects vs) !! w) <-> is_Some (vs_objects vs !! w)) as Dom.
  { intros w. destruct (decide (w = v)) as [->|Hne]; [rewrite lookup_insert_eq, E; split; by eexists|by rewrite lookup_insert_ne]. }
  split; unfold current_version; cbn [set_objects vs_list vs_objects vs_current vs_next_version].
  - intros w. by rewrite Dom.
  - done.
  - intros w wver. destruct (decide (w = v)) as [->|Hne]; [rewrite lookup_insert_eq; by intros [= <-]|rewrite lookup_insert_ne by done; apply Ar].
  - by rewrite Dom.
  - intros w. rewrite Dom. apply Ax.
Qed.

(** Freeing a version. *)
Lemma alive_gone vs v ver : alive vs -> v <> vs_current vs -> ver_refs ver = 1 ->
  alive (set_objects vs (vs_next_version vs) (delete v (vs_objects vs)) (unlisted (vs_list vs) v ver) (vs_current vs)).
Proof.
  intros [Al An Ar Ac Ax] Hcur E1. unfold current_version in *. split; unfold current_version; cbn [set_objects vs_list vs_objects vs_current vs_next_version].
  - intros w. rewrite unlisted_elem, Al. destruct (decide (w = v)) as [->|Hne].
    + rewrite lookup_delete_eq. split; [intros [_ H2]; by destruct H2|by intros [? ?]].
    + rewrite lookup_delete_ne by done. tauto.
  - by apply unlisted_nodup.
  - intros w wver. destruct (decide (w = v)) as [->|Hne]; [by rewrite lookup_delete_eq|rewrite lookup_delete_ne by done; apply Ar].
  - by rewrite lookup_delete_ne.
  - intros w Hw. apply Ax. destruct (decide (w = v)) as [->|Hne]; [rewrite lookup_delete_eq in Hw; by destruct Hw|by rewrite lookup_delete_ne in Hw].
Qed.

Lemma held_count vs v ver refs held : vs_objects vs !! v = Some ver ->
  Forall (fun r => exists ver, vs_objects vs !! r.1 = Some ver /\ ver_files ver = r.2) held ->
  Forall (fun r => exists w, <[v := with_refs ver refs]> (vs_objects vs) !! r.1 = Some w /\ ver_files w = r.2) held.
Proof.
  intros E. apply List.Forall_impl. intros [w files] (wver & Ew & Ef). cbn [fst snd] in *. destruct (decide (w = v)) as [->|Hne].
  - exists (with_refs ver refs). rewrite lookup_insert_eq. split; [done|]. rewrite E in Ew. by injection Ew as ->.
  - exists wver. by rewrite lookup_insert_ne.
Qed.

Lemma counted_ref vs held v ver : counted vs held -> vs_objects vs !! v = Some ver ->
  exists vs', ldb_version_ref vs v = Some vs' /\ counted vs' ((v, ver_files ver) :: held) /\ vs_current vs' = vs_current vs.
Proof.
  intros [Ha Hr Hh] E. rewrite (ref_ok vs v ver E). eexists. split; [reflexivity|]. pose proof (al_refs vs Ha v ver E).
  split; [|done]. split; [apply alive_count; [done..|lia]| |]; cbn [set_objects vs_objects vs_current].
  - intros w wver. rewrite references_cons. cbn [fst]. destruct (Nat.eqb_spec w v) as [->|Hne].
    + rewrite lookup_insert_eq. intros [= <-]. cbn [with_refs ver_refs]. rewrite (Hr v ver E). lia.
    + rewrite lookup_insert_ne by done. intros Ew. rewrite (Hr w wver Ew). lia.
  - apply List.Forall_cons; [exists (with_refs ver (ver_refs ver + 1)); cbn [fst snd]; by rewrite lookup_insert_eq|]. by apply held_count.
Qed.

(** Dropping a reference that is held. *)
Lemma counted_unref vs held v files : counted vs ((v, files) :: held) ->
  exists vs', ldb_version_unref vs v = Some vs' /\ counted vs' held /\ vs_current vs' = vs_current vs.
Proof.
  intros [Ha Hr Hh]. apply Forall_cons_iff in Hh as [(ver & E & Ef) Hh]. cbn [fst snd] in *.
  pose proof (al_refs vs Ha v ver E) as Hpos. rewrite (unref_ok vs v ver E Hpos). eexists. split; [reflexivity|]. split; [|done].
  pose proof (Hr v ver E) as Hv. rewrite references_cons, Nat.eqb_refl in Hv. pose proof (references_nonneg held v).
  assert (forall w wver, w <> v -> vs_objects vs !! w = Some wver ->
    ver_refs wver = references held w + (if Nat.eqb w (vs_current vs) then 1 else 0)) as Hother.
  { intros w wver Hne Ew. rewrite (Hr w wver Ew), references_cons. cbn [fst]. rewrite (proj2 (Nat.eqb_neq w v)) by done. lia. }
  destruct (decide (ver_refs ver = 1)) as [E1|E1].
  - assert (v <> vs_current vs) as Hcur by (destruct (Nat.eqb_spec v (vs_current vs)); [lia|done]).
    rewrite dropped_last by done. split; [by apply alive_gone|..]; cbn [set_objects vs_objects vs_current].
    + intros w wver. destruct (decide (w = v)) as [->|Hne]; [by rewrite lookup_delete_eq|]. rewrite lookup_delete_ne by done. by apply Hother.
    + assert (references held v = 0) as H0 by (destruct (Nat.eqb v (vs_current vs)); lia). unfold references in H0.
      apply List.Forall_forall. intros [w fs] Hin. pose proof (proj1 (List.Forall_forall _ _) Hh _ Hin) as (wver & Ew & Ewf). cbn [fst snd] in *.
      assert (w <> v) as Hne.
      { intros ->. assert (In v (map fst held)) as Hin' by (by apply (in_map fst) in Hin).
        pose proof (proj1 (count_occ_In Nat.eq_dec (map fst held) v) Hin'). lia. }
      exists wver. by rewrite lookup_delete_ne.
  - rewrite dropped_more by done. unfold unlisted. rewrite (proj2 (Z.eqb_neq (ver_refs ver) 1)) by done. split.
    + apply alive_count; [done..|lia].
    + cbn [set_objects vs_objects vs_current]. intros w wver. destruct (decide (w = v)) as [->|Hne].
      * rewrite lookup_insert_eq. intros [= <-]. cbn [with_refs ver_refs]. lia.
      * rewrite lookup_insert_ne by done. by apply Hother.
    + by apply held_count.
Qed.

(** A new version becomes the current one. *)
Lemma counted_append vs vs1 held ver : counted vs held -> ver_refs ver = 0 ->
  vs_objects vs1 = <[vs_next_version vs := ver]> (vs_objects vs) -> vs_list vs1 = vs_list vs -> vs_current vs1 = vs_current vs ->
  vs_next_version vs1 = S (vs_next_version vs) ->
  exists vs2, ldb_versions_append_version vs1 (vs_next_version vs) = Some vs2 /\ counted vs2 held.
Proof.
  intros [Ha Hr Hh] H0 Eo El Ec En.
  destruct (appended_ok vs vs1 ver Ha H0 Eo El Ec En) as (objects & vlist & E1 & Hobj & Ha' & Other & Cur). eexists. split; [exact E1|].
  destruct (al_current vs Ha) as [cur Ecur]. specialize (Cur cur Ecur). unfold current_version in Ecur. pose proof (Hr _ _ Ecur) as Hc.
  rewrite Nat.eqb_refl in Hc. set (v := vs_next_version vs) in *.
  assert (forall w wver, vs_objects vs !! w = Some wver -> w <> v) as Hfresh.
  { intros w wver E ->. pose proof (al_next vs Ha v (ex_intro _ _ E)). subst v. lia. }
  assert (references held v = 0) as Hv.
  { unfold references. rewrite (proj1 (count_occ_not_In Nat.eq_dec (map fst held) v)); [done|]. intros [[w fs] [Ew Hin]]%in_map_iff.
    cbn [fst] in Ew. subst w. destruct (proj1 (List.Forall_forall _ _) Hh _ Hin) as (wver & Ew & _). by apply (Hfresh v wver). }
  split; [done| |]; cbn [set_objects vs_objects vs_current].
  - intros w wver. destruct (decide (w = v)) as [->|Hne]; [rewrite Hobj, Hv, Nat.eqb_refl; by intros [= <-]|].
    rewrite (proj2 (Nat.eqb_neq w v)) by done. destruct (decide (w = vs_current vs)) as [->|Hne2].
    + rewrite Cur. destruct (Z.eqb_spec (ver_refs cur) 1); [done|]. intros [= <-]. cbn [with_refs ver_refs]. lia.
    + rewrite Other by done. intros Ew. rewrite (Hr w wver Ew), (proj2 (Nat.eqb_neq _ _)) by done. done.
  - apply List.Forall_forall. intros [w fs] Hin. destruct (proj1 (List.Forall_forall _ _) Hh _ Hin) as (wver & Ew & Ef). cbn [fst snd] in *.
    destruct (decide (w = vs_current vs)) as [->|Hne]; [|exists wver; by rewrite Other by (done || by apply (Hfresh w wver))].
    rewrite Ecur in Ew. injection Ew as <-. rewrite Cur. destruct (Z.eqb_spec (ver_refs cur) 1) as [E|E]; [|by eexists].
    assert (In (vs_current vs) (map fst held)) as Hin' by (by apply (in_map fst) in Hin).
    pose proof (proj1 (count_occ_In Nat.eq_dec (map fst held) (vs_current vs)) Hin'). unfold references in Hc. lia.
Qed.

Lemma build_shape (uc : comparator) vs b r : build_version uc vs b = Some r ->
  exists ver, ver_refs ver = 0 /\ forall vs', build_version uc vs' b = Some (new_version vs' ver).
Proof.
  unfold build_version. destruct (builder_save_to uc b ldb_version_init) as [ver|] eqn:E; [|done]. intros _.
  exists (ldb_versions_finalize ver). split; [|done]. rewrite (proj2 (finalize_files ver)). by apply save_refs in E.
Qed.

(** The new version of an application, next to the others. *)
Lemma edited_shape (uc : comparator) vs ed v vs1 : alive vs -> edited_version uc vs ed = Some (v, vs1) ->
  exists heap pointers ver, ver_refs ver = 0 /\ v = vs_next_version vs /\
    vs1 = set_objects (set_edited vs heap pointers) (S v) (<[v := ver]> (vs_objects vs)) (vs_list vs) (vs_current vs).
Proof.
  intros Ha. destruct (al_current vs Ha) as [cur Ecur]. intros E. pose proof E as E'. unfold edited_version in E'. unfold current_version in Ecur.
  rewrite (ref_ok vs _ cur Ecur), bind_some in E'. cbn [set_objects vs_objects vs_heap vs_compact_pointer] in E'.
  rewrite lookup_insert_eq, bind_some in E'. destruct (builder_apply _ _ _ _ _) as [[[heap pointers] b]|] eqn:Eb; [|done]. rewrite bind_some in E'.
  destruct (build_version _ _ b) as [r|] eqn:Ev; [|done]. apply build_shape in Ev as (ver & Hr & Hv).
  rewrite (edited_by uc vs cur ed heap pointers b ver Ha Ecur Eb Hv) in E. injection E as <- <-. by exists heap, pointers, ver.
Qed.
End References.

(** ** Applications and recoveries *)

Lemma filter_all_true {A} (p : A -> bool) xs : (forall x, In x xs -> p x = true) -> List.filter p xs = xs.
Proof.
  induction xs as [|x xs IH]; intros H; [done|]. cbn [List.filter]. rewrite H by (by left). rewrite IH; [done|]. intros y Hy. apply H. by right.
Qed.

Section Steps.
Context (uc : comparator) {E W : Type} (ops : env_ops E W).
Implicit Type vs : versions W.

(** Only the descriptor changes while the edit is logged. *)
Definition same_but_descriptor vs vs' : Prop := exists file log, vs' = set_descriptor vs file log.

Lemma same_refl vs : same_but_descriptor vs vs.
Proof. exists (vs_descriptor_file vs), (vs_descriptor_log vs). by destruct vs. Qed.

Lemma same_trans vs1 vs2 vs3 : same_but_descriptor vs1 vs2 -> same_but_descriptor vs2 vs3 -> same_but_descriptor vs1 vs3.
Proof. intros (f & l & ->) (f' & l' & ->). by exists f', l'. Qed.

Lemma open_same e vs rc fname vs' e' : open_descriptor uc ops e vs = Some (rc, fname, vs', e') -> same_but_descriptor vs vs'.
Proof.
  unfold open_descriptor. destruct (vs_descriptor_log vs); [intros [= _ _ <- _]; apply same_refl|].
  destruct (vs_descriptor_file vs); [done|]. destruct (ldb_desc_filename _ _ _); [|intros [= _ _ <- _]; apply same_refl].
  destruct (env_truncfile_create _ _ _) as [[?|file] e1]; [intros [= _ _ <- _]; apply same_refl|].
  destruct (ldb_versions_write_snapshot _ _ _ _ _) as [[[rc1 log] e2]|]; [|done]. rewrite bind_some. intros [= _ _ <- _]. by exists (Some file), (Some log).
Qed.

Lemma log_same e vs fname rc ed rc' vs' e' : log_edit ops e vs fname rc ed = Some (rc', vs', e') -> same_but_descriptor vs vs'.
Proof.
  unfold log_edit. intros H. assert (exists rc1 vs1 e1, (if rc =? LDB_OK then write_edit ops e vs ed else Some (rc, vs, e)) = Some (rc1, vs1, e1) /\
    same_but_descriptor vs vs1) as (rc1 & vs1 & e1 & E1 & S1).
  { destruct (rc =? LDB_OK); [|exists rc, vs, e; by split; [|apply same_refl]]. unfold write_edit in *.
    destruct (vs_descriptor_log vs); [rewrite bind_some in *|done]. destruct (env_add_record _ _ _ _) as [[[rc1 log] e1]|]; [|done].
    rewrite bind_some in *. destruct (rc1 =? LDB_OK); [|eexists _, _, _; split; [reflexivity|by exists (vs_descriptor_file vs), (Some log)]].
    cbn [set_descriptor vs_descriptor_file] in *. destruct (vs_descriptor_file vs) as [file|]; [rewrite bind_some in *|done].
    destruct (env_sync ops e1 file) as [rc2 e2]. eexists _, _, _. split; [reflexivity|by exists (Some file), (Some log)]. }
  rewrite E1, bind_some in H. destruct (_ && _); [|by injection H as _ <- _].
  destruct (ldb_set_current_file _ _ _ _) as [[rc2 e2]|]; [rewrite bind_some in H; by injection H as _ <- _|done].
Qed.

Lemma drop_same e vs fname vs' e' : drop_descriptor ops e vs fname = Some (vs', e') -> same_but_descriptor vs vs'.
Proof.
  unfold drop_descriptor. destruct (0 <? zlen fname); [|intros [= <- _]; apply same_refl]. destruct (vs_descriptor_file vs); [|done].
  rewrite bind_some. intros [= <- _]. by exists None, None.
Qed.

(** The version is appended, or everything but the descriptor, the file objects
    and the compaction pointers is as before. *)
Lemma apply_shape e vs ed rc ed' vs' e' held : counted vs held -> ldb_versions_apply uc ops e vs ed = Some (rc, ed', vs', e') ->
  if rc =? LDB_OK then counted vs' held
  else exists heap pointers, same_but_descriptor
    (set_objects (set_edited vs heap pointers) (S (vs_next_version vs)) (vs_objects vs) (vs_list vs) (vs_current vs)) vs'.
Proof.
  intros Hc. pose proof (ct_alive _ _ Hc) as Ha. unfold ldb_versions_apply. destruct (complete_edit vs ed) as [ed1|]; [rewrite bind_some|done].
  destruct (edited_version uc vs ed1) as [[v vs1]|] eqn:Ee; [rewrite bind_some|done].
  apply edited_shape in Ee as (heap & pointers & ver & Hr & -> & Evs1); [|done].
  destruct (open_descriptor uc ops e vs1) as [[[[rc1 fname] vs2] e1]|] eqn:Eo; [rewrite bind_some|done].
  destruct (log_edit ops e1 vs2 fname rc1 ed1) as [[[rc2 vs3] e2]|] eqn:El; [rewrite bind_some|done].
  assert (same_but_descriptor vs1 vs3) as (file & log & Evs3) by (eapply same_trans; [by eapply open_same|by eapply log_same]).
  destruct (rc2 =? LDB_OK) eqn:Erc.
  - destruct (counted_append vs vs3 held ver Hc Hr) as (vs4 & E4 & Hc4); try (by rewrite Evs3, Evs1).
    rewrite E4, bind_some. destruct (ed_log_number ed1) as [logn|]; [rewrite bind_some|done].
    destruct (ed_prev_log_number ed1) as [prev|]; [rewrite bind_some|done]. intros [= <- <- <- <-]. rewrite Erc. by apply (counted_frame vs4).
  - assert (ldb_version_destroy vs3 (vs_next_version vs) =
      Some (set_descriptor (set_objects (set_edited vs heap pointers) (S (vs_next_version vs)) (vs_objects vs) (vs_list vs) (vs_current vs)) file log)) as ->.
    { unfold ldb_version_destroy. rewrite Evs3, Evs1. cbn [set_descriptor set_objects vs_objects]. rewrite lookup_insert_eq, bind_some, Hr.
      cbn [Z.eqb negb]. f_equal. unfold set_objects, set_descriptor, set_edited. cbn [vs_dbname vs_options vs_next_file_number vs_manifest_file_number
        vs_last_sequence vs_log_number vs_prev_log_number vs_descriptor_file vs_descriptor_log vs_next_version vs_objects vs_list vs_current vs_heap
        vs_compact_pointer].
      assert (forall w, w ∈ vs_list vs -> w <> vs_next_version vs) as Hfresh.
      { intros w Hw%(al_list vs Ha) ->. apply (al_next vs Ha) in Hw. lia. }
      rewrite delete_insert_id by (apply eq_None_not_Some; intros Hs; apply (al_next vs Ha) in Hs; lia). f_equal.
      apply filter_all_true. intros w Hw. apply negb_true_iff, Nat.eqb_neq. by apply Hfresh, list_elem_of_In. }
    rewrite bind_some. destruct (drop_descriptor ops e2 _ fname) as [[vs5 e3]|] eqn:Ed; [rewrite bind_some|done].
    intros [= <- <- <- <-]. rewrite Erc. exists heap, pointers. apply drop_same in Ed. eapply same_trans; [|exact Ed]. by exists file, log.
Qed.

Lemma reuse_frame e vs path r vs' e' held : ldb_versions_reuse_manifest ops e vs path = Some (r, vs', e') -> counted vs held -> counted vs' held.
Proof.
  unfold ldb_versions_reuse_manifest. destruct (negb _); [by intros [= _ <- _]|].
  destruct (ldb_parse_filename _) as [[[] number]|]; try by intros [= _ <- _].
  destruct (env_file_size _ _ _); [by intros [= _ <- _]|]. destruct (_ <=? _); [by intros [= _ <- _]|].
  destruct (vs_descriptor_file vs), (vs_descriptor_log vs); try done. destruct (env_appendfile_create _ _ _) as [[?|file] e1]; intros [= _ <- _]; [done|].
  by apply counted_frame.
Qed.

Lemma install_counted e vs fname r save save' vs' e' held : counted vs held ->
  install_recovered uc ops e vs fname r save = Some (save', vs', e') -> counted vs' held.
Proof.
  intros Hc. unfold install_recovered. destruct (build_version uc vs (rv_builder r)) as [r1|] eqn:Eb; [|done]. pose proof Eb as Eb'.
  apply build_shape in Eb' as (ver & Hr & Hv). rewrite Hv in Eb. injection Eb as <-. rewrite bind_some. unfold new_version.
  destruct (counted_append vs (set_objects vs (S (vs_next_version vs)) (<[vs_next_version vs := ver]> (vs_objects vs)) (vs_list vs) (vs_current vs))
    held ver Hc Hr) as (vs2 & -> & Hc2); [done..|]. rewrite bind_some. destruct (ldb_versions_reuse_manifest _ _ _ _) as [[[b vs3] e3]|] eqn:Er; [|done].
  rewrite bind_some. intros [= _ <- _]. apply (reuse_frame _ _ _ _ _ _ held) in Er; [done|]. by apply (counted_frame vs2).
Qed.

Lemma recover_counted junk e vs save rc save' vs' e' held : counted vs held ->
  ldb_versions_recover uc ops junk e vs save = Some (rc, save', vs', e') -> counted vs' held.
Proof.
  intros Hc. unfold ldb_versions_recover. destruct (read_current_filename ops e (vs_dbname vs)) as [rc0 fname].
  destruct (negb _); [by intros [= _ _ <- _]|]. destruct (env_seqfile_create ops e fname) as [?|[data error]]; [by intros [= _ _ <- _]|].
  destruct (al_current vs (ct_alive _ _ Hc)) as [cur Ecur]. destruct (counted_ref vs held (vs_current vs) cur Hc Ecur) as (vs1 & E1 & Hc1 & _).
  rewrite E1, bind_some. destruct (vs_objects vs1 !! vs_current vs) as [ver|]; [rewrite bind_some|done].
  destruct (recover_loop _ _ _ _ _ _) as [[rc1 r]|]; [rewrite bind_some|done].
  match goal with |- context [recover_status rc1 r =? LDB_OK] => idtac end.
  set (vs2 := if rc1 =? LDB_OK then _ else _).
  assert (counted vs2 ((vs_current vs, ver_files cur) :: held)) as Hc2.
  { subst vs2. destruct (rc1 =? LDB_OK); [|by apply (counted_frame vs1)].
    match goal with |- context [ldb_versions_mark_file_number (ldb_versions_mark_file_number ?x ?a) ?b] =>
      destruct (mark_ok x a) as [k1 ->]; destruct (mark_ok (set_next_file x k1) b) as [k2 ->] end. by apply (counted_frame vs1). }
  clearbody vs2.
  destruct (if recover_status rc1 r =? LDB_OK then _ else _) as [[[s3 vs3] e3]|] eqn:E3; [rewrite bind_some|done].
  assert (counted vs3 ((vs_current vs, ver_files cur) :: held)) as Hc3.
  { destruct (recover_status rc1 r =? LDB_OK); [by eapply install_counted|]. by injection E3 as _ <- _. }
  destruct (counted_unref vs3 held _ _ Hc3) as (vs4 & E4 & Hc4 & _). rewrite E4, bind_some. by intros [= _ _ <- _].
Qed.

(** ** Histories *)

(** The environment, the set and the references that are held. *)
Record vstate := Vstate { vt_env : E; vt_set : versions W; vt_held : list held_version }.

(** Someone takes a reference to the current version, or drops one; an edit is
    applied; the set is recovered. *)
Inductive vstep : vstate -> vstate -> Prop :=
| step_ref e vs held ver vs' :
    current_version vs = Some ver -> ldb_version_ref vs (vs_current vs) = Some vs' ->
    vstep (Vstate e vs held) (Vstate e vs' ((vs_current vs, ver_files ver) :: held))
| step_unref e vs held1 held2 v files vs' :
    ldb_version_unref vs v = Some vs' -> vstep (Vstate e vs (held1 ++ (v, files) :: held2)) (Vstate e vs' (held1 ++ held2))
| step_apply e vs held ed rc ed' vs' e' :
    ldb_versions_apply uc ops e vs ed = Some (rc, ed', vs', e') -> vstep (Vstate e vs held) (Vstate e' vs' held)
| step_recover junk e vs held save rc save' vs' e' :
    ldb_versions_recover uc ops junk e vs save = Some (rc, save', vs', e') -> vstep (Vstate e vs held) (Vstate e' vs' held).

Lemma counted_kept vs vs' held : vs_objects vs' = vs_objects vs -> vs_list vs' = vs_list vs -> vs_current vs' = vs_current vs ->
  (vs_next_version vs <= vs_next_version vs')%nat -> counted vs held -> counted vs' held.
Proof.
  intros Eo El Ec En [[H1 H2 H3 H4 H5] Hr Hh]. unfold current_version in *. split; rewrite ?Eo, ?Ec; [|done..].
  split; unfold current_version; rewrite ?Eo, ?El, ?Ec; try done. intros v Hv. specialize (H5 v Hv). lia.
Qed.

Lemma vstep_counted s s' : vstep s s' -> counted (vt_set s) (vt_held s) -> counted (vt_set s') (vt_held s').
Proof.
  intros [e vs held ver vs' Ecur Er|e vs held1 held2 v files vs' Eu|e vs held ed rc ed' vs' e' Ea|junk e vs held save rc save' vs' e' Er] Hc;
    cbn [vt_set vt_held] in *.
  - destruct (counted_ref vs held (vs_current vs) ver Hc Ecur) as (vs1 & E1 & Hc1 & _). congruence.
  - apply (counted_perm _ _ ((v, files) :: held1 ++ held2)) in Hc; [|symmetry; apply Permutation_middle].
    destruct (counted_unref vs _ v files Hc) as (vs1 & E1 & Hc1 & _). congruence.
  - pose proof (apply_shape e vs ed rc ed' vs' e' held Hc Ea) as H. destruct (rc =? LDB_OK); [done|]. destruct H as (heap & pointers & file & log & ->).
    apply (counted_kept vs); [done..|cbn; lia|done].
  - by eapply recover_counted.
Qed.

Lemma vsteps_counted s s' : rtc vstep s s' -> counted (vt_set s) (vt_held s) -> counted (vt_set s') (vt_held s').
Proof. induction 1 as [s|s s1 s2 H _ IH]; [done|]. intros Hc. by apply IH, (vstep_counted s). Qed.

Lemma create_counted dbname options : counted (ldb_versions_create (W := W) dbname options) [].
Proof.
  split; [split|..]; unfold current_version, ldb_versions_create, ldb_versions_init; cbn [vs_list vs_objects vs_current vs_next_version].
  - intros v. rewrite list_elem_of_singleton. destruct (decide (v = 0%nat)) as [->|Hne]; [rewrite lookup_singleton_eq; split; [by eexists|done]|].
    rewrite lookup_singleton_ne by done. split; [done|by intros [? ?]].
  - apply NoDup_singleton.
  - intros v ver [<- <-]%lookup_singleton_Some. done.
  - rewrite lookup_singleton_eq. by eexists.
  - intros v [ver [<- _]%lookup_singleton_Some]. lia.
  - intros v ver [<- <-]%lookup_singleton_Some. done.
  - apply List.Forall_nil.
Qed.

(** *** The files that are in use *)

Definition file_numbers (ver : ldb_version) : list Z := numbers (concat (ver_files ver)).

Lemma add_files_loop_ok objects vlist : forall live, (forall v, v ∈ vlist -> is_Some (objects !! v)) ->
  exists live', add_files_loop objects vlist live = Some live' /\
    forall n, n ∈ live' <-> n ∈ live \/ exists v ver, v ∈ vlist /\ objects !! v = Some ver /\ n ∈ file_numbers ver.
Proof.
  induction vlist as [|v vlist IH]; intros live Hl; cbn [add_files_loop].
  { exists live. split; [done|]. intros n. split; [by left|]. intros [?|(v & ver & H & _)]; [done|]. by apply elem_of_nil in H. }
  destruct (Hl v (list_elem_of_here _ _)) as [ver Ev]. rewrite Ev, bind_some.
  destruct (IH (list_to_set (numbers (concat (ver_files ver))) ∪ live)) as (live' & -> & Hlive); [intros w Hw; apply Hl; by right|].
  exists live'. split; [done|]. intros n. rewrite Hlive, elem_of_union, elem_of_list_to_set. fold (file_numbers ver). setoid_rewrite elem_of_cons. split.
  - intros [[H|H]|(w & wver & Hw & Ew & H)]; [right; exists v, ver; auto|by left|right; exists w, wver; auto].
  - intros [H|(w & wver & [->|Hw] & Ew & H)]; [auto| |right; by exists w, wver]. rewrite Ev in Ew. injection Ew as <-. auto.
Qed.

(** The set that [ldb_versions_add_files] gives. *)
Lemma add_files_counted (vs : versions W) held : counted vs held -> exists cur, current_version vs = Some cur /\
  forall pending, exists live, ldb_versions_add_files vs pending = Some live /\
    forall n, n ∈ live <-> n ∈ pending \/ n ∈ file_numbers cur \/ exists v files, (v, files) ∈ held /\ n ∈ numbers (concat files).
Proof.
  intros [Ha Hr Hh]. destruct (al_current vs Ha) as [cur Ecur]. exists cur. split; [done|]. intros pending. unfold ldb_versions_add_files.
  destruct (add_files_loop_ok (vs_objects vs) (vs_list vs) pending) as (live & -> & Hlive); [intros v; by rewrite (al_list vs Ha)|].
  exists live. split; [done|]. intros n. rewrite Hlive. apply or_iff_compat_l. split.
  - intros (v & ver & Hv & Ev & Hn). pose proof (Hr v ver Ev) as Hv'. pose proof (al_refs vs Ha v ver Ev).
    destruct (Nat.eqb_spec v (vs_current vs)) as [->|Hne]; [left; unfold current_version in Ecur; rewrite Ecur in Ev; by injection Ev as <-|].
    right. assert (In v (map fst held)) as Hin by (apply (count_occ_In Nat.eq_dec); unfold references in Hv'; lia).
    apply in_map_iff in Hin as ([w files] & Ew & Hin). cbn [fst] in Ew. subst w. exists v, files. split; [by apply list_elem_of_In|].
    destruct (proj1 (List.Forall_forall _ _) Hh _ Hin) as (wver & Ew & Ef). cbn [fst snd] in *. rewrite Ev in Ew. injection Ew as <-. by rewrite <- Ef.
  - intros [Hn|(v & files & Hin & Hn)].
    + exists (vs_current vs), cur. split; [apply (al_list vs Ha); by exists cur|done].
    + destruct (proj1 (List.Forall_forall _ _) Hh _ (proj1 (list_elem_of_In _ _) Hin)) as (ver & Ev & Ef). cbn [fst snd] in *. exists v, ver.
      split; [apply (al_list vs Ha); by exists ver|]. split; [done|]. unfold file_numbers. by rewrite Ef.
Qed.

(** C11: In whatever order versions are referenced and released, edits
    applied and the set recovered, successfully or not, a version that someone
    holds is there with the files it had, can be released, and the files that
    [ldb_versions_add_files] protects are exactly those of the current version
    and of the versions held. *)
Theorem references_safe dbname options e s : rtc vstep (Vstate e (ldb_versions_create dbname options) []) s ->
  (forall v files, (v, files) ∈ vt_held s ->
    (exists ver, vs_objects (vt_set s) !! v = Some ver /\ ver_files ver = files) /\ is_Some (ldb_version_unref (vt_set s) v)) /\
  exists cur, current_version (vt_set s) = Some cur /\ forall pending, exists live, ldb_versions_add_files (vt_set s) pending = Some live /\
    forall n, n ∈ live <-> n ∈ pending \/ n ∈ file_numbers cur \/ exists v files, (v, files) ∈ vt_held s /\ n ∈ numbers (concat files).
Proof.
  intros H. apply vsteps_counted in H; [|apply create_counted]. destruct s as [e' vs held]. cbn [vt_set vt_held] in *.
  pose proof H as [Ha Hr Hh]. split.
  - intros v files Hin. pose proof (proj1 (List.Forall_forall _ _) Hh _ (proj1 (list_elem_of_In _ _) Hin)) as (ver & Ev & Ef). cbn [fst snd] in *.
    split; [by exists ver|]. rewrite (unref_ok vs v ver Ev) by (by apply (al_refs vs Ha v)). by eexists.
  - by apply add_files_counted.
Qed.

(** *** Errors *)

(** A log writer can always be given a record, whatever becomes of it. *)
Lemma add_record_total e log r : writer_ok log -> exists rc log' e', env_add_record ops e log r = Some (rc, log', e') /\ writer_ok log'.
Proof.
  intros Hw. assert (forall k d, kept k d (ztake k d)) as Kept by (intros k d; by exists k).
  destruct (add_record_loop_faulty (env_wfile ops) (fun _ _ _ _ => True)) with (fuel := S (S (length r))) (ptr := r) (begin := true)
    (lw := Writer (e, lw_file log) (lw_block_offset log) (lw_type_crc log)) (d := [] : bytes) (k := 0) (b := true) as (rc & lw' & _ & _ & _ & E1 & _ & Hw' & _).
  - intros f d k b xs _. destruct (wfile_append _ _ _) as [rc f']. exists rc, f'. split; [done|]. destruct (Z.eq_dec rc LDB_OK); [by left|]. right. split; [done|]. by exists (ztake k (d ++ xs)).
  - intros f d k b _. destruct (wfile_flush _ _) as [rc f']. exists rc, f'. split; [done|]. destruct (Z.eq_dec rc LDB_OK); [by left|]. right. split; [done|]. by exists (ztake k d).
  - done.
  - done.
  - exact Hw.
  - unfold zlen. destruct (_ =? 0); lia.
  - exists rc, (Writer (lw_file lw').2 (lw_block_offset lw') (lw_type_crc lw')), (lw_file lw').1. unfold env_add_record, ldb_writer_add_record. by rewrite E1.
Qed.

(** Log and file of the descriptor are there, or neither. *)
Definition descriptor_ready vs : Prop :=
  match vs_descriptor_log vs, vs_descriptor_file vs with Some log, Some _ => writer_ok log | None, None => True | _, _ => False end.

Definition descriptor_name vs : option bytes := ldb_desc_filename LDB_PATH_MAX (vs_dbname vs) (vs_manifest_file_number vs).

(** A new MANIFEST has to be created, and cannot be. *)
Definition create_fails e vs : Prop :=
  vs_descriptor_log vs = None /\ exists fname rc e1, descriptor_name vs = Some fname /\ env_truncfile_create ops e fname = (inl rc, e1).

Lemma descriptor_name_nonempty vs fname : descriptor_name vs = Some fname -> 0 < zlen fname.
Proof.
  unfold descriptor_name, ldb_desc_filename, ldb_join. destruct (_ <? _); [done|]. intros [= <-]. rewrite zlen_app, zlen_cons.
  pose proof (zlen_nonneg (vs_dbname vs)). zlia.
Qed.

Lemma open_total e vs : descriptor_ready vs -> is_Some (current_version vs) -> exists rc fname vs' e',
  open_descriptor uc ops e vs = Some (rc, fname, vs', e') /\
  match vs_descriptor_log vs with
  | Some _ => rc = LDB_OK /\ fname = [] /\ vs' = vs /\ descriptor_ready vs'
  | None =>
    match descriptor_name vs with
    | None => rc <> LDB_OK /\ fname = [] /\ vs' = vs /\ e' = e
    | Some path => fname = path /\
      match env_truncfile_create ops e path with
      | (inl rc', _) => rc = rc' /\ vs' = vs
      | (inr file, _) => vs_descriptor_file vs' = Some file /\ is_Some (vs_descriptor_log vs') /\ descriptor_ready vs'
      end
    end
  end.
Proof.
  unfold descriptor_ready, open_descriptor. fold (descriptor_name vs). intros Hd [ver Ev]. destruct (vs_descriptor_log vs) as [log|] eqn:El.
  { exists LDB_OK, [], vs, e. rewrite El. done. }
  destruct (vs_descriptor_file vs); [done|]. destruct (descriptor_name vs) as [path|]; [|by exists LDB_INVALID, [], vs, e].
  destruct (env_truncfile_create ops e path) as [[rc|file] e1]; [by exists rc, path, vs, e1|].
  unfold ldb_versions_write_snapshot. rewrite Ev, bind_some.
  destruct (add_record_total e1 (ldb_writer_init file 0) (ldb_edit_export [] (snapshot_edit uc vs ver)) (writer_init_ok file 0 ltac:(lia))) as (rc & log & e2 & -> & Hw).
  rewrite bind_some. exists rc, path, (set_descriptor vs (Some file) (Some log)), e2. do 3 (split; [done|]). split; [by eexists|done].
Qed.

Lemma log_total e vs fname rc ed : (rc = LDB_OK -> is_Some (vs_descriptor_log vs) /\ descriptor_ready vs) -> 0 < vs_manifest_file_number vs ->
  exists rc' vs' e', log_edit ops e vs fname rc ed = Some (rc', vs', e') /\ vs_descriptor_file vs' = vs_descriptor_file vs /\
    (is_Some (vs_descriptor_log vs) -> is_Some (vs_descriptor_log vs')) /\ (rc <> LDB_OK -> rc' = rc /\ vs' = vs /\ e' = e).
Proof.
  intros Hok Hn. unfold log_edit. assert (exists rc1 vs1 e1, (if rc =? LDB_OK then write_edit ops e vs ed else Some (rc, vs, e)) = Some (rc1, vs1, e1) /\
    vs_descriptor_file vs1 = vs_descriptor_file vs /\ (is_Some (vs_descriptor_log vs) -> is_Some (vs_descriptor_log vs1)) /\
    vs_manifest_file_number vs1 = vs_manifest_file_number vs /\ (rc <> LDB_OK -> rc1 = rc /\ vs1 = vs /\ e1 = e)) as (rc1 & vs1 & e1 & -> & F1 & L1 & N1 & E1).
  { destruct (Z.eqb_spec rc LDB_OK) as [Hrc|Hrc]; [|by exists rc, vs, e]. destruct (Hok Hrc) as [[log El] Hd]. unfold write_edit, descriptor_ready in *.
    rewrite El in *. destruct (vs_descriptor_file vs) as [file|] eqn:Ef; [|done]. rewrite bind_some.
    destruct (add_record_total e log (ldb_edit_export [] ed) Hd) as (rc1 & log1 & e1 & -> & _). rewrite bind_some.
    cbn [set_descriptor vs_descriptor_file]. destruct (rc1 =? LDB_OK).
    - rewrite bind_some. destruct (env_sync ops e1 file) as [rc2 e2]. eexists _, _, _. split; [reflexivity|]. split; [done|]. split; [by eexists|done].
    - eexists _, _, _. split; [reflexivity|]. split; [done|]. split; [by eexists|done]. }
  rewrite bind_some. destruct (Z.eqb_spec rc1 LDB_OK) as [Hrc1|Hrc1]; cbn [andb]; [|by exists rc1, vs1, e1].
  destruct (0 <? zlen fname); [|by exists rc1, vs1, e1].
  assert (exists rc2 e2, ldb_set_current_file ops e1 (vs_dbname vs1) (vs_manifest_file_number vs1) = Some (rc2, e2)) as (rc2 & e2 & ->).
  { unfold ldb_set_current_file. rewrite N1, (proj2 (Z.ltb_lt 0 _)) by done. cbn [negb].
    destruct (ldb_temp_filename _ _ _); [|by eauto]. destruct (ldb_current_filename _ _); [|by eauto]. destruct (ldb_write_file _ _ _ _ _) as [rc3 e3].
    destruct (if rc3 =? LDB_OK then _ else _) as [rc4 e4]. eauto. }
  rewrite bind_some. exists rc2, vs1, e2. do 3 (split; [done|]). intros Hrc. destruct (E1 Hrc) as [? _]. congruence.
Qed.

(** An edit that fits is applied, or an error given. *)
Lemma apply_total e vs ed ed1 held : counted vs held -> descriptor_ready vs -> 0 < vs_manifest_file_number vs ->
  complete_edit vs ed = Some ed1 -> is_Some (edited_version uc vs ed1) ->
  if match vs_descriptor_log vs, descriptor_name vs with
     | None, Some fname => match env_truncfile_create ops e fname with (inl _, _) => true | _ => false end
     | _, _ => false
     end
  then ldb_versions_apply uc ops e vs ed = None
  else exists rc ed' vs' e', ldb_versions_apply uc ops e vs ed = Some (rc, ed', vs', e') /\ (rc <> LDB_OK ->
    match vs_descriptor_log vs with
    | Some _ => vs_descriptor_file vs' = vs_descriptor_file vs /\ is_Some (vs_descriptor_log vs')
    | None => vs_descriptor_file vs' = None /\ vs_descriptor_log vs' = None /\
      match descriptor_name vs with
      | None => e' = e
      | Some fname => exists file e1 e2, env_truncfile_create ops e fname = (inr file, e1) /\ e' = (env_remove_file ops (env_destroy ops e2 file) fname).2
      end
    end).
Proof.
  intros Hc Hd Hn Ec [[v vs1] Ee]. pose proof (ct_alive _ _ Hc) as Ha. unfold ldb_versions_apply. rewrite Ec, bind_some, Ee, bind_some.
  apply edited_shape in Ee as (heap & pointers & ver & Hr & -> & Evs1); [|done].
  assert (descriptor_name vs1 = descriptor_name vs /\ vs_descriptor_log vs1 = vs_descriptor_log vs /\ vs_descriptor_file vs1 = vs_descriptor_file vs /\
    vs_manifest_file_number vs1 = vs_manifest_file_number vs /\ vs_objects vs1 !! vs_next_version vs = Some ver) as (N1 & L1 & F1 & M1 & O1).
  { subst vs1. do 4 (split; [done|]). apply lookup_insert_eq. }
  assert (is_Some (current_version vs1)) as Hcur.
  { subst vs1. unfold current_version. cbn [set_objects vs_objects vs_current]. destruct (decide (vs_current vs = vs_next_version vs)) as [->|Hne];
      [rewrite lookup_insert_eq; by eexists|rewrite lookup_insert_ne by done; apply (al_current vs Ha)]. }
  destruct (open_total e vs1) as (rc1 & fname & vs2 & e1 & Eo & Ho); [by unfold descriptor_ready; rewrite L1, F1|done|].
  rewrite N1, L1 in Ho. pose proof (open_same _ _ _ _ _ _ Eo) as (f2 & l2 & Evs2). rewrite Eo, bind_some.
  assert (rc1 = LDB_OK -> (vs_descriptor_log vs = None -> forall path, descriptor_name vs = Some path -> exists file e1, env_truncfile_create ops e path = (inr file, e1)) ->
    is_Some (vs_descriptor_log vs2) /\ descriptor_ready vs2) as Ready.
  { intros Hrc Hnot. destruct (vs_descriptor_log vs) as [log|] eqn:El; [destruct Ho as (_ & _ & -> & ?); split; [rewrite L1; by eexists|done]|].
    destruct (descriptor_name vs) as [path|]; [|destruct Ho as [? _]; congruence]. destruct (Hnot eq_refl path eq_refl) as (file & e3 & E3). rewrite E3 in Ho. by destruct Ho as (_ & _ & ? & ?). }
  assert (0 < vs_manifest_file_number vs2) as Hn2 by (rewrite Evs2; cbn [set_descriptor vs_manifest_file_number]; by rewrite M1).
  assert (forall rc2 vs3 e2, rc2 <> LDB_OK -> log_edit ops e1 vs2 fname rc1 ed1 = Some (rc2, vs3, e2) ->
    exists vs4, ldb_version_destroy vs3 (vs_next_version vs) = Some vs4 /\ vs_descriptor_file vs4 = vs_descriptor_file vs3 /\ vs_descriptor_log vs4 = vs_descriptor_log vs3) as Destroy.
  { intros rc2 vs3 e2 _ El. destruct (log_same _ _ _ _ _ _ _ _ El) as (f & l & ->). rewrite Evs2. unfold ldb_version_destroy. cbn [set_descriptor vs_objects].
    rewrite O1, bind_some, Hr. cbn [Z.eqb negb]. eexists. split; [reflexivity|]. done. }
  assert (is_Some (ed_log_number ed1) /\ is_Some (ed_prev_log_number ed1)) as [[ln Eln] [pln Epln]].
  { destruct (complete_edit_ok vs ed ed1 Ec) as (? & ? & _). done. }
  destruct (match vs_descriptor_log vs with None => _ | _ => _ end) eqn:Ecase.
  - destruct (vs_descriptor_log vs) as [log|] eqn:El; [done|]. destruct (descriptor_name vs) as [path|] eqn:Ep; [|done].
    destruct (env_truncfile_create ops e path) as [[rc|file] e3]; [|done]. destruct Ho as (-> & -> & ->).
    unfold descriptor_ready in Hd. rewrite El in Hd. destruct (vs_descriptor_file vs) eqn:Ef; [done|].
    destruct (Z.eq_dec rc LDB_OK) as [->|Hrc].
    { unfold log_edit, write_edit. change (LDB_OK =? LDB_OK) with true. cbv iota. by rewrite L1. }
    destruct (log_total e1 vs1 path rc ed1) as (rc2 & vs3 & e2 & Elog & _ & _ & Hbad); [done|by rewrite M1|]. rewrite Elog, bind_some.
    destruct (Hbad Hrc) as (-> & -> & ->). rewrite (proj2 (Z.eqb_neq rc LDB_OK)) by done. destruct (Destroy _ _ _ Hrc Elog) as (vs4 & -> & F4 & _). rewrite bind_some.
    unfold drop_descriptor. rewrite (proj2 (Z.ltb_lt 0 _)) by (by apply (descriptor_name_nonempty vs)). by rewrite F4, F1.
  - destruct (log_total e1 vs2 fname rc1 ed1) as (rc2 & vs3 & e2 & Elog & F3 & L3 & Hbad); [|done|].
    { intros Hrc. apply Ready; [done|]. intros El path Ep. rewrite El, Ep in Ecase. destruct (env_truncfile_create ops e path) as [[?|file] e3]; [done|eauto]. }
    rewrite Elog, bind_some. destruct (Z.eqb_spec rc2 LDB_OK) as [Hrc2|Hrc2].
    + pose proof (log_same _ _ _ _ _ _ _ _ Elog) as (f3 & l3 & Evs3).
      destruct (counted_append vs vs3 held ver Hc Hr) as (vs4 & E4 & Hc4); try (by rewrite Evs3, Evs2, Evs1).
      rewrite E4, bind_some, Eln, bind_some, Epln, bind_some. by eexists _, _, _, _.
    + destruct (Destroy _ _ _ Hrc2 Elog) as (vs4 & -> & F4 & L4). rewrite bind_some. unfold drop_descriptor.
      destruct (vs_descriptor_log vs) as [log|] eqn:El.
      { destruct Ho as (_ & -> & -> & _). cbn [zlen length]. eexists _, _, _, _. split; [reflexivity|]. intros _. rewrite F4, F3, L4. split; [done|]. apply L3. rewrite L1. by eexists. }
      unfold descriptor_ready in Hd. rewrite El in Hd. destruct (vs_descriptor_file vs) eqn:Ef; [done|].
      destruct (descriptor_name vs) as [path|] eqn:Ep.
      * destruct Ho as [-> Ho]. destruct (env_truncfile_create ops e path) as [[?|file] e3]; [done|]. destruct Ho as (Ho & _).
        rewrite (proj2 (Z.ltb_lt 0 _)) by (by apply (descriptor_name_nonempty vs)). rewrite F4, F3, Ho, bind_some, bind_some.
        eexists _, _, _, _. split; [reflexivity|]. intros _. do 2 (split; [done|]). by exists file, e3, e2.
      * destruct Ho as (Hrc1 & -> & -> & ->). destruct (Hbad Hrc1) as (-> & -> & ->). cbn [zlen length]. eexists _, _, _, _. split; [reflexivity|].
        intros _. by rewrite F4, L4, F1, L1.
Qed.

(** C12: An edit that fits the versions is applied or an error is given; there is
    no result exactly when a new MANIFEST cannot be created, since then a file
    that was never opened is destroyed.  When there is an error, wherever it
    arises, the versions, their list, the current version and the numbers are as
    before; a descriptor that was open before is open still, and one that was
    opened for the edit is closed and its file removed, as the last that is done,
    so that the next application starts a new MANIFEST. *)
Theorem apply_error_unchanged e vs ed ed1 held : counted vs held -> descriptor_ready vs -> 0 < vs_manifest_file_number vs ->
  complete_edit vs ed = Some ed1 -> is_Some (edited_version uc vs ed1) ->
  (ldb_versions_apply uc ops e vs ed = None <-> create_fails e vs) /\
  forall rc ed' vs' e', ldb_versions_apply uc ops e vs ed = Some (rc, ed', vs', e') -> rc <> LDB_OK ->
  (vs_objects vs' = vs_objects vs /\ vs_list vs' = vs_list vs /\ vs_current vs' = vs_current vs /\
   vs_log_number vs' = vs_log_number vs /\ vs_prev_log_number vs' = vs_prev_log_number vs /\
   vs_next_file_number vs' = vs_next_file_number vs /\ vs_last_sequence vs' = vs_last_sequence vs /\
   vs_manifest_file_number vs' = vs_manifest_file_number vs) /\
  match vs_descriptor_log vs with
  | Some _ => vs_descriptor_file vs' = vs_descriptor_file vs /\ is_Some (vs_descriptor_log vs')
  | None => vs_descriptor_file vs' = None /\ vs_descriptor_log vs' = None /\
    match descriptor_name vs with
    | None => e' = e
    | Some fname => exists file e1 e2, env_truncfile_create ops e fname = (inr file, e1) /\ e' = (env_remove_file ops (env_destroy ops e2 file) fname).2
    end
  end.
Proof.
  intros Hc Hd Hn Ec Ee. pose proof (apply_total e vs ed ed1 held Hc Hd Hn Ec Ee) as H. split.
  - unfold create_fails. destruct (vs_descriptor_log vs) as [log|].
    { destruct H as (rc & ed' & vs' & e' & -> & _). split; [done|by intros [? _]]. }
    destruct (descriptor_name vs) as [fname|].
    + destruct (env_truncfile_create ops e fname) as [[rc|file] e1] eqn:Et.
      * split; [|done]. intros _. split; [done|]. by exists fname, rc, e1.
      * destruct H as (rc & ed' & vs' & e' & -> & _). split; [done|]. intros (_ & path & rc' & e2 & [= <-] & E2). congruence.
    + destruct H as (rc & ed' & vs' & e' & -> & _). split; [done|]. by intros (_ & path & rc' & e2 & ? & _).
  - intros rc ed' vs' e' Eapp Hrc. split.
    + pose proof (apply_shape e vs ed rc ed' vs' e' held Hc Eapp) as Hs. rewrite (proj2 (Z.eqb_neq rc LDB_OK)) in Hs by done.
      destruct Hs as (heap & pointers & file & log & ->). done.
    + destruct (match vs_descriptor_log vs with None => _ | _ => _ end) in H; [congruence|]. destruct H as (rc2 & ed2 & vs2 & e2 & E2 & H2).
      rewrite Eapp in E2. injection E2 as <- <- <- <-. by apply H2.
Qed.
End Steps.

(** ** The small database *)

Lemma some_true {A} (x : option A) : match x with Some _ => true | None => false end = true -> is_Some x.
Proof. destruct x; [by eexists|discriminate]. Qed.

(** A disk that cannot be synced. *)
Definition unsynced_ops : env_ops disk nat :=
  EnvOps (env_truncfile_create disk_ops) (env_appendfile_create disk_ops) (env_append disk_ops) (env_flush disk_ops)
    (fun e w => (LDB_IOERR, e)) (env_close disk_ops) (env_destroy disk_ops) (env_seqfile_create disk_ops) (env_file_size disk_ops)
    (env_rename_file disk_ops) (env_remove_file disk_ops).

Lemma demo_failed :
  match ldb_versions_apply bytewise_comparator unsynced_ops demo_recovered.2 demo_recovered.1 demo_edit1 with
  | Some (rc, ed, vs, e) => rc = LDB_IOERR /\ ed = demo_edit1' /\ bool_decide (dk_files e = demo_files) = true /\ vs_list vs = [1%nat]
  | None => False
  end.
Proof. vm_compute. repeat split; reflexivity. Qed.

(** And one on which no file can be created. *)
Definition uncreated_ops : env_ops disk nat :=
  EnvOps (fun e p => (inl LDB_IOERR, e)) (env_appendfile_create disk_ops) (env_append disk_ops) (env_flush disk_ops)
    (env_sync disk_ops) (env_close disk_ops) (env_destroy disk_ops) (env_seqfile_create disk_ops) (env_file_size disk_ops)
    (env_rename_file disk_ops) (env_remove_file disk_ops).

Lemma demo_fits : complete_edit demo_recovered.1 demo_edit1 = Some demo_edit1' /\ is_Some (edited_version bytewise_comparator demo_recovered.1 demo_edit1').
Proof.
  split; [|apply some_true; vm_compute; reflexivity]. assert (is_Some (complete_edit demo_recovered.1 demo_edit1)) as [ed1 Ec] by (apply some_true; vm_compute; reflexivity).
  unfold demo_edit1', demo_complete. by rewrite Ec.
Qed.

Lemma apply_error_unchanged_witness :
  ldb_versions_apply bytewise_comparator uncreated_ops demo_recovered.2 demo_recovered.1 demo_edit1 = None /\
  exists vs' e', ldb_versions_apply bytewise_comparator unsynced_ops demo_recovered.2 demo_recovered.1 demo_edit1 = Some (LDB_IOERR, demo_edit1', vs', e') /\
  dk_files e' = demo_files /\ vs_list vs' = [1%nat] /\
  vs_objects vs' = vs_objects demo_recovered.1 /\ vs_current vs' = vs_current demo_recovered.1 /\
  vs_descriptor_file vs' = None /\ vs_descriptor_log vs' = None /\
  exists file e1 e2, env_truncfile_create unsynced_ops demo_recovered.2 (cstr "/db/MANIFEST-000002") = (inr file, e1) /\
    e' = (env_remove_file unsynced_ops (env_destroy unsynced_ops e2 file) (cstr "/db/MANIFEST-000002")).2.
Proof.
  assert (counted demo_recovered.1 []) as Hc.
  { unfold demo_recovered. destruct (ldb_versions_recover _ _ _ _ _ _) as [[[[rc save] vs] e]|] eqn:Er; [|apply create_counted].
    by apply (recover_counted bytewise_comparator disk_ops) with (held := []) in Er; [|apply create_counted]. }
  assert (descriptor_ready demo_recovered.1) as Hd by (by vm_compute). assert (0 < vs_manifest_file_number demo_recovered.1) as Hn by (by vm_compute).
  destruct demo_fits as (Hfit & Hed).
  assert (vs_descriptor_log demo_recovered.1 = None) as Hlog by (by vm_compute).
  assert (descriptor_name demo_recovered.1 = Some (cstr "/db/MANIFEST-000002")) as Hname by (by vm_compute).
  split.
  { destruct (apply_error_unchanged bytewise_comparator uncreated_ops demo_recovered.2 demo_recovered.1 demo_edit1 demo_edit1' [] Hc Hd Hn Hfit Hed)
      as [[_ H] _]. apply H. split; [exact Hlog|]. eexists _, _, _. split; [exact Hname|reflexivity]. }
  pose proof demo_failed as Hf.
  destruct (ldb_versions_apply bytewise_comparator unsynced_ops demo_recovered.2 demo_recovered.1 demo_edit1) as [[[[rc ed'] vs'] e']|] eqn:Ea; [|destruct Hf].
  destruct Hf as (-> & -> & Hdisk%bool_decide_eq_true & Hl).
  exists vs', e'. split; [reflexivity|]. split; [exact Hdisk|]. split; [exact Hl|].
  destruct (apply_error_unchanged bytewise_comparator unsynced_ops demo_recovered.2 demo_recovered.1 demo_edit1 demo_edit1' [] Hc Hd Hn Hfit Hed) as [_ H].
  destruct (H LDB_IOERR demo_edit1' vs' e' Ea) as [(Eo & _ & Ecur & _) Hdesc]; [discriminate|]. rewrite Hlog, Hname in Hdesc.
  split; [exact Eo|]. split; [exact Ecur|]. exact Hdesc.
Defined.

(** A reader takes the version with the first table, which the second edit
    replaces. *)
Definition reading (s : versions nat * disk) : versions nat * disk := (default s.1 (ldb_version_ref s.1 (vs_current s.1)), s.2).
Definition held_by (s : versions nat * disk) : held_version := (vs_current s.1, from_option ver_files [] (current_version s.1)).
Definition demo_replaced : versions nat * disk := demo_apply (reading demo_applied) demo_edit2.

Definition started : @vstate disk nat := Vstate (Disk demo_files []) (ldb_versions_create demo_name ldb_dbopt_default) [].
Definition at_state (s : versions nat * disk) (held : list held_version) : @vstate disk nat := Vstate s.2 s.1 held.

Lemma apply_step s ed held : is_Some (ldb_versions_apply bytewise_comparator disk_ops s.2 s.1 ed) ->
  vstep bytewise_comparator disk_ops (at_state s held) (at_state (demo_apply s ed) held).
Proof.
  intros [[[[rc ed'] vs'] e'] Ea]. unfold demo_apply. rewrite Ea. exact (step_apply bytewise_comparator disk_ops s.2 s.1 held ed rc ed' vs' e' Ea).
Qed.

Lemma reading_step s held : is_Some (current_version s.1) ->
  vstep bytewise_comparator disk_ops (at_state s held) (at_state (reading s) (held_by s :: held)).
Proof.
  intros [ver Ev]. unfold held_by. rewrite Ev. apply step_ref; [exact Ev|]. unfold current_version in Ev. unfold reading. cbn [fst]. by rewrite (ref_ok _ _ _ Ev).
Qed.

Definition demo_end : @vstate disk nat := at_state demo_replaced [held_by demo_applied].

Lemma demo_history : rtc (vstep bytewise_comparator disk_ops) started demo_end.
Proof.
  apply (rtc_l _ _ (at_state demo_recovered [])).
  { assert (is_Some (ldb_versions_recover bytewise_comparator disk_ops [] (Disk demo_files [])
      (ldb_versions_create (W := nat) demo_name ldb_dbopt_default) false)) as [[[[rc save] vs] e] Er] by (apply some_true; vm_compute; reflexivity).
    unfold demo_recovered. rewrite Er. exact (step_recover _ _ [] _ _ _ _ _ _ _ _ Er). }
  apply (rtc_l _ _ (at_state demo_applied [])).
  { apply (apply_step demo_recovered demo_edit1 []), some_true. vm_compute. reflexivity. }
  apply (rtc_l _ _ (at_state (reading demo_applied) [held_by demo_applied])).
  { apply (reading_step demo_applied []), some_true. vm_compute. reflexivity. }
  apply rtc_once. apply (apply_step (reading demo_applied) demo_edit2), some_true. vm_compute. reflexivity.
Qed.

Lemma references_safe_witness :
  demo_tables demo_replaced.1 = Some [[]; [2]; []; []; []; []; []] /\
  (live ← ldb_versions_add_files demo_replaced.1 ∅; Some (elements live)) = Some [2; 1] /\
  (forall v files, (v, files) ∈ vt_held demo_end ->
    (exists ver, vs_objects (vt_set demo_end) !! v = Some ver /\ ver_files ver = files) /\ is_Some (ldb_version_unref (vt_set demo_end) v)) /\
  exists cur, current_version (vt_set demo_end) = Some cur /\ forall pending, exists live, ldb_versions_add_files (vt_set demo_end) pending = Some live /\
    forall n, n ∈ live <-> n ∈ pending \/ n ∈ file_numbers cur \/ exists v files, (v, files) ∈ vt_held demo_end /\ n ∈ numbers (concat files).
Proof.
  split; [vm_compute; reflexivity|]. split; [vm_compute; reflexivity|].
  exact (references_safe bytewise_comparator disk_ops demo_name ldb_dbopt_default (Disk demo_files []) demo_end demo_history).
Defined.
