(* ===== verification/Compaction.v ===== *)
(** * Compactions

    Models the last part of [src/engine/src/version_set.c]: the choice of a
    compaction and of its inputs, the iterator over them, and the state that a
    compaction keeps while it runs. *)

From stdpp Require Import strings sorting gmap.
From Stdlib Require Import SpecFloat.
From S2P Require Import Prelude Coding Status Strutil Comparator DBFormat Options Vector VersionEdit Iterator BlockBuilder TwoLevel Merger FileList Version VersionBuilder Env VersionSet.
#[local] Open Scope Z_scope.

(** ** Data *)

(** [ldb_compaction_t]; [cp_input_version] is the address of the version. *)
Record compaction := Compaction {
  cp_level : Z;
  cp_max_output_file_size : Z;
  cp_input_version : option nat;
  cp_edit : edit;
  cp_inputs0 : list fileptr;
  cp_inputs1 : list fileptr;
  cp_grandparents : list fileptr;
  cp_grandparent_index : Z;
  cp_seen_key : bool;
  cp_overlapped_bytes : Z;
  cp_level_ptrs : list Z
}.

Definition ldb_compaction_create (options : dbopt) (level : Z) : compaction :=
  Compaction level (max_file_size_for_level options level) None ldb_edit_init [] [] [] 0 false 0 (replicate (Z.to_nat LDB_NUM_LEVELS) 0).

(** Assignments to groups of members. *)
Definition set_inputs (c : compaction) (version : option nat) (ed : edit) (in0 in1 grandparents : list fileptr) : compaction :=
  Compaction (cp_level c) (cp_max_output_file_size c) version ed in0 in1 grandparents (cp_grandparent_index c) (cp_seen_key c)
    (cp_overlapped_bytes c) (cp_level_ptrs c).
Definition set_grandparent (c : compaction) (index : Z) (seen : bool) (bytes : Z) : compaction :=
  Compaction (cp_level c) (cp_max_output_file_size c) (cp_input_version c) (cp_edit c) (cp_inputs0 c) (cp_inputs1 c) (cp_grandparents c)
    index seen bytes (cp_level_ptrs c).
Definition set_level_ptrs (c : compaction) (ptrs : list Z) : compaction :=
  Compaction (cp_level c) (cp_max_output_file_size c) (cp_input_version c) (cp_edit c) (cp_inputs0 c) (cp_inputs1 c) (cp_grandparents c)
    (cp_grandparent_index c) (cp_seen_key c) (cp_overlapped_bytes c) ptrs.

(** ** Ranges of files *)

Section Ranges.
Context (uc : comparator).
Local Abbreviation icmp := (ldb_ikc_init uc).

Definition range_step (range : bytes * bytes) (f : fileptr) : bytes * bytes :=
  (if ldb_compare icmp (f_smallest f) range.1 <? 0 then f_smallest f else range.1,
   if 0 <? ldb_compare icmp (f_largest f) range.2 then f_largest f else range.2).

(** [None]: the assertion that there are files fails. *)
Definition ldb_versions_get_range (inputs : list fileptr) : option (bytes * bytes) :=
  match inputs with
  | [] => None
  | f :: inputs => Some (fold_left range_step inputs (f_smallest f, f_largest f))
  end.

Definition ldb_versions_get_range2 (inputs1 inputs2 : list fileptr) : option (bytes * bytes) := ldb_versions_get_range (inputs1 ++ inputs2).

Definition largest_step (large : bytes) (f : fileptr) : bytes :=
  if 0 <? ldb_compare icmp (f_largest f) large then f_largest f else large.

Definition find_largest_key (files : list fileptr) : option bytes :=
  match files with
  | [] => None
  | f :: files => Some (fold_left largest_step files (f_largest f))
  end.

Definition boundary_step (largest_key : bytes) (res : option fileptr) (f : fileptr) : option fileptr :=
  if ldb_compare icmp (f_smallest f) largest_key <=? 0 then res
  else if ldb_compare uc (ldb_extract_user_key (f_smallest f)) (ldb_extract_user_key largest_key) =? 0 then
    match res with
    | None => Some f
    | Some r => if ldb_compare icmp (f_smallest f) (f_smallest r) <? 0 then Some f else res
    end
  else res.

Definition find_smallest_boundary_file (level_files : list fileptr) (largest_key : bytes) : option fileptr :=
  fold_left (boundary_step largest_key) level_files None.

(** [while (search)]: more turns than the level has files. *)
Fixpoint boundary_loop (fuel : nat) (level_files : list fileptr) (largest_key : bytes) (inputs : list fileptr) : option (list fileptr) :=
  match fuel with
  | O => None
  | S fuel =>
    match find_smallest_boundary_file level_files largest_key with
    | Some file => boundary_loop fuel level_files (f_largest file) (inputs ++ [file])
    | None => Some inputs
    end
  end.

Definition add_boundary_inputs (level_files inputs : list fileptr) : option (list fileptr) :=
  match find_largest_key inputs with
  | None => Some inputs
  | Some largest_key => boundary_loop (S (length level_files)) level_files largest_key inputs
  end.

(** ** The inputs of a compaction *)

(** The files of a level that overlap a range, with their boundary files. *)
Definition overlapping_with_boundary (ver : ldb_version) (level : Z) (range : bytes * bytes) : option (list fileptr) :=
  overlaps ← ldb_version_get_overlapping_inputs uc ver level (Some range.1) (Some range.2);
  files ← level_files ver level;
  add_boundary_inputs files overlaps.

(** The inputs of both levels, grown on the first if that adds none on the
    second: the inputs, the whole range and the largest key. *)
Definition grow_inputs (options : dbopt) (ver : ldb_version) (level : Z) (in0 in1 : list fileptr) (all : bytes * bytes) (largest : bytes)
    : option (list fileptr * list fileptr * (bytes * bytes) * bytes) :=
  if negb (0 <? zlen in1) then Some (in0, in1, all, largest)
  else
    expanded0 ← overlapping_with_boundary ver level all;
    let inputs1_size := total_file_size in1 in
    let expanded0_size := total_file_size expanded0 in
    if (zlen in0 <? zlen expanded0) && (inputs1_size + expanded0_size <? expanded_compaction_byte_size_limit options) then
      range ← ldb_versions_get_range expanded0;
      expanded1 ← overlapping_with_boundary ver (level + 1) range;
      if zlen expanded1 =? zlen in1 then
        all ← ldb_versions_get_range2 expanded0 expanded1;
        Some (expanded0, expanded1, all, range.2)
      else Some (in0, in1, all, largest)
    else Some (in0, in1, all, largest).

Definition choose_inputs (options : dbopt) (ver : ldb_version) (level : Z) (in0 : list fileptr)
    : option (list fileptr * list fileptr * (bytes * bytes) * bytes) :=
  files ← level_files ver level;
  in0 ← add_boundary_inputs files in0;
  range ← ldb_versions_get_range in0;
  in1 ← overlapping_with_boundary ver (level + 1) range;
  all ← ldb_versions_get_range2 in0 in1;
  grow_inputs options ver level in0 in1 all range.2.

Context {W : Type}.
Implicit Type vs : versions W.

Definition ldb_versions_setup_other_inputs vs (c : compaction) : option (compaction * versions W) :=
  let level := cp_level c in
  ver ← current_version vs;
  '(in0, in1, all, largest) ← choose_inputs (vs_options vs) ver level (cp_inputs0 c);
  grandparents ← (if level + 2 <? LDB_NUM_LEVELS then ldb_version_get_overlapping_inputs uc ver (level + 2) (Some all.1) (Some all.2)
                  else Some (cp_grandparents c));
  pointers ← set_level (vs_compact_pointer vs) level largest;
  Some (set_inputs c (cp_input_version c) (ldb_edit_set_compact_pointer (cp_edit c) level largest) in0 in1 grandparents,
        set_edited vs (vs_heap vs) pointers).

(** ** The choice of a compaction *)

(** The first file behind the compaction pointer. *)
Fixpoint first_after (pointer : bytes) (files : list fileptr) : option fileptr :=
  match files with
  | [] => None
  | f :: files =>
    if (zlen pointer =? 0) || (0 <? ldb_compare icmp (f_largest f) pointer) then Some f else first_after pointer files
  end.

(** The level and the file with which a compaction starts; [None] inside: there
    is nothing to compact; [None] outside: an assertion fails. *)
Definition compaction_start vs (ver : ldb_version) : option (option (Z * fileptr)) :=
  if SFleb (double_of 1) (ver_compaction_score ver) then
    let level := ver_compaction_level ver in
    if negb ((0 <=? level) && (level + 1 <? LDB_NUM_LEVELS)) then None
    else
      files ← level_files ver level;
      pointer ← item (vs_compact_pointer vs) level;
      f ← match first_after pointer files with Some f => Some f | None => file_at files 0 end;
      Some (Some (level, f))
  else match ver_file_to_compact ver with
       | Some f => Some (Some (ver_file_to_compact_level ver, f))
       | None => Some None
       end.

Definition ldb_versions_pick_compaction vs : option (option compaction * versions W) :=
  ver ← current_version vs;
  start ← compaction_start vs ver;
  match start with
  | None => Some (None, vs)
  | Some (level, f) =>
    let c := ldb_compaction_create (vs_options vs) level in
    vs ← ldb_version_ref vs (vs_current vs);
    in0 ← (if level =? 0 then
             range ← ldb_versions_get_range [f];
             inputs ← ldb_version_get_overlapping_inputs uc ver 0 (Some range.1) (Some range.2);
             if negb (0 <? zlen inputs) then None else Some inputs
           else Some [f]);
    '(c, vs) ← ldb_versions_setup_other_inputs vs (set_inputs c (Some (vs_current vs)) (cp_edit c) in0 [] []);
    Some (Some c, vs)
  end.

(** The files up to the first at which the limit is reached. *)
Fixpoint limit_inputs (limit total : Z) (inputs : list fileptr) : list fileptr :=
  match inputs with
  | [] => []
  | f :: inputs =>
    let total := u64 (total + f_file_size f) in
    if limit <=? total then [f] else f :: limit_inputs limit total inputs
  end.

Definition ldb_versions_compact_range vs (level : Z) (begin end_ : option bytes) : option (option compaction * versions W) :=
  ver ← current_version vs;
  inputs ← ldb_version_get_overlapping_inputs uc ver level begin end_;
  if zlen inputs =? 0 then Some (None, vs)
  else
    let inputs := if 0 <? level then limit_inputs (max_file_size_for_level (vs_options vs) level) 0 inputs else inputs in
    let c := ldb_compaction_create (vs_options vs) level in
    vs ← ldb_version_ref vs (vs_current vs);
    '(c, vs) ← ldb_versions_setup_other_inputs vs (set_inputs c (Some (vs_current vs)) (cp_edit c) inputs [] []);
    Some (Some c, vs).

(** ** While it runs *)

(** The iterator over the inputs: over the tables of level 0 one by one, over
    each other level as a whole. *)
Section InputIterator.
Context {T : Type} (tops : iter_ops T) (tables : tables_ops T).
Abbreviation input_iter := (T + @twoiter numiter (Z + T))%type.

Definition inputs_options (options : dbopt) : readopt := Readopt (opt_paranoid_checks options) false.

Definition add_input_iterators (options : readopt) (level : Z) (files : list fileptr) (list : list input_iter) : option (Datatypes.list input_iter) :=
  if 0 <? zlen files then
    if level =? 0 then add_table_iterators tables options files list
    else it ← ldb_leveliter_create uc tops files; Some (list ++ [inr it])
  else Some list.

Definition ldb_inputiter_create (options : dbopt) (c : compaction) (fuel : nat) : option (Merger.merged input_iter) :=
  let space := if cp_level c =? 0 then zlen (cp_inputs0 c) + 1 else 2 in
  list ← add_input_iterators (inputs_options options) (cp_level c) (cp_inputs0 c) [];
  list ← add_input_iterators (inputs_options options) (cp_level c + 1) (cp_inputs1 c) list;
  if negb (zlen list <=? space) then None
  else ldb_mergeiter_create (version_iter_table uc tops tables (inputs_options options) fuel) icmp list.
End InputIterator.

Definition ldb_compaction_is_trivial_move vs (c : compaction) : bool :=
  (zlen (cp_inputs0 c) =? 1) && (zlen (cp_inputs1 c) =? 0) &&
  (total_file_size (cp_grandparents c) <=? max_grandparent_overlap_bytes (vs_options vs)).

Definition remove_inputs (level : Z) (files : list fileptr) (e : edit) : edit :=
  fold_left (fun e f => ldb_edit_remove_file e level (f_number f)) files e.

Definition ldb_compaction_add_input_deletions (c : compaction) (e : edit) : edit :=
  remove_inputs (cp_level c + 1) (cp_inputs1 c) (remove_inputs (cp_level c) (cp_inputs0 c) e).

(** The loop over the files of a level from [ptr] on: whether the key is in one,
    and where the search stopped. *)
Fixpoint base_level_loop (user_key : bytes) (files : list fileptr) (ptr : Z) : bool * Z :=
  match files with
  | [] => (false, ptr)
  | f :: files =>
    if ldb_compare uc user_key (ldb_extract_user_key (f_largest f)) <=? 0 then
      (0 <=? ldb_compare uc user_key (ldb_extract_user_key (f_smallest f)), ptr)
    else base_level_loop user_key files (ptr + 1)
  end.

Fixpoint base_levels (ver : ldb_version) (user_key : bytes) (levels : list Z) (ptrs : list Z) : option (bool * list Z) :=
  match levels with
  | [] => Some (true, ptrs)
  | lvl :: levels =>
    files ← level_files ver lvl;
    ptr ← item ptrs lvl;
    let '(found, ptr) := base_level_loop user_key (zdrop ptr files) ptr in
    ptrs ← set_level ptrs lvl ptr;
    if found : bool then Some (false, ptrs) else base_levels ver user_key levels ptrs
  end.

(** [ver]: the input version. *)
Definition ldb_compaction_is_base_level_for_key (ver : ldb_version) (c : compaction) (user_key : bytes) : option (bool * compaction) :=
  '(base, ptrs) ← base_levels ver user_key (seqZ (cp_level c + 2) (LDB_NUM_LEVELS - (cp_level c + 2))) (cp_level_ptrs c);
  Some (base, set_level_ptrs c ptrs).

Fixpoint grandparent_loop (ikey : bytes) (seen : bool) (files : list fileptr) (index bytes : Z) : Z * Z :=
  match files with
  | [] => (index, bytes)
  | f :: files =>
    if ldb_compare icmp ikey (f_largest f) <=? 0 then (index, bytes)
    else grandparent_loop ikey seen files (index + 1) (if seen then s64 (u64 (bytes + f_file_size f)) else bytes)
  end.

Definition ldb_compaction_should_stop_before vs (c : compaction) (ikey : bytes) : bool * compaction :=
  let '(index, bytes) :=
    grandparent_loop ikey (cp_seen_key c) (zdrop (cp_grandparent_index c) (cp_grandparents c)) (cp_grandparent_index c) (cp_overlapped_bytes c) in
  if max_grandparent_overlap_bytes (vs_options vs) <? bytes then (true, set_grandparent c index true 0)
  else (false, set_grandparent c index true bytes).

Definition ldb_compaction_release_inputs vs (c : compaction) : option (compaction * versions W) :=
  match cp_input_version c with
  | Some v =>
    vs ← ldb_version_unref vs v;
    Some (set_inputs c None (cp_edit c) (cp_inputs0 c) (cp_inputs1 c) (cp_grandparents c), vs)
  | None => Some (c, vs)
  end.

(** The memory of the compaction goes, and its reference. *)
Definition ldb_compaction_destroy vs (c : compaction) : option (versions W) :=
  match cp_input_version c with Some v => ldb_version_unref vs v | None => Some vs end.
End Ranges.
