(* ===== verification/CompactionInputs.v ===== *)
(** * The inputs of a compaction

    Which files a compaction takes: every file of the second level that overlaps
    the first inputs, and no file is left behind that shares a user key with a
    newer one taken ([choose_inputs] of Compaction.v). *)

From stdpp Require Import strings sorting gmap.
From Stdlib Require Import SpecFloat.
From S2P Require Import Prelude Coding Status Strutil Comparator DBFormat KeyOrder Options Vector VersionEdit Iterator FileList Version VersionBuilder VersionSet Compaction.
#[local] Open Scope Z_scope.

(** [files_order udom uc fs]: order facts about the ranges of the files [fs]. *)
Ltac file_keys fs ks :=
  lazymatch fs with
  | @nil _ => ks
  | @cons _ ?f ?fs' => file_keys fs' constr:(f_smallest f :: f_largest f :: ks)
  end.
Ltac file_facts udom uc fs :=
  lazymatch fs with
  | @nil _ => idtac
  | @cons _ ?f ?fs' =>
    lazymatch goal with H : file_wf udom uc f |- _ =>
      pose proof (fw_smallest _ _ _ H); pose proof (fw_largest _ _ _ H); pose proof (fw_range _ _ _ H) end;
    file_facts udom uc fs'
  end.
Ltac files_order udom uc fs := file_facts udom uc fs; let ks := file_keys fs (@nil bytes) in key_order udom uc ks.
(** With keys of the domain besides. *)
Ltac files_keys_order udom uc fs ks := file_facts udom uc fs; let ks := file_keys fs ks in key_order udom uc ks.

Section Inputs.
Context (udom : bytes -> Prop) (uc : comparator) `{!ComparatorLaws udom uc}.
Local Abbreviation icmp := (ldb_ikc_init uc).
Local Abbreviation idom := (ikey_dom udom).
Local Abbreviation ukey := ldb_extract_user_key.
Local Abbreviation fwf := (file_wf udom uc).

(** One file lies in front of another. *)
Definition in_front (f g : fileptr) : Prop := ldb_compare icmp (f_largest f) (f_smallest g) < 0.

Lemma level_total files f g : disjoint_sorted uc files -> f ∈ files -> g ∈ files -> f = g \/ in_front f g \/ in_front g f.
Proof.
  intros Hs [i Hf]%list_elem_of_lookup [j Hg]%list_elem_of_lookup. destruct (Nat.lt_total i j) as [Hij|[->|Hij]].
  - right. left. by apply (sorted_lookup _ _ i j f g Hs).
  - left. congruence.
  - right. right. by apply (sorted_lookup _ _ j i g f Hs).
Qed.

Lemma wf_in files f : Forall fwf files -> f ∈ files -> fwf f.
Proof. intros H Hf%list_elem_of_In. rewrite List.Forall_forall in H. auto. Qed.

(** *** Ranges *)

Lemma range_fold fs : forall range, idom range.1 -> idom range.2 -> Forall fwf fs ->
  let range' := fold_left (range_step uc) fs range in
  idom range'.1 /\ idom range'.2 /\ ldb_compare icmp range'.1 range.1 <= 0 /\ ldb_compare icmp range.2 range'.2 <= 0 /\
  forall f, f ∈ fs -> ldb_compare icmp range'.1 (f_smallest f) <= 0 /\ ldb_compare icmp (f_largest f) range'.2 <= 0.
Proof.
  induction fs as [|f fs IH]; intros range D1 D2 Hw; cbn [fold_left].
  { split; [done|]. split; [done|]. rewrite !(compare_refl idom icmp) by done. split; [lia|]. split; [lia|]. intros f H%elem_of_nil. done. }
  apply Forall_cons_iff in Hw as [Hf Hw]. pose proof (fw_smallest _ _ _ Hf) as Df1. pose proof (fw_largest _ _ _ Hf) as Df2.
  assert (idom (range_step uc range f).1 /\ idom (range_step uc range f).2) as [E1 E2].
  { unfold range_step. cbn [fst snd]. split; [by destruct (_ <? 0)|by destruct (0 <? _)]. }
  destruct (IH (range_step uc range f) E1 E2 Hw) as (H1 & H2 & H3 & H4 & H5). split; [done|]. split; [done|].
  set (range' := fold_left _ _ _) in *. clearbody range'. set (m := range_step uc range f) in *.
  assert (ldb_compare icmp m.1 range.1 <= 0 /\ ldb_compare icmp m.1 (f_smallest f) <= 0 /\
    ldb_compare icmp range.2 m.2 <= 0 /\ ldb_compare icmp (f_largest f) m.2 <= 0) as (M1 & M2 & M3 & M4).
  { subst m. unfold range_step. cbn [fst snd]. destruct (Z.ltb_spec (ldb_compare icmp (f_smallest f) range.1) 0) as [A|A],
      (Z.ltb_spec 0 (ldb_compare icmp (f_largest f) range.2)) as [B|B]; key_order udom uc [range.1; range.2; f_smallest f; f_largest f]. }
  clearbody m. split; [key_order udom uc [range'.1; m.1; range.1]|]. split; [key_order udom uc [range'.2; m.2; range.2]|].
  intros g [->|Hg]%elem_of_cons; [|by apply H5].
  split; [key_order udom uc [range'.1; m.1; f_smallest f]|key_order udom uc [range'.2; m.2; f_largest f]].
Qed.

(** The range covers the inputs, and its ends are keys of inputs. *)
Record covers_files (inputs : list fileptr) (range : bytes * bytes) : Prop := {
  cf_dom : idom range.1 /\ idom range.2;
  cf_small f : f ∈ inputs -> ldb_compare icmp range.1 (f_smallest f) <= 0;
  cf_large f : f ∈ inputs -> ldb_compare icmp (f_largest f) range.2 <= 0;
  cf_first : exists f, f ∈ inputs /\ f_smallest f = range.1;
  cf_last : exists f, f ∈ inputs /\ f_largest f = range.2
}.

Lemma range_ends fs : forall range (inputs : list fileptr), (exists f, f ∈ inputs /\ f_smallest f = range.1) -> (exists f, f ∈ inputs /\ f_largest f = range.2) ->
  (forall f, f ∈ fs -> f ∈ inputs) ->
  (exists f, f ∈ inputs /\ f_smallest f = (fold_left (range_step uc) fs range).1) /\
  (exists f, f ∈ inputs /\ f_largest f = (fold_left (range_step uc) fs range).2).
Proof.
  induction fs as [|f fs IH]; intros range inputs H1 H2 Hin; [done|]. cbn [fold_left]. apply IH.
  - unfold range_step. cbn [fst]. destruct (_ <? 0); [exists f; split; [apply Hin; by left|done]|done].
  - unfold range_step. cbn [snd]. destruct (0 <? _); [exists f; split; [apply Hin; by left|done]|done].
  - intros g Hg. apply Hin. by right.
Qed.

Lemma get_range_ok inputs : Forall fwf inputs -> inputs <> [] ->
  exists range, ldb_versions_get_range uc inputs = Some range /\ covers_files inputs range.
Proof.
  intros Hw Hne. destruct inputs as [|f inputs]; [done|]. apply Forall_cons_iff in Hw as [Hf Hw]. eexists. split; [reflexivity|].
  destruct (range_fold inputs (f_smallest f, f_largest f) (fw_smallest _ _ _ Hf) (fw_largest _ _ _ Hf) Hw) as (D1 & D2 & H1 & H2 & H3).
  destruct (range_ends inputs (f_smallest f, f_largest f) (f :: inputs)) as [H4 H5];
    [exists f; split; [by left|done]|exists f; split; [by left|done]|by right|].
  split; [done| | |done|done].
  - intros g [->|Hg]%elem_of_cons; [done|by apply H3].
  - intros g [->|Hg]%elem_of_cons; [done|by apply H3].
Qed.

(** *** The largest key *)

Lemma largest_fold fs : forall large, idom large -> Forall fwf fs ->
  let large' := fold_left (largest_step uc) fs large in
  idom large' /\ ldb_compare icmp large large' <= 0 /\ (forall f, f ∈ fs -> ldb_compare icmp (f_largest f) large' <= 0) /\
  (large' = large \/ exists f, f ∈ fs /\ f_largest f = large').
Proof.
  induction fs as [|f fs IH]; intros large D Hw; cbn [fold_left].
  { split; [done|]. rewrite (compare_refl idom icmp) by done. split; [lia|]. split; [intros f H%elem_of_nil; done|by left]. }
  apply Forall_cons_iff in Hw as [Hf Hw]. pose proof (fw_largest _ _ _ Hf) as Df.
  assert (idom (largest_step uc large f)) as E1 by (unfold largest_step; by destruct (0 <? _)).
  destruct (IH (largest_step uc large f) E1 Hw) as (H1 & H2 & H3 & H4). split; [done|].
  set (large' := fold_left _ _ _) in *. clearbody large'. set (m := largest_step uc large f) in *.
  assert (ldb_compare icmp large m <= 0 /\ ldb_compare icmp (f_largest f) m <= 0 /\ (m = large \/ m = f_largest f)) as (M1 & M2 & M3).
  { subst m. unfold largest_step. destruct (Z.ltb_spec 0 (ldb_compare icmp (f_largest f) large)) as [A|A];
      (split; [key_order udom uc [large; f_largest f]|]; split; [key_order udom uc [large; f_largest f]|auto]). }
  clearbody m. split; [key_order udom uc [large; m; large']|]. split.
  - intros g [->|Hg]%elem_of_cons; [key_order udom uc [f_largest f; m; large']|by apply H3].
  - destruct H4 as [->|(g & Hg & Eg)]; [|right; exists g; split; [by right|done]]. destruct M3 as [->| ->]; [by left|right; exists f; split; [by left|done]].
Qed.

Lemma find_largest_key_ok inputs : Forall fwf inputs -> inputs <> [] ->
  exists m, find_largest_key uc inputs = Some (f_largest m) /\ m ∈ inputs /\
    forall f, f ∈ inputs -> ldb_compare icmp (f_largest f) (f_largest m) <= 0.
Proof.
  intros Hw Hne. destruct inputs as [|f inputs]; [done|]. apply Forall_cons_iff in Hw as [Hf Hw]. unfold find_largest_key.
  destruct (largest_fold inputs (f_largest f) (fw_largest _ _ _ Hf) Hw) as (D & H1 & H2 & H3). set (large' := fold_left _ _ _) in *. clearbody large'.
  destruct H3 as [->|(g & Hg & <-)].
  - exists f. split; [done|]. split; [by left|]. intros g [->|Hg]%elem_of_cons; [done|by apply H2].
  - exists g. split; [done|]. split; [by right|]. intros h [->|Hh]%elem_of_cons; [done|by apply H2].
Qed.

(** *** Boundary files *)

(** A file that starts behind the key, with its user key. *)
Definition at_boundary (key : bytes) (f : fileptr) : Prop :=
  ldb_compare icmp key (f_smallest f) < 0 /\ ldb_compare uc (ukey (f_smallest f)) (ukey key) = 0.

Definition boundary_spec (files : list fileptr) (key : bytes) (res : option fileptr) : Prop :=
  match res with
  | None => forall g, g ∈ files -> ~ at_boundary key g
  | Some f => f ∈ files /\ at_boundary key f /\ forall g, g ∈ files -> at_boundary key g -> ldb_compare icmp (f_smallest f) (f_smallest g) <= 0
  end.

Lemma boundary_step_ok files key res f : idom key -> Forall fwf files -> fwf f -> boundary_spec files key res ->
  boundary_spec (files ++ [f]) key (boundary_step uc key res f).
Proof.
  intros Dk Hw Hf Hr. pose proof (fw_smallest _ _ _ Hf) as Df.
  assert ((if ldb_compare icmp (f_smallest f) key <=? 0 then False else
    if ldb_compare uc (ukey (f_smallest f)) (ukey key) =? 0 then True else False) <-> at_boundary key f) as Hat.
  { unfold at_boundary. destruct (Z.leb_spec (ldb_compare icmp (f_smallest f) key) 0) as [A|A],
      (Z.eqb_spec (ldb_compare uc (ukey (f_smallest f)) (ukey key)) 0) as [B|B]; split; try tauto; try (intros [H1 H2]; key_order udom uc [key; f_smallest f]).
    intros _. split; key_order udom uc [key; f_smallest f]. }
  unfold boundary_step. destruct (ldb_compare icmp (f_smallest f) key <=? 0); [|destruct (ldb_compare uc _ _ =? 0)].
  1, 3: destruct res as [r|]; cbn [boundary_spec] in *;
    [destruct Hr as (H1 & H2 & H3); split; [rewrite elem_of_app; auto|]; split; [done|]; intros g [Hg|Hg%list_elem_of_singleton]%elem_of_app Hb;
      [auto|subst g; tauto]
    |intros g [Hg|Hg%list_elem_of_singleton]%elem_of_app Hb; [by apply (Hr g)|subst g; tauto]].
  destruct res as [r|]; cbn [boundary_spec] in *.
  - destruct Hr as (H1 & H2 & H3). pose proof (fw_smallest _ _ _ (wf_in files r Hw H1)) as Dr.
    destruct (Z.ltb_spec (ldb_compare icmp (f_smallest f) (f_smallest r)) 0) as [A|A]; cbn [boundary_spec].
    + split; [rewrite elem_of_app, list_elem_of_singleton; auto|]. split; [tauto|].
      intros g [Hg|Hg%list_elem_of_singleton]%elem_of_app Hb; [|subst g; rewrite (compare_refl idom icmp) by done; lia].
      specialize (H3 g Hg Hb). pose proof (fw_smallest _ _ _ (wf_in files g Hw Hg)). key_order udom uc [f_smallest f; f_smallest r; f_smallest g].
    + split; [rewrite elem_of_app; auto|]. split; [done|]. intros g [Hg|Hg%list_elem_of_singleton]%elem_of_app Hb; [auto|subst g].
      key_order udom uc [f_smallest f; f_smallest r].
  - split; [rewrite elem_of_app, list_elem_of_singleton; auto|]. split; [tauto|].
    intros g [Hg|Hg%list_elem_of_singleton]%elem_of_app Hb; [by destruct (Hr g Hg)|subst g; rewrite (compare_refl idom icmp) by done; lia].
Qed.

Lemma find_boundary_ok files key : idom key -> Forall fwf files -> boundary_spec files key (find_smallest_boundary_file uc files key).
Proof.
  intros Dk Hw. unfold find_smallest_boundary_file.
  assert (forall fs done res, Forall fwf (done ++ fs) -> boundary_spec done key res ->
    boundary_spec (done ++ fs) key (fold_left (boundary_step uc key) fs res)) as H.
  { induction fs as [|f fs IH]; intros done res Hw' Hr; cbn [fold_left]; [by rewrite app_nil_r|].
    replace (done ++ f :: fs) with ((done ++ [f]) ++ fs) in * by (by rewrite <- app_assoc). apply IH; [done|].
    apply List.Forall_app in Hw' as [[Hd Hf]%List.Forall_app _]. apply List.Forall_inv in Hf. by apply boundary_step_ok. }
  apply (H files [] None); [done|]. intros g Hg%elem_of_nil. done.
Qed.

(** How many files are still behind the key. *)
Definition behind (files : list fileptr) (key : bytes) : nat := length (List.filter (fun f => ldb_compare icmp key (f_smallest f) <? 0) files).

Lemma behind_lt files key f : idom key -> Forall fwf files -> f ∈ files -> ldb_compare icmp key (f_smallest f) < 0 ->
  (behind files (f_largest f) < behind files key)%nat.
Proof.
  intros Dk Hw Hin Hlt. pose proof (wf_in files f Hw Hin) as Hf. unfold behind. apply (filter_length_lt _ _ _ f); [|done|by apply Z.ltb_lt|].
  - intros g Hg Hgf%Z.ltb_lt. apply Z.ltb_lt. pose proof (wf_in files g Hw Hg) as Hgw. files_keys_order udom uc [f; g] [key].
  - apply Z.ltb_ge. files_order udom uc [f].
Qed.

(** Inputs from a level above 0: in order, and without a gap. *)
Record picked (files inputs : list fileptr) : Prop := {
  pk_sub f : f ∈ inputs -> f ∈ files;
  pk_sorted : disjoint_sorted uc inputs;
  pk_convex f g h : f ∈ inputs -> h ∈ inputs -> g ∈ files -> in_front f g -> in_front g h -> g ∈ inputs
}.

(** No file left behind the inputs starts with the user key of their end. *)
Definition complete (files inputs : list fileptr) : Prop :=
  forall f g, f ∈ inputs -> g ∈ files -> in_front f g -> ldb_compare uc (ukey (f_smallest g)) (ukey (f_largest f)) = 0 -> g ∈ inputs.

Lemma sorted_snoc (inputs : list fileptr) f : disjoint_sorted uc inputs -> (forall g, g ∈ inputs -> in_front g f) -> disjoint_sorted uc (inputs ++ [f]).
Proof.
  intros Hs Hl. unfold disjoint_sorted. induction Hs as [|g inputs Hs IH Hg]; cbn [app].
  - apply SSorted_cons; [apply SSorted_nil|apply List.Forall_nil].
  - apply SSorted_cons; [apply IH; intros h Hh; apply Hl; by right|]. apply List.Forall_app. split; [done|].
    apply List.Forall_cons; [apply Hl; by left|apply List.Forall_nil].
Qed.

(** The last file of the inputs. *)
Definition last_of (inputs : list fileptr) (m : fileptr) : Prop :=
  m ∈ inputs /\ forall f, f ∈ inputs -> ldb_compare icmp (f_largest f) (f_largest m) <= 0.

Lemma picked_snoc files inputs m f : Forall fwf files -> disjoint_sorted uc files -> picked files inputs -> last_of inputs m ->
  f ∈ files -> at_boundary (f_largest m) f ->
  (forall g, g ∈ files -> at_boundary (f_largest m) g -> ldb_compare icmp (f_smallest f) (f_smallest g) <= 0) ->
  picked files (inputs ++ [f]) /\ last_of (inputs ++ [f]) f.
Proof.
  intros Hw Hs [Hsub Hsort Hconv] [Hm Hmax] Hin [Hb1 Hb2] Hmin. pose proof (wf_in files f Hw Hin) as Hf.
  pose proof (wf_in files m Hw (Hsub m Hm)) as Hwm.
  assert (forall g, g ∈ inputs -> in_front g f) as Hfront.
  { intros g Hg. specialize (Hmax g Hg). pose proof (wf_in files g Hw (Hsub g Hg)) as Hgw. unfold in_front. files_order udom uc [f; g; m]. }
  split; [split|split].
  - intros g [Hg|Hg%list_elem_of_singleton]%elem_of_app; [auto|by subst].
  - by apply sorted_snoc.
  - intros a g h Ha Hh Hg Hag Hgh. rewrite elem_of_app in *. pose proof (wf_in files g Hw Hg) as Hgw.
    destruct Ha as [Ha|Ha%list_elem_of_singleton], Hh as [Hh|Hh%list_elem_of_singleton].
    + left. by apply (Hconv a g h).
    + subst h. destruct (level_total files g m Hs Hg (Hsub m Hm)) as [->|[Hgm|Hmg]]; [by left|left; by apply (Hconv a g m)|].
      exfalso. assert (at_boundary (f_largest m) g) as Hgb by (unfold at_boundary, in_front in *; files_order udom uc [g; m; f]).
      specialize (Hmin g Hg Hgb). unfold in_front in *. files_order udom uc [g; m; f].
    + subst a. specialize (Hfront h Hh). pose proof (wf_in files h Hw (Hsub h Hh)) as Hhw. unfold in_front in *. files_order udom uc [f; g; h].
    + subst a h. unfold in_front in *. files_order udom uc [f; g].
  - rewrite elem_of_app, list_elem_of_singleton. by right.
  - intros g [Hg|Hg%list_elem_of_singleton]%elem_of_app.
    + specialize (Hfront g Hg). pose proof (wf_in files g Hw (Hsub g Hg)) as Hgw. unfold in_front in *. files_order udom uc [f; g].
    + subst g. files_order udom uc [f].
Qed.

Lemma picked_complete files inputs m : Forall fwf files -> disjoint_sorted uc files -> picked files inputs -> last_of inputs m ->
  (forall g, g ∈ files -> ~ at_boundary (f_largest m) g) -> complete files inputs.
Proof.
  intros Hw Hs [Hsub Hsort Hconv] [Hm Hmax] Hnone f g Hf Hg Hfg Heq. pose proof (wf_in files f Hw (Hsub f Hf)) as Hfw.
  pose proof (wf_in files g Hw Hg) as Hgw. pose proof (wf_in files m Hw (Hsub m Hm)) as Hmw.
  destruct (level_total files g m Hs Hg (Hsub m Hm)) as [->|[Hgm|Hmg]]; [done|by apply (Hconv f g m)|].
  destruct (Hnone g Hg). specialize (Hmax f Hf). unfold at_boundary, in_front in *. files_order udom uc [f; g; m].
Qed.

Lemma boundary_loop_ok files : Forall fwf files -> disjoint_sorted uc files -> forall fuel inputs m,
  picked files inputs -> last_of inputs m -> (behind files (f_largest m) < fuel)%nat ->
  exists inputs', boundary_loop uc fuel files (f_largest m) inputs = Some inputs' /\ picked files inputs' /\ complete files inputs' /\
    inputs `prefix_of` inputs'.
Proof.
  intros Hw Hs. induction fuel as [|fuel IH]; intros inputs m Hp Hm Hfuel; [lia|]. cbn [boundary_loop].
  pose proof (wf_in files m Hw (pk_sub _ _ Hp m (proj1 Hm))) as Hmw. pose proof (fw_largest _ _ _ Hmw) as Dm.
  pose proof (find_boundary_ok files (f_largest m) Dm Hw) as Hb. destruct (find_smallest_boundary_file uc files (f_largest m)) as [f|].
  - destruct Hb as (Hin & Hat & Hmin). destruct (picked_snoc files inputs m f Hw Hs Hp Hm Hin Hat Hmin) as [Hp' Hm'].
    pose proof (behind_lt files (f_largest m) f Dm Hw Hin (proj1 Hat)).
    destruct (IH (inputs ++ [f]) f Hp' Hm') as (inputs' & E & H1 & H2 & H3); [lia|]. exists inputs'. split; [done|]. split; [done|]. split; [done|].
    etrans; [|exact H3]. by eexists.
  - exists inputs. split; [done|]. split; [done|]. split; [by apply (picked_complete files inputs m)|done].
Qed.

Lemma behind_le files key : (behind files key <= length files)%nat.
Proof. apply List.filter_length_le. Qed.

Lemma add_boundary_ok files inputs : Forall fwf files -> disjoint_sorted uc files -> picked files inputs ->
  exists inputs', add_boundary_inputs uc files inputs = Some inputs' /\ picked files inputs' /\ complete files inputs' /\
    inputs `prefix_of` inputs' /\ (inputs = [] -> inputs' = []).
Proof.
  intros Hw Hs Hp. unfold add_boundary_inputs. destruct (decide (inputs = [])) as [->|Hne].
  { exists []. split; [done|]. split; [done|]. split; [|done]. intros f g Hf%elem_of_nil. done. }
  assert (Forall fwf inputs) as Hwi.
  { apply List.Forall_forall. intros f Hf%list_elem_of_In. apply (wf_in files); [done|]. by apply (pk_sub _ _ Hp). }
  destruct (find_largest_key_ok inputs Hwi Hne) as (m & -> & Hm).
  destruct (boundary_loop_ok files Hw Hs (S (length files)) inputs m Hp Hm) as (inputs' & E & H1 & H2 & H3).
  { pose proof (behind_le files (f_largest m)). lia. }
  exists inputs'. done.
Qed.

(** *** Overlapping files *)

(** A file meets the user keys of a range of internal keys. *)
Definition touches (range : bytes * bytes) (f : fileptr) : Prop :=
  ldb_compare uc (ukey range.1) (ukey (f_largest f)) <= 0 /\ ldb_compare uc (ukey (f_smallest f)) (ukey range.2) <= 0.

Lemma meets_touches range f : idom range.1 -> idom range.2 -> fwf f ->
  meets uc (Some (ukey range.1)) (Some (ukey range.2)) f = true <-> touches range f.
Proof.
  intros D1 D2 Hf. unfold meets, touches, before_begin, after_end. rewrite negb_true_iff, orb_false_iff, !Z.ltb_ge.
  split; intros [H1 H2]; (split; [|lia]); files_keys_order udom uc [f] [range.1; range.2].
Qed.

(** On a sorted level the files that meet a range are next to each other. *)
Lemma filter_picked files b e : Forall fwf files -> disjoint_sorted uc files -> end_dom udom b -> end_dom udom e ->
  picked files (List.filter (meets uc b e) files).
Proof.
  intros Hw Hs Db De. split.
  - intros f [Hf _]%list_elem_of_In%filter_In. by apply list_elem_of_In.
  - by apply filter_sorted.
  - intros f g h [Hf Hmf]%list_elem_of_In%filter_In [Hh Hmh]%list_elem_of_In%filter_In Hg Hfg Hgh. apply list_elem_of_In in Hf, Hh.
    pose proof (wf_in files f Hw Hf) as Hfw. pose proof (wf_in files g Hw Hg) as Hgw. pose proof (wf_in files h Hw Hh) as Hhw.
    apply list_elem_of_In, filter_In. split; [by apply list_elem_of_In|]. unfold meets in *. rewrite negb_true_iff, orb_false_iff in *.
    destruct Hmf as [Hmf _], Hmh as [_ Hmh].
    assert (ldb_compare uc (ukey (f_largest f)) (ukey (f_largest g)) <= 0 /\ ldb_compare uc (ukey (f_smallest g)) (ukey (f_smallest h)) <= 0) as [H1 H2]
      by (unfold in_front in *; files_order udom uc [f; g; h]).
    destruct (fw_largest _ _ _ Hfw) as [_ U1], (fw_largest _ _ _ Hgw) as [_ U2], (fw_smallest _ _ _ Hgw) as [_ U3], (fw_smallest _ _ _ Hhw) as [_ U4].
    unfold before_begin, after_end in *. split.
    + destruct b as [x|]; [|done]. apply Z.ltb_ge. apply Z.ltb_ge in Hmf. specialize (Db x eq_refl). apply (compare_le_flip udom uc); [done..|].
      apply (compare_trans (c := uc) _ (ukey (f_largest f))); try done. by apply (compare_le_flip udom uc).
    + destruct e as [x|]; [|done]. apply Z.ltb_ge. apply Z.ltb_ge in Hmh. specialize (De x eq_refl).
      by apply (compare_trans (c := uc) _ (ukey (f_smallest h))).
Qed.

Context (ver : ldb_version) (ver_ok : levels_ok udom uc ver).

(** Files of level 0 that take all that they meet with them. *)
Definition zero_closed (files inputs : list fileptr) : Prop :=
  exists b e, end_dom udom b /\ end_dom udom e /\ inputs = List.filter (meets uc b e) files /\ closed uc files b e.

Lemma boundary_zero files inputs : Forall fwf files -> zero_closed files inputs -> add_boundary_inputs uc files inputs = Some inputs.
Proof.
  intros Hw (b & e & Db & De & Ein & Hcl). unfold add_boundary_inputs. destruct (decide (inputs = [])) as [->|Hne]; [done|].
  assert (forall f, f ∈ inputs <-> f ∈ files /\ meets uc b e f = true) as Hin.
  { intros f. rewrite Ein. rewrite !list_elem_of_In. apply filter_In. }
  assert (Forall fwf inputs) as Hwi by (apply List.Forall_forall; intros f [Hf _]%list_elem_of_In%Hin; by apply (wf_in files)).
  destruct (find_largest_key_ok inputs Hwi Hne) as (m & -> & Hm & Hmax). pose proof (proj1 (Hin m) Hm) as [Hm1 Hm2].
  pose proof (wf_in files m Hw Hm1) as Hmw. cbn [boundary_loop]. pose proof (find_boundary_ok files (f_largest m) (fw_largest _ _ _ Hmw) Hw) as Hb.
  destruct (find_smallest_boundary_file uc files (f_largest m)) as [f|]; [|done]. exfalso. destruct Hb as (Hf & [Hb1 Hb2] & _).
  pose proof (wf_in files f Hw Hf) as Hfw. assert (f ∈ inputs) as Hfin.
  { apply Hin. split; [done|]. pose proof (Hcl m Hm1 Hm2) as Hi. unfold inside, meets in *. rewrite negb_true_iff, orb_false_iff in *.
    destruct Hm2 as [Hm2 _], Hi as [_ Hi].
    assert (ldb_compare uc (ukey (f_largest m)) (ukey (f_largest f)) <= 0 /\ ldb_compare uc (ukey (f_smallest f)) (ukey (f_largest m)) <= 0) as [H1 H2]
      by files_order udom uc [f; m].
    destruct (fw_largest _ _ _ Hfw) as [_ U1], (fw_largest _ _ _ Hmw) as [_ U2], (fw_smallest _ _ _ Hfw) as [_ U3].
    unfold before_begin, after_end in *. split.
    + destruct b as [x|]; [|done]. apply Z.ltb_ge. apply Z.ltb_ge in Hm2. specialize (Db x eq_refl). apply (compare_le_flip udom uc); [done..|].
      apply (compare_trans (c := uc) _ (ukey (f_largest m))); try done. by apply (compare_le_flip udom uc).
    + destruct e as [x|]; [|done]. apply Z.ltb_ge. apply Z.ltb_ge in Hi. specialize (De x eq_refl).
      by apply (compare_trans (c := uc) _ (ukey (f_largest m))). }
  specialize (Hmax f Hfin). files_order udom uc [f; m].
Qed.

(** What holds of the inputs from a level. *)
Definition chosen (level : Z) (files inputs : list fileptr) : Prop :=
  if level =? 0 then zero_closed files inputs else picked files inputs /\ complete files inputs.

Lemma chosen_sub level files inputs f : chosen level files inputs -> f ∈ inputs -> f ∈ files.
Proof.
  unfold chosen. destruct (level =? 0); [|intros [Hp _]; by apply pk_sub]. intros (b & e & _ & _ & -> & _) Hf.
  apply list_elem_of_In, filter_In in Hf as [Hf _]. by apply list_elem_of_In.
Qed.

(** The files of a level that overlap a range, with boundary files. *)
Lemma overlapping_ok level range : 0 <= level < LDB_NUM_LEVELS -> idom range.1 -> idom range.2 ->
  exists files inputs, level_files ver level = Some files /\ overlapping_with_boundary uc ver level range = Some inputs /\
    chosen level files inputs /\ (forall g, g ∈ files -> touches range g -> g ∈ inputs) /\
    (level <> 0 -> inputs <> [] -> exists y, y ∈ inputs /\ touches range y).
Proof.
  intros Hl D1 D2. destruct (level_exists udom uc ver level ver_ok Hl) as [files Ef]. destruct (lo_files _ _ _ ver_ok level files Ef) as [Hw _].
  destruct (get_overlapping_ok udom uc ver level files (Some range.1) (Some range.2) Ef Hw) as (inputs & Ei & b & e & Hin & Hspec);
    [intros x [= <-]; apply D1|intros x [= <-]; apply D2|]. cbn [fmap option_fmap option_map] in Hspec.
  unfold overlapping_with_boundary. rewrite Ei, bind_some, Ef, bind_some. exists files. unfold chosen.
  assert (end_dom udom (Some (ukey range.1)) /\ end_dom udom (Some (ukey range.2))) as [Db De] by (split; intros x [= <-]; [apply D1|apply D2]).
  assert (forall g, g ∈ files -> touches range g -> extends udom uc (Some (ukey range.1)) (Some (ukey range.2)) b e -> g ∈ inputs) as Hall.
  { intros g Hg Ht Hx. rewrite Hin. apply list_elem_of_In, filter_In. split; [by apply list_elem_of_In|]. pose proof (wf_in files g Hw Hg) as Hgw.
    apply (meets_mono udom uc (Some (ukey range.1)) (Some (ukey range.2))); try done. by apply meets_touches. }
  destruct (Z.eqb_spec level 0) as [->|Hne].
  - destruct Hspec as (Hx & Hcl & _). pose proof (extends_dom udom uc _ _ _ _ Hx) as [Db' De'].
    assert (zero_closed files inputs) as Hz by (by exists b, e).
    exists inputs. split; [done|]. split; [by apply boundary_zero|]. split; [done|]. split; [intros g Hg Ht; by apply Hall|done].
  - destruct Hspec as [-> ->]. pose proof (lo_sorted _ _ _ ver_ok level files Hne Ef) as Hs.
    assert (picked files inputs) as Hp by (rewrite Hin; by apply filter_picked).
    destruct (add_boundary_ok files inputs Hw Hs Hp) as (inputs' & E & Hp' & Hc & [tl Htl] & Hnil). exists inputs'. split; [done|]. split; [done|].
    split; [done|]. split.
    + intros g Hg Ht. rewrite Htl. apply elem_of_app. left. apply Hall; [done..|]. by apply extends_refl.
    + intros _ Hne'. destruct inputs as [|y inputs]; [by rewrite Hnil in Hne'|]. exists y. split; [rewrite Htl; by left|].
      assert (y ∈ y :: inputs) as Hy by (by left). rewrite Hin in Hy. apply list_elem_of_In, filter_In in Hy as [Hy Hm]. apply list_elem_of_In in Hy.
      apply meets_touches; [done|done|by apply (wf_in files)|done].
Qed.

(** *** The choice *)

(** The inputs of a compaction from [level] to the next. *)
Record compaction_inputs (level : Z) (files0 files1 in0 in1 : list fileptr) (all : bytes * bytes) (largest : bytes) : Prop := {
  ci_first : chosen level files0 in0;
  ci_nonempty : in0 <> [];
  ci_second : picked files1 in1;
  ci_complete : complete files1 in1;
  ci_range : exists range, covers_files in0 range /\ largest = range.2 /\ (forall g, g ∈ files1 -> touches range g -> g ∈ in1) /\
    (in1 <> [] -> exists y, y ∈ in1 /\ touches range y);
  ci_all : covers_files (in0 ++ in1) all
}.

(** With what the choice starts. *)
Definition start_ok (level : Z) (files in0 : list fileptr) : Prop :=
  in0 <> [] /\ if level =? 0 then zero_closed files in0 else picked files in0.

Lemma chosen_wf level files inputs : level_files ver level = Some files -> chosen level files inputs -> Forall fwf inputs.
Proof.
  intros Ef Hc. destruct (lo_files _ _ _ ver_ok level files Ef) as [Hw _]. apply List.Forall_forall. intros f Hf%list_elem_of_In.
  apply (wf_in files); [done|]. by apply (chosen_sub level files inputs).
Qed.

Lemma chosen_above level files inputs : level <> 0 -> chosen level files inputs -> picked files inputs /\ complete files inputs.
Proof. intros Hne. unfold chosen. by rewrite (proj2 (Z.eqb_neq level 0) Hne). Qed.

(** The second inputs for given first ones. *)
Lemma second_ok level files0 in0 range : 0 <= level -> level + 1 < LDB_NUM_LEVELS -> level_files ver level = Some files0 ->
  chosen level files0 in0 -> in0 <> [] -> covers_files in0 range ->
  exists files1 in1 all, level_files ver (level + 1) = Some files1 /\ overlapping_with_boundary uc ver (level + 1) range = Some in1 /\
    ldb_versions_get_range2 uc in0 in1 = Some all /\ compaction_inputs level files0 files1 in0 in1 all range.2.
Proof.
  intros Hl Hl' E0 Hc Hne Hr. destruct (overlapping_ok (level + 1) range) as (files1 & in1 & E1 & Ei & Hc1 & Hall & Hsome);
    [lia|apply (cf_dom _ _ Hr)..|]. pose proof (chosen_wf level files0 in0 E0 Hc) as W0. pose proof (chosen_wf (level + 1) files1 in1 E1 Hc1) as W1.
  destruct (chosen_above (level + 1) files1 in1 ltac:(lia) Hc1) as [Hp1 Hco1].
  destruct (get_range_ok (in0 ++ in1)) as (all & Ea & Ha); [by apply List.Forall_app|by destruct in0|].
  exists files1, in1, all. split; [done|]. split; [done|]. split; [done|]. split; try done. exists range. split; [done|]. split; [done|]. split; [done|].
  apply Hsome. lia.
Qed.

Lemma covers_touches inputs range f : Forall fwf inputs -> covers_files inputs range -> f ∈ inputs -> touches range f.
Proof.
  intros Hw Hr Hf. pose proof (wf_in inputs f Hw Hf) as Hfw. pose proof (cf_small _ _ Hr f Hf). pose proof (cf_large _ _ Hr f Hf).
  destruct (cf_dom _ _ Hr). unfold touches. files_keys_order udom uc [f] [range.1; range.2].
Qed.

Lemma choose_inputs_ok options level files0 in0 : 0 <= level -> level + 1 < LDB_NUM_LEVELS -> level_files ver level = Some files0 ->
  start_ok level files0 in0 ->
  exists files1 in0' in1 all largest, level_files ver (level + 1) = Some files1 /\
    choose_inputs uc options ver level in0 = Some (in0', in1, all, largest) /\
    compaction_inputs level files0 files1 in0' in1 all largest /\ forall f, f ∈ in0 -> f ∈ in0'.
Proof.
  intros Hl Hl' E0 [Hne Hstart]. destruct (lo_files _ _ _ ver_ok level files0 E0) as [Hw0 _].
  assert (exists in0', add_boundary_inputs uc files0 in0 = Some in0' /\ chosen level files0 in0' /\ in0 `prefix_of` in0') as (ina & Ea & Ha & [tl Htl]).
  { unfold chosen. destruct (Z.eqb_spec level 0) as [->|Hne0].
    - exists in0. split; [by apply boundary_zero|done].
    - destruct (add_boundary_ok files0 in0 Hw0 (lo_sorted _ _ _ ver_ok level files0 Hne0 E0) Hstart) as (in0' & E & Hp & Hc & Hpre & _). by exists in0'. }
  assert (forall f, f ∈ in0 -> f ∈ ina) as Hsub by (intros f Hf; rewrite Htl; apply elem_of_app; by left).
  assert (ina <> []) as Hnea by (destruct in0; [done|by rewrite Htl]).
  destruct (get_range_ok ina (chosen_wf level files0 ina E0 Ha) Hnea) as (range & Er & Hr).
  destruct (second_ok level files0 ina range Hl Hl' E0 Ha Hnea Hr) as (files1 & in1 & all & E1 & Ei1 & Eall & Hci).
  unfold choose_inputs. rewrite E0, bind_some, Ea, bind_some, Er, bind_some, Ei1, bind_some, Eall, bind_some.
  unfold grow_inputs. destruct (negb _); [by exists files1, ina, in1, all, range.2|].
  destruct (cf_dom _ _ (ci_all _ _ _ _ _ _ _ Hci)) as [D1 D2].
  destruct (overlapping_ok level all ltac:(lia) D1 D2) as (files0' & inb & E0' & Eb & Hb & Hallb & _). rewrite E0 in E0'. injection E0' as <-.
  rewrite Eb, bind_some. destruct (_ && _); [|by exists files1, ina, in1, all, range.2].
  assert (forall f, f ∈ ina -> f ∈ inb) as Hsubb.
  { intros f Hf. apply Hallb; [by apply (chosen_sub level files0 ina)|]. apply (covers_touches (ina ++ in1)); [|apply Hci|apply elem_of_app; by left].
    apply List.Forall_app. split; [by apply (chosen_wf level files0)|]. apply List.Forall_forall. intros g Hg%list_elem_of_In.
    apply (wf_in files1); [apply (lo_files _ _ _ ver_ok (level + 1) files1 E1)|]. by apply (pk_sub _ _ (ci_second _ _ _ _ _ _ _ Hci)). }
  assert (inb <> []) as Hneb.
  { destruct ina as [|f ina]; [done|]. intros ->. specialize (Hsubb f ltac:(by left)). by apply elem_of_nil in Hsubb. }
  destruct (get_range_ok inb (chosen_wf level files0 inb E0 Hb) Hneb) as (range' & Er' & Hr').
  rewrite Er', bind_some. destruct (second_ok level files0 inb range' Hl Hl' E0 Hb Hneb Hr') as (files1' & in1' & all' & E1' & Ei1' & Eall' & Hci').
  rewrite E1 in E1'. injection E1' as <-. rewrite Ei1', bind_some. destruct (zlen in1' =? zlen in1); [|by exists files1, ina, in1, all, range.2].
  rewrite Eall', bind_some. exists files1, inb, in1', all', range'.2. split; [done|]. split; [done|]. split; [done|]. auto.
Qed.
End Inputs.
