(* ===== verification/CompactionResult.v ===== *)
(** * The result of a compaction

    Replacing the inputs of a compaction by tables with some of their entries
    keeps the invariant of versions (VersionGet.v): levels stay sorted, and what
    lies higher stays newer. *)

From stdpp Require Import strings sorting gmap.
From Stdlib Require Import SpecFloat.
From S2P Require Import Prelude Coding Status Strutil Comparator DBFormat KeyOrder Options Vector Memtable Iterator BlockBuilder FileList Version VersionGet VersionEdit VersionBuilder Env VersionSet Recovery Snapshot Manifest Compaction CompactionInputs.
#[local] Open Scope Z_scope.

(** ** What the edit does to the levels *)

Lemma file_number_in f files : f ∈ files -> f_number f ∈ numbers files.
Proof. intros Hf. apply list_elem_of_In, in_map_iff. exists f. by rewrite <- list_elem_of_In. Qed.

Lemma remove_inputs_elem level files : forall e l n,
  FileEntry l n ∈ ed_deleted_files (remove_inputs level files e) <-> FileEntry l n ∈ ed_deleted_files e \/ (l = level /\ n ∈ numbers files).
Proof.
  induction files as [|f files IH]; intros e l n; cbn [remove_inputs fold_left numbers map].
  { split; [auto|]. intros [H|[_ H%elem_of_nil]]; done. }
  unfold remove_inputs in IH. rewrite IH. cbn [ldb_edit_remove_file ed_deleted_files]. rewrite rb_set_put_elem, elem_of_cons.
  split; [intros [[[= -> ->]|H]|[-> H]]; auto|]. intros [H|[-> [->|H]]]; auto.
Qed.

Lemma remove_inputs_rest level files : forall e, ed_new_files (remove_inputs level files e) = ed_new_files e /\
  ed_compact_pointers (remove_inputs level files e) = ed_compact_pointers e.
Proof. induction files as [|f files IH]; intros e; [done|]. cbn [remove_inputs fold_left]. unfold remove_inputs in IH. by rewrite !(proj1 (IH _)), !(proj2 (IH _)). Qed.

Lemma delete_entries_lookup l ds : forall (m : level_state_map) n i,
  fold_left (delete_entry l) ds m !! n = Some i <-> m !! n = Some i /\ FileEntry l n ∉ ds.
Proof.
  induction ds as [|[dl dn] ds IH]; intros m n i; cbn [fold_left].
  { split; [intros H; split; [done|]; intros H'%elem_of_nil; done|by intros [H _]]. }
  rewrite IH, not_elem_of_cons. unfold delete_entry. cbn [fe_level fe_number]. destruct (Z.eqb_spec dl l) as [->|Hl].
  - rewrite lookup_delete_Some. split; [intros [[H1 H2] H3]; split; [done|]; split; [congruence|done]|].
    intros (H1 & H2 & H3). split; [|done]. split; [|done]. intros ->. by apply H2.
  - split; [intros [H1 H2]; split; [done|]; split; [congruence|done]|]. intros (H1 & _ & H3). done.
Qed.

(** The edit of a compaction: its inputs go, its outputs come. *)
Definition compaction_edit (level : Z) (in0 in1 outputs : list fileptr) (ed : edit) : edit :=
  snapshot_files (level + 1) outputs (remove_inputs (level + 1) in1 (remove_inputs level in0 ed)).

Lemma compaction_edit_lookup level in0 in1 outputs ed l (m : level_state_map) n i :
  ed_deleted_files ed = [] -> ed_new_files ed = [] -> NoDup (numbers outputs) -> (l = level + 1 -> forall f, f ∈ outputs -> m !! f_number f = None) ->
  apply_edit l m (compaction_edit level in0 in1 outputs ed) !! n = Some i <->
  (l = level + 1 /\ exists f, f ∈ outputs /\ f_number f = n /\ meta_info (fp_meta f) = i) \/
  (m !! n = Some i /\ ~ (l = level /\ n ∈ numbers in0) /\ ~ (l = level + 1 /\ n ∈ numbers in1)).
Proof.
  intros Hd Hn Hnd Hfresh. unfold apply_edit, compaction_edit. rewrite snapshot_files_eq. cbn [with_new ed_new_files ed_deleted_files].
  rewrite !(proj1 (remove_inputs_rest _ _ _)), Hn. cbn [app].
  assert (forall n i, fold_left (delete_entry l) (ed_deleted_files (remove_inputs (level + 1) in1 (remove_inputs level in0 ed))) m !! n = Some i <->
    m !! n = Some i /\ ~ (l = level /\ n ∈ numbers in0) /\ ~ (l = level + 1 /\ n ∈ numbers in1)) as Hdel.
  { intros k j. rewrite delete_entries_lookup, !remove_inputs_elem, Hd, elem_of_nil. tauto. }
  destruct (decide (l = level + 1)) as [Hl|Hl].
  - rewrite <- Hl. rewrite <- Hl in Hdel. rewrite insert_files_lookup by done. rewrite Hdel. specialize (Hfresh Hl). split.
    + intros [(f & Hf & H1 & H2)|[(H1 & H2 & H3) H4]]; [left; split; [done|by exists f]|by right].
    + intros [[_ (f & Hf & H1 & H2)]|(H1 & H2 & H3)]; [left; by exists f|right]. split; [done|]. intros (f & <- & Hf)%list_elem_of_In%in_map_iff.
      rewrite (Hfresh f) in H1 by (by apply list_elem_of_In). done.
  - rewrite insert_entries_other by done. rewrite Hdel. split; [auto|]. intros [[? _]|H]; done.
Qed.

(** ** What the inputs leave behind *)

Section Result.
Context (udom : bytes -> Prop) (uc : comparator) `{!ComparatorLaws udom uc}.
Context (ents_of : Z -> Z -> option (list entry)).
Local Abbreviation icmp := (ldb_ikc_init uc).
Local Abbreviation idom := (ikey_dom udom).
Local Abbreviation ukey := ldb_extract_user_key.
Local Abbreviation fwf := (file_wf udom uc).
Local Abbreviation vfile := (version_file udom uc ents_of).
Local Abbreviation entries := (file_entries ents_of).

Lemma version_file_wf f : vfile f -> fwf f.
Proof. intros [[H _ _ _ _ _] _ _]. done. Qed.

Lemma version_files_wf files : Forall vfile files -> Forall fwf files.
Proof. apply List.Forall_impl, version_file_wf. Qed.

Lemma file_entry_dom f e : vfile f -> e ∈ entries f -> idom (ikey e.1) /\ entry_wf udom e.
Proof.
  intros Hf He. pose proof (entry_range udom uc ents_of f e Hf He) as (Hw & H1 & H2). split; [|done].
  destruct (file_kv udom uc (pairs_of ents_of) f (entry_pair e) (vf_ok _ _ _ f Hf)) as (Hd & _); [|exact Hd].
  rewrite (file_kvs_entries udom uc ents_of f Hf). by apply list_elem_of_fmap_2.
Qed.

(** The invariant of versions gives what the choice of inputs relies on. *)
Lemma version_levels ver : version_wf udom uc ents_of ver -> Version.levels_ok udom uc ver.
Proof.
  intros Hv. assert (forall level files, level_files ver level = Some files -> In files (ver_files ver)) as Hin.
  { intros level files E. unfold level_files, item in E. destruct (level <? 0); [done|]. apply list_elem_of_In. by apply (list_elem_of_lookup_2 _ (Z.to_nat level)). }
  split; [apply Hv| |apply Hv]. intros level files E%Hin. pose proof (vw_files _ _ _ _ Hv) as H1. pose proof (vw_count _ _ _ _ Hv) as H2.
  rewrite List.Forall_forall in H1, H2. specialize (H1 files E). specialize (H2 files E). cbn in H2. split; [by apply version_files_wf|lia].
Qed.

(** Entries of files in order: the first are newer where they share a key. *)
Lemma front_newer f g : vfile f -> vfile g -> in_front uc f g -> newer_than uc (entries f) (entries g).
Proof.
  intros Hf Hg Hfg e e' He He' Heq. destruct (entry_range udom uc ents_of f e Hf He) as (We & _ & H1).
  destruct (entry_range udom uc ents_of g e' Hg He') as (We' & H2 & _).
  destruct (file_entry_dom f e Hf He) as [De _]. destruct (file_entry_dom g e' Hg He') as [De' _].
  assert (ldb_compare icmp (ikey e.1) (ikey e'.1) < 0) as Hlt.
  { pose proof (version_file_wf f Hf). pose proof (version_file_wf g Hg). unfold in_front in Hfg.
    files_keys_order udom uc [f; g] [ikey e.1; ikey e'.1]. }
  apply entry_pkey_wf in We, We'. change (ldb_compare icmp) with (ldb_ikc_compare uc) in Hlt.
  rewrite ikc_compare_lt, !user_key_ikey in Hlt by done. destruct Hlt as [Hlt|[_ Hlt]]; [lia|]. rewrite !ikey_tag_ikey in Hlt by done. exact Hlt.
Qed.

(** Files that share no user key. *)
Definition apart (f g : fileptr) : Prop :=
  ldb_compare uc (ukey (f_largest f)) (ukey (f_smallest g)) < 0 \/ ldb_compare uc (ukey (f_largest g)) (ukey (f_smallest f)) < 0.

Lemma apart_newer f g : vfile f -> vfile g -> apart f g -> newer_than uc (entries f) (entries g).
Proof.
  intros Hf Hg Hap e e' He He' Heq. destruct (entry_range udom uc ents_of f e Hf He) as (We & H1 & H2).
  destruct (entry_range udom uc ents_of g e' Hg He') as (We' & H3 & H4).
  destruct (file_entry_dom f e Hf He) as [De _]. destruct (file_entry_dom g e' Hg He') as [De' _]. exfalso.
  pose proof (version_file_wf f Hf). pose proof (version_file_wf g Hg). unfold apart in Hap.
  assert (ldb_compare uc (ukey (ikey e.1)) (ukey (ikey e'.1)) = 0) as Heq' by (by rewrite !user_key_ikey by (by apply (entry_pkey_wf udom))).
  clear Heq. files_keys_order udom uc [f; g] [ikey e.1; ikey e'.1].
Qed.

(** A file of the first level that is not taken is newer than those taken. *)
Lemma first_separated level files0 in0 f h : Forall vfile files0 -> (level <> 0 -> disjoint_sorted uc files0) ->
  chosen udom uc level files0 in0 -> f ∈ files0 -> f ∉ in0 -> h ∈ in0 -> newer_than uc (entries f) (entries h).
Proof.
  intros Hv Hs Hc Hf Hnf Hh. pose proof (version_files_wf files0 Hv) as Hw. pose proof (chosen_sub udom uc level files0 in0 h Hc Hh) as Hh0.
  assert (vfile f /\ vfile h) as [Vf Vh] by (rewrite List.Forall_forall in Hv; split; by apply Hv, list_elem_of_In).
  unfold chosen in Hc. destruct (Z.eqb_spec level 0) as [_|Hne].
  - destruct Hc as (b & e & Db & De & -> & Hcl). apply list_elem_of_In, filter_In in Hh as [_ Hm]. pose proof (Hcl h Hh0 Hm) as Hi.
    apply apart_newer; [done|done|]. assert (meets uc b e f = false) as Hnm.
    { apply not_true_iff_false. intros Hmf. apply Hnf, list_elem_of_In, filter_In. by rewrite <- list_elem_of_In. }
    unfold meets, inside in *. apply negb_false_iff, orb_true_iff in Hnm. apply negb_true_iff, orb_false_iff in Hi as [Hi1 Hi2].
    destruct (version_file_wf f Vf) as [[_ U1] [_ U2] _ _], (version_file_wf h Vh) as [[_ U3] [_ U4] _ _].
    unfold before_begin, after_end, apart in *. destruct Hnm as [Hnm|Hnm].
    + left. destruct b as [x|]; [|done]. apply Z.ltb_lt in Hnm. apply Z.ltb_ge in Hi1. specialize (Db x eq_refl).
      apply (compare_lt_le_trans udom uc _ x); try done. by apply (compare_le_flip udom uc).
    + right. destruct e as [x|]; [|done]. apply Z.ltb_lt in Hnm. apply Z.ltb_ge in Hi2. specialize (De x eq_refl).
      apply (compare_le_lt_trans udom uc _ x); try done. by apply (compare_lt_flip udom uc).
  - destruct Hc as [Hp Hco]. destruct (level_total uc files0 f h (Hs Hne) Hf Hh0) as [->|[Hfh|Hhf]]; [done|by apply front_newer|].
    apply apart_newer; [done|done|]. right. pose proof (version_file_wf f Vf) as Wf. pose proof (version_file_wf h Vh) as Wh. unfold in_front in Hhf.
    destruct (Z.eq_dec (ldb_compare uc (ukey (f_smallest f)) (ukey (f_largest h))) 0) as [E|E]; [by destruct Hnf; apply (Hco h f)|].
    files_order udom uc [f; h].
Qed.

(** A file of the second level that is not taken lies in front of all inputs or
    behind them. *)
Lemma second_separated level files0 files1 in0 in1 all largest g : Forall fwf files0 -> Forall fwf files1 -> disjoint_sorted uc files1 ->
  compaction_inputs udom uc level files0 files1 in0 in1 all largest -> g ∈ files1 -> g ∉ in1 ->
  (forall x, x ∈ in0 ++ in1 -> in_front uc g x) \/ (forall x, x ∈ in0 ++ in1 -> in_front uc x g).
Proof.
  intros Hw0 Hw1 Hs [Hc0 Hne [Hsub _ Hconv] _ (range & Hr & _ & Hall & Hsome) _] Hg Hng. pose proof (wf_in udom uc files1 g Hw1 Hg) as Wg.
  destruct (cf_dom _ _ _ _ Hr) as [D1 D2].
  assert (ldb_compare uc (ukey (f_largest g)) (ukey range.1) < 0 \/ ldb_compare uc (ukey range.2) (ukey (f_smallest g)) < 0) as [H|H].
  { assert (~ touches uc range g) as Hnt by (intros Ht; by apply Hng, Hall). unfold touches in Hnt.
    destruct (Z_lt_le_dec (ldb_compare uc (ukey (f_largest g)) (ukey range.1)) 0) as [A|A]; [by left|right].
    destruct (Z_lt_le_dec (ldb_compare uc (ukey range.2) (ukey (f_smallest g))) 0) as [B|B]; [done|]. exfalso. apply Hnt.
    split; files_keys_order udom uc [g] [range.1; range.2]. }
  - left. intros x [Hx|Hx]%elem_of_app.
    + pose proof (wf_in udom uc files0 x Hw0 (chosen_sub udom uc level files0 in0 x Hc0 Hx)) as Wx. pose proof (cf_small _ _ _ _ Hr x Hx).
      unfold in_front. files_keys_order udom uc [g; x] [range.1].
    + assert (in1 <> []) as Hne1 by (intros ->; by apply elem_of_nil in Hx). destruct (Hsome Hne1) as (y & Hy & Ht & _).
      pose proof (wf_in udom uc files1 y Hw1 (Hsub y Hy)) as Wy. pose proof (wf_in udom uc files1 x Hw1 (Hsub x Hx)) as Wx.
      destruct (level_total uc files1 g x Hs Hg (Hsub x Hx)) as [->|[|Hxg]]; [done|done|]. destruct Hng. apply (Hconv x g y); try done.
      destruct (level_total uc files1 g y Hs Hg (Hsub y Hy)) as [Ey|[|Hyg]]; [subst y|done|]; unfold in_front in *;
        [files_keys_order udom uc [g] [range.1]|files_keys_order udom uc [g; y] [range.1]].
  - right. intros x [Hx|Hx]%elem_of_app.
    + pose proof (wf_in udom uc files0 x Hw0 (chosen_sub udom uc level files0 in0 x Hc0 Hx)) as Wx. pose proof (cf_large _ _ _ _ Hr x Hx).
      unfold in_front. files_keys_order udom uc [g; x] [range.2].
    + assert (in1 <> []) as Hne1 by (intros ->; by apply elem_of_nil in Hx). destruct (Hsome Hne1) as (y & Hy & _ & Ht).
      pose proof (wf_in udom uc files1 y Hw1 (Hsub y Hy)) as Wy. pose proof (wf_in udom uc files1 x Hw1 (Hsub x Hx)) as Wx.
      destruct (level_total uc files1 g x Hs Hg (Hsub x Hx)) as [->|[Hgx|]]; [done| |done]. destruct Hng. apply (Hconv y g x); try done.
      destruct (level_total uc files1 g y Hs Hg (Hsub y Hy)) as [Ey|[Hgy|]]; [subst y| |done]; unfold in_front in *;
        [files_keys_order udom uc [g] [range.2]|files_keys_order udom uc [g; y] [range.2]].
Qed.

(** ** The new version *)

(** Tables with entries of the inputs. *)
Record outputs_ok (inputs outputs : list fileptr) : Prop := {
  oo_files : Forall vfile outputs;
  oo_first f : f ∈ outputs -> exists e, e ∈ entries f /\ ikey e.1 = f_smallest f;
  oo_entries f e : f ∈ outputs -> e ∈ entries f -> exists g, g ∈ inputs /\ e ∈ entries g;
  oo_sorted : disjoint_sorted uc outputs;
  oo_numbers : NoDup (numbers outputs)
}.

Context (options : dbopt) (ver : ldb_version) (level : Z) (files0 files1 in0 in1 : list fileptr) (all : bytes * bytes) (largest : bytes).
Context (outputs : list fileptr) (ed : edit).
Hypothesis ver_wf : version_wf udom uc ents_of ver.
Hypothesis ver_inv : levels_inv udom uc ver.
Hypothesis level_range : 0 <= level /\ level + 1 < LDB_NUM_LEVELS.
Hypothesis files0_eq : level_files ver level = Some files0.
Hypothesis files1_eq : level_files ver (level + 1) = Some files1.
Hypothesis inputs_ok : compaction_inputs udom uc level files0 files1 in0 in1 all largest.
Hypothesis outs_ok : outputs_ok (in0 ++ in1) outputs.
Hypothesis outs_fresh : forall f, f ∈ outputs -> f_number f ∉ base_numbers ver (level + 1).
Hypothesis outs_count : zlen files1 + zlen outputs <= 2 ^ 30.
Hypothesis ed_plain : ed_deleted_files ed = [] /\ ed_new_files ed = [] /\ Forall (fun p => level_ok (ike_level p)) (ed_compact_pointers ed).

Local Abbreviation cedit := (compaction_edit level in0 in1 outputs ed).

Lemma files_at l files f : level_files ver l = Some files -> f ∈ files -> vfile f.
Proof.
  intros E Hf. pose proof (vw_files _ _ _ _ ver_wf) as Hv. rewrite List.Forall_forall in Hv. unfold level_files, item in E.
  destruct (l <? 0); [done|]. specialize (Hv files (proj1 (list_elem_of_In _ _) (list_elem_of_lookup_2 _ _ _ E))).
  rewrite List.Forall_forall in Hv. by apply Hv, list_elem_of_In.
Qed.

Lemma level_vfiles l files : level_files ver l = Some files -> Forall vfile files.
Proof. intros E. apply List.Forall_forall. intros f Hf%list_elem_of_In. by apply (files_at l files). Qed.

Lemma input_file f : f ∈ in0 ++ in1 -> (f ∈ in0 /\ f ∈ files0 \/ f ∈ in1 /\ f ∈ files1) /\ vfile f.
Proof.
  intros [H|H]%elem_of_app.
  - assert (f ∈ files0) as H0 by (by apply (chosen_sub udom uc level files0 in0 f (ci_first _ _ _ _ _ _ _ _ _ inputs_ok))).
    split; [by left|by apply (files_at level files0)].
  - assert (f ∈ files1) as H1 by (by apply (pk_sub _ _ _ (ci_second _ _ _ _ _ _ _ _ _ inputs_ok))).
    split; [by right|by apply (files_at (level + 1) files1)].
Qed.

Lemma output_file f : f ∈ outputs -> vfile f.
Proof. intros Hf%list_elem_of_In. pose proof (oo_files _ _ outs_ok) as H. rewrite List.Forall_forall in H. auto. Qed.

(** The lookups of a level. *)
Lemma base_lookup l n i : level_ok l ->
  base_map ver l !! n = Some i <-> exists files f, level_files ver l = Some files /\ f ∈ files /\ f_number f = n /\ meta_info (fp_meta f) = i.
Proof.
  intros Hl. destruct (level_some ver l (vi_levels _ _ _ ver_inv) Hl) as [files E]. unfold base_map. rewrite E. cbn [default from_option id].
  rewrite level_map_lookup by (apply (li_numbers _ _ _ _ (vi_level _ _ _ ver_inv l files E))). split; [intros (f & H); by exists files, f|].
  intros (fs & f & [= <-] & H). by exists f.
Qed.

Lemma fresh_lookup f : f ∈ outputs -> base_map ver (level + 1) !! f_number f = None.
Proof.
  intros Hf. apply eq_None_not_Some. intros [i Hi]. apply base_lookup in Hi as (files & g & E & Hg & En & _); [|unfold level_ok, LDB_NUM_LEVELS in *; lia].
  apply (outs_fresh f Hf). unfold base_numbers. rewrite E. cbn [default from_option id]. rewrite <- En. by apply file_number_in.
Qed.

(** Two files of a level with the same number are one. *)
Lemma same_number l files f g : level_files ver l = Some files -> f ∈ files -> g ∈ files -> f_number f = f_number g -> f = g.
Proof.
  intros E [i Hf]%list_elem_of_lookup [j Hg]%list_elem_of_lookup En. pose proof (li_numbers _ _ _ _ (vi_level _ _ _ ver_inv l files E)) as Hnd.
  change (numbers files) with ((fun f => f_number f) <$> files) in Hnd.
  assert (i = j) as ->; [|congruence]. apply (NoDup_lookup _ i j (f_number f) Hnd); rewrite list_lookup_fmap; [by rewrite Hf|].
  rewrite Hg. cbn. by rewrite En.
Qed.

(** What the edit leaves on a level: outputs, and files that were not taken. *)
Inductive left_file (l : Z) (f : fileptr) : Prop :=
| left_output : l = level + 1 -> f ∈ outputs -> left_file l f
| left_base files : level_files ver l = Some files -> f ∈ files -> (l = level -> f ∉ in0) -> (l = level + 1 -> f ∉ in1) -> left_file l f.

Lemma left_lookup l n i : level_ok l -> apply_edit l (base_map ver l) cedit !! n = Some i ->
  exists f, left_file l f /\ f_number f = n /\ meta_info (fp_meta f) = i.
Proof.
  intros Hl H. destruct ed_plain as (P1 & P2 & _). apply compaction_edit_lookup in H; [|done|done|apply outs_ok|by intros ->; apply fresh_lookup].
  destruct H as [(-> & f & Hf & H)|(H & N0 & N1)]; [exists f; split; [by apply left_output|done]|].
  apply base_lookup in H as (files & f & E & Hf & <- & Ei); [|done]. exists f. split; [|done]. apply (left_base l f files); [done|done| |].
  - intros -> Hin. apply N0. split; [done|]. by apply file_number_in.
  - intros -> Hin. apply N1. split; [done|]. by apply file_number_in.
Qed.

Lemma left_vfile l f : left_file l f -> vfile f.
Proof. intros [_ Hf|files E Hf _ _]; [by apply output_file|by apply (files_at l files)]. Qed.

(** An output lies within the inputs. *)
Lemma output_range o g : o ∈ outputs -> fwf g ->
  (forall x, x ∈ in0 ++ in1 -> in_front uc g x) \/ (forall x, x ∈ in0 ++ in1 -> in_front uc x g) -> in_front uc g o \/ in_front uc o g.
Proof.
  intros Ho Wg H. pose proof (version_file_wf o (output_file o Ho)) as Wo. destruct H as [H|H].
  - left. destruct (oo_first _ _ outs_ok o Ho) as (e & He & E). destruct (oo_entries _ _ outs_ok o e Ho He) as (x & Hx & Hex).
    destruct (input_file x Hx) as [_ Vx]. destruct (entry_range udom uc ents_of x e Vx Hex) as (_ & H1 & _). specialize (H x Hx).
    pose proof (version_file_wf x Vx) as Wx. rewrite E in H1. unfold in_front in *. files_order udom uc [g; o; x].
  - right. destruct (vf_last _ _ _ o (output_file o Ho)) as (e & He & E). destruct (oo_entries _ _ outs_ok o e Ho He) as (x & Hx & Hex).
    destruct (input_file x Hx) as [_ Vx]. destruct (entry_range udom uc ents_of x e Vx Hex) as (_ & _ & H1). specialize (H x Hx).
    pose proof (version_file_wf x Vx) as Wx. rewrite E in H1. unfold in_front in *. files_order udom uc [g; o; x].
Qed.

Lemma output_apart o g : o ∈ outputs -> g ∈ files1 -> g ∉ in1 -> in_front uc g o \/ in_front uc o g.
Proof.
  intros Ho Hg Hng. apply output_range; [done|by apply version_file_wf, (files_at (level + 1) files1)|].
  apply (second_separated level files0 files1 in0 in1 all largest); try done.
  - apply version_files_wf. by apply (level_vfiles level).
  - apply version_files_wf. by apply (level_vfiles (level + 1)).
  - apply (vw_sorted _ _ _ _ ver_wf (level + 1)); [lia|done].
Qed.

Lemma left_total l f g : 0 < l -> left_file l f -> left_file l g -> f_number f <> f_number g -> in_front uc f g \/ in_front uc g f.
Proof.
  intros Hl Hf Hg Hne. destruct Hf as [El Hf|fs Ef Hf _ Nf], Hg as [El' Hg|gs Eg Hg _ Ng].
  - destruct (level_total uc outputs f g (oo_sorted _ _ outs_ok) Hf Hg) as [->|]; done.
  - subst l. rewrite files1_eq in Eg. injection Eg as <-. destruct (output_apart f g Hf Hg (Ng eq_refl)); auto.
  - subst l. rewrite files1_eq in Ef. injection Ef as <-. destruct (output_apart g f Hg Hf (Nf eq_refl)); auto.
  - rewrite Ef in Eg. injection Eg as <-. destruct (level_total uc fs f g) as [->|]; try done. apply (vw_sorted _ _ _ _ ver_wf l); [lia|done].
Qed.

Lemma left_disjoint l : 0 < l -> level_ok l -> map_disjoint uc (apply_edit l (base_map ver l) cedit).
Proof.
  intros Hl Hlev n n' i i' H H' Hne. apply left_lookup in H as (f & Lf & <- & <-); [|done]. apply left_lookup in H' as (g & Lg & <- & <-); [|done].
  exact (left_total l f g Hl Lf Lg Hne).
Qed.

(** Between two levels. *)
Lemma left_newer i j f g : i < j -> left_file i f -> left_file j g -> newer_than uc (entries f) (entries g).
Proof.
  intros Hij Hf Hg. destruct Hf as [-> Hf|fs Ef Hf Nf _], Hg as [-> Hg|gs Eg Hg _ _]; [lia| | |].
  - intros e e' He He'. destruct (oo_entries _ _ outs_ok f e Hf He) as (x & Hx & Hex). destruct (input_file x Hx) as [[[_ H0]|[_ H1]] _].
    + apply (vw_deeper _ _ _ _ ver_wf level j files0 gs x g); [lia|done..].
    + apply (vw_deeper _ _ _ _ ver_wf (level + 1) j files1 gs x g); done.
  - intros e e' He He'. destruct (oo_entries _ _ outs_ok g e' Hg He') as (x & Hx & Hex). destruct (input_file x Hx) as [[[Hin H0]|[_ H1]] _].
    + destruct (decide (i = level)) as [->|Hne].
      * rewrite files0_eq in Ef. injection Ef as <-. apply (first_separated level files0 in0 f x); try done; [by apply (level_vfiles level)| |apply inputs_ok|auto].
        intros Hne. by apply (vw_sorted _ _ _ _ ver_wf level).
      * apply (vw_deeper _ _ _ _ ver_wf i level fs files0 f x); [lia|done..].
    + apply (vw_deeper _ _ _ _ ver_wf i (level + 1) fs files1 f x); done.
  - by apply (vw_deeper _ _ _ _ ver_wf i j fs gs).
Qed.

(** The builder accepts the edit. *)
Lemma cedit_ok : edit_ok udom uc cedit.
Proof.
  destruct ed_plain as (P1 & P2 & P3). unfold compaction_edit. rewrite snapshot_files_eq. split; cbn [with_new ed_compact_pointers ed_deleted_files ed_new_files].
  - by rewrite !(proj2 (remove_inputs_rest _ _ _)).
  - apply List.Forall_forall. intros [l n] H%list_elem_of_In. cbn [fe_level]. rewrite !remove_inputs_elem, P1, elem_of_nil in H.
    unfold level_ok, LDB_NUM_LEVELS in *. destruct H as [[[]|[-> _]]|[-> _]]; lia.
  - rewrite !(proj1 (remove_inputs_rest _ _ _)), P2. cbn [app]. apply List.Forall_forall. unfold file_entries_of. intros a (f & <- & Hf)%in_map_iff.
    cbn [meta_entry_create me_level me_meta]. split; [unfold level_ok, LDB_NUM_LEVELS in *; lia|]. apply list_elem_of_In in Hf.
    destruct (version_file_wf f (output_file f Hf)). by split.
Qed.

Lemma cedit_numbers l : added_numbers l (ed_new_files cedit) = if level + 1 =? l then numbers outputs else [].
Proof.
  destruct ed_plain as (P1 & P2 & P3). unfold compaction_edit. rewrite snapshot_files_eq. cbn [with_new ed_new_files].
  rewrite !(proj1 (remove_inputs_rest _ _ _)), P2. cbn [app]. apply file_entries_numbers.
Qed.

(** A version whose levels are what the edit leaves. *)
Context (v' : ldb_version).
Hypothesis new_inv : levels_inv udom uc v'.
Hypothesis new_map : forall l, level_ok l -> base_map v' l = apply_edit l (base_map ver l) cedit.

Lemma new_file l files f : level_files v' l = Some files -> f ∈ files ->
  exists g, left_file l g /\ f_number g = f_number f /\ meta_info (fp_meta g) = meta_info (fp_meta f).
Proof.
  intros E Hf. pose proof (level_in v' l files (vi_levels _ _ _ new_inv) E) as Hl. apply left_lookup; [done|]. rewrite <- new_map by done.
  unfold base_map. rewrite E. cbn [default from_option id]. apply level_map_lookup; [apply (li_numbers _ _ _ _ (vi_level _ _ _ new_inv l files E))|]. by exists f.
Qed.

Lemma info_keeps f g : f_number g = f_number f -> meta_info (fp_meta g) = meta_info (fp_meta f) ->
  f_file_size g = f_file_size f /\ f_smallest g = f_smallest f /\ f_largest g = f_largest f /\ entries g = entries f.
Proof.
  intros En Ei. injection Ei as H1 H2 H3. split; [done|]. split; [done|]. split; [done|]. unfold file_entries. by rewrite En, H1.
Qed.

Lemma vfile_keeps f g : f_number g = f_number f -> meta_info (fp_meta g) = meta_info (fp_meta f) -> vfile g -> vfile f.
Proof.
  intros En Ei Vg. destruct (info_keeps f g En Ei) as (E1 & E2 & E3 & E4). destruct Vg as [[[] ? ? ? ? ?] ? ?].
  unfold file_kvs in *. split; [split; [split|..]|..]; unfold file_kvs; by rewrite <- ?En, <- ?E1, <- ?E2, <- ?E3, <- ?E4.
Qed.

Lemma new_count l files : level_files v' l = Some files -> zlen files <= 2 ^ 30.
Proof.
  intros E. pose proof (level_in v' l files (vi_levels _ _ _ new_inv) E) as Hl. destruct (level_some ver l (vi_levels _ _ _ ver_inv) Hl) as [base Eb].
  pose proof (li_numbers _ _ _ _ (vi_level _ _ _ new_inv l files E)) as Hnd.
  assert (zlen base + (if l =? level + 1 then zlen outputs else 0) <= 2 ^ 30) as Hc.
  { destruct (Z.eqb_spec l (level + 1)) as [->|]; [rewrite files1_eq in Eb; by injection Eb as <-|]. rewrite Z.add_0_r.
    pose proof (vw_count _ _ _ _ ver_wf) as Hv. rewrite List.Forall_forall in Hv. apply Hv. unfold level_files, item in Eb. destruct (l <? 0); [done|].
    apply list_elem_of_In. by apply (list_elem_of_lookup_2 _ (Z.to_nat l)). }
  assert (Nat.le (length (numbers files)) (length (numbers (base ++ if l =? level + 1 then outputs else [])))) as Hlen.
  { apply NoDup_incl_length; [by apply NoDup_ListNoDup|]. intros n (f & <- & Hf)%in_map_iff. apply list_elem_of_In in Hf.
    destruct (new_file l files f E Hf) as (g & Lg & <- & _). apply list_elem_of_In, file_number_in, elem_of_app. destruct Lg as [-> Hg|fs Ef Hg _ _].
    - right. by rewrite Z.eqb_refl.
    - left. rewrite Eb in Ef. by injection Ef as <-. }
  rewrite !length_map, length_app in Hlen. unfold zlen in *. destruct (l =? level + 1); cbn [length] in *; lia.
Qed.

Lemma result_wf : version_wf udom uc ents_of v'.
Proof.
  assert (forall files, In files (ver_files v') -> exists l, level_files v' l = Some files) as Hlev.
  { intros files [i Hi]%list_elem_of_In%list_elem_of_lookup. exists (Z.of_nat i). unfold level_files, item. rewrite (proj2 (Z.ltb_ge _ 0)) by lia. by rewrite Nat2Z.id. }
  split.
  - apply new_inv.
  - apply List.Forall_forall. intros files (l & E)%Hlev. apply List.Forall_forall. intros f Hf%list_elem_of_In.
    destruct (new_file l files f E Hf) as (g & Lg & En & Ei). apply (vfile_keeps f g En Ei). by apply (left_vfile l).
  - apply List.Forall_forall. intros files (l & E)%Hlev. by apply (new_count l).
  - intros l files Hne E. apply (li_disjoint _ _ _ _ (vi_level _ _ _ new_inv l files E)). pose proof (level_in v' l files (vi_levels _ _ _ new_inv) E).
    unfold level_ok in *. lia.
  - intros files E. apply (li_numbers _ _ _ _ (vi_level _ _ _ new_inv 0 files E)).
  - intros files f g E Hf Hg Hlt. destruct (new_file 0 files f E Hf) as (f' & Lf & En & Ei), (new_file 0 files g E Hg) as (g' & Lg & En' & Ei').
    destruct (info_keeps f f' En Ei) as (_ & _ & _ & <-), (info_keeps g g' En' Ei') as (_ & _ & _ & <-).
    destruct Lf as [|fs Ef Hf' _ _]; [lia|]. destruct Lg as [|gs Eg Hg' _ _]; [lia|]. rewrite Ef in Eg. injection Eg as <-.
    apply (vw_zero _ _ _ _ ver_wf fs); [done..|lia].
  - intros i j fs gs f g Hij Ef Eg Hf Hg. destruct (new_file i fs f Ef Hf) as (f' & Lf & En & Ei), (new_file j gs g Eg Hg) as (g' & Lg & En' & Ei').
    destruct (info_keeps f f' En Ei) as (_ & _ & _ & <-), (info_keeps g g' En' Ei') as (_ & _ & _ & <-). by apply (left_newer i j).
Qed.
End Result.

(** ** Properties *)

(** The version that the builder makes of the edit. *)
Lemma compaction_builds udom uc `{!ComparatorLaws udom uc} ents_of options ver level files0 start in0 in1 all largest outputs heap pointers :
  version_wf udom uc ents_of ver -> levels_inv udom uc ver -> 0 <= level -> level + 1 < LDB_NUM_LEVELS ->
  level_files ver level = Some files0 -> start_ok udom uc level files0 start ->
  choose_inputs uc options ver level start = Some (in0, in1, all, largest) ->
  outputs_ok udom uc ents_of (in0 ++ in1) outputs -> (forall f, f ∈ outputs -> f_number f ∉ base_numbers ver (level + 1)) ->
  zlen (default [] (level_files ver (level + 1))) + zlen outputs <= 2 ^ 30 -> zlen pointers = LDB_NUM_LEVELS ->
  let ed := compaction_edit level in0 in1 outputs (ldb_edit_set_compact_pointer ldb_edit_init level largest) in
  exists heap' pointers' b v', builder_apply uc heap pointers (builder_init ver) ed = Some (heap', pointers', b) /\
    (forall vs : versions unit, build_version uc vs b = Some (new_version vs v')) /\ version_wf udom uc ents_of v' /\ levels_inv udom uc v' /\
    (forall f, f ∈ start -> f ∈ in0) /\ forall l n i, level_ok l -> base_map v' l !! n = Some i <->
      (l = level + 1 /\ exists f, f ∈ outputs /\ f_number f = n /\ meta_info (fp_meta f) = i) \/
      (base_map ver l !! n = Some i /\ ~ (l = level /\ n ∈ numbers in0) /\ ~ (l = level + 1 /\ n ∈ numbers in1)).
Proof.
  intros Hv Hinv Hl Hl' E0 Hstart Hchoose Hout Hfresh Hcount Hz ed. set (ed0 := ldb_edit_set_compact_pointer ldb_edit_init level largest) in *.
  assert (ed_deleted_files ed0 = [] /\ ed_new_files ed0 = [] /\ Forall (fun p => level_ok (ike_level p)) (ed_compact_pointers ed0)) as Hplain.
  { split; [done|]. split; [done|]. apply List.Forall_cons; [|apply List.Forall_nil]. unfold level_ok. cbn [ike_level]. lia. }
  destruct (choose_inputs_ok udom uc ver (version_levels udom uc ents_of ver Hv) options level files0 start Hl Hl' E0 Hstart)
    as (files1 & in0' & in1' & all' & largest' & E1 & E & Hci & Hsub). rewrite Hchoose in E. injection E as <- <- <- <-.
  rewrite E1 in Hcount. cbn [default from_option id] in Hcount.
  assert (0 <= level /\ level + 1 < LDB_NUM_LEVELS) as Hlev by done.
  destruct (build_ok udom uc unit ver heap pointers [ed] Hinv Hz) as (heap' & pointers' & b & v' & Eb & _ & Hb & _ & Hinv' & Hmap').
  - apply List.Forall_cons; [by apply (cedit_ok udom uc ents_of level in0 in1 outputs ed0 Hlev Hout Hplain)|apply List.Forall_nil].
  - intros l Hlo. unfold added_by. cbn [map concat]. rewrite app_nil_r. unfold ed. rewrite (cedit_numbers level in0 in1 outputs ed0 Hplain).
    destruct (level_some ver l (vi_levels _ _ _ Hinv) Hlo) as [files Ef].
    pose proof (li_numbers _ _ _ _ (vi_level _ _ _ Hinv l files Ef)) as Hnd. unfold base_numbers in *.
    destruct (Z.eqb_spec (level + 1) l) as [<-|]; [|by rewrite Ef]. apply list.NoDup_app. split; [apply Hout|]. split; [|by rewrite Ef].
    intros n (f & <- & Hf)%list_elem_of_In%in_map_iff. by apply Hfresh, list_elem_of_In.
  - intros l Hpos Hlo. apply (left_disjoint udom uc ents_of ver level files0 files1 in0 in1 all largest outputs ed0); done.
  - exists heap', pointers', b, v'. unfold builder_apply_all in Eb. cbn [fold_opt fst snd] in Eb.
    destruct (builder_apply uc heap pointers (builder_init ver) ed) as [[[h p] b']|]; [|done]. injection Eb as -> -> ->.
    split; [done|]. split; [done|]. split; [|split; [done|split; [done|]]].
    + by apply (result_wf udom uc ents_of ver level files0 files1 in0 in1 all largest outputs ed0).
    + intros l n i Hlo. rewrite Hmap' by done. unfold apply_edits. cbn [fold_left]. unfold ed.
      apply compaction_edit_lookup; [done|done|apply Hout|]. intros -> f Hf.
      by apply (fresh_lookup udom uc ver level outputs Hinv Hlev Hfresh).
Qed.

(** C13: Replacing the inputs of a compaction by its outputs keeps the order of
    versions. From a version in which higher levels and, in level 0, higher file
    numbers hold newer entries, let the inputs be those chosen from a start in
    level [level], with boundary files and after growing, and let the outputs be
    tables in order that hold entries of the inputs only. The builder accepts
    the edit; the version it builds has the outputs in [level + 1], keeps all
    files but the inputs, and is well-formed again: levels above 0 are sorted,
    and no entry is hidden behind a newer one below it. *)
Theorem compaction_keeps_order udom uc `{!ComparatorLaws udom uc} ents_of options ver level files0 start in0 in1 all largest outputs heap pointers :
  version_wf udom uc ents_of ver -> levels_inv udom uc ver -> 0 <= level -> level + 1 < LDB_NUM_LEVELS ->
  level_files ver level = Some files0 -> start_ok udom uc level files0 start ->
  choose_inputs uc options ver level start = Some (in0, in1, all, largest) ->
  outputs_ok udom uc ents_of (in0 ++ in1) outputs -> (forall f, f ∈ outputs -> f_number f ∉ base_numbers ver (level + 1)) ->
  zlen (default [] (level_files ver (level + 1))) + zlen outputs <= 2 ^ 30 -> zlen pointers = LDB_NUM_LEVELS ->
  let ed := compaction_edit level in0 in1 outputs (ldb_edit_set_compact_pointer ldb_edit_init level largest) in
  exists heap' pointers' b v', builder_apply uc heap pointers (builder_init ver) ed = Some (heap', pointers', b) /\
    (forall vs : versions unit, build_version uc vs b = Some (new_version vs v')) /\ version_wf udom uc ents_of v' /\
    (forall f, f ∈ start -> f ∈ in0) /\ forall l n i, level_ok l -> base_map v' l !! n = Some i <->
      (l = level + 1 /\ exists f, f ∈ outputs /\ f_number f = n /\ meta_info (fp_meta f) = i) \/
      (base_map ver l !! n = Some i /\ ~ (l = level /\ n ∈ numbers in0) /\ ~ (l = level + 1 /\ n ∈ numbers in1)).
Proof.
  intros Hv Hinv Hl Hl' E0 Hstart Hchoose Hout Hfresh Hcount Hz.
  destruct (compaction_builds udom uc ents_of options ver level files0 start in0 in1 all largest outputs heap pointers Hv Hinv Hl Hl' E0 Hstart Hchoose Hout Hfresh Hcount Hz)
    as (heap' & pointers' & b & v' & Eb & Hb & Hwf & _ & H). by exists heap', pointers', b, v'.
Qed.

(** Both files of level 0 and the file of level 1 are merged into file 9. *)
Lemma test_version_inv : levels_inv (fun _ => True) bytewise_comparator test_version.
Proof.
  split; [done|]. intros level files E. pose proof (test_version_level level files) as Hl. destruct files as [|f files]; [by repeat constructor|].
  destruct (Hl f E ltac:(by left)) as [(-> & [= -> ->] & _)|(-> & [= -> ->] & _)]; split.
  - repeat (apply List.Forall_cons; [apply (version_file_wf (fun _ => True) bytewise_comparator test_entries), test_version_file; auto|]). apply List.Forall_nil.
  - apply NoDup_ListNoDup; repeat constructor; cbn; intuition (by try lia).
  - check_sorted.
  - done.
  - repeat (apply List.Forall_cons; [apply (version_file_wf (fun _ => True) bytewise_comparator test_entries), test_version_file; auto|]). apply List.Forall_nil.
  - apply NoDup_ListNoDup; repeat constructor; cbn; intuition (by try lia).
  - check_sorted.
  - intros _. check_sorted.
Qed.

Lemma test_start_ok : start_ok (fun _ => True) bytewise_comparator 0 [test_file8; test_file7] [test_file8; test_file7].
Proof.
  split; [done|]. cbn [Z.eqb]. exists (Some [Byte.x61]), (Some [Byte.x63]). split; [done|]. split; [done|]. split; [by vm_compute|].
  intros f Hf _. apply elem_of_cons in Hf as [->|Hf%list_elem_of_singleton]; [|subst f]; by vm_compute.
Qed.

Lemma test_outputs_ok : outputs_ok (fun _ => True) bytewise_comparator test_entries ([test_file8; test_file7] ++ [test_file3]) [test_file9].
Proof.
  split.
  - apply List.Forall_cons; [apply test_version_file; auto|apply List.Forall_nil].
  - intros f ->%list_elem_of_singleton. eexists. split; [left|by vm_compute].
  - intros f e ->%list_elem_of_singleton He. apply list_elem_of_In in He. vm_compute in He. destruct He as [<-|[<-|[<-|[]]]].
    + exists test_file8. split; left.
    + exists test_file3. split; [right; right; left|right; left].
    + exists test_file7. split; [right; left|right; left].
  - check_sorted.
  - apply NoDup_ListNoDup; repeat constructor; cbn; intuition.
Qed.

Definition test_edit : edit :=
  compaction_edit 0 [test_file8; test_file7] [test_file3] [test_file9] (ldb_edit_set_compact_pointer ldb_edit_init 0 (vkey Byte.x63 6)).

Lemma compaction_keeps_order_witness :
  let result :=
    '(_, _, b) ← builder_apply bytewise_comparator (FileHeap 4 ∅) (replicate 7 []) (builder_init test_version) test_edit;
    v ← builder_save_to bytewise_comparator b ldb_version_init; Some (map (fun files => numbers files) (ver_files v)) in
  choose_inputs bytewise_comparator ldb_dbopt_default test_version 0 [test_file8; test_file7] =
    Some ([test_file8; test_file7], [test_file3], (vkey Byte.x61 9, vkey Byte.x63 6), vkey Byte.x63 6) /\
  result = Some [[]; [9]; []; []; []; []; []] /\
  exists heap' pointers' b v', builder_apply bytewise_comparator (FileHeap 4 ∅) (replicate 7 []) (builder_init test_version) test_edit = Some (heap', pointers', b) /\
    (forall vs : versions unit, build_version bytewise_comparator vs b = Some (new_version vs v')) /\
    version_wf (fun _ => True) bytewise_comparator test_entries v' /\
    (forall f, f ∈ [test_file8; test_file7] -> f ∈ [test_file8; test_file7]) /\
    forall l n i, level_ok l -> base_map v' l !! n = Some i <->
      (l = 0 + 1 /\ exists f, f ∈ [test_file9] /\ f_number f = n /\ meta_info (fp_meta f) = i) \/
      (base_map test_version l !! n = Some i /\ ~ (l = 0 /\ n ∈ numbers [test_file8; test_file7]) /\ ~ (l = 0 + 1 /\ n ∈ numbers [test_file3])).
Proof.
  split; [by vm_compute|]. split; [by vm_compute|].
  apply (compaction_keeps_order (fun _ => True) bytewise_comparator test_entries ldb_dbopt_default test_version 0 [test_file8; test_file7]
    [test_file8; test_file7] [test_file8; test_file7] [test_file3] (vkey Byte.x61 9, vkey Byte.x63 6) (vkey Byte.x63 6) [test_file9] (FileHeap 4 ∅) (replicate 7 [])).
  - exact test_version_wf.
  - exact test_version_inv.
  - lia.
  - by vm_compute.
  - by vm_compute.
  - exact test_start_ok.
  - by vm_compute.
  - exact test_outputs_ok.
  - intros f ->%list_elem_of_singleton Hn. apply list_elem_of_In in Hn. vm_compute in Hn. destruct Hn as [Hn|[]]. discriminate.
  - by vm_compute.
  - by vm_compute.
Defined.
