(* ===== verification/CompactionPick.v ===== *)
(** * Picking a compaction

    A set that needs a compaction gets one: it has inputs, they are well chosen,
    its version is held, and the next one in this level starts behind it. A
    manual compaction of a range gets its inputs in the same way. *)

From stdpp Require Import strings sorting gmap.
From Stdlib Require Import SpecFloat.
From S2P Require Import Prelude Coding Status Strutil Comparator DBFormat KeyOrder Options Vector Memtable Iterator BlockBuilder FileList Version VersionGet VersionEdit VersionBuilder Env VersionSet Recovery Snapshot Manifest Compaction CompactionInputs CompactionResult.
#[local] Open Scope Z_scope.

(** ** Scores *)

Section Scores.

(** The level of a score of one or more has files. *)
Definition level_full (levels : list (list fileptr)) (level : Z) (score : spec_float) : Prop :=
  SFleb (double_of 1) score = true -> exists files, item levels level = Some files /\ files <> [].

Lemma empty_score level : 0 <= level < LDB_NUM_LEVELS - 1 -> SFleb (double_of 1) (level_score level []) = false.
Proof.
  intros H. unfold LDB_NUM_LEVELS in H. assert (level = 0 \/ level = 1 \/ level = 2 \/ level = 3 \/ level = 4 \/ level = 5) as Hl by lia.
  destruct Hl as [->|[->|[->|[->|[->| ->]]]]]; by vm_compute.
Qed.

Lemma finalize_full : forall levels all level best score, 0 <= level -> level + zlen levels <= LDB_NUM_LEVELS - 1 -> zdrop level all = levels ->
  level_full all best score ->
  let r := finalize_loop level levels best score in level_full all r.1 r.2.
Proof.
  induction levels as [|files levels IH]; intros all level best score Hl Hn Hd Hf; [done|]. cbn [finalize_loop].
  rewrite zlen_cons in Hn. pose proof (zlen_nonneg levels) as Hz.
  assert (item all level = Some files /\ zdrop (level + 1) all = levels) as [Hi Hd'].
  { unfold item, zdrop in *. rewrite (proj2 (Z.ltb_ge _ _)) by lia. replace (Z.to_nat (level + 1)) with (S (Z.to_nat level)) by lia.
    revert Hd. generalize (Z.to_nat level). clear. induction all as [|x all IH]; intros n Hd; [by rewrite drop_nil in Hd|].
    destruct n as [|n]; cbn in *; [by injection Hd as -> ->|by apply IH]. }
  destruct (SFltb score (level_score level files)); apply IH; try lia; try done.
  intros Hs. exists files. split; [done|]. intros ->. rewrite empty_score in Hs; [done|lia].
Qed.

(** The score and the level are those that the last step of an edit computes. *)
Definition scored (ver : ldb_version) : Prop :=
  finalize_loop 0 (take (Z.to_nat (LDB_NUM_LEVELS - 1)) (ver_files ver)) (-1) (double_of (-1)) = (ver_compaction_level ver, ver_compaction_score ver).

Lemma finalize_scored v : scored (ldb_versions_finalize v).
Proof.
  unfold scored. rewrite (proj1 (finalize_files v)). unfold ldb_versions_finalize. destruct (finalize_loop _ _ _ _) as [l s]. done.
Qed.

Lemma scored_full ver : zlen (ver_files ver) = LDB_NUM_LEVELS -> scored ver -> SFleb (double_of 1) (ver_compaction_score ver) = true ->
  exists files, level_files ver (ver_compaction_level ver) = Some files /\ files <> [] /\
    0 <= ver_compaction_level ver /\ ver_compaction_level ver + 1 < LDB_NUM_LEVELS.
Proof.
  intros Hn Hs Hf. unfold LDB_NUM_LEVELS in *. set (levels := take (Z.to_nat (7 - 1)) (ver_files ver)).
  assert (zlen levels = 6) as Hlen by (unfold levels, zlen in *; rewrite length_take; lia).
  pose proof (finalize_full levels levels 0 (-1) (double_of (-1))) as H. cbv zeta in H. unfold scored in Hs. unfold LDB_NUM_LEVELS in *.
  fold levels in Hs. rewrite Hs in H. destruct H as (files & E & Hne); [lia|lia|by apply zdrop_0| |done|].
  { unfold level_full. by vm_compute. }
  cbn [fst] in E. pose proof E as E'. unfold item in E'. destruct (Z.ltb_spec (ver_compaction_level ver) 0) as [|Hl]; [done|].
  unfold levels in E'. apply lookup_take_Some in E' as [E' Hlt]. exists files. split; [|split; [done|lia]].
  unfold level_files, item. by rewrite (proj2 (Z.ltb_ge _ _)) by lia.
Qed.
End Scores.

(** ** The start *)

Section Pick.
Context (udom : bytes -> Prop) (uc : comparator) `{!ComparatorLaws udom uc}.
Local Abbreviation icmp := (ldb_ikc_init uc).
Local Abbreviation ukey := ldb_extract_user_key.
Local Abbreviation fwf := (file_wf udom uc).

(** The files of a level that meet a range can start a compaction. *)
Lemma overlapping_start ver level files begin end_ inputs : Version.levels_ok udom uc ver -> level_files ver level = Some files ->
  end_dom udom (ukey <$> begin) -> end_dom udom (ukey <$> end_) ->
  ldb_version_get_overlapping_inputs uc ver level begin end_ = Some inputs ->
  (if level =? 0 then zero_closed udom uc files inputs else picked uc files inputs) /\
  forall f, f ∈ files -> meets uc (ukey <$> begin) (ukey <$> end_) f = true -> f ∈ inputs.
Proof.
  intros Hv E Db De Ei. destruct (lo_files _ _ _ Hv level files E) as [Hw _].
  destruct (get_overlapping_ok udom uc ver level files begin end_ E Hw Db De) as (inputs' & E' & b & e & Hin & Hx).
  rewrite Ei in E'. injection E' as <-. assert (forall f, f ∈ inputs <-> f ∈ files /\ meets uc b e f = true) as Hmem.
  { intros f. rewrite Hin, !list_elem_of_In. apply filter_In. }
  destruct (Z.eqb_spec level 0) as [->|Hne].
  - destruct Hx as (Hx & Hcl & _). pose proof (extends_dom udom uc _ _ _ _ Hx) as [Db' De']. split; [by exists b, e|].
    intros f Hf Hm. apply Hmem. split; [done|]. apply (meets_mono udom uc (ukey <$> begin) (ukey <$> end_)); try done. by apply (wf_in udom uc files).
  - destruct Hx as [-> ->]. split; [|intros f Hf Hm; by apply Hmem]. rewrite Hin. apply (filter_picked udom uc); [done| |done..].
    by apply (lo_sorted _ _ _ Hv level).
Qed.

Lemma picked_one files f : f ∈ files -> disjoint_sorted uc files -> Forall fwf files -> picked uc files [f].
Proof.
  intros Hf Hs Hw. split.
  - by intros g ->%list_elem_of_singleton.
  - repeat constructor.
  - intros a g h ->%list_elem_of_singleton ->%list_elem_of_singleton Hg H1 H2. apply list_elem_of_singleton.
    pose proof (wf_in udom uc files f Hw Hf). pose proof (wf_in udom uc files g Hw Hg). unfold in_front in *. files_order udom uc [f; g].
Qed.

(** What comes first in inputs can be inputs, too. *)
Lemma picked_prefix files inputs rest : Forall fwf files -> picked uc files (inputs ++ rest) -> picked uc files inputs.
Proof.
  intros Hw [Hsub Hs Hco]. assert (disjoint_sorted uc inputs /\ forall f g, f ∈ inputs -> g ∈ rest -> in_front uc f g) as [Hs' Hlt].
  { clear -Hs. induction inputs as [|f inputs IH]; cbn [app] in Hs; [split; [constructor|intros f g Hf%elem_of_nil; done]|].
    apply StronglySorted_inv in Hs as [Hs Hf]. destruct (IH Hs) as [H1 H2]. rewrite List.Forall_app in Hf. destruct Hf as [Hf1 Hf2]. split; [by constructor|].
    intros a g [->|Ha]%elem_of_cons Hg; [|by apply H2]. rewrite List.Forall_forall in Hf2. by apply Hf2, list_elem_of_In. }
  assert (forall f, f ∈ inputs -> f ∈ files) as Hin by (intros f Hf; apply Hsub, elem_of_app; by left). split; [done|done|].
  intros f g h Hf Hh Hg H1 H2. assert (g ∈ inputs ++ rest) as [|Hr]%elem_of_app; [|done|].
  - apply (Hco f g h); try done; apply elem_of_app; by left.
  - specialize (Hlt h g Hh Hr). pose proof (wf_in udom uc files h Hw (Hin h Hh)). pose proof (wf_in udom uc files g Hw Hg). unfold in_front in *.
    exfalso. files_order udom uc [g; h].
Qed.

Lemma limit_prefix limit : forall inputs total, exists rest, inputs = limit_inputs limit total inputs ++ rest.
Proof.
  induction inputs as [|f inputs IH]; intros total; [by exists []|]. cbn [limit_inputs]. destruct (limit <=? _); [by exists inputs|].
  destruct (IH (u64 (total + f_file_size f))) as [rest E]. exists rest. cbn [app]. by rewrite <- E.
Qed.

Lemma limit_nonempty limit total inputs : inputs <> [] -> limit_inputs limit total inputs <> [].
Proof. destruct inputs; [done|]. cbn. by destruct (limit <=? _). Qed.

(** ** The compaction *)

(** A compaction of [level] that takes [start]: its inputs are well chosen, it
    holds the current version, the pointer of its level is at their end, and it
    has seen no key yet. *)
Record compaction_picked {W} (vs : versions W) (ver : ldb_version) (level : Z) (start : list fileptr) (c : compaction) (vs' : versions W) : Prop := {
  cd_level : cp_level c = level;
  cd_version : cp_input_version c = Some (vs_current vs);
  cd_start f : f ∈ start -> f ∈ cp_inputs0 c;
  cd_inputs : exists files0 files1 all largest vs1,
    level_files ver level = Some files0 /\ level_files ver (level + 1) = Some files1 /\
    compaction_inputs udom uc level files0 files1 (cp_inputs0 c) (cp_inputs1 c) all largest /\
    cp_edit c = ldb_edit_set_compact_pointer ldb_edit_init level largest /\
    (forall files2, level_files ver (level + 2) = Some files2 ->
      cp_grandparents c = List.filter (meets uc (Some (ukey all.1)) (Some (ukey all.2))) files2) /\
    ldb_version_ref vs (vs_current vs) = Some vs1 /\ vs' = set_edited vs1 (vs_heap vs) (<[Z.to_nat level := largest]> (vs_compact_pointer vs));
  cd_fresh : cp_grandparent_index c = 0 /\ cp_seen_key c = false /\ cp_overlapped_bytes c = 0 /\ cp_level_ptrs c = replicate 7 0
}.

Lemma levels_ok_refs ver n : Version.levels_ok udom uc ver -> Version.levels_ok udom uc (with_refs ver n).
Proof. intros [H1 H2 H3]. by split. Qed.

Lemma grandparents_ok ver level all (old : list fileptr) : Version.levels_ok udom uc ver -> 0 <= level ->
  ikey_dom udom all.1 -> ikey_dom udom all.2 ->
  exists gs, (if level + 2 <? LDB_NUM_LEVELS then ldb_version_get_overlapping_inputs uc ver (level + 2) (Some all.1) (Some all.2) else Some old) = Some gs /\
    forall files2, level_files ver (level + 2) = Some files2 -> gs = List.filter (meets uc (Some (ukey all.1)) (Some (ukey all.2))) files2.
Proof.
  intros Hv Hl [D1 U1] [D2 U2]. destruct (Z.ltb_spec (level + 2) LDB_NUM_LEVELS) as [H|H].
  - destruct (level_exists udom uc ver (level + 2) Hv ltac:(lia)) as [files E]. destruct (lo_files _ _ _ Hv _ files E) as [Hw _].
    destruct (get_overlapping_ok udom uc ver (level + 2) files (Some all.1) (Some all.2) E Hw) as (gs & -> & b & e & -> & Hx); [by intros x [= <-]..|].
    rewrite (proj2 (Z.eqb_neq (level + 2) 0)) in Hx by lia. destruct Hx as [-> ->]. eexists. split; [done|]. intros fs Ef. rewrite E in Ef. by injection Ef as <-.
  - exists old. split; [done|]. intros fs Ef. apply item_range in Ef. rewrite (lo_count _ _ _ Hv) in Ef. lia.
Qed.

Lemma ref_current {W} (vs vs' : versions W) v : ldb_version_ref vs v = Some vs' -> vs_current vs' = vs_current vs.
Proof. unfold ldb_version_ref. destruct (vs_objects vs !! v); [|done]. by intros [= <-]. Qed.

Lemma setup_ok {W} (vs : versions W) ver level files0 start : current_version vs = Some ver -> Version.levels_ok udom uc ver ->
  zlen (vs_compact_pointer vs) = LDB_NUM_LEVELS -> 0 <= level -> level + 1 < LDB_NUM_LEVELS -> level_files ver level = Some files0 ->
  start_ok udom uc level files0 start ->
  let c := ldb_compaction_create (vs_options vs) level in
  exists c' vs1 vs', ldb_version_ref vs (vs_current vs) = Some vs1 /\
    ldb_versions_setup_other_inputs uc vs1 (set_inputs c (Some (vs_current vs)) (cp_edit c) start [] []) = Some (c', vs') /\
    compaction_picked vs ver level start c' vs'.
Proof.
  intros Hcur Hv Hz Hl Hl' E0 Hs c. unfold current_version in Hcur. unfold ldb_version_ref. rewrite Hcur, bind_some.
  set (vs1 := set_objects _ _ _ _ _). assert (current_version vs1 = Some (with_refs ver (ver_refs ver + 1))) as Hc1.
  { unfold current_version, vs1. cbn [set_objects vs_objects vs_current]. by rewrite lookup_insert_eq. }
  pose proof (levels_ok_refs ver (ver_refs ver + 1) Hv) as Hv1.
  destruct (choose_inputs_ok udom uc _ Hv1 (vs_options vs) level files0 start Hl Hl' E0 Hs) as (files1 & in0 & in1 & all & largest & E1 & Ec & Hci & Hsub).
  destruct (cf_dom _ _ _ _ (ci_all _ _ _ _ _ _ _ _ _ Hci)) as [D1 D2].
  destruct (grandparents_ok _ level all [] Hv1 Hl D1 D2) as (gs & Eg & Hg).
  enough (exists c' vs', ldb_versions_setup_other_inputs uc vs1 (set_inputs c (Some (vs_current vs)) (cp_edit c) start [] []) = Some (c', vs') /\
    compaction_picked vs ver level start c' vs') as (c' & vs' & H) by (by exists c', vs1, vs').
  unfold ldb_versions_setup_other_inputs. rewrite Hc1, bind_some. cbn [set_inputs cp_level cp_inputs0 cp_grandparents c ldb_compaction_create].
  change (vs_options vs1) with (vs_options vs). rewrite Ec, bind_some, Eg, bind_some.
  change (vs_compact_pointer vs1) with (vs_compact_pointer vs). unfold set_level. destruct (item_some (vs_compact_pointer vs) level) as [p Ep]; [lia|].
  rewrite Ep, !bind_some. eexists _, _. split; [reflexivity|]. split; try done.
  exists files0, files1, all, largest, vs1. split; [done|]. split; [done|]. split; [done|]. split; [done|]. split; [exact Hg|].
  split; [unfold ldb_version_ref; by rewrite Hcur|done].
Qed.

(** ** The next file in turn *)

Definition passed (pointer : bytes) (f : fileptr) : Prop := pointer <> [] /\ ldb_compare icmp (f_largest f) pointer <= 0.

(** The first file that the pointer has not passed; the first of all when it has
    passed them all. *)
Definition next_file (pointer : bytes) (files : list fileptr) (f : fileptr) : Prop :=
  exists before after, files = before ++ f :: after /\
    (Forall (passed pointer) before /\ ~ passed pointer f \/ before = [] /\ Forall (passed pointer) files).

Lemma first_after_ok pointer files :
  match first_after uc pointer files with
  | Some f => exists before after, files = before ++ f :: after /\ Forall (passed pointer) before /\ ~ passed pointer f
  | None => Forall (passed pointer) files
  end.
Proof.
  induction files as [|f files IH]; cbn [first_after]; [by constructor|].
  assert ((zlen pointer =? 0) || (0 <? ldb_compare icmp (f_largest f) pointer) = false <-> passed pointer f) as Hp.
  { unfold passed. rewrite orb_false_iff, Z.eqb_neq, Z.ltb_ge. destruct pointer as [|b pointer]; [by split; intros [? ?]|].
    rewrite zlen_cons. pose proof (zlen_nonneg pointer). split; (intros [? ?]; split; [done || lia|done]). }
  destruct (_ || _).
  - exists [], files. split; [done|]. split; [by constructor|]. intros H%Hp. done.
  - specialize (proj1 Hp eq_refl) as Hf. destruct (first_after uc pointer files) as [g|].
    + destruct IH as (before & after & -> & H1 & H2). exists (f :: before), after. split; [done|]. split; [by constructor|done].
    + by constructor.
Qed.

Lemma compaction_start_score {W} (vs : versions W) ver : Version.levels_ok udom uc ver -> zlen (vs_compact_pointer vs) = LDB_NUM_LEVELS -> scored ver ->
  SFleb (double_of 1) (ver_compaction_score ver) = true ->
  exists level files f pointer, compaction_start uc vs ver = Some (Some (level, f)) /\ level = ver_compaction_level ver /\
    0 <= level /\ level + 1 < LDB_NUM_LEVELS /\ level_files ver level = Some files /\
    item (vs_compact_pointer vs) level = Some pointer /\ next_file pointer files f.
Proof.
  intros Hv Hz Hsc Hs. destruct (scored_full ver (lo_count _ _ _ Hv) Hsc Hs) as (files & E & Hne & H0 & H1).
  destruct (item_some (vs_compact_pointer vs) (ver_compaction_level ver)) as [pointer Ep]; [lia|].
  unfold compaction_start. rewrite Hs. rewrite (proj2 (Z.leb_le _ _)), (proj2 (Z.ltb_lt _ _)) by lia. cbn [andb negb].
  rewrite E, bind_some, Ep, bind_some. pose proof (first_after_ok pointer files) as Hf. destruct (first_after uc pointer files) as [f|].
  - destruct Hf as (before & after & Ef & Hb & Hn). exists (ver_compaction_level ver), files, f, pointer. rewrite bind_some.
    split; [done|]. split; [done|]. split; [done|]. split; [done|]. split; [done|]. split; [done|]. exists before, after. auto.
  - destruct files as [|f files]; [done|]. exists (ver_compaction_level ver), (f :: files), f, pointer.
    change (file_at (f :: files) 0) with (Some f). rewrite bind_some.
    split; [done|]. split; [done|]. split; [done|]. split; [done|]. split; [done|]. split; [done|]. exists [], files. auto.
Qed.

(** The start and what comes with it in level 0. *)
Lemma start_inputs ver level files f : Version.levels_ok udom uc ver -> level_files ver level = Some files -> f ∈ files ->
  exists start, (if level =? 0 then
      range ← ldb_versions_get_range uc [f];
      inputs ← ldb_version_get_overlapping_inputs uc ver 0 (Some range.1) (Some range.2);
      if negb (0 <? zlen inputs) then None else Some inputs
    else Some [f]) = Some start /\ start_ok udom uc level files start /\ f ∈ start.
Proof.
  intros Hv E Hf. destruct (lo_files _ _ _ Hv level files E) as [Hw _]. pose proof (wf_in udom uc files f Hw Hf) as Wf.
  unfold start_ok. destruct (Z.eqb_spec level 0) as [->|Hne].
  - cbn [ldb_versions_get_range fold_left]. rewrite bind_some. cbn [fst snd].
    destruct (fw_smallest _ _ _ Wf) as [D1 U1], (fw_largest _ _ _ Wf) as [D2 U2].
    destruct (get_overlapping_ok udom uc ver 0 files (Some (f_smallest f)) (Some (f_largest f)) E Hw) as (inputs & Ei & _); [by intros x [= <-]..|].
    destruct (overlapping_start ver 0 files (Some (f_smallest f)) (Some (f_largest f)) inputs Hv E) as [Hz Hall]; [by intros x [= <-]..|done|].
    assert (f ∈ inputs) as Hin.
    { apply Hall; [done|]. apply (meets_touches udom uc (f_smallest f, f_largest f)); [done|done|done|]. unfold touches. cbn [fst snd].
      files_order udom uc [f]. }
    rewrite Ei, bind_some. exists inputs. destruct inputs as [|g inputs]; [by apply elem_of_nil in Hin|].
    rewrite (proj2 (Z.ltb_lt _ _)) by (rewrite zlen_cons; pose proof (zlen_nonneg inputs); lia). by split; [|split].
  - exists [f]. split; [done|]. split; [|by left]. split; [done|]. apply picked_one; [done| |done]. by apply (lo_sorted _ _ _ Hv level).
Qed.
End Pick.

(** ** Properties *)

(** C14: A compaction that is due is found. When the current version is scored and
    a file marked by reads lies in a level that is not the last, picking a
    compaction terminates without a failed assertion. If one is needed, it is
    picked: of the level with a score of one or more, from the file whose turn
    it is by the pointer of that level, or else of the marked file; the start is
    among its inputs, which are well chosen, its version is held and the pointer
    moves to the end of the inputs. If none is needed nothing changes. *)
Theorem pick_compaction_finds udom uc `{!ComparatorLaws udom uc} {W} (vs : versions W) ver :
  current_version vs = Some ver -> Version.levels_ok udom uc ver -> zlen (vs_compact_pointer vs) = LDB_NUM_LEVELS -> scored ver ->
  (forall f, ver_file_to_compact ver = Some f -> let level := ver_file_to_compact_level ver in
    0 <= level /\ level + 1 < LDB_NUM_LEVELS /\ exists files, level_files ver level = Some files /\ f ∈ files) ->
  exists due, ldb_versions_needs_compaction vs = Some due /\
    if due then exists c vs' level files f start,
      ldb_versions_pick_compaction uc vs = Some (Some c, vs') /\ compaction_picked udom uc vs ver level start c vs' /\
      level_files ver level = Some files /\ f ∈ files /\ f ∈ start /\
      if SFleb (double_of 1) (ver_compaction_score ver)
      then level = ver_compaction_level ver /\ exists pointer, item (vs_compact_pointer vs) level = Some pointer /\ next_file uc pointer files f
      else level = ver_file_to_compact_level ver /\ ver_file_to_compact ver = Some f
    else ldb_versions_pick_compaction uc vs = Some (None, vs).
Proof.
  intros Hcur Hv Hz Hsc Hmark. unfold ldb_versions_needs_compaction. rewrite Hcur, bind_some. eexists. split; [done|].
  assert (forall level files f, compaction_start uc vs ver = Some (Some (level, f)) -> level_files ver level = Some files -> f ∈ files ->
    0 <= level -> level + 1 < LDB_NUM_LEVELS -> exists c vs' start, ldb_versions_pick_compaction uc vs = Some (Some c, vs') /\
      compaction_picked udom uc vs ver level start c vs' /\ f ∈ start) as Hpick.
  { intros level files f Est E Hf H0 H1. unfold ldb_versions_pick_compaction. rewrite Hcur, bind_some, Est, bind_some.
    destruct (start_inputs udom uc ver level files f Hv E Hf) as (start & Ei & Hs & Hin).
    destruct (setup_ok udom uc vs ver level files start Hcur Hv Hz H0 H1 E Hs) as (c & vs1 & vs' & Er & Ec & Hd).
    rewrite Er, bind_some, Ei, bind_some, (ref_current _ _ _ Er), Ec, bind_some. by exists c, vs', start. }
  destruct (SFleb (double_of 1) (ver_compaction_score ver)) eqn:Es; cbn [orb].
  - destruct (compaction_start_score udom uc vs ver) as (level & files & f & pointer & Est & El & H0 & H1 & E & Ep & Hn); try done.
    assert (f ∈ files) as Hf by (destruct Hn as (before & after & -> & _); apply elem_of_app; right; by left).
    destruct (Hpick level files f Est E Hf H0 H1) as (c & vs' & start & Ec & Hd & Hin).
    exists c, vs', level, files, f, start. split; [done|]. split; [done|]. split; [done|]. split; [done|]. split; [done|]. split; [done|]. by exists pointer.
  - assert (compaction_start uc vs ver = match ver_file_to_compact ver with
      Some f => Some (Some (ver_file_to_compact_level ver, f)) | None => Some None end) as Est by (unfold compaction_start; by rewrite Es).
    destruct (ver_file_to_compact ver) as [f|] eqn:Ef.
    + destruct (Hmark f eq_refl) as (H0 & H1 & files & E & Hf). destruct (Hpick _ files f Est E Hf H0 H1) as (c & vs' & start & Ec & Hd & Hin).
      by exists c, vs', (ver_file_to_compact_level ver), files, f, start.
    + unfold ldb_versions_pick_compaction. by rewrite Hcur, bind_some, Est, bind_some.
Qed.

(** A manual compaction finds inputs exactly when the range meets the level. *)
Lemma compact_range_ok udom uc `{!ComparatorLaws udom uc} {W} (vs : versions W) ver level files begin end_ :
  current_version vs = Some ver -> Version.levels_ok udom uc ver -> zlen (vs_compact_pointer vs) = LDB_NUM_LEVELS ->
  0 <= level -> level + 1 < LDB_NUM_LEVELS -> level_files ver level = Some files ->
  end_dom udom (ldb_extract_user_key <$> begin) -> end_dom udom (ldb_extract_user_key <$> end_) ->
  (ldb_versions_compact_range uc vs level begin end_ = Some (None, vs) /\
    forall f, f ∈ files -> meets uc (ldb_extract_user_key <$> begin) (ldb_extract_user_key <$> end_) f = false) \/
  exists c vs' start, ldb_versions_compact_range uc vs level begin end_ = Some (Some c, vs') /\ compaction_picked udom uc vs ver level start c vs' /\ start <> [].
Proof.
  intros Hcur Hv Hz H0 H1 E Db De. destruct (lo_files _ _ _ Hv level files E) as [Hw _]. unfold ldb_versions_compact_range. rewrite Hcur, bind_some.
  destruct (get_overlapping_ok udom uc ver level files begin end_ E Hw Db De) as (inputs & Ei & _).
  destruct (overlapping_start udom uc ver level files begin end_ inputs Hv E Db De Ei) as [Hs Hall]. rewrite Ei, bind_some.
  destruct inputs as [|g inputs].
  { left. split; [done|]. intros f Hf. apply not_true_is_false. intros Hm. specialize (Hall f Hf Hm). by apply elem_of_nil in Hall. }
  right. rewrite (proj2 (Z.eqb_neq _ _)) by (rewrite zlen_cons; pose proof (zlen_nonneg inputs); lia).
  set (limit := max_file_size_for_level (vs_options vs) level). set (start := if 0 <? level then limit_inputs limit 0 (g :: inputs) else g :: inputs).
  assert (start_ok udom uc level files start) as Hst.
  { split; [unfold start; destruct (0 <? level); [by apply limit_nonempty|done]|]. unfold start. destruct (Z.eqb_spec level 0) as [->|Hne]; [done|].
    rewrite (proj2 (Z.ltb_lt 0 level)) by lia. destruct (limit_prefix limit (g :: inputs) 0) as [rest Er].
    apply (picked_prefix udom uc files _ rest); [done|]. by rewrite <- Er. }
  destruct (setup_ok udom uc vs ver level files start Hcur Hv Hz H0 H1 E Hst) as (c & vs1 & vs' & Er & Ec & Hd).
  exists c, vs', start. split; [|split; [done|apply Hst]]. fold start. by rewrite Er, bind_some, (ref_current _ _ _ Er), Ec, bind_some.
Qed.

(** Level 1 holds more than its share; the pointer has passed the first file. *)
Definition test_full : ldb_version :=
  ldb_versions_finalize (Version 1 [[]; [test_file 1 11 (6 * 2 ^ 20) (vkey Byte.x61 9) (vkey Byte.x62 8); test_file 2 12 (6 * 2 ^ 20) (vkey Byte.x63 5) (vkey Byte.x64 7)];
    [test_file 3 13 100 (vkey Byte.x64 2) (vkey Byte.x65 3)]; []; []; []; []] None (-1) (S754_zero false) (-1)).
Definition test_set : versions unit :=
  Versions [] ldb_dbopt_default 20 2 10 3 0 None None 2%nat {[1%nat := test_full]} [1%nat] 1%nat (FileHeap 4 ∅)
    [[]; vkey Byte.x62 8; []; []; []; []; []].

Lemma test_full_ok : Version.levels_ok (fun _ => True) bytewise_comparator test_full.
Proof.
  assert (forall level files, level_files test_full level = Some files ->
    Forall (file_wf (fun _ => True) bytewise_comparator) files /\ zlen files < 2 ^ 31 /\ disjoint_sorted bytewise_comparator files) as H.
  { intros level files E. unfold level_files, item in E. destruct (level <? 0); [done|]. apply list_elem_of_lookup_2 in E.
    unfold test_full in E. rewrite (proj1 (finalize_files _)) in E. cbn [ver_files] in E. rewrite !elem_of_cons, elem_of_nil in E.
    destruct E as [->|[->|[->|[->|[->|[->|[->|[]]]]]]]]; (split; [|split; [done|check_sorted]]);
      repeat (apply List.Forall_cons; [split; [check_ikey|check_ikey|by vm_compute|by vm_compute]|]); apply List.Forall_nil. }
  split; [done|intros level files E; by destruct (H level files E) as (? & ? & _)|intros level files _ E; by apply (H level files)].
Qed.

Lemma test_full_scored : scored test_full.
Proof. unfold test_full. apply finalize_scored. Qed.

Lemma pick_compaction_finds_witness :
  exists due, ldb_versions_needs_compaction test_set = Some due /\ due = true /\
    (r ← ldb_versions_pick_compaction bytewise_comparator test_set; c ← r.1; Some (cp_level c, numbers (cp_inputs0 c), numbers (cp_inputs1 c), vs_compact_pointer r.2)) =
      Some (1, [12], [13], [[]; vkey Byte.x64 7; []; []; []; []; []]) /\
    if due then exists c vs' level files f start,
      ldb_versions_pick_compaction bytewise_comparator test_set = Some (Some c, vs') /\
      compaction_picked (fun _ => True) bytewise_comparator test_set test_full level start c vs' /\
      level_files test_full level = Some files /\ f ∈ files /\ f ∈ start /\
      if SFleb (double_of 1) (ver_compaction_score test_full)
      then level = ver_compaction_level test_full /\
        exists pointer, item (vs_compact_pointer test_set) level = Some pointer /\ next_file bytewise_comparator pointer files f
      else level = ver_file_to_compact_level test_full /\ ver_file_to_compact test_full = Some f
    else ldb_versions_pick_compaction bytewise_comparator test_set = Some (None, test_set).
Proof.
  destruct (pick_compaction_finds (fun _ => True) bytewise_comparator test_set test_full) as (due & Ed & H);
    [by vm_compute|exact test_full_ok|by vm_compute|exact test_full_scored|intros f Hf; vm_compute in Hf; discriminate|].
  exists due. assert (due = true) as -> by (vm_compute in Ed; by injection Ed as <-).
  split; [exact Ed|]. split; [done|]. split; [by vm_compute|]. exact H.
Defined.
