(* ===== verification/CompactionBase.v ===== *)
(** * Keys at their base level

    A compaction asks for each of its keys, in order, whether a deeper level
    covers it, and keeps a place in each level to go on from. The answers are
    those of a search from the start. *)

From stdpp Require Import strings sorting gmap.
From S2P Require Import Prelude Coding Status Strutil Comparator DBFormat KeyOrder Options Vector Memtable Iterator BlockBuilder FileList Version VersionEdit VersionBuilder Compaction CompactionInputs.
#[local] Open Scope Z_scope.

Section Base.
Context (udom : bytes -> Prop) (uc : comparator) `{!ComparatorLaws udom uc}.
Local Abbreviation icmp := (ldb_ikc_init uc).
Local Abbreviation idom := (ikey_dom udom).
Local Abbreviation ukey := ldb_extract_user_key.
Local Abbreviation fwf := (file_wf udom uc).

Definition covers_key (key : bytes) (f : fileptr) : bool :=
  (ldb_compare uc (ukey (f_smallest f)) key <=? 0) && (ldb_compare uc key (ukey (f_largest f)) <=? 0).

(** A file that lies in front of a user key. *)
Definition file_below (key : bytes) (f : fileptr) : Prop := ldb_compare uc (ukey (f_largest f)) key < 0.

Lemma below_not_covered k f : idom k -> fwf f -> file_below (ukey k) f -> covers_key (ukey k) f = false.
Proof.
  intros Dk Hf H. unfold covers_key, file_below in *. apply andb_false_iff. right. apply Z.leb_gt.
  apply Z.nle_gt. intros H'. files_keys_order udom uc [f] [k].
Qed.

Lemma not_covered files k : (forall f, f ∈ files -> covers_key (ukey k) f = false) -> existsb (covers_key (ukey k)) files = false.
Proof.
  intros H. apply not_true_iff_false. intros (f & Hf & Hc)%existsb_exists. apply list_elem_of_In in Hf. specialize (H f Hf). congruence.
Qed.

(** The loop finds out whether a file covers the key, and passes only files
    below it. *)
Lemma base_level_loop_ok k : idom k -> forall files ptr, Forall fwf files -> disjoint_sorted uc files -> 0 <= ptr ->
  let r := base_level_loop uc (ukey k) files ptr in
  r.1 = existsb (covers_key (ukey k)) files /\ ptr <= r.2 /\ r.2 <= ptr + zlen files /\
  Forall (file_below (ukey k)) (take (Z.to_nat (r.2 - ptr)) files).
Proof.
  intros Dk. induction files as [|f files IH]; intros ptr Hw Hs Hp; cbn [base_level_loop].
  { cbn [fst snd existsb]. rewrite zlen_nil, take_nil. split; [done|]. split; [lia|]. split; [lia|constructor]. }
  apply Forall_cons_iff in Hw as [Hf Hw]. apply StronglySorted_inv in Hs as [Hs Hfs]. rewrite zlen_cons.
  destruct (Z.leb_spec (ldb_compare uc (ukey k) (ukey (f_largest f))) 0) as [H|H].
  - pose proof (zlen_nonneg files). cbn [fst snd]. rewrite Z.sub_diag. cbn [Z.to_nat take]. split; [|split; [lia|split; [lia|constructor]]].
    cbn [existsb]. unfold covers_key at 1. rewrite (proj2 (Z.leb_le (ldb_compare uc (ukey k) (ukey (f_largest f))) 0)) by done. rewrite andb_true_r.
    assert ((0 <=? ldb_compare uc (ukey k) (ukey (f_smallest f))) = (ldb_compare uc (ukey (f_smallest f)) (ukey k) <=? 0)) as ->.
    { apply eq_true_iff_eq. rewrite !Z.leb_le. files_keys_order udom uc [f] [k]. }
    destruct (Z.leb_spec (ldb_compare uc (ukey (f_smallest f)) (ukey k)) 0) as [A|A]; [done|]. cbn [orb]. symmetry.
    apply not_covered. intros g Hg. pose proof (wf_in udom uc files g Hw Hg). rewrite List.Forall_forall in Hfs.
    specialize (Hfs g (proj1 (list_elem_of_In _ _) Hg)). unfold covers_key. apply andb_false_iff. left. apply Z.leb_gt. apply Z.nle_gt. intros B. files_keys_order udom uc [f; g] [k].
  - destruct (IH (ptr + 1) Hw Hs ltac:(lia)) as (H1 & H2 & H3 & H4). destruct (base_level_loop uc (ukey k) files (ptr + 1)) as [r p].
    cbn [fst snd] in *. assert (file_below (ukey k) f) as Hb by (unfold file_below; files_keys_order udom uc [f] [k]).
    split; [|split; [lia|split; [lia|]]].
    + cbn [existsb]. by rewrite (below_not_covered k f).
    + replace (Z.to_nat (p - ptr)) with (S (Z.to_nat (p - (ptr + 1)))) by lia. cbn [take]. by constructor.
Qed.

(** ** The levels *)

Context (ver : ldb_version) (ver_ok : levels_ok udom uc ver).

(** Some file of the levels covers the key: the definition of what is asked. *)
Definition levels_cover (levels : list Z) (key : bytes) : bool :=
  existsb (fun l => existsb (covers_key key) (default [] (level_files ver l))) levels.

(** The place in each level has passed only files below the key. *)
Record places_ok (level : Z) (ptrs : list Z) (k : bytes) : Prop := {
  pl_count : zlen ptrs = LDB_NUM_LEVELS;
  pl_place l files p : level <= l -> level_files ver l = Some files -> item ptrs l = Some p ->
    0 <= p <= zlen files /\ Forall (file_below (ukey k)) (take (Z.to_nat p) files)
}.

Lemma places_mono level ptrs k k' : 0 < level -> idom k -> idom k' -> ldb_compare icmp k k' <= 0 -> places_ok level ptrs k -> places_ok level ptrs k'.
Proof.
  intros Hlev Dk Dk' Hkk [Hn Hp]. split; [done|]. intros l files p Hl E Ep. destruct (Hp l files p Hl E Ep) as [H1 H2]. split; [done|].
  destruct (lo_files _ _ _ ver_ok l files E) as [Hw _]. apply List.Forall_forall. intros f Hf. rewrite List.Forall_forall in H2. specialize (H2 f Hf).
  assert (fwf f) by (apply (wf_in udom uc files); [done|]; apply (subseteq_take (Z.to_nat p)); by apply list_elem_of_In).
  unfold file_below in *. files_keys_order udom uc [f] [k; k'].
Qed.

Lemma zdrop_sub (files : list fileptr) p : Forall fwf files -> disjoint_sorted uc files -> Forall fwf (zdrop p files) /\ disjoint_sorted uc (zdrop p files).
Proof.
  intros Hw Hs. unfold zdrop. rewrite <- (take_drop (Z.to_nat p) files) in Hw, Hs. apply List.Forall_app in Hw as [_ Hw]. split; [done|].
  clear Hw. induction (take (Z.to_nat p) files) as [|f fs IH]; [done|]. apply StronglySorted_inv in Hs as [Hs _]. auto.
Qed.

(** A search that goes on where the last one stopped. *)
Lemma level_step k level l files ptrs : idom k -> 0 < level -> level <= l < LDB_NUM_LEVELS -> level_files ver l = Some files -> places_ok level ptrs k ->
  exists p ptrs', item ptrs l = Some p /\ let r := base_level_loop uc (ukey k) (zdrop p files) p in
    r.1 = existsb (covers_key (ukey k)) files /\ set_level ptrs l r.2 = Some ptrs' /\ places_ok level ptrs' k.
Proof.
  intros Dk Hlev Hl E [Hn Hp]. destruct (item_some ptrs l) as [p Ep]; [lia|]. destruct (Hp l files p ltac:(lia) E Ep) as [H1 H2].
  destruct (lo_files _ _ _ ver_ok l files E) as [Hw _]. pose proof (lo_sorted _ _ _ ver_ok l files ltac:(lia) E) as Hs.
  destruct (zdrop_sub files p Hw Hs) as [Hw' Hs']. destruct (base_level_loop_ok k Dk (zdrop p files) p Hw' Hs' ltac:(lia)) as (R1 & R2 & R3 & R4).
  destruct (base_level_loop uc (ukey k) (zdrop p files) p) as [found p'] eqn:Er. cbn [fst snd] in *.
  destruct (set_level_ok ptrs l p') as (ptrs' & Eset & Hz & Hi); [lia|]. exists p, ptrs'. split; [done|]. rewrite Er. cbn [fst snd].
  assert (files = take (Z.to_nat p) files ++ zdrop p files) as Esplit by (symmetry; apply take_drop).
  assert (zlen files = p + zlen (zdrop p files)) as Hlen by (unfold zdrop, zlen in *; rewrite length_drop; lia).
  split; [|split; [done|split; [lia|]]].
  - rewrite R1. rewrite Esplit at 2. rewrite existsb_app. rewrite (not_covered (take (Z.to_nat p) files)); [done|]. intros f Hf.
    apply below_not_covered; [done| |].
    + apply (wf_in udom uc files); [done|]. by apply (subseteq_take (Z.to_nat p)).
    + rewrite List.Forall_forall in H2. by apply H2, list_elem_of_In.
  - intros l' files' q Hl' E' Eq. rewrite Hi in Eq. destruct (Z.eqb_spec l' l) as [->|Hne]; [|by apply (Hp l')].
    rewrite E in E'. injection E' as <-. injection Eq as <-. split; [lia|].
    replace (Z.to_nat p') with (Z.to_nat p + Z.to_nat (p' - p))%nat by lia. rewrite <- take_take_drop. apply List.Forall_app. by split.
Qed.

Lemma base_levels_ok k level : idom k -> 0 < level -> forall levels ptrs, Forall (fun l => level <= l < LDB_NUM_LEVELS) levels -> places_ok level ptrs k ->
  exists ptrs', base_levels uc ver (ukey k) levels ptrs = Some (negb (levels_cover levels (ukey k)), ptrs') /\ places_ok level ptrs' k.
Proof.
  intros Dk Hlev. induction levels as [|l levels IH]; intros ptrs Hl Hp; [by exists ptrs|]. apply Forall_cons_iff in Hl as [Hl Hls].
  destruct (level_exists udom uc ver l ver_ok ltac:(lia)) as [files E]. destruct (level_step k level l files ptrs Dk Hlev Hl E Hp) as (p & ptrs' & Ep & R & Eset & Hp').
  cbn [base_levels]. rewrite E, bind_some, Ep, bind_some. destruct (base_level_loop uc (ukey k) (zdrop p files) p) as [found p']. cbn [fst snd] in *.
  rewrite Eset, bind_some, R. unfold levels_cover. cbn [existsb]. rewrite E. cbn [default from_option id].
  destruct (existsb (covers_key (ukey k)) files); [by exists ptrs'|]. cbn [orb]. by apply IH.
Qed.
End Base.

(** ** Properties *)

(** The keys of a compaction, one after the other. *)
Fixpoint base_answers (uc : comparator) (ver : ldb_version) (c : compaction) (keys : list bytes) : option (list bool * compaction) :=
  match keys with
  | [] => Some ([], c)
  | key :: keys =>
    '(base, c) ← ldb_compaction_is_base_level_for_key uc ver c key;
    '(bases, c) ← base_answers uc ver c keys;
    Some (base :: bases, c)
  end.

(** All levels below the two that take part. *)
Definition deeper_levels (level : Z) : list Z := seqZ (level + 2) (LDB_NUM_LEVELS - (level + 2)).

Lemma base_answers_ok udom uc `{!ComparatorLaws udom uc} ver (ver_ok : levels_ok udom uc ver) keys : forall c,
  0 <= cp_level c -> Forall (ikey_dom udom) keys -> StronglySorted (fun k k' => ldb_compare (ldb_ikc_init uc) k k' <= 0) keys ->
  (forall k, head keys = Some k -> places_ok uc ver (cp_level c + 2) (cp_level_ptrs c) k) ->
  exists ptrs, base_answers uc ver c (map ldb_extract_user_key keys) =
    Some (map (fun k => negb (levels_cover uc ver (deeper_levels (cp_level c)) (ldb_extract_user_key k))) keys, set_level_ptrs c ptrs).
Proof.
  induction keys as [|k keys IH]; intros c Hl Hd Hs Hp; cbn [base_answers map].
  { exists (cp_level_ptrs c). by destruct c. }
  apply Forall_cons_iff in Hd as [Dk Hd]. apply StronglySorted_inv in Hs as [Hs Hk].
  destruct (base_levels_ok udom uc ver ver_ok k (cp_level c + 2) Dk ltac:(lia) (deeper_levels (cp_level c)) (cp_level_ptrs c)) as (ptrs & E & Hp').
  { apply List.Forall_forall. intros l Hin%list_elem_of_In%elem_of_seqZ. lia. }
  { by apply Hp. }
  unfold ldb_compaction_is_base_level_for_key. fold (deeper_levels (cp_level c)). rewrite E, !bind_some.
  destruct (IH (set_level_ptrs c ptrs)) as (ptrs' & E'); [done..| |].
  - intros k' Ek'. destruct keys as [|k2 keys]; [done|]. injection Ek' as <-. apply Forall_cons_iff in Hk as [Hk _]. apply Forall_cons_iff in Hd as [Dk2 _].
    apply (places_mono udom uc ver ver_ok (cp_level c + 2) ptrs k); [lia|done..].
  - rewrite E', bind_some. by exists ptrs'.
Qed.

(** C15: For keys in order, asking each whether it is at its base level gives what a
    search of all files of the deeper levels gives: the answer is yes exactly
    when no file of these levels covers the user key. The places kept in the
    levels, and the answers before, make no difference; no access is out of
    range, and nothing but the places changes. *)
Theorem base_level_correct udom uc `{!ComparatorLaws udom uc} ver options level keys :
  levels_ok udom uc ver -> 0 <= level -> Forall (ikey_dom udom) keys ->
  StronglySorted (fun k k' => ldb_compare (ldb_ikc_init uc) k k' <= 0) keys ->
  let c := ldb_compaction_create options level in
  exists ptrs, base_answers uc ver c (map ldb_extract_user_key keys) =
    Some (map (fun k => negb (existsb (fun l => existsb (covers_key uc (ldb_extract_user_key k)) (default [] (level_files ver l))) (deeper_levels level))) keys,
          set_level_ptrs c ptrs).
Proof.
  intros Hv Hl Hd Hs c. apply (base_answers_ok udom uc ver Hv keys c Hl Hd Hs). intros k _. split; [done|].
  intros l files p _ _ Ep. cbn [c ldb_compaction_create cp_level_ptrs] in Ep. unfold item in Ep. destruct (l <? 0); [done|].
  apply lookup_replicate_1 in Ep as [-> _]. split; [pose proof (zlen_nonneg files); lia|]. constructor.
Qed.

(** Level 2 covers a to b and d to e, level 3 covers e. *)
Definition test_deep : ldb_version :=
  Version 1 [[]; []; [test_file 1 11 10 (vkey Byte.x61 9) (vkey Byte.x62 8); test_file 2 12 10 (vkey Byte.x64 5) (vkey Byte.x65 7)];
    [test_file 3 13 10 (vkey Byte.x65 3) (vkey Byte.x65 2)]; []; []; []] None (-1) (SpecFloat.S754_zero false) (-1).
Definition test_keys : list bytes := [vkey Byte.x61 20; vkey Byte.x62 20; vkey Byte.x63 20; vkey Byte.x63 19; vkey Byte.x65 20; vkey Byte.x66 20].

Lemma test_deep_ok : levels_ok (fun _ => True) bytewise_comparator test_deep.
Proof.
  assert (forall level files, level_files test_deep level = Some files ->
    Forall (file_wf (fun _ => True) bytewise_comparator) files /\ zlen files < 2 ^ 31 /\ disjoint_sorted bytewise_comparator files) as H.
  { intros level files E. unfold level_files, item in E. destruct (level <? 0); [done|]. apply list_elem_of_lookup_2 in E.
    cbn [test_deep ver_files] in E. rewrite !elem_of_cons, elem_of_nil in E.
    destruct E as [->|[->|[->|[->|[->|[->|[->|[]]]]]]]]; (split; [|split; [done|check_sorted]]);
      repeat (apply List.Forall_cons; [split; [check_ikey|check_ikey|by vm_compute|by vm_compute]|]); apply List.Forall_nil. }
  split; [done|intros level files E; by destruct (H level files E) as (? & ? & _)|intros level files _ E; by apply (H level files)].
Qed.

Lemma base_level_correct_witness :
  let c := ldb_compaction_create ldb_dbopt_default 0 in
  let answers := base_answers bytewise_comparator test_deep c (map ldb_extract_user_key test_keys) in
  answers = Some ([false; false; true; true; false; true], set_level_ptrs c [0; 0; 2; 1; 0; 0; 0]) /\
  exists ptrs, answers =
    Some (map (fun k => negb (existsb (fun l => existsb (covers_key bytewise_comparator (ldb_extract_user_key k)) (default [] (level_files test_deep l)))
                               (deeper_levels 0))) test_keys, set_level_ptrs c ptrs).
Proof.
  intros c answers. split; [by vm_compute|].
  apply (base_level_correct (fun _ => True) bytewise_comparator test_deep ldb_dbopt_default 0 test_keys); [exact test_deep_ok|lia| |].
  - repeat (apply List.Forall_cons; [check_ikey|]). apply List.Forall_nil.
  - repeat (apply SSorted_cons; [|repeat (apply List.Forall_cons; [by vm_compute|]); apply List.Forall_nil]); apply SSorted_nil.
Defined.
