(* ===== verification/LRU.v ===== *)
(** * The LRU cache

    Models [src/engine/src/util/cache.c]: sixteen shards, each a hash table with
    chains, a list of the entries that clients use and a list of the others, the
    least recently used first.  Entries are objects with an address, counted
    references and a deleter.  The mutex of a shard makes its operations atomic. *)

From stdpp Require Import strings gmap list.
From S2P Require Import Prelude Bloom.
#[local] Open Scope Z_scope.

(** ** Data *)

Definition LDB_SHARD_BITS : Z := 4.
Definition LDB_SHARDS : Z := Z.shiftl 1 LDB_SHARD_BITS.

(** [lru_handle_t] without its links, which the lists below stand for. *)
Record lru_handle (V : Type) := LruHandle {
  lh_value : V;
  lh_charge : Z;
  lh_in_cache : bool;
  lh_refs : Z;
  lh_hash : Z;
  lh_key : bytes
}.
Arguments LruHandle {V}.
Arguments lh_value {V}.
Arguments lh_charge {V}.
Arguments lh_in_cache {V}.
Arguments lh_refs {V}.
Arguments lh_hash {V}.
Arguments lh_key {V}.

(** [lru_table_t]: the chains, of addresses. *)
Record lru_table := LruTable { lt_length : Z; lt_elems : Z; lt_list : list (list nat) }.

(** [lru_shard_t], with the entries allocated in it, the next address, and the
    entries that were handed to their deleters. *)
Record lru_shard (V : Type) := LruShard {
  ls_capacity : Z;
  ls_usage : Z;
  ls_list : list nat;
  ls_in_use : list nat;
  ls_table : lru_table;
  ls_heap : gmap nat (lru_handle V);
  ls_next : nat;
  ls_freed : list (bytes * V)
}.
Arguments LruShard {V}.
Arguments ls_capacity {V}.
Arguments ls_usage {V}.
Arguments ls_list {V}.
Arguments ls_in_use {V}.
Arguments ls_table {V}.
Arguments ls_heap {V}.
Arguments ls_next {V}.
Arguments ls_freed {V}.

(** ** The hash table *)

Section Table.
Context {V : Type}.
Implicit Type heap : gmap nat (lru_handle V).

Definition lru_handle_equal (x : lru_handle V) (y : bytes) : bool := bool_decide (lh_key x = y).

(** A chain in front of the entry, the entry, and the chain behind it; [None]: an
    address without an entry. *)
Fixpoint chain_find heap (key : bytes) (hash : Z) (chain : list nat) : option (list nat * option nat * list nat) :=
  match chain with
  | [] => Some ([], None, [])
  | a :: chain =>
    h ← heap !! a;
    if negb (lh_hash h =? hash) || negb (lru_handle_equal h key) then
      '(before, found, after) ← chain_find heap key hash chain;
      Some (a :: before, found, after)
    else Some ([], Some a, chain)
  end.

Definition lru_bucket (length hash : Z) : nat := Z.to_nat (Z.land hash (length - 1)).

(** The bucket, and its parts. *)
Definition lru_table_find heap (tbl : lru_table) (key : bytes) (hash : Z) : option (nat * (list nat * option nat * list nat)) :=
  let i := lru_bucket (lt_length tbl) hash in
  chain ← lt_list tbl !! i;
  r ← chain_find heap key hash chain;
  Some (i, r).

(** [while (new_length < tbl->elems) new_length *= 2]: with 32 bits, 32 turns are
    enough; [None]: it does not end. *)
Fixpoint grow_length (fuel : nat) (elems new_length : Z) : option Z :=
  match fuel with
  | O => None
  | S fuel => if new_length <? elems then grow_length fuel elems (u32 (new_length * 2)) else Some new_length
  end.

(** One entry goes in front of its new chain. *)
Definition rehash heap (new_length : Z) (new_list : list (list nat)) (a : nat) : option (list (list nat)) :=
  h ← heap !! a;
  let i := lru_bucket new_length (lh_hash h) in
  chain ← new_list !! i;
  Some (<[i := a :: chain]> new_list).

Definition lru_table_resize heap (tbl : lru_table) : option lru_table :=
  new_length ← grow_length 32 (lt_elems tbl) 4;
  let all := concat (lt_list tbl) in
  new_list ← fold_opt (rehash heap new_length) all (replicate (Z.to_nat new_length) []);
  if lt_elems tbl =? zlen all then Some (LruTable new_length (lt_elems tbl) new_list) else None.

Definition lru_table_init : option lru_table := lru_table_resize (∅ : gmap nat (lru_handle V)) (LruTable 0 0 []).

Definition lru_table_lookup heap (tbl : lru_table) (key : bytes) (hash : Z) : option (option nat) :=
  '(_, (_, found, _)) ← lru_table_find heap tbl key hash; Some found.

(** The entry it replaces, and the table. *)
Definition lru_table_insert heap (tbl : lru_table) (a : nat) : option (option nat * lru_table) :=
  h ← heap !! a;
  '(i, (before, old, after)) ← lru_table_find heap tbl (lh_key h) (lh_hash h);
  let list := <[i := before ++ a :: after]> (lt_list tbl) in
  match old with
  | Some _ => Some (old, LruTable (lt_length tbl) (lt_elems tbl) list)
  | None =>
    let tbl := LruTable (lt_length tbl) (u32 (lt_elems tbl + 1)) list in
    if lt_length tbl <? lt_elems tbl then tbl ← lru_table_resize heap tbl; Some (old, tbl) else Some (old, tbl)
  end.

Definition lru_table_remove heap (tbl : lru_table) (key : bytes) (hash : Z) : option (option nat * lru_table) :=
  '(i, (before, result, after)) ← lru_table_find heap tbl key hash;
  match result with
  | Some _ => Some (result, LruTable (lt_length tbl) (u32 (lt_elems tbl - 1)) (<[i := before ++ after]> (lt_list tbl)))
  | None => Some (None, tbl)
  end.
End Table.

(** ** Shards *)

Section Shard.
Context {V : Type}.
Implicit Type s : lru_shard V.
Implicit Type h : lru_handle V.

Definition set_refs h (refs : Z) : lru_handle V := LruHandle (lh_value h) (lh_charge h) (lh_in_cache h) refs (lh_hash h) (lh_key h).
Definition set_in_cache h (b : bool) : lru_handle V := LruHandle (lh_value h) (lh_charge h) b (lh_refs h) (lh_hash h) (lh_key h).
Definition set_lists s (list in_use : list nat) : lru_shard V :=
  LruShard (ls_capacity s) (ls_usage s) list in_use (ls_table s) (ls_heap s) (ls_next s) (ls_freed s).
Definition set_heap s (heap : gmap nat (lru_handle V)) (next : nat) (freed : list (bytes * V)) : lru_shard V :=
  LruShard (ls_capacity s) (ls_usage s) (ls_list s) (ls_in_use s) (ls_table s) heap next freed.
Definition set_table s (usage : Z) (table : lru_table) : lru_shard V :=
  LruShard (ls_capacity s) usage (ls_list s) (ls_in_use s) table (ls_heap s) (ls_next s) (ls_freed s).

(** An entry leaves the list it is on. *)
Definition unlink (a : nat) (list : list nat) : Datatypes.list nat := List.filter (fun b => negb (Nat.eqb b a)) list.
Definition lru_shard_remove s (a : nat) : lru_shard V := set_lists s (unlink a (ls_list s)) (unlink a (ls_in_use s)).

Definition lru_shard_ref s (a : nat) : option (lru_shard V) :=
  h ← ls_heap s !! a;
  let s := if (lh_refs h =? 1) && lh_in_cache h
           then let s := lru_shard_remove s a in set_lists s (ls_list s) (ls_in_use s ++ [a]) else s in
  Some (set_heap s (<[a := set_refs h (u32 (lh_refs h + 1))]> (ls_heap s)) (ls_next s) (ls_freed s)).

Definition lru_shard_unref s (a : nat) : option (lru_shard V) :=
  h ← ls_heap s !! a;
  if negb (0 <? lh_refs h) then None
  else
    let refs := lh_refs h - 1 in
    if refs =? 0 then
      if lh_in_cache h then None
      else Some (set_heap s (delete a (ls_heap s)) (ls_next s) (ls_freed s ++ [(lh_key h, lh_value h)]))
    else
      let s := set_heap s (<[a := set_refs h refs]> (ls_heap s)) (ls_next s) (ls_freed s) in
      if lh_in_cache h && (refs =? 1) then
        let s := lru_shard_remove s a in Some (set_lists s (ls_list s ++ [a]) (ls_in_use s))
      else Some s.

Definition lru_shard_init (capacity : Z) : option (lru_shard V) :=
  table ← @lru_table_init V; Some (LruShard capacity 0 [] [] table ∅ 0 []).

Definition lru_shard_lookup s (key : bytes) (hash : Z) : option (option nat * lru_shard V) :=
  e ← lru_table_lookup (ls_heap s) (ls_table s) key hash;
  match e with
  | Some a => s ← lru_shard_ref s a; Some (Some a, s)
  | None => Some (None, s)
  end.

Definition lru_shard_release s (a : nat) : option (lru_shard V) := lru_shard_unref s a.

Definition lru_shard_finish s (e : option nat) : option (bool * lru_shard V) :=
  match e with
  | Some a =>
    h ← ls_heap s !! a;
    if negb (lh_in_cache h) then None
    else
      let s := lru_shard_remove s a in
      let s := set_heap s (<[a := set_in_cache h false]> (ls_heap s)) (ls_next s) (ls_freed s) in
      let s := set_table s (u64 (ls_usage s - lh_charge h)) (ls_table s) in
      s ← lru_shard_unref s a; Some (true, s)
  | None => Some (false, s)
  end.

(** [lru_table_remove], then [lru_shard_finish]. *)
Definition remove_key s (key : bytes) (hash : Z) : option (lru_shard V) :=
  '(e, table) ← lru_table_remove (ls_heap s) (ls_table s) key hash;
  '(_, s) ← lru_shard_finish (set_table s (ls_usage s) table) e;
  Some s.

Definition lru_shard_erase s (key : bytes) (hash : Z) : option (lru_shard V) := remove_key s key hash.

(** The oldest entries go while [more] says so; more turns than there are
    entries. *)
Fixpoint evict_loop (fuel : nat) (more : lru_shard V -> bool) s : option (lru_shard V) :=
  match fuel with
  | O => None
  | S fuel =>
    match ls_list s with
    | old :: _ =>
      if more s then
        h ← ls_heap s !! old;
        if negb (lh_refs h =? 1) then None
        else s ← remove_key s (lh_key h) (lh_hash h); evict_loop fuel more s
      else Some s
    | [] => Some s
    end
  end.

Definition lru_shard_prune s : option (lru_shard V) := evict_loop (S (length (ls_list s))) (fun _ => true) s.

(** The part of the insertion when there is a capacity. *)
Definition insert_cached s (a : nat) h : option (lru_shard V) :=
  let s := set_heap s (<[a := set_in_cache (set_refs h (lh_refs h + 1)) true]> (ls_heap s)) (ls_next s) (ls_freed s) in
  let s := set_lists s (ls_list s) (ls_in_use s ++ [a]) in
  let s := set_table s (u64 (ls_usage s + lh_charge h)) (ls_table s) in
  '(old, table) ← lru_table_insert (ls_heap s) (ls_table s) a;
  '(_, s) ← lru_shard_finish (set_table s (ls_usage s) table) old;
  Some s.

Definition lru_shard_insert s (key : bytes) (hash : Z) (value : V) (charge : Z) : option (nat * lru_shard V) :=
  let a := ls_next s in
  let e := LruHandle value charge false 1 hash key in
  let s := set_heap s (<[a := e]> (ls_heap s)) (S a) (ls_freed s) in
  s ← (if 0 <? ls_capacity s then insert_cached s a e else Some s);
  s ← evict_loop (S (length (ls_list s))) (fun s => ls_capacity s <? ls_usage s) s;
  Some (a, s).

(** The assertions of [lru_shard_clear], and its loop. *)
Definition lru_shard_clear s : option (lru_shard V) :=
  match ls_in_use s with
  | _ :: _ => None
  | [] =>
    fold_opt (fun s a =>
      h ← ls_heap s !! a;
      if negb (lh_in_cache h) || negb (lh_refs h =? 1) then None
      else lru_shard_unref (set_heap s (<[a := set_in_cache h false]> (ls_heap s)) (ls_next s) (ls_freed s)) a) (ls_list s) s
  end.
End Shard.

(** ** The cache *)

(** [ldb_lru_t]; a handle is the number of its shard and its address there. *)
Record ldb_lru (V : Type) := Lru { lru_shards : list (lru_shard V); lru_last_id : Z }.
Arguments Lru {V}.
Arguments lru_shards {V}.
Arguments lru_last_id {V}.

Section Cache.
Context {V : Type}.
Implicit Type lru : ldb_lru V.

Definition ldb_lru_hash (s : bytes) : Z := ldb_hash s 0.

Definition ldb_lru_shard (hash : Z) : nat := Z.to_nat (Z.shiftr hash (32 - LDB_SHARD_BITS)).

Definition ldb_lru_create (capacity : Z) : option (ldb_lru V) :=
  let per_shard := u64 (capacity + LDB_SHARDS - 1) / LDB_SHARDS in
  shard ← lru_shard_init per_shard;
  Some (Lru (replicate (Z.to_nat LDB_SHARDS) shard) 0).

Definition ldb_lru_insert lru (key : bytes) (value : V) (charge : Z) : option ((nat * nat) * ldb_lru V) :=
  let hash := ldb_lru_hash key in
  let i := ldb_lru_shard hash in
  shard ← lru_shards lru !! i;
  '(a, shard) ← lru_shard_insert shard key hash value charge;
  Some ((i, a), Lru (<[i := shard]> (lru_shards lru)) (lru_last_id lru)).

Definition ldb_lru_lookup lru (key : bytes) : option (option (nat * nat) * ldb_lru V) :=
  let hash := ldb_lru_hash key in
  let i := ldb_lru_shard hash in
  shard ← lru_shards lru !! i;
  '(a, shard) ← lru_shard_lookup shard key hash;
  Some (option_map (fun a => (i, a)) a, Lru (<[i := shard]> (lru_shards lru)) (lru_last_id lru)).

Definition ldb_lru_release lru (handle : nat * nat) : option (ldb_lru V) :=
  shard ← lru_shards lru !! handle.1;
  shard ← lru_shard_release shard handle.2;
  Some (Lru (<[handle.1 := shard]> (lru_shards lru)) (lru_last_id lru)).

Definition ldb_lru_erase lru (key : bytes) : option (ldb_lru V) :=
  let hash := ldb_lru_hash key in
  let i := ldb_lru_shard hash in
  shard ← lru_shards lru !! i;
  shard ← lru_shard_erase shard key hash;
  Some (Lru (<[i := shard]> (lru_shards lru)) (lru_last_id lru)).

Definition ldb_lru_value lru (handle : nat * nat) : option V :=
  shard ← lru_shards lru !! handle.1; h ← ls_heap shard !! handle.2; Some (lh_value h).

Definition ldb_lru_id lru : Z * ldb_lru V := let id := u64 (lru_last_id lru + 1) in (id, Lru (lru_shards lru) id).

Definition ldb_lru_prune lru : option (ldb_lru V) :=
  shards ← mapM lru_shard_prune (lru_shards lru); Some (Lru shards (lru_last_id lru)).

Definition ldb_lru_usage lru : Z := fold_left (fun total shard => u64 (total + ls_usage shard)) (lru_shards lru) 0.

Definition ldb_lru_destroy lru : option (list (lru_shard V)) := mapM lru_shard_clear (lru_shards lru).
End Cache.
