(* ===== verification/LRUCorrect.v ===== *)
(** * The LRU cache keeps its promises

    The invariant of a shard (LRU.v): references are counted, each entry of the
    cache is in one chain and on one list, and the usage is the sum of the
    charges; every operation keeps it. *)

From stdpp Require Import strings gmap list sorting.
From S2P Require Import Prelude Bloom LRU.
#[local] Open Scope Z_scope.

(** ** Tables *)

Section Table.
Context {V : Type} (H : bytes -> Z).
Implicit Type heap : gmap nat (lru_handle V).

(** Entries keep the hash of their key. *)
Definition hashed heap : Prop := forall a h, heap !! a = Some h -> lh_hash h = H (lh_key h).

Definition has_key heap (key : bytes) (a : nat) : Prop := exists h, heap !! a = Some h /\ lh_key h = key.

(** Chains hold each cached entry once, in its bucket, and no key twice. *)
Record table_ok heap (cached : list nat) (tbl : lru_table) : Prop := {
  to_length : exists k, 2 <= k <= 31 /\ lt_length tbl = 2 ^ k;
  to_list : zlen (lt_list tbl) = lt_length tbl;
  to_elems : lt_elems tbl = zlen cached;
  to_chains : concat (lt_list tbl) ≡ₚ cached;
  to_bucket i chain a : lt_list tbl !! i = Some chain -> a ∈ chain -> exists h, heap !! a = Some h /\ lru_bucket (lt_length tbl) (lh_hash h) = i;
  to_keys a b key : a ∈ cached -> b ∈ cached -> has_key heap key a -> has_key heap key b -> a = b
}.

Lemma chain_find_ok heap key chain : hashed heap -> (forall a, a ∈ chain -> is_Some (heap !! a)) ->
  exists before found after, chain_find heap key (H key) chain = Some (before, found, after) /\
    match found with
    | Some a => chain = before ++ a :: after /\ has_key heap key a
    | None => chain = before /\ after = [] /\ forall a, a ∈ chain -> ~ has_key heap key a
    end.
Proof.
  intros Hh. induction chain as [|a chain IH]; intros Hin; cbn [chain_find].
  { exists [], None, []. split; [done|]. split; [done|]. split; [done|]. intros a Ha%elem_of_nil. done. }
  destruct (Hin a) as [h Eh]; [by left|]. rewrite Eh. cbn [mbind option_bind].
  assert (negb (lh_hash h =? H key) || negb (lru_handle_equal h key) = false <-> lh_key h = key) as Hk.
  { unfold lru_handle_equal. rewrite orb_false_iff, !negb_false_iff, Z.eqb_eq, bool_decide_eq_true, (Hh a h Eh). split; [by intros [_ ?]|]. by intros ->. }
  destruct (_ || _).
  - destruct IH as (before & found & after & E & Hf); [intros b Hb; apply Hin; by right|]. rewrite E. cbn [mbind option_bind].
    exists (a :: before), found, after. split; [done|]. destruct found as [b|].
    + destruct Hf as [-> Hf]. done.
    + destruct Hf as (-> & -> & Hf). split; [done|]. split; [done|]. intros b [->|Hb]%elem_of_cons; [|by apply Hf].
      intros (h' & Eh' & Ek). rewrite Eh in Eh'. injection Eh' as <-. by apply Hk in Ek.
  - specialize (proj1 Hk eq_refl) as Ek. exists [], (Some a), chain. split; [done|]. split; [done|]. by exists h.
Qed.

Lemma bucket_range k hash : 2 <= k <= 31 -> 0 <= hash -> (lru_bucket (2 ^ k) hash < Z.to_nat (2 ^ k))%nat.
Proof.
  intros Hk Hh. unfold lru_bucket. pose proof (Z.pow_pos_nonneg 2 k ltac:(lia) ltac:(lia)).
  replace (2 ^ k - 1) with (Z.ones k) by (rewrite Z.ones_equiv; lia). rewrite Z.land_ones by lia. pose proof (Z.mod_pos_bound hash (2 ^ k)). lia.
Qed.

Context (H_range : forall key, 0 <= H key < 2 ^ 32).

Lemma table_find_ok heap cached tbl key : hashed heap -> table_ok heap cached tbl ->
  exists i before found after, lru_table_find heap tbl key (H key) = Some (i, (before, found, after)) /\ i = lru_bucket (lt_length tbl) (H key) /\
    lt_list tbl !! i = Some (before ++ option_list found ++ after) /\
    match found with
    | Some a => a ∈ cached /\ has_key heap key a
    | None => after = [] /\ forall a, a ∈ cached -> ~ has_key heap key a
    end.
Proof.
  intros Hh Ht. destruct (to_length _ _ _ Ht) as (k & Hk & El). pose proof (H_range key) as Hr. unfold lru_table_find.
  set (i := lru_bucket (lt_length tbl) (H key)). destruct (lt_list tbl !! i) as [chain|] eqn:Ec.
  2: { apply lookup_ge_None in Ec. pose proof (bucket_range k (H key) Hk ltac:(lia)) as Hb. unfold i in Ec. pose proof (to_list _ _ _ Ht) as Hl.
       unfold zlen in Hl. rewrite El in *. lia. }
  cbn [mbind option_bind]. destruct (chain_find_ok heap key chain Hh) as (before & found & after & -> & Hf).
  { intros a Ha. destruct (to_bucket _ _ _ Ht i chain a Ec Ha) as (h & -> & _). by eexists. }
  cbn [mbind option_bind]. exists i, before, found, after. split; [done|]. split; [done|].
  assert (forall a chain', a ∈ chain' -> lt_list tbl !! i = Some chain' -> a ∈ cached) as Hin.
  { intros a chain' Ha E'. rewrite <- (to_chains _ _ _ Ht). apply list_elem_of_In, in_concat. exists chain'. split; [|by apply list_elem_of_In].
    apply list_elem_of_In. by apply list_elem_of_lookup_2 in E'. }
  destruct found as [a|].
  - destruct Hf as [-> Hf]. split; [done|]. split; [|done]. apply (Hin a _ ltac:(apply elem_of_app; right; by left) Ec).
  - destruct Hf as (-> & -> & Hf). split; [by rewrite app_nil_r|]. split; [done|]. intros a Ha (h & Eh & Ek).
    rewrite <- (to_chains _ _ _ Ht) in Ha. apply list_elem_of_In, in_concat in Ha as (chain' & Hc%list_elem_of_In%list_elem_of_lookup & Ha%list_elem_of_In).
    destruct Hc as [j Ej]. destruct (to_bucket _ _ _ Ht j chain' a Ej Ha) as (h' & Eh' & Ej'). rewrite Eh in Eh'. injection Eh' as <-.
    rewrite (Hh a h Eh), Ek in Ej'. fold i in Ej'. rewrite <- Ej', Ec in Ej. injection Ej as <-. apply (Hf a Ha). by exists h.
Qed.

Lemma concat_insert {A} (l : list (list A)) i c : l !! i = Some c -> exists rest, concat l ≡ₚ c ++ rest /\ forall c', concat (<[i := c']> l) ≡ₚ c' ++ rest.
Proof.
  revert i. induction l as [|d l IH]; intros i Hi; [done|]. destruct i as [|i]; cbn in Hi.
  - injection Hi as ->. exists (concat l). done.
  - destruct (IH i Hi) as (rest & E1 & E2). exists (d ++ rest). split; [|intros c'].
    + cbn [concat]. rewrite E1. solve_Permutation.
    + cbn [insert list_insert concat]. rewrite (E2 c'). solve_Permutation.
Qed.

Lemma table_perm heap cached cached' tbl : cached ≡ₚ cached' -> table_ok heap cached tbl -> table_ok heap cached' tbl.
Proof.
  intros Hp [H1 H2 H3 H4 H5 H6]. split; try done.
  - rewrite H3. unfold zlen. by rewrite Hp.
  - by rewrite H4.
  - intros a b key Ha Hb. rewrite <- Hp in Ha, Hb. by apply H6.
Qed.

Lemma table_remove_ok heap cached tbl key : hashed heap -> table_ok heap cached tbl -> zlen cached < 2 ^ 31 ->
  exists r tbl', lru_table_remove heap tbl key (H key) = Some (r, tbl') /\
    match r with
    | Some a => exists rest, cached ≡ₚ a :: rest /\ has_key heap key a /\ table_ok heap rest tbl'
    | None => tbl' = tbl /\ forall a, a ∈ cached -> ~ has_key heap key a
    end.
Proof.
  intros Hh Ht Hz. destruct (table_find_ok heap cached tbl key Hh Ht) as (i & before & found & after & E & Ei & Ec & Hf).
  unfold lru_table_remove. rewrite E, bind_some. destruct found as [a|]; [|destruct Hf as [-> Hf]; by exists None, tbl].
  destruct Hf as [Hin Hk]. cbn [option_list app] in Ec. destruct (concat_insert (lt_list tbl) i _ Ec) as (rest & P1 & P2).
  eexists (Some a), _. split; [reflexivity|]. exists (before ++ after ++ rest).
  assert (cached ≡ₚ a :: before ++ after ++ rest) as Hp by (rewrite <- (to_chains _ _ _ Ht), P1; solve_Permutation).
  split; [done|]. split; [done|]. destruct Ht as [H1 H2 H3 H4 H5 H6]. pose proof (zlen_nonneg (before ++ after ++ rest)).
  assert (zlen cached = 1 + zlen (before ++ after ++ rest)) as Hzc by (unfold zlen; rewrite Hp; cbn [length]; lia).
  split; cbn [lt_length lt_elems lt_list].
  - done.
  - rewrite <- H2. unfold zlen. by rewrite length_insert.
  - rewrite H3, Hzc, u32_small by lia. lia.
  - rewrite P2. solve_Permutation.
  - intros j chain b Hj Hb. destruct (decide (j = i)) as [->|Hne].
    + rewrite list_lookup_insert_eq in Hj by (by apply lookup_lt_Some in Ec). injection Hj as <-. apply (H5 i _ b Ec).
      apply elem_of_app in Hb as [Hb|Hb]; apply elem_of_app; [by left|right; by right].
    + rewrite list_lookup_insert_ne in Hj by done. by apply (H5 j chain).
  - intros b c k Hb Hc. apply H6; rewrite Hp; by right.
Qed.

(** *** Growing *)

Lemma grow_length_ok elems : elems <= 2 ^ 31 -> forall fuel j, 2 <= j <= 31 -> 31 < Z.of_nat fuel + j ->
  exists k, grow_length fuel elems (2 ^ j) = Some (2 ^ k) /\ 2 <= k <= 31.
Proof.
  intros He. induction fuel as [|fuel IH]; intros j Hj Hf; [lia|]. cbn [grow_length]. destruct (Z.ltb_spec (2 ^ j) elems) as [Hlt|]; [|by exists j].
  assert (j < 31) as Hj'.
  { destruct (Z.eq_dec j 31) as [->|]; [lia|lia]. }
  replace (2 ^ j * 2) with (2 ^ (j + 1)) by (rewrite Z.pow_add_r by lia; lia).
  rewrite u32_small; [apply IH; lia|]. split; [by apply Z.pow_nonneg|]. apply Z.pow_lt_mono_r; lia.
Qed.

Definition in_buckets heap (length : Z) (l : list (list nat)) : Prop :=
  forall i chain a, l !! i = Some chain -> a ∈ chain -> exists h, heap !! a = Some h /\ lru_bucket length (lh_hash h) = i.

Lemma rehash_ok heap k : 2 <= k <= 31 -> hashed heap -> forall xs l, (forall a, a ∈ xs -> is_Some (heap !! a)) -> zlen l = 2 ^ k -> in_buckets heap (2 ^ k) l ->
  exists l', fold_opt (rehash heap (2 ^ k)) xs l = Some l' /\ concat l' ≡ₚ xs ++ concat l /\ zlen l' = 2 ^ k /\ in_buckets heap (2 ^ k) l'.
Proof.
  intros Hk Hh. induction xs as [|a xs IH]; intros l Hin Hz Hb; cbn [fold_opt]; [by exists l|].
  destruct (Hin a) as [h Eh]; [by left|]. pose proof (bucket_range k (H (lh_key h)) Hk ltac:(by apply H_range)) as Hr.
  set (i := lru_bucket (2 ^ k) (H (lh_key h))) in *.
  destruct (lookup_lt_is_Some_2 l i) as [chain Ec]; [unfold zlen in Hz; lia|].
  assert (rehash heap (2 ^ k) l a = Some (<[i := a :: chain]> l)) as -> by (unfold rehash; rewrite Eh, bind_some, (Hh a h Eh); fold i; by rewrite Ec).
  rewrite bind_some.
  destruct (concat_insert l i chain Ec) as (rest & P1 & P2).
  destruct (IH (<[i := a :: chain]> l)) as (l' & E & P & Hz' & Hb').
  - intros b Hb'. apply Hin. by right.
  - rewrite <- Hz. unfold zlen. by rewrite length_insert.
  - intros j c b Hj Hbc. destruct (decide (j = i)) as [->|Hne].
    + rewrite list_lookup_insert_eq in Hj by (by apply lookup_lt_Some in Ec). injection Hj as <-.
      apply elem_of_cons in Hbc as [->|Hbc]; [|by apply (Hb i chain)]. exists h. split; [done|]. by rewrite (Hh a h Eh).
    + rewrite list_lookup_insert_ne in Hj by done. by apply (Hb j c).
  - exists l'. split; [done|]. split; [|done]. rewrite P, P2, P1. solve_Permutation.
Qed.

Lemma concat_empties {A} n : concat (replicate n (@nil A)) = [].
Proof. induction n as [|n IH]; [done|exact IH]. Qed.

(** The parts of the table that resizing relies on. *)
Lemma resize_ok heap cached length list : hashed heap -> zlen cached <= 2 ^ 31 -> concat list ≡ₚ cached -> (forall a, a ∈ cached -> is_Some (heap !! a)) ->
  (forall a b key, a ∈ cached -> b ∈ cached -> has_key heap key a -> has_key heap key b -> a = b) ->
  exists tbl, lru_table_resize heap (LruTable length (zlen cached) list) = Some tbl /\ table_ok heap cached tbl.
Proof.
  intros Hh Hz Hp Hin Hkeys. unfold lru_table_resize. cbn [lt_elems lt_list].
  destruct (grow_length_ok (zlen cached) Hz 32 2) as (k & E & Hk); [lia|lia|]. change (2 ^ 2) with 4 in E. rewrite E, bind_some.
  destruct (rehash_ok heap k Hk Hh (concat list) (replicate (Z.to_nat (2 ^ k)) [])) as (l' & -> & P & Hz' & Hb).
  - intros a Ha. apply Hin. by rewrite <- Hp.
  - unfold zlen. rewrite length_replicate. pose proof (Z.pow_pos_nonneg 2 k). lia.
  - intros i chain a Hi Ha. apply lookup_replicate_1 in Hi as [-> _]. by apply elem_of_nil in Ha.
  - rewrite bind_some. replace (zlen (concat list)) with (zlen cached) by (unfold zlen; by rewrite Hp). rewrite Z.eqb_refl. eexists. split; [reflexivity|].
    split; cbn [lt_length lt_elems lt_list]; try done; [by exists k|]. rewrite P, Hp, concat_empties. by rewrite app_nil_r.
Qed.

Lemma table_insert_ok heap cached tbl a h : hashed heap -> table_ok heap cached tbl -> zlen cached < 2 ^ 31 - 1 ->
  heap !! a = Some h -> a ∉ cached -> NoDup cached ->
  exists r tbl', lru_table_insert heap tbl a = Some (r, tbl') /\
    match r with
    | Some b => exists rest, cached ≡ₚ b :: rest /\ has_key heap (lh_key h) b /\ table_ok heap (a :: rest) tbl'
    | None => (forall b, b ∈ cached -> ~ has_key heap (lh_key h) b) /\ table_ok heap (a :: cached) tbl'
    end.
Proof.
  intros Hh Ht Hz Eh Hna Hnd. unfold lru_table_insert. rewrite Eh, bind_some, (Hh a h Eh).
  destruct (table_find_ok heap cached tbl (lh_key h) Hh Ht) as (i & before & found & after & E & Ei & Ec & Hf). rewrite E, bind_some.
  destruct (concat_insert (lt_list tbl) i _ Ec) as (rest & P1 & P2).
  pose proof Ht as [H1 H2 H3 H4 H5 H6].
  assert (forall j chain b, <[i := before ++ a :: after]> (lt_list tbl) !! j = Some chain -> b ∈ chain ->
    exists h, heap !! b = Some h /\ lru_bucket (lt_length tbl) (lh_hash h) = j) as Hbucket.
  { intros j chain b Hj Hb. destruct (decide (j = i)) as [->|Hne].
    - rewrite list_lookup_insert_eq in Hj by (by apply lookup_lt_Some in Ec). injection Hj as <-. rewrite elem_of_app, elem_of_cons in Hb.
      destruct Hb as [Hb|[->|Hb]]; [|exists h; split; [done|]; by rewrite (Hh a h Eh)|]; apply (H5 i _ b Ec); rewrite !elem_of_app; auto.
    - rewrite list_lookup_insert_ne in Hj by done. by apply (H5 j chain). }
  destruct found as [b|]; cbn [option_list app] in *.
  - destruct Hf as [Hin Hk]. assert (cached ≡ₚ b :: before ++ after ++ rest) as Hp by (rewrite <- H4, P1; solve_Permutation).
    eexists (Some b), _. split; [reflexivity|]. exists (before ++ after ++ rest). split; [done|]. split; [done|].
    split; cbn [lt_length lt_elems lt_list]; try done.
    + rewrite <- H2. unfold zlen. by rewrite length_insert.
    + rewrite H3. unfold zlen. by rewrite Hp.
    + rewrite P2. solve_Permutation.
    + assert (forall x key, x ∈ before ++ after ++ rest -> has_key heap key a -> ~ has_key heap key x) as Ho.
      { intros x key Hx (h1 & E1 & <-) Hkx. rewrite Eh in E1. injection E1 as <-.
        assert (x = b) as -> by (apply (H6 x b (lh_key h)); [rewrite Hp; by right|done|done|done]).
        rewrite Hp in Hnd. by apply list.NoDup_cons in Hnd as [? _]. }
      intros x y key [->|Hx]%elem_of_cons [->|Hy]%elem_of_cons Hkx Hky; [done|by destruct (Ho y key)|by destruct (Ho x key)|].
      apply (H6 x y key); [rewrite Hp; by right|rewrite Hp; by right|done|done].
  - destruct Hf as [-> Hf]. rewrite app_nil_r in P1.
    assert (forall x y key, x ∈ a :: cached -> y ∈ a :: cached -> has_key heap key x -> has_key heap key y -> x = y) as Hkeys.
    { assert (forall x key, x ∈ cached -> has_key heap key a -> ~ has_key heap key x) as Ho.
      { intros x key Hx (h1 & E1 & <-) Hkx. rewrite Eh in E1. injection E1 as <-. by apply (Hf x). }
      intros x y key [->|Hx]%elem_of_cons [->|Hy]%elem_of_cons Hkx Hky; [done|by destruct (Ho y key)|by destruct (Ho x key)|by apply (H6 x y key)]. }
    assert (concat (<[i := before ++ [a]]> (lt_list tbl)) ≡ₚ a :: cached) as Hp by (rewrite P2, <- H4, P1; solve_Permutation).
    assert (u32 (lt_elems tbl + 1) = zlen (a :: cached)) as Hel by (rewrite H3, zlen_cons, u32_small by (pose proof (zlen_nonneg cached); lia); lia).
    rewrite Hel. cbn [lt_length lt_elems]. destruct (lt_length tbl <? zlen (a :: cached)) eqn:Elt.
    + destruct (resize_ok heap (a :: cached) (lt_length tbl) _ Hh ltac:(rewrite zlen_cons; lia) Hp) as (tbl' & E' & Ht'); [|done|].
      { intros b [->|Hb]%elem_of_cons; [by eexists|]. rewrite <- H4 in Hb. apply list_elem_of_In, in_concat in Hb as (chain & Hc & Hb%list_elem_of_In).
        apply list_elem_of_In, list_elem_of_lookup in Hc as [j Hj]. destruct (H5 j chain b Hj Hb) as (hb & Ehb & _). by eexists. }
      rewrite E', bind_some. by exists None, tbl'.
    + eexists None, _. split; [reflexivity|]. split; [done|]. split; cbn [lt_length lt_elems lt_list]; try done.
      rewrite <- H2. unfold zlen. by rewrite length_insert.
Qed.
End Table.

(** ** Shards *)

(** Sums of charges. *)
Definition charge_of {V} (heap : gmap nat (lru_handle V)) (a : nat) : Z := from_option lh_charge 0 (heap !! a).
Definition charges {V} (heap : gmap nat (lru_handle V)) (cached : list nat) : Z := foldr (fun a n => charge_of heap a + n) 0 cached.

Lemma charges_perm {V} (heap : gmap nat (lru_handle V)) xs ys : xs ≡ₚ ys -> charges heap xs = charges heap ys.
Proof. unfold charges. induction 1; cbn; lia. Qed.

Lemma charges_ext {V} (heap heap' : gmap nat (lru_handle V)) xs : (forall a, a ∈ xs -> charge_of heap a = charge_of heap' a) -> charges heap xs = charges heap' xs.
Proof.
  intros H. unfold charges. induction xs as [|x xs IH]; [done|]. cbn. rewrite (H x) by (by left). rewrite IH; [done|]. intros a Ha. apply H. by right.
Qed.

Lemma unlink_elem a b l : b ∈ unlink a l <-> b ∈ l /\ b <> a.
Proof. unfold unlink. rewrite !list_elem_of_In, filter_In, negb_true_iff, Nat.eqb_neq. done. Qed.

Lemma unlink_other a l : a ∉ l -> unlink a l = l.
Proof.
  intros H. unfold unlink. induction l as [|x l IH]; [done|]. apply not_elem_of_cons in H as [Hx Hl]. cbn.
  rewrite (proj2 (Nat.eqb_neq x a)) by done. cbn. by rewrite IH.
Qed.

Lemma unlink_perm a l : a ∈ l -> NoDup l -> l ≡ₚ a :: unlink a l.
Proof.
  intros Ha Hnd. apply list_elem_of_split in Ha as (l1 & l2 & ->). apply list.NoDup_app in Hnd as (_ & Hd & [H2 _]%list.NoDup_cons).
  assert (a ∉ l1) as H1 by (intros H; apply (Hd a H); by left).
  assert (unlink a (l1 ++ a :: l2) = l1 ++ l2) as ->.
  { unfold unlink. rewrite List.filter_app. cbn. rewrite Nat.eqb_refl. cbn. fold (unlink a l1) (unlink a l2). by rewrite !unlink_other. }
  solve_Permutation.
Qed.

Lemma unlink_app a l1 l2 : unlink a (l1 ++ l2) = unlink a l1 ++ unlink a l2.
Proof. apply List.filter_app. Qed.

Section Shard.
Context {V : Type} (H : bytes -> Z) (H_range : forall key, 0 <= H key < 2 ^ 32).
Implicit Type s : lru_shard V.

Definition cached s : list nat := ls_list s ++ ls_in_use s.

(** Entries that have been freed, of all that were ever inserted ([log]). *)
Definition gone_at (log : list (bytes * V)) (heap : gmap nat (lru_handle V)) (a : nat) : option (bytes * V) :=
  match heap !! a with None => log !! a | Some _ => None end.
Definition gone (log : list (bytes * V)) (heap : gmap nat (lru_handle V)) (n : nat) : list (bytes * V) := omap (gone_at log heap) (seq 0 n).

(** [ext a]: the handles to [a] that clients hold; [log]: what was inserted. *)
Record shard_with (table : Prop) s (ext : nat -> Z) (log : list (bytes * V)) : Prop := {
  so_hash : hashed H (ls_heap s);
  so_table : table;
  so_nodup : NoDup (cached s);
  so_entry a h : ls_heap s !! a = Some h -> lh_refs h = ext a + Z.b2z (lh_in_cache h) /\ 0 < lh_refs h /\ 0 <= lh_charge h <= 2 ^ 32 /\
    log !! a = Some (lh_key h, lh_value h) /\ (lh_in_cache h = true <-> a ∈ cached s);
  so_alive a : a ∈ cached s -> is_Some (ls_heap s !! a);
  so_ext a : 0 <= ext a /\ (ls_heap s !! a = None -> ext a = 0);
  so_list a : a ∈ ls_list s -> ext a = 0;
  so_in_use a : a ∈ ls_in_use s -> 0 < ext a;
  so_usage : ls_usage s = charges (ls_heap s) (cached s) /\ ls_usage s < 2 ^ 64;
  so_next : length log = ls_next s;
  so_small : Z.of_nat (ls_next s) < 2 ^ 31;
  so_freed : ls_freed s ≡ₚ gone log (ls_heap s) (ls_next s);
  so_empty : ls_capacity s = 0 -> cached s = []
}.
Definition shard_ok s (ext : nat -> Z) (log : list (bytes * V)) : Prop := shard_with (table_ok (ls_heap s) (cached s) (ls_table s)) s ext log.

Lemma cached_small s ext log : shard_ok s ext log -> zlen (cached s) <= Z.of_nat (ls_next s).
Proof.
  intros Hs. unfold zlen. apply Nat2Z.inj_le. rewrite <- (length_seq (ls_next s) 0). apply NoDup_incl_length; [by apply NoDup_ListNoDup, Hs|].
  intros a Ha%list_elem_of_In. apply in_seq. destruct (so_alive _ _ _ _ Hs a Ha) as [h Eh]. destruct (so_entry _ _ _ _ Hs a h Eh) as (_ & _ & _ & El & _).
  apply lookup_lt_Some in El. rewrite (so_next _ _ _ _ Hs) in El. lia.
Qed.

(** *** Changes that leave keys, values and charges alone *)

(** The heap with another count of references, or another flag, in one entry. *)
Definition same_entry (h h' : lru_handle V) : Prop :=
  lh_key h' = lh_key h /\ lh_hash h' = lh_hash h /\ lh_value h' = lh_value h /\ lh_charge h' = lh_charge h.

Lemma hashed_update heap a h h' : hashed H heap -> heap !! a = Some h -> same_entry h h' -> hashed H (<[a := h']> heap).
Proof.
  intros Hh Ea (E1 & E2 & _) b hb [[<- <-]|[Hne Eb]]%lookup_insert_Some; [by rewrite E1, E2, (Hh a h)|by apply (Hh b)].
Qed.

Lemma has_key_update heap a h h' key b : heap !! a = Some h -> same_entry h h' -> has_key (<[a := h']> heap) key b <-> has_key heap key b.
Proof.
  intros Ea (E1 & _). unfold has_key. destruct (decide (b = a)) as [->|Hne].
  - rewrite lookup_insert_eq. split; [intros (x & [= <-] & Ek); exists h|intros (x & Ex & Ek); exists h']; split; congruence.
  - by rewrite lookup_insert_ne by done.
Qed.

Lemma table_update heap a h h' c tbl : heap !! a = Some h -> same_entry h h' -> table_ok heap c tbl -> table_ok (<[a := h']> heap) c tbl.
Proof.
  intros Ea Hsame [H1 H2 H3 H4 H5 H6]. pose proof Hsame as (_ & E2 & _). split; try done.
  - intros i chain b Hi Hb. destruct (H5 i chain b Hi Hb) as (hb & Eb & Ei). destruct (decide (b = a)) as [->|Hne].
    + exists h'. rewrite lookup_insert_eq. split; [done|]. rewrite E2. congruence.
    + exists hb. by rewrite lookup_insert_ne by done.
  - intros x y key Hx Hy Hkx%(has_key_update heap a h) Hky%(has_key_update heap a h); [|done..]. by apply (H6 x y key).
Qed.

Lemma charge_update heap a h h' b : heap !! a = Some h -> same_entry h h' -> charge_of (<[a := h']> heap) b = charge_of heap b.
Proof.
  intros Ea (_ & _ & _ & E4). unfold charge_of. destruct (decide (b = a)) as [->|Hne]; [by rewrite lookup_insert_eq, Ea|by rewrite lookup_insert_ne by done].
Qed.

Lemma gone_update log heap a h h' n : heap !! a = Some h -> gone log (<[a := h']> heap) n = gone log heap n.
Proof.
  intros Ea. unfold gone. induction (seq 0 n) as [|b l IH]; [done|]. cbn. rewrite IH. unfold gone_at.
  destruct (decide (b = a)) as [->|Hne]; [by rewrite lookup_insert_eq, Ea|by rewrite lookup_insert_ne by done].
Qed.

Definition add_ref (ext : nat -> Z) (a : nat) (n : Z) : nat -> Z := fun b => if Nat.eqb b a then ext b + n else ext b.

Lemma add_ref_same ext a n : add_ref ext a n a = ext a + n.
Proof. unfold add_ref. by rewrite Nat.eqb_refl. Qed.
Lemma add_ref_other ext a n b : b <> a -> add_ref ext a n b = ext b.
Proof. intros Hne. unfold add_ref. by rewrite (proj2 (Nat.eqb_neq b a)). Qed.

(** *** References *)

Lemma in_list_refs s ext log a h : shard_ok s ext log -> ls_heap s !! a = Some h ->
  ((lh_refs h =? 1) && lh_in_cache h = true <-> a ∈ ls_list s) /\ (a ∈ ls_in_use s <-> lh_in_cache h = true /\ 0 < ext a).
Proof.
  intros Hs Ea. destruct (so_entry _ _ _ _ Hs a h Ea) as (Er & Hp & _ & _ & Hc). rewrite andb_true_iff, Z.eqb_eq.
  assert (a ∈ ls_list s -> a ∈ cached s) as H1 by (intros Hl; apply elem_of_app; by left).
  assert (a ∈ ls_in_use s -> a ∈ cached s) as H2 by (intros Hl; apply elem_of_app; by right).
  pose proof (so_list _ _ _ _ Hs a) as H3. pose proof (so_in_use _ _ _ _ Hs a) as H4.
  split; split.
  - intros [E1 E2]. rewrite E2 in Er. cbn in Er. apply Hc, elem_of_app in E2 as [|E2]; [done|]. specialize (H4 E2). lia.
  - intros Hl. assert (lh_in_cache h = true) as Ei by (by apply Hc, H1). rewrite Ei in Er. cbn in Er. split; [|done]. rewrite (H3 Hl) in Er. lia.
  - intros Hl. split; [by apply Hc, H2|auto].
  - intros [Ei He]. apply Hc, elem_of_app in Ei as [Hl|]; [|done]. specialize (H3 Hl). lia.
Qed.

Lemma shard_ref_ok s ext log a h : shard_ok s ext log -> ls_heap s !! a = Some h -> ext a < 2 ^ 31 ->
  exists s', lru_shard_ref s a = Some s' /\ shard_ok s' (add_ref ext a 1) log /\ cached s' ≡ₚ cached s /\ ls_next s' = ls_next s.
Proof.
  intros Hs Ea He. destruct (so_entry _ _ _ _ Hs a h Ea) as (Er & Hp & Hch & El & Hc). destruct (in_list_refs s ext log a h Hs Ea) as [Hl Hu].
  pose proof (proj1 (so_ext _ _ _ _ Hs a)) as He0.
  unfold lru_shard_ref. rewrite Ea, bind_some. rewrite u32_small by (destruct (lh_in_cache h); cbn in Er; lia).
  set (h' := set_refs h (lh_refs h + 1)). assert (same_entry h h') as Hsame by done.
  set (s1 := if (lh_refs h =? 1) && lh_in_cache h then _ else s).
  assert (ls_heap s1 = ls_heap s /\ ls_next s1 = ls_next s /\ ls_freed s1 = ls_freed s /\ ls_table s1 = ls_table s /\ ls_usage s1 = ls_usage s /\
    ls_capacity s1 = ls_capacity s) as (E1 & E2 & E3 & E4 & E5 & E6) by (unfold s1; by destruct (_ && _)).
  assert (cached s1 ≡ₚ cached s /\ (forall b, b ∈ ls_list s1 <-> b ∈ ls_list s /\ b <> a) /\
    (forall b, b ∈ ls_in_use s1 <-> b ∈ ls_in_use s \/ (b = a /\ lh_in_cache h = true))) as (P & L1 & L2).
  { unfold s1. destruct ((lh_refs h =? 1) && lh_in_cache h) eqn:Eb.
    - pose proof (proj1 Hl eq_refl) as Hal. apply andb_true_iff in Eb as [_ Ei]. pose proof (so_nodup _ _ _ _ Hs) as Hnd. unfold cached in *.
      apply list.NoDup_app in Hnd as (N1 & N2 & N3). assert (a ∉ ls_in_use s) as Hnu by (by apply N2).
      unfold lru_shard_remove, set_lists. cbn [ls_list ls_in_use]. rewrite (unlink_other a (ls_in_use s)) by done. split; [|split].
      + rewrite (unlink_perm a (ls_list s)) at 2 by done. solve_Permutation.
      + intros b. apply (unlink_elem a b).
      + intros b. rewrite elem_of_app, list_elem_of_singleton. split; [intros [? | ->]; auto|intros [?|[-> _]]; auto].
    - split; [done|]. assert (a ∉ ls_list s) as Hnl by (intros Hx; apply Hl in Hx; done). split.
      + intros b. split; [intros Hb; split; [done|]; by intros ->|by intros [? _]].
      + intros b. split; [auto|]. intros [?|[-> Ei]]; [done|]. apply Hc, elem_of_app in Ei as [?|?]; done. }
  clearbody s1. eexists. split; [reflexivity|]. split; [|split; [exact P|exact E2]]. rewrite E1, E2, E3.
  split; unfold cached; cbn [set_heap ls_heap ls_list ls_in_use ls_table ls_usage ls_next ls_freed ls_capacity]; fold (cached s1); rewrite ?E4, ?E5, ?E6.
  - by apply (hashed_update (ls_heap s) a h h'); [apply Hs|..].
  - apply (table_update (ls_heap s) a h h'); [done|done|]. apply (table_perm _ (cached s)); [by symmetry|apply Hs].
  - rewrite P. apply Hs.
  - intros b hb [[<- <-]|[Hne Eb]]%lookup_insert_Some; rewrite P.
    + cbn [h' set_refs lh_refs lh_in_cache lh_charge lh_key lh_value]. rewrite add_ref_same. split; [lia|]. split; [lia|]. done.
    + rewrite add_ref_other by done. by apply Hs.
  - intros b Hb. rewrite P in Hb. destruct (decide (b = a)) as [->|Hne]; [rewrite lookup_insert_eq; by eexists|]. rewrite lookup_insert_ne by done.
    by apply (so_alive _ _ _ _ Hs).
  - intros b. destruct (decide (b = a)) as [->|Hne]; [rewrite add_ref_same, lookup_insert_eq; split; [lia|done]|].
    rewrite add_ref_other, lookup_insert_ne by done. apply (so_ext _ _ _ _ Hs).
  - intros b Hb%L1. destruct Hb as [Hb Hne]. rewrite add_ref_other by done. by apply (so_list _ _ _ _ Hs).
  - intros b Hb%L2. destruct Hb as [Hb|[-> _]]; [|rewrite add_ref_same; lia]. destruct (decide (b = a)) as [->|Hne]; [rewrite add_ref_same; lia|].
    rewrite add_ref_other by done. by apply (so_in_use _ _ _ _ Hs).
  - rewrite (charges_perm _ _ _ P). destruct (so_usage _ _ _ _ Hs) as [-> ?]. split; [|done]. apply charges_ext. intros b _. symmetry. by apply (charge_update _ a h).
  - apply Hs.
  - apply Hs.
  - rewrite (gone_update log (ls_heap s) a h) by done. apply Hs.
  - intros Ez. apply Permutation_nil. rewrite P. symmetry. by rewrite (so_empty _ _ _ _ Hs Ez).
Qed.

(** *** Letting go *)

Lemma gone_delete log (heap : gmap nat (lru_handle V)) a x n : is_Some (heap !! a) -> log !! a = Some x -> (a < n)%nat -> gone log (delete a heap) n ≡ₚ x :: gone log heap n.
Proof.
  intros [h Ea] El Hn. unfold gone. assert (a ∈ seq 0 n) as Hin by (apply list_elem_of_In, in_seq; lia). pose proof (NoDup_seq 0 n) as Hnd. revert Hin Hnd.
  induction (seq 0 n) as [|b l IH]; intros Hin Hnd; [by apply elem_of_nil in Hin|]. apply list.NoDup_cons in Hnd as [Hb Hnd].
  assert (forall l : list nat, a ∉ l -> omap (gone_at log (delete a heap)) l = omap (gone_at log heap) l) as Hsame.
  { clear. induction l as [|c l IH]; intros Hl; [done|]. apply not_elem_of_cons in Hl as [Hc Hl]. cbn. rewrite IH by done. unfold gone_at. by rewrite lookup_delete_ne by done. }
  apply elem_of_cons in Hin as [<-|Hin]; cbn.
  - rewrite Hsame by done.
    assert (gone_at log (delete a heap) a = Some x /\ gone_at log heap a = None) as [-> ->] by (unfold gone_at; by rewrite lookup_delete_eq, Ea). done.
  - specialize (IH Hin Hnd). assert (gone_at log (delete a heap) b = gone_at log heap b) as -> by (unfold gone_at; by rewrite lookup_delete_ne by (by intros <-)).
    destruct (gone_at log heap b); [|done]. rewrite IH. apply Permutation_swap.
Qed.

Lemma charges_delete (heap : gmap nat (lru_handle V)) a xs : a ∉ xs -> charges (delete a heap) xs = charges heap xs.
Proof. intros Ha. apply charges_ext. intros b Hb. unfold charge_of. rewrite lookup_delete_ne; [done|]. by intros ->. Qed.

Lemma table_delete heap a c tbl : a ∉ c -> table_ok heap c tbl -> table_ok (V:=V) (delete a heap) c tbl.
Proof.
  intros Ha [H1 H2 H3 H4 H5 H6]. split; try done.
  - intros i chain b Hi Hb. destruct (H5 i chain b Hi Hb) as (hb & Eb & Ei). exists hb. split; [|done]. rewrite lookup_delete_ne; [done|]. intros <-.
    apply Ha. rewrite <- H4. apply list_elem_of_In, in_concat. exists chain. split; [|by apply list_elem_of_In]. apply list_elem_of_In. by apply list_elem_of_lookup_2 in Hi.
  - intros x y key Hx Hy (h1 & E1 & K1) (h2 & E2 & K2). apply lookup_delete_Some in E1 as [_ E1], E2 as [_ E2]. apply (H6 x y key); [done|done|by exists h1|by exists h2].
Qed.

(** An entry that is not in the cache loses a reference. *)
Lemma unref_outside s ext log a h : shard_ok s ext log -> ls_heap s !! a = Some h -> lh_in_cache h = false -> 0 < ext a ->
  exists s', lru_shard_unref s a = Some s' /\ shard_ok s' (add_ref ext a (-1)) log /\ cached s' = cached s /\ ls_next s' = ls_next s /\
    ls_list s' = ls_list s /\ ls_in_use s' = ls_in_use s /\ ls_capacity s' = ls_capacity s.
Proof.
  intros Hs Ea Ei He. destruct (so_entry _ _ _ _ Hs a h Ea) as (Er & Hp & Hch & El & Hc). rewrite Ei in Er, Hc. cbn in Er.
  assert (a ∉ cached s) as Hna by (intros Hx; by apply Hc in Hx). pose proof (lookup_lt_Some _ _ _ El) as Hlt. rewrite (so_next _ _ _ _ Hs) in Hlt.
  unfold lru_shard_unref. rewrite Ea, bind_some, (proj2 (Z.ltb_lt 0 _)) by lia. cbn [negb]. rewrite Ei. cbn [andb].
  destruct (Z.eqb_spec (lh_refs h - 1) 0) as [E0|E0].
  - eexists. split; [reflexivity|]. split; [|done]. pose proof Hs as []. split; unfold cached; cbn [set_heap ls_heap ls_list ls_in_use ls_table ls_usage ls_next ls_freed ls_capacity]; fold (cached s); try done.
    + intros b hb [_ Eb]%lookup_delete_Some. by apply (so_hash _ _ _ _ Hs b).
    + by apply table_delete.
    + intros b hb [Hne Eb]%lookup_delete_Some. rewrite add_ref_other by done. by apply Hs.
    + intros b Hb. rewrite lookup_delete_ne by (by intros <-). auto.
    + intros b. destruct (decide (b = a)) as [->|Hne]; [rewrite add_ref_same; split; [lia|intros _; lia]|].
      rewrite add_ref_other, lookup_delete_ne by done. auto.
    + intros b Hb. rewrite add_ref_other; [auto|]. intros ->. apply Hna, elem_of_app. by left.
    + intros b Hb. rewrite add_ref_other; [auto|]. intros ->. apply Hna, elem_of_app. by right.
    + by rewrite charges_delete.
    + rewrite (gone_delete log _ a (lh_key h, lh_value h)); [|by eexists|done|done]. rewrite <- Permutation_cons_append. by constructor.
  - eexists. split; [reflexivity|]. split; [|done]. set (h' := set_refs h (lh_refs h - 1)). assert (same_entry h h') as Hsame by done.
    pose proof Hs as []. split; unfold cached; cbn [set_heap ls_heap ls_list ls_in_use ls_table ls_usage ls_next ls_freed ls_capacity]; fold (cached s); try done.
    + by apply (hashed_update (ls_heap s) a h h').
    + by apply (table_update (ls_heap s) a h h').
    + intros b hb [[<- <-]|[Hne Eb]]%lookup_insert_Some.
      * rewrite add_ref_same. cbn [h' set_refs lh_refs lh_in_cache lh_charge lh_key lh_value]. rewrite Ei. cbn. split; [lia|]. split; [lia|]. by rewrite <- Ei in *.
      * rewrite add_ref_other by done. auto.
    + intros b Hb. rewrite lookup_insert_ne by (by intros <-). auto.
    + intros b. destruct (decide (b = a)) as [->|Hne]; [rewrite add_ref_same, lookup_insert_eq; split; [lia|done]|].
      rewrite add_ref_other, lookup_insert_ne by done. auto.
    + intros b Hb. rewrite add_ref_other; [auto|]. intros ->. apply Hna, elem_of_app. by left.
    + intros b Hb. rewrite add_ref_other; [auto|]. intros ->. apply Hna, elem_of_app. by right.
    + destruct so_usage0 as [-> ?]. split; [|done]. apply charges_ext. intros b _. symmetry. by apply (charge_update _ a h).
    + by rewrite (gone_update log (ls_heap s) a h).
Qed.

Lemma shard_release_ok s ext log a : shard_ok s ext log -> 0 < ext a ->
  exists s', lru_shard_release s a = Some s' /\ shard_ok s' (add_ref ext a (-1)) log /\ cached s' ≡ₚ cached s /\ ls_next s' = ls_next s.
Proof.
  intros Hs He. destruct (ls_heap s !! a) as [h|] eqn:Ea; [|apply (so_ext _ _ _ _ Hs) in Ea; lia].
  destruct (lh_in_cache h) eqn:Ei.
  2: { destruct (unref_outside s ext log a h Hs Ea Ei He) as (s' & E & Hs' & Ec & En & _). exists s'. by rewrite Ec. }
  destruct (so_entry _ _ _ _ Hs a h Ea) as (Er & Hp & Hch & El & Hc). destruct (in_list_refs s ext log a h Hs Ea) as [_ Hu]. rewrite Ei in Er, Hc. cbn in Er.
  assert (a ∈ ls_in_use s) as Hau by (by apply Hu). unfold lru_shard_release, lru_shard_unref. rewrite Ea, bind_some, (proj2 (Z.ltb_lt 0 _)) by lia. cbn [negb].
  rewrite (proj2 (Z.eqb_neq _ 0)) by lia. rewrite Ei. cbn [andb]. set (h' := set_refs h (lh_refs h - 1)). assert (same_entry h h') as Hsame by done.
  set (s1 := set_heap s _ _ _).
  pose proof (so_nodup _ _ _ _ Hs) as Hnd. unfold cached in Hnd. apply list.NoDup_app in Hnd as (N1 & N2 & N3). assert (a ∉ ls_list s) as Hnl by (intros Hx; by apply (N2 a)).
  set (res := if lh_refs h - 1 =? 1 then _ else Some s1).
  assert (exists s2, res = Some s2 /\ ls_heap s2 = ls_heap s1 /\ ls_next s2 = ls_next s /\ ls_freed s2 = ls_freed s /\ ls_table s2 = ls_table s /\
    ls_usage s2 = ls_usage s /\ ls_capacity s2 = ls_capacity s /\ cached s2 ≡ₚ cached s /\
    (forall b, b ∈ ls_list s2 <-> b ∈ ls_list s \/ (b = a /\ ext a = 1)) /\ (forall b, b ∈ ls_in_use s2 <-> b ∈ ls_in_use s /\ (b = a -> 1 < ext a)))
    as (s2 & -> & E1 & E2 & E3 & E4 & E5 & E6 & P & L1 & L2).
  { unfold res. destruct (Z.eqb_spec (lh_refs h - 1) 1) as [E1|E1]; (eexists; split; [reflexivity|]); do 6 (split; [done|]).
    - unfold cached, s1, lru_shard_remove, set_lists, set_heap. cbn [ls_list ls_in_use]. rewrite (unlink_other a (ls_list s)) by done. split; [|split].
      + rewrite (unlink_perm a (ls_in_use s)) at 2 by done. solve_Permutation.
      + intros b. rewrite elem_of_app, list_elem_of_singleton. split; [intros [?| ->]; [auto|right; split; [done|lia]]|intros [?|[-> _]]; auto].
      + intros b. rewrite unlink_elem. split; [intros [? ?]; split; [done|by intros ->]|]. intros [Hb Hx]. split; [done|]. intros ->. specialize (Hx eq_refl). lia.
    - split; [done|]. split.
      + intros b. split; [auto|]. intros [?|[-> ?]]; [done|lia].
      + intros b. split; [intros Hb; split; [done|]; intros ->; lia|by intros [? _]]. }
  exists s2. split; [done|]. split; [|split; [done|by rewrite E2]]. unfold s1 in E1. cbn [set_heap ls_heap] in E1. clear s1.
  split; rewrite ?E1, ?E2, ?E3, ?E4, ?E5, ?E6.
  - by apply (hashed_update (ls_heap s) a h h'); [apply Hs|..].
  - apply (table_update (ls_heap s) a h h'); [done|done|]. apply (table_perm _ (cached s)); [by symmetry|apply Hs].
  - rewrite P. apply Hs.
  - intros b hb [[<- <-]|[Hne Eb]]%lookup_insert_Some; rewrite P.
    + cbn [h' set_refs lh_refs lh_in_cache lh_charge lh_key lh_value]. rewrite add_ref_same, Ei. cbn. split; [lia|]. split; [lia|]. done.
    + rewrite add_ref_other by done. by apply Hs.
  - intros b Hb. rewrite P in Hb. destruct (decide (b = a)) as [->|Hne]; [rewrite lookup_insert_eq; by eexists|]. rewrite lookup_insert_ne by done.
    by apply (so_alive _ _ _ _ Hs).
  - intros b. destruct (decide (b = a)) as [->|Hne]; [rewrite add_ref_same, lookup_insert_eq; split; [lia|done]|].
    rewrite add_ref_other, lookup_insert_ne by done. apply (so_ext _ _ _ _ Hs).
  - intros b Hb%L1. destruct Hb as [Hb|[-> ?]]; [|rewrite add_ref_same; lia]. rewrite add_ref_other; [by apply (so_list _ _ _ _ Hs)|]. by intros ->.
  - intros b Hb%L2. destruct Hb as [Hb Hx]. destruct (decide (b = a)) as [->|Hne]; [rewrite add_ref_same; specialize (Hx eq_refl); lia|].
    rewrite add_ref_other by done. by apply (so_in_use _ _ _ _ Hs).
  - rewrite (charges_perm _ _ _ P). destruct (so_usage _ _ _ _ Hs) as [-> ?]. split; [|done]. apply charges_ext. intros b _. symmetry. by apply (charge_update _ a h).
  - apply Hs.
  - apply Hs.
  - rewrite (gone_update log (ls_heap s) a h) by done. apply Hs.
  - intros Ez. apply Permutation_nil. rewrite P. symmetry. by rewrite (so_empty _ _ _ _ Hs Ez).
Qed.

(** *** Leaving the cache *)

Lemma shard_ok_ext s ext ext' log : (forall b, ext b = ext' b) -> shard_ok s ext log -> shard_ok s ext' log.
Proof.
  intros E []. split; try done.
  - intros a h Ea. rewrite <- E. auto.
  - intros a. rewrite <- E. auto.
  - intros a Ha. rewrite <- E. auto.
  - intros a Ha. rewrite <- E. auto.
Qed.

(** An entry that the table has given up leaves its list. *)
Lemma shard_finish_ok table s ext log a h rest tbl : shard_with table s ext log -> ls_heap s !! a = Some h -> cached s ≡ₚ a :: rest -> table_ok (ls_heap s) rest tbl ->
  exists s', lru_shard_finish (set_table s (ls_usage s) tbl) (Some a) = Some (true, s') /\ shard_ok s' ext log /\ cached s' ≡ₚ rest /\
    ls_next s' = ls_next s /\ ls_list s' = unlink a (ls_list s) /\ ls_in_use s' = unlink a (ls_in_use s) /\ ls_capacity s' = ls_capacity s.
Proof.
  intros Hs Ea P Ht. destruct (so_entry _ _ _ _ Hs a h Ea) as (Er & Hp & Hch & El & Hc).
  assert (lh_in_cache h = true) as Ei by (apply Hc; rewrite P; by left). rewrite Ei in Er. cbn in Er.
  pose proof (so_nodup _ _ _ _ Hs) as Hnd. rewrite P in Hnd. apply list.NoDup_cons in Hnd as [Hna Hnd].
  unfold lru_shard_finish. cbn [set_table ls_heap]. rewrite Ea, bind_some, Ei. cbn [negb].
  set (h' := set_in_cache h false). assert (same_entry h h') as Hsame by done.
  set (s1 := set_table _ _ _).
  assert (cached s1 ≡ₚ rest) as P1.
  { unfold s1, cached, lru_shard_remove, set_table, set_heap, set_lists. cbn [ls_list ls_in_use]. rewrite <- unlink_app. fold (cached s).
    apply (Permutation_cons_inv (a := a)). rewrite <- unlink_perm; [done|rewrite P; by left|apply Hs]. }
  destruct (so_usage _ _ _ _ Hs) as [Eu Hu].
  assert (charges (ls_heap s) rest = ls_usage s - lh_charge h /\ 0 <= charges (ls_heap s) rest) as [Echg Hpos].
  { rewrite Eu, (charges_perm _ _ _ P). cbn. unfold charge_of at 1. rewrite Ea. cbn. fold (charges (ls_heap s) rest). split; [lia|].
    assert (forall b, b ∈ rest -> 0 <= charge_of (ls_heap s) b) as Hb.
    { intros b Hb. unfold charge_of. destruct (so_alive _ _ _ _ Hs b) as [hb Eb]; [rewrite P; by right|]. rewrite Eb. by apply (so_entry _ _ _ _ Hs b hb Eb). }
    clear -Hb. unfold charges. induction rest as [|b rest IH]; [done|]. cbn. pose proof (Hb b ltac:(by left)).
    assert (0 <= foldr (fun a n => charge_of (ls_heap s) a + n) 0 rest) by (apply IH; intros c Hc; apply Hb; by right). lia. }
  assert (ls_heap s1 = <[a := h']> (ls_heap s) /\ ls_list s1 = unlink a (ls_list s) /\ ls_in_use s1 = unlink a (ls_in_use s) /\ ls_table s1 = tbl /\
    ls_usage s1 = u64 (ls_usage s - lh_charge h) /\ ls_next s1 = ls_next s /\ ls_freed s1 = ls_freed s /\ ls_capacity s1 = ls_capacity s)
    as (F1 & F2 & F3 & F4 & F5 & F6 & F7 & F8) by done. clearbody s1.
  (* the state in front of [lru_shard_unref] has a reference too many *)
  assert (shard_ok s1 (add_ref ext a 1) log) as Hs1.
  { pose proof Hs as []. split; rewrite ?F1, ?F2, ?F3, ?F4, ?F5, ?F6, ?F7, ?F8; try done.
    - by apply (hashed_update (ls_heap s) a h h').
    - apply (table_update (ls_heap s) a h h'); [done|done|]. by apply (table_perm _ rest).
    - by rewrite P1.
    - intros b hb [[<- <-]|[Hne Eb]]%lookup_insert_Some; rewrite P1.
      + rewrite add_ref_same. cbn [h' set_in_cache lh_refs lh_in_cache lh_charge lh_key lh_value]. cbn. split; [lia|]. done.
      + rewrite add_ref_other by done. destruct (so_entry0 b hb Eb) as (X1 & X2 & X3 & X4 & X5). split; [done|]. split; [done|]. split; [done|]. split; [done|].
        rewrite X5, P, elem_of_cons. split; [by intros [?|?]|auto].
    - intros b Hb. rewrite P1 in Hb. rewrite lookup_insert_ne by (by intros <-). apply so_alive0. rewrite P. by right.
    - intros b. destruct (decide (b = a)) as [->|Hne]; [rewrite add_ref_same, lookup_insert_eq; pose proof (proj1 (so_ext0 a)); split; [lia|done]|].
      rewrite add_ref_other, lookup_insert_ne by done. auto.
    - intros b [Hb Hne]%unlink_elem. rewrite add_ref_other by done. auto.
    - intros b [Hb Hne]%unlink_elem. rewrite add_ref_other by done. auto.
    - rewrite (charges_perm _ _ _ P1). rewrite (charges_ext _ (ls_heap s)) by (intros b _; by apply (charge_update _ a h)). rewrite Echg.
      unfold u64. rewrite Z.mod_small by lia. split; [done|lia].
    - by rewrite (gone_update log (ls_heap s) a h).
    - intros Ez. apply Permutation_nil. rewrite P1. specialize (so_empty0 Ez). rewrite so_empty0 in P. by apply Permutation_nil_cons in P. }
  assert (ls_heap s1 !! a = Some h') as Ea1 by (rewrite F1; apply lookup_insert_eq).
  pose proof (proj1 (so_ext _ _ _ _ Hs a)).
  destruct (unref_outside s1 (add_ref ext a 1) log a h' Hs1 Ea1 eq_refl ltac:(rewrite add_ref_same; lia)) as (s' & E & Hs' & Ec & En & E1 & E2 & E3).
  exists s'. rewrite E, bind_some. split; [done|]. split; [|split; [by rewrite Ec|split; [by rewrite En|by rewrite E1, E2, E3, F2, F3, F8]]].
  apply (shard_ok_ext s' (add_ref (add_ref ext a 1) a (-1))); [|done]. intros b. unfold add_ref. destruct (Nat.eqb b a); lia.
Qed.

Lemma key_of s ext log a : shard_ok s ext log -> a ∈ cached s -> exists h v, ls_heap s !! a = Some h /\ log !! a = Some (lh_key h, v) /\ lh_value h = v /\ lh_hash h = H (lh_key h).
Proof.
  intros Hs Ha. destruct (so_alive _ _ _ _ Hs a Ha) as [h Eh]. destruct (so_entry _ _ _ _ Hs a h Eh) as (_ & _ & _ & El & _).
  exists h, (lh_value h). split; [done|]. split; [done|]. split; [done|]. by apply (so_hash _ _ _ _ Hs a).
Qed.

(** Keys of cached entries, by the log. *)
Definition key_at (log : list (bytes * V)) (key : bytes) (a : nat) : Prop := exists v, log !! a = Some (key, v).

Lemma has_key_at s ext log a key : shard_ok s ext log -> a ∈ cached s -> has_key (ls_heap s) key a <-> key_at log key a.
Proof.
  intros Hs Ha. destruct (key_of s ext log a Hs Ha) as (h & v & Eh & El & _). split.
  - intros (h' & Eh' & <-). rewrite Eh in Eh'. injection Eh' as <-. by exists v.
  - intros (v' & El'). rewrite El in El'. injection El' as <- <-. by exists h.
Qed.

Lemma remove_key_ok s ext log key : shard_ok s ext log ->
  exists s', remove_key s key (H key) = Some s' /\ shard_ok s' ext log /\ ls_next s' = ls_next s /\ ls_capacity s' = ls_capacity s /\
    (forall a, a ∈ cached s' <-> a ∈ cached s /\ ~ key_at log key a) /\
    (forall a, a ∈ ls_in_use s' -> a ∈ ls_in_use s) /\
    (forall a, a ∈ cached s -> key_at log key a -> ls_list s' = unlink a (ls_list s)).
Proof.
  intros Hs. pose proof (cached_small s ext log Hs). pose proof (so_small _ _ _ _ Hs).
  destruct (table_remove_ok H H_range (ls_heap s) (cached s) (ls_table s) key (so_hash _ _ _ _ Hs) (so_table _ _ _ _ Hs)) as (r & tbl & E & Hr); [lia|].
  unfold remove_key. rewrite E, bind_some. destruct r as [a|].
  - destruct Hr as (rest & P & Hk & Ht). assert (a ∈ cached s) as Ha by (rewrite P; by left). destruct (so_alive _ _ _ _ Hs a Ha) as [h Eh].
    destruct (shard_finish_ok _ s ext log a h rest tbl Hs Eh P Ht) as (s' & -> & Hs' & P' & En & El & Eu & Ecap). rewrite bind_some. exists s'.
    split; [done|]. split; [done|]. split; [done|]. split; [done|]. pose proof (so_nodup _ _ _ _ Hs) as Hnd. rewrite P in Hnd. apply list.NoDup_cons in Hnd as [Hna _].
    assert (forall b, b ∈ cached s -> key_at log key b -> b = a) as Huniq.
    { intros b Hb Hkb%(has_key_at s ext log b key Hs Hb). by apply (to_keys _ _ _ (so_table _ _ _ _ Hs) b a key). }
    split; [|split; [intros b; rewrite Eu, unlink_elem; tauto|]].
    + intros b. rewrite P', P, elem_of_cons. split.
      * intros Hb. split; [by right|]. intros Hkb. apply Hna. rewrite <- (Huniq b); [done|rewrite P; by right|done].
      * intros [[->|Hb] Hkb]; [|done]. destruct Hkb. by apply (has_key_at s ext log a key Hs Ha).
    + intros b Hb Hkb. by rewrite (Huniq b Hb Hkb).
  - destruct Hr as [-> Hr]. cbn [lru_shard_finish]. rewrite bind_some. exists s. assert (set_table s (ls_usage s) (ls_table s) = s) as -> by (by destruct s).
    split; [done|]. split; [done|]. split; [done|]. split; [done|]. split; [|split; [done|]].
    + intros a. split; [intros Ha; split; [done|]; intros Hk; apply (Hr a Ha); by apply (has_key_at s ext log a key Hs Ha)|by intros [? _]].
    + intros a Ha Hk. destruct (Hr a Ha). by apply (has_key_at s ext log a key Hs Ha).
Qed.

(** Entries leave from the front of the list; those in use stay. *)
Lemma evict_ok (more : lru_shard V -> bool) log : forall fuel s ext, shard_ok s ext log -> (length (ls_list s) < fuel)%nat ->
  exists s', evict_loop fuel more s = Some s' /\ shard_ok s' ext log /\ ls_next s' = ls_next s /\ ls_capacity s' = ls_capacity s /\
    (forall a, a ∈ cached s' -> a ∈ cached s) /\ (forall a, a ∈ ls_in_use s -> a ∈ cached s') /\
    (ls_list s' = [] \/ more s' = false).
Proof.
  induction fuel as [|fuel IH]; intros s ext Hs Hf; [lia|]. cbn [evict_loop]. destruct (ls_list s) as [|old list] eqn:El.
  { exists s. split; [done|]. split; [done|]. split; [done|]. split; [done|]. split; [done|]. split; [|by left]. intros a Ha. apply elem_of_app. by right. }
  destruct (more s) eqn:Em.
  2: { exists s. split; [done|]. split; [done|]. split; [done|]. split; [done|]. split; [done|]. split; [|by right]. intros a Ha. apply elem_of_app. by right. }
  assert (old ∈ ls_list s) as Hold by (rewrite El; by left). assert (old ∈ cached s) as Hoc by (apply elem_of_app; by left).
  destruct (key_of s ext log old Hs Hoc) as (h & v & Eh & Elog & _ & Ehash). rewrite Eh, bind_some.
  destruct (in_list_refs s ext log old h Hs Eh) as [Hl _]. apply Hl, andb_true_iff in Hold as [Er _]. rewrite Er. cbn [negb].
  rewrite Ehash. destruct (remove_key_ok s ext log (lh_key h) Hs) as (s1 & -> & Hs1 & En & Ecap & Hc & Hu & Hlist). rewrite bind_some.
  assert (key_at log (lh_key h) old) as Hk by (by exists v). specialize (Hlist old Hoc Hk). pose proof (so_nodup _ _ _ _ Hs) as Hnd.
  destruct (IH s1 ext Hs1) as (s' & E & Hs' & En' & Ecap' & Hc' & Hu' & Hend).
  { rewrite Hlist, El. cbn. rewrite Nat.eqb_refl. cbn. cbn in Hf. unfold unlink. pose proof (List.filter_length_le (fun b => negb (Nat.eqb b old)) list). lia. }
  exists s'. split; [done|]. split; [done|]. split; [congruence|]. split; [congruence|]. split; [intros a Ha; by apply Hc', Hc in Ha as [? _]|]. split; [|done].
  intros a Ha. assert (a ∈ cached s) as Hac by (apply elem_of_app; by right).
  assert (a <> old) as Hne. { intros ->. unfold cached in Hnd. apply list.NoDup_app in Hnd as (_ & Hd & _). apply (Hd old); [rewrite El; by left|done]. }
  assert (a ∈ cached s1) as H1.
  { apply Hc. split; [done|]. intros Hka. apply Hne. apply (to_keys _ _ _ (so_table _ _ _ _ Hs) a old (lh_key h)); [done|done|..]; by apply (has_key_at s ext log). }
  apply elem_of_app in H1 as [H1|H1]; [|by apply Hu'].
  exfalso. pose proof (so_list _ _ _ _ Hs1 a H1). pose proof (so_in_use _ _ _ _ Hs a Ha). lia.
Qed.

(** *** Lookup and insertion *)

Lemma shard_lookup_ok s ext log key : shard_ok s ext log -> (forall a, ext a < 2 ^ 31) ->
  exists r s', lru_shard_lookup s key (H key) = Some (r, s') /\ ls_next s' = ls_next s /\ cached s' ≡ₚ cached s /\
    match r with
    | Some a => a ∈ cached s /\ key_at log key a /\ shard_ok s' (add_ref ext a 1) log
    | None => s' = s /\ forall a, a ∈ cached s -> ~ key_at log key a
    end.
Proof.
  intros Hs He. destruct (table_find_ok H H_range (ls_heap s) (cached s) (ls_table s) key (so_hash _ _ _ _ Hs) (so_table _ _ _ _ Hs))
    as (i & before & found & after & E & _ & _ & Hf). unfold lru_shard_lookup, lru_table_lookup. rewrite E, !bind_some. destruct found as [a|].
  - destruct Hf as [Ha Hk]. destruct (so_alive _ _ _ _ Hs a Ha) as [h Eh]. destruct (shard_ref_ok s ext log a h Hs Eh (He a)) as (s' & -> & Hs' & P & En).
    rewrite bind_some. exists (Some a), s'. split; [done|]. split; [done|]. split; [done|]. split; [done|]. split; [|done]. by apply (has_key_at s ext log a key Hs Ha).
  - exists None, s. split; [done|]. split; [done|]. split; [done|]. split; [done|]. intros a Ha Hk. destruct Hf as [_ Hf]. apply (Hf a Ha).
    by apply (has_key_at s ext log a key Hs Ha).
Qed.
End Shard.
