(* ===== verification/LRUCache.v ===== *)
(** * Histories of the LRU cache

    Insertion keeps the invariant of LRUCorrect.v, and the whole cache (LRU.v)
    keeps its promises to clients that release only what they hold, whatever
    the order of their calls. *)

From stdpp Require Import strings gmap list sorting.
From S2P Require Import Prelude Bloom LRU LRUCorrect.
#[local] Open Scope Z_scope.

(** ** Insertion *)

Section Insert.
Context {V : Type} (H : bytes -> Z) (H_range : forall key, 0 <= H key < 2 ^ 32).
Implicit Type s : lru_shard V.

Lemma gone_fresh (log : list (bytes * V)) heap e x : heap !! length log = None ->
  gone (log ++ [x]) (<[length log := e]> heap) (S (length log)) = gone log heap (length log).
Proof.
  intros Ea. unfold gone. rewrite seq_S, list.omap_app. cbn. unfold gone_at at 2. rewrite lookup_insert_eq, app_nil_r.
  assert (forall l : list nat, (forall b, b ∈ l -> (b < length log)%nat) -> omap (gone_at (log ++ [x]) (<[length log := e]> heap)) l = omap (gone_at log heap) l :> list (bytes * V)) as Hl.
  { induction l as [|b l IH]; intros Hb; [done|]. cbn. rewrite IH by (intros c Hc; apply Hb; by right). pose proof (Hb b ltac:(by left)).
    assert (gone_at (log ++ [x]) (<[length log := e]> heap) b = gone_at log heap b) as ->; [|done].
    unfold gone_at. rewrite lookup_insert_ne by lia. by rewrite lookup_app_l by lia. }
  apply Hl. intros b Hb%list_elem_of_In%in_seq. lia.
Qed.

Lemma fresh_address s ext log : shard_ok H s ext log -> ls_heap s !! ls_next s = None.
Proof.
  intros Hs. destruct (ls_heap s !! ls_next s) as [h|] eqn:Eh; [|done]. destruct (so_entry _ _ _ _ _ Hs _ _ Eh) as (_ & _ & _ & El & _).
  apply lookup_lt_Some in El. rewrite (so_next _ _ _ _ _ Hs) in El. lia.
Qed.

(** A new entry, which its client holds. *)
Lemma fresh_entry_ok s ext log key value charge : shard_ok H s ext log -> 0 <= charge <= 2 ^ 32 -> Z.of_nat (ls_next s) + 1 < 2 ^ 31 ->
  shard_ok H (set_heap s (<[ls_next s := LruHandle value charge false 1 (H key) key]> (ls_heap s)) (S (ls_next s)) (ls_freed s))
    (add_ref ext (ls_next s) 1) (log ++ [(key, value)]).
Proof.
  intros Hs Hch Hn. pose proof (fresh_address s ext log Hs) as Hf. pose proof (so_next _ _ _ _ _ Hs) as Hlen.
  assert (ls_next s ∉ cached s) as Hnc by (intros Hx; destruct (so_alive _ _ _ _ _ Hs _ Hx); congruence).
  pose proof (proj2 (so_ext _ _ _ _ _ Hs (ls_next s)) Hf) as He0.
  pose proof Hs as []. split; unfold cached; cbn [set_heap ls_heap ls_list ls_in_use ls_table ls_usage ls_next ls_freed ls_capacity]; fold (cached s); try done.
  - intros b hb [[<- <-]|[Hne Eb]]%lookup_insert_Some; [done|by apply (so_hash b)].
  - destruct so_table as [T1 T2 T3 T4 T5 T6]. split; try done.
    + intros i chain b Hi Hb. destruct (T5 i chain b Hi Hb) as (hb & Eb & Ei). exists hb. split; [|done]. rewrite lookup_insert_ne; [done|]. intros <-. congruence.
    + intros x y k Hx Hy (h1 & E1 & K1) (h2 & E2 & K2). rewrite lookup_insert_ne in E1, E2 by (intros <-; done). apply (T6 x y k); [done|done|by exists h1|by exists h2].
  - intros b hb [[<- <-]|[Hne Eb]]%lookup_insert_Some.
    + rewrite add_ref_same. cbn. split; [lia|]. split; [lia|]. split; [done|]. split; [|by split].
      rewrite lookup_app_r by lia. by rewrite Hlen, Nat.sub_diag.
    + rewrite add_ref_other by done. destruct (so_entry b hb Eb) as (X1 & X2 & X3 & X4 & X5). split; [done|]. split; [done|]. split; [done|]. split; [|done].
      by rewrite lookup_app_l by (by apply lookup_lt_Some in X4).
  - intros b Hb. rewrite lookup_insert_ne; [auto|]. by intros <-.
  - intros b. destruct (decide (b = ls_next s)) as [->|Hne]; [rewrite add_ref_same, lookup_insert_eq; split; [lia|done]|].
    rewrite add_ref_other, lookup_insert_ne by done. auto.
  - intros b Hb. rewrite add_ref_other; [auto|]. intros ->. apply Hnc, elem_of_app. by left.
  - intros b Hb. rewrite add_ref_other; [auto|]. intros ->. apply Hnc, elem_of_app. by right.
  - destruct so_usage as [-> ?]. split; [|done]. apply charges_ext. intros b Hb. unfold charge_of. rewrite lookup_insert_ne; [done|]. by intros <-.
  - rewrite length_app. cbn. lia.
  - lia.
  - rewrite <- Hlen in *. by rewrite gone_fresh.
Qed.

Lemma charges_bound (heap : gmap nat (lru_handle V)) m xs : (forall a, a ∈ xs -> charge_of heap a <= m) -> charges heap xs <= zlen xs * m.
Proof.
  intros Hm. unfold charges. induction xs as [|x xs IH]; [done|]. cbn [foldr]. rewrite zlen_cons. pose proof (Hm x ltac:(by left)).
  specialize (IH ltac:(intros a Ha; apply Hm; by right)). lia.
Qed.

Lemma charges_nonneg (heap : gmap nat (lru_handle V)) xs : (forall a, a ∈ xs -> 0 <= charge_of heap a) -> 0 <= charges heap xs.
Proof.
  intros Hm. unfold charges. induction xs as [|x xs IH]; [done|]. cbn [foldr]. pose proof (Hm x ltac:(by left)).
  specialize (IH ltac:(intros a Ha; apply Hm; by right)). lia.
Qed.

(** A new entry joins the cache, and the one it replaces leaves it. *)
Lemma insert_cached_ok s ext log a h : shard_ok H s ext log -> ls_heap s !! a = Some h -> lh_in_cache h = false -> lh_refs h = 1 -> 0 < ls_capacity s -> Z.of_nat (ls_next s) + 1 < 2 ^ 31 ->
  exists s', insert_cached s a h = Some s' /\ shard_ok H s' ext log /\ ls_next s' = ls_next s /\ ls_capacity s' = ls_capacity s /\
    (forall b, b ∈ cached s' <-> b = a \/ (b ∈ cached s /\ ~ key_at log (lh_key h) b)) /\
    (forall b, b ∈ ls_in_use s' -> b = a \/ b ∈ ls_in_use s) /\ a ∈ ls_in_use s'.
Proof.
  intros Hs Ea Ei Er Hcap Hsmall. destruct (so_entry _ _ _ _ _ Hs a h Ea) as (Er' & _ & Hch & El & Hc). rewrite Ei, Er in Er'. cbn in Er'. rewrite Ei in Hc.
  assert (a ∉ cached s) as Hna by (intros Hx; by apply Hc in Hx).
  set (h' := set_in_cache (set_refs h (lh_refs h + 1)) true). assert (same_entry h h') as Hsame by done.
  set (s1 := set_table (set_lists (set_heap s (<[a := h']> (ls_heap s)) (ls_next s) (ls_freed s)) (ls_list s) (ls_in_use s ++ [a]))
    (u64 (ls_usage s + lh_charge h)) (ls_table s)).
  change (insert_cached s a h) with ('(old, table) ← lru_table_insert (ls_heap s1) (ls_table s1) a;
    '(_, s) ← lru_shard_finish (set_table s1 (ls_usage s1) table) old; Some s).
  assert (ls_heap s1 = <[a := h']> (ls_heap s) /\ ls_list s1 = ls_list s /\ ls_in_use s1 = ls_in_use s ++ [a] /\ ls_table s1 = ls_table s /\
    ls_usage s1 = u64 (ls_usage s + lh_charge h) /\ ls_next s1 = ls_next s /\ ls_freed s1 = ls_freed s /\ ls_capacity s1 = ls_capacity s)
    as (F1 & F2 & F3 & F4 & F5 & F6 & F7 & F8) by done.
  assert (cached s1 ≡ₚ a :: cached s) as P1 by (unfold cached; rewrite F2, F3; solve_Permutation).
  clearbody s1.
  assert (table_ok (ls_heap s1) (cached s) (ls_table s1)) as Ht by (rewrite F1, F4; apply (table_update (ls_heap s) a h h'); [done|done|apply Hs]).
  assert (shard_with H (table_ok (ls_heap s1) (cached s) (ls_table s1)) s1 ext log) as Hs1.
  { pose proof (cached_small H s ext log Hs) as Hsm. pose proof Hs as []. split; rewrite ?F1, ?F2, ?F3, ?F4, ?F5, ?F6, ?F7, ?F8; try done.
    - by apply (hashed_update H (ls_heap s) a h h').
    - by rewrite F1, F4 in Ht.
    - rewrite P1. by apply list.NoDup_cons.
    - intros b hb [[<- <-]|[Hne Eb]]%lookup_insert_Some; rewrite P1, elem_of_cons.
      + cbn [h' set_in_cache set_refs lh_refs lh_in_cache lh_charge lh_key lh_value]. cbn. split; [lia|]. split; [lia|]. split; [done|]. split; [done|]. split; auto.
      + destruct (so_entry b hb Eb) as (X1 & X2 & X3 & X4 & X5). split; [done|]. split; [done|]. split; [done|]. split; [done|]. rewrite X5.
        split; [auto|by intros [?|?]].
    - intros b. rewrite P1, elem_of_cons. intros [->|Hb]; [rewrite lookup_insert_eq; by eexists|]. rewrite lookup_insert_ne; [auto|]. by intros <-.
    - intros b. destruct (so_ext b) as [X1 X2]. split; [done|]. intros [Hb _]%lookup_insert_None. auto.
    - intros b [Hb|Hb%list_elem_of_singleton]%elem_of_app; [auto|]. subst b. lia.
    - rewrite (charges_perm _ _ _ P1). destruct so_usage as [Eu Hu].
      rewrite (charges_ext _ (ls_heap s)) by (intros b _; by apply (charge_update _ a h)).
      assert (charges (ls_heap s) (a :: cached s) = ls_usage s + lh_charge h) as E1.
      { rewrite Eu. cbn. unfold charge_of at 1. rewrite Ea. cbn. fold (charges (ls_heap s) (cached s)). lia. }
      assert (forall b, b ∈ a :: cached s -> 0 <= charge_of (ls_heap s) b <= 2 ^ 32) as Hb.
      { intros b _. unfold charge_of. destruct (ls_heap s !! b) as [hb|] eqn:Eb; [|by cbn]. by destruct (so_entry b hb Eb) as (_ & _ & ? & _). }
      pose proof (charges_bound (ls_heap s) (2 ^ 32) (a :: cached s) (fun b Hx => proj2 (Hb b Hx))) as Hcb. rewrite zlen_cons, E1 in Hcb.
      assert (0 <= ls_usage s) as Hpos.
      { rewrite Eu. apply charges_nonneg. intros b Hbin. apply Hb. by right. }
      unfold u64. rewrite Z.mod_small by lia. split; [by rewrite E1|]. lia.
    - by rewrite (gone_update log (ls_heap s) a h).
    - intros Ez. lia. }
  assert (ls_heap s1 !! a = Some h') as Ea1 by (rewrite F1; apply lookup_insert_eq).
  pose proof (cached_small H s ext log Hs) as Hsm.
  assert (forall b, b ∈ cached s -> has_key (ls_heap s1) (lh_key h') b <-> key_at log (lh_key h) b) as Hkeys.
  { intros b Hb. rewrite F1, (has_key_update (ls_heap s) a h h') by done. by apply (has_key_at H s ext). }
  destruct (table_insert_ok H H_range (ls_heap s1) (cached s) (ls_table s1) a h' (so_hash _ _ _ _ _ Hs1) Ht) as (r & tbl & E & Hr); [|done|done|apply Hs|].
  { lia. }
  rewrite E, bind_some. destruct r as [b|].
  - destruct Hr as (rest & P & Hk & Ht'). assert (b ∈ cached s) as Hb by (rewrite P; by left).
    destruct (so_alive _ _ _ _ _ Hs1 b) as [hb Ehb]; [rewrite P1; by right|].
    destruct (shard_finish_ok H _ s1 ext log b hb (a :: rest) tbl Hs1 Ehb) as (s' & -> & Hs' & P' & En & El' & Eu' & Ecap); [rewrite P1, P; constructor|done|].
    rewrite bind_some. exists s'. split; [done|]. split; [done|]. split; [congruence|]. split; [congruence|].
    pose proof (so_nodup _ _ _ _ _ Hs) as Hnd. rewrite P in Hnd. apply list.NoDup_cons in Hnd as [Hnb _].
    assert (b <> a) as Hba by (by intros ->). split; [|split].
    + intros c. rewrite P', elem_of_cons. split.
      * intros [->|Hcin]; [by left|]. right. assert (c ∈ cached s) as Hcs by (rewrite P; by right). split; [done|]. intros Hkc%(Hkeys c Hcs).
        apply Hnb. by rewrite <- (to_keys _ _ _ Ht c b (lh_key h') Hcs Hb Hkc Hk).
      * intros [->|[Hcs Hn]]; [by left|]. rewrite P in Hcs. apply elem_of_cons in Hcs as [->|?]; [|by right]. destruct Hn. by apply Hkeys.
    + intros c. rewrite Eu', unlink_elem, F3, elem_of_app, list_elem_of_singleton. tauto.
    + rewrite Eu', unlink_elem, F3, elem_of_app, list_elem_of_singleton. split; [by right|done].
  - destruct Hr as [Hno Ht']. cbn [lru_shard_finish]. rewrite bind_some. eexists. split; [reflexivity|].
    assert (cached (set_table s1 (ls_usage s1) tbl) = cached s1) as Ecs by done.
    split; [|split; [done|]; split; [done|]; split; [|split]].
    + unfold shard_ok. rewrite Ecs. cbn [set_table ls_heap ls_table]. pose proof Hs1 as []. split; try done. apply (table_perm _ (a :: cached s)); [by symmetry|done].
    + intros c. rewrite Ecs, P1, elem_of_cons. split; [|tauto]. intros [->|Hcs]; [by left|]. right. split; [done|]. intros Hk. by apply (Hno c Hcs), Hkeys.
    + cbn [set_table ls_in_use]. intros c. rewrite F3, elem_of_app, list_elem_of_singleton. tauto.
    + cbn [set_table ls_in_use]. rewrite F3, elem_of_app, list_elem_of_singleton. by right.
Qed.

Lemma shard_insert_ok s ext log key value charge : shard_ok H s ext log -> 0 <= charge <= 2 ^ 32 -> Z.of_nat (ls_next s) + 2 < 2 ^ 31 -> 0 <= ls_capacity s ->
  exists s', lru_shard_insert s key (H key) value charge = Some (ls_next s, s') /\
    shard_ok H s' (add_ref ext (ls_next s) 1) (log ++ [(key, value)]) /\ ls_next s' = S (ls_next s) /\ ls_capacity s' = ls_capacity s /\
    (forall b, b ∈ cached s' -> b = ls_next s \/ (b ∈ cached s /\ ~ key_at log key b)) /\
    (0 < ls_capacity s -> ls_next s ∈ cached s' /\ forall b, b ∈ cached s -> 0 < ext b -> ~ key_at log key b -> b ∈ cached s') /\
    (ls_list s' = [] \/ ls_usage s' <= ls_capacity s).
Proof.
  intros Hs Hch Hn Hcap. set (a := ls_next s). set (e := LruHandle value charge false 1 (H key) key).
  pose proof (fresh_entry_ok s ext log key value charge Hs Hch ltac:(lia)) as Hs1. fold a e in Hs1.
  unfold lru_shard_insert. fold a e. set (s1 := set_heap s _ _ _) in *.
  assert (ls_heap s1 !! a = Some e) as Ea by apply lookup_insert_eq.
  assert (cached s1 = cached s /\ ls_capacity s1 = ls_capacity s /\ ls_next s1 = S a /\ ls_in_use s1 = ls_in_use s) as (Ec & Ecap & En & Eu) by done.
  clearbody s1. set (ext' := add_ref ext a 1) in *. set (log' := log ++ [(key, value)]) in *.
  assert (forall b, b ∈ cached s -> key_at log' key b <-> key_at log key b) as Hkeys.
  { intros b Hb. destruct (key_of H s ext log b Hs Hb) as (h & v & _ & El & _). unfold key_at, log'.
    by rewrite lookup_app_l by (by apply lookup_lt_Some in El). }
  assert (exists s2, (if 0 <? ls_capacity s1 then insert_cached s1 a e else Some s1) = Some s2 /\ shard_ok H s2 ext' log' /\ ls_next s2 = S a /\
    ls_capacity s2 = ls_capacity s /\ (forall b, b ∈ cached s2 -> b = a \/ (b ∈ cached s /\ ~ key_at log key b)) /\
    (0 < ls_capacity s -> a ∈ ls_in_use s2 /\ forall b, b ∈ cached s -> 0 < ext b -> ~ key_at log key b -> b ∈ ls_in_use s2))
    as (s2 & -> & Hs2 & En2 & Ecap2 & Hc2 & Hu2).
  { destruct (Z.ltb_spec 0 (ls_capacity s1)) as [Hpos|Hz].
    - destruct (insert_cached_ok s1 ext' log' a e Hs1 Ea eq_refl eq_refl Hpos) as (s2 & E & Hs2 & En2 & Ecap2 & Hc2 & _ & Hain); [lia|].
      exists s2. split; [done|]. split; [done|]. split; [congruence|]. split; [congruence|]. split.
      + intros b Hb%Hc2. rewrite Ec in Hb. cbn [lh_key e] in Hb. destruct Hb as [?|[Hb Hk]]; [by left|]. right. split; [done|]. by rewrite <- (Hkeys b Hb).
      + intros _. split; [done|]. intros b Hb He Hk. assert (b ∈ cached s2) as Hin.
        { apply Hc2. right. rewrite Ec. split; [done|]. cbn [lh_key e]. by rewrite Hkeys. }
        apply elem_of_app in Hin as [Hin|]; [|done]. pose proof (so_list _ _ _ _ _ Hs2 b Hin) as Hz. unfold ext', add_ref in Hz. destruct (Nat.eqb b a); lia.
    - exists s1. rewrite Ecap in Hz. assert (ls_capacity s = 0) as E0 by lia. split; [done|]. split; [done|]. split; [done|]. split; [done|]. split; [|lia].
      intros b Hb. rewrite Ec, (so_empty _ _ _ _ _ Hs E0) in Hb. by apply elem_of_nil in Hb. }
  rewrite bind_some.
  destruct (evict_ok H H_range (fun s => ls_capacity s <? ls_usage s) log' (S (length (ls_list s2))) s2 ext' Hs2) as (s3 & -> & Hs3 & En3 & Ecap3 & Hc3 & Hu3 & Hend); [lia|].
  rewrite bind_some. exists s3. split; [done|]. split; [done|]. split; [congruence|]. split; [congruence|]. split; [auto|]. split.
  - intros Hpos. destruct (Hu2 Hpos) as [Ha Hb]. split; auto.
  - destruct Hend as [?|Hend]; [by left|]. right. apply Z.ltb_ge in Hend. congruence.
Qed.

Lemma shard_init_ok capacity : exists s : lru_shard V, lru_shard_init capacity = Some s /\ shard_ok H s (fun _ => 0) [] /\ ls_capacity s = capacity /\ cached s = [] /\ ls_next s = O.
Proof.
  unfold lru_shard_init, lru_table_init.
  destruct (resize_ok H H_range (∅ : gmap nat (lru_handle V)) [] 0 []) as (tbl & E & Ht); [done|done|done|by intros a Ha%elem_of_nil|by intros a b key Ha%elem_of_nil|].
  change (zlen []) with 0 in E. rewrite E, bind_some. eexists. split; [reflexivity|]. split; [|done]. split; cbn; try done.
  - constructor.
  - by intros a Ha%elem_of_nil.
  - by intros a Ha%elem_of_nil.
Qed.
End Insert.

(** ** Calls *)

Section Calls.
Context {V : Type}.

Inductive lru_call :=
| CallInsert (key : bytes) (value : V) (charge : Z)
| CallLookup (key : bytes)
| CallRelease (handle : nat * nat)
| CallErase (key : bytes)
| CallPrune.

(** A call, with the handle it answers. *)
Definition lru_step (lru : ldb_lru V) (call : lru_call) : option (option (nat * nat) * ldb_lru V) :=
  match call with
  | CallInsert key value charge => '(handle, lru) ← ldb_lru_insert lru key value charge; Some (Some handle, lru)
  | CallLookup key => ldb_lru_lookup lru key
  | CallRelease handle => lru ← ldb_lru_release lru handle; Some (None, lru)
  | CallErase key => lru ← ldb_lru_erase lru key; Some (None, lru)
  | CallPrune => lru ← ldb_lru_prune lru; Some (None, lru)
  end.

(** What the clients know: how often they hold each entry of each shard, what
    was inserted there, and the last entry of each key that was not erased. *)
Record clients := Clients { held : nat -> nat -> Z; inserted : nat -> list (bytes * V); current : bytes -> option nat }.

Definition set_current (key : bytes) (a : option nat) (f : bytes -> option nat) : bytes -> option nat := fun k => if bool_decide (k = key) then a else f k.

Definition key_shard (key : bytes) : nat := ldb_lru_shard (ldb_lru_hash key).

Definition at_shard {A} (i : nat) (f : A -> A) (g : nat -> A) : nat -> A := fun j => if Nat.eqb j i then f (g j) else g j.

Definition hold (handle : nat * nat) (n : Z) (c : clients) : clients :=
  Clients (at_shard handle.1 (fun ext => add_ref ext handle.2 n) (held c)) (inserted c) (current c).

Definition clients_step (c : clients) (call : lru_call) (answer : option (nat * nat)) : clients :=
  match call, answer with
  | CallInsert key value _, Some handle =>
    hold handle 1 (Clients (held c) (at_shard handle.1 (fun log => log ++ [(key, value)]) (inserted c)) (set_current key (Some handle.2) (current c)))
  | CallLookup _, Some handle => hold handle 1 c
  | CallRelease handle, _ => hold handle (-1) c
  | CallErase key, _ => Clients (held c) (inserted c) (set_current key None (current c))
  | _, _ => c
  end.

(** Clients release what they hold; charges are sizes of things in memory. *)
Definition allowed (c : clients) (call : lru_call) : Prop :=
  match call with
  | CallInsert _ _ charge => 0 <= charge <= 2 ^ 32
  | CallRelease handle => 0 < held c handle.1 handle.2
  | _ => True
  end.

(** A lookup finds the last entry of its key, and an entry that is held for
    certain. *)
Definition promised (capacity : Z) (c : clients) (call : lru_call) (answer : option (nat * nat)) : Prop :=
  match call, answer with
  | CallInsert key _ _, Some handle => handle.1 = key_shard key /\ handle.2 = length (inserted c handle.1) /\ held c handle.1 handle.2 = 0
  | CallInsert _ _ _, None => False
  | CallLookup key, Some handle => handle.1 = key_shard key /\ current c key = Some handle.2
  | CallLookup key, None => capacity < 1 \/ forall a, current c key = Some a -> held c (key_shard key) a = 0
  | _, _ => answer = None
  end.

(** An insertion leaves its shard within its capacity, or with nothing to evict. *)
Definition evicted (capacity : Z) (lru : ldb_lru V) (call : lru_call) : Prop :=
  match call with
  | CallInsert key _ _ => exists s, lru_shards lru !! key_shard key = Some s /\ (ls_list s = [] \/ ls_usage s <= capacity)
  | _ => True
  end.

Definition no_clients : clients := Clients (fun _ _ => 0) (fun _ => []) (fun _ => None).

(** The states that clients reach with [n] calls. *)
Inductive reaches (capacity : Z) : nat -> ldb_lru V -> clients -> Prop :=
| reach_create lru : ldb_lru_create capacity = Some lru -> reaches capacity 0 lru no_clients
| reach_step n lru c call answer lru' : reaches capacity n lru c -> allowed c call -> lru_step lru call = Some (answer, lru') ->
    reaches capacity (S n) lru' (clients_step c call answer).

(** *** The invariant of a shard among its clients *)

Record shard_inv (capacity : Z) (n : nat) (i : nat) (s : lru_shard V) (c : clients) : Prop := {
  si_ok : shard_ok ldb_lru_hash s (held c i) (inserted c i);
  si_capacity : ls_capacity s = capacity;
  si_next : (ls_next s <= n)%nat;
  si_held a : held c i a <= Z.of_nat n;
  si_cached a key : a ∈ cached s -> key_at (inserted c i) key a -> key_shard key = i /\ current c key = Some a;
  si_current key a : key_shard key = i -> current c key = Some a -> key_at (inserted c i) key a;
  si_pinned key a : 0 < capacity -> key_shard key = i -> current c key = Some a -> 0 < held c i a -> a ∈ cached s
}.

Lemma hash_range key : 0 <= ldb_lru_hash key < 2 ^ 32.
Proof. by apply ldb_hash_range. Qed.

(** What a shard's invariant reads of the clients. *)
Lemma shard_inv_ext capacity n i s c c' : shard_inv capacity n i s c -> (forall a, held c' i a = held c i a) -> inserted c' i = inserted c i ->
  (forall key, key_shard key = i -> current c' key = current c key) -> shard_inv capacity (S n) i s c'.
Proof.
  intros [] Eh Ei Ec. split; rewrite ?Ei; try done.
  - apply (shard_ok_ext ldb_lru_hash s (held c i)); [|done]. intros b. by rewrite Eh.
  - lia.
  - intros a. rewrite Eh. specialize (si_held0 a). lia.
  - intros a key Ha Hk. destruct (si_cached0 a key Ha Hk) as [E1 E2]. by rewrite Ec.
  - intros key a Hk. rewrite Ec by done. auto.
  - intros key a Hp Hk. rewrite Ec, Eh by done. eauto.
Qed.

Lemma key_at_inj (log : list (bytes * V)) key key' a : key_at log key a -> key_at log key' a -> key = key'.
Proof. intros (v & E) (v' & E'). rewrite E in E'. by injection E'. Qed.

(** Same references, fewer entries in the cache. *)
Lemma shard_inv_shrink capacity n i s s' c : shard_inv capacity n i s c -> shard_ok ldb_lru_hash s' (held c i) (inserted c i) ->
  ls_next s' = ls_next s -> ls_capacity s' = ls_capacity s -> (forall a, a ∈ cached s' -> a ∈ cached s) ->
  (forall a, a ∈ ls_in_use s -> a ∈ cached s') -> shard_inv capacity (S n) i s' c.
Proof.
  intros [] Hs' En Ecap Hsub Huse. split; try done; [congruence|lia|intros a; specialize (si_held0 a); lia|auto|].
  intros key a Hp Hk Ec Hh. specialize (si_pinned0 key a Hp Hk Ec Hh). apply elem_of_app in si_pinned0 as [Hl|]; [|auto].
  pose proof (so_list _ _ _ _ _ si_ok0 a Hl). lia.
Qed.

(** Other references to the entries of a shard. *)
Lemma shard_inv_hold capacity n i s s' c a d : shard_inv capacity n i s c -> shard_ok ldb_lru_hash s' (add_ref (held c i) a d) (inserted c i) ->
  d <= 1 -> cached s' ≡ₚ cached s -> ls_next s' = ls_next s -> ls_capacity s' = ls_capacity s -> (0 < held c i a \/ a ∈ cached s \/ d <= 0) -> shard_inv capacity (S n) i s' (hold (i, a) d c).
Proof.
  intros [] Hs' Hd P En Ecap Ha. unfold hold. cbn [fst snd].
  assert (held (Clients (at_shard i (fun ext => add_ref ext a d) (held c)) (inserted c) (current c)) i = add_ref (held c i) a d) as Eh
    by (cbn; unfold at_shard; by rewrite Nat.eqb_refl).
  split; rewrite ?Eh; cbn [inserted current]; [done|congruence|lia|..].
  - intros b. specialize (si_held0 b). unfold add_ref. destruct (Nat.eqb b a); lia.
  - intros b key. rewrite P. auto.
  - auto.
  - intros key b Hp Hk Ec Hh. rewrite P. destruct (decide (b = a)) as [->|Hne]; [|rewrite add_ref_other in Hh by done; eauto].
    rewrite add_ref_same in Hh. destruct Ha as [Ha|[Ha|Ha]]; [eauto|done|]. apply (si_pinned0 key a); [done..|lia].
Qed.

Lemma ref_capacity (s s' : lru_shard V) a : lru_shard_ref s a = Some s' -> ls_capacity s' = ls_capacity s.
Proof. unfold lru_shard_ref. destruct (ls_heap s !! a); [|done]. rewrite bind_some. intros [= <-]. by destruct (_ && _). Qed.

Lemma unref_capacity (s s' : lru_shard V) a : lru_shard_unref s a = Some s' -> ls_capacity s' = ls_capacity s.
Proof.
  unfold lru_shard_unref. destruct (ls_heap s !! a); [|done]. rewrite bind_some. destruct (negb _); [done|].
  destruct (_ =? 0); [destruct (lh_in_cache _); [done|]|destruct (_ && _)]; intros [= <-]; done.
Qed.

Lemma at_shard_same {A} i (f : A -> A) g : at_shard i f g i = f (g i).
Proof. unfold at_shard. by rewrite Nat.eqb_refl. Qed.
Lemma at_shard_other {A} i j (f : A -> A) g : j <> i -> at_shard i f g j = g j.
Proof. intros Hne. unfold at_shard. by rewrite (proj2 (Nat.eqb_neq j i)). Qed.

Lemma set_current_same key a f : set_current key a f key = a.
Proof. unfold set_current. by rewrite bool_decide_true. Qed.
Lemma set_current_other key key' a f : key' <> key -> set_current key a f key' = f key'.
Proof. intros Hne. unfold set_current. by rewrite bool_decide_false. Qed.

Lemma insert_inv capacity n s c key value charge : shard_inv capacity n (key_shard key) s c -> 0 <= capacity -> Z.of_nat n + 2 < 2 ^ 31 -> 0 <= charge <= 2 ^ 32 ->
  exists s', lru_shard_insert s key (ldb_lru_hash key) value charge = Some (ls_next s, s') /\
    shard_inv capacity (S n) (key_shard key) s' (clients_step c (CallInsert key value charge) (Some (key_shard key, ls_next s))) /\
    ls_next s = length (inserted c (key_shard key)) /\ held c (key_shard key) (ls_next s) = 0 /\ (ls_list s' = [] \/ ls_usage s' <= capacity).
Proof.
  set (i := key_shard key). intros [] Hcap Hn Hch.
  destruct (shard_insert_ok ldb_lru_hash hash_range s _ _ key value charge si_ok0 Hch) as (s' & E & Hs' & En & Ecap & Hc & Hp & Hend); [lia|lia|].
  exists s'. split; [done|]. pose proof (so_next _ _ _ _ _ si_ok0) as Hlen.
  pose proof (proj2 (so_ext _ _ _ _ _ si_ok0 (ls_next s)) (fresh_address ldb_lru_hash s _ _ si_ok0)) as Hz.
  assert (forall b k, b ∈ cached s -> key_at (inserted c i ++ [(key, value)]) k b -> key_at (inserted c i) k b) as Hold.
  { intros b k Hb (v & El). destruct (key_of ldb_lru_hash s _ _ b si_ok0 Hb) as (h & v' & _ & El' & _).
    rewrite lookup_app_l in El by (by apply lookup_lt_Some in El'). by exists v. }
  assert (key_at (inserted c i ++ [(key, value)]) key (ls_next s)) as Hnew by (exists value; rewrite lookup_app_r, <- Hlen, Nat.sub_diag by lia; done).
  split; [|split; [done|]; split; [done|by rewrite <- si_capacity0]]. unfold clients_step, hold. cbn [fst snd].
  split; cbn [held inserted current]; rewrite ?at_shard_same.
  - done.
  - congruence.
  - lia.
  - intros b. specialize (si_held0 b). unfold add_ref. destruct (Nat.eqb b (ls_next s)); lia.
  - intros b k Hb Hk. destruct (Hc b Hb) as [->|[Hbs Hnk]].
    + rewrite (key_at_inj _ k key (ls_next s) Hk Hnew). by rewrite set_current_same.
    + apply Hold in Hk; [|done]. rewrite set_current_other; [auto|]. by intros ->.
  - intros k b Hk. destruct (decide (k = key)) as [->|Hne]; [rewrite set_current_same; by intros [= <-]|].
    rewrite set_current_other by done. intros Ec. destruct (si_current0 k b Hk Ec) as (v & El). exists v. rewrite lookup_app_l; [done|by apply lookup_lt_Some in El].
  - intros k b Hpos Hk. destruct (Hp ltac:(lia)) as [Hain Hpin]. destruct (decide (k = key)) as [->|Hne]; [rewrite set_current_same; by intros [= <-]|].
    rewrite set_current_other by done. intros Ec. pose proof (si_current0 k b Hk Ec) as Hkb. destruct (decide (b = ls_next s)) as [->|Hba].
    { destruct Hkb as (v & El). apply lookup_lt_Some in El. lia. }
    rewrite add_ref_other by done. intros Hh. apply Hpin; [eauto|done|]. intros Hkey. apply Hne. by apply (key_at_inj _ _ _ b Hkb).
Qed.

Lemma lookup_inv capacity n s c key : shard_inv capacity n (key_shard key) s c -> Z.of_nat n + 2 < 2 ^ 31 ->
  exists r s', lru_shard_lookup s key (ldb_lru_hash key) = Some (r, s') /\
    let answer := option_map (fun a => (key_shard key, a)) r in
    shard_inv capacity (S n) (key_shard key) s' (clients_step c (CallLookup key) answer) /\ promised capacity c (CallLookup key) answer.
Proof.
  set (i := key_shard key). intros Hi Hn. pose proof Hi as [].
  destruct (shard_lookup_ok ldb_lru_hash hash_range s _ _ key si_ok0) as (r & s' & E & En & P & Hr); [intros a; specialize (si_held0 a); lia|].
  exists r, s'. split; [done|]. destruct r as [a|]; cbn [option_map clients_step promised fst snd].
  - destruct Hr as (Ha & Hk & Hs'). split.
    + apply (shard_inv_hold _ _ _ s); [done|done|lia|done|done| |auto]. revert E. unfold lru_shard_lookup. destruct (lru_table_lookup _ _ _ _) as [[b|]|]; [|done|done].
      rewrite bind_some. destruct (lru_shard_ref s b) as [s2|] eqn:E; [|done]. rewrite bind_some. intros [= <- <-]. by apply (ref_capacity _ _ b).
    + split; [done|]. by apply (si_cached0 a key).
  - destruct Hr as [-> Hr]. split; [by apply (shard_inv_ext _ _ _ _ c)|]. destruct (Z.ltb_spec 0 capacity); [|left; lia]. right. intros a Ec.
    pose proof (si_current0 key a eq_refl Ec) as Hk. fold i. destruct (Z.eq_dec (held c i a) 0) as [|Hne]; [done|].
    destruct (Hr a); [|done]. apply (si_pinned0 key a); [done..|]. pose proof (proj1 (so_ext _ _ _ _ _ si_ok0 a)) as Hge. fold i in Hge |- *. lia.
Qed.

Lemma release_inv capacity n i s c a : shard_inv capacity n i s c -> 0 < held c i a ->
  exists s', lru_shard_release s a = Some s' /\ shard_inv capacity (S n) i s' (clients_step c (CallRelease (i, a)) None).
Proof.
  intros Hi Hh. pose proof Hi as []. destruct (shard_release_ok ldb_lru_hash s _ _ a si_ok0 Hh) as (s' & E & Hs' & P & En). exists s'. split; [done|].
  apply (shard_inv_hold _ _ _ s); [done|done|lia|done|done|by apply (unref_capacity _ _ a)|by left].
Qed.

Lemma erase_inv capacity n s c key : shard_inv capacity n (key_shard key) s c ->
  exists s', lru_shard_erase s key (ldb_lru_hash key) = Some s' /\ shard_inv capacity (S n) (key_shard key) s' (clients_step c (CallErase key) None).
Proof.
  set (i := key_shard key). intros []. destruct (remove_key_ok ldb_lru_hash hash_range s _ _ key si_ok0) as (s' & E & Hs' & En & Ecap & Hc & _).
  exists s'. split; [done|]. split; cbn [clients_step held inserted current]; [done|congruence|lia|intros a; specialize (si_held0 a); lia|..].
  - intros a k [Ha Hna]%Hc Hk. rewrite set_current_other; [auto|]. by intros ->.
  - intros k a Hk. destruct (decide (k = key)) as [->|Hne]; [by rewrite set_current_same|]. rewrite set_current_other by done. auto.
  - intros k a Hpos Hk. destruct (decide (k = key)) as [->|Hne]; [by rewrite set_current_same|]. rewrite set_current_other by done. intros Ec Hh.
    apply Hc. split; [eauto|]. intros Hka. apply Hne. apply (key_at_inj (inserted c i) k key a); [auto|done].
Qed.

Lemma prune_inv capacity n i s c : shard_inv capacity n i s c -> exists s', lru_shard_prune s = Some s' /\ shard_inv capacity (S n) i s' c /\ ls_list s' = [].
Proof.
  intros Hi. pose proof Hi as [].
  destruct (evict_ok ldb_lru_hash hash_range (fun _ => true) (inserted c i) (S (length (ls_list s))) s (held c i) si_ok0) as (s' & E & Hs' & En & Ecap & Hc & Hu & Hend); [lia|].
  exists s'. split; [done|]. split; [|by destruct Hend]. by apply (shard_inv_shrink capacity n i s).
Qed.

(** ** The cache *)

Lemma mapM_total {A B} (f : A -> option B) (P : nat -> B -> Prop) l : (forall i x, l !! i = Some x -> exists y, f x = Some y /\ P i y) ->
  exists l', mapM f l = Some l' /\ length l' = length l /\ forall i y, l' !! i = Some y -> P i y.
Proof.
  revert P. induction l as [|x l IH]; intros P Hl; [by exists []|]. destruct (Hl 0%nat x eq_refl) as (y & E & Hy).
  destruct (IH (fun i => P (S i)) (fun i => Hl (S i))) as (l' & E' & Hlen & Hl'). exists (y :: l'). cbn. rewrite E, bind_some, E', bind_some.
  split; [done|]. split; [by rewrite Hlen|]. intros [|i] z Hz; [by injection Hz as <-|by apply Hl'].
Qed.

Definition cache_inv (capacity : Z) (n : nat) (lru : ldb_lru V) (c : clients) : Prop :=
  length (lru_shards lru) = 16%nat /\ (forall i a, (16 <= i)%nat -> held c i a = 0) /\
  forall i s, lru_shards lru !! i = Some s -> shard_inv capacity n i s c.

Lemma key_shard_lt key : (key_shard key < 16)%nat.
Proof.
  unfold key_shard, ldb_lru_shard. pose proof (hash_range key) as Hr. rewrite Z.shiftr_div_pow2 by (by vm_compute).
  change (2 ^ (32 - LDB_SHARD_BITS)) with (2 ^ 28). assert (ldb_lru_hash key / 2 ^ 28 < 16) by (apply Z.div_lt_upper_bound; lia).
  pose proof (Z.div_pos (ldb_lru_hash key) (2 ^ 28)). lia.
Qed.

(** One shard steps, and the others do not see it. *)
Lemma cache_inv_step capacity n shards id c i s' c' : cache_inv capacity n (Lru shards id) c -> is_Some (shards !! i) -> shard_inv capacity (S n) i s' c' ->
  (forall j, j <> i -> held c' j = held c j /\ inserted c' j = inserted c j) -> (forall key, key_shard key <> i -> current c' key = current c key) ->
  cache_inv capacity (S n) (Lru (<[i := s']> shards) id) c'.
Proof.
  intros (Hl & Hz & Hinv) Hi%lookup_lt_is_Some Hs' Ho Hcur. unfold cache_inv. cbn [lru_shards] in *. split; [by rewrite length_insert|].
  split; [intros j a Hj; destruct (Ho j) as [-> _]; [lia|auto]|]. intros j s Ej. apply list_lookup_insert_Some in Ej as [(<- & <- & _)|[Hne Ej]]; [done|].
  destruct (Ho j) as [E1 E2]; [done|]. apply (shard_inv_ext _ _ _ _ c); [auto|by rewrite E1|done|]. intros key <-. auto.
Qed.

Lemma step_inv capacity n lru c call : cache_inv capacity n lru c -> 0 <= capacity -> Z.of_nat n + 2 < 2 ^ 31 -> allowed c call ->
  exists answer lru', lru_step lru call = Some (answer, lru') /\ cache_inv capacity (S n) lru' (clients_step c call answer) /\
    promised capacity c call answer /\ evicted capacity lru' call.
Proof.
  destruct lru as [shards id]. intros Hinv Hcap Hn Hok. pose proof Hinv as (Hl & Hout & Hi). cbn [lru_shards] in Hl, Hi.
  assert (forall key, exists s, shards !! key_shard key = Some s) as Hsh.
  { intros key. apply lookup_lt_is_Some. rewrite Hl. apply key_shard_lt. }
  destruct call as [key value charge|key|[i a]|key|]; cbn [lru_step].
  - destruct (Hsh key) as [s Es]. destruct (insert_inv capacity n s c key value charge (Hi _ s Es) Hcap Hn Hok) as (s' & E & Hs' & En & Hz & Hend).
    unfold ldb_lru_insert. cbn [lru_shards lru_last_id]. change (ldb_lru_shard (ldb_lru_hash key)) with (key_shard key).
    rewrite Es, bind_some, E, !bind_some. eexists _, _. split; [reflexivity|].
    split; [|split; [done|]; exists s'; split; [by apply list_lookup_insert_eq; eapply lookup_lt_Some|done]].
    apply (cache_inv_step capacity n shards id c); [done|by eexists|done|..]; unfold clients_step, hold; cbn [held inserted current fst snd].
    + intros j Hj. by rewrite !at_shard_other.
    + intros k Hk. rewrite set_current_other; [done|]. by intros ->.
  - destruct (Hsh key) as [s Es]. destruct (lookup_inv capacity n s c key (Hi _ s Es) Hn) as (r & s' & E & Hs' & Hp).
    unfold ldb_lru_lookup. cbn [lru_shards lru_last_id]. change (ldb_lru_shard (ldb_lru_hash key)) with (key_shard key).
    rewrite Es, bind_some, E, !bind_some. eexists _, _. split; [reflexivity|]. split; [|split; [exact Hp|done]].
    apply (cache_inv_step capacity n shards id c); [done|by eexists|exact Hs'|..]; destruct r; cbn [option_map clients_step hold held inserted current fst snd]; [|done|done|done].
    intros j Hj. by rewrite at_shard_other.
  - cbn [allowed fst snd] in Hok. destruct (shards !! i) as [s|] eqn:Es.
    2: { exfalso. apply lookup_ge_None in Es. rewrite (Hout i a) in Hok by lia. lia. }
    destruct (release_inv capacity n i s c a (Hi _ s Es) Hok) as (s' & E & Hs').
    unfold ldb_lru_release. cbn [lru_shards lru_last_id fst snd]. rewrite Es, bind_some, E, !bind_some. eexists _, _. split; [reflexivity|]. split; [|done].
    apply (cache_inv_step capacity n shards id c); [done|by eexists|done| |done]. cbn [clients_step hold held inserted fst snd]. intros j Hj. by rewrite at_shard_other.
  - destruct (Hsh key) as [s Es]. destruct (erase_inv capacity n s c key (Hi _ s Es)) as (s' & E & Hs').
    unfold ldb_lru_erase. cbn [lru_shards lru_last_id]. change (ldb_lru_shard (ldb_lru_hash key)) with (key_shard key).
    rewrite Es, bind_some, E, !bind_some. eexists _, _. split; [reflexivity|]. split; [|done].
    apply (cache_inv_step capacity n shards id c); [done|by eexists|done|done|]. intros k Hk. cbn. rewrite set_current_other; [done|]. by intros ->.
  - unfold ldb_lru_prune. cbn [lru_shards lru_last_id].
    destruct (mapM_total lru_shard_prune (fun i s' => shard_inv capacity (S n) i s' c) shards) as (shards' & -> & Hl' & Hs').
    { intros i s Es. destruct (prune_inv capacity n i s c (Hi i s Es)) as (s' & E & Hs' & _). by exists s'. }
    rewrite bind_some. eexists _, _. split; [reflexivity|]. split; [|done]. split; cbn [lru_shards clients_step]; [congruence|]. done.
Qed.

Lemma create_inv capacity : exists per_shard lru, ldb_lru_create capacity = Some lru /\ per_shard = u64 (capacity + LDB_SHARDS - 1) / LDB_SHARDS /\
  0 <= per_shard /\ cache_inv per_shard 0 lru no_clients.
Proof.
  set (per_shard := u64 (capacity + LDB_SHARDS - 1) / LDB_SHARDS). exists per_shard.
  destruct (shard_init_ok ldb_lru_hash hash_range (V := V) per_shard) as (s & E & Hs & Ecap & Ec & En).
  unfold ldb_lru_create. fold per_shard. rewrite E, bind_some. eexists. split; [reflexivity|]. split; [done|].
  split; [apply Z.div_pos; [apply Z.mod_pos_bound; lia|by vm_compute]|].
  split; [done|]. split; [done|]. cbn [lru_shards]. intros i s' [-> _]%lookup_replicate_1. split; cbn; try done.
  - by rewrite En.
  - intros a key Ha. rewrite Ec in Ha. by apply elem_of_nil in Ha.
Qed.

Lemma reaches_inv capacity n lru c : reaches capacity n lru c -> Z.of_nat n + 1 < 2 ^ 31 ->
  cache_inv (u64 (capacity + LDB_SHARDS - 1) / LDB_SHARDS) n lru c.
Proof.
  set (per_shard := u64 _ / _). assert (0 <= per_shard) as Hcap by (apply Z.div_pos; [apply Z.mod_pos_bound; lia|by vm_compute]).
  induction 1 as [lru E|n lru c call answer lru' _ IH Hok E]; intros Hn.
  - destruct (create_inv capacity) as (p & lru' & E' & -> & _ & Hinv). rewrite E in E'. by injection E' as ->.
  - destruct (step_inv per_shard n lru c call (IH ltac:(lia)) Hcap ltac:(lia) Hok) as (answer' & lru2 & E' & Hinv & _ & _).
    rewrite E in E'. by injection E' as <- <-.
Qed.

(** *** What became of the entries *)

Lemma omap_log (log : list (bytes * V)) k l : l = drop k log -> omap (fun a => log !! a) (seq k (length l)) = l.
Proof.
  revert k. induction l as [|x l IH]; intros k E; [done|]. cbn [length seq].
  assert (log !! k = Some x) as Ek by (rewrite <- (Nat.add_0_r k), <- lookup_drop, <- E; done). cbn. rewrite Ek. f_equal. apply IH.
  rewrite <- Nat.add_1_r, <- drop_drop, <- E. done.
Qed.

Lemma gone_alive (log : list (bytes * V)) (heap : gmap nat (lru_handle V)) l :
  omap (gone_at log heap) l ++ omap (fun a => log !! a) (List.filter (fun a => bool_decide (is_Some (heap !! a))) l) ≡ₚ omap (fun a => log !! a) l.
Proof.
  induction l as [|a l IH]; [done|]. cbn. unfold gone_at at 1. destruct (heap !! a) as [h|] eqn:Ea.
  - rewrite bool_decide_true by done. cbn. destruct (log !! a) as [x|]; [|done]. rewrite <- IH. symmetry. apply Permutation_middle.
  - rewrite bool_decide_false by (by intros [? ?]). destruct (log !! a) as [x|]; [|done]. cbn. by rewrite IH.
Qed.

(** Entries are freed once, when neither a client nor the cache has them. *)
Lemma freed_once (s : lru_shard V) ext log : shard_ok ldb_lru_hash s ext log ->
  exists alive, NoDup alive /\ (forall a, a ∈ alive <-> 0 < ext a \/ a ∈ cached s) /\ ls_freed s ++ omap (fun a => log !! a) alive ≡ₚ log.
Proof.
  intros Hs. exists (List.filter (fun a => bool_decide (is_Some (ls_heap s !! a))) (seq 0 (ls_next s))). split; [|split].
  - apply NoDup_ListNoDup, NoDup_filter, seq_NoDup.
  - intros a. rewrite list_elem_of_In, filter_In, in_seq, bool_decide_eq_true. split.
    + intros [_ [h Eh]]. destruct (so_entry _ _ _ _ _ Hs a h Eh) as (Er & Hp & _ & _ & Hc). destruct (lh_in_cache h); [right; by apply Hc|left; cbn in Er; lia].
    + intros Ha. assert (is_Some (ls_heap s !! a)) as [h Eh].
      { destruct Ha as [Ha|Ha]; [|by apply (so_alive _ _ _ _ _ Hs)]. destruct (ls_heap s !! a) eqn:E; [by eexists|].
        rewrite (proj2 (so_ext _ _ _ _ _ Hs a) E) in Ha. lia. }
      destruct (so_entry _ _ _ _ _ Hs a h Eh) as (_ & _ & _ & El & _). apply lookup_lt_Some in El. rewrite (so_next _ _ _ _ _ Hs) in El.
      split; [lia|by eexists].
  - rewrite (so_freed _ _ _ _ _ Hs). unfold gone. rewrite gone_alive, <- (so_next _ _ _ _ _ Hs). by rewrite omap_log.
Qed.

Lemma held_value capacity n (s : lru_shard V) c i a : shard_inv capacity n i s c -> 0 < held c i a ->
  exists h key, ls_heap s !! a = Some h /\ inserted c i !! a = Some (key, lh_value h).
Proof.
  intros Hi Hh. pose proof (si_ok _ _ _ _ _ Hi) as Hs. destruct (ls_heap s !! a) as [h|] eqn:Eh.
  - destruct (so_entry _ _ _ _ _ Hs a h Eh) as (_ & _ & _ & El & _). by exists h, (lh_key h).
  - rewrite (proj2 (so_ext _ _ _ _ _ Hs a) Eh) in Hh. lia.
Qed.

Lemma reaches_step capacity n (lru : ldb_lru V) c call : reaches capacity n lru c -> Z.of_nat n + 2 < 2 ^ 31 -> allowed c call ->
  let per_shard := u64 (capacity + LDB_SHARDS - 1) / LDB_SHARDS in
  exists answer lru', lru_step lru call = Some (answer, lru') /\ reaches capacity (S n) lru' (clients_step c call answer) /\
    promised per_shard c call answer /\ evicted per_shard lru' call.
Proof.
  intros Hr Hn Hok per_shard. assert (0 <= per_shard) as Hcap by (apply Z.div_pos; [apply Z.mod_pos_bound; lia|by vm_compute]).
  destruct (step_inv per_shard n lru c call (reaches_inv capacity n lru c Hr ltac:(lia)) Hcap Hn Hok) as (answer & lru' & E & _ & Hp & He).
  exists answer, lru'. split; [done|]. split; [by apply (reach_step capacity n lru)|done].
Qed.
End Calls.

(** ** The properties *)

Section Properties.
Context {V : Type}.

(** C18: whatever calls clients have made before, and whatever they call next, as
    long as they release only handles that they hold: the call answers (no
    assertion of the cache fails), a lookup answers the last entry inserted for
    its key and not erased, and finds it for certain when some client holds it,
    and an insertion answers a new handle and leaves its shard within its
    capacity or with no entry that could be evicted. *)
Theorem cache_calls_answer capacity n (lru : ldb_lru V) c call : reaches capacity n lru c -> Z.of_nat n + 2 < 2 ^ 31 -> allowed c call ->
  let per_shard := u64 (capacity + LDB_SHARDS - 1) / LDB_SHARDS in
  exists answer lru', lru_step lru call = Some (answer, lru') /\ reaches capacity (S n) lru' (clients_step c call answer) /\
    promised per_shard c call answer /\ evicted per_shard lru' call.
Proof. apply reaches_step. Qed.

(** C19: in every state that clients reach, a handle that is held still has the
    value that was inserted, and every entry ever inserted into a shard was given
    to its deleter exactly once, or is alive because it is held or cached. *)
Theorem cache_entries_live capacity n (lru : ldb_lru V) c : reaches capacity n lru c -> Z.of_nat n + 1 < 2 ^ 31 ->
  (forall i a, 0 < held c i a -> exists key value, inserted c i !! a = Some (key, value) /\ ldb_lru_value lru (i, a) = Some value) /\
  (forall i s, lru_shards lru !! i = Some s -> exists alive, NoDup alive /\ (forall a, a ∈ alive <-> 0 < held c i a \/ a ∈ cached s) /\
    ls_freed s ++ omap (fun a => inserted c i !! a) alive ≡ₚ inserted c i).
Proof.
  intros Hr Hn. destruct (reaches_inv capacity n lru c Hr Hn) as (Hl & Hout & Hinv). split.
  - intros i a Hh. destruct (lru_shards lru !! i) as [s|] eqn:Es.
    + destruct (held_value _ _ s c i a (Hinv i s Es) Hh) as (h & key & Eh & El). exists key, (lh_value h). split; [done|].
      unfold ldb_lru_value. cbn [fst snd]. by rewrite Es, bind_some, Eh.
    + apply lookup_ge_None in Es. rewrite (Hout i a) in Hh by lia. lia.
  - intros i s Es. apply (freed_once s (held c i) (inserted c i)), (Hinv i s Es).
Qed.
End Properties.

(** ** A history *)

Definition demo_calls : list (lru_call (V := Z)) :=
  [CallInsert [Byte.x61] 1 1; CallInsert [Byte.x62] 2 1; CallRelease (key_shard [Byte.x61], O); CallInsert [Byte.x61] 3 2; CallErase [Byte.x62]; CallLookup [Byte.x61]].

Fixpoint demo_run (calls : list (lru_call (V := Z))) (lru : ldb_lru Z) (c : clients) : option (ldb_lru Z * clients (V := Z)) :=
  match calls with
  | [] => Some (lru, c)
  | call :: calls => '(answer, lru) ← lru_step lru call; demo_run calls lru (clients_step c call answer)
  end.

Fixpoint demo_allowed (calls : list (lru_call (V := Z))) (lru : ldb_lru Z) (c : clients (V := Z)) : bool :=
  match calls with
  | [] => true
  | call :: calls =>
    match call with CallInsert _ _ charge => (0 <=? charge) && (charge <=? 2 ^ 32) | CallRelease handle => 0 <? held c handle.1 handle.2 | _ => true end &&
    match lru_step lru call with Some (answer, lru) => demo_allowed calls lru (clients_step c call answer) | None => false end
  end.

Lemma demo_reaches capacity calls : forall n lru c lru' c', reaches capacity n lru c -> demo_allowed calls lru c = true ->
  demo_run calls lru c = Some (lru', c') -> reaches capacity (length calls + n) lru' c'.
Proof.
  induction calls as [|call calls IH]; intros n lru c lru' c' Hr Ha E; cbn in *; [by injection E as <- <-|].
  apply andb_true_iff in Ha as [Ha1 Ha2]. destruct (lru_step lru call) as [[answer lru2]|] eqn:Es; [|done]. rewrite bind_some in E.
  rewrite plus_n_Sm. apply (IH _ lru2 (clients_step c call answer)); [|done|done]. apply (reach_step capacity n lru); [done| |done].
  destruct call; cbn in *; [apply andb_true_iff in Ha1 as [?%Z.leb_le ?%Z.leb_le]; lia|done|by apply Z.ltb_lt|done|done].
Qed.

Definition demo_state : ldb_lru Z * clients (V := Z) := default (Lru [] 0, no_clients) (lru ← ldb_lru_create 64; demo_run demo_calls lru no_clients).

Lemma demo_state_reached : reaches 64 6 demo_state.1 demo_state.2.
Proof.
  destruct (ldb_lru_create (V := Z) 64) as [lru|] eqn:E; [|exfalso; vm_compute in E; discriminate].
  assert (demo_allowed demo_calls lru no_clients = true) as Ha.
  { assert (match ldb_lru_create (V := Z) 64 with Some lru => demo_allowed demo_calls lru no_clients | None => true end = true) as X by (vm_compute; reflexivity).
    by rewrite E in X. }
  destruct (demo_run demo_calls lru no_clients) as [[lru' c']|] eqn:Er.
  - assert (demo_state = (lru', c')) as -> by (unfold demo_state; by rewrite E, bind_some, Er).
    apply (demo_reaches 64 demo_calls 0 lru no_clients); [by apply reach_create|done|done].
  - exfalso. assert (match ldb_lru_create (V := Z) 64 with Some lru => match demo_run demo_calls lru no_clients with Some _ => true | None => false end | None => true end = true) as X
      by (vm_compute; reflexivity). by rewrite E, Er in X.
Qed.

Lemma cache_calls_answer_witness : exists answer lru', lru_step demo_state.1 (CallRelease (key_shard [Byte.x61], 1%nat)) = Some (answer, lru') /\ answer = None.
Proof.
  destruct (cache_calls_answer 64 6 demo_state.1 demo_state.2 (CallRelease (key_shard [Byte.x61], 1%nat)) demo_state_reached)
    as (answer & lru' & E & _ & Hp & _); [lia|vm_compute; reflexivity|]. exists answer, lru'. split; [exact E|exact Hp].
Defined.

Lemma cache_entries_live_witness : ldb_lru_value demo_state.1 (key_shard [Byte.x61], 1%nat) = Some 3.
Proof.
  destruct (cache_entries_live 64 6 demo_state.1 demo_state.2 demo_state_reached ltac:(lia)) as [Hv _].
  destruct (Hv (key_shard [Byte.x61]) 1%nat) as (key & value & Ei & E); [vm_compute; reflexivity|].
  rewrite E. vm_compute in Ei. injection Ei as _ <-. reflexivity.
Defined.
