(* ===== verification/BuildTable.v ===== *)
(** * Building a table file

    Models [src/engine/src/builder.c]: what an iterator delivers is written to a
    new table file, which is synced, closed and opened for a test; if anything
    fails the file is removed. *)

From stdpp Require Import strings sorting gmap.
From S2P Require Import Prelude Coding Status Strutil Comparator Bloom DBFormat Options File Iterator BlockBuilder FilterBlock Format TableBuilder VersionEdit FileList Env.
#[local] Open Scope Z_scope.

(** ** Tables in the environment *)

(** The same builder over another file. *)
Definition with_file {F G} (tb : tablegen F) (file : G) : tablegen G :=
  Tablegen (tb_options tb) file (tb_offset tb) (tb_status tb) (tb_data_block tb) (tb_index_block tb) (tb_last_key tb)
    (tb_num_entries tb) (tb_closed tb) (tb_filter_block tb) (tb_pending_index_entry tb) (tb_pending_handle tb).

Lemma with_file_id {E W} (tb : tablegen (E * W)) :
  with_file (with_file tb (tb_file tb).2) ((tb_file tb).1, tb_file (with_file tb (tb_file tb).2)) = tb.
Proof. by destruct tb as [? []]. Qed.

Section EnvTable.
Context {E W : Type} (ops : env_ops E W).

Definition env_tablegen_add (e : E) (tb : tablegen W) (key value : bytes) : option (tablegen W * E) :=
  tb ← ldb_tablegen_add (env_wfile ops) (with_file tb (e, tb_file tb)) key value;
  Some (with_file tb (tb_file tb).2, (tb_file tb).1).

Definition env_tablegen_finish (e : E) (tb : tablegen W) : option (Z * tablegen W * E) :=
  '(rc, tb) ← ldb_tablegen_finish (env_wfile ops) (with_file tb (e, tb_file tb));
  Some (rc, with_file tb (tb_file tb).2, (tb_file tb).1).

(** [ldb_wfile_sync] and [ldb_wfile_close], each unless there is an error, and
    [ldb_wfile_destroy]. *)
Definition env_finish_file (e : E) (rc : Z) (file : W) : Z * E :=
  let '(rc, e) := if rc =? LDB_OK then env_sync ops e file else (rc, e) in
  let '(rc, e) := if rc =? LDB_OK then env_close ops e file else (rc, e) in
  (rc, env_destroy ops e file).

(** ** [ldb_build_table]

    [tables_of e] is the table cache over the files of [e]. *)
Context {S : Type} (iops : iter_ops S) {T : Type} (tops : iter_ops T) (tables_of : E -> tables_ops T).

(** "Verify that the table is usable." *)
Definition check_table (e : E) (number size : Z) : option Z :=
  it ← ldb_tables_iterate (tables_of e) ldb_readopt_default number size; Some (it_status tops it).

(** [for (; ldb_iter_valid(iter); ldb_iter_next(iter))]: more turns than there
    are pairs. *)
Fixpoint build_loop (fuel : nat) (e : E) (tb : tablegen W) (iter : S) (key : bytes) : option (bytes * tablegen W * S * E) :=
  match fuel with
  | O => None
  | Datatypes.S fuel =>
    if it_valid iops iter then
      key ← it_key iops iter;
      val ← it_value iops iter;
      '(tb, e) ← env_tablegen_add e tb key val;
      iter ← it_next iops iter;
      build_loop fuel e tb iter key
    else Some (key, tb, iter, e)
  end.

Definition set_meta_size (meta : filemeta) (size : Z) : filemeta :=
  Filemeta (fm_refs meta) (fm_allowed_seeks meta) (fm_number meta) size (fm_smallest meta) (fm_largest meta).
Definition set_meta_range (meta : filemeta) (smallest largest : bytes) : filemeta :=
  Filemeta (fm_refs meta) (fm_allowed_seeks meta) (fm_number meta) (fm_file_size meta) smallest largest.

(** The part with a new file: the status, the metadata and the iterator. *)
Definition build_file (fuel : nat) (e : E) (options : dbopt) (file : W) (iter : S) (meta : filemeta) : option (Z * filemeta * S * E) :=
  builder ← ldb_tablegen_init options file;
  key ← it_key iops iter;
  let smallest := ldb_ikey_copy key in
  '(key, builder, iter, e) ← build_loop fuel e builder iter key;
  let meta := set_meta_range meta smallest (ldb_ikey_copy key) in
  '(rc, builder, e) ← env_tablegen_finish e builder;
  meta ← (if rc =? LDB_OK then
            let size := ldb_tablegen_size builder in
            if 0 <? size then Some (set_meta_size meta size) else None
          else Some meta);
  let '(rc, e) := env_finish_file e rc (tb_file builder) in
  rc ← (if rc =? LDB_OK then check_table e (fm_number meta) (fm_file_size meta) else Some rc);
  Some (rc, meta, iter, e).

Definition ldb_build_table (fuel : nat) (e : E) (dbname : bytes) (options : dbopt) (iter : S) (meta : filemeta) : option (Z * filemeta * S * E) :=
  let meta := set_meta_size meta 0 in
  iter ← it_first iops iter;
  match ldb_table_filename LDB_PATH_MAX dbname (fm_number meta) with
  | None => Some (LDB_INVALID, meta, iter, e)
  | Some fname =>
    let finish (rc : Z) (meta : filemeta) (iter : S) (e : E) :=
      let rc := if negb (it_status iops iter =? LDB_OK) then it_status iops iter else rc in
      if (rc =? LDB_OK) && (0 <? fm_file_size meta) then Some (rc, meta, iter, e)
      else Some (rc, meta, iter, (env_remove_file ops e fname).2) in
    if it_valid iops iter then
      match env_truncfile_create ops e fname with
      | (inl rc, e) => Some (rc, meta, iter, e)
      | (inr file, e) => '(rc, meta, iter, e) ← build_file fuel e options file iter meta; finish rc meta iter e
      end
    else finish LDB_OK meta iter e
  end.
End EnvTable.

(** ** What the table cache promises *)

(** The contents of a table file with these pairs. *)
Definition table_bytes (dom : bytes -> Prop) (cmp : comparator) (options : dbopt) (kvs : pairs) (d : bytes) : Prop :=
  exists blocks ix mh ih fh, table_image dom cmp options kvs d blocks ix mh ih fh.

(** A table file that is there can be iterated over. *)
Class TableAccess {E : Type} (rep : E -> fsview -> Prop) {T : Type} (tops : iter_ops T) (tables_of : E -> tables_ops T)
    (dbname : bytes) (dom : bytes -> Prop) (cmp : comparator) (options : dbopt) (c : Z) : Prop :=
  table_access e fs ro number p d n kvs : 0 <= number < 2 ^ 64 -> rep e fs -> ldb_table_filename LDB_PATH_MAX dbname number = Some p -> fs !! p = Some (VFile d n) ->
    table_bytes dom cmp options kvs d -> total_ok c kvs -> sorted_pairs cmp kvs -> Forall (fun kv => dom kv.1) kvs ->
    exists it q, ldb_tables_iterate (tables_of e) ro number (zlen d) = Some it /\ any_rep tops dom cmp kvs it q.

(** ** Correctness *)

Section Correct.
Context {E W : Type} (ops : env_ops E W) (rep : E -> fsview -> Prop) (names : E -> W -> bytes -> Prop).
Context `{!EnvLaws ops rep names (fun _ => True)}.
Context (dom : bytes -> Prop) (cmp : comparator) `{!ComparatorLaws dom cmp, !ShortSeparators dom cmp} (options : dbopt) (c : Z).
Hypothesis options_cmp : opt_comparator options = Some cmp.
Hypothesis c_nonneg : 0 <= c.
Hypothesis options_policy : forall p, opt_filter_policy options = Some p ->
  FilterPolicy dom p /\ PolicySize p c /\ ldb_bloom_name p 72 <> None.

(** The open file [w] with the name [p], among other files [fs] and other open
    files [N]. *)
Definition file_rep (fs : fsview) (p : bytes) (w : W) (N : W -> bytes -> Prop) (f : E * W) (d : bytes) : Prop :=
  f.2 = w /\ names f.1 w p /\ (forall w' q, N w' q -> w' <> w /\ names f.1 w' q) /\ exists n, rep f.1 (<[p := VFile d n]> fs).

#[local] Instance env_wfile_laws fs p w N : WFileLaws (env_wfile ops) (file_rep fs p w N).
Proof.
  split.
  - intros [e w'] d xs (Ew & Hw & K & n & R) Hz. cbn [fst snd] in *. subst w'.
    destruct (el_append e _ w p (VFile d n) xs R Hw (lookup_insert_eq _ _ _)) as (e' & E1 & R' & K'); [done|done|].
    exists (e', w). cbn [env_wfile wfile_append fst snd]. rewrite E1. split; [done|]. split; [done|]. split; [by apply K'|].
    split; [intros w' q Hq; destruct (K w' q Hq); auto|]. exists n. by rewrite insert_insert_eq in R'.
  - intros [e w'] d (Ew & Hw & K & n & R). cbn [fst snd] in *. subst w'.
    destruct (el_flush e _ w p R Hw) as (e' & E1 & R' & K'); [done|].
    exists (e', w). cbn [env_wfile wfile_flush fst snd]. rewrite E1. split; [done|]. split; [done|]. split; [by apply K'|].
    split; [intros w' q Hq; destruct (K w' q Hq); auto|]. by exists n.
Qed.

(** A builder that has taken these pairs. *)
Definition generating (fs : fsview) (p : bytes) (N : W -> bytes -> Prop) (e : E) (tb : tablegen W) (kvs : pairs) : Prop :=
  exists blocks ix cur d, tg_ok (file_rep fs p (tb_file tb) N) dom cmp options c (with_file tb (e, tb_file tb)) blocks ix cur d /\
    last_ok tb kvs /\ all_kvs blocks cur = kvs.

Lemma generating_init fs p N e w d n : names e w p -> (forall w' q, N w' q -> w' <> w /\ names e w' q) -> d = [] -> rep e (<[p := VFile d n]> fs) ->
  exists tb, ldb_tablegen_init options w = Some tb /\ generating fs p N e tb [] /\ tb_file tb = w.
Proof.
  intros Hw HN -> R. assert (file_rep fs p w N (e, w) []) as R0 by (split; [done|]; split; [done|]; split; [done|]; by exists n).
  destruct (tablegen_init_ok (file_rep fs p w N) dom cmp options c options_policy (e, w) R0) as (tb & Etb & Htg & Hl).
  exists (with_file tb w). unfold ldb_tablegen_init in *. destruct (match opt_filter_policy options with Some _ => _ | None => _ end) as [fbo|]; [|done].
  cbn [mbind option_bind] in *. injection Etb as <-. split; [done|]. split; [|done]. exists [], [], [], []. cbn [with_file tb_file]. done.
Qed.

Lemma generating_add fs p N e tb kvs key value : generating fs p N e tb kvs -> total_ok c (kvs ++ [(key, value)]) ->
  sorted_pairs cmp (kvs ++ [(key, value)]) -> Forall (fun kv => dom kv.1) (kvs ++ [(key, value)]) ->
  exists tb' e', env_tablegen_add ops e tb key value = Some (tb', e') /\ generating fs p N e' tb' (kvs ++ [(key, value)]) /\ tb_file tb' = tb_file tb.
Proof.
  intros (blocks & ix & cur & d & Htg & Hl & Ek) Ht Hs Hd. subst kvs.
  destruct (add_ok (env_wfile ops) (file_rep fs p (tb_file tb) N) dom cmp options c options_cmp c_nonneg options_policy
    _ blocks ix cur d key value Htg Hl Ht Hs Hd) as (tb' & blocks' & ix' & cur' & d' & Eadd & Htg' & Hl' & Ek').
  unfold env_tablegen_add. rewrite Eadd, bind_some. eexists _, _. split; [reflexivity|].
  pose proof (proj1 (ok_writing _ _ _ _ _ _ _ _ _ _ Htg')) as (Ef & _). split; [|exact Ef].
  exists blocks', ix', cur', d'. split; [|done]. rewrite with_file_id. change (tb_file (with_file tb' (tb_file tb').2)) with (tb_file tb').2. by rewrite Ef.
Qed.

Lemma table_bytes_size kvs d : table_bytes dom cmp options kvs d -> 0 < zlen d < 2 ^ 32.
Proof.
  intros (blocks & ix & mh & ih & fh & img). destruct (img_footer _ _ _ _ _ _ _ _ _ _ img) as (pre & foot & -> & Hf & _).
  pose proof (img_size _ _ _ _ _ _ _ _ _ _ img) as Hz. rewrite zlen_app in *. pose proof (zlen_nonneg pre). unfold LDB_FOOTER_SIZE, LDB_HANDLE_SIZE in *. lia.
Qed.

Lemma generating_finish fs p N e tb kvs : generating fs p N e tb kvs -> total_ok c kvs -> sorted_pairs cmp kvs -> Forall (fun kv => dom kv.1) kvs ->
  exists tb' e' d n, env_tablegen_finish ops e tb = Some (LDB_OK, tb', e') /\ tb_file tb' = tb_file tb /\ tb_offset tb' = zlen d /\
    rep e' (<[p := VFile d n]> fs) /\ names e' (tb_file tb) p /\ (forall w' q, N w' q -> w' <> tb_file tb /\ names e' w' q) /\
    table_bytes dom cmp options kvs d.
Proof.
  intros (blocks & ix & cur & d & Htg & Hl & Ek) Ht Hs Hd. subst kvs.
  destruct (finish_table_ok (env_wfile ops) (file_rep fs p (tb_file tb) N) dom cmp options c options_cmp c_nonneg options_policy
    _ blocks ix cur d Htg Hl Ht Hs Hd) as (tb' & d' & blocks' & ix' & mh & ih & fh & Efin & (Ew & Hw & K & n & R) & Eo & img).
  unfold env_tablegen_finish. rewrite Efin, bind_some. eexists _, _, d', n. split; [reflexivity|]. split; [done|]. split; [done|].
  split; [done|]. split; [done|]. split; [done|]. by exists blocks', ix', mh, ih, fh.
Qed.

(** Syncing, closing and destroying a file. *)
Lemma finish_file_ok fs p N e w d n : rep e (<[p := VFile d n]> fs) -> names e w p -> (forall w' q, N w' q -> w' <> w /\ names e w' q) ->
  exists e', env_finish_file ops e LDB_OK w = (LDB_OK, e') /\ rep e' (<[p := VFile d (zlen d)]> fs) /\ forall w' q, N w' q -> names e' w' q.
Proof.
  intros R Hw K. unfold env_finish_file. change (LDB_OK =? LDB_OK) with true. cbv iota.
  destruct (el_sync e _ w p (VFile d n) R Hw (lookup_insert_eq _ _ _)) as (e1 & -> & R1 & K1); [done|]. rewrite insert_insert_eq in R1. cbn [vf_data] in R1.
  change (LDB_OK =? LDB_OK) with true. cbv iota.
  destruct (el_close e1 _ w p R1 (K1 _ _ Hw)) as (e2 & -> & R2 & K2); [done|].
  destruct (el_destroy e2 _ w p R2 (K2 _ _ (K1 _ _ Hw))) as [R3 K3]; [done|].
  eexists. split; [reflexivity|]. split; [done|]. intros w' q Hq. destruct (K w' q Hq). auto.
Qed.

(** *** The whole *)

Context {S : Type} (iops : iter_ops S) (kvs : pairs) (irep : S -> option nat -> Prop) `{!IteratorLaws iops dom cmp kvs irep}.
Context {T : Type} (tops : iter_ops T) (tables_of : E -> tables_ops T) (dbname : bytes) `{!TableAccess rep tops tables_of dbname dom cmp options c}.
Hypothesis kvs_total : total_ok c kvs.
Hypothesis kvs_sorted : sorted_pairs cmp kvs.
Hypothesis kvs_dom : Forall (fun kv => dom kv.1) kvs.

Lemma prefix_fits done rest : kvs = done ++ rest -> total_ok c done /\ sorted_pairs cmp done /\ Forall (fun kv => dom kv.1) done.
Proof.
  intros E1. pose proof kvs_total as Ht. pose proof kvs_sorted as Hs. pose proof kvs_dom as Hd. rewrite E1 in Ht, Hs, Hd. split; [by apply (total_app c c_nonneg done rest)|].
  split; [by apply StronglySorted_app_1_l in Hs|]. by apply List.Forall_app in Hd as [? _].
Qed.

Lemma build_loop_ok fs p N : forall rest taken fuel e tb iter key, kvs = taken ++ rest -> (length rest < fuel)%nat ->
  generating fs p N e tb taken -> irep iter (position kvs (length taken)) ->
  exists tb' iter' e', build_loop ops iops fuel e tb iter key = Some (from_option fst key (list.last rest), tb', iter', e') /\
    generating fs p N e' tb' kvs /\ tb_file tb' = tb_file tb /\ irep iter' None.
Proof.
  induction rest as [|[k v] rest IH]; intros taken fuel e tb iter key Ek Hf Hg Hi; (destruct fuel as [|fuel]; [cbn in Hf; lia|]); cbn [build_loop].
  - rewrite app_nil_r in Ek. subst taken. unfold position in Hi. rewrite bool_decide_eq_false_2 in Hi by lia.
    rewrite (laws_valid iter None Hi). change (bool_decide (@None nat <> None)) with false. cbv iota. by exists tb, iter, e.
  - assert (kvs !! length taken = Some (k, v)) as El by (rewrite Ek, lookup_app_r, Nat.sub_diag by lia; done).
    unfold position in Hi. rewrite bool_decide_eq_true_2 in Hi by (by apply lookup_lt_Some in El).
    rewrite (laws_valid iter _ Hi). change (bool_decide (Some (length taken) <> None)) with true. cbv iota.
    destruct (laws_entry iter _ _ Hi El) as [-> ->]. rewrite !bind_some. cbn [fst snd].
    assert (kvs = (taken ++ [(k, v)]) ++ rest) as Ek' by (by rewrite <- app_assoc).
    destruct (prefix_fits _ _ Ek') as (Ht & Hs & Hd).
    destruct (generating_add fs p N e tb taken k v Hg Ht Hs Hd) as (tb' & e' & -> & Hg' & Ef). rewrite bind_some.
    destruct (laws_next iter _ Hi) as (iter' & -> & Hi'). rewrite bind_some.
    destruct (IH (taken ++ [(k, v)]) fuel e' tb' iter' k Ek') as (tb2 & iter2 & e2 & E2 & Hg2 & Ef2 & Hi2); [cbn in Hf; lia|done| |].
    { rewrite length_app. exact Hi'. }
    exists tb2, iter2, e2. rewrite E2. split; [|split; [done|split; [congruence|done]]].
    destruct rest as [|kv rest]; [done|]. cbn [list.last]. destruct (list.last (kv :: rest)) eqn:El'; [done|]. by apply list.last_None in El'.
Qed.

Lemma build_file_ok fuel e fs p w n iter meta kv rest (N : W -> bytes -> Prop) :
  0 <= fm_number meta < 2 ^ 64 -> kvs = kv :: rest -> (length kvs < fuel)%nat -> rep e (<[p := VFile [] n]> fs) -> names e w p -> (forall w' q, N w' q -> w' <> w /\ names e w' q) ->
  ldb_table_filename LDB_PATH_MAX dbname (fm_number meta) = Some p -> irep iter (Some 0%nat) ->
  exists d iter' e', build_file ops iops tops tables_of fuel e options w iter meta =
      Some (LDB_OK, set_meta_size (set_meta_range meta kv.1 (from_option fst kv.1 (list.last rest))) (zlen d), iter', e') /\
    table_bytes dom cmp options kvs d /\ rep e' (<[p := VFile d (zlen d)]> fs) /\ (forall w' q, N w' q -> names e' w' q) /\ irep iter' None.
Proof.
  intros Hnum Ek Hf R Hw HN Hp Hi. unfold build_file. destruct (generating_init fs p N e w [] n Hw HN eq_refl R) as (tb & -> & Hg & Ef). rewrite bind_some.
  assert (kvs !! 0%nat = Some kv) as E0 by (by rewrite Ek). destruct (laws_entry iter 0%nat kv Hi E0) as [-> _]. rewrite bind_some.
  assert (irep iter (position kvs 0)) as Hi0 by (rewrite Ek; exact Hi).
  destruct (build_loop_ok fs p N kvs [] fuel e tb iter kv.1 eq_refl Hf Hg Hi0) as (tb1 & iter1 & e1 & -> & Hg1 & Ef1 & Hi1). rewrite bind_some.
  destruct (generating_finish fs p N e1 tb1 kvs Hg1 kvs_total kvs_sorted kvs_dom) as (tb2 & e2 & d & n2 & -> & Ef2 & Eo & R2 & Hw2 & K2 & Hd).
  rewrite bind_some. change (LDB_OK =? LDB_OK) with true. cbv iota. pose proof (table_bytes_size kvs d Hd) as Hz.
  unfold ldb_tablegen_size. rewrite Eo, (proj2 (Z.ltb_lt 0 (zlen d))) by lia. rewrite bind_some.
  rewrite <- Ef2 in Hw2, K2. destruct (finish_file_ok fs p N e2 (tb_file tb2) d n2 R2 Hw2 K2) as (e3 & -> & R3 & K3).
  change (LDB_OK =? LDB_OK) with true. cbv iota. unfold check_table. cbn [set_meta_size set_meta_range fm_number fm_file_size].
  destruct (table_access e3 _ ldb_readopt_default (fm_number meta) p d (zlen d) kvs Hnum R3 Hp (lookup_insert_eq _ _ _) Hd kvs_total kvs_sorted kvs_dom)
    as (it & q & -> & rp & L & Hit). rewrite !bind_some. rewrite (laws_status it q Hit).
  exists d, iter1, e3. split; [|done]. unfold ldb_ikey_copy. rewrite Ek. destruct rest as [|kv' rest]; [done|]. cbn [list.last].
  by destruct (list.last (kv' :: rest)) eqn:El; [|apply list.last_None in El].
Qed.

Lemma build_table_correct_file fuel e fs fname iter q meta : 0 <= fm_number meta < 2 ^ 64 -> (length kvs < fuel)%nat -> rep e fs -> irep iter q ->
  ldb_table_filename LDB_PATH_MAX dbname (fm_number meta) = Some fname ->
  exists meta' iter' e', ldb_build_table ops iops tops tables_of fuel e dbname options iter meta = Some (LDB_OK, meta', iter', e') /\ irep iter' None /\
    (forall w q, names e w q -> q <> fname -> names e' w q) /\
    match kvs with
    | [] => meta' = set_meta_size meta 0 /\ rep e' (delete fname fs)
    | kv :: rest => exists d, table_bytes dom cmp options kvs d /\ rep e' (<[fname := VFile d (zlen d)]> fs) /\
        meta' = set_meta_size (set_meta_range meta kv.1 (from_option fst kv.1 (list.last rest))) (zlen d)
    end.
Proof.
  intros Hnum Hf R Hi Hp. unfold ldb_build_table. destruct (laws_first iter q Hi) as (iter1 & -> & Hi1). rewrite bind_some.
  cbn [set_meta_size fm_number]. rewrite Hp. unfold position in Hi1.
  assert (kvs = [] \/ exists kv rest, kvs = kv :: rest) as [Ek|(kv & rest & Ek)] by (destruct kvs; eauto); rewrite Ek in Hi1 |- *.
  - rewrite bool_decide_eq_false_2 in Hi1 by (cbn; lia). rewrite (laws_valid iter1 None Hi1), (laws_status iter1 None Hi1).
    change (bool_decide (@None nat <> None)) with false. cbv iota. rewrite !Z.eqb_refl. cbn [negb andb]. change (0 <? 0) with false. cbv iota.
    destruct (el_remove e fs fname R) as (rc & e' & E1 & R' & K); [done|]. rewrite E1. exists (set_meta_size meta 0), iter1, e'. done.
  - rewrite bool_decide_eq_true_2 in Hi1 by (cbn; lia). rewrite (laws_valid iter1 _ Hi1). change (bool_decide (Some 0%nat <> None)) with true. cbv iota.
    destruct (el_truncfile e fs fname R) as (w & e1 & -> & R1 & Hw & K1); [done|].
    destruct (build_file_ok fuel e1 fs fname w 0 iter1 (set_meta_size meta 0) kv rest (names e) Hnum Ek Hf R1 Hw K1 Hp Hi1)
      as (d & iter2 & e2 & -> & Hd & R2 & K2 & Hi2). rewrite bind_some, (laws_status iter2 None Hi2), Z.eqb_refl. cbn [negb].
    pose proof (table_bytes_size kvs d Hd) as Hz. cbn [set_meta_size set_meta_range fm_file_size].
    rewrite Z.eqb_refl, (proj2 (Z.ltb_lt 0 (zlen d))) by lia. cbn [andb]. eexists _, iter2, e2. split; [reflexivity|]. split; [done|].
    split; [intros w' q' Hq _; by apply K2|]. exists d. by rewrite <- Ek.
Qed.
End Correct.
