(* ===== verification/TableCacheCorrect.v ===== *)
(** * The table cache is transparent

    In every state that its clients reach, the table cache (TableCache.v) answers
    as if it opened the table of a number anew: an iterator over the pairs of the
    table, or the pair that a lookup finds there; whatever blocks are in the block
    cache, which the tables share with others. *)

From stdpp Require Import strings sorting gmap.
From S2P Require Import Prelude Coding Status Strutil Comparator Bloom DBFormat Options File Iterator IteratorWrapper BlockBuilder Block TwoLevel FilterBlock Format TableBuilder Table VersionEdit FileList Env LRU LRUCorrect LRUCache BuildTable TableCache.
#[local] Open Scope Z_scope.

(** ** Opening files for random access *)

Class RandLaws {E R : Type} (rep : E -> fsview -> Prop) (randfile : E -> bytes -> bool -> Z + R) (rrep : R -> bytes -> Prop) : Prop := {
  rand_there e fs p f mmap : rep e fs -> fs !! p = Some f -> exists r, randfile e p mmap = inr r /\ rrep r (vf_data f);
  rand_missing e fs p mmap : rep e fs -> fs !! p = None -> exists rc, randfile e p mmap = inl rc /\ rc <> LDB_OK
}.

Definition disk_randfile (e : disk) (p : bytes) (mmap : bool) : Z + bytes :=
  match dk_files e !! p with Some f => inr (vf_data f) | None => inl LDB_ENOENT end.

#[export] Instance disk_rand_laws : RandLaws disk_rep disk_randfile eq.
Proof.
  split; unfold disk_rep, disk_randfile.
  - intros e fs p f mmap <- ->. by eexists.
  - intros e fs p mmap <- ->. by eexists.
Qed.

(** ** Iterators *)

Section Iter.
Context {R : Type} (rops : rfile_ops R) (malloc : Z -> bool) (block_cache : option (bytes -> option block)).

(** The position of an iterator over the table of an entry. *)
Definition opened_rep (tbl : table R) (ro : readopt) (handle : nat * nat) (r : @twoiter blockreader_iter blockreader_iter -> option nat -> Prop)
    (s : Z + opened_iter R) (p : option nat) : Prop :=
  exists it, s = inr it /\ oi_table it = tbl /\ oi_options it = ro /\ oi_handle it = handle /\ r (oi_iter it) p.

Lemma opened_iter_laws tbl ro handle dom cmp kvs r :
  IteratorLaws (ldb_tableiter_table rops malloc block_cache tbl ro) dom cmp kvs r ->
  IteratorLaws (cache_iter_table rops malloc block_cache) dom cmp kvs (opened_rep tbl ro handle r).
Proof.
  intros L. set (r' := fun (s : opened_iter R) p => oi_table s = tbl /\ oi_options s = ro /\ oi_handle s = handle /\ r (oi_iter s) p).
  assert (IteratorLaws (opened_iter_table rops malloc block_cache) dom cmp kvs r') as L'.
  { assert (forall (s : opened_iter R) q it, oi_table s = tbl -> oi_options s = ro -> oi_handle s = handle -> r it q ->
      r' (OpenedIter (oi_table s) (oi_options s) (oi_handle s) it) q) as Hm by done.
    unfold opened_iter_table. destruct L. split; cbn [it_valid it_first it_last it_seek it_next it_prev it_key it_value it_status]; intros [t o h i]; unfold r';
      cbn [oi_table oi_options oi_handle oi_iter].
    - intros j (-> & -> & -> & Hs). eauto.
    - intros q (-> & -> & -> & Hs). eauto.
    - intros q (-> & -> & -> & Hs). eauto.
    - intros j kv (-> & -> & -> & Hs). eauto.
    - intros q (-> & -> & -> & Hs). destruct (laws_first i q Hs) as (s' & -> & Hs'). by eexists.
    - intros q (-> & -> & -> & Hs). destruct (laws_last i q Hs) as (s' & -> & Hs'). by eexists.
    - intros q target (-> & -> & -> & Hs) Ht. destruct (laws_seek i q target Hs Ht) as (s' & -> & Hs'). by eexists.
    - intros j (-> & -> & -> & Hs). destruct (laws_next i j Hs) as (s' & -> & Hs'). by eexists.
    - intros j (-> & -> & -> & Hs). destruct (laws_prev i j Hs) as (s' & -> & Hs'). by eexists. }
  exact (sum_iter_laws ldb_emptyiter_table _ dom cmp kvs r').
Qed.
End Iter.

(** ** The invariant *)

(** The file of a table, and how it is cut into blocks. *)
Record stored_table := StoredTable {
  st_bytes : bytes;
  st_kvs : pairs;
  st_blocks : list (pairs * handle);
  st_index : pairs;
  st_metaindex : handle;
  st_index_handle : handle;
  st_filter : handle
}.

Definition st_image (dom : bytes -> Prop) (cmp : comparator) (options : dbopt) (t : stored_table) : Prop :=
  table_image dom cmp options (st_kvs t) (st_bytes t) (st_blocks t) (st_index t) (st_metaindex t) (st_index_handle t) (st_filter t).

Definition stored_ok (dom : bytes -> Prop) (cmp : comparator) (options : dbopt) (c : Z) (t : stored_table) : Prop :=
  st_image dom cmp options t /\ total_ok c (st_kvs t) /\ sorted_pairs cmp (st_kvs t) /\ Forall (fun kv => dom kv.1) (st_kvs t).

Lemma stored_of dom cmp options c kvs d : table_bytes dom cmp options kvs d -> total_ok c kvs -> sorted_pairs cmp kvs -> Forall (fun kv => dom kv.1) kvs ->
  exists t, st_bytes t = d /\ st_kvs t = kvs /\ stored_ok dom cmp options c t.
Proof. intros (blocks & ix & mh & ih & fh & img) Ht Hs Hd. by exists (StoredTable d kvs blocks ix mh ih fh). Qed.

(** The key of a block in the block cache, by the identifier of its table and its
    offset. *)
Definition block_key (id off : Z) : bytes := fixed64_write id ++ fixed64_write off.

Lemma block_key_inj id off id' off' : 0 <= id < 2 ^ 64 -> 0 <= off < 2 ^ 64 -> 0 <= id' < 2 ^ 64 -> 0 <= off' < 2 ^ 64 ->
  block_key id off = block_key id' off' -> id = id' /\ off = off'.
Proof.
  unfold block_key. intros H1 H2 H3 H4 E1. split.
  - rewrite <- (fixed64_decode_write id (fixed64_write off)), <- (fixed64_decode_write id' (fixed64_write off')) by done. by rewrite E1.
  - assert (length (fixed64_write id) = length (fixed64_write id')) as Hl by (pose proof (zlen_fixed64_write id); pose proof (zlen_fixed64_write id'); unfold zlen in *; lia).
    apply app_inj_1 in E1 as [_ E1]; [|done]. rewrite <- (fixed64_decode_write off []), <- (fixed64_decode_write off' []) by done. by rewrite E1.
Qed.

(** A block cache whose entries are of tables with identifiers up to the last. *)
Definition blocks_known (lookup : bytes -> option block) (last : Z) : Prop :=
  forall k blk, lookup k = Some blk -> exists id off, k = block_key id off /\ 0 <= id <= last /\ 0 <= off < 2 ^ 64.

Definition new_blocks (block_id : option Z) (bc : option (bytes -> option block)) : Prop :=
  match block_id, bc with
  | Some last, Some lookup => 0 <= last < 2 ^ 64 /\ blocks_known lookup last
  | None, None => True
  | _, _ => False
  end.

(** The block cache after a block was read. *)
Definition block_inserted (bc : option (bytes -> option block)) (ins : option (bytes * block)) : option (bytes -> option block) :=
  lookup ← bc; Some (cache_insert lookup ins).

Section Correct.
Context {E R : Type} (rep : E -> fsview -> Prop) (randfile : E -> bytes -> bool -> Z + R) (rops : rfile_ops R) (rrep : R -> bytes -> Prop).
Context `{!RandLaws rep randfile rrep, !RFileLaws rops rrep} (malloc : Z -> bool).
Hypothesis malloc_ok : forall n, 0 <= n < 2 ^ 33 -> malloc n = true.
Context (dom : bytes -> Prop) (cmp : comparator) `{!ComparatorLaws dom cmp} (options : dbopt) (c : Z).
Hypothesis ook : options_ok dom cmp options c.
Context (dbname : bytes) (capacity : Z).

(** The table with a number; numbers are not used again. *)
Context (file_of : Z -> option stored_table).
Hypothesis files_ok : forall number t, file_of number = Some t -> stored_ok dom cmp options c t.

Local Abbreviation clients := (@clients (table_entry R)).
Local Abbreviation interval := (opt_block_restart_interval options).

(** [ids]: the numbers of the tables to which this cache has given identifiers.
    An entry is the open table of its number, with an identifier of its own if
    there is a block cache. *)
Definition opened_as (ids : gmap Z Z) (block_id : option Z) (number : Z) (t : stored_table) (entry : table_entry R) : Prop :=
  exists id, rrep (te_file entry) (st_bytes t) /\
    ldb_table_open rops malloc options (te_file entry) (zlen (st_bytes t)) id = Some (LDB_OK, Some (te_table entry)) /\
    (is_Some block_id -> ids !! id = Some number).

Definition entry_ok (ids : gmap Z Z) (block_id : option Z) (key : bytes) (entry : table_entry R) : Prop :=
  exists number t, key = fixed64_write number /\ 0 <= number < 2 ^ 64 /\ file_of number = Some t /\ opened_as ids block_id number t entry.

(** What the block cache has for a table is what is in the file of the table. *)
Definition blocks_right (ids : gmap Z Z) (lookup : bytes -> option block) : Prop :=
  forall id number t b blk, ids !! id = Some number -> file_of number = Some t -> b ∈ st_blocks t ->
    lookup (block_key id (h_offset b.2)) = Some blk -> ldb_block_init (build_block interval b.1) = Some blk.

Definition blocks_agree (ids : gmap Z Z) (block_id : option Z) (bc : option (bytes -> option block)) : Prop :=
  new_blocks block_id bc /\ forall last lookup, block_id = Some last -> bc = Some lookup ->
    (forall id, is_Some (ids !! id) -> 0 <= id <= last) /\ blocks_right ids lookup.

(** States after [n] calls of the LRU cache. *)
Record tables_known (ids : gmap Z Z) (n : nat) (cache : tables R) (cl : clients) (bc : option (bytes -> option block)) : Prop := {
  tk_reaches : reaches capacity n (tc_lru cache) cl;
  tk_options : tc_options cache = options;
  tk_dbname : tc_dbname cache = dbname;
  tk_entries i a key entry : inserted cl i !! a = Some (key, entry) -> entry_ok ids (tc_block_id cache) key entry;
  tk_blocks : blocks_agree ids (tc_block_id cache) bc
}.

Definition tables_ok (n : nat) (cache : tables R) (cl : clients) (bc : option (bytes -> option block)) : Prop := exists ids, tables_known ids n cache cl bc.

(** There is an identifier left for another table. *)
Definition ids_left (cache : tables R) : Prop := forall last, tc_block_id cache = Some last -> last + 1 < 2 ^ 64.

Lemma create_ok block_id bc : new_blocks block_id bc ->
  exists cache, ldb_tables_create dbname options capacity block_id = Some cache /\ tables_ok 0 cache no_clients bc.
Proof.
  intros Hb. destruct (create_inv (V := table_entry R) capacity) as (p & lru & E1 & _). unfold ldb_tables_create. rewrite E1, bind_some.
  eexists. split; [reflexivity|]. exists ∅. split; [by apply reach_create|done|done|done|]. split; [done|]. intros last lookup _ _. split.
  - intros id Hid. rewrite lookup_empty in Hid. by destruct Hid.
  - intros id number t b blk Hid. by rewrite lookup_empty in Hid.
Qed.

(** What an open table may find in the block cache. *)
Lemma opened_cache_ok ids n cache cl bc number t entry : tables_known ids n cache cl bc -> file_of number = Some t ->
  opened_as ids (tc_block_id cache) number t entry -> cache_ok interval (st_blocks t) (te_table entry) bc.
Proof.
  intros [_ _ _ _ [Hn Ha]] Hf (id & Hr & Eop & Hid) lookup b blk -> Hb El. destruct (tc_block_id cache) as [last|] eqn:Eb; [|done].
  destruct (Ha last lookup eq_refl eq_refl) as [_ Hright]. destruct (files_ok number t Hf) as (img & Ht & _). destruct ook as [Hc Hi Hc0 Hp H8].
  destruct (open_ok rops rrep malloc malloc_ok dom cmp options c Hi Hc0 ltac:(intros p Ep; by apply Hp) _ _ _ _ _ _ _ img Ht (te_file entry) id Hr)
    as (tbl & E1 & _ & _ & Eid & _). rewrite Eop in E1. injection E1 as <-. unfold block_cache_key in El. rewrite Eid in El.
  apply (Hright id number t b blk); [apply Hid; by eexists|done|done|exact El].
Qed.

(** The file is there, under either name. *)
Definition table_there (fs : fsview) (number : Z) (d : bytes) : Prop :=
  exists p, ldb_table_filename LDB_PATH_MAX dbname number = Some p /\
    ((exists n, fs !! p = Some (VFile d n)) \/
     (fs !! p = None /\ exists q n, ldb_sstable_filename LDB_PATH_MAX dbname number = Some q /\ fs !! q = Some (VFile d n))).

Lemma open_there e fs cache cl bc n number d : tables_ok n cache cl bc -> rep e fs -> table_there fs number d ->
  exists file, open_table_file randfile e cache number = inr file /\ rrep file d.
Proof.
  intros [ids Hc] Re (p & Ep & Hd). unfold open_table_file. rewrite (tk_dbname _ _ _ _ _ Hc), Ep.
  destruct Hd as [(m & Hp)|(Hp & q & m & Eq & Hq)].
  - destruct (rand_there e fs p _ (opt_use_mmap (tc_options cache)) Re Hp) as (r & -> & Hr). by exists r.
  - destruct (rand_missing e fs p (opt_use_mmap (tc_options cache)) Re Hp) as (rc & -> & _). rewrite Eq.
    destruct (rand_there e fs q _ (opt_use_mmap (tc_options cache)) Re Hq) as (r & -> & Hr). by exists r.
Qed.

Definition table_missing (fs : fsview) (number : Z) : Prop :=
  (forall p, ldb_table_filename LDB_PATH_MAX dbname number = Some p -> fs !! p = None) /\
  (forall q, ldb_sstable_filename LDB_PATH_MAX dbname number = Some q -> fs !! q = None).

Lemma open_missing e fs cache cl bc n number : tables_ok n cache cl bc -> rep e fs -> table_missing fs number ->
  exists rc, open_table_file randfile e cache number = inl rc /\ rc <> LDB_OK.
Proof.
  intros [ids Hc] Re [Hp Hq]. unfold open_table_file. rewrite (tk_dbname _ _ _ _ _ Hc).
  destruct (ldb_table_filename _ _ _) as [p|]; [|by exists LDB_INVALID].
  destruct (rand_missing e fs p (opt_use_mmap (tc_options cache)) Re (Hp p eq_refl)) as (rc & -> & Hrc).
  destruct (ldb_sstable_filename _ _ _) as [q|]; [|by exists LDB_INVALID].
  destruct (rand_missing e fs q (opt_use_mmap (tc_options cache)) Re (Hq q eq_refl)) as (rc' & -> & _). by exists rc.
Qed.

(** One handle is held once more, the others as before. *)
Definition holds_also (cl cl' : clients) (h : nat * nat) : Prop := forall i a, held cl' i a = held (hold h 1 cl) i a.
Definition holds_same (cl cl' : clients) : Prop := forall i a, held cl' i a = held cl i a.

Lemma hold_release h (cl cl' : clients) : holds_also cl cl' h -> holds_same cl (hold h (-1) cl').
Proof.
  intros Hh i a. specialize (Hh i a). unfold hold, at_shard, add_ref in *. cbn [held] in *. destruct (Nat.eqb i h.1); [|done]. destruct (Nat.eqb a h.2); lia.
Qed.

Lemma hold_held h n (cl : clients) : held (hold h n cl) h.1 h.2 = held cl h.1 h.2 + n.
Proof. unfold hold. cbn [held]. unfold at_shard. rewrite Nat.eqb_refl. apply add_ref_same. Qed.

Lemma fixed64_inj a b : 0 <= a < 2 ^ 64 -> 0 <= b < 2 ^ 64 -> fixed64_write a = fixed64_write b -> a = b.
Proof. intros Ha Hb E1. rewrite <- (fixed64_decode_write a []), <- (fixed64_decode_write b []) by lia. by rewrite E1. Qed.

(** A handle that was found or inserted for a number leads to its table. *)
Definition entry_at (cl : clients) (h : nat * nat) (number : Z) (entry : table_entry R) : Prop := inserted cl h.1 !! h.2 = Some (fixed64_write number, entry).

Definition found (cache : tables R) (cl : clients) (h : nat * nat) (number : Z) : Prop :=
  exists entry, ldb_lru_value (tc_lru cache) h = Some entry /\ 0 < held cl h.1 h.2 /\ entry_at cl h number entry.

Lemma held_found n cache cl bc h number : tables_ok n cache cl bc -> Z.of_nat n + 1 < 2 ^ 31 -> 0 < held cl h.1 h.2 -> 
  key_at (inserted cl h.1) (fixed64_write number) h.2 -> found cache cl h number.
Proof.
  intros [ids Hc] Hn Hh (entry & El). destruct (reaches_inv capacity n _ cl (tk_reaches _ _ _ _ _ Hc) Hn) as (_ & Hout & Hinv).
  exists entry. split; [|done]. destruct (lru_shards (tc_lru cache) !! h.1) as [s|] eqn:Es.
  - destruct (held_value _ _ s cl h.1 h.2 (Hinv _ s Es) Hh) as (hd & key & Eh & El'). rewrite El in El'. injection El' as <- ->.
    unfold ldb_lru_value. by rewrite Es, bind_some, Eh.
  - apply lookup_ge_None in Es. destruct (reaches_inv capacity n _ cl (tk_reaches _ _ _ _ _ Hc) Hn) as (Hl & _). rewrite Hout in Hh by lia. lia.
Qed.

(** The table that was inserted for a number. *)
Lemma entry_opened ids n cache cl bc h number t entry : tables_known ids n cache cl bc -> 0 <= number < 2 ^ 64 -> file_of number = Some t ->
  entry_at cl h number entry -> opened_as ids (tc_block_id cache) number t entry.
Proof.
  intros Hc Hnum Hf Hen. destruct (tk_entries _ _ _ _ _ Hc _ _ _ _ Hen) as (number' & t' & Ek & Hnum' & Hf' & Ho).
  apply fixed64_inj in Ek as <-; [|done|done]. rewrite Hf in Hf'. by injection Hf' as <-.
Qed.

Lemma current_key_at n cache cl bc key a : tables_ok n cache cl bc -> Z.of_nat n + 1 < 2 ^ 31 -> current cl key = Some a -> key_at (inserted cl (key_shard key)) key a.
Proof.
  intros [ids Hc] Hn Hcur. destruct (reaches_inv capacity n _ cl (tk_reaches _ _ _ _ _ Hc) Hn) as (Hl & _ & Hinv).
  destruct (lookup_lt_is_Some_2 (lru_shards (tc_lru cache)) (key_shard key)) as [s Es]; [rewrite Hl; apply key_shard_lt|].
  by apply (si_current _ _ _ _ _ (Hinv _ s Es)).
Qed.

Lemma held_nonneg n cache cl bc i a : tables_ok n cache cl bc -> Z.of_nat n + 1 < 2 ^ 31 -> 0 <= held cl i a.
Proof.
  intros [ids Hc] Hn. destruct (reaches_inv capacity n _ cl (tk_reaches _ _ _ _ _ Hc) Hn) as (Hl & Hout & Hinv).
  destruct (lru_shards (tc_lru cache) !! i) as [s|] eqn:Es.
  - apply (so_ext _ _ _ _ _ (si_ok _ _ _ _ _ (Hinv i s Es)) a).
  - apply lookup_ge_None in Es. rewrite Hout by lia. lia.
Qed.

(** Looking a key up. *)
Lemma lookup_found n cache cl bc number : tables_ok n cache cl bc -> Z.of_nat n + 2 < 2 ^ 31 ->
  exists r lru, ldb_lru_lookup (tc_lru cache) (fixed64_write number) = Some (r, lru) /\
    match r with
    | Some h => exists cl', tables_ok (S n) (set_lru cache lru) cl' bc /\ holds_also cl cl' h /\ found (set_lru cache lru) cl' h number
    | None => tables_ok (S n) (set_lru cache lru) cl bc
    end.
Proof.
  intros Hok Hn. pose proof Hok as [ids Hc]. set (key := fixed64_write number).
  destruct (reaches_step capacity n (tc_lru cache) cl (CallLookup key) (tk_reaches _ _ _ _ _ Hc) Hn I) as (r & lru & E1 & Hr & Hp & _).
  exists r, lru. split; [exact E1|]. cbn [clients_step promised] in Hr, Hp. destruct r as [h|].
  - destruct Hp as [Eh Hcur]. assert (tables_ok (S n) (set_lru cache lru) (hold h 1 cl) bc) as Hc'.
    { exists ids. destruct Hc. by split. }
    exists (hold h 1 cl). split; [done|]. split; [done|].
    apply (held_found (S n) _ _ bc h number Hc'); [lia| |].
    + rewrite hold_held. pose proof (held_nonneg n cache cl bc h.1 h.2 Hok). lia.
    + cbn [hold inserted]. rewrite Eh. apply (current_key_at n cache _ bc); [done|lia|done].
  - exists ids. destruct Hc. by split.
Qed.

(** Inserting an open table. *)
Lemma insert_found ids n cache cl bc number entry : tables_known ids n cache cl bc -> Z.of_nat n + 2 < 2 ^ 31 ->
  entry_ok ids (tc_block_id cache) (fixed64_write number) entry ->
  exists h lru cl', ldb_lru_insert (tc_lru cache) (fixed64_write number) entry 1 = Some (h, lru) /\ tables_ok (S n) (set_lru cache lru) cl' bc /\
    holds_also cl cl' h /\ found (set_lru cache lru) cl' h number.
Proof.
  intros Hc Hn Hen. set (key := fixed64_write number).
  destruct (reaches_step capacity n (tc_lru cache) cl (CallInsert key entry 1) (tk_reaches _ _ _ _ _ Hc) Hn ltac:(cbn; lia)) as (r & lru & E1 & Hre & Hp & _).
  cbn [lru_step] in E1. destruct (ldb_lru_insert _ _ _ _) as [[h lru']|]; [|done]. rewrite bind_some in E1. injection E1 as <- <-.
  destruct Hp as (Eh & Ea & Hz). set (cl' := clients_step cl (CallInsert key entry 1) (Some h)) in *.
  assert (inserted cl' h.1 = inserted cl h.1 ++ [(key, entry)]) as Ei by (unfold cl'; cbn [clients_step hold inserted]; by rewrite at_shard_same).
  assert (tables_ok (S n) (set_lru cache lru') cl' bc) as Hc'.
  { exists ids. destruct Hc. split; [done..| |done]. intros i a k en. destruct (decide (i = h.1)) as [->|Hne].
    - rewrite Ei. intros [El|[_ El]]%lookup_app_Some; [eauto|]. destruct (a - _)%nat as [|[]]; [|done|done]. by injection El as <- <-.
    - assert (inserted cl' i = inserted cl i) as -> by (unfold cl'; cbn [clients_step hold inserted]; by rewrite at_shard_other). eauto. }
  exists h, lru', cl'. split; [done|]. split; [done|]. split; [done|].
  apply (held_found (S n) _ _ bc h number Hc'); [lia| |].
  - unfold cl'. cbn [clients_step]. rewrite hold_held. cbn [held]. lia.
  - rewrite Ei. exists entry. rewrite Ea, lookup_app_r, Nat.sub_diag by lia. done.
Qed.

(** A table gets an identifier of its own. *)
Lemma next_id_ok ids n cache cl bc number id opened : tables_known ids n cache cl bc -> ids_left cache -> next_block_id cache = (id, opened) ->
  exists ids', tables_known ids' n opened cl bc /\ (is_Some (tc_block_id opened) -> ids' !! id = Some number) /\ tc_lru opened = tc_lru cache.
Proof.
  intros Hc Hleft. unfold next_block_id. destruct (tc_block_id cache) as [last|] eqn:Eb.
  2: { intros [= <- <-]. exists ids. split; [done|]. split; [|done]. rewrite Eb. by intros []. }
  specialize (Hleft last Eb). destruct Hc as [H1 H2 H3 H4 [H5 H6]]. rewrite Eb in *. unfold new_blocks in H5. destruct bc as [lookup|]; [|done].
  destruct H5 as [Hl Hkn]. destruct (H6 last lookup eq_refl eq_refl) as [Hids Hright]. rewrite u64_small by lia. intros [= <- <-].
  exists (<[last + 1 := number]> ids). split; [|split; [|done]]; [|cbn; by rewrite lookup_insert_eq].
  assert (forall i m, ids !! i = Some m -> <[last + 1 := number]> ids !! i = Some m) as Keep.
  { intros i m Hi. rewrite lookup_insert_ne; [done|]. specialize (Hids i ltac:(by eexists)). lia. }
  split; cbn [tc_lru tc_options tc_dbname tc_block_id]; try done.
  - intros i a key entry Hen. destruct (H4 i a key entry Hen) as (m & t & Ek & Hm & Hf & i' & Hr & Eop & Hi). exists m, t. do 3 (split; [done|]). exists i'.
    split; [done|]. split; [done|]. intros _. apply Keep, Hi. by eexists.
  - split.
    + split; [lia|]. intros k blk Hk. destruct (Hkn k blk Hk) as (i & off & -> & Hi & Hoff). exists i, off. split; [done|]. lia.
    + intros last0 lookup0 [= <-] [= <-]. split.
      * intros i [m Hi]. apply lookup_insert_Some in Hi as [[<- _]|[_ Hi]]; [lia|]. specialize (Hids i ltac:(by eexists)). lia.
      * intros i m t b blk Hi Hf Hb Hk. apply lookup_insert_Some in Hi as [[<- ->]|[_ Hi]]; [|by apply (Hright i m t)].
        destruct (Hkn _ _ Hk) as (i & off & Ek & Hi & Hoff). exfalso. destruct (files_ok m t Hf) as (img & _).
        apply list_elem_of_lookup in Hb as [j Hj]. destruct (block_handle_ok _ _ _ _ _ _ _ _ _ _ img j b Hj) as [Hb _]. unfold ones64 in Hb.
        apply block_key_inj in Ek as [E1 _]; lia.
Qed.

Lemma open_stored file t id : rrep file (st_bytes t) -> stored_ok dom cmp options c t ->
  exists tbl, ldb_table_open rops malloc options file (zlen (st_bytes t)) id = Some (LDB_OK, Some tbl).
Proof.
  intros Hr (img & Ht & _). destruct ook as [Hc Hi Hc0 Hp H8].
  destruct (open_ok rops rrep malloc malloc_ok dom cmp options c Hi Hc0 ltac:(intros p Ep; by apply Hp) _ _ _ _ _ _ _ img Ht file id Hr)
    as (tbl & E1 & _). by exists tbl.
Qed.

Lemma find_found n cache cl bc e fs number t : tables_ok n cache cl bc -> Z.of_nat n + 3 < 2 ^ 31 -> ids_left cache -> 0 <= number < 2 ^ 64 ->
  file_of number = Some t -> rep e fs -> table_there fs number (st_bytes t) ->
  exists h cache' n' cl', find_table randfile rops malloc e cache number (zlen (st_bytes t)) = Some (LDB_OK, Some h, cache') /\ (n' <= n + 2)%nat /\
    tables_ok n' cache' cl' bc /\ holds_also cl cl' h /\ found cache' cl' h number.
Proof.
  intros Hc Hn Hleft Hnum Hf Re Hd. unfold find_table.
  destruct (lookup_found n cache cl bc number Hc ltac:(lia)) as (r & lru & -> & Hr). rewrite bind_some. cbv zeta. destruct r as [h|].
  - destruct Hr as (cl' & Hc' & Hk & Hfo). exists h, (set_lru cache lru), (S n), cl'. split; [done|]. split; [lia|done].
  - destruct (open_there e fs _ cl bc _ number _ Hr Re Hd) as (file & -> & Hrr). destruct Hr as [ids Hr].
    assert (tc_options (set_lru cache lru) = options) as -> by apply Hr.
    destruct (next_block_id (set_lru cache lru)) as [id opened] eqn:En.
    destruct (next_id_ok ids (S n) (set_lru cache lru) cl bc number id opened Hr Hleft En) as (ids' & Ho & Hid & _).
    destruct (open_stored file t id Hrr (files_ok number t Hf)) as (tbl & Eop). rewrite Eop, bind_some. change (LDB_OK =? LDB_OK) with true. cbv iota.
    destruct (insert_found ids' (S n) opened cl bc number (TableEntry file tbl) Ho ltac:(lia)) as (h & lru2 & cl' & -> & Hc' & Hk & Hfo).
    { exists number, t. do 3 (split; [done|]). by exists id. }
    rewrite bind_some. exists h, (set_lru opened lru2), (S (S n)), cl'. split; [done|]. split; [lia|done].
Qed.

Lemma find_missing n cache cl bc e fs number size : tables_ok n cache cl bc -> Z.of_nat n + 3 < 2 ^ 31 -> rep e fs -> table_missing fs number ->
  current cl (fixed64_write number) = None ->
  exists rc cache', find_table randfile rops malloc e cache number size = Some (rc, None, cache') /\ rc <> LDB_OK /\ tables_ok (S n) cache' cl bc.
Proof.
  intros [ids Hc] Hn Re Hm Hcur. unfold find_table. set (key := fixed64_write number) in *.
  destruct (reaches_step capacity n (tc_lru cache) cl (CallLookup key) (tk_reaches _ _ _ _ _ Hc) ltac:(lia) I) as (r & lru & E1 & Hr & Hp & _).
  cbn [lru_step] in E1. rewrite E1, bind_some. cbv zeta. cbn [promised] in Hp. destruct r as [h|]; [destruct Hp; congruence|].
  assert (tables_ok (S n) (set_lru cache lru) cl bc) as Hc' by (exists ids; destruct Hc; by split).
  destruct (open_missing e fs _ cl bc _ number Hc' Re Hm) as (rc & -> & Hrc). by exists rc, (set_lru cache lru).
Qed.

Lemma release_ok n cache cl bc h : tables_ok n cache cl bc -> Z.of_nat n + 2 < 2 ^ 31 -> 0 < held cl h.1 h.2 ->
  exists cache', unref_entry cache h = Some cache' /\ tables_ok (S n) cache' (hold h (-1) cl) bc.
Proof.
  intros [ids Hc] Hn Hh. destruct (reaches_step capacity n (tc_lru cache) cl (CallRelease h) (tk_reaches _ _ _ _ _ Hc) Hn Hh) as (r & lru & E1 & Hr & _).
  cbn [lru_step] in E1. unfold unref_entry. destruct (ldb_lru_release _ _) as [lru'|]; [|done]. rewrite bind_some in E1. injection E1 as <- <-.
  rewrite bind_some. eexists. split; [reflexivity|]. exists ids. destruct Hc. by split.
Qed.

Lemma evict_step n cache cl bc number : tables_ok n cache cl bc -> Z.of_nat n + 2 < 2 ^ 31 ->
  exists cache', ldb_tables_evict cache number = Some cache' /\ tables_ok (S n) cache' (clients_step cl (CallErase (fixed64_write number)) None) bc.
Proof.
  intros [ids Hc] Hn. destruct (reaches_step capacity n (tc_lru cache) cl (CallErase (fixed64_write number)) (tk_reaches _ _ _ _ _ Hc) Hn I) as (r & lru & E1 & Hr & _).
  cbn [lru_step] in E1. unfold ldb_tables_evict. destruct (ldb_lru_erase _ _) as [lru'|]; [|done]. rewrite bind_some in E1. injection E1 as <- <-.
  rewrite bind_some. eexists. split; [reflexivity|]. exists ids. destruct Hc. by split.
Qed.

(** *** Reading *)

Lemma entry_tbl_ok ids number t block_id entry : file_of number = Some t -> opened_as ids block_id number t entry ->
  tbl_ok rrep options (st_bytes t) (st_blocks t) (st_index t) (st_metaindex t) (te_table entry).
Proof.
  intros Hf (id & Hr & Eop & _). destruct (files_ok number t Hf) as (img & Ht & _). destruct ook as [Hc Hi Hc0 Hp H8].
  destruct (open_ok rops rrep malloc malloc_ok dom cmp options c Hi Hc0 ltac:(intros p Ep; by apply Hp) _ _ _ _ _ _ _ img Ht (te_file entry) id Hr)
    as (tbl & E1 & Ho & Hfi & _ & Hfl & Hm & Hix). rewrite Eop in E1. injection E1 as <-. split; [done|by rewrite Hfi|done..].
Qed.

(** An iterator over a table stays one, whatever happens to the caches. *)
Definition iterates (it : opened_iter R) (number : Z) (t : stored_table) : Prop :=
  exists r, r (inr it) None /\ forall n cache cl bc entry, tables_ok n cache cl bc -> entry_at cl (oi_handle it) number entry -> te_table entry = oi_table it ->
    IteratorLaws (cache_iter_table rops malloc bc) dom cmp (st_kvs t) r.

Lemma entry_iterates number t ids (cache : tables R) entry h ro : 0 <= number < 2 ^ 64 -> file_of number = Some t -> opened_as ids (tc_block_id cache) number t entry ->
  exists it, ldb_tableiter_create (te_table entry) ro = Some it /\ iterates (OpenedIter (te_table entry) ro h it) number t.
Proof.
  intros Hnum Hf Ho. pose proof (entry_tbl_ok _ _ _ _ _ Hf Ho) as tok. destruct (files_ok number t Hf) as (img & Ht & Hs & Hd). destruct ook as [Hc Hi Hc0 Hp H8].
  destruct (tableiter_starts rrep dom cmp H8 options c Hc Hc0 _ _ _ _ _ _ _ img Ht Hd (te_table entry) tok ro) as (it & E1 & Rit).
  exists it. split; [exact E1|]. exists (opened_rep (te_table entry) ro h (tableiter_rep dom cmp (st_blocks t) (st_index t))). split; [by exists (OpenedIter (te_table entry) ro h it)|].
  intros n cache2 cl bc entry2 [ids2 Hc2] Hen Et. cbn [oi_table oi_handle] in *. apply opened_iter_laws. rewrite <- Et.
  pose proof (entry_opened _ _ _ _ _ _ _ _ _ Hc2 Hnum Hf Hen) as Ho2.
  apply (tableiter_laws rops rrep malloc malloc_ok dom cmp H8 options c Hc Hi Hc0 _ _ _ _ _ _ _ img Ht Hs Hd (te_table entry2) bc (entry_tbl_ok _ _ _ _ _ Hf Ho2)).
  by apply (opened_cache_ok ids2 n cache2 cl bc number).
Qed.

Lemma iterate_ok n cache cl bc e fs number t ro : tables_ok n cache cl bc -> Z.of_nat n + 3 < 2 ^ 31 -> ids_left cache -> 0 <= number < 2 ^ 64 -> file_of number = Some t ->
  rep e fs -> table_there fs number (st_bytes t) ->
  exists it cache' n' cl', tables_iterate randfile rops malloc e cache ro number (zlen (st_bytes t)) = Some (inr it, cache') /\ (n' <= n + 2)%nat /\
    tables_ok n' cache' cl' bc /\ holds_also cl cl' (oi_handle it) /\ 0 < held cl' (oi_handle it).1 (oi_handle it).2 /\
    (exists entry, entry_at cl' (oi_handle it) number entry /\ te_table entry = oi_table it) /\ iterates it number t.
Proof.
  intros Hc Hn Hleft Hnum Hf Re Hth.
  destruct (find_found n cache cl bc e fs number t Hc Hn Hleft Hnum Hf Re Hth) as (h & cache' & n' & cl' & E1 & Hle & Hc' & Hk & entry & Ev & Hh & Hen).
  unfold tables_iterate. rewrite E1, bind_some, Ev, bind_some. pose proof Hc' as [ids Hkn].
  destruct (entry_iterates number t ids cache' entry h ro Hnum Hf (entry_opened _ _ _ _ _ _ _ _ _ Hkn Hnum Hf Hen)) as (it & -> & Hit).
  rewrite bind_some. eexists _, cache', n', cl'. split; [reflexivity|]. split; [done|]. split; [done|]. split; [done|]. split; [done|]. split; [by exists entry|done].
Qed.

Lemma get_ok n cache cl bc e fs number t ro k : tables_ok n cache cl bc -> Z.of_nat n + 4 < 2 ^ 31 -> ids_left cache -> 0 <= number < 2 ^ 64 -> file_of number = Some t ->
  rep e fs -> table_there fs number (st_bytes t) -> dom k ->
  exists r cache' n' cl', tables_get randfile rops malloc bc e cache ro number (zlen (st_bytes t)) k = Some (LDB_OK, r, cache') /\ (n' <= n + 3)%nat /\
    tables_ok n' cache' cl' bc /\ holds_same cl cl' /\ (r = None \/ r = st_kvs t !! count_lt cmp k (st_kvs t)) /\
    forall kv, st_kvs t !! count_lt cmp k (st_kvs t) = Some kv -> unseparated dom cmp k kv.1 ->
      (forall p f, opt_filter_policy options = Some p -> bloom_match_fn p f k = bloom_match_fn p f kv.1) -> r = Some kv.
Proof.
  intros Hc Hn Hleft Hnum Hf Re Hth Hk. unfold tables_get.
  destruct (find_found n cache cl bc e fs number t Hc ltac:(lia) Hleft Hnum Hf Re Hth)
    as (h & cache' & n' & cl' & E1 & Hle & Hc' & Hkeep & entry & Ev & Hh & Hen).
  rewrite E1, bind_some, Ev, bind_some. pose proof Hc' as [ids Hkn]. pose proof (entry_opened _ _ _ _ _ _ _ _ _ Hkn Hnum Hf Hen) as Ho.
  pose proof (opened_cache_ok _ _ _ _ _ _ _ _ Hkn Hf Ho) as cok. pose proof (entry_tbl_ok _ _ _ _ _ Hf Ho) as tok.
  destruct (files_ok number t Hf) as (img & Ht & Hs & Hd). destruct ook as [Hcmp Hi Hc0 Hp H8].
  destruct (internal_get_ok rops rrep malloc malloc_ok dom cmp H8 options c Hcmp Hi Hc0 ltac:(intros p Ep; by apply Hp) _ _ _ _ _ _ _ img Ht Hs Hd
    (te_table entry) bc tok cok ro k Hk) as (r & -> & Hres).
  rewrite bind_some. destruct (release_ok n' cache' cl' bc h Hc' ltac:(lia) Hh) as (cache2 & -> & Hc2).
  rewrite bind_some. exists r, cache2, (S n'), (hold h (-1) cl'). split; [done|]. split; [lia|]. split; [done|]. split; [by apply hold_release|done].
Qed.

(** *** The block cache *)

(** A block of an open table is read. *)
Lemma read_block_cached n cache cl bc i a key entry ro : tables_ok n cache cl bc -> inserted cl i !! a = Some (key, entry) ->
  exists number t, key = fixed64_write number /\ file_of number = Some t /\ rrep (te_file entry) (st_bytes t) /\ forall b, b ∈ st_blocks t ->
    exists blk ins, find_block rops malloc bc (te_table entry) ro (handle_bytes b.2) = Some (inr blk, ins) /\
      ldb_block_init (build_block interval b.1) = Some blk /\ tables_ok n cache cl (block_inserted bc ins).
Proof.
  intros [ids Hkn] Hen. destruct (tk_entries _ _ _ _ _ Hkn _ _ _ _ Hen) as (number & t & -> & Hnum & Hf & Ho). exists number, t.
  split; [done|]. split; [done|]. split; [by destruct Ho as (id & ? & _)|]. intros b Hb.
  pose proof (opened_cache_ok _ _ _ _ _ _ _ _ Hkn Hf Ho) as cok. pose proof (entry_tbl_ok _ _ _ _ _ Hf Ho) as tok.
  destruct (files_ok number t Hf) as (img & Ht & Hs & Hd). destruct ook as [Hcmp Hi Hc0 Hp H8]. apply list_elem_of_lookup in Hb as [j Hj].
  destruct (find_block_ok rops rrep malloc malloc_ok dom cmp options c Hc0 _ _ _ _ _ _ _ img Ht Hs Hd (te_table entry) bc tok cok ro j b Hj)
    as (blk & ins & E1 & Eb & Hins). exists blk, ins. split; [exact E1|]. split; [exact Eb|]. destruct ins as [[k blk']|]; [|exists ids; destruct bc; by destruct Hkn].
  destruct (Hins k blk' eq_refl) as [-> ->]. destruct Ho as (id & Hr & Eop & Hid).
  destruct (open_ok rops rrep malloc malloc_ok dom cmp options c Hi Hc0 ltac:(intros p Ep; by apply Hp) _ _ _ _ _ _ _ img Ht (te_file entry) id Hr)
    as (tbl & E2 & _ & _ & Eid & _). rewrite Eop in E2. injection E2 as <-.
  assert (block_cache_key (te_table entry) b.2 = block_key id (h_offset b.2)) as -> by (unfold block_cache_key; by rewrite Eid).
  destruct (block_handle_ok _ _ _ _ _ _ _ _ _ _ img j b Hj) as [Hoff _]. unfold ones64 in Hoff.
  exists ids. destruct Hkn as [K1 K2 K3 K4 [K5 K6]]. split; try done. unfold new_blocks in K5. destruct (tc_block_id cache) as [last|], bc as [lookup|]; try done.
  destruct K5 as [Hl K5]. destruct (K6 last lookup eq_refl eq_refl) as [Hids Hright]. specialize (Hid ltac:(by eexists)).
  pose proof (Hids id ltac:(by eexists)) as Hidr. cbn [block_inserted mbind option_bind]. split.
  - split; [done|]. intros k blk2. unfold cache_insert. destruct (decide (k = block_key id (h_offset b.2))) as [->|Hne];
      [|rewrite bool_decide_eq_false_2 by done; apply K5]. intros _. exists id, (h_offset b.2). split; [done|]. lia.
  - intros last0 lookup0 [= <-] [= <-]. split; [done|]. intros id2 number2 t2 b2 blk2 Hid2 Hf2 Hb2. unfold cache_insert.
    case_bool_decide as D; [|by apply (Hright id2 number2 t2)]. intros [= <-].
    destruct (files_ok number2 t2 Hf2) as (img2 & _). apply list_elem_of_lookup in Hb2 as [j2 Hj2].
    destruct (block_handle_ok _ _ _ _ _ _ _ _ _ _ img2 j2 b2 Hj2) as [Hoff2 _]. unfold ones64 in Hoff2. pose proof (Hids id2 ltac:(by eexists)) as Hidr2.
    apply block_key_inj in D as [-> D]; [|lia..]. rewrite Hid in Hid2. injection Hid2 as <-. rewrite Hf in Hf2. injection Hf2 as <-.
    assert (b = b2) as <-; [|done]. apply (cache_key_block dom cmp options (st_kvs t) (st_bytes t) (st_blocks t) (st_index t) (st_metaindex t) (st_index_handle t)
      (st_filter t) img (te_table entry) j j2); [done|done|]. unfold block_cache_key. by rewrite D.
Qed.

(** Others use the block cache too: blocks go, and come for identifiers that
    others got. *)
Lemma others_use_blocks n cache cl last lookup last' lookup' : tables_ok n cache cl (Some lookup) -> tc_block_id cache = Some last -> last <= last' < 2 ^ 64 ->
  (forall k blk, lookup' k = Some blk -> lookup k = Some blk \/ exists id off, k = block_key id off /\ last < id <= last' /\ 0 <= off < 2 ^ 64) ->
  tables_ok n (Tables (tc_dbname cache) (tc_options cache) (tc_lru cache) (Some last')) cl (Some lookup').
Proof.
  intros [ids [K1 K2 K3 K4 [K5 K6]]] Eb Hl Hk. rewrite Eb in *. destruct K5 as [Hl0 K5]. destruct (K6 last lookup eq_refl eq_refl) as [Hids Hright].
  exists ids. split; cbn [tc_lru tc_options tc_dbname tc_block_id]; [done..| |].
  { intros i a key entry Hen. destruct (K4 i a key entry Hen) as (m & t & Ek & Hm & Hf & id & Hr & Eop & Hid). exists m, t. do 3 (split; [done|]).
    exists id. split; [done|]. split; [done|]. intros _. apply Hid. by eexists. }
  split.
  - split; [lia|]. intros k blk Hk'. destruct (Hk k blk Hk') as [Ho|(id & off & -> & Hid & Hoff)]; [|exists id, off; split; [done|lia]].
    destruct (K5 k blk Ho) as (id & off & -> & Hid & Hoff). exists id, off. split; [done|lia].
  - intros last0 lookup0 [= <-] [= <-]. split; [intros id Hid; specialize (Hids id Hid); lia|].
    intros id number t b blk Hid Hf Hb Hk'. destruct (Hk _ _ Hk') as [Ho|(id2 & off & Ek & Hid2 & Hoff)]; [by apply (Hright id number t)|]. exfalso.
    destruct (files_ok number t Hf) as (img & _). apply list_elem_of_lookup in Hb as [j Hj].
    destruct (block_handle_ok _ _ _ _ _ _ _ _ _ _ img j b Hj) as [Hb _]. unfold ones64 in Hb. pose proof (Hids id ltac:(by eexists)).
    apply block_key_inj in Ek as [-> _]; lia.
Qed.
End Correct.

(** ** As an interface *)

Section Interface.
Context {E R : Type} (rep : E -> fsview -> Prop) (randfile : E -> bytes -> bool -> Z + R) (rops : rfile_ops R) (rrep : R -> bytes -> Prop).
Context `{!RandLaws rep randfile rrep, !RFileLaws rops rrep} (malloc : Z -> bool).
Hypothesis malloc_ok : forall n, 0 <= n < 2 ^ 33 -> malloc n = true.

(** The iterator in the state in which it was made. *)
Lemma iterates_now dom cmp options dbname capacity file_of n (cache : tables R) cl bc it number t :
  tables_ok rops rrep malloc options dbname capacity file_of n cache cl bc -> (exists entry, entry_at cl (oi_handle it) number entry /\ te_table entry = oi_table it) ->
  iterates rops rrep malloc dom cmp options dbname capacity file_of it number t -> any_rep (cache_iter_table rops malloc bc) dom cmp (st_kvs t) (inr it) None.
Proof. intros Hc (entry & Hen & Et) (r & Hr & L). exists r. split; [by apply (L n cache cl bc entry)|done]. Qed.

(** A new cache serves whatever table is there. *)
Lemma new_cache_access (dom : bytes -> Prop) (cmp : comparator) `{!ComparatorLaws dom cmp} options c dbname entries block_id bc cache :
  options_ok dom cmp options c -> new_blocks block_id bc -> (forall last, block_id = Some last -> last + 1 < 2 ^ 64) ->
  ldb_tables_create dbname options entries block_id = Some cache ->
  TableAccess rep (cache_iter_table rops malloc bc) (fun e => tables_view randfile rops malloc bc e cache) dbname dom cmp options c.
Proof.
  intros ook Hb Hleft Ec e fs ro number p d n kvs Hnum Re Hp Hfs Htb Ht Hs Hd. destruct (stored_of dom cmp options c kvs d Htb Ht Hs Hd) as (t & <- & <- & Hok).
  set (file_of := fun k : Z => if k =? number then Some t else None).
  assert (forall k t', file_of k = Some t' -> stored_ok dom cmp options c t') as Hfiles by (unfold file_of; intros k t'; destruct (_ =? _); [by intros [= <-]|done]).
  destruct (create_ok rops rrep malloc options dbname entries file_of block_id bc Hb) as (cache' & Ec' & Hc). rewrite Ec in Ec'. injection Ec' as <-.
  assert (tc_block_id cache = block_id) as Eid by (unfold ldb_tables_create in Ec; destruct (ldb_lru_create entries); [rewrite bind_some in Ec; by injection Ec as <-|done]).
  destruct (iterate_ok rep randfile rops rrep malloc malloc_ok dom cmp options c ook dbname entries file_of Hfiles 0 cache no_clients bc e fs number t ro Hc ltac:(lia)
    ltac:(intros last El; apply Hleft; congruence) Hnum) as (it & cache' & n' & cl' & E1 & _ & Hc' & _ & _ & Hen & Hit); [|done| |].
  - unfold file_of. by rewrite Z.eqb_refl.
  - exists p. split; [done|]. left. by exists n.
  - exists (inr it), None. split; [cbn [tables_view ldb_tables_iterate]; by rewrite E1, bind_some|]. by eapply iterates_now.
Qed.

(** The tables of an internal-key order that are there, by number and size. *)
Definition served (dbname : bytes) (file_of : Z -> option stored_table) (fs : fsview) (kvs_of : Z -> Z -> option pairs) : Prop :=
  forall number size kvs, kvs_of number size = Some kvs -> 0 <= number < 2 ^ 64 /\
    exists t, file_of number = Some t /\ kvs = st_kvs t /\ size = zlen (st_bytes t) /\ table_there dbname fs number (st_bytes t).

(** Every state of the cache keeps the interface that the version set relies
    on. *)
Lemma view_laws udom uc `{!ComparatorLaws udom uc} options policy c dbname capacity file_of fs kvs_of n cache cl bc e :
  let cmp := ldb_ikc_init uc in
  (forall x y, udom x -> udom y -> ldb_compare uc x y = 0 -> x = y) ->
  opt_comparator options = Some cmp -> 1 <= opt_block_restart_interval options -> 0 <= c ->
  opt_filter_policy options = ldb_ifp_init <$> policy ->
  (forall p, policy = Some p -> FilterPolicy udom p /\ PolicySize p c /\ ldb_bloom_name p 72 <> None) ->
  (forall number t, file_of number = Some t -> stored_ok (ikey_dom udom) cmp options c t) ->
  tables_ok rops rrep malloc options dbname capacity file_of n cache cl bc -> Z.of_nat n + 4 < 2 ^ 31 -> ids_left cache -> rep e fs ->
  served dbname file_of fs kvs_of ->
  TablesLaws (cache_iter_table rops malloc bc) (tables_view randfile rops malloc bc e cache) udom uc kvs_of.
Proof.
  intros cmp Heq Hcmp Hi Hc0 Hpol Hp Hfiles Hc Hn Hleft Re Hs.
  assert (options_ok (ikey_dom udom) cmp options c) as ook.
  { split; [done|done|done| |by intros _ k [? _]; lia]. rewrite Hpol. intros q Hq. destruct policy as [p|]; [|done]. injection Hq as <-.
    destruct (Hp p eq_refl) as (H1 & H2 & H3). split; [by apply ifp_policy|]. split; [by apply ifp_size|done]. }
  split; intros ro number size kvs; [intros Hk|intros k Hk Hkd]; destruct (Hs number size kvs Hk) as (Hnum & t & Hf & -> & -> & Hth).
  - destruct (iterate_ok rep randfile rops rrep malloc malloc_ok (ikey_dom udom) cmp options c ook dbname capacity file_of Hfiles n cache cl bc e fs number t ro
      Hc ltac:(lia) Hleft Hnum Hf Re Hth) as (it & cache' & n' & cl' & E1 & _ & Hc' & _ & _ & Hen & Hit).
    exists (inr it), None. split; [cbn [tables_view ldb_tables_iterate]; by rewrite E1, bind_some|]. by eapply iterates_now.
  - destruct (get_ok rep randfile rops rrep malloc malloc_ok (ikey_dom udom) cmp options c ook dbname capacity file_of Hfiles n cache cl bc e fs number t ro k
      Hc Hn Hleft Hnum Hf Re Hth Hkd) as (r & cache' & n' & cl' & E1 & _ & _ & _ & Hr & Hsame).
    exists r. cbn [tables_view ldb_tables_get]. rewrite E1, bind_some. split; [done|]. fold cmp in Hr, Hsame |- *.
    destruct (st_kvs t !! count_lt cmp k (st_kvs t)) as [kv|] eqn:Ekv; [|by destruct Hr]. split; [done|]. intros Hu.
    assert (ikey_dom udom kv.1) as Hkv.
    { destruct (Hfiles number t Hf) as (_ & _ & _ & Hd). rewrite List.Forall_forall in Hd. apply Hd, list_elem_of_In. by eapply list_elem_of_lookup_2. }
    assert (ldb_extract_user_key k = ldb_extract_user_key kv.1) as Hu' by (apply Heq; [apply Hkd|apply Hkv|done]).
    apply (Hsame kv eq_refl).
    + intros s Hds Hlt. by apply (ikc_unseparated udom uc).
    + rewrite Hpol. intros q f Hq. destruct policy as [p|]; [|done]. injection Hq as <-. cbn [bloom_match_fn ldb_ifp_init].
      unfold ldb_ifp_match. by rewrite Hu'.
Qed.
End Interface.

(** ** The properties *)

Section Properties.
Context {E R : Type} (rep : E -> fsview -> Prop) (randfile : E -> bytes -> bool -> Z + R) (rops : rfile_ops R) (rrep : R -> bytes -> Prop).
Context `{!RandLaws rep randfile rrep, !RFileLaws rops rrep} (malloc : Z -> bool).

(** C17: the table cache is transparent, with a block cache that is shared with
    others or without one.  A new cache is in order; in every state that calls of
    its clients reach from there: an iterator over the table of a number is made,
    keeps its entry until it is destroyed, and iterates over the pairs of the
    table file in whatever later state; a lookup finds the pair that the table
    has, and releases what it held; when the file of a number that is not cached
    is missing, the error of opening it is returned and nothing is cached.  A
    block that is read through the block cache is that of the file, and putting it
    there, dropping blocks, and what other owners of identifiers do there keep the
    state in order. *)
Theorem table_cache_transparent dom cmp `{!ComparatorLaws dom cmp} options c dbname capacity file_of :
  (forall n, 0 <= n < 2 ^ 33 -> malloc n = true) -> options_ok dom cmp options c ->
  (forall number t, file_of number = Some t -> stored_ok dom cmp options c t) ->
  let ok := tables_ok rops rrep malloc options dbname capacity file_of in
  (forall block_id bc, new_blocks block_id bc -> exists cache, ldb_tables_create dbname options capacity block_id = Some cache /\ ok 0%nat cache no_clients bc) /\
  forall n cache cl bc, ok n cache cl bc -> Z.of_nat n + 4 < 2 ^ 31 -> ids_left cache ->
  (forall e fs number t ro, 0 <= number < 2 ^ 64 -> rep e fs -> file_of number = Some t -> table_there dbname fs number (st_bytes t) ->
    (exists it cache' n' cl', tables_iterate randfile rops malloc e cache ro number (zlen (st_bytes t)) = Some (inr it, cache') /\ (n' <= n + 2)%nat /\
      ok n' cache' cl' bc /\ holds_also cl cl' (oi_handle it) /\ (exists entry, entry_at cl' (oi_handle it) number entry /\ te_table entry = oi_table it) /\
      iterates rops rrep malloc dom cmp options dbname capacity file_of it number t /\
      exists cache2, tables_iter_destroy cache' (inr it) = Some cache2 /\ ok (S n') cache2 (hold (oi_handle it) (-1) cl') bc /\
        holds_same cl (hold (oi_handle it) (-1) cl')) /\
    forall k, dom k -> exists r cache' n' cl', tables_get randfile rops malloc bc e cache ro number (zlen (st_bytes t)) k = Some (LDB_OK, r, cache') /\
      (n' <= n + 3)%nat /\ ok n' cache' cl' bc /\ holds_same cl cl' /\ (r = None \/ r = st_kvs t !! count_lt cmp k (st_kvs t)) /\
      forall kv, st_kvs t !! count_lt cmp k (st_kvs t) = Some kv -> unseparated dom cmp k kv.1 ->
        (forall p f, opt_filter_policy options = Some p -> bloom_match_fn p f k = bloom_match_fn p f kv.1) -> r = Some kv) /\
  (forall e fs number ro size, rep e fs -> table_missing dbname fs number -> current cl (fixed64_write number) = None ->
    exists rc cache', tables_iterate randfile rops malloc e cache ro number size = Some (inl rc, cache') /\ rc <> LDB_OK /\ ok (S n) cache' cl bc) /\
  (forall i a key entry ro, inserted cl i !! a = Some (key, entry) ->
    exists number t, key = fixed64_write number /\ file_of number = Some t /\ rrep (te_file entry) (st_bytes t) /\ forall b, b ∈ st_blocks t ->
      exists blk ins, find_block rops malloc bc (te_table entry) ro (handle_bytes b.2) = Some (inr blk, ins) /\
        ldb_block_init (build_block (opt_block_restart_interval options) b.1) = Some blk /\ ok n cache cl (block_inserted bc ins)) /\
  forall last lookup last' lookup', bc = Some lookup -> tc_block_id cache = Some last -> last <= last' < 2 ^ 64 ->
    (forall k blk, lookup' k = Some blk -> lookup k = Some blk \/ exists id off, k = block_key id off /\ last < id <= last' /\ 0 <= off < 2 ^ 64) ->
    ok n (Tables (tc_dbname cache) (tc_options cache) (tc_lru cache) (Some last')) cl (Some lookup').
Proof.
  intros Hm ook Hfiles ok. split; [intros block_id bc Hb; by apply create_ok|]. intros n cache cl bc Hc Hn Hleft. split; [|split; [|split]].
  - intros e fs number t ro Hnum Re Hf Hth. split; [|intros k Hk].
    + destruct (iterate_ok rep randfile rops rrep malloc Hm dom cmp options c ook dbname capacity file_of Hfiles n cache cl bc e fs number t ro
        Hc ltac:(lia) Hleft Hnum Hf Re Hth) as (it & cache' & n' & cl' & E1 & Hle & Hc' & Hk & Hh & Hen & Hit).
      exists it, cache', n', cl'. do 6 (split; [done|]).
      destruct (release_ok rops rrep malloc options dbname capacity file_of n' cache' cl' bc (oi_handle it) Hc' ltac:(lia) Hh) as (cache2 & E2 & H2).
      exists cache2. split; [done|]. split; [done|]. by apply hold_release.
    + by apply (get_ok rep randfile rops rrep malloc Hm dom cmp options c ook dbname capacity file_of Hfiles n cache cl bc e fs number t ro k).
  - intros e fs number ro size Re Hmiss Hcur. 
    destruct (find_missing rep randfile rops rrep malloc options dbname capacity file_of n cache cl bc e fs number size Hc ltac:(lia) Re Hmiss Hcur)
      as (rc & cache' & E1 & Hrc & Hc'). exists rc, cache'. unfold tables_iterate. by rewrite E1, bind_some.
  - intros i a key entry ro Hen. by apply (read_block_cached rops rrep malloc Hm dom cmp options c ook dbname capacity file_of Hfiles n cache cl bc i a key entry ro).
  - intros last lookup last' lookup' -> Eb Hl Hk. by apply (others_use_blocks rops rrep malloc dom cmp options c dbname capacity file_of Hfiles n cache cl last lookup last').
Qed.
End Properties.

(** C16: [ldb_build_table] writes what the iterator delivers: it terminates, and
    if there are pairs it leaves, on the disk, a table file with exactly these
    pairs, whose size and range of keys are in the metadata, after having opened
    it through the table cache; without pairs it leaves no file; other open files
    are not touched. *)
Theorem build_table_correct {E W} (ops : env_ops E W) rep names `{!EnvLaws ops rep names (fun _ => True)} dom cmp
    `{!ComparatorLaws dom cmp, !ShortSeparators dom cmp} options c {S} (iops : iter_ops S) kvs irep `{!IteratorLaws iops dom cmp kvs irep}
    {T} (tops : iter_ops T) tables_of dbname `{!TableAccess rep tops tables_of dbname dom cmp options c} fuel e fs fname iter q meta :
  options_ok dom cmp options c -> total_ok c kvs -> sorted_pairs cmp kvs -> Forall (fun kv => dom kv.1) kvs ->
  0 <= fm_number meta < 2 ^ 64 -> (length kvs < fuel)%nat -> rep e fs -> irep iter q ->
  ldb_table_filename LDB_PATH_MAX dbname (fm_number meta) = Some fname ->
  exists meta' iter' e', ldb_build_table ops iops tops tables_of fuel e dbname options iter meta = Some (LDB_OK, meta', iter', e') /\ irep iter' None /\
    (forall w q, names e w q -> q <> fname -> names e' w q) /\
    match kvs with
    | [] => meta' = set_meta_size meta 0 /\ rep e' (delete fname fs)
    | kv :: rest => exists d, table_bytes dom cmp options kvs d /\ rep e' (<[fname := VFile d (zlen d)]> fs) /\
        meta' = set_meta_size (set_meta_range meta kv.1 (from_option fst kv.1 (list.last rest))) (zlen d)
    end.
Proof.
  intros [Hc Hi Hc0 Hp H8] Ht Hs Hd Hnum Hf R Hit Hfn.
  by apply (build_table_correct_file ops rep names dom cmp options c Hc Hc0 Hp iops kvs irep tops tables_of dbname Ht Hs Hd fuel e fs fname iter q meta).
Qed.

(** ** A table on a disk *)

Definition demo_cache : tables bytes := default (Tables [] test_options (Lru [] 0) None) (ldb_tables_create (cstr "db") test_options 16 None).

Lemma demo_cache_created : ldb_tables_create (cstr "db") test_options 16 None = Some demo_cache.
Proof.
  destruct (create_inv (V := table_entry bytes) 16) as (p & lru & E1 & _). unfold demo_cache, ldb_tables_create. rewrite E1, bind_some. reflexivity.
Qed.

Definition demo_meta : filemeta := Filemeta 0 0 7 0 [] [].
Definition demo_name : bytes := default [] (ldb_table_filename LDB_PATH_MAX (cstr "db") 7).

Lemma demo_name_ok : ldb_table_filename LDB_PATH_MAX (cstr "db") 7 = Some demo_name.
Proof. vm_compute. reflexivity. Qed.

#[local] Opaque demo_cache demo_name.

Lemma demo_access : TableAccess disk_rep (cache_iter_table (mem_rfile true) (fun _ => true) None)
  (fun e => tables_view disk_randfile (mem_rfile true) (fun _ => true) None e demo_cache) (cstr "db") (fun _ => True) bytewise_comparator test_options 9.
Proof.
  apply (new_cache_access disk_rep disk_randfile (mem_rfile true) eq (fun _ => true) ltac:(done) (fun _ => True) bytewise_comparator test_options 9 (cstr "db") 16 None None).
  - exact test_options_ok.
  - exact I.
  - discriminate.
  - exact demo_cache_created.
Qed.

Lemma build_table_correct_witness : exists meta' iter' e' d,
  ldb_build_table disk_ops (listiter_table bytewise_comparator) (cache_iter_table (mem_rfile true) (fun _ => true) None)
    (fun e => tables_view disk_randfile (mem_rfile true) (fun _ => true) None e demo_cache) 5 (Disk ∅ []) (cstr "db") test_options (test_kvs, None) demo_meta =
    Some (LDB_OK, meta', iter', e') /\ dk_files e' = <[demo_name := VFile d (zlen d)]> ∅ /\ fm_file_size meta' = zlen d /\
  fm_smallest meta' = [Byte.x61] /\ fm_largest meta' = [Byte.x65].
Proof.
  destruct test_kvs_ok as (Ht & Hs & Hd). pose proof demo_access as Hacc.
  destruct (build_table_correct disk_ops disk_rep disk_names (fun _ => True) bytewise_comparator test_options 9 (listiter_table bytewise_comparator) test_kvs
    (listiter_rep test_kvs) (cache_iter_table (mem_rfile true) (fun _ => true) None)
    (fun e => tables_view disk_randfile (mem_rfile true) (fun _ => true) None e demo_cache) (cstr "db") 5 (Disk ∅ []) ∅ demo_name (test_kvs, None) None demo_meta)
    as (meta' & iter' & e' & E1 & _ & _ & d & _ & R & ->); [exact test_options_ok|exact Ht|exact Hs|exact Hd|cbn; lia|cbn; lia|reflexivity|by split|exact demo_name_ok|].
  exists (set_meta_size (set_meta_range demo_meta [Byte.x61] [Byte.x65]) (zlen d)), iter', e', d. split; [exact E1|].
  unfold disk_rep in R. split; [exact R|]. split; [reflexivity|]. split; reflexivity.
Defined.

(** The table that was built, read through the cache. *)
Lemma demo_built : exists d, table_bytes (fun _ => True) bytewise_comparator test_options test_kvs d.
Proof.
  destruct test_kvs_ok as (Ht & Hs & Hd). pose proof demo_access as Hacc. destruct test_options_ok as [Hc Hi Hc0 Hp H8].
  destruct (build_table_correct_file disk_ops disk_rep disk_names (fun _ => True) bytewise_comparator test_options 9 Hc Hc0 Hp (listiter_table bytewise_comparator) test_kvs
    (listiter_rep test_kvs) (cache_iter_table (mem_rfile true) (fun _ => true) None)
    (fun e => tables_view disk_randfile (mem_rfile true) (fun _ => true) None e demo_cache) (cstr "db") Ht Hs Hd 5 (Disk ∅ []) ∅ demo_name (test_kvs, None) None demo_meta)
    as (meta' & iter' & e' & _ & _ & _ & d & Hd' & _); [cbn; lia|cbn; lia|reflexivity|by split|exact demo_name_ok|]. by exists d.
Qed.

(** With an empty block cache that has given out one identifier before, and with
    what it holds when a block has been read. *)
Lemma table_cache_transparent_witness : exists d file_of cache r cache' n' cl',
  ldb_tables_create (cstr "db") test_options 16 (Some 1) = Some cache /\
  tables_get disk_randfile (mem_rfile true) (fun _ => true) (Some (fun _ => None)) (Disk {[demo_name := VFile d (zlen d)]} []) cache ldb_readopt_default 7 (zlen d) [Byte.x64] =
    Some (LDB_OK, r, cache') /\
  tables_ok (mem_rfile true) eq (fun _ => true) test_options (cstr "db") 16 file_of n' cache' cl' (Some (fun _ => None)) /\
  r = Some ([Byte.x64], [Byte.x33]) /\
  forall i a key entry, inserted cl' i !! a = Some (key, entry) -> exists t, file_of 7 = Some t /\ forall b, b ∈ st_blocks t -> exists blk ins,
    find_block (mem_rfile true) (fun _ => true) (Some (fun _ => None)) (te_table entry) ldb_readopt_default (handle_bytes b.2) = Some (inr blk, ins) /\
    tables_ok (mem_rfile true) eq (fun _ => true) test_options (cstr "db") 16 file_of n' cache' cl' (block_inserted (Some (fun _ => None)) ins).
Proof.
  destruct test_kvs_ok as (Ht & Hs & Hd). destruct demo_built as [d Hdb].
  destruct (stored_of (fun _ => True) bytewise_comparator test_options 9 test_kvs d Hdb Ht Hs Hd) as (t & Ed & Ek & Hok). subst d.
  set (file_of := fun k => if k =? 7 then Some t else None).
  assert (forall number t, file_of number = Some t -> number = 7 /\ stored_ok (fun _ => True) bytewise_comparator test_options 9 t) as Hfiles.
  { unfold file_of. intros k t'. destruct (Z.eqb_spec k 7); [by intros [= <-]|done]. }
  destruct (table_cache_transparent disk_rep disk_randfile (mem_rfile true) eq (fun _ => true) (fun _ => True) bytewise_comparator test_options 9 (cstr "db") 16 file_of)
    as [Hnew Hstate]; [done|exact test_options_ok|intros k t' Hk; by apply Hfiles in Hk as [_ Hk]|].
  assert (new_blocks (Some 1) (Some (fun _ => None))) as Hb by (split; [lia|]; intros k blk; discriminate).
  destruct (Hnew (Some 1) (Some (fun _ => None)) Hb) as (cache & Ec & Hc).
  assert (tc_block_id cache = Some 1) as Eid by (unfold ldb_tables_create in Ec; destruct (ldb_lru_create 16); [rewrite bind_some in Ec; by injection Ec as <-|done]).
  destruct (Hstate 0%nat cache no_clients _ Hc) as [Hfound _]; [done|intros last El; rewrite Eid in El; injection El as <-; lia|].
  destruct (Hfound (Disk {[demo_name := VFile (st_bytes t) (zlen (st_bytes t))]} []) {[demo_name := VFile (st_bytes t) (zlen (st_bytes t))]} 7 t ldb_readopt_default) as [_ Hget];
    [lia|reflexivity|unfold file_of; by rewrite Z.eqb_refl| |].
  { exists demo_name. split; [exact demo_name_ok|]. left. exists (zlen (st_bytes t)). apply lookup_singleton_eq. }
  destruct (Hget [Byte.x64] I) as (r & cache' & n' & cl' & E1 & Hn' & Hok' & _ & _ & Hr). exists (st_bytes t), file_of, cache, r, cache', n', cl'.
  split; [exact Ec|]. split; [exact E1|]. split; [exact Hok'|]. rewrite Ek in Hr. split.
  { apply Hr; [vm_compute; reflexivity| |done].
    intros s _ Hlt. by destruct (separator_between (dom := fun _ => True) (c := bytewise_comparator) s [Byte.x64] I I Hlt) as (_ & _ & ?). }
  intros i a key entry Hen. destruct Hok' as [ids Hkn].
  destruct (read_block_cached (mem_rfile true) eq (fun _ => true) ltac:(done) (fun _ => True) bytewise_comparator test_options 9 test_options_ok (cstr "db") 16 file_of
    ltac:(intros k t' Hk; by apply Hfiles in Hk as [_ Hk]) n' cache' cl' _ i a key entry ldb_readopt_default (ex_intro _ ids Hkn) Hen) as (number & t' & _ & Hf & _ & Hread).
  destruct (Hfiles number t' Hf) as [-> _]. exists t'. split; [exact Hf|]. intros b Hbin. destruct (Hread b Hbin) as (blk & ins & F1 & _ & F2). exists blk, ins. split; [exact F1|exact F2].
Defined.
