(* ===== verification/DB.v ===== *)
(** * The state of a database

    Models the data of [src/engine/src/db_impl.c] and the list of snapshots of
    [src/engine/src/snapshot.h].  All that the mutex of the database protects is
    one record; what other threads keep on their stacks (a writer in the queue,
    a manual compaction) is in it, too. *)

From stdpp Require Import strings gmap.
From S2P Require Import Prelude Coding Status Strutil Comparator Bloom DBFormat Options Memtable WriteBatch LogWriter VersionEdit Version Env VersionSet.
#[local] Open Scope Z_scope.

(** ** Snapshots *)

(** [ldb_snapshot_t], with its address. *)
Record snapshot := Snapshot { sn_addr : nat; sn_sequence : Z }.

#[export] Instance snapshot_eq_dec : EqDecision snapshot.
Proof. solve_decision. Defined.

(** [ldb_snaplist_t]: the snapshots from the oldest to the newest, and the next
    free address. *)
Record snaplist := Snaplist { sl_next : nat; sl_items : list snapshot }.

Definition ldb_snaplist_init : snaplist := Snaplist 0 [].

Definition ldb_snaplist_empty (sl : snaplist) : bool := match sl_items sl with [] => true | _ => false end.

(** [None]: the assertion that there are snapshots fails. *)
Definition ldb_snaplist_oldest (sl : snaplist) : option snapshot := head (sl_items sl).
Definition ldb_snaplist_newest (sl : snaplist) : option snapshot := list.last (sl_items sl).

(** [None]: the assertion that the newest is not newer fails. *)
Definition ldb_snaplist_new (sl : snaplist) (sequence : Z) : option (snapshot * snaplist) :=
  let snap := Snapshot (sl_next sl) sequence in
  match ldb_snaplist_newest sl with
  | Some newest => if sequence <? sn_sequence newest then None else Some (snap, Snaplist (S (sl_next sl)) (sl_items sl ++ [snap]))
  | None => Some (snap, Snaplist (S (sl_next sl)) [snap])
  end.

(** [None]: the snapshot is not of this list. *)
Definition ldb_snaplist_delete (sl : snaplist) (snap : nat) : option snaplist :=
  if existsb (fun s => Nat.eqb (sn_addr s) snap) (sl_items sl)
  then Some (Snaplist (sl_next sl) (List.filter (fun s => negb (Nat.eqb (sn_addr s) snap)) (sl_items sl)))
  else None.

(** ** Statistics, writers, manual compactions *)

(** [ldb_stats_t] *)
Record ldb_stats := Stats { st_micros : Z; st_bytes_read : Z; st_bytes_written : Z }.

Definition ldb_stats_init : ldb_stats := Stats 0 0 0.

Definition ldb_stats_add (z x : ldb_stats) : ldb_stats :=
  Stats (s64 (u64 (st_micros z + st_micros x))) (s64 (u64 (st_bytes_read z + st_bytes_read x)))
    (s64 (u64 (st_bytes_written z + st_bytes_written x))).

(** [ldb_waiter_t], with its address; [w_batch]: the contents of its batch. *)
Record waiter := Waiter { w_addr : nat; w_batch : option bytes; w_sync : bool }.

(** [ldb_manual_t]; [m_begin] is the key that [begin] points to. *)
Record manual := Manual { m_level : Z; m_done : bool; m_begin : option bytes; m_end : option bytes }.

Definition ldb_manual_init (level : Z) : manual := Manual level false None None.

(** ** The database *)

(** [ldb_t].  [db_writers] is the queue from its head on and [db_finished] the
    status that a writer was woken with; [db_lock] is the name of the locked file; [db_manuals] holds the manual
    compactions that threads wait for and [db_manual_compaction] the address of
    the one under way. *)
Record ldb (W : Type) := Ldb {
  db_options : dbopt;
  db_dbname : bytes;
  db_shutting_down : bool;
  db_mem : option memtable;
  db_imm : option memtable;
  db_has_imm : bool;
  db_logfile : option W;
  db_logfile_number : Z;
  db_log : option (writer W);
  db_seed : Z;
  db_writers : list waiter;
  db_finished : gmap nat Z;
  db_tmp_batch : bytes;
  db_snapshots : snaplist;
  db_pending_outputs : gset Z;
  db_background_compaction_scheduled : bool;
  db_manual_compaction : option nat;
  db_manuals : gmap nat manual;
  db_versions : versions W;
  db_bg_error : Z;
  db_stats : list ldb_stats;
  db_lock : option bytes
}.
Arguments Ldb {W}.
Arguments db_options {W}.
Arguments db_dbname {W}.
Arguments db_shutting_down {W}.
Arguments db_mem {W}.
Arguments db_imm {W}.
Arguments db_has_imm {W}.
Arguments db_logfile {W}.
Arguments db_logfile_number {W}.
Arguments db_log {W}.
Arguments db_seed {W}.
Arguments db_writers {W}.
Arguments db_finished {W}.
Arguments db_tmp_batch {W}.
Arguments db_snapshots {W}.
Arguments db_pending_outputs {W}.
Arguments db_background_compaction_scheduled {W}.
Arguments db_manual_compaction {W}.
Arguments db_manuals {W}.
Arguments db_versions {W}.
Arguments db_bg_error {W}.
Arguments db_stats {W}.
Arguments db_lock {W}.

Section State.
Context {W : Type}.
Implicit Type db : ldb W.

(** [clip_to_range] *)
Definition clip_to_range (val min max : Z) : Z := let val := if max <? val then max else val in if val <? min then min else val.

Definition non_table_cache_files : Z := 10.

(** [ldb_sanitize_options]: what reaches the modelled code; the info log and the
    block cache are not part of the options here. *)
Definition ldb_sanitize_options (icmp : comparator) (ipolicy : bloom) (src : dbopt) : dbopt := {|
  opt_comparator := Some icmp;
  opt_create_if_missing := opt_create_if_missing src;
  opt_error_if_exists := opt_error_if_exists src;
  opt_paranoid_checks := opt_paranoid_checks src;
  opt_write_buffer_size := clip_to_range (opt_write_buffer_size src) (Z.shiftl 64 10) (Z.shiftl 1 30);
  opt_max_open_files := clip_to_range (opt_max_open_files src) (64 + non_table_cache_files) 50000;
  opt_block_size := clip_to_range (opt_block_size src) (Z.shiftl 1 10) (Z.shiftl 4 20);
  opt_block_restart_interval := opt_block_restart_interval src;
  opt_max_file_size := clip_to_range (opt_max_file_size src) (Z.shiftl 1 20) (Z.shiftl 1 30);
  opt_compression := opt_compression src;
  opt_reuse_logs := opt_reuse_logs src;
  opt_filter_policy := match opt_filter_policy src with Some _ => Some ipolicy | None => None end;
  opt_use_mmap := opt_use_mmap src
|}.

Definition table_cache_size (sanitized_options : dbopt) : Z := opt_max_open_files sanitized_options - non_table_cache_files.

(** The comparator of the user and the options of a database. *)
Definition user_comparator_of (options : dbopt) : comparator := default bytewise_comparator (opt_comparator options).
Definition db_options_of (options : dbopt) : dbopt :=
  ldb_sanitize_options (ldb_ikc_init (user_comparator_of options)) (ldb_ifp_init (default bloom_default (opt_filter_policy options))) options.

Definition ldb_create (dbname : bytes) (options : dbopt) : ldb W :=
  let options := db_options_of options in
  Ldb options dbname false None None false None 0 None 0 [] ∅ ldb_batch_init ldb_snaplist_init ∅ false None ∅
    (ldb_versions_create dbname options) LDB_OK (replicate (Z.to_nat LDB_NUM_LEVELS) ldb_stats_init) None.

(** Assignments to members. *)
Definition set_db_mem db (mem imm : option memtable) (has_imm : bool) : ldb W :=
  Ldb (db_options db) (db_dbname db) (db_shutting_down db) mem imm has_imm (db_logfile db) (db_logfile_number db) (db_log db) (db_seed db)
    (db_writers db) (db_finished db) (db_tmp_batch db) (db_snapshots db) (db_pending_outputs db) (db_background_compaction_scheduled db)
    (db_manual_compaction db) (db_manuals db) (db_versions db) (db_bg_error db) (db_stats db) (db_lock db).
Definition set_db_log db (logfile : option W) (number : Z) (log : option (writer W)) : ldb W :=
  Ldb (db_options db) (db_dbname db) (db_shutting_down db) (db_mem db) (db_imm db) (db_has_imm db) logfile number log (db_seed db)
    (db_writers db) (db_finished db) (db_tmp_batch db) (db_snapshots db) (db_pending_outputs db) (db_background_compaction_scheduled db)
    (db_manual_compaction db) (db_manuals db) (db_versions db) (db_bg_error db) (db_stats db) (db_lock db).
Definition set_db_seed db (seed : Z) : ldb W :=
  Ldb (db_options db) (db_dbname db) (db_shutting_down db) (db_mem db) (db_imm db) (db_has_imm db) (db_logfile db) (db_logfile_number db) (db_log db) seed
    (db_writers db) (db_finished db) (db_tmp_batch db) (db_snapshots db) (db_pending_outputs db) (db_background_compaction_scheduled db)
    (db_manual_compaction db) (db_manuals db) (db_versions db) (db_bg_error db) (db_stats db) (db_lock db).
Definition set_db_writers db (writers : list waiter) (finished : gmap nat Z) : ldb W :=
  Ldb (db_options db) (db_dbname db) (db_shutting_down db) (db_mem db) (db_imm db) (db_has_imm db) (db_logfile db) (db_logfile_number db) (db_log db)
    (db_seed db) writers finished (db_tmp_batch db) (db_snapshots db) (db_pending_outputs db) (db_background_compaction_scheduled db)
    (db_manual_compaction db) (db_manuals db) (db_versions db) (db_bg_error db) (db_stats db) (db_lock db).
Definition set_db_tmp_batch db (tmp_batch : bytes) : ldb W :=
  Ldb (db_options db) (db_dbname db) (db_shutting_down db) (db_mem db) (db_imm db) (db_has_imm db) (db_logfile db) (db_logfile_number db) (db_log db)
    (db_seed db) (db_writers db) (db_finished db) tmp_batch (db_snapshots db) (db_pending_outputs db) (db_background_compaction_scheduled db)
    (db_manual_compaction db) (db_manuals db) (db_versions db) (db_bg_error db) (db_stats db) (db_lock db).
Definition set_db_snapshots db (snapshots : snaplist) : ldb W :=
  Ldb (db_options db) (db_dbname db) (db_shutting_down db) (db_mem db) (db_imm db) (db_has_imm db) (db_logfile db) (db_logfile_number db) (db_log db)
    (db_seed db) (db_writers db) (db_finished db) (db_tmp_batch db) snapshots (db_pending_outputs db) (db_background_compaction_scheduled db)
    (db_manual_compaction db) (db_manuals db) (db_versions db) (db_bg_error db) (db_stats db) (db_lock db).
Definition set_db_pending db (pending : gset Z) : ldb W :=
  Ldb (db_options db) (db_dbname db) (db_shutting_down db) (db_mem db) (db_imm db) (db_has_imm db) (db_logfile db) (db_logfile_number db) (db_log db)
    (db_seed db) (db_writers db) (db_finished db) (db_tmp_batch db) (db_snapshots db) pending (db_background_compaction_scheduled db)
    (db_manual_compaction db) (db_manuals db) (db_versions db) (db_bg_error db) (db_stats db) (db_lock db).
Definition set_db_scheduled db (scheduled : bool) : ldb W :=
  Ldb (db_options db) (db_dbname db) (db_shutting_down db) (db_mem db) (db_imm db) (db_has_imm db) (db_logfile db) (db_logfile_number db) (db_log db)
    (db_seed db) (db_writers db) (db_finished db) (db_tmp_batch db) (db_snapshots db) (db_pending_outputs db) scheduled
    (db_manual_compaction db) (db_manuals db) (db_versions db) (db_bg_error db) (db_stats db) (db_lock db).
Definition set_db_manual db (m : option nat) (manuals : gmap nat manual) : ldb W :=
  Ldb (db_options db) (db_dbname db) (db_shutting_down db) (db_mem db) (db_imm db) (db_has_imm db) (db_logfile db) (db_logfile_number db) (db_log db)
    (db_seed db) (db_writers db) (db_finished db) (db_tmp_batch db) (db_snapshots db) (db_pending_outputs db) (db_background_compaction_scheduled db)
    m manuals (db_versions db) (db_bg_error db) (db_stats db) (db_lock db).
Definition set_db_versions db (vs : versions W) : ldb W :=
  Ldb (db_options db) (db_dbname db) (db_shutting_down db) (db_mem db) (db_imm db) (db_has_imm db) (db_logfile db) (db_logfile_number db) (db_log db)
    (db_seed db) (db_writers db) (db_finished db) (db_tmp_batch db) (db_snapshots db) (db_pending_outputs db) (db_background_compaction_scheduled db)
    (db_manual_compaction db) (db_manuals db) vs (db_bg_error db) (db_stats db) (db_lock db).
Definition set_db_status db (shutting_down : bool) (bg_error : Z) (stats : list ldb_stats) : ldb W :=
  Ldb (db_options db) (db_dbname db) shutting_down (db_mem db) (db_imm db) (db_has_imm db) (db_logfile db) (db_logfile_number db) (db_log db)
    (db_seed db) (db_writers db) (db_finished db) (db_tmp_batch db) (db_snapshots db) (db_pending_outputs db) (db_background_compaction_scheduled db)
    (db_manual_compaction db) (db_manuals db) (db_versions db) bg_error stats (db_lock db).

Definition set_db_lock db (lock : option bytes) : ldb W :=
  Ldb (db_options db) (db_dbname db) (db_shutting_down db) (db_mem db) (db_imm db) (db_has_imm db) (db_logfile db) (db_logfile_number db) (db_log db)
    (db_seed db) (db_writers db) (db_finished db) (db_tmp_batch db) (db_snapshots db) (db_pending_outputs db) (db_background_compaction_scheduled db)
    (db_manual_compaction db) (db_manuals db) (db_versions db) (db_bg_error db) (db_stats db) lock.

(** The condition variable that it signals is not modelled: who waits looks at
    the state again. *)
Definition ldb_record_background_error db (status : Z) : ldb W :=
  if db_bg_error db =? LDB_OK then set_db_status db (db_shutting_down db) status (db_stats db) else db.

Definition ldb_maybe_ignore_error db (status : Z) : Z :=
  if (status =? LDB_OK) || opt_paranoid_checks (db_options db) then status else LDB_OK.

Definition add_stats db (level : Z) (stats : ldb_stats) : option (ldb W) :=
  old ← db_stats db !! Z.to_nat level;
  Some (set_db_status db (db_shutting_down db) (db_bg_error db) (<[Z.to_nat level := ldb_stats_add old stats]> (db_stats db))).

Definition ldb_snapshot db : option (snapshot * ldb W) :=
  '(snap, sl) ← ldb_snaplist_new (db_snapshots db) (vs_last_sequence (db_versions db));
  Some (snap, set_db_snapshots db sl).

Definition ldb_release db (snap : nat) : option (ldb W) :=
  sl ← ldb_snaplist_delete (db_snapshots db) snap; Some (set_db_snapshots db sl).
End State.
