(* ===== verification/DBWrite.v ===== *)
(** * Writing to a database

    Models the writer queue, the building of batch groups, the switch to a new
    log and memtable, and [ldb_write] of [src/engine/src/db_impl.c].  Writers are
    threads: what one does while it holds the mutex, or while it is the only one
    that may write to the log and the memtable, is one step of [write_step]. *)

From stdpp Require Import strings gmap.
From S2P Require Import Prelude Coding Status Strutil Comparator DBFormat Options Memtable WriteBatch File LogWriter VersionEdit Version Env VersionSet DB.
#[local] Open Scope Z_scope.

Definition LDB_L0_SLOWDOWN_WRITES_TRIGGER : Z := 8.
Definition LDB_L0_STOP_WRITES_TRIGGER : Z := 12.

(** ** The queue *)

Definition ldb_queue_push (queue : list waiter) (w : waiter) : list waiter := queue ++ [w].

(** [None]: the queue is empty and the program aborts. *)
Definition ldb_queue_shift (queue : list waiter) : option (waiter * list waiter) :=
  match queue with [] => None | w :: queue => Some (w, queue) end.

(** ** Batch groups *)

(** The part behind the first writer: [tmp] is the temporary batch once it is in
    use, [last] the last writer of the group. *)
Fixpoint group_loop (first_sync : bool) (first_batch tmp_batch : bytes) (max_size : Z) (queue : list waiter) (tmp : option bytes) (size : Z) (last : nat)
    : option (option bytes * nat) :=
  match queue with
  | [] => Some (tmp, last)
  | w :: queue =>
    if w_sync w && negb first_sync then Some (tmp, last)
    else
      match w_batch w with
      | Some batch =>
        let size := u64 (size + ldb_batch_size batch) in
        if max_size <? size then Some (tmp, last)
        else
          result ← (match tmp with
                    | Some result => Some result
                    | None => if ldb_batch_count tmp_batch =? 0 then Some (ldb_batch_append tmp_batch first_batch) else None
                    end);
          group_loop first_sync first_batch tmp_batch max_size queue (Some (ldb_batch_append result batch)) size (w_addr w)
      | None => group_loop first_sync first_batch tmp_batch max_size queue tmp size (w_addr w)
      end
  end.

Definition group_max_size (size : Z) : Z := if size <=? Z.shiftl 128 10 then size + Z.shiftl 128 10 else Z.shiftl 1 20.

(** The batch of the first writer or the temporary one ([true]), and the last
    writer of the group. *)
Definition ldb_build_batch_group (queue : list waiter) (tmp_batch : bytes) : option (bytes * bool * nat) :=
  match queue with
  | [] => None
  | first :: queue =>
    first_batch ← w_batch first;
    let size := ldb_batch_size first_batch in
    '(tmp, last) ← group_loop (w_sync first) first_batch tmp_batch (group_max_size size) queue None size (w_addr first);
    match tmp with
    | Some result => Some (result, true, last)
    | None => Some (first_batch, false, last)
    end
  end.

(** The writers up to [last] leave the queue; all but [me] are told the status. *)
Fixpoint release_group (queue : list waiter) (me last : nat) (rc : Z) (finished : gmap nat Z) : option (list waiter * gmap nat Z) :=
  match queue with
  | [] => None
  | ready :: queue =>
    let finished := if Nat.eqb (w_addr ready) me then finished else <[w_addr ready := rc]> finished in
    if Nat.eqb (w_addr ready) last then Some (queue, finished) else release_group queue me last rc finished
  end.

(** ** Room for a write *)

Section Write.
Context {E W : Type} (ops : env_ops E W).
Implicit Type db : ldb W.

(** A compaction is scheduled: the flag is set and the thread pool will call
    [ldb_background_call]. *)
Definition ldb_maybe_schedule_compaction db : option (ldb W) :=
  if db_background_compaction_scheduled db then Some db
  else if db_shutting_down db then Some db
  else if negb (db_bg_error db =? LDB_OK) then Some db
  else
    needs ← ldb_versions_needs_compaction (db_versions db);
    match db_imm db, db_manual_compaction db with
    | None, None => if negb needs then Some db else Some (set_db_scheduled db true)
    | _, _ => Some (set_db_scheduled db true)
    end.

(** What one turn of the loop of [ldb_make_room_for_write] does: it ends with a
    status, sleeps, waits for background work, or has switched to a new log. *)
Inductive room := RoomDone (rc : Z) | RoomDelay | RoomWait | RoomSwitch.

(** The new log and memtable; the old memtable becomes immutable. *)
Definition switch_memtable (e : E) db : option (room * E * ldb W) :=
  if negb (vs_prev_log_number (db_versions db) =? 0) then None
  else
    let '(new_log_number, vs) := ldb_versions_new_file_number (db_versions db) in
    let db := set_db_versions db vs in
    fname ← ldb_log_filename LDB_PATH_MAX (db_dbname db) new_log_number;
    match env_truncfile_create ops e fname with
    | (inl rc, e) => Some (RoomDone rc, e, set_db_versions db (ldb_versions_reuse_file_number vs new_log_number))
    | (inr lfile, e) =>
      let '(db, e) :=
        match db_logfile db with
        | Some logfile =>
          let '(rc, e) := env_close ops e logfile in
          (if negb (rc =? LDB_OK) then ldb_record_background_error db rc else db, env_destroy ops e logfile)
        | None => (db, e)
        end in
      let db := set_db_log db (Some lfile) new_log_number (Some (ldb_writer_init lfile 0)) in
      icmp ← opt_comparator (db_options db);
      let db := set_db_mem db (Some (ldb_memtable_ref (ldb_memtable_create icmp))) (db_mem db) true in
      db ← ldb_maybe_schedule_compaction db;
      Some (RoomSwitch, e, db)
    end.

(** The queue is not empty: the assertion at the beginning, checked at every turn
    of the loop. *)
Definition make_room_turn (e : E) db (force allow_delay : bool) : option (room * E * ldb W) :=
  if zlen (db_writers db) <=? 0 then None
  else if negb (db_bg_error db =? LDB_OK) then Some (RoomDone (db_bg_error db), e, db)
  else
    l0_files ← ldb_versions_files (db_versions db) 0;
    if allow_delay && (LDB_L0_SLOWDOWN_WRITES_TRIGGER <=? l0_files) then Some (RoomDelay, e, db)
    else
      mem ← db_mem db;
      if negb force && (ldb_memtable_usage mem <=? opt_write_buffer_size (db_options db)) then Some (RoomDone LDB_OK, e, db)
      else
        match db_imm db with
        | Some _ => Some (RoomWait, e, db)
        | None => if LDB_L0_STOP_WRITES_TRIGGER <=? l0_files then Some (RoomWait, e, db) else switch_memtable e db
        end.

(** ** [ldb_write] *)

(** The log and the memtable get the batch; the mutex is not held.  The status,
    and whether syncing failed. *)
Definition log_and_apply (e : E) db (write_batch : bytes) (sync : bool) : option (Z * bool * E * ldb W) :=
  log ← db_log db;
  logfile ← db_logfile db;
  mem ← db_mem db;
  '(rc, log, e) ← env_add_record ops e log (ldb_batch_contents write_batch);
  let db := set_db_log db (Some logfile) (db_logfile_number db) (Some log) in
  let '(rc, sync_error, e) :=
    if (rc =? LDB_OK) && sync then let '(rc, e) := env_sync ops e logfile in (rc, negb (rc =? LDB_OK), e)
    else (rc, false, e) in
  if rc =? LDB_OK then
    '(rc, mem) ← ldb_batch_insert_into write_batch mem;
    Some (rc, sync_error, e, set_db_mem db (Some mem) (db_imm db) (db_has_imm db))
  else Some (rc, sync_error, e, db).

(** Where a writer is: in the queue, in the loop of [ldb_make_room_for_write],
    about to write its group, back with the mutex, or done. *)
Inductive wpc :=
| WWait
| WRoom (force allow_delay : bool)
| WApply (write_batch : bytes) (tmp : bool) (last_sequence : Z) (last_writer : nat)
| WApplied (rc : Z) (sync_error tmp : bool) (last_sequence : Z) (last_writer : nat)
| WReturn (rc : Z).

Definition at_head db (addr : nat) : bool := match db_writers db with w :: _ => Nat.eqb (w_addr w) addr | [] => false end.

(** With the mutex: there is room, or an error. *)
Definition write_ready db (me : waiter) (rc : Z) : option (wpc * ldb W) :=
  let last_sequence := vs_last_sequence (db_versions db) in
  match w_batch me with
  | Some _ =>
    if rc =? LDB_OK then
      match ldb_build_batch_group (db_writers db) (db_tmp_batch db) with
      | Some (write_batch, tmp, last_writer) =>
        let write_batch := ldb_batch_set_sequence write_batch (u64 (last_sequence + 1)) in
        let last_sequence := u64 (last_sequence + ldb_batch_count write_batch) in
        let db := if tmp then set_db_tmp_batch db write_batch else db in
        Some (WApply write_batch tmp last_sequence last_writer, db)
      | None => None
      end
    else
      '(queue, finished) ← release_group (db_writers db) (w_addr me) (w_addr me) rc (db_finished db);
      Some (WReturn rc, set_db_writers db queue finished)
  | None =>
    '(queue, finished) ← release_group (db_writers db) (w_addr me) (w_addr me) rc (db_finished db);
    Some (WReturn rc, set_db_writers db queue finished)
  end.

(** With the mutex again. *)
Definition write_finish db (me : waiter) (rc : Z) (sync_error tmp : bool) (last_sequence : Z) (last_writer : nat) : option (wpc * ldb W) :=
  let db := if sync_error then ldb_record_background_error db rc else db in
  let db := if tmp then set_db_tmp_batch db ldb_batch_reset else db in
  if last_sequence <? vs_last_sequence (db_versions db) then None
  else
    let db := set_db_versions db (set_last_sequence (db_versions db) last_sequence) in
    '(queue, finished) ← release_group (db_writers db) (w_addr me) last_writer rc (db_finished db);
    Some (WReturn rc, set_db_writers db queue finished).

(** One step of the writer [me]; [None]: an assertion fails. *)
Definition writer_turn (e : E) db (me : waiter) (pc : wpc) : option (wpc * E * ldb W) :=
  match pc with
  | WWait =>
    match db_finished db !! w_addr me with
    | Some rc => Some (WReturn rc, e, set_db_writers db (db_writers db) (delete (w_addr me) (db_finished db)))
    | None =>
      if at_head db (w_addr me) then
        let force := match w_batch me with None => true | Some _ => false end in
        Some (WRoom force (negb force), e, db)
      else Some (WWait, e, db)
    end
  | WRoom force allow_delay =>
    '(r, e, db) ← make_room_turn e db force allow_delay;
    match r with
    | RoomDone rc => '(pc, db) ← write_ready db me rc; Some (pc, e, db)
    | RoomDelay => Some (WRoom force false, e, db)
    | RoomWait => Some (WRoom force allow_delay, e, db)
    | RoomSwitch => Some (WRoom false allow_delay, e, db)
    end
  | WApply write_batch tmp last_sequence last_writer =>
    '(rc, sync_error, e, db) ← log_and_apply e db write_batch (w_sync me);
    Some (WApplied rc sync_error tmp last_sequence last_writer, e, db)
  | WApplied rc sync_error tmp last_sequence last_writer =>
    '(pc, db) ← write_finish db me rc sync_error tmp last_sequence last_writer;
    Some (pc, e, db)
  | WReturn rc => Some (WReturn rc, e, db)
  end.

(** A new writer joins the queue. *)
Definition write_begin db (me : waiter) : ldb W := set_db_writers db (ldb_queue_push (db_writers db) me) (db_finished db).

(** [ldb_write] when no other thread is there: [fuel] turns. *)
Fixpoint write_turns (fuel : nat) (e : E) db (me : waiter) (pc : wpc) : option (Z * E * ldb W) :=
  match fuel with
  | O => None
  | S fuel =>
    match pc with
    | WReturn rc => Some (rc, e, db)
    | _ => '(pc, e, db) ← writer_turn e db me pc; write_turns fuel e db me pc
    end
  end.

Definition ldb_write (fuel : nat) (e : E) db (addr : nat) (updates : option bytes) (sync : bool) : option (Z * E * ldb W) :=
  let me := Waiter addr updates sync in
  write_turns fuel e (write_begin db me) me WWait.

Definition ldb_put (fuel : nat) (e : E) db (addr : nat) (key value : bytes) (sync : bool) : option (Z * E * ldb W) :=
  ldb_write fuel e db addr (Some (ldb_batch_put ldb_batch_init key value)) sync.

Definition ldb_del (fuel : nat) (e : E) db (addr : nat) (key : bytes) (sync : bool) : option (Z * E * ldb W) :=
  ldb_write fuel e db addr (Some (ldb_batch_del ldb_batch_init key)) sync.
End Write.
