(* ===== verification/WriteGroups.v ===== *)
(** * Batch groups are batches of queued writes

    What [ldb_build_batch_group] makes of the queue of writers: one batch with
    the updates of a prefix of the queue, in their order. *)

From stdpp Require Import strings gmap.
From S2P Require Import Prelude Coding Status Comparator DBFormat Memtable WriteBatch DB DBWrite.
#[local] Open Scope Z_scope.

(** What a writer asks for: nothing, or the updates in its batch. *)
Definition asks (w : waiter) (us : list update) : Prop :=
  match w_batch w with
  | Some b => (exists seq, b = batch_bytes seq us) /\ zlen us < 2 ^ 31 /\ zlen b < 2 ^ 63
  | None => us = []
  end.

(** The bytes of the batches of some writers. *)
Definition batches_size (ws : list waiter) : Z :=
  foldr (fun w n => match w_batch w with Some b => zlen b + n | None => n end) 0 ws.

Lemma batches_size_app xs ys : batches_size (xs ++ ys) = batches_size xs + batches_size ys.
Proof. induction xs as [|w xs IH]; [done|]. cbn. destruct (w_batch w); fold (batches_size (xs ++ ys)) (batches_size xs); lia. Qed.

Lemma batches_size_nonneg ws : 0 <= batches_size ws.
Proof. induction ws as [|w ws IH]; [done|]. cbn. destruct (w_batch w) as [b|]; fold (batches_size ws); [pose proof (zlen_nonneg b); lia|lia]. Qed.

Lemma records_size us : 2 * zlen us <= zlen (concat (map record_bytes us)).
Proof.
  induction us as [|x us IH]; [done|]. cbn [map concat]. rewrite zlen_cons, zlen_app.
  assert (2 <= zlen (record_bytes x)); [|lia].
  assert (forall k, 1 <= zlen (slice_write k)) as Hk.
  { intros k. rewrite zlen_slice_write. unfold slice_size. pose proof (varint32_size_range (u32 (zlen k))). pose proof (zlen_nonneg k). lia. }
  destruct x as [k v|k]; cbn [record_bytes]; rewrite ?zlen_app, zlen_cons; pose proof (Hk k); [pose proof (Hk v)|]; zlia.
Qed.

Lemma batch_size us seq : 2 * zlen us <= zlen (batch_bytes seq us).
Proof. unfold batch_bytes. rewrite !zlen_app. pose proof (records_size us). pose proof (zlen_nonneg (fixed64_write seq)). pose proof (zlen_nonneg (fixed32_write (zlen us))). lia. Qed.

Lemma asks_size w us : asks w us -> 2 * zlen us <= batches_size [w].
Proof.
  unfold asks, batches_size. cbn [foldr]. destruct (w_batch w) as [b|]; [|intros ->; done]. intros ([seq ->] & _). pose proof (batch_size us seq). pose proof (zlen_nonneg (batch_bytes seq us)). cbn [foldr]. lia.
Qed.

(** Why a group does not go on. *)
Definition group_ends (first_sync : bool) (max_size : Z) (members rest : list waiter) : Prop :=
  match rest with
  | [] => True
  | w :: _ => w_sync w = true /\ first_sync = false \/ w_batch w <> None /\ max_size < batches_size (members ++ [w])
  end.

(** The temporary batch, if it is in use, has the updates so far; otherwise only
    the first writer had any. *)
Definition group_tmp (tmp : option bytes) (first us : list update) : Prop :=
  match tmp with Some b => b = batch_bytes 0 us | None => us = first end.

Section Group.
Context (first_sync : bool) (first_seq : Z) (first : list update) (max_size : Z).
Hypothesis first_few : zlen first < 2 ^ 31.
Hypothesis max_small : 0 <= max_size < 2 ^ 31.
#[local] Abbreviation first_batch := (batch_bytes first_seq first).

Lemma group_loop_spec queue uss : Forall2 asks queue uss -> forall before us tmp last,
  group_tmp tmp first us -> 2 * zlen us <= batches_size before -> batches_size before < 2 ^ 63 ->
  exists members rest muss tmp' last',
    group_loop first_sync first_batch ldb_batch_init max_size queue tmp (batches_size before) last = Some (tmp', last') /\
    queue = members ++ rest /\ muss `prefix_of` uss /\ Forall2 asks members muss /\
    group_tmp tmp' first (us ++ concat muss) /\ last' = default last (list.last (map w_addr members)) /\
    (first_sync = false -> Forall (fun w => w_sync w = false) members) /\
    (batches_size members = 0 \/ batches_size (before ++ members) <= max_size) /\
    group_ends first_sync max_size (before ++ members) rest.
Proof.
  induction 1 as [|w ws queue uss Hw Hq IH]; intros before us tmp last Ht Hs Hb.
  { exists [], [], [], tmp, last. rewrite app_nil_r. cbn. rewrite app_nil_r. eauto 20. }
  assert (forall rest, group_ends first_sync max_size (before ++ []) (w :: rest) ->
    exists members rest' muss tmp' last', Some (tmp, last) = Some (tmp', last') /\ w :: rest = members ++ rest' /\
    muss `prefix_of` (ws :: uss) /\ Forall2 asks members muss /\
    group_tmp tmp' first (us ++ concat muss) /\ last' = default last (list.last (map w_addr members)) /\
    (first_sync = false -> Forall (fun w => w_sync w = false) members) /\
    (batches_size members = 0 \/ batches_size (before ++ members) <= max_size) /\
    group_ends first_sync max_size (before ++ members) rest') as Stop.
  { intros rest Hend. exists [], (w :: rest), [], tmp, last. cbn [concat]. rewrite app_nil_r.
    do 2 (split; [done|]). split; [apply prefix_nil|]. split; [constructor|]. do 2 (split; [done|]). split; [intros _; constructor|]. split; [by left|done]. }
  cbn [group_loop]. destruct (w_sync w && negb first_sync) eqn:Esync.
  { apply Stop. apply andb_true_iff in Esync as [E1 E2]. left. by destruct first_sync. }
  assert (first_sync = false -> w_sync w = false) as Hsync by (intros E; rewrite E in Esync; by destruct (w_sync w)).
  assert (forall tmp' size, group_tmp tmp' first (us ++ ws) -> size = batches_size (before ++ [w]) -> size < 2 ^ 63 -> batches_size [w] = 0 \/ size <= max_size ->
    exists members rest muss tmp'' last',
      group_loop first_sync first_batch ldb_batch_init max_size queue tmp' size (w_addr w) = Some (tmp'', last') /\
      w :: queue = members ++ rest /\ muss `prefix_of` (ws :: uss) /\ Forall2 asks members muss /\
      group_tmp tmp'' first (us ++ concat muss) /\ last' = default last (list.last (map w_addr members)) /\
      (first_sync = false -> Forall (fun w => w_sync w = false) members) /\
      (batches_size members = 0 \/ batches_size (before ++ members) <= max_size) /\
      group_ends first_sync max_size (before ++ members) rest) as Go.
  { intros tmp' size Ht' -> Hlt Hz. destruct (IH (before ++ [w]) (us ++ ws) tmp' (w_addr w) Ht') as (ms & rest & muss & tmp'' & last' & E & -> & Hp & Hm & Ht'' & -> & Hns & Hsz & He).
    { rewrite zlen_app, batches_size_app. pose proof (asks_size w ws Hw). lia. }
    { done. }
    exists (w :: ms), rest, (ws :: muss), tmp'', (default (w_addr w) (list.last (map w_addr ms))). split; [exact E|]. split; [done|].
    split; [by apply prefix_cons|]. split; [by constructor|]. cbn [concat]. rewrite app_assoc. split; [done|].
    split; [cbn [map]; rewrite last_cons; by destruct (list.last (map w_addr ms))|].
    split; [intros F; constructor; auto|]. rewrite <- app_assoc in He, Hsz. cbn [app] in He, Hsz. split; [|done].
    change (w :: ms) with ([w] ++ ms) in *. rewrite batches_size_app. destruct Hsz as [Hsz|Hsz]; [|by right].
    destruct Hz as [Hz|Hz]; [left; lia|right; rewrite !batches_size_app in *; lia]. }
  unfold asks in Hw. destruct (w_batch w) as [b|] eqn:Eb.
  - destruct Hw as ([seq ->] & Hc & Hsz).
    assert (batches_size (before ++ [w]) = batches_size before + zlen (batch_bytes seq ws)) as Eadd.
    { rewrite batches_size_app. cbn. rewrite Eb. cbn. lia. }
    unfold ldb_batch_size. pose proof (batches_size_nonneg before). pose proof (zlen_nonneg (batch_bytes seq ws)).
    rewrite u64_small by lia. rewrite <- Eadd. destruct (Z.ltb_spec max_size (batches_size (before ++ [w]))) as [Hm|Hm].
    { apply Stop. right. rewrite app_nil_r, Eb. done. }
    pose proof (batch_size ws seq). pose proof (zlen_nonneg us). pose proof (zlen_nonneg ws).
    destruct tmp as [r|]; cbn [group_tmp] in Ht; subst.
    + rewrite bind_some, batch_append_bytes by lia. apply Go; [done|done|lia|by right].
    + change (ldb_batch_count ldb_batch_init =? 0) with true. cbv iota. rewrite bind_some.
      assert (ldb_batch_append (ldb_batch_append ldb_batch_init first_batch) (batch_bytes seq ws) = batch_bytes 0 (first ++ ws)) as ->
        by (rewrite batch_init_bytes, !batch_append_bytes by (rewrite ?zlen_app, ?zlen_nil; lia); done).
      apply Go; [done|done|lia|by right].
  - subst ws. assert (batches_size [w] = 0) as E0 by (unfold batches_size; cbn [foldr]; by rewrite Eb).
    apply Go; [rewrite app_nil_r; exact Ht|rewrite batches_size_app; lia|lia|by left].
Qed.
End Group.

Lemma group_max_small size : 0 <= size -> 0 <= group_max_size size < 2 ^ 31.
Proof. intros H. unfold group_max_size. change (Z.shiftl 128 10) with 131072. change (Z.shiftl 1 20) with 1048576. destruct (Z.leb_spec size 131072); lia. Qed.

Lemma build_group first queue us uss b : w_batch first = Some b -> Forall2 asks (first :: queue) (us :: uss) ->
  exists members rest muss seq tmp last,
    ldb_build_batch_group (first :: queue) ldb_batch_init = Some (batch_bytes seq (us ++ concat muss), tmp, last) /\
    queue = members ++ rest /\ muss `prefix_of` uss /\ Forall2 asks members muss /\ zlen (us ++ concat muss) < 2 ^ 31 /\
    last = default (w_addr first) (list.last (map w_addr members)) /\
    (w_sync first = false -> Forall (fun w => w_sync w = false) members) /\
    (batches_size members = 0 \/ batches_size (first :: members) <= group_max_size (zlen b)) /\
    group_ends (w_sync first) (group_max_size (zlen b)) (first :: members) rest.
Proof.
  intros Eb H. inversion_clear H as [|? ? ? ? Hf Hq]. unfold asks in Hf. rewrite Eb in Hf. destruct Hf as ([seq ->] & Hc & Hsz).
  set (first_batch := batch_bytes seq us) in *. pose proof (zlen_nonneg first_batch) as H0. pose proof (group_max_small _ H0) as Hmax.
  assert (batches_size [first] = zlen first_batch) as E1 by (unfold batches_size; cbn [foldr]; rewrite Eb; lia).
  destruct (group_loop_spec (w_sync first) seq us (group_max_size (zlen first_batch)) Hc Hmax queue uss Hq [first] us None (w_addr first) eq_refl)
    as (members & rest & muss & tmp & last & E & Hsplit & Hp & Hm & Ht & Hlast & Hsync & Hsize & Hend); [rewrite E1; apply batch_size|rewrite E1; exact Hsz|].
  unfold ldb_build_batch_group. rewrite Eb, bind_some. unfold ldb_batch_size. fold first_batch in E. rewrite E1 in E. rewrite E, bind_some.
  assert (zlen (us ++ concat muss) < 2 ^ 31) as Hfew.
  { assert (forall ws vss, Forall2 asks ws vss -> 2 * zlen (concat vss) <= batches_size ws) as Hrec.
    { clear. induction 1 as [|w vs ws vss Hw _ IH]; [done|]. cbn [concat]. rewrite zlen_app.
      change (w :: ws) with ([w] ++ ws). rewrite batches_size_app. pose proof (asks_size w vs Hw). lia. }
    pose proof (Hrec _ _ Hm) as Hr. rewrite zlen_app. pose proof (batch_size us seq) as Hs. fold first_batch in Hs.
    pose proof (zlen_nonneg us). rewrite batches_size_app in Hsize. lia. }
  exists members, rest, muss. destruct tmp as [r|]; cbn [group_tmp] in Ht.
  - subst r. exists 0, true, last. done.
  - exists seq, false, last. rewrite Ht. unfold first_batch. done.
Qed.
