(* ===== verification/DBWriters.v ===== *)
(** * Writers side by side

    The system of all threads that write to a database: each is at some point of
    [ldb_write] ([src/engine/src/db_impl.c]), and between two of their turns the
    other threads of the program work on the database.  Any operation on the log
    may fail.  The state also keeps the history: who came in which order, the
    groups that were written, and what came of each. *)

From stdpp Require Import strings gmap.
From S2P Require Import Prelude Coding Status Strutil Comparator DBFormat Options Memtable WriteBatch File LogWriter LogReader VersionEdit Version Env VersionSet LogFile FaultyEnv DB DBWrite WriteGroups.
#[local] Open Scope Z_scope.

(** ** Groups *)

(** A group that was written: its first sequence number, whether the log was
    synced behind it, and who asked for what. *)
Record group := Group { g_first : Z; g_sync : bool; g_members : list (nat * list update) }.

Definition g_updates (g : group) : list update := concat (map snd (g_members g)).
Definition record_of (g : group) : bytes := batch_bytes (g_first g) (g_updates g).

(** What is in the memtable behind some groups, the latest first. *)
Definition entries_of (gs : list group) : list entry := rev (concat (map (fun g => numbered (g_first g) (g_updates g)) gs)).

(** The sequence numbers of the groups follow each other. *)
Fixpoint contiguous (from : Z) (gs : list group) (to : Z) : Prop :=
  match gs with [] => from = to | g :: gs => g_first g = from /\ contiguous (from + zlen (g_updates g)) gs to end.

Definition members_of_groups (gs : list group) : list nat := map fst (concat (map g_members gs)).

(** The contents of a log whose [n]th group, if it asked for that, is on the
    disk. *)
Definition log_synced (gs : list group) (synced : Z) : Prop :=
  forall j g, gs !! j = Some g -> g_sync g = true -> zlen (log_file (map record_of (take (S j) gs))) <= synced.

(** What came of a group: its status, whether syncing the log behind it failed,
    and whether no operation on the log had failed until then. *)
Record written := Written { wr_group : group; wr_status : Z; wr_sync_error : bool; wr_clean : bool }.

Abbreviation groups ws := (map wr_group ws).

(** The groups whose updates were applied, and those in front of the first
    failure. *)
Definition applied (ws : list written) : list group := groups (List.filter (fun w => wr_status w =? LDB_OK) ws).
Definition intact (ws : list written) : list group := groups (List.filter wr_clean ws).

(** What the file of a log holds of the groups: [d] with [synced] bytes on the
    disk and [k] bytes flushed.  It starts with the log of the groups in front
    of the first failure, and is exactly that if there was none; the records of
    all applied groups are in it, in their order; those up to the last applied
    group that asked for a sync are on the disk. *)
Record log_contents (d : bytes) (synced k : Z) (ws : list written) : Prop := {
  ls_range : 0 <= synced <= k /\ k <= zlen d;
  ls_exact : exists rest, d = log_file (map record_of (intact ws)) ++ rest /\ (Forall (fun w => wr_clean w = true) ws -> rest = [] /\ k = zlen d);
  ls_intact : zlen (log_file (map record_of (intact ws))) <= k;
  ls_applied : holds_records (ztake k d) (map record_of (applied ws));
  ls_synced j w : ws !! j = Some w -> wr_status w = LDB_OK -> g_sync (wr_group w) = true ->
    holds_records (ztake synced d) (map record_of (applied (take (S j) ws))) /\
    (wr_clean w = true -> zlen (log_file (map record_of (intact (take (S j) ws)))) <= synced);
  ls_clean : Forall (fun w => wr_clean w = true -> wr_status w = LDB_OK) ws
}.

(** ** The system *)

(** A writer: what it asks for ([None]: it wants the memtable to be compacted),
    and where it is. *)
Record thread := Thread { t_waiter : waiter; t_updates : option (list update); t_pc : wpc }.

Definition with_pc (t : thread) (pc : wpc) : thread := Thread (t_waiter t) (t_updates t) pc.

Definition request (addr : nat) (updates : option (list update)) (sync : bool) : waiter :=
  Waiter addr (batch_of <$> updates) sync.

Record writers (E W : Type) := Writers {
  s_env : E;
  s_db : ldb W;
  s_threads : gmap nat thread;
  s_arrivals : list nat;
  s_flushed : list written;
  s_imm : list written;
  s_log : list written
}.
Arguments Writers {E W}.
Arguments s_env {E W}.
Arguments s_db {E W}.
Arguments s_threads {E W}.
Arguments s_arrivals {E W}.
Arguments s_flushed {E W}.
Arguments s_imm {E W}.
Arguments s_log {E W}.

(** The writers of the queue up to one. *)
Fixpoint through (last : nat) (queue : list waiter) : list waiter :=
  match queue with [] => [] | w :: queue => if Nat.eqb (w_addr w) last then [w] else w :: through last queue end.

Definition updates_at (ts : gmap nat thread) (a : nat) : list update := from_option (fun t => default [] (t_updates t)) [] (ts !! a).
Definition members (ts : gmap nat thread) (ws : list waiter) : list (nat * list update) := map (fun w => (w_addr w, updates_at ts (w_addr w))) ws.

Section System.
Context {E W : Type} (ops : env_ops E W) (rep : E -> fsview -> Prop) (names : E -> W -> bytes -> Prop).
Context (flushed : E -> W -> Z) (failed : E -> W -> bool).
Implicit Types (db : ldb W) (s : writers E W).

(** What the other threads may do to the database and the files, as far as the
    writers see it: they may install versions, record an error, and turn the
    immutable memtable into a table, after which its log is not needed any more;
    they do not touch the open log. *)
Record others (e : E) db (e' : E) db' : Prop := {
  ot_rep fs : rep e fs -> exists fs', rep e' fs' /\
    forall n p, 0 < n -> vs_log_number (db_versions db') <= n <= db_logfile_number db ->
      ldb_log_filename LDB_PATH_MAX (db_dbname db) n = Some p -> fs' !! p = fs !! p;
  ot_names w p : names e w p -> names e' w p;
  ot_file w : db_logfile db = Some w -> flushed e' w = flushed e w /\ failed e' w = failed e w;
  ot_fixed : db_dbname db' = db_dbname db /\ db_options db' = db_options db /\ db_mem db' = db_mem db /\
    db_logfile db' = db_logfile db /\ db_logfile_number db' = db_logfile_number db /\ db_log db' = db_log db /\
    db_writers db' = db_writers db /\ db_finished db' = db_finished db /\ db_tmp_batch db' = db_tmp_batch db;
  ot_imm : db_imm db' = db_imm db /\ vs_log_number (db_versions db') = vs_log_number (db_versions db) \/
    db_imm db' = None /\ 0 <= vs_log_number (db_versions db') <= db_logfile_number db;
  ot_sequence : vs_last_sequence (db_versions db') = vs_last_sequence (db_versions db);
  ot_numbers : vs_next_file_number (db_versions db) <= vs_next_file_number (db_versions db') < 2 ^ 64;
  ot_error : db_bg_error db <> LDB_OK -> db_bg_error db' <> LDB_OK;
  ot_prev : vs_prev_log_number (db_versions db') = vs_prev_log_number (db_versions db);
  ot_current : is_Some (ldb_versions_files (db_versions db') 0)
}.

(** Numbers have their widths: no more than 2^56 - 1 updates and 2^64 - 1 file
    numbers. *)
Definition turn_fits s (pc : wpc) : Prop :=
  match pc with
  | WApply _ _ last_sequence _ => last_sequence <= LDB_MAX_SEQUENCE
  | WRoom _ _ => vs_next_file_number (db_versions (s_db s)) + 1 < 2 ^ 64
  | _ => True
  end.

(** Whether the log gets a record but cannot be synced behind it. *)
Definition sync_fails (e : E) db (write_batch : bytes) (sync : bool) : bool :=
  match db_log db, db_logfile db with
  | Some log, Some logfile =>
    match env_add_record ops e log write_batch with
    | Some (rc, _, e) => (rc =? LDB_OK) && sync && negb ((env_sync ops e logfile).1 =? LDB_OK)
    | None => false
    end
  | _, _ => false
  end.

(** The history behind a turn: a group was written, or the log was switched. *)
Definition record_turn s (t : thread) (e : E) db (pc : wpc) (a : nat) : writers E W :=
  let ts := <[a := with_pc t pc]> (s_threads s) in
  match t_pc t, pc with
  | WApply b _ _ last, WApplied rc _ _ _ _ =>
    let g := Group (ldb_batch_sequence b) (w_sync (t_waiter t)) (members (s_threads s) (through last (db_writers (s_db s)))) in
    let clean := match db_logfile db with Some file => negb (failed e file) | None => true end in
    Writers e db ts (s_arrivals s) (s_flushed s) (s_imm s) (s_log s ++ [Written g rc (sync_fails (s_env s) (s_db s) b (w_sync (t_waiter t))) clean])
  | _, _ =>
    if db_logfile_number db =? db_logfile_number (s_db s)
    then Writers e db ts (s_arrivals s) (s_flushed s) (s_imm s) (s_log s)
    else Writers e db ts (s_arrivals s) (s_flushed s ++ s_imm s) (s_log s) []
  end.

Definition begin s (a : nat) (updates : option (list update)) (sync : bool) : writers E W :=
  Writers (s_env s) (write_begin (s_db s) (request a updates sync)) (<[a := Thread (request a updates sync) updates WWait]> (s_threads s))
    (s_arrivals s ++ [a]) (s_flushed s) (s_imm s) (s_log s).

(** [None]: there is no such thread, or an assertion fails. *)
Definition turn s (a : nat) : option (writers E W) :=
  t ← s_threads s !! a; '(pc, e, db) ← writer_turn ops (s_env s) (s_db s) (t_waiter t) (t_pc t); Some (record_turn s t e db pc a).

Context (udom : bytes -> Prop).

Inductive write_step s : writers E W -> Prop :=
| step_begin a updates sync :
    s_threads s !! a = None -> from_option (Forall (update_ok udom)) True updates ->
    from_option (fun us => zlen us < 2 ^ 31 /\ zlen (batch_of us) < 2 ^ 63) True updates ->
    write_step s (begin s a updates sync)
| step_turn a t s' :
    s_threads s !! a = Some t -> turn_fits s (t_pc t) -> turn s a = Some s' -> write_step s s'
| step_others e' db' :
    others (s_env s) (s_db s) e' db' ->
    write_step s (Writers e' db' (s_threads s) (s_arrivals s) (s_flushed s) (s_imm s) (s_log s)).

Inductive executes s : writers E W -> Prop :=
| executes_refl : executes s s
| executes_step s1 s2 : executes s s1 -> write_step s1 s2 -> executes s s2.
End System.

(** ** What holds in every state *)

Section Invariant.
Context (udom : bytes -> Prop) (uc : comparator) `{!ComparatorLaws udom uc}.
Context {E W : Type} (ops : env_ops E W) (rep : E -> fsview -> Prop) (names : E -> W -> bytes -> Prop).
Context (flushed : E -> W -> Z) (failed : E -> W -> bool) {laws : FaultyLaws ops rep names flushed failed}.
Context (start : Z).
Implicit Types (db : ldb W) (s : writers E W).

(** A file holds the log of some groups, which are in a memtable. *)
Definition log_of (fs : fsview) db (number : Z) (gs : list group) : Prop :=
  exists path synced, ldb_log_filename LDB_PATH_MAX (db_dbname db) number = Some path /\
    fs !! path = Some (VFile (log_file (map record_of gs)) synced) /\ synced <= zlen (log_file (map record_of gs)) /\ log_synced gs synced.

(** Constants of the database, and its numbers. *)
Record db_ready db : Prop := {
  dr_comparator : opt_comparator (db_options db) = Some (ldb_ikc_init uc);
  dr_names n : 0 < n < 2 ^ 64 -> is_Some (ldb_log_filename LDB_PATH_MAX (db_dbname db) n);
  dr_prev : vs_prev_log_number (db_versions db) = 0;
  dr_current : is_Some (ldb_versions_files (db_versions db) 0);
  dr_numbers : 0 <= vs_log_number (db_versions db) <= db_logfile_number db /\
    0 < db_logfile_number db < vs_next_file_number (db_versions db) /\ vs_next_file_number (db_versions db) < 2 ^ 64
}.

(** A file holds the log of some groups, whatever came of them. *)
Definition log_holds (fs : fsview) db (number : Z) (ws : list written) : Prop :=
  exists path d synced k, ldb_log_filename LDB_PATH_MAX (db_dbname db) number = Some path /\
    fs !! path = Some (VFile d synced) /\ log_contents d synced k ws.

(** The open log; as long as it has not failed its writer is behind the records. *)
Definition log_opened (e : E) (fs : fsview) db (ws : list written) (file : W) (path : bytes) (log : writer W) (d : bytes) (synced : Z) : Prop :=
  db_logfile db = Some file /\ db_log db = Some log /\
  ldb_log_filename LDB_PATH_MAX (db_dbname db) (db_logfile_number db) = Some path /\ names e file path /\
  fs !! path = Some (VFile d synced) /\ log_contents d synced (flushed e file) ws /\
  lw_file log = file /\ writer_ok log /\
  (failed e file = false -> log_writer_at (map record_of (groups ws)) file log /\ Forall (fun w => wr_clean w = true) ws).

(** The open log has the groups, the memtable those that were applied. *)
Record log_open (e : E) (fs : fsview) db (ws : list written) (last : Z) : Prop := {
  lo_file : exists file path log d synced, log_opened e fs db ws file path log d synced;
  lo_mem : exists mem, db_mem db = Some mem /\ mt_holds udom uc mem (entries_of (applied ws));
  lo_before : before (last + 1) (entries_of (applied ws))
}.

(** The groups of the current log, those of the log of the immutable memtable,
    and the earlier ones; [last] is the last sequence number that was used. *)
Record store_inv (e : E) db (old imm ws : list written) (last : Z) : Prop := {
  si_ready : db_ready db;
  si_files : exists fs, rep e fs /\ log_open e fs db ws last /\
    forall m, db_imm db = Some m -> mt_holds udom uc m (entries_of (applied imm)) /\
      exists n, 0 < n /\ vs_log_number (db_versions db) <= n < db_logfile_number db /\ log_holds fs db n imm;
  si_sequences : contiguous start (groups (old ++ imm ++ ws)) (last + 1);
  si_last : 0 <= last <= LDB_MAX_SEQUENCE
}.

Lemma entries_snoc gs g : entries_of (gs ++ [g]) = rev (numbered (g_first g) (g_updates g)) ++ entries_of gs.
Proof. unfold entries_of. rewrite map_app, concat_app, rev_app_distr. cbn [map concat]. by rewrite app_nil_r. Qed.

Lemma contiguous_snoc from gs g to : contiguous from gs to -> g_first g = to -> contiguous from (gs ++ [g]) (to + zlen (g_updates g)).
Proof. revert from. induction gs as [|x gs IH]; intros from; cbn [contiguous app]; [by intros -> ->|intros [? ?] ?; auto]. Qed.

Lemma log_filename_inj size dbname n m p : 0 < n < 2 ^ 64 -> 0 < m < 2 ^ 64 ->
  ldb_log_filename size dbname n = Some p -> ldb_log_filename size dbname m = Some p -> n = m.
Proof.
  intros Hn Hm En Em. destruct (parse_made_filename size dbname n Hn) as [Pn _]. destruct (parse_made_filename size dbname m Hm) as [Pm _].
  specialize (Pn p En). specialize (Pm p Em). congruence.
Qed.

(** A batch goes into the memtable. *)
Lemma insert_group mem h seq us : mt_holds udom uc mem h -> before seq h -> Forall (update_ok udom) us -> zlen us < 2 ^ 31 ->
  0 <= seq -> seq + zlen us <= LDB_MAX_SEQUENCE + 1 ->
  exists mem', ldb_batch_insert_into (batch_bytes seq us) mem = Some (LDB_OK, mem') /\
    mt_holds udom uc mem' (rev (numbered seq us) ++ h) /\ before (seq + zlen us) (rev (numbered seq us) ++ h).
Proof.
  intros Hm Hb Hu Hfew H0 Hmax. pose proof (zlen_nonneg us). destruct (run_insert udom uc us mem h seq Hm Hb Hu H0 Hmax) as (mem' & Er & Hm' & Hb').
  exists mem'. unfold ldb_batch_insert_into. rewrite batch_sequence_bytes by (change LDB_MAX_SEQUENCE with (2 ^ 56 - 1) in Hmax; lia).
  rewrite batch_iterate_bytes; [|eapply List.Forall_impl; [|exact Hu]; intros x; apply update_ok_wf|done]. by rewrite Er, !bind_some.
Qed.

(** ** What a log holds *)

Lemma applied_snoc ws w : applied (ws ++ [w]) = applied ws ++ (if wr_status w =? LDB_OK then [wr_group w] else []).
Proof. unfold applied. rewrite List.filter_app, map_app. cbn. by destruct (_ =? LDB_OK). Qed.

Lemma intact_snoc ws w : intact (ws ++ [w]) = intact ws ++ (if wr_clean w then [wr_group w] else []).
Proof. unfold intact. rewrite List.filter_app, map_app. cbn. by destruct (wr_clean w). Qed.

Lemma intact_all ws : Forall (fun w => wr_clean w = true) ws -> intact ws = groups ws.
Proof. unfold intact. induction 1 as [|w ws Hw _ IH]; [done|]. cbn. rewrite Hw. cbn. by rewrite IH. Qed.

Lemma log_contents_nil : log_contents [] 0 0 [].
Proof. split; [done|by exists []|done|by apply holds_nil|done|constructor]. Qed.

(** Whatever was lost was not flushed. *)
Lemma ztake_kept_prefix j k (d d' : bytes) : 0 <= j <= k -> keeps k d d' -> ztake j d `prefix_of` d'.
Proof.
  intros Hj [H1 H2]. rewrite <- (ztake_take j k d), <- H2, ztake_take by done. exists (zdrop j d'). by rewrite ztake_zdrop.
Qed.

Lemma ztake_prefix_of j k (d : bytes) : 0 <= j <= k -> ztake j d `prefix_of` ztake k d.
Proof. intros H. rewrite <- (ztake_take j k d) by done. exists (zdrop j (ztake k d)). by rewrite ztake_zdrop. Qed.

(** The log after a group. *)
Lemma log_contents_snoc d synced k ws d' synced' k' g rc sync_error clean : log_contents d synced k ws ->
  keeps k d d' -> k <= k' <= zlen d' -> synced <= synced' <= k' ->
  (clean = true -> rc = LDB_OK /\ Forall (fun w => wr_clean w = true) ws /\ d' = log_file (map record_of (groups ws ++ [g]))) ->
  (rc = LDB_OK -> k' = zlen d' /\ (g_sync g = true -> synced' = zlen d') /\ exists frs, record_frags frs (record_of g) /\ carries (zdrop k d') frs) ->
  log_contents d' synced' k' (ws ++ [Written g rc sync_error clean]).
Proof.
  intros [[Hs Hk] (rest & Hd & Hall) Hi Ha Hsy Hcl] K Hk' Hs' Hclean Hok.
  pose proof (zlen_nonneg (log_file (map record_of (intact ws)))).
  assert (clean = true -> intact (ws ++ [Written g rc sync_error clean]) = groups ws ++ [g]) as Hin.
  { intros ->. destruct (Hclean eq_refl) as (_ & Hf & _). by rewrite intact_snoc, intact_all. }
  assert (ztake k d `prefix_of` d') as Hp by (apply (ztake_kept_prefix k k); [lia|done]).
  assert (holds_records (ztake k' d') (map record_of (applied (ws ++ [Written g rc sync_error clean])))) as Hap.
  { rewrite applied_snoc. cbn [wr_status wr_group]. destruct (Z.eqb_spec rc LDB_OK) as [Hrc|Hrc].
    - destruct (Hok Hrc) as (-> & _ & frs & Hf & Hc). rewrite ztake_all by lia. rewrite (keeps_split k d d') by (done || lia).
      rewrite map_app. by apply (holds_snoc _ _ _ _ frs).
    - rewrite app_nil_r. apply (holds_prefix (ztake k d)); [|done]. destruct K as [_ <-]. apply ztake_prefix_of. lia. }
  split.
  - lia.
  - destruct clean.
    + destruct (Hclean eq_refl) as (-> & _ & E1). exists []. rewrite Hin, app_nil_r by done. split; [done|]. intros _. by destruct (Hok eq_refl) as [-> _].
    + rewrite intact_snoc, app_nil_r. cbn [wr_clean].
      assert (log_file (map record_of (intact ws)) `prefix_of` d') as [x Hx].
      { etrans; [|exact Hp]. rewrite Hd, ztake_app_ge by done. by apply prefix_app_r. }
      exists x. split; [done|]. intros Hf. apply Forall_app in Hf as [_ Hf]. by inversion Hf.
  - destruct clean; [|rewrite intact_snoc, app_nil_r; lia]. destruct (Hclean eq_refl) as (-> & _ & E1). destruct (Hok eq_refl) as [-> _].
    rewrite Hin, <- E1 by done. lia.
  - done.
  - intros j w Hj Hst Hsync. destruct (decide (j < length ws)%nat) as [Hlt|Hge].
    + rewrite lookup_app_l in Hj by done. rewrite take_app_le by lia. destruct (Hsy j w Hj Hst Hsync) as [H1 H2]. split; [|intros Hc; specialize (H2 Hc); lia].
      apply (holds_prefix (ztake synced d)); [|done]. rewrite <- (ztake_take synced k d) by lia. destruct K as [_ <-].
      rewrite ztake_take by lia. apply ztake_prefix_of. lia.
    + assert (j = length ws) as -> by (apply lookup_lt_Some in Hj; rewrite length_app in Hj; cbn in Hj; lia).
      rewrite lookup_app_r, Nat.sub_diag in Hj by lia. injection Hj as <-. cbn [wr_status wr_group wr_clean] in *.
      rewrite take_ge by (rewrite length_app; cbn; lia). destruct (Hok Hst) as (Ek & Es & _). rewrite (Es Hsync). rewrite Ek, ztake_all in Hap by lia.
      rewrite ztake_all by lia. split; [done|]. intros Hc. rewrite Hin by done. destruct (Hclean Hc) as (_ & _ & <-). lia.
  - apply Forall_app. split; [done|]. constructor; [|constructor]. intros Hc. by apply Hclean.
Qed.

(** Closing a log may lose what was not flushed. *)
Lemma log_contents_kept d synced k ws d' : log_contents d synced k ws -> kept k d d' -> log_contents d' synced k ws.
Proof.
  intros [[Hs Hk] (rest & Hd & Hall) Hi Ha Hsy Hcl] K. pose proof (kept_keeps k d d' ltac:(lia) K) as [K1 K2].
  pose proof (zlen_nonneg (log_file (map record_of (intact ws)))). split; try done.
  - destruct K as (n & Hn & ->). exists (ztake (n - zlen (log_file (map record_of (intact ws)))) rest). split; [by rewrite Hd, ztake_app_ge by lia|].
    intros Hf. destruct (Hall Hf) as [-> ->]. split; [by unfold ztake; rewrite take_nil|]. by rewrite (ztake_all n d) by lia.
  - by rewrite K2.
  - intros j w Hj Hst Hsync. rewrite <- (ztake_take synced k d') by lia. rewrite K2, ztake_take by lia. by apply (Hsy j w).
Qed.

(** A log without failures is the log of its groups. *)
Lemma clean_log fs db n ws : Forall (fun w => wr_clean w = true) ws -> log_holds fs db n ws -> log_of fs db n (groups ws).
Proof.
  intros Hf (path & d & synced & k & Ep & Hd & [[Hs Hk] (rest & -> & Hall) Hi Ha Hsy Hcl]). destruct (Hall Hf) as [-> _].
  rewrite app_nil_r, intact_all in * by done. exists path, synced. do 2 (split; [done|]). split; [lia|].
  intros j g Hj Hsync. rewrite list_lookup_fmap in Hj. destruct (ws !! j) as [w|] eqn:Ew; [|done]. injection Hj as <-.
  rewrite List.Forall_forall in Hf, Hcl. assert (List.In w ws) as Hin by (apply list_elem_of_In; by eapply list_elem_of_lookup_2).
  destruct (Hsy j w Ew (Hcl w Hin (Hf w Hin)) Hsync) as [_ H2]. specialize (H2 (Hf w Hin)).
  rewrite intact_all, <- firstn_map in H2; [done|]. apply Forall_take. by apply List.Forall_forall.
Qed.

(** ** A group is written *)

Lemma clean_record {F} rs (file : F) o c r d d' o' c' : log_writer_at rs file (Writer file o c) -> d = log_file rs ->
  ldb_writer_add_record mem_file (Writer d o c) r = Some (LDB_OK, Writer d' o' c') ->
  d' = log_file (rs ++ [r]) /\ log_writer_at (rs ++ [r]) file (Writer file o' c').
Proof.
  intros (m & Em & [= -> ->]) Hd Ea. destruct (next_log_record rs r m Em) as (m' & E1 & E2).
  assert (m = Writer d (lw_block_offset m) (lw_type_crc m)) as Hm by (rewrite Hd, (log_file_at rs m Em); by destruct m).
  rewrite Hm in E1. rewrite Ea in E1. injection E1 as <-. split; [by rewrite (log_file_at _ _ E2)|]. by eexists.
Qed.

(** A record is added to the open log, and the log synced. *)
Lemma log_group e fs db ws file path log d synced g (sync : bool) : rep e fs -> log_opened e fs db ws file path log d synced -> g_sync g = sync ->
  exists rc log' e1 rc2 e2 d2 synced2, env_add_record ops e log (record_of g) = Some (rc, log', e1) /\
    (if (rc =? LDB_OK) && sync then env_sync ops e1 file else (rc, e1)) = (rc2, e2) /\
    (rc <> LDB_OK -> rc2 <> LDB_OK) /\ rep e2 (<[path := VFile d2 synced2]> fs) /\ only names flushed failed e e2 file /\
    forall sync_error db', db_logfile db' = Some file -> db_log db' = Some log' ->
      ldb_log_filename LDB_PATH_MAX (db_dbname db') (db_logfile_number db') = Some path ->
      log_opened e2 (<[path := VFile d2 synced2]> fs) db' (ws ++ [Written g rc2 sync_error (negb (failed e2 file))]) file path log' d2 synced2.
Proof.
  intros R (El & Eg & Ep & N & Hfs & Hst & <- & Hw & Hcl) <-. destruct log as [file o c]. cbn [lw_file] in *.
  pose proof (ls_range _ _ _ _ Hst) as [Hs Hk].
  destruct (faulty_add_record ops rep names flushed failed e fs file path (VFile d synced) o c (record_of g) R N Hfs ltac:(cbn; lia) Hw)
    as (rc & log' & e1 & d1 & E1 & Hf1 & Hw1 & R1 & Ho1 & K1 & Hk1 & M1 & C1 & O1). cbn [vf_data vf_synced] in *.
  assert (forall e2 b, failed e2 file = b -> (b = false -> failed e1 file = false) -> b = false ->
    Forall (fun w => wr_clean w = true) ws /\ rc = LDB_OK /\ d1 = log_file (map record_of (groups ws ++ [g])) /\
    log_writer_at (map record_of (groups ws ++ [g])) file log') as Clean.
  { intros e2 b Hb Hb1 Hb0. destruct (C1 (Hb1 Hb0)) as (Hrc & Hf0 & Ea). destruct (Hcl Hf0) as [Hlw Hall].
    destruct (ls_exact _ _ _ _ Hst) as (rest & Hd & Hrest). destruct (Hrest Hall) as [-> _]. rewrite app_nil_r, intact_all in Hd by done.
    destruct (clean_record _ _ _ _ _ _ _ _ _ Hlw Hd Ea) as [H1 H2]. rewrite map_app. do 3 (split; [done|]).
    destruct log' as [file' o' c']. cbn in Hf1. by subst file'. }
  assert (forall e2 k2 y2 rc2 (se : bool), failed e2 file = failed e1 file \/ failed e2 file = true -> flushed e2 file = k2 ->
    (failed e2 file = false -> rc2 = LDB_OK) -> k2 = flushed e1 file -> (rc2 = LDB_OK -> rc = LDB_OK) ->
    (y2 = synced \/ y2 = zlen d1 /\ k2 = zlen d1) -> (rc2 = LDB_OK -> g_sync g = true -> y2 = zlen d1) ->
    log_contents d1 y2 (flushed e2 file) (ws ++ [Written g rc2 se (negb (failed e2 file))])) as State.
  { intros e2 k2 y2 rc2 se Hfe Hfl Hrc2 Hk2 Hrc Hs2 Hs2'. rewrite Hfl, Hk2. apply (log_contents_snoc d synced (flushed e file)); [done|done|lia|destruct Hs2 as [->|[-> ?]]; lia| |].
    - intros Hn%negb_true_iff. destruct (Clean e2 _ eq_refl) as (H1 & H2 & H3 & _); [intros Hb; destruct Hfe; congruence|done|]. auto.
    - intros Hok. destruct (O1 (Hrc Hok)) as [H1 H2]. auto. }
  assert (forall e2, failed e2 file = failed e1 file \/ failed e2 file = true -> failed e2 file = false ->
    log_writer_at (map record_of (groups ws ++ [g])) file log' /\ Forall (fun w => wr_clean w = true) ws) as Behind.
  { intros e2 Hfe Hb. destruct (Clean e2 _ eq_refl) as (H1 & _ & _ & H2); [intros Hb'; destruct Hfe; congruence|done|done]. }
  rewrite E1. destruct ((rc =? LDB_OK) && g_sync g) eqn:Esync.
  - apply andb_true_iff in Esync as [->%Z.eqb_eq Esync]. destruct (O1 eq_refl) as [Hk1' _].
    destruct (fl_sync ops rep names flushed failed e1 _ file path (VFile d1 synced) R1 (proj1 Ho1 _ _ N) (lookup_insert_eq _ _ _) ltac:(cbn; lia))
      as (rc2 & e2 & d2 & y2 & E2 & R2 & Ho2 & H). rewrite insert_insert_eq in R2. cbn [vf_data vf_synced] in *.
    assert (d2 = d1) as ->.
    { destruct H as [(_ & -> & _)|(_ & (n & Hn & ->) & _)]; [done|]. apply ztake_all. lia. }
    assert (flushed e2 file = flushed e1 file /\ (failed e2 file = failed e1 file \/ failed e2 file = true) /\ (failed e2 file = false -> rc2 = LDB_OK) /\
      (y2 = synced \/ y2 = zlen d1 /\ flushed e1 file = zlen d1) /\ (rc2 = LDB_OK -> g_sync g = true -> y2 = zlen d1)) as (F & A & C & Sy & T).
    { destruct H as [(-> & _ & -> & -> & ->)|(Hrc & _ & -> & -> & Hf)]; [auto 10|]. rewrite Hf. split; [done|]. split; [by right|]. split; [done|]. split; [by left|done]. }
    exists LDB_OK, log', e1, rc2, e2, d1, y2. split; [done|]. split; [change (LDB_OK =? LDB_OK) with true; by rewrite Esync|]. split; [done|]. split; [done|]. split; [by apply (only_trans _ _ _ e e1)|].
    intros se db' D1 D2 D3. split; [done|]. split; [done|]. split; [done|]. split; [by apply Ho2, Ho1|]. split; [apply lookup_insert_eq|].
    split; [by apply (State e2 (flushed e1 file))|]. split; [done|]. split; [done|]. intros Hb. rewrite map_app. destruct (Behind e2 A Hb) as [B1 B2]. split; [done|].
    apply Forall_app. split; [done|]. constructor; [|constructor]. cbn. by rewrite Hb.
  - exists rc, log', e1, rc, e1, d1, synced. split; [done|]. split; [by rewrite Esync|]. split; [done|]. split; [done|]. split; [done|].
    intros se db' D1 D2 D3. split; [done|]. split; [done|]. split; [done|]. split; [by apply Ho1|]. split; [apply lookup_insert_eq|].
    split.
    { apply (State e1 (flushed e1 file)); [by left|done|intros Hb; by destruct (C1 Hb)|done|done|by left|].
      intros -> Hs0. rewrite Hs0 in Esync. done. }
    split; [done|]. split; [done|]. intros Hb. rewrite map_app. destruct (Behind e1 ltac:(by left) Hb) as [B1 B2]. split; [done|].
    apply Forall_app. split; [done|]. constructor; [|constructor]. cbn. by rewrite Hb.
Qed.

(** Nothing the writers look at outside the log and the memtable has changed. *)
Definition same_queue db db' : Prop :=
  db_writers db' = db_writers db /\ db_finished db' = db_finished db /\ db_tmp_batch db' = db_tmp_batch db /\
  vs_last_sequence (db_versions db') = vs_last_sequence (db_versions db).

Lemma log_holds_same fs fs' db db' n ws : db_dbname db' = db_dbname db ->
  (forall p, ldb_log_filename LDB_PATH_MAX (db_dbname db) n = Some p -> fs' !! p = fs !! p) -> log_holds fs db n ws -> log_holds fs' db' n ws.
Proof. intros Hd Hp (p & d & y & k & Ep & E1 & H). exists p, d, y, k. rewrite Hd, (Hp p Ep). done. Qed.

(** The log of the immutable memtable is another file. *)
Lemma imm_log_same fs fs' db db' ws path : db_ready db -> db_dbname db' = db_dbname db -> db_logfile_number db' = db_logfile_number db ->
  db_imm db' = db_imm db -> db_versions db' = db_versions db ->
  ldb_log_filename LDB_PATH_MAX (db_dbname db) (db_logfile_number db) = Some path -> (forall p, p <> path -> fs' !! p = fs !! p) ->
  (forall m, db_imm db = Some m -> mt_holds udom uc m (entries_of (applied ws)) /\
    exists n, 0 < n /\ vs_log_number (db_versions db) <= n < db_logfile_number db /\ log_holds fs db n ws) ->
  forall m, db_imm db' = Some m -> mt_holds udom uc m (entries_of (applied ws)) /\
    exists n, 0 < n /\ vs_log_number (db_versions db') <= n < db_logfile_number db' /\ log_holds fs' db' n ws.
Proof.
  intros Hready Hd Hn Hi Hv Ep Hfs Himm m Hm. rewrite Hi in Hm. destruct (Himm m Hm) as [H1 (n & Hn0 & Hr & Hl)]. split; [done|].
  exists n. rewrite Hv, Hn. do 2 (split; [done|]). apply (log_holds_same fs fs' db db'); [done| |done]. intros p Enp. apply Hfs. intros ->.
  pose proof (dr_numbers db Hready) as (? & ? & ?). apply (log_filename_inj _ _ n (db_logfile_number db)) in Enp; [lia|lia|lia|done].
Qed.

Lemma log_and_apply_ok e db old imm ws last g (sync : bool) : store_inv e db old imm ws last ->
  g_first g = last + 1 -> g_sync g = sync -> Forall (update_ok udom) (g_updates g) -> zlen (g_updates g) < 2 ^ 31 ->
  last + zlen (g_updates g) <= LDB_MAX_SEQUENCE ->
  exists rc sync_error e' db' file, log_and_apply ops e db (record_of g) sync = Some (rc, sync_error, e', db') /\
    sync_error = sync_fails ops e db (record_of g) sync /\ (sync_error = true -> rc <> LDB_OK) /\ same_queue db db' /\ db_bg_error db' = db_bg_error db /\ db_logfile db' = Some file /\
    store_inv e' db' old imm (ws ++ [Written g rc sync_error (negb (failed e' file))]) (last + zlen (g_updates g)).
Proof.
  intros [Hready (fs & R & Hlog & Himm) Hseq Hlast] Hg Hsync Hu Hfew Hmax.
  destruct Hlog as [(file & path & log & d & synced & Ho) (mem & Em & Hm) Hb]. pose proof Ho as (El & Eg & Ep & _).
  destruct (log_group e fs db ws file path log d synced g sync R Ho Hsync) as (rc & log' & e1 & rc2 & e2 & d2 & synced2 & E1 & E2 & Hrc & R2 & Ho2 & Hopen).
  unfold log_and_apply. rewrite El, Eg, Em, !bind_some. unfold ldb_batch_contents. rewrite E1, bind_some. cbv zeta.
  set (db1 := set_db_log db (Some file) (db_logfile_number db) (Some log')). pose proof (zlen_nonneg (g_updates g)).
  assert (exists se, (if (rc =? LDB_OK) && sync then let '(rc, e) := env_sync ops e1 file in (rc, negb (rc =? LDB_OK), e) else (rc, false, e1)) = (rc2, se, e2) /\
    se = sync_fails ops e db (record_of g) sync /\ (se = true -> rc2 <> LDB_OK)) as (se & -> & Efails & Hse).
  { unfold sync_fails. rewrite Eg, El, E1. destruct ((rc =? LDB_OK) && sync); [rewrite E2|injection E2 as -> ->]; eexists; (split; [reflexivity|]); [|done].
    split; [done|]. intros Hn%negb_true_iff%Z.eqb_neq. done. }
  assert (contiguous start (groups (old ++ imm ++ ws ++ [Written g rc2 se (negb (failed e2 file))])) (last + zlen (g_updates g) + 1)) as Hseq'.
  { rewrite !app_assoc, <- (app_assoc old), map_app. replace (last + zlen (g_updates g) + 1) with (last + 1 + zlen (g_updates g)) by lia. by apply contiguous_snoc. }
  assert (forall p, p <> path -> (<[path := VFile d2 synced2]> fs : fsview) !! p = fs !! p) as Hother by (intros p Hp; by apply lookup_insert_ne).
  destruct (Z.eqb_spec rc2 LDB_OK) as [->|Hne].
  - assert (exists mem', ldb_batch_insert_into (record_of g) mem = Some (LDB_OK, mem') /\ mt_holds udom uc mem' (entries_of (applied ws ++ [g])) /\
      before (last + 1 + zlen (g_updates g)) (entries_of (applied ws ++ [g]))) as (mem' & Ei & Hm' & Hb').
    { rewrite entries_snoc, Hg. unfold record_of. rewrite Hg. apply insert_group; [done|done|done|done|lia|lia]. }
    rewrite Ei, bind_some. eexists LDB_OK, se, e2, _, file. split; [reflexivity|]. do 2 (split; [done|]). split; [done|]. split; [done|]. split; [done|].
    split; [destruct Hready; by split| |done|lia]. exists (<[path := VFile d2 synced2]> fs). split; [done|]. split.
    + split; [exists file, path, log', d2, synced2; by apply Hopen| |]; rewrite applied_snoc; [by exists mem'|].
      by replace (last + zlen (g_updates g) + 1) with (last + 1 + zlen (g_updates g)) by lia.
    + by apply (imm_log_same fs _ db _ imm path Hready).
  - eexists rc2, se, e2, db1, file. split; [reflexivity|]. do 2 (split; [done|]). split; [done|]. split; [done|]. split; [done|].
    split; [destruct Hready; by split| |done|lia]. exists (<[path := VFile d2 synced2]> fs). split; [done|]. split.
    + split; [exists file, path, log', d2, synced2; by apply Hopen| |]; rewrite applied_snoc, (proj2 (Z.eqb_neq _ _)), app_nil_r by done; [by exists mem|].
      eapply List.Forall_impl; [|exact Hb]. intros x Hx. destruct Hx as [Hx1 Hx2]. split; [exact Hx1|]. eapply Z.lt_le_trans; [exact Hx2|lia].
    + by apply (imm_log_same fs _ db _ imm path Hready).
Qed.

(** ** The other threads *)

Lemma others_ok e db e' db' old imm ws last : others rep names flushed failed e db e' db' ->
  store_inv e db old imm ws last -> store_inv e' db' old imm ws last.
Proof.
  intros [Hrep Hnames Hfile (F1 & F2 & F3 & F4 & F5 & F6 & F7 & F8 & F9) Himm' Hseq' Hnum _ Hprev Hcur] [Hready (fs & R & Hlog & Himm) Hseq Hlast].
  pose proof (dr_numbers db Hready) as (Hn1 & Hn2 & Hn3). destruct (Hrep fs R) as (fs' & R' & Hfs').
  assert (0 <= vs_log_number (db_versions db') <= db_logfile_number db) as Hln by (destruct Himm' as [[_ ->]|[_ ?]]; lia).
  split; [| |done|done].
  - destruct Hready. split; rewrite ?F1, ?F2, ?F5; try done; [congruence|lia].
  - exists fs'. split; [done|]. split.
    + destruct Hlog as [(file & path & log & d & synced & El & Eg & Ep & N & Hd & Hst & H) (mem & Em & Hm) Hb]. split; [| |done].
      * exists file, path, log, d, synced. unfold log_opened. destruct (Hfile file El) as [-> ->]. rewrite F1, F4, F5, F6, (Hfs' (db_logfile_number db) path ltac:(lia) ltac:(lia) Ep). auto 10.
      * exists mem. by rewrite F3.
    + intros m Hm. destruct Himm' as [[E1 E2]|[E1 _]]; [|congruence]. rewrite E1 in Hm. destruct (Himm m Hm) as [H1 (n & H2 & H3 & H4)].
      split; [done|]. exists n. rewrite E2, F5. split; [done|]. split; [done|]. apply (log_holds_same fs fs' db db'); [done| |done].
      intros p Hp. apply (Hfs' n p); [done|lia|done].
Qed.

(** ** Room is made *)

Lemma schedule_ok db : is_Some (ldb_versions_files (db_versions db) 0) ->
  exists b, ldb_maybe_schedule_compaction db = Some (set_db_scheduled db b).
Proof.
  intros [n Hn]. unfold ldb_versions_files in Hn. destruct (current_version (db_versions db)) as [ver|] eqn:Ev; [|done].
  assert (exists b, Some db = Some (set_db_scheduled db b)) as Same by (exists (db_background_compaction_scheduled db); by destruct db).
  unfold ldb_maybe_schedule_compaction. destruct (db_background_compaction_scheduled db); [done|]. destruct (db_shutting_down db); [done|].
  destruct (negb _); [done|]. unfold ldb_versions_needs_compaction. rewrite Ev, !bind_some.
  destruct (db_imm db), (db_manual_compaction db); eauto. destruct (negb _); eauto.
Qed.

(** The old log is closed, which may lose what had not been flushed. *)
Lemma close_log e fs file path d synced ws : rep e fs -> names e file path -> fs !! path = Some (VFile d synced) ->
  log_contents d synced (flushed e file) ws ->
  exists rc e' d', env_close ops e file = (rc, e') /\ rep (env_destroy ops e' file) (<[path := VFile d' synced]> fs) /\
    log_contents d' synced (flushed e file) ws /\
    forall w, w <> file -> (forall q, names e w q -> names (env_destroy ops e' file) w q) /\
      flushed (env_destroy ops e' file) w = flushed e w /\ failed (env_destroy ops e' file) w = failed e w.
Proof.
  intros R N Hfs Hst. pose proof (ls_range _ _ _ _ Hst) as [Hs Hk].
  destruct (fl_close ops rep names flushed failed e fs file path (VFile d synced) R N Hfs) as (rc & e' & d' & -> & R' & [O1 O2] & H); [cbn; lia|].
  destruct (fl_destroy ops rep names flushed failed e' _ file path R' (O1 _ _ N)) as [R2 O3]. exists rc, e', d'. split; [done|]. split; [exact R2|]. split.
  - destruct H as [[_ ->]|[_ K]]; [done|by apply (log_contents_kept d)].
  - intros w Hw. destruct (O3 w Hw) as (A & B & C). destruct (O2 w Hw) as [D1 D2]. rewrite B, C. auto.
Qed.

(** A new file could not be created: nothing that matters has changed. *)
Lemma create_failed e db old imm ws last new rc e1 : store_inv e db old imm ws last ->
  ldb_log_filename LDB_PATH_MAX (db_dbname db) (vs_next_file_number (db_versions db)) = Some new ->
  env_truncfile_create ops e new = (inl rc, e1) -> rc <> LDB_OK /\ store_inv e1 db old imm ws last.
Proof.
  intros Hinv Enew E1. pose proof (si_ready _ _ _ _ _ _ Hinv) as Hready. pose proof (dr_numbers db Hready) as (Hn1 & Hn2 & Hn3).
  assert (forall fs, rep e fs -> rc <> LDB_OK /\ (exists fs1, rep e1 fs1 /\ forall q, q <> new -> fs1 !! q = fs !! q) /\
    forall w, (forall q, names e w q -> names e1 w q) /\ flushed e1 w = flushed e w /\ failed e1 w = failed e w) as Fails.
  { intros fs R. destruct (fl_truncfile ops rep names flushed failed e fs new R) as [(w & e2 & E2 & _)|(rc2 & e2 & fs2 & E2 & H)]; rewrite E1 in E2; [done|].
    injection E2 as <- <-. destruct H as (H1 & H2 & H3 & H4). split; [done|]. split; [by exists fs2|done]. }
  destruct (si_files _ _ _ _ _ _ Hinv) as (fs & R & _). destruct (Fails fs R) as (Hrc & _ & Ho). split; [done|].
  apply (others_ok e db); [|done]. split; try done.
  - intros fs0 R0. destruct (Fails fs0 R0) as (_ & (fs1 & R1 & Hfs) & _). exists fs1. split; [done|]. intros n p Hn0 Hn Ep. apply Hfs. intros ->.
    apply (log_filename_inj _ _ n (vs_next_file_number (db_versions db))) in Ep; [lia|lia|lia|done].
  - intros w p. by apply Ho.
  - intros w _. by destruct (Ho w) as [_ ?].
  - by left.
  - exact (dr_current db Hready).
Qed.

Lemma reuse_same db : vs_next_file_number (db_versions db) + 1 < 2 ^ 64 -> 0 <= vs_next_file_number (db_versions db) ->
  let '(number, vs) := ldb_versions_new_file_number (db_versions db) in
  set_db_versions (set_db_versions db vs) (ldb_versions_reuse_file_number vs number) = db.
Proof.
  intros Hn H0. unfold ldb_versions_new_file_number, ldb_versions_reuse_file_number. cbn [vs_next_file_number set_next_file].
  rewrite u64_small, Z.eqb_refl by lia. destruct db as [? ? ? ? ? ? ? ? ? ? ? ? ? ? ? ? ? ? vs]. by destruct vs.
Qed.

Lemma switch_ok e db old imm ws last : store_inv e db old imm ws last -> db_imm db = None ->
  vs_next_file_number (db_versions db) + 1 < 2 ^ 64 ->
  exists r e' db', switch_memtable ops e db = Some (r, e', db') /\ same_queue db db' /\
    match r with
    | RoomSwitch => db_logfile_number db' <> db_logfile_number db /\ store_inv e' db' (old ++ imm) ws [] last
    | RoomDone rc => rc <> LDB_OK /\ db' = db /\ store_inv e' db old imm ws last
    | _ => False
    end.
Proof.
  intros Hinv Hnone Hnext. pose proof Hinv as [Hready (fs & R & Hlog & Himm) Hseq Hlast]. pose proof (dr_numbers db Hready) as (Hn1 & Hn2 & Hn3).
  destruct Hlog as [(file & path & log & d & synced & El & Eg & Ep & N & Hfs & Hst & _) (mem & Em & Hm) Hb].
  pose proof (reuse_same db Hnext ltac:(lia)) as Hreuse.
  destruct (dr_names db Hready (vs_next_file_number (db_versions db)) ltac:(lia)) as [new Enew].
  unfold switch_memtable. rewrite (dr_prev db Hready). cbn [Z.eqb negb ldb_versions_new_file_number] in *.
  set (number := vs_next_file_number (db_versions db)) in *. set (vs := set_next_file (db_versions db) (u64 (number + 1))) in *.
  cbn [set_db_versions db_dbname]. rewrite Enew, bind_some.
  destruct (env_truncfile_create ops e new) as [[rc|w] e1] eqn:E1.
  { destruct (create_failed e db old imm ws last new rc e1 Hinv Enew E1) as [Hrc Hinv1]. eexists (RoomDone rc), e1, _. split; [reflexivity|].
    cbn [set_db_versions] in Hreuse. rewrite Hreuse. done. }
  assert (path <> new) as Hne by (intros ->; apply (log_filename_inj _ _ (db_logfile_number db) number new) in Ep; [lia|lia|lia|done]).
  destruct (fl_truncfile ops rep names flushed failed e fs new R) as [(w2 & e2 & E2 & R1 & N1 & F1 & A1 & [O1 O2] & K1)|(rc & e2 & fs1 & E2 & _)]; [|congruence].
  rewrite E1 in E2. injection E2 as <- <-. pose proof (K1 file path N) as Hwf. destruct (O2 file Hwf) as [Ff Af]. rewrite <- Ff in Hst.
  destruct (close_log e1 (<[new := VFile [] 0]> fs) file path d synced ws R1 (O1 _ _ N)) as (rc & e2 & d' & E2 & R2 & Hst' & O3);
    [by rewrite lookup_insert_ne|done|]. cbn [set_db_versions db_logfile]. rewrite El, E2.
  set (db1 := if negb (rc =? LDB_OK) then ldb_record_background_error _ rc else _).
  assert (exists bg, db1 = set_db_status (set_db_versions db vs) (db_shutting_down db) bg (db_stats db)) as [bg ->].
  { unfold db1, ldb_record_background_error. destruct (negb _); [destruct (_ =? LDB_OK)|]; eexists; destruct db; reflexivity. }
  cbn [set_db_log set_db_status set_db_versions db_options]. rewrite (dr_comparator db Hready), bind_some. cbn [db_mem].
  assert (Hv : is_Some (ldb_versions_files vs 0)) by exact (dr_current db Hready).
  match goal with |- context [ldb_maybe_schedule_compaction ?d] => set (db1 := d) end.
  destruct (schedule_ok db1 Hv) as (b & ->). rewrite bind_some. exists RoomSwitch, (env_destroy ops e2 file), (set_db_scheduled db1 b).
  split; [done|]. split; [done|]. split; [cbn; lia|]. destruct (O3 w ltac:(congruence)) as (N3 & F3 & A3). split.
  - destruct Hready. split; try done. cbn. rewrite u64_small by lia. lia.
  - exists (<[path := VFile d' synced]> (<[new := VFile [] 0]> fs)). split; [done|]. split.
    + split.
      * exists w, new, (ldb_writer_init w 0), [], 0. unfold log_opened. rewrite F3, F1, lookup_insert_ne, lookup_insert_eq by done. do 3 (split; [done|]).
        split; [auto|]. split; [done|]. split; [apply log_contents_nil|]. split; [done|]. split; [by apply writer_init_ok|]. intros _. split; [apply log_writer_at_nil|constructor].
      * exists (ldb_memtable_ref (ldb_memtable_create (ldb_ikc_init uc))). split; [done|]. exact (mt_holds_create udom uc).
      * constructor.
    + intros m [= Em']. cbn in Em'. rewrite Em in Em'. injection Em' as <-. split; [done|]. exists (db_logfile_number db). cbn. split; [lia|]. split; [lia|].
      exists path, d', synced, (flushed e1 file). cbn. rewrite lookup_insert_eq. done.
  - rewrite app_nil_r, <- app_assoc. done.
  - done.
Qed.

Lemma make_room_ok e db old imm ws last force allow_delay : store_inv e db old imm ws last -> db_writers db <> [] ->
  vs_next_file_number (db_versions db) + 1 < 2 ^ 64 ->
  exists r e' db', make_room_turn ops e db force allow_delay = Some (r, e', db') /\ same_queue db db' /\
    match r with
    | RoomSwitch => db_bg_error db = LDB_OK /\ db_logfile_number db' <> db_logfile_number db /\ store_inv e' db' (old ++ imm) ws [] last
    | RoomDone rc => (rc = LDB_OK -> db_bg_error db = LDB_OK) /\ db' = db /\ store_inv e' db old imm ws last
    | _ => e' = e /\ db' = db
    end.
Proof.
  intros Hinv Hq Hnext. unfold make_room_turn. rewrite (proj2 (Z.leb_gt _ 0)) by (destruct (db_writers db); [done|rewrite zlen_cons; zlia]).
  destruct (Z.eqb_spec (db_bg_error db) LDB_OK) as [Hbg|Hbg]; cbn [negb]; [|by eexists (RoomDone _), e, db].
  destruct (dr_current db (si_ready _ _ _ _ _ _ Hinv)) as [n ->]. rewrite bind_some.
  destruct (allow_delay && _); [by eexists RoomDelay, e, db|].
  destruct (si_files _ _ _ _ _ _ Hinv) as (fs & _ & [_ (mem & Em & _) _] & _). rewrite Em, bind_some.
  destruct (negb force && _); [by eexists (RoomDone _), e, db|]. destruct (db_imm db) eqn:Ei; [by eexists RoomWait, e, db|].
  destruct (_ <=? n); [by eexists RoomWait, e, db|].
  destruct (switch_ok e db old imm ws last Hinv Ei Hnext) as (r & e' & db' & Esw & Hs & H). exists r, e', db'. split; [done|]. split; [done|].
  destruct r; tauto.
Qed.
End Invariant.
