(* ===== verification/DBWritersCorrect.v ===== *)
(** * Writers side by side: correctness

    The queue of the writers keeps its order, a group is written by the writer
    at its head for all that are in it, and what the log and the memtable hold
    is what the groups asked for, whatever operations on the log fail. *)

From stdpp Require Import strings gmap.
From S2P Require Import Prelude Coding Status Strutil Comparator DBFormat Options Memtable WriteBatch File LogWriter LogReader VersionEdit Version Env VersionSet LogFile FaultyEnv DB DBWrite WriteGroups DBWriters.
#[local] Open Scope Z_scope.

(** ** The queue *)

Abbreviation addrs ws := (map w_addr ws).

Lemma addrs_app xs ys : addrs (xs ++ ys) = addrs xs ++ addrs ys.
Proof. apply map_app. Qed.

Lemma addr_in (w : waiter) ws : w ∈ ws -> w_addr w ∈ addrs ws.
Proof. intros H. apply list_elem_of_fmap. eauto. Qed.

Lemma through_split ms w rest : w_addr w ∉ addrs ms -> through (w_addr w) (ms ++ w :: rest) = ms ++ [w].
Proof.
  induction ms as [|x ms IH]; cbn [app through map]; [by rewrite Nat.eqb_refl|].
  rewrite not_elem_of_cons. intros [Hx Hm]. rewrite (proj2 (Nat.eqb_neq _ _)) by congruence. by rewrite IH.
Qed.

Lemma release_group_ok ms w rest me rc fin : w_addr w ∉ addrs ms -> exists fin',
  release_group (ms ++ w :: rest) me (w_addr w) rc fin = Some (rest, fin') /\
  forall a, fin' !! a = if decide (a ∈ addrs (ms ++ [w]) /\ a <> me) then Some rc else fin !! a.
Proof.
  assert (forall x (f : gmap nat Z) a, (if Nat.eqb (w_addr x) me then f else <[w_addr x := rc]> f) !! a =
    if decide (a = w_addr x /\ a <> me) then Some rc else f !! a) as One.
  { intros x f a. destruct (Nat.eqb_spec (w_addr x) me) as [Ex|Ex]; case_decide as D; try done.
    - destruct D as [-> D]. by destruct D.
    - destruct D as [-> _]. apply lookup_insert_eq.
    - apply lookup_insert_ne. intros <-. by apply D. }
  revert fin. induction ms as [|x ms IH]; intros fin; cbn [app release_group map].
  - intros _. rewrite Nat.eqb_refl. eexists. split; [done|]. intros a. rewrite One.
    apply decide_ext. cbn. set_solver.
  - rewrite not_elem_of_cons. intros [Hx Hm]. rewrite (proj2 (Nat.eqb_neq _ _)) by congruence.
    destruct (IH (if Nat.eqb (w_addr x) me then fin else <[w_addr x := rc]> fin) Hm) as (fin' & -> & Hf). exists fin'. split; [done|].
    intros a. rewrite Hf, One. repeat case_decide; try done; exfalso; set_solver.
Qed.

(** Where a writer is. *)
Definition head_addr (q : list waiter) : option nat := w_addr <$> head q.
Definition head_pc (ts : gmap nat thread) (q : list waiter) : option wpc := a ← head_addr q; (t_pc <$> (ts !! a)).

Definition place (q : list waiter) (fin : gmap nat Z) (a : nat) (pc : wpc) : Prop :=
  match pc with
  | WReturn _ => a ∉ addrs q /\ fin !! a = None
  | WWait => a ∈ addrs q \/ is_Some (fin !! a)
  | _ => head_addr q = Some a
  end.

Definition request_ok (udom : bytes -> Prop) (updates : option (list update)) : Prop :=
  from_option (Forall (update_ok udom)) True updates /\
  from_option (fun us => zlen us < 2 ^ 31 /\ zlen (batch_of us) < 2 ^ 63) True updates.

Definition thread_ok (udom : bytes -> Prop) (a : nat) (t : thread) : Prop :=
  t_waiter t = request a (t_updates t) (w_sync (t_waiter t)) /\ request_ok udom (t_updates t).

Record queue_inv (udom : bytes -> Prop) (q : list waiter) (fin : gmap nat Z) (ts : gmap nat thread) (arrivals : list nat) : Prop := {
  qi_nodup : NoDup (addrs q);
  qi_queue w : w ∈ q -> fin !! w_addr w = None /\ exists t, ts !! w_addr w = Some t /\ t_waiter t = w;
  qi_thread a t : ts !! a = Some t -> thread_ok udom a t /\ a ∈ arrivals /\ place q fin a (t_pc t);
  qi_known a : a ∈ arrivals -> is_Some (ts !! a);
  qi_finished a : is_Some (fin !! a) -> is_Some (ts !! a);
  qi_arrivals : NoDup arrivals
}.

Lemma members_ext ts ts' ws : (forall w, w ∈ ws -> updates_at ts' (w_addr w) = updates_at ts (w_addr w)) -> members ts' ws = members ts ws.
Proof. intros H. unfold members. apply list_fmap_ext. intros i w Hw. by rewrite H by (by eapply list_elem_of_lookup_2). Qed.

Lemma updates_with_pc ts a t pc b : ts !! a = Some t -> updates_at (<[a := with_pc t pc]> ts) b = updates_at ts b.
Proof. intros H. unfold updates_at. destruct (decide (b = a)) as [->|Hne]; [by rewrite lookup_insert_eq, H|by rewrite lookup_insert_ne by done]. Qed.

Lemma members_with_pc ts a t pc ws : ts !! a = Some t -> members (<[a := with_pc t pc]> ts) ws = members ts ws.
Proof. intros H. apply members_ext. intros. by apply updates_with_pc. Qed.

Section Queue.
Context (udom : bytes -> Prop).

(** A thread moves on, and nothing else changes. *)
Lemma queue_move q fin fin' ts arrivals a t pc : queue_inv udom q fin ts arrivals -> ts !! a = Some t ->
  (forall b, b <> a -> fin' !! b = fin !! b) -> (a ∈ addrs q -> fin' !! a = None) -> place q fin' a pc ->
  queue_inv udom q fin' (<[a := with_pc t pc]> ts) arrivals.
Proof.
  intros [H1 H2 H3 H4 H6 H5] Ha Hf Hfa Hp. split; [done| | | | |done].
  - intros w Hw. destruct (H2 w Hw) as [F (t' & Et & Hw')]. destruct (decide (w_addr w = a)) as [E|E].
    + rewrite E in *. split; [apply Hfa; rewrite <- E; by apply addr_in|]. rewrite lookup_insert_eq. eexists. split; [done|]. cbn. congruence.
    + rewrite Hf, lookup_insert_ne by done. eauto.
  - intros b t' Hb. destruct (decide (b = a)) as [->|E].
    + rewrite lookup_insert_eq in Hb. injection Hb as <-. destruct (H3 a t Ha) as (T & A & _). done.
    + rewrite lookup_insert_ne in Hb by done. destruct (H3 b t' Hb) as (T & A & P). do 2 (split; [done|]).
      unfold place in *. destruct (t_pc t'); rewrite ?Hf by done; done.
  - intros b Hb. destruct (decide (b = a)) as [->|E]; [rewrite lookup_insert_eq; eauto|rewrite lookup_insert_ne by done; eauto].
  - intros b Hb. destruct (decide (b = a)) as [->|E]; [rewrite lookup_insert_eq; eauto|rewrite lookup_insert_ne by done]. rewrite Hf in Hb by done. auto.
Qed.

Lemma queue_same q fin ts arrivals a t pc : queue_inv udom q fin ts arrivals -> ts !! a = Some t -> place q fin a pc ->
  queue_inv udom q fin (<[a := with_pc t pc]> ts) arrivals.
Proof. intros H Ha Hp. apply (queue_move q fin fin); try done. intros (w & -> & Hw)%list_elem_of_fmap. by apply (qi_queue _ _ _ _ _ H). Qed.

(** The head of the queue leaves with its group. *)
Lemma queue_leave ms w rest fin fin' ts arrivals a t rc : queue_inv udom (ms ++ w :: rest) fin ts arrivals ->
  head_addr (ms ++ w :: rest) = Some a -> ts !! a = Some t ->
  (forall b, fin' !! b = if decide (b ∈ addrs (ms ++ [w]) /\ b <> a) then Some rc else fin !! b) ->
  queue_inv udom rest fin' (<[a := with_pc t (WReturn rc)]> ts) arrivals.
Proof.
  intros [H1 H2 H3 H4 H6 H5] Hhead Ha Hf. assert (addrs (ms ++ w :: rest) = addrs (ms ++ [w]) ++ addrs rest) as Eq by (by rewrite <- addrs_app, <- app_assoc).
  rewrite Eq in *. apply list.NoDup_app in H1 as (N1 & N2 & N3).
  assert (a ∈ addrs (ms ++ [w])) as Hain.
  { unfold head_addr in Hhead. destruct ms as [|x ms]; cbn in Hhead |- *; injection Hhead as <-; set_solver. }
  assert (forall x, x ∈ rest -> x ∈ ms ++ w :: rest) as Hrest by set_solver.
  assert (fin !! a = None) as Hfa.
  { apply list_elem_of_fmap in Hain as (x & -> & Hx). apply H2. set_solver. }
  split; [done| | | | |done].
  - intros x Hx. destruct (H2 x (Hrest x Hx)) as [F (t' & Et & Hw')]. pose proof (addr_in x rest Hx) as Hxa.
    assert (w_addr x ∉ addrs (ms ++ [w])) as Hni by (intros Hi; by apply (N2 _ Hi)).
    rewrite Hf, decide_False by tauto. split; [done|]. exists t'. split; [|done]. rewrite lookup_insert_ne; [done|]. intros Ea. apply Hni. by rewrite <- Ea.
  - intros b t' Hb. destruct (decide (b = a)) as [->|E].
    + rewrite lookup_insert_eq in Hb. injection Hb as <-. destruct (H3 a t Ha) as (T & A & _). do 2 (split; [done|]). cbn.
      split; [by apply N2|]. rewrite Hf, decide_False by tauto. done.
    + rewrite lookup_insert_ne in Hb by done. destruct (H3 b t' Hb) as (T & A & P). do 2 (split; [done|]).
      unfold place in *. destruct (t_pc t') eqn:Epc; try (rewrite Hhead in P; congruence).
      * rewrite Hf. destruct (decide (b ∈ addrs (ms ++ [w]) /\ b <> a)) as [D|D]; [right; eauto|]. rewrite Eq, elem_of_app in P. destruct P as [[P|P]|P]; [|by left|by right].
        destruct D. done.
      * rewrite Eq, elem_of_app in P. destruct P as [P1 P2]. split; [tauto|]. rewrite Hf, decide_False by tauto. done.
  - intros b Hb. destruct (decide (b = a)) as [->|E]; [rewrite lookup_insert_eq; eauto|rewrite lookup_insert_ne by done; eauto].
  - intros b Hb. destruct (decide (b = a)) as [->|E]; [rewrite lookup_insert_eq; eauto|rewrite lookup_insert_ne by done].
    rewrite Hf in Hb. destruct (decide (b ∈ addrs (ms ++ [w]) /\ b <> a)) as [D|D]; [|auto]. destruct D as [D _].
    apply list_elem_of_fmap in D as (x & -> & Hx). destruct (H2 x) as (_ & t' & -> & _); [set_solver|eauto].
Qed.

(** A writer comes. *)
Lemma queue_begin q fin ts arrivals a updates sync : queue_inv udom q fin ts arrivals -> ts !! a = None -> request_ok udom updates ->
  queue_inv udom (q ++ [request a updates sync]) fin (<[a := Thread (request a updates sync) updates WWait]> ts) (arrivals ++ [a]).
Proof.
  intros [H1 H2 H3 H4 H6 H5] Ha Hr.
  assert (a ∉ addrs q) as Hq.
  { intros (w & -> & Hw)%list_elem_of_fmap. destruct (H2 w Hw) as (_ & t & E & _). congruence. }
  assert (fin !! a = None) as Hfa by (destruct (fin !! a) eqn:E; [|done]; destruct (H6 a) as [t Et]; [by rewrite E|congruence]).
  assert (a ∉ arrivals) as Harr by (intros Hin; destruct (H4 a Hin); congruence).
  split.
  - rewrite addrs_app. apply list.NoDup_app. split; [done|]. split; [|apply NoDup_singleton]. cbn. set_solver.
  - intros w. rewrite elem_of_app, list_elem_of_singleton. intros [Hw| ->].
    + destruct (H2 w Hw) as [F (t' & Et & Hw')]. split; [done|]. exists t'. rewrite lookup_insert_ne; [done|]. congruence.
    + cbn. split; [done|]. rewrite lookup_insert_eq. by eexists.
  - intros b t Hb. destruct (decide (b = a)) as [->|E].
    + rewrite lookup_insert_eq in Hb. injection Hb as <-. split; [done|]. split; [set_solver|]. cbn. left. rewrite addrs_app. set_solver.
    + rewrite lookup_insert_ne in Hb by done. destruct (H3 b t Hb) as (T & A & P). split; [done|]. split; [set_solver|].
      unfold place in *. rewrite addrs_app. unfold head_addr in *. destruct (t_pc t); try (destruct q; [done|exact P]); set_solver.
  - intros b. rewrite elem_of_app, list_elem_of_singleton. intros [Hb| ->]; [|rewrite lookup_insert_eq; eauto].
    rewrite lookup_insert_ne; [eauto|]. intros ->. done.
  - intros b Hb. destruct (decide (b = a)) as [->|E]; [rewrite lookup_insert_eq; eauto|rewrite lookup_insert_ne by done; eauto].
  - apply list.NoDup_app. split; [done|]. split; [set_solver|apply NoDup_singleton].
Qed.
End Queue.

(** ** The phases of the writer at the head *)

(** The group of the head: the queue up to [last]. *)
Definition chosen (q : list waiter) (last : nat) (ms rest : list waiter) : Prop :=
  q = ms ++ rest /\ exists ms0 w, ms = ms0 ++ [w] /\ w_addr w = last.

Definition sync_kept (q ms : list waiter) : Prop :=
  forall first, head q = Some first -> w_sync first = false -> Forall (fun w => w_sync w = false) ms.

Definition asked (ts : gmap nat thread) (ms : list waiter) : list update := concat (map snd (members ts ms)).

Definition phase (ts : gmap nat thread) (q : list waiter) (tmp_batch : bytes) (ws : list written) (last_sequence : Z) : Prop :=
  match head_pc ts q with
  | Some (WApply b tmp ls last) => exists ms rest, chosen q last ms rest /\ sync_kept q ms /\ zlen (asked ts ms) < 2 ^ 31 /\
      b = batch_bytes (last_sequence + 1) (asked ts ms) /\ ls = last_sequence + zlen (asked ts ms) /\
      (tmp = false -> tmp_batch = ldb_batch_init)
  | Some (WApplied rc sync_error tmp ls last) => (sync_error = true -> rc <> LDB_OK) /\ last_sequence <= ls /\
      (tmp = false -> tmp_batch = ldb_batch_init) /\ exists ms rest pre g clean, chosen q last ms rest /\ sync_kept q ms /\
      ws = pre ++ [Written g rc sync_error clean] /\ g_members g = members ts ms /\ forall first, head q = Some first -> g_sync g = w_sync first
  | _ => tmp_batch = ldb_batch_init
  end.

(** The writers that are in no group yet, and the last sequence number used. *)
Definition unwritten (ts : gmap nat thread) (q : list waiter) : list waiter :=
  match head_pc ts q with Some (WApplied _ _ _ _ last) => drop (length (through last q)) q | _ => q end.

Definition last_written (ts : gmap nat thread) (q : list waiter) (last_sequence : Z) : Z :=
  match head_pc ts q with Some (WApplied _ _ _ ls _) => ls | _ => last_sequence end.

(** What a writer was told is true: its updates were applied, in a group that
    was synced if it asked for that; or its group, if it got into one, failed
    with the status it was told. *)
Definition told (t : thread) (fin : gmap nat Z) (a : nat) (rc : Z) : Prop := t_pc t = WReturn rc \/ fin !! a = Some rc.

Definition member (a : nat) (w : written) : Prop := a ∈ map fst (g_members (wr_group w)).

Definition results (ts : gmap nat thread) (fin : gmap nat Z) (ws : list written) : Prop :=
  forall a t, ts !! a = Some t ->
    (forall us, told t fin a LDB_OK -> t_updates t = Some us ->
      exists w, w ∈ ws /\ wr_status w = LDB_OK /\ (a, us) ∈ g_members (wr_group w) /\ (w_sync (t_waiter t) = true -> g_sync (wr_group w) = true)) /\
    (forall rc w, told t fin a rc -> rc <> LDB_OK -> w ∈ ws -> member a w -> wr_status w = rc).

(** Once syncing the log has failed no group is written any more. *)
Definition stopped (ts : gmap nat thread) (q : list waiter) (bg_error : Z) (ws : list written) : Prop :=
  forall ws1 w ws2, ws = ws1 ++ w :: ws2 -> wr_sync_error w = true ->
    (ws2 = [] /\ wr_status w <> LDB_OK) /\ match head_pc ts q with Some (WApply _ _ _ _) => False | Some (WApplied _ _ _ _ _) => True | _ => bg_error <> LDB_OK end.

Lemma member_in a w ws : w ∈ ws -> member a w -> a ∈ members_of_groups (groups ws).
Proof.
  intros Hw Ha. unfold members_of_groups. induction ws as [|x ws IH]; [by apply not_elem_of_nil in Hw|]. cbn. rewrite map_app, elem_of_app.
  apply elem_of_cons in Hw as [->|Hw]; [by left|right; auto].
Qed.

Lemma member_once a w w' ws : NoDup (members_of_groups (groups ws)) -> w ∈ ws -> w' ∈ ws -> member a w -> member a w' -> w = w'.
Proof.
  induction ws as [|x ws IH]; [by intros _ Hw%not_elem_of_nil|]. unfold members_of_groups. cbn. rewrite map_app.
  intros (_ & N1 & N2)%list.NoDup_app Hw Hw' Ha Ha'. apply elem_of_cons in Hw as [->|Hw], Hw' as [->|Hw']; [done| | |by apply IH].
  - exfalso. apply (N1 a Ha). by apply (member_in a w').
  - exfalso. apply (N1 a Ha'). by apply (member_in a w).
Qed.

Lemma members_snoc ws w : members_of_groups (groups (ws ++ [w])) = members_of_groups (groups ws) ++ map fst (g_members (wr_group w)).
Proof. unfold members_of_groups. rewrite map_app, map_app, concat_app, map_app. cbn. by rewrite app_nil_r. Qed.

Lemma head_pc_self ts q a t pc : head_addr q = Some a -> head_pc (<[a := with_pc t pc]> ts) q = Some pc.
Proof. intros H. unfold head_pc. by rewrite H, bind_some, lookup_insert_eq. Qed.

Lemma head_pc_other ts q a t pc : head_addr q <> Some a -> head_pc (<[a := with_pc t pc]> ts) q = head_pc ts q.
Proof.
  intros H. unfold head_pc. destruct (head_addr q) as [b|] eqn:E; [|done]. rewrite !bind_some, lookup_insert_ne; [done|]. congruence.
Qed.

Lemma chosen_through q last ms rest : NoDup (addrs q) -> chosen q last ms rest -> through last q = ms /\ drop (length (through last q)) q = rest.
Proof.
  intros Hn (-> & ms0 & w & -> & <-). rewrite <- app_assoc in *. cbn [app] in *. rewrite through_split.
  - split; [done|]. change (ms0 ++ w :: rest) with (ms0 ++ [w] ++ rest). rewrite app_assoc. apply drop_app_length.
  - rewrite addrs_app in Hn. apply list.NoDup_app in Hn as (_ & Hn & _). intros Hi. apply (Hn _ Hi). cbn. set_solver.
Qed.

Section Turns.
Context (udom : bytes -> Prop) (uc : comparator) `{!ComparatorLaws udom uc}.
Context {E W : Type} (ops : env_ops E W) (rep : E -> fsview -> Prop) (names : E -> W -> bytes -> Prop).
Context (flushed : E -> W -> Z) (failed : E -> W -> bool) {laws : FaultyLaws ops rep names flushed failed}.
Context (start : Z) (Hstart : 0 <= start).
Implicit Types (db : ldb W) (s : writers E W).

Definition all_written s : list written := s_flushed s ++ s_imm s ++ s_log s.
Definition all_groups s : list group := groups (all_written s).

Record writers_inv s : Prop := {
  wi_queue : queue_inv udom (db_writers (s_db s)) (db_finished (s_db s)) (s_threads s) (s_arrivals s);
  wi_phase : phase (s_threads s) (db_writers (s_db s)) (db_tmp_batch (s_db s)) (s_log s) (vs_last_sequence (db_versions (s_db s)));
  wi_store : store_inv udom uc rep names flushed failed start (s_env s) (s_db s) (s_flushed s) (s_imm s) (s_log s)
    (last_written (s_threads s) (db_writers (s_db s)) (vs_last_sequence (db_versions (s_db s))));
  wi_order : members_of_groups (all_groups s) ++ addrs (unwritten (s_threads s) (db_writers (s_db s))) `sublist_of` s_arrivals s;
  wi_results : results (s_threads s) (db_finished (s_db s)) (all_written s);
  wi_stop : stopped (s_threads s) (db_writers (s_db s)) (db_bg_error (s_db s)) (all_written s)
}.

(** A thread that is not at the head moves. *)
Lemma phase_other ts q tb ws ls a t pc : ts !! a = Some t -> head_addr q <> Some a ->
  phase ts q tb ws ls -> phase (<[a := with_pc t pc]> ts) q tb ws ls.
Proof.
  intros Ha Hh. unfold phase. rewrite head_pc_other by done. destruct (head_pc ts q) as [[| | | |]|]; try done; unfold asked.
  - intros (ms & rest & H). exists ms, rest. by rewrite !(members_with_pc ts a t pc) by done.
  - intros (H1 & H2 & H3 & ms & rest & pre & g & c & H). do 3 (split; [done|]). exists ms, rest, pre, g, c. by rewrite (members_with_pc ts a t pc) by done.
Qed.

Lemma stopped_other ts q bg ws a t pc : head_addr q <> Some a -> stopped ts q bg ws -> stopped (<[a := with_pc t pc]> ts) q bg ws.
Proof. unfold stopped. intros H. by rewrite head_pc_other. Qed.

Lemma results_move ts fin fin' ws a t pc : results ts fin ws -> ts !! a = Some t ->
  (forall b, b <> a -> fin' !! b = fin !! b) ->
  (forall rc, pc = WReturn rc \/ fin' !! a = Some rc -> told t fin a rc) ->
  results (<[a := with_pc t pc]> ts) fin' ws.
Proof.
  intros H Ha Hf Hp b t' Hb. destruct (decide (b = a)) as [->|Hne].
  - rewrite lookup_insert_eq in Hb. injection Hb as <-. destruct (H a t Ha) as [R1 R2]. split.
    + intros us Ht. apply R1. by apply Hp.
    + intros rc w Ht. apply R2. by apply Hp.
  - rewrite lookup_insert_ne in Hb by done. unfold told. rewrite Hf by done. by apply H.
Qed.

(** The queue as requests. *)
Lemma queue_asks q fin ts arrivals : queue_inv udom q fin ts arrivals ->
  Forall2 asks q (map (fun w => updates_at ts (w_addr w)) q) /\ Forall (fun w => Forall (update_ok udom) (updates_at ts (w_addr w))) q.
Proof.
  intros H. assert (forall w, w ∈ q -> asks w (updates_at ts (w_addr w)) /\ Forall (update_ok udom) (updates_at ts (w_addr w))) as Hw.
  { intros w Hin. destruct (qi_queue _ _ _ _ _ H w Hin) as (_ & t & Et & <-). destruct (qi_thread _ _ _ _ _ H _ t Et) as ([Hreq Hok] & _).
    unfold updates_at. rewrite Et. cbn [from_option]. unfold asks. rewrite Hreq. unfold request. cbn [w_batch]. destruct Hok as [H1 H2].
    destruct (t_updates t) as [us|]; cbn in *; [|by split; [|constructor]]. split; [|done]. destruct H2 as [H2 H3]. split; [|done].
    exists 0. by apply batch_of_bytes. }
  clear H. induction q as [|w q IH]; [by split; constructor|]. destruct IH as [I1 I2]; [intros x Hx; apply Hw; set_solver|].
  destruct (Hw w) as [W1 W2]; [set_solver|]. split; by constructor.
Qed.

Lemma asked_ok ts ms : Forall (fun w => Forall (update_ok udom) (updates_at ts (w_addr w))) ms -> Forall (update_ok udom) (asked ts ms).
Proof. unfold asked, members. induction 1 as [|w ms Hw _ IH]; cbn; [constructor|]. by apply List.Forall_app. Qed.

Lemma asked_concat ts ms : asked ts ms = concat (map (fun w => updates_at ts (w_addr w)) ms).
Proof. unfold asked, members. by rewrite map_map. Qed.

Lemma with_pc_same t : with_pc t (t_pc t) = t.
Proof. by destruct t. Qed.

Lemma unwritten_other ts q a t pc : head_addr q <> Some a -> unwritten (<[a := with_pc t pc]> ts) q = unwritten ts q.
Proof. intros H. unfold unwritten. by rewrite head_pc_other. Qed.

Lemma last_written_other ts q a t pc ls : head_addr q <> Some a -> last_written (<[a := with_pc t pc]> ts) q ls = last_written ts q ls.
Proof. intros H. unfold last_written. by rewrite head_pc_other. Qed.

(** The same state, but for where one thread is, and who has been told. *)
Definition moved s (a : nat) (t : thread) (pc : wpc) (fin : gmap nat Z) : writers E W :=
  Writers (s_env s) (set_db_writers (s_db s) (db_writers (s_db s)) fin) (<[a := with_pc t pc]> (s_threads s)) (s_arrivals s)
    (s_flushed s) (s_imm s) (s_log s).

Lemma store_writers e db q fin fl im ws last : store_inv udom uc rep names flushed failed start e db fl im ws last ->
  store_inv udom uc rep names flushed failed start e (set_db_writers db q fin) fl im ws last.
Proof.
  intros [[R1 R2 R3 R4 R5] (fs & R & [L1 L2 L3] & Hi) Hs Hl]. split; [by split| |done|done]. exists fs. split; [done|]. split; [by split|done].
Qed.

(** A waiting writer that has been told leaves. *)
Lemma told_ok s a t rc : writers_inv s -> s_threads s !! a = Some t -> t_pc t = WWait -> db_finished (s_db s) !! a = Some rc ->
  writers_inv (moved s a t (WReturn rc) (delete a (db_finished (s_db s)))).
Proof.
  intros [Hq Hp Hs Ho Hr Hst] Ha Hpc Hf.
  assert (a ∉ addrs (db_writers (s_db s))) as Hni.
  { intros (w & -> & Hw)%list_elem_of_fmap. destruct (qi_queue _ _ _ _ _ Hq w Hw) as [F _]. congruence. }
  assert (head_addr (db_writers (s_db s)) <> Some a) as Hh.
  { unfold head_addr. intros Hh. apply Hni. destruct (db_writers (s_db s)) as [|w q]; [done|]. injection Hh as <-. cbn. set_solver. }
  split; cbn [moved s_db s_threads s_arrivals s_env s_flushed s_imm s_log set_db_writers db_writers db_finished db_tmp_batch db_versions].
  - apply (queue_move udom _ (db_finished (s_db s))); try done.
    + intros b Hb. by apply lookup_delete_ne.
    + cbn. split; [done|apply lookup_delete_eq].
  - by apply phase_other.
  - rewrite last_written_other by done. by apply store_writers.
  - by rewrite unwritten_other.
  - apply (results_move _ (db_finished (s_db s))); try done.
    + intros b Hb. by apply lookup_delete_ne.
    + intros rc' [[= <-]|H']; [by right|]. by rewrite lookup_delete_eq in H'.
  - by apply stopped_other.
Qed.

(** The head moves before its group is written. *)
Lemma head_moves s a t pc : writers_inv s -> s_threads s !! a = Some t -> head_addr (db_writers (s_db s)) = Some a ->
  match t_pc t with WWait | WRoom _ _ => True | _ => False end ->
  match pc with WRoom _ _ => True | _ => False end ->
  forall e db fl im ws, same_queue (s_db s) db -> fl ++ im ++ ws = all_written s ->
  (db_bg_error db = db_bg_error (s_db s) \/ db_bg_error (s_db s) = LDB_OK) ->
  store_inv udom uc rep names flushed failed start e db fl im ws (vs_last_sequence (db_versions (s_db s))) ->
  writers_inv (Writers e db (<[a := with_pc t pc]> (s_threads s)) (s_arrivals s) fl im ws).
Proof.
  intros [Hq Hp Hs Ho Hr Hstop] Ha Hh Hpc Hpc' e db fl im ws (E1 & E2 & E3 & E4) E5 Hbg Hst.
  assert (head_pc (s_threads s) (db_writers (s_db s)) = Some (t_pc t)) as Hhp by (unfold head_pc; by rewrite Hh, bind_some, Ha).
  split; unfold all_groups, all_written; cbn [s_db s_threads s_arrivals s_env s_flushed s_imm s_log]; rewrite ?E1, ?E2, ?E3, ?E4, ?E5.
  - apply queue_same; [done|done|]. by destruct pc.
  - unfold phase in *. rewrite Hhp in Hp. rewrite head_pc_self by done. destruct pc; try done. by destruct (t_pc t).
  - unfold last_written. rewrite head_pc_self by done. by destruct pc.
  - unfold unwritten in *. rewrite Hhp in Ho. rewrite head_pc_self by done. destruct pc; try done. by destruct (t_pc t).
  - apply (results_move _ (db_finished (s_db s))); try done. intros rc [->|H]; [done|by right].
  - intros ws1 w ws2 Ew Hse. destruct (Hstop ws1 w ws2 Ew Hse) as [H1 H2]. split; [done|]. rewrite Hhp in H2. rewrite head_pc_self by done.
    assert (db_bg_error (s_db s) <> LDB_OK) as Hne by (by destruct (t_pc t)). destruct pc; try done. destruct Hbg; congruence.
Qed.

Lemma rest_waits ms w rest fin ts arrivals : queue_inv udom (ms ++ w :: rest) fin ts arrivals ->
  forall x, x ∈ rest -> exists t, ts !! w_addr x = Some t /\ t_pc t = WWait.
Proof.
  intros H x Hx. destruct (qi_queue _ _ _ _ _ H x) as (_ & t & Et & _); [set_solver|]. exists t. split; [done|].
  destruct (qi_thread _ _ _ _ _ H _ t Et) as (_ & _ & P). assert (w_addr x ∈ addrs (ms ++ w :: rest)) as Hin by (apply addr_in; set_solver).
  assert (head_addr (ms ++ w :: rest) <> Some (w_addr x)) as Hne.
  { pose proof (qi_nodup _ _ _ _ _ H) as N. pose proof (addr_in x rest Hx). destruct ms as [|y ms]; cbn in N |- *; apply list.NoDup_cons in N as [N _];
      intros [= E1]; apply N; rewrite E1; [done|]. rewrite addrs_app. cbn. set_solver. }
  unfold place in P. destruct (t_pc t); try done. by destruct P.
Qed.

Lemma leave_head ms w rest fin ts arrivals a t rc : queue_inv udom (ms ++ w :: rest) fin ts arrivals ->
  head_addr (ms ++ w :: rest) = Some a ->
  match head_pc (<[a := with_pc t (WReturn rc)]> ts) rest with None | Some WWait => True | _ => False end.
Proof.
  intros H Hh. unfold head_pc. destruct rest as [|x rest]; [done|]. cbn [head_addr head fmap option_fmap option_map]. unfold head_addr. cbn. 
  destruct (rest_waits _ _ _ _ _ _ H x) as (t' & Et & Ep); [set_solver|]. rewrite lookup_insert_ne, Et; [cbn; by rewrite Ep|].
  intros ->. pose proof (qi_nodup _ _ _ _ _ H) as N. unfold head_addr in Hh. destruct ms as [|y ms]; cbn in N, Hh; injection Hh as Hh; apply list.NoDup_cons in N as [N _];
    apply N; rewrite Hh, ?addrs_app; cbn; set_solver.
Qed.

Lemma after_leaving ts q ls tb ws : match head_pc ts q with None | Some WWait => True | _ => False end ->
  unwritten ts q = q /\ last_written ts q ls = ls /\ (phase ts q tb ws ls <-> tb = ldb_batch_init).
Proof. unfold unwritten, last_written, phase. by destruct (head_pc ts q) as [[| | | |]|]. Qed.

Lemma stopped_leaving ts q bg ws : match head_pc ts q with None | Some WWait => True | _ => False end ->
  (forall ws1 w ws2, ws = ws1 ++ w :: ws2 -> wr_sync_error w = true -> (ws2 = [] /\ wr_status w <> LDB_OK) /\ bg <> LDB_OK) -> stopped ts q bg ws.
Proof. intros H Hw ws1 w ws2 E1 E2. destruct (Hw ws1 w ws2 E1 E2). split; [done|]. by destruct (head_pc ts q) as [[| | | |]|]. Qed.

(** A writer at the head leaves alone: it asked for nothing, or there was an
    error. *)
Lemma leave_alone s e' a t rc q fin' : writers_inv s -> s_threads s !! a = Some t -> db_writers (s_db s) = t_waiter t :: q -> w_addr (t_waiter t) = a ->
  match t_pc t with WRoom _ _ => True | _ => False end -> rc <> LDB_OK \/ t_updates t = None ->
  store_inv udom uc rep names flushed failed start e' (s_db s) (s_flushed s) (s_imm s) (s_log s) (vs_last_sequence (db_versions (s_db s))) ->
  (forall b, fin' !! b = if decide (b ∈ addrs ([] ++ [t_waiter t]) /\ b <> a) then Some rc else db_finished (s_db s) !! b) ->
  writers_inv (Writers e' (set_db_writers (s_db s) q fin') (<[a := with_pc t (WReturn rc)]> (s_threads s)) (s_arrivals s)
    (s_flushed s) (s_imm s) (s_log s)).
Proof.
  intros [Hq Hp _ Ho Hr Hstop] Ha Eq Ew Hpc Hrc Hs Hf. rewrite Eq in *.
  assert (head_addr (t_waiter t :: q) = Some a) as Hh by (unfold head_addr; cbn; congruence).
  assert (head_pc (s_threads s) (t_waiter t :: q) = Some (t_pc t)) as Hhp by (unfold head_pc; by rewrite Hh, bind_some, Ha).
  pose proof (leave_head [] _ q _ _ _ a t rc Hq Hh) as Hrest.
  destruct (after_leaving _ q (vs_last_sequence (db_versions (s_db s))) (db_tmp_batch (s_db s)) (s_log s) Hrest) as (U & L & P).
  assert (forall b, fin' !! b = db_finished (s_db s) !! b) as Hf'.
  { intros b. rewrite Hf, decide_False; [done|]. cbn. set_solver. }
  unfold unwritten in Ho. unfold phase in Hp. unfold stopped in Hstop. rewrite Hhp in *.
  assert (members_of_groups (all_groups s) ++ addrs (t_waiter t :: q) `sublist_of` s_arrivals s) as Ho' by (by destruct (t_pc t)).
  split; cbn [s_db s_threads s_arrivals s_env s_flushed s_imm s_log set_db_writers db_writers db_finished db_tmp_batch db_versions].
  - apply (queue_leave udom [] (t_waiter t) q (db_finished (s_db s))); try done.
  - apply P. by destruct (t_pc t).
  - rewrite L. by apply store_writers.
  - unfold all_groups, all_written in *. cbn [s_flushed s_imm s_log] in *. rewrite U. etrans; [|exact Ho']. cbn. apply sublist_app; [done|by apply sublist_cons].
  - assert (a ∉ members_of_groups (all_groups s)) as Hnew.
    { pose proof (sublist_NoDup _ _ (qi_arrivals _ _ _ _ _ Hq) Ho') as N. apply list.NoDup_app in N as (_ & N & _). intros Hi. apply (N a Hi). cbn. rewrite Ew. set_solver. }
    intros b t' Hb. unfold told. rewrite Hf'. destruct (decide (b = a)) as [->|Hne].
    + rewrite lookup_insert_eq in Hb. injection Hb as <-. cbn [t_pc t_updates with_pc t_waiter]. split.
      * intros us [[= Erc]|Hfin] Eu; [destruct Hrc; congruence|]. destruct (qi_queue _ _ _ _ _ Hq (t_waiter t)) as [F _]; [set_solver|]. congruence.
      * intros rc' w _ _ Hw Hm. exfalso. apply Hnew. by apply (member_in a w).
    + rewrite lookup_insert_ne in Hb by done. by apply Hr.
  - apply stopped_leaving; [done|]. intros ws1 w ws2 E1 E2. destruct (Hstop ws1 w ws2 E1 E2) as [H1 H2]. split; [done|]. by destruct (t_pc t).
Qed.

Lemma chooses q fin ts arrivals first q' b : queue_inv udom q fin ts arrivals -> q = first :: q' -> w_batch first = Some b ->
  exists seq tmp last ms rest, ldb_build_batch_group q ldb_batch_init = Some (batch_bytes seq (asked ts ms), tmp, last) /\
    chosen q last ms rest /\ sync_kept q ms /\ zlen (asked ts ms) < 2 ^ 31.
Proof.
  intros H -> Eb. destruct (queue_asks _ _ _ _ H) as [Has _]. cbn [map] in Has.
  destruct (build_group first q' _ _ b Eb Has) as (mem & rest & muss & seq & tmp & last & E1 & -> & Hp & Hm & Hfew & -> & Hsync & _).
  assert (muss = map (fun w => updates_at ts (w_addr w)) mem) as ->.
  { rewrite map_app in Hp. destruct Hp as [tl Hp]. pose proof (Forall2_length Hm) as Hl.
    apply app_inj_1 in Hp as [<- _]; [done|]. by rewrite length_map. }
  exists seq, tmp, (default (w_addr first) (list.last (addrs mem))), (first :: mem), rest. rewrite asked_concat. cbn [map concat].
  split; [done|]. split; [|split; [|done]].
  - split; [done|]. destruct mem as [|x mem _] using rev_ind; [by exists [], first|]. exists (first :: mem), x. split; [done|].
    rewrite addrs_app. cbn [map]. by rewrite last_snoc.
  - intros f [= <-] Hf. constructor; auto.
Qed.

Lemma group_chosen s e' a t q b force allow : writers_inv s -> s_threads s !! a = Some t -> db_writers (s_db s) = t_waiter t :: q -> w_addr (t_waiter t) = a ->
  t_pc t = WRoom force allow -> w_batch (t_waiter t) = Some b -> db_bg_error (s_db s) = LDB_OK ->
  store_inv udom uc rep names flushed failed start e' (s_db s) (s_flushed s) (s_imm s) (s_log s) (vs_last_sequence (db_versions (s_db s))) ->
  exists pc db, write_ready (s_db s) (t_waiter t) LDB_OK = Some (pc, db) /\ db_logfile_number db = db_logfile_number (s_db s) /\
    writers_inv (Writers e' db (<[a := with_pc t pc]> (s_threads s)) (s_arrivals s) (s_flushed s) (s_imm s) (s_log s)).
Proof.
  intros [Hq Hp _ Ho Hr Hstop] Ha Eq Ew Hpc Eb Hbg Hs.
  assert (head_addr (db_writers (s_db s)) = Some a) as Hh by (unfold head_addr; rewrite Eq; cbn; congruence).
  assert (head_pc (s_threads s) (db_writers (s_db s)) = Some (WRoom force allow)) as Hhp by (unfold head_pc; rewrite Hh, bind_some, Ha; cbn; congruence).
  unfold unwritten in Ho. unfold phase in Hp. unfold stopped in Hstop. rewrite Hhp in *.
  destruct (chooses _ _ _ _ _ q b Hq Eq Eb) as (seq & tmp & last & ms & rest & Eg & Hc & Hsync & Hfew).
  unfold write_ready. rewrite Eb. change (LDB_OK =? LDB_OK) with true. cbv iota. rewrite Hp, Eg. cbv zeta.
  pose proof (si_last _ _ _ _ _ _ _ _ _ _ _ _ _ Hs) as Hl. change LDB_MAX_SEQUENCE with (2 ^ 56 - 1) in Hl. set (ls := vs_last_sequence (db_versions (s_db s))) in *.
  pose proof (zlen_nonneg (asked (s_threads s) ms)).
  rewrite (u64_small (ls + 1)), batch_set_sequence_bytes, batch_count_bytes, u64_small by lia.
  set (wb := batch_bytes (ls + 1) (asked (s_threads s) ms)).
  set (db' := if tmp then set_db_tmp_batch (s_db s) wb else s_db s). eexists _, db'. split; [reflexivity|].
  assert (db_writers db' = db_writers (s_db s) /\ db_finished db' = db_finished (s_db s) /\ db_logfile_number db' = db_logfile_number (s_db s) /\
    db_versions db' = db_versions (s_db s) /\ (tmp = false -> db_tmp_batch db' = ldb_batch_init) /\ db_bg_error db' = db_bg_error (s_db s)) as (D1 & D2 & D3 & D4 & D5 & D6).
  { unfold db'. destruct tmp; done. }
  split; [done|]. split; cbn [s_db s_threads s_arrivals s_env s_flushed s_imm s_log]; rewrite ?D1, ?D2, ?D4, ?D6; fold ls.
  - by apply queue_same.
  - unfold phase. rewrite head_pc_self by done. exists ms, rest. unfold asked. rewrite (members_with_pc _ a t) by done. done.
  - unfold last_written. rewrite head_pc_self by done. unfold db'. destruct tmp; [|done].
    destruct Hs as [[R1 R2 R3 R4 R5] (fs & R & [L1 L2 L3] & Hi) Hs1 Hl1]. split; [by split| |done|done]. exists fs. split; [done|]. split; [by split|done].
  - unfold unwritten. rewrite head_pc_self by done. done.
  - apply (results_move _ (db_finished (s_db s))); try done. intros rc [H1|H1]; [done|by right].
  - intros ws1 w ws2 E1 E2. by destruct (Hstop ws1 w ws2 E1 E2).
Qed.

(** The results with one group more, whose members are still in the queue. *)
Lemma results_snoc q fin ts arrivals a t pc ws w : queue_inv udom q fin ts arrivals -> results ts fin ws -> ts !! a = Some t ->
  match pc with WReturn _ => False | _ => True end -> (forall c, member c w -> c ∈ addrs q) ->
  results (<[a := with_pc t pc]> ts) fin (ws ++ [w]).
Proof.
  intros Hq Hr Ha Hpc Hm. assert (results (<[a := with_pc t pc]> ts) fin ws) as Hr'.
  { apply (results_move _ fin); try done. intros rc [->|H1]; [done|by right]. }
  intros c t' Hc. destruct (Hr' c t' Hc) as [R1 R2]. split.
  - intros us Ht Hus. destruct (R1 us Ht Hus) as (w0 & W1 & W2). exists w0. split; [set_solver|done].
  - intros rc w0 Ht Hne. rewrite elem_of_app, list_elem_of_singleton. intros [Hi| ->]; [by apply (R2 rc w0)|]. intros Hmem%Hm. exfalso.
    assert (exists t0, ts !! c = Some t0 /\ (t_pc t' = WReturn rc -> t_pc t0 = WReturn rc)) as (t0 & Et0 & Ht0).
    { destruct (decide (c = a)) as [->|Hca].
      - rewrite lookup_insert_eq in Hc. injection Hc as <-. exists t. split; [done|]. cbn. intros ->. done.
      - rewrite lookup_insert_ne in Hc by done. by exists t'. }
    destruct Ht as [Ht%Ht0|Ht].
    + destruct (qi_thread _ _ _ _ _ Hq c t0 Et0) as (_ & _ & P). rewrite Ht in P. by destruct P.
    + apply list_elem_of_fmap in Hmem as (x & -> & Hx). destruct (qi_queue _ _ _ _ _ Hq x Hx) as [F _]. congruence.
Qed.

(** The head's group is written. *)
Lemma group_written s a t b tmp ls last : writers_inv s -> s_threads s !! a = Some t -> t_pc t = WApply b tmp ls last ->
  turn_fits s (t_pc t) -> exists s', turn ops failed s a = Some s' /\ writers_inv s'.
Proof.
  intros [Hq Hp Hs Ho Hr Hstop] Ha Hpc Hmax. rewrite Hpc in Hmax. cbn [turn_fits] in Hmax.
  destruct (qi_thread _ _ _ _ _ Hq a t Ha) as ([Hreq _] & _ & Hh). rewrite Hpc in Hh. cbn [place] in Hh.
  assert (head_pc (s_threads s) (db_writers (s_db s)) = Some (WApply b tmp ls last)) as Hhp by (unfold head_pc; rewrite Hh, bind_some, Ha; cbn; congruence).
  unfold unwritten in Ho. unfold phase in Hp. unfold last_written in Hs. unfold stopped in Hstop. rewrite Hhp in *.
  destruct Hp as (ms & rest & Hc & Hsync & Hfew & -> & -> & Htmp). destruct (chosen_through _ _ _ _ (qi_nodup _ _ _ _ _ Hq) Hc) as [Hthr Hdrop].
  set (l := vs_last_sequence (db_versions (s_db s))) in *. pose proof (si_last _ _ _ _ _ _ _ _ _ _ _ _ _ Hs) as Hl. change LDB_MAX_SEQUENCE with (2 ^ 56 - 1) in Hl.
  set (g := Group (l + 1) (w_sync (t_waiter t)) (members (s_threads s) ms)).
  assert (g_updates g = asked (s_threads s) ms) as Eu by done.
  destruct (log_and_apply_ok udom uc ops rep names flushed failed start (s_env s) (s_db s) (s_flushed s) (s_imm s) (s_log s) l g (w_sync (t_waiter t)) Hs)
    as (rc & se & e' & db' & file & E1 & Efails & Hse & (D1 & D2 & D3 & D4) & Hbg & Efile & Hst); [done|done| |by rewrite Eu|by rewrite Eu|].
  { rewrite Eu. apply asked_ok. destruct (queue_asks _ _ _ _ Hq) as [_ Hok]. destruct Hc as [Ec _]. rewrite Ec in Hok. by apply List.Forall_app in Hok as [Hok _]. }
  unfold turn. rewrite Ha, bind_some, Hpc. cbn [writer_turn]. change (batch_bytes (l + 1) (asked (s_threads s) ms)) with (record_of g). rewrite E1, !bind_some.
  eexists. split; [reflexivity|]. unfold record_turn. rewrite Hpc, Efile.
  change (sync_fails _ _ _ _ _) with (sync_fails ops (s_env s) (s_db s) (record_of g) (w_sync (t_waiter t))). rewrite <- Efails, batch_sequence_bytes, Hthr by lia.
  fold g. rewrite Eu in Hst. set (w := Written g rc se (negb (failed e' file))) in *. fold l in D4.
  assert (all_written s ++ [w] = s_flushed s ++ s_imm s ++ s_log s ++ [w]) as Eall by (unfold all_written; by rewrite <- !app_assoc).
  assert (map fst (g_members g) = addrs ms) as Emem by (unfold g, members; cbn [g_members]; by rewrite map_map).
  split; unfold all_groups, all_written; cbn [s_db s_threads s_arrivals s_env s_flushed s_imm s_log]; rewrite ?D1, ?D2, ?D3, ?D4, <- ?Eall.
  - by apply queue_same.
  - unfold phase. rewrite head_pc_self by done. pose proof (zlen_nonneg (asked (s_threads s) ms)). split; [done|]. split; [lia|]. split; [done|].
    exists ms, rest, (s_log s), g, (negb (failed e' file)). rewrite (members_with_pc _ a t) by done. do 4 (split; [done|]). intros f Hf. cbn [g g_sync].
    unfold head_addr in Hh. rewrite Hf in Hh. injection Hh as Hh. destruct (qi_queue _ _ _ _ _ Hq f) as (_ & t' & Et & <-).
    { destruct (db_writers (s_db s)); [done|]. injection Hf as <-. set_solver. }
    rewrite Hh, Ha in Et. by injection Et as <-.
  - unfold last_written. rewrite head_pc_self by done. exact Hst.
  - unfold unwritten. rewrite head_pc_self by done. rewrite Hdrop, members_snoc. cbn [w wr_group]. rewrite Emem, <- app_assoc, <- addrs_app.
    destruct Hc as [Ec _]. by rewrite <- Ec.
  - apply (results_snoc (db_writers (s_db s)) _ _ (s_arrivals s)); try done. intros c Hm. unfold member in Hm. cbn [w wr_group] in Hm. rewrite Emem in Hm.
    destruct Hc as [-> _]. rewrite addrs_app. set_solver.
  - intros ws1 w1 ws2 E2 Hw1. rewrite head_pc_self by done. split; [|done]. destruct ws2 as [|x ws2 _] using rev_ind.
    { apply app_inj_tail in E2 as [_ <-]. split; [done|]. by apply Hse. }
    exfalso.
    rewrite app_comm_cons, app_assoc in E2. apply app_inj_tail in E2 as [E2 _]. by destruct (Hstop _ _ _ E2 Hw1).
Qed.

(** Everyone in a group is told its status. *)
Lemma group_told q fin ts arrivals ms rest w : queue_inv udom q fin ts arrivals -> q = ms ++ rest -> sync_kept q ms ->
  g_members (wr_group w) = members ts ms -> (forall first, head q = Some first -> g_sync (wr_group w) = w_sync first) ->
  forall c t us, c ∈ addrs ms -> ts !! c = Some t -> t_updates t = Some us ->
  (c, us) ∈ g_members (wr_group w) /\ (w_sync (t_waiter t) = true -> g_sync (wr_group w) = true).
Proof.
  intros Hq Eq Hsync Eg Egsync c t us (x & -> & Hx)%list_elem_of_fmap Et Hus. split.
  - rewrite Eg. unfold members. apply list_elem_of_fmap. exists x. split; [|done]. unfold updates_at. rewrite Et. cbn. by rewrite Hus.
  - destruct (qi_queue _ _ _ _ _ Hq x) as (_ & t1 & Et1 & Ex); [set_solver|]. rewrite Et in Et1. injection Et1 as <-. intros Hsx.
    destruct q as [|f q]; [destruct ms; [set_solver|done]|]. rewrite (Egsync f eq_refl). destruct (w_sync f) eqn:Ef; [done|].
    specialize (Hsync f eq_refl Ef). rewrite List.Forall_forall in Hsync. rewrite <- Ex in Hx. rewrite (Hsync _ (proj1 (list_elem_of_In _ _) Hx)) in Hsx. done.
Qed.

(** The results when a group has been told its status. *)
Lemma results_leave ms w0 rest fin fin' ts arrivals a t rc ws w : queue_inv udom (ms ++ w0 :: rest) fin ts arrivals ->
  head_addr (ms ++ w0 :: rest) = Some a -> ts !! a = Some t ->
  (forall b, fin' !! b = if decide (b ∈ addrs (ms ++ [w0]) /\ b <> a) then Some rc else fin !! b) ->
  results ts fin ws -> NoDup (members_of_groups (groups ws)) -> w ∈ ws -> wr_status w = rc ->
  sync_kept (ms ++ w0 :: rest) (ms ++ [w0]) -> g_members (wr_group w) = members ts (ms ++ [w0]) ->
  (forall first, head (ms ++ w0 :: rest) = Some first -> g_sync (wr_group w) = w_sync first) ->
  results (<[a := with_pc t (WReturn rc)]> ts) fin' ws.
Proof.
  intros Hq Hh Ha Hf Hr Hn Hw Hrc Hsync Eg Egsync.
  assert (ms ++ w0 :: rest = (ms ++ [w0]) ++ rest) as Eq by (by rewrite <- app_assoc).
  assert (forall c t us, c ∈ addrs (ms ++ [w0]) -> ts !! c = Some t -> rc = LDB_OK -> t_updates t = Some us ->
    exists w, w ∈ ws /\ wr_status w = LDB_OK /\ (c, us) ∈ g_members (wr_group w) /\ (w_sync (t_waiter t) = true -> g_sync (wr_group w) = true)) as Fine.
  { intros c t0 us Hc Et Hok Hus. exists w. split; [done|]. split; [congruence|]. by apply (group_told _ _ _ _ _ rest w Hq Eq Hsync Eg Egsync c t0 us Hc Et Hus). }
  assert (forall c, c ∈ addrs (ms ++ [w0]) -> forall w1, w1 ∈ ws -> member c w1 -> wr_status w1 = rc) as Failed.
  { intros c Hc w1 Hw1 Hm. rewrite <- Hrc. f_equal. apply (member_once c _ _ ws); [done|done|done|done|].
    unfold member. rewrite Eg. unfold members. rewrite map_map. exact Hc. }
  assert (forall c, c ∈ addrs (ms ++ w0 :: rest) -> fin !! c = None) as Hfin.
  { intros c (x & -> & Hx)%list_elem_of_fmap. by apply (qi_queue _ _ _ _ _ Hq). }
  assert (a ∈ addrs (ms ++ [w0])) as Hain by (unfold head_addr in Hh; destruct ms as [|x ms]; injection Hh as <-; cbn; set_solver).
  intros c t' Hc'. unfold told. rewrite Hf. destruct (decide (c = a)) as [->|Hne].
  - rewrite lookup_insert_eq in Hc'. injection Hc' as <-. cbn [t_updates t_waiter t_pc with_pc]. rewrite decide_False, (Hfin a) by (rewrite ?Eq, ?addrs_app; set_solver).
    split; [intros us [[= Hok]|?] Hus; [by apply (Fine a t us)|done]|]. intros rc' w1 [[= <-]|?] _; [by apply Failed|done].
  - rewrite lookup_insert_ne in Hc' by done. destruct (decide (c ∈ addrs (ms ++ [w0]) /\ c <> a)) as [[D _]|D]; [|by apply Hr].
    assert (forall rc', t_pc t' = WReturn rc' -> False) as Still.
    { intros rc' H1. destruct (qi_thread _ _ _ _ _ Hq c t' Hc') as (_ & _ & P). rewrite H1 in P. destruct P as [P _]. apply P. rewrite Eq, addrs_app. set_solver. }
    split; [intros us [?%Still|[= Hok]] Hus; [done|by apply (Fine c t' us)]|]. intros rc' w1 [?%Still|[= <-]] _; [done|by apply Failed].
Qed.

Lemma store_status e db bg fl im ws last : store_inv udom uc rep names flushed failed start e db fl im ws last ->
  store_inv udom uc rep names flushed failed start e (set_db_status db (db_shutting_down db) bg (db_stats db)) fl im ws last.
Proof.
  intros [[R1 R2 R3 R4 R5] (fs & R & [L1 L2 L3] & Hi) Hs Hl]. split; [by split| |done|done]. exists fs. split; [done|]. split; [by split|done].
Qed.

(** The head's group is released. *)
Lemma group_leaves s a t rc sync_error tmp ls last : writers_inv s -> s_threads s !! a = Some t -> t_pc t = WApplied rc sync_error tmp ls last ->
  exists s', turn ops failed s a = Some s' /\ writers_inv s'.
Proof.
  intros [Hq Hp Hs Ho Hr Hstop] Ha Hpc.
  destruct (qi_thread _ _ _ _ _ Hq a t Ha) as ([Hreq _] & _ & Hh). rewrite Hpc in Hh. cbn [place] in Hh.
  assert (head_pc (s_threads s) (db_writers (s_db s)) = Some (WApplied rc sync_error tmp ls last)) as Hhp by (unfold head_pc; rewrite Hh, bind_some, Ha; cbn; congruence).
  unfold unwritten in Ho. unfold phase in Hp. unfold last_written in Hs. unfold stopped in Hstop. rewrite Hhp in *.
  destruct Hp as (Hse & Hls & Htmp & ms & rest & pre & g & clean & Hc & Hsync & Egs & Eg & Egsync).
  destruct (chosen_through _ _ _ _ (qi_nodup _ _ _ _ _ Hq) Hc) as [_ Hdrop]. rewrite Hdrop in Ho.
  destruct Hc as (Eq & ms0 & w & -> & <-). rewrite <- app_assoc in Eq. cbn [app] in Eq.
  assert (w_addr w ∉ addrs ms0) as Hni.
  { pose proof (qi_nodup _ _ _ _ _ Hq) as N. rewrite Eq, addrs_app in N. apply list.NoDup_app in N as (_ & N & _). intros Hi. apply (N _ Hi). cbn. set_solver. }
  assert (w_addr (t_waiter t) = a) as Ew by (by rewrite Hreq).
  destruct (release_group_ok ms0 w rest a rc (db_finished (s_db s)) Hni) as (fin' & Erel & Hf).
  unfold turn. rewrite Ha, bind_some, Hpc. cbn [writer_turn]. unfold write_finish. cbv zeta.
  set (db0 := if sync_error then ldb_record_background_error (s_db s) rc else s_db s).
  assert (exists bg, db0 = set_db_status (s_db s) (db_shutting_down (s_db s)) bg (db_stats (s_db s)) /\
    (sync_error = true \/ db_bg_error (s_db s) <> LDB_OK -> bg <> LDB_OK)) as (bg & E0 & Hbg).
  { unfold db0, ldb_record_background_error. destruct sync_error; [destruct (Z.eqb_spec (db_bg_error (s_db s)) LDB_OK)|].
    - exists rc. split; [done|]. auto.
    - exists (db_bg_error (s_db s)). split; [by destruct (s_db s)|done].
    - exists (db_bg_error (s_db s)). split; [by destruct (s_db s)|]. by intros [?|?]. }
  rewrite E0. clear E0 db0. set (db0 := set_db_status _ _ _ _).
  set (db1 := if tmp then set_db_tmp_batch db0 ldb_batch_reset else db0).
  assert (db_writers db1 = db_writers (s_db s) /\ db_finished db1 = db_finished (s_db s) /\ db_logfile_number db1 = db_logfile_number (s_db s) /\
    db_versions db1 = db_versions (s_db s) /\ db_tmp_batch db1 = ldb_batch_init /\ db_bg_error db1 = bg) as (D1 & D2 & D3 & D4 & D5 & D6).
  { unfold db1. destruct tmp; [done|auto 10]. }
  assert (store_inv udom uc rep names flushed failed start (s_env s) db1 (s_flushed s) (s_imm s) (s_log s) ls) as Hs1.
  { apply (store_status _ _ bg) in Hs. fold db0 in Hs. unfold db1. destruct tmp; [|done]. destruct Hs as [[R1 R2 R3 R4 R5] (fs & R & [L1 L2 L3] & Hi) Hs1 Hl1].
    split; [by split| |done|done]. exists fs. split; [done|]. split; [by split|done]. }
  clearbody db1. rewrite D4, (proj2 (Z.ltb_ge ls _)) by lia. cbn [set_db_versions db_writers db_finished]. rewrite D1, D2, Ew, Eq, Erel, !bind_some.
  eexists. split; [reflexivity|]. unfold record_turn. rewrite Hpc. cbn [set_db_writers set_db_versions db_logfile_number]. rewrite D3, Z.eqb_refl.
  rewrite Eq in Hq, Hh. pose proof (leave_head ms0 w rest _ _ _ a t rc Hq Hh) as Hrest.
  destruct (after_leaving _ rest ls (db_tmp_batch db1) (s_log s) Hrest) as (U & L & P).
  split; unfold all_groups, all_written; cbn [s_db s_threads s_arrivals s_env s_flushed s_imm s_log set_db_writers set_db_versions db_writers db_finished db_tmp_batch db_versions db_bg_error].
  - by apply (queue_leave udom ms0 w rest (db_finished (s_db s))).
  - by apply P.
  - change (vs_last_sequence (set_last_sequence (db_versions (s_db s)) ls)) with ls. rewrite L. rewrite <- D4. apply store_writers.
    destruct Hs1 as [[R1 R2 R3 R4 R5] (fs & R & [L1 L2 L3] & Hi) Hs1 Hl1].
    split; [by split| |done|done]. exists fs. split; [done|]. split; [by split|done].
  - by rewrite U.
  - fold (all_written s). apply (results_leave ms0 w rest (db_finished (s_db s)) _ _ (s_arrivals s) a t rc _ (Written g rc sync_error clean)); try done.
    + pose proof (sublist_NoDup _ _ (qi_arrivals _ _ _ _ _ Hq) Ho) as N. by apply list.NoDup_app in N as (N & _ & _).
    + unfold all_written. rewrite Egs. set_solver.
    + by rewrite <- Eq.
    + by rewrite <- Eq.
  - apply stopped_leaving; [done|]. intros ws1 w1 ws2 E1 E2. destruct (Hstop ws1 w1 ws2 E1 E2) as [[-> Hw1] _]. split; [done|]. rewrite D6. apply Hbg. left.
    unfold all_written in E1. rewrite Egs, !app_assoc in E1. apply app_inj_tail in E1 as [_ <-]. exact E2.
Qed.

(** A turn that changes nothing. *)
Lemma turn_same s a t pc : s_threads s !! a = Some t -> t_pc t = pc -> match pc with WApply _ _ _ _ => False | _ => True end ->
  record_turn ops failed s t (s_env s) (s_db s) pc a = s.
Proof.
  intros Ha <- Hpc. unfold record_turn. rewrite with_pc_same, insert_id, Z.eqb_refl by done. destruct s. by destruct (t_pc t).
Qed.

(** A turn while the writer makes room. *)
Lemma room_turn s a t force allow : writers_inv s -> s_threads s !! a = Some t -> t_pc t = WRoom force allow ->
  turn_fits s (t_pc t) -> exists s', turn ops failed s a = Some s' /\ writers_inv s'.
Proof.
  intros H Ha Hpc Hfit. rewrite Hpc in Hfit. cbn in Hfit. pose proof H as [Hq Hp Hs Ho Hr Hstop].
  destruct (qi_thread _ _ _ _ _ Hq a t Ha) as ([Hreq _] & _ & Hh). rewrite Hpc in Hh. cbn [place] in Hh.
  assert (head_pc (s_threads s) (db_writers (s_db s)) = Some (WRoom force allow)) as Hhp by (unfold head_pc; rewrite Hh, bind_some, Ha; cbn; congruence).
  unfold last_written in Hs. rewrite Hhp in Hs.
  assert (exists q, db_writers (s_db s) = t_waiter t :: q) as [q Eq].
  { unfold head_addr in Hh. destruct (db_writers (s_db s)) as [|w q] eqn:Eq; [done|]. injection Hh as Hh. exists q. f_equal.
    destruct (qi_queue _ _ _ _ _ Hq w) as (_ & t' & Et & <-); [set_solver|]. rewrite Hh, Ha in Et. by injection Et as <-. }
  assert (w_addr (t_waiter t) = a) as Ew by (by rewrite Hreq).
  destruct (make_room_ok udom uc ops rep names flushed failed start (s_env s) (s_db s) _ _ _ _ force allow Hs ltac:(by rewrite Eq) Hfit) as (r & e' & db' & Er & Hsame & Hroom).
  unfold turn. rewrite Ha, bind_some, Hpc. cbn [writer_turn]. rewrite Er, bind_some.
  assert (match t_pc t with WWait | WRoom _ _ => True | _ => False end) as Hpc' by (by rewrite Hpc).
  destruct r as [rc| | |].
  - destruct Hroom as (Hbg & -> & Hs').
    assert (rc <> LDB_OK \/ t_updates t = None -> exists s', ('(pc, e, db) ← ('(pc, db) ← write_ready (s_db s) (t_waiter t) rc; Some (pc, e', db));
       Some (record_turn ops failed s t e db pc a)) = Some s' /\ writers_inv s') as Alone.
    { intros Hrc. destruct (release_group_ok [] (t_waiter t) q a rc (db_finished (s_db s)) ltac:(apply not_elem_of_nil)) as (fin' & Erel & Hf).
      cbn [app] in Erel. rewrite Ew in Erel. pose proof (leave_alone s e' a t rc q fin' H Ha Eq Ew ltac:(by rewrite Hpc) Hrc Hs' Hf) as Hinv.
      assert (write_ready (s_db s) (t_waiter t) rc = Some (WReturn rc, set_db_writers (s_db s) q fin')) as ->.
      { unfold write_ready. rewrite Ew, Eq, Erel. destruct (w_batch (t_waiter t)) eqn:Eb; [|done]. destruct (Z.eqb_spec rc LDB_OK) as [->|]; [|done].
        destruct Hrc as [|Hrc]; [done|]. rewrite Hreq, Hrc in Eb. done. }
      rewrite !bind_some. eexists. split; [reflexivity|]. unfold record_turn. rewrite Hpc. cbn [set_db_writers db_logfile_number]. rewrite Z.eqb_refl. exact Hinv. }
    destruct (Z.eq_dec rc LDB_OK) as [->|Hne]; [|by apply Alone; left]. destruct (t_updates t) as [us|] eqn:Eu; [|by apply Alone; right].
    destruct (group_chosen s e' a t q (batch_of us) force allow H Ha Eq Ew Hpc) as (pc & db' & E1 & D & Hinv); [by rewrite Hreq|auto|done|].
    rewrite E1, !bind_some. eexists. split; [reflexivity|]. unfold record_turn. rewrite Hpc, D, Z.eqb_refl. exact Hinv.
  - destruct Hroom as [-> ->]. rewrite bind_some. eexists. split; [reflexivity|]. unfold record_turn. rewrite Hpc, Z.eqb_refl. apply head_moves; try done. by left.
  - destruct Hroom as [-> ->]. rewrite bind_some. eexists. split; [reflexivity|]. unfold record_turn. rewrite Hpc, Z.eqb_refl. apply head_moves; try done. by left.
  - destruct Hroom as (Hbg & Hnum & Hst). rewrite bind_some. eexists. split; [reflexivity|]. unfold record_turn. rewrite Hpc, (proj2 (Z.eqb_neq _ _) Hnum).
    apply head_moves; try done; [|by right]. unfold all_written. by rewrite app_nil_r, app_assoc.
Qed.

Lemma turn_ok s a t : writers_inv s -> s_threads s !! a = Some t -> turn_fits s (t_pc t) ->
  exists s', turn ops failed s a = Some s' /\ writers_inv s'.
Proof.
  intros H Ha Hfit. destruct (t_pc t) as [|force allow|b tmp ls last|rc se tmp ls last|rc] eqn:Hpc.
  - unfold turn. rewrite Ha, bind_some, Hpc. cbn [writer_turn]. destruct (qi_thread _ _ _ _ _ (wi_queue s H) a t Ha) as ([Hreq _] & _ & Hpl).
    assert (w_addr (t_waiter t) = a) as -> by (by rewrite Hreq). destruct (db_finished (s_db s) !! a) as [rc|] eqn:Ef.
    + rewrite bind_some. eexists. split; [reflexivity|]. unfold record_turn. rewrite Hpc. cbn [set_db_writers db_logfile_number]. rewrite Z.eqb_refl.
      by apply told_ok.
    + unfold at_head. destruct (db_writers (s_db s)) as [|w q] eqn:Eq; [|destruct (Nat.eqb_spec (w_addr w) a) as [Ew|]]; rewrite bind_some;
        eexists; (split; [reflexivity|]); try by rewrite (turn_same s a t).
      unfold record_turn. rewrite Hpc, Z.eqb_refl. 
      assert (head_addr (db_writers (s_db s)) = Some a) as Hh by (unfold head_addr; rewrite Eq; cbn; congruence).
      assert (head_pc (s_threads s) (db_writers (s_db s)) = Some WWait) as Hhp by (unfold head_pc; rewrite Hh, bind_some, Ha; cbn; congruence).
      pose proof (wi_store s H) as Hs. unfold last_written in Hs. rewrite Hhp in Hs. apply head_moves; try done; [by rewrite Hpc|by left].
  - rewrite <- Hpc in Hfit. by apply (room_turn s a t force allow).
  - rewrite <- Hpc in Hfit. by apply (group_written s a t b tmp ls last).
  - by apply (group_leaves s a t rc se tmp ls last).
  - unfold turn. rewrite Ha, bind_some, Hpc. cbn [writer_turn]. rewrite bind_some. eexists. split; [reflexivity|]. by rewrite (turn_same s a t).
Qed.

(** A writer comes. *)
Lemma begin_ok s a updates sync : writers_inv s -> s_threads s !! a = None -> request_ok udom updates -> writers_inv (begin s a updates sync).
Proof.
  intros [Hq Hp Hs Ho Hr Hstop] Ha Hreq. set (t := Thread (request a updates sync) updates WWait).
  assert (a ∉ addrs (db_writers (s_db s))) as Hni.
  { intros (w & -> & Hw)%list_elem_of_fmap. destruct (qi_queue _ _ _ _ _ Hq w Hw) as (_ & t' & E1 & _). congruence. }
  assert (db_finished (s_db s) !! a = None) as Hfa.
  { destruct (db_finished (s_db s) !! a) eqn:Ef; [|done]. destruct (qi_finished _ _ _ _ _ Hq a) as [t' Et]; [by rewrite Ef|congruence]. }
  pose proof (queue_begin udom _ _ _ _ a updates sync Hq Ha Hreq) as Hq'. fold t in Hq'.
  assert (members_of_groups (all_groups s) ++ addrs (unwritten (s_threads s) (db_writers (s_db s)) ++ [request a updates sync]) `sublist_of` s_arrivals s ++ [a]) as Ho'.
  { rewrite addrs_app, app_assoc. by apply sublist_app. }
  assert (head_pc (<[a := t]> (s_threads s)) (db_writers (s_db s) ++ [request a updates sync]) =
    match db_writers (s_db s) with [] => Some WWait | _ => head_pc (s_threads s) (db_writers (s_db s)) end) as Hhp.
  { unfold head_pc, head_addr. destruct (db_writers (s_db s)) as [|w q]; cbn; [by rewrite lookup_insert_eq|].
    rewrite lookup_insert_ne; [done|]. intros ->. apply Hni. cbn. set_solver. }
  split; unfold begin, write_begin, ldb_queue_push; cbn [s_db s_threads s_arrivals s_env s_flushed s_imm s_log set_db_writers db_writers db_finished db_tmp_batch db_versions]; fold t.
  1: exact Hq'.
  4: { intros b t' Hb. change (all_written (begin s a updates sync)) with (all_written s). destruct (decide (b = a)) as [->|Hne].
       - rewrite lookup_insert_eq in Hb. injection Hb as <-. unfold told. cbn [t t_pc]. split; [intros us [?|?]|intros rc w [?|?]]; congruence.
       - rewrite lookup_insert_ne in Hb by done. by apply Hr. }
  4: { intros ws1 w ws2 E1 E2. rewrite Hhp. destruct (Hstop ws1 w ws2 E1 E2) as [H1 H2]. split; [done|]. unfold head_pc, head_addr in H2. by destruct (db_writers (s_db s)). }
  all: unfold phase, unwritten, last_written in *; rewrite Hhp; destruct (db_writers (s_db s)) as [|w q] eqn:Eq; try done.
  - destruct (head_pc (s_threads s) (w :: q)) as [[| |b tmp ls last|rc se tmp ls last|]|] eqn:Epc; try done.
    + destruct Hp as (ms & rest & [Ec Hc] & Hsync & H). exists ms, (rest ++ [request a updates sync]). split; [split; [by rewrite Ec, app_assoc|done]|]. split; [done|].
      assert (asked (<[a := t]> (s_threads s)) ms = asked (s_threads s) ms) as ->; [|done]. unfold asked. f_equal. f_equal. apply members_ext.
      intros x Hx. unfold updates_at. rewrite lookup_insert_ne; [done|]. intros ->. apply Hni. rewrite Ec. apply addr_in. set_solver.
    + destruct Hp as (H1 & H2 & H3 & ms & rest & pre & g & clean & [Ec Hc] & Hsync & H5 & H6 & H7). do 3 (split; [done|]).
      exists ms, (rest ++ [request a updates sync]), pre, g, clean. split; [split; [by rewrite Ec, app_assoc|done]|]. do 2 (split; [done|]). split; [|done].
      rewrite H6. symmetry. apply members_ext. intros x Hx. unfold updates_at. rewrite lookup_insert_ne; [done|]. intros ->. apply Hni. rewrite Ec. apply addr_in. set_solver.
  - by apply store_writers.
  - by apply store_writers.
  - change (all_groups (begin s a updates sync)) with (all_groups s).
    destruct (head_pc (s_threads s) (w :: q)) as [[| |b tmp ls last|rc se tmp ls last|]|] eqn:Epc; try exact Ho'.
    destruct Hp as (_ & _ & _ & ms & rest & _ & _ & _ & Hc & _).
    assert (chosen ((w :: q) ++ [request a updates sync]) last ms (rest ++ [request a updates sync])) as Hc'.
    { destruct Hc as [Ec Hc]. split; [by rewrite Ec, app_assoc|done]. }
    rewrite <- Eq in Hc. pose proof (qi_nodup _ _ _ _ _ Hq) as N. rewrite <- Eq in N. destruct (chosen_through _ _ _ _ N Hc) as [_ Hd]. rewrite <- Eq, Hd in Ho'.
    destruct (chosen_through _ _ _ _ (qi_nodup _ _ _ _ _ Hq') Hc') as [_ ->]. exact Ho'.
Qed.

Lemma others_step_ok s e' db' : writers_inv s -> others rep names flushed failed (s_env s) (s_db s) e' db' ->
  writers_inv (Writers e' db' (s_threads s) (s_arrivals s) (s_flushed s) (s_imm s) (s_log s)).
Proof.
  intros [Hq Hp Hs Ho Hr Hstop] H. pose proof (others_ok udom uc rep names flushed failed start _ _ _ _ _ _ _ _ H Hs) as Hs'.
  destruct (ot_fixed _ _ _ _ _ _ _ _ H) as (_ & _ & _ & _ & _ & _ & F1 & F2 & F3). pose proof (ot_sequence _ _ _ _ _ _ _ _ H) as F4.
  split; cbn [s_db s_threads s_arrivals s_env s_flushed s_imm s_log]; rewrite ?F1, ?F2, ?F3, ?F4; try done.
  intros ws1 w ws2 E1 E2. destruct (Hstop ws1 w ws2 E1 E2) as [H1 H2]. split; [done|]. pose proof (ot_error _ _ _ _ _ _ _ _ H).
  destruct (head_pc _ _) as [[| | | |]|]; auto.
Qed.

Lemma executes_inv s s' : writers_inv s -> executes ops rep names flushed failed udom s s' -> writers_inv s'.
Proof.
  intros H. induction 1 as [|s1 s2 _ IH Hstep]; [done|]. destruct Hstep as [a updates sync Ha H1 H2|a t s2 Ha Hfit Hturn|e' db' Ho].
  - by apply begin_ok.
  - destruct (turn_ok s1 a t IH Ha Hfit) as (s3 & E1 & H3). congruence.
  - by apply others_step_ok.
Qed.
End Turns.

(** ** An open database *)

Lemma log_filename_some dbname n : zlen dbname <= LDB_PATH_MAX - 35 -> 0 <= n < 2 ^ 64 -> is_Some (ldb_log_filename LDB_PATH_MAX dbname n).
Proof.
  intros Hl Hn. unfold ldb_log_filename, make_filename, ldb_join. destruct (ldb_encode_int_spec n 6 Hn) as (_ & _ & _ & Hz).
  destruct (ldb_size_int_spec n Hn) as [Hs _]. rewrite !zlen_app, Hz. change (zlen (cstr ".")) with 1. change (zlen (cstr "log")) with 3.
  rewrite (proj2 (Z.ltb_ge _ _)) by (unfold LDB_PATH_MAX in *; lia). eauto.
Qed.

Section Writing.
Context (udom : bytes -> Prop) (uc : comparator) `{!ComparatorLaws udom uc}.
Context {E W : Type} (ops : env_ops E W) (rep : E -> fsview -> Prop) (names : E -> W -> bytes -> Prop).
Context (flushed : E -> W -> Z) (failed : E -> W -> bool) `{!FaultyLaws ops rep names flushed failed}.
Implicit Types (db : ldb W) (s : writers E W).

(** A database with an empty log and memtable that nobody writes to. *)
Record opened (e : E) db : Prop := {
  op_ready : db_ready uc db;
  op_log : exists fs, rep e fs /\ log_open udom uc names flushed failed e fs db [] (vs_last_sequence (db_versions db));
  op_imm : db_imm db = None;
  op_last : 0 <= vs_last_sequence (db_versions db) <= LDB_MAX_SEQUENCE;
  op_idle : db_writers db = [] /\ db_finished db = ∅ /\ db_tmp_batch db = ldb_batch_init
}.

Definition nobody (e : E) db : writers E W := Writers e db ∅ [] [] [] [].

Lemma opened_inv e db : opened e db -> writers_inv udom uc rep names flushed failed (vs_last_sequence (db_versions db) + 1) (nobody e db).
Proof.
  intros [Hr (fs & R & Hl) Hi Hlast (Q & F & T)].
  split; unfold nobody, all_groups, all_written, unwritten, last_written, phase; cbn [s_db s_threads s_arrivals s_env s_flushed s_imm s_log]; rewrite ?Q, ?F.
  - split; [constructor|by intros w Hw%not_elem_of_nil| |by intros a Ha%not_elem_of_nil| |constructor]; intros a; rewrite lookup_empty; [done|by intros []].
  - done.
  - split; [done| |done|done]. exists fs. split; [done|]. split; [done|]. by rewrite Hi.
  - apply sublist_nil_l.
  - intros a t Ha. by rewrite lookup_empty in Ha.
  - intros ws1 w ws2 E1. by destruct ws1.
Qed.

Lemma nobody_inv e db s : opened e db -> executes ops rep names flushed failed udom (nobody e db) s ->
  writers_inv udom uc rep names flushed failed (vs_last_sequence (db_versions db) + 1) s.
Proof. intros Ho Hex. pose proof (op_last _ _ Ho) as Hl. eapply executes_inv; try exact Hex; try apply _; [lia|by apply opened_inv]. Qed.


(** C2: Whatever the threads do, and whatever operations on the log fail, the
    memtable holds exactly the updates, with their sequence numbers, of the
    groups written without an error since the last switch.  The file of the
    current log has the records of all these groups in their order, those up to
    the last one that asked for a sync on the disk; it starts with exactly the
    records of the groups in front of the first failure, and if no operation on
    it failed it is exactly the log of all groups.  The same holds of the
    previous log and the immutable memtable as long as there is one. *)
Theorem log_and_memtable_agree e db s :
  opened e db -> executes ops rep names flushed failed udom (nobody e db) s ->
  exists fs mem, rep (s_env s) fs /\
    log_holds fs (s_db s) (db_logfile_number (s_db s)) (s_log s) /\
    (Forall (fun w => wr_clean w = true) (s_log s) -> log_of fs (s_db s) (db_logfile_number (s_db s)) (groups (s_log s))) /\
    db_mem (s_db s) = Some mem /\ mt_holds udom uc mem (entries_of (applied (s_log s))) /\
    forall imm, db_imm (s_db s) = Some imm -> mt_holds udom uc imm (entries_of (applied (s_imm s))) /\
      exists n, vs_log_number (db_versions (s_db s)) <= n < db_logfile_number (s_db s) /\ log_holds fs (s_db s) n (s_imm s) /\
        (Forall (fun w => wr_clean w = true) (s_imm s) -> log_of fs (s_db s) n (groups (s_imm s))).
Proof.
  intros Ho Hex. pose proof (nobody_inv e db s Ho Hex) as H.
  destruct (si_files _ _ _ _ _ _ _ _ _ _ _ _ _ (wi_store _ _ _ _ _ _ _ _ H)) as (fs & R & [(file & path & log & d & synced & Hl) (mem & Em & Hm) _] & Hi).
  assert (log_holds fs (s_db s) (db_logfile_number (s_db s)) (s_log s)) as Hlog.
  { destruct Hl as (_ & _ & Ep & _ & Hd & Hst & _). by exists path, d, synced, (flushed (s_env s) file). }
  exists fs, mem. do 2 (split; [done|]). split; [intros Hc; by apply clean_log|]. do 2 (split; [done|]). intros imm Ei.
  destruct (Hi imm Ei) as [H1 (n & _ & H2 & H3)]. split; [done|]. exists n. do 2 (split; [done|]). intros Hc. by apply clean_log.
Qed.
End Writing.

(** ** Four writers, and an append that fails *)

Definition write_demo_db : ldb nat :=
  let db := ldb_create (cstr "/db") ldb_dbopt_default in
  let '(number, vs) := ldb_versions_new_file_number (db_versions db) in
  set_db_mem (set_db_log (set_db_versions db vs) (Some 0%nat) number (Some (ldb_writer_init 0%nat 0)))
    (Some (ldb_memtable_ref (ldb_memtable_create (ldb_ikc_init bytewise_comparator)))) None false.

(** The fifth operation fails. *)
Definition write_demo_env : fdisk :=
  Fdisk (Disk {[cstr "/db/000002.log" := VFile [] 0]} [cstr "/db/000002.log"]) [false; false; false; false; true] ∅ ∅.

Abbreviation demo_execute := (executes fdisk_ops fdisk_rep fdisk_names fdisk_flushed fdisk_failed (fun _ => True)).

Definition write_demo_turn (s : writers fdisk nat) (a : nat) : writers fdisk nat := default s (turn fdisk_ops fdisk_failed s a).

(** The first one writes for both. *)
Definition write_demo_two : writers fdisk nat :=
  fold_left write_demo_turn [7; 7; 7; 7; 8]%nat
    (begin (begin (nobody write_demo_env write_demo_db) 7 (Some [Put [Byte.x61] [Byte.x31]]) true) 8 (Some [Del [Byte.x62]; Put [Byte.x61] [Byte.x32]]) false).

(** The third one's group cannot be written, that of the fourth one can. *)
Definition write_demo_three : writers fdisk nat :=
  fold_left write_demo_turn [9; 9; 9; 9]%nat (begin write_demo_two 9 (Some [Put [Byte.x63] [Byte.x33]]) false).

Definition write_demo_end : writers fdisk nat :=
  fold_left write_demo_turn [10; 10; 10; 10]%nat (begin write_demo_three 10 (Some [Put [Byte.x64] [Byte.x34]]) true).

Lemma write_demo_opened : opened (fun _ => True) bytewise_comparator fdisk_rep fdisk_names fdisk_flushed fdisk_failed write_demo_env write_demo_db.
Proof.
  split.
  - split; [done| |done|by eexists|by vm_compute]. intros n Hn. apply log_filename_some; [by vm_compute|lia].
  - eexists. split; [reflexivity|]. split.
    + exists 0%nat, (cstr "/db/000002.log"), (ldb_writer_init 0%nat 0), [], 0. do 5 (split; [done|]). split; [apply log_contents_nil|]. split; [done|].
      split; [by apply writer_init_ok|]. intros _. split; [apply log_writer_at_nil|constructor].
    + eexists. split; [reflexivity|]. exact (mt_holds_create (fun _ => True) bytewise_comparator).
    + constructor.
  - done.
  - by vm_compute.
  - done.
Qed.

Lemma write_demo_executes : demo_execute (nobody write_demo_env write_demo_db) write_demo_end.
Proof.
  assert (forall s s0 a t, demo_execute s0 s -> s_threads s !! a = Some t -> turn_fits s (t_pc t) ->
    is_Some (turn fdisk_ops fdisk_failed s a) -> demo_execute s0 (write_demo_turn s a)) as Step.
  { intros s s0 a t H Ha Hf [s' E1]. eapply executes_step; [exact H|]. unfold write_demo_turn. rewrite E1. by eapply step_turn. }
  assert (forall s s0 a updates sync, demo_execute s0 s -> s_threads s !! a = None -> from_option (Forall (update_ok (fun _ => True))) True updates ->
    from_option (fun us => zlen us < 2 ^ 31 /\ zlen (batch_of us) < 2 ^ 63) True updates -> demo_execute s0 (begin s a updates sync)) as Begin.
  { intros s s0 a updates sync H Ha H1 H2. eapply executes_step; [exact H|]. by apply step_begin. }
  unfold write_demo_end, write_demo_three, write_demo_two. cbn [fold_left].
  do 4 (eapply Step; [|vm_compute; reflexivity|vm_compute; try done|apply is_Some_alt; vm_compute; done]).
  apply Begin; [|by vm_compute|cbn [from_option]; repeat constructor; vm_compute; done|split; by vm_compute].
  do 4 (eapply Step; [|vm_compute; reflexivity|vm_compute; try done|apply is_Some_alt; vm_compute; done]).
  apply Begin; [|by vm_compute|cbn [from_option]; repeat constructor; vm_compute; done|split; by vm_compute].
  do 5 (eapply Step; [|vm_compute; reflexivity|vm_compute; try done|apply is_Some_alt; vm_compute; done]).
  do 2 (apply Begin; [|by vm_compute|cbn [from_option]; repeat constructor; vm_compute; done|split; by vm_compute]).
  apply executes_refl.
Qed.


Lemma log_and_memtable_agree_witness :
  map record_of (applied (s_log write_demo_end)) =
    [batch_bytes 1 [Put [Byte.x61] [Byte.x31]; Del [Byte.x62]; Put [Byte.x61] [Byte.x32]]; batch_bytes 5 [Put [Byte.x64] [Byte.x34]]] /\
  exists fs, fdisk_rep (s_env write_demo_end) fs /\ log_holds fs (s_db write_demo_end) 2 (s_log write_demo_end).
Proof.
  split; [by vm_compute|].
  destruct (log_and_memtable_agree (fun _ => True) bytewise_comparator fdisk_ops fdisk_rep fdisk_names fdisk_flushed fdisk_failed write_demo_env write_demo_db write_demo_end
    write_demo_opened write_demo_executes) as (fs & mem & R & Hl & _). exists fs. split; [exact R|].
  assert (db_logfile_number (s_db write_demo_end) = 2) as En by (vm_compute; reflexivity). rewrite En in Hl. exact Hl.
Defined.

(** After a failed append the log writer is not where the file ends: a later
    write that was synced and told [LDB_OK] is in the file, but a reader does not
    find it. *)
Example acknowledged_write_unread :
  t_pc <$> (s_threads write_demo_end !! 10%nat) = Some (WReturn LDB_OK) /\
  (f ← dk_files (fd_disk (s_env write_demo_end)) !! cstr "/db/000002.log";
   fst <$> read_all 5 [] (ldb_reader_init (ztake (vf_synced f) (vf_data f)) 0 true true 0)) =
  Some (map record_of (groups (take 1 (s_log write_demo_end)))).
Proof. split; vm_compute; reflexivity. Qed.
