(* ===== verification/DBFiles.v ===== *)
(** * The files of a database

    Models what [src/engine/src/db_impl.c] does with the directory of a database:
    creating a new one, removing the files that are not needed any more, and
    writing a memtable to a table of level 0. *)

From stdpp Require Import strings gmap.
From S2P Require Import Prelude Coding Status Strutil Comparator DBFormat Options Memtable LogWriter Iterator FileList VersionEdit Version Env VersionSet MemIter BuildTable DB.
#[local] Open Scope Z_scope.

(** ** Directories

    The operations on directories and locks of [util/env.h], the clock, and
    [ldb_tables_evict] of the table cache, which is part of the environment
    here.  [dir_children]: [None] is an error. *)
Record dir_ops (E : Type) := DirOps {
  dir_create : E -> bytes -> Z * E;
  dir_children : E -> bytes -> option (list bytes);
  dir_file_exists : E -> bytes -> bool;
  dir_lock_file : E -> bytes -> Z * E;
  dir_unlock_file : E -> bytes -> Z * E;
  dir_system_error : E -> Z;
  dir_now_usec : E -> Z;
  dir_evict : E -> Z -> E
}.
Arguments DirOps {E}.
Arguments dir_create {E}.
Arguments dir_children {E}.
Arguments dir_file_exists {E}.
Arguments dir_lock_file {E}.
Arguments dir_unlock_file {E}.
Arguments dir_system_error {E}.
Arguments dir_now_usec {E}.
Arguments dir_evict {E}.

Section Files.
Context (uc : comparator) {E W : Type} (ops : env_ops E W) (dirs : dir_ops E).
Implicit Type db : ldb W.

(** ** A new database *)

Definition new_db_edit : edit :=
  ldb_edit_set_last_sequence (ldb_edit_set_next_file (ldb_edit_set_log_number
    (ldb_edit_set_comparator_name ldb_edit_init (cmp_name uc)) 0) 2) 0.

Definition ldb_new_db (e : E) db : option (Z * E) :=
  match ldb_desc_filename LDB_PATH_MAX (db_dbname db) 1 with
  | None => Some (LDB_INVALID, e)
  | Some manifest =>
    match env_truncfile_create ops e manifest with
    | (inl rc, e) => Some (rc, e)
    | (inr file, e) =>
      '(rc, _, e) ← env_add_record ops e (ldb_writer_init file 0) (ldb_edit_export [] new_db_edit);
      let '(rc, e) := env_finish_file ops e rc file in
      if rc =? LDB_OK then ldb_set_current_file ops e (db_dbname db) 1
      else Some (rc, (env_remove_file ops e manifest).2)
    end
  end.

(** ** Obsolete files *)

(** The switch over the type of a file; [live]: the tables in use. *)
Definition keep_file (vs : versions W) (live : gset Z) (type : filetype) (number : Z) : bool :=
  match type with
  | LDB_FILE_LOG => (vs_log_number vs <=? number) || (number =? vs_prev_log_number vs)
  | LDB_FILE_DESC => vs_manifest_file_number vs <=? number
  | LDB_FILE_TABLE | LDB_FILE_TEMP => bool_decide (number ∈ live)
  | LDB_FILE_CURRENT | LDB_FILE_LOCK | LDB_FILE_INFO => true
  end.

(** The first loop: the names of the files to delete; tables leave the cache. *)
Fixpoint obsolete_loop (vs : versions W) (live : gset Z) (e : E) (filenames : list bytes) : list bytes * E :=
  match filenames with
  | [] => ([], e)
  | filename :: filenames =>
    match ldb_parse_filename filename with
    | Some (type, number) =>
      if keep_file vs live type number then obsolete_loop vs live e filenames
      else
        let e := match type with LDB_FILE_TABLE => dir_evict dirs e number | _ => e end in
        let '(names, e) := obsolete_loop vs live e filenames in (filename :: names, e)
    | None => obsolete_loop vs live e filenames
    end
  end.

(** With the mutex. *)
Definition obsolete_files (e : E) db : option (list bytes * E) :=
  if negb (db_bg_error db =? LDB_OK) then Some ([], e)
  else
    live ← ldb_versions_add_files (db_versions db) (db_pending_outputs db);
    Some (obsolete_loop (db_versions db) live e (default [] (dir_children dirs e (db_dbname db)))).

(** Without it. *)
Fixpoint delete_loop (dbname : bytes) (e : E) (filenames : list bytes) : E :=
  match filenames with
  | [] => e
  | filename :: filenames =>
    let e := match ldb_join LDB_PATH_MAX dbname filename with Some path => (env_remove_file ops e path).2 | None => e end in
    delete_loop dbname e filenames
  end.

Definition ldb_remove_obsolete_files (e : E) db : option E :=
  '(to_delete, e) ← obsolete_files e db; Some (delete_loop (db_dbname db) e to_delete).

(** ** Tables of level 0 *)

Context {T : Type} (tops : iter_ops T) (tables_of : E -> tables_ops T).

Definition set_meta_number (meta : filemeta) (number : Z) : filemeta :=
  Filemeta (fm_refs meta) (fm_allowed_seeks meta) number (fm_file_size meta) (fm_smallest meta) (fm_largest meta).

(** With the mutex: the metadata of the table, and the time. *)
Definition level0_begin (e : E) db : filemeta * Z * ldb W :=
  let start_micros := dir_now_usec dirs e in
  let '(number, vs) := ldb_versions_new_file_number (db_versions db) in
  (set_meta_number ldb_filemeta_init number, start_micros,
   set_db_pending (set_db_versions db vs) ({[number]} ∪ db_pending_outputs db)).

(** Without the mutex.  [fuel]: more than there are entries. *)
Definition level0_build (fuel : nat) (e : E) (dbname : bytes) (options : dbopt) (mem : memtable) (meta : filemeta) : option (Z * filemeta * E) :=
  '(rc, meta, _, e) ← ldb_build_table ops (ldb_memiter_table mem) tops tables_of fuel e dbname options None meta; Some (rc, meta, e).

(** With the mutex again; [base] is a version. *)
Definition level0_end (e : E) db (rc : Z) (meta : filemeta) (start_micros : Z) (ed : edit) (base : option nat) : option (edit * ldb W) :=
  let db := set_db_pending db (db_pending_outputs db ∖ {[fm_number meta]}) in
  '(level, ed) ← (if (rc =? LDB_OK) && (0 <? fm_file_size meta) then
      level ← match base with
              | Some base =>
                ver ← vs_objects (db_versions db) !! base;
                ldb_version_pick_level_for_memtable_output uc (db_options db) ver
                  (ldb_extract_user_key (fm_smallest meta)) (ldb_extract_user_key (fm_largest meta))
              | None => Some 0
              end;
      Some (level, ldb_edit_add_file ed level (fm_number meta) (fm_file_size meta) (fm_smallest meta) (fm_largest meta))
    else Some (0, ed));
  db ← add_stats db level (Stats (s64 (u64 (dir_now_usec dirs e - start_micros))) 0 (s64 (fm_file_size meta)));
  Some (ed, db).

(** When no other thread comes in between. *)
Definition ldb_write_level0_table (fuel : nat) (e : E) db (mem : memtable) (ed : edit) (base : option nat) : option (Z * edit * E * ldb W) :=
  let '(meta, start_micros, db) := level0_begin e db in
  '(rc, meta, e) ← level0_build fuel e (db_dbname db) (db_options db) mem meta;
  '(ed, db) ← level0_end e db rc meta start_micros ed base;
  Some (rc, ed, e, db).
End Files.

(** ** A simple environment

    Directories of [disk], in which only files count. *)

Definition in_directory (dbname p : bytes) : option bytes :=
  if bool_decide (dbname ++ cstr "/" = take (length dbname + 1) p) then Some (drop (length dbname + 1) p) else None.

Definition disk_dirs : dir_ops disk := DirOps
  (fun e _ => (LDB_OK, e))
  (fun e d => Some (omap (in_directory d) (map fst (map_to_list (dk_files e)) : list bytes)))
  (fun e p => match dk_files e !! p with Some _ => true | None => false end)
  (fun e p => (LDB_OK, Disk (<[p := VFile [] 0]> (dk_files e)) (dk_open e)))
  (fun e p => (LDB_OK, e))
  (fun _ => LDB_IOERR)
  (fun _ => 0)
  (fun e _ => e).
