(* ===== verification/DBRecover.v ===== *)
(** * Opening and closing a database

    Models the recovery of the log files, [ldb_recover], [ldb_open] and
    [ldb_close] of [src/engine/src/db_impl.c].  Until [ldb_open] returns, no
    other thread uses the database. *)

From stdpp Require Import strings gmap.
From S2P Require Import Prelude Coding Status Strutil Comparator Bloom DBFormat Options Skiplist Memtable WriteBatch File LogWriter LogReader Iterator Vector VersionEdit FileList Version Env VersionSet DB DBFiles DBWrite.
#[local] Open Scope Z_scope.

Section Recover.
Context (uc : comparator) {E W : Type} (ops : env_ops E W) (dirs : dir_ops E).
Context {T : Type} (tops : iter_ops T) (tables_of : E -> tables_ops T).
(** What is in the slice [record] before the first record is read. *)
Context (junk : bytes).
Implicit Type db : ldb W.

(** ** A log file *)

(** [report_corruption]: the status is kept if checks are paranoid. *)
Definition report_corruption (paranoid : bool) (rc status : Z) : Z := if paranoid && (rc =? LDB_OK) then status else rc.

Definition reported (paranoid : bool) (rc : Z) (reports : list (Z * Z)) : Z :=
  fold_left (fun rc r => report_corruption paranoid rc r.2) reports rc.

(** The variables of the loop, and what the caller gives by reference. *)
Record log_state := LogState {
  ls_mem : option memtable;
  ls_edit : edit;
  ls_max_sequence : Z;
  ls_compactions : Z;
  ls_save_manifest : bool;
  ls_db : ldb W
}.

(** More turns than a memtable has entries. *)
Definition mem_fuel (mem : memtable) : nat := S (length (sl_nodes (mt_table mem))).

(** The table for a memtable that is full, or left over. *)
Definition dump_mem (e : E) (mem : memtable) (st : log_state) (compactions : Z) : option (Z * log_state * E) :=
  '(rc, ed, e, db) ← ldb_write_level0_table uc ops dirs tops tables_of (mem_fuel mem) e (ls_db st) mem (ls_edit st) None;
  Some (rc, LogState None ed (ls_max_sequence st) compactions true db, e).

(** The body of the loop for a record: the status, and whether the loop goes
    on.  *)
Definition recover_record (e : E) (record : bytes) (st : log_state) : option (Z * bool * log_state * E) :=
  let db := ls_db st in
  if zlen record <? 12 then Some (report_corruption (opt_paranoid_checks (db_options db)) LDB_OK LDB_CORRUPTION, true, st, e)
  else
    icmp ← opt_comparator (db_options db);
    let batch := ldb_batch_set_contents record in
    let mem := match ls_mem st with Some mem => mem | None => ldb_memtable_ref (ldb_memtable_create icmp) end in
    '(rc, mem) ← ldb_batch_insert_into batch mem;
    let rc := ldb_maybe_ignore_error db rc in
    if negb (rc =? LDB_OK) then Some (rc, false, LogState (Some mem) (ls_edit st) (ls_max_sequence st) (ls_compactions st) (ls_save_manifest st) db, e)
    else
      let last_seq := u64 (ldb_batch_sequence batch + ldb_batch_count batch - 1) in
      let max_sequence := if ls_max_sequence st <? last_seq then last_seq else ls_max_sequence st in
      let st := LogState (Some mem) (ls_edit st) max_sequence (ls_compactions st) (ls_save_manifest st) db in
      if opt_write_buffer_size (db_options db) <? ldb_memtable_usage mem then
        '(rc, st, e) ← dump_mem e mem st (ls_compactions st + 1);
        Some (rc, rc =? LDB_OK, st, e)
      else Some (LDB_OK, true, st, e).

(** [rc] is the status when the loop condition is evaluated. *)
Fixpoint recover_records (fuel : nat) (e : E) (reader : reader) (rc : Z) (st : log_state) : option (Z * log_state * E) :=
  match fuel with
  | O => None
  | S fuel =>
    '(record, reader') ← ldb_reader_read_record junk reader;
    let rc := reported (opt_paranoid_checks (db_options (ls_db st))) rc (drop (length (lr_reports reader)) (lr_reports reader')) in
    match record with
    | Some record =>
      if rc =? LDB_OK then
        '(rc, again, st, e) ← recover_record e record st;
        if again : bool then recover_records fuel e reader' rc st else Some (rc, st, e)
      else Some (rc, st, e)
    | None => Some (rc, st, e)
    end
  end.

(** "See if we should keep reusing the last log file." *)
Definition reuse_log (e : E) (fname : bytes) (log_number : Z) (st : log_state) : option (log_state * E) :=
  let db := ls_db st in
  match db_logfile db, db_log db, db_mem db with
  | None, None, None =>
    match env_file_size ops e fname with
    | inl _ => Some (st, e)
    | inr lfile_size =>
      match env_appendfile_create ops e fname with
      | (inl _, e) => Some (st, e)
      | (inr file, e) =>
        icmp ← opt_comparator (db_options db);
        let db := set_db_log db (Some file) log_number (Some (ldb_writer_init file lfile_size)) in
        let mem := match ls_mem st with Some mem => mem | None => ldb_memtable_ref (ldb_memtable_create icmp) end in
        Some (LogState None (ls_edit st) (ls_max_sequence st) (ls_compactions st) (ls_save_manifest st)
                (set_db_mem db (Some mem) (db_imm db) (db_has_imm db)), e)
      end
    end
  | _, _, _ => None
  end.

Definition ldb_recover_log_file (e : E) db (log_number : Z) (last_log save_manifest : bool) (ed : edit) (max_sequence : Z)
    : option (Z * bool * edit * Z * E * ldb W) :=
  match ldb_log_filename LDB_PATH_MAX (db_dbname db) log_number with
  | None => Some (LDB_INVALID, save_manifest, ed, max_sequence, e, db)
  | Some fname =>
    match env_seqfile_create ops e fname with
    | inl rc => Some (ldb_maybe_ignore_error db rc, save_manifest, ed, max_sequence, e, db)
    | inr (data, error) =>
      '(rc, st, e) ← recover_records (S (S (length data))) e (ldb_reader_init data error true true 0) LDB_OK
                       (LogState None ed max_sequence 0 save_manifest db);
      '(st, e) ← (if (rc =? LDB_OK) && opt_reuse_logs (db_options db) && last_log && (ls_compactions st =? 0)
                  then reuse_log e fname log_number st else Some (st, e));
      '(rc, st, e) ← (match ls_mem st with
                      | Some mem => if rc =? LDB_OK then dump_mem e mem st (ls_compactions st) else Some (rc, st, e)
                      | None => Some (rc, st, e)
                      end);
      Some (rc, ls_save_manifest st, ls_edit st, ls_max_sequence st, e, ls_db st)
    end
  end.

(** ** Recovery *)

Definition compare_ascending (x y : Z) : Z := if x <? y then -1 else if x =? y then 0 else 1.

(** The loop over the names in the directory: which files are missing, and the
    logs. *)
Fixpoint logs_loop (filenames : list bytes) (min_log prev_log : Z) (expected : gset Z) (logs : vector Z) : option (gset Z * vector Z) :=
  match filenames with
  | [] => Some (expected, logs)
  | filename :: filenames =>
    match ldb_parse_filename filename with
    | Some (type, number) =>
      let expected := expected ∖ {[number]} in
      match type with
      | LDB_FILE_LOG =>
        if (min_log <=? number) || (number =? prev_log) then
          logs ← ldb_array_push logs number; logs_loop filenames min_log prev_log expected logs
        else logs_loop filenames min_log prev_log expected logs
      | _ => logs_loop filenames min_log prev_log expected logs
      end
    | None => logs_loop filenames min_log prev_log expected logs
    end
  end.

Fixpoint recover_logs (e : E) db (logs : list Z) (save_manifest : bool) (ed : edit) (max_sequence : Z) : option (Z * bool * edit * Z * E * ldb W) :=
  match logs with
  | [] => Some (LDB_OK, save_manifest, ed, max_sequence, e, db)
  | log :: logs =>
    let last_log := match logs with [] => true | _ => false end in
    '(rc, save_manifest, ed, max_sequence, e, db) ← ldb_recover_log_file e db log last_log save_manifest ed max_sequence;
    if negb (rc =? LDB_OK) then Some (rc, save_manifest, ed, max_sequence, e, db)
    else recover_logs e (set_db_versions db (ldb_versions_mark_file_number (db_versions db) log)) logs save_manifest ed max_sequence
  end.

(** The part behind the recovery of the versions. *)
Definition recover_files (e : E) db (save_manifest : bool) (ed : edit) : option (Z * bool * edit * E * ldb W) :=
  match dir_children dirs e (db_dbname db) with
  | None => Some (dir_system_error dirs e, save_manifest, ed, e, db)
  | Some filenames =>
    expected ← ldb_versions_add_files (db_versions db) ∅;
    '(expected, logs) ← logs_loop filenames (vs_log_number (db_versions db)) (vs_prev_log_number (db_versions db)) expected ldb_array_init;
    if negb (bool_decide (expected = ∅)) then Some (LDB_CORRUPTION, save_manifest, ed, e, db)
    else
      logs ← ldb_array_sort compare_ascending logs;
      '(rc, save_manifest, ed, max_sequence, e, db) ← recover_logs e db (vec_items logs) save_manifest ed 0;
      if negb (rc =? LDB_OK) then Some (rc, save_manifest, ed, e, db)
      else
        let vs := db_versions db in
        let vs := if vs_last_sequence vs <? max_sequence then set_last_sequence vs max_sequence else vs in
        Some (LDB_OK, save_manifest, ed, e, set_db_versions db vs)
  end.

(** [CURRENT] is there, or is made: a status if there is nothing to recover. *)
Definition find_current (e : E) db (current : bytes) : option (Z * E) :=
  if negb (dir_file_exists dirs e current) then
    if opt_create_if_missing (db_options db) then ldb_new_db uc ops e db else Some (LDB_INVALID, e)
  else Some (if opt_error_if_exists (db_options db) then LDB_INVALID else LDB_OK, e).

Definition ldb_recover (e : E) db (ed : edit) (save_manifest : bool) : option (Z * bool * edit * E * ldb W) :=
  let e := (dir_create dirs e (db_dbname db)).2 in
  match db_lock db with
  | Some _ => None
  | None =>
    match ldb_lock_filename LDB_PATH_MAX (db_dbname db) with
    | None => Some (LDB_INVALID, save_manifest, ed, e, db)
    | Some path =>
      let '(rc, e) := dir_lock_file dirs e path in
      if negb (rc =? LDB_OK) then Some (rc, save_manifest, ed, e, db)
      else
        let db := set_db_lock db (Some path) in
        match ldb_current_filename LDB_PATH_MAX (db_dbname db) with
        | None => Some (LDB_INVALID, save_manifest, ed, e, db)
        | Some path =>
          '(rc, e) ← find_current e db path;
          if negb (rc =? LDB_OK) then Some (rc, save_manifest, ed, e, db)
          else
            '(rc, save_manifest, vs, e) ← ldb_versions_recover uc ops junk e (db_versions db) save_manifest;
            let db := set_db_versions db vs in
            if negb (rc =? LDB_OK) then Some (rc, save_manifest, ed, e, db)
            else recover_files e db save_manifest ed
        end
    end
  end.

(** ** Closing *)

(** [None]: an assertion fails, or a background compaction has to end first. *)
Definition ldb_destroy_internal (e : E) db : option E :=
  let db := set_db_status db true (db_bg_error db) (db_stats db) in
  if db_background_compaction_scheduled db then None
  else
    let e := match db_lock db with Some path => (dir_unlock_file dirs e path).2 | None => e end in
    e ← ldb_versions_clear ops e (db_versions db);
    let e := match db_logfile db with Some file => env_destroy ops e file | None => e end in
    match db_writers db with
    | [] => if ldb_snaplist_empty (db_snapshots db) then Some e else None
    | _ => None
    end.

Definition ldb_close : E -> ldb W -> option E := ldb_destroy_internal.

(** ** Opening *)

(** A new log and a memtable, unless the last log goes on. *)
Definition open_log (e : E) db (ed : edit) : option (Z * edit * E * ldb W) :=
  match db_mem db with
  | Some _ => Some (LDB_OK, ed, e, db)
  | None =>
    let '(new_log_number, vs) := ldb_versions_new_file_number (db_versions db) in
    let db := set_db_versions db vs in
    path ← ldb_log_filename LDB_PATH_MAX (db_dbname db) new_log_number;
    match env_truncfile_create ops e path with
    | (inl rc, e) => Some (rc, ed, e, db)
    | (inr lfile, e) =>
      icmp ← opt_comparator (db_options db);
      let db := set_db_log db (Some lfile) new_log_number (Some (ldb_writer_init lfile 0)) in
      Some (LDB_OK, ldb_edit_set_log_number ed new_log_number, e,
            set_db_mem db (Some (ldb_memtable_ref (ldb_memtable_create icmp))) (db_imm db) (db_has_imm db))
    end
  end.

(** With the database locked: the status and the database as it is then. *)
Definition open_locked (e : E) db : option (Z * E * ldb W) :=
  '(rc, save_manifest, ed, e, db) ← ldb_recover e db ldb_edit_init false;
  '(rc, ed, e, db) ← (if rc =? LDB_OK then open_log e db ed else Some (rc, ed, e, db));
  '(rc, e, db) ← (if (rc =? LDB_OK) && (save_manifest : bool) then
      let ed := ldb_edit_set_log_number (ldb_edit_set_prev_log_number ed 0) (db_logfile_number db) in
      '(rc, _, vs, e) ← ldb_versions_apply uc ops e (db_versions db) ed; Some (rc, e, set_db_versions db vs)
    else Some (rc, e, db));
  if rc =? LDB_OK then
    e ← ldb_remove_obsolete_files ops dirs e db;
    db ← ldb_maybe_schedule_compaction db;
    Some (rc, e, db)
  else Some (rc, e, db).

(** [path]: the absolute name of the directory, [None] if it is too long.  The
    status, and the database if it is [LDB_OK]. *)
Definition ldb_open (e : E) (path : option bytes) (options : option dbopt) : option (Z * option (ldb W) * E) :=
  match options with
  | None => Some (LDB_INVALID, None, e)
  | Some options =>
    if match opt_filter_policy options with Some policy => 64 <? zlen (cstr (bloom_name policy)) | None => false end then Some (LDB_INVALID, None, e)
    else
      match path with
      | None => Some (LDB_INVALID, None, e)
      | Some path =>
        '(rc, e, db) ← open_locked e (ldb_create path options);
        if rc =? LDB_OK then
          match db_mem db with Some _ => Some (rc, Some db, e) | None => None end
        else e ← ldb_destroy_internal e db; Some (rc, None, e)
      end
  end.
End Recover.
