(* ===== verification/LogRecovery.v ===== *)
(** * Recovering the log files

    Replaying a log that was cut by a crash: what the recovered memtables and the
    tables they were dumped into hold. *)

From stdpp Require Import strings sorting gmap.
From S2P Require Import Prelude Coding Status Strutil Comparator Bloom DBFormat Options Skiplist Memtable WriteBatch File LogWriter LogReader Iterator BlockBuilder FilterBlock Format TableBuilder Table Vector VersionEdit FileList Version Env VersionSet LogFile Recovery DBIter MemIter BuildTable LRU LRUCorrect LRUCache TableCache TableCacheCorrect DB DBWrite DBFiles DBRecover WriteGroups DBWriters.
#[local] Open Scope Z_scope.

(** The pairs of sorted versions. *)
Definition entry_pairs (vs : list entry) : pairs := map (fun e => (ikey e.1, e.2)) vs.

Lemma pairs_cost_perm xs ys : xs ≡ₚ ys -> pairs_cost xs = pairs_cost ys.
Proof. unfold pairs_cost. induction 1; cbn; lia. Qed.

Lemma total_perm c xs ys : xs ≡ₚ ys -> total_ok c xs -> total_ok c ys.
Proof. intros H. unfold total_ok. rewrite (pairs_cost_perm _ _ H). unfold zlen. by rewrite (Permutation_length H). Qed.

(** A table file of level 0 with the given entries. *)
Definition table_of (udom : bytes -> Prop) (uc : comparator) (options : dbopt) (dbname : bytes) (fs : fsview) (number : Z) (me : meta_entry) (h : list entry) : Prop :=
  exists vs v d p, vs = v :: tail vs /\ vs ≡ₚ h /\ Forall (entry_wf udom) vs /\ sorted_pairs (ldb_ikc_init uc) (entry_pairs vs) /\
    ldb_table_filename LDB_PATH_MAX dbname number = Some p /\ fs !! p = Some (VFile d (zlen d)) /\
    table_bytes (ikey_dom udom) (ldb_ikc_init uc) options (entry_pairs vs) d /\
    me = meta_entry_create 0 number (zlen d) (ikey v.1) (ikey (default v (list.last vs)).1).

Section Level0.
Context (udom : bytes -> Prop) (uc : comparator) `{!ComparatorLaws udom uc}.
Hypothesis short : forall u, udom u -> zlen u < 2 ^ 32 - 8.
Context {E W : Type} (ops : env_ops E W) (dirs : dir_ops E) (rep : E -> fsview -> Prop) (names : E -> W -> bytes -> Prop) `{!EnvLaws ops rep names (fun _ => True)}.
Context `{!ShortSeparators (ikey_dom udom) (ldb_ikc_init uc)} (options : dbopt) (c : Z) (ook : options_ok (ikey_dom udom) (ldb_ikc_init uc) options c).
Context {T : Type} (tops : iter_ops T) (tables_of : E -> tables_ops T) (dbname : bytes).
Context `{!TableAccess rep tops tables_of dbname (ikey_dom udom) (ldb_ikc_init uc) options c}.
Implicit Type db : ldb W.

Lemma mem_table_ok e fs mem h meta fname : mt_holds udom uc mem h -> total_ok c (entry_pairs h) -> rep e fs -> 0 <= fm_number meta < 2 ^ 64 ->
  fm_smallest meta = [] -> fm_largest meta = [] -> ldb_table_filename LDB_PATH_MAX dbname (fm_number meta) = Some fname ->
  exists meta' e', level0_build ops tops tables_of (mem_fuel mem) e dbname options mem meta = Some (LDB_OK, meta', e') /\
    (forall w q, names e w q -> q <> fname -> names e' w q) /\ fm_number meta' = fm_number meta /\
    match h with
    | [] => fm_file_size meta' = 0 /\ rep e' (delete fname fs)
    | _ => exists d, rep e' (<[fname := VFile d (zlen d)]> fs) /\ fm_file_size meta' = zlen d /\ 0 < zlen d < 2 ^ 32 /\
        table_of udom uc options dbname (<[fname := VFile d (zlen d)]> fs) (fm_number meta)
          (meta_entry_create 0 (fm_number meta) (zlen d) (fm_smallest meta') (fm_largest meta')) h
    end.
Proof.
  intros Hm Ht R Hnum Hs0 Hl0 Hfn. destruct (mt_versions udom uc mem h Hm) as (vs & lv & Hp & Rs & He & Hwf & Hsort).
  destruct Hm as (_ & Hc & Hc' & _). pose proof (memiter_laws udom uc short mem vs lv Hc' Rs He Hwf) as Laws. fold (entry_pairs vs) in *.
  assert (total_ok c (entry_pairs vs)) as Ht' by (eapply total_perm; [|exact Ht]; apply Permutation_map; by symmetry).
  assert (Forall (fun kv => ikey_dom udom kv.1) (entry_pairs vs)) as Hd.
  { unfold entry_pairs. apply List.Forall_map. eapply List.Forall_impl; [|exact Hwf]. intros en Hen. cbn.
    apply ikey_in_dom; [by eapply entry_pkey_wf|apply Hen]. }
  assert (length (entry_pairs vs) < mem_fuel mem)%nat as Hf.
  { unfold entry_pairs, mem_fuel. rewrite length_map. assert (length vs = length (lv 0%nat)) as ->.
    { unfold entries in He. apply (f_equal length) in He. by rewrite !length_map in He. }
    apply Nat.lt_succ_r. rewrite <- (length_seq (length (sl_nodes (mt_table mem))) 0). apply NoDup_incl_length.
    - pose proof (rep_nodup _ _ _ Rs) as N. apply list.NoDup_cons in N as [_ N]. by apply NoDup_ListNoDup.
    - intros n Hn. apply in_seq. split; [lia|]. apply (rep_entries _ _ _ Rs). by apply list_elem_of_In. }
  pose proof ook as [Hoc Hoi Hc0 Hop Ho8].
  destruct (build_table_correct_file ops rep names (ikey_dom udom) (ldb_ikc_init uc) options c Hoc Hc0 Hop (ldb_memiter_table mem) (entry_pairs vs) (node_rep lv) tops tables_of dbname
    Ht' Hsort Hd (mem_fuel mem) e fs fname None None meta Hnum Hf R eq_refl Hfn) as (meta' & iter' & e' & E1 & _ & K & Hres).
  assert (fm_number meta' = fm_number meta) as En .
  { destruct (entry_pairs vs) as [|kv rest]; cbv iota in Hres; [destruct Hres as [Em _]; by rewrite Em|destruct Hres as (d & _ & _ & Em); by rewrite Em]. }
  unfold level0_build. rewrite E1, bind_some. exists meta', e'. split; [done|]. split; [done|]. split; [done|].
  destruct vs as [|v vs]; cbn [entry_pairs map] in Hres.
  - assert (h = []) as -> by (by apply Permutation_nil). destruct Hres as [-> Hr]. done.
  - destruct Hres as (d & Htb & Hr & ->). destruct h as [|e0 h]; [by apply Permutation_sym, Permutation_nil in Hp|].
    pose proof (table_bytes_size _ _ _ _ _ Htb) as Hz. exists d. split; [done|]. split; [done|]. split; [done|].
    exists (v :: vs), v, d, fname. do 4 (split; [done|]). split; [done|]. split; [apply lookup_insert_eq|]. split; [done|].
    cbn [set_meta_size set_meta_range fm_smallest fm_largest fst]. f_equal. fold (entry_pairs vs).
    destruct vs as [|w vs _] using rev_ind; [done|]. unfold entry_pairs. rewrite map_app. cbn [map]. rewrite last_snoc.
    change (v :: vs ++ [w]) with ((v :: vs) ++ [w]). by rewrite last_snoc.
Qed.

(** While a log is recovered only numbers, statistics and the set of pending
    outputs of the database change. *)
Record rec_db (db0 db : ldb W) (next : Z) : Prop := {
  rd_fixed : db_options db = db_options db0 /\ db_dbname db = db_dbname db0 /\ db_mem db = db_mem db0 /\ db_imm db = db_imm db0 /\
    db_has_imm db = db_has_imm db0 /\ db_logfile db = db_logfile db0 /\ db_logfile_number db = db_logfile_number db0 /\ db_log db = db_log db0;
  rd_versions : db_versions db = set_next_file (db_versions db0) next;
  rd_stats : is_Some (db_stats db !! 0%nat)
}.

Definition with_files (ed : edit) (added : list meta_entry) : edit :=
  Edit (ed_comparator ed) (ed_log_number ed) (ed_prev_log_number ed) (ed_next_file_number ed) (ed_last_sequence ed)
    (ed_compact_pointers ed) (ed_deleted_files ed) (ed_new_files ed ++ added).

Lemma with_files_nil ed : with_files ed [] = ed.
Proof. destruct ed. unfold with_files. cbn. by rewrite app_nil_r. Qed.

Lemma with_files_app ed xs ys : with_files (with_files ed xs) ys = with_files ed (xs ++ ys).
Proof. unfold with_files. cbn. by rewrite app_assoc. Qed.

Lemma dump_mem_ok e fs mem h st k db0 next fname : rec_db db0 (ls_db st) next -> db_options db0 = options -> db_dbname db0 = dbname ->
  mt_holds udom uc mem h -> total_ok c (entry_pairs h) -> rep e fs -> 0 <= next -> next + 1 < 2 ^ 64 ->
  ldb_table_filename LDB_PATH_MAX dbname next = Some fname ->
  exists e' fs' st' added, dump_mem uc ops dirs tops tables_of e mem st k = Some (LDB_OK, st', e') /\ rep e' fs' /\
    (forall p, p <> fname -> fs' !! p = fs !! p) /\ (forall w q, names e w q -> q <> fname -> names e' w q) /\
    rec_db db0 (ls_db st') (next + 1) /\ ls_mem st' = None /\ ls_compactions st' = k /\ ls_save_manifest st' = true /\
    ls_max_sequence st' = ls_max_sequence st /\ ls_edit st' = with_files (ls_edit st) added /\
    match h with [] => added = [] | _ => exists me, added = [me] /\ table_of udom uc options dbname fs' next me h end.
Proof.
  intros [(F1 & F2 & F3 & F4 & F5 & F6 & F7 & F8) Hv [s0 Hst]] Eo Ed Hm Ht R H0 Hnext Hfn.
  unfold dump_mem, ldb_write_level0_table, level0_begin, ldb_versions_new_file_number. rewrite Hv. cbn [set_next_file vs_next_file_number].
  set (meta := set_meta_number ldb_filemeta_init next). cbn [set_db_pending set_db_versions db_dbname db_options]. rewrite F1, F2, Eo, Ed.
  destruct (mem_table_ok e fs mem h meta fname Hm Ht R) as (meta' & e' & E1 & K & En & Hres); [cbn; lia|done|done|exact Hfn|].
  change (fm_number meta) with next in *. rewrite E1, bind_some. unfold level0_end. change (LDB_OK =? LDB_OK) with true. cbn [andb].
  change (set_next_file (set_next_file (db_versions db0) next) (u64 (next + 1))) with (set_next_file (db_versions db0) (u64 (next + 1))).
  rewrite (u64_small (next + 1)) by lia. rewrite En. cbn [set_db_pending db_pending_outputs].
  match goal with |- context [add_stats ?d] => set (db1 := d) end.
  assert (rec_db db0 db1 (next + 1)) as Hdb1 by (split; [done|done|by exists s0]).
  assert (db_stats db1 !! 0%nat = Some s0) as Hst1 by exact Hst.
  assert (forall stats, exists db', add_stats db1 0 stats = Some db' /\ rec_db db0 db' (next + 1)) as AnyStats.
  { intros stats. unfold add_stats. change (Z.to_nat 0) with 0%nat. rewrite Hst1, bind_some. eexists. split; [reflexivity|].
    destruct Hdb1 as [G1 G2 _]. split; [done|done|]. cbn. apply list_lookup_insert_is_Some. eauto. }
  clearbody db1. destruct h as [|e0 h].
  - destruct Hres as [Hz R']. rewrite Hz. change (0 <? 0) with false. cbv iota. rewrite bind_some.
    match goal with |- context [add_stats db1 0 ?x] => destruct (AnyStats x) as (db' & -> & Hdb') end.
    rewrite !bind_some. exists e', (delete fname fs), (LogState None (ls_edit st) (ls_max_sequence st) k true db'), [].
    split; [done|]. split; [done|]. split; [intros p Hp; by apply lookup_delete_ne|]. split; [done|]. do 5 (split; [done|]). cbn. by rewrite with_files_nil.
  - destruct Hres as (d & R' & Hz & Hd & Ht'). rewrite Hz, (proj2 (Z.ltb_lt 0 (zlen d))) by lia. cbv iota. rewrite !bind_some.
    match goal with |- context [add_stats db1 0 ?x] => destruct (AnyStats x) as (db' & -> & Hdb') end.
    rewrite !bind_some. eexists e', _, (LogState None _ (ls_max_sequence st) k true db'), [_].
    split; [reflexivity|]. split; [exact R'|]. split; [intros p Hp; by apply lookup_insert_ne|]. split; [done|]. do 5 (split; [done|]). split; [reflexivity|].
    eexists. split; [reflexivity|]. exact Ht'.
Qed.

(** ** The records of a log *)

(** The tables that chunks of groups went into, numbered from [n0] on; a chunk
    without entries uses up a number. *)
Inductive dumps (fs : fsview) (n0 : Z) : list meta_entry -> list (list group) -> Prop :=
| dumps_nil : dumps fs n0 [] []
| dumps_empty added chunks ch : dumps fs n0 added chunks -> entries_of ch = [] -> dumps fs n0 added (chunks ++ [ch])
| dumps_table added chunks ch me : dumps fs n0 added chunks -> entries_of ch <> [] ->
    table_of udom uc options dbname fs (n0 + zlen chunks) me (entries_of ch) -> dumps fs n0 (added ++ [me]) (chunks ++ [ch]).

Lemma table_of_ext fs fs' n me h : table_of udom uc options dbname fs n me h ->
  (forall p, ldb_table_filename LDB_PATH_MAX dbname n = Some p -> fs' !! p = fs !! p) -> table_of udom uc options dbname fs' n me h.
Proof. intros (vs & v & d & p & H1 & H2 & H3 & H4 & Hp & Hf & H5 & H6) He. exists vs, v, d, p. rewrite (He p Hp). done. Qed.

Lemma dumps_ext fs fs' n0 added chunks : dumps fs n0 added chunks ->
  (forall k p, n0 <= k < n0 + zlen chunks -> ldb_table_filename LDB_PATH_MAX dbname k = Some p -> fs' !! p = fs !! p) -> dumps fs' n0 added chunks.
Proof.
  induction 1 as [|added chunks ch _ IH Hc|added chunks ch me _ IH Hc Ht]; intros He; [constructor| |];
    (rewrite zlen_app, zlen_cons, zlen_nil in He; pose proof (zlen_nonneg chunks)).
  - apply dumps_empty; [|done]. apply IH. intros k p Hk. apply He. lia.
  - apply dumps_table; [|done|]; [apply IH; intros k p Hk; apply He; lia|]. eapply table_of_ext; [exact Ht|]. intros p. apply He. lia.
Qed.

Lemma table_filename_inj size name n m p : 0 < n < 2 ^ 64 -> 0 < m < 2 ^ 64 ->
  ldb_table_filename size name n = Some p -> ldb_table_filename size name m = Some p -> n = m.
Proof.
  intros Hn Hm En Em. destruct (parse_made_filename size name n Hn) as (_ & Pn & _). destruct (parse_made_filename size name m Hm) as (_ & Pm & _).
  specialize (Pn p En). specialize (Pm p Em). congruence.
Qed.

(** The variables when the groups of [chunks] are in tables and those of [cur]
    in the memtable; [from] is the next sequence number. *)
Record log_state_ok (db0 : ldb W) (ed0 : edit) (max0 n0 : Z) (save0 : bool) (fs : fsview) (st : log_state)
    (added : list meta_entry) (chunks : list (list group)) (cur : list group) (from : Z) : Prop := {
  so_db : rec_db db0 (ls_db st) (n0 + zlen chunks);
  so_edit : ls_edit st = with_files ed0 added;
  so_dumps : dumps fs n0 added chunks;
  so_mem : match ls_mem st with Some mem => mt_holds udom uc mem (entries_of cur) /\ cur <> [] | None => cur = [] end;
  so_before : before from (entries_of cur);
  so_max : ls_max_sequence st = match concat chunks ++ cur with [] => max0 | _ => Z.max max0 (from - 1) end;
  so_compactions : ls_compactions st = zlen chunks;
  so_save : ls_save_manifest st = save0 || negb (bool_decide (chunks = []))
}.

Definition group_ok (g : group) : Prop := Forall (update_ok udom) (g_updates g) /\ zlen (g_updates g) < 2 ^ 31.

(** Any part of the groups fits into a table. *)
Definition groups_fit (gs : list group) : Prop :=
  forall pre ch post, gs = pre ++ ch ++ post -> total_ok c (entry_pairs (entries_of ch)).

(** What stays of the environment: other files and open files. *)
Definition only_tables (e : E) (fs : fsview) (e' : E) (fs' : fsview) (n n' : Z) : Prop :=
  (forall p, (forall k, n <= k < n' -> ldb_table_filename LDB_PATH_MAX dbname k <> Some p) -> fs' !! p = fs !! p) /\
  (forall w q, names e w q -> (forall k, n <= k < n' -> ldb_table_filename LDB_PATH_MAX dbname k <> Some q) -> names e' w q).

Lemma record_size g : 12 <= zlen (record_of g).
Proof. unfold record_of, batch_bytes. rewrite app_assoc, zlen_app, zlen_header. zlia. Qed.

Section Loop.
Context (db0 : ldb W) (ed0 : edit) (max0 n0 : Z) (save0 : bool).
Hypothesis db0_options : db_options db0 = options.
Hypothesis db0_dbname : db_dbname db0 = dbname.
Hypothesis dbname_short : forall n, 0 < n < 2 ^ 64 -> is_Some (ldb_table_filename LDB_PATH_MAX dbname n).
Hypothesis n0_pos : 0 < n0.
#[local] Abbreviation state_ok := (log_state_ok db0 ed0 max0 n0 save0).

(** The memtable is dumped. *)
Lemma dump_ok e fs st added chunks cur from mem k : rep e fs -> state_ok fs st added chunks cur from -> ls_mem st = Some mem ->
  total_ok c (entry_pairs (entries_of cur)) -> n0 + zlen chunks + 1 < 2 ^ 64 ->
  exists e' fs' st' added', dump_mem uc ops dirs tops tables_of e mem st k = Some (LDB_OK, st', e') /\ rep e' fs' /\
    only_tables e fs e' fs' (n0 + zlen chunks) (n0 + zlen chunks + 1) /\
    (k = zlen (chunks ++ [cur]) -> state_ok fs' st' added' (chunks ++ [cur]) [] from) /\
    rec_db db0 (ls_db st') (n0 + zlen chunks + 1) /\ ls_edit st' = with_files ed0 added' /\ dumps fs' n0 added' (chunks ++ [cur]) /\
    ls_max_sequence st' = ls_max_sequence st /\ ls_save_manifest st' = true /\ ls_mem st' = None.
Proof.
  intros R [Hdb Hed Hdu Hm Hb Hmax Hk Hs] Em Ht Hn. rewrite Em in Hm. destruct Hm as [Hm _]. pose proof (zlen_nonneg chunks).
  destruct (dbname_short (n0 + zlen chunks) ltac:(lia)) as [fname Hfn].
  destruct (dump_mem_ok e fs mem (entries_of cur) st k db0 (n0 + zlen chunks) fname Hdb db0_options db0_dbname Hm Ht R ltac:(lia) Hn Hfn)
    as (e' & fs' & st' & new & E1 & R' & Ff & Fn & Hdb' & Em' & Ek & Es & Emax & Ee & Hnew).
  exists e', fs', st', (added ++ new). split; [done|]. split; [done|].
  assert (dumps fs' n0 (added ++ new) (chunks ++ [cur])) as Hdu'.
  { assert (dumps fs' n0 added chunks) as Hd0.
    { eapply dumps_ext; [exact Hdu|]. intros j p Hj Hp. apply Ff. intros ->. apply (table_filename_inj _ _ j (n0 + zlen chunks)) in Hp; [lia|lia|lia|done]. }
    destruct (entries_of cur) as [|e0 h] eqn:Eh; [subst new; rewrite app_nil_r; by apply dumps_empty|].
    destruct Hnew as (me & -> & Hme). apply dumps_table; [done|by rewrite Eh|by rewrite Eh]. }
  assert (ls_edit st' = with_files ed0 (added ++ new)) as Ee' by (by rewrite Ee, Hed, with_files_app).
  split; [|split; [|done]].
  - split.
    + intros p Hp. apply Ff. intros ->. by apply (Hp (n0 + zlen chunks) ltac:(lia)).
    + intros w q Hw Hq. apply Fn; [done|]. intros ->. by apply (Hq (n0 + zlen chunks) ltac:(lia)).
  - intros ->. split; [| |done|by rewrite Em'|constructor| |done|].
    + by rewrite zlen_app, zlen_cons, zlen_nil, Z.add_0_r, Z.add_assoc.
    + done.
    + rewrite Emax, Hmax, app_nil_r, concat_app. cbn [concat]. by rewrite app_nil_r.
    + rewrite Es. rewrite bool_decide_eq_false_2 by (by destruct chunks). cbn. by rewrite orb_true_r.
Qed.

Lemma only_tables_refl e fs n : only_tables e fs e fs n n.
Proof. by split. Qed.

Lemma only_tables_trans e1 fs1 e2 fs2 e3 fs3 n1 n2 n3 : n1 <= n2 -> n2 <= n3 ->
  only_tables e1 fs1 e2 fs2 n1 n2 -> only_tables e2 fs2 e3 fs3 n2 n3 -> only_tables e1 fs1 e3 fs3 n1 n3.
Proof.
  intros H1 H2 [F1 N1] [F2 N2]. split.
  - intros p Hp. rewrite F2, F1; [done| |]; intros k Hk; apply Hp; lia.
  - intros w q Hw Hq. apply N2; [apply N1; [done|]|]; intros k Hk; apply Hq; lia.
Qed.

(** One record. *)
Lemma recover_record_ok e fs st added chunks cur from g : rep e fs -> state_ok fs st added chunks cur from -> group_ok g -> g_first g = from ->
  1 <= from -> from + zlen (g_updates g) <= LDB_MAX_SEQUENCE + 1 -> total_ok c (entry_pairs (entries_of (cur ++ [g]))) -> n0 + zlen chunks + 1 < 2 ^ 64 ->
  exists e' fs' st' added' chunks' cur', recover_record uc ops dirs tops tables_of e (record_of g) st = Some (LDB_OK, true, st', e') /\ rep e' fs' /\
    only_tables e fs e' fs' (n0 + zlen chunks) (n0 + zlen chunks') /\ zlen chunks <= zlen chunks' <= zlen chunks + 1 /\
    state_ok fs' st' added' chunks' cur' (from + zlen (g_updates g)) /\ concat chunks' ++ cur' = concat chunks ++ cur ++ [g] /\
    exists pre, cur ++ [g] = pre ++ cur'.
Proof.
  intros R [Hdb Hed Hdu Hm Hb Hmax Hk Hs] [Hu Hfew] <- H1 Hseq Ht Hn.
  assert (opt_comparator (db_options (ls_db st)) = Some (ldb_ikc_init uc)) as Hcmp.
  { destruct (rd_fixed _ _ _ Hdb) as [-> _]. rewrite db0_options. apply ook. }
  unfold recover_record. pose proof (record_size g). rewrite (proj2 (Z.ltb_ge (zlen (record_of g)) 12)) by done. rewrite Hcmp, bind_some.
  set (mem := match ls_mem st with Some mem => mem | None => ldb_memtable_ref (ldb_memtable_create (ldb_ikc_init uc)) end).
  assert (mt_holds udom uc mem (entries_of cur)) as Hm0.
  { unfold mem. destruct (ls_mem st) as [m|]; [apply Hm|]. rewrite Hm. exact (mt_holds_create udom uc). }
  unfold ldb_batch_set_contents. pose proof (zlen_nonneg (g_updates g)) as H0. change LDB_MAX_SEQUENCE with (2 ^ 56 - 1) in Hseq.
  destruct (insert_group udom uc mem (entries_of cur) (g_first g) (g_updates g) Hm0 Hb Hu Hfew) as (mem' & Ei & Hm' & Hb');
    [lia|change LDB_MAX_SEQUENCE with (2 ^ 56 - 1); lia|].
  rewrite <- entries_snoc in Hm', Hb'. fold (record_of g) in Ei. rewrite Ei, bind_some.
  change (ldb_maybe_ignore_error (ls_db st) LDB_OK) with LDB_OK. change (LDB_OK =? LDB_OK) with true. cbn [negb].
  set (from' := g_first g + zlen (g_updates g)) in *.
  assert (u64 (ldb_batch_sequence (record_of g) + ldb_batch_count (record_of g) - 1) = from' - 1) as ->
    by (unfold record_of; rewrite batch_sequence_bytes, batch_count_bytes, u64_small by lia; done).
  set (mx := if ls_max_sequence st <? from' - 1 then from' - 1 else ls_max_sequence st).
  set (st1 := LogState (Some mem') (ls_edit st) mx (ls_compactions st) (ls_save_manifest st) (ls_db st)).
  assert (state_ok fs st1 added chunks (cur ++ [g]) from') as Hst1.
  { split; cbn [st1 ls_db ls_edit ls_mem ls_max_sequence ls_compactions ls_save_manifest]; try done.
    - split; [done|]. by destruct cur.
    - assert (concat chunks ++ cur ++ [g] <> []) as Hne by (rewrite app_assoc; by destruct (concat chunks ++ cur)).
      destruct (concat chunks ++ cur ++ [g]) eqn:Eq; [done|]. unfold mx. rewrite Hmax.
      destruct (concat chunks ++ cur); [destruct (Z.ltb_spec max0 (from' - 1))|destruct (Z.ltb_spec (Z.max max0 (g_first g - 1)) (from' - 1))]; lia. }
  destruct (_ <? ldb_memtable_usage mem').
  - destruct (dump_ok e fs st1 added chunks (cur ++ [g]) from' mem' (ls_compactions st + 1) R Hst1 eq_refl Ht Hn)
      as (e' & fs' & st' & added' & E1 & R' & Hot & Hst' & _).
    fold mx st1. change (ls_compactions st1) with (ls_compactions st). rewrite E1, bind_some. change (LDB_OK =? LDB_OK) with true.
    exists e', fs', st', added', (chunks ++ [cur ++ [g]]), []. rewrite zlen_app, zlen_cons, zlen_nil in *. rewrite Z.add_0_r in *. rewrite Z.add_assoc.
    split; [done|]. split; [done|]. split; [done|]. split; [lia|]. split; [apply Hst'; lia|]. rewrite concat_app. cbn [concat]. rewrite !app_nil_r. split; [done|]. exists (cur ++ [g]). by rewrite app_nil_r.
  - exists e, fs, st1, added, chunks, (cur ++ [g]). split; [done|]. split; [done|]. split; [apply only_tables_refl|]. split; [lia|]. split; [done|]. split; [done|]. by exists [].
Qed.

(** The loop over the records. *)
Lemma recover_records_ok junk gs : forall fuel n lr lr' e fs st added chunks cur from to,
  read_all n junk lr = Some (map record_of gs, lr') -> lr_reports lr' = [] -> (n <= fuel)%nat ->
  rep e fs -> state_ok fs st added chunks cur from -> Forall group_ok gs -> contiguous from gs to -> 1 <= from -> to <= LDB_MAX_SEQUENCE + 1 ->
  groups_fit (cur ++ gs) -> n0 + zlen chunks + zlen gs < 2 ^ 64 ->
  exists e' fs' st' added' chunks' cur', recover_records uc ops dirs tops tables_of junk fuel e lr LDB_OK st = Some (LDB_OK, st', e') /\ rep e' fs' /\
    only_tables e fs e' fs' (n0 + zlen chunks) (n0 + zlen chunks') /\ zlen chunks <= zlen chunks' <= zlen chunks + zlen gs /\
    state_ok fs' st' added' chunks' cur' to /\ concat chunks' ++ cur' = concat chunks ++ cur ++ gs /\ (exists pre, cur ++ gs = pre ++ cur').
Proof.
  induction gs as [|g gs IH]; intros fuel n lr lr' e fs st added chunks cur from to Er Hr Hf R Hst Hg Hc Hfrom Hto Hfit Hn;
    (destruct n as [|n]; [done|]); (destruct fuel as [|fuel]; [lia|]); cbn [read_all recover_records map] in *;
    (destruct (ldb_reader_read_record junk lr) as [[r lr1]|] eqn:E1; [|done]); pose proof (read_record_grows _ _ _ _ E1) as G1; cbn [mbind option_bind] in *.
  - destruct r as [r|]; [destruct (read_all n junk lr1) as [[? ?]|]; done|]. injection Er as <-. cbn [contiguous] in Hc. subst to.
    rewrite Hr, (no_reports lr lr1 G1 Hr). cbn [reported length drop fold_left]. rewrite !app_nil_r.
    exists e, fs, st, added, chunks, cur. split; [done|]. split; [done|]. split; [apply only_tables_refl|]. split; [rewrite zlen_nil; lia|].
    split; [done|]. split; [done|]. by exists [].
  - destruct r as [r|]; [|done]. destruct (read_all n junk lr1) as [[rs lr2]|] eqn:E2; [|done]. injection Er as -> -> ->.
    pose proof (read_all_grows _ _ _ _ _ E2) as G2. pose proof (no_reports lr1 lr' G2 Hr) as Hr1.
    rewrite Hr1, (no_reports lr lr1 G1 Hr1). cbn [reported length drop fold_left]. change (LDB_OK =? LDB_OK) with true. cbv iota.
    apply Forall_cons_iff in Hg as [Hg Hgs]. cbn [contiguous] in Hc. destruct Hc as [Hfirst Hc]. rewrite zlen_cons in Hn. pose proof (zlen_nonneg gs). pose proof (zlen_nonneg (g_updates g)).
    assert (forall from gs to, contiguous from gs to -> from <= to) as Le.
    { clear. intros from gs to. revert from. induction gs as [|x gs IH]; intros from; cbn [contiguous]; [lia|]. intros [_ H]. apply IH in H. pose proof (zlen_nonneg (g_updates x)). lia. }
    apply Le in Hc as Hle.
    assert (total_ok c (entry_pairs (entries_of (cur ++ [g])))) as Ht.
    { apply (Hfit [] (cur ++ [g]) gs). by rewrite <- app_assoc. }
    destruct (recover_record_ok e fs st added chunks cur from g R Hst Hg Hfirst Hfrom ltac:(lia) Ht ltac:(lia))
      as (e1 & fs1 & st1 & added1 & chunks1 & cur1 & E3 & R1 & O1 & L1 & S1 & C1 & pre & Epre).
    rewrite E3, bind_some.
    destruct (IH fuel n lr1 lr' e1 fs1 st1 added1 chunks1 cur1 (from + zlen (g_updates g)) to E2 Hr ltac:(lia) R1 S1 Hgs Hc ltac:(lia) Hto)
      as (e2 & fs2 & st2 & added2 & chunks2 & cur2 & E4 & R2 & O2 & L2 & S2 & C2 & pre2 & Epre2).
    { intros p1 ch p2 Ep. apply (Hfit (pre ++ p1) ch p2). change (g :: gs) with ([g] ++ gs). rewrite app_assoc, Epre, <- !app_assoc. by rewrite <- Ep. }
    { lia. }
    exists e2, fs2, st2, added2, chunks2, cur2. split; [exact E4|]. split; [done|]. split; [eapply only_tables_trans; [| |exact O1|exact O2]; lia|].
    split; [rewrite zlen_cons; lia|]. split; [done|]. split.
    + rewrite C2. rewrite app_assoc, C1. by rewrite <- !app_assoc.
    + exists (pre ++ pre2). change (g :: gs) with ([g] ++ gs). rewrite app_assoc, Epre, <- !app_assoc. by rewrite Epre2.
Qed.

Lemma contiguous_take gs : forall from to m, contiguous from gs to -> exists mid, contiguous from (take m gs) mid /\ from <= mid <= to.
Proof.
  induction gs as [|g gs IH]; intros from to m; cbn [contiguous].
  - intros ->. exists to. rewrite take_nil. split; [done|lia].
  - intros [Hg Hc]. pose proof (zlen_nonneg (g_updates g)). destruct m as [|m].
    + destruct (IH _ _ 0%nat Hc) as (mid & _ & Hm). exists from. split; [done|lia].
    + destruct (IH _ _ m Hc) as (mid & Hmid & Hm). exists mid. split; [by split|lia].
Qed.

(** What a recovered log left: tables of the groups, or, if the log goes on,
    a memtable with them. *)
Definition log_recovered (e' : E) (fs' : fsview) (db' : ldb W) (fname : bytes) (number : Z) (size : Z) (added : list meta_entry) (chunks : list (list group))
    (gs : list group) (reused : bool) : Prop :=
  dumps fs' n0 added chunks /\
  if reused then
    chunks = [] /\ exists file mem, db_logfile db' = Some file /\ names e' file fname /\ db_log db' = Some (ldb_writer_init file size) /\
      db_logfile_number db' = number /\ db_mem db' = Some mem /\ mt_holds udom uc mem (entries_of gs)
  else concat chunks = gs /\ rec_db db0 db' (n0 + zlen chunks).

Lemma recover_log_ok junk e fs number fname f gs from to n last_log :
  rep e fs -> ldb_log_filename LDB_PATH_MAX dbname number = Some fname -> fs !! fname = Some f -> vf_data f = ztake n (log_file (map record_of gs)) -> 0 <= n ->
  vs_next_file_number (db_versions db0) = n0 -> is_Some (db_stats db0 !! 0%nat) ->
  (last_log = true -> db_logfile db0 = None /\ db_log db0 = None /\ db_mem db0 = None) -> (forall k, 0 < k < 2 ^ 64 -> ldb_table_filename LDB_PATH_MAX dbname k <> Some fname) ->
  Forall group_ok gs -> contiguous from gs to -> 1 <= from -> to <= LDB_MAX_SEQUENCE + 1 -> groups_fit gs -> n0 + zlen gs + 1 < 2 ^ 64 ->
  exists m mid added chunks e' fs' db' save' max' reused, (m <= length gs)%nat /\
    (forall j, (j <= length gs)%nat -> zlen (log_file (map record_of (take j gs))) <= n -> (j <= m)%nat) /\ contiguous from (take m gs) mid /\
    ldb_recover_log_file uc ops dirs tops tables_of junk e db0 number last_log save0 ed0 max0 = Some (LDB_OK, save', with_files ed0 added, max', e', db') /\
    rep e' fs' /\ only_tables e fs e' fs' n0 (n0 + zlen chunks) /\ zlen chunks <= zlen gs + 1 /\
    log_recovered e' fs' db' fname number (zlen (vf_data f)) added chunks (take m gs) reused /\ reused = opt_reuse_logs options && last_log && bool_decide (chunks = []) /\
    max' = (match take m gs with [] => max0 | _ => Z.max max0 (mid - 1) end) /\ save' = save0 || negb (bool_decide (chunks = [])).
Proof.
  intros R Hfn Hf Hd Hn Hnext Hstats Hidle Hnt Hg Hc Hfrom Hto Hfit Hn0.
  destruct (read_cut_records junk (map record_of gs) n Hn) as (m & lr' & Hm1 & Hm2 & Erd & Hrep). rewrite length_map in Hm1, Hm2. rewrite firstn_map in Erd.
  assert (forall j, (j <= length gs)%nat -> zlen (log_file (map record_of (take j gs))) <= n -> (j <= m)%nat) as Hm3 by (intros j Hj Hz; apply Hm2; [done|by rewrite firstn_map]).
  destruct (contiguous_take gs from to m Hc) as (mid & Hmid & Hle).
  assert (gs = take m gs ++ drop m gs) as Egs by (by rewrite take_drop).
  assert (zlen (take m gs) <= zlen gs) as Hzm by (rewrite Egs at 2; rewrite zlen_app; pose proof (zlen_nonneg (drop m gs)); lia).
  pose proof (zlen_nonneg (take m gs)) as Hzm0.
  assert (log_state_ok db0 ed0 max0 n0 save0 fs (LogState None ed0 max0 0 save0 db0) [] [] [] from) as S0.
  { split; cbn [ls_mem ls_edit ls_max_sequence ls_compactions ls_save_manifest ls_db concat app]; try done.
    - rewrite zlen_nil, Z.add_0_r. split; [done| |done]. rewrite <- Hnext. by destruct (db_versions db0).
    - by rewrite with_files_nil.
    - constructor.
    - constructor.
    - by rewrite orb_false_r. }
  assert (groups_fit ([] ++ take m gs)) as Hfit'.
  { intros p1 ch p2 Ep. apply (Hfit p1 ch (p2 ++ drop m gs)). rewrite Egs at 1. cbn [app] in Ep. rewrite Ep. by rewrite <- !app_assoc. }
  destruct (recover_records_ok junk (take m gs) (S (S (length (vf_data f)))) (S (length (vf_data f))) (ldb_reader_init (vf_data f) LDB_OK true true 0) lr' e fs
    (LogState None ed0 max0 0 save0 db0) [] [] [] from mid) as (e1 & fs1 & st1 & added1 & chunks1 & cur1 & E1 & R1 & O1 & L1 & S1 & C1 & pre & Epre); try done.
  { by rewrite Hd. }
  { lia. }
  { rewrite Egs in Hg. by apply List.Forall_app in Hg as [? _]. }
  { lia. }
  { rewrite zlen_nil. lia. }
  cbn [concat app] in C1. rewrite zlen_nil, Z.add_0_r in *.
  assert (ls_mem st1 = None -> cur1 = []) as Hnone by (intros E2; pose proof (so_mem _ _ _ _ _ _ _ _ _ _ _ S1) as Hmem; by rewrite E2 in Hmem).
  unfold ldb_recover_log_file. rewrite db0_dbname, Hfn, (el_seqfile e fs fname R), Hf, E1, bind_some. cbv zeta. change (LDB_OK =? LDB_OK) with true. cbn [andb].
  rewrite db0_options, (so_compactions _ _ _ _ _ _ _ _ _ _ _ S1).
  pose proof (so_max _ _ _ _ _ _ _ _ _ _ _ S1) as Hmax. pose proof (so_save _ _ _ _ _ _ _ _ _ _ _ S1) as Hsave.
  pose proof (so_edit _ _ _ _ _ _ _ _ _ _ _ S1) as Hed. pose proof (so_dumps _ _ _ _ _ _ _ _ _ _ _ S1) as Hdu. rewrite C1 in Hmax.
  assert (fs1 !! fname = Some f) as Hf1 by (rewrite (proj1 O1); [done|intros k Hk; apply Hnt; lia]).
  exists m, mid. destruct (opt_reuse_logs options && last_log && (zlen chunks1 =? 0)) eqn:Ereuse; cbv iota.
  - apply andb_true_iff in Ereuse as [Ereuse Ez]. assert (chunks1 = []) as -> by (apply Z.eqb_eq in Ez; by apply zlen_0_nil).
    apply andb_true_iff in Ereuse as [Eru ->]. cbn [concat app] in C1. subst cur1. destruct (Hidle eq_refl) as (I1 & I2 & I3).
    pose proof (so_db _ _ _ _ _ _ _ _ _ _ _ S1) as Hdb. destruct (rd_fixed _ _ _ Hdb) as (F1 & F2 & F3 & F4 & F5 & F6 & F7 & F8).
    unfold reuse_log. rewrite F6, F8, F3, I1, I2, I3, (el_file_size e1 fs1 fname f R1 Hf1).
    destruct (el_appendfile e1 fs1 fname f R1 Hf1 I) as (w & e2 & -> & R2 & N2 & K2). rewrite F1, db0_options, (oo_cmp _ _ _ _ ook), !bind_some.
    cbn [ls_save_manifest ls_edit ls_max_sequence ls_db].
    assert (added1 = []) as -> by (clear - Hdu; inversion Hdu as [|? cs|? cs]; [done|by destruct cs|by destruct cs]).
    exists [], [], e2, fs1. eexists _, _, _, true. split; [done|]. split; [done|]. split; [done|]. split; [rewrite <- Hed; reflexivity|]. split; [done|].
    rewrite zlen_nil, Z.add_0_r in *. split; [destruct O1 as [O2 O3]; split; [done|]; intros w' q Hw Hq; destruct (K2 w' q (O3 w' q Hw Hq)); done|].
    split; [lia|]. split; [|by rewrite Eru].
    split; [done|]. split; [done|]. eexists w, _. cbn. do 5 (split; [done|]).
    pose proof (so_mem _ _ _ _ _ _ _ _ _ _ _ S1) as Hmem. destruct (ls_mem st1) as [mem|]; [by destruct Hmem|]. rewrite Hmem. exact (mt_holds_create udom uc).
  - rewrite bind_some. destruct (ls_mem st1) as [mem|] eqn:Em.
    + assert (total_ok c (entry_pairs (entries_of cur1))) as Ht.
      { apply (Hfit pre cur1 (drop m gs)). rewrite Egs at 1. cbn [app] in Epre. by rewrite Epre, <- app_assoc. }
      destruct (dump_ok e1 fs1 st1 added1 chunks1 cur1 mid mem (zlen chunks1) R1 S1 Em Ht ltac:(lia))
        as (e2 & fs2 & st2 & added2 & E2 & R2 & O2 & _ & Hdb2 & Hed2 & Hdu2 & Hmax2 & Hsave2 & _).
      change (LDB_OK =? LDB_OK) with true. cbv iota. rewrite (so_compactions _ _ _ _ _ _ _ _ _ _ _ S1) in *. rewrite E2, bind_some.
      assert (zlen (chunks1 ++ [cur1]) = zlen chunks1 + 1) as Ezl by (rewrite zlen_app, zlen_cons, zlen_nil; lia).
      assert (bool_decide (chunks1 ++ [cur1] = []) = false) as Ebd by (apply bool_decide_eq_false_2; by destruct chunks1).
      exists added2, (chunks1 ++ [cur1]), e2, fs2, (ls_db st2), true, (ls_max_sequence st1), false.
      split; [done|]. split; [done|]. split; [done|]. split; [by rewrite Hed2, Hmax2, Hsave2|]. split; [done|]. rewrite Ezl, Ebd.
      split; [eapply only_tables_trans; [| |exact O1|rewrite Z.add_assoc; exact O2]; lia|]. split; [lia|].
      split; [|rewrite andb_false_r, orb_true_r; done]. split; [done|]. rewrite concat_app. cbn [concat]. rewrite app_nil_r, Ezl, Z.add_assoc. done.
    + rewrite (Hnone eq_refl), app_nil_r in C1. rewrite bind_some.
      exists added1, chunks1, e1, fs1, (ls_db st1), (ls_save_manifest st1), (ls_max_sequence st1), false.
      split; [done|]. split; [done|]. split; [done|]. split; [by rewrite Hed|]. split; [done|]. split; [done|]. split; [lia|].
      split; [split; [done|]; split; [done|apply (so_db _ _ _ _ _ _ _ _ _ _ _ S1)]|]. split; [|done].
      rewrite <- Ereuse. f_equal. destruct (Z.eqb_spec (zlen chunks1) 0) as [E0|E0]; symmetry; [apply bool_decide_eq_true_2; by apply zlen_0_nil|].
      apply bool_decide_eq_false_2. intros ->. done.
Qed.
End Loop.
End Level0.

(** ** Recovery after a crash *)

Lemma groups_fit_all c gs : 0 <= c -> total_ok c (entry_pairs (entries_of gs)) -> groups_fit c gs.
Proof.
  intros Hc Ht pre ch post ->. unfold total_ok, entries_of, entry_pairs in *. rewrite !map_app, !concat_app, !rev_app_distr, !map_app in Ht.
  rewrite !pairs_cost_app, !zlen_app in Ht.
  repeat match goal with H : context [pairs_cost ?x] |- _ => lazymatch goal with _ : 0 <= pairs_cost x |- _ => fail | _ => pose proof (pairs_cost_nonneg x); pose proof (zlen_nonneg x) end end.
  nia.
Qed.

Lemma table_filename_some dbname n : zlen dbname <= LDB_PATH_MAX - 35 -> 0 <= n < 2 ^ 64 -> is_Some (ldb_table_filename LDB_PATH_MAX dbname n).
Proof.
  intros Hl Hn. unfold ldb_table_filename, make_filename, ldb_join. destruct (ldb_encode_int_spec n 6 Hn) as (_ & _ & _ & Hz).
  destruct (ldb_size_int_spec n Hn) as [Hs _]. rewrite !zlen_app, Hz. change (zlen (cstr ".")) with 1. change (zlen (cstr "ldb")) with 3.
  rewrite (proj2 (Z.ltb_ge _ _)) by (unfold LDB_PATH_MAX in *; lia). eauto.
Qed.

Lemma log_not_table size dbname n k p : 0 < n < 2 ^ 64 -> 0 < k < 2 ^ 64 -> ldb_log_filename size dbname n = Some p -> ldb_table_filename size dbname k <> Some p.
Proof.
  intros Hn Hk En Ek. destruct (parse_made_filename size dbname n Hn) as [Pn _]. destruct (parse_made_filename size dbname k Hk) as (_ & Pk & _).
  specialize (Pn p En). specialize (Pk p Ek). congruence.
Qed.

Section Crash.
Context (udom : bytes -> Prop) (uc : comparator) `{!ComparatorLaws udom uc}.
Context {E W : Type} (ops : env_ops E W) (dirs : dir_ops E) (rep : E -> fsview -> Prop) (names : E -> W -> bytes -> Prop) `{!EnvLaws ops rep names (fun _ => True)}.
Context (c : Z) {T : Type} (tops : iter_ops T) (tables_of : E -> tables_ops T).
Implicit Type db : ldb W.

(** A database that is being opened, before its logs are recovered. *)
Record opening db : Prop := {
  og_options : options_ok (ikey_dom udom) (ldb_ikc_init uc) (db_options db) c;
  og_tables : TableAccess rep tops tables_of (db_dbname db) (ikey_dom udom) (ldb_ikc_init uc) (db_options db) c;
  og_name : zlen (db_dbname db) <= LDB_PATH_MAX - 35;
  og_idle : db_logfile db = None /\ db_log db = None /\ db_mem db = None;
  og_stats : is_Some (db_stats db !! 0%nat)
}.

(** A log whose updates fit into a table. *)
Record log_fits (from : Z) (gs : list group) : Prop := {
  lf_groups : Forall (group_ok udom) gs;
  lf_from : 1 <= from;
  lf_sequences : exists to, contiguous from gs to /\ to <= LDB_MAX_SEQUENCE + 1;
  lf_total : total_ok c (entry_pairs (entries_of gs))
}.

(** C3: A log was written, the process or the machine stops, which cuts the file
    at any byte behind the part that is on the disk, and another process
    recovers it.  This succeeds, and recovers the groups up to some point, none
    that was synced lies behind it: they are, in order, in new tables that the
    edit adds to level 0, or in the memtable if the log goes on.  The last
    sequence number is that of the last update recovered. *)
Theorem log_recovery_durable junk e fs db0 db number gs from ed save max_sequence (last_log : bool) fs0 :
  (forall u, udom u -> zlen u < 2 ^ 32 - 8) -> opening db -> log_fits from gs ->
  0 < number < 2 ^ 64 -> db_dbname db0 = db_dbname db -> log_of fs0 db0 number gs -> crash_of fs0 fs -> rep e fs ->
  0 < vs_next_file_number (db_versions db) -> vs_next_file_number (db_versions db) + zlen gs + 1 < 2 ^ 64 ->
  exists m added chunks e' fs' db' save' max' reused,
    ldb_recover_log_file uc ops dirs tops tables_of junk e db number last_log save ed max_sequence =
      Some (LDB_OK, save', with_files ed added, max', e', db') /\ rep e' fs' /\
    (m <= length gs)%nat /\ (forall j g, gs !! j = Some g -> g_sync g = true -> (j < m)%nat) /\
    (exists mid, contiguous from (take m gs) mid /\ max' = match take m gs with [] => max_sequence | _ => Z.max max_sequence (mid - 1) end) /\
    exists fname f, ldb_log_filename LDB_PATH_MAX (db_dbname db) number = Some fname /\ fs' !! fname = Some f /\
      log_recovered udom uc names (db_options db) (db_dbname db) db (vs_next_file_number (db_versions db)) e' fs' db' fname number
        (zlen (vf_data f)) added chunks (take m gs) reused.
Proof.
  intros Hshort [Hopt Hacc Hname Hidle Hstats] [Hg Hfrom (to & Hc & Hto) Ht] Hnum Hdb0 (fname & synced & Hfn & Hf0 & _ & Hsync) Hcrash R Hn0 Hn.
  rewrite Hdb0 in Hfn. specialize (Hcrash fname). rewrite Hf0 in Hcrash. destruct (fs !! fname) as [f|] eqn:Hf; [|done].
  destruct Hcrash as (n & Hsn & Hd). cbn [vf_synced vf_data] in Hsn, Hd.
  assert (vf_data f = ztake (Z.max 0 n) (log_file (map record_of gs))) as Hd' by (rewrite Hd; unfold ztake; f_equal; lia).
  assert (forall k, 0 < k < 2 ^ 64 -> ldb_table_filename LDB_PATH_MAX (db_dbname db) k <> Some fname) as Hnt by (intros k Hk; by apply (log_not_table _ _ number)).
  destruct (recover_log_ok udom uc Hshort ops dirs rep names (db_options db) c Hopt tops tables_of (db_dbname db) db ed max_sequence
    (vs_next_file_number (db_versions db)) save eq_refl eq_refl ltac:(intros k Hk; apply table_filename_some; [done|lia]) Hn0
    junk e fs number fname f gs from to (Z.max 0 n) last_log R Hfn Hf Hd' ltac:(lia) eq_refl Hstats (fun _ => Hidle) Hnt Hg Hc Hfrom Hto)
    as (m & mid & added & chunks & e' & fs' & db' & save' & max' & reused & Hm & Hin & Hmid & E1 & R' & Hot & Hzc & Hrec & _ & Hmax & _).
  { apply groups_fit_all; [apply Hopt|done]. }
  { lia. }
  exists m, added, chunks, e', fs', db', save', max', reused. split; [exact E1|]. split; [done|]. split; [done|]. split.
  - intros j g Hj Hs. pose proof (Hsync j g Hj Hs) as Hz. pose proof (lookup_lt_Some _ _ _ Hj). apply Hin; [lia|]. lia.
  - split; [by exists mid|]. exists fname, f. split; [done|]. split; [|done].
    rewrite (proj1 Hot); [done|]. pose proof (zlen_nonneg gs). intros k Hk. apply Hnt. lia.
Qed.
End Crash.

(** ** A log that is cut *)

Definition cut_options : dbopt := Dbopt None true false true 65536 1000 4096 16 2097152 LDB_NO_COMPRESSION false None true.
Definition cut_db : ldb nat := set_db_versions (ldb_create (cstr "/db") cut_options) (set_next_file (ldb_versions_create (cstr "/db") (db_options_of cut_options)) 4).
Definition cut_cache : tables bytes :=
  default (Tables [] (db_options cut_db) (Lru [] 0) None) (ldb_tables_create (cstr "/db") (db_options cut_db) 16 None).

Definition cut_groups : list group :=
  [Group 1 true [(0%nat, [Put [Byte.x61] [Byte.x31]])]; Group 2 false [(1%nat, [Del [Byte.x62]]); (2%nat, [Put [Byte.x61] [Byte.x32]])]].
Definition cut_log : bytes := log_file (map record_of cut_groups).
Definition cut_name : bytes := cstr "/db/000003.log".

(** The last three bytes of the second record are lost. *)
Definition cut_files : fsview := {[cut_name := VFile (ztake (zlen cut_log - 3) cut_log) 0]}.

Lemma cut_access : TableAccess disk_rep (cache_iter_table (mem_rfile true) (fun _ => true) None)
  (fun e => tables_view disk_randfile (mem_rfile true) (fun _ => true) None e cut_cache) (db_dbname cut_db)
  (ikey_dom (fun u => zlen u < 100)) (ldb_ikc_init bytewise_comparator) (db_options cut_db) 0.
Proof.
  pose proof (bytewise_short_laws 100) as Laws.
  assert (options_ok (ikey_dom (fun u => zlen u < 100)) (ldb_ikc_init bytewise_comparator) (db_options cut_db) 0) as Hopt.
  { split; [done|by vm_compute|done|done|]. intros _ k [Hk _]. lia. }
  apply (new_cache_access disk_rep disk_randfile (mem_rfile true) eq (fun _ => true) ltac:(done) _ _ (db_options cut_db) 0 (cstr "/db") 16 None None); [exact Hopt|exact I|discriminate|].
  destruct (create_inv (V := table_entry bytes) 16) as (p & lru & E1 & _). unfold cut_cache, ldb_tables_create. rewrite E1, bind_some. reflexivity.
Qed.

Lemma cut_total : total_ok 0 (entry_pairs (entries_of cut_groups)).
Proof. by vm_compute. Qed.

Lemma log_recovery_durable_witness : exists m added e' save' max' db',
  ldb_recover_log_file bytewise_comparator disk_ops disk_dirs (cache_iter_table (mem_rfile true) (fun _ => true) None)
    (fun e => tables_view disk_randfile (mem_rfile true) (fun _ => true) None e cut_cache) [] (Disk cut_files []) cut_db 3 true false ldb_edit_init 0 =
    Some (LDB_OK, save', with_files ldb_edit_init added, max', e', db') /\ (0 < m)%nat.
Proof.
  pose proof (bytewise_short_laws 100) as Laws. pose proof cut_access as Hacc.
  destruct (log_recovery_durable (fun u => zlen u < 100) bytewise_comparator disk_ops disk_dirs disk_rep disk_names 0
    (cache_iter_table (mem_rfile true) (fun _ => true) None) (fun e => tables_view disk_randfile (mem_rfile true) (fun _ => true) None e cut_cache)
    [] (Disk cut_files []) cut_files cut_db cut_db 3 cut_groups 1 ldb_edit_init false 0 true {[cut_name := VFile cut_log 41]})
    as (m & added & chunks & e' & fs' & db' & save' & max' & reused & E1 & _ & _ & Hm & _).
  - intros u Hu. lia.
  - split; [|exact Hacc|by vm_compute|done|by eexists]. split; [done|by vm_compute|done|done|]. intros _ k [Hk _]. lia.
  - split; [|lia| |exact cut_total].
    + repeat constructor; by vm_compute.
    + exists 4. split; [by vm_compute|by vm_compute].
  - lia.
  - done.
  - exists cut_name, 41. split; [by vm_compute|]. split; [apply lookup_singleton_eq|]. split; [by vm_compute|].
    intros j g Hj Hs. destruct j as [|[|j]]; [by vm_compute| |by destruct j]. cbn in Hj. injection Hj as <-. done.
  - intros p. unfold cut_files. destruct (decide (p = cut_name)) as [->|Hne].
    + rewrite !lookup_singleton_eq. exists (zlen cut_log - 3). split; [by vm_compute|done].
    + by rewrite !lookup_singleton_ne by done.
  - done.
  - by vm_compute.
  - by vm_compute.
  - exists m, added, e', save', max', db'. split; [exact E1|]. by apply (Hm 0%nat (Group 1 true [(0%nat, [Put [Byte.x61] [Byte.x31]])])).
Defined.
