(* ===== verification/DBRead.v ===== *)
(** * Reading a database

    Models [ldb_get], [ldb_has], the iterators over a database and what it tells
    about itself, of [src/engine/src/db_impl.c].  A reader holds references to
    the memtables and to the current version; the definitions say what happens
    when no other thread comes in between. *)

From stdpp Require Import strings sorting gmap.
From S2P Require Import Prelude Coding Status Strutil Comparator DBFormat Options Arena Skiplist Memtable Iterator BlockBuilder TwoLevel Merger VersionEdit FileList Version VersionGet VersionBuilder Env VersionSet DBIter MemIter DB DBWrite.
#[local] Open Scope Z_scope.

Section Read.
Context (uc : comparator) {W : Type} {T : Type} (tops : iter_ops T) (tables : tables_ops T).
Implicit Type db : ldb W.

(** ** Lookups *)

(** What a reader keeps while it does not have the mutex; [rd_version] is the
    address of the version. *)
Record reading := Reading {
  rd_mem : memtable;
  rd_imm : option memtable;
  rd_version : nat;
  rd_snapshot : Z
}.

(** References to what there is: the memtables and the current version. *)
Definition hold_current db : option (ldb W) :=
  mem ← db_mem db;
  vs ← ldb_version_ref (db_versions db) (vs_current (db_versions db));
  Some (set_db_versions (set_db_mem db (Some (ldb_memtable_ref mem)) (ldb_memtable_ref <$> db_imm db) (db_has_imm db)) vs).

Definition release_held db (version : nat) : option (ldb W) :=
  vs ← ldb_version_unref (db_versions db) version;
  Some (set_db_versions (set_db_mem db (db_mem db ≫= ldb_memtable_unref) (db_imm db ≫= ldb_memtable_unref) (db_has_imm db)) vs).

(** [snapshot]: the sequence number of [options->snapshot]. *)
Definition get_begin db (snapshot : option Z) : option (reading * ldb W) :=
  let seq := match snapshot with Some s => s | None => vs_last_sequence (db_versions db) end in
  db ← hold_current db;
  mem ← db_mem db;
  Some (Reading mem (db_imm db) (vs_current (db_versions db)) seq, db).

(** What a memtable says: the status and the value, if the key is in it. *)
Definition memtable_answer (r : get_result) (value : option bytes) : option (Z * option bytes) :=
  match r with
  | GetValue v => Some (LDB_OK, match value with Some _ => Some v | None => None end)
  | GetNotFound => Some (LDB_NOTFOUND, value)
  | GetMissing => None
  end.

(** Without the mutex: the status, the value, and statistics if tables were
    read.  [value] is [None] if the caller does not want it. *)
Definition get_read (r : reading) (ver : ldb_version) (options : readopt) (key : bytes) (value : option bytes)
    : option (Z * option bytes * option getstats) :=
  let lkey := ldb_lkey_init key (rd_snapshot r) in
  found ← ldb_memtable_get (rd_mem r) lkey;
  match memtable_answer found value with
  | Some (rc, value) => Some (rc, value, None)
  | None =>
    found ← match rd_imm r with Some imm => ldb_memtable_get imm lkey | None => Some GetMissing end;
    match memtable_answer found value with
    | Some (rc, value) => Some (rc, value, None)
    | None => '(rc, value, stats) ← ldb_version_get uc tables ver options lkey value; Some (rc, value, Some stats)
    end
  end.

(** The version at [v] after a read, and whether a compaction is wanted. *)
Definition charge_version (update : seek_store -> ldb_version -> option (bool * seek_store * ldb_version)) db (v : nat) : option (ldb W) :=
  let vs := db_versions db in
  ver ← vs_objects vs !! v;
  '(wanted, seeks, ver) ← update (fh_seeks (vs_heap vs)) ver;
  let vs := set_edited (set_objects vs (vs_next_version vs) (<[v := ver]> (vs_objects vs)) (vs_list vs) (vs_current vs))
              (FileHeap (fh_next (vs_heap vs)) seeks) (vs_compact_pointer vs) in
  let db := set_db_versions db vs in
  if wanted : bool then ldb_maybe_schedule_compaction db else Some db.

Definition get_end db (r : reading) (stats : option getstats) : option (ldb W) :=
  db ← match stats with
       | Some stats => charge_version (fun store ver => ldb_version_update_stats store ver stats) db (rd_version r)
       | None => Some db
       end;
  release_held db (rd_version r).

(** The status, the value if there is one, and the database. *)
Definition ldb_get db (key : bytes) (wanted : bool) (options : readopt) (snapshot : option Z) : option (Z * option bytes * ldb W) :=
  '(r, db) ← get_begin db snapshot;
  ver ← vs_objects (db_versions db) !! rd_version r;
  '(rc, value, stats) ← get_read r ver options key (if wanted then Some [] else None);
  db ← get_end db r stats;
  Some (rc, if rc =? LDB_OK then value else None, db).

Definition ldb_has db (key : bytes) (options : readopt) (snapshot : option Z) : option (Z * ldb W) :=
  '(rc, _, db) ← ldb_get db key false options snapshot; Some (rc, db).

(** ** Iterators *)

(** The kinds of iterators below a database iterator; a memtable iterator comes
    with its memtable. *)
Abbreviation version_iter := (T + @twoiter numiter (Z + T))%type.
Abbreviation child_iter := (memtable * option nat + version_iter)%type.

Definition child_table (options : readopt) (fuel : nat) : iter_ops child_iter :=
  sum_iter_table (with_owner ldb_memiter_table) (version_iter_table uc tops tables options fuel).

Definition internal_table (options : readopt) (fuel : nat) : iter_ops (Z + (child_iter + mergeiter child_iter)) :=
  merged_table (child_table options fuel).

(** [ldb_istate_t]: what the iterator holds until it is destroyed; in the model
    the database keeps the memtables. *)
Definition ldb_istate_destroy db (version : nat) : option (ldb W) := release_held db version.

(** The iterator, the last sequence number, the seed, and the version held. *)
Definition ldb_internal_iterator db (options : readopt) : option ((Z + (child_iter + mergeiter child_iter)) * Z * Z * nat * ldb W) :=
  let latest_snapshot := vs_last_sequence (db_versions db) in
  mem ← db_mem db;
  ver ← current_version (db_versions db);
  icmp ← opt_comparator (db_options db);
  let memiters := map (fun m => inl (m, None)) (mem :: match db_imm db with Some imm => [imm] | None => [] end) in
  files ← ldb_version_add_iterators uc tops tables ver options [];
  internal_iter ← ldb_mergeiter_create (child_table options (version_fuel ver)) icmp (memiters ++ map inr files);
  db ← hold_current db;
  let seed := u32 (db_seed db + 1) in
  Some (merged_iter internal_iter, latest_snapshot, seed, vs_current (db_versions db), set_db_seed db seed).

(** A database iterator; the cleanup function gets the address of the version. *)
Definition ldb_iterator db (options : readopt) (snapshot : option Z) : option (dbiter (Z + (child_iter + mergeiter child_iter)) * nat * ldb W) :=
  '(iter, latest_snapshot, seed, version, db) ← ldb_internal_iterator db options;
  Some (ldb_dbiter_init uc iter (match snapshot with Some s => s | None => latest_snapshot end) seed, version, db).

(** What the iterator reports about the bytes it reads. *)
Definition ldb_record_read_sample db (key : bytes) : option (ldb W) :=
  charge_version (fun store ver => ldb_version_record_read_sample uc store ver key) db (vs_current (db_versions db)).

(** ** What a database tells about itself *)

(** [offset]: the approximate offset of a key in a table. *)
Definition approximate_size (offset : Z -> Z -> bytes -> Z) (v : ldb_version) (range : bytes * bytes) : Z :=
  let k1 := ldb_ikey_set range.1 LDB_MAX_SEQUENCE LDB_VALTYPE_SEEK in
  let k2 := ldb_ikey_set range.2 LDB_MAX_SEQUENCE LDB_VALTYPE_SEEK in
  let start := ldb_versions_approximate_offset uc offset v k1 in
  let limit := ldb_versions_approximate_offset uc offset v k2 in
  if start <=? limit then u64 (limit - start) else 0.

Definition ldb_approximate_sizes (offset : Z -> Z -> bytes -> Z) db (ranges : list (bytes * bytes)) : option (list Z) :=
  v ← current_version (db_versions db); Some (map (approximate_size offset v) ranges).

(** The rows of the table of statistics; [row] is [sprintf] with the format of a
    row, for the level, the number of files and of bytes in it, and the
    statistics. *)
Fixpoint stats_rows (row : Z -> Z -> Z -> ldb_stats -> bytes) (vs : versions W) (level : Z) (stats : list ldb_stats) : option bytes :=
  match stats with
  | [] => Some []
  | x :: stats =>
    files ← ldb_versions_files vs level;
    text ← (if (0 <? st_micros x) || (0 <? files) then size ← ldb_versions_bytes vs level; Some (row level files size x) else Some []);
    rest ← stats_rows row vs (level + 1) stats;
    Some (text ++ rest)
  end.

Definition stats_head : bytes :=
  cstr "                               Compactions" ++ [Byte.x0a] ++
  cstr "Level  Files Size(MB) Time(sec) Read(MB) Write(MB)" ++ [Byte.x0a] ++
  cstr "--------------------------------------------------" ++ [Byte.x0a].

(** [cache_usage] is that of the block cache. *)
Definition ldb_property (row : Z -> Z -> Z -> ldb_stats -> bytes) (cache_usage : Z) db (property : bytes) : option (option bytes) :=
  let vs := db_versions db in
  if negb (ldb_starts_with property (cstr "leveldb.")) then Some None
  else
    let in_ := zdrop 8 property in
    if ldb_starts_with in_ (cstr "num-files-at-level") then
      match ldb_decode_int (zdrop 18 in_) with
      | (Some level, []) =>
        if LDB_NUM_LEVELS <=? level then Some None
        else n ← ldb_versions_files vs level; Some (Some (ldb_encode_int n 0))
      | _ => Some None
      end
    else if str_eq in_ "stats" then
      rows ← stats_rows row vs 0 (db_stats db); Some (Some (stats_head ++ rows))
    else if str_eq in_ "sstables" then
      v ← current_version vs; Some (Some (ldb_version_debug [] v))
    else if str_eq in_ "approximate-memory-usage" then
      let usage (mt : option memtable) := match mt with Some mt => ldb_memtable_usage mt | None => 0 end in
      Some (Some (ldb_encode_int (u64 (cache_usage + usage (db_mem db) + usage (db_imm db))) 0))
    else Some None.
End Read.
