(* ===== verification/DBReadCorrect.v ===== *)
(** * Reading is correct

    A lookup gives the newest version of the key that the snapshot sees in the
    memtables and the tables, and an iterator goes through the view of the
    snapshot. *)

From stdpp Require Import strings sorting gmap.
From S2P Require Import Prelude Coding Status Strutil Comparator DBFormat Options Arena Skiplist Memtable Vector Iterator BlockBuilder TwoLevel Merger VersionEdit FileList Version VersionGet VersionBuilder Env VersionSet DBIter MemIter DB DBWrite DBRead.
#[local] Open Scope Z_scope.

(** ** Which files a lookup touches *)

Section Touched.
Context (uc : comparator).

Definition in_version (ver : ldb_version) (f : fileptr) : Prop := f ∈ concat (ver_files ver).

Lemma level_in_version ver level files f : level_files ver level = Some files -> f ∈ files -> in_version ver f.
Proof.
  intros Hl Hf. unfold level_files, item in Hl. destruct (level <? 0); [done|].
  unfold in_version. apply list_elem_of_In, in_concat. exists files. split; apply list_elem_of_In; [by eapply list_elem_of_lookup_2|done].
Qed.

Context {A : Type} (func : A -> Z -> fileptr -> option (bool * A)) (P : A -> Prop) (ver : ldb_version).
Hypothesis func_ok : forall arg level f go arg', P arg -> in_version ver f -> func arg level f = Some (go, arg') -> P arg'.

Lemma visit_inv level files : forall arg go arg', Forall (in_version ver) files -> P arg -> visit func level files arg = Some (go, arg') -> P arg'.
Proof.
  induction files as [|f files IH]; intros arg go arg' Hf HP; cbn [visit]; [by intros [= <- <-]|].
  apply List.Forall_cons_iff in Hf as [Hf Hfs]. destruct (func arg level f) as [[go1 arg1]|] eqn:E; [|done]. cbn [mbind option_bind].
  apply func_ok in E; [|done..]. destruct go1; [by apply IH|by intros [= <- <-]].
Qed.

Lemma search_inv user_key ikey levels : forall arg arg', P arg -> search_levels uc func ver user_key ikey levels arg = Some arg' -> P arg'.
Proof.
  induction levels as [|level levels IH]; intros arg arg' HP; cbn [search_levels]; [by intros [= <-]|].
  destruct (level_files ver level) as [files|] eqn:El; [|done]. cbn [mbind option_bind]. destruct (zlen files =? 0); [by apply IH|].
  destruct (find_file uc files ikey) as [i|]; [|done]. cbn [mbind option_bind]. destruct (i <? zlen files); [|by apply IH].
  destruct (file_at files i) as [f|] eqn:Ef; [|done]. cbn [mbind option_bind].
  assert (in_version ver f) as Hf.
  { apply (level_in_version ver level files); [done|]. unfold file_at, item in Ef. destruct (i <? 0); [done|]. by eapply list_elem_of_lookup_2. }
  destruct (_ <? 0); [by apply IH|]. destruct (func arg level f) as [[go1 arg1]|] eqn:E; [|done]. cbn [mbind option_bind].
  apply func_ok in E; [|done..]. destruct go1; [by apply IH|by intros [= <-]].
Qed.

Lemma for_each_inv user_key ikey arg arg' : (forall files, level_files ver 0 = Some files -> zlen files <= 2 ^ 30) ->
  P arg -> ldb_version_for_each_overlapping uc func ver user_key ikey arg = Some arg' -> P arg'.
Proof.
  intros Hz HP. unfold ldb_version_for_each_overlapping. destruct (level_files ver 0) as [files|] eqn:El; [|done]. cbn [mbind option_bind].
  set (tmp := List.filter (covers uc user_key) files).
  destruct (if 0 <? zlen tmp then _ else _) as [[go arg1]|] eqn:E; [|done]. cbn [mbind option_bind].
  assert (P arg1) as HP1.
  { destruct (0 <? zlen tmp); [|by injection E as _ <-]. destruct (sort_items newest_first tmp) as [files'|] eqn:Es; [|done]. cbn [mbind option_bind] in E.
    assert (tmp ≡ₚ files') as Hp.
    { destruct (sort_items_ok newest_first) with (items := tmp) as (ys & Es' & Hp & _).
      - intros x y. unfold newest_first. destruct (Z.ltb_spec (f_number y) (f_number x)), (Z.ltb_spec (f_number x) (f_number y)); lia.
      - intros x y z. unfold newest_first.
        destruct (Z.ltb_spec (f_number y) (f_number x)), (Z.ltb_spec (f_number x) (f_number y)),
          (Z.ltb_spec (f_number z) (f_number y)), (Z.ltb_spec (f_number y) (f_number z)),
          (Z.ltb_spec (f_number z) (f_number x)), (Z.ltb_spec (f_number x) (f_number z)); lia.
      - pose proof (List.filter_length_le (covers uc user_key) files) as Hl. specialize (Hz _ eq_refl). unfold zlen in *. fold tmp in Hl. lia.
      - rewrite Es in Es'. by injection Es' as ->. }
    apply visit_inv in E; [done| |done]. apply List.Forall_forall. intros f Hf%list_elem_of_In. rewrite <- Hp in Hf.
    apply list_elem_of_In in Hf. unfold tmp in Hf. apply filter_In in Hf as [Hf _]. apply (level_in_version ver 0 files); [done|by apply list_elem_of_In]. }
  destruct go; [by apply search_inv|by intros [= <-]].
Qed.
End Touched.

Definition stats_in (ver : ldb_version) (stats : getstats) : Prop := forall f, seek_file stats = Some f -> in_version ver f.

Lemma version_get_stats uc {T} (tables : tables_ops T) ver ro k value rc value' stats :
  (forall files, level_files ver 0 = Some files -> zlen files <= 2 ^ 30) ->
  ldb_version_get uc tables ver ro k value = Some (rc, value', stats) -> stats_in ver stats.
Proof.
  intros Hz. unfold ldb_version_get. destruct (ldb_version_for_each_overlapping _ _ _ _ _ _) as [st|] eqn:E; [|done]. intros [= _ _ <-].
  apply (for_each_inv uc _ (fun st => stats_in ver (gs_stats st) /\ forall f, gs_last_file_read st = Some f -> in_version ver f)) in E; [by destruct E| |done|done].
  intros st0 level f go st1 [H1 H2] Hf. unfold getstate_match.
  destruct (ldb_tables_get tables ro (f_number f) (f_file_size f) (ldb_lkey_internal_key k)) as [[status result]|]; [|done]. cbn [mbind option_bind].
  set (saver := match result with Some (k, v) => save_value uc (gs_saver st0) k v | None => gs_saver st0 end).
  set (stats' := match seek_file (gs_stats st0) with Some _ => _ | None => _ end).
  assert (stats_in ver stats') as Hs.
  { unfold stats'. destruct (seek_file (gs_stats st0)); [done|]. destruct (gs_last_file_read st0); [|done]. exact H2. }
  destruct (negb _); [|destruct (sv_state saver)]; intros [= _ <-]; cbn; (split; [done|]); intros g [= <-]; done.
Qed.

(** ** Lookups *)

Lemma newest_app udom uc `{!ComparatorLaws udom uc} u s h h' : udom u -> Forall (entry_wf udom) h -> Forall (entry_wf udom) h' -> newer_than uc h h' ->
  newest uc u s (h ++ h') = match newest uc u s h with Some e => Some e | None => newest uc u s h' end.
Proof.
  intros Du Hw Hw' Hn. induction h as [|e h IH]; cbn [app newest]; [done|]. apply List.Forall_cons_iff in Hw as [We Hw].
  rewrite IH; [|done|intros a b Ha Hb; apply Hn; [by right|done]]. destruct (newest uc u s h) as [e1|]; [by destruct (_ && _)|].
  destruct (newest uc u s h') as [e2|] eqn:E2; [|by destruct (visible uc u s e)]. destruct (visible uc u s e) eqn:Ev; [|done]. cbn [andb].
  destruct (newest_some uc u s h' e2 E2) as (H1 & H2 & _). rewrite (proj2 (Z.ltb_lt _ _)); [done|]. apply Hn; [by left|done|].
  rewrite List.Forall_forall in Hw'. apply (visible_same udom uc u s); [done|apply We|apply (Hw' e2); by apply list_elem_of_In|done|done].
Qed.

Section Get.
Context (udom : bytes -> Prop) (uc : comparator) `{!ComparatorLaws udom uc} {W : Type} (ents_of : Z -> Z -> option (list entry)).
Context {T : Type} (tops : iter_ops T) (tables : tables_ops T) `{!TablesLaws tops tables udom uc (pairs_of ents_of)}.
Implicit Type db : ldb W.

(** The memtable holds [h1], the immutable one [h2], the tables of the current
    version the rest; what is newer is in front. *)
Record readable db (h1 h2 : list entry) (ver : ldb_version) : Prop := {
  rb_mem : exists mem, db_mem db = Some mem /\ mt_holds udom uc mem h1 /\ 1 <= mt_refs mem;
  rb_imm : match db_imm db with Some imm => mt_holds udom uc imm h2 /\ 1 <= mt_refs imm | None => h2 = [] end;
  rb_current : current_version (db_versions db) = Some ver /\ 1 <= ver_refs ver;
  rb_version : VersionGet.version_wf udom uc ents_of ver;
  rb_newer : newer_than uc h1 h2 /\ newer_than uc h1 (version_entries ents_of ver) /\ newer_than uc h2 (version_entries ents_of ver);
  rb_seeks : forall f, in_version ver f -> exists n, fh_seeks (vs_heap (db_versions db)) !! fp_addr f = Some n /\ - 2 ^ 31 < n
}.

(** The contents, the newest first. *)
Definition db_entries (h1 h2 : list entry) (ver : ldb_version) : list entry := h1 ++ h2 ++ version_entries ents_of ver.

Lemma readable_wf db h1 h2 ver : readable db h1 h2 ver ->
  Forall (entry_wf udom) h1 /\ Forall (entry_wf udom) h2 /\ Forall (entry_wf udom) (version_entries ents_of ver).
Proof.
  intros [(mem & _ & (_ & _ & _ & Hw1 & _) & _) Him _ Hv _ _]. split; [done|]. split.
  - destruct (db_imm db) as [imm|]; [by destruct Him as [(_ & _ & _ & Hw2 & _) _]|by subst h2].
  - apply (files_entries_wf udom uc ents_of). apply Forall_concat. apply Hv.
Qed.

Lemma get_read_ok db h1 h2 ver mem imm v s ro u value : readable db h1 h2 ver ->
  mt_holds udom uc mem h1 -> match imm with Some imm => mt_holds udom uc imm h2 | None => h2 = [] end ->
  udom u -> zlen u < 2 ^ 32 - 8 -> 0 <= s <= LDB_MAX_SEQUENCE ->
  exists rc value' stats, get_read uc tables (Reading mem imm v s) ver ro u value = Some (rc, value', stats) /\ from_option (stats_in ver) True stats /\
    match read_version (newest uc u s (db_entries h1 h2 ver)) with
    | GetValue x => rc = LDB_OK /\ value' = match value with Some _ => Some x | None => None end
    | _ => rc = LDB_NOTFOUND
    end.
Proof.
  intros R Hm1 Hm2 Du Hu Hs. destruct (readable_wf db h1 h2 ver R) as (W1 & W2 & W3). destruct (rb_newer _ _ _ _ R) as (N1 & N2 & N3).
  unfold db_entries. rewrite (newest_app udom uc u s h1) by (first [done | by apply List.Forall_app | intros a b Ha [Hb|Hb]%elem_of_app; [by apply N1|by apply N2]]).
  rewrite (newest_app udom uc u s h2) by done. unfold get_read. cbn [rd_mem rd_imm rd_snapshot].
  rewrite (memtable_get_spec udom uc mem h1 u s) by done. cbn [mbind option_bind].
  destruct (newest uc u s h1) as [e|]; [unfold read_version at 1; destruct (type e.1) eqn:Et; cbn [memtable_answer read_version]; rewrite ?Et; do 3 eexists; (split; [reflexivity|]); done|].
  cbn [read_version memtable_answer]. assert (exists r, (match imm with Some imm => ldb_memtable_get imm (ldb_lkey_init u s) | None => Some GetMissing end) = Some r /\
    r = read_version (newest uc u s h2)) as (r & -> & ->).
  { destruct imm as [imm|]; [rewrite (memtable_get_spec udom uc imm h2 u s) by done; eauto|subst h2; by exists GetMissing]. }
  rewrite bind_some.
  destruct (newest uc u s h2) as [e|]; [unfold read_version at 1; destruct (type e.1) eqn:Et; cbn [memtable_answer read_version]; rewrite ?Et; do 3 eexists; (split; [reflexivity|]); done|].
  cbn [read_version memtable_answer].
  destruct (version_get_ok udom uc ents_of tops tables u s value ro Du Hu Hs ver (rb_version _ _ _ _ R)) as (rc & value' & stats & E & H).
  rewrite E, bind_some. exists rc, value', (Some stats). split; [done|]. split.
  - cbn. eapply version_get_stats; [|exact E]. intros files Hf.
    destruct (level_at udom uc ents_of ver 0 (rb_version _ _ _ _ R)) as (files' & E0 & _ & Hz & _); [done|]. rewrite Hf in E0. by injection E0 as ->.
  - destruct (newest uc u s (version_entries ents_of ver)) as [[[u' s' []] x]|]; cbn [read_version type fst]; by destruct H.
Qed.

(** The memtables and the files of the current version stay. *)
Definition same_contents db db' (ver : ldb_version) : Prop :=
  db_mem db' = db_mem db /\ db_imm db' = db_imm db /\
  exists ver', current_version (db_versions db') = Some ver' /\ ver_files ver' = ver_files ver /\ ver_refs ver' = ver_refs ver.

Lemma memtable_ref_unref mt : 1 <= mt_refs mt -> ldb_memtable_unref (ldb_memtable_ref mt) = Some mt.
Proof.
  intros H. unfold ldb_memtable_unref, ldb_memtable_ref. cbn [mt_refs mt_comparator mt_arena mt_table]. rewrite (proj2 (Z.leb_gt _ _)) by lia.
  do 2 f_equal. destruct mt. cbn. f_equal. lia.
Qed.

Lemma hold_current_ok db h1 h2 ver : readable db h1 h2 ver ->
  exists db' mem, hold_current db = Some db' /\ db_mem db = Some mem /\ db_mem db' = Some (ldb_memtable_ref mem) /\ db_imm db' = ldb_memtable_ref <$> db_imm db /\
    vs_current (db_versions db') = vs_current (db_versions db) /\ vs_heap (db_versions db') = vs_heap (db_versions db) /\
    vs_last_sequence (db_versions db') = vs_last_sequence (db_versions db) /\
    vs_objects (db_versions db') = <[vs_current (db_versions db) := with_refs ver (ver_refs ver + 1)]> (vs_objects (db_versions db)).
Proof.
  intros [(mem & Em & _) _ [Ec _] _ _ _]. unfold hold_current. rewrite Em, bind_some. unfold ldb_version_ref.
  unfold current_version in Ec. rewrite Ec, !bind_some. eexists _, mem. split; [reflexivity|]. done.
Qed.

Lemma schedule_same db : is_Some (current_version (db_versions db)) ->
  exists b, ldb_maybe_schedule_compaction db = Some (set_db_scheduled db b).
Proof.
  intros [ver Hc]. assert (exists b, Some db = Some (set_db_scheduled db b)) as Same by (exists (db_background_compaction_scheduled db); by destruct db).
  unfold ldb_maybe_schedule_compaction. destruct (db_background_compaction_scheduled db); [done|]. destruct (db_shutting_down db); [done|].
  destruct (negb _); [done|]. unfold ldb_versions_needs_compaction. rewrite Hc, !bind_some.
  destruct (db_imm db), (db_manual_compaction db); eauto. destruct (negb _); eauto.
Qed.

(** The version at [v] changes, and nothing that a reader sees. *)
Record charged db db' (v : nat) (ver' : ldb_version) : Prop := {
  ch_mem : db_mem db' = db_mem db /\ db_imm db' = db_imm db;
  ch_current : vs_current (db_versions db') = vs_current (db_versions db);
  ch_objects : vs_objects (db_versions db') = <[v := ver']> (vs_objects (db_versions db))
}.

Lemma charge_ok update db v ver wanted seeks ver' : vs_objects (db_versions db) !! v = Some ver -> is_Some (current_version (db_versions db)) ->
  update (fh_seeks (vs_heap (db_versions db))) ver = Some (wanted, seeks, ver') ->
  exists db', charge_version update db v = Some db' /\ charged db db' v ver'.
Proof.
  intros Hv Hc Hu. unfold charge_version. rewrite Hv, bind_some, Hu, bind_some. cbv zeta.
  match goal with |- context [set_db_versions db ?w] => set (vs' := w) end. destruct wanted; [|by exists (set_db_versions db vs')].
  destruct (schedule_same (set_db_versions db vs')) as (b & ->); [|by eexists].
  unfold current_version in *. cbn. destruct (decide (v = vs_current (db_versions db))) as [->|Hne]; [by rewrite lookup_insert_eq|by rewrite lookup_insert_ne].
Qed.

Lemma update_stats_ok store ver stats : stats_in ver stats -> (forall f, in_version ver f -> exists n, store !! fp_addr f = Some n /\ - 2 ^ 31 < n) ->
  exists wanted seeks ver', ldb_version_update_stats store ver stats = Some (wanted, seeks, ver') /\ ver_refs ver' = ver_refs ver /\ ver_files ver' = ver_files ver.
Proof.
  intros Hs Hseeks. unfold ldb_version_update_stats. destruct (seek_file stats) as [f|] eqn:Ef; [|by eexists _, _, _].
  destruct (Hseeks f (Hs f Ef)) as (n & -> & Hn). rewrite bind_some, (proj2 (Z.leb_gt n _)) by lia. cbv zeta.
  destruct (ver_file_to_compact ver); [by eexists _, _, _|]. destruct (n - 1 <=? 0); by eexists _, _, _.
Qed.

Lemma release_held_ok db v ver : vs_objects (db_versions db) !! v = Some ver -> 2 <= ver_refs ver ->
  exists db', release_held db v = Some db' /\ db_mem db' = db_mem db ≫= ldb_memtable_unref /\ db_imm db' = db_imm db ≫= ldb_memtable_unref /\
    vs_current (db_versions db') = vs_current (db_versions db) /\
    vs_objects (db_versions db') = <[v := with_refs ver (ver_refs ver - 1)]> (vs_objects (db_versions db)).
Proof.
  intros Hv Hr. unfold release_held, ldb_version_unref. rewrite Hv, bind_some, (proj2 (Z.leb_le 1 _)) by lia. cbn [negb].
  rewrite (proj2 (Z.eqb_neq (ver_refs ver - 1) 0)) by lia. rewrite bind_some. by eexists.
Qed.

Lemma ldb_get_ok db h1 h2 ver ro snapshot u (wanted : bool) : readable db h1 h2 ver -> udom u -> zlen u < 2 ^ 32 - 8 ->
  let s := default (vs_last_sequence (db_versions db)) snapshot in 0 <= s <= LDB_MAX_SEQUENCE ->
  exists rc value db', ldb_get uc tables db u wanted ro snapshot = Some (rc, value, db') /\ same_contents db db' ver /\
    match read_version (newest uc u s (db_entries h1 h2 ver)) with
    | GetValue x => rc = LDB_OK /\ value = if wanted then Some x else None
    | _ => rc = LDB_NOTFOUND /\ value = None
    end.
Proof.
  intros R Du Hu s Hs. pose proof R as [(mem & Em & Hm & Hr1) Him [Ec Hr] _ _ Hseeks].
  destruct (hold_current_ok db h1 h2 ver R) as (db1 & mem' & E1 & Em' & Em1 & Ei1 & Ec1 & Eh1 & _ & Eo1). rewrite Em in Em'. injection Em' as <-.
  unfold ldb_get, get_begin. rewrite E1, bind_some, Em1, bind_some, bind_some. cbn [rd_version]. rewrite Ec1, Eo1, lookup_insert_eq, bind_some.
  replace (match snapshot with Some s => s | None => vs_last_sequence (db_versions db) end) with s by (by destruct snapshot).
  set (ver1 := with_refs ver (ver_refs ver + 1)) in *. set (v := vs_current (db_versions db)) in *.
  assert (get_read uc tables (Reading (ldb_memtable_ref mem) (db_imm db1) v s) ver1 ro u (if wanted then Some [] else None) =
    get_read uc tables (Reading (ldb_memtable_ref mem) (db_imm db1) v s) ver ro u (if wanted then Some [] else None)) as -> by reflexivity.
  destruct (get_read_ok db h1 h2 ver (ldb_memtable_ref mem) (db_imm db1) v s ro u (if wanted then Some [] else None) R) as (rc & value & stats & E2 & Hst & Hres); try done.
  { rewrite Ei1. destruct (db_imm db) as [imm|]; [|done]. by destruct Him. }
  rewrite E2, bind_some. unfold get_end. cbn [rd_version].
  assert (exists db2 ver2, match stats with Some st => charge_version (fun store w => ldb_version_update_stats store w st) db1 v | None => Some db1 end = Some db2 /\
    db_mem db2 = db_mem db1 /\ db_imm db2 = db_imm db1 /\ vs_current (db_versions db2) = v /\ vs_objects (db_versions db2) !! v = Some ver2 /\
    ver_refs ver2 = ver_refs ver + 1 /\ ver_files ver2 = ver_files ver) as (db2 & ver2 & -> & M2 & I2 & C2 & O2 & R2 & F2).
  { destruct stats as [st|]; [|exists db1, ver1; rewrite Eo1, lookup_insert_eq; done].
    destruct (update_stats_ok (fh_seeks (vs_heap (db_versions db1))) ver1 st) as (w & seeks & ver2 & E3 & R3 & F3); [done|by rewrite Eh1|].
    destruct (charge_ok (fun store x => ldb_version_update_stats store x st) db1 v ver1 w seeks ver2) as (db2 & -> & [[M2 I2] C2 O2]); [by rewrite Eo1, lookup_insert_eq| |done|].
    - unfold current_version. rewrite Ec1, Eo1, lookup_insert_eq. eauto.
    - exists db2, ver2. rewrite C2, O2, lookup_insert_eq. done. }
  rewrite bind_some. destruct (release_held_ok db2 v ver2 O2) as (db3 & -> & M3 & I3 & C3 & O3); [lia|]. rewrite bind_some.
  exists rc, (if rc =? LDB_OK then value else None), db3. split; [done|]. split.
  - split; [rewrite M3, M2, Em1; cbn; by rewrite memtable_ref_unref|]. split.
    + rewrite I3, I2, Ei1. destruct (db_imm db) as [imm|]; [|done]. cbn. by rewrite memtable_ref_unref by apply Him.
    + exists (with_refs ver2 (ver_refs ver2 - 1)). unfold current_version. rewrite C3, C2, O3, lookup_insert_eq. split; [done|]. split; [done|]. cbn. lia.
  - destruct (read_version _) as [x| |]; [destruct Hres as [-> ->]; by destruct wanted|by subst rc|by subst rc].
Qed.
End Get.

(** ** Properties *)

(** C4: A lookup in a database, with a memtable, an immutable memtable or none,
    and tables of any number, gives the newest version of the key that the
    snapshot sees in all of them, or in the last state if there is no snapshot:
    its value, if the caller wants it, or not found if that version is a deletion
    or there is none.  No assertion fails, every reference is given back, and the
    contents of the database stay. *)
Theorem read_newest udom uc `{!ComparatorLaws udom uc} {W : Type} ents_of {T} (tops : iter_ops T) tables
    `{!TablesLaws tops tables udom uc (pairs_of ents_of)} (db : ldb W) h1 h2 ver ro snapshot u (wanted : bool) :
  readable udom uc ents_of db h1 h2 ver -> udom u -> zlen u < 2 ^ 32 - 8 ->
  0 <= default (vs_last_sequence (db_versions db)) snapshot <= LDB_MAX_SEQUENCE ->
  exists rc value db', ldb_get uc tables db u wanted ro snapshot = Some (rc, value, db') /\ same_contents db db' ver /\
    match read_version (newest uc u (default (vs_last_sequence (db_versions db)) snapshot) (db_entries ents_of h1 h2 ver)) with
    | GetValue x => rc = LDB_OK /\ value = if wanted then Some x else None
    | _ => rc = LDB_NOTFOUND /\ value = None
    end.
Proof. intros R Du Hu Hs. by apply (ldb_get_ok udom uc ents_of tops tables). Qed.

(** The version of the tests with a newer version of the key in the memtable. *)
Definition read_demo_entries : list entry := [(Pkey [Byte.x61] 12 LDB_TYPE_VALUE, [Byte.x0c])].

Definition read_demo_db (mem : memtable) : ldb nat :=
  let db := ldb_create (cstr "/db") ldb_dbopt_default in
  let vs := set_last_sequence (set_objects (db_versions db) 2 {[1%nat := test_version]} [1%nat] 1) 12 in
  set_db_mem (set_db_versions db (set_edited vs (FileHeap 5 {[1%nat := 100; 2%nat := 100; 3%nat := 100]}) (vs_compact_pointer vs))) (Some mem) None false.

Lemma read_demo_readable mem : mt_holds (fun _ => True) bytewise_comparator mem read_demo_entries -> 1 <= mt_refs mem ->
  readable (fun _ => True) bytewise_comparator test_entries (read_demo_db mem) read_demo_entries [] test_version.
Proof.
  intros Hm Hr. split.
  - by exists mem.
  - done.
  - split; [reflexivity|by vm_compute].
  - exact test_version_wf.
  - split; [intros e e' _ He'; by apply elem_of_nil in He'|]. split; [check_newer|intros e e' He; by apply elem_of_nil in He].
  - intros f Hf. exists 100. split; [|lia]. unfold in_version in Hf.
    repeat (apply elem_of_cons in Hf as [->|Hf]; [by vm_compute|]). by apply elem_of_nil in Hf.
Qed.

Lemma read_newest_witness :
  let get mem s := ldb_get bytewise_comparator (list_tables bytewise_comparator (pairs_of test_entries)) (read_demo_db mem) [Byte.x61] true ldb_readopt_default s in
  exists mem, (exists db', get mem None = Some (LDB_OK, Some [Byte.x0c], db')) /\ exists db', get mem (Some 7) = Some (LDB_NOTFOUND, None, db').
Proof.
  intros get. destruct (memtable_fill (fun _ => True) bytewise_comparator read_demo_entries) as (mt & _ & Hm).
  { apply List.Forall_cons; [repeat split; by vm_compute|apply List.Forall_nil]. }
  { repeat constructor. }
  set (mem := Memtable (mt_comparator mt) 1 (mt_arena mt) (mt_table mt)).
  assert (mt_holds (fun _ => True) bytewise_comparator mem read_demo_entries) as Hm' by exact Hm. assert (1 <= mt_refs mem) as Hr by done. clearbody mem.
  pose proof (read_demo_readable mem Hm' Hr) as R. exists mem. split.
  - destruct (read_newest (fun _ => True) bytewise_comparator test_entries (listiter_table (ldb_ikc_init bytewise_comparator))
      (list_tables bytewise_comparator (pairs_of test_entries)) (read_demo_db mem) read_demo_entries [] test_version ldb_readopt_default None [Byte.x61] true R)
      as (rc & value & db' & E1 & _ & Hres); [exact I|by vm_compute|split; by vm_compute|].
    assert (read_version (newest bytewise_comparator [Byte.x61] 12 (db_entries test_entries read_demo_entries [] test_version)) = GetValue [Byte.x0c]) as En by (vm_compute; reflexivity).
    cbn [default from_option id] in Hres. change (vs_last_sequence (db_versions (read_demo_db mem))) with 12 in Hres. rewrite En in Hres. destruct Hres as [-> ->]. by exists db'.
  - destruct (read_newest (fun _ => True) bytewise_comparator test_entries (listiter_table (ldb_ikc_init bytewise_comparator))
      (list_tables bytewise_comparator (pairs_of test_entries)) (read_demo_db mem) read_demo_entries [] test_version ldb_readopt_default (Some 7) [Byte.x61] true R)
      as (rc & value & db' & E1 & _ & Hres); [exact I|by vm_compute|split; by vm_compute|].
    assert (read_version (newest bytewise_comparator [Byte.x61] 7 (db_entries test_entries read_demo_entries [] test_version)) = GetNotFound) as En by (vm_compute; reflexivity).
    cbn [default from_option id] in Hres. rewrite En in Hres. destruct Hres as [-> ->]. by exists db'.
Defined.
