(* ===== verification/DBCompact.v ===== *)
(** * Compactions in the background

    Models what the background thread of [src/engine/src/db_impl.c] does: a
    memtable becomes a table, or tables of two levels are merged into new ones,
    without the versions that no snapshot sees. *)

From stdpp Require Import strings gmap.
From S2P Require Import Prelude Coding Status Strutil Comparator DBFormat Options Arena Skiplist Memtable LogWriter Iterator TwoLevel Merger TableBuilder FileList VersionEdit Version VersionBuilder Env VersionSet Compaction BuildTable DB DBWrite DBFiles.
#[local] Open Scope Z_scope.

(** ** Data *)

(** [ldb_output_t] *)
Record output := Output { out_number : Z; out_file_size : Z; out_smallest : bytes; out_largest : bytes }.

Definition ldb_output_create (number : Z) : output := Output number 0 [] [].

(** [ldb_cstate_t] *)
Record cstate (W : Type) := Cstate {
  cs_compaction : compaction;
  cs_smallest_snapshot : Z;
  cs_outputs : list output;
  cs_outfile : option W;
  cs_builder : option (tablegen W);
  cs_total_bytes : Z
}.
Arguments Cstate {W}.
Arguments cs_compaction {W}.
Arguments cs_smallest_snapshot {W}.
Arguments cs_outputs {W}.
Arguments cs_outfile {W}.
Arguments cs_builder {W}.
Arguments cs_total_bytes {W}.

Definition ldb_cstate_create {W} (c : compaction) : cstate W := Cstate c 0 [] None None 0.

Definition ldb_cstate_top {W} (st : cstate W) : option output := list.last (cs_outputs st).

(** Assignments to members; [set_top] to the last output. *)
Definition set_cs_compaction {W} (st : cstate W) (c : compaction) : cstate W :=
  Cstate c (cs_smallest_snapshot st) (cs_outputs st) (cs_outfile st) (cs_builder st) (cs_total_bytes st).
Definition set_cs_snapshot {W} (st : cstate W) (s : Z) : cstate W :=
  Cstate (cs_compaction st) s (cs_outputs st) (cs_outfile st) (cs_builder st) (cs_total_bytes st).
Definition set_cs_outputs {W} (st : cstate W) (outputs : list output) (total : Z) : cstate W :=
  Cstate (cs_compaction st) (cs_smallest_snapshot st) outputs (cs_outfile st) (cs_builder st) total.
Definition set_cs_file {W} (st : cstate W) (outfile : option W) (builder : option (tablegen W)) : cstate W :=
  Cstate (cs_compaction st) (cs_smallest_snapshot st) (cs_outputs st) outfile builder (cs_total_bytes st).
Definition set_top {W} (st : cstate W) (o : output) : cstate W :=
  set_cs_outputs st (removelast (cs_outputs st) ++ [o]) (cs_total_bytes st).

Section Compact.
Context (uc : comparator) {E W : Type} (ops : env_ops E W) (dirs : dir_ops E).
Context {T : Type} (tops : iter_ops T) (tables_of : E -> tables_ops T).
Implicit Types (db : ldb W) (st : cstate W).

(** ** The immutable memtable *)

(** The part of [ldb_compact_memtable] behind the table. *)
Definition install_memtable (e : E) db (rc : Z) (ed : edit) : option (E * ldb W) :=
  let rc := if (rc =? LDB_OK) && db_shutting_down db then LDB_IOERR else rc in
  '(rc, e, db) ← (if rc =? LDB_OK then
      let ed := ldb_edit_set_log_number (ldb_edit_set_prev_log_number ed 0) (db_logfile_number db) in
      '(rc, _, vs, e) ← ldb_versions_apply uc ops e (db_versions db) ed; Some (rc, e, set_db_versions db vs)
    else Some (rc, e, db));
  if rc =? LDB_OK then
    let db := set_db_mem db (db_mem db) None false in
    e ← ldb_remove_obsolete_files ops dirs e db; Some (e, db)
  else Some (e, ldb_record_background_error db rc).

Definition ldb_compact_memtable (e : E) db : option (E * ldb W) :=
  imm ← db_imm db;
  let base := vs_current (db_versions db) in
  vs ← ldb_version_ref (db_versions db) base;
  '(rc, ed, e, db) ← ldb_write_level0_table uc ops dirs tops tables_of (S (length (sl_nodes (mt_table imm)))) e (set_db_versions db vs) imm ldb_edit_init (Some base);
  vs ← ldb_version_unref (db_versions db) base;
  install_memtable e (set_db_versions db vs) rc ed.

(** ** Output files *)

Definition ldb_open_compaction_output_file (e : E) db st : option (Z * E * ldb W * cstate W) :=
  match cs_builder st with
  | Some _ => None
  | None =>
    let '(file_number, vs) := ldb_versions_new_file_number (db_versions db) in
    let db := set_db_pending (set_db_versions db vs) ({[file_number]} ∪ db_pending_outputs db) in
    let st := set_cs_outputs st (cs_outputs st ++ [ldb_output_create file_number]) (cs_total_bytes st) in
    match ldb_table_filename LDB_PATH_MAX (db_dbname db) file_number with
    | None => Some (LDB_INVALID, e, db, st)
    | Some fname =>
      match env_truncfile_create ops e fname with
      | (inl rc, e) => Some (rc, e, db, st)
      | (inr file, e) => builder ← ldb_tablegen_init (db_options db) file; Some (LDB_OK, e, db, set_cs_file st (Some file) (Some builder))
      end
    end
  end.

(** [status]: that of the input. *)
Definition ldb_finish_compaction_output_file (e : E) st (status : Z) : option (Z * E * cstate W) :=
  file ← cs_outfile st;
  builder ← cs_builder st;
  top ← ldb_cstate_top st;
  let output_number := out_number top in
  if output_number =? 0 then None
  else
    let current_entries := ldb_tablegen_entries builder in
    '(rc, builder, e) ← (if status =? LDB_OK then env_tablegen_finish ops e builder
                         else builder ← ldb_tablegen_abandon builder; Some (status, builder, e));
    let current_bytes := ldb_tablegen_size builder in
    let st := set_top st (Output output_number current_bytes (out_smallest top) (out_largest top)) in
    let st := set_cs_outputs st (cs_outputs st) (u64 (cs_total_bytes st + current_bytes)) in
    let '(rc, e) := env_finish_file ops e rc file in
    rc ← (if (rc =? LDB_OK) && (0 <? current_entries) then check_table tops tables_of e output_number current_bytes else Some rc);
    Some (rc, e, set_cs_file st None None).

(** ** Which entries are dropped *)

(** [user_key], [None] if there is none, and [last_sequence_for_key]. *)
Record keystate := Keystate { ks_user_key : option bytes; ks_last_sequence : Z }.

Definition keystate_init : keystate := Keystate None LDB_MAX_SEQUENCE.

(** [ver]: the input version. *)
Definition drop_entry (ver : ldb_version) (smallest_snapshot : Z) (c : compaction) (ks : keystate) (key : bytes)
    : option (bool * keystate * compaction) :=
  match ldb_pkey_import key with
  | None => Some (false, keystate_init, c)
  | Some ikey =>
    let first := match ks_user_key ks with Some k => negb (ldb_compare uc (user_key ikey) k =? 0) | None => true end in
    let ks := if first then Keystate (Some (user_key ikey)) LDB_MAX_SEQUENCE else ks in
    '(drop, c) ← (if ks_last_sequence ks <=? smallest_snapshot then Some (true, c)
                  else match type ikey with
                       | LDB_TYPE_DELETION =>
                         if sequence ikey <=? smallest_snapshot then ldb_compaction_is_base_level_for_key uc ver c (user_key ikey)
                         else Some (false, c)
                       | LDB_TYPE_VALUE => Some (false, c)
                       end);
    Some (drop, Keystate (ks_user_key ks) (sequence ikey), c)
  end.

(** ** The loop *)

Section Work.
(** The iterator over the inputs, over the files as they are. *)
Context {S : Type} (iops : E -> iter_ops S).

(** What happens to an entry that is kept: the status, which ends the loop
    unless it is [LDB_OK]. *)
Definition keep_entry (e : E) db st (input : S) (key : bytes) : option (Z * E * ldb W * cstate W) :=
  '(rc, e, db, st) ← match cs_builder st with
                     | None => ldb_open_compaction_output_file e db st
                     | Some _ => Some (LDB_OK, e, db, st)
                     end;
  if negb (rc =? LDB_OK) then Some (rc, e, db, st)
  else
    builder ← cs_builder st;
    top ← ldb_cstate_top st;
    let smallest := if ldb_tablegen_entries builder =? 0 then ldb_ikey_copy key else out_smallest top in
    let st := set_top st (Output (out_number top) (out_file_size top) smallest (ldb_ikey_copy key)) in
    value ← it_value (iops e) input;
    '(builder, e) ← env_tablegen_add ops e builder key value;
    let st := set_cs_file st (cs_outfile st) (Some builder) in
    if cp_max_output_file_size (cs_compaction st) <=? ldb_tablegen_size builder then
      '(rc, e, st) ← ldb_finish_compaction_output_file e st (it_status (iops e) input); Some (rc, e, db, st)
    else Some (LDB_OK, e, db, st).

(** The body of the loop behind the memtable. *)
Definition work_entry (ver : ldb_version) (e : E) db st (ks : keystate) (input : S) : option (Z * E * ldb W * cstate W * keystate * S) :=
  key ← it_key (iops e) input;
  let '(stop, c) := ldb_compaction_should_stop_before uc (db_versions db) (cs_compaction st) key in
  let st := set_cs_compaction st c in
  '(rc, e, st) ← match cs_builder st with
                 | Some _ => if stop : bool then ldb_finish_compaction_output_file e st (it_status (iops e) input) else Some (LDB_OK, e, st)
                 | None => Some (LDB_OK, e, st)
                 end;
  if negb (rc =? LDB_OK) then Some (rc, e, db, st, ks, input)
  else
    '(drop, ks, c) ← drop_entry ver (cs_smallest_snapshot st) (cs_compaction st) ks key;
    let st := set_cs_compaction st c in
    '(rc, e, db, st) ← (if drop : bool then Some (LDB_OK, e, db, st) else keep_entry e db st input key);
    if negb (rc =? LDB_OK) then Some (rc, e, db, st, ks, input)
    else input ← it_next (iops e) input; Some (LDB_OK, e, db, st, ks, input).

(** "Prioritize immutable compaction work."  The time it takes is returned. *)
Definition work_memtable (e : E) db : option (Z * E * ldb W) :=
  if db_has_imm db then
    let imm_start := dir_now_usec dirs e in
    '(e, db) ← match db_imm db with Some _ => ldb_compact_memtable e db | None => Some (e, db) end;
    Some (s64 (u64 (dir_now_usec dirs e - imm_start)), e, db)
  else Some (0, e, db).

(** More turns than the inputs have entries.  Between turns other threads may
    run; the definition says what happens when they do not. *)
Fixpoint work_loop (fuel : nat) (ver : ldb_version) (e : E) db st (ks : keystate) (imm_micros : Z) (input : S)
    : option (Z * E * ldb W * cstate W * Z * S) :=
  match fuel with
  | O => None
  | Datatypes.S fuel =>
    if it_valid (iops e) input && negb (db_shutting_down db) then
      '(micros, e, db) ← work_memtable e db;
      '(rc, e, db, st, ks, input) ← work_entry ver e db st ks input;
      let imm_micros := s64 (u64 (imm_micros + micros)) in
      if negb (rc =? LDB_OK) then Some (rc, e, db, st, imm_micros, input)
      else work_loop fuel ver e db st ks imm_micros input
    else Some (LDB_OK, e, db, st, imm_micros, input)
  end.

(** The last output file, and the status of the whole. *)
Definition work_finish (e : E) db st (rc : Z) (input : S) : option (Z * E * cstate W) :=
  let rc := if (rc =? LDB_OK) && db_shutting_down db then LDB_IOERR else rc in
  '(rc, e, st) ← match cs_builder st with
                 | Some _ => if rc =? LDB_OK then ldb_finish_compaction_output_file e st (it_status (iops e) input) else Some (rc, e, st)
                 | None => Some (rc, e, st)
                 end;
  Some (if rc =? LDB_OK then it_status (iops e) input else rc, e, st).
End Work.

(** ** The whole *)

Definition add_output (level : Z) (ed : edit) (out : output) : edit :=
  ldb_edit_add_file ed (level + 1) (out_number out) (out_file_size out) (out_smallest out) (out_largest out).

Definition ldb_install_compaction_results (e : E) db st : option (Z * E * ldb W * cstate W) :=
  let c := cs_compaction st in
  let ed := ldb_compaction_add_input_deletions c (cp_edit c) in
  let ed := fold_left (add_output (cp_level c)) (cs_outputs st) ed in
  '(rc, ed, vs, e) ← ldb_versions_apply uc ops e (db_versions db) ed;
  Some (rc, e, set_db_versions db vs, set_cs_compaction st (set_inputs c (cp_input_version c) ed (cp_inputs0 c) (cp_inputs1 c) (cp_grandparents c))).

Definition compaction_stats st (micros : Z) : ldb_stats :=
  let c := cs_compaction st in
  Stats micros (fold_left (fun n f => s64 (u64 (n + f_file_size f))) (cp_inputs0 c ++ cp_inputs1 c) 0)
    (fold_left (fun n out => s64 (u64 (n + out_file_size out))) (cs_outputs st) 0).

(** The snapshot that is the oldest in use, or the present. *)
Definition smallest_snapshot db : Z :=
  match ldb_snaplist_oldest (db_snapshots db) with Some snap => sn_sequence snap | None => vs_last_sequence (db_versions db) end.

(** The input version, and the state with the smallest snapshot. *)
Definition work_begin db st : option (ldb_version * cstate W) :=
  files ← ldb_versions_files (db_versions db) (cp_level (cs_compaction st));
  match cs_builder st, cs_outfile st with
  | None, None =>
    if negb (0 <? files) then None
    else
      v ← cp_input_version (cs_compaction st);
      ver ← vs_objects (db_versions db) !! v;
      Some (ver, set_cs_snapshot st (smallest_snapshot db))
  | _, _ => None
  end.

Definition work_end (e : E) db st (rc micros : Z) : option (Z * E * ldb W * cstate W) :=
  db ← add_stats db (cp_level (cs_compaction st) + 1) (compaction_stats st micros);
  '(rc, e, db, st) ← (if rc =? LDB_OK then ldb_install_compaction_results e db st else Some (rc, e, db, st));
  Some (rc, e, if rc =? LDB_OK then db else ldb_record_background_error db rc, st).

(** The tables are read through the cache over the files of [e]. *)
Definition inputs_table (options : dbopt) (fuel : nat) (e : E) : iter_ops (Z + ((T + @twoiter numiter (Z + T)) + mergeiter (T + @twoiter numiter (Z + T)))) :=
  merged_table (version_iter_table uc tops (tables_of e) (inputs_options options) fuel).

Definition ldb_do_compaction_work (fuel : nat) (e : E) db st : option (Z * E * ldb W * cstate W) :=
  let start_micros := dir_now_usec dirs e in
  '(ver, st) ← work_begin db st;
  let iops := inputs_table (vs_options (db_versions db)) (version_fuel ver) in
  input ← ldb_inputiter_create uc tops (tables_of e) (vs_options (db_versions db)) (cs_compaction st) (version_fuel ver);
  input ← it_first (iops e) (merged_iter input);
  '(rc, e, db, st, imm_micros, input) ← work_loop iops fuel ver e db st keystate_init 0 input;
  '(rc, e, st) ← work_finish iops e db st rc input;
  work_end e db st rc (s64 (u64 (dir_now_usec dirs e - start_micros - imm_micros))).

Definition ldb_cleanup_compaction (e : E) db st : option (E * ldb W) :=
  _ ← match cs_builder st, cs_outfile st with
      | Some builder, _ => ldb_tablegen_abandon builder ≫= fun _ => Some tt
      | None, Some _ => None
      | None, None => Some tt
      end;
  let e := match cs_outfile st with Some file => env_destroy ops e file | None => e end in
  Some (e, set_db_pending db (fold_left (fun pending out => pending ∖ {[out_number out]}) (cs_outputs st) (db_pending_outputs db))).
End Compact.
