(* ===== verification/IteratorFamily.v ===== *)
(** * Iterators over files that change

    An iterator that is open while files are written, as the input of a
    compaction, is used with other contents of the disk at each call. It keeps
    its contract as long as the files it needs stay. *)

From stdpp Require Import strings sorting.
From S2P Require Import Prelude Status Comparator DBFormat Iterator BlockBuilder TwoLevel Merger FileList.
#[local] Open Scope Z_scope.

Section Family.
Context {A : Type} (good : A -> Prop) (dom : bytes -> Prop) (cmp : comparator).

(** A state that is lawful in each good environment. *)
Definition steady {S} (ops : A -> iter_ops S) (kvs : pairs) (s : S) (p : option nat) : Prop :=
  exists rep, (forall x, good x -> IteratorLaws (ops x) dom cmp kvs rep) /\ rep s p.

Lemma steady_at {S} (ops : A -> iter_ops S) kvs s p x : good x -> steady ops kvs s p -> any_rep (ops x) dom cmp kvs s p.
Proof. intros Hx (rep & L & R). exists rep. split; [by apply L|done]. Qed.

Lemma steady_laws {S} (ops : A -> iter_ops S) kvs x : good x -> IteratorLaws (ops x) dom cmp kvs (steady ops kvs).
Proof.
  intros Hx. split.
  - intros s i (rep & L & R). pose proof (L x Hx). by apply (laws_bound s).
  - intros s p (rep & L & R). pose proof (L x Hx). by apply laws_valid.
  - intros s p (rep & L & R). pose proof (L x Hx). by eapply laws_status.
  - intros s i kv (rep & L & R). pose proof (L x Hx). by apply laws_entry.
  - intros s p (rep & L & R). pose proof (L x Hx). destruct (laws_first s p R) as (s' & -> & R'). exists s'. split; [done|]. by exists rep.
  - intros s p (rep & L & R). pose proof (L x Hx). destruct (laws_last s p R) as (s' & -> & R'). exists s'. split; [done|]. by exists rep.
  - intros s p t (rep & L & R) Ht. pose proof (L x Hx). destruct (laws_seek s p t R Ht) as (s' & -> & R'). exists s'. split; [done|]. by exists rep.
  - intros s i (rep & L & R). pose proof (L x Hx). destruct (laws_next s i R) as (s' & -> & R'). exists s'. split; [done|]. by exists rep.
  - intros s i (rep & L & R). pose proof (L x Hx). destruct (laws_prev s i R) as (s' & -> & R'). exists s'. split; [done|]. by exists rep.
Qed.

Lemma steady_const {S} (ops : iter_ops S) kvs s p : any_rep ops dom cmp kvs s p -> steady (fun _ => ops) kvs s p.
Proof. intros (rep & L & R). by exists rep. Qed.

Lemma steady_inl {S S'} (a : A -> iter_ops S) (b : A -> iter_ops S') kvs s p : steady a kvs s p -> steady (fun x => sum_iter_table (a x) (b x)) kvs (inl s) p.
Proof.
  intros (rep & L & R). exists (fun t q => match t with inl s => rep s q | inr _ => False end). split; [|done]. intros x Hx. pose proof (L x Hx).
  split; cbn [sum_iter_table it_valid it_status it_key it_value it_first it_last it_seek it_next it_prev].
  - intros [y|] i H1; [by apply (laws_bound y)|done].
  - intros [y|] q H1; [by apply laws_valid|done].
  - intros [y|] q H1; [by eapply laws_status|done].
  - intros [y|] i kv H1; [by apply laws_entry|done].
  - intros [y|] q H1; [|done]. destruct (laws_first y q H1) as (y' & -> & H'). by exists (inl y').
  - intros [y|] q H1; [|done]. destruct (laws_last y q H1) as (y' & -> & H'). by exists (inl y').
  - intros [y|] q t H1 Ht; [|done]. destruct (laws_seek y q t H1 Ht) as (y' & -> & H'). by exists (inl y').
  - intros [y|] i H1; [|done]. destruct (laws_next y i H1) as (y' & -> & H'). by exists (inl y').
  - intros [y|] i H1; [|done]. destruct (laws_prev y i H1) as (y' & -> & H'). by exists (inl y').
Qed.

Lemma steady_inr {S S'} (a : A -> iter_ops S) (b : A -> iter_ops S') kvs s p : steady b kvs s p -> steady (fun x => sum_iter_table (a x) (b x)) kvs (inr s) p.
Proof.
  intros (rep & L & R). exists (fun t q => exists y, t = inr y /\ rep y q). split; [|eauto]. intros x Hx. pose proof (L x Hx). by apply sum_iter_laws.
Qed.

(** The merging iterator over such children. *)
Lemma mergeiter_create_steady {S} (ops : A -> iter_ops S) `{!ComparatorLaws dom cmp} x0 children ls kvs : good x0 ->
  Forall2 (fun s l => exists p, steady ops l s p) children ls ->
  Permutation kvs (concat ls) -> sorted_pairs cmp kvs -> Forall (sorted_pairs cmp) ls -> Forall (fun kv => dom kv.1) kvs ->
  exists m q, ldb_mergeiter_create (ops x0) cmp children = Some m /\ steady (fun x => merged_table (ops x)) kvs (merged_iter m) q.
Proof.
  intros Hx0 Hk Hp Hs Hls Hd. pose proof (Forall2_length Hk) as Hlen. unfold ldb_mergeiter_create, merged_table.
  destruct children as [|s1 [|s2 children]].
  - destruct ls; [|done]. apply Permutation_sym, Permutation_nil in Hp as ->. exists (MergedEmpty LDB_OK), None. split; [done|].
    apply (steady_inl (fun _ => ldb_emptyiter_table)), steady_const. exists (fun s p => s = LDB_OK /\ p = None). by split; [apply _|].
  - destruct ls as [|l [|]]; [done| |done]. cbn in Hp. rewrite app_nil_r in Hp. apply List.Forall_cons_iff in Hls as [Hl _].
    assert (kvs = l) as <-.
    { apply (StronglySorted_unique_strong (fun a b => ldb_compare cmp a.1 b.1 < 0)); [|done..]. intros a b Ha Hb H1 H2.
      assert (forall kv, kv ∈ kvs -> dom kv.1) as Dk by (intros kv H%list_elem_of_In; by eapply List.Forall_forall in H; [|exact Hd]).
      rewrite <- Hp in Hb. apply (compare_lt_flip dom cmp) in H2; [lia|auto..]. }
    exists (MergedChild s1). inversion Hk as [|? ? ? ? [p R] _]; subst. exists p. split; [done|].
    apply (steady_inr (fun _ => ldb_emptyiter_table) (fun x => sum_iter_table (ops x) (ldb_mergeiter_table (ops x)))). by apply (steady_inl ops).
  - set (children' := s1 :: s2 :: children) in *.
    set (rep := fun c s p => match ls !! c with Some l => steady ops l s p | None => False end).
    destruct (interleaving dom cmp ls kvs Hp Hs Hls Hd) as (ms & <- & Hown & Hdom & Hchild).
    assert (forall x c s, good x -> children' !! c = Some s -> IteratorLaws (ops x) dom cmp (child ms c) (rep c) /\ exists p, rep c s p) as HL.
    { intros x c s Hx Hc. destruct (lookup_lt_is_Some_2 ls c) as [l El]; [apply lookup_lt_Some in Hc; lia|]. rewrite Hchild, El. unfold rep. rewrite El. cbn [default from_option id].
      split; [by apply steady_laws|]. exact (Forall2_lookup_lr _ _ _ _ _ _ Hk Hc El). }
    destruct (mergeiter_init_ok (ops x0) dom cmp ms children' rep (fun c s => HL x0 c s Hx0)) as (mi & E & R). rewrite E. exists (MergedIter mi), None. split; [done|].
    apply (steady_inr (fun _ => ldb_emptyiter_table) (fun x => sum_iter_table (ops x) (ldb_mergeiter_table (ops x)))). apply (steady_inr ops).
    exists (merge_rep cmp ms (length children') rep). split; [|done]. intros x Hx.
    rewrite <- Hlen in Hown. apply mergeiter_laws; try done. intros c Hc.
    destruct (lookup_lt_is_Some_2 children' c Hc) as [s Es]. by apply (HL x c s).
Qed.
End Family.
