(* ===== verification/CompactionDrop.v ===== *)
(** * What a compaction drops

    Of the entries that it merges, a compaction drops those that are hidden
    behind a newer one and deletions with nothing behind them.  No snapshot that
    is in use notices. *)

From stdpp Require Import strings sorting gmap.
From S2P Require Import Prelude Coding Status Strutil Comparator DBFormat KeyOrder Options Vector Memtable Iterator BlockBuilder FileList Version VersionGet VersionEdit VersionBuilder Env VersionSet Compaction CompactionInputs CompactionBase DB DBFiles DBCompact.
#[local] Open Scope Z_scope.

(** Comparisons of user keys become comparisons of their ranks. *)
Ltac rank_keys udom uc ks Hd x y :=
  pose proof (rank_sgn udom uc ks x y Hd ltac:(cbn; tauto) ltac:(cbn; tauto));
  let t := fresh "t" in set (t := ldb_compare uc x y) in *; clearbody t.

Ltac user_order udom uc ks :=
  let Hd := fresh "Hd" in assert (Forall udom ks) as Hd by (repeat (apply List.Forall_cons; [assumption|]); apply List.Forall_nil);
  repeat match goal with
  | h : context [ldb_compare uc ?x ?y] |- _ => rank_keys udom uc ks Hd x y
  | |- context [ldb_compare uc ?x ?y] => rank_keys udom uc ks Hd x y
  end; lia.

(** The entries that stay, of entries in order. *)
Fixpoint compact_entries (uc : comparator) (ver : ldb_version) (snap : Z) (c : compaction) (ks : keystate) (es : list entry) : option (list entry) :=
  match es with
  | [] => Some []
  | e :: es =>
    '(drop, ks, c) ← drop_entry uc ver snap c ks (ikey e.1);
    rest ← compact_entries uc ver snap c ks es;
    Some (if drop : bool then rest else e :: rest)
  end.

Section Drop.
Context (udom : bytes -> Prop) (uc : comparator) `{!ComparatorLaws udom uc}.
Context (ver : ldb_version) (ver_ok : Version.levels_ok udom uc ver) (level : Z) (level_ok : 0 <= level) (snap : Z).
Local Abbreviation icmp := (ldb_ikc_init uc).

(** ** The rule *)

Definition same_key (e e' : entry) : bool := ldb_compare uc (user_key e.1) (user_key e'.1) =? 0.

(** The entry before is a version of the same key that every snapshot sees. *)
Definition hidden (prev : option entry) (e : entry) : bool :=
  match prev with Some p => same_key e p && (sequence p.1 <=? snap) | None => false end.

(** A file of a deeper level may hold the key. *)
Definition deeper_cover (u : bytes) : bool := levels_cover uc ver (deeper_levels level) u.

Definition obsolete (e : entry) : bool :=
  match type e.1 with LDB_TYPE_DELETION => (sequence e.1 <=? snap) && negb (deeper_cover (user_key e.1)) | LDB_TYPE_VALUE => false end.

(** What is left of entries in order. *)
Fixpoint kept (prev : option entry) (es : list entry) : list entry :=
  match es with
  | [] => []
  | e :: es => if hidden prev e || obsolete e then kept (Some e) es else e :: kept (Some e) es
  end.

Lemma kept_sublist es : forall prev, kept prev es `sublist_of` es.
Proof. induction es as [|e es IH]; intros prev; cbn [kept]; [constructor|]. destruct (_ || _); by constructor. Qed.

Lemma kept_app es es' : forall prev, kept prev (es ++ es') = kept prev es ++ kept (from_option Some prev (list.last es)) es'.
Proof.
  induction es as [|e es IH]; intros prev; cbn [kept app]; [done|]. rewrite IH.
  replace (from_option Some prev (list.last (e :: es))) with (from_option Some (Some e) (list.last es)).
  - by destruct (_ || _).
  - destruct es as [|e' es]; [done|]. cbn [list.last]. destruct (list.last (e' :: es)) eqn:E; [done|]. by apply list.last_None in E.
Qed.

(** ** Entries in order *)

Definition entry_before (e e' : entry) : Prop :=
  ldb_compare uc (user_key e.1) (user_key e'.1) < 0 \/ ldb_compare uc (user_key e.1) (user_key e'.1) = 0 /\ entry_tag e' < entry_tag e.

Lemma entry_before_keys e e' : entry_wf udom e -> entry_wf udom e' -> ldb_compare icmp (ikey e.1) (ikey e'.1) < 0 <-> entry_before e e'.
Proof.
  intros We We'. pose proof (entry_pkey_wf _ _ We) as P. pose proof (entry_pkey_wf _ _ We') as P'.
  change (ldb_compare icmp) with (ldb_ikc_compare uc). rewrite (ikc_compare_pkeys uc e.1 e'.1) by done.
  unfold entry_before, entry_tag. rewrite pack_seqtype_lt by (apply P || apply P'). done.
Qed.

Lemma sorted_entries es : Forall (entry_wf udom) es -> sorted_pairs icmp (map entry_pair es) -> StronglySorted entry_before es.
Proof.
  intros Hw Hs. induction es as [|e es IH]; [constructor|]. cbn [map] in Hs. apply StronglySorted_inv in Hs as [Hs Hall].
  apply List.Forall_cons_iff in Hw as [We Hw]. constructor; [by apply IH|]. rewrite List.Forall_forall in Hw, Hall. apply List.Forall_forall.
  intros e' He'. apply entry_before_keys; [done|by apply Hw|]. apply (Hall (entry_pair e')). by apply in_map.
Qed.

(** ** What the code decides *)

(** The user key and the sequence of the entry before. *)
Definition ks_ok (prev : option entry) (ks : keystate) : Prop :=
  match prev with
  | None => ks = keystate_init
  | Some p => exists k, ks = Keystate (Some k) (sequence p.1) /\ udom k /\ udom (user_key p.1) /\ ldb_compare uc k (user_key p.1) = 0
  end.

Lemma drop_entry_ok c ks prev e : snap < LDB_MAX_SEQUENCE -> cp_level c = level -> entry_wf udom e -> ks_ok prev ks ->
  places_ok uc ver (level + 2) (cp_level_ptrs c) (ikey e.1) ->
  exists ks' ptrs, drop_entry uc ver snap c ks (ikey e.1) = Some (hidden prev e || obsolete e, ks', set_level_ptrs c ptrs) /\
    ks_ok (Some e) ks' /\ places_ok uc ver (level + 2) ptrs (ikey e.1).
Proof.
  intros Hsnap Hc We Hks Hp. pose proof (entry_pkey_wf _ _ We) as Pe. assert (udom (user_key e.1)) as De by apply We.
  unfold drop_entry. rewrite pkey_import_export by done. cbv zeta.
  set (first := match ks_user_key ks with Some k => negb (ldb_compare uc (user_key e.1) k =? 0) | None => true end).
  set (ks1 := if first then Keystate (Some (user_key e.1)) LDB_MAX_SEQUENCE else ks).
  assert ((ks_last_sequence ks1 <=? snap) = hidden prev e /\ exists k, ks_user_key ks1 = Some k /\ udom k /\ ldb_compare uc k (user_key e.1) = 0) as [-> (k & Ek & Dk & Ekey)].
  { pose proof (compare_refl udom uc (user_key e.1) De) as Hrefl. destruct prev as [p|]; cbn [ks_ok] in Hks; [destruct Hks as (k & -> & Dk & Dp & Ek)|subst ks].
    - unfold ks1, first, hidden, same_key. cbn [ks_user_key ks_last_sequence]. destruct (Z.eqb_spec (ldb_compare uc (user_key e.1) k) 0) as [E|E]; cbn [negb ks_last_sequence ks_user_key].
      + rewrite (proj2 (Z.eqb_eq _ _)) by (user_order udom uc [k; user_key p.1; user_key e.1]). split; [done|]. exists k. split; [done|]. split; [done|]. user_order udom uc [k; user_key e.1].
      + rewrite (proj2 (Z.eqb_neq _ _)) by (user_order udom uc [k; user_key p.1; user_key e.1]). split; [by apply Z.leb_gt|]. by exists (user_key e.1).
    - cbn. split; [by apply Z.leb_gt|]. by exists (user_key e.1). }
  rewrite Ek. destruct (hidden prev e); cbn [orb].
  { rewrite bind_some. exists (Keystate (Some k) (sequence e.1)), (cp_level_ptrs c). split; [by destruct c|]. split; [|done]. by exists k. }
  unfold obsolete. destruct (type e.1).
  - destruct (Z.leb_spec (sequence e.1) snap) as [Hle|Hgt]; cbn [andb].
    + unfold ldb_compaction_is_base_level_for_key. rewrite Hc. fold (deeper_levels level).
      pose proof (version_entry_dom udom e We) as Die.
      destruct (base_levels_ok udom uc ver ver_ok (ikey e.1) (level + 2) Die ltac:(lia) (deeper_levels level) (cp_level_ptrs c)) as (ptrs & E & Hp').
      { apply List.Forall_forall. intros l Hin%list_elem_of_In%elem_of_seqZ. lia. }
      { done. }
      rewrite user_key_ikey in E by done. rewrite E, !bind_some. exists (Keystate (Some k) (sequence e.1)), ptrs. split; [done|]. split; [by exists k|done].
    + rewrite bind_some. exists (Keystate (Some k) (sequence e.1)), (cp_level_ptrs c). split; [by destruct c|]. split; [|done]. by exists k.
  - rewrite bind_some. exists (Keystate (Some k) (sequence e.1)), (cp_level_ptrs c). split; [by destruct c|]. split; [|done]. by exists k.
Qed.

Lemma compact_entries_ok es : forall c ks prev, snap < LDB_MAX_SEQUENCE -> cp_level c = level -> Forall (entry_wf udom) es -> StronglySorted entry_before es ->
  ks_ok prev ks -> (forall e, head es = Some e -> places_ok uc ver (level + 2) (cp_level_ptrs c) (ikey e.1)) ->
  compact_entries uc ver snap c ks es = Some (kept prev es).
Proof.
  induction es as [|e es IH]; intros c ks prev Hsnap Hc Hw Hs Hks Hp; cbn [compact_entries kept]; [done|].
  apply List.Forall_cons_iff in Hw as [We Hw]. apply StronglySorted_inv in Hs as [Hs He].
  destruct (drop_entry_ok c ks prev e Hsnap Hc We Hks (Hp e eq_refl)) as (ks' & ptrs & -> & Hks' & Hp'). rewrite bind_some.
  rewrite (IH (set_level_ptrs c ptrs) ks' (Some e)); try done.
  intros e' E'. destruct es as [|e2 es]; [done|]. injection E' as ->. apply List.Forall_cons_iff in Hw as [We' _]. apply List.Forall_cons_iff in He as [Hlt _].
  apply (places_mono udom uc ver ver_ok (level + 2) ptrs (ikey e.1)); [lia|by apply version_entry_dom..| |done].
  apply (entry_before_keys e e') in Hlt; [lia|done..].
Qed.

(** ** What snapshots see *)

Context (u : bytes) (u_dom : udom u) (s : Z) (s_new : snap <= s).
#[local] Abbreviation sees := (newest uc u s).
#[local] Abbreviation has_key e := (ldb_compare uc (user_key (fst e)) u = 0).

Lemma sees_sublist es es' : es `sublist_of` es' -> sees es' = None -> sees es = None.
Proof. rewrite !newest_none. intros Hsub H e He. apply H. eapply elem_of_sublist; [exact He|exact Hsub]. Qed.

Lemma visible_spec e : visible uc u s e = true <-> has_key e /\ sequence e.1 <= s.
Proof. unfold visible. by rewrite andb_true_iff, Z.eqb_eq, Z.leb_le. Qed.

(** Behind an entry of a larger key there is none of the key. *)
Lemma none_behind e es : entry_wf udom e -> Forall (entry_wf udom) es -> Forall (entry_before e) es -> 0 < ldb_compare uc (user_key e.1) u -> sees es = None.
Proof.
  intros We Hw Hb Hgt. apply newest_none. intros e' He'. apply not_true_iff_false. rewrite visible_spec. intros [Hk _].
  rewrite List.Forall_forall in Hw, Hb. apply list_elem_of_In in He'. specialize (Hw e' He'). specialize (Hb e' He').
  destruct We as (_ & _ & _ & De), Hw as (_ & _ & _ & De').
  unfold entry_before in Hb. user_order udom uc [u; user_key e.1; user_key e'.1].
Qed.

Lemma sees_first e es : entry_wf udom e -> Forall (entry_wf udom) es -> Forall (entry_before e) es -> visible uc u s e = true -> sees (e :: es) = Some e.
Proof.
  intros We Hw Hb Hv. apply (is_newest_eq uc). split; [by left|]. split; [done|]. intros e' [->|He']%elem_of_cons Hv'; [by left|right].
  rewrite List.Forall_forall in Hw, Hb. apply list_elem_of_In in He'. specialize (Hw e' He'). specialize (Hb e' He').
  apply visible_spec in Hv as [Hk _], Hv' as [Hk' _]. destruct We as (_ & _ & _ & De), Hw as (_ & _ & _ & De').
  destruct Hb as [Hb|[_ Hb]]; [|done]. exfalso. user_order udom uc [u; user_key e.1; user_key e'.1].
Qed.

(** Behind a version of the key that every snapshot sees nothing of the key is
    kept. *)
Lemma kept_hidden es : forall p, entry_wf udom p -> Forall (entry_wf udom) es -> StronglySorted entry_before (p :: es) ->
  has_key p -> sequence p.1 <= snap -> sees (kept (Some p) es) = None.
Proof.
  induction es as [|e es IH]; intros p Wp Hw Hs Hk Hseq; [done|]. apply List.Forall_cons_iff in Hw as [We Hw].
  apply StronglySorted_inv in Hs as [Hs Hp]. apply List.Forall_cons_iff in Hp as [Hpe Hp]. pose proof (StronglySorted_inv Hs) as [Hs' He].
  destruct (Z.eq_dec (ldb_compare uc (user_key e.1) u) 0) as [Hke|Hne].
  - assert (hidden (Some p) e = true) as Hh.
    { unfold hidden, same_key. apply andb_true_iff. split; [|by apply Z.leb_le]. apply Z.eqb_eq.
      destruct Wp as (_ & _ & _ & Dp), We as (_ & _ & _ & De). user_order udom uc [u; user_key p.1; user_key e.1]. }
    cbn [kept]. rewrite Hh. cbn [orb]. apply IH; try done.
    destruct Wp as (Sp & _ & _ & Dp), We as (Se & _ & _ & De). destruct Hpe as [Hpe|[_ Hpe]]; [exfalso; user_order udom uc [u; user_key p.1; user_key e.1]|].
    apply pack_seqtype_lt in Hpe; [lia|done|done].
  - apply (sees_sublist _ (e :: es)); [apply kept_sublist|]. assert (0 < ldb_compare uc (user_key e.1) u) as Hgt.
    { destruct Wp as (_ & _ & _ & Dp), We as (_ & _ & _ & De). destruct Hpe as [Hpe|[Hpe _]]; user_order udom uc [u; user_key p.1; user_key e.1]. }
    cbn [newest]. rewrite (none_behind e es We Hw He Hgt). destruct (visible uc u s e) eqn:Hv; [|done]. apply visible_spec in Hv as [? _]. lia.
Qed.

(** What the snapshot sees is kept, unless it is a deletion with nothing of the
    key behind it. *)
Lemma kept_sees es : forall prev, Forall (entry_wf udom) (from_option (fun p => [p]) [] prev ++ es) ->
  StronglySorted entry_before (from_option (fun p => [p]) [] prev ++ es) ->
  (forall p, prev = Some p -> has_key p -> snap < sequence p.1) ->
  sees (kept prev es) = sees es \/
  sees (kept prev es) = None /\ exists e, sees es = Some e /\ type e.1 = LDB_TYPE_DELETION /\ deeper_cover (user_key e.1) = false /\ has_key e.
Proof.
  induction es as [|e es IH]; intros prev Hw Hs Hprev; [by left|].
  assert (Forall (entry_wf udom) (e :: es) /\ StronglySorted entry_before (e :: es)) as [Hw' Hs'].
  { destruct prev; [|done]. apply List.Forall_cons_iff in Hw as [_ Hw]. by apply StronglySorted_inv in Hs as [Hs _]. }
  pose proof Hw' as Hw1. apply List.Forall_cons_iff in Hw1 as [We Hwe]. pose proof (StronglySorted_inv Hs') as [Hse He].
  destruct (visible uc u s e) eqn:Hv.
  - pose proof Hv as Hv'. apply visible_spec in Hv as [Hk Hq]. rewrite (sees_first e es We Hwe He Hv').
    assert (hidden prev e = false) as Hh.
    { destruct prev as [p|]; [|done]. unfold hidden. apply andb_false_iff. destruct (same_key e p) eqn:Esame; [right|by left]. apply Z.leb_gt.
      apply (Hprev p eq_refl). apply Z.eqb_eq in Esame. apply List.Forall_cons_iff in Hw as [(_ & _ & _ & Dp) _]. destruct We as (_ & _ & _ & De).
      user_order udom uc [u; user_key p.1; user_key e.1]. }
    cbn [kept]. rewrite Hh. cbn [orb]. destruct (obsolete e) eqn:Eo.
    + right. unfold obsolete in Eo. destruct (type e.1) eqn:Et; [|done]. apply andb_true_iff in Eo as [Eo Ec]. apply Z.leb_le in Eo. apply negb_true_iff in Ec.
      split; [|by exists e]. by apply (kept_hidden es e).
    + left. apply sees_first; [done| | |done].
      * apply List.Forall_forall. intros x Hx%list_elem_of_In. rewrite List.Forall_forall in Hwe. apply Hwe, list_elem_of_In.
        eapply elem_of_sublist; [exact Hx|apply kept_sublist].
      * apply List.Forall_forall. intros x Hx%list_elem_of_In. rewrite List.Forall_forall in He. apply He, list_elem_of_In.
        eapply elem_of_sublist; [exact Hx|apply kept_sublist].
  - assert (sees (e :: es) = sees es) as -> by (cbn [newest]; rewrite Hv; by destruct (sees es)).
    assert (sees (kept prev (e :: es)) = sees (kept (Some e) es)) as ->.
    { cbn [kept]. destruct (_ || _); [done|]. cbn [newest]. rewrite Hv. by destruct (sees (kept (Some e) es)). }
    apply IH; [done|done|]. intros p [= <-] Hk. apply not_true_iff_false in Hv. rewrite visible_spec in Hv. lia.
Qed.
End Drop.
