(* ===== verification/CompactionViews.v ===== *)
(** * A compaction keeps what snapshots read

    The version that a compaction leaves reads like the one before it, for every
    snapshot in use, although versions of keys are gone. *)

From stdpp Require Import strings sorting gmap.
From S2P Require Import Prelude Coding Status Strutil Comparator DBFormat KeyOrder Options Vector Memtable Iterator BlockBuilder FileList Version VersionGet VersionEdit VersionBuilder Env VersionSet Compaction CompactionInputs CompactionBase CompactionResult DB DBFiles DBCompact CompactionDrop.
#[local] Open Scope Z_scope.

(** What a snapshot reads: no difference is made between a deletion and a key
    that is not there. *)
Definition view (uc : comparator) (u : bytes) (s : Z) (h : list entry) : option bytes :=
  match read_version (newest uc u s h) with GetValue x => Some x | _ => None end.

#[export] Instance filemeta_eq_dec : EqDecision filemeta.
Proof. solve_decision. Defined.
#[export] Instance fileptr_eq_dec : EqDecision fileptr.
Proof. solve_decision. Defined.

Section Views.
Context (udom : bytes -> Prop) (uc : comparator) `{!ComparatorLaws udom uc}.
Context (ents_of : Z -> Z -> option (list entry)).
Local Abbreviation icmp := (ldb_ikc_init uc).
Local Abbreviation idom := (ikey_dom udom).
Local Abbreviation ukey := ldb_extract_user_key.
Local Abbreviation vfile := (version_file udom uc ents_of).
Local Abbreviation entries := (file_entries ents_of).

Context (ver : ldb_version) (level : Z) (files0 files1 in0 in1 : list fileptr) (all : bytes * bytes) (largest : bytes).
Hypothesis ver_wf : version_wf udom uc ents_of ver.
Hypothesis level_range : 0 <= level /\ level + 1 < LDB_NUM_LEVELS.
Hypothesis files0_eq : level_files ver level = Some files0.
Hypothesis files1_eq : level_files ver (level + 1) = Some files1.
Hypothesis inputs_ok : compaction_inputs udom uc level files0 files1 in0 in1 all largest.

(** A file that is not taken. *)
Record stays (l : Z) (f : fileptr) : Prop := {
  st_file : exists files, level_files ver l = Some files /\ f ∈ files;
  st_first : l = level -> f ∉ in0;
  st_second : l = level + 1 -> f ∉ in1
}.

Lemma stays_vfile l f : stays l f -> vfile f.
Proof. intros [(files & E & Hf) _ _]. by apply (files_at udom uc ents_of ver ver_wf l files). Qed.

Lemma taken_file x : x ∈ in0 ++ in1 -> (x ∈ in0 /\ x ∈ files0 \/ x ∈ in1 /\ x ∈ files1) /\ vfile x.
Proof. by apply (input_file udom uc ents_of ver level files0 files1 in0 in1 all largest). Qed.

Lemma stays_level l f : stays l f -> 0 <= l < LDB_NUM_LEVELS.
Proof. intros [(files & E & _) _ _]. apply (level_in ver l files); [apply ver_wf|done]. Qed.

(** ** What stays is newer, or lies deeper *)

(** Files with entries of the same key. *)
Lemma shared_key f g e e' : vfile f -> vfile g -> e ∈ entries f -> e' ∈ entries g -> ldb_compare uc (user_key e.1) (user_key e'.1) = 0 ->
  ldb_compare uc (ukey (f_smallest f)) (ukey (f_largest g)) <= 0 /\ ldb_compare uc (ukey (f_smallest g)) (ukey (f_largest f)) <= 0.
Proof.
  intros Hf Hg He He' Heq. destruct (entry_range udom uc ents_of f e Hf He) as (We & H1 & H2).
  destruct (entry_range udom uc ents_of g e' Hg He') as (We' & H3 & H4).
  destruct (file_entry_dom udom uc ents_of f e Hf He) as [De _]. destruct (file_entry_dom udom uc ents_of g e' Hg He') as [De' _].
  pose proof (version_file_wf udom uc ents_of f Hf). pose proof (version_file_wf udom uc ents_of g Hg).
  assert (ldb_compare uc (ukey (ikey e.1)) (ukey (ikey e'.1)) = 0) as Heq' by (by rewrite !user_key_ikey by (by apply (entry_pkey_wf udom))).
  clear Heq. split; files_keys_order udom uc [f; g] [ikey e.1; ikey e'.1].
Qed.

Lemma stays_second f x e e' : stays (level + 1) f -> x ∈ in0 ++ in1 -> e' ∈ entries f -> e ∈ entries x ->
  ldb_compare uc (user_key e'.1) (user_key e.1) = 0 -> entry_tag e < entry_tag e'.
Proof.
  intros Hf Hx He' He Heq. pose proof (stays_vfile _ _ Hf) as Vf. pose proof (taken_file x Hx) as [Hx' Vx].
  destruct Hf as [(files & E & Hf) _ Hn]. rewrite files1_eq in E. injection E as <-. specialize (Hn eq_refl).
  pose proof (shared_key f x e' e Vf Vx He' He Heq) as [S1 S2].
  pose proof (version_file_wf udom uc ents_of f Vf) as Wf. pose proof (version_file_wf udom uc ents_of x Vx) as Wx.
  destruct inputs_ok as [_ _ [Hsub _ _] Hco (range & Hr & _ & Hall & _) _]. destruct (cf_dom _ _ _ _ Hr) as [D1 D2].
  destruct Hx' as [[Hx0 _]|[Hx1 Hx1']].
  - destruct Hn. apply Hall; [done|]. pose proof (cf_small _ _ _ _ Hr x Hx0). pose proof (cf_large _ _ _ _ Hr x Hx0).
    split; files_keys_order udom uc [f; x] [range.1; range.2].
  - assert (disjoint_sorted uc files1) as Hs by (apply (vw_sorted _ _ _ _ ver_wf (level + 1)); [lia|done]).
    destruct (level_total uc files1 f x Hs Hf Hx1') as [->|[Hfx|Hxf]]; [done|by apply (front_newer udom uc ents_of f x)|].
    destruct Hn. apply (Hco x f); [done..|]. unfold in_front in Hxf. files_order udom uc [f; x].
Qed.

(** A deeper file that holds a key covers it. *)
Lemma deeper_covers l f e : level + 2 <= l -> stays l f -> e ∈ entries f -> deeper_cover uc ver level (user_key e.1) = true.
Proof.
  intros Hl Hf He. pose proof (stays_level _ _ Hf) as Hr. pose proof (stays_vfile _ _ Hf) as Vf. destruct Hf as [(files & E & Hf) _ _].
  unfold deeper_cover, levels_cover. apply existsb_exists. exists l. split; [apply list_elem_of_In; unfold deeper_levels; apply elem_of_seqZ; lia|].
  rewrite E. cbn [default from_option id]. apply existsb_exists. exists f. split; [by apply list_elem_of_In|].
  destruct (entry_range udom uc ents_of f e Vf He) as (We & H1 & H2). destruct (file_entry_dom udom uc ents_of f e Vf He) as [De _].
  pose proof (version_file_wf udom uc ents_of f Vf). unfold covers_key. apply andb_true_iff. rewrite !Z.leb_le.
  rewrite <- (user_key_ikey e.1) by (by apply (entry_pkey_wf udom)). split; files_keys_order udom uc [f] [ikey e.1].
Qed.

Lemma deeper_cover_eq u u' : udom u -> udom u' -> ldb_compare uc u u' = 0 -> deeper_cover uc ver level u = deeper_cover uc ver level u'.
Proof.
  intros Du Du' E. apply (compare_eq_flip udom uc) in E as E'; [|done..]. unfold deeper_cover, levels_cover.
  enough (forall a b, udom a -> udom b -> ldb_compare uc a b = 0 -> existsb (fun l => existsb (covers_key uc a) (default [] (level_files ver l))) (deeper_levels level) = true ->
    existsb (fun l => existsb (covers_key uc b) (default [] (level_files ver l))) (deeper_levels level) = true) as H.
  { apply eq_true_iff_eq. split; apply H; done. }
  intros a b Da Db Eab. rewrite !existsb_exists. intros (l & Hl & Hc). exists l. split; [done|]. apply existsb_exists in Hc as (f & Hf & Hc). apply existsb_exists. exists f. split; [done|].
  destruct (level_files ver l) as [files|] eqn:El; [|done]. cbn [default from_option id] in Hf. apply list_elem_of_In in Hf.
  pose proof (files_at udom uc ents_of ver ver_wf l files f El Hf) as Vf. destruct (version_file_wf udom uc ents_of f Vf) as [[_ U1] [_ U2] _ _].
  unfold covers_key in *. apply andb_true_iff in Hc as [C1%Z.leb_le C2%Z.leb_le]. apply andb_true_iff. rewrite !Z.leb_le.
  split; user_order udom uc [a; b; ldb_extract_user_key (f_smallest f); ldb_extract_user_key (f_largest f)].
Qed.

Lemma stays_newer l f x e e' : stays l f -> x ∈ in0 ++ in1 -> e' ∈ entries f -> e ∈ entries x -> ldb_compare uc (user_key e'.1) (user_key e.1) = 0 ->
  entry_tag e < entry_tag e' \/ deeper_cover uc ver level (user_key e.1) = true.
Proof.
  intros Hf Hx He' He Heq. pose proof (taken_file x Hx) as [Hx' Vx]. pose proof (stays_vfile _ _ Hf) as Vf.
  destruct (Z.lt_ge_cases l level) as [Hl|Hl]; [left|].
  - destruct Hf as [(files & E & Hf) _ _].
    destruct Hx' as [[_ Hx0]|[_ Hx1]]; [apply (vw_deeper _ _ _ _ ver_wf l level files files0 f x)|apply (vw_deeper _ _ _ _ ver_wf l (level + 1) files files1 f x)]; try done; lia.
  - destruct (Z.eq_dec l level) as [->|Hne]; [left|].
    + destruct Hf as [(files & E & Hf) Hn _]. rewrite files0_eq in E. injection E as <-. specialize (Hn eq_refl). destruct Hx' as [[Hx0 _]|[_ Hx1]].
      * apply (first_separated udom uc ents_of level files0 in0 f x); try done.
        -- by apply (level_vfiles udom uc ents_of ver ver_wf level).
        -- intros Hne. by apply (vw_sorted _ _ _ _ ver_wf level).
        -- apply inputs_ok.
      * apply (vw_deeper _ _ _ _ ver_wf level (level + 1) files0 files1 f x); try done; lia.
    + destruct (Z.eq_dec l (level + 1)) as [->|Hne1]; [left; by apply (stays_second f x)|right].
      rewrite <- (deeper_cover_eq (user_key e'.1)) by (first [done | by destruct (entry_range udom uc ents_of f e' Vf He') as ((_ & _ & _ & ?) & _)
        | by destruct (entry_range udom uc ents_of x e Vx He) as ((_ & _ & _ & ?) & _)]).
      apply (deeper_covers l f); [lia|done|done].
Qed.
(** ** A key and a tag name one entry *)

Lemma same_file f e e' : vfile f -> e ∈ entries f -> e' ∈ entries f -> ldb_compare uc (user_key e.1) (user_key e'.1) = 0 -> entry_tag e = entry_tag e' -> e = e'.
Proof.
  intros Hf He He' Heq Ht. pose proof (vf_wf _ _ _ f Hf) as Hw. rewrite List.Forall_forall in Hw.
  pose proof (Hw e (proj1 (list_elem_of_In _ _) He)) as We. pose proof (Hw e' (proj1 (list_elem_of_In _ _) He')) as We'.
  pose proof (fk_sorted _ _ _ _ (vf_ok _ _ _ f Hf)) as Hs. rewrite (file_kvs_entries udom uc ents_of f Hf) in Hs.
  apply (sorted_entries udom uc) in Hs; [|by apply List.Forall_forall].
  apply list_elem_of_lookup in He as [i Hi], He' as [j Hj]. apply (compare_eq_flip udom uc) in Heq as Heq'; [|apply We'|apply We].
  destruct (Nat.lt_total i j) as [Hij|[->|Hij]]; [|congruence|].
  - pose proof (sorted_lookup _ _ i j e e' Hs Hi Hj Hij) as [?|[_ ?]]; lia.
  - pose proof (sorted_lookup _ _ j i e' e Hs Hj Hi Hij) as [?|[_ ?]]; lia.
Qed.

Lemma same_level l files f g e e' : level_files ver l = Some files -> f ∈ files -> g ∈ files -> e ∈ entries f -> e' ∈ entries g ->
  ldb_compare uc (user_key e.1) (user_key e'.1) = 0 -> entry_tag e = entry_tag e' -> e = e'.
Proof.
  intros E Hf Hg He He' Heq Ht. pose proof (files_at udom uc ents_of ver ver_wf l files f E Hf) as Vf. pose proof (files_at udom uc ents_of ver ver_wf l files g E Hg) as Vg.
  assert (udom (user_key e.1) /\ udom (user_key e'.1)) as [De De'].
  { split; [destruct (entry_range udom uc ents_of f e Vf He) as ((_ & _ & _ & ?) & _)|destruct (entry_range udom uc ents_of g e' Vg He') as ((_ & _ & _ & ?) & _)]; done. }
  pose proof (proj2 (compare_eq_flip udom uc _ _ De' De) Heq) as Heq'. destruct (Z.eq_dec l 0) as [->|Hl].
  - destruct (Z.lt_total (f_number f) (f_number g)) as [Hn|[Hn|Hn]].
    + pose proof (vw_zero _ _ _ _ ver_wf files g f E Hg Hf Hn e' e He' He Heq'). lia.
    + apply (number_inj files f g) in Hn as ->; [by apply (same_file g)|by apply (vw_numbers _ _ _ _ ver_wf)|done..].
    + pose proof (vw_zero _ _ _ _ ver_wf files f g E Hf Hg Hn e e' He He' Heq). lia.
  - destruct (level_total uc files f g) as [->|[H|H]]; [by apply (vw_sorted _ _ _ _ ver_wf l)|done|done|by apply (same_file g)| |].
    + pose proof (front_newer udom uc ents_of f g Vf Vg H e e' He He' Heq). lia.
    + pose proof (front_newer udom uc ents_of g f Vg Vf H e' e He' He Heq'). lia.
Qed.

Definition in_level (e : entry) (l : Z) : Prop := exists files f, level_files ver l = Some files /\ f ∈ files /\ e ∈ entries f.

Lemma in_level_wf e l : in_level e l -> entry_wf udom e.
Proof.
  intros (files & f & E & Hf & He). apply (entry_range udom uc ents_of f e); [|done]. by apply (files_at udom uc ents_of ver ver_wf l files).
Qed.

Lemma same_entry e e' l l' : in_level e l -> in_level e' l' -> ldb_compare uc (user_key e.1) (user_key e'.1) = 0 -> entry_tag e = entry_tag e' -> e = e'.
Proof.
  intros He He' Heq Ht. pose proof (in_level_wf e l He) as (_ & _ & _ & De). pose proof (in_level_wf e' l' He') as (_ & _ & _ & De').
  destruct He as (files & f & E & Hf & He), He' as (files' & g & E' & Hg & He'). destruct (Z.lt_total l l') as [H|[<-|H]].
  - pose proof (vw_deeper _ _ _ _ ver_wf l l' files files' f g H E E' Hf Hg e e' He He' Heq). lia.
  - rewrite E in E'. injection E' as <-. by apply (same_level l files f g).
  - apply (compare_eq_flip udom uc) in Heq; [|done..]. pose proof (vw_deeper _ _ _ _ ver_wf l' l files' files g f H E' E Hg Hf e' e He' He Heq). lia.
Qed.

Lemma version_entries_level e : e ∈ version_entries ents_of ver <-> exists l, in_level e l.
Proof.
  unfold version_entries, in_level. rewrite files_entries_elem. split.
  - intros (f & (files & Hin & Hf%list_elem_of_In)%list_elem_of_In%in_concat & He). apply list_elem_of_In, list_elem_of_lookup in Hin as [i Hi].
    exists (Z.of_nat i), files, f. split; [|done]. unfold level_files, item. rewrite (proj2 (Z.ltb_ge _ _)) by lia. by rewrite Nat2Z.id.
  - intros (l & files & f & E & Hf & He). exists f. split; [|done]. apply list_elem_of_In, in_concat. exists files.
    unfold level_files, item in E. destruct (l <? 0); [done|]. split; [by apply list_elem_of_In, (list_elem_of_lookup_2 _ (Z.to_nat l))|by apply list_elem_of_In].
Qed.

Lemma newest_version u s e : udom u -> newest uc u s (version_entries ents_of ver) = Some e -> is_newest uc u s (version_entries ents_of ver) (Some e).
Proof.
  intros Du E. apply newest_some in E as (H1 & H2 & H3). split; [done|]. split; [done|]. intros e' He' Hv'.
  pose proof (H3 e' He' Hv') as Hle. apply version_entries_level in H1 as [l H1], He' as [l' He'].
  destruct (Z.eq_dec (entry_tag e') (entry_tag e)) as [Ht|Ht]; [left|lia].
  apply (same_entry e' e l' l); try done. apply (visible_same udom uc u s); try done; [by apply (in_level_wf e' l')|by apply (in_level_wf e l)].
Qed.

(** ** The view *)

Context (snap : Z) (es : list entry).
Hypothesis es_inputs : forall e, e ∈ es <-> e ∈ files_entries ents_of (in0 ++ in1).
Hypothesis es_sorted : sorted_pairs icmp (map entry_pair es).

Lemma es_taken e : e ∈ es -> (exists x, x ∈ in0 ++ in1 /\ e ∈ entries x) /\ exists l, in_level e l.
Proof.
  intros (x & Hx & He)%es_inputs%files_entries_elem. split; [by exists x|]. destruct (taken_file x Hx) as [[[_ H]|[_ H]] _].
  - by exists level, files0, x.
  - by exists (level + 1), files1, x.
Qed.

Lemma es_wf : Forall (entry_wf udom) es.
Proof. apply List.Forall_forall. intros e He%list_elem_of_In. apply es_taken in He as [_ [l Hl]]. by apply (in_level_wf e l). Qed.

Lemma version_split e : e ∈ version_entries ents_of ver <-> e ∈ es \/ exists l f, stays l f /\ e ∈ entries f.
Proof.
  rewrite version_entries_level. split.
  - intros (l & files & f & E & Hf & He). destruct (decide (f ∈ in0 ++ in1)) as [Hin|Hn].
    + left. apply es_inputs, files_entries_elem. by exists f.
    + right. exists l, f. split; [|done]. rewrite elem_of_app in Hn. split; [by exists files|tauto|tauto].
  - intros [He|(l & f & [(files & E & Hf) _ _] & He)]; [by apply es_taken|]. by exists l, files, f.
Qed.

(** Nothing that stays is older than a deletion with nothing deeper. *)
Lemma stays_invisible u s e : udom u -> newest uc u s (version_entries ents_of ver) = Some e -> e ∈ es -> deeper_cover uc ver level (user_key e.1) = false ->
  forall l f e', stays l f -> e' ∈ entries f -> visible uc u s e' = false.
Proof.
  intros Du En He Hd l f e' Hf He'. apply not_true_iff_false. intros Hv. apply newest_some in En as (_ & V & Hmax).
  assert (e' ∈ version_entries ents_of ver) as Hin by (apply version_split; right; by exists l, f). specialize (Hmax e' Hin Hv).
  destruct (es_taken e He) as ((x & Hx & Hex) & (lx & Hlx)). apply version_entries_level in Hin as [l' Hl'].
  assert (ldb_compare uc (user_key e'.1) (user_key e.1) = 0) as Heq.
  { apply (visible_same udom uc u s); try done; [by apply (in_level_wf e' l')|by apply (in_level_wf e lx)]. }
  destruct (stays_newer l f x e e' Hf Hx He' Hex Heq) as [?|?]; [lia|congruence].
Qed.

Lemma view_kept u s new : snap < LDB_MAX_SEQUENCE -> udom u -> snap <= s ->
  (forall e, e ∈ new <-> e ∈ kept uc ver level snap None es \/ exists l f, stays l f /\ e ∈ entries f) ->
  view uc u s new = view uc u s (version_entries ents_of ver).
Proof.
  intros Hsnap Du Hs Hnew. set (k := kept uc ver level snap None es) in *.
  assert (forall e, e ∈ k -> e ∈ es) as Hsub by (intros e He; eapply elem_of_sublist; [exact He|apply kept_sublist]).
  assert (forall e, e ∈ new -> e ∈ version_entries ents_of ver) as Hold by (intros e [He|He]%Hnew; apply version_split; auto).
  unfold view. destruct (newest uc u s (version_entries ents_of ver)) as [e|] eqn:En.
  - pose proof (newest_version u s e Du En) as (Hin & Hv & Hmax).
    assert (e ∈ new -> newest uc u s new = Some e) as Hstay.
    { intros He. apply is_newest_eq. split; [done|]. split; [done|]. intros e' He' Hv'. apply Hmax; [by apply Hold|done]. }
    destruct (proj1 (version_split e) Hin) as [He|He]; [|by rewrite Hstay by (apply Hnew; by right)].
    assert (newest uc u s es = Some e) as Ees.
    { apply is_newest_eq. split; [done|]. split; [done|]. intros e' He' Hv'. apply Hmax; [apply version_split; by left|done]. }
    destruct (kept_sees udom uc ver level snap u Du s Hs es None es_wf (sorted_entries udom uc es es_wf es_sorted) ltac:(done))
      as [Hk|(Hk & e0 & E0 & Ht & Hd & _)]; fold k in Hk.
    + rewrite Ees in Hk. apply newest_some in Hk as (Hk & _). by rewrite Hstay by (apply Hnew; by left).
    + rewrite Ees in E0. injection E0 as <-. assert (newest uc u s new = None) as ->; [|cbn [read_version]; by rewrite Ht].
      apply newest_none. intros e' [He'|(l & f & Hf & He')]%Hnew; [by apply (proj1 (newest_none uc u s k) Hk)|].
      by apply (stays_invisible u s e Du En He Hd l f).
  - assert (newest uc u s new = None) as ->; [|done]. rewrite newest_none in En. apply newest_none. intros e He. by apply En, Hold.
Qed.
End Views.

(** ** The version that the edit gives *)

Section NewVersion.
Context (udom : bytes -> Prop) (uc : comparator) `{!ComparatorLaws udom uc} (ents_of : Z -> Z -> option (list entry)).
Context (ver v' : ldb_version) (level : Z) (files0 files1 in0 in1 outputs : list fileptr).
Hypothesis ver_inv : levels_inv udom uc ver.
Hypothesis new_inv : levels_inv udom uc v'.
Hypothesis files0_eq : level_files ver level = Some files0.
Hypothesis files1_eq : level_files ver (level + 1) = Some files1.
Hypothesis in0_sub : forall f, f ∈ in0 -> f ∈ files0.
Hypothesis in1_sub : forall f, f ∈ in1 -> f ∈ files1.
Hypothesis level_range : 0 <= level /\ level + 1 < LDB_NUM_LEVELS.
Hypothesis new_map : forall l n i, level_ok l -> base_map v' l !! n = Some i <->
  (l = level + 1 /\ exists f, f ∈ outputs /\ f_number f = n /\ meta_info (fp_meta f) = i) \/
  (base_map ver l !! n = Some i /\ ~ (l = level /\ n ∈ numbers in0) /\ ~ (l = level + 1 /\ n ∈ numbers in1)).

Lemma number_taken l files inputs f : level_files ver l = Some files -> (forall g, g ∈ inputs -> g ∈ files) -> f ∈ files -> f_number f ∈ numbers inputs -> f ∈ inputs.
Proof.
  intros E Hsub Hf (g & En & Hg%list_elem_of_In)%list_elem_of_In%in_map_iff.
  by rewrite <- (same_number udom uc ver ver_inv l files g f E (Hsub g Hg) Hf En).
Qed.

Lemma new_entries e : e ∈ version_entries ents_of v' <-> e ∈ files_entries ents_of outputs \/ exists l f, stays ver level in0 in1 l f /\ e ∈ file_entries ents_of f.
Proof.
  rewrite version_entries_level. split.
  - intros (l & files & f & E & Hf & He). pose proof (level_in v' l files (vi_levels _ _ _ new_inv) E) as Hl.
    assert (base_map v' l !! f_number f = Some (meta_info (fp_meta f))) as Hm by (apply (base_lookup udom uc v' new_inv); [done|by exists files, f]).
    apply new_map in Hm as [(-> & g & Hg & En & Ei)|(Hm & N0 & N1)]; [left|right|done].
    + apply files_entries_elem. exists g. split; [done|]. by destruct (info_keeps ents_of f g En Ei) as (_ & _ & _ & ->).
    + apply (base_lookup udom uc ver ver_inv) in Hm as (fs & g & Eg & Hg & En & Ei); [|done]. exists l, g.
      destruct (info_keeps ents_of f g En Ei) as (_ & _ & _ & Ee). rewrite Ee. split; [|done]. split; [by exists fs| |].
      * intros -> Hin. apply N0. split; [done|]. rewrite <- En. by apply file_number_in.
      * intros -> Hin. apply N1. split; [done|]. rewrite <- En. by apply file_number_in.
  - assert (forall l n i, level_ok l -> base_map v' l !! n = Some i -> forall f, f_number f = n -> meta_info (fp_meta f) = i -> e ∈ file_entries ents_of f -> exists l, in_level ents_of v' e l) as Hin.
    { intros l n i Hl Hm f En Ei He. apply (base_lookup udom uc v' new_inv) in Hm as (fs & g & Eg & Hg & Eng & Eig); [|done].
      exists l, fs, g. split; [done|]. split; [done|]. destruct (info_keeps ents_of f g) as (_ & _ & _ & ->); [congruence|congruence|done]. }
    intros [(f & Hf & He)%files_entries_elem|(l & f & [(files & E & Hf) N0 N1] & He)].
    + apply (Hin (level + 1) (f_number f) (meta_info (fp_meta f))) with f; [unfold level_ok; lia| |done..].
      apply new_map; [unfold level_ok; lia|]. left. split; [done|]. by exists f.
    + pose proof (level_in ver l files (vi_levels _ _ _ ver_inv) E) as Hl. apply (Hin l (f_number f) (meta_info (fp_meta f))) with f; [done| |done..].
      apply new_map; [done|]. right. split; [apply (base_lookup udom uc ver ver_inv); [done|by exists files, f]|]. split; intros [-> Hn].
      * rewrite files0_eq in E. injection E as <-. by apply N0, (number_taken level files0).
      * rewrite files1_eq in E. injection E as <-. by apply N1, (number_taken (level + 1) files1).
Qed.
End NewVersion.

(** ** Properties *)

(** C5: A compaction of inputs that the code chooses keeps what every snapshot in
    use reads. The loop decides of each entry of the inputs, in order, whether it
    is dropped, and always gives an answer; if the outputs hold what is left, the
    builder accepts the edit, the version it builds is well-formed, and for every
    key and every snapshot that is not older than [snap], the oldest in use, the
    newest visible version in it gives the value it gave before, or none as
    before, although old versions and deletions are gone. *)
Theorem compaction_invisible udom uc `{!ComparatorLaws udom uc} ents_of options ver level files0 start in0 in1 all largest es snap heap pointers :
  version_wf udom uc ents_of ver -> levels_inv udom uc ver -> 0 <= level -> level + 1 < LDB_NUM_LEVELS ->
  level_files ver level = Some files0 -> start_ok udom uc level files0 start ->
  choose_inputs uc options ver level start = Some (in0, in1, all, largest) -> zlen pointers = LDB_NUM_LEVELS ->
  es ≡ₚ files_entries ents_of (in0 ++ in1) -> sorted_pairs (ldb_ikc_init uc) (map entry_pair es) -> snap < LDB_MAX_SEQUENCE ->
  exists rest, compact_entries uc ver snap (ldb_compaction_create options level) keystate_init es = Some rest /\
    forall outputs, files_entries ents_of outputs = rest -> outputs_ok udom uc ents_of (in0 ++ in1) outputs ->
      (forall f, f ∈ outputs -> f_number f ∉ base_numbers ver (level + 1)) ->
      zlen (default [] (level_files ver (level + 1))) + zlen outputs <= 2 ^ 30 ->
      let ed := compaction_edit level in0 in1 outputs (ldb_edit_set_compact_pointer ldb_edit_init level largest) in
      exists heap' pointers' b v', builder_apply uc heap pointers (builder_init ver) ed = Some (heap', pointers', b) /\
        (forall vs : versions unit, build_version uc vs b = Some (new_version vs v')) /\ version_wf udom uc ents_of v' /\
        forall u s, udom u -> snap <= s -> view uc u s (version_entries ents_of v') = view uc u s (version_entries ents_of ver).
Proof.
  intros Hv Hinv Hl Hl' E0 Hstart Hchoose Hz Hp Hs Hsnap.
  destruct (choose_inputs_ok udom uc ver (version_levels udom uc ents_of ver Hv) options level files0 start Hl Hl' E0 Hstart)
    as (files1 & in0' & in1' & all' & largest' & E1 & E & Hci & _). rewrite Hchoose in E. injection E as <- <- <- <-.
  assert (forall e, e ∈ es <-> e ∈ files_entries ents_of (in0 ++ in1)) as Hes by (intros e; by rewrite Hp).
  pose proof (es_wf udom uc ents_of ver level files0 files1 in0 in1 all largest Hv E0 E1 Hci es Hes) as Hw.
  exists (kept uc ver level snap None es). split.
  - apply (compact_entries_ok udom uc ver (version_levels udom uc ents_of ver Hv) level Hl snap); [done|done|done|by apply (sorted_entries udom uc)|done|].
    intros e _. split; [done|]. intros l files p _ _ Ep. cbn [ldb_compaction_create cp_level_ptrs] in Ep. unfold item in Ep. destruct (l <? 0); [done|].
    apply lookup_replicate_1 in Ep as [-> _]. split; [pose proof (zlen_nonneg files); lia|]. constructor.
  - intros outputs Hrest Hout Hfresh Hcount ed.
    destruct (compaction_builds udom uc ents_of options ver level files0 start in0 in1 all largest outputs heap pointers Hv Hinv Hl Hl' E0 Hstart Hchoose Hout Hfresh Hcount Hz)
      as (heap' & pointers' & b & v' & Eb & Hb & Hwf & Hinv' & _ & Hmap). exists heap', pointers', b, v'. split; [done|]. split; [done|]. split; [done|].
    intros u s Du Hsn. apply (view_kept udom uc ents_of ver level files0 files1 in0 in1 all largest Hv (conj Hl Hl') E0 E1 Hci snap es Hes Hs u s); [done..|].
    intros e. rewrite <- Hrest. apply (new_entries udom uc ents_of ver v' level files0 files1 in0 in1 outputs); try done.
    + intros f Hf. by apply (chosen_sub udom uc level files0 in0 f (ci_first _ _ _ _ _ _ _ _ _ Hci)).
    + intros f Hf. by apply (pk_sub _ _ _ (ci_second _ _ _ _ _ _ _ _ _ Hci)).
Qed.

(** The three files of the version (VersionGet.v) are merged, while the oldest
    snapshot in use is 7: of the versions of the first key the deletion and what
    lies behind it go. *)
Definition test_merge : list entry :=
  [(Pkey [Byte.x61] 9 LDB_TYPE_VALUE, [Byte.x09]); (Pkey [Byte.x61] 5 LDB_TYPE_DELETION, []); (Pkey [Byte.x61] 2 LDB_TYPE_VALUE, [Byte.x02]);
   (Pkey [Byte.x62] 1 LDB_TYPE_VALUE, [Byte.x01]); (Pkey [Byte.x63] 6 LDB_TYPE_VALUE, [Byte.x06])].

Lemma compaction_invisible_witness :
  compact_entries bytewise_comparator test_version 7 (ldb_compaction_create ldb_dbopt_default 0) keystate_init test_merge = test_entries 9 300 /\
  exists heap' pointers' b v', builder_apply bytewise_comparator (FileHeap 4 ∅) (replicate 7 []) (builder_init test_version) test_edit = Some (heap', pointers', b) /\
    (forall vs : versions unit, build_version bytewise_comparator vs b = Some (new_version vs v')) /\
    version_wf (fun _ => True) bytewise_comparator test_entries v' /\
    forall u s, True -> 7 <= s -> view bytewise_comparator u s (version_entries test_entries v') = view bytewise_comparator u s (version_entries test_entries test_version).
Proof.
  destruct (compaction_invisible (fun _ => True) bytewise_comparator test_entries ldb_dbopt_default test_version 0 [test_file8; test_file7]
    [test_file8; test_file7] [test_file8; test_file7] [test_file3] (vkey Byte.x61 9, vkey Byte.x63 6) (vkey Byte.x63 6) test_merge 7 (FileHeap 4 ∅) (replicate 7 []))
    as (rest & E & H).
  - exact test_version_wf.
  - exact test_version_inv.
  - lia.
  - by vm_compute.
  - by vm_compute.
  - exact test_start_ok.
  - by vm_compute.
  - by vm_compute.
  - assert (files_entries test_entries ([test_file8; test_file7] ++ [test_file3]) = take 2 test_merge ++ [(Pkey [Byte.x63] 6 LDB_TYPE_VALUE, [Byte.x06])] ++ take 2 (drop 2 test_merge)) as -> by (by vm_compute).
    change test_merge with (take 2 test_merge ++ take 2 (drop 2 test_merge) ++ [(Pkey [Byte.x63] 6 LDB_TYPE_VALUE, [Byte.x06])]) at 1. apply Permutation_app_head, Permutation_app_comm.
  - check_sorted.
  - by vm_compute.
  - assert (compact_entries bytewise_comparator test_version 7 (ldb_compaction_create ldb_dbopt_default 0) keystate_init test_merge = test_entries 9 300) as E9 by (by vm_compute).
    split; [exact E9|]. rewrite E9 in E. injection E as <-. apply (H [test_file9]).
    + by vm_compute.
    + exact test_outputs_ok.
    + intros f ->%list_elem_of_singleton Hn. apply list_elem_of_In in Hn. vm_compute in Hn. destruct Hn as [Hn|[]]. discriminate.
    + by vm_compute.
Defined.
