(* ===== verification/CompactionIter.v ===== *)
(** * The input of a compaction

    The iterator of [ldb_inputiter_create] (Compaction.v) delivers the entries of
    the inputs in order, while the outputs are written. *)

From stdpp Require Import strings sorting gmap.
From S2P Require Import Prelude Coding Status Strutil Comparator DBFormat Options Vector Memtable Iterator BlockBuilder TwoLevel Merger TableBuilder Table FileList IteratorFamily Version VersionGet VersionEdit VersionBuilder Env VersionSet Compaction BuildTable DBCompact.
#[local] Open Scope Z_scope.

Section Input.
Context (udom : bytes -> Prop) (uc : comparator) `{!ComparatorLaws udom uc} (ents_of : Z -> Z -> option (list entry)).
Context {E : Type} (rep : E -> fsview -> Prop) {T : Type} (tops : iter_ops T) (tables_of : E -> tables_ops T) (dbname : bytes) (options : dbopt) (c : Z).
Context `{!TableAccess rep tops tables_of dbname (ikey_dom udom) (ldb_ikc_init uc) options c}.
Local Abbreviation icmp := (ldb_ikc_init uc).
Local Abbreviation idom := (ikey_dom udom).
Local Abbreviation entries := (file_entries ents_of).
Local Abbreviation table_name k := (ldb_table_filename LDB_PATH_MAX dbname k).

(** A file of a version with its table on the disk. *)
Record stored (fs : fsview) (f : fileptr) : Prop := {
  sd_file : version_file udom uc ents_of f;
  sd_table : exists p d n, table_name (f_number f) = Some p /\ fs !! p = Some (VFile d n) /\ zlen d = f_file_size f /\
    table_bytes idom icmp options (map entry_pair (entries f)) d;
  sd_total : total_ok c (map entry_pair (entries f))
}.

Context (fs0 : fsview) (inputs : list fileptr).
Hypothesis inputs_stored : Forall (stored fs0) inputs.

(** The files that are read. *)
Definition input_name (p : bytes) : Prop := exists f, f ∈ inputs /\ table_name (f_number f) = Some p.

(** The inputs are there. *)
Definition inputs_there (e : E) : Prop := exists fs, rep e fs /\ forall p, input_name p -> fs !! p = fs0 !! p.

Lemma input_stored f : f ∈ inputs -> stored fs0 f.
Proof. intros Hf%list_elem_of_In. pose proof inputs_stored as H. rewrite List.Forall_forall in H. by apply H. Qed.

Lemma open_input e f ro : inputs_there e -> f ∈ inputs ->
  exists it p, ldb_tables_iterate (tables_of e) ro (f_number f) (f_file_size f) = Some it /\ any_rep tops idom icmp (map entry_pair (entries f)) it p.
Proof.
  intros (fs & R & Hfs) Hf. destruct (input_stored f Hf) as [Vf (p & d & n & Hp & Hd & <- & Ht) Hc].
  pose proof (vf_ok _ _ _ f Vf) as Hok. rewrite <- Hfs in Hd by (by exists f). rewrite <- (file_kvs_entries udom uc ents_of f Vf) in *.
  apply (table_access e fs ro (f_number f) p d n); [apply Hok|done|done|done|done|done|apply Hok|].
  eapply List.Forall_impl; [|apply (fk_keys _ _ _ f Hok)]. by intros kv [? _].
Qed.

(** The tables of the inputs, by number and size. *)
Definition input_pairs (number size : Z) : option pairs :=
  if existsb (fun f => (f_number f =? number) && (f_file_size f =? size)) inputs then pairs_of ents_of number size else None.

Lemma input_pairs_open e ro number size kvs : inputs_there e -> input_pairs number size = Some kvs ->
  exists it p, ldb_tables_iterate (tables_of e) ro number size = Some it /\ any_rep tops idom icmp kvs it p.
Proof.
  intros He. unfold input_pairs. destruct (existsb _ inputs) eqn:Ex; [|done]. intros Ekv.
  apply existsb_exists in Ex as (f & Hf%list_elem_of_In & [<-%Z.eqb_eq <-%Z.eqb_eq]%andb_true_iff).
  assert (kvs = map entry_pair (entries f)) as ->; [|by apply open_input]. unfold pairs_of, file_entries in *. destruct (ents_of _ _); [|done]. by injection Ekv as <-.
Qed.

Lemma input_pairs_file f : f ∈ inputs -> input_pairs (f_number f) (f_file_size f) = pairs_of ents_of (f_number f) (f_file_size f).
Proof.
  intros Hf. unfold input_pairs. destruct (existsb _ inputs) eqn:Ex; [done|]. exfalso. apply not_true_iff_false in Ex. apply Ex, existsb_exists.
  exists f. by rewrite !Z.eqb_refl, <- list_elem_of_In.
Qed.

Lemma input_kvs f : f ∈ inputs -> file_kvs input_pairs f = map entry_pair (entries f).
Proof. intros Hf. unfold file_kvs. rewrite (input_pairs_file f Hf). apply (file_kvs_entries udom uc ents_of f), (input_stored f Hf). Qed.

Lemma input_file_ok f : f ∈ inputs -> file_ok udom uc input_pairs f.
Proof.
  intros Hf. destruct (vf_ok _ _ _ f (sd_file _ _ (input_stored f Hf))) as [H1 H2 H3 H4 H5 H6]. unfold file_kvs in H5, H6.
  split; unfold file_kvs; rewrite ?(input_pairs_file f Hf); done.
Qed.

(** ** The children *)

Context (vopt : dbopt) (fuel : nat).
Local Abbreviation ro := (inputs_options vopt).
Local Abbreviation child_ops := (fun e => version_iter_table uc tops (tables_of e) ro fuel).
Local Abbreviation child_ok := (fun s l => exists p, steady inputs_there idom icmp child_ops l s p).

Lemma table_children e files : forall iters, inputs_there e -> (forall f, f ∈ files -> f ∈ inputs) ->
  exists its, add_table_iterators (tables_of e) ro files iters = Some (iters ++ its) /\ Forall2 child_ok its (map (fun f => map entry_pair (entries f)) files).
Proof.
  induction files as [|f files IH]; intros iters He Hsub; cbn [add_table_iterators map].
  { exists []. rewrite app_nil_r. split; [done|constructor]. }
  destruct (open_input e f ro He) as (it & p & -> & Hit); [apply Hsub; by left|]. rewrite bind_some.
  destruct (IH (iters ++ [inl it]) He) as (its & -> & Hits); [intros g Hg; apply Hsub; by right|]. exists (inl it :: its). rewrite <- app_assoc. split; [done|].
  constructor; [|done]. exists p. apply (steady_inl inputs_there idom icmp (fun _ => tops)). by apply steady_const.
Qed.

Lemma level_child files : (forall f, f ∈ files -> f ∈ inputs) -> (length files < fuel)%nat -> disjoint_sorted uc files -> zlen files < 2 ^ 31 ->
  exists it, ldb_leveliter_create uc tops files = Some it /\ child_ok (inr it) (map entry_pair (files_entries ents_of files)).
Proof.
  intros Hsub Hf Hs Hz. assert (Forall (file_ok udom uc input_pairs) files) as Hok.
  { apply List.Forall_forall. intros f Hin%list_elem_of_In. by apply input_file_ok, Hsub. }
  destruct (level_iterator_init udom uc tops input_pairs files Hok Hs Hz) as (it & E1 & R). exists it. split; [exact E1|]. exists None.
  apply (steady_inr inputs_there idom icmp (fun _ => tops) (fun e => ldb_leveliter_table uc tops (tables_of e) ro fuel)).
  exists (FileList.level_rep udom uc tops input_pairs files). split; [|exact R]. intros e He.
  assert (map entry_pair (files_entries ents_of files) = concat (map (file_kvs input_pairs) files)) as ->.
  { unfold files_entries. rewrite concat_map, List.map_map. f_equal. apply List.map_ext_in. intros f Hin%list_elem_of_In. symmetry. by apply input_kvs, Hsub. }
  apply level_iterator_laws; try done. intros number size kvs. by apply input_pairs_open.
Qed.

(** One level of inputs. *)
Definition level_kvs (level : Z) (files : list fileptr) : list pairs :=
  if zlen files =? 0 then [] else if level =? 0 then map (fun f => map entry_pair (entries f)) files else [map entry_pair (files_entries ents_of files)].

Lemma level_children e level files iters : inputs_there e -> (forall f, f ∈ files -> f ∈ inputs) ->
  (level <> 0 -> (length files < fuel)%nat /\ disjoint_sorted uc files /\ zlen files < 2 ^ 31) ->
  exists its, add_input_iterators uc tops (tables_of e) ro level files iters = Some (iters ++ its) /\ Forall2 child_ok its (level_kvs level files).
Proof.
  intros He Hsub Hl. unfold add_input_iterators, level_kvs. pose proof (zlen_nonneg files). destruct (Z.ltb_spec 0 (zlen files)), (Z.eqb_spec (zlen files) 0); try lia.
  - destruct (Z.eqb_spec level 0) as [E0|Hne]; [by apply table_children|]. destruct (Hl Hne) as (H1 & H2 & H3).
    destruct (level_child files Hsub H1 H2 H3) as (it & -> & Hit). rewrite bind_some. exists [inr it]. split; [done|]. by repeat constructor.
  - exists []. rewrite app_nil_r. split; [done|constructor].
Qed.

Lemma level_kvs_pairs level files : concat (level_kvs level files) = map entry_pair (files_entries ents_of files).
Proof.
  unfold level_kvs. destruct (Z.eqb_spec (zlen files) 0) as [E0|_]; [by rewrite (zlen_0_nil files E0)|]. destruct (level =? 0); cbn [concat]; [|by rewrite app_nil_r].
  unfold files_entries. by rewrite concat_map, List.map_map.
Qed.

Lemma level_kvs_sorted level files : (forall f, f ∈ files -> f ∈ inputs) -> (level <> 0 -> sorted_pairs icmp (map entry_pair (files_entries ents_of files))) ->
  Forall (sorted_pairs icmp) (level_kvs level files).
Proof.
  intros Hsub Hs. unfold level_kvs. destruct (zlen files =? 0); [constructor|]. destruct (Z.eqb_spec level 0) as [_|Hne]; [|constructor; [by apply Hs|constructor]].
  apply List.Forall_map, List.Forall_forall. intros f Hf%list_elem_of_In. pose proof (sd_file _ _ (input_stored f (Hsub f Hf))) as Vf.
  rewrite <- (file_kvs_entries udom uc ents_of f Vf). apply (vf_ok _ _ _ f Vf).
Qed.
Lemma level_kvs_count level files : zlen (level_kvs level files) <= if level =? 0 then zlen files else 1.
Proof.
  unfold level_kvs. pose proof (zlen_nonneg files). destruct (zlen files =? 0); [rewrite zlen_nil; destruct (level =? 0); lia|].
  destruct (level =? 0); [unfold zlen; rewrite length_map; lia|]. by rewrite zlen_cons, zlen_nil.
Qed.

(** Files in order hold their entries in order. *)
Lemma files_entries_sorted files : Forall (version_file udom uc ents_of) files -> disjoint_sorted uc files -> sorted_pairs icmp (map entry_pair (files_entries ents_of files)).
Proof.
  unfold files_entries. induction files as [|f files IH]; intros Hv Hs; [constructor|]. pose proof Hv as Hv'. apply List.Forall_cons_iff in Hv as [Vf Hv].
  pose proof Hs as Hs'. apply StronglySorted_inv in Hs as [Hs _]. cbn [map concat]. rewrite map_app. apply StronglySorted_app. split; [|split; [|by apply IH]].
  - intros kv kv' Hkv Hkv'. apply list_elem_of_fmap in Hkv' as (e' & -> & (g & Hg & He')%files_entries_elem).
    rewrite <- (file_kvs_entries udom uc ents_of f Vf) in Hkv. destruct (file_kv udom uc (pairs_of ents_of) f kv (vf_ok _ _ _ f Vf) Hkv) as (Dk & _ & H1).
    apply list_elem_of_lookup in Hg as [j Hg]. assert (version_file udom uc ents_of g) as Vg.
    { rewrite List.Forall_forall in Hv. apply Hv, list_elem_of_In. by eapply list_elem_of_lookup_2. }
    assert (entry_pair e' ∈ file_kvs (pairs_of ents_of) g) as Hin by (rewrite (file_kvs_entries udom uc ents_of g Vg); by apply list_elem_of_fmap_2).
    assert (Forall (file_ok udom uc (pairs_of ents_of)) (f :: files)) as Hok by (eapply List.Forall_impl; [|exact Hv']; by intros x []).
    pose proof (files_between udom uc (pairs_of ents_of) (f :: files) 0 (S j) f g (entry_pair e') Hok Hs' ltac:(lia) eq_refl Hg Hin) as H2.
    destruct (file_kv udom uc (pairs_of ents_of) g (entry_pair e') (vf_ok _ _ _ g Vg) Hin) as (Dk' & _ & _).
    destruct (fk_wf _ _ _ _ (vf_ok _ _ _ f Vf)) as [_ Dl _ _]. by apply (compare_le_lt_trans idom icmp _ (f_largest f)).
  - rewrite <- (file_kvs_entries udom uc ents_of f Vf). apply (vf_ok _ _ _ f Vf).
Qed.

(** ** The whole iterator *)

Lemma inputiter_ok e cp es : inputs = cp_inputs0 cp ++ cp_inputs1 cp -> 0 <= cp_level cp -> inputs_there e ->
  (cp_level cp <> 0 -> (length (cp_inputs0 cp) < fuel)%nat /\ disjoint_sorted uc (cp_inputs0 cp) /\ zlen (cp_inputs0 cp) < 2 ^ 31) ->
  (length (cp_inputs1 cp) < fuel)%nat -> disjoint_sorted uc (cp_inputs1 cp) -> zlen (cp_inputs1 cp) < 2 ^ 31 ->
  es ≡ₚ files_entries ents_of inputs -> sorted_pairs icmp (map entry_pair es) -> Forall (entry_wf udom) es ->
  exists m q, ldb_inputiter_create uc tops (tables_of e) vopt cp fuel = Some m /\
    steady inputs_there idom icmp (fun e => inputs_table uc tops tables_of vopt fuel e) (map entry_pair es) (merged_iter m) q.
Proof.
  intros Ein Hlev He H0 Hf1 Hs1 Hz1 Hp Hs Hw. unfold ldb_inputiter_create.
  assert (forall f, f ∈ cp_inputs0 cp -> f ∈ inputs) as Hsub0 by (intros f Hf; rewrite Ein; apply elem_of_app; by left).
  assert (forall f, f ∈ cp_inputs1 cp -> f ∈ inputs) as Hsub1 by (intros f Hf; rewrite Ein; apply elem_of_app; by right).
  assert (forall files, (forall f, f ∈ files -> f ∈ inputs) -> Forall (version_file udom uc ents_of) files) as Hvf.
  { intros files Hsub. apply List.Forall_forall. intros f Hf%list_elem_of_In. apply (input_stored f (Hsub f Hf)). }
  destruct (level_children e (cp_level cp) (cp_inputs0 cp) [] He Hsub0 H0) as (its0 & -> & C0). rewrite bind_some. cbn [app].
  destruct (level_children e (cp_level cp + 1) (cp_inputs1 cp) its0 He Hsub1) as (its1 & -> & C1); [by intros _|]. rewrite bind_some.
  assert (zlen (its0 ++ its1) <= (if cp_level cp =? 0 then zlen (cp_inputs0 cp) + 1 else 2)) as Hspace.
  { rewrite zlen_app. pose proof (level_kvs_count (cp_level cp) (cp_inputs0 cp)) as K0. pose proof (level_kvs_count (cp_level cp + 1) (cp_inputs1 cp)) as K1.
    rewrite (proj2 (Z.eqb_neq (cp_level cp + 1) 0)) in K1 by lia. apply Forall2_length in C0, C1. unfold zlen in *. destruct (cp_level cp =? 0); lia. }
  rewrite (proj2 (Z.leb_le _ _) Hspace). cbn [negb].
  apply (mergeiter_create_steady inputs_there idom icmp child_ops e _ (level_kvs (cp_level cp) (cp_inputs0 cp) ++ level_kvs (cp_level cp + 1) (cp_inputs1 cp))); try done.
  - by apply List.Forall2_app.
  - rewrite concat_app, !level_kvs_pairs, <- map_app, <- files_entries_app, <- Ein. by apply Permutation_map.
  - apply List.Forall_app. split; apply level_kvs_sorted; try done; intros Hne; apply files_entries_sorted; [by apply Hvf|by apply H0|by apply Hvf|done].
  - apply List.Forall_map. eapply List.Forall_impl; [|exact Hw]. intros x Hx. by apply version_entry_dom.
Qed.
End Input.
