(* ===== verification/CompactionWork.v ===== *)
(** * What the compaction loop writes

    Correctness of the loop of [ldb_do_compaction_work] (DBCompact.v): the output
    files hold, in order and on the disk, the entries of the inputs that are not
    dropped. *)

From stdpp Require Import strings sorting gmap.
From S2P Require Import Prelude Coding Status Strutil Comparator DBFormat File KeyOrder Options Vector Memtable Iterator BlockBuilder Format TableBuilder Table FileList IteratorFamily Merger Version VersionGet VersionEdit VersionBuilder Env VersionSet Compaction CompactionInputs CompactionBase CompactionResult BuildTable TableCache TableCacheCorrect LogRecovery DB DBFiles DBCompact CompactionDrop CompactionIter.
#[local] Open Scope Z_scope.

(** ** Parts of the entries *)










Section Work.
Context (udom : bytes -> Prop) (uc : comparator) `{!ComparatorLaws udom uc}.
Context {E W : Type} (ops : env_ops E W) (dirs : dir_ops E) (rep : E -> fsview -> Prop) (names : E -> W -> bytes -> Prop) `{!EnvLaws ops rep names (fun _ => True)}.
Context {T : Type} (tops : iter_ops T) (tables_of : E -> tables_ops T).
Context (db0 : ldb W) (c : Z) (ook : options_ok (ikey_dom udom) (ldb_ikc_init uc) (db_options db0) c).
Context `{!TableAccess rep tops tables_of (db_dbname db0) (ikey_dom udom) (ldb_ikc_init uc) (db_options db0) c}.
Context (fs0 : fsview) (e0 : E) (es : list entry).
Local Abbreviation icmp := (ldb_ikc_init uc).
Local Abbreviation options := (db_options db0).
Local Abbreviation dbname := (db_dbname db0).
Local Abbreviation n0 := (vs_next_file_number (db_versions db0)).
Local Abbreviation table_name k := (ldb_table_filename LDB_PATH_MAX dbname k).

Hypothesis name_short : zlen (db_dbname db0) <= LDB_PATH_MAX - 35.
Hypothesis numbers_left : 0 < n0 /\ n0 + zlen es + 1 < 2 ^ 64.
Hypothesis es_wf : Forall (entry_wf udom) es.
Hypothesis es_sorted : sorted_pairs icmp (map entry_pair es).
Hypothesis es_total : total_ok c (map entry_pair es).
Hypothesis quiet : db_has_imm db0 = false /\ db_shutting_down db0 = false.

(** The input is an iterator over the entries as long as the files it needs are
    there. *)
Context {S : Type} (iops : E -> iter_ops S) (irep : S -> option nat -> Prop) (needed : bytes -> Prop).
Hypothesis needed_other : forall k p, n0 <= k < 2 ^ 64 -> table_name k = Some p -> ~ needed p.
Hypothesis input_laws : forall e fs, rep e fs -> (forall p, needed p -> fs !! p = fs0 !! p) -> IteratorLaws (iops e) (ikey_dom udom) icmp (map entry_pair es) irep.


(** ** The state *)









(** ** Output files *)






(** ** An entry that is kept *)




(** ** The loop *)

Context (ver : ldb_version) (ver_ok : Version.levels_ok udom uc ver) (c0 : compaction) (level_ok : 0 <= cp_level c0) (snap : Z) (snap_ok : snap < LDB_MAX_SEQUENCE).
Local Abbreviation level := (cp_level c0).







End Work.

(** ** The loop as a whole *)




(** ** The edit *)





(** ** Properties *)



(** ** A file of level 0 *)


Section Lone.
Context (size : Z).

End Lone.

Local Abbreviation short_udom := (fun u : bytes => zlen u < 100).
Local Abbreviation cut_tops := (cache_iter_table (mem_rfile true) (fun _ => true) None).
Local Abbreviation cut_tables := (fun e => tables_view disk_randfile (mem_rfile true) (fun _ => true) None e cut_cache).








