(* ===== verification/Obsolete.v ===== *)
(** * Removal of obsolete files

    What [ldb_remove_obsolete_files] (DBFiles.v) removes: old logs and
    MANIFESTs, and the tables of no version that is held; and nothing else. *)

From stdpp Require Import strings gmap.
From S2P Require Import Prelude Coding Status Strutil Comparator DBFormat File Options Vector Memtable Iterator FileList VersionEdit Version VersionBuilder Env VersionSet Recovery References DB DBFiles.
#[local] Open Scope Z_scope.

(** ** Directories

    What is documented of listing a directory and of [ldb_tables_evict]: the
    list, if there is no error, names every file of the directory; to drop a
    table from the cache changes no file. *)
Class DirLaws {E W : Type} (dirs : dir_ops E) (rep : E -> fsview -> Prop) (names : E -> W -> bytes -> Prop) : Prop := {
  dl_children e fs d filenames name p : rep e fs -> dir_children dirs e d = Some filenames ->
    ldb_join LDB_PATH_MAX d name = Some p -> is_Some (fs !! p) -> name ∈ filenames;
  dl_evict e fs number : rep e fs -> rep (dir_evict dirs e number) fs /\ forall w q, names e w q -> names (dir_evict dirs e number) w q
}.

#[export] Instance disk_dirs_laws : DirLaws (W := nat) disk_dirs disk_rep disk_names.
Proof.
  split; [|done]. intros e fs d filenames name p <- [= <-] Hp [f Hf]. unfold ldb_join in Hp. destruct (_ <? _); [done|]. injection Hp as <-.
  apply list_elem_of_omap. exists (d ++ cstr "/" ++ name). split.
  - apply list_elem_of_In, in_map_iff. exists (d ++ cstr "/" ++ name, f). split; [done|]. by apply list_elem_of_In, elem_of_map_to_list.
  - unfold in_directory. assert (length d + 1 = length (d ++ cstr "/"))%nat as -> by (by rewrite length_app).
    by rewrite app_assoc, take_app_length, drop_app_length, bool_decide_eq_true_2.
Qed.

(** ** Files in use *)

(** The tables that must stay: pending outputs, the files of the current version
    and of the versions that are held. *)
Definition in_use {W} (db : ldb W) (held : list held_version) (n : Z) : Prop :=
  n ∈ db_pending_outputs db \/ (exists cur, current_version (db_versions db) = Some cur /\ n ∈ file_numbers cur) \/
  exists v files, (v, files) ∈ held /\ n ∈ numbers (concat files).

(** A path that is removed. *)
Definition obsolete {W} (db : ldb W) (held : list held_version) (p : bytes) : Prop :=
  exists name type number, ldb_join LDB_PATH_MAX (db_dbname db) name = Some p /\ ldb_parse_filename name = Some (type, number) /\
    match type with
    | LDB_FILE_LOG => number < vs_log_number (db_versions db) /\ number <> vs_prev_log_number (db_versions db)
    | LDB_FILE_DESC => number < vs_manifest_file_number (db_versions db)
    | LDB_FILE_TABLE | LDB_FILE_TEMP => ~ in_use db held number
    | LDB_FILE_CURRENT | LDB_FILE_LOCK | LDB_FILE_INFO => False
    end.

(** *** Names *)

Lemma join_inj size d name name' p : ldb_join size d name = Some p -> ldb_join size d name' = Some p -> name = name'.
Proof. unfold ldb_join. do 2 destruct (_ <? _); try done. intros [= <-] [= E]. apply app_inv_head in E. by injection E. Qed.

Lemma made_parse size d n ext name p : 0 < n < 2 ^ 64 -> Forall (fun c => b2z c <> 47) (cstr ext) -> make_filename size d n ext = Some p ->
  ldb_join size d name = Some p -> name = ldb_encode_int n 6 ++ cstr "." ++ cstr ext.
Proof. intros Hn Hext Hm Hj. by apply (join_inj size d _ _ p Hj). Qed.

Lemma table_not_obsolete {W} (db : ldb W) held n p : 0 < n < 2 ^ 64 -> ldb_table_filename LDB_PATH_MAX (db_dbname db) n = Some p ->
  obsolete db held p -> ~ in_use db held n.
Proof.
  intros Hn Hp (name & type & number & Hj & Hpa & H). unfold ldb_table_filename in Hp. rewrite (made_parse _ _ n "ldb" name p Hn ltac:(no_slash) Hp Hj) in Hpa.
  rewrite parse_number_name in Hpa by (lia || apply no_digit_dot). by injection Hpa as <- <-.
Qed.

Lemma log_not_obsolete {W} (db : ldb W) held n p : 0 < n < 2 ^ 64 -> ldb_log_filename LDB_PATH_MAX (db_dbname db) n = Some p ->
  obsolete db held p -> n < vs_log_number (db_versions db) /\ n <> vs_prev_log_number (db_versions db).
Proof.
  intros Hn Hp (name & type & number & Hj & Hpa & H). unfold ldb_log_filename in Hp. rewrite (made_parse _ _ n "log" name p Hn ltac:(no_slash) Hp Hj) in Hpa.
  rewrite parse_number_name in Hpa by (lia || apply no_digit_dot). by injection Hpa as <- <-.
Qed.

Lemma desc_not_obsolete {W} (db : ldb W) held n p : 0 <= n < 2 ^ 64 -> ldb_desc_filename LDB_PATH_MAX (db_dbname db) n = Some p ->
  obsolete db held p -> n < vs_manifest_file_number (db_versions db).
Proof.
  intros Hn Hp (name & type & number & Hj & Hpa & H). unfold ldb_desc_filename in Hp. rewrite (join_inj _ _ _ _ _ Hj Hp), parse_desc_name in Hpa by done.
  by injection Hpa as <- <-.
Qed.

Lemma current_not_obsolete {W} (db : ldb W) held p : ldb_current_filename LDB_PATH_MAX (db_dbname db) = Some p -> ~ obsolete db held p.
Proof.
  intros Hp (name & type & number & Hj & Hpa & H). unfold ldb_current_filename in Hp. rewrite (join_inj _ _ _ _ _ Hj Hp) in Hpa.
  vm_compute in Hpa. by injection Hpa as <- <-.
Qed.

(** A set with one version. *)
Lemma counted_single {W} (vs : versions W) ver : vs_objects vs = {[vs_current vs := ver]} -> vs_list vs = [vs_current vs] -> ver_refs ver = 1 ->
  (vs_current vs < vs_next_version vs)%nat -> counted vs [].
Proof.
  intros Eo El Er Hn. split; [split|..]; unfold current_version; rewrite ?Eo, ?El.
  - intros v. rewrite list_elem_of_singleton. destruct (decide (v = vs_current vs)) as [->|Hne]; [rewrite lookup_singleton_eq; split; [by eexists|done]|].
    rewrite lookup_singleton_ne by done. split; [done|by intros [? ?]].
  - apply NoDup_singleton.
  - intros v x [<- <-]%lookup_singleton_Some. lia.
  - rewrite lookup_singleton_eq. by eexists.
  - intros v [x [<- _]%lookup_singleton_Some]. done.
  - intros v x [<- <-]%lookup_singleton_Some. rewrite Nat.eqb_refl. by rewrite Er.
  - apply List.Forall_nil.
Qed.

Section Removal.
Context {E W : Type} (ops : env_ops E W) (dirs : dir_ops E) (rep : E -> fsview -> Prop) (names : E -> W -> bytes -> Prop).
Context `{!EnvLaws ops rep names (fun _ => True)} `{!DirLaws dirs rep names}.

(** The paths of a list of names. *)
Definition named (dbname : bytes) (filenames : list bytes) (p : bytes) : Prop :=
  exists name, name ∈ filenames /\ ldb_join LDB_PATH_MAX dbname name = Some p.

Lemma delete_loop_ok dbname filenames : forall e fs, rep e fs ->
  exists fs', rep (delete_loop ops dbname e filenames) fs' /\
    (forall p, named dbname filenames p -> fs' !! p = None) /\ (forall p, ~ named dbname filenames p -> fs' !! p = fs !! p) /\
    forall w q, names e w q -> ~ named dbname filenames q -> names (delete_loop ops dbname e filenames) w q.
Proof.
  induction filenames as [|name filenames IH]; intros e fs R; cbn [delete_loop].
  { exists fs. split; [done|]. split; [|done]. intros p (name & Hn & _). by apply elem_of_nil in Hn. }
  set (e1 := match ldb_join LDB_PATH_MAX dbname name with Some path => (env_remove_file ops e path).2 | None => e end).
  assert (exists fs1, rep e1 fs1 /\ (forall p, ldb_join LDB_PATH_MAX dbname name = Some p -> fs1 !! p = None) /\
    (forall p, ldb_join LDB_PATH_MAX dbname name <> Some p -> fs1 !! p = fs !! p) /\
    forall w q, names e w q -> ldb_join LDB_PATH_MAX dbname name <> Some q -> names e1 w q) as (fs1 & R1 & H1 & H2 & H3).
  { unfold e1. destruct (ldb_join LDB_PATH_MAX dbname name) as [path|]; [|by exists fs].
    destruct (el_remove e fs path R I) as (rc & e' & -> & R' & K). exists (delete path fs). split; [done|]. split; [intros p [= <-]; apply lookup_delete_eq|].
    split; [intros p Hne; apply lookup_delete_ne; congruence|]. intros w q Hw Hne. apply K; congruence. }
  clearbody e1. destruct (IH e1 fs1 R1) as (fs' & R' & G1 & G2 & G3). exists fs'. split; [done|].
  assert (forall p, named dbname (name :: filenames) p <-> ldb_join LDB_PATH_MAX dbname name = Some p \/ named dbname filenames p) as Hcons.
  { intros p. split.
    - intros (n & [->|Hn]%elem_of_cons & Hp); [by left|]. right. by exists n.
    - intros [Hp|(n & Hn & Hp)]; [exists name|exists n]; (split; [|done]); [by left|by right]. }
  assert (forall p, named dbname filenames p \/ ~ named dbname filenames p) as Hdec.
  { intros p. destruct (decide (Exists (fun n => ldb_join LDB_PATH_MAX dbname n = Some p) filenames)) as [Hx|Hx].
    - left. apply List.Exists_exists in Hx as (n & Hn & Hp). exists n. by rewrite list_elem_of_In.
    - right. intros (n & Hn & Hp). apply Hx, List.Exists_exists. exists n. by rewrite <- list_elem_of_In. }
  split; [|split].
  - intros p [Hp|Hp]%Hcons; [|by apply G1]. destruct (Hdec p) as [Hn|Hn]; [by apply G1|]. rewrite G2 by done. by apply H1.
  - intros p Hn. rewrite Hcons in Hn. rewrite G2, H2 by tauto. done.
  - intros w q Hw Hn. rewrite Hcons in Hn. apply G3; [|tauto]. apply H3; tauto.
Qed.

Lemma obsolete_loop_ok (vs : versions W) live filenames : forall e fs, rep e fs -> exists found e', obsolete_loop dirs vs live e filenames = (found, e') /\ rep e' fs /\
  (forall name, name ∈ found <-> name ∈ filenames /\ exists type number, ldb_parse_filename name = Some (type, number) /\ keep_file vs live type number = false) /\
  forall w q, names e w q -> names e' w q.
Proof.
  induction filenames as [|name filenames IH]; intros e fs R; cbn [obsolete_loop].
  { exists [], e. split; [done|]. split; [done|]. split; [|done]. intros name. split; [by intros ?%elem_of_nil|by intros [?%elem_of_nil _]]. }
  destruct (ldb_parse_filename name) as [[type number]|] eqn:Ep.
  2: { destruct (IH e fs R) as (found & e' & -> & R' & Hf & K). exists found, e'. split; [done|]. split; [done|]. split; [|done].
       intros n. rewrite Hf, elem_of_cons. split; [intros [? ?]; auto|]. intros [[->|?] (t & k & Hp & Hk)]; [congruence|]. split; [done|]. by exists t, k. }
  destruct (keep_file vs live type number) eqn:Ek.
  { destruct (IH e fs R) as (found & e' & -> & R' & Hf & K). exists found, e'. split; [done|]. split; [done|]. split; [|done].
    intros n. rewrite Hf, elem_of_cons. split; [intros [? ?]; auto|]. intros [[->|?] Hx]; [|auto]. destruct Hx as (t & k & Hp & Hk). congruence. }
  set (e1 := match type with LDB_FILE_TABLE => dir_evict dirs e number | _ => e end).
  assert (rep e1 fs /\ forall w q, names e w q -> names e1 w q) as [R1 K1] by (unfold e1; destruct type; try done; by apply dl_evict).
  clearbody e1. destruct (IH e1 fs R1) as (found & e' & -> & R' & Hf & K). exists (name :: found), e'. split; [done|]. split; [done|]. split; [|auto].
  intros n. rewrite !elem_of_cons, Hf. split; [|tauto]. intros [->|[? ?]]; [|auto]. split; [by left|]. by exists type, number.
Qed.

(** [keep_file] says which paths are obsolete. *)
Lemma keep_file_obsolete (db : ldb W) held live p : (forall n, n ∈ live <-> in_use db held n) ->
  obsolete db held p <-> exists name type number, ldb_join LDB_PATH_MAX (db_dbname db) name = Some p /\ ldb_parse_filename name = Some (type, number) /\
    keep_file (db_versions db) live type number = false.
Proof.
  intros Hlive. unfold obsolete. split; intros (name & type & number & Hj & Hp & H); exists name, type, number; (split; [done|]); (split; [done|]);
    destruct type; cbn [keep_file] in *; try done.
  - apply orb_false_iff. rewrite Z.leb_gt, Z.eqb_neq. tauto.
  - by rewrite bool_decide_eq_false, Hlive.
  - lia.
  - by rewrite bool_decide_eq_false, Hlive.
  - apply orb_false_iff in H. rewrite Z.leb_gt, Z.eqb_neq in H. tauto.
  - by rewrite bool_decide_eq_false, Hlive in H.
  - lia.
  - by rewrite bool_decide_eq_false, Hlive in H.
Qed.

Lemma remove_obsolete_ok e fs (db : ldb W) held : rep e fs -> counted (db_versions db) held ->
  exists e' fs', ldb_remove_obsolete_files ops dirs e db = Some e' /\ rep e' fs' /\
    (forall p, ~ obsolete db held p -> fs' !! p = fs !! p) /\ (forall w q, names e w q -> ~ obsolete db held q -> names e' w q) /\
    if db_bg_error db =? LDB_OK
    then forall filenames, dir_children dirs e (db_dbname db) = Some filenames -> forall p, obsolete db held p -> fs' !! p = None
    else fs' = fs.
Proof.
  intros R Hc. unfold ldb_remove_obsolete_files, obsolete_files. destruct (db_bg_error db =? LDB_OK); cbn [negb].
  2: { rewrite bind_some. cbn [delete_loop]. by exists e, fs. }
  destruct (add_files_counted _ _ Hc) as (cur & Ecur & Hadd). destruct (Hadd (db_pending_outputs db)) as (live & -> & Hlive). rewrite bind_some.
  set (children := default [] (dir_children dirs e (db_dbname db))).
  destruct (obsolete_loop_ok (db_versions db) live children e fs R) as (found & e1 & -> & R1 & Hfound & K1). rewrite bind_some.
  destruct (delete_loop_ok (db_dbname db) found e1 fs R1) as (fs' & R' & H1 & H2 & H3).
  assert (forall n, n ∈ live <-> in_use db held n) as Huse.
  { intros n. unfold in_use. rewrite Hlive. split.
    - intros [H|[H|H]]; [by left|right; left; by exists cur|by right; right].
    - intros [H|[(cur' & E' & H)|H]]; [by left| |by right; right]. rewrite Ecur in E'. injection E' as <-. auto. }
  assert (forall p, named (db_dbname db) found p -> obsolete db held p) as Hnamed.
  { intros p (name & (_ & type & number & Hp & Hk)%Hfound & Hj). apply (keep_file_obsolete db held live p Huse). by exists name, type, number. }
  eexists _, fs'. split; [reflexivity|]. split; [exact R'|]. split; [|split].
  - intros p Hn. apply H2. auto.
  - intros w q Hw Hn. apply H3; auto.
  - intros filenames Ech p Ho. destruct (fs !! p) as [f|] eqn:Ef.
    + apply H1. apply (keep_file_obsolete db held live p Huse) in Ho as (name & type & number & Hj & Hp & Hk). exists name. split; [|done].
      apply Hfound. split; [|by exists type, number]. unfold children. rewrite Ech. by apply (dl_children e fs (db_dbname db) filenames name p).
    + assert (named (db_dbname db) found p \/ ~ named (db_dbname db) found p) as [Hn|Hn]; [|by apply H1|by rewrite H2].
      destruct (decide (List.Exists (fun n => ldb_join LDB_PATH_MAX (db_dbname db) n = Some p) found)) as [Hx|Hx].
      * left. apply List.Exists_exists in Hx as (n & Hn & Hp). exists n. by rewrite list_elem_of_In.
      * right. intros (n & Hn & Hp). apply Hx, List.Exists_exists. exists n. by rewrite <- list_elem_of_In.
Qed.
End Removal.

(** ** Property *)

(** Removing the obsolete files of a database, whose references to versions
    are those in [held], removes only files that nobody needs: pending outputs,
    the tables of the current version and of every version that is held, logs
    from the current one on and the one before it, the MANIFEST and [CURRENT]
    are as before. If there is no background error and the directory can be
    listed it removes all the others whose names the program makes; after an
    error it removes nothing. *)
Theorem obsolete_files_removed {E W} (ops : env_ops E W) (dirs : dir_ops E) rep names `{!EnvLaws ops rep names (fun _ => True)} `{!DirLaws dirs rep names}
    e fs (db : ldb W) held : rep e fs -> counted (db_versions db) held -> 0 < vs_manifest_file_number (db_versions db) < 2 ^ 64 ->
  exists e' fs', ldb_remove_obsolete_files ops dirs e db = Some e' /\ rep e' fs' /\
    (forall n p, 0 < n < 2 ^ 64 -> in_use db held n -> ldb_table_filename LDB_PATH_MAX (db_dbname db) n = Some p -> fs' !! p = fs !! p) /\
    (forall n p, 0 < n < 2 ^ 64 -> vs_log_number (db_versions db) <= n \/ n = vs_prev_log_number (db_versions db) ->
      ldb_log_filename LDB_PATH_MAX (db_dbname db) n = Some p -> fs' !! p = fs !! p) /\
    (forall p, ldb_desc_filename LDB_PATH_MAX (db_dbname db) (vs_manifest_file_number (db_versions db)) = Some p -> fs' !! p = fs !! p) /\
    (forall p, ldb_current_filename LDB_PATH_MAX (db_dbname db) = Some p -> fs' !! p = fs !! p) /\
    if db_bg_error db =? LDB_OK
    then forall filenames, dir_children dirs e (db_dbname db) = Some filenames -> forall p, obsolete db held p -> fs' !! p = None
    else fs' = fs.
Proof.
  intros R Hc Hm. destruct (remove_obsolete_ok ops dirs rep names e fs db held R Hc) as (e' & fs' & H1 & H2 & H3 & _ & H4).
  exists e', fs'. do 2 (split; [done|]). repeat split; [| | | |exact H4].
  - intros n p Hn Hu Hp. apply H3. intros Ho. by apply (table_not_obsolete db held n p Hn Hp Ho).
  - intros n p Hn Hu Hp. apply H3. intros Ho. apply (log_not_obsolete db held n p Hn Hp) in Ho. lia.
  - intros p Hp. apply H3. intros Ho. apply (desc_not_obsolete db held (vs_manifest_file_number (db_versions db)) p) in Ho; [lia|lia|done].
  - intros p Hp. apply H3. by apply current_not_obsolete.
Qed.

(** A directory with a table of the current version, a pending output, the
    current log, and four files that are left over. *)
Definition crowded_version : ldb_version :=
  Version 1 [[test_file 1 6 10 (vkey Byte.x61 9) (vkey Byte.x61 3)]; []; []; []; []; []; []] None (-1) (SpecFloat.S754_zero false) (-1).
Definition crowded_db : ldb nat :=
  set_db_pending (set_db_versions (ldb_create (cstr "/db") ldb_dbopt_default)
    (Versions (cstr "/db") ldb_dbopt_default 9 4 7 5 0 None None 2 {[1%nat := crowded_version]} [1%nat] 1 (FileHeap 2 ∅) (replicate 7 []))) {[8]}.
Definition crowded_disk (paths : list string) : disk := Disk (list_to_map (map (fun p => (cstr p, VFile [] 0)) paths)) [].
Definition crowded_paths : list string :=
  ["/db/CURRENT"; "/db/MANIFEST-000004"; "/db/MANIFEST-000002"; "/db/000003.log"; "/db/000005.log"; "/db/000006.ldb"; "/db/000007.ldb"; "/db/000008.ldb"; "/db/000007.dbtmp"]%string.

Definition crowded_rest : disk :=
  crowded_disk ["/db/CURRENT"; "/db/MANIFEST-000004"; "/db/000005.log"; "/db/000006.ldb"; "/db/000008.ldb"]%string.

Lemma obsolete_files_removed_witness :
  ldb_remove_obsolete_files disk_ops disk_dirs (crowded_disk crowded_paths) crowded_db = Some crowded_rest /\
  dk_files crowded_rest !! cstr "/db/000006.ldb" = Some (VFile [] 0) /\ dk_files crowded_rest !! cstr "/db/000007.ldb" = None.
Proof.
  destruct (obsolete_files_removed disk_ops disk_dirs disk_rep disk_names (crowded_disk crowded_paths) _ crowded_db [] eq_refl) as (e' & fs' & E & R & H1 & _ & _ & _ & H2).
  - apply (counted_single (db_versions crowded_db) crowded_version); [reflexivity|reflexivity|reflexivity|cbn; lia].
  - by vm_compute.
  - assert (ldb_remove_obsolete_files disk_ops disk_dirs (crowded_disk crowded_paths) crowded_db = Some crowded_rest) as E1 by (by vm_compute).
    split; [exact E1|]. rewrite E1 in E. injection E as <-. unfold disk_rep in R. rewrite R. split.
    + rewrite (H1 6); [by vm_compute|lia| |by vm_compute]. right. left. exists crowded_version. split; [done|]. by left.
    + apply (H2 (default [] (dir_children disk_dirs (crowded_disk crowded_paths) (cstr "/db")))); [done|].
      exists (cstr "000007.ldb"), LDB_FILE_TABLE, 7. split; [by vm_compute|]. split; [by vm_compute|]. intros [H|[(cur & [= <-] & H)|(v & files & H & _)]].
      * change (7 ∈ ({[8]} : gset Z)) in H. by apply elem_of_singleton in H.
      * apply list_elem_of_In in H. vm_compute in H. destruct H as [H|[]]. discriminate.
      * by apply elem_of_nil in H.
Defined.
